(* ===== verification/_CoqProject ===== *)
-Q . S2P
Prelude.v
BitDependencies.v
BitVecDynamic.v
TruthTable.v
VectorTables.v
Reduction.v
ReductionProofs.v
TruthTableInvariant.v
BooleanTree.v
BooleanParser.v
BooleanTreeProofs.v
TGraph.v
TGraphInvariant.v
TLoopBreaker.v
TLoopBreakerProofs.v
TClockPropagator.v
ClockForward.v
ClockRun.v
Collection.v
CollectionLaws.v
CollectionSpecs.v
NLID.v
Geometry.v
Store.v
Names.v
Universe.v
UniverseInvariant.v
UniverseLibraries.v
UniverseDestroy.v
Hierarchy.v
Bus.v
Contents.v
Connections.v
DesignNets.v
Interface.v
InterfaceSteps.v
InterfaceTerms.v
TermLifetime.v
InstanceSteps.v
TermBits.v
Narrowing.v
TermNets.v
MergeAssigns.v
NetlistRuns.v
NetlistProperties.v
Paths.v
PathSteps.v
Equipotential.v
OccurrenceOrder.v
EquipotentialSteps.v
PathProperties.v
DNL.v
DNLFlatten.v
DNLIsos.v
DNLBuild.v
DNLProperties.v
VhdlLexer.v
VhdlPieces.v
VhdlProperties.v
VhdlSyntax.v
VhdlParser.v
VhdlDeclarations.v
VhdlStatements.v
VhdlUnits.v
VhdlParserSteps.v
VhdlExpressionSteps.v
VhdlStatementSteps.v
VhdlUnitSteps.v
VhdlGrammar.v
VhdlProductions.v
VhdlParserProperties.v
VhdlTypes.v
VhdlTypeProofs.v
VhdlChecker.v
VhdlCheckerProofs.v
VhdlAnalyzer.v
VhdlSchedule.v
VhdlDesigns.v
VhdlAnalyzerProofs.v
VhdlAnalyzerProperties.v
