(* ===== verification/Prelude.v ===== *)
(** Verification of the Naja netlist engine.

    Naja keeps a netlist, the logical contents of an electronic design, in
    memory: a universe of databases, libraries in databases, designs in
    libraries, and in each design terminals, nets and instances of other designs
    whose terminals are connected to the nets. Lazy collections walk all of
    these. Designs that are library cells carry truth tables, read from the
    Boolean functions of Liberty files; a timing graph is built on the side.
    File names below are relative to src/src/.

    * Parts

    Cell functions (nl/netlist/decorators, nl/formats/liberty).
    - [BitDependencies]: NLBitDependencies.cpp, sets of positions in 64-bit blocks.
    - [BitVecDynamic]: NLBitVecDynamic.h, rows of truth tables, in a word or a
      vector.
    - [TruthTable], [VectorTables], [Reduction]: SNLTruthTable.h, its factories,
      accessors, generic tables, vector selections and updates, constant
      reduction and gate recognisers. [TruthTableInvariant] and [ReductionProofs]
      prove that built tables are well formed, that the order is one, that a
      reduction denotes the substitution and that gates are recognised exactly.
    - [BooleanTree]: SNLBooleanTree.cpp, the shift-reduce parser of Liberty
      functions, and the expressions of SNLDesignModeling. [BooleanParser] gives
      its grammar, soundness and the round trip with a printer;
      [BooleanTreeProofs] the truth table and expression of a tree.

    Timing graph (tgraph).
    - [TGraph]: TGraph.cpp, TNode.cpp, TEdge.cpp, TClock.h; [TGraphInvariant]
      shows the invariant of the graph kept by every operation.
    - [TLoopBreaker] and [TLoopBreakerProofs]: the depth-first search that
      disables edges terminates, leaves no cycle and disables only edges on one.
    - [TClockPropagator], [ClockForward], [ClockRun]: the clocks of an edge are
      those that reach it; the errors; what a run leaves alone.

    Collections (core/NajaCollection.h).
    - [Collection]: containers, adaptors, iterators and the handle.
      [CollectionLaws] defines the contract of a collection as a class and shows
      that each adaptor meets it if the collection under it does;
      [CollectionSpecs] specifies the operations for any collection that does.

    Identifiers and geometry.
    - [NLID]: nl/netlist/core/NLID.h. [Geometry]: nl/netlist/pnl, points, boxes,
      orientations and transformations at the width of [long int].

    The hierarchy (nl/netlist/core).
    - [Store]: programs over a store that return, throw or are undefined, with
      weakest preconditions; the set ordered by identifier and the map of names
      that every owner keeps. [Names]: the table of names of NLUniverse.cpp.
    - [Universe]: NLUniverse.cpp, NLDB.cpp, NLLibrary.cpp and what SNLDesign.cpp
      does as an object of its library. A state has a heap per class; addresses
      are positive numbers. [UniverseInvariant],
      [UniverseLibraries], [UniverseDestroy] keep its invariant; [Hierarchy] is
      the state machine of these operations and its properties.

    The contents of designs (nl/netlist/snl).
    - [Bus]: scalars, buses and bits, the shape that nets and terminals share,
      with the positions of bits and the invariant of a heap of them.
      [Contents]: the state. The record [structure] holds the sets that designs
      own and the objects; [netlist] adds the fields by which objects are
      connected and numbered.
    - [Connections]: the [setNet] of SNLMacros.h and SNLBitNet.cpp, with the
      invariant [conn_wf], and the invariant [struct_wf] of the contents.
    - [DesignNets]: SNLScalarNet.cpp, SNLBusNet.cpp, SNLBusNetBit.cpp.
    - [Interface]: operations of SNLScalarTerm.cpp, SNLBusTerm.cpp,
      SNLBusTermBit.cpp, SNLInstance.cpp, SNLInstTerm.cpp and of the sets of
      SNLDesign.cpp. [InterfaceSteps], [InterfaceTerms], [TermLifetime],
      [InstanceSteps], [TermBits], [Narrowing] show for each what it does and
      that it keeps both invariants. While instances gain or lose terminals the invariant holds but
      for those under way, the parameter of [struct_wf_except].
    - [TermNets]: setTermsNets, the three setTermNet, and setNet of a bus.
      [MergeAssigns]: SNLDesign::mergeAssigns.
    - [NetlistRuns]: all these operations as a state machine, with the arguments
      that are allowed and checks that decide them; [NetlistProperties] states
      what holds in all reachable states, evaluates it on an example, and shows
      runs outside the allowed arguments that go wrong.

    Paths and what is connected through the hierarchy (nl/netlist/snl), over a
    netlist that does not change.
    - [Paths]: SNLSharedPath.cpp, SNLPath.cpp and the map of shared paths of
      SNLInstance.cpp. A path [spells] a list of instances: [PathSteps] tells what
      each function does in these terms and makes them a state machine.
    - [Equipotential]: SNLOccurrence.cpp and SNLEquipotential.cpp; a [std::set] of
      occurrences is undefined when their comparison is not a strict weak order.
      [OccurrenceOrder] tells the comparisons on what paths and occurrences stand
      for; [EquipotentialSteps] defines what is linked and shows
      that the search visits exactly that. [PathProperties] states the results,
      evaluates them on an example, and shows paths that are each less than the
      other.

    The flat netlist (dnl), of a netlist that does not change but for order
    identifiers.
    - [DNL]: DNL.h, DNL.cpp, DNL_impl.h. The unfolding keeps the instances, the
      leaves and the terminals in lists, and an identifier is an index. A
      traversal has a stack, marks and the state of what collects; the isos have
      the iso identifier of every terminal and the list of isos.
    - [DNLFlatten]: what unfolding leaves is given by the list of paths from the
      top; the class [flat_view] states what the flat netlist promises to a
      search. [DNLIsos] works against that class: a traversal meets the
      terminals connected to its start, each once. [DNLBuild]: the two rounds of
      tasks and the dangling nets label terminals by what they are connected to.
    - [DNLProperties] states the results from the netlist on, evaluates them, and
      shows netlists on which an assertion fails or a port gets no iso.

    The hierarchy and the contents are two state machines: the second takes the
    designs, with their references and whether they are primitive, as given.
    Both are built from [Store]; [NLID] orders the sets of both.

    The scanner of VHDL (vhdl).
    - [VhdlLexer]: vhdl/src/Lexer.cpp, Lexer.h. [VhdlPieces] tells what it does on
      the text that is left: blanks, comments and lexemes, and shows
      that the scanner takes these pieces one by one; [VhdlProperties] that
      tokens tile the source, that diagnostics are the malformed ones, that
      directives only drop tokens and that printed tokens are scanned back.

    The parser of VHDL (vhdl/src/Parser.cpp, Parser.h), over the tokens of the
    scanner; its state is the place, the flag for [wait], and the units,
    diagnostics and warnings collected.
    - [VhdlSyntax]: the structures of Parser.h. [VhdlParser]: tokens, expressions,
      bit strings and ranges; [VhdlDeclarations]: types, objects, entities and
      assignments; [VhdlStatements]: sequential statements, subprograms and
      processes, with the second attempt at a clocked process; [VhdlUnits]:
      instantiations, generate statements, design units and the whole parser.
    - [VhdlParserSteps] has the rules for runs that take tokens or complain and the
      tactic that goes through a body; [VhdlExpressionSteps],
      [VhdlStatementSteps] and [VhdlUnitSteps] apply them
      to every function in turn.
    - [VhdlGrammar] gives phrases of expressions, their tokens and their trees,
      and shows that the parser reads them. [VhdlProductions] has the productions
      of the language, level by level and without the parser's precedences, and
      shows that they derive such phrases only, and not those that mix logical
      operators or chain [**] and comparisons.
    - [VhdlParserProperties]: the parser returns on every source, a turn gives a
      unit or an error, expressions are well formed and follow the productions, and
      assignments, processes and instances have the parts that the analyzer reads.

    The analyzer of VHDL (vhdl/src/Analyzer.cpp, Analyzer.h), over the design file
    that the parser gives; a pointer to a node is its place in the file.
    - [VhdlTypes]: contexts, static integers at 64 bits, ranges and types;
      [VhdlTypeProofs] compares static integers with their values on [Z].
      [VhdlChecker]: types of expressions; [VhdlCheckerProofs] gives typing rules,
      and the places [unresolved] in which a character literal gets no type, and
      shows that what passes without a complaint has a type or such a literal.
    - [VhdlAnalyzer]: entities, architectures, instances, assignments, processes.
      [VhdlDesigns] tells which files are well formed; [VhdlAnalyzerProofs]
      shows that files without complaints are.
    - [VhdlSchedule]: the writes of one activation of a clocked process,
      the meaning of its statements, and that the writes have it. [VhdlAnalyzerProperties] composes the parser, the analyzer
      and the schedule: every source goes through them.

    * Conventions

    A program is a function from a state to an outcome and a state: [Ret], [Throw]
    with a shortened message, or [Undef] for a failed assertion, a null or
    deleted pointer, an index out of range or an integer overflow. A theorem that
    a program throws says in which state it does. Integers are [Z] with their
    wrap-around or overflow written out where values can reach it; sizes of
    containers are [nat]. Strings of names are given by their number, 0 for the
    empty name, except in [Names] itself.

    Fuel: the walks of [TLoopBreaker], [TClockPropagator], [BooleanParser] and
    [Collection] take fuel and give [Undef] without it; their theorems show for
    which fuel, a bound computed from the input, they return. The loops of
    [VhdlLexer] have one more turn than the source has characters, which is
    always enough. Every turn of a loop of [VhdlParser] takes a token and every call
    of an expression takes one or asks for a primary: [rounds] is one more than
    the tokens and [depth] twice that many. The
    recursions on shared paths take the number of those ever made, more than the
    length of any; [extractNet] takes more than the number of nets at the end of
    paths, which is finite when no design contains itself. The unfolding needs
    the number of paths below the top, which the rank of designs bounds, and a
    traversal one turn more than what it can push, from the number of terminals
    and the components of nets. The loops of the
    hierarchy and of the contents run over lists read beforehand; the analyzer
    recurses on trees.

    * What the theorems show

    Invariants of every reachable state (timing graph, hierarchy, contents of
    designs, truth tables); functional behaviour on all branches, errors
    included (lookups, creation, destruction, narrowing, connection); equivalence
    with a reference definition (constant reduction, mergeAssigns as the closure
    of the assigns, clocks and equipotentials as reachability, isos as the
    classes of connected terminals); refinement of the hierarchy by the flat
    netlist; liveness (isos under any order of tasks); refinement (expressions, collections
    against lists, schedules of processes against their statements); types
    (expressions of VHDL, accepted files); round trips (encodings, parsing, interning, identifiers, paths);
    termination (parsers, scanner, loop breaker, equipotentials, destruction of
    libraries); bounds
    (transformations and static integers without overflow). The tasks of a
    parallel loop of the flat netlist run one after the other, in an order that
    theorems quantify over; tasks that interleave are not modelled.

    Conditions. The code takes many things for granted that it does not check:
    pointers to objects that are there, identifiers that do not wrap, assigns
    with a net at their output and without cycles, leaves without nets inside,
    an order of paths that is one. The state machines have these conditions in
    [allowed], theorems on one operation name them in their comments, and a
    lemma near the theorem runs the code where one is broken: [Hierarchy] and
    [NetlistProperties] for identifiers, lost entries, destroyed bits and
    assigns, [PathProperties] for the order of paths, [DNLProperties] for nets
    inside leaves.

    * Not modelled

    Bundled terminals, parameters, attributes, source locations, clone, setModel,
    and deepCompare of designs and instances; of the flat netlist, printing and
    the questions to the modeling of cells; what runs on it (bne, optimization,
    metrics); the contents of the physical netlist; the primitives
    of NLDB0; the constructors of netlists, which
    walk the syntax trees of front ends, most of them outside the repository; dumpers, serialization, logs, Python bindings and applications.
    [getString] and the texts of messages are left out everywhere. Deletion in
    collections under iteration is not modelled. *)
From stdpp Require Export base list list_numbers numbers option strings gmap.
From Stdlib Require Export Lia.
From Stdlib Require Export NArith ZArith Bool Btauto.

#[export] Set Default Goal Selector "!".

(** * Outcomes: values, exceptions and undefined behaviour *)

(** What running a piece of C++ gives: a value, a thrown exception (the static
    part of its message), or undefined behaviour (a shift by the width of the
    type or more, an access out of a vector, a failed [assert]). *)
Inductive outcome (A : Type) : Type :=
| Ret (a : A)
| Throw (reason : string)
| Undef.
Arguments Ret {_} _.
Arguments Throw {_} _.
Arguments Undef {_}.

#[export] Instance outcome_ret : MRet outcome := @Ret.
#[export] Instance outcome_bind : MBind outcome := fun A B f m =>
  match m with
  | Ret a => f a
  | Throw e => Throw e
  | Undef => Undef
  end.
#[export] Instance outcome_fmap : FMap outcome := fun A B f m =>
  match m with
  | Ret a => Ret (f a)
  | Throw e => Throw e
  | Undef => Undef
  end.
#[export] Instance outcome_eq_dec `{EqDecision A} : EqDecision (outcome A).
Proof. solve_decision. Defined.

(** Guards: [if (not c) throw NLException(reason)], [assert(c)]. *)
Definition require (c : bool) (reason : string) : outcome unit :=
  if c then Ret tt else Throw reason.
Definition defined (c : bool) : outcome unit :=
  if c then Ret tt else Undef.

(** [vec[i]]: an access past the end of a vector is undefined. *)
Definition vec_at {A} (l : list A) (i : nat) : outcome A :=
  match l !! i with Some a => Ret a | None => Undef end.

Section outcome_lemmas.
Context {A B : Type}.
Implicit Types (m : outcome A) (f : A -> outcome B).

Lemma bind_Ret m f b :
  m ≫= f = Ret b <-> exists a, m = Ret a /\ f a = Ret b.
Proof. destruct m; cbn; naive_solver. Qed.

Lemma bind_Throw m f e :
  m ≫= f = Throw e <-> m = Throw e \/ exists a, m = Ret a /\ f a = Throw e.
Proof. destruct m; cbn; naive_solver. Qed.

Lemma bind_defined m f :
  m <> Undef -> (forall a, m = Ret a -> f a <> Undef) -> (m ≫= f) <> Undef.
Proof. destruct m; cbn; naive_solver. Qed.
End outcome_lemmas.

Lemma require_Ret c e : require c e = Ret tt <-> c = true.
Proof. destruct c; cbn; naive_solver. Qed.
Lemma defined_Ret c : defined c = Ret tt <-> c = true.
Proof. destruct c; cbn; naive_solver. Qed.
Lemma vec_at_Ret {A} (l : list A) i a : vec_at l i = Ret a <-> l !! i = Some a.
Proof. unfold vec_at. destruct (l !! i); naive_solver. Qed.
Lemma vec_at_lt {A} (l : list A) i : i < length l -> exists a, vec_at l i = Ret a.
Proof.
  intros H. destruct (lookup_lt_is_Some_2 l i H) as [a Ha].
  exists a. by apply vec_at_Ret.
Qed.

(** Inverts a successful run step by step. *)
Ltac invert_run :=
  repeat match goal with
  | H : (_ ≫= _) = Ret _ |- _ =>
      apply bind_Ret in H; destruct H as (? & ? & ?)
  | H : require _ _ = Ret ?u |- _ => destruct u; apply require_Ret in H
  | H : defined _ = Ret ?u |- _ => destruct u; apply defined_Ret in H
  | H : Ret _ = Ret _ |- _ => injection H as H; subst
  | H : Throw _ = Ret _ |- _ => discriminate H
  | H : Undef = Ret _ |- _ => discriminate H
  | H : mret _ = Ret _ |- _ => unfold mret, outcome_ret in H
  end.

(** Reduces boolean connectives in the hypotheses to propositions. *)
Ltac destruct_bools :=
  repeat match goal with
  | H : (_ && _) = true |- _ => apply andb_true_iff in H; destruct H
  | H : (_ || _) = false |- _ => apply orb_false_iff in H; destruct H
  | H : negb _ = true |- _ => apply negb_true_iff in H
  | H : negb _ = false |- _ => apply negb_false_iff in H
  | H : bool_decide _ = true |- _ => apply bool_decide_eq_true_1 in H
  | H : bool_decide _ = false |- _ => apply bool_decide_eq_false_1 in H
  end.

(** * Machine words *)

(** Unsigned words are [N]; the width is written where the code can wrap. *)
Definition u32max : N := 4294967295.
Definition u64max : N := 18446744073709551615.
Definition u32 (x : N) : N := (x mod 2 ^ 32)%N.
Definition u64 (x : N) : N := (x mod 2 ^ 64)%N.

Lemma u32max_pow : (u32max = 2 ^ 32 - 1)%N.
Proof. reflexivity. Qed.
Lemma u64max_pow : (u64max = 2 ^ 64 - 1)%N.
Proof. reflexivity. Qed.

(** * Counting loops *)

(** [for (i = 0; i < n; ++i)] over an unsigned counter. *)
Definition upto (n : N) : list N := N.of_nat <$> seq 0 (N.to_nat n).

Lemma elem_of_upto i n : i ∈ upto n <-> (i < n)%N.
Proof.
  unfold upto. rewrite list_elem_of_fmap. split.
  - intros (k & -> & Hk%elem_of_seq). lia.
  - intros Hi. exists (N.to_nat i). split; [lia|]. apply elem_of_seq. lia.
Qed.

Lemma length_upto n : length (upto n) = N.to_nat n.
Proof. unfold upto. by rewrite length_fmap, length_seq. Qed.

Lemma upto_succ n : upto (N.succ n) = upto n ++ [n].
Proof.
  unfold upto. rewrite N2Nat.inj_succ, seq_S, fmap_app. cbn.
  by rewrite N2Nat.id.
Qed.

Lemma NoDup_upto n : NoDup (upto n).
Proof. unfold upto. apply NoDup_fmap_2; [apply _|]. apply NoDup_seq. Qed.

Lemma lookup_upto n i : (N.of_nat i < n)%N -> upto n !! i = Some (N.of_nat i).
Proof.
  intros H. unfold upto. rewrite list_lookup_fmap, lookup_seq_lt; [done|lia].
Qed.

#[export] Hint Rewrite @length_upto : naja.

(** * Indices built bit by bit *)

(** [for (b = 0; b < n; ++b) idx |= f(b) << b]: the row index of an
    assignment, least significant variable first. *)
Definition set_bit_if (f : N -> bool) (idx b : N) : N :=
  N.lor idx (N.shiftl (N.b2n (f b)) b).
Definition index_of (f : N -> bool) (n : N) : N :=
  foldl (set_bit_if f) 0%N (upto n).

Lemma testbit_set_bit_if f idx b i :
  N.testbit (set_bit_if f idx b) i = N.testbit idx i || (bool_decide (i = b) && f b).
Proof.
  unfold set_bit_if. rewrite N.lor_spec. f_equal.
  destruct (N.lt_ge_cases i b).
  - rewrite N.shiftl_spec_low by done. by rewrite bool_decide_eq_false_2 by lia.
  - rewrite N.shiftl_spec_high' by done. case_bool_decide; subst.
    + rewrite N.sub_diag. by destruct (f b).
    + destruct (f b); cbn; [|done].
      assert (i - b <> 0)%N as Hne by lia.
      destruct (i - b)%N as [|p]; [done|]. by destruct p.
Qed.

Lemma testbit_index_of f n i :
  N.testbit (index_of f n) i = bool_decide (i < n)%N && f i.
Proof.
  unfold index_of. induction n as [|n IH] using N.peano_ind.
  - cbn. by rewrite bool_decide_eq_false_2 by lia.
  - rewrite upto_succ, foldl_app. cbn. rewrite testbit_set_bit_if, IH.
    repeat case_bool_decide; subst; try lia; cbn; try done; btauto.
Qed.

Lemma lt_pow2_testbit x n :
  (forall i, (n <= i)%N -> N.testbit x i = false) -> (x < 2 ^ n)%N.
Proof.
  intros H. destruct (N.eq_dec x 0) as [->|Hx].
  - apply N.neq_0_lt_0, N.pow_nonzero. lia.
  - apply N.log2_lt_pow2; [lia|].
    destruct (N.lt_ge_cases (N.log2 x) n) as [|Hge]; [done|].
    specialize (H _ Hge). by rewrite N.bit_log2 in H by done.
Qed.

Lemma testbit_lt_pow2 x n i :
  (x < 2 ^ n)%N -> (n <= i)%N -> N.testbit x i = false.
Proof.
  intros Hx Hi. destruct (N.eq_dec x 0) as [->|Hne]; [apply N.bits_0|].
  apply N.bits_above_log2. apply N.log2_lt_pow2 in Hx; lia.
Qed.

Lemma index_of_lt f n : (index_of f n < 2 ^ n)%N.
Proof.
  apply lt_pow2_testbit. intros i Hi. rewrite testbit_index_of.
  by rewrite bool_decide_eq_false_2 by lia.
Qed.

Lemma index_of_ext f g n :
  (forall i, (i < n)%N -> f i = g i) -> index_of f n = index_of g n.
Proof.
  intros H. apply N.bits_inj. intros i. rewrite !testbit_index_of.
  case_bool_decide; [|done]. by rewrite H.
Qed.

(** Every row below [2 ^ n] is the index of its own bits. *)
Lemma index_of_testbit x n : (x < 2 ^ n)%N -> index_of (N.testbit x) n = x.
Proof.
  intros Hx. apply N.bits_inj. intros i. rewrite testbit_index_of.
  case_bool_decide as Hi; [done|]. cbn. symmetry.
  apply testbit_lt_pow2 with n; [done|lia].
Qed.

Lemma testbit_eq_lt x y n :
  (x < 2 ^ n)%N -> (y < 2 ^ n)%N ->
  (forall i, (i < n)%N -> N.testbit x i = N.testbit y i) -> x = y.
Proof.
  intros Hx Hy H. rewrite <- (index_of_testbit x n), <- (index_of_testbit y n) by done.
  by apply index_of_ext.
Qed.

Lemma pow2_pos n : (0 < 2 ^ n)%N.
Proof. apply N.neq_0_lt_0, N.pow_nonzero. lia. Qed.

(** * Lists *)

Lemma upto_add a b : upto (a + b) = upto a ++ ((fun i => a + i)%N <$> upto b).
Proof.
  induction b as [|b IH] using N.peano_ind.
  - rewrite N.add_0_r. cbn. by rewrite app_nil_r.
  - rewrite N.add_succ_r, !upto_succ, IH, fmap_app. cbn. by rewrite app_assoc.
Qed.

Lemma filter_all {A} (P : A -> Prop) `{!forall x, Decision (P x)} (l : list A) :
  Forall P l -> filter P l = l.
Proof. induction 1; [done|]. rewrite filter_cons_True by done. congruence. Qed.

Lemma filter_none {A} (P : A -> Prop) `{!forall x, Decision (P x)} (l : list A) :
  Forall (fun x => ~ P x) l -> filter P l = [].
Proof. induction 1; [done|]. by rewrite filter_cons_False. Qed.

Lemma list_filter_iff_elem {A} (P Q : A -> Prop)
    `{!forall x, Decision (P x), !forall x, Decision (Q x)} (l : list A) :
  (forall x, x ∈ l -> P x <-> Q x) -> filter P l = filter Q l.
Proof.
  induction l as [|x l IH]; intros Hpq; [done|].
  rewrite !filter_cons, IH by (intros; apply Hpq; by right).
  specialize (Hpq x (list_elem_of_here _ _)).
  destruct (decide (P x)), (decide (Q x)); tauto.
Qed.

Lemma filter_remove_head {A} (P Q : A -> Prop)
    `{!forall x, Decision (P x), !forall x, Decision (Q x)} (l : list A) c rest :
  NoDup l -> filter P l = c :: rest -> (forall x, Q x <-> P x /\ x <> c) ->
  filter Q l = rest.
Proof.
  revert rest. induction l as [|x l IH]; intros rest Hnd Hf HQ; [done|].
  apply NoDup_cons in Hnd as [Hx Hnd]. rewrite filter_cons in Hf |- *.
  destruct (decide (P x)) as [HP|HP].
  - injection Hf as -> <-. destruct (decide (Q c)) as [Hq|_].
    { by apply HQ in Hq as [_ ?]. }
    apply list_filter_iff_elem. intros y Hy. rewrite HQ.
    split; [tauto|]. intros ?; split; [done|]. by intros ->.
  - destruct (decide (Q x)) as [Hq|_]; [by apply HQ in Hq as [? _]|]. by apply IH.
Qed.

Lemma filter_fmap {A B} (f : A -> B) (P : B -> Prop) (Q : A -> Prop)
    `{!forall x, Decision (P x), !forall x, Decision (Q x)} (l : list A) :
  (forall x, x ∈ l -> P (f x) <-> Q x) -> filter P (f <$> l) = f <$> filter Q l.
Proof.
  induction l as [|x l IH]; intros Hpq; [done|]. cbn [fmap list_fmap].
  rewrite !filter_cons, IH by (intros; apply Hpq; by right).
  specialize (Hpq x (list_elem_of_here _ _)).
  destruct (decide (P (f x))), (decide (Q x)); try tauto; done.
Qed.

(** The head of a filtered counting loop is the least index that satisfies
    the predicate. *)
Lemma filter_upto_head (P : N -> Prop) `{!forall x, Decision (P x)} n c rest :
  filter P (upto n) = c :: rest ->
  (c < n)%N /\ P c /\ forall i, (i < c)%N -> ~ P i.
Proof.
  intros Hf. assert (c ∈ filter P (upto n)) as [HP Hc]%list_elem_of_filter
    by (rewrite Hf; left).
  apply elem_of_upto in Hc. split_and!; [done..|]. intros i Hi HPi.
  replace n with (c + (n - c))%N in Hf by lia.
  rewrite upto_add, filter_app in Hf.
  assert (i ∈ filter P (upto c)) as Hin
    by (apply list_elem_of_filter; split; [done|by apply elem_of_upto]).
  destruct (filter P (upto c)) as [|h t] eqn:E; [by apply not_elem_of_nil in Hin|].
  injection Hf as -> _.
  assert (c ∈ filter P (upto c)) as [_ Hcc]%list_elem_of_filter by (rewrite E; left).
  apply elem_of_upto in Hcc. lia.
Qed.

Lemma index_of_succ f n :
  index_of f (N.succ n) = (index_of f n + N.b2n (f n) * 2 ^ n)%N.
Proof.
  unfold index_of. rewrite upto_succ, foldl_app. cbn. fold (index_of f n).
  unfold set_bit_if. rewrite N.shiftl_mul_pow2.
  assert (N.land (index_of f n) (N.b2n (f n) * 2 ^ n) = 0)%N as Hd.
  { apply N.bits_inj. intros i. rewrite N.land_spec, testbit_index_of, N.bits_0.
    case_bool_decide; cbn; [|done].
    by rewrite N.mul_pow2_bits_low, andb_false_r. }
  by rewrite N.add_nocarry_lxor, N.lxor_lor.
Qed.

(** Comparing two indices bit by bit from the top is comparing the numbers. *)
Lemma index_of_ltb_succ f g n :
  (index_of f (N.succ n) <? index_of g (N.succ n))%N =
    if Bool.eqb (f n) (g n) then (index_of f n <? index_of g n)%N
    else negb (f n) && g n.
Proof.
  rewrite !index_of_succ. pose proof (index_of_lt f n). pose proof (index_of_lt g n).
  destruct (f n), (g n); cbn [N.b2n Bool.eqb negb andb];
    destruct (N.ltb_spec (index_of f n) (index_of g n)); rewrite ?N.ltb_lt, ?N.ltb_ge; lia.
Qed.

(** A fold whose state absorbs every step. *)
Lemma foldl_absorb {A B} (f : A -> B -> A) (a : A) :
  (forall b, f a b = a) -> forall l, foldl f a l = a.
Proof. intros H l. induction l as [|b l IH]; cbn; [done|by rewrite H]. Qed.

(** * Strings *)

Lemma string_app_assoc (a b c : string) : (a +:+ b) +:+ c = a +:+ (b +:+ c).
Proof. induction a as [|x a IH]; [done|]. exact (f_equal (String x) IH). Qed.
Lemma string_app_empty (a : string) : a +:+ EmptyString = a.
Proof. induction a as [|x a IH]; [done|]. exact (f_equal (String x) IH). Qed.

(** * Lexicographic orders *)

(** A computed strict total order. *)
Class StrictTotal {A} (lt : A -> A -> bool) : Prop := {
  lt_irreflexive x : lt x x = false;
  lt_transitive x y z : lt x y = true -> lt y z = true -> lt x z = true;
  lt_total x y : lt x y = true \/ x = y \/ lt y x = true }.

Lemma lt_asymmetric {A} (lt : A -> A -> bool) `{!StrictTotal lt} x y :
  lt x y = true -> lt y x = false.
Proof.
  intros H. apply not_true_iff_false. intros H'.
  pose proof (lt_transitive _ _ _ H H') as Hx. by rewrite lt_irreflexive in Hx.
Qed.

#[export] Instance N_ltb_total : StrictTotal N.ltb.
Proof.
  split.
  - apply N.ltb_irrefl.
  - intros x y z. rewrite !N.ltb_lt. lia.
  - intros x y. rewrite !N.ltb_lt. lia.
Qed.

(** [std::lexicographical_compare]: the order of vectors and tuples. *)
Fixpoint lex_lt {A} (lt : A -> A -> bool) (l k : list A) : bool :=
  match l, k with
  | _, [] => false
  | [], _ :: _ => true
  | x :: l, y :: k => lt x y || (negb (lt y x) && lex_lt lt l k)
  end.

Lemma lex_lt_cons {A} (lt : A -> A -> bool) `{!StrictTotal lt} x y l k :
  lex_lt lt (x :: l) (y :: k) = true <->
    lt x y = true \/ x = y /\ lex_lt lt l k = true.
Proof.
  cbn. rewrite orb_true_iff, andb_true_iff, negb_true_iff. split.
  - intros [|[Hyx Hlk]]; [by left|]. destruct (lt_total x y) as [H|[->|H]]; [by left|by right|congruence].
  - intros [|[-> Hlk]]; [by left|]. right. by rewrite lt_irreflexive.
Qed.

#[export] Instance lex_lt_total {A} (lt : A -> A -> bool) `{!StrictTotal lt} :
  StrictTotal (lex_lt lt).
Proof.
  split.
  - induction x as [|x l IH]; [done|]. cbn. by rewrite lt_irreflexive, IH.
  - induction x as [|x l IH]; intros [|y k] [|z m]; try (cbn; congruence).
    rewrite !(lex_lt_cons lt). intros [H1|[-> H1]] [H2|[-> H2]]; eauto using lt_transitive.
  - induction x as [|x l IH]; intros [|y k]; [by auto..|].
    rewrite !(lex_lt_cons lt). destruct (lt_total x y) as [H|[->|H]]; auto.
    destruct (IH k) as [H|[->|H]]; auto.
Qed.

(** * Guards as propositions *)

(** Turns the boolean guards of a translated condition into propositions. *)
#[export] Hint Rewrite negb_orb negb_andb negb_involutive andb_true_iff orb_true_iff
  andb_false_iff orb_false_iff negb_true_iff negb_false_iff
  N.eqb_eq N.eqb_neq N.leb_le N.leb_gt N.ltb_lt N.ltb_ge
  Z.eqb_eq Z.eqb_neq Z.leb_le Z.leb_gt Z.ltb_lt Z.ltb_ge
  bool_decide_eq_true bool_decide_eq_false Bool.eqb_true_iff : guards.
Ltac guards := autorewrite with guards in *.

(** Decides the [bool_decide]s of closed or assumed facts. *)
Ltac decide_guards :=
  repeat match goal with
  | |- context [bool_decide ?P] =>
      first [rewrite (bool_decide_eq_true_2 P) by (done || tauto)
            |rewrite (bool_decide_eq_false_2 P) by (done || naive_solver)]
  end.
