(* ===== verification/BitDependencies.v ===== *)
(** [NLBitDependencies]: sets of term order identifiers packed in 64-bit
    blocks (src/src/nl/netlist/decorators/NLBitDependencies.cpp). *)
From S2P Require Import Prelude.
Local Open Scope N_scope.

(** * Bit counting (C++20 [<bit>]) *)

(** The positions of the bits set in a 64-bit word, in increasing order. *)
Definition set_bits (x : N) : list N := filter (fun i => N.testbit x i = true) (upto 64).

(** [std::popcount] and [std::countr_zero]. *)
Definition popcount (x : N) : N := N.of_nat (length (set_bits x)).
Definition countr_zero (x : N) : N := default 64 (head (set_bits x)).

Definition countBits (x : N) : N := popcount x.

Definition countBitsForVector (blocks : list N) : N :=
  foldl (fun count block => count + popcount block) 0 blocks.

(** * Encoding *)

(** [result[pos / 64] |= (1ULL << (pos % 64))] *)
Definition encode_position (result : list N) (pos : N) : list N :=
  alter (fun block => N.lor block (N.shiftl 1 (pos mod 64))) (N.to_nat (pos / 64)) result.

Definition encode_blocks (positions : list N) : list N :=
  match positions with
  | [] => []
  | _ =>
      let maxPos := foldr N.max 0 positions in
      let numBlocks := maxPos / 64 + 1 in
      foldl encode_position (replicate (N.to_nat numBlocks) 0) positions
  end.

(** The whole function, with its closing [assert(result.back() != 0)]. *)
Definition encodeBits (positions : list N) : outcome (list N) :=
  match positions with
  | [] => Ret []
  | _ =>
      let result := encode_blocks positions in
      _ ← defined (bool_decide (default 0 (last result) <> 0));
      Ret result
  end.

(** * Decoding *)

(** [while (x != 0)]: the lowest set bit is pushed and cleared. The block index
    is cast to the 32-bit [DesignObjectID] before it is multiplied. *)
Fixpoint decode_block (fuel : nat) (blockIdx x : N) (out : list N) : outcome (list N) :=
  if x =? 0 then Ret out
  else match fuel with
  | O => Undef
  | S fuel =>
      let bit := countr_zero x in
      decode_block fuel blockIdx (N.land x (x - 1))
        (out ++ [u64 (u32 (u32 blockIdx * 64) + bit)])
  end.

Fixpoint decode_loop (blockIdx : N) (blocks : list N) (out : list N) : outcome (list N) :=
  match blocks with
  | [] => Ret out
  | x :: blocks =>
      out ← decode_block 64 blockIdx x out;
      decode_loop (blockIdx + 1) blocks out
  end.

Definition decodeBits (blocks : list N) : outcome (list N) :=
  out ← decode_loop 0 blocks [];
  enc ← encodeBits out;
  _ ← defined (if bool_decide (length enc = length blocks)
               then bool_decide (enc = blocks)
               else bool_decide (countBitsForVector enc = countBitsForVector blocks));
  Ret out.

(** * Holes *)

(** One iteration of the inner loop; [None] is the early [return false]. *)
Definition isSimple_step (found_zero_bit : option bool) (bit_set : bool) : option bool :=
  found ← found_zero_bit;
  if bit_set then (if (found : bool) then None else Some found) else Some true.

Definition isSimple_block (st : option bool) (block : N) : option bool :=
  foldl (fun st i => isSimple_step st (N.testbit block i)) st (upto 64).

Definition isSimple (blocks : list N) : bool :=
  bool_decide (is_Some (foldl isSimple_block (Some false) blocks)).

(** * Meaning of a block vector *)

(** Does the block vector contain position [i]? *)
Definition dep_bit (blocks : list N) (i : N) : bool :=
  N.testbit (default 0 (blocks !! N.to_nat (i / 64))) (i mod 64).

(** Blocks are 64-bit words. *)
Definition is_block (x : N) : Prop := x < 2 ^ 64.

(** * Lowest set bit *)

Lemma elem_of_set_bits x i : i ∈ set_bits x <-> i < 64 /\ N.testbit x i = true.
Proof.
  unfold set_bits. rewrite list_elem_of_filter, elem_of_upto. tauto.
Qed.

Lemma length_set_bits x : (length (set_bits x) <= 64)%nat.
Proof.
  unfold set_bits. etransitivity; [apply length_filter|]. by rewrite length_upto.
Qed.

Lemma set_bits_nil x : is_block x -> set_bits x = [] -> x = 0.
Proof.
  intros Hx Hnil. apply testbit_eq_lt with 64; [done|apply pow2_pos|].
  intros i Hi. rewrite N.bits_0. apply not_true_is_false. intros Hb.
  assert (i ∈ set_bits x) as Hin by (by apply elem_of_set_bits).
  rewrite Hnil in Hin. by apply not_elem_of_nil in Hin.
Qed.

Lemma land_pred_testbit x c i :
  N.testbit x c = true -> (forall j, j < c -> N.testbit x j = false) ->
  N.testbit (N.land x (x - 1)) i = N.testbit x i && bool_decide (i <> c).
Proof.
  intros Hc Hlow. rewrite N.land_spec.
  assert (x mod 2 ^ c = 0) as Hmod.
  { apply testbit_eq_lt with c.
    - apply N.mod_upper_bound, N.pow_nonzero. lia.
    - apply pow2_pos.
    - intros j Hj. rewrite N.mod_pow2_bits_low, N.bits_0 by done. by apply Hlow. }
  set (q := x / 2 ^ N.succ c).
  assert (x = q * 2 ^ N.succ c + 2 ^ c) as Hx.
  { pose proof (N.div_mod' x (2 ^ c)) as H1. rewrite Hmod, N.add_0_r in H1.
    pose proof (N.div_mod' (x / 2 ^ c) 2) as H2.
    rewrite N.Div0.div_div in H2.
    rewrite <- N.bit0_mod, N.div_pow2_bits, N.add_0_l, Hc in H2. cbn [N.b2n] in H2.
    replace (2 ^ c * 2) with (2 ^ N.succ c) in H2 by (rewrite N.pow_succ_r'; lia).
    fold q in H2. rewrite N.pow_succ_r'. nia. }
  pose proof (pow2_pos c) as Hp.
  assert (x - 1 = (2 ^ c - 1) + q * 2 ^ N.succ c) as Hx1 by lia.
  assert (2 ^ N.succ c = 2 * 2 ^ c) as Hs by apply N.pow_succ_r'.
  case_bool_decide as Hne; cbn.
  - destruct (N.lt_ge_cases i c) as [Hlt|Hge]; [by rewrite Hlow|].
    rewrite andb_true_r. replace i with ((i - N.succ c) + N.succ c) by lia.
    rewrite <- !N.div_pow2_bits, Hx1, N.div_add by lia.
    rewrite (N.div_small (2 ^ c - 1)) by lia. cbn. fold q. by rewrite andb_diag.
  - subst i. rewrite andb_false_r, Hc. cbn.
    replace (q * 2 ^ N.succ c) with ((2 * q) * 2 ^ c) in Hx1 by lia.
    pose proof (N.div_pow2_bits (x - 1) c 0) as Hb. rewrite N.add_0_l in Hb.
    rewrite <- Hb, Hx1, N.div_add by lia.
    rewrite N.div_small by lia. cbn [N.add]. apply N.testbit_even_0.
Qed.

Lemma set_bits_clear x c rest :
  set_bits x = c :: rest -> countr_zero x = c /\ set_bits (N.land x (x - 1)) = rest.
Proof.
  intros Hx. split; [unfold countr_zero; by rewrite Hx|].
  destruct (filter_upto_head _ _ _ _ Hx) as (_ & Hc & Hlow).
  eapply filter_remove_head; [apply NoDup_upto|exact Hx|].
  intros i. cbn. rewrite land_pred_testbit with (c := c); [|done|].
  - by rewrite andb_true_iff, bool_decide_eq_true.
  - intros j Hj. apply not_true_is_false. by apply Hlow.
Qed.

Lemma is_block_land x y : is_block x -> is_block (N.land x y).
Proof.
  unfold is_block. intros Hx. apply lt_pow2_testbit. intros i Hi.
  rewrite N.land_spec. by rewrite (testbit_lt_pow2 x 64) by done.
Qed.
#[export] Hint Resolve is_block_land : naja.

(** * Decoding *)

Lemma decode_block_spec fuel idx x out :
  is_block x -> (length (set_bits x) <= fuel)%nat ->
  decode_block fuel idx x out =
    Ret (out ++ ((fun bit => u64 (u32 (u32 idx * 64) + bit)) <$> set_bits x)).
Proof.
  revert x out. induction fuel as [|fuel IH]; intros x out Hx Hlen; cbn [decode_block];
    destruct (N.eqb_spec x 0) as [->|Hne]; try by rewrite app_nil_r.
  all: destruct (set_bits x) as [|c rest] eqn:E; [by apply set_bits_nil in E|].
  { cbn in Hlen. lia. }
  destruct (set_bits_clear _ _ _ E) as [-> Hrest].
  rewrite IH by (rewrite ?Hrest; auto with naja; cbn in Hlen; lia).
  by rewrite Hrest, <- app_assoc.
Qed.

(** The positions a block vector holds, in increasing order. *)
Definition positions (blocks : list N) : list N :=
  filter (fun i => dep_bit blocks i = true) (upto (64 * N.of_nat (length blocks))).

Lemma dep_bit_snoc_lt blocks x i :
  i < 64 * N.of_nat (length blocks) -> dep_bit (blocks ++ [x]) i = dep_bit blocks i.
Proof.
  intros Hi. unfold dep_bit. rewrite lookup_app_l; [done|].
  assert (i / 64 < N.of_nat (length blocks)); [|lia]. apply N.Div0.div_lt_upper_bound. lia.
Qed.

Lemma dep_bit_snoc_last blocks x b :
  b < 64 -> dep_bit (blocks ++ [x]) (64 * N.of_nat (length blocks) + b) = N.testbit x b.
Proof.
  intros Hb. unfold dep_bit. rewrite (N.mul_comm 64), N.div_add_l by lia.
  rewrite N.div_small, N.add_0_r by done. rewrite Nat2N.id, lookup_app_r, Nat.sub_diag by lia.
  cbn. f_equal. rewrite N.add_comm, N.Div0.mod_add, N.mod_small; [done|lia].
Qed.

Lemma positions_snoc blocks x :
  positions (blocks ++ [x]) =
    positions blocks ++ ((fun b => 64 * N.of_nat (length blocks) + b) <$> set_bits x).
Proof.
  unfold positions. rewrite length_app. cbn [length].
  replace (64 * N.of_nat (length blocks + 1)) with (64 * N.of_nat (length blocks) + 64) by lia.
  rewrite upto_add, filter_app. f_equal.
  - apply list_filter_iff_elem. intros i Hi%elem_of_upto. by rewrite dep_bit_snoc_lt.
  - apply filter_fmap. intros b Hb%elem_of_upto. by rewrite dep_bit_snoc_last.
Qed.

Lemma elem_of_positions blocks i :
  i ∈ positions blocks <-> dep_bit blocks i = true.
Proof.
  unfold positions. rewrite list_elem_of_filter, elem_of_upto. split; [tauto|].
  intros Hi. split; [done|]. unfold dep_bit in Hi.
  destruct (blocks !! N.to_nat (i / 64)) eqn:E; [|by rewrite N.bits_0 in Hi].
  apply lookup_lt_Some in E. pose proof (N.div_mod' i 64).
  pose proof (N.mod_upper_bound i 64). lia.
Qed.

Lemma NoDup_positions blocks : NoDup (positions blocks).
Proof. apply NoDup_filter, NoDup_upto. Qed.

Lemma decode_loop_app idx blocks blocks' out :
  decode_loop idx (blocks ++ blocks') out =
    (out ← decode_loop idx blocks out;
     decode_loop (idx + N.of_nat (length blocks)) blocks' out).
Proof.
  revert idx out. induction blocks as [|x blocks IH]; intros idx out.
  - cbn [length app decode_loop mbind outcome_bind]. by rewrite N.add_0_r.
  - cbn [length app decode_loop].
    destruct (decode_block 64 idx x out); cbn [mbind outcome_bind]; [|done..].
    rewrite IH. assert (idx + N.of_nat (S (length blocks)) = idx + 1 + N.of_nat (length blocks))
      as -> by lia. reflexivity.
Qed.

Lemma decode_loop_cons idx x blocks out :
  decode_loop idx (x :: blocks) out =
    (out ← decode_block 64 idx x out; decode_loop (idx + 1) blocks out).
Proof. reflexivity. Qed.

(** The 32-bit product of the block index does not wrap below [2 ^ 26] blocks. *)
Lemma decode_offset k b :
  k < 2 ^ 26 -> b < 64 -> u64 (u32 (u32 k * 64) + b) = 64 * k + b.
Proof.
  unfold u32, u64. intros Hk Hb. rewrite (N.mod_small k) by lia.
  rewrite (N.mod_small (k * 64)) by lia. rewrite N.mod_small; lia.
Qed.

Lemma decode_loop_spec blocks :
  Forall is_block blocks -> N.of_nat (length blocks) <= 2 ^ 26 ->
  decode_loop 0 blocks [] = Ret (positions blocks).
Proof.
  induction blocks as [|x blocks IH] using rev_ind; [done|].
  intros [Hb [Hx _]%Forall_cons]%Forall_app Hlen.
  rewrite length_app in Hlen. cbn [length] in Hlen.
  rewrite decode_loop_app, IH by (done || lia). cbn [mbind outcome_bind].
  rewrite decode_loop_cons, decode_block_spec by (done || apply length_set_bits).
  rewrite positions_snoc, N.add_0_l. cbn [mbind outcome_bind decode_loop].
  do 2 f_equal. apply list_fmap_ext. intros k b Hb'.
  apply list_elem_of_lookup_2, elem_of_set_bits in Hb' as [Hb' _].
  apply decode_offset; [lia|done].
Qed.

(** * Encoding *)

Lemma length_encode_position r p : length (encode_position r p) = length r.
Proof. apply length_alter. Qed.

Lemma length_encode_fold ps r : length (foldl encode_position r ps) = length r.
Proof.
  revert r. induction ps as [|p ps IH]; intros r; [done|]. cbn.
  by rewrite IH, length_encode_position.
Qed.

Lemma testbit_shift_one p i : N.testbit (N.shiftl 1 p) i = bool_decide (i = p).
Proof.
  rewrite N.shiftl_1_l. case_bool_decide; subst.
  - apply N.pow2_bits_true.
  - by apply N.pow2_bits_false.
Qed.

Lemma block_index p i :
  i / 64 = p / 64 -> (i mod 64 = p mod 64 <-> i = p).
Proof.
  pose proof (N.div_mod' i 64). pose proof (N.div_mod' p 64). split; [|by intros ->]. lia.
Qed.

Lemma dep_bit_encode_position r p i :
  p / 64 < N.of_nat (length r) ->
  dep_bit (encode_position r p) i = dep_bit r i || bool_decide (i = p).
Proof.
  intros Hp. unfold dep_bit, encode_position.
  destruct (decide (i / 64 = p / 64)) as [E|E].
  - rewrite E, list_lookup_alter_eq.
    destruct (lookup_lt_is_Some_2 r (N.to_nat (p / 64))) as [x ->]; [lia|]. cbn.
    rewrite N.lor_spec, testbit_shift_one. f_equal.
    apply bool_decide_ext. by apply block_index.
  - rewrite list_lookup_alter_ne by lia. rewrite (bool_decide_eq_false_2 (i = p)) by congruence.
    by rewrite orb_false_r.
Qed.

Lemma dep_bit_encode_fold ps r i :
  Forall (fun p => p / 64 < N.of_nat (length r)) ps ->
  dep_bit (foldl encode_position r ps) i = dep_bit r i || bool_decide (i ∈ ps).
Proof.
  revert r. induction ps as [|p ps IH]; intros r Hall; cbn.
  - rewrite bool_decide_eq_false_2 by apply not_elem_of_nil. by rewrite orb_false_r.
  - apply Forall_cons in Hall as [Hp Hps].
    rewrite IH, dep_bit_encode_position by (try done; by rewrite length_encode_position).
    rewrite <- orb_assoc. f_equal. rewrite <- bool_decide_or.
    apply bool_decide_ext. by rewrite elem_of_cons.
Qed.

Lemma dep_bit_replicate n i : dep_bit (replicate n 0) i = false.
Proof.
  unfold dep_bit. destruct (replicate n 0 !! _) eqn:E; cbn; [|done].
  apply lookup_replicate in E as [-> _]. apply N.bits_0.
Qed.

Lemma elem_of_le_foldr_max p ps : p ∈ ps -> p <= foldr N.max 0 ps.
Proof. induction 1; cbn; lia. Qed.

Lemma foldr_max_elem ps : ps <> [] -> foldr N.max 0 ps ∈ ps.
Proof.
  induction ps as [|p ps IH]; [done|]. intros _. cbn.
  destruct (N.max_spec p (foldr N.max 0 ps)) as [[? ->]|[? ->]]; [|left].
  destruct ps; [cbn in *; lia|]. right. by apply IH.
Qed.

Lemma dep_bit_encode_blocks ps i :
  dep_bit (encode_blocks ps) i = bool_decide (i ∈ ps).
Proof.
  destruct ps as [|p ps]; [by rewrite bool_decide_eq_false_2 by apply not_elem_of_nil|].
  unfold encode_blocks. rewrite dep_bit_encode_fold.
  - by rewrite dep_bit_replicate.
  - apply Forall_forall. intros q Hq%elem_of_le_foldr_max. rewrite length_replicate.
    pose proof (N.Div0.div_le_mono _ _ 64 Hq). lia.
Qed.

Lemma length_encode_blocks ps :
  N.of_nat (length (encode_blocks ps)) =
    match ps with [] => 0 | _ => foldr N.max 0 ps / 64 + 1 end.
Proof.
  destruct ps as [|p ps]; [done|]. unfold encode_blocks.
  rewrite length_encode_fold, length_replicate. lia.
Qed.

Lemma is_block_lor x y : is_block x -> is_block y -> is_block (N.lor x y).
Proof.
  unfold is_block. intros Hx Hy. apply lt_pow2_testbit. intros i Hi.
  rewrite N.lor_spec. by rewrite !(testbit_lt_pow2 _ 64).
Qed.

Lemma encode_blocks_wf ps : Forall is_block (encode_blocks ps).
Proof.
  destruct ps as [|p ps]; [constructor|]. unfold encode_blocks.
  assert (Forall is_block (replicate (N.to_nat (foldr N.max 0 (p :: ps) / 64 + 1)) 0)) as H
    by (apply Forall_replicate; reflexivity).
  revert H. generalize (replicate (N.to_nat (foldr N.max 0 (p :: ps) / 64 + 1)) 0).
  generalize (p :: ps). clear p ps. intros ps. induction ps as [|p ps IH]; intros r Hr; [done|].
  cbn. apply IH. apply Forall_alter; [done|]. intros x _ Hx. apply is_block_lor; [done|].
  unfold is_block. rewrite N.shiftl_1_l. apply N.pow_lt_mono_r; [lia|].
  apply N.mod_upper_bound. lia.
Qed.

Lemma blocks_ext bs bs' :
  Forall is_block bs -> Forall is_block bs' -> length bs = length bs' ->
  (forall i, dep_bit bs i = dep_bit bs' i) -> bs = bs'.
Proof.
  intros H H' Hlen Heq. apply list_eq_same_length with (length bs); [done|done|].
  intros k x y Hk Hx Hy.
  pose proof (Forall_lookup_1 _ _ _ _ H Hx). pose proof (Forall_lookup_1 _ _ _ _ H' Hy).
  apply testbit_eq_lt with 64; [done..|]. intros i Hi.
  specialize (Heq (N.of_nat k * 64 + i)). unfold dep_bit in Heq.
  rewrite N.div_add_l, N.div_small, N.add_0_r, Nat2N.id, Hx, Hy in Heq by lia. cbn in Heq.
  by rewrite N.add_comm, N.Div0.mod_add, N.mod_small in Heq by lia.
Qed.

(** The closing assertion of [encodeBits] always holds. *)
Lemma encodeBits_Ret ps : encodeBits ps = Ret (encode_blocks ps).
Proof.
  destruct ps as [|p ps]; [done|]. unfold encodeBits.
  assert (default 0 (last (encode_blocks (p :: ps))) <> 0) as Hlast;
    [|by rewrite bool_decide_eq_true_2].
  set (m := foldr N.max 0 (p :: ps)).
  assert (dep_bit (encode_blocks (p :: ps)) m = true) as Hm.
  { rewrite dep_bit_encode_blocks. by apply bool_decide_eq_true_2, foldr_max_elem. }
  pose proof (length_encode_blocks (p :: ps)) as Hlen. cbv iota in Hlen.
  change (foldr N.max 0 (p :: ps)) with m in Hlen.
  rewrite last_lookup. unfold dep_bit in Hm. clearbody m.
  assert (length (encode_blocks (p :: ps)) = S (N.to_nat (m / 64))) as -> by lia. cbn [Nat.pred].
  intros H0. rewrite H0, N.bits_0 in Hm. done.
Qed.

Lemma countBitsForVector_positions blocks :
  countBitsForVector blocks = N.of_nat (length (positions blocks)).
Proof.
  induction blocks as [|x blocks IH] using rev_ind; [done|].
  unfold countBitsForVector in *. rewrite foldl_app, IH, positions_snoc, length_app, length_fmap.
  cbn. unfold popcount. lia.
Qed.

Lemma positions_ext bs bs' :
  (forall i, dep_bit bs i = dep_bit bs' i) -> positions bs ≡ₚ positions bs'.
Proof.
  intros H. apply NoDup_Permutation; [apply NoDup_positions..|].
  intros i. by rewrite !elem_of_positions, H.
Qed.

(** * Properties *)

Theorem encodeBits_spec ps :
  exists blocks, encodeBits ps = Ret blocks /\ Forall is_block blocks /\
    forall i, dep_bit blocks i = true <-> i ∈ ps.
Proof.
  exists (encode_blocks ps). split_and!; [apply encodeBits_Ret|apply encode_blocks_wf|].
  intros i. by rewrite dep_bit_encode_blocks, bool_decide_eq_true.
Qed.

Lemma decodeBits_positions blocks :
  Forall is_block blocks -> N.of_nat (length blocks) <= 2 ^ 26 ->
  decodeBits blocks = Ret (positions blocks).
Proof.
  intros Hb Hlen. unfold decodeBits. rewrite decode_loop_spec by done.
  cbn [mbind outcome_bind]. rewrite encodeBits_Ret. cbn [mbind outcome_bind].
  assert (forall i, dep_bit (encode_blocks (positions blocks)) i = dep_bit blocks i) as Hdep.
  { intros i. rewrite dep_bit_encode_blocks. apply eq_true_iff_eq.
    by rewrite bool_decide_eq_true, elem_of_positions. }
  rewrite (bool_decide_eq_true_2 (countBitsForVector _ = _)).
  2:{ rewrite !countBitsForVector_positions. f_equal. apply Permutation_length.
      by apply positions_ext. }
  case_bool_decide; [|done]. rewrite bool_decide_eq_true_2; [done|].
  by apply blocks_ext; [apply encode_blocks_wf|..].
Qed.

(** C18. Decoding an encoded list of positions (below 2^32, as the identifiers it
    holds) gives the same positions without duplicates, and the sanity check of
    [decodeBits] holds on the way. *)
Theorem decode_encode ps :
  Forall (fun p => p < 2 ^ 32) ps ->
  exists blocks, encodeBits ps = Ret blocks /\
    exists out, decodeBits blocks = Ret out /\ NoDup out /\ forall i, i ∈ out <-> i ∈ ps.
Proof.
  intros Hps. exists (encode_blocks ps). split; [apply encodeBits_Ret|].
  exists (positions (encode_blocks ps)). split; [|split; [apply NoDup_positions|]].
  - apply decodeBits_positions; [apply encode_blocks_wf|]. rewrite length_encode_blocks.
    destruct ps as [|p ps]; [done|].
    pose proof (foldr_max_elem (p :: ps)) as Hin.
    eapply Forall_forall in Hps; [|apply Hin; done].
    assert (foldr N.max 0 (p :: ps) / 64 < 2 ^ 26); [|lia].
    apply N.Div0.div_lt_upper_bound. exact Hps.
  - intros i. by rewrite elem_of_positions, dep_bit_encode_blocks, bool_decide_eq_true.
Qed.

Lemma decode_encode_witness :
  Forall (fun p => p < 2 ^ 32) [70; 3; 64; 3] /\
  exists blocks, encodeBits [70; 3; 64; 3] = Ret blocks /\
    exists out, decodeBits blocks = Ret out /\ NoDup out /\
      forall i, i ∈ out <-> i ∈ [70; 3; 64; 3].
Proof.
  assert (Forall (fun p => p < 2 ^ 32) [70; 3; 64; 3]) as H by (repeat constructor).
  split; [exact H|exact (decode_encode _ H)].
Defined.

(** C20. Encoding what was decoded gives back the vector, when it has no empty
    block at its end and fewer than the 2^26 blocks from which the 32-bit
    multiplication of the block index wraps. *)
Theorem encode_decode blocks :
  Forall is_block blocks -> N.of_nat (length blocks) <= 2 ^ 26 ->
  default 1 (last blocks) <> 0 ->
  (out ← decodeBits blocks; encodeBits out) = Ret blocks.
Proof.
  intros Hb Hlen Hlast. rewrite decodeBits_positions by done.
  cbn [mbind outcome_bind]. rewrite encodeBits_Ret. f_equal.
  assert (forall i, dep_bit (encode_blocks (positions blocks)) i = dep_bit blocks i) as Hdep.
  { intros i. rewrite dep_bit_encode_blocks. apply eq_true_iff_eq.
    by rewrite bool_decide_eq_true, elem_of_positions. }
  apply blocks_ext; [apply encode_blocks_wf|done| |done].
  induction blocks as [|x blocks _] using rev_ind; [done|].
  rewrite last_snoc in Hlast. cbn in Hlast.
  apply Forall_app in Hb as [_ [Hx _]%Forall_cons].
  destruct (set_bits x) as [|b0 r] eqn:E; [by apply set_bits_nil in E|].
  assert (b0 ∈ set_bits x) as [Hb0 Hbit]%elem_of_set_bits by (rewrite E; left).
  set (top := 64 * N.of_nat (length blocks) + b0).
  assert (top ∈ positions (blocks ++ [x])) as Htop.
  { apply elem_of_positions. unfold top. by rewrite dep_bit_snoc_last. }
  pose proof (length_encode_blocks (positions (blocks ++ [x]))) as Hl.
  destruct (positions (blocks ++ [x])) as [|p ps] eqn:Ep; [by apply not_elem_of_nil in Htop|].
  rewrite <- Ep in *. assert (foldr N.max 0 (positions (blocks ++ [x])) / 64
    = N.of_nat (length blocks)) as Hm.
  { assert (foldr N.max 0 (positions (blocks ++ [x])) ∈ positions (blocks ++ [x])) as Hin
      by (apply foldr_max_elem; by rewrite Ep).
    pose proof (elem_of_le_foldr_max _ _ Htop) as Hle.
    unfold positions in Hin at 2. apply list_elem_of_filter in Hin as [_ Hin].
    apply elem_of_upto in Hin. rewrite length_app in Hin. cbn [length] in Hin.
    symmetry. apply N.div_unique with (foldr N.max 0 (positions (blocks ++ [x]))
      - 64 * N.of_nat (length blocks)); unfold top in Hle; lia. }
  rewrite Hm in Hl. rewrite length_app. cbn [length]. lia.
Qed.

Lemma encode_decode_witness :
  (out ← decodeBits [0; 9]; encodeBits out) = Ret [0; 9].
Proof. apply encode_decode; [repeat constructor|done|done]. Defined.

(** ** Vectors without holes *)

Definition bits_of (blocks : list N) : list bool :=
  dep_bit blocks <$> upto (64 * N.of_nat (length blocks)).

Lemma bits_of_snoc blocks x :
  bits_of (blocks ++ [x]) = bits_of blocks ++ (N.testbit x <$> upto 64).
Proof.
  unfold bits_of. rewrite length_app. cbn [length].
  replace (64 * N.of_nat (length blocks + 1)) with (64 * N.of_nat (length blocks) + 64) by lia.
  rewrite upto_add, fmap_app, <- list_fmap_compose. f_equal.
  - apply list_fmap_ext. intros k i Hi%list_elem_of_lookup_2%elem_of_upto.
    by apply dep_bit_snoc_lt.
  - apply list_fmap_ext. intros k i Hi%list_elem_of_lookup_2%elem_of_upto.
    by apply dep_bit_snoc_last.
Qed.

Lemma isSimple_block_steps st x :
  isSimple_block st x = foldl isSimple_step st (N.testbit x <$> upto 64).
Proof.
  unfold isSimple_block. revert st.
  induction (upto 64) as [|i l IH]; intros st; [done|]. apply IH.
Qed.

Lemma isSimple_bits_of blocks :
  foldl isSimple_block (Some false) blocks = foldl isSimple_step (Some false) (bits_of blocks).
Proof.
  induction blocks as [|x blocks IH] using rev_ind; [done|].
  rewrite bits_of_snoc, !foldl_app, <- IH. apply isSimple_block_steps.
Qed.

Lemma isSimple_steps_true l :
  is_Some (foldl isSimple_step (Some true) l) <-> Forall (fun b => b = false) l.
Proof.
  induction l as [|[] l IH]; cbn; rewrite ?Forall_cons.
  - by split; [|eauto].
  - split; [|naive_solver]. intros [st H].
    assert (foldl isSimple_step None l = None) as E by (clear; by induction l).
    congruence.
  - rewrite IH. naive_solver.
Qed.

Lemma isSimple_steps_false l :
  is_Some (foldl isSimple_step (Some false) l) <->
    exists n m, l = replicate n true ++ replicate m false.
Proof.
  induction l as [|[] l IH]; cbn.
  - split; [|eauto]. intros _. by exists O, O.
  - rewrite IH. split.
    + intros (n & m & ->). by exists (S n), m.
    + intros ([|n] & m & H); [by destruct m|]. injection H as ->. eauto.
  - rewrite isSimple_steps_true. split.
    + intros H. exists O, (S (length l)). cbn. f_equal. symmetry.
      apply replicate_as_elem_of. split; [done|]. by apply Forall_forall.
    + intros ([|n] & m & H); [|done]. destruct m; [done|]. injection H as ->.
      by apply Forall_replicate.
Qed.

Lemma dep_bit_bits_of blocks i :
  dep_bit blocks i = default false (bits_of blocks !! N.to_nat i).
Proof.
  unfold bits_of. rewrite list_lookup_fmap.
  destruct (N.lt_ge_cases i (64 * N.of_nat (length blocks))) as [Hi|Hi].
  - rewrite lookup_upto by lia. cbn. by rewrite N2Nat.id.
  - rewrite lookup_ge_None_2 by (rewrite length_upto; lia). cbn.
    apply not_true_is_false. intros H%elem_of_positions%list_elem_of_filter.
    rewrite elem_of_upto in H. lia.
Qed.

Lemma prefix_count blocks n :
  (forall i, dep_bit blocks i = bool_decide (i < n)) -> countBitsForVector blocks = n.
Proof.
  intros H. rewrite countBitsForVector_positions.
  rewrite (Permutation_length (l' := upto n)); [rewrite length_upto; lia|].
  apply NoDup_Permutation; [apply NoDup_positions|apply NoDup_upto|].
  intros i. by rewrite elem_of_positions, H, bool_decide_eq_true, elem_of_upto.
Qed.

Lemma isSimple_iff blocks :
  isSimple blocks = true <->
    forall i, dep_bit blocks i = bool_decide (i < countBitsForVector blocks).
Proof.
  unfold isSimple. rewrite bool_decide_eq_true, isSimple_bits_of, isSimple_steps_false. split.
  - intros (n & m & Hl).
    assert (forall i, dep_bit blocks i = bool_decide (i < N.of_nat n)) as H.
    { intros i. rewrite dep_bit_bits_of, Hl. case_bool_decide as Hi.
      - rewrite lookup_app_l by (rewrite length_replicate; lia).
        by rewrite lookup_replicate_2 by lia.
      - rewrite lookup_app_r by (rewrite length_replicate; lia).
        destruct (replicate m false !! _) eqn:E; [|done].
        by apply lookup_replicate in E as [-> _]. }
    by rewrite (prefix_count _ _ H).
  - intros H. set (n := countBitsForVector blocks) in *.
    exists (N.to_nat n), (length (bits_of blocks) - N.to_nat n)%nat.
    assert (N.to_nat n <= length (bits_of blocks))%nat as Hn.
    { destruct (N.eq_dec n 0); [lia|]. specialize (H (n - 1)).
      rewrite bool_decide_eq_true_2, dep_bit_bits_of in H by lia.
      destruct (bits_of blocks !! _) eqn:E; [|done]. apply lookup_lt_Some in E. lia. }
    apply list_eq_same_length with (length (bits_of blocks));
      [rewrite length_app, !length_replicate; lia|done|].
    intros i x y Hi Hx Hy. specialize (H (N.of_nat i)).
    rewrite dep_bit_bits_of, Nat2N.id, Hx in H. cbn in H. rewrite H.
    destruct (decide (i < N.to_nat n)%nat).
    + rewrite bool_decide_eq_true_2 by lia.
      rewrite lookup_app_l, lookup_replicate_2 in Hy by (rewrite ?length_replicate; lia).
      congruence.
    + rewrite bool_decide_eq_false_2 by lia.
      rewrite lookup_app_r in Hy by (rewrite ?length_replicate; lia).
      by apply lookup_replicate in Hy as [-> _].
Qed.

(** [isSimple] accepts exactly the dependency vectors without a hole: those
    whose set positions are the first ones, and there are then as many of them
    as the vector counts. *)
Theorem isSimple_spec blocks :
  (isSimple blocks = true <-> exists n, forall i, dep_bit blocks i = bool_decide (i < n)) /\
  (isSimple blocks = true -> forall i, dep_bit blocks i = bool_decide (i < countBitsForVector blocks)).
Proof.
  split; [|apply isSimple_iff]. split.
  - intros H. exists (countBitsForVector blocks). by apply isSimple_iff.
  - intros [n Hn]. apply isSimple_iff. by rewrite (prefix_count _ _ Hn).
Qed.
