(* ===== verification/BitVecDynamic.v ===== *)
(** [NLBitVecDynamic]: the row vector of a truth table, one machine word up to
    64 rows and a [std::vector<bool>] above
    (src/src/nl/netlist/decorators/NLBitVecDynamic.h). *)
From S2P Require Import Prelude BitDependencies.
From stdpp Require Import pretty.
Local Open Scope N_scope.

(** * State *)

(** [std::variant<uint64_t, std::vector<bool>>] *)
Inductive bits_data :=
| Mask (m : N)
| Vec (v : list bool).
#[export] Instance bits_data_eq_dec : EqDecision bits_data.
Proof. solve_decision. Defined.

Record NLBitVecDynamic := mkBitVec { nbits_ : N; data_ : bits_data }.
#[export] Instance bitvec_eq_dec : EqDecision NLBitVecDynamic.
Proof. solve_decision. Defined.

(** * Constructors *)

Definition bitvec_default : NLBitVecDynamic := mkBitVec 0 (Mask 0).

Definition bitvec_of_mask (mask length : N) : outcome NLBitVecDynamic :=
  if length <=? 64 then Ret (mkBitVec length (Mask mask))
  else Throw "NLBitVecDynamic: cannot construct from mask when length>64".

Definition bitvec_of_vector (bits : list bool) (length : N) : outcome NLBitVecDynamic :=
  if 64 <? length then Ret (mkBitVec length (Vec bits))
  else Throw "When not over size of 64, use mask constructor.".

Definition bitvec_zeros (length : N) : NLBitVecDynamic :=
  mkBitVec length (if length <=? 64 then Mask 0 else Vec (replicate (N.to_nat length) false)).

(** * Accessors and operators *)

(** [(mask >> pos) & 1]: undefined for a shift by 64 or more. *)
Definition word_bit (mask pos : N) : outcome bool :=
  _ ← defined (pos <? 64);
  Ret (N.testbit mask pos).

(** [operator>>(pos)] *)
Definition bitvec_shr (b : NLBitVecDynamic) (pos : N) : outcome bool :=
  if nbits_ b <=? pos then Ret false
  else match data_ b with
  | Mask m => word_bit m pos
  | Vec v => vec_at v (N.to_nat pos)
  end.

(** [bit(i)]; [std::get] throws on the other alternative of the variant. *)
Definition bitvec_bit (b : NLBitVecDynamic) (i : N) : outcome bool :=
  if nbits_ b <=? 64 then
    match data_ b with
    | Mask m => word_bit m i
    | Vec _ => Throw "bad_variant_access"
    end
  else
    match data_ b with
    | Vec v => vec_at v (N.to_nat i)
    | Mask _ => Throw "bad_variant_access"
    end.

(** [operator|=(mask)] *)
Definition bitvec_or (b : NLBitVecDynamic) (mask : N) : NLBitVecDynamic :=
  match data_ b with
  | Mask m => mkBitVec (nbits_ b) (Mask (N.lor m mask))
  | Vec v =>
      mkBitVec (nbits_ b) (Vec (foldl (fun vec i =>
        if N.testbit mask i then <[N.to_nat i := true]> vec else vec)
        v (upto (N.min (nbits_ b) 64))))
  end.

(** [operator&(mask)] *)
Definition bitvec_and (b : NLBitVecDynamic) (mask : N) : outcome NLBitVecDynamic :=
  match data_ b with
  | Mask m => bitvec_of_mask (N.land m mask) (nbits_ b)
  | Vec vec =>
      match data_ (bitvec_zeros (nbits_ b)) with
      | Mask _ => Throw "bad_variant_access"
      | Vec ovec =>
          ovec ← foldl (fun acc i =>
                   ovec ← acc;
                   bit ← vec_at vec (N.to_nat i);
                   Ret (<[N.to_nat i := bit && N.testbit mask i]> ovec))
                 (Ret ovec) (upto (N.min (nbits_ b) 64));
          Ret (mkBitVec (nbits_ b) (Vec ovec))
      end
  end.

(** The loop of [operator<], from the most significant position down. *)
Fixpoint bitvec_lt_loop (a b : NLBitVecDynamic) (rows : nat) : outcome bool :=
  match rows with
  | O => Ret false
  | S pos =>
      let pos' := N.of_nat pos in
      b1 ← (if pos' <? nbits_ a then bitvec_shr a pos' else Ret false);
      b2 ← (if pos' <? nbits_ b then bitvec_shr b pos' else Ret false);
      if Bool.eqb b1 b2 then bitvec_lt_loop a b pos else Ret (negb b1 && b2)
  end.

Definition bitvec_lt (a b : NLBitVecDynamic) : outcome bool :=
  match data_ a, data_ b with
  | Mask m, Mask m' => Ret (m <? m')
  | _, _ => bitvec_lt_loop a b (N.to_nat (N.max (nbits_ a) (nbits_ b)))
  end.

(** [operator uint64_t()] *)
Definition bitvec_to_u64 (b : NLBitVecDynamic) : outcome N :=
  match data_ b with
  | Mask m => Ret m
  | Vec _ => Throw "NLBitVecDynamic: cannot generate uint64_t for above 64 bits"
  end.

(** [packBits]: [out[i >> 6] |= 1 << (i & 63)] for every set bit. *)
Definition packBits (bits : list bool) : list N :=
  let nbits := N.of_nat (length bits) in
  foldl (fun out i =>
      if default false (bits !! N.to_nat i)
      then alter (fun w => N.lor w (N.shiftl 1 (N.land i 63))) (N.to_nat (N.shiftr i 6)) out
      else out)
    (replicate (N.to_nat ((nbits + 63) / 64)) 0) (upto nbits).

Definition bitvec_getChunks (b : NLBitVecDynamic) : outcome (list N) :=
  if nbits_ b <=? 64 then
    match data_ b with
    | Mask m => Ret [m]
    | Vec _ => Throw "bad_variant_access"
    end
  else
    match data_ b with
    | Vec v => Ret (packBits v)
    | Mask _ => Throw "bad_variant_access"
    end.

Definition bitvec_toString (b : NLBitVecDynamic) : string :=
  match data_ b with
  | Mask m => pretty m
  | Vec v => foldl (fun result (bit : bool) => (result +:+ (if bit then "1" else "0"))%string) "" v
  end.

(** * Invariant and meaning *)

(** The alternative of the variant is the one [nbits_] calls for. *)
Definition bitvec_wf (b : NLBitVecDynamic) : Prop :=
  match data_ b with
  | Mask m => nbits_ b <= 64 /\ m < 2 ^ 64
  | Vec v => 64 < nbits_ b /\ N.of_nat (length v) = nbits_ b
  end.

(** The row [i] of the vector. *)
Definition bitvec_get (b : NLBitVecDynamic) (i : N) : bool :=
  match data_ b with
  | Mask m => N.testbit m i
  | Vec v => default false (v !! N.to_nat i)
  end.

(** The number a row vector compares as. *)
Definition bitvec_key (b : NLBitVecDynamic) : N :=
  match data_ b with
  | Mask m => m
  | Vec v => index_of (bitvec_get b) (nbits_ b)
  end.

Lemma word_bit_Ret m i : i < 64 -> word_bit m i = Ret (N.testbit m i).
Proof. intros H%N.ltb_lt. unfold word_bit. by rewrite H. Qed.

Lemma vec_at_default (v : list bool) i :
  (i < length v)%nat -> vec_at v i = Ret (default false (v !! i)).
Proof.
  intros H. apply vec_at_Ret. destruct (lookup_lt_is_Some_2 v i H) as [x Hx]. by rewrite Hx.
Qed.

Ltac destruct_bitvec b :=
  let nb := fresh "nb" in let m := fresh "m" in let v := fresh "v" in
  destruct b as [nb [m|v]]; unfold bitvec_wf in *; cbn [nbits_ data_] in *.

Lemma bitvec_bit_Ret b i :
  bitvec_wf b -> i < nbits_ b -> bitvec_bit b i = Ret (bitvec_get b i).
Proof.
  destruct_bitvec b; unfold bitvec_bit, bitvec_get; cbn; intros [H1 H2] Hi.
  - rewrite (proj2 (N.leb_le _ _)) by lia. apply word_bit_Ret. lia.
  - rewrite (proj2 (N.leb_gt _ _)) by lia. apply vec_at_default. lia.
Qed.

Lemma bitvec_shr_Ret b i :
  bitvec_wf b -> bitvec_shr b i = Ret (bool_decide (i < nbits_ b) && bitvec_get b i).
Proof.
  intros Hwf. unfold bitvec_shr. case_bool_decide as Hi.
  - rewrite (proj2 (N.leb_gt _ _)) by lia. destruct_bitvec b; unfold bitvec_get; cbn.
    + apply word_bit_Ret. lia.
    + apply vec_at_default. lia.
  - by rewrite (proj2 (N.leb_le _ _)) by lia.
Qed.

(** * Order *)

Lemma bitvec_lt_loop_spec a b rows :
  bitvec_wf a -> bitvec_wf b -> nbits_ a = nbits_ b -> N.of_nat rows <= nbits_ a ->
  bitvec_lt_loop a b rows =
    Ret (index_of (bitvec_get a) (N.of_nat rows) <? index_of (bitvec_get b) (N.of_nat rows)).
Proof.
  intros Ha Hb Heq. induction rows as [|pos IH]; intros Hr; [done|]. cbn [bitvec_lt_loop].
  rewrite <- Heq, (proj2 (N.ltb_lt _ _)) by lia.
  rewrite !bitvec_shr_Ret by done. rewrite <- Heq, !bool_decide_eq_true_2 by lia.
  cbn [mbind outcome_bind andb]. rewrite IH by lia.
  rewrite Nat2N.inj_succ, index_of_ltb_succ. by destruct (Bool.eqb _ _).
Qed.

(** [operator<] on vectors of one length compares their keys. *)
Lemma bitvec_lt_key a b :
  bitvec_wf a -> bitvec_wf b -> nbits_ a = nbits_ b ->
  bitvec_lt a b = Ret (bitvec_key a <? bitvec_key b).
Proof.
  intros Ha Hb Heq.
  assert (bitvec_lt_loop a b (N.to_nat (N.max (nbits_ a) (nbits_ b))) =
    Ret (index_of (bitvec_get a) (nbits_ a) <? index_of (bitvec_get b) (nbits_ b))) as Hl.
  { rewrite bitvec_lt_loop_spec by (done || lia).
    by rewrite <- Heq, N.max_id, N2Nat.id. }
  destruct_bitvec a; destruct_bitvec b; unfold bitvec_lt, bitvec_key; cbn in *;
    [done|lia|lia|exact Hl].
Qed.

Lemma bitvec_key_inj a b :
  bitvec_wf a -> bitvec_wf b -> nbits_ a = nbits_ b ->
  bitvec_key a = bitvec_key b -> a = b.
Proof.
  destruct_bitvec a; destruct_bitvec b; unfold bitvec_key; cbn; intros [??] [??] -> Hk;
    [by rewrite Hk|lia|lia|].
  do 2 f_equal. apply list_eq_same_length with (length v0); [done|lia|].
  intros i x y Hi Hx Hy.
  assert (N.testbit (index_of (bitvec_get (mkBitVec nb0 (Vec v))) nb0) (N.of_nat i) =
    N.testbit (index_of (bitvec_get (mkBitVec nb0 (Vec v0))) nb0) (N.of_nat i)) as Hb
    by (by rewrite Hk).
  rewrite !testbit_index_of, bool_decide_eq_true_2 in Hb by lia.
  unfold bitvec_get in Hb. cbn in Hb. by rewrite Nat2N.id, Hx, Hy in Hb.
Qed.

(** Two vectors of one length are ordered or equal: the test the truth table
    order relies on. *)
Lemma bitvec_lt_total a b :
  bitvec_wf a -> bitvec_wf b -> nbits_ a = nbits_ b ->
  bitvec_lt a b = Ret true \/ a = b \/ bitvec_lt b a = Ret true.
Proof.
  intros Ha Hb Heq. rewrite !bitvec_lt_key by done.
  destruct (N.lt_trichotomy (bitvec_key a) (bitvec_key b)) as [H|[H|H]].
  - left. f_equal. by apply N.ltb_lt.
  - right; left. by apply bitvec_key_inj.
  - do 2 right. f_equal. by apply N.ltb_lt.
Qed.

(** * Masking operators *)

Lemma foldl_set_true mask (l : list N) (v : list bool) i :
  Forall (fun k => (N.to_nat k < length v)%nat) l ->
  default false (foldl (fun vec k =>
    if N.testbit mask k then <[N.to_nat k := true]> vec else vec) v l !! N.to_nat i) =
  default false (v !! N.to_nat i) || (bool_decide (i ∈ l) && N.testbit mask i).
Proof.
  revert v. induction l as [|k l IH]; intros v Hall; cbn.
  - rewrite bool_decide_eq_false_2 by apply not_elem_of_nil. by rewrite orb_false_r.
  - apply Forall_cons in Hall as [Hk Hall]. rewrite IH.
    2:{ eapply Forall_impl; [exact Hall|]. intros ? ?. by destruct (N.testbit mask k); rewrite ?length_insert. }
    destruct (decide (i = k)) as [->|Hne].
    + rewrite (bool_decide_eq_true_2 (k ∈ k :: l)) by left.
      destruct (N.testbit mask k) eqn:E.
      * rewrite list_lookup_insert_eq by done. cbn. by rewrite orb_true_r.
      * by rewrite !andb_false_r.
    + assert (bool_decide (i ∈ k :: l) = bool_decide (i ∈ l)) as ->
        by (apply bool_decide_ext; set_solver).
      destruct (N.testbit mask k); [rewrite list_lookup_insert_ne by lia|]; done.
Qed.

Lemma length_foldl_set_true mask (l : list N) (v : list bool) :
  length (foldl (fun vec k =>
    if N.testbit mask k then <[N.to_nat k := true]> vec else vec) v l) = length v.
Proof.
  revert v. induction l as [|k l IH]; intros v; [done|]. cbn. rewrite IH.
  destruct (N.testbit mask k); [apply length_insert|done].
Qed.

(** [b |= mask] sets exactly the rows of the mask. *)
Theorem bitvec_or_spec b mask :
  bitvec_wf b -> mask < 2 ^ 64 ->
  bitvec_wf (bitvec_or b mask) /\ nbits_ (bitvec_or b mask) = nbits_ b /\
  forall i, bitvec_get (bitvec_or b mask) i = bitvec_get b i || N.testbit mask i.
Proof.
  intros Hwf Hm. destruct_bitvec b; unfold bitvec_or, bitvec_get; cbn.
  - destruct Hwf as [Hn Hmm]. split_and!; [done|by apply is_block_lor|done|].
    intros i. apply N.lor_spec.
  - rewrite length_foldl_set_true. split_and!; [by destruct Hwf..|done|].
    intros i. rewrite foldl_set_true.
    + f_equal. case_bool_decide as Hi; [done|]. rewrite elem_of_upto in Hi.
      by rewrite (testbit_lt_pow2 mask 64) by (done || lia).
    + apply Forall_forall. intros k Hk%elem_of_upto. lia.
Qed.

Lemma and_loop_spec mask (vec : list bool) (l : list N) (ovec : list bool) :
  Forall (fun k => (N.to_nat k < length vec)%nat) l -> length ovec = length vec ->
  exists out, foldl (fun acc i =>
      ovec ← acc; bit ← vec_at vec (N.to_nat i);
      Ret (<[N.to_nat i := bit && N.testbit mask i]> ovec)) (Ret ovec) l = Ret out /\
    length out = length vec /\
    forall i, default false (out !! N.to_nat i) =
      if bool_decide (i ∈ l) then default false (vec !! N.to_nat i) && N.testbit mask i
      else default false (ovec !! N.to_nat i).
Proof.
  revert ovec. induction l as [|k l IH]; intros ovec Hall Hlen; cbn.
  - exists ovec. split_and!; [done..|]. intros i.
    by rewrite bool_decide_eq_false_2 by apply not_elem_of_nil.
  - apply Forall_cons in Hall as [Hk Hall]. rewrite vec_at_default by done. cbn.
    destruct (IH (<[N.to_nat k := default false (vec !! N.to_nat k) && N.testbit mask k]> ovec))
      as (out & Hout & Hlo & Hget); [done|by rewrite length_insert|].
    exists out. split_and!; [done..|]. intros i. rewrite Hget.
    destruct (decide (i = k)) as [->|Hne].
    + rewrite (bool_decide_eq_true_2 (k ∈ k :: l)) by left.
      case_bool_decide; [done|]. by rewrite list_lookup_insert_eq by lia.
    + assert (bool_decide (i ∈ k :: l) = bool_decide (i ∈ l)) as ->
        by (apply bool_decide_ext; set_solver).
      case_bool_decide; [done|]. by rewrite list_lookup_insert_ne by lia.
Qed.

(** [b & mask] keeps exactly the rows of the mask, above 64 rows too. *)
Theorem bitvec_and_spec b mask :
  bitvec_wf b -> mask < 2 ^ 64 ->
  exists out, bitvec_and b mask = Ret out /\ bitvec_wf out /\ nbits_ out = nbits_ b /\
  forall i, bitvec_get out i = bitvec_get b i && N.testbit mask i.
Proof.
  intros Hwf Hm. destruct_bitvec b; unfold bitvec_and, bitvec_of_mask; cbn.
  - destruct Hwf as [Hn Hmm]. rewrite (proj2 (N.leb_le _ _)) by done.
    eexists. split_and!; [done|cbn; split; [done|by apply is_block_land]|done|].
    intros i. apply N.land_spec.
  - destruct Hwf as [Hn Hl]. unfold bitvec_zeros. rewrite (proj2 (N.leb_gt _ _)) by done. cbn.
    destruct (and_loop_spec mask v (upto (N.min nb 64)) (replicate (N.to_nat nb) false))
      as (out & -> & Hlo & Hget).
    { apply Forall_forall. intros k Hk%elem_of_upto. lia. }
    { rewrite length_replicate. lia. }
    cbn. eexists. split_and!; [done|cbn; lia|done|]. intros i. unfold bitvec_get. cbn.
    rewrite Hget. case_bool_decide as Hi; [done|]. rewrite elem_of_upto in Hi.
    rewrite (testbit_lt_pow2 mask 64) by (done || lia). rewrite andb_false_r.
    destruct (replicate (N.to_nat nb) false !! N.to_nat i) eqn:E; [|done].
    by apply lookup_replicate in E as [-> _].
Qed.

(** * Packing *)

Lemma land_63 i : N.land i 63 = i mod 64.
Proof. change 63 with (N.ones 6). by rewrite N.land_ones. Qed.
Lemma shiftr_6 i : N.shiftr i 6 = i / 64.
Proof. by rewrite N.shiftr_div_pow2. Qed.

Lemma pack_step_encode out i :
  alter (fun w => N.lor w (N.shiftl 1 (N.land i 63))) (N.to_nat (N.shiftr i 6)) out =
    encode_position out i.
Proof. unfold encode_position. by rewrite land_63, shiftr_6. Qed.

Lemma pack_fold (v : list bool) (l : list N) out :
  foldl (fun out i =>
      if default false (v !! N.to_nat i)
      then alter (fun w => N.lor w (N.shiftl 1 (N.land i 63))) (N.to_nat (N.shiftr i 6)) out
      else out) out l =
  foldl encode_position out (filter (fun i => default false (v !! N.to_nat i) = true) l).
Proof.
  revert out. induction l as [|i l IH]; intros out; [done|]. cbn [foldl].
  rewrite filter_cons, IH. destruct (default false (v !! N.to_nat i)) eqn:E; cbn [decide];
    case_decide; try done. by rewrite pack_step_encode.
Qed.

Lemma dep_bit_packBits v i : dep_bit (packBits v) i = default false (v !! N.to_nat i).
Proof.
  unfold packBits. rewrite pack_fold, dep_bit_encode_fold.
  - rewrite dep_bit_replicate. cbn. apply eq_true_iff_eq.
    rewrite bool_decide_eq_true, list_elem_of_filter, elem_of_upto. split; [tauto|].
    intros H. split; [done|]. destruct (v !! N.to_nat i) eqn:E; [|done].
    apply lookup_lt_Some in E. lia.
  - apply Forall_forall. intros k [_ Hk%elem_of_upto]%list_elem_of_filter.
    rewrite length_replicate, N2Nat.id. apply N.Div0.div_lt_upper_bound.
    pose proof (N.div_mod' (N.of_nat (length v) + 63) 64).
    pose proof (N.mod_upper_bound (N.of_nat (length v) + 63) 64). lia.
Qed.

(** [getChunks] packs a row vector into 64-bit words without losing or adding
    a row: position [i] of the words is row [i]. *)
Theorem bitvec_getChunks_spec b :
  bitvec_wf b ->
  exists chunks, bitvec_getChunks b = Ret chunks /\
    N.of_nat (length chunks) = N.max 1 ((nbits_ b + 63) / 64) /\
    forall i, dep_bit chunks i = bitvec_get b i.
Proof.
  intros Hwf. unfold bitvec_getChunks. destruct_bitvec b; cbn.
  - destruct Hwf as [Hn Hm]. rewrite (proj2 (N.leb_le _ _)) by done.
    eexists. split_and!; [done| |].
    + cbn [length]. assert ((nb + 63) / 64 <= 1); [|lia].
      assert ((nb + 63) / 64 < 2); [|lia]. apply N.Div0.div_lt_upper_bound. lia.
    + intros i. unfold dep_bit, bitvec_get. cbn.
      destruct (N.eq_dec (i / 64) 0) as [E|E].
      * rewrite E. cbn. f_equal. apply N.mod_small. by apply N.div_small_iff in E.
      * destruct (N.to_nat (i / 64)) eqn:E'; [lia|]. cbn. symmetry.
        apply (testbit_lt_pow2 m 64); [done|].
        destruct (N.lt_ge_cases i 64); [|done]. by rewrite N.div_small in E.
  - destruct Hwf as [Hn Hl]. rewrite (proj2 (N.leb_gt _ _)) by done.
    eexists. split_and!; [done| |intros i; apply dep_bit_packBits].
    unfold packBits. rewrite pack_fold, length_encode_fold, length_replicate, Hl.
    assert (1 <= (nb + 63) / 64); [|lia]. apply N.div_le_lower_bound; lia.
Qed.

Lemma bitvec_getChunks_witness :
  let b := mkBitVec 128 (Vec (replicate 64 true ++ replicate 64 false)) in
  exists chunks, bitvec_getChunks b = Ret chunks /\
    N.of_nat (length chunks) = N.max 1 ((nbits_ b + 63) / 64) /\
    forall i, dep_bit chunks i = bitvec_get b i.
Proof. apply bitvec_getChunks_spec. by split. Defined.
