(* ===== verification/TruthTable.v ===== *)
(** [SNLTruthTable]: its state, constructors, factories, metadata checks and
    accessors (src/src/nl/netlist/decorators/SNLTruthTable.h). *)
From S2P Require Import Prelude BitDependencies BitVecDynamic.
Local Open Scope N_scope.

(** * Data *)

Inductive GenericType :=
| NONE | OR | NOR | AND | NAND | XOR | XNOR | TABLE_SELECT | DIVMOD
| ADD_SUB | MULTIPLY | SHIFT | ROM | VECTOR_UPDATE | VECTOR_SELECT.
#[export] Instance generic_type_eq_dec : EqDecision GenericType.
Proof. solve_decision. Defined.

Inductive DivModResult := QUOTIENT | REMAINDER.
#[export] Instance divmod_result_eq_dec : EqDecision DivModResult.
Proof. solve_decision. Defined.

Record WordMetadata := mkWord {
  w_width : N; w_outputBit : N; w_countWidth : N;
  w_subtract : bool; w_right : bool; w_arithmetic : bool }.
#[export] Instance word_metadata_eq_dec : EqDecision WordMetadata.
Proof. solve_decision. Defined.
Definition word_default : WordMetadata := mkWord 0 0 0 false false false.

Record RomMetadata := mkRom { r_addressSize : N; r_depth : N; r_column : list bool }.
#[export] Instance rom_metadata_eq_dec : EqDecision RomMetadata.
Proof. solve_decision. Defined.
Definition rom_default : RomMetadata := mkRom 0 0 [].

Record VectorUpdateMetadata := mkVectorUpdate {
  vu_width : N; vu_updateWidth : N; vu_addressSize : N; vu_outputBit : N; vu_isSigned : bool }.
#[export] Instance vector_update_eq_dec : EqDecision VectorUpdateMetadata.
Proof. solve_decision. Defined.
Definition vector_update_default : VectorUpdateMetadata := mkVectorUpdate 0 0 0 0 false.

Record VectorSelectMetadata := mkVectorSelect {
  vs_width : N; vs_selectWidth : N; vs_addressSize : N; vs_outputBit : N; vs_isSigned : bool }.
#[export] Instance vector_select_eq_dec : EqDecision VectorSelectMetadata.
Proof. solve_decision. Defined.
Definition vector_select_default : VectorSelectMetadata := mkVectorSelect 0 0 0 0 false.

Record SNLTruthTable := mkTT {
  size_ : N;
  bits_ : NLBitVecDynamic;
  dependencies_ : list N;
  genericType_ : GenericType;
  tableSelectAddressSize_ : N;
  tableSelectDepth_ : N;
  divModWidth_ : N;
  divModSigned_ : bool;
  divModResult_ : DivModResult;
  divModOutputBit_ : N;
  word_ : WordMetadata;
  rom_ : RomMetadata;
  vectorUpdate_ : VectorUpdateMetadata;
  vectorSelect_ : VectorSelectMetadata }.
(** [operator==] compares every member. *)
#[export] Instance truth_table_eq_dec : EqDecision SNLTruthTable.
Proof. solve_decision. Defined.

(** [SNLTruthTable()] *)
Definition tt_default : SNLTruthTable :=
  mkTT 0 (bitvec_zeros 0) [] NONE 0 0 0 false QUOTIENT 0
    word_default rom_default vector_update_default vector_select_default.

(** A table whose only metadata are its size, rows and dependencies. *)
Definition tt_plain (size : N) (bits : NLBitVecDynamic) (deps : list N) (g : GenericType) :=
  mkTT size bits deps g 0 0 0 false QUOTIENT 0
    word_default rom_default vector_update_default vector_select_default.

(** * Accessors that do not depend on the metadata *)

Definition isGeneric (t : SNLTruthTable) : bool := bool_decide (genericType_ t <> NONE).
Definition isWordArithmetic (t : SNLTruthTable) : bool :=
  bool_decide (genericType_ t = ADD_SUB \/ genericType_ t = MULTIPLY \/ genericType_ t = SHIFT).
Definition isRom (t : SNLTruthTable) : bool := bool_decide (genericType_ t = ROM).
Definition isNull (t : SNLTruthTable) : bool := size_ t =? u32max.

Definition isInitialized (t : SNLTruthTable) : bool :=
  if size_ t =? 0 then negb (nbits_ (bits_ t) =? 0)
  else if bool_decide (dependencies_ t = []) then false
  else isGeneric t || negb (nbits_ (bits_ t) =? 0).

(** * Metadata validation *)

(** The sum of operand widths a word primitive depends on. *)
Definition word_inputCount (g : GenericType) (w : WordMetadata) : N :=
  w_width w + (if bool_decide (g = SHIFT) then w_countWidth w else w_width w).

Definition invalid_vector_select (t : SNLTruthTable) : bool :=
  let m := vectorSelect_ t in
  (vs_width m =? 0) || (vs_selectWidth m =? 0) || (vs_addressSize m =? 0) ||
  (vs_selectWidth m <=? vs_outputBit m) ||
  negb (vs_width m + vs_addressSize m =? size_ t).

Definition invalid_vector_update (t : SNLTruthTable) : bool :=
  let m := vectorUpdate_ t in
  (vu_width m =? 0) || (vu_updateWidth m =? 0) || (vu_addressSize m =? 0) ||
  (vu_width m <=? vu_outputBit m) ||
  negb (vu_updateWidth m + vu_addressSize m + 2 =? size_ t).

Definition invalid_divmod (t : SNLTruthTable) : bool :=
  negb (tableSelectAddressSize_ t =? 0) || negb (tableSelectDepth_ t =? 0) ||
  (divModWidth_ t =? 0) || (u32max / 2 <? divModWidth_ t) ||
  negb (size_ t =? u32 (divModWidth_ t * 2)) ||
  (divModWidth_ t <=? divModOutputBit_ t).

(** The 64-bit shift of the depth check is evaluated after the test that keeps
    the address size below 64. *)
Definition invalid_rom (t : SNLTruthTable) : bool :=
  let r := rom_ t in
  negb (tableSelectAddressSize_ t =? 0) || negb (tableSelectDepth_ t =? 0) ||
  negb (divModWidth_ t =? 0) || bool_decide (word_ t <> word_default) ||
  (r_addressSize r =? 0) || (64 <=? r_addressSize r) || (r_depth r =? 0) ||
  (N.shiftl 1 (r_addressSize r) <? r_depth r) ||
  negb (size_ t =? r_addressSize r) || negb (N.of_nat (length (r_column r)) =? r_depth r).

Definition invalid_word (t : SNLTruthTable) : bool :=
  let w := word_ t in
  let g := genericType_ t in
  negb (tableSelectAddressSize_ t =? 0) || negb (tableSelectDepth_ t =? 0) ||
  negb (divModWidth_ t =? 0) || (w_width w =? 0) ||
  (w_width w <=? w_outputBit w) || negb (size_ t =? word_inputCount g w) ||
  negb (Bool.eqb (bool_decide (g = SHIFT)) (negb (w_countWidth w =? 0))) ||
  (bool_decide (g <> ADD_SUB) && w_subtract w) ||
  (bool_decide (g <> SHIFT) && (w_right w || w_arithmetic w)) ||
  (w_arithmetic w && negb (w_right w)).

Definition validateGenericMetadata (t : SNLTruthTable) : outcome unit :=
  if bool_decide (genericType_ t = VECTOR_SELECT) then
    require (negb (invalid_vector_select t)) "Invalid VECTOR_SELECT truth table metadata"
  else
  _ ← require (bool_decide (vectorSelect_ t = vector_select_default))
        "Unexpected VECTOR_SELECT metadata on truth table";
  if bool_decide (genericType_ t = VECTOR_UPDATE) then
    require (negb (invalid_vector_update t)) "Invalid VECTOR_UPDATE truth table metadata"
  else
  _ ← require (bool_decide (vectorUpdate_ t = vector_update_default))
        "Unexpected VECTOR_UPDATE metadata on truth table";
  if bool_decide (genericType_ t = TABLE_SELECT) then
    require (negb ((tableSelectAddressSize_ t =? 0) || (tableSelectDepth_ t =? 0) ||
                   negb (size_ t =? tableSelectAddressSize_ t + tableSelectDepth_ t)))
      "Invalid TABLE_SELECT truth table metadata"
  else if bool_decide (genericType_ t = DIVMOD) then
    require (negb (invalid_divmod t)) "Invalid DIVMOD truth table metadata"
  else if bool_decide (genericType_ t = ROM) then
    require (negb (invalid_rom t)) "Invalid ROM truth table metadata"
  else if isWordArithmetic t then
    require (negb (invalid_word t)) "Invalid word arithmetic truth table metadata"
  else
  _ ← require (negb (negb (tableSelectAddressSize_ t =? 0) || negb (tableSelectDepth_ t =? 0)))
        "Unexpected table select metadata on truth table";
  _ ← require (negb (negb (divModWidth_ t =? 0) || divModSigned_ t ||
                     bool_decide (divModResult_ t <> QUOTIENT) || negb (divModOutputBit_ t =? 0)))
        "Unexpected DIVMOD metadata on truth table";
  _ ← require (bool_decide (word_ t = word_default))
        "Unexpected word arithmetic metadata on truth table";
  require (bool_decide (rom_ t = rom_default)) "Unexpected ROM metadata on truth table".

(** * Constructors *)

(** [fullDependencies(size)]: positions [0 .. size - 1]. *)
Definition fullDependencies (size : N) : outcome (list N) :=
  if size =? 0 then Ret [] else encodeBits (upto size).

(** The check every constructor makes on its dependencies. *)
Definition check_dependencies (size : N) (deps : list N) : outcome unit :=
  require (negb ((0 <? size) && (size <? countBitsForVector deps)))
    "Dependencies count cannot exceed truth table size".

(** [SNLTruthTable(size_t, GenericType, deps)]; the [size_t] argument is
    stored in the 32-bit [size_]. *)
Definition tt_generic (size : N) (g : GenericType) (deps : list N) : outcome SNLTruthTable :=
  let t := tt_plain (u32 size) (bitvec_zeros 0) deps g in
  _ ← check_dependencies size deps;
  _ ← validateGenericMetadata t;
  Ret t.

(** [SNLTruthTable(size_t, GenericType, deps, addressSize, depth)] *)
Definition tt_generic_select (size : N) (g : GenericType) (deps : list N)
    (addressSize depth : N) : outcome SNLTruthTable :=
  let t := mkTT (u32 size) (bitvec_zeros 0) deps g addressSize depth 0 false QUOTIENT 0
             word_default rom_default vector_update_default vector_select_default in
  _ ← check_dependencies size deps;
  _ ← validateGenericMetadata t;
  Ret t.

(** [SNLTruthTable(uint32_t, uint64_t, deps)]: at most 6 inputs. *)
Definition tt_mask (size bits : N) (deps : list N) : outcome SNLTruthTable :=
  if 6 <? size then Throw "Cannot create SNLTruthTable with bits_ and size (max=6)"
  else
    b ← bitvec_of_mask bits (N.shiftl 1 size);
    _ ← check_dependencies size deps;
    Ret (tt_plain size b deps NONE).

(** [SNLTruthTable(uint32_t, const std::vector<bool>&, deps)]: 7 inputs or
    more; [1u << size] is undefined from 32 on. *)
Definition tt_vector (size : N) (bits : list bool) (deps : list N) : outcome SNLTruthTable :=
  if size <=? 6 then Throw "Should use mask constructor for 6 or less inputs"
  else
    _ ← defined (size <? 32);
    b ← bitvec_of_vector bits (N.shiftl 1 size);
    _ ← check_dependencies size deps;
    Ret (tt_plain size b deps NONE).

Definition Logic0 : outcome SNLTruthTable := tt_mask 0 0 [].
Definition Logic1 : outcome SNLTruthTable := tt_mask 0 1 [].
Definition Inv : outcome SNLTruthTable :=
  deps ← fullDependencies 1; tt_mask 1 1 deps.
Definition Buf : outcome SNLTruthTable :=
  deps ← fullDependencies 1; tt_mask 1 2 deps.

(** * Factories *)

Definition TableSelect (addressSize depth : N) (deps : list N) : outcome SNLTruthTable :=
  tt_generic_select (addressSize + depth) TABLE_SELECT deps addressSize depth.

Definition DivMod (width : N) (isSigned : bool) (result : DivModResult)
    (outputBit : N) (deps : list N) : outcome SNLTruthTable :=
  _ ← require (negb ((width =? 0) || (u32max / 2 <? width)))
        "Invalid DIVMOD truth table width";
  _ ← require (negb (width <=? outputBit)) "DIVMOD truth table output bit is out of range";
  let inputCount := u32 (width * 2) in
  _ ← require (countBitsForVector deps =? inputCount)
        "DIVMOD truth table must depend on every operand bit";
  let t := mkTT inputCount (bitvec_zeros 0) deps DIVMOD 0 0 width isSigned result outputBit
             word_default rom_default vector_update_default vector_select_default in
  _ ← validateGenericMetadata t;
  Ret t.

Definition Word (g : GenericType) (word : WordMetadata) (deps : list N) : outcome SNLTruthTable :=
  let inputCount := word_inputCount g word in
  _ ← require (negb ((u32max <? inputCount) || negb (countBitsForVector deps =? inputCount)))
        "Word arithmetic truth table must depend on every operand bit";
  let t := mkTT (u32 inputCount) (bitvec_zeros 0) deps g 0 0 0 false QUOTIENT 0
             word rom_default vector_update_default vector_select_default in
  _ ← validateGenericMetadata t;
  Ret t.

Definition AddSub (width : N) (subtract : bool) (outputBit : N) (deps : list N) :=
  Word ADD_SUB (mkWord width outputBit 0 subtract false false) deps.
Definition Multiply (width outputBit : N) (deps : list N) :=
  Word MULTIPLY (mkWord width outputBit 0 false false false) deps.
Definition Shift (width countWidth : N) (right arithmetic : bool) (outputBit : N) (deps : list N) :=
  Word SHIFT (mkWord width outputBit countWidth false right arithmetic) deps.

Definition Rom (rom : RomMetadata) (deps : list N) : outcome SNLTruthTable :=
  _ ← require (countBitsForVector deps =? r_addressSize rom)
        "ROM truth table must depend on every address bit";
  let t := mkTT (r_addressSize rom) (bitvec_zeros 0) deps ROM 0 0 0 false QUOTIENT 0
             word_default rom vector_update_default vector_select_default in
  _ ← validateGenericMetadata t;
  Ret t.

Definition VectorUpdate (m : VectorUpdateMetadata) (deps : list N) : outcome SNLTruthTable :=
  let size := vu_updateWidth m + vu_addressSize m + 2 in
  _ ← require (negb ((u32max <? size) || negb (countBitsForVector deps =? size)))
        "Invalid VECTOR_UPDATE dependency count";
  let t := mkTT (u32 size) (bitvec_zeros 0) deps VECTOR_UPDATE 0 0 0 false QUOTIENT 0
             word_default rom_default m vector_select_default in
  _ ← validateGenericMetadata t;
  Ret t.

Definition VectorSelect (m : VectorSelectMetadata) (deps : list N) : outcome SNLTruthTable :=
  let size := vs_width m + vs_addressSize m in
  _ ← require (negb ((u32max <? size) || negb (countBitsForVector deps =? size)))
        "Invalid VECTOR_SELECT dependency count";
  let t := mkTT (u32 size) (bitvec_zeros 0) deps VECTOR_SELECT 0 0 0 false QUOTIENT 0
             word_default rom_default vector_update_default m in
  _ ← validateGenericMetadata t;
  Ret t.

(** * Metadata accessors *)

Definition getTableSelectAddressSize (t : SNLTruthTable) : outcome N :=
  _ ← require (bool_decide (genericType_ t = TABLE_SELECT))
        "Truth table is not a table select generic";
  Ret (tableSelectAddressSize_ t).
Definition getTableSelectDepth (t : SNLTruthTable) : outcome N :=
  _ ← require (bool_decide (genericType_ t = TABLE_SELECT))
        "Truth table is not a table select generic";
  Ret (tableSelectDepth_ t).

Definition requireDivMod (t : SNLTruthTable) : outcome unit :=
  require (bool_decide (genericType_ t = DIVMOD)) "Truth table is not a DIVMOD generic".
Definition getDivModWidth (t : SNLTruthTable) : outcome N :=
  _ ← requireDivMod t; Ret (divModWidth_ t).
Definition isDivModSigned (t : SNLTruthTable) : outcome bool :=
  _ ← requireDivMod t; Ret (divModSigned_ t).
Definition getDivModResult (t : SNLTruthTable) : outcome DivModResult :=
  _ ← requireDivMod t; Ret (divModResult_ t).
Definition getDivModOutputBit (t : SNLTruthTable) : outcome N :=
  _ ← requireDivMod t; Ret (divModOutputBit_ t).

Definition getWordMetadata (t : SNLTruthTable) : outcome WordMetadata :=
  _ ← require (isWordArithmetic t) "Truth table has no word arithmetic metadata";
  Ret (word_ t).
Definition getRomMetadata (t : SNLTruthTable) : outcome RomMetadata :=
  _ ← require (isRom t) "Truth table has no ROM metadata";
  Ret (rom_ t).
Definition getVectorUpdateMetadata (t : SNLTruthTable) : outcome VectorUpdateMetadata :=
  _ ← require (bool_decide (genericType_ t = VECTOR_UPDATE))
        "Truth table is not a VECTOR_UPDATE generic";
  Ret (vectorUpdate_ t).
Definition getVectorSelectMetadata (t : SNLTruthTable) : outcome VectorSelectMetadata :=
  _ ← require (bool_decide (genericType_ t = VECTOR_SELECT))
        "Truth table is not a VECTOR_SELECT generic";
  Ret (vectorSelect_ t).

(** * Lemmas *)

Lemma fullDependencies_Ret n :
  fullDependencies n = Ret (encode_blocks (upto n)).
Proof.
  unfold fullDependencies. destruct (N.eqb_spec n 0) as [->|]; [done|]. apply encodeBits_Ret.
Qed.

Lemma fullDependencies_bit n i : dep_bit (encode_blocks (upto n)) i = bool_decide (i < n).
Proof.
  rewrite dep_bit_encode_blocks. apply bool_decide_ext. apply elem_of_upto.
Qed.

Lemma fullDependencies_count n : countBitsForVector (encode_blocks (upto n)) = n.
Proof. apply prefix_count, fullDependencies_bit. Qed.

Lemma fullDependencies_simple n : isSimple (encode_blocks (upto n)) = true.
Proof.
  apply isSimple_iff. intros i. by rewrite fullDependencies_count, fullDependencies_bit.
Qed.

Lemma check_dependencies_full n : check_dependencies n (encode_blocks (upto n)) = Ret tt.
Proof.
  unfold check_dependencies. rewrite fullDependencies_count, N.ltb_irrefl.
  by rewrite andb_false_r.
Qed.
#[export] Hint Rewrite fullDependencies_Ret fullDependencies_bit fullDependencies_count
  fullDependencies_simple check_dependencies_full : naja.

Lemma tt_mask_full n m :
  n <= 6 -> tt_mask n m (encode_blocks (upto n)) =
    Ret (tt_plain n (mkBitVec (2 ^ n) (Mask m)) (encode_blocks (upto n)) NONE).
Proof.
  intros Hn. unfold tt_mask. rewrite (proj2 (N.ltb_ge _ _)) by done.
  unfold bitvec_of_mask. rewrite N.shiftl_1_l.
  assert (2 ^ n <= 64) as Hle.
  { change 64 with (2 ^ 6). by apply N.pow_le_mono_r. }
  rewrite (proj2 (N.leb_le _ _)) by done. cbn [mbind outcome_bind].
  by rewrite check_dependencies_full.
Qed.

Lemma tt_vector_full n v :
  6 < n < 32 -> tt_vector n v (encode_blocks (upto n)) =
    Ret (tt_plain n (mkBitVec (2 ^ n) (Vec v)) (encode_blocks (upto n)) NONE).
Proof.
  intros Hn. unfold tt_vector. rewrite (proj2 (N.leb_gt _ _)) by lia.
  rewrite (proj2 (N.ltb_lt n 32)) by lia. cbn [mbind outcome_bind defined].
  unfold bitvec_of_vector. rewrite N.shiftl_1_l.
  assert (2 ^ 6 < 2 ^ n) as Hlt by (apply N.pow_lt_mono_r; lia).
  rewrite (proj2 (N.ltb_lt _ _)) by exact Hlt. cbn [mbind outcome_bind].
  by rewrite check_dependencies_full.
Qed.

(** ** What a validated table satisfies, by generic type *)

Lemma require_tt c e : require c e = Ret tt <-> c = true.
Proof. apply require_Ret. Qed.

Lemma validate_vector_select t :
  genericType_ t = VECTOR_SELECT ->
  validateGenericMetadata t = Ret tt <->
    0 < vs_width (vectorSelect_ t) /\ 0 < vs_selectWidth (vectorSelect_ t) /\
    0 < vs_addressSize (vectorSelect_ t) /\
    vs_outputBit (vectorSelect_ t) < vs_selectWidth (vectorSelect_ t) /\
    vs_width (vectorSelect_ t) + vs_addressSize (vectorSelect_ t) = size_ t.
Proof.
  intros Hg. unfold validateGenericMetadata. rewrite Hg. decide_guards.
  rewrite require_Ret. unfold invalid_vector_select. guards. lia.
Qed.

Lemma validate_vector_update t :
  genericType_ t = VECTOR_UPDATE ->
  validateGenericMetadata t = Ret tt <->
    vectorSelect_ t = vector_select_default /\
    0 < vu_width (vectorUpdate_ t) /\ 0 < vu_updateWidth (vectorUpdate_ t) /\
    0 < vu_addressSize (vectorUpdate_ t) /\
    vu_outputBit (vectorUpdate_ t) < vu_width (vectorUpdate_ t) /\
    vu_updateWidth (vectorUpdate_ t) + vu_addressSize (vectorUpdate_ t) + 2 = size_ t.
Proof.
  intros Hg. unfold validateGenericMetadata. rewrite Hg, (bool_decide_eq_false_2 (_ = VECTOR_SELECT)) by done.
  rewrite bind_Ret. rewrite (bool_decide_eq_true_2 (VECTOR_UPDATE = VECTOR_UPDATE)) by done.
  unfold invalid_vector_update. split.
  - intros ([] & H1%require_Ret & H2%require_Ret). guards. split; [done|lia].
  - intros (H1 & H2). exists tt. rewrite !require_Ret. guards. split; [done|lia].
Qed.
