(* ===== verification/VectorTables.v ===== *)
(** Evaluation of the VECTOR_SELECT and VECTOR_UPDATE generics of
    [SNLTruthTable]: the loops over candidate offsets, and their arithmetic
    meaning. *)
From S2P Require Import Prelude BitVecDynamic TruthTable.
Local Open Scope N_scope.

(** * The evaluators *)

(** [uint64_t(offset)] of a signed 64-bit value. *)
Definition u64_of_i64 (z : Z) : N := Z.to_N (z mod 2 ^ 64).

(** The tests that skip an offset an address of that size cannot hold. *)
Definition offset_fits (isSigned : bool) (addressSize : N) (offset : Z) : bool :=
  if negb isSigned && (offset <? 0)%Z then false
  else if addressSize <? 64 then
    if isSigned then
      let limit := Z.shiftl 1 (Z.of_N (addressSize - 1)) in
      negb ((offset <? - limit)%Z || (limit <=? offset)%Z)
    else negb (N.shiftl 1 addressSize <=? u64_of_i64 offset)
  else true.

(** The bit an address equal to [offset] has at that position. *)
Definition expected_bit (offset : Z) (bit : N) : bool :=
  if bit <? 64 then N.testbit (u64_of_i64 offset) bit else (offset <? 0)%Z.

(** The matching loop; [last] is the index of the address's least significant
    input. *)
Fixpoint address_matches (inputs : list bool) (last : N) (offset : Z) (bits : list N)
    : outcome bool :=
  match bits with
  | [] => Ret true
  | bit :: bits =>
      i ← vec_at inputs (N.to_nat (last - bit));
      if Bool.eqb i (expected_bit offset bit)
      then address_matches inputs last offset bits
      else Ret false
  end.

(** One pass over the candidates [k]: the first one whose offset the address
    holds, with [offset_of k] its offset. *)
Fixpoint find_offset (isSigned : bool) (addressSize : N) (inputs : list bool) (last : N)
    (offset_of : N -> Z) (ks : list N) : outcome (option N) :=
  match ks with
  | [] => Ret None
  | k :: ks =>
      if offset_fits isSigned addressSize (offset_of k) then
        matches ← address_matches inputs last (offset_of k) (upto addressSize);
        if (matches : bool) then Ret (Some k)
        else find_offset isSigned addressSize inputs last offset_of ks
      else find_offset isSigned addressSize inputs last offset_of ks
  end.

Definition evaluateVectorSelect (t : SNLTruthTable) (inputs : list bool)
    : outcome (option bool) :=
  m ← getVectorSelectMetadata t;
  _ ← require (N.of_nat (length inputs) =? size_ t) "VECTOR_SELECT input count mismatch";
  found ← find_offset (vs_isSigned m) (vs_addressSize m) inputs
            (vs_width m + vs_addressSize m - 1)
            (fun k => Z.of_N k - Z.of_N (vs_outputBit m))%Z (upto (vs_width m));
  match found with
  | Some k => b ← vec_at inputs (N.to_nat (vs_width m - 1 - k)); Ret (Some b)
  | None => Ret None
  end.

Definition evaluateVectorUpdate (t : SNLTruthTable) (inputs : list bool) : outcome bool :=
  m ← getVectorUpdateMetadata t;
  _ ← require (N.of_nat (length inputs) =? size_ t) "VECTOR_UPDATE input count mismatch";
  enable ← vec_at inputs (pred (length inputs));
  if negb enable then vec_at inputs 0
  else
    found ← find_offset (vu_isSigned m) (vu_addressSize m) inputs
              (1 + vu_updateWidth m + vu_addressSize m - 1)
              (fun k => Z.of_N (vu_outputBit m) - Z.of_N k)%Z (upto (vu_updateWidth m));
    match found with
    | Some k => vec_at inputs (N.to_nat (1 + vu_updateWidth m - 1 - k))
    | None => vec_at inputs 0
    end.

(** * The number an address holds *)

(** The input at index [i]. *)
Definition input_at (inputs : list bool) (i : N) : bool := default false (inputs !! N.to_nat i).

(** Most significant input first, [last] the least significant; two's
    complement when the address is signed. *)
Definition address_value (isSigned : bool) (n : N) (inputs : list bool) (last : N) : Z :=
  let u := Z.of_N (index_of (fun bit => input_at inputs (last - bit)) n) in
  if isSigned && input_at inputs (last - (n - 1)) then (u - 2 ^ Z.of_N n)%Z else u.

Lemma testbit_u64_of_i64 z b :
  b < 64 -> N.testbit (u64_of_i64 z) b = Z.testbit z (Z.of_N b).
Proof.
  intros Hb. unfold u64_of_i64.
  rewrite <- Z.testbit_of_N, Z2N.id by (apply Z.mod_pos_bound; lia).
  apply Z.mod_pow2_bits_low. lia.
Qed.

(** Offsets are differences of 32-bit values. *)
Definition small_offset (z : Z) : Prop := (- 2 ^ 32 < z < 2 ^ 32)%Z.

Lemma expected_bit_testbit z b :
  small_offset z -> expected_bit z b = Z.testbit z (Z.of_N b).
Proof.
  intros Hz. unfold expected_bit. destruct (N.ltb_spec b 64).
  - by apply testbit_u64_of_i64.
  - destruct (Z.ltb_spec z 0).
    + symmetry. apply Z.bits_above_log2_neg; [done|].
      destruct (Z.eq_dec (Z.pred (- z)) 0) as [->|]; [cbn; lia|].
      assert (Z.log2 (Z.pred (- z)) < 32)%Z; [|lia].
      apply Z.log2_lt_pow2; unfold small_offset in Hz; lia.
    + symmetry. destruct (Z.eq_dec z 0) as [->|]; [by rewrite Z.bits_0|].
      apply Z.bits_above_log2; [done|]. assert (Z.log2 z < 32)%Z; [|lia].
      apply Z.log2_lt_pow2; unfold small_offset in Hz; lia.
Qed.

Lemma address_matches_spec inputs last z bits :
  small_offset z -> Forall (fun b => N.to_nat (last - b) < length inputs)%nat bits ->
  address_matches inputs last z bits =
    Ret (forallb (fun b => Bool.eqb (input_at inputs (last - b)) (Z.testbit z (Z.of_N b))) bits).
Proof.
  intros Hz. induction 1 as [|b bits Hb _ IH]; [done|]. cbn.
  rewrite expected_bit_testbit by done. unfold input_at at 1.
  destruct (lookup_lt_is_Some_2 inputs _ Hb) as [x Hx]. unfold vec_at. rewrite Hx. cbn.
  destruct (Bool.eqb x _); cbn; [exact IH|done].
Qed.

(** All the address bits match exactly when the offset is the address modulo
    [2 ^ n]. *)
Lemma matches_mod inputs last z n :
  forallb (fun b => Bool.eqb (input_at inputs (last - b)) (Z.testbit z (Z.of_N b))) (upto n) = true
  <-> (z mod 2 ^ Z.of_N n = Z.of_N (index_of (fun bit => input_at inputs (last - bit)) n))%Z.
Proof.
  rewrite forallb_forall. split.
  - intros H. apply Z.bits_inj'. intros i Hi.
    rewrite <- (Z2N.id i Hi). set (j := Z.to_N i). rewrite Z.testbit_of_N, testbit_index_of.
    case_bool_decide as Hj; cbn.
    + rewrite Z.mod_pow2_bits_low by lia. symmetry. apply eqb_prop, H.
      by apply list_elem_of_In, elem_of_upto.
    + apply Z.mod_pow2_bits_high. lia.
  - intros H b Hb%list_elem_of_In%elem_of_upto. apply eqb_true_iff.
    apply (f_equal (fun x => Z.testbit x (Z.of_N b))) in H.
    rewrite Z.mod_pow2_bits_low, Z.testbit_of_N, testbit_index_of in H by lia.
    rewrite bool_decide_eq_true_2 in H by done. by rewrite H.
Qed.

Lemma offset_fits_spec isSigned n z :
  small_offset z -> 0 < n ->
  offset_fits isSigned n z = true <->
    if isSigned then (- 2 ^ (Z.of_N n - 1) <= z < 2 ^ (Z.of_N n - 1))%Z
    else (0 <= z < 2 ^ Z.of_N n)%Z.
Proof.
  unfold small_offset, offset_fits. intros Hz Hn.
  assert ((n < 64)%N \/ (2 ^ 32 <= 2 ^ (Z.of_N n - 1))%Z) as Hbig.
  { destruct (N.lt_ge_cases n 64); [left; lia|right]. apply Z.pow_le_mono_r; lia. }
  assert (2 ^ Z.of_N n = 2 * 2 ^ (Z.of_N n - 1))%Z as Hdbl.
  { rewrite <- Z.pow_succ_r by lia. f_equal. lia. }
  destruct isSigned; cbn [negb andb].
  - destruct (N.ltb_spec n 64).
    + rewrite Z.shiftl_1_l. replace (Z.of_N (n - 1)) with (Z.of_N n - 1)%Z by lia.
      rewrite negb_true_iff, orb_false_iff, Z.ltb_ge, Z.leb_gt. lia.
    + split; [|done]. lia.
  - destruct (Z.ltb_spec z 0); [split; [done|lia]|].
    destruct (N.ltb_spec n 64).
    + rewrite negb_true_iff, N.leb_gt, N.shiftl_1_l. unfold u64_of_i64.
      rewrite Z.mod_small by lia.
      assert (Z.of_N (2 ^ n) = 2 ^ Z.of_N n)%Z by apply N2Z.inj_pow. lia.
    + split; [|done]. lia.
Qed.

(** The value a signed or unsigned address can hold. *)
Lemma address_value_spec isSigned n inputs last z :
  small_offset z -> 0 < n ->
  (offset_fits isSigned n z = true /\
   (z mod 2 ^ Z.of_N n = Z.of_N (index_of (fun bit => input_at inputs (last - bit)) n))%Z)
  <-> address_value isSigned n inputs last = z.
Proof.
  intros Hz Hn. rewrite offset_fits_spec by done. unfold address_value.
  set (f := fun bit => input_at inputs (last - bit)).
  assert (2 ^ Z.of_N n = 2 * 2 ^ (Z.of_N n - 1))%Z as Hdbl.
  { rewrite <- Z.pow_succ_r by lia. f_equal. lia. }
  assert (Z.of_N (index_of f n) = Z.of_N (index_of f (n - 1)) +
    (if f (n - 1)%N then 2 ^ (Z.of_N n - 1) else 0))%Z as Hu.
  { replace n with (N.succ (n - 1)) at 1 by lia. rewrite index_of_succ.
    rewrite N2Z.inj_add, N2Z.inj_mul, N2Z.inj_pow, N2Z.inj_sub by lia.
    destruct (f (n - 1)); cbn [N.b2n]; lia. }
  assert (0 <= Z.of_N (index_of f (n - 1)) < 2 ^ (Z.of_N n - 1))%Z as Hlow.
  { pose proof (index_of_lt f (n - 1)) as Hl. apply N2Z.inj_lt in Hl.
    rewrite N2Z.inj_pow, N2Z.inj_sub in Hl by lia. lia. }
  change (input_at inputs (last - (n - 1))) with (f (n - 1)).
  destruct isSigned; cbn [andb].
  - destruct (Z.ltb_spec z 0) as [Hneg|Hpos].
    + assert (forall r, -2 ^ (Z.of_N n - 1) <= z -> z mod 2 ^ Z.of_N n = r <-> z + 2 ^ Z.of_N n = r)%Z
        as Hmod.
      { intros r Hge. rewrite <- (Z_mod_plus_full z 1). rewrite Z.mod_small by lia. lia. }
      destruct (f (n - 1)%N); split; intros H; [|split|..]; try lia;
        [destruct H as [H1 H2]; apply Hmod in H2; lia|apply Hmod; lia
        |destruct H as [H1 H2]; apply Hmod in H2; lia].
    + assert (forall r, z < 2 ^ (Z.of_N n - 1) -> z mod 2 ^ Z.of_N n = r <-> z = r)%Z as Hmod.
      { intros r Hlt. rewrite Z.mod_small by lia. lia. }
      destruct (f (n - 1)%N); split; intros H; [|split|..|split]; try lia;
        [destruct H as [H1 H2]; apply Hmod in H2; lia
        |destruct H as [H1 H2]; apply Hmod in H2; lia|apply Hmod; lia].
  - assert (0 <= z < 2 ^ Z.of_N n -> z mod 2 ^ Z.of_N n = z)%Z as Hmod
      by (intros; by apply Z.mod_small).
    split; [intros [H1 H2]; rewrite Hmod in H2 by done; lia|].
    intros H. assert (0 <= z < 2 ^ Z.of_N n)%Z by (destruct (f (n - 1)%N); lia).
    split; [done|]. rewrite Hmod by done. lia.
Qed.

(** One pass finds the candidate whose offset is the address. *)
Lemma find_offset_spec isSigned n inputs last offset_of ks :
  0 < n -> (forall b, b < n -> (N.to_nat (last - b) < length inputs)%nat) ->
  (forall k, k ∈ ks -> small_offset (offset_of k)) ->
  find_offset isSigned n inputs last offset_of ks =
    Ret (list_find (fun k => address_value isSigned n inputs last = offset_of k) ks ≫=
         (fun '(_, k) => Some k)).
Proof.
  intros Hn Hin. induction ks as [|k ks IH]; intros Hsmall; [done|]. cbn [find_offset].
  assert (small_offset (offset_of k)) as Hk by (apply Hsmall; left).
  pose proof (address_value_spec isSigned n inputs last _ Hk Hn) as Hav.
  rewrite address_matches_spec; [|done|].
  2:{ apply Forall_forall. intros b Hb%elem_of_upto. by apply Hin. }
  cbn [mbind outcome_bind list_find].
  pose proof (matches_mod inputs last (offset_of k) n) as Hm.
  rewrite IH by (intros; apply Hsmall; by right). clear IH.
  assert (forall m : option (nat * N),
    (prod_map S id <$> m) ≫= (fun '(_, k0) => Some k0) = m ≫= (fun '(_, k0) => Some k0)) as Hmap
    by (intros [[]|]; done).
  destruct (offset_fits isSigned n (offset_of k)) eqn:Ef, (forallb _ (upto n)) eqn:Em;
    case_decide as Hd; cbn; rewrite ?Hmap; try done; exfalso.
  - apply Hd, Hav. split; [done|]. by apply Hm.
  - apply Hav in Hd as [_ Hd%Hm]. congruence.
  - apply Hav in Hd as [Hd _]. congruence.
  - apply Hav in Hd as [Hd _]. congruence.
Qed.

Lemma list_find_upto (P : N -> Prop) `{!forall x, Decision (P x)} n k :
  k < n -> P k -> (forall j, P j -> j = k) ->
  list_find P (upto n) = Some (N.to_nat k, k).
Proof.
  intros Hk HP Huniq. apply list_find_Some. split_and!; [|done|].
  - rewrite lookup_upto by lia. by rewrite N2Nat.id.
  - intros i y Hy Hi HPy. apply Huniq in HPy as ->.
    rewrite lookup_upto in Hy by (apply lookup_lt_Some in Hy; rewrite length_upto in Hy; lia).
    injection Hy as Hy. lia.
Qed.

Lemma list_find_upto_none (P : N -> Prop) `{!forall x, Decision (P x)} n :
  (forall j, P j -> n <= j) -> list_find P (upto n) = None.
Proof.
  intros Hn. apply list_find_None, Forall_forall. intros j Hj%elem_of_upto HP.
  apply Hn in HP. lia.
Qed.

(** * Properties *)

(** Words and dependencies of a valid VECTOR_SELECT table. *)
Definition valid_vector_select (t : SNLTruthTable) : Prop :=
  genericType_ t = VECTOR_SELECT /\ validateGenericMetadata t = Ret tt /\
  vs_width (vectorSelect_ t) <= u32max /\ vs_outputBit (vectorSelect_ t) <= u32max.

Definition valid_vector_update (t : SNLTruthTable) : Prop :=
  genericType_ t = VECTOR_UPDATE /\ validateGenericMetadata t = Ret tt /\
  vu_updateWidth (vectorUpdate_ t) <= u32max /\ vu_outputBit (vectorUpdate_ t) <= u32max.

Lemma valid_vector_select_size t :
  valid_vector_select t ->
  0 < vs_width (vectorSelect_ t) /\ 0 < vs_addressSize (vectorSelect_ t) /\
  size_ t = vs_width (vectorSelect_ t) + vs_addressSize (vectorSelect_ t).
Proof.
  intros (Hg & Hv & _). apply validate_vector_select in Hv; [|done]. lia.
Qed.

Lemma valid_vector_update_size t :
  valid_vector_update t ->
  0 < vu_updateWidth (vectorUpdate_ t) /\ 0 < vu_addressSize (vectorUpdate_ t) /\
  size_ t = vu_updateWidth (vectorUpdate_ t) + vu_addressSize (vectorUpdate_ t) + 2.
Proof.
  intros (Hg & Hv & _). apply validate_vector_update in Hv; [|done]. lia.
Qed.

Definition select_address (t : SNLTruthTable) (inputs : list bool) : Z :=
  let m := vectorSelect_ t in
  address_value (vs_isSigned m) (vs_addressSize m) inputs (vs_width m + vs_addressSize m - 1).

(** The value of a VECTOR_SELECT output bit is the data bit at the address,
    read in two's complement when it is signed, plus the bit's offset; out of
    range it is unknown. *)
Theorem evaluateVectorSelect_spec t inputs :
  valid_vector_select t -> N.of_nat (length inputs) = size_ t ->
  evaluateVectorSelect t inputs =
    let m := vectorSelect_ t in
    let k := (select_address t inputs + Z.of_N (vs_outputBit m))%Z in
    Ret (if (0 <=? k)%Z && (k <? Z.of_N (vs_width m))%Z
         then Some (input_at inputs (vs_width m - 1 - Z.to_N k)) else None).
Proof.
  intros Ht Hlen. pose proof (valid_vector_select_size _ Ht) as (Hw & Ha & Hsize).
  destruct Ht as (Hg & _ & Hwmax & Homax). unfold evaluateVectorSelect, select_address.
  unfold getVectorSelectMetadata. rewrite Hg, bool_decide_eq_true_2 by done.
  cbn [require mbind outcome_bind]. rewrite Hlen, N.eqb_refl. cbn [require mbind outcome_bind].
  destruct (vectorSelect_ t) as [w sw n o sg]. cbn [vs_width vs_addressSize vs_isSigned vs_outputBit] in *.
  rewrite find_offset_spec; [|done|intros b Hb; lia|].
  2:{ intros k Hk%elem_of_upto. unfold small_offset, u32max in *. lia. }
  cbn [mbind outcome_bind]. set (a := address_value sg n inputs (w + n - 1)).
  destruct (decide (0 <= a + Z.of_N o < Z.of_N w)%Z) as [Hr|Hr].
  - rewrite (list_find_upto _ w (Z.to_N (a + Z.of_N o))) by lia. cbn [mbind option_bind].
    rewrite vec_at_default by lia. cbn [mbind outcome_bind].
    rewrite (proj2 (Z.leb_le _ _)), (proj2 (Z.ltb_lt _ _)) by lia. done.
  - rewrite list_find_upto_none by lia. cbn [mbind option_bind].
    destruct (Z.leb_spec 0 (a + Z.of_N o)), (Z.ltb_spec (a + Z.of_N o) (Z.of_N w)); (done || lia).
Qed.

Lemma evaluateVectorSelect_witness :
  exists t, VectorSelect (mkVectorSelect 4 2 2 1 true) [63] = Ret t /\
    let inputs := [true; false; false; true; true; true] in
    evaluateVectorSelect t inputs =
      let m := vectorSelect_ t in
      let k := (select_address t inputs + Z.of_N (vs_outputBit m))%Z in
      Ret (if (0 <=? k)%Z && (k <? Z.of_N (vs_width m))%Z
           then Some (input_at inputs (vs_width m - 1 - Z.to_N k)) else None).
Proof.
  eexists. split; [reflexivity|]. apply evaluateVectorSelect_spec; [|done]. repeat split; done.
Defined.

Definition update_address (t : SNLTruthTable) (inputs : list bool) : Z :=
  let m := vectorUpdate_ t in
  address_value (vu_isSigned m) (vu_addressSize m) inputs
    (1 + vu_updateWidth m + vu_addressSize m - 1).

(** The value of a VECTOR_UPDATE output bit is the base bit unless the update is
    enabled and the written slice covers it. *)
Theorem evaluateVectorUpdate_spec t inputs :
  valid_vector_update t -> N.of_nat (length inputs) = size_ t ->
  evaluateVectorUpdate t inputs =
    let m := vectorUpdate_ t in
    let k := (Z.of_N (vu_outputBit m) - update_address t inputs)%Z in
    Ret (if input_at inputs (size_ t - 1) && (0 <=? k)%Z && (k <? Z.of_N (vu_updateWidth m))%Z
         then input_at inputs (vu_updateWidth m - Z.to_N k) else input_at inputs 0).
Proof.
  intros Ht Hlen. pose proof (valid_vector_update_size _ Ht) as (Hw & Ha & Hsize).
  destruct Ht as (Hg & _ & Hwmax & Homax). unfold evaluateVectorUpdate, update_address.
  unfold getVectorUpdateMetadata. rewrite Hg, bool_decide_eq_true_2 by done.
  cbn [require mbind outcome_bind]. rewrite Hlen, N.eqb_refl. cbn [require mbind outcome_bind].
  destruct (vectorUpdate_ t) as [w uw n o sg].
  cbn [vu_width vu_updateWidth vu_addressSize vu_isSigned vu_outputBit] in *.
  assert (vec_at inputs 0 = Ret (input_at inputs 0)) as H0 by (apply vec_at_default; lia).
  assert (vec_at inputs (pred (length inputs)) = Ret (input_at inputs (size_ t - 1))) as ->.
  { unfold input_at. replace (pred (length inputs)) with (N.to_nat (size_ t - 1)) by lia.
    apply vec_at_default. lia. }
  cbn [mbind outcome_bind]. destruct (input_at inputs (size_ t - 1)); cbn [negb andb]; [|done].
  rewrite find_offset_spec; [|done|intros b Hb; lia|].
  2:{ intros k Hk%elem_of_upto. unfold small_offset, u32max in *. lia. }
  cbn [mbind outcome_bind]. set (a := address_value sg n inputs (1 + uw + n - 1)).
  destruct (decide (0 <= Z.of_N o - a < Z.of_N uw)%Z) as [Hr|Hr].
  - rewrite (list_find_upto _ uw (Z.to_N (Z.of_N o - a))) by lia. cbn [mbind option_bind].
    rewrite (proj2 (Z.leb_le _ _)), (proj2 (Z.ltb_lt _ _)) by lia. cbn [andb].
    replace (1 + uw - 1 - Z.to_N (Z.of_N o - a)) with (uw - Z.to_N (Z.of_N o - a)) by lia.
    apply vec_at_default. lia.
  - rewrite list_find_upto_none by lia. cbn [mbind option_bind]. rewrite H0.
    destruct (Z.leb_spec 0 (Z.of_N o - a)), (Z.ltb_spec (Z.of_N o - a) (Z.of_N uw));
      (done || lia).
Qed.

Lemma evaluateVectorUpdate_witness :
  exists t, VectorUpdate (mkVectorUpdate 4 2 2 1 true) [63] = Ret t /\
    let inputs := [true; false; false; true; true; true] in
    evaluateVectorUpdate t inputs =
      let m := vectorUpdate_ t in
      let k := (Z.of_N (vu_outputBit m) - update_address t inputs)%Z in
      Ret (if input_at inputs (size_ t - 1) && (0 <=? k)%Z && (k <? Z.of_N (vu_updateWidth m))%Z
           then input_at inputs (vu_updateWidth m - Z.to_N k) else input_at inputs 0).
Proof.
  eexists. split; [reflexivity|]. apply evaluateVectorUpdate_spec; [|done]. repeat split; done.
Defined.
