(* ===== verification/Reduction.v ===== *)
(** Constant propagation on [SNLTruthTable]: [getReducedWithConstants],
    [hasNoInfluence], [removeVariable], the constant tests and the gate
    recognisers, with the function a table denotes. *)
From S2P Require Import Prelude BitDependencies BitVecDynamic TruthTable VectorTables.
Local Open Scope N_scope.

(** * Constant tests *)

(** The mask of the [1 << size] rows of a table of at most 6 inputs. *)
Definition rows_mask (size : N) : N :=
  let rows := N.shiftl 1 size in
  if rows <? 64 then N.shiftl 1 rows - 1 else u64max.

(** The accumulating loops over the rows of a larger table. *)
Definition rows_fold (op : bool -> bool -> bool) (init : bool) (b : NLBitVecDynamic)
    : outcome bool :=
  foldl (fun result i => result ← result; bit ← bitvec_bit b i; Ret (op result bit))
    (Ret init) (upto (nbits_ b)).

Definition all0 (t : SNLTruthTable) : outcome bool :=
  if nbits_ (bits_ t) =? 0 then Ret false
  else if size_ t <=? 6 then
    m ← bitvec_to_u64 (bits_ t);
    Ret (N.land m (rows_mask (size_ t)) =? 0)
  else
    result ← rows_fold orb false (bits_ t);
    Ret (Bool.eqb result false).

Definition all1 (t : SNLTruthTable) : outcome bool :=
  if nbits_ (bits_ t) =? 0 then Ret false
  else if size_ t <=? 6 then
    m ← bitvec_to_u64 (bits_ t);
    Ret (N.land m (rows_mask (size_ t)) =? rows_mask (size_ t))
  else rows_fold andb true (bits_ t).

(** * Reduction by constants *)

(** [std::find_if(idxConsts, c.first == bit)]: the first constant given. *)
Definition constant_of (idxConsts : list (N * bool)) (bit : N) : option bool :=
  snd <$> find (fun c => fst c =? bit) idxConsts.

(** The index of the original row: constants where given, the bits of [j]
    elsewhere; [remPos] is the next bit of [j]. *)
Definition weave_step (idxConsts : list (N * bool)) (j : N) (st : N * N) (bit : N) : N * N :=
  let '(origIdx, remPos) := st in
  match constant_of idxConsts bit with
  | Some val => (N.lor origIdx (N.shiftl (N.b2n val) bit), remPos)
  | None => (N.lor origIdx (N.shiftl (N.b2n (N.testbit j remPos)) bit), remPos + 1)
  end.
Definition original_row (idxConsts : list (N * bool)) (size j : N) : N :=
  (foldl (weave_step idxConsts j) (0, 0) (upto size)).1.

(** The row loop: [reduced] collects up to 64 rows, [reducedVect] more. *)
Definition reduce_step (t : SNLTruthTable) (idxConsts : list (N * bool)) (newSize : N)
    (acc : outcome (N * list bool)) (j : N) : outcome (N * list bool) :=
  st ← acc;
  let '(reduced, reducedVect) := (st : N * list bool) in
  inputBit ← bitvec_bit (bits_ t) (original_row idxConsts (size_ t) j);
  Ret (if newSize <=? 6
       then (if (inputBit : bool) then N.lor reduced (N.shiftl 1 j) else reduced, reducedVect)
       else (reduced, <[N.to_nat j := inputBit]> reducedVect)).

(** Rows of the reduced table; [1u << newSize] and [val << bit] are 32-bit
    shifts. *)
Definition reduce_rows (t : SNLTruthTable) (idxConsts : list (N * bool)) (newSize : N)
    : outcome SNLTruthTable :=
  _ ← defined ((newSize <? 32) && (size_ t <=? 32));
  let newN := N.shiftl 1 newSize in
  rows ← foldl (reduce_step t idxConsts newSize)
           (Ret (0, replicate (N.to_nat newN) false)) (upto newN);
  deps ← fullDependencies newSize;
  out ← (if 6 <? newSize then tt_vector newSize (snd rows) deps
         else tt_mask newSize (fst rows) deps);
  zero ← all0 out;
  if (zero : bool) then Logic0
  else
    one ← all1 out;
    if (one : bool) then Logic1 else Ret out.

(** The decision every gate makes: a constant, a one-input table, or a gate of
    the remaining inputs. *)
Definition reduced_gate (newSize : N) (none : outcome SNLTruthTable)
    (single : outcome SNLTruthTable) (g : GenericType) : outcome SNLTruthTable :=
  if newSize =? 0 then none
  else if newSize =? 1 then single
  else deps ← fullDependencies newSize; tt_generic newSize g deps.

(** The VECTOR_UPDATE case: every input must be given exactly once. *)
Fixpoint collect_inputs (idxConsts : list (N * bool)) (inputs seen : list bool)
    : outcome (list bool) :=
  match idxConsts with
  | [] => Ret inputs
  | (index, value) :: rest =>
      s ← vec_at seen (N.to_nat index);
      _ ← require (negb s) "Duplicate VECTOR_UPDATE constant input";
      collect_inputs rest (<[N.to_nat index := value]> inputs) (<[N.to_nat index := true]> seen)
  end.

Definition reduce_generic (t : SNLTruthTable) (idxConsts : list (N * bool)) (newSize : N)
    : outcome SNLTruthTable :=
  let trueConstants := length (filter (fun ic => ic.2 = true) idxConsts) in
  let hasTrue := (0 <? trueConstants)%nat in
  let hasFalseConstant := existsb (fun ic => negb ic.2) idxConsts in
  let invert := Nat.odd trueConstants in
  match genericType_ t with
  | AND => if hasFalseConstant then Logic0 else reduced_gate newSize Logic1 Buf AND
  | NAND => if hasFalseConstant then Logic1 else reduced_gate newSize Logic0 Inv NAND
  | OR => if hasTrue then Logic1 else reduced_gate newSize Logic0 Buf OR
  | NOR => if hasTrue then Logic0 else reduced_gate newSize Logic1 Inv NOR
  | XOR => reduced_gate newSize (if invert then Logic1 else Logic0)
             (if invert then Inv else Buf) (if invert then XNOR else XOR)
  | XNOR => reduced_gate newSize (if invert then Logic0 else Logic1)
             (if invert then Buf else Inv) (if invert then XOR else XNOR)
  | VECTOR_SELECT => Throw "VECTOR_SELECT constant reduction is unsupported"
  | TABLE_SELECT => Throw "getReducedWithConstants() does not support TABLE_SELECT"
  | DIVMOD => Throw "getReducedWithConstants() does not support DIVMOD"
  | VECTOR_UPDATE =>
      _ ← require (N.of_nat (length idxConsts) =? size_ t)
            "Partial VECTOR_UPDATE reduction is unsupported";
      let none := replicate (N.to_nat (size_ t)) false in
      inputs ← collect_inputs idxConsts none none;
      value ← evaluateVectorUpdate t inputs;
      if (value : bool) then Logic1 else Logic0
  | ROM => Throw "getReducedWithConstants() does not support ROM"
  | NONE | ADD_SUB | MULTIPLY | SHIFT => reduce_rows t idxConsts newSize
  end.

Definition getReducedWithConstants (t : SNLTruthTable) (idxConsts : list (N * bool))
    : outcome SNLTruthTable :=
  _ ← require (isSimple (dependencies_ t))
        "getReducedWithConstants() does not support non full dependencies";
  if size_ t =? 0 then Ret t
  else if bool_decide (idxConsts = []) then Ret t
  else
    _ ← require (negb (existsb (fun ic => size_ t <=? ic.1) idxConsts))
          "Index out of range (max=6)";
    let k := u32 (N.of_nat (length idxConsts)) in
    let newSize := if k <? size_ t then size_ t - k else 0 in
    if isGeneric t then reduce_generic t idxConsts newSize
    else reduce_rows t idxConsts newSize.

Definition getReducedWithConstant (t : SNLTruthTable) (idx : N) (c : bool)
    : outcome SNLTruthTable :=
  getReducedWithConstants t [(idx, c)].

Definition hasNoInfluence (t : SNLTruthTable) (v : N) : outcome bool :=
  t0 ← getReducedWithConstant t v false;
  t1 ← getReducedWithConstant t v true;
  Ret (bool_decide (t0 = t1)).

(** * Removing a variable *)

(** [low | high]: the row without bit [v]. *)
Definition drop_bit (i v : N) : N :=
  let low := N.land i (N.shiftl 1 v - 1) in
  let high := N.ldiff (N.shiftr i 1) (N.shiftl 1 v - 1) in
  N.lor low high.

(** One row: [out.bits_ |= (1u << ni)] is a 32-bit shift. *)
Definition remove_step (t : SNLTruthTable) (v : N) (acc : outcome NLBitVecDynamic) (i : N)
    : outcome NLBitVecDynamic :=
  out ← acc;
  if N.testbit i v then Ret out
  else
    b ← bitvec_shr (bits_ t) i;
    if (b : bool) then
      let ni := drop_bit i v in
      _ ← defined (ni <? 32);
      Ret (bitvec_or out (N.shiftl 1 ni))
    else Ret out.

Definition removeVariable (t : SNLTruthTable) (v : N) : outcome SNLTruthTable :=
  _ ← require (negb (size_ t <=? v)) "Index out of range";
  deps ← fullDependencies (size_ t - 1);
  out ← tt_mask (size_ t - 1) 0 deps;
  _ ← defined (size_ t <? 32);
  bits ← foldl (remove_step t v) (Ret (bits_ out)) (upto (N.shiftl 1 (size_ t)));
  Ret (tt_plain (size_ out) bits (dependencies_ out) (genericType_ out)).

(** * Gate recognisers *)

(** The value a gate has on row [idx]; row bits above 63 read as zero. *)
Definition expectedGenericValue (type : GenericType) (size idx : N) : bool :=
  let values := (fun bit => (bit <? 64) && N.testbit idx bit) <$> upto size in
  let hasZero := existsb negb values in
  let hasOne := existsb id values in
  let oddParity := foldl xorb false values in
  match type with
  | AND => negb hasZero
  | NAND => hasZero
  | OR => hasOne
  | NOR => negb hasOne
  | XOR => oddParity
  | XNOR => negb oddParity
  | _ => false
  end.

Fixpoint rows_equal_gate (t : SNLTruthTable) (type : GenericType) (rows : list N)
    : outcome bool :=
  match rows with
  | [] => Ret true
  | idx :: rows =>
      b ← bitvec_bit (bits_ t) idx;
      if Bool.eqb b (expectedGenericValue type (size_ t) idx)
      then rows_equal_gate t type rows else Ret false
  end.

Definition isGenericOrEquivalent (t : SNLTruthTable) (type : GenericType) : outcome bool :=
  if bool_decide (genericType_ t = type) then Ret true
  else if bool_decide (genericType_ t <> NONE) || negb (isInitialized t) || (size_ t <? 2)
  then Ret false
  else rows_equal_gate t type (upto (nbits_ (bits_ t))).

Definition isAnd (t : SNLTruthTable) := isGenericOrEquivalent t AND.
Definition isNand (t : SNLTruthTable) := isGenericOrEquivalent t NAND.
Definition isOr (t : SNLTruthTable) := isGenericOrEquivalent t OR.
Definition isNor (t : SNLTruthTable) := isGenericOrEquivalent t NOR.
Definition isXor (t : SNLTruthTable) := isGenericOrEquivalent t XOR.
Definition isXnor (t : SNLTruthTable) := isGenericOrEquivalent t XNOR.

Definition isMux (t : SNLTruthTable) : outcome bool :=
  if bool_decide (genericType_ t = NONE) && isInitialized t && negb (isGeneric t) &&
     (size_ t =? 3) && (nbits_ (bits_ t) =? 8)
  then m ← bitvec_to_u64 (bits_ t); Ret (m =? 202)
  else Ret false.
