(* ===== verification/ReductionProofs.v ===== *)
(** Correctness of constant reduction: the reduced table denotes the original
    function with the constants substituted.
    The gate recognisers: a table given by its rows is recognised as a gate
    exactly when it denotes that gate. *)
From S2P Require Import Prelude BitDependencies BitVecDynamic TruthTable VectorTables Reduction.
Local Open Scope N_scope.

(** * The function a table denotes *)

Definition gate_value (g : GenericType) (values : list bool) : bool :=
  match g with
  | AND => forallb id values
  | NAND => negb (forallb id values)
  | OR => existsb id values
  | NOR => negb (existsb id values)
  | XOR => foldr xorb false values
  | XNOR => negb (foldr xorb false values)
  | _ => false
  end.

(** Variable [i] of the table has value [sigma i]. *)
Definition tt_eval (t : SNLTruthTable) (sigma : N -> bool) : bool :=
  match genericType_ t with
  | NONE => bitvec_get (bits_ t) (index_of sigma (size_ t))
  | g => gate_value g (sigma <$> upto (size_ t))
  end.

Definition is_gate (g : GenericType) : Prop :=
  g = AND \/ g = NAND \/ g = OR \/ g = NOR \/ g = XOR \/ g = XNOR.

(** A table given by its rows. *)
Definition row_table (t : SNLTruthTable) : Prop :=
  genericType_ t = NONE /\ isSimple (dependencies_ t) = true /\ 0 < size_ t < 32 /\
  bitvec_wf (bits_ t) /\ nbits_ (bits_ t) = 2 ^ size_ t.

Definition gate_table (t : SNLTruthTable) : Prop :=
  is_gate (genericType_ t) /\ isSimple (dependencies_ t) = true /\ 0 < size_ t <= u32max.

(** The assignment of the original variables: constants where given, the
    remaining variables in order elsewhere. *)
Definition rank (cs : list (N * bool)) (b : N) : N :=
  N.of_nat (length (filter (fun i => constant_of cs i = None) (upto b))).
Definition weave (cs : list (N * bool)) (tau : N -> bool) (b : N) : bool :=
  match constant_of cs b with
  | Some val => val
  | None => tau (rank cs b)
  end.

Lemma tt_eval_ext t s s' :
  (forall i, i < size_ t -> s i = s' i) -> tt_eval t s = tt_eval t s'.
Proof.
  intros H. unfold tt_eval. rewrite (index_of_ext s s') by done.
  assert (s <$> upto (size_ t) = s' <$> upto (size_ t)) as ->; [|done].
  apply list_fmap_ext. intros k i Hi%list_elem_of_lookup_2%elem_of_upto. by apply H.
Qed.

(** * Constants *)

Lemma constant_of_None cs b : constant_of cs b = None <-> b ∉ cs.*1.
Proof.
  unfold constant_of. induction cs as [|[i v] cs IH]; cbn; [split; [intros _; apply not_elem_of_nil|done]|].
  rewrite not_elem_of_cons. destruct (N.eqb_spec i b) as [->|]; cbn; [split; [done|tauto]|].
  rewrite IH. naive_solver.
Qed.

Lemma constant_of_Some cs b v : NoDup cs.*1 -> constant_of cs b = Some v <-> (b, v) ∈ cs.
Proof.
  unfold constant_of. induction cs as [|[i w] cs IH]; cbn; intros Hnd.
  - split; [done|by intros ?%not_elem_of_nil].
  - apply NoDup_cons in Hnd as [Hi Hnd]. rewrite elem_of_cons.
    destruct (N.eqb_spec i b) as [->|Hne]; cbn.
    + split; [intros [= ->]; by left|]. intros [[= ->]|Hin]; [done|].
      exfalso. apply Hi. apply list_elem_of_fmap. by exists (b, v).
    + rewrite IH by done. naive_solver.
Qed.

Lemma rank_succ cs n :
  rank cs (N.succ n) = rank cs n + (if constant_of cs n then 0 else 1).
Proof.
  unfold rank. rewrite upto_succ, filter_app, length_app, filter_cons, filter_nil.
  destruct (constant_of cs n); case_decide; try done; cbn [length]; lia.
Qed.

Lemma rank_le cs n : rank cs n <= n.
Proof.
  unfold rank. pose proof (length_filter (fun i => constant_of cs i = None) (upto n)).
  rewrite length_upto in *. lia.
Qed.

Lemma rank_mono cs n m : n < m -> constant_of cs n = None -> rank cs n < rank cs m.
Proof.
  intros Hlt Hn. induction m as [|m IH] using N.peano_ind; [lia|].
  rewrite rank_succ. destruct (N.eq_dec n m) as [->|]; [rewrite Hn; lia|].
  assert (rank cs n < rank cs m) by (apply IH; lia). lia.
Qed.

(** [original_row] is the row of the woven assignment. *)
Lemma original_row_spec cs size j :
  original_row cs size j = index_of (weave cs (N.testbit j)) size.
Proof.
  unfold original_row, index_of.
  assert (foldl (weave_step cs j) (0, 0) (upto size) =
    (foldl (set_bit_if (weave cs (N.testbit j))) 0 (upto size), rank cs size)) as ->; [|done].
  induction size as [|n IH] using N.peano_ind; [done|].
  rewrite upto_succ, !foldl_app, IH, rank_succ. cbn [foldl weave_step].
  set (f := weave cs (N.testbit j)).
  assert (f n = match constant_of cs n with Some val => val | None => N.testbit j (rank cs n) end)
    as Hf by reflexivity.
  generalize (foldl (set_bit_if f) 0 (upto n)). intros idx. unfold set_bit_if. rewrite Hf.
  destruct (constant_of cs n); [by rewrite N.add_0_r|done].
Qed.

(** The woven values are the constants and the remaining variables. *)
Lemma weave_filter cs tau n :
  weave cs tau <$> filter (fun i => constant_of cs i = None) (upto n) = tau <$> upto (rank cs n).
Proof.
  induction n as [|n IH] using N.peano_ind; [done|].
  rewrite upto_succ, filter_app, fmap_app, IH, rank_succ, filter_cons, filter_nil.
  destruct (constant_of cs n) eqn:E; case_decide as Hd; try done; cbn.
  - by rewrite N.add_0_r, app_nil_r.
  - rewrite N.add_1_r, upto_succ, fmap_app. cbn. unfold weave. by rewrite E.
Qed.

Definition constants_ok (cs : list (N * bool)) (size : N) : Prop :=
  NoDup cs.*1 /\ Forall (fun c => c.1 < size) cs.

Lemma constants_perm cs size :
  constants_ok cs size ->
  filter (fun i => ~ constant_of cs i = None) (upto size) ≡ₚ cs.*1.
Proof.
  intros [Hnd Hlt]. apply NoDup_Permutation; [apply NoDup_filter, NoDup_upto|done|].
  intros i. rewrite list_elem_of_filter, elem_of_upto, constant_of_None.
  split; [intros [H _]; by apply dec_stable|]. intros Hi. split; [by intros ?|].
  apply list_elem_of_fmap in Hi as (c & -> & Hc). by eapply Forall_forall in Hlt.
Qed.

Lemma weave_constants cs tau : NoDup cs.*1 -> weave cs tau <$> cs.*1 = cs.*2.
Proof.
  intros Hnd. rewrite <- list_fmap_compose. apply list_fmap_ext.
  intros k [b v] Hc%list_elem_of_lookup_2. cbn. unfold weave.
  apply constant_of_Some in Hc as ->; done.
Qed.

Lemma rank_size cs size :
  constants_ok cs size -> rank cs size = size - N.of_nat (length cs) /\ N.of_nat (length cs) <= size.
Proof.
  intros Hok. pose proof (Permutation_length (filter_app_complement
    (fun i => constant_of cs i = None) (upto size))) as Hp.
  rewrite length_app, (Permutation_length (constants_perm _ _ Hok)), length_upto, length_fmap in Hp.
  unfold rank. lia.
Qed.

Lemma weave_perm cs tau size :
  constants_ok cs size ->
  weave cs tau <$> upto size ≡ₚ cs.*2 ++ (tau <$> upto (size - N.of_nat (length cs))).
Proof.
  intros Hok. destruct (rank_size _ _ Hok) as [Hr _].
  rewrite <- (filter_app_complement (fun i => constant_of cs i = None) (upto size)) at 1.
  rewrite fmap_app, weave_filter, Hr, (constants_perm _ _ Hok), weave_constants by apply Hok.
  by rewrite Permutation_app_comm.
Qed.

(** * Gates *)

Lemma forallb_Permutation (l l' : list bool) : l ≡ₚ l' -> forallb id l = forallb id l'.
Proof. induction 1; cbn; btauto || congruence. Qed.
Lemma existsb_Permutation (l l' : list bool) : l ≡ₚ l' -> existsb id l = existsb id l'.
Proof. induction 1; cbn; btauto || congruence. Qed.
Lemma parity_Permutation (l l' : list bool) : l ≡ₚ l' -> foldr xorb false l = foldr xorb false l'.
Proof. induction 1; cbn; btauto || congruence. Qed.
Lemma parity_app (l l' : list bool) :
  foldr xorb false (l ++ l') = xorb (foldr xorb false l) (foldr xorb false l').
Proof. induction l as [|b l IH]; cbn; [by destruct (foldr xorb false l')|]. rewrite IH. btauto. Qed.

#[export] Instance gate_value_proper g : Proper ((≡ₚ) ==> (=)) (gate_value g).
Proof.
  intros l l' H. destruct g; cbn; try done;
    by rewrite ?(forallb_Permutation _ _ H), ?(existsb_Permutation _ _ H),
      ?(parity_Permutation _ _ H).
Qed.

(** The three summaries [reduce_generic] takes of the constants. *)
Lemma hasFalse_spec (cs : list (N * bool)) :
  existsb (fun ic => negb ic.2) cs = negb (forallb id cs.*2).
Proof. induction cs as [|[i b] cs IH]; cbn; [done|]. rewrite IH. unfold id. btauto. Qed.
Lemma hasTrue_spec (cs : list (N * bool)) :
  (0 <? length (filter (fun ic => ic.2 = true) cs))%nat = existsb id cs.*2.
Proof.
  induction cs as [|[i b] cs IH]; [done|]. rewrite filter_cons. cbn [snd].
  destruct b; case_decide; done.
Qed.
Lemma invert_spec (cs : list (N * bool)) :
  Nat.odd (length (filter (fun ic => ic.2 = true) cs)) = foldr xorb false cs.*2.
Proof.
  induction cs as [|[i b] cs IH]; [done|]. rewrite filter_cons. cbn [snd].
  destruct b; case_decide; try done; cbn [length]; cbn [fmap list_fmap snd foldr]; rewrite <- IH.
  by rewrite Nat.odd_succ, <- Nat.negb_odd.
Qed.

Lemma Logic0_eq : Logic0 = Ret (tt_plain 0 (mkBitVec 1 (Mask 0)) [] NONE).
Proof. reflexivity. Qed.
Lemma Logic1_eq : Logic1 = Ret (tt_plain 0 (mkBitVec 1 (Mask 1)) [] NONE).
Proof. reflexivity. Qed.
Lemma Inv_eq : Inv = Ret (tt_plain 1 (mkBitVec 2 (Mask 1)) [1] NONE).
Proof. reflexivity. Qed.
Lemma Buf_eq : Buf = Ret (tt_plain 1 (mkBitVec 2 (Mask 2)) [1] NONE).
Proof. reflexivity. Qed.

Lemma tt_generic_full n g :
  is_gate g -> n <= u32max ->
  tt_generic n g (encode_blocks (upto n)) =
    Ret (tt_plain n (bitvec_zeros 0) (encode_blocks (upto n)) g).
Proof.
  intros Hg Hn. unfold tt_generic. rewrite check_dependencies_full. cbn [mbind outcome_bind].
  unfold u32. rewrite N.mod_small by (unfold u32max in Hn; lia).
  destruct Hg as [->|[->|[->|[->|[->| ->]]]]]; reflexivity.
Qed.

Lemma index_of_one tau : index_of tau 1 = N.b2n (tau 0).
Proof. change 1 with (N.succ 0) at 1. rewrite index_of_succ. cbn. by destruct (tau 0). Qed.

Lemma reduced_gate_spec n (b inv : bool) g :
  is_gate g -> n <= u32max ->
  gate_value g [] = b -> (forall x, gate_value g [x] = xorb inv x) ->
  exists r, reduced_gate n (if b then Logic1 else Logic0) (if inv then Inv else Buf) g = Ret r /\
    forall tau, tt_eval r tau = gate_value g (tau <$> upto n).
Proof.
  intros Hg Hn Hnil Hone. unfold reduced_gate.
  destruct (N.eqb_spec n 0) as [->|H0]; [|destruct (N.eqb_spec n 1) as [->|H1]].
  - destruct b; rewrite ?Logic0_eq, ?Logic1_eq; eexists; (split; [done|]); intros tau;
      change (tau <$> upto 0) with (@nil bool); by rewrite Hnil.
  - destruct inv; rewrite ?Inv_eq, ?Buf_eq; eexists; (split; [done|]); intros tau;
      change (tau <$> upto 1) with [tau 0]; rewrite Hone;
      unfold tt_eval, bitvec_get; cbn [genericType_ tt_plain bits_ size_ data_];
      rewrite index_of_one; by destruct (tau 0).
  - rewrite fullDependencies_Ret. cbn [mbind outcome_bind]. rewrite tt_generic_full by done.
    eexists. split; [done|]. intros tau. unfold tt_eval. cbn.
    by destruct Hg as [->|[->|[->|[->|[->| ->]]]]].
Qed.

(** Closes one branch of the gate switch with the table [H] describes. *)
Ltac gate_case H :=
  let r := fresh "r" in let Hr := fresh "Hr" in let He := fresh "He" in
  destruct H as (r & Hr & He);
  [unfold is_gate; first [tauto|done|intros []; done] ..|];
  exists r; split; [exact Hr|]; intros tau;
  rewrite ?forallb_app, ?existsb_app, ?parity_app, He;
  match goal with E : _ = _ :> bool |- _ => rewrite E end;
  cbn [gate_value]; btauto.

(** A gate with constants is the gate of the remaining inputs, or decided. *)
Lemma reduce_generic_gate t cs :
  gate_table t -> constants_ok cs (size_ t) ->
  exists r, reduce_generic t cs (size_ t - N.of_nat (length cs)) = Ret r /\
    forall tau, tt_eval r tau =
      gate_value (genericType_ t) (cs.*2 ++ (tau <$> upto (size_ t - N.of_nat (length cs)))).
Proof.
  intros (Hg & _ & Hsz) Hok. set (n := size_ t - N.of_nat (length cs)).
  assert (n <= u32max) as Hn by lia.
  unfold reduce_generic. rewrite hasFalse_spec, hasTrue_spec, invert_spec.
  assert (forall b : bool, exists r, (if b then Logic1 else Logic0) = Ret r /\ forall tau, tt_eval r tau = b)
    as Hlogic by (intros []; eexists; (split; [reflexivity|]); done).
  destruct Hg as [-> |[->|[->|[->|[->| ->]]]]]; cbn [gate_value].
  - destruct (forallb id cs.*2) eqn:E;
      [gate_case (reduced_gate_spec n true false AND)|gate_case (Hlogic false)].
  - destruct (forallb id cs.*2) eqn:E;
      [gate_case (reduced_gate_spec n false true NAND)|gate_case (Hlogic true)].
  - destruct (existsb id cs.*2) eqn:E;
      [gate_case (Hlogic true)|gate_case (reduced_gate_spec n false false OR)].
  - destruct (existsb id cs.*2) eqn:E;
      [gate_case (Hlogic false)|gate_case (reduced_gate_spec n true true NOR)].
  - destruct (foldr xorb false cs.*2) eqn:E;
      [gate_case (reduced_gate_spec n true true XNOR)|gate_case (reduced_gate_spec n false false XOR)].
  - destruct (foldr xorb false cs.*2) eqn:E;
      [gate_case (reduced_gate_spec n false false XOR)|gate_case (reduced_gate_spec n true true XNOR)].
Qed.

(** * Constant tests *)

Lemma rows_mask_ones n : n <= 6 -> rows_mask n = N.ones (2 ^ n).
Proof.
  intros Hn. unfold rows_mask. rewrite !N.shiftl_1_l, N.ones_equiv.
  destruct (N.ltb_spec (2 ^ n) 64) as [H|H]; [lia|].
  assert (2 ^ n <= 2 ^ 6) as Hle by (by apply N.pow_le_mono_r).
  change (2 ^ 6) with 64 in Hle. assert (2 ^ n = 64) as -> by lia. done.
Qed.

Lemma land_ones_zero m k : N.land m (N.ones k) = 0 <-> forall j, j < k -> N.testbit m j = false.
Proof.
  split.
  - intros H j Hj. apply (f_equal (fun x => N.testbit x j)) in H.
    rewrite N.land_spec, N.ones_spec_low, N.bits_0, andb_true_r in H; done.
  - intros H. apply N.bits_inj. intros j. rewrite N.land_spec, N.bits_0.
    destruct (N.lt_ge_cases j k); [by rewrite H|]. by rewrite N.ones_spec_high, andb_false_r.
Qed.

Lemma land_ones_ones m k :
  N.land m (N.ones k) = N.ones k <-> forall j, j < k -> N.testbit m j = true.
Proof.
  split.
  - intros H j Hj. apply (f_equal (fun x => N.testbit x j)) in H.
    by rewrite N.land_spec, N.ones_spec_low, andb_true_r in H.
  - intros H. apply N.bits_inj. intros j. rewrite N.land_spec.
    destruct (N.lt_ge_cases j k); [by rewrite H|]. by rewrite N.ones_spec_high, andb_false_r.
Qed.

Lemma rows_fold_spec op init b :
  bitvec_wf b -> rows_fold op init b = Ret (foldl op init (bitvec_get b <$> upto (nbits_ b))).
Proof.
  intros Hwf. unfold rows_fold. cut (forall n, n <= nbits_ b ->
    foldl (fun result i => result ← result; bit ← bitvec_bit b i; Ret (op result bit)) (Ret init) (upto n)
    = Ret (foldl op init (bitvec_get b <$> upto n))); [intros H; by apply H|].
  induction n as [|n IH] using N.peano_ind; intros Hn; [done|].
  rewrite upto_succ, fmap_app, !foldl_app, IH by lia. cbn.
  rewrite bitvec_bit_Ret by (done || lia). done.
Qed.

Lemma foldl_orb b l : foldl orb b l = b || existsb id l.
Proof. revert b. induction l as [|x l IH]; intros b; cbn; [btauto|]. rewrite IH. unfold id. btauto. Qed.
Lemma foldl_andb b l : foldl andb b l = b && forallb id l.
Proof. revert b. induction l as [|x l IH]; intros b; cbn; [btauto|]. rewrite IH. unfold id. btauto. Qed.

(** Rows as a [NLBitVecDynamic] of a table with [n] inputs. *)
Definition rows_of (n : N) (b : NLBitVecDynamic) : Prop :=
  n < 32 /\ bitvec_wf b /\ nbits_ b = 2 ^ n.

Lemma rows_of_mask n b :
  rows_of n b -> n <= 6 -> exists m, b = mkBitVec (2 ^ n) (Mask m) /\ m < 2 ^ 64.
Proof.
  intros (_ & Hwf & Hnb) Hn. assert (2 ^ n <= 2 ^ 6) as Hle by (by apply N.pow_le_mono_r).
  change (2 ^ 6) with 64 in Hle. destruct_bitvec b; [|lia]. exists m. subst nb. by destruct Hwf.
Qed.

Lemma all_rows_spec (v : bool) n b deps :
  rows_of n b ->
  exists z, (if v then all1 else all0) (tt_plain n b deps NONE) = Ret z /\
    (z = true <-> forall j, j < 2 ^ n -> bitvec_get b j = v).
Proof.
  intros Hr. pose proof Hr as (Hn & Hwf & Hnb). pose proof (pow2_pos n) as Hpos.
  assert ((nbits_ b =? 0) = false) as Hnz by (apply N.eqb_neq; lia).
  destruct v; unfold all0, all1; cbn [tt_plain bits_ size_]; rewrite Hnz;
    (destruct (N.leb_spec n 6) as [Hle|Hgt];
     [destruct (rows_of_mask _ _ Hr Hle) as (m & -> & _); cbn [bitvec_to_u64 data_ mbind outcome_bind];
      eexists; (split; [reflexivity|]); rewrite rows_mask_ones, N.eqb_eq by done; unfold bitvec_get; cbn
     |rewrite rows_fold_spec by done; cbn [mbind outcome_bind]; eexists; (split; [reflexivity|])]).
  - apply land_ones_ones.
  - rewrite foldl_andb, Hnb, andb_true_l, forallb_forall. split.
    + intros H j Hj. apply H, list_elem_of_In, list_elem_of_fmap. exists j.
      by rewrite elem_of_upto.
    + intros H x (j & -> & Hj%elem_of_upto)%list_elem_of_In%list_elem_of_fmap. by apply H.
  - apply land_ones_zero.
  - rewrite foldl_orb, Hnb, orb_false_l, Bool.eqb_true_iff, <- not_true_iff_false, existsb_exists. split.
    + intros H j Hj. apply not_true_is_false. intros Hb. apply H. exists true.
      split; [|done]. apply list_elem_of_In, list_elem_of_fmap. exists j. by rewrite elem_of_upto.
    + intros H (x & (j & -> & Hj%elem_of_upto)%list_elem_of_In%list_elem_of_fmap & Hx).
      unfold id in Hx. by rewrite H in Hx.
Qed.

(** * The row loop *)

(** Row [j] of the reduced table is the original row of the woven index. *)
Definition reduced_row (t : SNLTruthTable) (cs : list (N * bool)) (j : N) : bool :=
  bitvec_get (bits_ t) (original_row cs (size_ t) j).

Lemma row_bit t cs j :
  row_table t -> bitvec_bit (bits_ t) (original_row cs (size_ t) j) = Ret (reduced_row t cs j).
Proof.
  intros (_ & _ & _ & Hwf & Hnb). apply bitvec_bit_Ret; [done|].
  rewrite Hnb, original_row_spec. apply index_of_lt.
Qed.

Lemma reduce_loop_mask t cs newSize v m :
  row_table t -> newSize <= 6 ->
  exists R, foldl (reduce_step t cs newSize) (Ret (0, v)) (upto m) = Ret (R, v) /\
    forall j, N.testbit R j = bool_decide (j < m) && reduced_row t cs j.
Proof.
  intros Ht Hn. induction m as [|m IH] using N.peano_ind.
  - exists 0. split; [done|]. intros j. rewrite N.bits_0, bool_decide_eq_false_2 by lia. done.
  - destruct IH as (R & HR & Hbits). rewrite upto_succ, foldl_app, HR.
    cbn [foldl reduce_step mbind outcome_bind]. rewrite row_bit by done.
    cbn [mbind outcome_bind]. rewrite (proj2 (N.leb_le _ _)) by done.
    eexists. split; [reflexivity|]. intros j.
    destruct (reduced_row t cs m) eqn:E.
    + rewrite N.lor_spec, testbit_shift_one, Hbits.
      destruct (decide (j = m)) as [->|]; [|rewrite (bool_decide_eq_false_2 (j = m)), orb_false_r by done];
        [rewrite (bool_decide_eq_true_2 (m = m)), (bool_decide_eq_true_2 (m < N.succ m)) by lia;
         by rewrite E, orb_true_r|].
      f_equal. apply bool_decide_ext. lia.
    + rewrite Hbits. destruct (decide (j = m)) as [->|]; [by rewrite E, !andb_false_r|].
      f_equal. apply bool_decide_ext. lia.
Qed.

Lemma reduce_loop_vec t cs newSize len m :
  row_table t -> 6 < newSize -> m <= N.of_nat len ->
  exists V, foldl (reduce_step t cs newSize) (Ret (0, replicate len false)) (upto m) = Ret (0, V) /\
    length V = len /\
    forall j, default false (V !! N.to_nat j) = bool_decide (j < m) && reduced_row t cs j.
Proof.
  intros Ht Hn. induction m as [|m IH] using N.peano_ind; intros Hm.
  - exists (replicate len false). split_and!; [done|apply length_replicate|].
    intros j. rewrite bool_decide_eq_false_2 by lia. cbn.
    destruct (replicate len false !! N.to_nat j) eqn:E; [|done]. by apply lookup_replicate in E as [-> _].
  - destruct IH as (V & HV & Hlen & Hbits); [lia|]. rewrite upto_succ, foldl_app, HV.
    cbn [foldl reduce_step mbind outcome_bind]. rewrite row_bit by done.
    cbn [mbind outcome_bind]. rewrite (proj2 (N.leb_gt _ _)) by done.
    eexists. split; [reflexivity|]. rewrite length_insert. split; [done|]. intros j.
    destruct (decide (j = m)) as [->|].
    + rewrite list_lookup_insert_eq by lia. by rewrite bool_decide_eq_true_2 by lia.
    + rewrite list_lookup_insert_ne, Hbits by lia. f_equal. apply bool_decide_ext. lia.
Qed.

(** The three possible results of a row reduction, from the rows it keeps. *)
Definition canonical (n : N) (b : NLBitVecDynamic) (r : SNLTruthTable) : Prop :=
  (Logic0 = Ret r /\ forall j, j < 2 ^ n -> bitvec_get b j = false) \/
  (Logic1 = Ret r /\ forall j, j < 2 ^ n -> bitvec_get b j = true) \/
  (r = tt_plain n b (encode_blocks (upto n)) NONE /\
   ~ (forall j, j < 2 ^ n -> bitvec_get b j = false) /\
   ~ (forall j, j < 2 ^ n -> bitvec_get b j = true)).

Lemma canonical_table n b :
  rows_of n b ->
  exists r, (zero ← all0 (tt_plain n b (encode_blocks (upto n)) NONE);
     if (zero : bool) then Logic0
     else one ← all1 (tt_plain n b (encode_blocks (upto n)) NONE);
          if (one : bool) then Logic1
          else Ret (tt_plain n b (encode_blocks (upto n)) NONE)) = Ret r /\ canonical n b r.
Proof.
  intros Hr. destruct (all_rows_spec false n b (encode_blocks (upto n)) Hr) as (z & -> & Hz).
  destruct (all_rows_spec true n b (encode_blocks (upto n)) Hr) as (o & -> & Ho).
  cbn [mbind outcome_bind]. destruct z.
  - rewrite Logic0_eq. eexists. split; [done|]. left. split; [apply Logic0_eq|]. by apply Hz.
  - destruct o.
    + rewrite Logic1_eq. eexists. split; [done|]. right; left. split; [apply Logic1_eq|]. by apply Ho.
    + eexists. split; [done|]. right; right. split; [done|].
      by split; intros ?%Hz || intros ?%Ho.
Qed.

Lemma reduce_rows_spec t cs newSize :
  row_table t -> newSize <= size_ t ->
  exists b r, reduce_rows t cs newSize = Ret r /\ rows_of newSize b /\ canonical newSize b r /\
    (forall j, j < 2 ^ newSize -> bitvec_get b j = reduced_row t cs j) /\
    (newSize <= 6 -> forall j, 2 ^ newSize <= j -> bitvec_get b j = false).
Proof.
  intros Ht Hle. pose proof Ht as (_ & _ & Hsz & _). unfold reduce_rows.
  rewrite (proj2 (N.ltb_lt newSize 32)), (proj2 (N.leb_le (size_ t) 32)) by lia.
  cbn [defined andb mbind outcome_bind]. rewrite N.shiftl_1_l, fullDependencies_Ret.
  destruct (N.le_gt_cases newSize 6) as [Hn|Hn].
  - destruct (reduce_loop_mask t cs newSize (replicate (N.to_nat (2 ^ newSize)) false) (2 ^ newSize) Ht Hn)
      as (R & -> & HR). cbn [mbind outcome_bind fst snd].
    rewrite (proj2 (N.ltb_ge _ _)), tt_mask_full by done. cbn [mbind outcome_bind].
    assert (rows_of newSize (mkBitVec (2 ^ newSize) (Mask R))) as Hrows.
    { split_and!; [lia| |done]. cbn. split.
      - change 64 with (2 ^ 6). by apply N.pow_le_mono_r.
      - apply lt_pow2_testbit. intros i Hi. rewrite HR, bool_decide_eq_false_2; [done|].
        apply N.le_ngt. transitivity 64; [|done]. change 64 with (2 ^ 6). by apply N.pow_le_mono_r. }
    destruct (canonical_table _ _ Hrows) as (r & Hr & Hc).
    exists (mkBitVec (2 ^ newSize) (Mask R)), r. split_and!; [exact Hr|done..| |].
    + intros j Hj. unfold bitvec_get. cbn. by rewrite HR, bool_decide_eq_true_2.
    + intros _ j Hj. unfold bitvec_get. cbn. by rewrite HR, bool_decide_eq_false_2 by lia.
  - destruct (reduce_loop_vec t cs newSize (N.to_nat (2 ^ newSize)) (2 ^ newSize) Ht Hn)
      as (V & -> & Hlen & HV); [lia|]. cbn [mbind outcome_bind fst snd].
    rewrite (proj2 (N.ltb_lt _ _)), tt_vector_full by lia. cbn [mbind outcome_bind].
    assert (rows_of newSize (mkBitVec (2 ^ newSize) (Vec V))) as Hrows.
    { split_and!; [lia| |done]. cbn. split; [|lia].
      change 64 with (2 ^ 6). apply N.pow_lt_mono_r; lia. }
    destruct (canonical_table _ _ Hrows) as (r & Hr & Hc).
    exists (mkBitVec (2 ^ newSize) (Vec V)), r. split_and!; [exact Hr|done..| |lia].
    intros j Hj. unfold bitvec_get. cbn. by rewrite HV, bool_decide_eq_true_2.
Qed.

(** * Reduction *)

Lemma eval_canonical n b r tau :
  rows_of n b -> canonical n b r -> tt_eval r tau = bitvec_get b (index_of tau n).
Proof.
  intros Hr [[HL Hb]|[[HL Hb]|[-> _]]]; [| |done].
  - rewrite Logic0_eq in HL. injection HL as <-. symmetry. apply Hb, index_of_lt.
  - rewrite Logic1_eq in HL. injection HL as <-. symmetry. apply Hb, index_of_lt.
Qed.

Lemma reduced_row_weave t cs tau :
  genericType_ t = NONE -> constants_ok cs (size_ t) ->
  reduced_row t cs (index_of tau (size_ t - N.of_nat (length cs))) = tt_eval t (weave cs tau).
Proof.
  intros Hg Hok. unfold reduced_row, tt_eval. rewrite Hg, original_row_spec. f_equal.
  apply index_of_ext. intros i Hi. unfold weave. destruct (constant_of cs i) eqn:E; [done|].
  destruct (rank_size _ _ Hok) as [Hrank _]. rewrite testbit_index_of, bool_decide_eq_true_2; [done|].
  rewrite <- Hrank. by apply rank_mono.
Qed.

(** The guards of the entry point on a reducible table. *)
Lemma getReduced_enter t cs :
  (row_table t \/ gate_table t) -> constants_ok cs (size_ t) -> cs <> [] ->
  getReducedWithConstants t cs =
    let newSize := size_ t - N.of_nat (length cs) in
    if isGeneric t then reduce_generic t cs newSize else reduce_rows t cs newSize.
Proof.
  intros Ht Hok Hne. destruct (rank_size _ _ Hok) as [_ Hlen].
  assert (isSimple (dependencies_ t) = true /\ 0 < size_ t <= u32max) as [Hs Hsz].
  { destruct Ht as [(_ & ? & ? & _)|(_ & ? & ?)]; unfold u32max in *; (split; [done|lia]). }
  unfold getReducedWithConstants. rewrite Hs. cbn [require mbind outcome_bind].
  rewrite (proj2 (N.eqb_neq _ _)), bool_decide_eq_false_2 by (done || lia).
  assert (existsb (fun ic => size_ t <=? ic.1) cs = false) as ->.
  { apply not_true_iff_false. intros (c & Hc & Hle)%existsb_exists.
    destruct Hok as [_ Hok]. eapply Forall_forall in Hok; [|by apply list_elem_of_In].
    apply N.leb_le in Hle. lia. }
  cbn [negb require mbind outcome_bind]. unfold u32.
  rewrite N.mod_small by (unfold u32max in Hsz; lia).
  destruct (N.ltb_spec (N.of_nat (length cs)) (size_ t)); [done|].
  replace (size_ t - N.of_nat (length cs)) with 0 by lia. done.
Qed.

(** C11. Constant propagation on a table given by its rows or by a gate type always
    returns a table, and that table denotes the original function with the
    constants substituted and the remaining inputs renumbered in order. *)
Theorem getReducedWithConstants_spec t cs :
  (row_table t \/ gate_table t) -> constants_ok cs (size_ t) ->
  exists r, getReducedWithConstants t cs = Ret r /\
    forall tau, tt_eval r tau = tt_eval t (weave cs tau).
Proof.
  intros Ht Hok. destruct (decide (cs = [])) as [->|Hne].
  - exists t. split.
    + unfold getReducedWithConstants.
      assert (isSimple (dependencies_ t) = true) as -> by (destruct Ht as [(_ & ? & _)|(_ & ? & _)]; done).
      cbn. by destruct (size_ t =? 0).
    + intros tau. apply tt_eval_ext. intros i _. unfold weave. cbn. f_equal.
      unfold rank. rewrite filter_all; [rewrite length_upto; lia|by apply Forall_true].
  - rewrite getReduced_enter by done. cbv zeta.
    destruct (rank_size _ _ Hok) as [_ Hlen].
    destruct Ht as [Ht|Ht].
    + destruct (reduce_rows_spec t cs (size_ t - N.of_nat (length cs)) Ht) as
        (b & r & Hr & Hrows & Hc & Hb & _); [lia|].
      unfold isGeneric. rewrite bool_decide_eq_false_2 by (intros H; apply H, Ht).
      exists r. split; [exact Hr|]. intros tau.
      rewrite (eval_canonical _ _ _ _ Hrows Hc), Hb by apply index_of_lt.
      apply reduced_row_weave; [apply Ht|done].
    + unfold isGeneric. rewrite bool_decide_eq_true_2
        by (destruct Ht as [[->|[->|[->|[->|[->| ->]]]]] _]; done).
      destruct (reduce_generic_gate t cs Ht Hok) as (r & Hr & He).
      exists r. split; [exact Hr|]. intros tau. rewrite He. unfold tt_eval.
      destruct Ht as [[->|[->|[->|[->|[->| ->]]]]] _]; by rewrite (weave_perm cs tau _ Hok).
Qed.

Lemma getReducedWithConstants_witness :
  exists t, tt_mask 3 202 [7] = Ret t /\
    exists r, getReducedWithConstants t [(2, true)] = Ret r /\
      forall tau, tt_eval r tau = tt_eval t (weave [(2, true)] tau).
Proof.
  eexists. split; [reflexivity|]. apply getReducedWithConstants_spec.
  - left. repeat split; done.
  - split; [apply NoDup_singleton|by apply Forall_singleton].
Defined.

(** * Influence *)

Lemma rows_ext n b b' :
  rows_of n b -> rows_of n b' ->
  (n <= 6 -> forall j, 2 ^ n <= j -> bitvec_get b j = bitvec_get b' j) ->
  (forall j, j < 2 ^ n -> bitvec_get b j = bitvec_get b' j) -> b = b'.
Proof.
  intros Hr Hr' Hhigh Hlow. pose proof Hr as (_ & Hwf & Hnb). pose proof Hr' as (_ & Hwf' & Hnb').
  apply bitvec_key_inj; [done..|congruence|].
  destruct (N.le_gt_cases n 6) as [Hn|Hn].
  - destruct (rows_of_mask _ _ Hr Hn) as (m & -> & _).
    destruct (rows_of_mask _ _ Hr' Hn) as (m' & -> & _). unfold bitvec_key; cbn.
    apply N.bits_inj. intros j. destruct (N.lt_ge_cases j (2 ^ n)); [by apply Hlow|by apply Hhigh].
  - assert (2 ^ 6 < 2 ^ n) as Hlt by (apply N.pow_lt_mono_r; lia). change (2 ^ 6) with 64 in Hlt.
    destruct_bitvec b; destruct_bitvec b'; [lia..|]. unfold bitvec_key; cbn [data_ nbits_].
    rewrite Hnb, Hnb'. apply index_of_ext. intros i Hi. subst nb nb0. by apply Hlow.
Qed.

Lemma canonical_inj n b b' r r' :
  rows_of n b -> rows_of n b' -> canonical n b r -> canonical n b' r' ->
  (n <= 6 -> forall j, 2 ^ n <= j -> bitvec_get b j = bitvec_get b' j) ->
  r = r' <-> forall j, j < 2 ^ n -> bitvec_get b j = bitvec_get b' j.
Proof.
  intros Hr Hr' Hc Hc' Hhigh. split.
  - intros <- j Hj.
    rewrite <- (index_of_testbit j n), <- (eval_canonical n b r), <- (eval_canonical n b' r) by done.
    done.
  - intros Heq. assert (b = b') as <- by (by apply (rows_ext n)).
    pose proof (pow2_pos n) as Hp.
    destruct Hc as [[H1 H2]|[[H1 H2]|(H1 & H2 & H3)]], Hc' as [[H4 H5]|[[H4 H5]|(H4 & H5 & H6)]];
      try congruence; try (exfalso; tauto).
    + specialize (H2 0 Hp). specialize (H5 0 Hp). congruence.
    + specialize (H2 0 Hp). specialize (H5 0 Hp). congruence.
Qed.

(** The assignment with variable [v] forced. *)
Definition force (sigma : N -> bool) (v : N) (b : bool) (i : N) : bool :=
  if i =? v then b else sigma i.

Lemma rank_single v b i : rank [(v, b)] i = if i <=? v then i else i - 1.
Proof.
  induction i as [|i IH] using N.peano_ind; [by destruct (0 <=? v)|].
  rewrite rank_succ, IH. unfold constant_of. cbn.
  destruct (N.eqb_spec v i), (N.leb_spec i v), (N.leb_spec (N.succ i) v); cbn; lia.
Qed.

Lemma weave_force v b sigma i :
  weave [(v, b)] (fun i => sigma (if i <? v then i else i + 1)) i = force sigma v b i.
Proof.
  unfold weave, force, constant_of. cbn. rewrite rank_single, N.eqb_sym.
  destruct (N.eqb_spec i v) as [->|Hne]; [done|]. cbn. f_equal.
  destruct (N.leb_spec i v), (N.ltb_spec i v), (N.ltb_spec (i - 1) v); lia.
Qed.

Lemma constants_ok_single v b size : v < size -> constants_ok [(v, b)] size.
Proof. intros Hv. split; [apply NoDup_singleton|by apply Forall_singleton]. Qed.

(** C27. [hasNoInfluence] never fails on an input of a table given by its rows, and
    answers whether the function is independent of that input: comparing the two
    reduced tables member by member is comparing the functions. *)
Theorem hasNoInfluence_spec t v :
  row_table t -> v < size_ t ->
  exists z, hasNoInfluence t v = Ret z /\
    (z = true <-> forall sigma, tt_eval t (force sigma v false) = tt_eval t (force sigma v true)).
Proof.
  intros Ht Hv. set (n := size_ t - 1).
  assert (forall b, getReducedWithConstant t v b = reduce_rows t [(v, b)] n) as Henter.
  { intros b. unfold getReducedWithConstant.
    rewrite getReduced_enter by (tauto || done || by apply constants_ok_single).
    unfold isGeneric. rewrite bool_decide_eq_false_2 by (intros H; apply H, Ht). done. }
  unfold hasNoInfluence. rewrite !Henter.
  destruct (reduce_rows_spec t [(v, false)] n Ht) as (b0 & r0 & -> & Hr0 & Hc0 & Hb0 & Hz0); [lia|].
  destruct (reduce_rows_spec t [(v, true)] n Ht) as (b1 & r1 & -> & Hr1 & Hc1 & Hb1 & Hz1); [lia|].
  cbn [mbind outcome_bind]. eexists. split; [reflexivity|]. rewrite bool_decide_eq_true.
  rewrite (canonical_inj n b0 b1) by (done || (intros Hn j Hj; by rewrite Hz0, Hz1)).
  assert (forall b tau, reduced_row t [(v, b)] (index_of tau n) = tt_eval t (weave [(v, b)] tau)) as Hrow.
  { intros b tau. apply reduced_row_weave; [apply Ht|by apply constants_ok_single]. }
  split.
  - intros H sigma. specialize (H _ (index_of_lt (fun i => sigma (if i <? v then i else i + 1)) n)).
    rewrite Hb0, Hb1, !Hrow in H by apply index_of_lt.
    rewrite <- !(tt_eval_ext t _ _ (fun i _ => weave_force v _ sigma i)). exact H.
  - intros H j Hj. rewrite Hb0, Hb1 by done. rewrite <- (index_of_testbit j n) by done.
    rewrite !Hrow. set (tau := N.testbit j).
    specialize (H (fun i => tau (if i <=? v then i else i - 1))).
    assert (forall b, tt_eval t (weave [(v, b)] tau) =
      tt_eval t (force (fun i => tau (if i <=? v then i else i - 1)) v b)) as Hf.
    { intros b. apply tt_eval_ext. intros i _. unfold weave, force, constant_of. cbn.
      rewrite rank_single, N.eqb_sym. by destruct (N.eqb_spec i v). }
    by rewrite !Hf.
Qed.

Lemma hasNoInfluence_witness :
  exists t, tt_mask 2 10 [3] = Ret t /\
    exists z, hasNoInfluence t 1 = Ret z /\
      (z = true <-> forall sigma, tt_eval t (force sigma 1 false) = tt_eval t (force sigma 1 true)).
Proof.
  eexists. split; [reflexivity|]. apply hasNoInfluence_spec; [|done]. repeat split; done.
Defined.

(** * Removing a variable *)

Lemma testbit_drop_bit i v b :
  N.testbit (drop_bit i v) b = if b <? v then N.testbit i b else N.testbit i (b + 1).
Proof.
  unfold drop_bit. rewrite N.shiftl_1_l.
  replace (2 ^ v - 1) with (N.ones v) by (rewrite N.ones_equiv; lia).
  rewrite N.lor_spec, N.land_spec, N.ldiff_spec, N.shiftr_spec by lia.
  destruct (N.ltb_spec b v).
  - rewrite N.ones_spec_low by done. cbn. by rewrite andb_true_r, andb_false_r, orb_false_r.
  - rewrite N.ones_spec_high by done. cbn. by rewrite andb_false_r, andb_true_r.
Qed.

Lemma drop_bit_lt i v n : i < 2 ^ n -> v < n -> drop_bit i v < 2 ^ (n - 1).
Proof.
  intros Hi Hv. apply lt_pow2_testbit. intros b Hb. rewrite testbit_drop_bit.
  rewrite (proj2 (N.ltb_ge _ _)) by lia. apply (testbit_lt_pow2 i n); [done|lia].
Qed.

(** Dropping the variable and inserting a zero are inverse. *)
Lemma drop_bit_inverse i v n :
  i < 2 ^ n -> v < n -> N.testbit i v = false -> original_row [(v, false)] n (drop_bit i v) = i.
Proof.
  intros Hi Hv Hb. rewrite original_row_spec. rewrite <- (index_of_testbit i n) at 2 by done.
  apply index_of_ext. intros j Hj. unfold weave, constant_of. cbn. rewrite rank_single.
  destruct (N.eqb_spec v j) as [->|Hne]; cbn; [done|]. rewrite testbit_drop_bit.
  destruct (N.leb_spec j v), (N.ltb_spec j v), (N.ltb_spec (j - 1) v); try lia;
    first [done|f_equal; lia].
Qed.

Lemma drop_original_row v n j :
  v < n -> j < 2 ^ (n - 1) ->
  drop_bit (original_row [(v, false)] n j) v = j /\
  N.testbit (original_row [(v, false)] n j) v = false.
Proof.
  intros Hv Hj. rewrite original_row_spec. split.
  - apply N.bits_inj. intros b. rewrite testbit_drop_bit, !testbit_index_of.
    unfold weave, constant_of. cbn. rewrite !rank_single.
    destruct (N.lt_ge_cases b (n - 1)) as [Hb|Hb].
    + rewrite !bool_decide_eq_true_2 by lia.
      destruct (N.ltb_spec b v), (N.eqb_spec v b), (N.eqb_spec v (b + 1)), (N.leb_spec b v),
        (N.leb_spec (b + 1) v); cbn; try lia; first [done|f_equal; lia].
    + rewrite (testbit_lt_pow2 j (n - 1) b) by done.
      rewrite (proj2 (N.ltb_ge _ _)), bool_decide_eq_false_2 by lia. done.
  - rewrite testbit_index_of. unfold weave, constant_of. cbn. rewrite N.eqb_refl. cbn.
    by rewrite andb_false_r.
Qed.

Lemma remove_loop t v n m :
  row_table t -> size_ t = n -> v < n -> n <= 6 -> m <= 2 ^ n ->
  exists out, foldl (remove_step t v) (Ret (mkBitVec (2 ^ (n - 1)) (Mask 0))) (upto m) = Ret out /\
    rows_of (n - 1) out /\
    forall ni, bitvec_get out ni = true <->
      exists i, i < m /\ N.testbit i v = false /\ bitvec_get (bits_ t) i = true /\ drop_bit i v = ni.
Proof.
  intros Ht Hsz Hv Hn. pose proof Ht as (_ & _ & _ & Hwf & Hnb). rewrite Hsz in Hnb.
  induction m as [|m IH] using N.peano_ind; intros Hm.
  - eexists. split; [reflexivity|]. split.
    + split_and!; [lia| |done]. cbn. split; [|done]. change 64 with (2 ^ 6). apply N.pow_le_mono_r; lia.
    + intros ni. unfold bitvec_get. cbn. rewrite ?N.bits_0. split; [by rewrite ?andb_false_r|]. intros (i & Hi & _). lia.
  - destruct IH as (out & Hout & Hrows & Hget); [lia|].
    rewrite upto_succ, foldl_app, Hout. cbn [foldl remove_step mbind outcome_bind].
    assert (m < 2 ^ n) as Hm' by lia.
    destruct (N.testbit m v) eqn:Ev.
    { exists out. split_and!; [done..|]. intros ni. rewrite Hget. split.
      - intros (i & Hi & Hrest). exists i. split; [lia|done].
      - intros (i & Hi & Hiv & Hrest). exists i. split; [|done].
        destruct (N.eq_dec i m); [congruence|lia]. }
    rewrite bitvec_shr_Ret, Hnb, bool_decide_eq_true_2 by done. cbn [mbind outcome_bind andb].
    destruct (bitvec_get (bits_ t) m) eqn:Eb.
    + assert (drop_bit m v < 2 ^ (n - 1)) as Hd by (by apply drop_bit_lt).
      assert (2 ^ (n - 1) <= 2 ^ 5) as H5 by (apply N.pow_le_mono_r; lia).
      change (2 ^ 5) with 32 in H5. rewrite (proj2 (N.ltb_lt _ 32)) by lia.
      cbn [defined mbind outcome_bind]. eexists. split; [reflexivity|].
      destruct Hrows as (Hn1 & Hwfo & Hnbo).
      destruct (bitvec_or_spec out (N.shiftl 1 (drop_bit m v)) Hwfo) as (Hwf' & Hnb' & Hget').
      { rewrite N.shiftl_1_l. apply N.pow_lt_mono_r; lia. }
      split; [split_and!; [done..|congruence]|]. intros ni.
      rewrite Hget', orb_true_iff, Hget, testbit_shift_one, bool_decide_eq_true. split.
      * intros [(i & Hi & Hrest)| ->]; [exists i; split; [lia|done]|exists m; split_and!; [lia|done..]].
      * intros (i & Hi & Hiv & Hib & Hd'). destruct (N.eq_dec i m) as [->|]; [by right|].
        left. exists i. split_and!; [lia|done..].
    + exists out. split_and!; [done..|]. intros ni. rewrite Hget. split.
      * intros (i & Hi & Hrest). exists i. split; [lia|done].
      * intros (i & Hi & Hiv & Hib & Hd'). exists i. split_and!; [|done..].
        destruct (N.eq_dec i m); [congruence|lia].
Qed.

(** Up to 6 inputs, [removeVariable] returns the table of the function with
    the variable set to zero and the later ones moved down. *)
Theorem removeVariable_spec t v :
  row_table t -> v < size_ t -> size_ t <= 6 ->
  exists r, removeVariable t v = Ret r /\ size_ r = size_ t - 1 /\
    forall sigma, tt_eval r (fun i => sigma (if i <? v then i else i + 1)) =
      tt_eval t (force sigma v false).
Proof.
  intros Ht Hv Hsz. set (n := size_ t). unfold removeVariable. fold n.
  rewrite (proj2 (N.leb_gt _ _)) by done. cbn [negb require mbind outcome_bind].
  rewrite fullDependencies_Ret. cbn [mbind outcome_bind]. rewrite tt_mask_full by lia.
  cbn [mbind outcome_bind]. rewrite (proj2 (N.ltb_lt n 32)) by lia.
  cbn [defined mbind outcome_bind tt_plain bits_]. rewrite N.shiftl_1_l.
  destruct (remove_loop t v n (2 ^ n) Ht eq_refl Hv Hsz) as (out & -> & Hrows & Hget); [done|].
  cbn [mbind outcome_bind]. eexists. split_and!; [reflexivity|done|]. intros sigma.
  assert (v < n) as Hvn by done.
  rewrite <- (tt_eval_ext t _ _ (fun i _ => weave_force v false sigma i)).
  set (tau := fun i => sigma (if i <? v then i else i + 1)).
  rewrite <- reduced_row_weave by (apply Ht || by apply constants_ok_single).
  cbn [length]. change (N.of_nat 1) with 1. fold n.
  unfold tt_eval. cbn [genericType_ tt_plain bits_ size_ tt_mask].
  assert (index_of tau (n - 1) < 2 ^ (n - 1)) as Hj by apply index_of_lt.
  generalize (index_of tau (n - 1)) Hj. clear tau Hj. intros j Hj.
  apply eq_true_iff_eq. rewrite Hget. unfold reduced_row. fold n.
  destruct (drop_original_row v n j Hvn Hj) as [Hdrop Hbit]. split.
  - intros (i & Hi & Hiv & Hib & <-). by rewrite drop_bit_inverse.
  - intros Hb. exists (original_row [(v, false)] n j). split_and!; [|done..].
    rewrite original_row_spec. apply index_of_lt.
Qed.

Lemma removeVariable_witness :
  exists t, tt_mask 3 202 [7] = Ret t /\
    exists r, removeVariable t 2 = Ret r /\ size_ r = size_ t - 1 /\
      forall sigma, tt_eval r (fun i => sigma (if i <? 2 then i else i + 1)) =
        tt_eval t (force sigma 2 false).
Proof.
  eexists. split; [reflexivity|]. apply removeVariable_spec; [|done..]. repeat split; done.
Defined.

(** A row whose index without the variable is 32 or more makes the 32-bit
    shift of a 7-input table undefined. *)
Theorem removeVariable_seven t v i :
  row_table t -> size_ t = 7 -> v < 7 ->
  i < 128 -> N.testbit i v = false -> bitvec_get (bits_ t) i = true -> 32 <= drop_bit i v ->
  removeVariable t v = Undef.
Proof.
  intros Ht Hsz Hv Hi Hiv Hib Hd. pose proof Ht as (_ & _ & _ & Hwf & Hnb).
  unfold removeVariable. rewrite Hsz, (proj2 (N.leb_gt _ _)) by done.
  cbn [negb require mbind outcome_bind]. rewrite fullDependencies_Ret. cbn [mbind outcome_bind].
  rewrite tt_mask_full by done. cbn [mbind outcome_bind tt_plain bits_].
  change (7 <? 32) with true. cbn [defined mbind outcome_bind]. rewrite N.shiftl_1_l.
  change (2 ^ 7) with 128. rewrite Hsz in Hnb. change (2 ^ 7) with 128 in Hnb.
  assert (forall l acc, (acc = Undef \/ (i ∈ l /\ exists b, acc = Ret b)) ->
    Forall (fun k => k < 128) l -> foldl (remove_step t v) acc l = Undef) as Hloop.
  { induction l as [|k l IH]; intros acc Hacc Hl; cbn.
    - destruct Hacc as [->|[Hin _]]; [done|]. by apply not_elem_of_nil in Hin.
    - apply Forall_cons in Hl as [Hk Hl]. apply IH; [|done].
      destruct Hacc as [->|[Hin [b ->]]]; [by left|]. cbn [remove_step mbind outcome_bind].
      rewrite bitvec_shr_Ret, Hnb, bool_decide_eq_true_2 by done. cbn [mbind outcome_bind andb].
      apply elem_of_cons in Hin as [<-|Hin].
      + rewrite Hiv, Hib. rewrite (proj2 (N.ltb_ge _ 32)) by done. by left.
      + destruct (N.testbit k v); [right; eauto|].
        destruct (bitvec_get (bits_ t) k); [|right; eauto].
        destruct (drop_bit k v <? 32); cbn; [right; eauto|by left]. }
  rewrite Hloop; [done| |].
  - right. split; [by apply elem_of_upto|eauto].
  - apply Forall_forall. by intros k Hk%elem_of_upto.
Qed.

(** Word arithmetic is not refused: its empty row vector is read as zeros, and
    an adder bit reduces to constant zero. *)
Lemma AddSub_reduces_to_Logic0 :
  exists t, AddSub 2 false 0 [15] = Ret t /\ getReducedWithConstants t [(0, true)] = Logic0.
Proof. eexists. split; reflexivity. Qed.

(** The value the loop over the input bits computes is the gate's value on the
    assignment the row stands for. *)
Lemma expected_gate_value g size idx :
  is_gate g -> size <= 64 ->
  expectedGenericValue g size idx = gate_value g (N.testbit idx <$> upto size).
Proof.
  intros Hg Hs. unfold expectedGenericValue.
  assert ((fun bit => (bit <? 64) && N.testbit idx bit) <$> upto size =
          N.testbit idx <$> upto size) as ->.
  { apply list_fmap_ext. intros k bit Hb%list_elem_of_lookup_2%elem_of_upto.
    by rewrite (proj2 (N.ltb_lt _ _)) by lia. }
  generalize (N.testbit idx <$> upto size). intros l.
  assert (forall b, foldl xorb b l = xorb b (foldr xorb false l)) as Hx.
  { induction l as [|x l IH]; intros b; cbn; [btauto|]. rewrite IH. btauto. }
  assert (existsb negb l = negb (forallb id l)) as Hz.
  { clear Hx. induction l as [|x l IH]; cbn; [done|]. rewrite IH. unfold id. btauto. }
  destruct Hg as [->|[->|[->|[->|[->| ->]]]]]; cbn; rewrite ?Hx, ?Hz; btauto.
Qed.

Lemma rows_equal_gate_spec t g rows :
  bitvec_wf (bits_ t) -> (forall i, i ∈ rows -> i < nbits_ (bits_ t)) ->
  rows_equal_gate t g rows =
    Ret (forallb (fun i => Bool.eqb (bitvec_get (bits_ t) i)
                             (expectedGenericValue g (size_ t) i)) rows).
Proof.
  intros Hwf. induction rows as [|i rows IH]; intros Hr; [done|]. cbn.
  rewrite bitvec_bit_Ret by (done || apply Hr; left). cbn [mbind outcome_bind].
  destruct (Bool.eqb _ _); cbn [andb]; [|done]. apply IH. intros j Hj. apply Hr. by right.
Qed.

Lemma gate_values_of_row g size sigma :
  gate_value g (sigma <$> upto size) =
    gate_value g (N.testbit (index_of sigma size) <$> upto size).
Proof.
  f_equal. apply list_fmap_ext. intros k i Hi%list_elem_of_lookup_2%elem_of_upto.
  by rewrite testbit_index_of, bool_decide_eq_true_2.
Qed.

(** [isAnd], [isNand], [isOr], [isNor], [isXor] and [isXnor] of a table
    given by its rows with at least two inputs answer whether the table denotes
    that gate of all its inputs. *)
Theorem isGenericOrEquivalent_spec t g :
  row_table t -> dependencies_ t <> [] -> 2 <= size_ t -> is_gate g ->
  exists z, isGenericOrEquivalent t g = Ret z /\
    (z = true <-> forall sigma, tt_eval t sigma = gate_value g (sigma <$> upto (size_ t))).
Proof.
  intros (Hnone & _ & Hsz & Hwf & Hnb) Hdeps H2 Hg. unfold isGenericOrEquivalent.
  rewrite Hnone, (bool_decide_eq_false_2 (NONE = g)) by (by intros <-; destruct Hg as [|[|[|[|[]]]]]).
  rewrite (bool_decide_eq_false_2 (NONE <> NONE)) by (by intros H).
  assert (isInitialized t = true) as ->.
  { unfold isInitialized. rewrite (proj2 (N.eqb_neq _ _)), bool_decide_eq_false_2 by (done || lia).
    rewrite Hnb, (proj2 (N.eqb_neq _ _)) by (pose proof (pow2_pos (size_ t)); lia).
    apply orb_true_r. }
  rewrite (proj2 (N.ltb_ge _ _)) by done. cbn [negb orb].
  rewrite rows_equal_gate_spec by (done || intros i; by rewrite elem_of_upto).
  eexists. split; [done|]. rewrite forallb_forall. unfold tt_eval. rewrite Hnone. split.
  - intros Hall sigma. rewrite gate_values_of_row, <- expected_gate_value by (done || lia).
    apply eqb_prop, Hall, list_elem_of_In, elem_of_upto. rewrite Hnb. apply index_of_lt.
  - intros Hall i Hi%list_elem_of_In%elem_of_upto. rewrite Hnb in Hi.
    rewrite expected_gate_value by (done || lia). apply eqb_true_iff.
    rewrite <- (index_of_testbit i (size_ t)) at 1 by done. apply Hall.
Qed.

Lemma isGenericOrEquivalent_witness :
  exists t, tt_mask 2 8 [3] = Ret t /\
    exists z, isGenericOrEquivalent t AND = Ret z /\
      (z = true <-> forall sigma, tt_eval t sigma = gate_value AND (sigma <$> upto (size_ t))).
Proof.
  eexists. split; [reflexivity|]. apply isGenericOrEquivalent_spec; [|done..|by left].
  repeat split; done.
Defined.

(** [isMux] accepts only the multiplexer whose select is the last input. *)
Lemma isMux_sound t :
  isMux t = Ret true -> forall sigma, tt_eval t sigma = if sigma 2 then sigma 1 else sigma 0.
Proof.
  unfold isMux. case_match eqn:Hc; [|done]. intros Hm sigma. guards.
  destruct Hc as [[[[Hg _] _] Hs] Hn]. invert_run.
  unfold tt_eval. rewrite Hg, Hs. unfold bitvec_to_u64 in *.
  destruct (bits_ t) as [nb [m|v]]; cbn in *; [|done].
  invert_run. match goal with H : (_ =? _) = true |- _ => apply N.eqb_eq in H as -> end.
  vm_compute. by destruct (sigma 0), (sigma 1), (sigma 2).
Qed.
