(* ===== verification/TruthTableInvariant.v ===== *)
(** The invariant of [SNLTruthTable]: what every table made by the public
    constructors and factories satisfies, and that constant reduction keeps it.
    [SNLTruthTable::operator<], the order that keys tables in maps and sets, on
    tables that satisfy it. *)
From S2P Require Import Prelude BitDependencies BitVecDynamic TruthTable VectorTables Reduction.
Local Open Scope N_scope.

#[local] Arguments countBitsForVector : simpl never.

(** Each metadata record is at its default unless the generic type owns it. *)
Definition foreign_default (t : SNLTruthTable) : Prop :=
  (genericType_ t <> TABLE_SELECT ->
     tableSelectAddressSize_ t = 0 /\ tableSelectDepth_ t = 0) /\
  (genericType_ t <> DIVMOD ->
     divModWidth_ t = 0 /\ divModSigned_ t = false /\
     divModResult_ t = QUOTIENT /\ divModOutputBit_ t = 0) /\
  (isWordArithmetic t = false -> word_ t = word_default) /\
  (genericType_ t <> ROM -> rom_ t = rom_default) /\
  (genericType_ t <> VECTOR_UPDATE -> vectorUpdate_ t = vector_update_default) /\
  (genericType_ t <> VECTOR_SELECT -> vectorSelect_ t = vector_select_default).

(** The rows of a table: none, or one per assignment of its inputs. *)
Definition rows_wf (t : SNLTruthTable) : Prop :=
  bitvec_wf (bits_ t) /\
  (bits_ t = bitvec_zeros 0 \/ genericType_ t = NONE /\ nbits_ (bits_ t) = 2 ^ size_ t).

Definition tt_wf (t : SNLTruthTable) : Prop :=
  validateGenericMetadata t = Ret tt /\ foreign_default t /\ rows_wf t /\
  size_ t <= u32max /\
  (size_ t = 0 \/ countBitsForVector (dependencies_ t) <= size_ t).

(** The public ways to make a table, with arguments in the range of their C++
    types. The row vector given to the [std::vector<bool>] constructor is
    assumed to have the declared length: the constructor does not look. *)
Inductive built : SNLTruthTable -> Prop :=
| built_default : built tt_default
| built_generic size g deps t :
    size <= u32max -> tt_generic size g deps = Ret t -> built t
| built_generic_select size g deps addressSize depth t :
    size <= u32max -> tt_generic_select size g deps addressSize depth = Ret t -> built t
| built_mask size bits deps t :
    bits <= u64max -> tt_mask size bits deps = Ret t -> built t
| built_vector size bits deps t :
    N.of_nat (length bits) = 2 ^ size -> tt_vector size bits deps = Ret t -> built t
| built_TableSelect addressSize depth deps t :
    addressSize + depth <= u32max -> TableSelect addressSize depth deps = Ret t -> built t
| built_DivMod width isSigned result outputBit deps t :
    DivMod width isSigned result outputBit deps = Ret t -> built t
| built_AddSub width subtract outputBit deps t :
    AddSub width subtract outputBit deps = Ret t -> built t
| built_Multiply width outputBit deps t :
    Multiply width outputBit deps = Ret t -> built t
| built_Shift width countWidth right arithmetic outputBit deps t :
    Shift width countWidth right arithmetic outputBit deps = Ret t -> built t
| built_Rom rom deps t :
    r_addressSize rom <= u32max -> Rom rom deps = Ret t -> built t
| built_VectorUpdate m deps t : VectorUpdate m deps = Ret t -> built t
| built_VectorSelect m deps t : VectorSelect m deps = Ret t -> built t
| built_reduced t idxConsts r :
    built t -> getReducedWithConstants t idxConsts = Ret r -> built r.

(** * The constructors *)

Lemma u32_small x : x <= u32max -> u32 x = x.
Proof. intros H. unfold u32, u32max in *. apply N.mod_small. lia. Qed.

Lemma check_dependencies_Ret size deps :
  check_dependencies size deps = Ret tt <->
    (size = 0 \/ countBitsForVector deps <= size).
Proof. unfold check_dependencies. rewrite require_Ret. guards. lia. Qed.

Lemma zeros_wf : bitvec_wf (bitvec_zeros 0).
Proof. cbn. lia. Qed.

Lemma foreign_plain size b deps g : foreign_default (tt_plain size b deps g).
Proof. unfold foreign_default. cbn. naive_solver. Qed.

Lemma validate_plain size b deps : validateGenericMetadata (tt_plain size b deps NONE) = Ret tt.
Proof. reflexivity. Qed.

Lemma tt_generic_wf size g deps t :
  size <= u32max -> tt_generic size g deps = Ret t -> tt_wf t.
Proof.
  intros Hs Ht. unfold tt_generic in Ht. invert_run. rewrite u32_small in * by done.
  match goal with H : check_dependencies _ _ = _ |- _ => rename H into Hd end.
  destruct_and?; repeat match goal with u : unit |- _ => destruct u end.
  apply check_dependencies_Ret in Hd.
  split_and!; [done|apply foreign_plain| |done|done]. split; [apply zeros_wf|by left].
Qed.

Lemma select_only size g deps a d :
  validateGenericMetadata (mkTT size (bitvec_zeros 0) deps g a d 0 false QUOTIENT 0
    word_default rom_default vector_update_default vector_select_default) = Ret tt ->
  g <> TABLE_SELECT -> a = 0 /\ d = 0.
Proof.
  unfold validateGenericMetadata, invalid_vector_select, invalid_vector_update, invalid_divmod,
    invalid_rom, invalid_word, isWordArithmetic. cbn -[N.eqb]. intros H Hg.
  destruct g; cbn -[N.eqb] in H; try done; invert_run; guards;
    try (destruct (N.eqb_spec a 0), (N.eqb_spec d 0); cbn in *; (done || invert_run; done)).
Qed.

Lemma tt_generic_select_wf size g deps a d t :
  size <= u32max -> tt_generic_select size g deps a d = Ret t -> tt_wf t.
Proof.
  intros Hs Ht. unfold tt_generic_select in Ht. invert_run. rewrite u32_small in * by done.
  match goal with H : check_dependencies _ _ = _ |- _ => rename H into Hd end.
  match goal with H : validateGenericMetadata _ = _ |- _ => rename H into Hv end.
  repeat match goal with u : unit |- _ => destruct u end.
  apply check_dependencies_Ret in Hd.
  split_and!; [done| | |done|done].
  - pose proof (select_only _ _ _ _ _ Hv). unfold foreign_default. cbn. naive_solver.
  - split; [apply zeros_wf|by left].
Qed.

Lemma tt_mask_wf size bits deps t :
  bits <= u64max -> tt_mask size bits deps = Ret t -> tt_wf t.
Proof.
  unfold tt_mask. intros Hb Ht. destruct (N.ltb_spec 6 size) as [|Hs]; [done|].
  assert (2 ^ size <= 64) as Hle by (change 64 with (2 ^ 6); by apply N.pow_le_mono_r).
  unfold bitvec_of_mask in Ht. rewrite N.shiftl_1_l, (proj2 (N.leb_le _ _)) in Ht by done.
  cbn [mbind outcome_bind] in Ht. invert_run.
  match goal with H : check_dependencies _ _ = Ret ?u |- _ => destruct u; apply check_dependencies_Ret in H end.
  split_and!; [apply validate_plain|apply foreign_plain| |cbn; unfold u32max; lia|done].
  split; [cbn; unfold u64max in Hb; split; [done|lia]|right; done].
Qed.

Lemma tt_vector_wf size bits deps t :
  N.of_nat (length bits) = 2 ^ size -> tt_vector size bits deps = Ret t -> tt_wf t.
Proof.
  unfold tt_vector. intros Hb Ht. destruct (N.leb_spec size 6) as [|Hs]; [done|].
  invert_run. guards. unfold bitvec_of_vector in *. rewrite N.shiftl_1_l in *.
  destruct (N.ltb_spec 64 (2 ^ size)); [|done]. invert_run.
  match goal with H : check_dependencies _ _ = Ret ?u |- _ => destruct u; apply check_dependencies_Ret in H end.
  split_and!; [apply validate_plain|apply foreign_plain| |cbn; unfold u32max; lia|done].
  split; [cbn; split; [lia|done]|right; done].
Qed.

(** The factories end with the metadata check. *)
Lemma validated_wf t :
  validateGenericMetadata t = Ret tt -> foreign_default t -> bits_ t = bitvec_zeros 0 ->
  size_ t <= u32max -> countBitsForVector (dependencies_ t) <= size_ t -> tt_wf t.
Proof.
  intros Hv Hf Hb Hs Hd. split_and!; [done..| |done|by right].
  split; [rewrite Hb; apply zeros_wf|by left].
Qed.

Ltac factory :=
  invert_run; guards; rewrite ?u32_small in * by (unfold u32max in *; lia);
  repeat match goal with u : unit |- _ => destruct u end;
  apply validated_wf; cbn; [done| |done|unfold u32max in *; lia|lia];
  unfold foreign_default, isWordArithmetic; cbn; naive_solver.

Lemma DivMod_wf width isSigned result outputBit deps t :
  DivMod width isSigned result outputBit deps = Ret t -> tt_wf t.
Proof.
  unfold DivMod. intros Ht. invert_run. guards.
  change (u32max / 2) with 2147483647 in *.
  assert (u32 (width * 2) = width * 2) as Hw by (apply u32_small; unfold u32max; lia).
  rewrite Hw in *.
  repeat match goal with u : unit |- _ => destruct u end.
  apply validated_wf; cbn; [done| |done|unfold u32max in *; lia|lia].
  unfold foreign_default. cbn. naive_solver.
Qed.

Lemma Word_wf g w deps t :
  g = ADD_SUB \/ g = MULTIPLY \/ g = SHIFT -> Word g w deps = Ret t -> tt_wf t.
Proof.
  unfold Word. intros Hg Ht. invert_run. guards. rewrite u32_small in * by lia.
  repeat match goal with u : unit |- _ => destruct u end.
  apply validated_wf; cbn; [done| |done|lia|lia].
  unfold foreign_default, isWordArithmetic. cbn.
  split_and!; naive_solver.
Qed.

Lemma Rom_wf rom deps t : r_addressSize rom <= u32max -> Rom rom deps = Ret t -> tt_wf t.
Proof. unfold Rom. intros Hr Ht. factory. Qed.

Lemma VectorUpdate_wf m deps t : VectorUpdate m deps = Ret t -> tt_wf t.
Proof. unfold VectorUpdate. intros Ht. factory. Qed.

Lemma VectorSelect_wf m deps t : VectorSelect m deps = Ret t -> tt_wf t.
Proof. unfold VectorSelect. intros Ht. factory. Qed.

(** * Reduction keeps the invariant *)

Lemma Logic_wf m t : m <= 1 -> tt_mask 0 m [] = Ret t -> tt_wf t.
Proof. intros Hm. apply tt_mask_wf. unfold u64max. lia. Qed.

Lemma Inv_wf t : Inv = Ret t -> tt_wf t.
Proof. unfold Inv. intros Ht. invert_run. by eapply tt_mask_wf; [|done]. Qed.
Lemma Buf_wf t : Buf = Ret t -> tt_wf t.
Proof. unfold Buf. intros Ht. invert_run. by eapply tt_mask_wf; [|done]. Qed.
Lemma Logic0_wf t : Logic0 = Ret t -> tt_wf t.
Proof. by apply Logic_wf. Qed.
Lemma Logic1_wf t : Logic1 = Ret t -> tt_wf t.
Proof. by apply Logic_wf. Qed.
Create HintDb tt_wf.
#[local] Hint Resolve Inv_wf Buf_wf Logic0_wf Logic1_wf : tt_wf.

Lemma reduced_gate_wf newSize none single g t :
  newSize <= u32max ->
  (forall t, none = Ret t -> tt_wf t) -> (forall t, single = Ret t -> tt_wf t) ->
  reduced_gate newSize none single g = Ret t -> tt_wf t.
Proof.
  unfold reduced_gate. intros Hn H0 H1 Ht. destruct (newSize =? 0); [eauto|].
  destruct (newSize =? 1); [eauto|]. invert_run. eapply tt_generic_wf; [|done]. done.
Qed.

(** The accumulated rows: a 64-bit word, or as many rows as the table has. *)
Lemma reduce_fold_wf t idxConsts newSize l st st' :
  foldl (reduce_step t idxConsts newSize) (Ret st) l = Ret st' ->
  (newSize <= 6 -> Forall (fun j => j < 64) l) -> st.1 <= u64max ->
  length st'.2 = length st.2 /\ st'.1 <= u64max.
Proof.
  revert st. induction l as [|j l IH]; intros [m v] Hf Hl Hm; cbn [foldl] in Hf.
  { injection Hf as <-. done. }
  unfold reduce_step at 2 in Hf. cbn [mbind outcome_bind] in Hf.
  destruct (bitvec_bit (bits_ t) _) as [b| |]; cbn [mbind outcome_bind] in Hf.
  - apply IH in Hf as [H1 H2].
    + split; [|done]. rewrite H1. destruct (newSize <=? 6); cbn; [done|by rewrite length_insert].
    + intros Hn. by apply Forall_cons in Hl as [_ ?].
    + destruct (N.leb_spec newSize 6) as [Hn|]; cbn; [|done]. destruct b; [|done].
      apply Hl, Forall_cons in Hn as [Hj _].
      assert (is_block (N.lor m (N.shiftl 1 j))) as Hb; [|unfold is_block, u64max in *; lia].
      apply is_block_lor; [unfold is_block, u64max in *; cbn in *; lia|].
      unfold is_block. rewrite N.shiftl_1_l. by apply N.pow_lt_mono_r.
  - by rewrite (foldl_absorb (reduce_step t idxConsts newSize)) in Hf by done.
  - by rewrite (foldl_absorb (reduce_step t idxConsts newSize)) in Hf by done.
Qed.

Lemma reduce_rows_wf t idxConsts newSize r :
  reduce_rows t idxConsts newSize = Ret r -> tt_wf r.
Proof.
  unfold reduce_rows. intros Hr. invert_run. guards.
  match goal with H : foldl _ _ _ = Ret ?st |- _ => destruct st as [m v];
    apply reduce_fold_wf in H as [Hlen Hm] end; cbn [fst snd] in *.
  - match goal with H : (if 6 <? newSize then _ else _) = Ret ?out |- _ =>
      assert (tt_wf out) as Hout; [revert H|] end.
    { destruct (N.ltb_spec 6 newSize); intros Hx; [|by eapply tt_mask_wf; [|done]].
      eapply tt_vector_wf; [|done]. rewrite Hlen, length_replicate, N.shiftl_1_l. lia. }
    match goal with H : (if ?b then Logic0 else _) = Ret r |- _ => destruct b end;
      [eauto with tt_wf|]. invert_run.
    match goal with H : (if ?b then Logic1 else _) = Ret r |- _ => destruct b end;
      [eauto with tt_wf|]. by invert_run.
  - intros Hn. apply Forall_forall. intros j Hj%elem_of_upto.
    rewrite N.shiftl_1_l in Hj. assert (2 ^ newSize <= 2 ^ 6) by (by apply N.pow_le_mono_r).
    change (2 ^ 6) with 64 in *. lia.
  - done.
Qed.

Lemma reduce_generic_wf t idxConsts newSize r :
  newSize <= u32max -> reduce_generic t idxConsts newSize = Ret r -> tt_wf r.
Proof.
  intros Hn. unfold reduce_generic.
  destruct (genericType_ t); try done; try apply reduce_rows_wf; intros Hr.
  all: try (match goal with H : (if ?b then _ else _) = _ |- _ => destruct b end; [eauto with tt_wf|]).
  all: try (by eapply reduced_gate_wf; [done|..|exact Hr]; intros ? ?;
    repeat case_match; eauto with tt_wf).
  invert_run. match goal with H : (if ?b then _ else _) = Ret r |- _ => destruct b end;
    eauto with tt_wf.
Qed.

Lemma getReducedWithConstants_wf t idxConsts r :
  tt_wf t -> getReducedWithConstants t idxConsts = Ret r -> tt_wf r.
Proof.
  intros Ht. unfold getReducedWithConstants. intros Hr. invert_run.
  destruct (size_ t =? 0); [by invert_run|].
  case_bool_decide; [by invert_run|]. invert_run.
  assert (size_ t <= u32max) as Hs by apply Ht.
  destruct (isGeneric t); [|by eapply reduce_rows_wf].
  eapply reduce_generic_wf; [|done]. case_match; lia.
Qed.

#[local] Hint Resolve tt_generic_wf tt_generic_select_wf tt_mask_wf tt_vector_wf DivMod_wf
  Rom_wf VectorUpdate_wf VectorSelect_wf getReducedWithConstants_wf : tt_wf.

(** C38. Every table that the constructors, the factories and constant reduction
    can make passes the metadata check, carries the metadata of its own generic
    type only, has either no rows or one row per assignment of its inputs, and
    depends on at most as many positions as it has inputs. *)
Theorem built_wf t : built t -> tt_wf t.
Proof.
  induction 1; unfold TableSelect in *; eauto with tt_wf.
  - split_and!; [done|apply foreign_plain| |done|by left]. split; [apply zeros_wf|by left].
  - eapply Word_wf; [|done]. auto.
  - eapply Word_wf; [|done]. auto.
  - eapply Word_wf; [|done]. auto.
Qed.

Lemma built_wf_witness :
  exists t, Shift 4 2 true true 3 [63] = Ret t /\ built t /\ tt_wf t.
Proof.
  eexists. split; [reflexivity|].
  split; [|apply built_wf]; apply (built_Shift 4 2 true true 3 [63]); reflexivity.
Defined.

(** * The comparisons *)

Definition generic_rank (g : GenericType) : N :=
  match g with
  | NONE => 0 | OR => 1 | NOR => 2 | AND => 3 | NAND => 4 | XOR => 5 | XNOR => 6
  | TABLE_SELECT => 7 | DIVMOD => 8 | ADD_SUB => 9 | MULTIPLY => 10 | SHIFT => 11
  | ROM => 12 | VECTOR_UPDATE => 13 | VECTOR_SELECT => 14
  end.
Definition result_rank (r : DivModResult) : N :=
  match r with QUOTIENT => 0 | REMAINDER => 1 end.

(** The members [std::tie] lists; the ROM column comes last, so that the tuple
    order is the order of the whole sequence. *)
Definition word_tie (w : WordMetadata) : list N :=
  [w_width w; w_outputBit w; w_countWidth w;
   N.b2n (w_subtract w); N.b2n (w_right w); N.b2n (w_arithmetic w)].
Definition rom_tie (r : RomMetadata) : list N :=
  r_addressSize r :: r_depth r :: (N.b2n <$> r_column r).
Definition vector_update_tie (m : VectorUpdateMetadata) : list N :=
  [vu_width m; vu_updateWidth m; vu_addressSize m; vu_outputBit m; N.b2n (vu_isSigned m)].
Definition vector_select_tie (m : VectorSelectMetadata) : list N :=
  [vs_width m; vs_selectWidth m; vs_addressSize m; vs_outputBit m; N.b2n (vs_isSigned m)].

(** [if (x != y) return x < y;] *)
Definition if_differ {A} `{EqDecision A} (tie : A -> list N) (x y : A)
    (otherwise : outcome bool) : outcome bool :=
  if decide (x = y) then otherwise else Ret (lex_lt N.ltb (tie x) (tie y)).

Definition number (x : N) : list N := [x].
Definition flag (b : bool) : list N := [N.b2n b].

(** [operator<] *)
Definition tt_lt (a b : SNLTruthTable) : outcome bool :=
  if_differ number (size_ a) (size_ b) $
  if_differ (number ∘ generic_rank) (genericType_ a) (genericType_ b) $
  if_differ number (tableSelectAddressSize_ a) (tableSelectAddressSize_ b) $
  if_differ number (tableSelectDepth_ a) (tableSelectDepth_ b) $
  if_differ number (divModWidth_ a) (divModWidth_ b) $
  if_differ flag (divModSigned_ a) (divModSigned_ b) $
  if_differ (number ∘ result_rank) (divModResult_ a) (divModResult_ b) $
  if_differ number (divModOutputBit_ a) (divModOutputBit_ b) $
  if_differ word_tie (word_ a) (word_ b) $
  if_differ rom_tie (rom_ a) (rom_ b) $
  if_differ vector_select_tie (vectorSelect_ a) (vectorSelect_ b) $
  if_differ vector_update_tie (vectorUpdate_ a) (vectorUpdate_ b) $
  if decide (bits_ a = bits_ b)
  then Ret (lex_lt N.ltb (dependencies_ a) (dependencies_ b))
  else bitvec_lt (bits_ a) (bits_ b).

(** * The key the chain compares *)

Definition tt_key (t : SNLTruthTable) : list (list N) :=
  [number (size_ t); number (generic_rank (genericType_ t));
   number (tableSelectAddressSize_ t); number (tableSelectDepth_ t);
   number (divModWidth_ t); flag (divModSigned_ t); number (result_rank (divModResult_ t));
   number (divModOutputBit_ t); word_tie (word_ t); rom_tie (rom_ t);
   vector_select_tie (vectorSelect_ t); vector_update_tie (vectorUpdate_ t);
   number (bitvec_key (bits_ t)); dependencies_ t].
Definition key_lt : list (list N) -> list (list N) -> bool := lex_lt (lex_lt N.ltb).

(** Tables that carry the rows their type calls for. *)
Definition rows_complete (t : SNLTruthTable) : Prop :=
  rows_wf t /\ (genericType_ t = NONE -> nbits_ (bits_ t) = 2 ^ size_ t).

#[local] Instance b2n_inj : Inj (=) (=) N.b2n.
Proof. by intros [] []. Qed.
#[local] Instance number_inj : Inj (=) (=) number.
Proof. by intros x y [= ->]. Qed.
#[local] Instance flag_inj : Inj (=) (=) flag.
Proof. by intros x y [= ->%(inj _)]. Qed.
#[local] Instance generic_rank_inj : Inj (=) (=) generic_rank.
Proof. by intros [] []. Qed.
#[local] Instance result_rank_inj : Inj (=) (=) result_rank.
Proof. by intros [] []. Qed.
#[local] Instance word_tie_inj : Inj (=) (=) word_tie.
Proof. intros [] [] [= -> -> -> ?%(inj _) ?%(inj _) ?%(inj _)]. by subst. Qed.
#[local] Instance rom_tie_inj : Inj (=) (=) rom_tie.
Proof. intros [] [] [= -> -> Hc]. by apply (inj (fmap N.b2n)) in Hc as ->. Qed.
#[local] Instance vector_update_tie_inj : Inj (=) (=) vector_update_tie.
Proof. intros [] [] [= -> -> -> -> ?%(inj _)]. by subst. Qed.
#[local] Instance vector_select_tie_inj : Inj (=) (=) vector_select_tie.
Proof. intros [] [] [= -> -> -> -> ?%(inj _)]. by subst. Qed.

Lemma key_lt_cons x y l k :
  key_lt (x :: l) (y :: k) = if decide (x = y) then key_lt l k else lex_lt N.ltb x y.
Proof.
  unfold key_lt. cbn [lex_lt]. destruct (decide (x = y)) as [->|Hne].
  - by rewrite lt_irreflexive.
  - destruct (lt_total (lt := lex_lt N.ltb) x y) as [H|[H|H]]; [by rewrite H|done|].
    rewrite H, (lt_asymmetric _ _ _ H). done.
Qed.

Lemma if_differ_key {A} `{EqDecision A} (tie : A -> list N) `{!Inj (=) (=) tie} x y rest l k :
  (x = y -> rest = Ret (key_lt l k)) ->
  if_differ tie x y rest = Ret (key_lt (tie x :: l) (tie y :: k)).
Proof.
  intros Hrest. unfold if_differ. rewrite key_lt_cons.
  destruct (decide (x = y)) as [->|Hne].
  - by rewrite decide_True, Hrest.
  - rewrite decide_False; [done|]. by intros ?%(inj tie).
Qed.

Lemma rows_complete_nbits a b :
  rows_complete a -> rows_complete b -> size_ a = size_ b -> genericType_ a = genericType_ b ->
  nbits_ (bits_ a) = nbits_ (bits_ b).
Proof.
  intros [[_ Ha] Ha'] [[_ Hb] Hb'] Hs Hg. destruct (decide (genericType_ a = NONE)) as [Hn|Hn].
  - rewrite Ha' by done. rewrite Hb' by congruence. by rewrite Hs.
  - destruct Ha as [->|[]]; [|done]. destruct Hb as [->|[]]; congruence.
Qed.

(** The chain of comparisons is the lexicographic order of the keys. *)
Lemma tt_lt_key a b :
  rows_complete a -> rows_complete b -> tt_lt a b = Ret (key_lt (tt_key a) (tt_key b)).
Proof.
  intros Ha Hb. unfold tt_lt, tt_key.
  apply (if_differ_key number). intros Hs.
  apply (if_differ_key (number ∘ generic_rank)). intros Hg.
  do 2 (apply (if_differ_key number); intros _).
  apply (if_differ_key number). intros _.
  apply (if_differ_key flag). intros _.
  apply (if_differ_key (number ∘ result_rank)). intros _.
  apply (if_differ_key number). intros _.
  apply (if_differ_key word_tie). intros _.
  apply (if_differ_key rom_tie). intros _.
  apply (if_differ_key vector_select_tie). intros _.
  apply (if_differ_key vector_update_tie). intros _.
  pose proof (rows_complete_nbits a b Ha Hb Hs Hg) as Hn.
  rewrite key_lt_cons. destruct (decide (bits_ a = bits_ b)) as [->|Hne].
  - rewrite decide_True, key_lt_cons by done. unfold key_lt. cbn.
    case_decide as Hd; [|done]. by rewrite Hd, lt_irreflexive.
  - rewrite bitvec_lt_key by (apply Ha || apply Hb || done).
    rewrite decide_False; [cbn; by rewrite andb_false_r, orb_false_r|].
    intros Hk%(inj number). apply Hne. apply bitvec_key_inj; (apply Ha || apply Hb || done).
Qed.

(** The [i]-th member of equal keys. *)
Ltac key_member Hk i tie :=
  let H := fresh "H" in
  pose proof (f_equal (fun k => nth i k []) Hk) as H; cbn [nth tt_key] in H;
  apply (inj tie) in H.

Lemma tt_key_inj a b : rows_complete a -> rows_complete b -> tt_key a = tt_key b -> a = b.
Proof.
  intros Ha Hb Hk.
  key_member Hk 0%nat number. key_member Hk 1%nat (number ∘ generic_rank).
  pose proof (rows_complete_nbits a b Ha Hb) as Hn.
  assert (bits_ a = bits_ b) as Hbits.
  { apply bitvec_key_inj; [apply Ha|apply Hb|auto|]. by key_member Hk 12%nat number. }
  key_member Hk 2%nat number. key_member Hk 3%nat number. key_member Hk 4%nat number.
  key_member Hk 5%nat flag. key_member Hk 6%nat (number ∘ result_rank).
  key_member Hk 7%nat number. key_member Hk 8%nat word_tie. key_member Hk 9%nat rom_tie.
  key_member Hk 10%nat vector_select_tie. key_member Hk 11%nat vector_update_tie.
  key_member Hk 13%nat (@id (list N)).
  destruct a, b. cbn in *. by subst.
Qed.

(** [operator<] on tables that carry their rows never fails and is a strict
    total order, and two tables that are not ordered either way are equal: the
    order may key a map. *)
Theorem tt_lt_strict_total a b c :
  rows_complete a -> rows_complete b -> rows_complete c ->
  (exists r, tt_lt a b = Ret r) /\
  tt_lt a a = Ret false /\
  (tt_lt a b = Ret true -> tt_lt b c = Ret true -> tt_lt a c = Ret true) /\
  (tt_lt a b = Ret true \/ a = b \/ tt_lt b a = Ret true).
Proof.
  intros Ha Hb Hc. rewrite !tt_lt_key by done. split_and!.
  - eauto.
  - f_equal. apply lt_irreflexive.
  - intros [= H1] [= H2]. f_equal. by eapply (lt_transitive (lt := key_lt)).
  - destruct (lt_total (lt := key_lt) (tt_key a) (tt_key b)) as [H|[H|H]].
    + left. by rewrite H.
    + right; left. by apply tt_key_inj.
    + do 2 right. by rewrite H.
Qed.

Lemma tt_lt_strict_total_witness :
  exists a b c, Inv = Ret a /\ Buf = Ret b /\ Logic1 = Ret c /\
    ((exists r, tt_lt a b = Ret r) /\ tt_lt a a = Ret false /\
     (tt_lt a b = Ret true -> tt_lt b c = Ret true -> tt_lt a c = Ret true) /\
     (tt_lt a b = Ret true \/ a = b \/ tt_lt b a = Ret true)).
Proof.
  do 3 eexists. do 3 (split; [reflexivity|]).
  apply tt_lt_strict_total; repeat split; cbn; (lia || (right; done) || done).
Defined.

(** The default table has no row; it is neither below nor above the constant
    table, and differs from it. *)
Lemma tt_lt_default_Logic0 :
  exists t, Logic0 = Ret t /\ tt_default <> t /\
    tt_lt tt_default t = Ret false /\ tt_lt t tt_default = Ret false.
Proof. eexists. split; [reflexivity|]. repeat split; done. Qed.
