(* ===== verification/BooleanTree.v ===== *)
(** Boolean functions of library cells: the Liberty expression parser
    (src/src/nl/formats/liberty/SNLBooleanTree.{h,cpp}) and the expressions of
    sequential models (BooleanExpression in
    src/src/nl/netlist/decorators/SNLDesignModeling.h). *)
From S2P Require Import Prelude BitDependencies BitVecDynamic TruthTable.
From Stdlib Require Import Ascii.
Local Open Scope N_scope.

(** A pointer to an [SNLBitTerm]. *)
Definition term := N.

(** * Expressions *)

Module Expression.

Inductive Operator := Constant | Term | State | Not | And | Or | Xor.
#[export] Instance operator_eq_dec : EqDecision Operator.
Proof. solve_decision. Defined.

(** A node is aggregate-initialised: members not named keep their default. *)
Record Node := mkNode {
  operation : Operator;
  constant : bool;
  node_term : option term;
  state : N;
  operands : list nat }.

(** [BooleanExpression] without its root; a node identifier is an index. *)
Definition add (nodes : list Node) (n : Node) : nat * list Node :=
  (length nodes, nodes ++ [n]).
Definition addConstant (nodes : list Node) (value : bool) :=
  add nodes (mkNode Constant value None 0 []).
Definition addTerm (nodes : list Node) (t : term) :=
  add nodes (mkNode Term false (Some t) 0 []).
Definition addState (nodes : list Node) (s : N) :=
  add nodes (mkNode State false None s []).
Definition addOperation (nodes : list Node) (op : Operator) (ops : list nat) :=
  add nodes (mkNode op false None 0 ops).

Record BooleanExpression := mkExpression { nodes : list Node; root : nat }.

Definition isValid (e : BooleanExpression) : bool := bool_decide (root e < length (nodes e))%nat.

Definition expectedOperands (op : Operator) : nat :=
  match op with
  | Constant | Term | State => 0
  | Not => 1
  | And | Or | Xor => 2
  end.

(** The checks [setSequentialModelsFromParameters] makes on node [i], for the
    terms of the destination design and its number of states. *)
Definition validateNode (terms : list term) (states : N) (i : nat) (n : Node) : outcome unit :=
  _ ← require (bool_decide (length (operands n) = expectedOperands (operation n)))
        "wrong number of operands";
  _ ← require (negb (bool_decide (operation n = Term) && bool_decide (node_term n = None)))
        "Term node has a null term";
  _ ← require (negb (bool_decide (operation n = Term)) ||
               match node_term n with Some t => bool_decide (t ∈ terms) | None => false end)
        "term belongs to another design";
  _ ← require (negb (bool_decide (operation n = State)) || (state n <? states))
        "state index is outside states array";
  require (forallb (fun o => bool_decide (o < i)%nat) (operands n))
    "operand must refer to an earlier node".

Fixpoint validateNodes (terms : list term) (states : N) (i : nat) (ns : list Node)
    : outcome unit :=
  match ns with
  | [] => Ret tt
  | n :: ns => _ ← validateNode terms states i n; validateNodes terms states (S i) ns
  end.

Definition validateExpression (terms : list term) (states : N) (e : BooleanExpression)
    : outcome unit :=
  _ ← require (isValid e) "root node index is outside node array";
  validateNodes terms states 0 (nodes e).

End Expression.

(** * Trees *)

(** [SNLBooleanTreeInputNode]: a tree holds one node per term, per state with
    its polarity, and per constant, so the key is the node's identity. *)
Inductive input_node :=
| InTerm (t : term)
| InState (state : N) (inverted : bool)
| InConst (value : bool).
#[export] Instance input_node_eq_dec : EqDecision input_node.
Proof. solve_decision. Defined.

Inductive function_type := FAND | FOR | FXOR | FNOT | FBUFFER.
#[export] Instance function_type_eq_dec : EqDecision function_type.
Proof. solve_decision. Defined.

Inductive node :=
| Input (i : input_node)
| Function_ (type : function_type) (inputs : list node).

(** The [value_] members of the input nodes. *)
Definition values := input_node -> bool.
Definition input_value (v : values) (i : input_node) : bool :=
  match i with
  | InTerm _ | InState _ _ => v i
  | InConst b => b
  end.
Definition setValue (v : values) (t : term) (b : bool) : values :=
  fun i => if bool_decide (i = InTerm t) then b else v i.

(** [std::all_of] and [std::any_of] stop at the first input that decides. *)
Fixpoint getValue (v : values) (n : node) : outcome bool :=
  match n with
  | Input i => Ret (input_value v i)
  | Function_ FAND inputs =>
      (fix all_of l := match l with
        | [] => Ret true
        | x :: l => b ← getValue v x; if (b : bool) then all_of l else Ret false
        end) inputs
  | Function_ FOR inputs =>
      (fix any_of l := match l with
        | [] => Ret false
        | x :: l => b ← getValue v x; if (b : bool) then Ret true else any_of l
        end) inputs
  | Function_ FXOR inputs =>
      (fix odd l := match l with
        | [] => Ret false
        | x :: l => b ← getValue v x; r ← odd l; Ret (xorb b r)
        end) inputs
  | Function_ FNOT inputs =>
      match inputs with
      | [x] => b ← getValue v x; Ret (negb b)
      | _ => Throw "NOT node must have exactly one input"
      end
  | Function_ FBUFFER inputs =>
      match inputs with
      | [x] => getValue v x
      | _ => Throw "BUFFER node must have exactly one input"
      end
  end.

(** The tree's state: [constant0_] and [constant1_] hold at most one node each,
    [inputs_] and [stateInputs_] one per key. *)
Record SNLBooleanTree := mkTree {
  inputs_ : list term;
  stateIdentifiers_ : gmap string (N * bool);
  termAliases_ : gmap string term;
  stateInputs_ : list (N * bool);
  constant0_ : bool;
  constant1_ : bool;
  root_ : option node }.
Definition tree_default : SNLBooleanTree := mkTree [] ∅ ∅ [] false false None.

Definition getOrCreateInputNode (tree : SNLBooleanTree) (t : term) : input_node * SNLBooleanTree :=
  (InTerm t,
   if decide (t ∈ inputs_ tree) then tree
   else mkTree (inputs_ tree ++ [t]) (stateIdentifiers_ tree) (termAliases_ tree)
          (stateInputs_ tree) (constant0_ tree) (constant1_ tree) (root_ tree)).

Definition getOrCreateConstantInputNode (tree : SNLBooleanTree) (constant : bool)
    : input_node * SNLBooleanTree :=
  (InConst constant,
   mkTree (inputs_ tree) (stateIdentifiers_ tree) (termAliases_ tree) (stateInputs_ tree)
     (constant0_ tree || negb constant) (constant1_ tree || constant) (root_ tree)).

Definition getOrCreateStateInputNode (tree : SNLBooleanTree) (s : N) (inverted : bool)
    : input_node * SNLBooleanTree :=
  (InState s inverted,
   if decide ((s, inverted) ∈ stateInputs_ tree) then tree
   else mkTree (inputs_ tree) (stateIdentifiers_ tree) (termAliases_ tree)
          (stateInputs_ tree ++ [(s, inverted)]) (constant0_ tree) (constant1_ tree) (root_ tree)).

(** * Reading an identifier *)

Definition in_range (lo hi c : Ascii.ascii) : bool :=
  (Ascii.N_of_ascii lo <=? Ascii.N_of_ascii c) && (Ascii.N_of_ascii c <=? Ascii.N_of_ascii hi).
Definition is_ident_char (c : Ascii.ascii) : bool :=
  in_range "a" "z" c || in_range "A" "Z" c || in_range "0" "9" c ||
  bool_decide (c = "."%char) || bool_decide (c = "_"%char) ||
  bool_decide (c = "["%char) || bool_decide (c = "]"%char).

(** The longest identifier at the front, and the rest of the expression. *)
Fixpoint ident_span (s : string) : string * string :=
  match s with
  | String c s' =>
      if is_ident_char c
      then let '(id, rest) := ident_span s' in (String c id, rest)
      else (EmptyString, s)
  | EmptyString => (EmptyString, EmptyString)
  end.

(** [primitive->getScalarTerm(NLName(name))]: the scalar terms of the cell. *)
Definition scalar_terms := gmap string term.

(** [parseInput] at the front of [s]; returns the node, the tree that holds it
    and the rest of the expression. *)
Definition parseInput (primitive : scalar_terms) (tree : SNLBooleanTree) (s : string)
    : outcome (input_node * SNLBooleanTree * string) :=
  let '(inputName, rest) := ident_span s in
  _ ← require (negb (bool_decide (inputName = EmptyString))) "Expected an identifier";
  if bool_decide (inputName = "0") then Ret (getOrCreateConstantInputNode tree false, rest)
  else if bool_decide (inputName = "1") then Ret (getOrCreateConstantInputNode tree true, rest)
  else match stateIdentifiers_ tree !! inputName with
  | Some (s, inverted) => Ret (getOrCreateStateInputNode tree s inverted, rest)
  | None =>
  match termAliases_ tree !! inputName with
  | Some t => Ret (getOrCreateInputNode tree t, rest)
  | None =>
  match primitive !! inputName with
  | Some t => Ret (getOrCreateInputNode tree t, rest)
  | None => Throw "Scalar term was not found in the cell interface."
  end end end.

(** * The shift-reduce parser *)

(** The character types of a [Token]; [Dot] is the end marker of [parse]. *)
Inductive op := LPar | RPar | Quote | Bang | Caret | Star | Plus | Bar | Amp | Dot.
#[export] Instance op_eq_dec : EqDecision op.
Proof. solve_decision. Defined.

(** The types 0 to 3 of a token that carries a node. *)
Inductive level := L0 | L1 | L2 | L3.
#[export] Instance level_eq_dec : EqDecision level.
Proof. solve_decision. Defined.

Inductive token :=
| Op (o : op)
| Lvl (l : level) (n : node).

(** The stack, its top first. *)
Definition stack := list token.

(** The rules of [reduce] in the order of the code; a rule that returns
    [false] ends the search. *)
Inductive verdict := Reduced (st : stack) | Stop | Skip.

Definition rule_not (st : stack) : verdict :=
  match st with
  | Lvl L0 n :: Op Bang :: st => Reduced (Lvl L0 (Function_ FNOT [n]) :: st)
  | _ => Skip
  end.
Definition rule_quote (st : stack) : verdict :=
  match st with
  | Op Quote :: Lvl L0 n :: st => Reduced (Lvl L0 (Function_ FNOT [n]) :: st)
  | _ => Skip
  end.
Definition rule_raise0 (next : token) (st : stack) : verdict :=
  match st with
  | Lvl L0 n :: st => match next with Op Quote => Stop | _ => Reduced (Lvl L1 n :: st) end
  | _ => Skip
  end.
Definition rule_xor (st : stack) : verdict :=
  match st with
  | Lvl L1 b :: Op Caret :: Lvl L1 a :: st => Reduced (Lvl L1 (Function_ FXOR [a; b]) :: st)
  | _ => Skip
  end.
Definition rule_raise1 (next : token) (st : stack) : verdict :=
  match st with
  | Lvl L1 n :: st => match next with Op Caret => Stop | _ => Reduced (Lvl L2 n :: st) end
  | _ => Skip
  end.
Definition rule_juxtapose (st : stack) : verdict :=
  match st with
  | Lvl L2 b :: Lvl L2 a :: st => Reduced (Lvl L2 (Function_ FAND [a; b]) :: st)
  | _ => Skip
  end.
Definition rule_and (st : stack) : verdict :=
  match st with
  | Lvl L2 b :: Op Star :: Lvl L2 a :: st
  | Lvl L2 b :: Op Amp :: Lvl L2 a :: st => Reduced (Lvl L2 (Function_ FAND [a; b]) :: st)
  | _ => Skip
  end.
Definition rule_raise2 (next : token) (st : stack) : verdict :=
  match st with
  | Lvl L2 n :: st =>
      match next with
      | Op Star | Op Amp | Lvl L0 _ | Op LPar | Op Bang => Stop
      | _ => Reduced (Lvl L3 n :: st)
      end
  | _ => Skip
  end.
Definition rule_or (st : stack) : verdict :=
  match st with
  | Lvl L3 b :: Op Plus :: Lvl L3 a :: st
  | Lvl L3 b :: Op Bar :: Lvl L3 a :: st => Reduced (Lvl L3 (Function_ FOR [a; b]) :: st)
  | _ => Skip
  end.
Definition rule_paren (st : stack) : verdict :=
  match st with
  | Op RPar :: Lvl L3 n :: Op LPar :: st => Reduced (Lvl L0 n :: st)
  | _ => Skip
  end.

Fixpoint first_rule (rules : list (stack -> verdict)) (st : stack) : option stack :=
  match rules with
  | [] => None
  | r :: rules =>
      match r st with
      | Reduced st => Some st
      | Stop => None
      | Skip => first_rule rules st
      end
  end.

Definition rules (next : token) : list (stack -> verdict) :=
  [rule_not; rule_quote; rule_raise0 next; rule_xor; rule_raise1 next; rule_juxtapose;
   rule_and; rule_raise2 next; rule_or; rule_paren].

(** [reduce]: the new stack when it returns [true]. *)
Definition reduce (st : stack) (next : token) : option stack := first_rule (rules next) st.

(** [while (reduce(primitive, stack, nextToken)) {}] *)
Fixpoint reduce_loop (fuel : nat) (st : stack) (next : token) : outcome stack :=
  match reduce st next with
  | None => Ret st
  | Some st' => match fuel with O => Undef | S fuel => reduce_loop fuel st' next end
  end.

(** Every reduction lowers the weight of the stack. *)
Definition weight (t : token) : nat :=
  match t with Op _ => 4 | Lvl L0 _ => 4 | Lvl L1 _ => 3 | Lvl L2 _ => 2 | Lvl L3 _ => 1 end.
Definition stack_weight (st : stack) : nat := sum_list (weight <$> st).
Definition reduce_all (st : stack) (next : token) : outcome stack :=
  reduce_loop (stack_weight st) st next.

Definition is_space (c : Ascii.ascii) : bool :=
  bool_decide (c = " "%char) || in_range "009" "013" c.
Definition op_of_char (c : Ascii.ascii) : option op :=
  if bool_decide (c = "("%char) then Some LPar
  else if bool_decide (c = ")"%char) then Some RPar
  else if bool_decide (c = "'"%char) then Some Quote
  else if bool_decide (c = "!"%char) then Some Bang
  else if bool_decide (c = "^"%char) then Some Caret
  else if bool_decide (c = "*"%char) then Some Star
  else if bool_decide (c = "+"%char) then Some Plus
  else if bool_decide (c = "|"%char) then Some Bar
  else if bool_decide (c = "&"%char) then Some Amp
  else None.

(** The double quote character. *)
Definition quote_char : Ascii.ascii := "034"%char.

(** The loop over the expression; every round consumes a character, so the
    length of the expression is enough fuel. *)
Fixpoint parse_loop (fuel : nat) (primitive : scalar_terms) (tree : SNLBooleanTree)
    (s : string) (st : stack) : outcome (SNLBooleanTree * stack) :=
  match s with
  | EmptyString => Ret (tree, st)
  | String car s' =>
      match fuel with
      | O => Undef
      | S fuel =>
          if is_space car || bool_decide (car = quote_char)
          then parse_loop fuel primitive tree s' st
          else match op_of_char car with
          | Some o =>
              st ← reduce_all st (Op o);
              parse_loop fuel primitive tree s' (Op o :: st)
          | None =>
              r ← parseInput primitive tree s;
              let '(i, tree, rest) := (r : input_node * SNLBooleanTree * string) in
              st ← reduce_all st (Lvl L0 (Input i));
              parse_loop fuel primitive tree rest (Lvl L0 (Input i) :: st)
          end
      end
  end.

(** [parse]: the maps are assigned first, the root last. *)
Definition parse (primitive : scalar_terms) (tree : SNLBooleanTree) (function : string)
    (stateIdentifiers : gmap string (N * bool)) (termAliases : gmap string term)
    : outcome SNLBooleanTree :=
  let tree := mkTree (inputs_ tree) stateIdentifiers termAliases (stateInputs_ tree)
                (constant0_ tree) (constant1_ tree) (root_ tree) in
  r ← parse_loop (String.length function) primitive tree function [];
  let '(tree, st) := (r : SNLBooleanTree * stack) in
  st ← reduce_all st (Op Dot);
  match st with
  | [Lvl L3 root] =>
      let root := match root with
                  | Input i => Function_ FBUFFER [Input i]
                  | Function_ _ _ => root
                  end in
      Ret (mkTree (inputs_ tree) (stateIdentifiers_ tree) (termAliases_ tree)
             (stateInputs_ tree) (constant0_ tree) (constant1_ tree) (Some root))
  | _ => Throw "Malformed Boolean expression"
  end.

(** * Truth table of a tree *)

(** Row [i]: input [j] of [n] gets bit [n - j - 1] of [i]. *)
Definition set_row (inputs : list term) (n i : N) (v : values) : values :=
  foldl (fun v j => setValue v (nth (N.to_nat j) inputs 0) (N.testbit i (n - j - 1))) v (upto n).

Definition mask_step (root : node) (inputs : list term) (n : N)
    (acc : outcome (values * N)) (i : N) : outcome (values * N) :=
  st ← acc;
  let '(v, mask) := (st : values * N) in
  let v := set_row inputs n i v in
  result ← getValue v root;
  Ret (v, N.lor mask (N.shiftl (N.b2n result) i)).

Definition vector_step (root : node) (inputs : list term) (n : N)
    (acc : outcome (values * list bool)) (i : N) : outcome (values * list bool) :=
  st ← acc;
  let '(v, mask) := (st : values * list bool) in
  let v := set_row inputs n i v in
  result ← getValue v root;
  Ret (v, <[N.to_nat i := result]> mask).

(** [getTruthTable(terms)]; [orderID] is [SNLBitTerm::getOrderID]. The row
    counter is an [int], so [pow(2, n)] must stay below [2^31]. *)
Definition getTruthTable (orderID : term -> N) (tree : SNLBooleanTree) (v : values)
    (terms : list term) : outcome SNLTruthTable :=
  match root_ tree with
  | None => Throw "Boolean tree not parsed"
  | Some root =>
      let inputs := filter (fun t => t ∈ inputs_ tree) terms in
      let deps := orderID <$> inputs in
      _ ← require (forallb (fun t => bool_decide (t ∈ terms)) (inputs_ tree))
            "Term is not a truth table input.";
      let n := N.of_nat (length inputs) in
      let v := foldl (fun v t => setValue v t false) v inputs in
      if 6 <? n then
        _ ← defined (n <? 31);
        r ← foldl (vector_step root inputs n)
              (Ret (v, replicate (N.to_nat (2 ^ n)) false)) (upto (2 ^ n));
        blocks ← encodeBits deps;
        tt_vector n (snd r) blocks
      else
        r ← foldl (mask_step root inputs n) (Ret (v, 0)) (upto (2 ^ n));
        blocks ← encodeBits deps;
        tt_mask n (snd r) blocks
  end.

(** * Expression of a tree *)

Definition appendInput (i : input_node) (ns : list Expression.Node)
    : nat * list Expression.Node :=
  match i with
  | InTerm t => Expression.addTerm ns t
  | InState s inverted =>
      let '(id, ns) := Expression.addState ns s in
      if inverted then Expression.addOperation ns Expression.Not [id] else (id, ns)
  | InConst b => Expression.addConstant ns b
  end.

(** [appendBooleanExpressionNode]: operands first, left to right. *)
Fixpoint appendNode (n : node) (ns : list Expression.Node)
    : outcome (nat * list Expression.Node) :=
  match n with
  | Input i => Ret (appendInput i ns)
  | Function_ type inputs =>
      r ← (fix append l ns := match l with
            | [] => Ret ([], ns)
            | x :: l =>
                r ← appendNode x ns;
                r' ← append l (snd (r : nat * list Expression.Node));
                Ret (fst r :: fst r', snd (r' : list nat * list Expression.Node))
            end) inputs ns;
      let '(operands, ns) := (r : list nat * list Expression.Node) in
      match type with
      | FBUFFER =>
          match operands with
          | [o] => Ret (o, ns)
          | _ => Throw "BUFFER node must have exactly one input"
          end
      | FNOT => Ret (Expression.addOperation ns Expression.Not operands)
      | FAND => Ret (Expression.addOperation ns Expression.And operands)
      | FOR => Ret (Expression.addOperation ns Expression.Or operands)
      | FXOR => Ret (Expression.addOperation ns Expression.Xor operands)
      end
  end.

Definition getBooleanExpression (tree : SNLBooleanTree) : outcome Expression.BooleanExpression :=
  match root_ tree with
  | None => Throw "Boolean tree not parsed"
  | Some root =>
      r ← appendNode root [];
      let '(id, ns) := (r : nat * list Expression.Node) in
      Ret (Expression.mkExpression ns id)
  end.
