(* ===== verification/BooleanParser.v ===== *)
(** The Liberty expression parser: it terminates, what it accepts derives from
    the grammar, and it reads back every printed tree. *)
From S2P Require Import Prelude BooleanTree.
From Stdlib Require Import Ascii.
Local Open Scope nat_scope.

(** * The reduction loop terminates *)

(** What the rules do, without the order they are tried in. *)
Inductive reduction : stack -> stack -> Prop :=
| red_not n st : reduction (Lvl L0 n :: Op Bang :: st) (Lvl L0 (Function_ FNOT [n]) :: st)
| red_quote n st : reduction (Op Quote :: Lvl L0 n :: st) (Lvl L0 (Function_ FNOT [n]) :: st)
| red_raise0 n st : reduction (Lvl L0 n :: st) (Lvl L1 n :: st)
| red_xor a b st :
    reduction (Lvl L1 b :: Op Caret :: Lvl L1 a :: st) (Lvl L1 (Function_ FXOR [a; b]) :: st)
| red_raise1 n st : reduction (Lvl L1 n :: st) (Lvl L2 n :: st)
| red_juxtapose a b st :
    reduction (Lvl L2 b :: Lvl L2 a :: st) (Lvl L2 (Function_ FAND [a; b]) :: st)
| red_and o a b st :
    o = Star \/ o = Amp ->
    reduction (Lvl L2 b :: Op o :: Lvl L2 a :: st) (Lvl L2 (Function_ FAND [a; b]) :: st)
| red_raise2 n st : reduction (Lvl L2 n :: st) (Lvl L3 n :: st)
| red_or o a b st :
    o = Plus \/ o = Bar ->
    reduction (Lvl L3 b :: Op o :: Lvl L3 a :: st) (Lvl L3 (Function_ FOR [a; b]) :: st)
| red_paren n st : reduction (Op RPar :: Lvl L3 n :: Op LPar :: st) (Lvl L0 n :: st).

Lemma first_rule_elem rs st st' :
  first_rule rs st = Some st' -> exists r, r ∈ rs /\ r st = Reduced st'.
Proof.
  induction rs as [|r rs IH]; [done|]. cbn. destruct (r st) eqn:E; [|done|].
  - intros [= ->]. exists r. split; [left|done].
  - intros H. destruct (IH H) as (r' & Hr' & ?). exists r'. split; [by right|done].
Qed.

Lemma reduce_reduction st next st' : reduce st next = Some st' -> reduction st st'.
Proof.
  unfold reduce, rules. intros (r & Hr & H)%first_rule_elem.
  repeat (apply elem_of_cons in Hr as [->|Hr]; [
    unfold rule_not, rule_quote, rule_raise0, rule_xor, rule_raise1, rule_juxtapose, rule_and,
      rule_raise2, rule_or, rule_paren in H;
    repeat case_match; simplify_eq; constructor; tauto|]).
  by apply not_elem_of_nil in Hr.
Qed.

Lemma first_rule_weight st st' next :
  reduce st next = Some st' -> stack_weight st' < stack_weight st.
Proof.
  intros H%reduce_reduction. unfold stack_weight. destruct H; cbn; lia.
Qed.

Lemma reduce_loop_enough fuel fuel' st next :
  stack_weight st <= fuel -> stack_weight st <= fuel' ->
  reduce_loop fuel st next = reduce_loop fuel' st next.
Proof.
  revert fuel' st. induction fuel as [|fuel IH]; intros fuel' st H H'; cbn [reduce_loop].
  - destruct fuel' as [|fuel']; cbn [reduce_loop]; [done|].
    destruct (reduce st next) eqn:E; [|done]. apply first_rule_weight in E. lia.
  - destruct fuel' as [|fuel']; cbn [reduce_loop];
      destruct (reduce st next) eqn:E; [|done| |done]; apply first_rule_weight in E; [lia|].
    apply IH; lia.
Qed.

Lemma reduce_all_step st st' next :
  reduce st next = Some st' -> reduce_all st next = reduce_all st' next.
Proof.
  intros H. pose proof (first_rule_weight _ _ _ H) as Hw. unfold reduce_all.
  rewrite (reduce_loop_enough (stack_weight st') (pred (stack_weight st)) st') by lia.
  destruct (stack_weight st); [lia|]. cbn [reduce_loop pred]. by rewrite H.
Qed.

Lemma reduce_all_stop st next : reduce st next = None -> reduce_all st next = Ret st.
Proof. intros H. unfold reduce_all. destruct (stack_weight st); cbn [reduce_loop]; by rewrite H. Qed.

(** The loop always ends, on a stack that no rule applies to. *)
Lemma reduce_all_total st next :
  exists st', reduce_all st next = Ret st' /\ reduce st' next = None.
Proof.
  remember (stack_weight st) as w eqn:Hw. revert st Hw.
  induction w as [w IH] using lt_wf_ind. intros st ->.
  destruct (reduce st next) as [st1|] eqn:E.
  - rewrite (reduce_all_step _ _ _ E). apply (IH (stack_weight st1)); [|done].
    by eapply first_rule_weight.
  - exists st. split; [by apply reduce_all_stop|done].
Qed.

(** * The grammar *)

(** Prefix and postfix negation bind tightest, then exclusive or, then the
    conjunction (written or by juxtaposition), then the disjunction. *)
Inductive derives : level -> list token -> node -> Prop :=
| derives_input i : derives L0 [Lvl L0 (Input i)] (Input i)
| derives_not ts n : derives L0 ts n -> derives L0 (Op Bang :: ts) (Function_ FNOT [n])
| derives_quote ts n : derives L0 ts n -> derives L0 (ts ++ [Op Quote]) (Function_ FNOT [n])
| derives_paren ts n : derives L3 ts n -> derives L0 (Op LPar :: ts ++ [Op RPar]) n
| derives_raise0 ts n : derives L0 ts n -> derives L1 ts n
| derives_xor ts us a b :
    derives L1 ts a -> derives L1 us b ->
    derives L1 (ts ++ Op Caret :: us) (Function_ FXOR [a; b])
| derives_raise1 ts n : derives L1 ts n -> derives L2 ts n
| derives_juxtapose ts us a b :
    derives L2 ts a -> derives L2 us b -> derives L2 (ts ++ us) (Function_ FAND [a; b])
| derives_and o ts us a b :
    o = Star \/ o = Amp -> derives L2 ts a -> derives L2 us b ->
    derives L2 (ts ++ Op o :: us) (Function_ FAND [a; b])
| derives_raise2 ts n : derives L2 ts n -> derives L3 ts n
| derives_or o ts us a b :
    o = Plus \/ o = Bar -> derives L3 ts a -> derives L3 us b ->
    derives L3 (ts ++ Op o :: us) (Function_ FOR [a; b]).

(** The tokens a stack stands for, its top first. *)
Inductive covers : stack -> list token -> Prop :=
| covers_nil : covers [] []
| covers_op o st ts : covers st ts -> covers (Op o :: st) (ts ++ [Op o])
| covers_lvl l n st ts us :
    covers st ts -> derives l us n -> covers (Lvl l n :: st) (ts ++ us).

Lemma covers_lvl_inv l n st ts :
  covers (Lvl l n :: st) ts -> exists ts' us, ts = ts' ++ us /\ covers st ts' /\ derives l us n.
Proof. inversion 1; subst. eauto. Qed.
Lemma covers_op_inv o st ts :
  covers (Op o :: st) ts -> exists ts', ts = ts' ++ [Op o] /\ covers st ts'.
Proof. inversion 1; subst. eauto. Qed.

Ltac covers_inv :=
  repeat match goal with
  | H : covers (Lvl _ _ :: _) _ |- _ => apply covers_lvl_inv in H as (? & ? & ? & ? & ?)
  | H : covers (Op _ :: _) _ |- _ => apply covers_op_inv in H as (? & ? & ?)
  end; subst.

(** The same stack with the tokens grouped otherwise. *)
Lemma covers_lvl_eq l n st ts us ts' :
  covers st ts -> derives l us n -> ts' = ts ++ us -> covers (Lvl l n :: st) ts'.
Proof. intros H1 H2 ->. by constructor. Qed.

Create HintDb grammar.
#[export] Hint Constructors derives covers : grammar.

(** Rebuilds the covered tokens around one grammar rule. *)
Ltac regroup rule :=
  eapply covers_lvl_eq; [eassumption|eapply rule; eassumption|by rewrite <- ?app_assoc].

(** Every rule keeps the tokens covered. *)
Lemma reduce_covers st st' next ts :
  reduce st next = Some st' -> covers st ts -> covers st' ts.
Proof.
  intros H%reduce_reduction Hc.
  destruct H; covers_inv;
    [regroup derives_not|regroup derives_quote|regroup derives_raise0|regroup derives_xor
    |regroup derives_raise1|regroup derives_juxtapose|regroup derives_and
    |regroup derives_raise2|regroup derives_or|regroup derives_paren].
Qed.

Lemma reduce_all_covers st st' next ts :
  reduce_all st next = Ret st' -> covers st ts -> covers st' ts.
Proof.
  unfold reduce_all. generalize (stack_weight st). intros fuel.
  revert st. induction fuel as [|fuel IH]; intros st; cbn [reduce_loop];
    destruct (reduce st next) as [st1|] eqn:E; try done.
  - by intros [= ->].
  - intros Hr Hc. eapply IH; [done|]. by eapply reduce_covers.
  - by intros [= ->].
Qed.

(** * Tokens of an expression *)

(** The node an identifier names, in the order [parseInput] looks it up. *)
Definition resolve (primitive : scalar_terms) (sids : gmap string (N * bool))
    (aliases : gmap string term) (id : string) : option input_node :=
  if bool_decide (id = EmptyString) then None
  else if bool_decide (id = "0") then Some (InConst false)
  else if bool_decide (id = "1") then Some (InConst true)
  else match sids !! id with
  | Some (s, inverted) => Some (InState s inverted)
  | None =>
  match aliases !! id with
  | Some t => Some (InTerm t)
  | None => InTerm <$> primitive !! id
  end end.

(** The tree once it holds the node. *)
Definition record (i : input_node) (tree : SNLBooleanTree) : SNLBooleanTree :=
  match i with
  | InTerm t => (getOrCreateInputNode tree t).2
  | InState s inverted => (getOrCreateStateInputNode tree s inverted).2
  | InConst b => (getOrCreateConstantInputNode tree b).2
  end.

Definition lookup_node (primitive : scalar_terms) (tree : SNLBooleanTree) :=
  resolve primitive (stateIdentifiers_ tree) (termAliases_ tree).

Lemma parseInput_resolve primitive tree s :
  parseInput primitive tree s =
    let '(id, rest) := ident_span s in
    match lookup_node primitive tree id with
    | Some i => Ret (i, record i tree, rest)
    | None => if bool_decide (id = EmptyString) then Throw "Expected an identifier"
              else Throw "Scalar term was not found in the cell interface."
    end.
Proof.
  unfold parseInput, lookup_node, resolve. destruct (ident_span s) as [id rest].
  destruct (decide (id = EmptyString)) as [->|H]; [done|].
  rewrite !(bool_decide_eq_false_2 (id = EmptyString)) by done.
  cbn [require negb mbind outcome_bind].
  destruct (bool_decide (id = "0")); [done|]. destruct (bool_decide (id = "1")); [done|].
  destruct (stateIdentifiers_ tree !! id) as [[]|]; [done|].
  destruct (termAliases_ tree !! id); [done|]. by destruct (primitive !! id).
Qed.

Lemma record_maps i tree :
  stateIdentifiers_ (record i tree) = stateIdentifiers_ tree /\
  termAliases_ (record i tree) = termAliases_ tree.
Proof.
  destruct i; cbn; try case_decide; done.
Qed.

(** The tokens of an expression, and the tree that holds the nodes they name. *)
Inductive scans (primitive : scalar_terms) :
    SNLBooleanTree -> string -> list token -> SNLBooleanTree -> Prop :=
| scans_nil tree : scans primitive tree EmptyString [] tree
| scans_space c s tree ts tree' :
    is_space c || bool_decide (c = quote_char) = true ->
    scans primitive tree s ts tree' -> scans primitive tree (String c s) ts tree'
| scans_op c o s tree ts tree' :
    is_space c || bool_decide (c = quote_char) = false -> op_of_char c = Some o ->
    scans primitive tree s ts tree' -> scans primitive tree (String c s) (Op o :: ts) tree'
| scans_ident c s id rest i tree ts tree' :
    is_space c || bool_decide (c = quote_char) = false -> op_of_char c = None ->
    ident_span (String c s) = (id, rest) -> lookup_node primitive tree id = Some i ->
    scans primitive (record i tree) rest ts tree' ->
    scans primitive tree (String c s) (Lvl L0 (Input i) :: ts) tree'.

(** What the parser does with the tokens. *)
Fixpoint run (ts : list token) (st : stack) : outcome stack :=
  match ts with
  | [] => Ret st
  | t :: ts => st ← reduce_all st t; run ts (t :: st)
  end.

Lemma ident_span_length s id rest :
  ident_span s = (id, rest) -> String.length s = String.length id + String.length rest.
Proof.
  revert id rest. induction s as [|c s IH]; intros id rest; cbn [ident_span].
  - by intros [= <- <-].
  - destruct (is_ident_char c); [|by intros [= <- <-]].
    destruct (ident_span s) as [id' rest'] eqn:E. intros [= <- <-]. cbn.
    by rewrite (IH _ _ eq_refl).
Qed.

Lemma lookup_node_nonempty primitive tree id i :
  lookup_node primitive tree id = Some i -> 0 < String.length id.
Proof. unfold lookup_node, resolve. destruct id; cbn; [done|lia]. Qed.

Lemma scans_parse_loop primitive tree s ts tree' fuel st :
  scans primitive tree s ts tree' -> String.length s <= fuel ->
  parse_loop fuel primitive tree s st = (st' ← run ts st; Ret (tree', st')).
Proof.
  intros Hs. revert fuel st. induction Hs; intros fuel st Hf;
    (destruct fuel as [|fuel]; [cbn in Hf; try lia|]); cbn [parse_loop run]; [done|done|..].
  - rewrite H. apply IHHs. cbn in Hf. lia.
  - rewrite H, H0. destruct (reduce_all_total st (Op o)) as (st1 & -> & _).
    cbn [mbind outcome_bind]. apply IHHs. cbn in Hf. lia.
  - rewrite H, H0, parseInput_resolve, H1, H2. cbn [mbind outcome_bind].
    destruct (reduce_all_total st (Lvl L0 (Input i))) as (st1 & -> & _).
    cbn [mbind outcome_bind]. apply IHHs.
    apply ident_span_length in H1. apply lookup_node_nonempty in H2. cbn in *. lia.
Qed.

Lemma parse_loop_scans fuel primitive tree s st tree' st' :
  parse_loop fuel primitive tree s st = Ret (tree', st') ->
  exists ts, scans primitive tree s ts tree' /\ run ts st = Ret st'.
Proof.
  revert tree s st. induction fuel as [|fuel IH]; intros tree [|c s] st; cbn [parse_loop];
    intros H; try done.
  - injection H as <- <-. exists []. split; [constructor|done].
  - injection H as <- <-. exists []. split; [constructor|done].
  - destruct (is_space c || bool_decide (c = quote_char)) eqn:Es.
    { apply IH in H as (ts & Hts & Hr). exists ts. split; [by constructor|done]. }
    destruct (op_of_char c) as [o|] eqn:Eo.
    + apply bind_Ret in H as (st1 & Hr1 & H). apply IH in H as (ts & Hts & Hr).
      exists (Op o :: ts). split; [by constructor|]. cbn. by rewrite Hr1.
    + apply bind_Ret in H as ([[i tree1] rest] & Hp & H).
      apply bind_Ret in H as (st1 & Hr1 & H). apply IH in H as (ts & Hts & Hr).
      rewrite parseInput_resolve in Hp. destruct (ident_span (String c s)) as [id rest'] eqn:Ei.
      destruct (lookup_node primitive tree id) as [i'|] eqn:El; [|by case_bool_decide].
      injection Hp as -> <- <-. exists (Lvl L0 (Input i) :: ts).
      split; [by eapply scans_ident|]. cbn. by rewrite Hr1.
Qed.

Lemma run_covers ts st st' us :
  Forall (fun t => match t with Op _ => True | Lvl l n => exists i, l = L0 /\ n = Input i end) ts ->
  run ts st = Ret st' -> covers st us -> covers st' (us ++ ts).
Proof.
  intros Hts. revert st us. induction Hts as [|t ts Ht Hts IH]; intros st us; cbn.
  - intros [= ->]. by rewrite app_nil_r.
  - intros (st1 & Hr & H)%bind_Ret Hc. rewrite cons_middle, app_assoc. apply IH with (t :: st1); [done|].
    apply (reduce_all_covers _ _ _ _ Hr) in Hc.
    destruct t as [o|l n]; [by constructor|]. destruct Ht as (i & -> & ->).
    constructor; [done|constructor].
Qed.

Lemma scans_tokens primitive tree s ts tree' :
  scans primitive tree s ts tree' ->
  Forall (fun t => match t with Op _ => True | Lvl l n => exists i, l = L0 /\ n = Input i end) ts.
Proof. induction 1; try done; constructor; eauto. Qed.

(** * What [parse] returns *)

Definition as_root (n : node) : node :=
  match n with
  | Input i => Function_ FBUFFER [Input i]
  | Function_ _ _ => n
  end.

(** The tree [parse] starts from, and the one it ends with. *)
Definition with_maps (tree : SNLBooleanTree) (sids : gmap string (N * bool))
    (aliases : gmap string term) : SNLBooleanTree :=
  mkTree (inputs_ tree) sids aliases (stateInputs_ tree) (constant0_ tree) (constant1_ tree)
    (root_ tree).
Definition with_root (tree : SNLBooleanTree) (n : node) : SNLBooleanTree :=
  mkTree (inputs_ tree) (stateIdentifiers_ tree) (termAliases_ tree) (stateInputs_ tree)
    (constant0_ tree) (constant1_ tree) (Some (as_root n)).

(** [parse] returns exactly when the tokens reduce to one disjunction. *)
Lemma parse_Ret primitive tree s sids aliases tree' :
  parse primitive tree s sids aliases = Ret tree' <->
    exists ts tree1 st n, scans primitive (with_maps tree sids aliases) s ts tree1 /\
      run ts [] = Ret st /\ reduce_all st (Op Dot) = Ret [Lvl L3 n] /\ tree' = with_root tree1 n.
Proof.
  unfold parse. split.
  - intros ([tree1 st] & Hl & H)%bind_Ret. apply parse_loop_scans in Hl as (ts & Hs & Hr).
    apply bind_Ret in H as (st' & Hd & H).
    destruct st' as [|[o|[] n] [|]]; try done. exists ts, tree1, st, n.
    split_and!; [done..|]. by injection H as <-.
  - intros (ts & tree1 & st & n & Hs & Hr & Hd & ->). unfold with_maps in Hs.
    rewrite (scans_parse_loop _ _ _ _ _ _ _ Hs) by done. rewrite Hr. cbn [mbind outcome_bind].
    rewrite Hd. done.
Qed.

(** Trees of the arity the code expects: [NOT] of one, the rest of two. *)
Inductive wf_node : node -> Prop :=
| wf_input i : wf_node (Input i)
| wf_not n : wf_node n -> wf_node (Function_ FNOT [n])
| wf_binary f a b :
    f = FAND \/ f = FOR \/ f = FXOR -> wf_node a -> wf_node b -> wf_node (Function_ f [a; b]).

Lemma derives_wf l ts n : derives l ts n -> wf_node n.
Proof. induction 1; try done; constructor; auto. Qed.

(** C9. What [parse] accepts derives from the grammar: the tokens of the
    expression, each identifier resolved as a constant, a state, an alias or a
    scalar term in this order, form a disjunction of conjunctions of exclusive
    ors of negated or parenthesised operands, and the root is that derivation's
    tree, under a buffer when it is a lone operand. *)
Theorem parse_sound primitive tree s sids aliases tree' :
  parse primitive tree s sids aliases = Ret tree' ->
  exists ts tree1 n, scans primitive (with_maps tree sids aliases) s ts tree1 /\
    derives L3 ts n /\ wf_node n /\ tree' = with_root tree1 n.
Proof.
  intros (ts & tree1 & st & n & Hs & Hr & Hd & ->)%parse_Ret. exists ts, tree1, n.
  assert (covers st ([] ++ ts)) as Hc
    by (eapply run_covers; [by eapply scans_tokens|done|constructor]).
  apply (reduce_all_covers _ _ _ _ Hd), covers_lvl_inv in Hc as (us & vs & Hts & Hnil & Hder).
  inversion Hnil; subst us. cbn in Hts. subst vs.
  split_and!; [done..|by eapply derives_wf|done].
Qed.

Lemma parse_sound_witness :
  let cell : scalar_terms := {["A" := 1%N; "B" := 2%N]} in
  exists tree', parse cell tree_default "A + !(B A')" ∅ ∅ = Ret tree' /\
    exists ts tree1 n, scans cell (with_maps tree_default ∅ ∅) "A + !(B A')" ts tree1 /\
      derives L3 ts n /\ wf_node n /\ tree' = with_root tree1 n.
Proof.
  intros cell. eexists. split; [vm_compute; reflexivity|].
  apply (parse_sound cell tree_default "A + !(B A')" ∅ ∅). vm_compute. reflexivity.
Defined.

(** * Round trip *)

Fixpoint leaves (n : node) : list input_node :=
  match n with
  | Input i => [i]
  | Function_ _ inputs => concat (leaves <$> inputs)
  end.

Definition op_text (f : function_type) : string :=
  match f with FAND => "*" | FOR => "+" | FXOR => "^" | FNOT => "!" | FBUFFER => "" end.
Definition op_token (f : function_type) : op :=
  match f with FAND => Star | FOR => Plus | FXOR => Caret | _ => Bang end.

(** Every binary operation is written in parentheses. *)
Fixpoint print (name : input_node -> string) (n : node) : string :=
  match n with
  | Input i => name i
  | Function_ f [a] => "!" +:+ print name a
  | Function_ f [a; b] => "(" +:+ print name a +:+ op_text f +:+ print name b +:+ ")"
  | Function_ _ _ => ""
  end.
Fixpoint print_tokens (n : node) : list token :=
  match n with
  | Input i => [Lvl L0 (Input i)]
  | Function_ f [a] => Op Bang :: print_tokens a
  | Function_ f [a; b] =>
      Op LPar :: print_tokens a ++ Op (op_token f) :: print_tokens b ++ [Op RPar]
  | Function_ _ _ => []
  end.

(** A stack on which the next operand starts. *)
Definition open_stack (st : stack) : Prop :=
  match st with
  | [] => True
  | Op o :: _ => o <> RPar /\ o <> Quote
  | Lvl _ _ :: _ => False
  end.

Lemma open_stack_stop st next : open_stack st -> reduce_all st next = Ret st.
Proof.
  intros H. apply reduce_all_stop. destruct st as [|[o|] st]; [done| |done].
  destruct H. by destruct o.
Qed.

Lemma run_app ts us st : run (ts ++ us) st = (st' ← run ts st; run us st').
Proof.
  revert st. induction ts as [|t ts IH]; intros st; [done|]. cbn.
  destruct (reduce_all st t); cbn; [apply IH|done..].
Qed.

(** Reduction of an operand that a binary operator or the closing parenthesis
    follows. *)
Lemma reduce_operand st n f :
  f = FAND \/ f = FOR \/ f = FXOR ->
  reduce_all (Lvl L0 n :: Op LPar :: st) (Op (op_token f)) =
    Ret (Lvl (match f with FAND => L2 | FOR => L3 | _ => L1 end) n :: Op LPar :: st).
Proof.
  by intros [->|[->| ->]]; cbn [op_token];
    repeat (erewrite reduce_all_step by reflexivity); apply reduce_all_stop.
Qed.

Lemma reduce_closing st a b f :
  f = FAND \/ f = FOR \/ f = FXOR ->
  reduce_all (Lvl L0 b :: Op (op_token f) ::
      Lvl (match f with FAND => L2 | FOR => L3 | _ => L1 end) a :: Op LPar :: st) (Op RPar) =
    Ret (Lvl L3 (Function_ f [a; b]) :: Op LPar :: st).
Proof.
  by intros [->|[->| ->]]; cbn [op_token];
    repeat (erewrite reduce_all_step by reflexivity); apply reduce_all_stop.
Qed.

(** After the tokens of a printed tree the parser is where one operand would
    have put it. *)
Lemma run_print n st :
  wf_node n -> open_stack st ->
  exists st', run (print_tokens n) st = Ret st' /\
    forall next, reduce_all st' next = reduce_all (Lvl L0 n :: st) next.
Proof.
  intros Hn. revert st. induction Hn as [i|n Hn IH|f a b Hf Ha IHa Hb IHb]; intros st Hst; cbn [print_tokens run].
  - rewrite open_stack_stop by done. eexists. by split.
  - rewrite open_stack_stop by done. cbn [mbind outcome_bind].
    destruct (IH (Op Bang :: st)) as (st' & Hr & Heq); [done|].
    exists st'. split; [done|]. intros next. rewrite Heq. by apply reduce_all_step.
  - rewrite open_stack_stop by done. cbn [mbind outcome_bind].
    destruct (IHa (Op LPar :: st)) as (sta & Hra & Hqa); [done|].
    rewrite run_app, Hra. cbn [mbind outcome_bind run]. rewrite Hqa, reduce_operand by done.
    cbn [mbind outcome_bind].
    match goal with |- context [run _ ?s] => destruct (IHb s) as (stb & Hrb & Hqb) end.
    { by destruct Hf as [->|[->| ->]]. }
    rewrite run_app, Hrb. cbn [mbind outcome_bind run]. rewrite Hqb, reduce_closing by done.
    eexists. split; [done|]. intros next. by apply reduce_all_step.
Qed.

(** ** Reading the printed characters *)

(** A name that reads back as the node it prints. *)
Definition good_name (primitive : scalar_terms) (sids : gmap string (N * bool))
    (aliases : gmap string term) (id : string) (i : input_node) : Prop :=
  Forall (fun c => is_ident_char c = true) (String.list_ascii_of_string id) /\
  resolve primitive sids aliases id = Some i.

(** What follows a name does not extend it. *)
Definition not_ident (s : string) : Prop :=
  match s with EmptyString => True | String c _ => is_ident_char c = false end.

Lemma ident_span_app id s :
  Forall (fun c => is_ident_char c = true) (String.list_ascii_of_string id) -> not_ident s ->
  ident_span (id +:+ s) = (id, s).
Proof.
  induction id as [|c id IH]; intros Hid Hs.
  - destruct s as [|c s]; [done|].
    change (is_ident_char c = false) in Hs.
    change (ident_span (String c s) = (EmptyString, String c s)). cbn [ident_span]. by rewrite Hs.
  - apply Forall_cons in Hid as [Hc Hid].
    change (ident_span (String c (id +:+ s)) = (String c id, s)). cbn [ident_span].
    by rewrite Hc, IH.
Qed.

Lemma ident_char_plain c :
  is_ident_char c = true ->
  is_space c || bool_decide (c = quote_char) = false /\ op_of_char c = None.
Proof. destruct c as [[] [] [] [] [] [] [] []]; vm_compute; done. Qed.

Lemma lookup_record primitive i tree id :
  lookup_node primitive (record i tree) id = lookup_node primitive tree id.
Proof. unfold lookup_node. by destruct (record_maps i tree) as [-> ->]. Qed.

Definition record_all (l : list input_node) (tree : SNLBooleanTree) : SNLBooleanTree :=
  foldl (fun tree i => record i tree) tree l.

Lemma record_all_maps l tree :
  stateIdentifiers_ (record_all l tree) = stateIdentifiers_ tree /\
  termAliases_ (record_all l tree) = termAliases_ tree.
Proof.
  revert tree. induction l as [|i l IH]; intros tree; [done|].
  change (record_all (i :: l) tree) with (record_all l (record i tree)).
  destruct (IH (record i tree)) as [-> ->]. apply record_maps.
Qed.

Lemma scans_print primitive name n tree s ts tree' :
  wf_node n -> (forall i, i ∈ leaves n ->
    good_name primitive (stateIdentifiers_ tree) (termAliases_ tree) (name i) i) ->
  not_ident s -> scans primitive (record_all (leaves n) tree) s ts tree' ->
  scans primitive tree (print name n +:+ s) (print_tokens n ++ ts) tree'.
Proof.
  intros Hn. revert tree s ts.
  induction Hn as [i|n Hn IH|f a b Hf Ha IHa Hb IHb]; intros tree s ts Hname Hs Hsc.
  - cbn in Hsc |- *. destruct (Hname i) as [Hid Hres]; [by left|].
    pose proof (ident_span_app _ _ Hid Hs) as Hspan.
    destruct (name i) as [|c id] eqn:Ename; [done|]. cbn in Hid.
    apply Forall_cons in Hid as [Hc _]. apply ident_char_plain in Hc as [Hc1 Hc2].
    by eapply scans_ident.
  - cbn in Hsc |- *. apply scans_op; [done|done|]. apply IH; [|done|].
    + intros i Hi. apply Hname. cbn. by rewrite app_nil_r.
    + by rewrite app_nil_r in Hsc.
  - assert (leaves (Function_ f [a; b]) = leaves a ++ leaves b) as El
      by (cbn; by rewrite app_nil_r).
    rewrite El in Hsc, Hname. unfold record_all in Hsc. rewrite foldl_app in Hsc.
    cbn [print print_tokens]. rewrite !string_app_assoc, <- !app_comm_cons, <- !app_assoc.
    apply scans_op; [done|done|].
    assert (forall (tr : SNLBooleanTree) l i, stateIdentifiers_ tr = stateIdentifiers_ tree ->
      termAliases_ tr = termAliases_ tree -> i ∈ l -> l ⊆ leaves a ++ leaves b ->
      good_name primitive (stateIdentifiers_ tr) (termAliases_ tr) (name i) i) as Hn'.
    { intros tr l i -> -> Hi Hl. apply Hname. by apply Hl. }
    destruct (record_all_maps (leaves a) tree) as [Hm1 Hm2].
    apply IHa; [intros i Hi; by apply (Hn' tree (leaves a)); [..|set_solver]| |].
    { by destruct Hf as [->|[->| ->]]. }
    rewrite <- app_comm_cons, <- app_assoc.
    assert (forall u us, scans primitive (record_all (leaves a) tree) u us tree' ->
      scans primitive (record_all (leaves a) tree) (op_text f +:+ u) (Op (op_token f) :: us) tree') as Hop.
    { intros u us Hu. by destruct Hf as [->|[->| ->]]; apply scans_op. }
    apply Hop. apply IHb; [|done|].
    + intros i Hi. apply (Hn' _ (leaves b)); [done|done|done|set_solver].
    + by apply scans_op.
Qed.

Lemma record_inputs i tree t :
  t ∈ inputs_ (record i tree) <-> t ∈ inputs_ tree \/ i = InTerm t.
Proof.
  destruct i as [t'|s inv|b]; cbn.
  - case_decide; cbn; [naive_solver|]. rewrite elem_of_app, list_elem_of_singleton. naive_solver.
  - case_decide; cbn; naive_solver.
  - naive_solver.
Qed.

Lemma scans_inputs primitive tree s ts tree' t :
  scans primitive tree s ts tree' ->
  t ∈ inputs_ tree' <-> t ∈ inputs_ tree \/ Lvl L0 (Input (InTerm t)) ∈ ts.
Proof.
  induction 1.
  - rewrite elem_of_nil. tauto.
  - done.
  - rewrite IHscans, elem_of_cons. naive_solver.
  - rewrite IHscans, record_inputs, elem_of_cons. naive_solver.
Qed.

Lemma derives_leaves l ts n i :
  derives l ts n -> i ∈ leaves n <-> Lvl L0 (Input i) ∈ ts.
Proof.
  induction 1; cbn [leaves fmap list_fmap concat]; rewrite ?app_nil_r; set_solver.
Qed.

Lemma print_tokens_leaves n i :
  wf_node n -> Lvl L0 (Input i) ∈ print_tokens n <-> i ∈ leaves n.
Proof.
  induction 1; cbn [leaves fmap list_fmap concat print_tokens]; rewrite ?app_nil_r; set_solver.
Qed.

(** C39. Round trip: a tree of the expected arity, printed with every binary
    operation in parentheses, is read back as itself, provided each of its leaves
    prints as an identifier that names it; the terms the tree then holds are
    those it held and the leaves. *)
Theorem parse_print primitive tree sids aliases name n :
  wf_node n -> (forall i, i ∈ leaves n -> good_name primitive sids aliases (name i) i) ->
  exists tree', parse primitive tree (print name n) sids aliases = Ret tree' /\
    root_ tree' = Some (as_root n) /\
    (forall t, t ∈ inputs_ tree' <-> t ∈ inputs_ tree \/ InTerm t ∈ leaves n).
Proof.
  intros Hn Hname. set (tree1 := record_all (leaves n) (with_maps tree sids aliases)).
  assert (scans primitive (with_maps tree sids aliases) (print name n) (print_tokens n) tree1) as Hs.
  { rewrite <- (string_app_empty (print name n)), <- (app_nil_r (print_tokens n)).
    apply scans_print; [done|done|done|constructor]. }
  destruct (run_print n [] Hn I) as (st & Hr & Hq). exists (with_root tree1 n).
  split_and!; [|done|].
  - apply parse_Ret. exists (print_tokens n), tree1, st, n. split_and!; [done..| |done].
    rewrite Hq. repeat (erewrite reduce_all_step by reflexivity). by apply reduce_all_stop.
  - intros t. cbn [with_root inputs_]. rewrite (scans_inputs _ _ _ _ _ t Hs).
    by rewrite print_tokens_leaves.
Qed.

Lemma parse_print_witness :
  let cell : scalar_terms := {["A" := 1%N; "B" := 2%N]} in
  let name i := match i with InTerm 1 => "A" | InTerm _ => "B" | InConst true => "1" | _ => "0" end%N in
  let n := Function_ FOR [Function_ FNOT [Input (InTerm 1)];
                          Function_ FXOR [Input (InTerm 2); Input (InConst true)]]%N in
  exists tree', parse cell tree_default (print name n) ∅ ∅ = Ret tree' /\
    root_ tree' = Some (as_root n) /\
    (forall t, t ∈ inputs_ tree' <-> t ∈ inputs_ tree_default \/ InTerm t ∈ leaves n).
Proof.
  intros cell name n. apply parse_print; [by repeat constructor|].
  intros i Hi. cbn in Hi.
  repeat (apply elem_of_cons in Hi as [->|Hi]; [split; [by repeat constructor|done]|]).
  by apply not_elem_of_nil in Hi.
Defined.
