(* ===== verification/BooleanTreeProofs.v ===== *)
(** What a parsed tree becomes: its truth table and its expression denote the
    tree, and the expression passes the checks of a sequential model. *)
From S2P Require Import Prelude BitDependencies BitVecDynamic TruthTable VectorTables Reduction ReductionProofs BooleanTree BooleanParser.
Local Open Scope N_scope.

(** * The function a tree denotes *)

Fixpoint node_eval (v : values) (n : node) : bool :=
  match n with
  | Input i => input_value v i
  | Function_ FAND inputs => forallb (node_eval v) inputs
  | Function_ FOR inputs => existsb (node_eval v) inputs
  | Function_ FXOR inputs => foldr xorb false (node_eval v <$> inputs)
  | Function_ FNOT inputs => negb (existsb (node_eval v) inputs)
  | Function_ FBUFFER inputs => existsb (node_eval v) inputs
  end.

Lemma getValue_wf v n : wf_node n -> getValue v n = Ret (node_eval v n).
Proof.
  induction 1 as [i|n Hn IH|f a b Hf Ha IHa Hb IHb]; cbn; [done| |].
  - rewrite IH. cbn. by rewrite orb_false_r.
  - destruct Hf as [->|[->| ->]]; rewrite IHa; cbn;
      destruct (node_eval v a); cbn; rewrite ?IHb; cbn; by destruct (node_eval v b).
Qed.

Lemma getValue_root v n : wf_node n -> getValue v (as_root n) = Ret (node_eval v n).
Proof. intros Hn. destruct n; [done|]. by apply getValue_wf. Qed.

Lemma node_eval_ext v v' n :
  wf_node n -> (forall i, i ∈ leaves n -> input_value v i = input_value v' i) ->
  node_eval v n = node_eval v' n.
Proof.
  induction 1 as [i|n Hn IH|f a b Hf Ha IHa Hb IHb]; intros Hv; cbn in *.
  - apply Hv. by left.
  - rewrite IH; [done|]. intros i Hi. apply Hv. set_solver.
  - rewrite IHa, IHb by (intros i Hi; apply Hv; set_solver). done.
Qed.

(** * Rows *)

Lemma nth_lookup_N (l : list term) (j : N) (x : term) : l !! N.to_nat j = Some x -> nth (N.to_nat j) l 0 = x.
Proof. intros H. apply nth_lookup_Some with (d := 0) in H. done. Qed.

Lemma set_row_steps (inputs : list term) n i v k j (t : term) :
  NoDup inputs -> inputs !! N.to_nat j = Some t -> k <= N.of_nat (length inputs) ->
  foldl (fun v j => setValue v (nth (N.to_nat j) inputs 0) (N.testbit i (n - j - 1))) v (upto k)
    (InTerm t) = if j <? k then N.testbit i (n - j - 1) else v (InTerm t).
Proof.
  intros Hnd Ht. induction k as [|k IH] using N.peano_ind; intros Hk.
  - by rewrite (proj2 (N.ltb_ge _ _)) by lia.
  - rewrite upto_succ, foldl_app. cbn [foldl]. unfold setValue at 1.
    destruct (lookup_lt_is_Some_2 inputs (N.to_nat k)) as [u Hu]; [lia|].
    rewrite (nth_lookup_N _ _ _ Hu). case_bool_decide as Heq.
    + injection Heq as ->. pose proof (NoDup_lookup _ _ _ _ Hnd Ht Hu) as Hjk.
      rewrite (proj2 (N.ltb_lt _ _)) by lia. do 2 f_equal. lia.
    + assert (j <> k) by (intros ->; congruence). rewrite IH by lia.
      destruct (N.ltb_spec j k), (N.ltb_spec j (N.succ k)); (lia || done).
Qed.

Lemma set_row_other (inputs : list term) n i v key k :
  (forall t, t ∈ inputs -> key <> InTerm t) -> k <= N.of_nat (length inputs) ->
  foldl (fun v j => setValue v (nth (N.to_nat j) inputs 0) (N.testbit i (n - j - 1))) v (upto k) key
    = v key.
Proof.
  intros Hkey. induction k as [|k IH] using N.peano_ind; intros Hk; [done|].
  rewrite upto_succ, foldl_app. cbn [foldl]. unfold setValue at 1.
  destruct (lookup_lt_is_Some_2 inputs (N.to_nat k)) as [u Hu]; [lia|].
  rewrite (nth_lookup_N _ _ _ Hu), bool_decide_eq_false_2; [apply IH; lia|].
  apply Hkey. by eapply list_elem_of_lookup_2.
Qed.

(** The values on row [i]: input [j] has bit [n - j - 1]; the other nodes keep
    what they had. *)
Lemma set_row_spec inputs i v key :
  NoDup inputs ->
  (exists j t, inputs !! N.to_nat j = Some t /\ key = InTerm t /\
     set_row inputs (N.of_nat (length inputs)) i v key =
       N.testbit i (N.of_nat (length inputs) - j - 1)) \/
  ((forall t, t ∈ inputs -> key <> InTerm t) /\
   set_row inputs (N.of_nat (length inputs)) i v key = v key).
Proof.
  intros Hnd. unfold set_row. destruct (decide (key ∈ InTerm <$> inputs)) as [Hin|Hout].
  - left. apply list_elem_of_fmap in Hin as (t & -> & [j Hj]%list_elem_of_lookup_1).
    exists (N.of_nat j), t. rewrite Nat2N.id. split_and!; [done..|].
    rewrite (set_row_steps _ _ _ _ _ (N.of_nat j) t) by (rewrite ?Nat2N.id; done).
    rewrite (proj2 (N.ltb_lt _ _)); [done|]. apply lookup_lt_Some in Hj. lia.
  - right. assert (forall t, t ∈ inputs -> key <> InTerm t) as Hkey.
    { intros t Ht ->. apply Hout, list_elem_of_fmap. eauto. }
    split; [done|]. by apply set_row_other.
Qed.

Section rows.
Context (root : node) (inputs : list term) (v0 : values).
Context (Hroot : wf_node root) (Hnd : NoDup inputs).
Context (Hleaves : forall t, InTerm t ∈ leaves root -> t ∈ inputs).
#[local] Notation n := (N.of_nat (length inputs)).

Definition agree (v : values) : Prop :=
  forall key, (forall t, t ∈ inputs -> key <> InTerm t) -> v key = v0 key.
Definition row_value (i : N) : bool := node_eval (set_row inputs n i v0) root.

Lemma agree_set_row v i : agree v -> agree (set_row inputs n i v).
Proof using Hnd.
  intros Hv key Hkey. destruct (set_row_spec inputs i v key Hnd) as [(j & t & Hj & -> & _)|[_ ->]].
  - exfalso. eapply Hkey; [|done]. by eapply list_elem_of_lookup_2.
  - by apply Hv.
Qed.

Lemma row_value_agree v i : agree v -> node_eval (set_row inputs n i v) root = row_value i.
Proof using Hroot Hnd.
  intros Hv. apply node_eval_ext; [done|]. intros key _.
  assert (set_row inputs n i v key = set_row inputs n i v0 key) as Heq; [|by destruct key].
  destruct (set_row_spec inputs i v key Hnd) as [(j & t & Hj & -> & ->)|[Hkey ->]].
  - destruct (set_row_spec inputs i v0 (InTerm t) Hnd) as [(j' & t' & Hj' & [= <-] & ->)|[Hkey _]].
    + by rewrite (NoDup_lookup _ _ _ _ Hnd Hj Hj') in * |- * || (do 3 f_equal;
        pose proof (NoDup_lookup _ _ _ _ Hnd Hj Hj'); lia).
    + exfalso. eapply Hkey; [|done]. by eapply list_elem_of_lookup_2.
  - rewrite (Hv _ Hkey).
    destruct (set_row_spec inputs i v0 key Hnd) as [(j' & t' & Hj' & -> & _)|[_ ->]]; [|done].
    exfalso. eapply Hkey; [|done]. by eapply list_elem_of_lookup_2.
Qed.

Lemma mask_loop v m :
  agree v ->
  exists v' M, foldl (mask_step (as_root root) inputs n) (Ret (v, 0)) (upto m) = Ret (v', M) /\
    agree v' /\ forall j, N.testbit M j = bool_decide (j < m) && row_value j.
Proof using Hroot Hnd.
  intros Hv. induction m as [|m IH] using N.peano_ind.
  - exists v, 0. split_and!; [done..|]. intros j. by rewrite N.bits_0, bool_decide_eq_false_2 by lia.
  - destruct IH as (v' & M & Hf & Hv' & HM). rewrite upto_succ, foldl_app, Hf. cbn [foldl].
    unfold mask_step. cbn [mbind outcome_bind]. rewrite getValue_root by done.
    cbn [mbind outcome_bind]. rewrite row_value_agree by done.
    exists (set_row inputs n m v'), (N.lor M (N.shiftl (N.b2n (row_value m)) m)).
    split_and!; [done|by apply agree_set_row|]. intros j.
    change (N.lor M (N.shiftl (N.b2n (row_value m)) m)) with (set_bit_if row_value M m).
    rewrite testbit_set_bit_if, HM. repeat case_bool_decide; subst; try lia; cbn; try done; btauto.
Qed.

Lemma vector_loop v m len :
  agree v -> m <= N.of_nat len ->
  exists v' L, foldl (vector_step (as_root root) inputs n) (Ret (v, replicate len false)) (upto m)
      = Ret (v', L) /\ agree v' /\ length L = len /\
    forall j, default false (L !! N.to_nat j) = bool_decide (j < m) && row_value j.
Proof using Hroot Hnd.
  intros Hv. induction m as [|m IH] using N.peano_ind; intros Hm.
  - exists v, (replicate len false). split_and!; [done..|by rewrite length_replicate|]. intros j.
    rewrite bool_decide_eq_false_2 by lia. destruct (replicate len false !! N.to_nat j) eqn:E; [|done].
    by apply lookup_replicate in E as [-> _].
  - destruct IH as (v' & L & Hf & Hv' & Hlen & HL); [lia|]. rewrite upto_succ, foldl_app, Hf.
    cbn [foldl]. unfold vector_step. cbn [mbind outcome_bind]. rewrite getValue_root by done.
    cbn [mbind outcome_bind]. rewrite row_value_agree by done.
    eexists _, _. split; [done|]. split_and!; [by apply agree_set_row|by rewrite length_insert|].
    intros j. destruct (decide (j = m)) as [->|Hne].
    + rewrite list_lookup_insert_eq by lia. by rewrite bool_decide_eq_true_2 by lia.
    + rewrite list_lookup_insert_ne, HL by lia. repeat case_bool_decide; (lia || done).
Qed.

(** Row by row, the table is the function of the tree. *)
Lemma row_value_eval (sigma : term -> bool) :
  row_value (index_of (fun k => sigma (nth (N.to_nat (n - 1 - k)) inputs 0)) n) =
    node_eval (fun i => match i with InTerm t => sigma t | _ => v0 i end) root.
Proof using Hroot Hnd Hleaves.
  apply node_eval_ext; [done|]. intros key Hkey.
  set (i := index_of _ _).
  destruct (set_row_spec inputs i v0 key Hnd) as [(j & t & Hj & -> & Hval)|[Hkey' Hval]].
  - cbn. rewrite Hval. unfold i. rewrite testbit_index_of. pose proof (lookup_lt_Some _ _ _ Hj).
    rewrite bool_decide_eq_true_2 by lia. cbn [andb]. f_equal.
    replace (N.to_nat (n - 1 - (n - j - 1))) with (N.to_nat j) by lia. by apply nth_lookup_N.
  - destruct key as [t|s inv|b]; cbn; [|done..]. exfalso. by eapply Hkey'; [apply Hleaves|].
Qed.

End rows.

(** * The truth table *)

(** A list of positions encodes at most as many as it has. *)
Lemma count_encode_blocks ps :
  countBitsForVector (encode_blocks ps) <= N.of_nat (length ps).
Proof.
  rewrite countBitsForVector_positions.
  assert (length (positions (encode_blocks ps)) <= length ps)%nat; [|lia].
  apply submseteq_length, NoDup_submseteq; [apply NoDup_positions|].
  intros i Hi%elem_of_positions. by rewrite dep_bit_encode_blocks, bool_decide_eq_true in Hi.
Qed.

Lemma check_dependencies_encoded n ps :
  n = N.of_nat (length ps) -> check_dependencies n (encode_blocks ps) = Ret tt.
Proof.
  intros ->. unfold check_dependencies. apply require_Ret. pose proof (count_encode_blocks ps).
  rewrite (proj2 (N.ltb_ge _ (countBitsForVector _))) by done. by rewrite andb_false_r.
Qed.

Lemma clear_inputs_agree inputs v : agree inputs v (foldl (fun v t => setValue v t false) v inputs).
Proof.
  assert (forall l v', l ⊆ inputs -> agree inputs v v' ->
    agree inputs v (foldl (fun v t => setValue v t false) v' l)) as H.
  { induction l as [|t l IH]; intros v' Hl Hv'; [done|]. cbn. apply IH; [set_solver|].
    intros key Hkey. unfold setValue. rewrite bool_decide_eq_false_2 by (apply Hkey; set_solver).
    by apply Hv'. }
  by apply H.
Qed.

(** The table of rows that the two loops produce. *)
Definition rows_table (n : N) (bits : NLBitVecDynamic) (deps : list N) : SNLTruthTable :=
  tt_plain n bits deps NONE.

Lemma getTruthTable_rows orderID tree v terms root :
  root_ tree = Some (as_root root) -> wf_node root -> NoDup terms ->
  (forall t, t ∈ inputs_ tree -> t ∈ terms) ->
  let inputs := filter (fun t => t ∈ inputs_ tree) terms in
  let n := N.of_nat (length inputs) in
  n < 31 ->
  exists bits, getTruthTable orderID tree v terms =
      Ret (rows_table n bits (encode_blocks (orderID <$> inputs))) /\
    bitvec_wf bits /\ nbits_ bits = 2 ^ n /\
    forall j, j < 2 ^ n -> bitvec_get bits j = row_value root inputs v j.
Proof.
  intros Hr Hwf Hnd Hin inputs n Hn. unfold getTruthTable. rewrite Hr. cbv zeta.
  assert (forallb (fun t => bool_decide (t ∈ terms)) (inputs_ tree) = true) as ->.
  { apply forallb_forall. intros t Ht%list_elem_of_In. apply bool_decide_eq_true. by apply Hin. }
  cbn [require mbind outcome_bind]. fold inputs. fold n.
  assert (NoDup inputs) as Hni by (by apply NoDup_filter).
  pose proof (clear_inputs_agree inputs v) as Hv. set (v1 := foldl _ v inputs) in *.
  assert (n = N.of_nat (length (orderID <$> inputs))) as Hlen by (by rewrite length_fmap).
  destruct (N.ltb_spec 6 n) as [H6|H6].
  - rewrite (proj2 (N.ltb_lt n 31)) by done. cbn [defined mbind outcome_bind].
    destruct (vector_loop root inputs v Hwf Hni v1 (2 ^ n) (N.to_nat (2 ^ n)) Hv) as
      (v' & L & Hf & _ & HL & Hval); [lia|]. fold n in Hf. rewrite Hf. cbn [mbind outcome_bind snd].
    rewrite encodeBits_Ret. cbn [mbind outcome_bind].
    exists (mkBitVec (2 ^ n) (Vec L)).
    assert (64 < 2 ^ n) as H64 by (change 64 with (2 ^ 6); apply N.pow_lt_mono_r; lia).
    split_and!; [|cbn; split; [done|lia]|done|].
    + unfold tt_vector. rewrite (proj2 (N.leb_gt _ _)), (proj2 (N.ltb_lt n 32)) by lia.
      cbn [defined mbind outcome_bind]. unfold bitvec_of_vector.
      rewrite N.shiftl_1_l, (proj2 (N.ltb_lt _ _)) by done. cbn [mbind outcome_bind].
      by rewrite check_dependencies_encoded.
    + intros j Hj. unfold bitvec_get. cbn. by rewrite Hval, bool_decide_eq_true_2.
  - destruct (mask_loop root inputs v Hwf Hni v1 (2 ^ n) Hv) as (v' & M & Hf & _ & Hval).
    fold n in Hf. rewrite Hf. cbn [mbind outcome_bind snd]. rewrite encodeBits_Ret. cbn [mbind outcome_bind].
    exists (mkBitVec (2 ^ n) (Mask M)).
    assert (2 ^ n <= 64) as H64 by (change 64 with (2 ^ 6); by apply N.pow_le_mono_r).
    split_and!; [|cbn; split; [done|]|done|].
    + unfold tt_mask. rewrite (proj2 (N.ltb_ge _ _)) by done. unfold bitvec_of_mask.
      rewrite N.shiftl_1_l, (proj2 (N.leb_le _ _)) by done. cbn [mbind outcome_bind].
      by rewrite check_dependencies_encoded.
    + apply lt_pow2_testbit. intros i Hi. rewrite Hval, bool_decide_eq_false_2 by lia. done.
    + intros j Hj. unfold bitvec_get. cbn. by rewrite Hval, bool_decide_eq_true_2.
Qed.

(** The terms a parsed tree holds are the leaves of its root. *)
Lemma parsed_inputs primitive s sids aliases tree :
  parse primitive tree_default s sids aliases = Ret tree ->
  exists root, root_ tree = Some (as_root root) /\ wf_node root /\
    forall t, t ∈ inputs_ tree <-> InTerm t ∈ leaves root.
Proof.
  intros (ts & tree1 & st & n & Hs & Hr & Hd & ->)%parse_Ret. exists n.
  assert (covers st ([] ++ ts)) as Hc
    by (eapply run_covers; [by eapply scans_tokens|done|constructor]).
  apply (reduce_all_covers _ _ _ _ Hd), covers_lvl_inv in Hc as (us & vs & Hts & Hnil & Hder).
  inversion Hnil; subst us. cbn in Hts. subst vs.
  split_and!; [done|by eapply derives_wf|]. intros t. cbn [with_root inputs_].
  rewrite (scans_inputs _ _ _ _ _ t Hs), (derives_leaves _ _ _ _ Hder). cbn. set_solver.
Qed.

(** For a parsed expression and any duplicate-free list of terms that holds
    the terms the expression uses (at most 30), [getTruthTable] returns a table
    over those terms in the given order, the first one the most significant row
    bit; its rows are the expression's values, the states at their stored value,
    and its dependencies are the terms' order identifiers. *)
Theorem getTruthTable_spec primitive s sids aliases tree orderID v terms :
  parse primitive tree_default s sids aliases = Ret tree ->
  NoDup terms -> (forall t, t ∈ inputs_ tree -> t ∈ terms) ->
  let inputs := filter (fun t => t ∈ inputs_ tree) terms in
  let n := N.of_nat (length inputs) in
  n < 31 ->
  exists root t, root_ tree = Some (as_root root) /\ getTruthTable orderID tree v terms = Ret t /\
    size_ t = n /\ (forall i, dep_bit (dependencies_ t) i = true <-> i ∈ orderID <$> inputs) /\
    forall sigma, tt_eval t (fun k => sigma (nth (N.to_nat (n - 1 - k)) inputs 0)) =
      node_eval (fun i => match i with InTerm t => sigma t | _ => v i end) root.
Proof.
  intros Hp Hnd Hin inputs n Hn.
  destruct (parsed_inputs _ _ _ _ _ Hp) as (root & Hroot & Hwf & Hl).
  destruct (getTruthTable_rows orderID tree v terms root Hroot Hwf Hnd Hin Hn) as
    (bits & Ht & Hbits & Hnb & Hget).
  exists root. eexists. split_and!; [done|exact Ht|done| |].
  - intros i. cbn. by rewrite dep_bit_encode_blocks, bool_decide_eq_true.
  - intros sigma. unfold tt_eval. cbn [rows_table tt_plain genericType_ bits_ size_].
    fold inputs. fold n. rewrite Hget by apply index_of_lt.
    apply row_value_eval; [done|by apply NoDup_filter|].
    intros t Htl. apply list_elem_of_filter. split; [by apply Hl|]. by apply Hin, Hl.
Qed.

Lemma getTruthTable_witness :
  let cell : scalar_terms := {["A" := 1%N; "B" := 2%N]} in
  exists tree, parse cell tree_default "A + !(B A')" ∅ ∅ = Ret tree /\
    let inputs := filter (fun t => t ∈ inputs_ tree) [1; 2; 3] in
    let n := N.of_nat (length inputs) in
    exists root t, root_ tree = Some (as_root root) /\
      getTruthTable id tree (fun _ => false) [1; 2; 3] = Ret t /\ size_ t = n /\
      (forall i, dep_bit (dependencies_ t) i = true <-> i ∈ id <$> inputs) /\
      forall sigma, tt_eval t (fun k => sigma (nth (N.to_nat (n - 1 - k)) inputs 0)) =
        node_eval (fun i => match i with InTerm t => sigma t | _ => false end) root.
Proof.
  intros cell. eexists. split; [vm_compute; reflexivity|].
  apply (getTruthTable_spec cell "A + !(B A')" ∅ ∅ _ id (fun _ => false) [1; 2; 3]).
  - vm_compute. reflexivity.
  - apply (bool_decide_unpack _). by vm_compute.
  - intros t Ht. cbn in Ht. set_solver.
  - by vm_compute.
Defined.

(** * The expression *)

Section expression.
Context (sigma : term -> bool) (states : N -> bool).

(** The value of a node, given those of the earlier nodes. *)
Definition expr_node (vals : list bool) (n : Expression.Node) : bool :=
  let ops := (fun o => nth o vals false) <$> Expression.operands n in
  match Expression.operation n with
  | Expression.Constant => Expression.constant n
  | Expression.Term => sigma (default 0 (Expression.node_term n))
  | Expression.State => states (Expression.state n)
  | Expression.Not => negb (existsb id ops)
  | Expression.And => forallb id ops
  | Expression.Or => existsb id ops
  | Expression.Xor => foldr xorb false ops
  end.
Definition expr_values (ns : list Expression.Node) : list bool :=
  foldl (fun vals n => vals ++ [expr_node vals n]) [] ns.
Definition expr_eval (e : Expression.BooleanExpression) : bool :=
  nth (Expression.root e) (expr_values (Expression.nodes e)) false.

(** The tree's inputs under the same terms and states. *)
Definition expr_inputs (i : input_node) : bool :=
  match i with
  | InTerm t => sigma t
  | InState s inverted => xorb (states s) inverted
  | InConst b => b
  end.

Lemma expr_values_snoc ns n :
  expr_values (ns ++ [n]) = expr_values ns ++ [expr_node (expr_values ns) n].
Proof. unfold expr_values. by rewrite foldl_app. Qed.

Lemma length_expr_values ns : length (expr_values ns) = length ns.
Proof.
  induction ns as [|n ns IH] using rev_ind; [done|].
  rewrite expr_values_snoc, !length_app, IH. done.
Qed.

Lemma expr_values_app ns ns' i :
  (i < length ns)%nat -> nth i (expr_values (ns ++ ns')) false = nth i (expr_values ns) false.
Proof.
  intros Hi. induction ns' as [|n ns' IH] using rev_ind; [by rewrite app_nil_r|].
  rewrite app_assoc, expr_values_snoc, app_nth1; [done|].
  rewrite length_expr_values, length_app. lia.
Qed.

Context (terms : list term) (nstates : N).
Definition leaf_ok (i : input_node) : Prop :=
  match i with
  | InTerm t => t ∈ terms
  | InState s _ => s < nstates
  | InConst _ => True
  end.

(** Appending to [ns] gave the identifier of a node with the value [b], and
    only valid nodes were added. *)
Definition appended (ns : list Expression.Node) (b : bool) (r : nat * list Expression.Node) : Prop :=
  exists new, r.2 = ns ++ new /\ (r.1 < length r.2)%nat /\
    Expression.validateNodes terms nstates (length ns) new = Ret tt /\
    nth r.1 (expr_values r.2) false = b.

Lemma validateNodes_app i ns ns' :
  Expression.validateNodes terms nstates i (ns ++ ns') =
    (_ ← Expression.validateNodes terms nstates i ns;
     Expression.validateNodes terms nstates (i + length ns) ns').
Proof.
  revert i. induction ns as [|n ns IH]; intros i; cbn.
  - by rewrite Nat.add_0_r.
  - destruct (Expression.validateNode _ _ _ _); cbn; [|done..]. by rewrite IH, Nat.add_succ_r.
Qed.

Lemma validateNode_single i n :
  Expression.validateNode terms nstates i n = Ret tt ->
  Expression.validateNodes terms nstates i [n] = Ret tt.
Proof. intros H. cbn. by rewrite H. Qed.

(** One node added after [ns]. *)
Lemma add_appended ns n b :
  Expression.validateNode terms nstates (length ns) n = Ret tt ->
  expr_node (expr_values ns) n = b -> appended ns b (Expression.add ns n).
Proof.
  intros Hv Hb. exists [n]. cbn. rewrite length_app. cbn. split_and!; [done|lia| |].
  - by apply validateNode_single.
  - rewrite expr_values_snoc, app_nth2 by (rewrite length_expr_values; lia).
    by rewrite length_expr_values, Nat.sub_diag.
Qed.

Lemma appended_trans ns b r r' b' :
  appended ns b r -> appended r.2 b' r' -> appended ns b' r' /\
    nth r.1 (expr_values r'.2) false = b /\ (r.1 < length r'.2)%nat.
Proof.
  intros (new & Hr & Hlt & Hv & Hb) (new' & Hr' & Hlt' & Hv' & Hb').
  rewrite Hr in Hr', Hv'. split_and!.
  - exists (new ++ new'). rewrite app_assoc. split_and!; [done..| |done].
    rewrite validateNodes_app, Hv. cbn. by rewrite length_app in Hv'.
  - rewrite Hr', <- Hr, expr_values_app; done.
  - rewrite Hr', length_app, <- Hr. lia.
Qed.

(** Evaluates the checks of a node whose operands are known. *)
Ltac valid_node :=
  unfold Expression.validateNode; cbn [Expression.operation Expression.constant
    Expression.node_term Expression.state Expression.operands Expression.expectedOperands
    length forallb];
  decide_guards; cbn.

Lemma input_appended i ns : leaf_ok i -> appended ns (expr_inputs i) (appendInput i ns).
Proof.
  intros Hi. destruct i as [t|s inv|b]; cbn [appendInput leaf_ok expr_inputs] in *.
  - apply add_appended; [|done]. by valid_node.
  - assert (appended ns (states s) (Expression.addState ns s)) as Hs.
    { apply add_appended; [|done]. valid_node. by rewrite (proj2 (N.ltb_lt _ _)). }
    destruct (Expression.addState ns s) as [id ns1] eqn:E. destruct inv; [|by rewrite xorb_false_r].
    eapply appended_trans; [exact Hs|]. cbn [snd].
    destruct Hs as (new & Hn & Hlt & _ & Hb). cbn [fst snd] in *.
    apply add_appended.
    + by valid_node.
    + unfold expr_node. cbn. rewrite Hb. cbn. rewrite orb_false_r, xorb_true_r. done.
  - apply add_appended; [|done]. by valid_node.
Qed.

Lemma appendNode_spec n ns :
  wf_node n -> (forall i, i ∈ leaves n -> leaf_ok i) ->
  exists r, appendNode n ns = Ret r /\ appended ns (node_eval expr_inputs n) r.
Proof.
  intros Hn. revert ns. induction Hn as [i|n Hn IH|f a b Hf Ha IHa Hb IHb]; intros ns Hl.
  - exists (appendInput i ns). split; [done|].
    replace (node_eval expr_inputs (Input i)) with (expr_inputs i) by (by destruct i).
    apply input_appended, Hl. by left.
  - destruct (IH ns) as ([o ns1] & Hr & Hap); [intros i Hi; apply Hl; cbn; by rewrite app_nil_r|].
    eexists. split; [cbn; rewrite Hr; reflexivity|]. cbn [fst snd].
    eapply appended_trans; [exact Hap|]. destruct Hap as (new & Hn1 & Hlt & _ & Hb). cbn [fst snd] in *.
    apply add_appended.
    + by valid_node.
    + unfold expr_node. cbn. by rewrite Hb.
  - destruct (IHa ns) as ([oa ns1] & Hra & Hapa); [intros i Hi; apply Hl; cbn; set_solver|].
    destruct (IHb ns1) as ([ob ns2] & Hrb & Hapb); [intros i Hi; apply Hl; cbn; set_solver|].
    destruct (appended_trans _ _ _ _ _ Hapa Hapb) as (Hap & Hva & Hlta).
    pose proof Hap as (new & Hn2 & Hltb & _ & Hvb). cbn [fst snd] in *.
    exists (Expression.addOperation ns2 (match f with
      | FAND => Expression.And | FOR => Expression.Or | _ => Expression.Xor end) [oa; ob]).
    split; [cbn; rewrite Hra; cbn; rewrite Hrb; by destruct Hf as [->|[->| ->]]|].
    eapply appended_trans; [exact Hap|]. cbn [snd]. apply add_appended.
    + destruct Hf as [->|[->| ->]]; by valid_node.
    + unfold expr_node. by destruct Hf as [->|[->| ->]]; cbn; rewrite Hva, Hvb; cbn.
Qed.

Lemma appendNode_root n ns :
  appendNode (as_root n) ns = appendNode n ns.
Proof. destruct n as [i|f l]; [|done]. cbn. by destruct (appendInput i ns). Qed.

End expression.

(** C14. The expression of a parsed tree passes the checks sequential models make
    (the root and every operand in range, operands before their node, the arity
    of each operator, terms of the cell, known states) when the tree's terms
    belong to the cell and its states exist, and it evaluates as the tree does. *)
Theorem getBooleanExpression_spec primitive s sids aliases tree terms nstates :
  parse primitive tree_default s sids aliases = Ret tree ->
  exists root, root_ tree = Some (as_root root) /\
    ((forall i, i ∈ leaves root -> leaf_ok terms nstates i) ->
     exists e, getBooleanExpression tree = Ret e /\
       Expression.validateExpression terms nstates e = Ret tt /\
       forall sigma states, expr_eval sigma states e = node_eval (expr_inputs sigma states) root).
Proof.
  intros Hp. destruct (parsed_inputs _ _ _ _ _ Hp) as (root & Hroot & Hwf & _).
  exists root. split; [done|]. intros Hl. unfold getBooleanExpression. rewrite Hroot.
  assert (exists r, appendNode root [] = Ret r) as [[id ns] Hr].
  { destruct (appendNode_spec (fun _ => false) (fun _ => false) terms nstates root [] Hwf Hl)
      as (r & Hr & _). eauto. }
  rewrite appendNode_root, Hr. cbn [mbind outcome_bind]. eexists. split; [done|].
  assert (forall sigma states, appended sigma states terms nstates []
    (node_eval (expr_inputs sigma states) root) (id, ns)) as Hap.
  { intros sigma states. destruct (appendNode_spec sigma states terms nstates root [] Hwf Hl)
      as (r & Hr' & Hap). rewrite Hr in Hr'. by injection Hr' as <-. }
  split.
  - destruct (Hap (fun _ => false) (fun _ => false)) as (new & Hns & Hlt & Hv & _).
    cbn [fst snd app] in *. subst ns. unfold Expression.validateExpression, Expression.isValid.
    cbn. by rewrite bool_decide_eq_true_2.
  - intros sigma states. by destruct (Hap sigma states) as (new & _ & _ & _ & Hb).
Qed.

Lemma getBooleanExpression_witness :
  let cell : scalar_terms := {["D" := 1%N]} in
  let sids : gmap string (N * bool) := {["IQ" := (0%N, false); "IQN" := (0%N, true)]} in
  exists tree, parse cell tree_default "D ^ IQN" sids ∅ = Ret tree /\
    exists root, root_ tree = Some (as_root root) /\
    ((forall i, i ∈ leaves root -> leaf_ok [1] 1 i) ->
     exists e, getBooleanExpression tree = Ret e /\
       Expression.validateExpression [1] 1 e = Ret tt /\
       forall sigma states, expr_eval sigma states e = node_eval (expr_inputs sigma states) root).
Proof.
  intros cell sids. eexists. split; [vm_compute; reflexivity|].
  apply (getBooleanExpression_spec cell "D ^ IQN" sids ∅). vm_compute. reflexivity.
Defined.
