(* ===== verification/TGraph.v ===== *)
(** The timing graph (src/src/tgraph/): nodes, edges, capture edges and clocks
    in vectors with free lists, and the operations of [TGraph]. *)
From S2P Require Import Prelude.
Local Open Scope nat_scope.

(** * Data *)

(** Identifiers are indices of the storage vectors; an invalid identifier is
    [None]. A proxy is an opaque pointer. *)
Notation NodeId := nat (only parsing).
Notation EdgeId := nat (only parsing).
Notation ClockId := nat (only parsing).
Notation proxy := N (only parsing).

Inductive CellKind := Combinational | FlipFlop | Latch | UnknownCell.
#[export] Instance cell_kind_eq_dec : EqDecision CellKind.
Proof. solve_decision. Defined.

Inductive PinRole :=
| UnknownPin | DataInput | DataOutput | ClockPin | Gate | Enable
| SyncReset | SyncSet | AsyncReset | AsyncSet.
#[export] Instance pin_role_eq_dec : EqDecision PinRole.
Proof. solve_decision. Defined.

Record TNode := mkNode {
  n_index : nat;
  n_alive : bool;
  cellKind : CellKind;
  pinRole : PinRole;
  n_proxy : option proxy;
  inEdges : list EdgeId;
  outEdges : list EdgeId;
  captureInEdges : list EdgeId;
  captureOutEdges : list EdgeId }.

(** [boost::dynamic_bitset]: bit [i] is clock [i]. *)
Notation ClockMask := (list bool) (only parsing).

Record TEdge := mkEdge {
  e_index : nat;
  e_source : NodeId;
  e_target : NodeId;
  e_alive : bool;
  e_proxy : option proxy;
  fromClocks : ClockMask;
  toClocks : ClockMask;
  disabled : bool }.

Record TCaptureEdge := mkCapture {
  c_index : nat;
  c_source : NodeId;
  c_target : NodeId;
  c_alive : bool }.

Record TClock := mkClock {
  clock_index : ClockId;
  clock_name : string;
  clock_target : N;
  clock_node : NodeId }.

(** The free lists keep their last pushed identifier first. *)
Record TGraph := mkGraph {
  nodes : list TNode;
  edges : list TEdge;
  captureEdges : list TCaptureEdge;
  freeNodes : list NodeId;
  freeEdges : list EdgeId;
  freeCaptureEdges : list EdgeId;
  clocks : list TClock;
  liveNodes : nat;
  liveEdges : nat;
  liveCaptureEdges : nat }.

Definition graph_default : TGraph := mkGraph [] [] [] [] [] [] [] 0 0 0.

(** * Nodes and edges *)

(** [create] and [reset]: both leave the node in this state. *)
Definition node_create (index : nat) (p : option proxy) : TNode :=
  mkNode index true UnknownCell UnknownPin p [] [] [] [].
Definition node_deactivate (n : TNode) : TNode :=
  mkNode (n_index n) false UnknownCell UnknownPin None [] [] [] [].

Definition setCellKind (kind : CellKind) (n : TNode) : TNode :=
  mkNode (n_index n) (n_alive n) kind (pinRole n) (n_proxy n) (inEdges n) (outEdges n)
    (captureInEdges n) (captureOutEdges n).
Definition setPinRole (role : PinRole) (n : TNode) : TNode :=
  mkNode (n_index n) (n_alive n) (cellKind n) role (n_proxy n) (inEdges n) (outEdges n)
    (captureInEdges n) (captureOutEdges n).

Definition isFlipFlop (n : TNode) : bool := bool_decide (cellKind n = FlipFlop).
Definition isLatch (n : TNode) : bool := bool_decide (cellKind n = Latch).
Definition isFlopDataOutput (n : TNode) : bool :=
  isFlipFlop n && bool_decide (pinRole n = DataOutput).

Definition with_out (f : list EdgeId -> list EdgeId) (n : TNode) : TNode :=
  mkNode (n_index n) (n_alive n) (cellKind n) (pinRole n) (n_proxy n) (inEdges n)
    (f (outEdges n)) (captureInEdges n) (captureOutEdges n).
Definition with_in (f : list EdgeId -> list EdgeId) (n : TNode) : TNode :=
  mkNode (n_index n) (n_alive n) (cellKind n) (pinRole n) (n_proxy n) (f (inEdges n))
    (outEdges n) (captureInEdges n) (captureOutEdges n).
Definition with_capture_out (f : list EdgeId -> list EdgeId) (n : TNode) : TNode :=
  mkNode (n_index n) (n_alive n) (cellKind n) (pinRole n) (n_proxy n) (inEdges n)
    (outEdges n) (captureInEdges n) (f (captureOutEdges n)).
Definition with_capture_in (f : list EdgeId -> list EdgeId) (n : TNode) : TNode :=
  mkNode (n_index n) (n_alive n) (cellKind n) (pinRole n) (n_proxy n) (inEdges n)
    (outEdges n) (f (captureInEdges n)) (captureOutEdges n).

(** [eraseEdgeId]: the first occurrence takes the last element's value, and the
    vector loses its last element. *)
Definition eraseEdgeId (edge : EdgeId) (es : list EdgeId) : list EdgeId :=
  match list_find (edge =.) es with
  | Some (i, _) => removelast (<[i := default 0 (last es)]> es)
  | None => es
  end.

Definition addOutEdge (edge : EdgeId) : TNode -> TNode := with_out (fun l => l ++ [edge]).
Definition addInEdge (edge : EdgeId) : TNode -> TNode := with_in (fun l => l ++ [edge]).
Definition removeOutEdge (edge : EdgeId) : TNode -> TNode := with_out (eraseEdgeId edge).
Definition removeInEdge (edge : EdgeId) : TNode -> TNode := with_in (eraseEdgeId edge).
Definition addCaptureOutEdge (edge : EdgeId) : TNode -> TNode :=
  with_capture_out (fun l => l ++ [edge]).
Definition addCaptureInEdge (edge : EdgeId) : TNode -> TNode :=
  with_capture_in (fun l => l ++ [edge]).
Definition removeCaptureOutEdge (edge : EdgeId) : TNode -> TNode := with_capture_out (eraseEdgeId edge).
Definition removeCaptureInEdge (edge : EdgeId) : TNode -> TNode := with_capture_in (eraseEdgeId edge).

Definition edge_create (index : nat) (source target : NodeId) (p : option proxy) : TEdge :=
  mkEdge index source target true p [] [] false.
Definition edge_deactivate (e : TEdge) : TEdge :=
  mkEdge (e_index e) (e_source e) (e_target e) false None [] [] false.

(** [dynamic_bitset::resize]: new bits are zero. *)
Definition mask_resize (count : nat) (m : ClockMask) : ClockMask := resize count false m.
Definition resizeClockMasks (count : nat) (e : TEdge) : TEdge :=
  mkEdge (e_index e) (e_source e) (e_target e) (e_alive e) (e_proxy e)
    (mask_resize count (fromClocks e)) (mask_resize count (toClocks e)) (disabled e).
Definition setFromClocks (m : ClockMask) (e : TEdge) : TEdge :=
  mkEdge (e_index e) (e_source e) (e_target e) (e_alive e) (e_proxy e) m (toClocks e) (disabled e).
Definition setToClocks (m : ClockMask) (e : TEdge) : TEdge :=
  mkEdge (e_index e) (e_source e) (e_target e) (e_alive e) (e_proxy e) (fromClocks e) m (disabled e).
Definition setDisabled (b : bool) (e : TEdge) : TEdge :=
  mkEdge (e_index e) (e_source e) (e_target e) (e_alive e) (e_proxy e)
    (fromClocks e) (toClocks e) b.
Definition hasFromClock (e : TEdge) (clock : ClockId) : bool := default false (fromClocks e !! clock).
Definition hasToClock (e : TEdge) (clock : ClockId) : bool := default false (toClocks e !! clock).
Definition hasClockCrossing (e : TEdge) : bool := bool_decide (fromClocks e <> toClocks e).

Definition capture_create (index : nat) (source target : NodeId) : TCaptureEdge :=
  mkCapture index source target true.
Definition capture_deactivate (c : TCaptureEdge) : TCaptureEdge :=
  mkCapture (c_index c) (c_source c) (c_target c) false.

(** * The graph *)

Definition isNodeValid (g : TGraph) (n : NodeId) : bool :=
  match nodes g !! n with Some r => n_alive r | None => false end.
Definition isEdgeValid (g : TGraph) (e : EdgeId) : bool :=
  match edges g !! e with Some r => e_alive r | None => false end.
Definition isCaptureEdgeValid (g : TGraph) (e : EdgeId) : bool :=
  match captureEdges g !! e with Some r => c_alive r | None => false end.
Definition isClockValid (g : TGraph) (c : ClockId) : bool := c <? length (clocks g).

Definition getNode (g : TGraph) (n : NodeId) : option TNode :=
  if isNodeValid g n then nodes g !! n else None.
Definition getEdge (g : TGraph) (e : EdgeId) : option TEdge :=
  if isEdgeValid g e then edges g !! e else None.
Definition getCaptureEdge (g : TGraph) (e : EdgeId) : option TCaptureEdge :=
  if isCaptureEdgeValid g e then captureEdges g !! e else None.
Definition getClock (g : TGraph) (c : ClockId) : option TClock := clocks g !! c.

Definition set_nodes (f : list TNode -> list TNode) (g : TGraph) : TGraph :=
  mkGraph (f (nodes g)) (edges g) (captureEdges g) (freeNodes g) (freeEdges g)
    (freeCaptureEdges g) (clocks g) (liveNodes g) (liveEdges g) (liveCaptureEdges g).
Definition set_edges (f : list TEdge -> list TEdge) (g : TGraph) : TGraph :=
  mkGraph (nodes g) (f (edges g)) (captureEdges g) (freeNodes g) (freeEdges g)
    (freeCaptureEdges g) (clocks g) (liveNodes g) (liveEdges g) (liveCaptureEdges g).

(** Accesses by index are written without a range check: the invariant of the
    graph keeps free identifiers and the ends of live edges in range. *)

(** A new identifier: the last one freed, whose slot is reset, or the next
    index of the vector. *)
Definition allocate {A} (free : list nat) (store : list A) (make : nat -> A)
    : nat * list A * list nat :=
  match free with
  | id :: free => (id, <[id := make id]> store, free)
  | [] => let id := length store in (id, store ++ [make id], [])
  end.

Definition createNode (g : TGraph) (p : option proxy) : NodeId * TGraph :=
  let '(id, ns, free) := allocate (freeNodes g) (nodes g) (fun id => node_create id p) in
  (id, mkGraph ns (edges g) (captureEdges g) free (freeEdges g) (freeCaptureEdges g) (clocks g)
         (S (liveNodes g)) (liveEdges g) (liveCaptureEdges g)).

Definition createEdge (g : TGraph) (source target : NodeId) (p : option proxy)
    : option EdgeId * TGraph :=
  if negb (isNodeValid g source) || negb (isNodeValid g target) then (None, g)
  else
    let '(id, es, free) :=
      allocate (freeEdges g) (edges g) (fun id => edge_create id source target p) in
    let es := alter (resizeClockMasks (length (clocks g))) id es in
    let ns := alter (addInEdge id) target (alter (addOutEdge id) source (nodes g)) in
    (Some id, mkGraph ns es (captureEdges g) (freeNodes g) free (freeCaptureEdges g) (clocks g)
                (liveNodes g) (S (liveEdges g)) (liveCaptureEdges g)).

Definition createCaptureEdge (g : TGraph) (source target : NodeId) : option EdgeId * TGraph :=
  if negb (isNodeValid g source) || negb (isNodeValid g target) then (None, g)
  else
    let '(id, cs, free) :=
      allocate (freeCaptureEdges g) (captureEdges g) (fun id => capture_create id source target) in
    let ns := alter (addCaptureInEdge id) target (alter (addCaptureOutEdge id) source (nodes g)) in
    (Some id, mkGraph ns (edges g) cs (freeNodes g) (freeEdges g) free (clocks g)
                (liveNodes g) (liveEdges g) (S (liveCaptureEdges g))).

Definition removeCaptureEdge (g : TGraph) (edge : EdgeId) : bool * TGraph :=
  match getCaptureEdge g edge with
  | None => (false, g)
  | Some r =>
      let ns := alter (removeCaptureInEdge edge) (c_target r)
                  (alter (removeCaptureOutEdge edge) (c_source r) (nodes g)) in
      (true, mkGraph ns (edges g) (alter capture_deactivate edge (captureEdges g)) (freeNodes g)
               (freeEdges g) (edge :: freeCaptureEdges g) (clocks g)
               (liveNodes g) (liveEdges g) (liveCaptureEdges g - 1))
  end.

Definition removeEdge (g : TGraph) (edge : EdgeId) : bool * TGraph :=
  match getEdge g edge with
  | None => (false, g)
  | Some r =>
      let source := e_source r in
      let target := e_target r in
      let ns := if isNodeValid g source then alter (removeOutEdge edge) source (nodes g)
                else nodes g in
      let ns := if isNodeValid g target then alter (removeInEdge edge) target ns else ns in
      (true, mkGraph ns (alter edge_deactivate edge (edges g)) (captureEdges g) (freeNodes g)
               (edge :: freeEdges g) (freeCaptureEdges g) (clocks g)
               (liveNodes g) (liveEdges g - 1) (liveCaptureEdges g))
  end.

(** The four lists are copied before any edge is removed. *)
Definition removeNode (g : TGraph) (node : NodeId) : bool * TGraph :=
  match getNode g node with
  | None => (false, g)
  | Some r =>
      let g := foldl (fun g e => (removeCaptureEdge g e).2) g (captureOutEdges r) in
      let g := foldl (fun g e => (removeCaptureEdge g e).2) g (captureInEdges r) in
      let g := foldl (fun g e => (removeEdge g e).2) g (outEdges r) in
      let g := foldl (fun g e => (removeEdge g e).2) g (inEdges r) in
      (true, mkGraph (alter node_deactivate node (nodes g)) (edges g) (captureEdges g)
               (node :: freeNodes g) (freeEdges g) (freeCaptureEdges g) (clocks g)
               (liveNodes g - 1) (liveEdges g) (liveCaptureEdges g))
  end.

Definition createClock (g : TGraph) (name : string) (target : N) (node : NodeId)
    : outcome (ClockId * TGraph) :=
  _ ← require (isNodeValid g node) "TGraph::createClock: node is not a valid node";
  let id := length (clocks g) in
  let es := (fun e => if e_alive e then resizeClockMasks (S id) e else e) <$> edges g in
  Ret (id, mkGraph (nodes g) es (captureEdges g) (freeNodes g) (freeEdges g)
             (freeCaptureEdges g) (clocks g ++ [mkClock id name target node])
             (liveNodes g) (liveEdges g) (liveCaptureEdges g)).
