(* ===== verification/TGraphInvariant.v ===== *)
(** The invariant of [TGraph], kept by every operation: adjacency lists agree
    with the live edges, free lists hold exactly the dead slots, counters count
    the live ones, and every live edge carries one mask bit per clock. *)
From S2P Require Import Prelude TGraph.
Local Open Scope nat_scope.

(** * Storage with a free list *)

Definition slots_ok (alive : list bool) (free : list nat) (live : nat) : Prop :=
  NoDup free /\ (forall i, i ∈ free <-> alive !! i = Some false) /\
  live = length (filter (fun b : bool => b = true) alive).

Lemma count_insert (l : list bool) i (b b' : bool) :
  l !! i = Some b ->
  length (filter (fun b : bool => b = true) (<[i := b']> l)) + (if b then 1 else 0) =
  length (filter (fun b : bool => b = true) l) + (if b' then 1 else 0).
Proof.
  intros Hi. rewrite <- (take_drop_middle l i b Hi) at 2.
  rewrite insert_take_drop by (by eapply lookup_lt_Some).
  rewrite !filter_app, !length_app, !filter_cons.
  destruct b, b'; repeat case_decide; try congruence; cbn; lia.
Qed.

Lemma slots_push alive live :
  slots_ok alive [] live -> slots_ok (alive ++ [true]) [] (S live).
Proof.
  intros (Hnd & Hfree & Hlive). split_and!; [constructor| |].
  - intros i. split; [by intros ?%not_elem_of_nil|]. intros Hi.
    apply lookup_app_Some in Hi as [Hi|[_ Hi]]; [by apply Hfree|].
    apply list_lookup_singleton_Some in Hi as [_ ?]. done.
  - rewrite filter_app, length_app, <- Hlive, filter_cons_True, filter_nil by done. cbn. lia.
Qed.

Lemma slots_reuse alive i free live :
  slots_ok alive (i :: free) live -> slots_ok (<[i := true]> alive) free (S live).
Proof.
  intros (Hnd & Hfree & Hlive). apply NoDup_cons in Hnd as [Hi Hnd].
  assert (alive !! i = Some false) as Hlook by (apply Hfree; left).
  split_and!; [done| |].
  - intros j. destruct (decide (j = i)) as [->|Hne].
    + rewrite list_lookup_insert_eq by (by eapply lookup_lt_Some). split; [done|by intros [= ]].
    + rewrite list_lookup_insert_ne by done. rewrite <- Hfree, elem_of_cons. naive_solver.
  - pose proof (count_insert _ _ _ true Hlook). cbn in *. lia.
Qed.

Lemma slots_kill alive i free live :
  slots_ok alive free live -> alive !! i = Some true ->
  slots_ok (<[i := false]> alive) (i :: free) (live - 1).
Proof.
  intros (Hnd & Hfree & Hlive) Hi. split_and!.
  - constructor; [|done]. rewrite Hfree. congruence.
  - intros j. rewrite elem_of_cons, Hfree. destruct (decide (j = i)) as [->|Hne].
    + rewrite list_lookup_insert_eq by (by eapply lookup_lt_Some). naive_solver.
    + rewrite list_lookup_insert_ne by done. naive_solver.
  - pose proof (count_insert _ _ _ false Hi). cbn in *. lia.
Qed.

(** A new slot is live, was not, and is the only one that changes. *)
Lemma allocate_spec {A} (al : A -> bool) free (store : list A) live make id store' free' :
  slots_ok (al <$> store) free live ->
  allocate free store make = (id, store', free') -> (forall i, al (make i) = true) ->
  slots_ok (al <$> store') free' (S live) /\ store' !! id = Some (make id) /\
  (al <$> store) !! id <> Some true /\ (forall j, j <> id -> store' !! j = store !! j).
Proof.
  intros Hok Ha Hmake. unfold allocate in Ha. destruct free as [|i free]; injection Ha as <- <- <-.
  - split_and!.
    + rewrite fmap_app. cbn. rewrite Hmake. by apply slots_push.
    + by rewrite lookup_app_r, Nat.sub_diag.
    + rewrite list_lookup_fmap, lookup_ge_None_2; [done|lia].
    + intros j Hj. destruct (Nat.lt_ge_cases j (length store)).
      * by rewrite lookup_app_l.
      * rewrite !lookup_ge_None_2; [done|lia|rewrite length_app; cbn; lia].
  - assert ((al <$> store) !! i = Some false) as Hi by (apply Hok; left).
    assert (i < length store) as Hlt by (apply lookup_lt_Some in Hi; by rewrite length_fmap in Hi).
    split_and!.
    + rewrite list_fmap_insert, Hmake. by apply slots_reuse.
    + by apply list_lookup_insert_eq.
    + congruence.
    + intros j Hj. by apply list_lookup_insert_ne.
Qed.

(** * Adjacency lists *)

Definition links (ends : nat -> option (nat * nat)) (outs ins : nat -> list nat) : Prop :=
  forall n, NoDup (outs n) /\ (forall e, e ∈ outs n <-> exists t, ends e = Some (n, t)) /\
            NoDup (ins n) /\ (forall e, e ∈ ins n <-> exists s, ends e = Some (s, n)).

Lemma removelast_insert_last (l : list nat) y i x :
  (l ++ [y]) !! i = Some x ->
  l ++ [y] ≡ₚ x :: removelast (<[i := y]> (l ++ [y])).
Proof.
  intros Hi. destruct (Nat.lt_ge_cases i (length l)) as [Hlt|Hge].
  - rewrite insert_app_l, removelast_last by done. rewrite lookup_app_l in Hi by done.
    rewrite insert_take_drop by done. rewrite <- (take_drop_middle l i x Hi) at 1.
    rewrite <- !app_assoc. cbn. rewrite <- Permutation_middle. constructor.
    apply Permutation_app_head. by rewrite Permutation_app_comm.
  - assert (i = length l) as ->.
    { apply lookup_lt_Some in Hi. rewrite length_app in Hi. cbn in Hi. lia. }
    rewrite lookup_app_r, Nat.sub_diag in Hi by lia. injection Hi as ->.
    rewrite list_insert_id by (by apply list_lookup_middle).
    rewrite removelast_last. by rewrite Permutation_app_comm.
Qed.

(** Erasing by the swap with the last element loses exactly the edge. *)
Lemma eraseEdgeId_Permutation e l : e ∈ l -> l ≡ₚ e :: eraseEdgeId e l.
Proof.
  intros He. unfold eraseEdgeId. destruct (list_find (e =.) l) as [[i x]|] eqn:E.
  - apply list_find_Some in E as (Hi & <- & _).
    destruct l as [|y l _] using rev_ind; [done|].
    rewrite last_snoc. by apply removelast_insert_last.
  - apply list_find_None in E. eapply Forall_forall in E; [|done]. done.
Qed.

Lemma eraseEdgeId_spec e l :
  NoDup l -> NoDup (eraseEdgeId e l) /\ forall x, x ∈ eraseEdgeId e l <-> x ∈ l /\ x <> e.
Proof.
  intros Hnd. destruct (decide (e ∈ l)) as [He|He].
  - pose proof (eraseEdgeId_Permutation e l He) as Hp. rewrite Hp in Hnd.
    apply NoDup_cons in Hnd as [Hni Hnd]. split; [done|]. intros x.
    rewrite Hp at 2. rewrite elem_of_cons. naive_solver.
  - assert (eraseEdgeId e l = l) as ->.
    { unfold eraseEdgeId. destruct (list_find (e =.) l) as [[i x]|] eqn:E; [|done].
      apply list_find_Some in E as (Hi & <- & _). by apply list_elem_of_lookup_2 in Hi. }
    split; [done|]. naive_solver.
Qed.

Lemma links_add ends outs ins id s t ends' outs' ins' :
  links ends outs ins -> ends id = None ->
  ends' id = Some (s, t) -> (forall e, e <> id -> ends' e = ends e) ->
  (forall n, outs' n = if decide (n = s) then outs n ++ [id] else outs n) ->
  (forall n, ins' n = if decide (n = t) then ins n ++ [id] else ins n) ->
  links ends' outs' ins'.
Proof.
  intros Hl Hid Hid' Hends Houts Hins n. destruct (Hl n) as (Hno & Ho & Hni & Hi).
  assert (id ∉ outs n) as Hout by (rewrite Ho; intros [? ?]; congruence).
  assert (id ∉ ins n) as Hin by (rewrite Hi; intros [? ?]; congruence).
  assert (forall e a b, ends' e = Some (a, b) <->
    ends e = Some (a, b) \/ e = id /\ a = s /\ b = t) as Hiff.
  { intros e a b. destruct (decide (e = id)) as [->|Hne]; [|rewrite Hends by done; naive_solver].
    rewrite Hid, Hid'. naive_solver. }
  rewrite Houts, Hins. setoid_rewrite Hiff. split_and!.
  - case_decide; [|done]. apply NoDup_app. split_and!; [done| |apply NoDup_singleton].
    intros e He ->%list_elem_of_singleton. done.
  - intros e. case_decide; rewrite ?elem_of_app, ?list_elem_of_singleton, Ho; naive_solver.
  - case_decide; [|done]. apply NoDup_app. split_and!; [done| |apply NoDup_singleton].
    intros e He ->%list_elem_of_singleton. done.
  - intros e. case_decide; rewrite ?elem_of_app, ?list_elem_of_singleton, Hi; naive_solver.
Qed.

Lemma links_del ends outs ins id s t ends' outs' ins' :
  links ends outs ins -> ends id = Some (s, t) ->
  ends' id = None -> (forall e, e <> id -> ends' e = ends e) ->
  (forall n, outs' n = if decide (n = s) then eraseEdgeId id (outs n) else outs n) ->
  (forall n, ins' n = if decide (n = t) then eraseEdgeId id (ins n) else ins n) ->
  links ends' outs' ins'.
Proof.
  intros Hl Hid Hid' Hends Houts Hins n. destruct (Hl n) as (Hno & Ho & Hni & Hi).
  assert (forall e a b, ends' e = Some (a, b) <-> ends e = Some (a, b) /\ e <> id) as Hiff.
  { intros e a b. destruct (decide (e = id)) as [->|Hne]; [|rewrite Hends by done; naive_solver].
    rewrite Hid'. naive_solver. }
  rewrite Houts, Hins. setoid_rewrite Hiff.
  destruct (eraseEdgeId_spec id _ Hno) as [H1 H2], (eraseEdgeId_spec id _ Hni) as [H3 H4].
  split_and!.
  - by case_decide.
  - intros e. case_decide; [rewrite H2, Ho; naive_solver|]. rewrite Ho.
    split; [intros [u Hu]; exists u; split; [done|]; intros ->; congruence|naive_solver].
  - by case_decide.
  - intros e. case_decide; [rewrite H4, Hi; naive_solver|]. rewrite Hi.
    split; [intros [u Hu]; exists u; split; [done|]; intros ->; congruence|naive_solver].
Qed.

Lemma links_ext ends outs ins ends' outs' ins' :
  links ends outs ins -> (forall e, ends' e = ends e) -> (forall n, outs' n = outs n) ->
  (forall n, ins' n = ins n) -> links ends' outs' ins'.
Proof. intros Hl He Ho Hi n. rewrite Ho, Hi. setoid_rewrite He. apply Hl. Qed.

(** * The invariant *)

Definition field {A} (f : TNode -> list A) (g : TGraph) (n : NodeId) : list A :=
  from_option f [] (nodes g !! n).
Definition outs := field outEdges.
Definition ins := field inEdges.
Definition capture_outs := field captureOutEdges.
Definition capture_ins := field captureInEdges.

(** The ends of a live edge. *)
Definition edge_ends (g : TGraph) (e : EdgeId) : option (NodeId * NodeId) :=
  r ← edges g !! e; if e_alive r then Some (e_source r, e_target r) else None.
Definition capture_ends (g : TGraph) (e : EdgeId) : option (NodeId * NodeId) :=
  r ← captureEdges g !! e; if c_alive r then Some (c_source r, c_target r) else None.

Record graph_wf (g : TGraph) : Prop := {
  wf_nodes : slots_ok (n_alive <$> nodes g) (freeNodes g) (liveNodes g);
  wf_edges : slots_ok (e_alive <$> edges g) (freeEdges g) (liveEdges g);
  wf_captures : slots_ok (c_alive <$> captureEdges g) (freeCaptureEdges g) (liveCaptureEdges g);
  wf_links : links (edge_ends g) (outs g) (ins g);
  wf_capture_links : links (capture_ends g) (capture_outs g) (capture_ins g);
  wf_ends e s t : edge_ends g e = Some (s, t) -> isNodeValid g s = true /\ isNodeValid g t = true;
  wf_capture_ends e s t :
    capture_ends g e = Some (s, t) -> isNodeValid g s = true /\ isNodeValid g t = true;
  wf_node_index n r : nodes g !! n = Some r -> n_index r = n;
  wf_edge_index e r : edges g !! e = Some r -> e_index r = e;
  wf_capture_index e r : captureEdges g !! e = Some r -> c_index r = e;
  wf_clock_index c r : clocks g !! c = Some r -> clock_index r = c;
  wf_masks e r : edges g !! e = Some r -> e_alive r = true ->
    length (fromClocks r) = length (clocks g) /\ length (toClocks r) = length (clocks g) }.

(** * Lookups after an update *)

Lemma isNodeValid_alive g n : isNodeValid g n = default false ((n_alive <$> nodes g) !! n).
Proof. unfold isNodeValid. rewrite list_lookup_fmap. by destruct (nodes g !! n). Qed.

Lemma isNodeValid_lookup g n : isNodeValid g n = true <-> exists r, nodes g !! n = Some r /\ n_alive r = true.
Proof. unfold isNodeValid. destruct (nodes g !! n); naive_solver. Qed.

Lemma edge_ends_Some g e s t :
  edge_ends g e = Some (s, t) <->
    exists r, edges g !! e = Some r /\ e_alive r = true /\ e_source r = s /\ e_target r = t.
Proof.
  unfold edge_ends. destruct (edges g !! e) as [r|]; cbn; [|naive_solver].
  destruct (e_alive r) eqn:E; split.
  - intros [= <- <-]. eauto.
  - intros (r' & [= <-] & _ & <- & <-). done.
  - done.
  - intros (r' & [= <-] & ? & _). congruence.
Qed.

Lemma edge_ends_None g e : (e_alive <$> edges g) !! e <> Some true <-> edge_ends g e = None.
Proof.
  unfold edge_ends. rewrite list_lookup_fmap. destruct (edges g !! e) as [r|]; cbn; [|naive_solver].
  destruct (e_alive r); naive_solver.
Qed.

Lemma capture_ends_None g e :
  (c_alive <$> captureEdges g) !! e <> Some true <-> capture_ends g e = None.
Proof.
  unfold capture_ends. rewrite list_lookup_fmap.
  destruct (captureEdges g !! e) as [r|]; cbn; [|naive_solver].
  destruct (c_alive r); naive_solver.
Qed.

Lemma alter_alive {A B} (f : A -> B) h i (l : list A) :
  (forall r, f (h r) = f r) -> f <$> alter h i l = f <$> l.
Proof.
  intros H. apply list_eq. intros j. rewrite !list_lookup_fmap, list_lookup_alter.
  case_decide; [subst|done]. destruct (l !! j); cbn; [by rewrite H|done].
Qed.

Lemma field_alter_same {A} (f : TNode -> list A) h i (l : list TNode) n :
  (forall r, f (h r) = f r) ->
  from_option f [] (alter h i l !! n) = from_option f [] (l !! n).
Proof.
  intros H. rewrite list_lookup_alter. case_decide; [subst|done].
  destruct (l !! n); cbn; [apply H|done].
Qed.

Lemma field_alter {A} (f : TNode -> list A) k h i (l : list TNode) n :
  (forall r, f (h r) = k (f r)) -> is_Some (l !! i) ->
  from_option f [] (alter h i l !! n) =
    if decide (n = i) then k (from_option f [] (l !! n)) else from_option f [] (l !! n).
Proof.
  intros H [r Hr]. rewrite list_lookup_alter. destruct (decide (n = i)) as [->|Hne].
  - rewrite decide_True by done. rewrite Hr. cbn. apply H.
  - by rewrite decide_False by done.
Qed.

(** Deactivating one slot. *)
Lemma alter_dead {A} (al : A -> bool) h i (l : list A) r :
  l !! i = Some r -> (forall r, al (h r) = false) -> al <$> alter h i l = <[i := false]> (al <$> l).
Proof.
  intros Hi Hh. apply list_eq. intros j. rewrite list_lookup_fmap.
  destruct (decide (j = i)) as [->|Hne].
  - rewrite list_lookup_alter_eq, Hi. cbn. rewrite Hh. symmetry. apply list_lookup_insert_eq.
    rewrite length_fmap. by eapply lookup_lt_Some.
  - by rewrite list_lookup_insert_ne, list_lookup_alter_ne, list_lookup_fmap.
Qed.

(** A property of the node stored at an index, kept by every update of nodes
    in place. *)
Lemma alter_index {A} (ix : A -> nat) h i (l : list A) :
  (forall r, ix (h r) = ix r) -> (forall n r, l !! n = Some r -> ix r = n) ->
  forall n r, alter h i l !! n = Some r -> ix r = n.
Proof.
  intros H Hl n r. rewrite list_lookup_alter. case_decide; [subst|apply Hl].
  destruct (l !! n) as [r0|] eqn:E; cbn; [|done]. intros [= <-]. rewrite H. by apply Hl.
Qed.

Lemma allocate_index {A} (ix : A -> nat) free (store : list A) make id store' free' :
  allocate free store make = (id, store', free') -> (forall i, ix (make i) = i) ->
  store' !! id = Some (make id) -> (forall j, j <> id -> store' !! j = store !! j) ->
  (forall n r, store !! n = Some r -> ix r = n) ->
  forall n r, store' !! n = Some r -> ix r = n.
Proof.
  intros _ Hm Hid Hother Hix n r Hn. destruct (decide (n = id)) as [->|Hne].
  - rewrite Hid in Hn. injection Hn as <-. apply Hm.
  - rewrite Hother in Hn by done. by apply Hix.
Qed.

(** A dead node has no edge. *)
Lemma dead_fields g n :
  graph_wf g -> isNodeValid g n = false ->
  outs g n = [] /\ ins g n = [] /\ capture_outs g n = [] /\ capture_ins g n = [].
Proof.
  intros Hwf Hn.
  destruct (wf_links g Hwf n) as (_ & Ho & _ & Hi).
  destruct (wf_capture_links g Hwf n) as (_ & Hco & _ & Hci).
  split_and!; apply elem_of_nil_inv; intros e.
  - intros [t Ht]%Ho. apply (wf_ends g Hwf) in Ht as [? _]. congruence.
  - intros [t Ht]%Hi. apply (wf_ends g Hwf) in Ht as [_ ?]. congruence.
  - intros [t Ht]%Hco. apply (wf_capture_ends g Hwf) in Ht as [? _]. congruence.
  - intros [t Ht]%Hci. apply (wf_capture_ends g Hwf) in Ht as [_ ?]. congruence.
Qed.

(** * The operations keep the invariant *)

Lemma graph_default_wf : graph_wf graph_default.
Proof.
  assert (links (fun _ => None) (fun _ => []) (fun _ => [])) as Hl.
  { intros n. split_and!; try constructor; try (by intros ?%not_elem_of_nil); intros [? ?]; done. }
  assert (slots_ok [] [] 0) as Hs.
  { split_and!; [constructor| |done]. intros i. split; [by intros ?%not_elem_of_nil|done]. }
  by split; try exact Hl; try exact Hs.
Qed.

Lemma createNode_wf g p : graph_wf g -> graph_wf (createNode g p).2.
Proof.
  intros Hwf. unfold createNode.
  destruct (allocate _ _ _) as [[id ns] free] eqn:Ha. cbn [snd].
  destruct (allocate_spec n_alive _ _ _ _ _ _ _ (wf_nodes g Hwf) Ha (fun _ => eq_refl))
    as (Hs & Hid & Hold & Hother).
  assert (isNodeValid g id = false) as Hdead.
  { rewrite isNodeValid_alive. by destruct ((n_alive <$> nodes g) !! id) as [[]|]. }
  destruct (dead_fields g id Hwf Hdead) as (Ho & Hi & Hco & Hci).
  assert (forall A (f : TNode -> list A), f (node_create id p) = [] -> field f g id = [] ->
    forall n, from_option f [] (ns !! n) = from_option f [] (nodes g !! n)) as Hfield.
  { intros A f Hf Hg n. destruct (decide (n = id)) as [->|Hne]; [|by rewrite Hother].
    rewrite Hid. cbn. unfold field in Hg. by rewrite Hf, Hg. }
  assert (forall n, isNodeValid g n = true -> n_alive <$> ns !! n = Some true) as Hvalid.
  { intros n Hn. destruct (decide (n = id)) as [->|Hne]; [congruence|].
    rewrite Hother by done. apply isNodeValid_lookup in Hn as (r & -> & Hr). cbn. by rewrite Hr. }
  split; cbn; try apply Hwf; try done.
  - eapply links_ext; [exact (wf_links g Hwf)|done|by apply Hfield|by apply Hfield].
  - eapply links_ext; [exact (wf_capture_links g Hwf)|done|by apply Hfield|by apply Hfield].
  - intros e s t [Hs1 Ht1]%(wf_ends g Hwf). unfold isNodeValid. cbn.
    apply Hvalid in Hs1, Ht1. destruct (ns !! s), (ns !! t); naive_solver.
  - intros e s t [Hs1 Ht1]%(wf_capture_ends g Hwf). unfold isNodeValid. cbn.
    apply Hvalid in Hs1, Ht1. destruct (ns !! s), (ns !! t); naive_solver.
  - eapply (allocate_index n_index); [done|done|done|done|apply Hwf].
Qed.

(** Two updates of nodes in place that keep the members other than one list of
    the source and one of the target. *)
Lemma valid_lookup g n : isNodeValid g n = true -> is_Some (nodes g !! n).
Proof. intros (r & Hr & _)%isNodeValid_lookup. eauto. Qed.

Lemma alter_valid h i g g' n :
  nodes g' = alter h i (nodes g) -> (forall r, n_alive (h r) = n_alive r) ->
  isNodeValid g' n = isNodeValid g n.
Proof. intros Hg Hh. by rewrite !isNodeValid_alive, Hg, alter_alive. Qed.

Lemma alter2_valid h i h' i' g g' n :
  nodes g' = alter h i (alter h' i' (nodes g)) ->
  (forall r, n_alive (h r) = n_alive r) -> (forall r, n_alive (h' r) = n_alive r) ->
  isNodeValid g' n = isNodeValid g n.
Proof. intros Hg Hh Hh'. by rewrite !isNodeValid_alive, Hg, !alter_alive. Qed.

Lemma is_Some_alter {A} (h : A -> A) i j (l : list A) : is_Some (l !! j) -> is_Some (alter h i l !! j).
Proof. intros [r Hr]. rewrite list_lookup_alter. case_decide; [subst|]; rewrite Hr; eauto. Qed.

(** The ends of the edges after a slot of the edge vector was written. *)
Lemma edge_ends_write g g' id r :
  edges g' !! id = Some r -> (forall j, j <> id -> edges g' !! j = edges g !! j) ->
  edge_ends g' id = (if e_alive r then Some (e_source r, e_target r) else None) /\
  (forall e, e <> id -> edge_ends g' e = edge_ends g e).
Proof.
  intros Hid Hother. unfold edge_ends. split; [by rewrite Hid|].
  intros e He. by rewrite Hother.
Qed.

Lemma capture_ends_write g g' id r :
  captureEdges g' !! id = Some r -> (forall j, j <> id -> captureEdges g' !! j = captureEdges g !! j) ->
  capture_ends g' id = (if c_alive r then Some (c_source r, c_target r) else None) /\
  (forall e, e <> id -> capture_ends g' e = capture_ends g e).
Proof.
  intros Hid Hother. unfold capture_ends. split; [by rewrite Hid|].
  intros e He. by rewrite Hother.
Qed.

Lemma createEdge_wf g s t p : graph_wf g -> graph_wf (createEdge g s t p).2.
Proof.
  intros Hwf. unfold createEdge.
  destruct (isNodeValid g s) eqn:Hs; [|done]. destruct (isNodeValid g t) eqn:Ht; [|done].
  cbn [negb orb]. destruct (allocate _ _ _) as [[id es] free] eqn:Ha. cbn [snd].
  destruct (allocate_spec e_alive _ _ _ _ _ _ _ (wf_edges g Hwf) Ha (fun _ => eq_refl))
    as (Hok & Hid & Hold & Hother).
  set (es' := alter (resizeClockMasks (length (clocks g))) id es).
  set (new := resizeClockMasks (length (clocks g)) (edge_create id s t p)).
  assert (es' !! id = Some new) as Hid' by (unfold es'; by rewrite list_lookup_alter_eq, Hid).
  assert (forall j, j <> id -> es' !! j = edges g !! j) as Hother'.
  { intros j Hj. unfold es'. rewrite list_lookup_alter_ne by done. by apply Hother. }
  set (g' := mkGraph _ es' _ _ _ _ _ _ _ _).
  destruct (edge_ends_write g g' id new Hid' Hother') as [Hends Hends'].
  cbn [new resizeClockMasks edge_create e_alive e_source e_target] in Hends.
  assert (forall n, isNodeValid g' n = isNodeValid g n) as Hvalid
    by (intros n; by eapply alter2_valid).
  split; cbn [g' nodes edges captureEdges freeNodes freeEdges freeCaptureEdges clocks liveNodes
    liveEdges liveCaptureEdges]; try apply Hwf.
  - rewrite !alter_alive by done. apply Hwf.
  - unfold es'. rewrite alter_alive by done. exact Hok.
  - eapply links_add; [exact (wf_links g Hwf)|by apply edge_ends_None|exact Hends|exact Hends'|..].
    + intros n. unfold outs, field. cbn [nodes g']. rewrite field_alter_same by done.
      rewrite (field_alter outEdges (fun l => l ++ [id])) by (done || by apply valid_lookup). done.
    + intros n. unfold ins, field. cbn [nodes g'].
      rewrite (field_alter inEdges (fun l => l ++ [id])) by
        (done || by apply is_Some_alter, valid_lookup).
      by rewrite field_alter_same by done.
  - eapply links_ext; [exact (wf_capture_links g Hwf)|done|..]; intros n;
      unfold capture_outs, capture_ins, field; cbn [nodes g']; by rewrite !field_alter_same.
  - intros e a b He. rewrite !Hvalid. destruct (decide (e = id)) as [->|Hne].
    + rewrite Hends in He. by injection He as <- <-.
    + rewrite Hends' in He by done. by apply (wf_ends g Hwf e).
  - intros e a b He. rewrite !Hvalid. by apply (wf_capture_ends g Hwf e).
  - do 2 (apply alter_index; [done|]). apply Hwf.
  - intros e r He. destruct (decide (e = id)) as [->|Hne].
    + rewrite Hid' in He. by injection He as <-.
    + rewrite Hother' in He by done. by apply (wf_edge_index g Hwf).
  - intros e r He Hal. destruct (decide (e = id)) as [->|Hne].
    + rewrite Hid' in He. injection He as <-. split; apply length_resize.
    + rewrite Hother' in He by done. by apply (wf_masks g Hwf e).
Qed.

Lemma createCaptureEdge_wf g s t : graph_wf g -> graph_wf (createCaptureEdge g s t).2.
Proof.
  intros Hwf. unfold createCaptureEdge.
  destruct (isNodeValid g s) eqn:Hs; [|done]. destruct (isNodeValid g t) eqn:Ht; [|done].
  cbn [negb orb]. destruct (allocate _ _ _) as [[id cs] free] eqn:Ha. cbn [snd].
  destruct (allocate_spec c_alive _ _ _ _ _ _ _ (wf_captures g Hwf) Ha (fun _ => eq_refl))
    as (Hok & Hid & Hold & Hother).
  set (g' := mkGraph _ _ cs _ _ _ _ _ _ _).
  destruct (capture_ends_write g g' id _ Hid Hother) as [Hends Hends'].
  cbn [capture_create c_alive c_source c_target] in Hends.
  assert (forall n, isNodeValid g' n = isNodeValid g n) as Hvalid
    by (intros n; by eapply alter2_valid).
  split; cbn [g' nodes edges captureEdges freeNodes freeEdges freeCaptureEdges clocks liveNodes
    liveEdges liveCaptureEdges]; try apply Hwf.
  - rewrite !alter_alive by done. apply Hwf.
  - exact Hok.
  - eapply links_ext; [exact (wf_links g Hwf)|done|..]; intros n;
      unfold outs, ins, field; cbn [nodes g']; by rewrite !field_alter_same.
  - eapply links_add;
      [exact (wf_capture_links g Hwf)|by apply capture_ends_None|exact Hends|exact Hends'|..].
    + intros n. unfold capture_outs, field. cbn [nodes g']. rewrite field_alter_same by done.
      rewrite (field_alter captureOutEdges (fun l => l ++ [id])) by (done || by apply valid_lookup).
      done.
    + intros n. unfold capture_ins, field. cbn [nodes g'].
      rewrite (field_alter captureInEdges (fun l => l ++ [id])) by
        (done || by apply is_Some_alter, valid_lookup).
      by rewrite field_alter_same by done.
  - intros e a b He. rewrite !Hvalid. by apply (wf_ends g Hwf e).
  - intros e a b He. rewrite !Hvalid. destruct (decide (e = id)) as [->|Hne].
    + rewrite Hends in He. by injection He as <- <-.
    + rewrite Hends' in He by done. by apply (wf_capture_ends g Hwf e).
  - do 2 (apply alter_index; [done|]). apply Hwf.
  - intros e r He. destruct (decide (e = id)) as [->|Hne].
    + rewrite Hid in He. by injection He as <-.
    + rewrite Hother in He by done. by apply (wf_capture_index g Hwf).
Qed.

Lemma removeCaptureEdge_wf g e : graph_wf g -> graph_wf (removeCaptureEdge g e).2.
Proof.
  intros Hwf. unfold removeCaptureEdge, getCaptureEdge.
  destruct (isCaptureEdgeValid g e) eqn:Hv; [|done].
  unfold isCaptureEdgeValid in Hv. destruct (captureEdges g !! e) as [r|] eqn:He; [|done].
  cbn [snd]. set (g' := mkGraph _ _ _ _ _ _ _ _ _ _).
  assert (capture_ends g e = Some (c_source r, c_target r)) as Hends0
    by (unfold capture_ends; by rewrite He; cbn; rewrite Hv).
  destruct (wf_capture_ends g Hwf _ _ _ Hends0) as [Hs Ht].
  destruct (capture_ends_write g g' e (capture_deactivate r)) as [Hends Hends'].
  { cbn [g' captureEdges]. by rewrite list_lookup_alter_eq, He. }
  { intros j Hj. cbn [g' captureEdges]. by rewrite list_lookup_alter_ne. }
  assert (forall n, isNodeValid g' n = isNodeValid g n) as Hvalid
    by (intros n; by eapply alter2_valid).
  split; cbn [g' nodes edges captureEdges freeNodes freeEdges freeCaptureEdges clocks liveNodes
    liveEdges liveCaptureEdges]; try apply Hwf.
  - rewrite !alter_alive by done. apply Hwf.
  - rewrite (alter_dead _ _ _ _ r) by done. apply slots_kill; [apply Hwf|].
    rewrite list_lookup_fmap, He. cbn. by rewrite Hv.
  - eapply links_ext; [exact (wf_links g Hwf)|done|..]; intros n;
      unfold outs, ins, field; cbn [nodes g']; by rewrite !field_alter_same.
  - eapply links_del;
      [exact (wf_capture_links g Hwf)|exact Hends0|exact Hends|exact Hends'|..].
    + intros n. unfold capture_outs, field. cbn [nodes g']. rewrite field_alter_same by done.
      by rewrite (field_alter captureOutEdges (eraseEdgeId e)) by (done || by apply valid_lookup).
    + intros n. unfold capture_ins, field. cbn [nodes g'].
      rewrite (field_alter captureInEdges (eraseEdgeId e)) by
        (done || by apply is_Some_alter, valid_lookup).
      by rewrite field_alter_same by done.
  - intros e' a b He'. rewrite !Hvalid. by apply (wf_ends g Hwf e').
  - intros e' a b He'. rewrite !Hvalid. destruct (decide (e' = e)) as [->|Hne].
    + by rewrite Hends in He'.
    + rewrite Hends' in He' by done. by apply (wf_capture_ends g Hwf e').
  - do 2 (apply alter_index; [done|]). apply Hwf.
  - apply alter_index; [done|]. apply Hwf.
Qed.

Lemma removeEdge_wf g e : graph_wf g -> graph_wf (removeEdge g e).2.
Proof.
  intros Hwf. unfold removeEdge, getEdge.
  destruct (isEdgeValid g e) eqn:Hv; [|done].
  unfold isEdgeValid in Hv. destruct (edges g !! e) as [r|] eqn:He; [|done].
  assert (edge_ends g e = Some (e_source r, e_target r)) as Hends0
    by (unfold edge_ends; by rewrite He; cbn; rewrite Hv).
  destruct (wf_ends g Hwf _ _ _ Hends0) as [Hs Ht]. rewrite Hs, Ht.
  cbn [snd]. set (g' := mkGraph _ _ _ _ _ _ _ _ _ _).
  destruct (edge_ends_write g g' e (edge_deactivate r)) as [Hends Hends'].
  { cbn [g' edges]. by rewrite list_lookup_alter_eq, He. }
  { intros j Hj. cbn [g' edges]. by rewrite list_lookup_alter_ne. }
  assert (forall n, isNodeValid g' n = isNodeValid g n) as Hvalid
    by (intros n; by eapply alter2_valid).
  split; cbn [g' nodes edges captureEdges freeNodes freeEdges freeCaptureEdges clocks liveNodes
    liveEdges liveCaptureEdges]; try apply Hwf.
  - rewrite !alter_alive by done. apply Hwf.
  - rewrite (alter_dead _ _ _ _ r) by done. apply slots_kill; [apply Hwf|].
    rewrite list_lookup_fmap, He. cbn. by rewrite Hv.
  - eapply links_del; [exact (wf_links g Hwf)|exact Hends0|exact Hends|exact Hends'|..].
    + intros n. unfold outs, field. cbn [nodes g']. rewrite field_alter_same by done.
      by rewrite (field_alter outEdges (eraseEdgeId e)) by (done || by apply valid_lookup).
    + intros n. unfold ins, field. cbn [nodes g'].
      rewrite (field_alter inEdges (eraseEdgeId e)) by
        (done || by apply is_Some_alter, valid_lookup).
      by rewrite field_alter_same by done.
  - eapply links_ext; [exact (wf_capture_links g Hwf)|done|..]; intros n;
      unfold capture_outs, capture_ins, field; cbn [nodes g']; by rewrite !field_alter_same.
  - intros e' a b He'. rewrite !Hvalid. destruct (decide (e' = e)) as [->|Hne].
    + by rewrite Hends in He'.
    + rewrite Hends' in He' by done. by apply (wf_ends g Hwf e').
  - intros e' a b He'. rewrite !Hvalid. by apply (wf_capture_ends g Hwf e').
  - do 2 (apply alter_index; [done|]). apply Hwf.
  - apply alter_index; [done|]. apply Hwf.
  - intros e' r' He' Hal. destruct (decide (e' = e)) as [->|Hne].
    + rewrite list_lookup_alter_eq, He in He'. by injection He' as <-.
    + rewrite list_lookup_alter_ne in He' by done. by apply (wf_masks g Hwf e').
Qed.

(** ** Removing a node *)

Lemma removeCaptureEdge_frame g e :
  graph_wf g ->
  let g' := (removeCaptureEdge g e).2 in
  (forall n, isNodeValid g' n = isNodeValid g n) /\
  (forall e', edge_ends g' e' = edge_ends g e') /\
  (forall e', capture_ends g' e' = if decide (e' = e) then None else capture_ends g e').
Proof.
  intros Hwf. unfold removeCaptureEdge, getCaptureEdge, isCaptureEdgeValid.
  destruct (captureEdges g !! e) as [r|] eqn:He; [destruct (c_alive r) eqn:Hv|].
  - cbn [snd]. split_and!; [by intros n; eapply alter2_valid|done|]. intros e'.
    unfold capture_ends. cbn [captureEdges]. rewrite list_lookup_alter.
    destruct (decide (e' = e)) as [->|Hne]; [by rewrite decide_True, He|by rewrite decide_False].
  - cbn [snd]. split_and!; [done..|]. intros e'. destruct (decide (e' = e)) as [->|]; [|done].
    unfold capture_ends. rewrite He. cbn. by rewrite Hv.
  - cbn [snd]. split_and!; [done..|]. intros e'. destruct (decide (e' = e)) as [->|]; [|done]. unfold capture_ends. by rewrite He.
Qed.

Lemma removeEdge_frame g e :
  graph_wf g ->
  let g' := (removeEdge g e).2 in
  (forall n, isNodeValid g' n = isNodeValid g n) /\
  (forall e', edge_ends g' e' = if decide (e' = e) then None else edge_ends g e') /\
  (forall e', capture_ends g' e' = capture_ends g e').
Proof.
  intros Hwf. unfold removeEdge, getEdge, isEdgeValid.
  destruct (edges g !! e) as [r|] eqn:He; [destruct (e_alive r) eqn:Hv|].
  - assert (edge_ends g e = Some (e_source r, e_target r)) as Hends
      by (unfold edge_ends; by rewrite He; cbn; rewrite Hv).
    destruct (wf_ends g Hwf _ _ _ Hends) as [-> ->].
    cbn [snd]. split_and!; [by intros n; eapply alter2_valid| |done]. intros e'.
    unfold edge_ends. cbn [edges]. rewrite list_lookup_alter.
    destruct (decide (e' = e)) as [->|Hne]; [by rewrite decide_True, He|by rewrite decide_False].
  - cbn [snd]. split_and!; [done| |done]. intros e'. destruct (decide (e' = e)) as [->|]; [|done].
    unfold edge_ends. rewrite He. cbn. by rewrite Hv.
  - cbn [snd]. split_and!; [done| |done]. intros e'. destruct (decide (e' = e)) as [->|]; [|done]. unfold edge_ends. by rewrite He.
Qed.

Lemma removeCaptureEdges_frame l g :
  graph_wf g ->
  let g' := foldl (fun g e => (removeCaptureEdge g e).2) g l in
  graph_wf g' /\ (forall n, isNodeValid g' n = isNodeValid g n) /\
  (forall e', edge_ends g' e' = edge_ends g e') /\
  (forall e', capture_ends g' e' = if decide (e' ∈ l) then None else capture_ends g e').
Proof.
  revert g. induction l as [|e l IH]; intros g Hwf; [done|]. cbn [foldl].
  destruct (removeCaptureEdge_frame g e Hwf) as (H1 & H2 & H3).
  destruct (IH _ (removeCaptureEdge_wf g e Hwf)) as (H4 & H5 & H6 & H7).
  split_and!; [done|intros n; by rewrite H5, H1|intros e'; by rewrite H6, H2|].
  intros e'. rewrite H7, H3. repeat case_decide; set_solver.
Qed.

Lemma removeEdges_frame l g :
  graph_wf g ->
  let g' := foldl (fun g e => (removeEdge g e).2) g l in
  graph_wf g' /\ (forall n, isNodeValid g' n = isNodeValid g n) /\
  (forall e', edge_ends g' e' = if decide (e' ∈ l) then None else edge_ends g e') /\
  (forall e', capture_ends g' e' = capture_ends g e').
Proof.
  revert g. induction l as [|e l IH]; intros g Hwf; [done|]. cbn [foldl].
  destruct (removeEdge_frame g e Hwf) as (H1 & H2 & H3).
  destruct (IH _ (removeEdge_wf g e Hwf)) as (H4 & H5 & H6 & H7).
  split_and!; [done|intros n; by rewrite H5, H1| |intros e'; by rewrite H7, H3].
  intros e'. rewrite H6, H2. repeat case_decide; set_solver.
Qed.

(** A live node without edges can be deactivated. *)
Lemma deactivate_wf g n :
  graph_wf g -> isNodeValid g n = true ->
  (forall e s t, edge_ends g e = Some (s, t) -> s <> n /\ t <> n) ->
  (forall e s t, capture_ends g e = Some (s, t) -> s <> n /\ t <> n) ->
  graph_wf (mkGraph (alter node_deactivate n (nodes g)) (edges g) (captureEdges g)
    (n :: freeNodes g) (freeEdges g) (freeCaptureEdges g) (clocks g)
    (liveNodes g - 1) (liveEdges g) (liveCaptureEdges g)).
Proof.
  intros Hwf Hn Hends Hcends. set (g' := mkGraph _ _ _ _ _ _ _ _ _ _).
  apply isNodeValid_lookup in Hn as (r & Hr & Hal).
  assert (forall A (f : TNode -> list A), field f g n = [] -> f (node_deactivate r) = [] ->
    forall m, field f g' m = field f g m) as Hfield.
  { intros A f Hf Hd m. unfold field in *. cbn [nodes g']. destruct (decide (m = n)) as [->|Hne].
    - rewrite list_lookup_alter_eq, Hr. cbn. rewrite Hr in Hf. cbn in Hf. congruence.
    - by rewrite list_lookup_alter_ne. }
  assert (forall m, m <> n -> isNodeValid g' m = isNodeValid g m) as Hvalid.
  { intros m Hm. unfold isNodeValid. cbn [nodes g']. by rewrite list_lookup_alter_ne. }
  destruct (wf_links g Hwf n) as (_ & Ho & _ & Hi).
  destruct (wf_capture_links g Hwf n) as (_ & Hco & _ & Hci).
  split; cbn [g' nodes edges captureEdges freeNodes freeEdges freeCaptureEdges clocks liveNodes
    liveEdges liveCaptureEdges]; try apply Hwf.
  - rewrite (alter_dead _ _ _ _ r) by done. apply slots_kill; [apply Hwf|].
    rewrite list_lookup_fmap, Hr. cbn. by rewrite Hal.
  - eapply links_ext; [exact (wf_links g Hwf)|done|apply Hfield; [|done]..].
    + apply elem_of_nil_inv. intros e [t He]%Ho. by apply Hends in He as [? _].
    + apply elem_of_nil_inv. intros e [s He]%Hi. by apply Hends in He as [_ ?].
  - eapply links_ext; [exact (wf_capture_links g Hwf)|done|apply Hfield; [|done]..].
    + apply elem_of_nil_inv. intros e [t He]%Hco. by apply Hcends in He as [? _].
    + apply elem_of_nil_inv. intros e [s He]%Hci. by apply Hcends in He as [_ ?].
  - intros e s t He. destruct (Hends e s t He). rewrite !Hvalid by done. by apply (wf_ends g Hwf e).
  - intros e s t He. destruct (Hcends e s t He). rewrite !Hvalid by done.
    by apply (wf_capture_ends g Hwf e).
  - apply alter_index; [done|]. apply Hwf.
Qed.

Lemma removeNode_wf g n : graph_wf g -> graph_wf (removeNode g n).2.
Proof.
  intros Hwf. unfold removeNode, getNode. destruct (isNodeValid g n) eqn:Hn; [|done].
  destruct (nodes g !! n) as [r|] eqn:Hr; [|done]. cbn [snd].
  destruct (removeCaptureEdges_frame (captureOutEdges r) g Hwf) as (W1 & V1 & E1 & C1).
  set (g1 := foldl _ g _) in *.
  destruct (removeCaptureEdges_frame (captureInEdges r) g1 W1) as (W2 & V2 & E2 & C2).
  set (g2 := foldl _ g1 _) in *.
  destruct (removeEdges_frame (outEdges r) g2 W2) as (W3 & V3 & E3 & C3).
  set (g3 := foldl _ g2 _) in *.
  destruct (removeEdges_frame (inEdges r) g3 W3) as (W4 & V4 & E4 & C4).
  set (g4 := foldl _ g3 _) in *.
  destruct (wf_links g Hwf n) as (_ & Ho & _ & Hi).
  destruct (wf_capture_links g Hwf n) as (_ & Hco & _ & Hci).
  unfold outs, ins, capture_outs, capture_ins, field in Ho, Hi, Hco, Hci.
  rewrite Hr in Ho, Hi, Hco, Hci. cbn in Ho, Hi, Hco, Hci.
  apply deactivate_wf; [done|by rewrite V4, V3, V2, V1|..].
  - intros e s t. rewrite E4, E3, E2, E1. repeat case_decide; [done..|]. naive_solver.
  - intros e s t. rewrite C4, C3, C2, C1. repeat case_decide; [done..|]. naive_solver.
Qed.

(** ** Clocks, flags and masks *)

Lemma createClock_wf g name target n c g' :
  graph_wf g -> createClock g name target n = Ret (c, g') -> graph_wf g'.
Proof.
  intros Hwf Hc. unfold createClock in Hc. invert_run.
  set (resz := fun e : TEdge => if e_alive e then resizeClockMasks (S (length (clocks g))) e else e).
  set (g' := mkGraph _ _ _ _ _ _ _ _ _ _).
  assert (forall r, e_alive (resz r) = e_alive r /\ e_source (resz r) = e_source r /\
    e_target (resz r) = e_target r /\ e_index (resz r) = e_index r) as Hresz
    by (intros r; unfold resz; by destruct (e_alive r) eqn:?).
  assert (forall e, edge_ends g' e = edge_ends g e) as Hends.
  { intros e. unfold edge_ends. cbn [edges g']. rewrite list_lookup_fmap.
    destruct (edges g !! e) as [r|]; cbn; [|done]. fold resz. by destruct (Hresz r) as (-> & -> & -> & _). }
  split; cbn [g' nodes edges captureEdges freeNodes freeEdges freeCaptureEdges clocks liveNodes
    liveEdges liveCaptureEdges]; try apply Hwf.
  - rewrite <- list_fmap_compose. fold resz.
    erewrite list_fmap_ext; [apply Hwf|]. intros i r _. apply Hresz.
  - eapply links_ext; [exact (wf_links g Hwf)|done..].
  - intros e s t He. rewrite Hends in He. by apply (wf_ends g Hwf e).
  - intros e r. rewrite list_lookup_fmap. destruct (edges g !! e) as [r0|] eqn:E; [|done].
    intros [= <-]. fold resz. destruct (Hresz r0) as (_ & _ & _ & ->). by apply (wf_edge_index g Hwf).
  - intros i r Hi. apply lookup_app_Some in Hi as [Hi|[Hlen Hi]]; [by apply (wf_clock_index g Hwf)|].
    apply list_lookup_singleton_Some in Hi as [Hi <-]. cbn. lia.
  - intros e r. rewrite list_lookup_fmap. destruct (edges g !! e) as [r0|] eqn:E; [|done].
    intros [= <-] Hal. fold (resz r0) in *. destruct (Hresz r0) as (Hal' & _). rewrite Hal' in Hal.
    unfold resz. rewrite Hal, length_app, Nat.add_1_r. split; apply length_resize.
Qed.

(** An update of edges that leaves their identity and ends alone. *)
Lemma set_edges_wf g f :
  graph_wf g ->
  length (f (edges g)) = length (edges g) ->
  (forall e r', f (edges g) !! e = Some r' -> exists r, edges g !! e = Some r /\
     e_index r' = e_index r /\ e_source r' = e_source r /\ e_target r' = e_target r /\
     e_alive r' = e_alive r /\
     (e_alive r = true -> length (fromClocks r') = length (clocks g) /\
                          length (toClocks r') = length (clocks g))) ->
  graph_wf (set_edges f g) /\ forall e, edge_ends (set_edges f g) e = edge_ends g e.
Proof.
  intros Hwf Hlen Hf.
  assert (forall e, f (edges g) !! e = None -> edges g !! e = None) as Hnone.
  { intros e. rewrite !lookup_ge_None. lia. }
  assert (forall e, edge_ends (set_edges f g) e = edge_ends g e) as Hends.
  { intros e. unfold edge_ends. cbn [edges set_edges]. destruct (f (edges g) !! e) as [r'|] eqn:E.
    - destruct (Hf e r' E) as (r & -> & _ & Hs & Ht & Ha & _). cbn. by rewrite Hs, Ht, Ha.
    - by rewrite (Hnone e E). }
  split; [|done]. split; cbn [set_edges nodes edges captureEdges freeNodes freeEdges
    freeCaptureEdges clocks liveNodes liveEdges liveCaptureEdges]; try apply Hwf.
  - replace (e_alive <$> f (edges g)) with (e_alive <$> edges g); [apply Hwf|].
    apply list_eq. intros e. rewrite !list_lookup_fmap. destruct (f (edges g) !! e) as [r'|] eqn:E.
    + destruct (Hf e r' E) as (r & -> & _ & _ & _ & Ha & _). cbn. by rewrite Ha.
    + by rewrite (Hnone e E).
  - eapply links_ext; [exact (wf_links g Hwf)|done..].
  - intros e s t He. rewrite Hends in He. by apply (wf_ends g Hwf e).
  - intros e r' He. destruct (Hf e r' He) as (r & Hr & -> & _). by apply (wf_edge_index g Hwf).
  - intros e r' He Hal. destruct (Hf e r' He) as (r & Hr & _ & _ & _ & Ha & Hm).
    apply Hm. congruence.
Qed.

Lemma alter_edge_wf g e h :
  graph_wf g ->
  (forall r, e_index (h r) = e_index r /\ e_source (h r) = e_source r /\
     e_target (h r) = e_target r /\ e_alive (h r) = e_alive r) ->
  (forall r, edges g !! e = Some r -> e_alive r = true ->
     length (fromClocks (h r)) = length (clocks g) /\ length (toClocks (h r)) = length (clocks g)) ->
  graph_wf (set_edges (alter h e) g) /\
  forall e', edge_ends (set_edges (alter h e) g) e' = edge_ends g e'.
Proof.
  intros Hwf Hh Hm. apply set_edges_wf; [done|apply length_alter|]. intros e' r' He'.
  rewrite list_lookup_alter in He'. case_decide as Hd; [subst e'|].
  - destruct (edges g !! e) as [r|] eqn:E; [|done]. injection He' as <-. exists r.
    destruct (Hh r) as (? & ? & ? & ?). split_and!; [done..|]. intros Hal. by apply Hm.
  - exists r'. split_and!; [done..|]. intros Hal. by apply (wf_masks g Hwf e').
Qed.

Lemma alter_node_wf g n h :
  graph_wf g ->
  (forall r, n_index (h r) = n_index r /\ n_alive (h r) = n_alive r /\ inEdges (h r) = inEdges r /\
     outEdges (h r) = outEdges r /\ captureInEdges (h r) = captureInEdges r /\
     captureOutEdges (h r) = captureOutEdges r) ->
  graph_wf (set_nodes (alter h n) g).
Proof.
  intros Hwf Hh.
  assert (forall m, isNodeValid (set_nodes (alter h n) g) m = isNodeValid g m) as Hvalid
    by (intros m; eapply alter_valid; [done|apply Hh]).
  split; cbn [set_nodes nodes edges captureEdges freeNodes freeEdges freeCaptureEdges clocks
    liveNodes liveEdges liveCaptureEdges]; try apply Hwf.
  - rewrite alter_alive by apply Hh. apply Hwf.
  - eapply links_ext; [exact (wf_links g Hwf)|done|..]; intros m; apply field_alter_same; apply Hh.
  - eapply links_ext; [exact (wf_capture_links g Hwf)|done|..]; intros m; apply field_alter_same;
      apply Hh.
  - intros e s t He. rewrite !Hvalid. by apply (wf_ends g Hwf e).
  - intros e s t He. rewrite !Hvalid. by apply (wf_capture_ends g Hwf e).
  - apply alter_index; [apply Hh|apply Hwf].
Qed.

(** * Every graph a client can build *)

(** The public operations; masks are set with one bit per clock. *)
Inductive graph_step : TGraph -> TGraph -> Prop :=
| step_createNode g p : graph_step g (createNode g p).2
| step_createEdge g s t p : graph_step g (createEdge g s t p).2
| step_createCaptureEdge g s t : graph_step g (createCaptureEdge g s t).2
| step_removeNode g n : graph_step g (removeNode g n).2
| step_removeEdge g e : graph_step g (removeEdge g e).2
| step_removeCaptureEdge g e : graph_step g (removeCaptureEdge g e).2
| step_createClock g name target n c g' :
    createClock g name target n = Ret (c, g') -> graph_step g g'
| step_setCellKind g n k : graph_step g (set_nodes (alter (setCellKind k) n) g)
| step_setPinRole g n k : graph_step g (set_nodes (alter (setPinRole k) n) g)
| step_setDisabled g e b : graph_step g (set_edges (alter (setDisabled b) e) g)
| step_setFromClocks g e m :
    length m = length (clocks g) -> graph_step g (set_edges (alter (setFromClocks m) e) g)
| step_setToClocks g e m :
    length m = length (clocks g) -> graph_step g (set_edges (alter (setToClocks m) e) g).

Lemma graph_step_wf g g' : graph_wf g -> graph_step g g' -> graph_wf g'.
Proof.
  intros Hwf Hstep. destruct Hstep.
  - by apply createNode_wf.
  - by apply createEdge_wf.
  - by apply createCaptureEdge_wf.
  - by apply removeNode_wf.
  - by apply removeEdge_wf.
  - by apply removeCaptureEdge_wf.
  - by eapply createClock_wf.
  - by apply alter_node_wf.
  - by apply alter_node_wf.
  - apply alter_edge_wf; [done|done|]. intros r. cbn. apply (wf_masks g Hwf).
  - apply alter_edge_wf; [done|done|]. intros r Hr Hal. cbn. split; [done|].
    by apply (wf_masks g Hwf e).
  - apply alter_edge_wf; [done|done|]. intros r Hr Hal. cbn. split; [|done].
    by apply (wf_masks g Hwf e).
Qed.

(** C12. Every graph a client reaches through the public operations satisfies the
    invariant: the adjacency lists of a node hold each live edge that leaves or
    enters it once and no other; both ends of a live edge are live nodes; the
    free lists hold each dead slot once; the counters count the live slots; and
    every live edge has one bit per clock in both masks. *)
Theorem graph_reachable_wf g : rtc graph_step graph_default g -> graph_wf g.
Proof.
  intros Hg. assert (forall g0, rtc graph_step g0 g -> graph_wf g0 -> graph_wf g) as H.
  { clear Hg. induction 1; [done|]. eauto using graph_step_wf. }
  eapply H; [done|apply graph_default_wf].
Qed.

Lemma graph_reachable_wf_witness :
  let g := createNode graph_default None in
  let g' := createNode g.2 None in
  let g'' := (createEdge g'.2 g.1 g'.1 None).2 in
  let g3 := (removeNode g'' 0).2 in
  liveEdges g'' = 1 /\ liveEdges g3 = 0 /\ liveNodes g3 = 1 /\ graph_wf g3.
Proof.
  intros g g' g'' g3. split_and!; [done..|]. apply graph_reachable_wf.
  apply rtc_l with g.2; [apply step_createNode|].
  apply rtc_l with g'.2; [apply step_createNode|].
  apply rtc_l with g''; [apply step_createEdge|].
  apply rtc_once, step_removeNode.
Defined.
