(* ===== verification/TLoopBreaker.v ===== *)
(** [TLoopBreaker::run] (src/src/tgraph/TLoopBreaker.cpp): a depth-first walk
    over the enabled edges that disables the edge closing each cycle. *)
From S2P Require Import Prelude TGraph TGraphInvariant.
Local Open Scope nat_scope.

(** * The walk *)

Inductive Color := White | Gray | Black.
#[export] Instance color_eq_dec : EqDecision Color.
Proof. solve_decision. Defined.

(** The stack holds (node, next out-edge to visit), its top first. *)
Record lb_state := mkLB {
  lb_graph : TGraph;
  lb_color : list Color;
  lb_stack : list (NodeId * nat);
  lb_count : nat }.

(** One round of the inner loop; a null node or a color out of range is
    undefined. *)
Definition lb_step (s : lb_state) : outcome lb_state :=
  match lb_stack s with
  | [] => Ret s
  | (cur, edgeIdx) :: st =>
      match getNode (lb_graph s) cur with
      | None => Undef
      | Some node =>
          match outEdges node !! edgeIdx with
          | None => Ret (mkLB (lb_graph s) (<[cur := Black]> (lb_color s)) st (lb_count s))
          | Some eid =>
              let st := (cur, S edgeIdx) :: st in
              match getEdge (lb_graph s) eid with
              | None => Ret (mkLB (lb_graph s) (lb_color s) st (lb_count s))
              | Some edge =>
                  if disabled edge then Ret (mkLB (lb_graph s) (lb_color s) st (lb_count s))
                  else
                    let next := e_target edge in
                    match lb_color s !! next with
                    | None => Undef
                    | Some White =>
                        Ret (mkLB (lb_graph s) (<[next := Gray]> (lb_color s))
                               ((next, 0) :: st) (lb_count s))
                    | Some Gray =>
                        Ret (mkLB (set_edges (alter (setDisabled true) eid) (lb_graph s))
                               (lb_color s) st (S (lb_count s)))
                    | Some Black => Ret (mkLB (lb_graph s) (lb_color s) st (lb_count s))
                    end
              end
          end
      end
  end.

Fixpoint lb_loop (fuel : nat) (s : lb_state) : outcome lb_state :=
  match lb_stack s with
  | [] => Ret s
  | _ :: _ =>
      match fuel with
      | O => Undef
      | S fuel => s ← lb_step s; lb_loop fuel s
      end
  end.

(** Two rounds per node and one per out-edge are enough. *)
Definition lb_fuel (g : TGraph) : nat :=
  sum_list ((fun n => 2 + length (outEdges n)) <$> nodes g).

Definition lb_start (fuel : nat) (acc : outcome lb_state) (start : NodeId) : outcome lb_state :=
  s ← acc;
  if negb (isNodeValid (lb_graph s) start) || bool_decide (lb_color s !! start <> Some White)
  then Ret s
  else lb_loop fuel (mkLB (lb_graph s) (<[start := Gray]> (lb_color s)) [(start, 0)] (lb_count s)).

(** The number of disabled edges, and the graph. *)
Definition lb_run (g : TGraph) : outcome (nat * TGraph) :=
  let nodesCount := length (nodes g) in
  s ← foldl (lb_start (lb_fuel g)) (Ret (mkLB g (replicate nodesCount White) [] 0))
        (seq 0 nodesCount);
  Ret (lb_count s, lb_graph s).

(** * Enabled edges *)

Definition enabled (g : TGraph) (u v : NodeId) : Prop :=
  exists e r, edges g !! e = Some r /\ e_alive r = true /\ disabled r = false /\
    e_source r = u /\ e_target r = v.

Definition disable_all (ds : list EdgeId) (g : TGraph) : TGraph :=
  foldl (fun g e => set_edges (alter (setDisabled true) e) g) g ds.

Lemma disable_all_snoc ds e g :
  disable_all (ds ++ [e]) g = set_edges (alter (setDisabled true) e) (disable_all ds g).
Proof. unfold disable_all. by rewrite foldl_app. Qed.

Lemma disable_all_nodes ds g : nodes (disable_all ds g) = nodes g.
Proof. induction ds as [|e ds IH] using rev_ind; [done|]. by rewrite disable_all_snoc. Qed.

Lemma disable_all_edge ds g e :
  edges (disable_all ds g) !! e =
    (fun r => if decide (e ∈ ds) then setDisabled true r else r) <$> edges g !! e.
Proof.
  induction ds as [|d ds IH] using rev_ind.
  - cbn. by destruct (edges g !! e).
  - rewrite disable_all_snoc. cbn [set_edges edges]. destruct (decide (d = e)) as [->|Hne].
    + rewrite list_lookup_alter_eq, IH. destruct (edges g !! e); [cbn|done].
      rewrite (decide_True (P := e ∈ ds ++ [e])) by set_solver. by case_decide.
    + rewrite list_lookup_alter_ne, IH by done. destruct (edges g !! e); [cbn|done].
      destruct (decide (e ∈ ds)), (decide (e ∈ ds ++ [d])); try done; set_solver.
Qed.

Lemma disable_all_enabled ds g u v :
  enabled (disable_all ds g) u v <->
    exists e r, edges g !! e = Some r /\ e_alive r = true /\ disabled r = false /\
      e_source r = u /\ e_target r = v /\ e ∉ ds.
Proof.
  unfold enabled. setoid_rewrite disable_all_edge. split.
  - intros (e & r' & He & Ha & Hd & Hs & Ht). apply fmap_Some in He as (r & He & ->).
    case_decide; [done|]. eauto 10.
  - intros (e & r & He & Ha & Hd & Hs & Ht & Hni). exists e, r. rewrite He. cbn.
    by rewrite decide_False.
Qed.

Lemma disable_all_wf ds g : graph_wf g -> graph_wf (disable_all ds g).
Proof.
  intros Hwf. induction ds as [|e ds IH] using rev_ind; [done|]. rewrite disable_all_snoc.
  eapply graph_step_wf; [done|constructor].
Qed.

Lemma enabled_mono ds g u v : enabled (disable_all ds g) u v -> enabled g u v.
Proof. rewrite disable_all_enabled. intros (e & r & ? & ? & ? & ? & ? & _). by exists e, r. Qed.

(** An enabled edge is one of its source's out-edges. *)
Lemma enabled_out g u v :
  graph_wf g -> enabled g u v ->
  exists e r node, nodes g !! u = Some node /\ n_alive node = true /\ e ∈ outEdges node /\
    edges g !! e = Some r /\ e_alive r = true /\ disabled r = false /\
    e_source r = u /\ e_target r = v.
Proof.
  intros Hwf (e & r & He & Ha & Hd & Hs & Ht).
  assert (edge_ends g e = Some (u, v)) as Hends by (apply edge_ends_Some; eauto).
  destruct (wf_ends g Hwf _ _ _ Hends) as [(node & Hn & Hal)%isNodeValid_lookup _].
  exists e, r, node. split_and!; try done.
  destruct (wf_links g Hwf u) as (_ & Ho & _).
  unfold outs, field in Ho. rewrite Hn in Ho. apply Ho. eauto.
Qed.

Lemma enabled_valid g u v :
  graph_wf g -> enabled g u v -> isNodeValid g u = true /\ isNodeValid g v = true.
Proof.
  intros Hwf (e & r & He & Ha & Hd & Hs & Ht). apply (wf_ends g Hwf e), edge_ends_Some. eauto.
Qed.
