(* ===== verification/TLoopBreakerProofs.v ===== *)
(** [TLoopBreaker] terminates, leaves the enabled edges without a cycle, and
    disables only edges that close one. *)
From S2P Require Import Prelude TGraph TGraphInvariant TLoopBreaker.
Local Open Scope nat_scope.

(** * The invariant of the walk *)

(** Every enabled out-edge a frame has passed leads to a finished node or to the
    node of the frame above; the frames are linked by edges of the start graph. *)
Fixpoint frames_ok (g0 g : TGraph) (finished : list NodeId) (above : option NodeId)
    (st : list (NodeId * nat)) : Prop :=
  match st with
  | [] => True
  | (u, idx) :: st =>
      (forall node j e r, nodes g !! u = Some node -> outEdges node !! j = Some e -> j < idx ->
         edges g !! e = Some r -> e_alive r = true -> disabled r = false ->
         e_target r ∈ finished \/ above = Some (e_target r)) /\
      (forall w, above = Some w -> enabled g0 u w) /\
      frames_ok g0 g finished (Some u) st
  end.

(** Finished nodes: the last one first; their enabled edges lead to earlier ones. *)
Definition finished_ok (g : TGraph) (finished : list NodeId) : Prop :=
  NoDup finished /\
  forall l1 u l2, finished = l1 ++ u :: l2 -> forall v, enabled g u v -> v ∈ l2.

(** Edges disabled so far: enabled before, each closing a cycle of the start. *)
Definition cuts_ok (g0 : TGraph) (ds : list EdgeId) : Prop :=
  NoDup ds /\
  forall e, e ∈ ds -> exists r, edges g0 !! e = Some r /\ e_alive r = true /\
    disabled r = false /\ rtc (enabled g0) (e_target r) (e_source r).

Record walk_inv (g0 : TGraph) (s : lb_state) (ds finished : list NodeId) : Prop := {
  walk_graph : lb_graph s = disable_all ds g0;
  walk_count : lb_count s = length ds;
  walk_cuts : cuts_ok g0 ds;
  walk_colors : length (lb_color s) = length (nodes g0);
  walk_gray n : lb_color s !! n = Some Gray <-> n ∈ (lb_stack s).*1;
  walk_black n : lb_color s !! n = Some Black <-> n ∈ finished;
  walk_stack : NoDup (lb_stack s).*1;
  walk_valid n : n ∈ (lb_stack s).*1 -> isNodeValid g0 n = true;
  walk_finished : finished_ok (lb_graph s) finished;
  walk_frames : frames_ok g0 (lb_graph s) finished None (lb_stack s) }.

Lemma disable_all_valid ds g n : isNodeValid (disable_all ds g) n = isNodeValid g n.
Proof. unfold isNodeValid. by rewrite disable_all_nodes. Qed.

(** Growing the finished list keeps the frames. *)
Lemma frames_ok_finished g0 g finished u above st :
  frames_ok g0 g finished above st -> frames_ok g0 g (u :: finished) above st.
Proof.
  revert above. induction st as [|[v idx] st IH]; intros above; [done|].
  intros (H1 & H2 & H3). split_and!; [|done|by apply IH].
  intros node j e r Hn Hj Hlt He Ha Hd. destruct (H1 node j e r Hn Hj Hlt He Ha Hd); [left|right]; [by right|done].
Qed.

(** The frame below a finished node no longer refers to it. *)
Lemma frames_ok_pop g0 g finished u st :
  frames_ok g0 g finished (Some u) st -> frames_ok g0 g (u :: finished) None st.
Proof.
  intros H. destruct st as [|[v idx] st]; [done|]. destruct H as (H1 & H2 & H3). split_and!.
  - intros node j e r Hn Hj Hlt He Ha Hd.
    destruct (H1 node j e r Hn Hj Hlt He Ha Hd) as [|[= ->]]; left; [by right|left].
  - done.
  - by apply frames_ok_finished.
Qed.

(** Disabling an edge keeps the frames. *)
Lemma frames_ok_disable g0 ds e finished above st :
  frames_ok g0 (disable_all ds g0) finished above st ->
  frames_ok g0 (disable_all (ds ++ [e]) g0) finished above st.
Proof.
  revert above. induction st as [|[v idx] st IH]; intros above; [done|].
  intros (H1 & H2 & H3). split_and!; [|done|by apply IH].
  intros node j e' r' Hn Hj Hlt He Ha Hd. rewrite disable_all_nodes in Hn.
  rewrite disable_all_edge in He. apply fmap_Some in He as (r & He & ->).
  case_decide as Hin; [done|].
  eapply (H1 node j e'); rewrite ?disable_all_nodes; try done.
  rewrite disable_all_edge, He. cbn. rewrite decide_False; [done|]. set_solver.
Qed.

Lemma finished_ok_disable g0 ds e finished :
  finished_ok (disable_all ds g0) finished -> finished_ok (disable_all (ds ++ [e]) g0) finished.
Proof.
  intros [Hnd H]. split; [done|]. intros l1 u l2 Hl v Hv. apply (H l1 u l2 Hl).
  apply disable_all_enabled in Hv as (e' & r & ? & ? & ? & ? & ? & Hni).
  apply disable_all_enabled. exists e', r. split_and!; [done..|]. set_solver.
Qed.

(** From any frame the walk reaches the frames above it. *)
Lemma frames_reach g0 g finished above st n w :
  frames_ok g0 g finished above st -> n ∈ st.*1 -> above = Some w -> rtc (enabled g0) n w.
Proof.
  revert above w. induction st as [|[v idx] st IH]; intros above w.
  { intros _ H. by apply not_elem_of_nil in H. }
  intros (_ & H2 & H3) Hn Hw. cbn in Hn. apply elem_of_cons in Hn as [->|Hn].
  - apply rtc_once. by apply H2.
  - eapply rtc_r; [by eapply IH|by apply H2].
Qed.

Lemma frames_reach_top g0 g finished above cur idx st n :
  frames_ok g0 g finished above ((cur, idx) :: st) -> n ∈ cur :: st.*1 ->
  rtc (enabled g0) n cur.
Proof.
  intros (_ & _ & H) Hn. apply elem_of_cons in Hn as [->|Hn]; [done|]. by eapply frames_reach.
Qed.

(** The colors stay disjoint: a finished node is not on the stack. *)
Lemma walk_disjoint g0 s ds finished n :
  walk_inv g0 s ds finished -> n ∈ (lb_stack s).*1 -> n ∉ finished.
Proof.
  intros H Hs Hf. apply (walk_gray _ _ _ _ H) in Hs. apply (walk_black _ _ _ _ H) in Hf. congruence.
Qed.

(** * One round keeps it *)

(** The frame on top looks one edge further. *)
Lemma frames_advance g0 g finished cur idx st above node eid :
  frames_ok g0 g finished None ((cur, idx) :: st) ->
  nodes g !! cur = Some node -> outEdges node !! idx = Some eid ->
  (forall r, edges g !! eid = Some r -> e_alive r = true -> disabled r = false ->
     e_target r ∈ finished \/ above = Some (e_target r)) ->
  (forall w, above = Some w -> enabled g0 cur w) ->
  frames_ok g0 g finished above ((cur, S idx) :: st).
Proof.
  intros (H1 & _ & H3) Hn Hidx Heid Habove. split_and!; [|done|done].
  intros node' j e r Hn' Hj Hlt He Ha Hd. assert (node' = node) as -> by congruence.
  destruct (decide (j = idx)) as [->|Hne].
  - assert (e = eid) as -> by congruence. by apply Heid.
  - destruct (H1 node j e r Hn Hj ltac:(lia) He Ha Hd); [by left|done].
Qed.

(** A finished top frame. *)
Lemma finished_push g cur idx st g0 finished node :
  graph_wf g -> finished_ok g finished -> frames_ok g0 g finished None ((cur, idx) :: st) ->
  nodes g !! cur = Some node -> outEdges node !! idx = None -> cur ∉ finished ->
  finished_ok g (cur :: finished).
Proof.
  intros Hwf [Hnd Hf] (H1 & _ & _) Hn Hidx Hni. split; [by constructor|].
  intros [|x l1] u l2 Heq v Hv; cbn in Heq.
  - injection Heq as <- <-.
    destruct (enabled_out g cur v Hwf Hv) as (e & r & node' & Hn' & _ & He & Her & Ha & Hd & _ & <-).
    assert (node' = node) as -> by congruence.
    apply list_elem_of_lookup_1 in He as [j Hj].
    destruct (H1 node j e r Hn Hj) as [|]; try done.
    apply lookup_ge_None in Hidx. apply lookup_lt_Some in Hj. lia.
  - injection Heq as -> ->. by eapply Hf.
Qed.

Definition walk_step_ok (g0 : TGraph) (s s' : lb_state) : Prop :=
  (exists ds finished, walk_inv g0 s' ds finished) /\
  (forall n, lb_color s !! n <> Some White -> lb_color s' !! n <> Some White).

Lemma lb_step_inv g0 s ds finished :
  graph_wf g0 -> walk_inv g0 s ds finished -> lb_stack s <> [] ->
  exists s', lb_step s = Ret s' /\ walk_step_ok g0 s s'.
Proof.
  intros Hwf H Hne. destruct s as [g color [|[cur idx] st] count]; [done|]. clear Hne.
  pose proof (walk_graph _ _ _ _ H) as Hg. cbn in Hg. subst g.
  assert (graph_wf (disable_all ds g0)) as Hwfd by (by apply disable_all_wf).
  pose proof (walk_valid _ _ _ _ H cur ltac:(cbn; left)) as Hcur.
  apply isNodeValid_lookup in Hcur as (node & Hn & Hal).
  assert (nodes (disable_all ds g0) !! cur = Some node) as Hn' by (by rewrite disable_all_nodes).
  pose proof (walk_disjoint _ _ _ _ cur H ltac:(cbn; left)) as Hnf.
  pose proof H as [_ Hcount Hcuts Hcol Hgray Hblack Hst Hval Hfin Hframes].
  cbn [lb_graph lb_color lb_stack lb_count] in *.
  unfold lb_step. cbn [lb_graph lb_color lb_stack lb_count]. unfold getNode, isNodeValid.
  rewrite Hn', Hal. destruct (outEdges node !! idx) as [eid|] eqn:Hidx.
  2:{ eexists. split; [done|]. split.
    - exists ds, (cur :: finished). cbn in Hst. apply NoDup_cons in Hst as [Hcst Hst].
      assert (cur < length color) as Hlt.
      { apply (lookup_lt_Some color cur Gray), Hgray. left. }
      split; cbn [lb_graph lb_color lb_stack lb_count]; try done.
      + by rewrite length_insert.
      + intros n. destruct (decide (n = cur)) as [->|Hne].
        * rewrite list_lookup_insert_eq by done. split; [done|]. intros Hin. done.
        * rewrite list_lookup_insert_ne, Hgray by done. cbn. set_solver.
      + intros n. destruct (decide (n = cur)) as [->|Hne].
        * rewrite list_lookup_insert_eq by done. split; [left|done].
        * rewrite list_lookup_insert_ne, Hblack by done. set_solver.
      + intros n Hin. apply Hval. by right.
      + eapply finished_push; [exact Hwfd|exact Hfin|exact Hframes|exact Hn'|exact Hidx|exact Hnf].
      + apply frames_ok_pop. apply Hframes.
    - intros n Hw. cbn in *. destruct (decide (n = cur)) as [->|Hne].
      + rewrite list_lookup_insert. by case_decide.
      + by rewrite list_lookup_insert_ne. }
  assert (forall color' count', (forall r, edges (disable_all ds g0) !! eid = Some r ->
      e_alive r = true -> disabled r = false -> e_target r ∈ finished) ->
    color' = color -> count' = count ->
    walk_inv g0 (mkLB (disable_all ds g0) color' ((cur, S idx) :: st) count') ds finished) as Hskip.
  { intros ?? Htgt -> ->. split; cbn [lb_graph lb_color lb_stack lb_count]; try done.
    eapply frames_advance; [exact Hframes|exact Hn'|exact Hidx| |done].
    intros r Hr Ha Hd. left. by apply Htgt. }
  destruct (getEdge (disable_all ds g0) eid) as [edge|] eqn:Hedge.
  2:{ eexists. split; [done|]. split; [|done]. exists ds, finished. apply Hskip; [|done..].
    intros r Hr Ha _. unfold getEdge, isEdgeValid in Hedge. rewrite Hr, Ha in Hedge. done. }
  assert (edges (disable_all ds g0) !! eid = Some edge /\ e_alive edge = true) as [Hedge' Halive].
  { unfold getEdge, isEdgeValid in Hedge. destruct (edges _ !! eid) as [r|]; [|done].
    destruct (e_alive r) eqn:?; [|done]. by injection Hedge as <-. }
  destruct (disabled edge) eqn:Hdis.
  { eexists. split; [done|]. split; [|done]. exists ds, finished. apply Hskip; [|done..].
    intros r Hr _ Hd. congruence. }
  set (next := e_target edge) in *.
  assert (edge_ends (disable_all ds g0) eid = Some (e_source edge, next)) as Hends
    by (apply edge_ends_Some; eauto).
  assert (e_source edge = cur) as Hsrc.
  { destruct (wf_links _ Hwfd cur) as (_ & Ho & _). unfold outs, field in Ho. rewrite Hn' in Ho.
    destruct (proj1 (Ho eid)) as [t Ht]; [by eapply list_elem_of_lookup_2|]. cbn in Ht. congruence. }
  assert (enabled (disable_all ds g0) cur next) as Henab by (exists eid, edge; done).
  assert (isNodeValid g0 next = true) as Hnv.
  { rewrite <- (disable_all_valid ds). by eapply enabled_valid. }
  destruct (lookup_lt_is_Some_2 color next) as [c Hc].
  { rewrite Hcol. apply isNodeValid_lookup in Hnv as (? & ? & _). by eapply lookup_lt_Some. }
  rewrite Hc. destruct c.
  - eexists. split; [done|]. split.
    + exists ds, finished. split; cbn [lb_graph lb_color lb_stack lb_count]; try done.
      * by rewrite length_insert.
      * intros n. destruct (decide (n = next)) as [->|Hne].
        -- rewrite list_lookup_insert_eq by (by eapply lookup_lt_Some). split; [left|done].
        -- rewrite list_lookup_insert_ne, Hgray by done. set_solver.
      * intros n. destruct (decide (n = next)) as [->|Hne].
        -- rewrite list_lookup_insert_eq by (by eapply lookup_lt_Some).
           split; [done|]. intros Hin%Hblack. congruence.
        -- by rewrite list_lookup_insert_ne, Hblack.
      * cbn. constructor; [|done]. intros Hin%Hgray. congruence.
      * intros n Hin. cbn in Hin. apply elem_of_cons in Hin as [->|Hin]; [done|]. by apply Hval.
      * split_and!; [intros; lia|done|].
        eapply frames_advance; [exact Hframes|exact Hn'|exact Hidx| |].
        -- intros r Hr _ _. right. unfold next. congruence.
        -- intros w [= <-]. by eapply enabled_mono.
    + intros n Hw. cbn in *. destruct (decide (n = next)) as [->|Hne].
      * rewrite list_lookup_insert. by case_decide.
      * by rewrite list_lookup_insert_ne.
  - eexists. split; [done|]. split; [|done]. exists (ds ++ [eid]), finished.
    assert (edges g0 !! eid = Some edge /\ eid ∉ ds) as [He0 Hni].
    { rewrite disable_all_edge in Hedge'. apply fmap_Some in Hedge' as (r & Hr & ->).
      case_decide; [done|]. done. }
    split; cbn [lb_graph lb_color lb_stack lb_count]; try done.
    + by rewrite disable_all_snoc.
    + rewrite length_app. cbn. lia.
    + destruct Hcuts as [Hnd Hcut]. split.
      * apply NoDup_app. split_and!; [done| |apply NoDup_singleton].
        intros x Hx ->%list_elem_of_singleton. done.
      * intros e He. apply elem_of_app in He as [He|He]; [by apply Hcut|].
        apply list_elem_of_singleton in He as ->.
        exists edge. split_and!; [done..|]. rewrite Hsrc.
        eapply frames_reach_top; [exact Hframes|]. by apply Hgray.
    + rewrite <- disable_all_snoc. by apply finished_ok_disable.
    + rewrite <- disable_all_snoc. eapply frames_advance.
      * apply frames_ok_disable, Hframes.
      * by rewrite disable_all_nodes.
      * done.
      * intros r Hr _ Hd. rewrite disable_all_edge, He0 in Hr. cbn in Hr.
        rewrite decide_True in Hr by set_solver. injection Hr as <-. done.
      * done.
  - eexists. split; [done|]. split; [|done]. exists ds, finished. apply Hskip; [|done..].
    intros r Hr _ _. assert (r = edge) as -> by congruence. by apply Hblack.
Qed.

(** * The loops end *)

(** What is left to do: two rounds and the out-edges of each white node, one
    round and the edges not yet passed of each frame. *)
Definition node_weight (c : Color) (n : TNode) : nat :=
  match c with White => 2 + length (outEdges n) | _ => 0 end.
Definition white_weight (g : TGraph) (color : list Color) : nat :=
  sum_list (zip_with node_weight color (nodes g)).
Definition frame_weight (g : TGraph) (f : NodeId * nat) : nat :=
  S (length (outs g f.1) - f.2).
Definition walk_weight (g : TGraph) (s : lb_state) : nat :=
  white_weight g (lb_color s) + sum_list (frame_weight g <$> lb_stack s).

Lemma sum_zip_insert {A B} (w : A -> B -> nat) (l : list A) (k : list B) i c c' n :
  l !! i = Some c -> k !! i = Some n ->
  sum_list (zip_with w (<[i := c']> l) k) + w c n = sum_list (zip_with w l k) + w c' n.
Proof.
  revert l k. induction i as [|i IH]; intros [|x l] [|y k]; try done; cbn.
  - intros [= ->] [= ->]. lia.
  - intros Hl Hk. rewrite <- !Nat.add_assoc. f_equal. exact (IH _ _ Hl Hk).
Qed.

Lemma white_weight_set g color i c c' n :
  color !! i = Some c -> nodes g !! i = Some n ->
  white_weight g (<[i := c']> color) + node_weight c n =
  white_weight g color + node_weight c' n.
Proof. apply sum_zip_insert. Qed.

Definition stack_weight (g : TGraph) (st : list (NodeId * nat)) : nat :=
  sum_list (frame_weight g <$> st).
Lemma walk_weight_eq g0 g color st count :
  walk_weight g0 (mkLB g color st count) = white_weight g0 color + stack_weight g0 st.
Proof. reflexivity. Qed.
Lemma stack_weight_cons g f st : stack_weight g (f :: st) = frame_weight g f + stack_weight g st.
Proof. reflexivity. Qed.
Lemma frame_weight_eq g n idx node :
  nodes g !! n = Some node -> frame_weight g (n, idx) = S (length (outEdges node) - idx).
Proof. intros Hn. unfold frame_weight, outs, field. cbn. by rewrite Hn. Qed.

Lemma lb_step_weight g0 s s' ds finished :
  walk_inv g0 s ds finished -> lb_stack s <> [] -> lb_step s = Ret s' ->
  walk_weight g0 s' < walk_weight g0 s.
Proof.
  intros H Hne Hstep. destruct s as [g color [|[cur idx] st] count]; [done|]. clear Hne.
  pose proof (walk_graph _ _ _ _ H) as Hg. cbn in Hg. subst g.
  pose proof (walk_valid _ _ _ _ H cur ltac:(cbn; left)) as (node & Hn & Hal)%isNodeValid_lookup.
  assert (color !! cur = Some Gray) as Hgray by (apply (walk_gray _ _ _ _ H); left).
  unfold lb_step in Hstep. cbn [lb_graph lb_color lb_stack lb_count] in Hstep.
  unfold getNode, isNodeValid in Hstep. rewrite disable_all_nodes, Hn, Hal in Hstep.
  pose proof (fun i => frame_weight_eq g0 cur i node Hn) as Hframe.
  rewrite walk_weight_eq, stack_weight_cons, Hframe.
  destruct (outEdges node !! idx) as [eid|] eqn:Hidx.
  2:{ injection Hstep as <-. rewrite walk_weight_eq.
      pose proof (white_weight_set g0 color cur Gray Black node Hgray Hn) as Hw.
      cbn [node_weight] in Hw. lia. }
  apply lookup_lt_Some in Hidx as Hlt.
  assert (forall color' g' count', white_weight g0 color' = white_weight g0 color ->
    walk_weight g0 (mkLB g' color' ((cur, S idx) :: st) count') <
    white_weight g0 color + (S (length (outEdges node) - idx) + stack_weight g0 st)) as Hadv.
  { intros color' g' count' Hw. rewrite walk_weight_eq, stack_weight_cons, Hframe. lia. }
  destruct (getEdge _ eid) as [edge|]; [|injection Hstep as <-; by apply Hadv].
  destruct (disabled edge); [injection Hstep as <-; by apply Hadv|].
  destruct (color !! e_target edge) as [[]|] eqn:Hc; [| | |done];
    injection Hstep as <-; [|by apply Hadv..].
  assert (is_Some (nodes g0 !! e_target edge)) as [m Hm].
  { apply lookup_lt_is_Some. rewrite <- (walk_colors _ _ _ _ H). by eapply lookup_lt_Some. }
  pose proof (white_weight_set g0 color (e_target edge) White Gray m Hc Hm) as Hw.
  cbn [node_weight] in Hw.
  rewrite walk_weight_eq, !stack_weight_cons, Hframe, (frame_weight_eq _ _ _ _ Hm). lia.
Qed.

(** ** The inner loop *)

Lemma lb_loop_inv g0 fuel s ds finished :
  graph_wf g0 -> walk_inv g0 s ds finished -> walk_weight g0 s <= fuel ->
  exists s', lb_loop fuel s = Ret s' /\ lb_stack s' = [] /\ walk_step_ok g0 s s' /\
    walk_weight g0 s' <= walk_weight g0 s.
Proof.
  intros Hwf. revert s ds finished. induction fuel as [|fuel IH]; intros s ds finished H Hw.
  - destruct (lb_stack s) as [|f st] eqn:Hst.
    + exists s. cbn. rewrite Hst. split_and!; [done..| |done]. split; [eauto|done].
    + destruct s as [g color st' count]. cbn [lb_stack] in Hst. subst st'.
      rewrite walk_weight_eq, stack_weight_cons in Hw. unfold frame_weight in Hw. lia.
  - cbn [lb_loop]. destruct (lb_stack s) as [|f st] eqn:Hst.
    { exists s. split_and!; [done..| |done]. split; [eauto|done]. }
    assert (lb_stack s <> []) as Hne by (by rewrite Hst).
    destruct (lb_step_inv _ _ _ _ Hwf H Hne) as (s1 & Hstep & (ds1 & fin1 & H1) & Hmono).
    pose proof (lb_step_weight _ _ _ _ _ H Hne Hstep) as Hlt.
    rewrite Hstep. cbn [mbind outcome_bind].
    destruct (IH s1 ds1 fin1 H1) as (s' & Hl & Hs' & [Hex Hmono'] & Hw'); [lia|].
    exists s'. split_and!; [done..| |lia]. split; [done|]. eauto.
Qed.

(** ** The outer loop *)

Lemma lb_start_inv g0 fuel s ds finished start :
  graph_wf g0 -> walk_inv g0 s ds finished -> lb_stack s = [] -> walk_weight g0 s <= fuel ->
  exists s', lb_start fuel (Ret s) start = Ret s' /\ lb_stack s' = [] /\ walk_step_ok g0 s s' /\
    walk_weight g0 s' <= walk_weight g0 s /\
    (isNodeValid g0 start = true -> lb_color s' !! start <> Some White).
Proof.
  intros Hwf H Hst Hw. unfold lb_start. cbn [mbind outcome_bind].
  rewrite (walk_graph _ _ _ _ H), disable_all_valid.
  destruct (isNodeValid g0 start) eqn:Hv; cbn [negb orb].
  2:{ exists s. split_and!; [done..| |done|done]. split; [eauto|done]. }
  case_bool_decide as Hc.
  { exists s. split_and!; [done..| |done|done]. split; [eauto|done]. }
  assert (lb_color s !! start = Some White) as Hwhite.
  { destruct (lb_color s !! start) as [[]|]; try done; exfalso; by apply Hc. }
  apply isNodeValid_lookup in Hv as Hv'. destruct Hv' as (node & Hn & Hal).
  pose proof H as [Hg Hcount Hcuts Hcol Hgray Hblack _ Hval Hfin Hframes].
  rewrite Hst in Hgray. cbn in Hgray.
  set (s1 := mkLB _ _ _ _).
  assert (walk_inv g0 s1 ds finished) as H1.
  { split; cbn [s1 lb_graph lb_color lb_stack lb_count]; try done.
    - by rewrite length_insert.
    - intros n. destruct (decide (n = start)) as [->|Hne].
      + rewrite list_lookup_insert_eq by (by eapply lookup_lt_Some). split; [left|done].
      + rewrite list_lookup_insert_ne, Hgray by done. cbn. set_solver.
    - intros n. destruct (decide (n = start)) as [->|Hne].
      + rewrite list_lookup_insert_eq by (by eapply lookup_lt_Some).
        split; [done|]. intros Hin%Hblack. congruence.
      + by rewrite list_lookup_insert_ne, Hblack.
    - apply NoDup_singleton.
    - intros n Hin. cbn in Hin. by apply list_elem_of_singleton in Hin as ->.
    - by rewrite <- Hg.
    - split_and!; [intros; lia|done|done]. }
  assert (walk_weight g0 s1 < walk_weight g0 s) as Hlt.
  { pose proof (white_weight_set g0 (lb_color s) start White Gray node Hwhite Hn) as Hwg.
    cbn [node_weight] in Hwg. unfold s1. rewrite walk_weight_eq, stack_weight_cons.
    rewrite (frame_weight_eq _ _ _ _ Hn). destruct s as [g color st count]. cbn [lb_stack] in Hst.
    subst st. rewrite walk_weight_eq. change (stack_weight g0 []) with 0. cbn [lb_color] in *.
    lia. }
  destruct (lb_loop_inv g0 fuel s1 ds finished Hwf H1) as (s' & Hl & Hs' & [Hex Hmono] & Hw'); [lia|].
  exists s'. split_and!; [exact Hl|done| |lia|].
  - split; [done|]. intros n Hnw. apply Hmono. cbn [s1 lb_color].
    destruct (decide (n = start)) as [->|Hne]; [congruence|]. by rewrite list_lookup_insert_ne.
  - intros _. apply Hmono. cbn [s1 lb_color].
    by rewrite list_lookup_insert_eq by (by eapply lookup_lt_Some).
Qed.

Lemma lb_fold_inv g0 fuel l s ds finished :
  graph_wf g0 -> walk_inv g0 s ds finished -> lb_stack s = [] -> walk_weight g0 s <= fuel ->
  exists s' ds' finished', foldl (lb_start fuel) (Ret s) l = Ret s' /\ lb_stack s' = [] /\
    walk_inv g0 s' ds' finished' /\
    (forall n, lb_color s !! n <> Some White -> lb_color s' !! n <> Some White) /\
    (forall n, n ∈ l -> isNodeValid g0 n = true -> lb_color s' !! n <> Some White).
Proof.
  intros Hwf. revert s ds finished. induction l as [|start l IH]; intros s ds finished H Hst Hw.
  - exists s, ds, finished. split_and!; [done..|]. intros n Hn. by apply not_elem_of_nil in Hn.
  - cbn [foldl].
    destruct (lb_start_inv g0 fuel s ds finished start Hwf H Hst Hw)
      as (s1 & -> & Hst1 & [(ds1 & fin1 & H1) Hmono1] & Hw1 & Hstart).
    destruct (IH s1 ds1 fin1 H1 Hst1) as (s' & ds' & fin' & Hf & Hst' & H' & Hmono' & Hl); [lia|].
    exists s', ds', fin'. split_and!; [done..| |].
    + intros n Hn. by apply Hmono', Hmono1.
    + intros n [->|Hn]%elem_of_cons Hv; [by apply Hmono', Hstart|by apply Hl].
Qed.

Lemma lb_init_inv g0 :
  graph_wf g0 -> walk_inv g0 (mkLB g0 (replicate (length (nodes g0)) White) [] 0) [] [].
Proof.
  intros Hwf.
  assert (forall n c, replicate (length (nodes g0)) White !! n = Some c -> c = White) as Hw.
  { intros n c Hc. by apply lookup_replicate in Hc as [-> _]. }
  split; cbn [lb_graph lb_color lb_stack lb_count]; try done.
  - split; [constructor|]. intros e He. by apply not_elem_of_nil in He.
  - apply length_replicate.
  - intros n. split; [by intros ?%Hw|]. by intros ?%not_elem_of_nil.
  - intros n. split; [by intros ?%Hw|]. by intros ?%not_elem_of_nil.
  - constructor.
  - intros n Hn. by apply not_elem_of_nil in Hn.
  - split; [constructor|]. intros l1 u l2 Hl. by destruct l1.
Qed.

Lemma lb_init_weight g0 :
  walk_weight g0 (mkLB g0 (replicate (length (nodes g0)) White) [] 0) = lb_fuel g0.
Proof.
  rewrite walk_weight_eq. change (stack_weight g0 []) with 0. rewrite Nat.add_0_r.
  unfold white_weight, lb_fuel. by rewrite zip_with_replicate_l.
Qed.

(** The position of a finished node is a topological order. *)
Lemma finished_position g finished :
  finished_ok g finished -> (forall u v, enabled g u v -> u ∈ finished) ->
  exists pos, forall u v, enabled g u v -> pos u < pos v.
Proof.
  intros [Hnd Hf] Hall. exists (fun n => default 0 (fst <$> list_find (n =.) finished)).
  assert (forall l1 u l2, finished = l1 ++ u :: l2 ->
    default 0 (fst <$> list_find (u =.) finished) = length l1) as Hpos.
  { intros l1 u l2 Hl. destruct (list_find (u =.) finished) as [[i x]|] eqn:E; cbn.
    - apply list_find_Some in E as (Hi & <- & _).
      apply (NoDup_lookup finished i (length l1) u); [done|done|].
      rewrite Hl. by apply list_lookup_middle.
    - apply list_find_None in E. eapply Forall_forall with (x := u) in E; [done|].
      rewrite Hl. set_solver. }
  intros u v Huv. pose proof (Hall u v Huv) as Hu.
  apply list_elem_of_split in Hu as (l1 & l2 & Hl).
  pose proof (Hf l1 u l2 Hl v Huv) as Hv. apply list_elem_of_split in Hv as (l3 & l4 & Hl2).
  rewrite (Hpos l1 u l2 Hl). rewrite (Hpos (l1 ++ u :: l3) v l4).
  - rewrite length_app. cbn. lia.
  - rewrite Hl, Hl2, <- app_assoc. done.
Qed.

Lemma lb_run_spec g :
  graph_wf g ->
  exists ds, lb_run g = Ret (length ds, disable_all ds g) /\ cuts_ok g ds /\
    exists pos, forall u v, enabled (disable_all ds g) u v -> pos u < pos v.
Proof.
  intros Hwf. unfold lb_run.
  destruct (lb_fold_inv g (lb_fuel g) (seq 0 (length (nodes g))) _ _ _ Hwf (lb_init_inv g Hwf)
    eq_refl) as (s & ds & fin & -> & Hst & H & _ & Hall); [by rewrite lb_init_weight|].
  cbn [mbind outcome_bind]. exists ds.
  rewrite (walk_count _ _ _ _ H), (walk_graph _ _ _ _ H).
  split_and!; [done|by eapply walk_cuts|].
  apply finished_position with fin.
  { rewrite <- (walk_graph _ _ _ _ H). by eapply walk_finished. }
  intros u v Huv. apply (walk_black _ _ _ _ H).
  apply enabled_valid in Huv as [Hv _]; [|by apply disable_all_wf].
  rewrite disable_all_valid in Hv.
  assert (u ∈ seq 0 (length (nodes g))) as Hin.
  { apply elem_of_seq. apply isNodeValid_lookup in Hv as (r & Hr & _). apply lookup_lt_Some in Hr. lia. }
  assert (u < length (lb_color s)) as Hlt.
  { rewrite (walk_colors _ _ _ _ H). apply elem_of_seq in Hin. lia. }
  apply lookup_lt_is_Some in Hlt as [c Hc]. pose proof (Hall u Hin Hv) as Hnw.
  destruct c; [congruence| |done].
  apply (walk_gray _ _ _ _ H) in Hc. rewrite Hst in Hc. by apply not_elem_of_nil in Hc.
Qed.

Lemma tc_position (R : nat -> nat -> Prop) pos u v :
  (forall u v, R u v -> pos u < pos v) -> tc R u v -> pos u < pos v.
Proof.
  intros H. induction 1 as [u v Huv|u w v Huw _ IH]; [by apply H|].
  apply H in Huw. lia.
Qed.

(** C40. [TLoopBreaker::run] ends, returns the number of edges it disables, and
    leaves no cycle of enabled edges; it changes nothing else in the graph. *)
Theorem lb_run_acyclic g :
  graph_wf g ->
  exists ds, lb_run g = Ret (length ds, disable_all ds g) /\ NoDup ds /\
    forall n, ~ tc (enabled (disable_all ds g)) n n.
Proof.
  intros Hwf. destruct (lb_run_spec g Hwf) as (ds & Hr & [Hnd _] & pos & Hpos).
  exists ds. split_and!; [done..|]. intros n Hn. apply (tc_position _ pos) in Hn; [lia|done].
Qed.

(** A graph of a cycle of two nodes. *)
Definition two_cycle : TGraph :=
  let g := (createNode (createNode graph_default None).2 None).2 in
  (createEdge (createEdge g 0 1 None).2 1 0 None).2.

Lemma two_cycle_wf : graph_wf two_cycle.
Proof. repeat first [apply createEdge_wf|apply createNode_wf]. apply graph_default_wf. Qed.

Lemma lb_run_acyclic_witness :
  exists ds, lb_run two_cycle = Ret (length ds, disable_all ds two_cycle) /\ NoDup ds /\
    forall n, ~ tc (enabled (disable_all ds two_cycle)) n n.
Proof. apply lb_run_acyclic, two_cycle_wf. Defined.

(** C10. Every edge [TLoopBreaker] disables was enabled and closes a cycle of
    enabled edges, so on a graph without such a cycle it returns 0 and disables
    nothing. *)
Theorem lb_run_cuts_cycles g :
  graph_wf g ->
  exists ds, lb_run g = Ret (length ds, disable_all ds g) /\
    (forall e, e ∈ ds -> exists r, edges g !! e = Some r /\ e_alive r = true /\
       disabled r = false /\ rtc (enabled g) (e_target r) (e_source r)) /\
    ((forall n, ~ tc (enabled g) n n) -> lb_run g = Ret (0, g)).
Proof.
  intros Hwf. destruct (lb_run_spec g Hwf) as (ds & Hr & [_ Hcut] & _).
  exists ds. split_and!; [done..|]. intros Hac. destruct ds as [|e ds]; [done|].
  destruct (Hcut e ltac:(left)) as (r & He & Ha & Hd & Hreach). exfalso.
  apply (Hac (e_source r)). apply (tc_rtc_r _ (e_target r)); [|done].
  apply tc_once. by exists e, r.
Qed.

Lemma lb_run_cuts_cycles_witness :
  exists ds, lb_run two_cycle = Ret (length ds, disable_all ds two_cycle) /\
    (forall e, e ∈ ds -> exists r, edges two_cycle !! e = Some r /\ e_alive r = true /\
       disabled r = false /\ rtc (enabled two_cycle) (e_target r) (e_source r)) /\
    ((forall n, ~ tc (enabled two_cycle) n n) -> lb_run two_cycle = Ret (0, two_cycle)).
Proof. apply lb_run_cuts_cycles, two_cycle_wf. Defined.

(** On two nodes in a cycle, the edge back to the first is cut. *)
Lemma two_cycle_cut : fst <$> lb_run two_cycle = Ret 1.
Proof. reflexivity. Qed.
