(* ===== verification/TClockPropagator.v ===== *)
(** [TClockPropagator::run] (src/src/tgraph/TClockPropagator.cpp): launch clocks
    forward along the enabled edges, capture clocks backward. The graph left by
    a run that throws is not modelled. *)
From S2P Require Import Prelude TGraph TGraphInvariant TLoopBreaker.
Local Open Scope nat_scope.

(** * Masks *)

(** [mask |= other], on masks of one size. *)
Definition mask_or (other mask : ClockMask) : ClockMask := zip_with orb mask other.
(** [mask.set(c)] *)
Definition mask_set (c : ClockId) (mask : ClockMask) : ClockMask := <[c := true]> mask.
Definition mask_at (masks : list ClockMask) (n : NodeId) : ClockMask := default [] (masks !! n).

Definition edge_on (g : TGraph) (e : EdgeId) : bool :=
  match getEdge g e with Some r => negb (disabled r) | None => false end.
Definition edge_target (g : TGraph) (e : EdgeId) : NodeId :=
  match getEdge g e with Some r => e_target r | None => 0 end.
Definition edge_source (g : TGraph) (e : EdgeId) : NodeId :=
  match getEdge g e with Some r => e_source r | None => 0 end.

(** Bit [c] at the node clock [c] is seeded at: [resolved] at its start, and
    [seedMask]. *)
Definition clock_seeds (g : TGraph) : list ClockMask :=
  foldl (fun masks c =>
           match getClock g c with
           | Some clock => alter (mask_set c) (clock_node clock) masks
           | None => masks
           end)
    (replicate (length (nodes g)) (replicate (length (clocks g)) false))
    (seq 0 (length (clocks g))).

(** * Forward *)

(** The count of enabled in-edges. *)
Definition in_degree (g : TGraph) (n : NodeId) : nat :=
  match getNode g n with
  | Some node => length (filter (fun e => edge_on g e = true) (inEdges node))
  | None => 0
  end.

Record kahn_state := mkKahn {
  k_queue : list NodeId;
  k_resolved : list ClockMask;
  k_degree : list nat }.

(** One out-edge of the node [n] taken from the queue. *)
Definition kahn_edge (g : TGraph) (n : NodeId) (s : kahn_state) (eid : EdgeId) : kahn_state :=
  if edge_on g eid then
    let m := edge_target g eid in
    let resolved := alter (mask_or (mask_at (k_resolved s) n)) m (k_resolved s) in
    let degree := alter pred m (k_degree s) in
    mkKahn (if bool_decide (degree !! m = Some 0) then k_queue s ++ [m] else k_queue s)
      resolved degree
  else s.

Fixpoint kahn_loop (fuel : nat) (g : TGraph) (qi : nat) (s : kahn_state) : outcome kahn_state :=
  match k_queue s !! qi with
  | None => Ret s
  | Some n =>
      match fuel, getNode g n with
      | S fuel, Some node => kahn_loop fuel g (S qi) (foldl (kahn_edge g n) s (outEdges node))
      | _, _ => Undef
      end
  end.

Definition kahn_init (g : TGraph) : kahn_state :=
  let nodesCount := length (nodes g) in
  let degree := in_degree g <$> seq 0 nodesCount in
  mkKahn (filter (fun n => isNodeValid g n = true /\ degree !! n = Some 0) (seq 0 nodesCount))
    (clock_seeds g) degree.

(** [for n ... for eid : getOutEdges(n)]: every enabled edge takes the mask of
    its source. *)
Definition set_from (resolved : list ClockMask) (g : TGraph) : TGraph :=
  foldl (fun g n =>
           match getNode g n with
           | Some node =>
               foldl (fun g eid =>
                        if edge_on g eid
                        then set_edges (alter (setFromClocks (mask_at resolved n)) eid) g else g)
                 g (outEdges node)
           | None => g
           end) g (seq 0 (length (nodes g))).

(** The topological order and the graph with its launch masks; each node is
    queued at most once, so their number is enough fuel. *)
Definition propagateForward (g : TGraph) : outcome (list NodeId * TGraph) :=
  s ← kahn_loop (length (nodes g)) g 0 (kahn_init g);
  _ ← require (bool_decide (length (k_queue s) = liveNodes g))
        "cycle among enabled edges - run TLoopBreaker first";
  Ret (k_queue s, set_from (k_resolved s) g).

(** * Backward *)

(** The launch clocks that reach a capture edge's source. *)
Definition clocks_at (g : TGraph) (seedMask : list ClockMask) (source : NodeId) : ClockMask :=
  match getNode g source with
  | Some node =>
      foldl (fun atClock eid =>
               match getEdge g eid with
               | Some r => if disabled r then atClock else mask_or (fromClocks r) atClock
               | None => atClock
               end) (mask_at seedMask source) (inEdges node)
  | None => mask_at seedMask source
  end.

Definition capture_seeds (g : TGraph) : list ClockMask :=
  foldl (fun capture (edge : TCaptureEdge) =>
           if c_alive edge
           then alter (mask_or (clocks_at g (clock_seeds g) (c_source edge))) (c_target edge) capture
           else capture)
    (replicate (length (nodes g)) (replicate (length (clocks g)) false)) (captureEdges g).

(** One node in reverse order: each enabled in-edge takes the node's capture
    mask and passes it to its source. *)
Definition back_edge (n : NodeId) (s : TGraph * list ClockMask) (eid : EdgeId)
    : TGraph * list ClockMask :=
  let '(g, capture) := s in
  if edge_on g eid
  then (set_edges (alter (setToClocks (mask_at capture n)) eid) g,
        alter (mask_or (mask_at capture n)) (edge_source g eid) capture)
  else s.

Definition back_node (s : TGraph * list ClockMask) (n : NodeId) : TGraph * list ClockMask :=
  match getNode s.1 n with
  | Some node => if isFlopDataOutput node then s else foldl (back_edge n) s (inEdges node)
  | None => s
  end.

Definition propagateBackward (g : TGraph) (order : list NodeId) : TGraph :=
  (foldl back_node (g, capture_seeds g) (rev order)).1.

(** * [run] *)

Definition clear_masks (g : TGraph) : TGraph :=
  let empty := replicate (length (clocks g)) false in
  set_edges (fmap (fun r => if e_alive r then setToClocks empty (setFromClocks empty r) else r)) g.

Definition run (g : TGraph) : outcome TGraph :=
  let g := clear_masks g in
  _ ← require (negb (existsb (fun n => n_alive n && isLatch n) (nodes g)))
        "TClockPropagator::run: latch analysis is unsupported";
  _ ← require (forallb (fun c => isNodeValid g (clock_node c)) (clocks g))
        "TClockPropagator::run: clock seed node was removed";
  r ← lb_run g;
  f ← propagateForward (snd (r : nat * TGraph));
  let '(order, g) := (f : list NodeId * TGraph) in
  Ret (propagateBackward g order).
