(* ===== verification/ClockForward.v ===== *)
(** The forward pass of [TClockPropagator]: on an acyclic graph it visits every
    node in topological order and finds exactly the clocks that reach it. *)
From S2P Require Import Prelude TGraph TGraphInvariant TLoopBreaker TClockPropagator.
Local Open Scope nat_scope.

(** * Enabled edges, with their identifier *)

Definition on_edge (g : TGraph) (e : EdgeId) (u v : NodeId) : Prop :=
  exists r, edges g !! e = Some r /\ e_alive r = true /\ disabled r = false /\
    e_source r = u /\ e_target r = v.

Lemma enabled_on g u v : enabled g u v <-> exists e, on_edge g e u v.
Proof.
  split.
  - intros (e & r & ? & ? & ? & ? & ?). exists e, r. done.
  - intros (e & r & ? & ? & ? & ? & ?). exists e, r. done.
Qed.

Lemma on_edge_on g e u v : on_edge g e u v -> edge_on g e = true /\ edge_target g e = v /\ edge_source g e = u.
Proof.
  intros (r & He & Ha & Hd & Hs & Ht). unfold edge_on, edge_target, edge_source, getEdge, isEdgeValid.
  rewrite He, Ha, Hd. done.
Qed.

Lemma edge_on_true g e : edge_on g e = true -> on_edge g e (edge_source g e) (edge_target g e).
Proof.
  unfold edge_on, edge_target, edge_source, getEdge, isEdgeValid.
  destruct (edges g !! e) as [r|] eqn:E; [|done]. destruct (e_alive r) eqn:Ha; [|done].
  intros Hd%negb_true_iff. by exists r.
Qed.

Lemma on_edge_fun g e u v u' v' : on_edge g e u v -> on_edge g e u' v' -> u = u' /\ v = v'.
Proof. intros (r & ? & _ & _ & <- & <-) (r' & ? & _ & _ & <- & <-). by simplify_eq. Qed.

Lemma on_edge_ends g e u v : on_edge g e u v -> edge_ends g e = Some (u, v).
Proof. intros (r & ? & ? & ? & ? & ?). apply edge_ends_Some. eauto. Qed.

Lemma on_edge_valid g e u v :
  graph_wf g -> on_edge g e u v -> isNodeValid g u = true /\ isNodeValid g v = true.
Proof. intros Hwf He%on_edge_ends. by apply (wf_ends g Hwf e). Qed.

(** The out-edges and in-edges of a node, when it is live. *)
Lemma out_edge_iff g n node e :
  graph_wf g -> nodes g !! n = Some node ->
  e ∈ outEdges node -> edge_on g e = true -> on_edge g e n (edge_target g e).
Proof.
  intros Hwf Hn He Hon. apply edge_on_true in Hon as Hon'.
  destruct (wf_links g Hwf n) as (_ & Ho & _). unfold outs, field in Ho. rewrite Hn in Ho.
  apply Ho in He as [t Ht]. apply on_edge_ends in Hon' as Hends.
  assert (n = edge_source g e) as -> by congruence. done.
Qed.

Lemma in_edge_iff g n e u :
  graph_wf g -> on_edge g e u n -> e ∈ ins g n.
Proof.
  intros Hwf He%on_edge_ends. destruct (wf_links g Hwf n) as (_ & _ & _ & Hi). apply Hi. eauto.
Qed.

Lemma in_edge_on g n e :
  graph_wf g -> e ∈ ins g n -> edge_on g e = true -> on_edge g e (edge_source g e) n.
Proof.
  intros Hwf He Hon. apply edge_on_true in Hon as Hon'.
  destruct (wf_links g Hwf n) as (_ & _ & _ & Hi). apply Hi in He as [s Hs].
  apply on_edge_ends in Hon' as Hends. assert (n = edge_target g e) as -> by congruence. done.
Qed.

Lemma getNode_valid g n : isNodeValid g n = true -> exists node, getNode g n = Some node /\ nodes g !! n = Some node.
Proof.
  intros H. unfold getNode. rewrite H. apply isNodeValid_lookup in H as (node & -> & _). eauto.
Qed.

Lemma getNode_Some g n node : getNode g n = Some node -> nodes g !! n = Some node /\ isNodeValid g n = true.
Proof. unfold getNode. by destruct (isNodeValid g n). Qed.

Lemma ins_getNode g n node : getNode g n = Some node -> ins g n = inEdges node.
Proof. intros [Hn _]%getNode_Some. unfold ins, field. by rewrite Hn. Qed.

(** * Mask vectors *)

Definition masks_ok (g : TGraph) (masks : list ClockMask) : Prop :=
  length masks = length (nodes g) /\
  forall n m, masks !! n = Some m -> length m = length (clocks g).
Definition bit (masks : list ClockMask) (n : NodeId) (c : ClockId) : bool :=
  default false (mask_at masks n !! c).

Lemma mask_at_length g masks n :
  masks_ok g masks -> n < length (nodes g) -> length (mask_at masks n) = length (clocks g).
Proof.
  intros [Hlen Hm] Hn. unfold mask_at. destruct (lookup_lt_is_Some_2 masks n) as [m Hl]; [lia|].
  rewrite Hl. by eapply Hm.
Qed.

Lemma mask_or_at other mask c :
  length other = length mask ->
  default false (mask_or other mask !! c) = default false (mask !! c) || default false (other !! c).
Proof.
  intros Hlen. unfold mask_or. rewrite lookup_zip_with.
  destruct (mask !! c) as [b|] eqn:E; cbn.
  - destruct (lookup_lt_is_Some_2 other c) as [b' E']; [|by rewrite E'].
    rewrite Hlen. by eapply lookup_lt_Some.
  - apply lookup_ge_None in E. rewrite lookup_ge_None_2; [done|lia].
Qed.

Lemma alter_or_ok g masks other k :
  masks_ok g masks -> length other = length (clocks g) -> masks_ok g (alter (mask_or other) k masks).
Proof.
  intros [Hlen Hm] Ho. split; [by rewrite length_alter|]. intros n m Hn.
  destruct (decide (n = k)) as [->|Hne].
  - rewrite list_lookup_alter_eq in Hn. apply fmap_Some in Hn as (m0 & H0 & ->).
    unfold mask_or. rewrite length_zip_with. rewrite (Hm _ _ H0). lia.
  - rewrite list_lookup_alter_ne in Hn by done. by eapply Hm.
Qed.

Lemma bit_alter_or g masks other k n c :
  masks_ok g masks -> length other = length (clocks g) -> k < length (nodes g) ->
  bit (alter (mask_or other) k masks) n c =
    bit masks n c || (bool_decide (n = k) && default false (other !! c)).
Proof.
  intros Hok Ho Hk. unfold bit, mask_at. destruct (decide (n = k)) as [->|Hne].
  - rewrite list_lookup_alter_eq, bool_decide_eq_true_2 by done.
    destruct (lookup_lt_is_Some_2 masks k) as [m Hm]; [destruct Hok; lia|].
    rewrite Hm. cbn. apply mask_or_at. rewrite Ho. symmetry. by eapply Hok.
  - rewrite list_lookup_alter_ne, bool_decide_eq_false_2 by done. by rewrite orb_false_r.
Qed.

Lemma empty_masks_ok g :
  masks_ok g (replicate (length (nodes g)) (replicate (length (clocks g)) false)).
Proof.
  split; [apply length_replicate|]. intros n m Hm. apply lookup_replicate in Hm as [-> _].
  apply length_replicate.
Qed.

Lemma empty_masks_bit g n c :
  bit (replicate (length (nodes g)) (replicate (length (clocks g)) false)) n c = false.
Proof.
  unfold bit, mask_at. destruct (replicate (length (nodes g)) _ !! n) as [m|] eqn:E; [|done].
  apply lookup_replicate in E as [-> _]. cbn.
  destruct (replicate _ false !! c) eqn:E; [|done]. by apply lookup_replicate in E as [-> _].
Qed.

(** ** Seeds *)

Definition seed (g : TGraph) (c : ClockId) (n : NodeId) : Prop :=
  exists clk, clocks g !! c = Some clk /\ clock_node clk = n.

Lemma clock_seeds_steps g k :
  k <= length (clocks g) ->
  let masks := foldl (fun masks c => match getClock g c with
      | Some clock => alter (mask_set c) (clock_node clock) masks | None => masks end)
    (replicate (length (nodes g)) (replicate (length (clocks g)) false)) (seq 0 k) in
  masks_ok g masks /\
  forall n c, n < length (nodes g) -> bit masks n c = true <-> c < k /\ seed g c n.
Proof.
  intros Hk. induction k as [|k IH].
  - split; [apply empty_masks_ok|]. intros n c _. cbn [seq foldl]. rewrite empty_masks_bit.
    split; [done|lia].
  - destruct IH as [Hok Hbit]; [lia|]. rewrite seq_S, foldl_app. cbn [foldl Nat.add].
    set (masks := foldl _ _ _) in *. unfold getClock.
    destruct (lookup_lt_is_Some_2 (clocks g) k) as [clk Hclk]; [lia|]. rewrite Hclk.
    destruct Hok as [Hlen Hm]. split.
    + split; [by rewrite length_alter|]. intros n m Hn.
      destruct (decide (n = clock_node clk)) as [->|Hne].
      * rewrite list_lookup_alter_eq in Hn. apply fmap_Some in Hn as (m0 & H0 & ->).
        unfold mask_set. rewrite length_insert. by eapply Hm.
      * rewrite list_lookup_alter_ne in Hn by done. by eapply Hm.
    + intros n c Hn. assert (bit (alter (mask_set k) (clock_node clk) masks) n c = true <->
        bit masks n c = true \/ c = k /\ n = clock_node clk) as ->.
      { unfold bit, mask_at. destruct (decide (n = clock_node clk)) as [->|Hne].
        - rewrite list_lookup_alter_eq. destruct (lookup_lt_is_Some_2 masks (clock_node clk)) as [m H0];
            [lia|]. rewrite H0. cbn. unfold mask_set. destruct (decide (c = k)) as [->|Hc].
          + rewrite list_lookup_insert_eq; [cbn; tauto|]. rewrite (Hm _ _ H0). lia.
          + rewrite list_lookup_insert_ne by done. tauto.
        - rewrite list_lookup_alter_ne by done. tauto. }
      rewrite Hbit by done. split.
      * intros [[Hlt Hs]|[-> ->]]; [split; [lia|done]|]. split; [lia|]. by exists clk.
      * intros [Hlt (clk' & Hc & <-)]. destruct (decide (c = k)) as [->|Hne].
        -- right. split; [done|]. congruence.
        -- left. split; [lia|]. by exists clk'.
Qed.

Lemma clock_seeds_spec g :
  masks_ok g (clock_seeds g) /\
  forall n c, n < length (nodes g) -> bit (clock_seeds g) n c = true <-> seed g c n.
Proof.
  destruct (clock_seeds_steps g (length (clocks g))) as [H1 H2]; [lia|]. split; [exact H1|].
  intros n c Hn. unfold clock_seeds. rewrite H2 by done. split; [tauto|].
  intros (clk & Hc & Hcn). split; [by eapply lookup_lt_Some|by exists clk].
Qed.

(** ** Reaching clocks *)

(** Clock [c] reaches [n] along enabled edges from the node it is seeded at. *)
Definition reach (g : TGraph) (c : ClockId) (n : NodeId) : Prop :=
  exists clk, clocks g !! c = Some clk /\ rtc (enabled g) (clock_node clk) n.

Lemma reach_step g c n :
  reach g c n <-> seed g c n \/ exists e u, on_edge g e u n /\ reach g c u.
Proof.
  split.
  - intros (clk & Hc & Hr). apply rtc_inv_r in Hr as [<-|(u & Hu & Hun)]; [left; by exists clk|].
    apply enabled_on in Hun as [e He]. right. exists e, u. split; [done|]. by exists clk.
  - intros [(clk & Hc & <-)|(e & u & He & clk & Hc & Hr)]; exists clk; (split; [done|]); [done|].
    eapply rtc_r; [done|]. apply enabled_on. eauto.
Qed.

(** * Kahn's algorithm *)

Section kahn.
Context (g : TGraph) (Hwf : graph_wf g).
Context (pos : nat -> nat) (Hpos : forall u v, enabled g u v -> pos u < pos v).

(** In-edges of [n] that have not been followed. *)
Definition pending (de : list EdgeId) (n : NodeId) : list EdgeId :=
  filter (fun e => edge_on g e = true /\ e ∉ de) (ins g n).

Record kahn_inv (P : NodeId -> EdgeId -> Prop) (de : list EdgeId) (s : kahn_state) : Prop := {
  ki_masks : masks_ok g (k_resolved s);
  ki_nodup : NoDup (k_queue s);
  ki_degree n : isNodeValid g n = true -> k_degree s !! n = Some (length (pending de n));
  ki_queue n : n ∈ k_queue s <-> isNodeValid g n = true /\ pending de n = [];
  ki_resolved n c : isNodeValid g n = true ->
    bit (k_resolved s) n c = true <->
      seed g c n \/ exists e u, e ∈ de /\ on_edge g e u n /\ reach g c u;
  ki_done e u v : on_edge g e u v -> e ∈ de <-> P u e;
  ki_order l1 m l2 : k_queue s = l1 ++ m :: l2 -> forall u, enabled g u m -> u ∈ l1 }.

Lemma valid_lt n : isNodeValid g n = true -> n < length (nodes g).
Proof. intros (r & Hr & _)%isNodeValid_lookup. by eapply lookup_lt_Some. Qed.

Lemma pending_nil de n :
  pending de n = [] <-> forall e u, on_edge g e u n -> e ∈ de.
Proof using Hwf.
  unfold pending. split.
  - intros Hnil e u He. destruct (decide (e ∈ de)) as [|Hni]; [done|]. exfalso.
    assert (e ∈ filter (fun e => edge_on g e = true /\ e ∉ de) (ins g n)) as Hin.
    { apply list_elem_of_filter. split; [|by eapply in_edge_iff].
      split; [|done]. by apply on_edge_on in He as [? _]. }
    rewrite Hnil in Hin. by apply not_elem_of_nil in Hin.
  - intros H. apply filter_none, Forall_forall. intros e He [Hon Hni].
    apply Hni. eapply H. by apply in_edge_on.
Qed.

(** The mask of a queued node is final. *)
Lemma queue_reach P de s n c :
  kahn_inv P de s -> n ∈ k_queue s -> bit (k_resolved s) n c = true <-> reach g c n.
Proof using Hwf.
  intros H Hn. apply (ki_queue _ _ _ H) in Hn as [Hv Hp]. rewrite (ki_resolved _ _ _ H n c Hv).
  rewrite reach_step. rewrite pending_nil in Hp. naive_solver.
Qed.

Lemma pending_snoc_other de e u m n :
  on_edge g e u m -> n <> m -> pending (de ++ [e]) n = pending de n.
Proof using Hwf.
  intros He Hne. apply list_filter_iff_elem. intros e' He'. rewrite elem_of_app.
  split; [naive_solver|]. intros [Hon Hni]. split; [done|].
  intros [?|Hs']; [done|]. apply list_elem_of_singleton in Hs' as ->.
  destruct (wf_links g Hwf n) as (_ & _ & _ & Hi). apply Hi in He' as [s Hs].
  apply on_edge_ends in He. congruence.
Qed.

Lemma filter_remove_one (P : EdgeId -> Prop) `{!forall x, Decision (P x)} e (l : list EdgeId) :
  NoDup l -> e ∈ l -> P e ->
  length (filter P l) = S (length (filter (fun x => P x /\ x <> e) l)).
Proof.
  intros Hnd He HP. induction Hnd as [|x l Hx Hnd IH]; [by apply not_elem_of_nil in He|].
  rewrite !filter_cons. destruct (decide (x = e)) as [->|Hne].
  - rewrite decide_True, decide_False by (done || tauto). cbn. f_equal. f_equal.
    apply list_filter_iff_elem. intros y Hy. split; [|tauto]. intros HPy. split; [done|].
    by intros ->.
  - apply elem_of_cons in He as [->|He]; [done|]. specialize (IH He).
    destruct (decide (P x)); [rewrite decide_True by done|rewrite decide_False by tauto];
      cbn; lia.
Qed.

Lemma pending_snoc de e u m :
  on_edge g e u m -> e ∉ de -> length (pending de m) = S (length (pending (de ++ [e]) m)).
Proof using Hwf.
  intros He Hni. unfold pending. rewrite (filter_remove_one _ e).
  - do 2 f_equal. apply list_filter_iff_elem. intros x Hx. rewrite elem_of_app, list_elem_of_singleton.
    tauto.
  - apply (wf_links g Hwf m).
  - by eapply in_edge_iff.
  - split; [by apply on_edge_on in He as [? _]|done].
Qed.

Lemma no_self_loop e u v : on_edge g e u v -> u <> v.
Proof using Hpos. intros He ->. assert (enabled g v v) as H%Hpos by (apply enabled_on; eauto). lia. Qed.

(** One out-edge of the node taken from the queue. *)
Lemma kahn_edge_inv P de s n node e passed todo :
  kahn_inv (fun u x => P u \/ u = n /\ x ∈ passed) de s ->
  (forall u, P u -> u ∈ k_queue s) -> ~ P n -> n ∈ k_queue s ->
  nodes g !! n = Some node -> outEdges node = passed ++ e :: todo -> NoDup (outEdges node) ->
  let s' := kahn_edge g n s e in
  exists de', kahn_inv (fun u x => P u \/ u = n /\ x ∈ passed ++ [e]) de' s' /\
    exists new, k_queue s' = k_queue s ++ new.
Proof using Hwf Hpos.
  intros H HP HnP Hn Hnode Hout Hnd. cbv zeta. unfold kahn_edge.
  assert (e ∈ outEdges node) as Hein by (rewrite Hout; set_solver).
  assert (e ∉ passed) as Hpass.
  { rewrite Hout in Hnd. apply NoDup_app in Hnd as (_ & Hd & _). intros Hp. eapply Hd; [done|left]. }
  destruct (edge_on g e) eqn:Hon.
  2:{ exists de. split; [|exists []; by rewrite app_nil_r].
      split; try apply H. intros e' u v He'. rewrite (ki_done _ _ _ H _ _ _ He').
      apply on_edge_on in He' as [? _]. rewrite elem_of_app, list_elem_of_singleton.
      split; [tauto|]. intros [|[-> [| ->]]]; [tauto|tauto|congruence]. }
  pose proof (out_edge_iff g n node e Hwf Hnode Hein Hon) as He.
  set (m := edge_target g e) in *. cbv zeta.
  assert (e ∉ de) as Hni.
  { rewrite (ki_done _ _ _ H _ _ _ He). tauto. }
  destruct (on_edge_valid _ _ _ _ Hwf He) as [Hvn Hvm].
  pose proof (ki_degree _ _ _ H m Hvm) as Hdeg.
  pose proof (pending_snoc de e n m He Hni) as Hcount.
  assert (m ∉ k_queue s) as Hmq.
  { intros Hmq. apply (ki_queue _ _ _ H) in Hmq as [_ Hp]. rewrite Hp in Hcount. done. }
  assert (alter pred m (k_degree s) !! m = Some (length (pending (de ++ [e]) m))) as Hdeg'.
  { rewrite list_lookup_alter_eq, Hdeg. cbn. rewrite Hcount. done. }
  rewrite Hdeg'. set (q' := if bool_decide _ then _ else _).
  assert (q' = k_queue s \/ q' = k_queue s ++ [m]) as Hq'
    by (unfold q'; case_bool_decide; [by right|by left]).
  assert (forall x, x ∈ q' <-> x ∈ k_queue s \/ x = m /\ pending (de ++ [e]) m = []) as Hq.
  { intros x. unfold q'. case_bool_decide as Hz.
    - rewrite elem_of_app, list_elem_of_singleton. injection Hz as Hz%nil_length_inv. tauto.
    - split; [by left|]. intros [|[_ Hz']]; [done|]. exfalso. apply Hz. by rewrite Hz'. }
  exists (de ++ [e]). split.
  2:{ cbn [k_queue]. destruct Hq' as [->| ->]; [exists []; by rewrite app_nil_r|by exists [m]]. }
  assert (length (mask_at (k_resolved s) n) = length (clocks g)) as Hlen.
  { eapply mask_at_length; [apply H|by apply valid_lt]. }
  split; cbn [k_queue k_resolved k_degree].
  - apply alter_or_ok; [apply H|done].
  - destruct Hq' as [->| ->]; [apply H|]. apply NoDup_app. split_and!; [apply H| |apply NoDup_singleton].
    intros x Hx Hx'. apply list_elem_of_singleton in Hx' as ->. done.
  - intros n' Hv. destruct (decide (n' = m)) as [->|Hne]; [done|].
    rewrite list_lookup_alter_ne, (ki_degree _ _ _ H n' Hv) by done.
    by rewrite (pending_snoc_other de e n m).
  - intros x. rewrite Hq, (ki_queue _ _ _ H). destruct (decide (x = m)) as [->|Hne].
    + split; [intros [[_ Hp]|[_ ?]]; [|by split]|tauto]. rewrite Hp in Hcount. done.
    + rewrite (pending_snoc_other de e n m x) by done. tauto.
  - intros x c Hv. rewrite (bit_alter_or g) by (apply H || done || by apply valid_lt).
    rewrite orb_true_iff, andb_true_iff, bool_decide_eq_true, (ki_resolved _ _ _ H x c Hv).
    change (default false (mask_at (k_resolved s) n !! c)) with (bit (k_resolved s) n c).
    rewrite (queue_reach _ _ _ n c H Hn). setoid_rewrite elem_of_app.
    setoid_rewrite list_elem_of_singleton. split.
    + intros [[|(e' & u & ? & ? & ?)]|[-> Hr]]; [by left|right; eauto 10|]. right. exists e, n. auto.
    + intros [|(e' & u & [?| ->] & He' & Hr)]; [by left; left|left; right; eauto 10|].
      destruct (on_edge_fun _ _ _ _ _ _ He He') as [<- <-]. by right.
  - intros e' u v He'. rewrite elem_of_app, list_elem_of_singleton, (ki_done _ _ _ H _ _ _ He').
    rewrite elem_of_app, list_elem_of_singleton. split.
    + intros [| ->]; [tauto|]. destruct (on_edge_fun _ _ _ _ _ _ He He') as [<- <-]. tauto.
    + tauto.
  - intros l1 x l2 Heq u Hu. destruct Hq' as [Hq'|Hq'].
    + rewrite Hq' in Heq. by eapply (ki_order _ _ _ H).
    + rewrite Hq' in Heq. destruct l2 as [|y l2 _] using rev_ind.
      * apply app_inj_tail in Heq as [<- <-]. apply enabled_on in Hu as [e' He'].
        assert (pending (de ++ [e]) m = []) as Hp.
        { destruct (proj1 (Hq m)) as [|[_ ?]]; [rewrite Hq'; set_solver|done|done]. }
        rewrite pending_nil in Hp. specialize (Hp e' u He').
        rewrite elem_of_app, list_elem_of_singleton, (ki_done _ _ _ H _ _ _ He') in Hp.
        destruct Hp as [[Hu|[-> _]]| ->]; [by apply HP|done|].
        by destruct (on_edge_fun _ _ _ _ _ _ He He') as [<- _].
      * rewrite app_comm_cons, app_assoc in Heq. apply app_inj_tail in Heq as [Heq _].
        by eapply (ki_order _ _ _ H).
Qed.

Lemma kahn_inv_ext (P P' : NodeId -> EdgeId -> Prop) de s :
  (forall e u v, on_edge g e u v -> P u e <-> P' u e) -> kahn_inv P de s -> kahn_inv P' de s.
Proof using Type.
  intros HP H. split; try apply H. intros e u v He. rewrite (ki_done _ _ _ H _ _ _ He). eauto.
Qed.

(** All the out-edges of the node taken from the queue. *)
Lemma kahn_node_inv P n node todo : forall passed de s,
  kahn_inv (fun u x => P u \/ u = n /\ x ∈ passed) de s ->
  (forall u, P u -> u ∈ k_queue s) -> ~ P n -> n ∈ k_queue s ->
  nodes g !! n = Some node -> outEdges node = passed ++ todo -> NoDup (outEdges node) ->
  let s' := foldl (kahn_edge g n) s todo in
  exists de', kahn_inv (fun u x => P u \/ u = n /\ x ∈ outEdges node) de' s' /\
    exists new, k_queue s' = k_queue s ++ new.
Proof using Hwf Hpos.
  induction todo as [|e todo IH]; intros passed de s H HP HnP Hn Hnode Hout Hnd; cbn [foldl].
  - exists de. rewrite app_nil_r in Hout. rewrite Hout. split; [done|]. exists []. by rewrite app_nil_r.
  - destruct (kahn_edge_inv P de s n node e passed todo) as (de1 & H1 & new & Hq); try done.
    destruct (IH (passed ++ [e]) de1 (kahn_edge g n s e)) as (de2 & H2 & new' & Hq'); try done.
    + intros u Hu. rewrite Hq. apply elem_of_app. left. by apply HP.
    + rewrite Hq. apply elem_of_app. by left.
    + by rewrite <- app_assoc.
    + exists de2. split; [done|]. exists (new ++ new'). by rewrite Hq', Hq, app_assoc.
Qed.

Lemma queue_bound P de s : kahn_inv P de s -> length (k_queue s) <= length (nodes g).
Proof using Type.
  intros H. rewrite <- (length_seq (length (nodes g)) 0). apply submseteq_length, NoDup_submseteq; [apply H|].
  intros n [Hv _]%(ki_queue _ _ _ H). apply elem_of_seq. apply valid_lt in Hv. lia.
Qed.

Lemma kahn_loop_inv fuel : forall qi de s,
  kahn_inv (fun u _ => u ∈ take qi (k_queue s)) de s -> length (nodes g) <= fuel + qi ->
  exists s' de', kahn_loop fuel g qi s = Ret s' /\ kahn_inv (fun u _ => u ∈ k_queue s') de' s'.
Proof using Hwf Hpos.
  induction fuel as [|fuel IH]; intros qi de s H Hfuel; cbn [kahn_loop];
    destruct (k_queue s !! qi) as [n|] eqn:Hqi.
  - apply lookup_lt_Some in Hqi. pose proof (queue_bound _ _ _ H). lia.
  - exists s, de. split; [done|]. apply lookup_ge_None in Hqi. by rewrite take_ge in H.
  - assert (n ∈ k_queue s) as Hn by (by eapply list_elem_of_lookup_2).
    destruct (proj1 (ki_queue _ _ _ H n) Hn) as [Hv _].
    destruct (getNode_valid g n Hv) as (node & -> & Hnode).
    pose proof (take_drop_middle _ _ _ Hqi) as Hsplit.
    destruct (kahn_node_inv (fun u => u ∈ take qi (k_queue s)) n node (outEdges node) [] de s)
      as (de' & H' & new & Hq); try done.
    + eapply kahn_inv_ext; [|exact H]. intros e u v _. cbn. split; [tauto|].
      intros [?|[_ ?%not_elem_of_nil]]; done.
    + intros u Hu. rewrite <- Hsplit. apply elem_of_app. by left.
    + pose proof (ki_nodup _ _ _ H) as Hnd. rewrite <- Hsplit in Hnd.
      apply NoDup_app in Hnd as (_ & Hd & _). intros Hu. apply (Hd n Hu). left.
    + destruct (wf_links g Hwf n) as (Hnd & _). unfold outs, field in Hnd. by rewrite Hnode in Hnd.
    + apply (IH (S qi) de'); [|lia]. eapply kahn_inv_ext; [|exact H']. intros e u v He. cbn.
      rewrite Hq, take_app_le by (apply lookup_lt_Some in Hqi; lia).
      rewrite (take_S_r _ _ _ Hqi), elem_of_app, list_elem_of_singleton.
      split; [tauto|]. intros [?| ->]; [by left|]. right. split; [done|].
      apply on_edge_ends in He. destruct (wf_links g Hwf n) as (_ & Ho & _).
      unfold outs, field in Ho. rewrite Hnode in Ho. apply Ho. eauto.
  - exists s, de. split; [done|]. apply lookup_ge_None in Hqi. by rewrite take_ge in H.
Qed.

Lemma kahn_init_inv : kahn_inv (fun _ _ => False) [] (kahn_init g).
Proof using Hwf Hpos.
  assert (forall n, isNodeValid g n = true ->
    (in_degree g <$> seq 0 (length (nodes g))) !! n = Some (length (pending [] n))) as Hdeg.
  { intros n Hv. pose proof (valid_lt n Hv). rewrite list_lookup_fmap, lookup_seq_lt by done.
    cbn. unfold in_degree. destruct (getNode_valid g n Hv) as (node & Hg & Hn). rewrite Hg.
    rewrite <- (ins_getNode g n node Hg). unfold pending. do 2 f_equal.
    apply list_filter_iff_elem. intros e _. split; [|tauto]. intros ?. split; [done|].
    apply not_elem_of_nil. }
  assert (forall n, n ∈ k_queue (kahn_init g) <-> isNodeValid g n = true /\ pending [] n = []) as Hq.
  { intros n. unfold kahn_init. cbn [k_queue]. rewrite list_elem_of_filter, elem_of_seq. split.
    - intros [[Hv Hd] _]. split; [done|]. rewrite Hdeg in Hd by done.
      injection Hd as Hd. by apply nil_length_inv.
    - intros [Hv Hp]. pose proof (valid_lt n Hv). rewrite Hdeg, Hp by done. split; [done|lia]. }
  destruct (clock_seeds_spec g) as [Hok Hbit]. split; cbn [kahn_init k_resolved k_degree]; try done.
  - apply NoDup_filter, NoDup_seq.
  - intros n c Hv. rewrite Hbit by (by apply valid_lt). split; [by left|].
    intros [?|(e & u & ?%not_elem_of_nil & _)]; done.
  - intros e u v _. split; [apply not_elem_of_nil|done].
  - intros l1 m l2 Heq u [e He]%enabled_on.
    assert (m ∈ k_queue (kahn_init g)) as [_ Hp]%Hq by (rewrite Heq; set_solver).
    rewrite pending_nil in Hp. by apply Hp, not_elem_of_nil in He.
Qed.

(** Every node is reached when no cycle is left. *)
Lemma queue_complete de s n :
  kahn_inv (fun u _ => u ∈ k_queue s) de s -> isNodeValid g n = true -> n ∈ k_queue s.
Proof using Hwf Hpos.
  intros H. induction n as [n IH] using (induction_ltof1 _ pos). unfold ltof in IH. intros Hv.
  apply (ki_queue _ _ _ H). split; [done|]. apply pending_nil. intros e u He.
  apply (ki_done _ _ _ H _ _ _ He). apply IH; [|apply (on_edge_valid _ _ _ _ Hwf He)].
  apply Hpos, enabled_on. eauto.
Qed.

Lemma filter_seq_count (l : list bool) :
  length (filter (fun i => l !! i = Some true) (seq 0 (length l))) =
  length (filter (fun b : bool => b = true) l).
Proof using Type.
  induction l as [|b l IH] using rev_ind; [done|].
  rewrite length_app, Nat.add_comm. cbn [length Nat.add]. rewrite seq_S, !filter_app, !length_app.
  f_equal.
  - rewrite <- IH. f_equal. apply list_filter_iff_elem. intros i Hi%elem_of_seq.
    rewrite lookup_app_l by lia. done.
  - assert ((l ++ [b]) !! length l = Some b) as Hb by by apply list_lookup_middle.
    cbn [Nat.add]. rewrite !filter_cons, !filter_nil.
    destruct b; repeat case_decide; cbn in *; congruence.
Qed.

Lemma queue_length de s :
  kahn_inv (fun u _ => u ∈ k_queue s) de s -> length (k_queue s) = liveNodes g.
Proof using Hwf Hpos.
  intros H. destruct (wf_nodes g Hwf) as (_ & _ & ->). rewrite <- filter_seq_count, length_fmap.
  apply Permutation_length, NoDup_Permutation; [apply H|apply NoDup_filter, NoDup_seq|].
  intros n. rewrite list_elem_of_filter, elem_of_seq. split.
  - intros [Hv _]%(ki_queue _ _ _ H). pose proof (valid_lt n Hv).
    apply isNodeValid_lookup in Hv as (r & Hr & Ha). rewrite list_lookup_fmap, Hr. cbn.
    rewrite Ha. split; [done|lia].
  - intros [Hv _]. eapply queue_complete; [done|]. apply isNodeValid_lookup.
    rewrite list_lookup_fmap in Hv. destruct (nodes g !! n) as [r|]; [|done]. exists r.
    split; [done|]. cbn in Hv. congruence.
Qed.

Lemma kahn_spec :
  exists s, kahn_loop (length (nodes g)) g 0 (kahn_init g) = Ret s /\
    length (k_queue s) = liveNodes g /\ NoDup (k_queue s) /\
    (forall n, n ∈ k_queue s <-> isNodeValid g n = true) /\
    (forall l1 m l2, k_queue s = l1 ++ m :: l2 -> forall u, enabled g u m -> u ∈ l1) /\
    masks_ok g (k_resolved s) /\
    forall n c, isNodeValid g n = true -> bit (k_resolved s) n c = true <-> reach g c n.
Proof using Hwf Hpos.
  destruct (kahn_loop_inv (length (nodes g)) 0 [] (kahn_init g)) as (s & de & Hrun & H); [|lia|].
  { eapply kahn_inv_ext; [|apply kahn_init_inv]. intros e u v _. cbn. split; [done|].
    apply not_elem_of_nil. }
  exists s. split; [exact Hrun|]. split; [by eapply queue_length|]. split; [apply H|]. split.
  { intros n. split; [by intros [? _]%(ki_queue _ _ _ H)|]. by eapply queue_complete. }
  split; [apply H|]. split; [apply H|]. intros n c Hv. eapply queue_reach; [done|].
  by eapply queue_complete.
Qed.
End kahn.
