(* ===== verification/ClockRun.v ===== *)
(** [TClockPropagator::run] as a whole: the launch clocks of an edge are those
    that reach its source, its capture clocks those some capture edge meets
    downstream without entering a flop's data output. *)
From S2P Require Import Prelude TGraph TGraphInvariant TLoopBreaker TLoopBreakerProofs TClockPropagator ClockForward.
Local Open Scope nat_scope.

(** * Graphs that differ in the masks of their edges *)

Definition no_masks (r : TEdge) : TEdge := setToClocks [] (setFromClocks [] r).
Definition strip (g : TGraph) : TGraph := set_edges (fmap no_masks) g.
Record masks_eq (g g' : TGraph) : Prop := MasksEq { masks_eq_strip : strip g = strip g' }.

#[export] Instance masks_eq_equivalence : Equivalence masks_eq.
Proof.
  split; [done|by intros g g' [H]|]. intros g g' g'' [H] [H']. constructor. congruence.
Qed.

#[export] Instance nodes_masks_eq : Proper (masks_eq ==> eq) nodes.
Proof. intros g g' [H]. by apply (f_equal nodes) in H. Qed.
#[export] Instance clocks_masks_eq : Proper (masks_eq ==> eq) clocks.
Proof. intros g g' [H]. by apply (f_equal clocks) in H. Qed.
#[export] Instance captureEdges_masks_eq : Proper (masks_eq ==> eq) captureEdges.
Proof. intros g g' [H]. by apply (f_equal captureEdges) in H. Qed.
#[export] Instance isNodeValid_masks_eq : Proper (masks_eq ==> eq ==> eq) isNodeValid.
Proof. intros g g' H n _ <-. unfold isNodeValid. by rewrite (nodes_masks_eq _ _ H). Qed.
#[export] Instance getNode_masks_eq : Proper (masks_eq ==> eq ==> eq) getNode.
Proof. intros g g' H n _ <-. unfold getNode. by rewrite H, (nodes_masks_eq _ _ H). Qed.
#[export] Instance getClock_masks_eq : Proper (masks_eq ==> eq ==> eq) getClock.
Proof. intros g g' H n _ <-. unfold getClock. by rewrite (clocks_masks_eq _ _ H). Qed.

Lemma masks_eq_edge g g' e :
  masks_eq g g' -> no_masks <$> edges g !! e = no_masks <$> edges g' !! e.
Proof.
  intros [H]. apply (f_equal (fun h => edges h !! e)) in H. cbn in H.
  by rewrite !list_lookup_fmap in H.
Qed.

Lemma masks_eq_lookup g g' e r :
  masks_eq g g' -> edges g !! e = Some r ->
  exists r', edges g' !! e = Some r' /\ no_masks r' = no_masks r.
Proof.
  intros H He. apply (masks_eq_edge _ _ e) in H. rewrite He in H. symmetry in H.
  by apply fmap_Some in H as (r' & ? & ?); eauto.
Qed.

Lemma no_masks_fields r r' :
  no_masks r = no_masks r' -> e_index r = e_index r' /\ e_source r = e_source r' /\
    e_target r = e_target r' /\ e_alive r = e_alive r' /\ disabled r = disabled r'.
Proof. destruct r, r'. intros [=]. done. Qed.

#[export] Instance edge_on_masks_eq : Proper (masks_eq ==> eq ==> eq) edge_on.
Proof.
  intros g g' H e _ <-. apply (masks_eq_edge _ _ e) in H. unfold edge_on, getEdge, isEdgeValid.
  destruct (edges g !! e) as [r|], (edges g' !! e) as [r'|]; try done.
  apply (inj Some), no_masks_fields in H as (_ & _ & _ & -> & Hd). destruct (e_alive r'); [by rewrite Hd|done].
Qed.

#[export] Instance edge_source_masks_eq : Proper (masks_eq ==> eq ==> eq) edge_source.
Proof.
  intros g g' H e _ <-. apply (masks_eq_edge _ _ e) in H. unfold edge_source, getEdge, isEdgeValid.
  destruct (edges g !! e) as [r|], (edges g' !! e) as [r'|]; try done.
  apply (inj Some), no_masks_fields in H as (_ & Hs & _ & -> & _). by destruct (e_alive r').
Qed.

#[export] Instance on_edge_masks_eq : Proper (masks_eq ==> eq ==> eq ==> eq ==> iff) on_edge.
Proof.
  assert (forall g g' e u v, masks_eq g g' -> on_edge g e u v -> on_edge g' e u v) as H.
  { intros g g' e u v H (r & He & ? & ? & ? & ?). destruct (masks_eq_lookup _ _ _ _ H He) as (r' & ? & Hr).
    apply no_masks_fields in Hr as (? & ? & ? & ? & ?). exists r'. split_and!; congruence. }
  intros g g' Hg e _ <- u _ <- v _ <-. split; apply H; by symmetry + done.
Qed.

#[export] Instance enabled_masks_eq : Proper (masks_eq ==> eq ==> eq ==> iff) enabled.
Proof.
  intros g g' H u _ <- v _ <-. rewrite !enabled_on.
  split; intros [e He]; exists e; revert He; apply on_edge_masks_eq; done.
Qed.

Lemma masks_eq_set h e g :
  (forall r, no_masks (h r) = no_masks r) -> masks_eq (set_edges (alter h e) g) g.
Proof.
  intros Hh. constructor. unfold strip, set_edges. f_equal. cbn.
  apply list_eq. intros i. rewrite !list_lookup_fmap, list_lookup_alter.
  case_decide; [subst|done]. destruct (edges g !! i); cbn; [|done]. by rewrite Hh.
Qed.

Lemma masks_eq_wf g g' :
  graph_wf g -> masks_eq g g' ->
  (forall e r, edges g' !! e = Some r -> e_alive r = true ->
     length (fromClocks r) = length (clocks g) /\ length (toClocks r) = length (clocks g)) ->
  graph_wf g'.
Proof.
  intros Hwf H Hm. destruct (set_edges_wf g (fun _ => edges g') Hwf) as [Hwf' _].
  - destruct H as [H]. apply (f_equal (fun h => length (edges h))) in H. cbn in H. by rewrite !length_fmap in H.
  - intros e r' He. assert (masks_eq g' g) as H' by done.
    destruct (masks_eq_lookup _ _ _ _ H' He) as (r & Hr & Hf).
    apply no_masks_fields in Hf as (? & ? & ? & Ha & ?). exists r. split_and!; try congruence.
    intros Hal. apply (Hm e); congruence.
  - replace g' with (set_edges (fun _ => edges g') g); [done|].
    clear -H. destruct H as [H]. unfold strip, set_edges in *. destruct g, g'. cbn in *. congruence.
Qed.

(** * Writing the masks of a list of edges *)

Section fold_edges.
Context (h : TEdge -> TEdge) (Hh : forall r, no_masks (h r) = no_masks r)
  (Hidem : forall r, h (h r) = h r).

Definition fold_edges (l : list EdgeId) (g : TGraph) : TGraph :=
  foldl (fun g eid => if edge_on g eid then set_edges (alter h eid) g else g) g l.

Lemma fold_edges_spec l g :
  masks_eq (fold_edges l g) g /\
  forall e, edges (fold_edges l g) !! e =
    (fun r => if decide (e ∈ l /\ edge_on g e = true) then h r else r) <$> edges g !! e.
Proof using Hh Hidem.
  induction l as [|d l [Heq He]] using rev_ind.
  - split; [done|]. intros e. cbn. destruct (edges g !! e); [cbn|done]. rewrite decide_False; [done|].
    intros [?%not_elem_of_nil _]. done.
  - unfold fold_edges in *. rewrite foldl_app. cbn [foldl]. set (g1 := foldl _ g l) in *.
    destruct (edge_on g1 d) eqn:Hon; rewrite Heq in Hon.
    + split; [by rewrite masks_eq_set|]. intros e. cbn [set_edges edges].
      rewrite list_lookup_alter. case_decide as Hd.
      * subst e. rewrite He. destruct (edges g !! d); cbn; [|done].
        rewrite (decide_True (P := d ∈ l ++ [d] /\ _)) by (split; [set_solver|done]).
        f_equal. case_decide; [apply Hidem|done].
      * rewrite He. destruct (edges g !! e); cbn; [|done]. f_equal. apply decide_ext. set_solver.
    + split; [done|]. intros e. rewrite He. destruct (edges g !! e); cbn; [|done]. f_equal.
      apply decide_ext. rewrite elem_of_app, list_elem_of_singleton.
      split; [tauto|]. intros [[?| ->] ?]; [done|congruence].
Qed.
End fold_edges.

(** * Launch masks *)

Lemma set_from_spec resolved g :
  graph_wf g ->
  masks_eq (set_from resolved g) g /\
  forall e, edges (set_from resolved g) !! e =
    (fun r => if edge_on g e then setFromClocks (mask_at resolved (e_source r)) r else r)
      <$> edges g !! e.
Proof.
  intros Hwf. unfold set_from.
  set (step := fun g n => _).
  assert (forall k, k <= length (nodes g) ->
    masks_eq (foldl step g (seq 0 k)) g /\
    forall e, edges (foldl step g (seq 0 k)) !! e =
      (fun r => if decide (edge_on g e = true /\ e_source r < k)
                then setFromClocks (mask_at resolved (e_source r)) r else r) <$> edges g !! e) as H.
  { induction k as [|k IH]; intros Hk.
    - split; [done|]. intros e. cbn. destruct (edges g !! e); cbn; [|done].
      rewrite decide_False by lia. done.
    - destruct IH as [Heq He]; [lia|]. rewrite seq_S, foldl_app. cbn [foldl Nat.add].
      set (g1 := foldl step g (seq 0 k)) in *. unfold step.
      assert (getNode g1 k = getNode g k) as -> by by rewrite Heq.
      destruct (getNode g k) as [node|] eqn:Hn.
      + destruct (fold_edges_spec (setFromClocks (mask_at resolved k)) (fun _ => eq_refl)
          (fun _ => eq_refl) (outEdges node) g1) as [H1 H2].
        unfold fold_edges in *. split; [by etrans|]. intros e. rewrite H2, He.
        destruct (edges g !! e) as [r|] eqn:Hr; cbn; [|done]. f_equal.
        assert (edge_on g1 e = edge_on g e) as -> by by rewrite Heq.
        apply getNode_Some in Hn as [Hn _].
        assert (e ∈ outEdges node /\ edge_on g e = true <-> edge_on g e = true /\ e_source r = k) as Hin.
        { split.
          - intros [Hin Hon]. split; [done|]. pose proof (out_edge_iff g k node e Hwf Hn Hin Hon) as Hoe.
            destruct Hoe as (r' & ? & ? & ? & ? & ?). congruence.
          - intros [Hon <-]. split; [|done]. apply edge_on_true in Hon as (r' & Hr' & ? & ? & ? & ?).
            simplify_eq. destruct (wf_links g Hwf (e_source r)) as (_ & Ho & _).
            unfold outs, field in Ho. rewrite Hn in Ho. apply Ho. eexists. apply edge_ends_Some. eauto. }
        rewrite (decide_ext _ _ _ _ Hin). clear -Hin.
        destruct (edge_on g e); [|by repeat rewrite decide_False by (intros [? _]; done)].
        destruct (decide (e_source r = k)) as [<-|Hne].
        * rewrite (decide_True (P := _ /\ _ = _)) by done.
          rewrite (decide_True (P := _ /\ _ < S _)) by (split; [done|lia]). by case_decide.
        * rewrite (decide_False (P := _ /\ e_source r = k)) by (intros [_ ?]; done).
          apply decide_ext. lia.
      + split; [done|]. intros e. rewrite He. destruct (edges g !! e) as [r|] eqn:Hr; cbn; [|done].
        f_equal. apply decide_ext. split; [intros [??]; split; [done|lia]|]. intros [Hon Hlt].
        split; [done|]. destruct (decide (e_source r = k)) as [Hs|]; [|lia]. exfalso.
        apply edge_on_true in Hon as Hoe. destruct (on_edge_valid _ _ _ _ Hwf Hoe) as [Hv _].
        destruct Hoe as (r' & ? & ? & ? & ? & ?). simplify_eq.
        assert (isNodeValid g (e_source r) = true) as (? & ? & _)%getNode_valid by congruence. congruence. }
  specialize (H (length (nodes g)) (le_n _)) as [Heq He]. split; [done|]. intros e. rewrite He.
  destruct (edges g !! e) as [r|] eqn:Hr; cbn; [|done]. f_equal.
  destruct (edge_on g e) eqn:Hon; [|by rewrite decide_False by naive_solver].
  apply decide_True. split; [done|]. apply edge_on_true in Hon as Hoe.
  destruct (on_edge_valid _ _ _ _ Hwf Hoe) as [Hv _]. apply valid_lt in Hv.
  destruct Hoe as (r' & ? & ? & ? & ? & ?). simplify_eq. congruence.
Qed.

(** * Capture masks *)

(** Clock [c] launches a capture edge into [n]. *)
Definition captured (g : TGraph) (c : ClockId) (n : NodeId) : Prop :=
  exists e s, capture_ends g e = Some (s, n) /\ reach g c s.
Definition flop_data (g : TGraph) (n : NodeId) : bool := from_option isFlopDataOutput false (nodes g !! n).
Definition combinational (g : TGraph) (u v : NodeId) : Prop := enabled g u v /\ flop_data g v = false.
(** [n] reaches a node captured by [c] without entering a flop's data output. *)
Definition demand (g : TGraph) (c : ClockId) (n : NodeId) : Prop :=
  exists m, rtc (combinational g) n m /\ captured g c m.

Lemma demand_step g c n :
  demand g c n <-> captured g c n \/
    exists e v, on_edge g e n v /\ flop_data g v = false /\ demand g c v.
Proof.
  split.
  - intros (m & Hr & Hc). destruct Hr as [|n v m [Hnv Hf] Hr]; [by left|right].
    apply enabled_on in Hnv as [e He]. exists e, v. split_and!; [done..|]. by exists m.
  - intros [Hc|(e & v & He & Hf & m & Hr & Hc)]; [by exists n|]. exists m. split; [|done].
    eapply rtc_l; [|done]. split; [apply enabled_on; eauto|done].
Qed.

#[export] Instance reach_masks_eq : Proper (masks_eq ==> eq ==> eq ==> iff) reach.
Proof.
  assert (forall g g' c n, masks_eq g g' -> reach g c n -> reach g' c n) as H.
  { intros g g' c n Hg (clk & Hc & Hr). exists clk. rewrite (clocks_masks_eq _ _ Hg) in Hc.
    split; [done|]. eapply rtc_subrel; [|exact Hr]. intros u v. by rewrite Hg. }
  intros g g' Hg c _ <- n _ <-. split; by apply H.
Qed.

#[export] Instance captured_masks_eq : Proper (masks_eq ==> eq ==> eq ==> iff) captured.
Proof.
  intros g g' Hg c _ <- n _ <-. unfold captured, capture_ends.
  rewrite (captureEdges_masks_eq _ _ Hg).
  split; intros (e & s & He & Hr); exists e, s; (split; [done|]); revert Hr; by apply reach_masks_eq.
Qed.

#[export] Instance demand_masks_eq : Proper (masks_eq ==> eq ==> eq ==> iff) demand.
Proof.
  assert (forall g g' c n, masks_eq g g' -> demand g c n -> demand g' c n) as H.
  { intros g g' c n Hg (m & Hr & Hc). exists m.
    split; [|by apply (captured_masks_eq _ _ Hg c c eq_refl m m eq_refl)].
    eapply rtc_subrel; [|exact Hr]. intros u v [Huv Hf]. unfold combinational, flop_data.
    rewrite <- (nodes_masks_eq _ _ Hg). split; [|done]. by apply (enabled_masks_eq _ _ Hg u u eq_refl v v eq_refl). }
  intros g g' Hg c _ <- n _ <-. split; by apply H.
Qed.

Section backward.
Context (g : TGraph) (Hwf : graph_wf g).
Context (Hfrom : forall e u v, on_edge g e u v -> exists r, edges g !! e = Some r /\
  length (fromClocks r) = length (clocks g) /\ forall c, hasFromClock r c = true <-> reach g c u).

Lemma clocks_at_spec s :
  isNodeValid g s = true ->
  length (clocks_at g (clock_seeds g) s) = length (clocks g) /\
  forall c, default false (clocks_at g (clock_seeds g) s !! c) = true <-> reach g c s.
Proof using Hwf Hfrom.
  intros Hv. destruct (clock_seeds_spec g) as [Hok Hseed]. pose proof (valid_lt g s Hv) as Hlt.
  unfold clocks_at. destruct (getNode_valid g s Hv) as (node & Hn & _). rewrite Hn.
  pose proof (ins_getNode g s node Hn) as Hins. set (step := fun m e => _).
  assert (forall l, (forall e, e ∈ l -> e ∈ ins g s) ->
    length (foldl step (mask_at (clock_seeds g) s) l) = length (clocks g) /\
    forall c, default false (foldl step (mask_at (clock_seeds g) s) l !! c) = true <->
      seed g c s \/ exists e u, e ∈ l /\ on_edge g e u s /\ reach g c u) as H.
  { induction l as [|e l IH] using rev_ind; intros Hl.
    - cbn [foldl]. split; [by apply mask_at_length|]. intros c. rewrite (Hseed s c Hlt).
      split; [by left|]. by intros [?|(e & u & ?%not_elem_of_nil & _)].
    - destruct IH as [Hlen Hm]; [set_solver|]. rewrite foldl_app. cbn [foldl].
      set (m := foldl step _ l) in *.
      assert (e ∈ ins g s) as Hin by set_solver.
      destruct (edge_on g e) eqn:Hon.
      + pose proof (in_edge_on g s e Hwf Hin Hon) as He.
        destruct (Hfrom _ _ _ He) as (r & Hr & Hrlen & Hrm).
        assert (step m e = mask_or (fromClocks r) m) as ->.
        { unfold step, edge_on in *. destruct (getEdge g e) as [r'|] eqn:Hg; [|done].
          apply negb_true_iff in Hon. rewrite Hon. unfold getEdge in Hg. case_match; congruence. }
        split; [unfold mask_or; rewrite length_zip_with; lia|]. intros c.
        rewrite mask_or_at by congruence. rewrite orb_true_iff, Hm.
        change (default false (fromClocks r !! c)) with (hasFromClock r c). rewrite Hrm.
        split.
        * intros [[?|(e' & u & ? & ? & ?)]|?]; [by left|right; exists e', u; set_solver|].
          right. exists e, (edge_source g e). set_solver.
        * intros [?|(e' & u & Hin' & He' & ?)]; [by left; left|].
          apply elem_of_app in Hin' as [?|Hin']; [left; right; eauto|].
          apply list_elem_of_singleton in Hin' as ->. right.
          by destruct (on_edge_fun _ _ _ _ _ _ He He') as [-> _].
      + assert (step m e = m) as ->.
        { unfold step, edge_on in *. destruct (getEdge g e) as [r|]; [|done].
          by apply negb_false_iff in Hon as ->. }
        split; [done|]. intros c. rewrite Hm. split.
        * intros [?|(e' & u & ? & ?)]; [by left|right; exists e', u; set_solver].
        * intros [?|(e' & u & Hin' & He' & ?)]; [by left|].
          apply elem_of_app in Hin' as [?|Hin']; [right; eauto|].
          apply list_elem_of_singleton in Hin' as ->. apply on_edge_on in He' as [? _]. congruence. }
  destruct (H (inEdges node)) as [Hlen Hm]; [by rewrite Hins|]. split; [done|].
  intros c. rewrite Hm, reach_step. rewrite <- Hins. split.
  - intros [?|(e & u & _ & ? & ?)]; eauto 10.
  - intros [?|(e & u & ? & ?)]; [by left|]. right. exists e, u. split; [by eapply in_edge_iff|done].
Qed.

Lemma capture_seeds_spec :
  masks_ok g (capture_seeds g) /\
  forall n c, isNodeValid g n = true -> bit (capture_seeds g) n c = true <-> captured g c n.
Proof using Hwf Hfrom.
  unfold capture_seeds. set (init := replicate _ _). set (step := fun m e => _).
  assert (forall l, (forall r, r ∈ l -> c_alive r = true ->
      isNodeValid g (c_source r) = true /\ isNodeValid g (c_target r) = true) ->
    masks_ok g (foldl step init l) /\
    forall n c, isNodeValid g n = true -> bit (foldl step init l) n c = true <->
      exists r, r ∈ l /\ c_alive r = true /\ c_target r = n /\ reach g c (c_source r)) as H.
  { induction l as [|r l IH] using rev_ind; intros Hl.
    - split; [apply empty_masks_ok|]. intros n c _. cbn [foldl]. unfold init. rewrite empty_masks_bit.
      split; [done|]. by intros (r & ?%not_elem_of_nil & _).
    - destruct IH as [Hok Hm]; [set_solver|]. rewrite foldl_app. cbn [foldl].
      set (m := foldl step init l) in *. unfold step. destruct (c_alive r) eqn:Ha.
      + destruct (Hl r) as [Hs Ht]; [set_solver|done|]. destruct (clocks_at_spec _ Hs) as [Hlen Hat].
        split; [by apply alter_or_ok|]. intros n c Hv.
        rewrite (bit_alter_or g) by (done || by apply valid_lt).
        rewrite orb_true_iff, andb_true_iff, bool_decide_eq_true, Hat, (Hm n c Hv). split.
        * intros [(r' & ? & ?)|[-> ?]]; [exists r'|exists r]; set_solver.
        * intros (r' & Hr' & ? & <- & ?). apply elem_of_app in Hr' as [?|Hr']; [left; eauto|].
          apply list_elem_of_singleton in Hr' as ->. by right.
      + split; [done|]. intros n c Hv. rewrite (Hm n c Hv). split.
        * intros (r' & ? & ?). exists r'. set_solver.
        * intros (r' & Hr' & ? & ?). apply elem_of_app in Hr' as [?|Hr']; [eauto|].
          apply list_elem_of_singleton in Hr' as ->. congruence. }
  assert (forall e r, captureEdges g !! e = Some r -> c_alive r = true ->
    capture_ends g e = Some (c_source r, c_target r)) as Hends.
  { intros e r Hr Ha. unfold capture_ends. rewrite Hr. cbn. by rewrite Ha. }
  destruct (H (captureEdges g)) as [Hok Hm].
  { intros r [e Hr]%list_elem_of_lookup_1 Ha. eapply (wf_capture_ends g Hwf), Hends; done. }
  split; [done|]. intros n c Hv. rewrite (Hm n c Hv). split.
  - intros (r & [e Hr]%list_elem_of_lookup_1 & Ha & <- & Hreach). exists e, (c_source r).
    split; [by apply Hends|done].
  - intros (e & s & He & Hreach). unfold capture_ends in He.
    destruct (captureEdges g !! e) as [r|] eqn:Hr; [|done]. cbn in He. destruct (c_alive r) eqn:Ha; [|done].
    injection He as <- <-. exists r. split_and!; [by eapply list_elem_of_lookup_2|done..].
Qed.

Record back_inv (P : NodeId -> EdgeId -> Prop) (de : list EdgeId) (s : TGraph * list ClockMask) : Prop := {
  bi_eq : masks_eq s.1 g;
  bi_masks : masks_ok g s.2;
  bi_on e : e ∈ de -> on_edge g e (edge_source g e) (edge_target g e) /\
    flop_data g (edge_target g e) = false;
  bi_bit n c : isNodeValid g n = true ->
    bit s.2 n c = true <->
      captured g c n \/ exists e v, e ∈ de /\ on_edge g e n v /\ demand g c v;
  bi_edge e r : edges g !! e = Some r -> exists m, edges s.1 !! e = Some (setToClocks m r) /\
    (e ∈ de -> length m = length (clocks g) /\
       forall c, default false (m !! c) = true <-> demand g c (e_target r)) /\
    (e ∉ de -> m = toClocks r);
  bi_done e u v : on_edge g e u v -> e ∈ de <-> P v e }.

Lemma back_inv_ext (P P' : NodeId -> EdgeId -> Prop) de s :
  (forall e u v, on_edge g e u v -> P v e <-> P' v e) -> back_inv P de s -> back_inv P' de s.
Proof using Type.
  intros HP H. split; try apply H. intros e u v He. rewrite (bi_done _ _ _ H _ _ _ He). eauto.
Qed.

(** The out-edges of [n] that pass captures to it have all been followed. *)
Definition settled (de : list EdgeId) (n : NodeId) : Prop :=
  forall e v, on_edge g e n v -> flop_data g v = false -> e ∈ de.

Lemma settled_demand P de s n c :
  back_inv P de s -> settled de n -> isNodeValid g n = true ->
  bit s.2 n c = true <-> demand g c n.
Proof using Type.
  intros H Hset Hv. rewrite (bi_bit _ _ _ H n c Hv), demand_step. split.
  - intros [?|(e & v & Hin & He & ?)]; [by left|]. right. exists e, v. split_and!; [done| |done].
    apply (bi_on _ _ _ H) in Hin as [He' Hf]. by destruct (on_edge_fun _ _ _ _ _ _ He He') as [_ ->].
  - intros [?|(e & v & He & Hf & ?)]; [by left|]. right. exists e, v. split_and!; [|done..].
    by apply (Hset e v).
Qed.

(** One in-edge of a node that is not a flop's data output. *)
Lemma back_edge_inv P de s n e passed :
  back_inv (fun v x => P v \/ v = n /\ x ∈ passed) de s ->
  settled de n -> isNodeValid g n = true -> flop_data g n = false -> e ∈ ins g n ->
  exists de', back_inv (fun v x => P v \/ v = n /\ x ∈ passed ++ [e]) de' (back_edge n s e) /\
    settled de' n.
Proof using Hwf Hfrom.
  intros H Hset Hv Hf Hin. destruct s as [g' cap]. unfold back_edge.
  assert (edge_on g' e = edge_on g e /\ edge_source g' e = edge_source g e) as [-> ->].
  { pose proof (bi_eq _ _ _ H) as Heq. cbn in Heq. by rewrite Heq. }
  destruct (edge_on g e) eqn:Hon.
  2:{ exists de. split; [|done]. eapply back_inv_ext; [|exact H]. intros e' u v [Hon' _]%on_edge_on.
      cbn. rewrite elem_of_app, list_elem_of_singleton. split; [tauto|].
      intros [?|[-> [?| ->]]]; [tauto|tauto|congruence]. }
  pose proof (in_edge_on g n e Hwf Hin Hon) as He. set (u := edge_source g e) in *.
  assert (length (mask_at cap n) = length (clocks g)) as Hlen
    by (eapply mask_at_length; [apply H|by apply valid_lt]).
  assert (forall c, default false (mask_at cap n !! c) = true <-> demand g c n) as Hdem
    by (intros c; exact (settled_demand _ _ _ n c H Hset Hv)).
  exists (e :: de). split; [|intros e' v ??; right; by apply (Hset e' v)].
  split; cbn [fst snd].
  - rewrite masks_eq_set by done. apply H.
  - apply alter_or_ok; [apply H|done].
  - intros e' [->|?]%elem_of_cons; [|by apply (bi_on _ _ _ H)].
    destruct (on_edge_on _ _ _ _ He) as (_ & -> & _). done.
  - intros x c Hx. rewrite (bit_alter_or g); [|apply H|done|].
    2:{ by apply valid_lt, (on_edge_valid _ _ _ _ Hwf He). }
    rewrite orb_true_iff, andb_true_iff, bool_decide_eq_true, Hdem.
    rewrite (bi_bit _ _ _ H x c Hx). split.
    + intros [[?|(e' & v & ? & ? & ?)]|[-> ?]]; [by left| |].
      * right. exists e', v. split_and!; [by right|done..].
      * right. exists e, n. split_and!; [by left|done..].
    + intros [?|(e' & v & Hin' & He' & Hd)]; [by left; left|].
      apply elem_of_cons in Hin' as [->|?]; [|left; right; eauto].
      destruct (on_edge_fun _ _ _ _ _ _ He He') as [-> ->]. by right.
  - intros e' r Hr. destruct (bi_edge _ _ _ H e' r Hr) as (m & Hm & Hin' & Hni). cbn in Hm.
    cbn [set_edges edges]. rewrite list_lookup_alter. case_decide as Hd.
    + subst e'. exists (mask_at cap n). rewrite Hm. cbn. split; [done|]. split; [|set_solver].
      intros _. split; [done|]. destruct He as (r' & Hr' & _ & _ & _ & Ht). simplify_eq. intros c. apply Hdem.
    + exists m. rewrite Hm. split; [done|]. split; [|set_solver].
      intros [->|?]%elem_of_cons; [done|by apply Hin'].
  - intros e' u' v He'. rewrite elem_of_cons, (bi_done _ _ _ H _ _ _ He').
    rewrite elem_of_app, list_elem_of_singleton. split; [|tauto].
    intros [->|?]; [|tauto]. destruct (on_edge_fun _ _ _ _ _ _ He He') as [_ <-]. tauto.
Qed.

Lemma back_node_inv P n todo : forall passed de s,
  back_inv (fun v x => P v \/ v = n /\ x ∈ passed) de s ->
  settled de n -> isNodeValid g n = true -> flop_data g n = false -> ins g n = passed ++ todo ->
  exists de', back_inv (fun v x => P v \/ v = n /\ x ∈ ins g n) de' (foldl (back_edge n) s todo).
Proof using Hwf Hfrom.
  induction todo as [|e todo IH]; intros passed de s H Hset Hv Hf Hins; cbn [foldl].
  - rewrite app_nil_r in Hins. exists de. by rewrite Hins.
  - destruct (back_edge_inv P de s n e passed) as (de' & H' & Hset'); try done.
    { rewrite Hins. set_solver. }
    apply (IH (passed ++ [e]) de'); try done. by rewrite <- app_assoc.
Qed.

Definition comb_target (l : list NodeId) (v : NodeId) : Prop := v ∈ l /\ flop_data g v = false.

Lemma back_nodes_inv todo : forall l de s,
  back_inv (fun v _ => comb_target l v) de s ->
  (forall n, n ∈ todo -> isNodeValid g n = true) ->
  (forall l1 n l2, l ++ todo = l1 ++ n :: l2 -> forall v, enabled g n v -> v ∈ l1) ->
  exists de', back_inv (fun v _ => comb_target (l ++ todo) v) de' (foldl back_node s todo).
Proof using Hwf Hfrom.
  induction todo as [|n todo IH]; intros l de s H Hval Hord; cbn [foldl].
  - exists de. by rewrite app_nil_r.
  - assert (isNodeValid g n = true) as Hv by (apply Hval; left).
    assert (exists de', back_inv (fun v _ => comb_target (l ++ [n]) v) de' (back_node s n)) as [de' H'].
    { unfold back_node. destruct s as [g' cap]. pose proof (bi_eq _ _ _ H) as Heq. cbn in Heq.
      cbn [fst]. assert (getNode g' n = getNode g n) as -> by by rewrite Heq.
      destruct (getNode_valid g n Hv) as (node & Hg & Hn). rewrite Hg.
      assert (flop_data g n = isFlopDataOutput node) as Hfd by (unfold flop_data; by rewrite Hn).
      assert (forall v, comb_target (l ++ [n]) v <-> (v ∈ l \/ v = n) /\ flop_data g v = false) as Hct.
      { intros v. unfold comb_target. by rewrite elem_of_app, list_elem_of_singleton. }
      destruct (isFlopDataOutput node).
      - exists de. eapply back_inv_ext; [|exact H]. intros e u v _. cbn. rewrite Hct. unfold comb_target.
        split; [tauto|]. intros [[?| ->] ?]; [tauto|congruence].
      - destruct (back_node_inv (comb_target l) n (ins g n) [] de (g', cap)) as [de' H']; try done.
        + eapply back_inv_ext; [|exact H]. intros e u v _. cbn. split; [tauto|].
          intros [?|[_ ?%not_elem_of_nil]]; done.
        + intros e v He Hf. apply (bi_done _ _ _ H _ _ _ He). split; [|done].
          apply (Hord l n todo); [done|]. apply enabled_on. eauto.
        + exists de'. rewrite <- (ins_getNode g n node Hg). eapply back_inv_ext; [|exact H'].
          intros e u v He. cbn. rewrite Hct. unfold comb_target. split.
          * intros [?|[-> _]]; [tauto|]. split; [by right|congruence].
          * intros [[?| ->] ?]; [by left|]. right. split; [done|]. by eapply in_edge_iff. }
    destruct (IH (l ++ [n]) de' (back_node s n)) as [de'' H'']; try done.
    + intros x Hx. apply Hval. by right.
    + rewrite <- app_assoc. done.
    + exists de''. by rewrite <- app_assoc in H''.
Qed.

Lemma elem_of_rev {A} (x : A) l : x ∈ rev l <-> x ∈ l.
Proof using Type. rewrite !list_elem_of_In. symmetry. apply in_rev. Qed.

(** In reverse topological order, every enabled edge takes the captures its
    target demands, unless the target is a flop's data output. *)
Lemma propagateBackward_spec order :
  (forall n, n ∈ order <-> isNodeValid g n = true) -> NoDup order ->
  (forall l1 m l2, order = l1 ++ m :: l2 -> forall u, enabled g u m -> u ∈ l1) ->
  let g' := propagateBackward g order in
  masks_eq g' g /\
  forall e r, edges g !! e = Some r -> exists m, edges g' !! e = Some (setToClocks m r) /\
    if decide (edge_on g e = true /\ flop_data g (e_target r) = false)
    then length m = length (clocks g) /\
      forall c, default false (m !! c) = true <-> demand g c (e_target r)
    else m = toClocks r.
Proof using Hwf Hfrom.
  intros Hval Hnd Hord. cbv zeta. unfold propagateBackward.
  destruct capture_seeds_spec as [Hok Hbit].
  destruct (back_nodes_inv (rev order) [] [] (g, capture_seeds g)) as [de H].
  - split; cbn [fst snd]; try done.
    + by intros e ?%not_elem_of_nil.
    + intros n c Hv. rewrite Hbit by done. split; [by left|].
      intros [?|(e & v & ?%not_elem_of_nil & _)]; done.
    + intros e r Hr. exists (toClocks r). split; [by destruct r|]. split; [|done].
      by intros ?%not_elem_of_nil.
    + intros e u v _. unfold comb_target. rewrite !elem_of_nil. tauto.
  - intros n Hn. apply Hval. by rewrite elem_of_rev in Hn.
  - cbn [app]. intros l1 n l2 Heq v Hnv.
    assert (order = rev l2 ++ n :: rev l1) as Ho.
    { rewrite <- (rev_involutive order), Heq, rev_app_distr. cbn. by rewrite <- app_assoc. }
    assert (v ∈ order) as Hin.
    { apply Hval. apply enabled_on in Hnv as [e He]. apply (on_edge_valid _ _ _ _ Hwf He). }
    rewrite Ho, elem_of_app, elem_of_cons, (elem_of_rev _ l1) in Hin.
    rewrite Ho in Hnd. apply NoDup_app in Hnd as (Hnd1 & Hd & _).
    destruct Hin as [Hin|[->|Hin]]; [| |done].
    + exfalso. apply list_elem_of_split in Hin as (a & b & Hl).
      assert (n ∈ a) as Hna.
      { apply (Hord a v (b ++ n :: rev l1)); [|done]. rewrite Ho, Hl. by rewrite <- app_assoc. }
      apply (Hd n); [rewrite Hl; set_solver|left].
    + exfalso. apply (Hd n); [|left]. by apply (Hord _ _ _ Ho).
  - cbn [app] in H. split; [apply H|]. intros e r Hr.
    destruct (bi_edge _ _ _ H e r Hr) as (m & Hm & Hin & Hni). exists m. split; [done|].
    case_decide as Hd.
    + apply Hin. destruct Hd as [Hon Hf]. apply edge_on_true in Hon as He.
      assert (e_target r = edge_target g e) as Ht by (destruct He as (r' & ? & ? & ? & ? & ?); congruence).
      apply (bi_done _ _ _ H _ _ _ He). split; [|by rewrite <- Ht].
      rewrite elem_of_rev. apply Hval, (on_edge_valid _ _ _ _ Hwf He).
    + apply Hni. intros Hin'. apply Hd. apply (bi_on _ _ _ H) in Hin' as [He Hf].
      assert (e_target r = edge_target g e) as -> by (destruct He as (r' & ? & ? & ? & ? & ?); congruence).
      apply on_edge_on in He as [? _]. done.
Qed.
End backward.

(** * The whole run *)

Lemma propagateForward_spec g pos :
  graph_wf g -> (forall u v, enabled g u v -> pos u < pos v) ->
  exists order g', propagateForward g = Ret (order, g') /\ masks_eq g' g /\
    (forall n, n ∈ order <-> isNodeValid g n = true) /\ NoDup order /\
    (forall l1 m l2, order = l1 ++ m :: l2 -> forall u, enabled g u m -> u ∈ l1) /\
    forall e r, edges g !! e = Some r -> exists m, edges g' !! e = Some (setFromClocks m r) /\
      if edge_on g e
      then length m = length (clocks g) /\
        forall c, default false (m !! c) = true <-> reach g c (e_source r)
      else m = fromClocks r.
Proof.
  intros Hwf Hpos. destruct (kahn_spec g Hwf pos Hpos) as (s & Hrun & Hlen & Hnd & Hval & Hord & Hok & Hbit).
  exists (k_queue s), (set_from (k_resolved s) g). unfold propagateForward. rewrite Hrun.
  cbn [mbind outcome_bind]. unfold require. rewrite bool_decide_eq_true_2 by done.
  destruct (set_from_spec (k_resolved s) g Hwf) as [Heq He].
  split_and!; try done. intros e r Hr. rewrite He, Hr. cbn. destruct (edge_on g e) eqn:Hon.
  - eexists. split; [done|]. apply edge_on_true in Hon as Hoe.
    destruct (on_edge_valid _ _ _ _ Hwf Hoe) as [Hv _].
    assert (edge_source g e = e_source r) as Hs by (destruct Hoe as (r' & ? & ? & ? & ? & ?); congruence).
    rewrite Hs in Hv. split; [apply mask_at_length; [done|by apply valid_lt]|].
    intros c. by apply Hbit.
  - exists (fromClocks r). split; [by destruct r|done].
Qed.

Lemma clear_masks_spec g :
  masks_eq (clear_masks g) g /\
  forall e r, edges (clear_masks g) !! e = Some r -> e_alive r = true ->
    fromClocks r = replicate (length (clocks g)) false /\
    toClocks r = replicate (length (clocks g)) false.
Proof.
  split.
  - constructor. unfold clear_masks, strip, set_edges. f_equal. cbn. apply list_eq. intros i.
    rewrite !list_lookup_fmap. destruct (edges g !! i) as [r|]; [|done]. cbn. by destruct (e_alive r).
  - intros e r He Ha. unfold clear_masks in He. cbn in He. rewrite list_lookup_fmap in He.
    destruct (edges g !! e) as [r0|]; [|done]. cbn in He. injection He as <-.
    destruct (e_alive r0) eqn:Ha0; [done|congruence].
Qed.

(** What [run] needs of the graph: no latch, and live nodes under the clocks. *)
Definition no_latch (g : TGraph) : Prop :=
  forall n r, nodes g !! n = Some r -> n_alive r = true -> isLatch r = false.
Definition seeds_valid (g : TGraph) : Prop :=
  forall c clk, clocks g !! c = Some clk -> isNodeValid g (clock_node clk) = true.

Lemma no_latch_spec g :
  existsb (fun n => n_alive n && isLatch n) (nodes g) = false <-> no_latch g.
Proof.
  rewrite <- not_true_iff_false, existsb_exists. unfold no_latch. split.
  - intros H n r Hr Ha. apply not_true_iff_false. intros Hl. apply H. exists r.
    rewrite <- list_elem_of_In, Ha, Hl. split; [by eapply list_elem_of_lookup_2|done].
  - intros H (r & [n Hr]%list_elem_of_In%list_elem_of_lookup_1 & [Ha Hl]%andb_true_iff).
    rewrite (H n r Hr Ha) in Hl. done.
Qed.

Lemma seeds_valid_spec g :
  forallb (fun c => isNodeValid g (clock_node c)) (clocks g) = true <-> seeds_valid g.
Proof.
  rewrite forallb_forall. unfold seeds_valid. setoid_rewrite <- list_elem_of_In. split.
  - intros H c clk Hc. apply H. by eapply list_elem_of_lookup_2.
  - intros H clk [c Hc]%list_elem_of_lookup_1. by eapply H.
Qed.

(** The edge [r] holds exactly the launch and capture clocks of [g]. *)
Definition edge_clocks (g : TGraph) (r : TEdge) : Prop :=
  length (fromClocks r) = length (clocks g) /\ length (toClocks r) = length (clocks g) /\
  forall c, (hasFromClock r c = true <-> disabled r = false /\ reach g c (e_source r)) /\
    (hasToClock r c = true <->
       disabled r = false /\ flop_data g (e_target r) = false /\ demand g c (e_target r)).

Lemma edge_clocks_masks_eq g g' r : masks_eq g g' -> edge_clocks g r -> edge_clocks g' r.
Proof.
  intros H (Hf & Ht & Hc). rewrite (clocks_masks_eq _ _ H) in Hf, Ht. split_and!; [done..|].
  intros c. destruct (Hc c) as [-> ->]. unfold flop_data. rewrite (nodes_masks_eq _ _ H).
  split; by rewrite H.
Qed.

Lemma propagate_spec g pos :
  graph_wf g -> (forall u v, enabled g u v -> pos u < pos v) ->
  (forall e r, edges g !! e = Some r -> e_alive r = true ->
     fromClocks r = replicate (length (clocks g)) false /\
     toClocks r = replicate (length (clocks g)) false) ->
  exists order gf, propagateForward g = Ret (order, gf) /\
    let g' := propagateBackward gf order in
    masks_eq g' g /\ forall e r, edges g' !! e = Some r -> e_alive r = true -> edge_clocks g' r.
Proof.
  intros Hwf Hpos Hempty.
  destruct (propagateForward_spec g pos Hwf Hpos) as (order & gf & Hrun & Heqf & Hval & Hnd & Hord & Hf).
  exists order, gf. split; [done|]. cbv zeta.
  assert (forall e r m, edges g !! e = Some r -> e_alive r = true ->
    (if edge_on g e then length m = length (clocks g) /\
       forall c, default false (m !! c) = true <-> reach g c (e_source r) else m = fromClocks r) ->
    length m = length (clocks g) /\
      forall c, default false (m !! c) = true <-> disabled r = false /\ reach g c (e_source r)) as Hmask.
  { intros e r m Hr Ha Hm. unfold edge_on, getEdge, isEdgeValid in Hm. rewrite Hr, Ha in Hm.
    destruct (disabled r); cbn in Hm.
    - rewrite Hm. destruct (Hempty e r Hr Ha) as [-> _]. rewrite length_replicate. split; [done|].
      intros c. split; [|by intros [? _]]. destruct (replicate _ _ !! c) eqn:E; [|done].
      apply lookup_replicate in E as [-> _]. done.
    - destruct Hm as [? Hm]. split; [done|]. intros c. rewrite Hm. tauto. }
  assert (graph_wf gf) as Hwff.
  { apply (masks_eq_wf g); [done|by symmetry|]. intros e rf Hrf Ha.
    destruct (masks_eq_lookup _ _ _ _ Heqf Hrf) as (r & Hr & Hnm).
    destruct (Hf e r Hr) as (m & Hm & Hspec). assert (rf = setFromClocks m r) as -> by congruence.
    apply no_masks_fields in Hnm as (_ & _ & _ & Ha' & _). cbn in Ha', Ha.
    destruct (Hmask e r m Hr ltac:(congruence) Hspec) as [? _]. split; [done|]. cbn.
    destruct (Hempty e r Hr ltac:(congruence)) as [_ ->]. apply length_replicate. }
  destruct (propagateBackward_spec gf Hwff) with (order := order) as [Heqb Hb].
  - intros e u v He. pose proof He as (rf & Hrf & Ha & Hd & Hs & Ht). exists rf. split; [done|].
    destruct (masks_eq_lookup _ _ _ _ Heqf Hrf) as (r & Hr & Hnm).
    destruct (Hf e r Hr) as (m & Hm & Hspec). assert (rf = setFromClocks m r) as -> by congruence.
    cbn in *. destruct (Hmask e r m Hr Ha Hspec) as [Hl Hc]. rewrite (clocks_masks_eq _ _ Heqf).
    split; [done|]. intros c. unfold hasFromClock. cbn. rewrite Hc, Heqf, Hs. tauto.
  - intros n. rewrite Heqf. apply Hval.
  - done.
  - intros l1 m l2 Ho u. rewrite Heqf. by apply (Hord l1 m l2).
  - split; [by etrans|]. intros e rb Hrb Ha. apply (edge_clocks_masks_eq g); [symmetry; by etrans|].
    assert (exists r, edges g !! e = Some r) as [r Hr].
    { destruct (masks_eq_lookup (propagateBackward gf order) g e rb) as (r & ? & _); [by etrans|done|by exists r]. }
    destruct (Hf e r Hr) as (m & Hm & Hspec). destruct (Hb e _ Hm) as (m' & Hm' & Hspec').
    assert (rb = setToClocks m' (setFromClocks m r)) as -> by congruence. cbn in Ha, Hspec'.
    destruct (Hmask e r m Hr Ha Hspec) as [Hl Hc].
    assert (edge_on gf e = negb (disabled r)) as Hon.
    { unfold edge_on, getEdge, isEdgeValid. rewrite Hm. cbn. by rewrite Ha. }
    assert (flop_data gf (e_target r) = flop_data g (e_target r)) as Hfd
      by (unfold flop_data; by rewrite (nodes_masks_eq _ _ Heqf)).
    rewrite Hon, Hfd, (clocks_masks_eq _ _ Heqf) in Hspec'.
    unfold edge_clocks, hasFromClock, hasToClock. cbn.
    case_decide as Hd; rewrite negb_true_iff in Hd.
    + destruct Hspec' as [Hl' Hc']. split_and!; [done..|]. intros c. split; [apply Hc|].
      rewrite Hc', Heqf. tauto.
    + destruct (Hempty e r Hr Ha) as [_ Ht]. rewrite Hspec', Ht, length_replicate.
      split_and!; [done..|]. intros c. split; [apply Hc|]. split; [|tauto].
      destruct (replicate _ _ !! c) eqn:E; [|done]. apply lookup_replicate in E as [-> _]. done.
Qed.

Lemma run_spec g :
  graph_wf g -> no_latch g -> seeds_valid g ->
  exists ds g', run g = Ret g' /\ masks_eq g' (disable_all ds (clear_masks g)) /\
    cuts_ok (clear_masks g) ds /\ graph_wf g' /\ (forall n, ~ tc (enabled g') n n) /\
    forall e r, edges g' !! e = Some r -> e_alive r = true -> edge_clocks g' r.
Proof.
  intros Hwf Hlatch Hseeds. destruct (clear_masks_spec g) as [Heqc Hempty].
  assert (graph_wf (clear_masks g)) as Hwfc.
  { apply (masks_eq_wf g); [done|by symmetry|]. intros e r Hr Ha.
    destruct (Hempty e r Hr Ha) as [-> ->]. by rewrite length_replicate. }
  destruct (lb_run_spec (clear_masks g) Hwfc) as (ds & Hlb & Hcuts & pos & Hpos).
  set (gd := disable_all ds (clear_masks g)) in *.
  assert (clocks gd = clocks g) as Hck.
  { rewrite <- (clocks_masks_eq _ _ Heqc). subst gd. clear. induction ds as [|e ds IH] using rev_ind; [done|].
    by rewrite disable_all_snoc. }
  destruct (propagate_spec gd pos) as (order & gf & Hf & Heqb & Hclocks).
  { by apply disable_all_wf. }
  { done. }
  { intros e r He Ha. rewrite Hck. subst gd. rewrite disable_all_edge in He.
    apply fmap_Some in He as (r0 & Hr0 & ->). case_decide; by apply (Hempty e r0). }
  exists ds, (propagateBackward gf order). split_and!.
  - unfold run. rewrite (proj2 (no_latch_spec (clear_masks g))).
    2:{ intros n r. rewrite (nodes_masks_eq _ _ Heqc). apply Hlatch. }
    rewrite (proj2 (seeds_valid_spec (clear_masks g))).
    2:{ intros c clk. rewrite (clocks_masks_eq _ _ Heqc), Heqc. apply Hseeds. }
    unfold require. cbn [negb mbind outcome_bind]. rewrite Hlb. cbn [mbind outcome_bind snd].
    rewrite Hf. done.
  - done.
  - done.
  - apply (masks_eq_wf gd); [by apply disable_all_wf|by symmetry|]. intros e r Hr Ha.
    destruct (Hclocks e r Hr Ha) as (H1 & H2 & _). by rewrite (clocks_masks_eq _ _ Heqb) in H1, H2.
  - intros n Hn. apply (tc_position _ pos) in Hn; [lia|]. intros u v Huv. apply Hpos. by rewrite <- Heqb.
  - done.
Qed.

(** C15. On a well-formed graph without latches and with live clock nodes,
    [TClockPropagator::run] ends without an error and leaves on every live edge
    its launch clocks, the clocks that reach its source along enabled edges, and
    its capture clocks, those of the capture edges that its target reaches
    without entering a flop's data output (none if the target is one); a
    disabled edge has neither. *)
Theorem run_clock_sets g :
  graph_wf g -> no_latch g -> seeds_valid g ->
  exists g', run g = Ret g' /\
    forall e r, edges g' !! e = Some r -> e_alive r = true -> forall c,
      (hasFromClock r c = true <-> disabled r = false /\ reach g' c (e_source r)) /\
      (hasToClock r c = true <->
         disabled r = false /\ flop_data g' (e_target r) = false /\ demand g' c (e_target r)).
Proof.
  intros Hwf Hl Hs. destruct (run_spec g Hwf Hl Hs) as (ds & g' & Hr & _ & _ & _ & _ & H).
  exists g'. split; [done|]. intros e r He Ha. apply (H e r He Ha).
Qed.

(** A run leaves a well-formed graph without a cycle of enabled edges; it
    only writes masks and disables edges that were enabled and on a cycle. *)
Theorem run_frame g :
  graph_wf g -> no_latch g -> seeds_valid g ->
  exists (ds : list EdgeId) g', run g = Ret g' /\ graph_wf g' /\ (forall n, ~ tc (enabled g') n n) /\
    nodes g' = nodes g /\ clocks g' = clocks g /\ captureEdges g' = captureEdges g /\
    (forall e, no_masks <$> edges g' !! e =
       (fun r => no_masks (if decide (e ∈ ds) then setDisabled true r else r)) <$> edges g !! e) /\
    forall e, e ∈ ds -> exists u v, on_edge g e u v /\ rtc (enabled g) v u.
Proof.
  intros Hwf Hl Hs. destruct (run_spec g Hwf Hl Hs) as (ds & g' & Hr & Heq & [_ Hcut] & Hwf' & Hac & _).
  destruct (clear_masks_spec g) as [Hc _].
  assert (strip g' = strip (disable_all ds g)) as Hst.
  { destruct Heq as [->]. destruct Hc as [Hc]. clear -Hc. revert Hc. generalize (clear_masks g) as g0. intros g0 Hc.
    assert (forall h, strip (disable_all ds h) = disable_all ds (strip h)) as Hcomm.
    { intros h. induction ds as [|e ds IH] using rev_ind; [done|]. rewrite !disable_all_snoc, <- IH.
      unfold strip, set_edges. f_equal. cbn. apply list_eq. intros i.
      rewrite !list_lookup_fmap, !list_lookup_alter. case_decide; [|by rewrite list_lookup_fmap].
      rewrite list_lookup_fmap. by destruct (edges (disable_all ds h) !! _). }
    by rewrite !Hcomm, Hc. }
  exists ds, g'. split_and!; try done.
  - rewrite (nodes_masks_eq g' (disable_all ds g)) by by constructor. apply disable_all_nodes.
  - rewrite (clocks_masks_eq g' (disable_all ds g)) by by constructor. clear.
    induction ds as [|e ds IH] using rev_ind; [done|]. by rewrite disable_all_snoc.
  - rewrite (captureEdges_masks_eq g' (disable_all ds g)) by by constructor. clear.
    induction ds as [|e ds IH] using rev_ind; [done|]. by rewrite disable_all_snoc.
  - intros e. rewrite (masks_eq_edge g' (disable_all ds g)) by by constructor.
    rewrite disable_all_edge. by destruct (edges g !! e).
  - intros e He. destruct (Hcut e He) as (r & Hr' & Ha & Hd & Hreach).
    exists (e_source r), (e_target r). split.
    + apply (on_edge_masks_eq _ _ Hc e e eq_refl _ _ eq_refl _ _ eq_refl). by exists r.
    + eapply rtc_subrel; [|exact Hreach]. intros u v. by rewrite Hc.
Qed.

(** The errors of a run: a live latch, or else a clock whose node is not live. *)
Theorem run_errors g :
  (~ no_latch g -> run g = Throw "TClockPropagator::run: latch analysis is unsupported") /\
  (no_latch g -> ~ seeds_valid g -> run g = Throw "TClockPropagator::run: clock seed node was removed").
Proof.
  destruct (clear_masks_spec g) as [Hc _].
  assert (no_latch (clear_masks g) <-> no_latch g) as Hl
    by (unfold no_latch; by rewrite (nodes_masks_eq _ _ Hc)).
  assert (seeds_valid (clear_masks g) <-> seeds_valid g) as Hs.
  { unfold seeds_valid. rewrite (clocks_masks_eq _ _ Hc).
    split; intros H c clk Hclk; [rewrite <- Hc|rewrite Hc]; by apply (H c). }
  unfold run. rewrite <- Hl, <- Hs, <- no_latch_spec, <- seeds_valid_spec.
  destruct (existsb _ _); cbn; [by split|]. split; [done|]. intros _.
  destruct (forallb _ _); [done|]. done.
Qed.

(** * A launch flop, a gate with a feedback loop, a capture flop *)

(** Nodes: the clock, the launch flop's Q, the gate, the capture flop's D, the
    feedback buffer. *)
Definition flop_to_flop : TGraph :=
  let g := Nat.iter 5 (fun g => (createNode g None).2) graph_default in
  let g := set_nodes (alter (setCellKind FlipFlop) 1) g in
  let g := set_nodes (alter (setPinRole DataOutput) 1) g in
  let g := foldl (fun g p => (createEdge g p.1 p.2 None).2) g [(0, 1); (1, 2); (2, 3); (2, 4); (4, 2)] in
  let g := (createCaptureEdge g 0 3).2 in
  match createClock g "clk" 10 0 with Ret (_, g') => g' | _ => g end.

Lemma flop_to_flop_wf : graph_wf flop_to_flop.
Proof.
  unfold flop_to_flop. set (g := (createCaptureEdge _ _ _).2).
  assert (graph_wf g) as Hwf.
  { apply createCaptureEdge_wf. cbn [foldl fst snd Nat.iter nat_rect].
    repeat apply createEdge_wf. eapply graph_step_wf; [|apply step_setPinRole].
    eapply graph_step_wf; [|apply step_setCellKind]. repeat apply createNode_wf. apply graph_default_wf. }
  cbv zeta. destruct (createClock g "clk" 10 0) as [[c g']| |] eqn:E; [|done|done].
  by eapply createClock_wf.
Qed.

(** The loop is cut at the edge back to the gate; every edge but the one into
    the launch flop is captured by the clock. *)
Lemma flop_to_flop_run :
  (fun g => (fun r => (disabled r, fromClocks r, toClocks r)) <$> edges g) <$> run flop_to_flop =
  Ret [(false, [true], [false]); (false, [true], [true]); (false, [true], [true]);
       (false, [true], [false]); (true, [false], [false])].
Proof. vm_compute. reflexivity. Qed.

Lemma run_clock_sets_witness :
  exists g', run flop_to_flop = Ret g' /\
    forall e r, edges g' !! e = Some r -> e_alive r = true -> forall c,
      (hasFromClock r c = true <-> disabled r = false /\ reach g' c (e_source r)) /\
      (hasToClock r c = true <->
         disabled r = false /\ flop_data g' (e_target r) = false /\ demand g' c (e_target r)).
Proof.
  apply run_clock_sets; [exact flop_to_flop_wf|apply no_latch_spec|apply seeds_valid_spec];
    vm_compute; reflexivity.
Defined.

Lemma run_frame_witness :
  exists (ds : list EdgeId) g', run flop_to_flop = Ret g' /\ graph_wf g' /\
    (forall n, ~ tc (enabled g') n n) /\
    nodes g' = nodes flop_to_flop /\ clocks g' = clocks flop_to_flop /\
    captureEdges g' = captureEdges flop_to_flop /\
    (forall e, no_masks <$> edges g' !! e =
       (fun r => no_masks (if decide (e ∈ ds) then setDisabled true r else r)) <$> edges flop_to_flop !! e) /\
    forall e, e ∈ ds -> exists u v, on_edge flop_to_flop e u v /\ rtc (enabled flop_to_flop) v u.
Proof.
  apply run_frame; [exact flop_to_flop_wf|apply no_latch_spec|apply seeds_valid_spec];
    vm_compute; reflexivity.
Defined.

Lemma run_errors_witness :
  run (set_nodes (alter (setCellKind Latch) 2) flop_to_flop) =
    Throw "TClockPropagator::run: latch analysis is unsupported" /\
  run (removeNode flop_to_flop 0).2 = Throw "TClockPropagator::run: clock seed node was removed".
Proof.
  split.
  - apply run_errors. rewrite <- no_latch_spec. vm_compute. done.
  - apply run_errors; [apply no_latch_spec|rewrite <- seeds_valid_spec]; vm_compute; done.
Defined.

(** A node created after the clock's node is removed takes its slot, and the run
    then seeds the clock there without an error. *)
Lemma reused_seed_runs :
  let g := (createNode (removeNode flop_to_flop 0).2 None).2 in
  exists g', run g = Ret g' /\ nodes g' !! 0 = Some (node_create 0 None).
Proof. eexists. split; [vm_compute; reflexivity|vm_compute; reflexivity]. Qed.
