(* ===== verification/Collection.v ===== *)
(** The lazy collections of src/src/core/NajaCollection.h: containers, casts,
    filters, flattening, transformation, tree leaves, and the [NajaCollection]
    handle. A pointer is an [option] of what it designates. A loop takes fuel,
    [Undef] when it runs out. Deletion is not modelled. *)
From S2P Require Import Prelude.
Local Open Scope nat_scope.

(** * Interfaces *)

(** [NajaBaseCollection<A>] on collections [C] with iterators [I], with the
    virtual functions of [NajaBaseIterator<A>]. *)
Class NajaBaseCollection (A C I : Type) := {
  clone : C -> outcome C;
  begin : nat -> C -> outcome I;
  end_ : C -> I;
  size_ : nat -> C -> outcome nat;
  empty_ : nat -> C -> outcome bool;
  getElement : I -> outcome A;
  progress : nat -> I -> outcome I;
  isEqual : I -> I -> bool;
  isValid : I -> bool;
  cloneIt : I -> outcome I }.
#[export] Hint Mode NajaBaseCollection - ! - : typeclass_instances.
#[export] Hint Mode NajaBaseCollection - - ! : typeclass_instances.

(** * One object *)

Record singleton (X : Type) := Singleton { object_ : option X }.
Arguments Singleton {_} _.
Arguments object_ {_} _.
Record singleton_it (X : Type) := SingletonIt { si_object : option X; si_begin : bool }.
Arguments SingletonIt {_} _ _.
Arguments si_object {_} _.
Arguments si_begin {_} _.

Definition singleton_iterator {X} (object : option X) (beginOrEnd : bool) : singleton_it X :=
  match object with
  | Some _ => SingletonIt object beginOrEnd
  | None => SingletonIt None false
  end.

#[export] Instance NajaSingletonCollection {X} `{EqDecision X} :
    NajaBaseCollection (option X) (singleton X) (singleton_it X) := {|
  clone c := Ret (Singleton (object_ c));
  begin _ c := Ret (singleton_iterator (object_ c) true);
  end_ c := singleton_iterator (object_ c) false;
  size_ _ c := Ret (match object_ c with Some _ => 1 | None => 0 end);
  empty_ _ c := Ret (bool_decide (object_ c = None));
  getElement it := Ret (si_object it);
  progress _ it := Ret (SingletonIt (si_object it) false);
  isEqual it r := bool_decide (si_object it = si_object r /\ si_begin it = si_begin r);
  isValid it := bool_decide (is_Some (si_object it)) && si_begin it;
  cloneIt it := Ret it |}.

(** * Containers *)

(** A pointer to a container, as the list of its values in iteration order, and
    a position in it; equality is that of positions, as the standard iterators
    of one container. *)
Record container_it (V : Type) := ContainerIt { container_ : option (list V); it_pos : nat }.
Arguments ContainerIt {_} _ _.
Arguments container_ {_} _.
Arguments it_pos {_} _.

Definition container_iterator {V} (c : option (list V)) (beginOrEnd : bool) : container_it V :=
  match c with
  | Some l => ContainerIt c (if beginOrEnd then 0 else length l)
  | None => ContainerIt None 0
  end.
Definition container_deref {V} (it : container_it V) : outcome V :=
  match container_ it with Some l => vec_at l (it_pos it) | None => Undef end.
Definition container_progress {V} (it : container_it V) : outcome (container_it V) :=
  match container_ it with
  | Some l => if it_pos it <? length l then Ret (ContainerIt (Some l) (S (it_pos it))) else Undef
  | None => Undef
  end.
Definition container_equal {V} (it r : container_it V) : bool := it_pos it =? it_pos r.
Definition container_valid {V} (it : container_it V) : bool :=
  match container_ it with Some l => negb (it_pos it =? length l) | None => false end.
Definition container_size {V} (c : option (list V)) : outcome nat :=
  match c with Some l => Ret (length l) | None => Undef end.
Definition container_empty {V} (c : option (list V)) : outcome bool :=
  match c with Some l => Ret (match l with [] => true | _ => false end) | None => Undef end.

Record intrusive_set (X : Type) := IntrusiveSet { set_ : option (list X) }.
Arguments IntrusiveSet {_} _.
Arguments set_ {_} _.
Record intrusive_it (X : Type) := IntrusiveIt { ii_it : container_it X }.
Arguments IntrusiveIt {_} _.
Arguments ii_it {_} _.

(** An element is a pointer to an object of the set. *)
#[export] Instance NajaIntrusiveSetCollection {X} :
    NajaBaseCollection (option X) (intrusive_set X) (intrusive_it X) := {|
  clone c := Ret (IntrusiveSet (set_ c));
  begin _ c := Ret (IntrusiveIt (container_iterator (set_ c) true));
  end_ c := IntrusiveIt (container_iterator (set_ c) false);
  size_ _ c := container_size (set_ c);
  empty_ _ c := container_empty (set_ c);
  getElement it := Some <$> container_deref (ii_it it);
  progress _ it := IntrusiveIt <$> container_progress (ii_it it);
  isEqual it r := container_equal (ii_it it) (ii_it r);
  isValid it := container_valid (ii_it it);
  cloneIt it := Ret it |}.

Record stl (V : Type) := Stl { stl_container : option (list V) }.
Arguments Stl {_} _.
Arguments stl_container {_} _.

#[export] Instance NajaSTLCollection {V} : NajaBaseCollection V (stl V) (container_it V) := {|
  clone c := Ret (Stl (stl_container c));
  begin _ c := Ret (container_iterator (stl_container c) true);
  end_ c := container_iterator (stl_container c) false;
  size_ _ c := container_size (stl_container c);
  empty_ _ c := container_empty (stl_container c);
  getElement it := container_deref it;
  progress _ it := container_progress it;
  isEqual it r := container_equal it r;
  isValid it := container_valid it;
  cloneIt it := Ret it |}.

Record stl_map (K V : Type) := StlMap { map_container : option (list (K * V)) }.
Arguments StlMap {_ _} _.
Arguments map_container {_ _} _.
Record stl_map_it (K V : Type) := StlMapIt { mi_it : container_it (K * V) }.
Arguments StlMapIt {_ _} _.
Arguments mi_it {_ _} _.

#[export] Instance NajaSTLMapCollection {K V} :
    NajaBaseCollection V (stl_map K V) (stl_map_it K V) := {|
  clone c := Ret (StlMap (map_container c));
  begin _ c := Ret (StlMapIt (container_iterator (map_container c) true));
  end_ c := StlMapIt (container_iterator (map_container c) false);
  size_ _ c := container_size (map_container c);
  empty_ _ c := container_empty (map_container c);
  getElement it := snd <$> container_deref (mi_it it);
  progress _ it := StlMapIt <$> container_progress (mi_it it);
  isEqual it r := container_equal (mi_it it) (mi_it r);
  isValid it := container_valid (mi_it it);
  cloneIt it := Ret it |}.

(** * Adaptors *)

(** The iterator [it_] of an adaptor: null, the object [endIt_] points to, or
    an iterator of its own. *)
Inductive cursor (I : Type) := NullIt | EndIt | OwnIt (it : I).
Arguments NullIt {_}.
Arguments EndIt {_}.
Arguments OwnIt {_} _.

Record wrapped (I : Type) := Wrapped { it_ : cursor I; endIt_ : option I }.
Arguments Wrapped {_} _ _.
Arguments it_ {_} _.
Arguments endIt_ {_} _.

Section adaptors.
Context {A C I : Type} `{!NajaBaseCollection A C I}.
Implicit Types (w : wrapped I) (n : nat).

Definition cursor_get w : option I :=
  match it_ w with NullIt => None | EndIt => endIt_ w | OwnIt i => Some i end.
Definition cursor_set w (i : I) : wrapped I :=
  match it_ w with EndIt => Wrapped EndIt (Some i) | _ => Wrapped (OwnIt i) (endIt_ w) end.

Definition wrap_null : wrapped I := Wrapped NullIt None.
Definition wrap_end (c : option C) : wrapped I :=
  match c with Some c => Wrapped EndIt (Some (end_ c)) | None => wrap_null end.
Definition wrap_begin n (c : option C) : outcome (wrapped I) :=
  match c with
  | Some c => i ← begin n c; Ret (Wrapped (OwnIt i) (Some (end_ c)))
  | None => Ret wrap_null
  end.
(** The copy constructors. *)
Definition wrap_clone w : outcome (wrapped I) :=
  match endIt_ w with
  | None => Undef
  | Some e =>
      match it_ w with
      | EndIt => e' ← cloneIt e; Ret (Wrapped EndIt (Some e'))
      | OwnIt i => e' ← cloneIt e; i' ← cloneIt i; Ret (Wrapped (OwnIt i') (Some e'))
      | NullIt => Undef
      end
  end.
(** [collection_->clone()] *)
Definition clone_inner (c : option C) : outcome (option C) :=
  match c with Some c => Some <$> clone c | None => Undef end.
Definition wrap_element w : outcome A :=
  match cursor_get w with Some i => getElement i | None => Undef end.
Definition wrap_progress n w : outcome (wrapped I) :=
  match cursor_get w with Some i => cursor_set w <$> progress n i | None => Undef end.
Definition wrap_equal w r : bool :=
  match cursor_get w, cursor_get r with Some i, Some j => isEqual i j | _, _ => false end.
Definition wrap_valid w : bool :=
  match cursor_get w, endIt_ w with Some i, Some e => negb (isEqual i e) | _, _ => false end.

(** [while (isValid() and not keep(it_->getElement())) it_->progress();] *)
Fixpoint skip_loop (keep : A -> bool) (fuel n : nat) w : outcome (wrapped I) :=
  if wrap_valid w then
    e ← wrap_element w;
    if keep e then Ret w
    else match fuel with
         | O => Undef
         | S fuel => w ← wrap_progress n w; skip_loop keep fuel n w
         end
  else Ret w.
Definition skip_begin (keep : A -> bool) n (c : option C) : outcome (wrapped I) :=
  w ← wrap_begin n c; skip_loop keep n n w.
Definition skip_progress (keep : A -> bool) n w : outcome (wrapped I) :=
  if wrap_valid w then w ← wrap_progress n w; skip_loop keep n n w else Ret w.
End adaptors.

(** The loop of [size]: from [it], how far [endIt] is. *)
Fixpoint count_loop {J} (equal : J -> J -> bool) (next : J -> outcome J) (fuel : nat) (it endIt : J)
    (size : nat) : outcome nat :=
  if equal it endIt then Ret size
  else match fuel with
       | O => Undef
       | S fuel => it ← next it; count_loop equal next fuel it endIt (S size)
       end.

(** ** Upcasts *)

Record parent_type {A C : Type} (B : Type) (upcast : A -> B) := ParentType { parent_of : option C }.
Arguments ParentType {_ _ _} _ _.
Arguments parent_of {_ _ _ _} _.
Record parent_it {A I : Type} (B : Type) (upcast : A -> B) := ParentIt { pi_it : wrapped I }.
Arguments ParentIt {_ _ _} _ _.
Arguments pi_it {_ _ _ _} _.

#[export] Instance NajaParentTypeCollection {A C I B} {upcast : A -> B} `{!NajaBaseCollection A C I} :
    NajaBaseCollection B (@parent_type A C B upcast) (@parent_it A I B upcast) := {|
  clone c := ParentType upcast <$> clone_inner (parent_of c);
  begin n c := ParentIt upcast <$> wrap_begin n (parent_of c);
  end_ c := ParentIt upcast (wrap_end (parent_of c));
  size_ n c := match parent_of c with Some c => size_ n c | None => Ret 0 end;
  empty_ n c := match parent_of c with Some c => empty_ n c | None => Ret true end;
  getElement it := upcast <$> wrap_element (pi_it it);
  progress n it :=
    if wrap_valid (pi_it it) then ParentIt upcast <$> wrap_progress n (pi_it it) else Ret it;
  isEqual it r := wrap_equal (pi_it it) (pi_it r);
  isValid it := wrap_valid (pi_it it);
  cloneIt it := ParentIt upcast <$> wrap_clone (pi_it it) |}.

(** ** Downcasts *)

(** [cast] is the [dynamic_cast]; the [static_cast] of [getElement] agrees with
    it where it succeeds. *)
Record sub_type {A C : Type} (B : Type) (cast : A -> option B) := SubType { sub_of : option C }.
Arguments SubType {_ _ _} _ _.
Arguments sub_of {_ _ _ _} _.
Record sub_it {A I : Type} (B : Type) (cast : A -> option B) := SubIt { sub_wrapped : wrapped I }.
Arguments SubIt {_ _ _} _ _.
Arguments sub_wrapped {_ _ _ _} _.

Definition cast_ok {A B} (cast : A -> option B) (e : A) : bool := bool_decide (is_Some (cast e)).

#[export] Instance NajaSubTypeCollection {A C I B} {cast : A -> option B} `{!NajaBaseCollection A C I} :
    NajaBaseCollection B (@sub_type A C B cast) (@sub_it A I B cast) := {|
  clone c := SubType cast <$> clone_inner (sub_of c);
  begin n c := SubIt cast <$> skip_begin (cast_ok cast) n (sub_of c);
  end_ c := SubIt cast (wrap_end (sub_of c));
  size_ n c :=
    match sub_of c with
    | Some _ =>
        it ← skip_begin (cast_ok cast) n (sub_of c);
        count_loop wrap_equal (skip_progress (cast_ok cast) n) n it (wrap_end (sub_of c)) 0
    | None => Ret 0
    end;
  empty_ n c := it ← skip_begin (cast_ok cast) n (sub_of c); Ret (negb (wrap_valid it));
  getElement it :=
    e ← wrap_element (sub_wrapped it); match cast e with Some b => Ret b | None => Undef end;
  progress n it := SubIt cast <$> skip_progress (cast_ok cast) n (sub_wrapped it);
  isEqual it r := wrap_equal (sub_wrapped it) (sub_wrapped r);
  isValid it := wrap_valid (sub_wrapped it);
  cloneIt it := SubIt cast <$> wrap_clone (sub_wrapped it) |}.

(** ** Filters *)

Record filtered {A C : Type} := Filtered { filtered_of : option C; filter_ : A -> bool }.
Arguments filtered : clear implicits.
Arguments Filtered {_ _} _ _.
Record filtered_it {A I : Type} := FilteredIt { fi_it : wrapped I; fi_filter : A -> bool }.
Arguments filtered_it : clear implicits.
Arguments FilteredIt {_ _} _ _.

#[export] Instance NajaFilteredCollection {A C I} `{!NajaBaseCollection A C I} :
    NajaBaseCollection A (filtered A C) (filtered_it A I) := {|
  clone c := (fun inner => Filtered inner (filter_ c)) <$> clone_inner (filtered_of c);
  begin n c := (fun w => FilteredIt w (filter_ c)) <$> skip_begin (filter_ c) n (filtered_of c);
  end_ c := FilteredIt (wrap_end (filtered_of c)) (filter_ c);
  size_ n c :=
    match filtered_of c with
    | Some _ =>
        it ← skip_begin (filter_ c) n (filtered_of c);
        count_loop wrap_equal (skip_progress (filter_ c) n) n it (wrap_end (filtered_of c)) 0
    | None => Ret 0
    end;
  empty_ n c := it ← skip_begin (filter_ c) n (filtered_of c); Ret (negb (wrap_valid it));
  getElement it := wrap_element (fi_it it);
  progress n it := (fun w => FilteredIt w (fi_filter it)) <$> skip_progress (fi_filter it) n (fi_it it);
  isEqual it r := wrap_equal (fi_it it) (fi_it r);
  isValid it := wrap_valid (fi_it it);
  cloneIt it := (fun w => FilteredIt w (fi_filter it)) <$> wrap_clone (fi_it it) |}.

(** ** Flattening *)

(** An element of the collection is returned itself when [cast] finds a [R] in
    it; otherwise the collection [flattener] gives for it is iterated ([None]
    for the handle of no collection) and its elements are widened to [R]. *)
Record flat {A C R F CF : Type} (cast : A -> option R) (widen : F -> R) (flattener : A -> option CF) :=
  Flat { flat_of : option C }.
Arguments Flat {_ _ _ _ _} _ _ _ _.
Arguments flat_of {_ _ _ _ _ _ _ _} _.
Record flat_it {A I R F CF IF : Type} (cast : A -> option R) (widen : F -> R) (flattener : A -> option CF) :=
  FlatIt { fl_it : wrapped I; flattenIt_ : option IF; fl_element : option R }.
Arguments FlatIt {_ _ _ _ _ _} _ _ _ _ _ _.
Arguments fl_it {_ _ _ _ _ _ _ _ _} _.
Arguments flattenIt_ {_ _ _ _ _ _ _ _ _} _.
Arguments fl_element {_ _ _ _ _ _ _ _ _} _.

Section flat.
Context {A C I R F CF IF : Type} `{!NajaBaseCollection A C I, !NajaBaseCollection (option F) CF IF}.
Context {cast : A -> option R} {widen : F -> R} {flattener : A -> option CF}.
Notation flat_state := (@flat_it A I R F CF IF cast widen flattener).

Definition cursor_valid (w : wrapped I) : bool :=
  match cursor_get w with Some i => isValid i | None => false end.

Definition flat_set (w : wrapped I) (f : option IF) (e : option R) : flat_state :=
  FlatIt cast widen flattener w f e.

(** The [while] of [findNextElement]. *)
Fixpoint find_loop (fuel n : nat) (w : wrapped I) : outcome flat_state :=
  if cursor_valid w then
    e ← wrap_element w;
    match cast e with
    | Some r => Ret (flat_set w None (Some r))
    | None =>
        match flattener e with
        | None => Undef
        | Some c =>
            f ← begin n c;
            if isValid f then x ← getElement f; Ret (flat_set w (Some f) (widen <$> x))
            else match fuel with
                 | O => Undef
                 | S fuel => w ← wrap_progress n w; find_loop fuel n w
                 end
        end
    end
  else Ret (flat_set w None None).

Definition findNextElement (advance : bool) (n : nat) (it : flat_state) : outcome flat_state :=
  match flattenIt_ it with
  | Some f =>
      f ← (if advance then progress n f else Ret f);
      if isValid f then x ← getElement f; Ret (flat_set (fl_it it) (Some f) (widen <$> x))
      else w ← (if advance && cursor_valid (fl_it it) then wrap_progress n (fl_it it) else Ret (fl_it it));
           find_loop n n w
  | None =>
      w ← (if advance && cursor_valid (fl_it it) then wrap_progress n (fl_it it) else Ret (fl_it it));
      find_loop n n w
  end.

Definition flat_begin (n : nat) (c : option C) : outcome flat_state :=
  match c with
  | Some _ => w ← wrap_begin n c; findNextElement false n (flat_set w None None)
  | None => Ret (flat_set wrap_null None None)
  end.
Definition flat_end (c : option C) : flat_state := flat_set (wrap_end c) None None.
Definition flat_valid (it : flat_state) : bool := bool_decide (is_Some (fl_element it)).
Definition flat_progress (n : nat) (it : flat_state) : outcome flat_state :=
  if flat_valid it then findNextElement true n it else Ret it.
Definition flat_equal (it r : flat_state) : bool :=
  wrap_equal (fl_it it) (fl_it r) &&
  match flattenIt_ it, flattenIt_ r with
  | Some f, Some g => isEqual f g
  | Some _, None => false
  | None, Some _ => false
  | None, None => true
  end.
Definition flat_clone (it : flat_state) : outcome flat_state :=
  w ← wrap_clone (fl_it it);
  match flattenIt_ it with
  | Some f => f ← cloneIt f; Ret (flat_set w (Some f) (fl_element it))
  | None => Ret (flat_set w None (fl_element it))
  end.

#[export] Instance NajaFlatCollection :
    NajaBaseCollection (option R) (@flat A C R F CF cast widen flattener) flat_state := {|
  clone c := Flat cast widen flattener <$> clone_inner (flat_of c);
  begin n c := flat_begin n (flat_of c);
  end_ c := flat_end (flat_of c);
  size_ n c :=
    match flat_of c with
    | Some _ =>
        it ← flat_begin n (flat_of c); count_loop flat_equal (flat_progress n) n it (flat_end (flat_of c)) 0
    | None => Ret 0
    end;
  empty_ n c := it ← flat_begin n (flat_of c); Ret (negb (flat_valid it));
  getElement it := Ret (fl_element it);
  progress := flat_progress;
  isEqual := flat_equal;
  isValid := flat_valid;
  cloneIt := flat_clone |}.
End flat.

(** ** Transformation *)

Record transformed {A C B : Type} := Transformed { trans_of : option C; transformer_ : A -> option B }.
Arguments transformed : clear implicits.
Arguments Transformed {_ _ _} _ _.
Record transformed_it {A I B : Type} :=
  TransformedIt { tr_it : wrapped I; tr_element : option B; tr_transformer : A -> option B }.
Arguments transformed_it : clear implicits.
Arguments TransformedIt {_ _ _} _ _ _.

Section transformed.
Context {A C I B : Type} `{!NajaBaseCollection A C I}.

(** [if (it_->isValid()) element_ = transformer_(it_->getElement());] *)
Definition transform_current (f : A -> option B) (w : wrapped I) : outcome (transformed_it A I B) :=
  match cursor_get w with
  | None => Undef
  | Some i =>
      if isValid i then e ← getElement i; Ret (TransformedIt w (f e) f)
      else Ret (TransformedIt w None f)
  end.
Definition transformed_begin (n : nat) (f : A -> option B) (c : option C) :
    outcome (transformed_it A I B) :=
  match c with
  | Some _ => w ← wrap_begin n c; transform_current f w
  | None => Ret (TransformedIt wrap_null None f)
  end.
Definition transformed_valid (it : transformed_it A I B) : bool := bool_decide (is_Some (tr_element it)).
Definition transformed_progress (n : nat) (it : transformed_it A I B) : outcome (transformed_it A I B) :=
  if transformed_valid it then
    match cursor_get (tr_it it) with
    | None => Undef
    | Some i =>
        w ← (if isValid i then wrap_progress n (tr_it it) else Ret (tr_it it));
        transform_current (tr_transformer it) w
    end
  else Ret it.
Definition transformed_equal (it r : transformed_it A I B) : bool := wrap_equal (tr_it it) (tr_it r).
Definition transformed_end (f : A -> option B) (c : option C) : transformed_it A I B :=
  TransformedIt (wrap_end c) None f.

#[export] Instance NajaTransformerCollection :
    NajaBaseCollection (option B) (transformed A C B) (transformed_it A I B) := {|
  clone c := (fun inner => Transformed inner (transformer_ c)) <$> clone_inner (trans_of c);
  begin n c := transformed_begin n (transformer_ c) (trans_of c);
  end_ c := transformed_end (transformer_ c) (trans_of c);
  size_ n c :=
    match trans_of c with
    | Some _ =>
        it ← transformed_begin n (transformer_ c) (trans_of c);
        count_loop transformed_equal (transformed_progress n) n it
          (transformed_end (transformer_ c) (trans_of c)) 0
    | None => Ret 0
    end;
  empty_ n c := it ← transformed_begin n (transformer_ c) (trans_of c); Ret (negb (transformed_valid it));
  getElement it := Ret (tr_element it);
  progress := transformed_progress;
  isEqual := transformed_equal;
  isValid := transformed_valid;
  cloneIt it :=
    (fun w => TransformedIt w (tr_element it) (tr_transformer it)) <$> wrap_clone (tr_it it) |}.
End transformed.

(** ** Leaves of a tree *)

Record tree_leaves {X : Type} := TreeLeaves {
  root_ : option X;
  childrenGetter_ : option X -> list (option X);
  leafCriterion_ : option X -> bool }.
Arguments tree_leaves : clear implicits.
(** The stack has its top first; the getter and the criterion of the iterators
    of one collection are the same. *)
Record tree_it {X : Type} := TreeIt { ti_tree : tree_leaves X; stack_ : list (option X); ti_element : option X }.
Arguments tree_it : clear implicits.
Arguments TreeIt {_} _ _ _.

Section tree_leaves.
Context {X : Type} `{EqDecision X}.

Fixpoint find_leaf (fuel : nat) (t : tree_leaves X) (stack : list (option X)) : outcome (tree_it X) :=
  match stack with
  | [] => Ret (TreeIt t [] None)
  | object :: stack =>
      if leafCriterion_ t object then Ret (TreeIt t stack object)
      else match fuel with
           | O => Undef
           | S fuel => find_leaf fuel t (rev (childrenGetter_ t object) ++ stack)
           end
  end.
Definition tree_begin (n : nat) (t : tree_leaves X) : outcome (tree_it X) :=
  match root_ t with Some _ => find_leaf n t [root_ t] | None => Ret (TreeIt t [] None) end.
Definition tree_end (t : tree_leaves X) : tree_it X := TreeIt t [] None.
Definition tree_valid (it : tree_it X) : bool := bool_decide (is_Some (ti_element it)).
Definition tree_progress (n : nat) (it : tree_it X) : outcome (tree_it X) :=
  if tree_valid it then find_leaf n (ti_tree it) (stack_ it) else Ret it.
Definition tree_equal (it r : tree_it X) : bool :=
  bool_decide (root_ (ti_tree it) = root_ (ti_tree r) /\ ti_element it = ti_element r /\
               stack_ it = stack_ r).

#[export] Instance NajaTreeLeavesCollection : NajaBaseCollection (option X) (tree_leaves X) (tree_it X) := {|
  clone t := Ret (TreeLeaves X (root_ t) (childrenGetter_ t) (leafCriterion_ t));
  begin := tree_begin;
  end_ := tree_end;
  size_ n t :=
    match root_ t with
    | Some _ => it ← tree_begin n t; count_loop tree_equal (tree_progress n) n it (tree_end t) 0
    | None => Ret 0
    end;
  empty_ n t :=
    match root_ t with
    | Some _ => it ← tree_begin n t; Ret (negb (tree_valid it))
    | None => Ret true
    end;
  getElement it := Ret (ti_element it);
  progress := tree_progress;
  isEqual := tree_equal;
  isValid := tree_valid;
  cloneIt it := Ret it |}.
End tree_leaves.

(** * [NajaCollection] *)

(** The handle [NajaCollection<A>]: a pointer to a collection; [Iterator], a
    pointer to an iterator. *)
Section handle.
Context {A C I : Type} `{!NajaBaseCollection A C I}.
Implicit Types (c : option C) (it : option I).

Definition handle_begin (n : nat) c : outcome (option I) :=
  match c with Some c => Some <$> begin n c | None => Ret None end.
Definition handle_end c : option I := end_ <$> c.
Definition handle_size (n : nat) c : outcome nat :=
  match c with Some c => size_ n c | None => Ret 0 end.
Definition handle_empty (n : nat) c : outcome bool :=
  match c with Some c => empty_ n c | None => Ret true end.

Definition it_next (n : nat) it : outcome (option I) :=
  match it with Some i => Some <$> progress n i | None => Ret None end.
(** [operator*]: [Type()] for no iterator. *)
Definition it_deref `{!Inhabited A} it : outcome A :=
  match it with Some i => getElement i | None => Ret inhabitant end.
Definition it_equal it r : bool :=
  match it, r with
  | Some i, Some j => isEqual i j
  | None, None => true
  | _, _ => false
  end.

(** [for (auto x : c)], as the list of the values of [x]. *)
Fixpoint range_loop `{!Inhabited A} (fuel n : nat) it (endIt : option I) : outcome (list A) :=
  if it_equal it endIt then Ret []
  else match fuel with
       | O => Undef
       | S fuel => x ← it_deref it; it ← it_next n it; l ← range_loop fuel n it endIt; Ret (x :: l)
       end.
Definition range `{!Inhabited A} (n : nat) c : outcome (list A) :=
  it ← handle_begin n c; range_loop n n it (handle_end c).

Definition getParentTypeCollection {B} (upcast : A -> B) c : outcome (option (@parent_type A C B upcast)) :=
  match c with Some d => (fun d => Some (ParentType upcast (Some d))) <$> clone d | None => Ret None end.
Definition getSubTypeCollection {B} (cast : A -> option B) c : outcome (option (@sub_type A C B cast)) :=
  match c with Some d => (fun d => Some (SubType cast (Some d))) <$> clone d | None => Ret None end.
Definition getSubCollection (filter : A -> bool) c : outcome (option (filtered A C)) :=
  match c with Some d => (fun d => Some (Filtered (Some d) filter)) <$> clone d | None => Ret None end.
Definition getFlatCollection {R F CF} (cast : A -> option R) (widen : F -> R) (flattener : A -> option CF) c
    : outcome (option (@flat A C R F CF cast widen flattener)) :=
  match c with
  | Some d => (fun d => Some (Flat cast widen flattener (Some d))) <$> clone d
  | None => Ret None
  end.
Definition getTransformerCollection {B} (transformer : A -> option B) c : outcome (option (transformed A C B)) :=
  match c with Some d => (fun d => Some (Transformed (Some d) transformer)) <$> clone d | None => Ret None end.
End handle.

(** [operator==]: the elements, in order. *)
Section handle_equal.
Context {A C I C' I' : Type} `{!NajaBaseCollection A C I, !NajaBaseCollection A C' I'}.
Context `{!Inhabited A, !EqDecision A}.

Fixpoint equal_loop (fuel n : nat) (it : option I) (endIt : option I) (rit : option I') : outcome bool :=
  if it_equal it endIt then Ret true
  else match fuel with
       | O => Undef
       | S fuel =>
           x ← it_deref it; y ← it_deref rit;
           if decide (x = y) then
             it ← it_next n it; rit ← it_next n rit; equal_loop fuel n it endIt rit
           else Ret false
       end.
Definition handle_equal (n : nat) (c : option C) (r : option C') : outcome bool :=
  s ← handle_size n c; s' ← handle_size n r;
  if s =? s' then
    it ← handle_begin n c; rit ← handle_begin n r; equal_loop n n it (handle_end c) rit
  else Ret false.
End handle_equal.
