(* ===== verification/CollectionLaws.v ===== *)
(** The contract of the lazy collections: each stands for a list, that its
    iterators walk and its size counts. Containers meet it; every adaptor
    meets it when the collection under it does. *)
From S2P Require Import Prelude Collection.
Local Open Scope nat_scope.

(** * The contract *)

(** [denotes n c l]: [c] holds [l], and [n] is fuel enough for its operations.
    [at_ n c it l]: the iterator [it] of [c] has [l] before it. *)
Class CollectionLaws (A C I : Type) `{!NajaBaseCollection A C I} := {
  denotes : nat -> C -> list A -> Prop;
  at_ : nat -> C -> I -> list A -> Prop;
  denotes_length n c l : denotes n c l -> length l <= n;
  denotes_clone n c l : denotes n c l -> exists c', clone c = Ret c' /\ denotes n c' l;
  begin_at n c l : denotes n c l -> exists it, begin n c = Ret it /\ at_ n c it l;
  end_at n c l : denotes n c l -> at_ n c (end_ c) [];
  at_cons n c it x l : at_ n c it (x :: l) ->
    isValid it = true /\ getElement it = Ret x /\ (forall e, at_ n c e [] -> isEqual it e = false) /\
    exists it', progress n it = Ret it' /\ at_ n c it' l;
  at_nil n c it : at_ n c it [] -> isValid it = false /\ forall e, at_ n c e [] -> isEqual it e = true;
  at_clone n c it l : at_ n c it l -> exists it', cloneIt it = Ret it' /\ at_ n c it' l;
  size_spec n c l : denotes n c l -> size_ n c = Ret (length l);
  empty_spec n c l : denotes n c l -> empty_ n c = Ret (bool_decide (l = [])) }.

(** [size], where it counts steps to the end. *)
Lemma count_loop_spec {A J} (equal : J -> J -> bool) (next : J -> outcome J) (endIt : J)
    (before : J -> list A -> Prop) :
  (forall it x l, before it (x :: l) ->
     equal it endIt = false /\ exists it', next it = Ret it' /\ before it' l) ->
  (forall it, before it [] -> equal it endIt = true) ->
  forall l it fuel k, before it l -> length l <= fuel ->
    count_loop equal next fuel it endIt k = Ret (k + length l).
Proof.
  intros Hcons Hnil. induction l as [|x l IH]; intros it fuel k Hit Hlen.
  - apply Hnil in Hit. destruct fuel; cbn; rewrite Hit; f_equal; lia.
  - apply Hcons in Hit as (He & it' & Hn & Hit). destruct fuel as [|fuel]; cbn in *; [lia|].
    rewrite He, Hn. cbn. rewrite IH by (done || lia). f_equal. lia.
Qed.

(** * Containers *)

Definition container_before {V} (l : list V) (it : container_it V) (r : list V) : Prop :=
  container_ it = Some l /\ it_pos it <= length l /\ r = drop (it_pos it) l.

Lemma container_begin_before {V} (l : list V) : container_before l (container_iterator (Some l) true) l.
Proof. split_and!; cbn; [done|lia|done]. Qed.
Lemma container_end_before {V} (l : list V) : container_before l (container_iterator (Some l) false) [].
Proof. split_and!; cbn; [done|lia|]. by rewrite drop_all. Qed.
Lemma container_before_end {V} (l : list V) it : container_before l it [] -> it_pos it = length l.
Proof. intros (_ & Hp & Hr). apply (f_equal length) in Hr. rewrite length_drop in Hr. cbn in Hr. lia. Qed.
Lemma container_before_cons {V} (l : list V) it x r :
  container_before l it (x :: r) ->
  container_valid it = true /\ container_deref it = Ret x /\
  (forall e, container_before l e [] -> container_equal it e = false) /\
  exists it', container_progress it = Ret it' /\ container_before l it' r.
Proof.
  destruct it as [c p]. intros (Hc & Hp & Hr). cbn in *. subst c.
  assert (l !! p = Some x) as Hx by (rewrite <- (Nat.add_0_r p), <- lookup_drop, <- Hr; done).
  assert (p < length l) as Hlt by (by eapply lookup_lt_Some).
  unfold container_valid, container_deref, container_equal, container_progress, vec_at.
  cbn [container_ it_pos]. rewrite Hx, (proj2 (Nat.eqb_neq _ _)), (proj2 (Nat.ltb_lt _ _)) by lia.
  split_and!; try done.
  - intros e ->%container_before_end. apply Nat.eqb_neq. lia.
  - eexists. split; [done|]. split_and!; cbn; [done|lia|]. rewrite (drop_S _ _ _ Hx) in Hr. congruence.
Qed.
Lemma container_before_nil {V} (l : list V) it :
  container_before l it [] ->
  container_valid it = false /\ forall e, container_before l e [] -> container_equal it e = true.
Proof.
  intros H. unfold container_valid, container_equal. rewrite (container_before_end _ _ H).
  destruct H as [-> _]. rewrite Nat.eqb_refl. split; [done|].
  intros e ->%container_before_end. apply Nat.eqb_refl.
Qed.

(** The laws of a container, seen through [view]. *)
#[export] Instance stl_laws {V} : CollectionLaws V (stl V) (container_it V).
Proof.
  refine {| denotes n c l := stl_container c = Some l /\ length l <= n;
            at_ n c it r := exists l, stl_container c = Some l /\ container_before l it r |}; cbn.
  - by intros n c l [_ ?].
  - intros n [c] l [-> ?]. eauto.
  - intros n [c] l [-> ?]. eexists. split; [done|]. exists l. split; [done|apply container_begin_before].
  - intros n [c] l [-> ?]. exists l. split; [done|apply container_end_before].
  - intros n [c] it x r (l & Hc & H). cbn in Hc. subst c.
    apply container_before_cons in H as (? & ? & He & it' & ? & ?).
    split_and!; [done..| |exists it'; split; [done|by exists l]].
    intros e (l' & Hl & ?). simplify_eq/=. by apply He.
  - intros n [c] it (l & Hc & H). cbn in Hc. subst c. apply container_before_nil in H as [? He].
    split; [done|]. intros e (l' & Hl & ?). simplify_eq/=. by apply He.
  - eauto.
  - by intros n c l [-> _].
  - intros n c l [-> _]. by destruct l.
Defined.

#[export] Instance intrusive_laws {X} : CollectionLaws (option X) (intrusive_set X) (intrusive_it X).
Proof.
  refine {| denotes n c l := exists s, set_ c = Some s /\ l = Some <$> s /\ length s <= n;
            at_ n c it r := exists s q, set_ c = Some s /\ container_before s (ii_it it) q /\ r = Some <$> q |}; cbn.
  - intros n c l (s & _ & -> & ?). by rewrite length_fmap.
  - intros n [c] l (s & -> & -> & ?). eauto 10.
  - intros n [c] l (s & -> & -> & ?). eexists. split; [done|].
    exists s, s. split_and!; [done|apply container_begin_before|done].
  - intros n [c] l (s & -> & -> & ?). exists s, []. split_and!; [done|apply container_end_before|done].
  - intros n [c] it x r (s & q & Hc & H & Hr). cbn in Hc. subst c. destruct q as [|v q]; [done|].
    injection Hr as -> ->. apply container_before_cons in H as (? & -> & He & it' & -> & ?).
    split_and!; [done..| |eexists; split; [done|]; by exists s, q].
    intros e (s' & [|] & Hs & ? & Hq); simplify_eq/=. by apply He.
  - intros n [c] it (s & q & Hc & H & Hr). cbn in Hc. subst c. destruct q; [|done].
    apply container_before_nil in H as [? He].
    split; [done|]. intros e (s' & [|] & Hs & ? & Hq); simplify_eq/=. by apply He.
  - eauto.
  - intros n c l (s & -> & -> & _). cbn. by rewrite length_fmap.
  - intros n c l (s & -> & -> & _). by destruct s.
Defined.

#[export] Instance stl_map_laws {K V} : CollectionLaws V (stl_map K V) (stl_map_it K V).
Proof.
  refine {| denotes n c l := exists s, map_container c = Some s /\ l = s.*2 /\ length s <= n;
            at_ n c it r := exists s q, map_container c = Some s /\ container_before s (mi_it it) q /\ r = q.*2 |}; cbn.
  - intros n c l (s & _ & -> & ?). by rewrite length_fmap.
  - intros n [c] l (s & -> & -> & ?). eauto 10.
  - intros n [c] l (s & -> & -> & ?). eexists. split; [done|].
    exists s, s. split_and!; [done|apply container_begin_before|done].
  - intros n [c] l (s & -> & -> & ?). exists s, []. split_and!; [done|apply container_end_before|done].
  - intros n [c] it x r (s & q & Hc & H & Hr). cbn in Hc. subst c. destruct q as [|v q]; [done|].
    injection Hr as -> ->. apply container_before_cons in H as (? & -> & He & it' & -> & ?).
    split_and!; [done..| |eexists; split; [done|]; by exists s, q].
    intros e (s' & [|] & Hs & ? & Hq); simplify_eq/=. by apply He.
  - intros n [c] it (s & q & Hc & H & Hr). cbn in Hc. subst c. destruct q; [|done].
    apply container_before_nil in H as [? He].
    split; [done|]. intros e (s' & [|] & Hs & ? & Hq); simplify_eq/=. by apply He.
  - eauto.
  - intros n c l (s & -> & -> & _). cbn. by rewrite length_fmap.
  - intros n c l (s & -> & -> & _). by destruct s.
Defined.

#[export] Instance singleton_laws {X} `{EqDecision X} :
  CollectionLaws (option X) (singleton X) (singleton_it X).
Proof.
  refine {| denotes n c l := l = match object_ c with Some x => [Some x] | None => [] end /\ length l <= n;
            at_ n c it r :=
              si_object it = object_ c /\
              r = match object_ c with Some x => if si_begin it then [Some x] else [] | None => [] end /\
              (object_ c = None -> si_begin it = false) |}; cbn.
  - by intros n c l [_ ?].
  - intros n [c] l [-> ?]. eauto.
  - intros n [[x|]] l [-> ?]; eexists; (split; [done|]); done.
  - intros n [[x|]] l [-> ?]; done.
  - intros n [[x|]] [o b] v r (Ho & Hr & Hn); cbn in *; [|done]. subst o. destruct b; [|done].
    injection Hr as -> ->. split_and!; try done; [|by eexists].
    intros [o' [|]] (Ho' & Hr' & _); cbn in *; [done|]. apply bool_decide_false. naive_solver.
  - intros n [[x|]] [o b] (Ho & Hr & Hn); cbn in *; subst o.
    + destruct b; [done|]. split; [done|]. intros [o' [|]] (Ho' & Hr' & _); cbn in *; [done|].
      by apply bool_decide_true.
    + split; [done|]. rewrite (Hn eq_refl). intros [o' b'] (Ho' & _ & Hn'); cbn in *.
      rewrite (Hn' eq_refl). by apply bool_decide_true.
  - eauto.
  - intros n [[x|]] l [-> _]; done.
  - intros n [[x|]] l [-> _]; done.
Defined.

(** * Adaptors: the inner iterator *)

Section wrapped_laws.
Context {A C I : Type} `{CollectionLaws A C I}.
Implicit Types (w : wrapped I) (l : list A) (d : C) (n : nat).

Definition wrapped_at n d w l : Prop :=
  exists e, endIt_ w = Some e /\ at_ n d e [] /\
    match it_ w with NullIt => False | EndIt => l = [] | OwnIt i => at_ n d i l end.

Lemma wrapped_cursor n d w l :
  wrapped_at n d w l -> exists i e, cursor_get w = Some i /\ endIt_ w = Some e /\
    at_ n d i l /\ at_ n d e [].
Proof.
  intros (e & He & Hat & Hit). unfold cursor_get. destruct (it_ w) as [| |i]; [done| |].
  - subst l. exists e, e. done.
  - exists i, e. done.
Qed.

Lemma wrap_begin_at n d l :
  denotes n d l -> exists w, wrap_begin n (Some d) = Ret w /\ wrapped_at n d w l.
Proof.
  intros Hd. destruct (begin_at n d l Hd) as (i & Hb & Hi). unfold wrap_begin. rewrite Hb.
  eexists. split; [done|]. exists (end_ d). split_and!; [done|by eapply end_at|done].
Qed.

Lemma wrap_end_at n d l : denotes n d l -> wrapped_at n d (wrap_end (Some d)) [].
Proof. intros Hd. exists (end_ d). split_and!; [done|by eapply end_at|done]. Qed.

Lemma wrapped_equal n d w l e :
  wrapped_at n d w l -> wrapped_at n d e [] -> wrap_equal w e = bool_decide (l = []).
Proof.
  intros (i & _ & Hi & _ & Hat & _)%wrapped_cursor (j & _ & Hj & _ & Hend & _)%wrapped_cursor.
  unfold wrap_equal. rewrite Hi, Hj. destruct l as [|x l].
  - by apply (at_nil n d i Hat).
  - by apply (at_cons n d i x l Hat).
Qed.

Lemma wrapped_valid n d w l :
  wrapped_at n d w l -> wrap_valid w = bool_decide (l <> []) /\ cursor_valid w = bool_decide (l <> []).
Proof.
  intros (i & e & Hi & He & Hat & Hend)%wrapped_cursor. unfold wrap_valid, cursor_valid.
  rewrite Hi, He. destruct l as [|x l].
  - destruct (at_nil n d i Hat) as [-> ->]; done.
  - destruct (at_cons n d i x l Hat) as (-> & _ & -> & _); done.
Qed.

Lemma wrapped_cons n d w x l :
  wrapped_at n d w (x :: l) ->
  wrap_element w = Ret x /\ exists w', wrap_progress n w = Ret w' /\ wrapped_at n d w' l.
Proof.
  intros (e & He & Hat & Hit). unfold wrap_element, wrap_progress, cursor_get, cursor_set.
  destruct (it_ w) as [| |i] eqn:Hw; [done..|].
  destruct (at_cons n d i x l Hit) as (_ & Hx & _ & i' & -> & Hi'). split; [done|].
  eexists. split; [done|]. by exists e.
Qed.

Lemma wrapped_clone n d w l :
  wrapped_at n d w l -> exists w', wrap_clone w = Ret w' /\ wrapped_at n d w' l.
Proof.
  intros (e & He & Hat & Hit). unfold wrap_clone. rewrite He.
  destruct (at_clone n d e [] Hat) as (e' & He' & Hat').
  destruct (it_ w) as [| |i] eqn:Hw; [done| |].
  - subst l. rewrite He'. eexists. split; [done|]. by exists e'.
  - destruct (at_clone n d i l Hit) as (i' & Hi' & Hati). rewrite He', Hi'.
    eexists. split; [done|]. by exists e'.
Qed.

Lemma clone_inner_spec n d l :
  denotes n d l -> exists d', clone_inner (Some d) = Ret (Some d') /\ denotes n d' l.
Proof. intros (d' & Hc & Hd)%denotes_clone. unfold clone_inner. rewrite Hc. eauto. Qed.

(** ** Skipping *)

Context (keep : A -> bool).

(** At an element to keep, or at the end; [l] is what is kept from there on. *)
Definition skip_at n d w l : Prop :=
  exists l0, wrapped_at n d w l0 /\ length l0 <= n /\ l = filter (fun x => keep x = true) l0 /\
    match l0 with [] => True | x :: _ => keep x = true end.

Lemma skip_loop_at n d fuel : forall w l,
  wrapped_at n d w l -> length l <= fuel -> length l <= n ->
  exists w', skip_loop keep fuel n w = Ret w' /\ skip_at n d w' (filter (fun x => keep x = true) l).
Proof.
  induction fuel as [|fuel IH]; intros w l Hw Hlen Hn; destruct l as [|x l]; cbn in Hlen; try lia;
    destruct (wrapped_valid _ _ _ _ Hw) as [Hv _]; cbn [skip_loop]; rewrite Hv.
  - rewrite bool_decide_false by tauto. exists w. split; [done|]. by exists [].
  - rewrite bool_decide_false by tauto. exists w. split; [done|]. by exists [].
  - rewrite bool_decide_true by done. destruct (wrapped_cons _ _ _ _ _ Hw) as (He & w' & Hp & Hw'). rewrite He. cbn [mbind outcome_bind].
    destruct (keep x) eqn:Hk.
    + exists w. split; [done|]. exists (x :: l). rewrite filter_cons_True by done. done.
    + rewrite Hp. cbn [mbind outcome_bind]. rewrite filter_cons_False by congruence. apply IH; [done|lia|cbn in Hn; lia].
Qed.

Lemma skip_begin_at n d l :
  denotes n d l ->
  exists w, skip_begin keep n (Some d) = Ret w /\ skip_at n d w (filter (fun x => keep x = true) l).
Proof.
  intros Hd. destruct (wrap_begin_at n d l Hd) as (w & Hb & Hw). unfold skip_begin. rewrite Hb.
  apply denotes_length in Hd. by apply skip_loop_at.
Qed.

Lemma skip_end_at n d l : denotes n d l -> skip_at n d (wrap_end (Some d)) [].
Proof. intros Hd. exists []. split_and!; [by eapply wrap_end_at|cbn; lia|done..]. Qed.

Lemma skip_nil n d w l0 :
  filter (fun x => keep x = true) l0 = [] ->
  match l0 with [] => True | x :: _ => keep x = true end -> l0 = [].
Proof. destruct l0 as [|x l0]; [done|]. intros Hf Hk. by rewrite filter_cons_True in Hf. Qed.

Lemma skip_wrapped_end n d w : skip_at n d w [] -> wrapped_at n d w [].
Proof. intros (l0 & Hw & _ & Hf & Hk). symmetry in Hf. by rewrite (skip_nil n d w l0 Hf Hk) in Hw. Qed.

Lemma skip_at_cons n d w x l :
  skip_at n d w (x :: l) ->
  wrap_valid w = true /\ wrap_element w = Ret x /\
  (forall e, skip_at n d e [] -> wrap_equal w e = false) /\
  exists w', skip_progress keep n w = Ret w' /\ skip_at n d w' l.
Proof.
  intros (l0 & Hw & Hn & Hf & Hk). destruct l0 as [|y l0]; [done|].
  rewrite filter_cons_True in Hf by done. injection Hf as -> ->.
  destruct (wrapped_valid _ _ _ _ Hw) as [Hv _]. destruct (wrapped_cons _ _ _ _ _ Hw) as (He & w' & Hp & Hw').
  split_and!; [done|done| |].
  - intros e Hend%skip_wrapped_end. by rewrite (wrapped_equal _ _ _ _ _ Hw Hend).
  - unfold skip_progress. rewrite Hv, Hp. cbn. cbn in Hn. apply skip_loop_at; [done|lia..].
Qed.

Lemma skip_at_nil n d w :
  skip_at n d w [] -> wrap_valid w = false /\ forall e, skip_at n d e [] -> wrap_equal w e = true.
Proof.
  intros Hw%skip_wrapped_end. destruct (wrapped_valid _ _ _ _ Hw) as [Hv _]. split; [done|].
  intros e Hend%skip_wrapped_end. by rewrite (wrapped_equal _ _ _ _ _ Hw Hend).
Qed.

Lemma skip_clone n d w l :
  skip_at n d w l -> exists w', wrap_clone w = Ret w' /\ skip_at n d w' l.
Proof.
  intros (l0 & Hw & ?). destruct (wrapped_clone _ _ _ _ Hw) as (w' & ? & ?).
  exists w'. split; [done|]. by exists l0.
Qed.

Lemma skip_size n d l :
  denotes n d l ->
  (it ← skip_begin keep n (Some d); count_loop wrap_equal (skip_progress keep n) n it (wrap_end (Some d)) 0) =
  Ret (length (filter (fun x => keep x = true) l)).
Proof.
  intros Hd. destruct (skip_begin_at n d l Hd) as (w & -> & Hw). cbn [mbind outcome_bind].
  pose proof (skip_end_at n d l Hd) as Hend.
  rewrite (count_loop_spec wrap_equal (skip_progress keep n) (wrap_end (Some d)) (skip_at n d))
    with (l := filter (fun x => keep x = true) l); try done.
  - intros it x r (_ & _ & He & Hp)%skip_at_cons. split; [by apply He|done].
  - intros it (_ & He)%skip_at_nil. by apply He.
  - etrans; [apply length_filter|]. by eapply denotes_length.
Qed.

Lemma skip_empty n d l :
  denotes n d l ->
  (it ← skip_begin keep n (Some d); Ret (negb (wrap_valid it))) =
  Ret (bool_decide (filter (fun x => keep x = true) l = [])).
Proof.
  intros Hd. destruct (skip_begin_at n d l Hd) as (w & -> & Hw). cbn [mbind outcome_bind]. f_equal.
  destruct (filter _ l) as [|x r].
  - by destruct (skip_at_nil n d w Hw) as [-> _].
  - by destruct (skip_at_cons n d w x r Hw) as [-> _].
Qed.
End wrapped_laws.

#[local] Arguments skip_begin : simpl never.
#[local] Arguments skip_progress : simpl never.
#[local] Arguments skip_loop : simpl never.
#[local] Arguments wrap_begin : simpl never.
#[local] Arguments wrap_progress : simpl never.
#[local] Arguments wrap_clone : simpl never.
#[local] Arguments wrap_element : simpl never.
#[local] Arguments wrap_valid : simpl never.
#[local] Arguments wrap_equal : simpl never.
#[local] Arguments wrap_end : simpl never.
#[local] Arguments clone_inner : simpl never.
#[local] Arguments count_loop : simpl never.

(** ** Filters *)

#[export] Instance filtered_laws {A C I} `{CollectionLaws A C I} :
  CollectionLaws A (filtered A C) (filtered_it A I).
Proof.
  refine {| denotes n c l := exists d l0, filtered_of c = Some d /\ denotes n d l0 /\
              l = filter (fun x => filter_ c x = true) l0;
            at_ n c it l := exists d, filtered_of c = Some d /\ fi_filter it = filter_ c /\
              skip_at (filter_ c) n d (fi_it it) l |}; cbn.
  - intros n c l (d & l0 & _ & Hd%denotes_length & ->). etrans; [apply length_filter|done].
  - intros n [o f] l (d & l0 & -> & Hd & ->). destruct (clone_inner_spec n d l0 Hd) as (d' & Hc & Hd').
    cbn in *. rewrite Hc. eexists. split; [done|]. by exists d', l0.
  - intros n [o f] l (d & l0 & -> & Hd & ->). destruct (skip_begin_at f n d l0 Hd) as (w & Hb & Hw).
    cbn. rewrite Hb. eexists. split; [done|]. by exists d.
  - intros n [o f] l (d & l0 & -> & Hd & ->). exists d. split_and!; [done..|]. by eapply skip_end_at.
  - intros n [o f] [w g] x l (d & Hof & Hg & Hw); cbn in *; subst.
    destruct (skip_at_cons f n d w x l Hw) as (? & ? & He & w' & Hp & Hw'). split_and!; [done..| |].
    + intros [e g] (d' & Hd' & _ & Hend). simplify_eq/=. by apply He.
    + rewrite Hp. eexists. split; [done|]. by exists d.
  - intros n [o f] [w g] (d & Hof & Hg & Hw); cbn in *; subst.
    destruct (skip_at_nil f n d w Hw) as [? He]. split; [done|].
    intros [e g] (d' & Hd' & _ & Hend). simplify_eq/=. by apply He.
  - intros n [o f] [w g] l (d & Hof & Hg & Hw); cbn in *; subst.
    destruct (skip_clone f n d w l Hw) as (w' & Hc & Hw'). rewrite Hc. eexists. split; [done|]. by exists d.
  - intros n [o f] l (d & l0 & -> & Hd & ->). by apply skip_size.
  - intros n [o f] l (d & l0 & -> & Hd & ->). by apply skip_empty.
Defined.

(** ** Casts *)

#[export] Instance parent_laws {A C I B} {upcast : A -> B} `{CollectionLaws A C I} :
  CollectionLaws B (@parent_type A C B upcast) (@parent_it A I B upcast).
Proof.
  refine {| denotes n c l := exists d l0, parent_of c = Some d /\ denotes n d l0 /\ l = upcast <$> l0;
            at_ n c it l := exists d l0, parent_of c = Some d /\ wrapped_at n d (pi_it it) l0 /\
              l = upcast <$> l0 |}; cbn.
  - intros n c l (d & l0 & _ & Hd%denotes_length & ->). by rewrite length_fmap.
  - intros n [o] l (d & l0 & -> & Hd & ->). destruct (clone_inner_spec n d l0 Hd) as (d' & Hc & Hd').
    cbn in *. rewrite Hc. eexists. split; [done|]. by exists d', l0.
  - intros n [o] l (d & l0 & -> & Hd & ->). destruct (wrap_begin_at n d l0 Hd) as (w & Hb & Hw).
    cbn. rewrite Hb. eexists. split; [done|]. by exists d, l0.
  - intros n [o] l (d & l0 & -> & Hd & ->). exists d, []. split_and!; [done| |done]. by eapply wrap_end_at.
  - intros n [o] [w] y l (d & [|x l0] & Ho & Hw & Hl); cbn in *; subst; [done|]. injection Hl as -> ->.
    destruct (wrapped_valid n d w _ Hw) as [-> _].
    destruct (wrapped_cons n d w x l0 Hw) as (-> & w' & -> & Hw'). split_and!; try done.
    + intros [e] (d' & [|] & Hd' & Hend & ?); simplify_eq/=. by rewrite (wrapped_equal _ _ _ _ _ Hw Hend).
    + eexists. split; [done|]. by exists d, l0.
  - intros n [o] [w] (d & [|] & Ho & Hw & Hl); cbn in *; subst; [|done].
    destruct (wrapped_valid n d w _ Hw) as [-> _]. split; [done|].
    intros [e] (d' & [|] & Hd' & Hend & ?); simplify_eq/=. by rewrite (wrapped_equal _ _ _ _ _ Hw Hend).
  - intros n [o] [w] l (d & l0 & Ho & Hw & Hl); cbn in *; subst.
    destruct (wrapped_clone n d w l0 Hw) as (w' & -> & Hw'). eexists. split; [done|]. by exists d, l0.
  - intros n [o] l (d & l0 & -> & Hd & ->). rewrite length_fmap. by apply size_spec.
  - intros n [o] l (d & l0 & -> & Hd & ->). rewrite (empty_spec n d l0 Hd). by destruct l0.
Defined.

Lemma omap_casts {A B} (cast : A -> option B) (l : list A) :
  Forall2 (fun x y => cast x = Some y) (filter (fun x => cast_ok cast x = true) l) (omap cast l).
Proof.
  induction l as [|x l IH]; [constructor|]. cbn [omap list_omap]. destruct (cast x) as [y|] eqn:E.
  - rewrite filter_cons_True; [by constructor|]. unfold cast_ok. rewrite E. done.
  - rewrite filter_cons_False; [done|]. unfold cast_ok. rewrite E. done.
Qed.

#[export] Instance sub_laws {A C I B} {cast : A -> option B} `{CollectionLaws A C I} :
  CollectionLaws B (@sub_type A C B cast) (@sub_it A I B cast).
Proof.
  refine {| denotes n c l := exists d l0, sub_of c = Some d /\ denotes n d l0 /\ l = omap cast l0;
            at_ n c it l := exists d l0, sub_of c = Some d /\
              skip_at (cast_ok cast) n d (sub_wrapped it) l0 /\ Forall2 (fun x y => cast x = Some y) l0 l |}; cbn.
  - intros n c l (d & l0 & _ & Hd%denotes_length & ->).
    rewrite <- (Forall2_length _ _ _ (omap_casts cast l0)). etrans; [apply length_filter|done].
  - intros n [o] l (d & l0 & -> & Hd & ->). destruct (clone_inner_spec n d l0 Hd) as (d' & Hc & Hd').
    cbn in *. rewrite Hc. eexists. split; [done|]. by exists d', l0.
  - intros n [o] l (d & l0 & -> & Hd & ->).
    destruct (skip_begin_at (cast_ok cast) n d l0 Hd) as (w & Hb & Hw).
    cbn. rewrite Hb. eexists. split; [done|]. exists d. eexists. split_and!; [done|exact Hw|apply omap_casts].
  - intros n [o] l (d & l0 & -> & Hd & ->). exists d, []. split_and!; [done| |done]. by eapply skip_end_at.
  - intros n [o] [w] y l (d & l0 & Ho & Hw & Hl); cbn in *; subst. inversion Hl as [|x ? l1 ? Hx Hl1]; subst.
    destruct (skip_at_cons _ n d w x l1 Hw) as (? & -> & He & w' & -> & Hw'). split_and!; [done| | |].
    + cbn. by rewrite Hx.
    + intros [e] (d' & l2 & Hd' & Hend & Hl2); cbn in *. inversion Hl2; subst. simplify_eq. by apply He.
    + eexists. split; [done|]. by exists d, l1.
  - intros n [o] [w] (d & l0 & Ho & Hw & Hl); cbn in *; subst. inversion Hl; subst.
    destruct (skip_at_nil _ n d w Hw) as [? He]. split; [done|].
    intros [e] (d' & l2 & Hd' & Hend & Hl2); cbn in *. inversion Hl2; subst. simplify_eq. by apply He.
  - intros n [o] [w] l (d & l0 & Ho & Hw & Hl); cbn in *; subst.
    destruct (skip_clone _ n d w l0 Hw) as (w' & -> & Hw'). eexists. split; [done|]. by exists d, l0.
  - intros n [o] l (d & l0 & -> & Hd & ->). rewrite (skip_size _ n d l0 Hd).
    f_equal. apply (Forall2_length _ _ _ (omap_casts cast l0)).
  - intros n [o] l (d & l0 & -> & Hd & ->). rewrite (skip_empty _ n d l0 Hd). f_equal.
    pose proof (omap_casts cast l0) as Hl. by inversion Hl.
Defined.

(** ** Transformation *)

Section transformed_laws.
Context {A C I B : Type} `{CollectionLaws A C I}.
Implicit Types (c : transformed A C B) (it : transformed_it A I B).

Definition transformed_denotes n c (l : list (option B)) : Prop :=
  exists d l0, trans_of c = Some d /\ denotes n d l0 /\ l = transformer_ c <$> l0 /\ Forall is_Some l.
Definition transformed_at n c it (l : list (option B)) : Prop :=
  exists d l0, trans_of c = Some d /\ tr_transformer it = transformer_ c /\
    wrapped_at n d (tr_it it) l0 /\ l = transformer_ c <$> l0 /\ Forall is_Some l /\
    tr_element it = match l with [] => None | y :: _ => y end.

Lemma transform_current_at n c d w l0 :
  trans_of c = Some d -> wrapped_at n d w l0 -> Forall is_Some (transformer_ c <$> l0) ->
  exists it, transform_current (transformer_ c) w = Ret it /\ transformed_at n c it (transformer_ c <$> l0).
Proof.
  intros Hd Hw Hl. unfold transform_current.
  destruct (wrapped_cursor n d w l0 Hw) as (i & e & Hi & _ & Hat & _). rewrite Hi.
  destruct l0 as [|x l0].
  - destruct (at_nil n d i Hat) as [-> _]. eexists. split; [done|]. by exists d, [].
  - destruct (at_cons n d i x l0 Hat) as (-> & -> & _). eexists. split; [done|]. by exists d, (x :: l0).
Qed.

Lemma transformed_cons n c it y l :
  transformed_at n c it (y :: l) ->
  transformed_valid it = true /\ tr_element it = y /\
  (forall e, transformed_at n c e [] -> transformed_equal it e = false) /\
  exists it', transformed_progress n it = Ret it' /\ transformed_at n c it' l.
Proof.
  intros (d & [|x l0] & Hd & Hf & Hw & Hl & Hall & He); [done|]. injection Hl as -> ->.
  inversion Hall as [|? ? [z Hz] Hall']; subst.
  assert (transformed_valid it = true) as Hv by (unfold transformed_valid; rewrite He, Hz; done).
  split_and!; [done|done| |].
  - intros e (d' & [|] & Hd' & _ & Hend & ? & _); simplify_eq/=.
    unfold transformed_equal. by rewrite (wrapped_equal _ _ _ _ _ Hw Hend).
  - unfold transformed_progress. rewrite Hv.
    destruct (wrapped_cursor _ _ _ _ Hw) as (i & _ & Hi & _ & Hat & _).
    destruct (at_cons n d i x l0 Hat) as (Hvi & _ & _ & _). rewrite Hi, Hvi, Hf.
    destruct (wrapped_cons _ _ _ _ _ Hw) as (_ & w' & -> & Hw'). cbn [mbind outcome_bind].
    by apply (transform_current_at n c d).
Qed.

Lemma transformed_nil n c it :
  transformed_at n c it [] -> transformed_valid it = false /\
  forall e, transformed_at n c e [] -> transformed_equal it e = true.
Proof.
  intros (d & [|] & Hd & _ & Hw & Hl & _ & He); [|done]. split; [unfold transformed_valid; by rewrite He|].
  intros e (d' & [|] & Hd' & _ & Hend & ? & _); simplify_eq/=.
  unfold transformed_equal. by rewrite (wrapped_equal _ _ _ _ _ Hw Hend).
Qed.

Lemma transformed_begin_at n c l :
  transformed_denotes n c l ->
  exists it, transformed_begin n (transformer_ c) (trans_of c) = Ret it /\ transformed_at n c it l.
Proof.
  intros (d & l0 & Hd & Hden & -> & Hall). unfold transformed_begin. rewrite Hd.
  destruct (wrap_begin_at n d l0 Hden) as (w & -> & Hw). cbn [mbind outcome_bind].
  by apply (transform_current_at n c d).
Qed.

Lemma transformed_end_at n c l :
  transformed_denotes n c l -> transformed_at n c (transformed_end (transformer_ c) (trans_of c)) [].
Proof.
  intros (d & l0 & Hd & Hden & -> & Hall). exists d, []. unfold transformed_end. rewrite Hd.
  split_and!; try done. by eapply wrap_end_at.
Qed.
End transformed_laws.

#[export] Instance transformer_laws {A C I B} `{CollectionLaws A C I} :
  CollectionLaws (option B) (transformed A C B) (transformed_it A I B).
Proof.
  refine {| denotes := transformed_denotes; at_ := transformed_at |}; cbn [clone begin end_ size_ empty_
    getElement progress isEqual isValid cloneIt NajaTransformerCollection].
  - intros n c l (d & l0 & _ & Hd%denotes_length & -> & _). by rewrite length_fmap.
  - intros n [o f] l (d & l0 & -> & Hd & Hl & Hall). destruct (clone_inner_spec n d l0 Hd) as (d' & Hc & Hd').
    cbn in *. rewrite Hc. eexists. split; [done|]. by exists d', l0.
  - apply transformed_begin_at.
  - apply transformed_end_at.
  - intros n c it y l (? & <- & ? & ?)%transformed_cons. done.
  - apply transformed_nil.
  - intros n c it l (d & l0 & Ho & Hf & Hw & Hl).
    destruct (wrapped_clone n d _ l0 Hw) as (w' & -> & Hw'). eexists. split; [done|]. by exists d, l0.
  - intros n c l Hd. pose proof Hd as (d & l0 & Ho & Hd0 & Hl & _).
    destruct (transformed_begin_at n c l Hd) as (it & Hb & Hit). rewrite Ho in *. rewrite Hb. cbn [mbind outcome_bind].
    pose proof (transformed_end_at n c l Hd) as Hend. rewrite Ho in Hend.
    rewrite (count_loop_spec _ _ _ (transformed_at n c)) with (l := l); try done.
    + intros it' x r (_ & _ & He & Hp)%transformed_cons. split; [by apply He|done].
    + intros it' (_ & He)%transformed_nil. by apply He.
    + subst l. rewrite length_fmap. by eapply denotes_length.
  - intros n c l Hd. destruct (transformed_begin_at n c l Hd) as (it & -> & Hit). cbn [mbind outcome_bind].
    f_equal. destruct l as [|y l].
    + by destruct (transformed_nil n c it Hit) as [-> _].
    + by destruct (transformed_cons n c it y l Hit) as [-> _].
Defined.

(** ** Flattening *)

Section flat_laws.
Context {A C I R F CF IF : Type} `{CollectionLaws A C I, HF : !NajaBaseCollection (option F) CF IF, !CollectionLaws (option F) CF IF}.
Context {cast : A -> option R} {widen : F -> R} {flattener : A -> option CF}.
Notation flat_c := (@flat A C R F CF cast widen flattener).
Notation flat_state := (@flat_it A I R F CF IF cast widen flattener).

Notation widened q := ((fun x : option F => widen <$> x) <$> q) (only parsing).

(** What the element [a] stands for. *)
Definition flat_part (n : nat) (a : A) (l : list (option R)) : Prop :=
  match cast a with
  | Some r => l = [Some r]
  | None => exists cf q, flattener a = Some cf /\ denotes n cf q /\ Forall is_Some q /\
      l = widened q
  end.

Definition flat_denotes (n : nat) (c : flat_c) (l : list (option R)) : Prop :=
  exists d l0 parts, flat_of c = Some d /\ denotes n d l0 /\ Forall2 (flat_part n) l0 parts /\
    l = concat parts /\ length l <= n.

(** Where the iterator is: the rest of the element it is in, then the parts of
    the elements that follow. *)
Inductive flat_here (n : nat) (it : flat_state) : list A -> list (option R) -> Prop :=
| flat_here_end : flattenIt_ it = None -> fl_element it = None -> flat_here n it [] []
| flat_here_direct a r l0 : cast a = Some r -> flattenIt_ it = None -> fl_element it = Some r ->
    flat_here n it (a :: l0) [Some r]
| flat_here_inside a cf f x q l0 : cast a = None -> flattener a = Some cf ->
    flattenIt_ it = Some f -> at_ n cf f (Some x :: q) -> Forall is_Some q ->
    fl_element it = Some (widen x) ->
    flat_here n it (a :: l0) (widened (Some x :: q)).
Definition flat_at (n : nat) (c : flat_c) (it : flat_state) (l : list (option R)) : Prop :=
  exists d l0 here parts, flat_of c = Some d /\ wrapped_at n d (fl_it it) l0 /\ length l0 <= n /\
    flat_here n it l0 here /\ Forall2 (flat_part n) (tail l0) parts /\ l = here ++ concat parts.

Lemma find_loop_at n c d fuel : flat_of c = Some d -> forall w l0 parts,
  wrapped_at n d w l0 -> length l0 <= fuel -> length l0 <= n -> Forall2 (flat_part n) l0 parts ->
  exists it : flat_state, find_loop fuel n w = Ret it /\ flat_at n c it (concat parts).
Proof.
  intros Hd. induction fuel as [|fuel IH]; intros w l0 parts Hw Hlen Hn Hparts;
    destruct (wrapped_valid _ _ _ _ Hw) as [_ Hv]; cbn [find_loop]; rewrite Hv;
    destruct Hparts as [|a part l0 parts Hpart Hparts]; cbn [length] in Hlen; try lia.
  1,2: rewrite bool_decide_false by tauto; eexists; split; [done|];
    exists d, [], [], []; split_and!; try done; by constructor.
  rewrite bool_decide_true by done. destruct (wrapped_cons _ _ _ _ _ Hw) as (-> & w' & Hp & Hw').
  cbn [mbind outcome_bind]. unfold flat_part in Hpart. destruct (cast a) as [r|] eqn:Hca.
  - subst part. eexists. split; [done|]. exists d, (a :: l0), [Some r], parts.
    split_and!; try done. by constructor.
  - destruct Hpart as (cf & q & Hf & Hq & Hall & ->). rewrite Hf.
    destruct (begin_at n cf q Hq) as (f & -> & Hat). cbn [mbind outcome_bind]. destruct q as [|x q].
    + destruct (at_nil _ _ _ Hat) as [-> _]. rewrite Hp. cbn [mbind outcome_bind].
      apply (IH w' l0 parts); [done|lia|cbn in Hn; lia|done].
    + inversion Hall as [|? ? [y ->] Hall']; subst.
      destruct (at_cons _ _ _ _ _ Hat) as (-> & -> & _). cbn [mbind outcome_bind].
      eexists. split; [done|]. exists d, (a :: l0), (widened (Some y :: q)), parts.
      split_and!; try done. by eapply flat_here_inside.
Qed.

Lemma flat_end_nil n c it : flat_at n c it [] ->
  exists d, flat_of c = Some d /\ wrapped_at n d (fl_it it) [] /\ flattenIt_ it = None /\ fl_element it = None.
Proof. intros (d & l0 & here & parts & ? & ? & _ & Hh & _ & Hl). inversion Hh; subst; done || eauto. Qed.

Lemma flat_at_nil n c it :
  flat_at n c it [] -> flat_valid it = false /\ forall e, flat_at n c e [] -> flat_equal it e = true.
Proof.
  intros (d & Hd & Hw & Hf & He)%flat_end_nil. split; [unfold flat_valid; by rewrite He|].
  intros e (d' & Hd' & Hw' & Hf' & _)%flat_end_nil. simplify_eq. unfold flat_equal.
  by rewrite (wrapped_equal _ _ _ _ _ Hw Hw'), Hf, Hf'.
Qed.

(** After an element, the rest of where it is in or the elements that follow. *)
Lemma find_next_at n c d (it : flat_state) a l0 here parts :
  flat_of c = Some d -> wrapped_at n d (fl_it it) (a :: l0) -> length (a :: l0) <= n ->
  flat_here n it (a :: l0) here -> Forall2 (flat_part n) l0 parts ->
  exists it', findNextElement true n it = Ret it' /\ flat_at n c it' (tail here ++ concat parts).
Proof.
  intros Hd Hw Hn Hh Hparts. destruct (wrapped_cons _ _ _ _ _ Hw) as (_ & w' & Hp & Hw').
  destruct (wrapped_valid _ _ _ _ Hw) as [_ Hv]. rewrite bool_decide_true in Hv by done.
  unfold findNextElement. inversion Hh as [|? r ? Hca Hf He|? cf f x q ? Hca Hfl Hf Hat Hall He]; subst.
  - rewrite Hf, Hv. cbn [andb]. rewrite Hp. cbn [mbind outcome_bind tail app].
    eapply find_loop_at; [done..|cbn in Hn; lia|cbn in Hn; lia|done].
  - rewrite Hf. destruct (at_cons _ _ _ _ _ Hat) as (_ & _ & _ & f' & -> & Hat').
    cbn [mbind outcome_bind]. destruct q as [|y q].
    + destruct (at_nil _ _ _ Hat') as [-> _]. rewrite Hv. cbn [andb]. rewrite Hp. cbn [mbind outcome_bind].
      eapply find_loop_at; [done..|cbn in Hn; lia|cbn in Hn; lia|done].
    + inversion Hall as [|? ? [z ->] Hall']; subst. destruct (at_cons _ _ _ _ _ Hat') as (-> & -> & _).
      cbn [mbind outcome_bind]. eexists. split; [done|].
      exists d, (a :: l0), (widened (Some z :: q)), parts.
      split_and!; try done. by eapply flat_here_inside.
Qed.

Lemma flat_at_cons n c it y l :
  flat_at n c it (y :: l) ->
  flat_valid it = true /\ fl_element it = y /\
  (forall e, flat_at n c e [] -> flat_equal it e = false) /\
  exists it', flat_progress n it = Ret it' /\ flat_at n c it' l.
Proof.
  intros (d & l0 & here & parts & Hd & Hw & Hn & Hh & Hparts & Hl).
  assert (exists a l1, l0 = a :: l1) as (a & l1 & ->).
  { inversion Hh; subst; [by inversion Hparts; subst|eauto..]. }
  assert (exists h, here = y :: h) as [h ->].
  { inversion Hh; subst; simplify_eq/=; eauto. }
  injection Hl as ->. assert (fl_element it = y /\ is_Some y) as [He [z ->]].
  { inversion Hh; subst; eauto. }
  assert (flat_valid it = true) as Hv by (unfold flat_valid; by rewrite He).
  split_and!; [done|done| |].
  - intros e (d' & Hd' & Hw' & _)%flat_end_nil. simplify_eq. unfold flat_equal.
    by rewrite (wrapped_equal _ _ _ _ _ Hw Hw').
  - unfold flat_progress. rewrite Hv. by eapply (find_next_at n c d it a l1 (Some z :: h)).
Qed.

Lemma flat_begin_at n c l :
  flat_denotes n c l -> exists it, flat_begin n (flat_of c) = Ret it /\ flat_at n c it l.
Proof.
  intros (d & l0 & parts & Hd & Hden & Hparts & -> & _). unfold flat_begin. rewrite Hd.
  destruct (wrap_begin_at n d l0 Hden) as (w & -> & Hw). cbn [mbind outcome_bind].
  apply denotes_length in Hden. by apply (find_loop_at n c d n Hd w l0 parts).
Qed.

Lemma flat_end_at n c l : flat_denotes n c l -> flat_at n c (flat_end (flat_of c)) [].
Proof.
  intros (d & l0 & parts & Hd & Hden & _). exists d, [], [], []. rewrite Hd.
  split_and!; try done; [by eapply wrap_end_at|cbn; lia|by constructor].
Qed.

Lemma flat_clone_at n c it l :
  flat_at n c it l -> exists it', flat_clone it = Ret it' /\ flat_at n c it' l.
Proof.
  intros (d & l0 & here & parts & Hd & Hw & Hn & Hh & Hparts & Hl). unfold flat_clone.
  destruct (wrapped_clone n d _ l0 Hw) as (w' & -> & Hw'). cbn [mbind outcome_bind].
  inversion Hh as [Hf He|a r l1 Hca Hf He|a cf f x q l1 Hca Hfl Hf Hat Hall He]; subst; rewrite Hf.
  - eexists. split; [done|]. exists d, [], [], parts. split_and!; try done. by constructor.
  - eexists. split; [done|]. exists d, (a :: l1), [Some r], parts. split_and!; try done. by constructor.
  - destruct (at_clone _ _ _ _ Hat) as (f' & -> & Hat'). eexists. split; [done|].
    exists d, (a :: l1), (widened (Some x :: q)), parts. split_and!; try done.
    by eapply flat_here_inside.
Qed.
End flat_laws.

#[export] Instance flat_laws {A C I R F CF IF} `{CollectionLaws A C I, HF : !NajaBaseCollection (option F) CF IF, !CollectionLaws (option F) CF IF}
    {cast : A -> option R} {widen : F -> R} {flattener : A -> option CF} :
  CollectionLaws (option R) (@flat A C R F CF cast widen flattener) (@flat_it A I R F CF IF cast widen flattener).
Proof.
  refine {| denotes := flat_denotes; at_ := flat_at |}; cbn [clone begin end_ size_ empty_
    getElement progress isEqual isValid cloneIt NajaFlatCollection].
  - by intros n c l (d & l0 & parts & _ & _ & _ & _ & ?).
  - intros n [o] l (d & l0 & parts & -> & Hd & Hrest). destruct (clone_inner_spec n d l0 Hd) as (d' & Hc & Hd').
    cbn in *. rewrite Hc. eexists. split; [done|]. by exists d', l0, parts.
  - apply flat_begin_at.
  - apply flat_end_at.
  - intros n c it y l (? & <- & ? & ?)%flat_at_cons. done.
  - apply flat_at_nil.
  - apply flat_clone_at.
  - intros n c l Hd. pose proof Hd as (d & l0 & parts & Ho & _ & _ & _ & Hlen).
    destruct (flat_begin_at n c l Hd) as (it & Hb & Hit). rewrite Ho in *. rewrite Hb. cbn [mbind outcome_bind].
    pose proof (flat_end_at n c l Hd) as Hend. rewrite Ho in Hend.
    rewrite (count_loop_spec _ _ _ (flat_at n c)) with (l := l); try done.
    + intros it' x r (_ & _ & He & Hp)%flat_at_cons. split; [by apply He|done].
    + intros it' (_ & He)%flat_at_nil. by apply He.
  - intros n c l Hd. destruct (flat_begin_at n c l Hd) as (it & -> & Hit). cbn [mbind outcome_bind].
    f_equal. destruct l as [|y l].
    + by destruct (flat_at_nil n c it Hit) as [-> _].
    + by destruct (flat_at_cons n c it y l Hit) as [-> _].
Defined.

(** ** Leaves of a tree *)

(** The leaves below a node, the last child's first, and the number of nodes. *)
Section tree_laws.
Context {X : Type} `{EqDecision X}.

Inductive leaves_of (t : tree_leaves X) : option X -> nat -> list (option X) -> Prop :=
| leaves_leaf o : leafCriterion_ t o = true -> leaves_of t o 1 [o]
| leaves_node o k l : leafCriterion_ t o = false -> forest_of t (childrenGetter_ t o) k l ->
    leaves_of t o (S k) l
with forest_of (t : tree_leaves X) : list (option X) -> nat -> list (option X) -> Prop :=
| forest_nil : forest_of t [] 0 []
| forest_cons o os k l k' l' : leaves_of t o k l -> forest_of t os k' l' ->
    forest_of t (o :: os) (k + k') (l' ++ l).

(** The same, the stack's top first. *)
Inductive stack_of (t : tree_leaves X) : list (option X) -> nat -> list (option X) -> Prop :=
| stack_nil : stack_of t [] 0 []
| stack_cons o os k l k' l' : leaves_of t o k l -> stack_of t os k' l' ->
    stack_of t (o :: os) (k + k') (l ++ l').

Lemma forest_stack t os k l : forest_of t os k l -> forall st k' l',
  stack_of t st k' l' -> stack_of t (rev os ++ st) (k + k') (l ++ l').
Proof.
  induction os as [|o os IH] in k, l |- *; intros Hf st k' l' Hst; inversion Hf as [|? ? k1 l1 k2 l2 Ho Hos]; subst.
  - done.
  - cbn. rewrite <- app_assoc. cbn. rewrite <- app_assoc.
    replace (k1 + k2 + k') with (k2 + (k1 + k')) by lia. apply IH; [done|]. by constructor.
Qed.

Scheme leaves_ind := Induction for leaves_of Sort Prop
  with forest_ind := Induction for forest_of Sort Prop.

Lemma leaves_length t o k l : leaves_of t o k l -> length l <= k.
Proof.
  intros H. induction H using leaves_ind with (P0 := fun os k l _ => length l <= k);
    rewrite ?length_app; cbn; lia.
Qed.

Definition tree_denotes (n : nat) (t : tree_leaves X) (l : list (option X)) : Prop :=
  match root_ t with
  | None => l = []
  | Some _ => exists k, leaves_of t (root_ t) k l /\ k <= n /\ Forall is_Some l
  end.
Definition tree_at (n : nat) (t : tree_leaves X) (it : tree_it X) (l : list (option X)) : Prop :=
  ti_tree it = t /\
  ((l = [] /\ ti_element it = None /\ stack_ it = []) \/
   exists x r k, l = Some x :: r /\ ti_element it = Some x /\ stack_of t (stack_ it) k r /\
     Forall is_Some r /\ k <= n).

Lemma find_leaf_at n t fuel : forall st k l,
  stack_of t st k l -> k <= fuel -> k <= n -> Forall is_Some l ->
  exists it, find_leaf fuel t st = Ret it /\ tree_at n t it l.
Proof.
  induction fuel as [|fuel IH]; intros st k l Hst Hk Hn Hl;
    inversion Hst as [|o os k1 l1 k2 l2 Ho Hos]; subst.
  1,3: eexists; split; [done|]; split; [done|]; by left.
  - inversion Ho; subst; lia.
  - cbn [find_leaf]. inversion Ho as [? Hc|? k3 ? Hc Hf]; subst; rewrite Hc.
    + apply Forall_app in Hl as [Hx Hl]. inversion Hx as [|? ? [x ->] _]; subst.
      eexists. split; [done|]. split; [done|]. right. exists x, l2, k2. split_and!; try done. lia.
    + apply (IH _ (k3 + k2)); [by apply forest_stack|lia|lia|done].
Qed.

Lemma tree_at_cons n t it y l :
  tree_at n t it (y :: l) ->
  tree_valid it = true /\ ti_element it = y /\
  (forall e, tree_at n t e [] -> tree_equal it e = false) /\
  exists it', tree_progress n it = Ret it' /\ tree_at n t it' l.
Proof.
  intros (Ht & [(? & _)|(x & r & k & Heq & He & Hst & Hall & Hk)]); [done|]. injection Heq as -> ->.
  assert (tree_valid it = true) as Hv by (unfold tree_valid; by rewrite He).
  split_and!; [done|done| |].
  - intros e (_ & [(_ & He' & _)|(? & ? & ? & ? & _)]); [|done]. unfold tree_equal.
    apply bool_decide_false. rewrite He, He'. by intros (_ & ? & _).
  - unfold tree_progress. rewrite Hv, Ht. by eapply find_leaf_at.
Qed.

Lemma tree_at_nil n t it :
  tree_at n t it [] -> tree_valid it = false /\ forall e, tree_at n t e [] -> tree_equal it e = true.
Proof.
  intros (Ht & [(_ & He & Hst)|(? & ? & ? & ? & _)]); [|done]. split; [unfold tree_valid; by rewrite He|].
  intros e (Ht' & [(_ & He' & Hst')|(? & ? & ? & ? & _)]); [|done]. unfold tree_equal.
  apply bool_decide_true. by rewrite Ht, Ht', He, He', Hst, Hst'.
Qed.

Lemma tree_begin_at n t l :
  tree_denotes n t l -> exists it, tree_begin n t = Ret it /\ tree_at n t it l.
Proof.
  unfold tree_denotes, tree_begin. destruct (root_ t) eqn:Hr.
  - intros (k & Hl & Hk & Hall). apply find_leaf_at with k; try done.
    rewrite <- (Nat.add_0_r k), <- (app_nil_r l). constructor; [done|constructor].
  - intros ->. eexists. split; [done|]. split; [done|]. by left.
Qed.

Lemma tree_end_at n t : tree_at n t (tree_end t) [].
Proof. split; [done|]. by left. Qed.
End tree_laws.

#[export] Instance tree_laws {X} `{EqDecision X} : CollectionLaws (option X) (tree_leaves X) (tree_it X).
Proof.
  refine {| denotes := tree_denotes; at_ := tree_at |}; cbn [clone begin end_ size_ empty_
    getElement progress isEqual isValid cloneIt NajaTreeLeavesCollection].
  - unfold tree_denotes. intros n t l. destruct (root_ t).
    + intros (k & Hl%leaves_length & ? & _). lia.
    + intros ->. cbn. lia.
  - intros n [r g f] l Hd. by eexists.
  - apply tree_begin_at.
  - intros. apply tree_end_at.
  - intros n t it y l (? & <- & ? & ?)%tree_at_cons. done.
  - apply tree_at_nil.
  - eauto.
  - intros n t l Hd. destruct (tree_begin_at n t l Hd) as (it & Hb & Hit). rewrite Hb.
    unfold tree_denotes in Hd. destruct (root_ t) as [o|] eqn:Hr.
    + destruct Hd as (k & Hl%leaves_length & Hk & _). cbn [mbind outcome_bind].
      rewrite (count_loop_spec _ _ _ (tree_at n t)) with (l := l); try done.
      * intros it' x r (_ & _ & He & Hp)%tree_at_cons. split; [apply He, tree_end_at|done].
      * intros it' (_ & He)%tree_at_nil. apply He, tree_end_at.
      * lia.
    + by subst l.
  - intros n t l Hd. destruct (tree_begin_at n t l Hd) as (it & Hb & Hit). rewrite Hb.
    assert (tree_valid it = bool_decide (l <> [])) as Hv.
    { destruct l as [|y l].
      - by destruct (tree_at_nil n t it Hit) as [-> _].
      - by destruct (tree_at_cons n t it y l Hit) as [-> _]. }
    unfold tree_denotes in Hd. destruct (root_ t); cbn [mbind outcome_bind].
    + rewrite Hv. by destruct l.
    + by subst l.
Defined.

(** * Walking a collection *)

Section walk.
Context {A C I : Type} `{CollectionLaws A C I, !Inhabited A}.

Lemma range_loop_spec n d l : forall fuel it endIt,
  at_ n d it l -> at_ n d endIt [] -> length l <= fuel ->
  range_loop fuel n (Some it) (Some endIt) = Ret l.
Proof.
  induction l as [|x l IH]; intros fuel it endIt Hit Hend Hlen.
  - destruct (at_nil n d it Hit) as [_ He]. destruct fuel; cbn; by rewrite (He endIt Hend).
  - destruct fuel as [|fuel]; cbn in Hlen; [lia|].
    destruct (at_cons n d it x l Hit) as (_ & Hx & He & it' & Hp & Hit').
    cbn. rewrite (He endIt Hend), Hx. cbn. rewrite Hp. cbn. rewrite (IH fuel it'); [done..|lia].
Qed.

(** A range-based loop over a collection sees its elements, in order. *)
Lemma range_spec n d l : denotes n d l -> range n (Some d) = Ret l.
Proof.
  intros Hd. destruct (begin_at n d l Hd) as (it & Hb & Hit). unfold range. cbn. rewrite Hb. cbn.
  apply range_loop_spec with d; [done|by eapply end_at|by eapply denotes_length].
Qed.
End walk.
