(* ===== verification/CollectionSpecs.v ===== *)
(** What the operations of [NajaCollection] give, for any collection that meets
    the contract: loops over the result, its size and its emptiness. *)
From S2P Require Import Prelude Collection CollectionLaws.
Local Open Scope nat_scope.

(** A handle of no collection is empty. *)
Definition handle_denotes {A C I} `{CollectionLaws A C I} (n : nat) (c : option C) (l : list A) : Prop :=
  match c with Some d => denotes n d l | None => l = [] end.

(** Everything a client sees of the handle [c] is the list [l]. *)
Definition handle_is {A C I} `{!NajaBaseCollection A C I, !Inhabited A} (n : nat) (c : option C)
    (l : list A) : Prop :=
  range n c = Ret l /\ handle_size n c = Ret (length l) /\
  handle_empty n c = Ret (bool_decide (l = [])).

Lemma handle_denotes_is {A C I} `{CollectionLaws A C I, !Inhabited A} n (c : option C) l :
  handle_denotes n c l -> handle_is n c l.
Proof.
  destruct c as [d|]; cbn.
  - intros Hd. split_and!; [by apply range_spec|by apply size_spec|by apply empty_spec].
  - intros ->. split_and!; [by destruct n|done|done].
Qed.

Section specs.
Context {A C I : Type} `{CollectionLaws A C I}.

(** [getSubCollection(filter)] holds the elements the filter accepts, in order. *)
Theorem getSubCollection_spec `{!Inhabited A} n (c : option C) (l : list A) (f : A -> bool) :
  handle_denotes n c l ->
  exists c', getSubCollection f c = Ret c' /\ handle_is n c' (filter (fun x => f x = true) l).
Proof.
  intros Hc. destruct c as [d|]; cbn in *.
  - destruct (denotes_clone n d l Hc) as (d' & -> & Hd'). eexists. split; [done|].
    apply handle_denotes_is. by exists d', l.
  - subst l. eexists. split; [done|]. by apply (handle_denotes_is n None []).
Qed.

(** [getSubCollection<SubType>()] holds the elements that are of the
    subtype, cast to it, in order. *)
Theorem getSubTypeCollection_spec {B} `{!Inhabited B} n (c : option C) (l : list A) (cast : A -> option B) :
  handle_denotes n c l ->
  exists c', getSubTypeCollection cast c = Ret c' /\ handle_is n c' (omap cast l).
Proof.
  intros Hc. destruct c as [d|]; cbn in *.
  - destruct (denotes_clone n d l Hc) as (d' & -> & Hd'). eexists. split; [done|].
    apply handle_denotes_is. by exists d', l.
  - subst l. eexists. split; [done|]. by apply (handle_denotes_is n None []).
Qed.

Lemma getParentTypeCollection_spec {B} `{!Inhabited B} n (c : option C) (l : list A) (upcast : A -> B) :
  handle_denotes n c l ->
  exists c', getParentTypeCollection upcast c = Ret c' /\ handle_is n c' (upcast <$> l).
Proof.
  intros Hc. destruct c as [d|]; cbn in *.
  - destruct (denotes_clone n d l Hc) as (d' & -> & Hd'). eexists. split; [done|].
    apply handle_denotes_is. by exists d', l.
  - subst l. eexists. split; [done|]. by apply (handle_denotes_is n None []).
Qed.

(** [getTransformerCollection] holds the images of the elements, in order,
    when no image is the null pointer. *)
Theorem getTransformerCollection_spec {B} n (c : option C) (l : list A) (f : A -> option B) :
  handle_denotes n c l -> Forall is_Some (f <$> l) ->
  exists c', getTransformerCollection f c = Ret c' /\ handle_is n c' (f <$> l).
Proof.
  intros Hc Hf. destruct c as [d|]; cbn in *.
  - destruct (denotes_clone n d l Hc) as (d' & -> & Hd'). eexists. split; [done|].
    apply handle_denotes_is. by exists d', l.
  - subst l. eexists. split; [done|]. by apply (handle_denotes_is n None []).
Qed.

(** C17. [getFlatCollection] holds, in order, each element that is of the return
    type itself, and the elements of the collection the flattener gives for each
    that is not, when none of those is null. *)
Theorem getFlatCollection_spec {R F CF IF} `{!NajaBaseCollection (option F) CF IF, !CollectionLaws (option F) CF IF}
    n (c : option C) (l : list A) (parts : list (list (option R)))
    (cast : A -> option R) (widen : F -> R) (flattener : A -> option CF) :
  handle_denotes n c l ->
  Forall2 (flat_part (cast := cast) (widen := widen) (flattener := flattener) n) l parts ->
  length (concat parts) <= n ->
  exists c', getFlatCollection cast widen flattener c = Ret c' /\ handle_is n c' (concat parts).
Proof.
  intros Hc Hparts Hlen. destruct c as [d|]; cbn in *.
  - destruct (denotes_clone n d l Hc) as (d' & -> & Hd'). eexists. split; [done|].
    apply handle_denotes_is. by exists d', l, parts.
  - subst l. inversion Hparts; subst. eexists. split; [done|]. by apply (handle_denotes_is n None []).
Qed.
End specs.

(** [NajaTreeLeavesCollection] holds the leaves below the root, from the
    last child to the first, when the tree is finite and no leaf is null. *)
Theorem tree_leaves_spec {X} `{EqDecision X} n k (t : tree_leaves X) (x : X) l :
  root_ t = Some x -> leaves_of t (Some x) k l -> k <= n -> Forall is_Some l ->
  handle_is n (Some t) l.
Proof.
  intros Hr Hl Hk Hall. apply handle_denotes_is. cbn. unfold tree_denotes. rewrite Hr. by exists k.
Qed.

Section equal.
Context {A C I C' I' : Type} `{H1 : CollectionLaws A C I, !NajaBaseCollection A C' I', H2 : !CollectionLaws A C' I'}.
Context `{!Inhabited A, !EqDecision A}.

Lemma equal_loop_spec n d r l : forall fuel (it endIt : I) (rit : I') l',
  at_ n d it l -> at_ n d endIt [] -> at_ n r rit l' -> length l = length l' -> length l <= fuel ->
  equal_loop fuel n (Some it) (Some endIt) (Some rit) = Ret (bool_decide (l = l')).
Proof.
  induction l as [|x l IH]; intros fuel it endIt rit l' Hit Hend Hrit Hl Hfuel;
    destruct l' as [|y l']; try done.
  - destruct (at_nil n d it Hit) as [_ He]. destruct fuel; cbn; by rewrite (He endIt Hend).
  - destruct fuel as [|fuel]; cbn in Hl, Hfuel; [lia|].
    destruct (at_cons n d it x l Hit) as (_ & Hx & He & it' & Hp & Hit').
    destruct (at_cons n r rit y l' Hrit) as (_ & Hy & _ & rit' & Hp' & Hrit').
    cbn. rewrite (He endIt Hend), Hx, Hy. cbn. destruct (decide (x = y)) as [->|Hne].
    + rewrite Hp, Hp'. cbn. rewrite (IH fuel it' endIt rit' l') by (done || lia).
      f_equal. apply bool_decide_ext. naive_solver.
    + rewrite bool_decide_false; [done|]. naive_solver.
Qed.

(** [operator==] on two collections compares their elements in order. *)
Theorem handle_equal_spec n (c : option C) (r : option C') (l l' : list A) :
  handle_denotes n c l -> handle_denotes n r l' ->
  handle_equal n c r = Ret (bool_decide (l = l')).
Proof.
  intros Hc Hr. unfold handle_equal.
  destruct (handle_denotes_is n c l Hc) as (_ & -> & _), (handle_denotes_is n r l' Hr) as (_ & -> & _).
  cbn. destruct (Nat.eqb_spec (length l) (length l')) as [Hlen|Hne].
  2:{ rewrite bool_decide_false; [done|]. by intros ->. }
  destruct c as [d|], r as [e|]; cbn in Hc, Hr.
  - destruct (begin_at n d l Hc) as (it & Hb & Hit), (begin_at n e l' Hr) as (rit & Hb' & Hrit).
    cbn. rewrite Hb, Hb'. cbn. apply (equal_loop_spec n d e); try done; [by eapply end_at|].
    exact (denotes_length n d l Hc).
  - subst l'. apply nil_length_inv in Hlen as ->. destruct (begin_at n d [] Hc) as (it & Hb & Hit).
    cbn. rewrite Hb. cbn. destruct (at_nil n d it Hit) as [_ He].
    assert (isEqual it (end_ d) = true) as He' by (by apply He; eapply end_at).
    destruct n; cbn; by rewrite He'.
  - subst l. destruct l' as [|]; [|done]. destruct (begin_at n e [] Hr) as (rit & Hb & _).
    cbn. rewrite Hb. by destruct n.
  - subst. by destruct n.
Qed.
End equal.

(** * At work *)

(** Even numbers, as a subtype. *)
Definition as_even (x : nat) : option nat := if Nat.even x then Some (Nat.div2 x) else None.
Definition numbers : stl nat := Stl (Some [3; 4; 1; 6; 8]).

Lemma numbers_denote : handle_denotes 5 (Some numbers) [3; 4; 1; 6; 8].
Proof. split; [done|]. cbn. lia. Qed.

Lemma getSubCollection_spec_witness :
  exists c', getSubCollection Nat.even (Some numbers) = Ret c' /\ handle_is 5 c' [4; 6; 8].
Proof. exact (getSubCollection_spec 5 (Some numbers) [3; 4; 1; 6; 8] Nat.even numbers_denote). Defined.

Lemma getSubTypeCollection_spec_witness :
  exists c', getSubTypeCollection as_even (Some numbers) = Ret c' /\ handle_is 5 c' [2; 3; 4].
Proof. exact (getSubTypeCollection_spec 5 (Some numbers) [3; 4; 1; 6; 8] as_even numbers_denote). Defined.

Lemma getTransformerCollection_spec_witness :
  exists c', getTransformerCollection (fun x => Some (x + 1)) (Some numbers) = Ret c' /\
    handle_is 5 c' [Some 4; Some 5; Some 2; Some 7; Some 9].
Proof.
  exact (getTransformerCollection_spec 5 (Some numbers) [3; 4; 1; 6; 8] (fun x => Some (x + 1))
    numbers_denote ltac:(repeat constructor; eauto)).
Defined.

(** A number stands for itself when even and for the set below it when odd. *)
Definition below (x : nat) : option (intrusive_set nat) := Some (IntrusiveSet (Some (seq 0 x))).

Lemma getFlatCollection_spec_witness :
  exists c', getFlatCollection as_even (fun x => 10 + x) below (Some numbers) = Ret c' /\
    handle_is 7 c' [Some 10; Some 11; Some 12; Some 2; Some 10; Some 3; Some 4].
Proof.
  refine (getFlatCollection_spec 7 (Some numbers) [3; 4; 1; 6; 8]
    [[Some 10; Some 11; Some 12]; [Some 2]; [Some 10]; [Some 3]; [Some 4]] as_even (fun x => 10 + x)
    below _ _ _).
  - split; [done|]. cbn. lia.
  - assert (forall x, x <= 7 -> denotes 7 (IntrusiveSet (Some (seq 0 x))) (Some <$> seq 0 x)) as Hden.
    { intros x Hx. exists (seq 0 x). split_and!; [done..|]. by rewrite length_seq. }
    repeat constructor; cbn; try done; eexists _, (Some <$> seq 0 _);
      (split_and!; [done|apply Hden; lia|repeat constructor; eauto|done]).
  - cbn. lia.
Defined.

(** Node [x] has the children [2 * x] and [2 * x + 1], up to 7. *)
Definition binary_tree : tree_leaves nat :=
  TreeLeaves nat (Some 1)
    (fun o => match o with Some x => [Some (2 * x); Some (2 * x + 1)] | None => [] end)
    (fun o => match o with Some x => 4 <=? x | None => true end).

Lemma tree_leaves_spec_witness : handle_is 7 (Some binary_tree) [Some 7; Some 6; Some 5; Some 4].
Proof.
  apply (tree_leaves_spec 7 7 binary_tree 1); [done| |lia|repeat constructor; eauto].
  assert (forall x, 4 <= x -> leaves_of binary_tree (Some x) 1 [Some x]) as Hleaf.
  { intros x Hx. constructor. by apply Nat.leb_le. }
  assert (forall x k k' l l', x < 4 -> leaves_of binary_tree (Some (2 * x)) k l ->
    leaves_of binary_tree (Some (2 * x + 1)) k' l' ->
    leaves_of binary_tree (Some x) (S (k + (k' + 0))) (([] ++ l') ++ l)) as Hnode.
  { intros x k k' l l' Hx H1 H2. apply leaves_node; [by apply Nat.leb_gt|].
    repeat (constructor; [done|]). constructor. }
  exact (Hnode 1 3 3 [Some 5; Some 4] [Some 7; Some 6] ltac:(lia)
    (Hnode 2 1 1 [Some 4] [Some 5] ltac:(lia) (Hleaf 4 ltac:(lia)) (Hleaf 5 ltac:(lia)))
    (Hnode 3 1 1 [Some 6] [Some 7] ltac:(lia) (Hleaf 6 ltac:(lia)) (Hleaf 7 ltac:(lia)))).
Defined.

Lemma handle_equal_spec_witness :
  handle_equal 5 (Some numbers) (Some (StlMap (Some [(0, 3); (1, 4); (2, 1); (3, 6); (4, 8)]))) = Ret true.
Proof.
  refine (handle_equal_spec 5 (Some numbers) (Some (StlMap _)) [3; 4; 1; 6; 8] [3; 4; 1; 6; 8]
    numbers_denote _).
  eexists. split_and!; [done|done|]. cbn. lia.
Defined.

(** A transformer that gives a null pointer stops the iterator short of the end:
    neither [size] nor a loop over the collection ends. *)
Lemma null_image_diverges n :
  let c := Transformed (Some (Stl (Some [0]))) (fun _ : nat => @None nat) in
  size_ n c = Undef /\ range n (Some c) = Undef.
Proof.
  cbv zeta. pose (c := Stl (Some [0])). pose (f := fun _ : nat => @None nat).
  pose (it := TransformedIt (Wrapped (OwnIt (ContainerIt (Some [0]) 0)) (Some (end_ c))) None f).
  pose (e := end_ (Transformed (Some c) f)).
  assert (transformed_progress n it = Ret it) as Hp by done.
  assert (transformed_equal it e = false) as He by done.
  assert (forall fuel k, count_loop transformed_equal (transformed_progress n) fuel it e k = Undef) as Hcount.
  { clearbody it e. induction fuel as [|fuel IH]; intros k; cbn [count_loop]; rewrite He; [done|].
    rewrite Hp. apply IH. }
  assert (forall fuel, range_loop fuel n (Some it) (Some e) = Undef) as Hrange.
  { clearbody it e. induction fuel as [|fuel IH]; cbn [range_loop it_equal isEqual NajaTransformerCollection];
      rewrite He; [done|].
    cbn [it_deref it_next getElement progress mbind outcome_bind fmap outcome_fmap NajaTransformerCollection].
    rewrite Hp. cbn. by rewrite IH. }
  split; [apply Hcount|apply Hrange].
Qed.
