(* ===== verification/NLID.v ===== *)
(** [NLID] (src/src/nl/netlist/core/NLID.h): the identifiers of the objects of
    the database, their order and the references to designs, design objects and
    net bits. [getString] is not modelled. *)
From S2P Require Import Prelude.
Local Open Scope Z_scope.

(** * Identifiers *)

(** [enum class Type : uint8_t], numbered from 1. *)
Inductive object_type := DB | Library | Design | Term | TermBit | Net | NetBit | Instance | InstTerm.
#[export] Instance object_type_eq_dec : EqDecision object_type.
Proof. solve_decision. Defined.
Definition type_value (t : object_type) : Z :=
  match t with
  | DB => 1 | Library => 2 | Design => 3 | Term => 4 | TermBit => 5
  | Net => 6 | NetBit => 7 | Instance => 8 | InstTerm => 9
  end.

(** [DBID] has 8 bits, [LibraryID] 16, [DesignID] and [DesignObjectID] 32;
    [Bit] is a signed 32-bit integer. *)
Record NLID := mkNLID {
  type_ : object_type;
  dbID_ : Z;
  libraryID_ : Z;
  designID_ : Z;
  designObjectID_ : Z;
  instanceID_ : Z;
  bit_ : Z }.
#[export] Instance NLID_eq_dec : EqDecision NLID.
Proof. solve_decision. Defined.

#[export] Instance object_type_countable : Countable object_type.
Proof.
  refine (inj_countable' type_value (fun z =>
    match z with
    | 1 => DB | 2 => Library | 3 => Design | 4 => Term | 5 => TermBit
    | 6 => Net | 7 => NetBit | 8 => Instance | _ => InstTerm
    end) _). by intros [].
Defined.
#[export] Instance NLID_countable : Countable NLID.
Proof.
  refine (inj_countable' (fun i => (type_ i, dbID_ i, libraryID_ i, designID_ i, designObjectID_ i, instanceID_ i, bit_ i))
    (fun '(t, a, b, c, d, e, f) => mkNLID t a b c d e f) _). by intros [].
Defined.

Definition nlid_db (dbID : Z) : NLID := mkNLID DB dbID 0 0 0 0 0.
Definition nlid_library (dbID libraryID : Z) : NLID := mkNLID Library dbID libraryID 0 0 0 0.
Definition nlid_design (dbID libraryID designID : Z) : NLID := mkNLID Design dbID libraryID designID 0 0 0.
Definition nlid_object (type : object_type) (dbID libraryID designID id instanceID bit : Z) : NLID :=
  mkNLID type dbID libraryID designID id instanceID bit.

(** ** Comparison *)

(** [std::tie] of the fields, and the comparisons of tuples. *)
Definition nlid_tie (i : NLID) : list Z :=
  [type_value (type_ i); dbID_ i; libraryID_ i; designID_ i; designObjectID_ i; instanceID_ i; bit_ i].
Definition tie_lt (l r : list Z) : bool := lex_lt Z.ltb l r.
Definition tie_eq (l r : list Z) : bool := bool_decide (l = r).

Definition nlid_lt (lid rid : NLID) : bool := tie_lt (nlid_tie lid) (nlid_tie rid).
Definition nlid_le (lid rid : NLID) : bool := negb (tie_lt (nlid_tie rid) (nlid_tie lid)).
Definition nlid_eq (lid rid : NLID) : bool := tie_eq (nlid_tie lid) (nlid_tie rid).
Definition nlid_ne (lid rid : NLID) : bool := negb (tie_eq (nlid_tie lid) (nlid_tie rid)).
Definition nlid_gt (lid rid : NLID) : bool := tie_lt (nlid_tie rid) (nlid_tie lid).
Definition nlid_ge (lid rid : NLID) : bool := negb (tie_lt (nlid_tie lid) (nlid_tie rid)).

(** [NLIDComp], on objects with a [getNLID]. *)
Definition comp_id_object {T} (getNLID : T -> NLID) (id : NLID) (obj : T) : bool := nlid_lt id (getNLID obj).
Definition comp_object_id {T} (getNLID : T -> NLID) (obj : T) (id : NLID) : bool := nlid_lt (getNLID obj) id.

(** * References *)

Record DBDesignReference := mkDBDesign { dr_library : Z; dr_design : Z }.
Definition db_design_eq (l r : DBDesignReference) : bool :=
  tie_eq [dr_library l; dr_design l] [dr_library r; dr_design r].

Record DesignReference := mkDesignRef { ref_db : Z; ref_library : Z; ref_design : Z }.
Definition design_reference_of (id : NLID) : DesignReference :=
  mkDesignRef (dbID_ id) (libraryID_ id) (designID_ id).
Definition getDBDesignReference (r : DesignReference) : DBDesignReference :=
  mkDBDesign (ref_library r) (ref_design r).
Definition design_reference_eq (l r : DesignReference) : bool :=
  tie_eq [ref_db l; ref_library l; ref_design l] [ref_db r; ref_library r; ref_design r].

Record DesignObjectReference := mkObjectRef {
  obj_db : Z; obj_library : Z; obj_design : Z; obj_object : Z }.
Definition object_reference_of (id : NLID) : DesignObjectReference :=
  mkObjectRef (dbID_ id) (libraryID_ id) (designID_ id) (designObjectID_ id).
Definition object_reference_in (r : DesignReference) (designObjectID : Z) : DesignObjectReference :=
  mkObjectRef (ref_db r) (ref_library r) (ref_design r) designObjectID.
Definition object_getDesignReference (r : DesignObjectReference) : DesignReference :=
  mkDesignRef (obj_db r) (obj_library r) (obj_design r).
Definition object_reference_eq (l r : DesignObjectReference) : bool :=
  tie_eq [obj_db l; obj_library l; obj_design l; obj_object l]
    [obj_db r; obj_library r; obj_design r; obj_object r].

Record BitNetReference := mkBitNet {
  isBusBit_ : bool; bn_db : Z; bn_library : Z; bn_design : Z; bn_object : Z; bn_bit : Z }.
Definition bitnet_default : BitNetReference := mkBitNet false 0 0 0 0 0.
Definition bitnet_scalar (r : DesignReference) (designObjectID : Z) : BitNetReference :=
  mkBitNet false (ref_db r) (ref_library r) (ref_design r) designObjectID 0.
Definition bitnet_bus_bit (r : DesignReference) (designObjectID bit : Z) : BitNetReference :=
  mkBitNet true (ref_db r) (ref_library r) (ref_design r) designObjectID bit.
Definition bitnet_getDesignReference (r : BitNetReference) : DesignReference :=
  mkDesignRef (bn_db r) (bn_library r) (bn_design r).
(** The right tuple ends in [lid.bit_], as in the source. *)
Definition bitnet_eq (lid rid : BitNetReference) : bool :=
  tie_eq
    [Z.b2z (isBusBit_ lid); bn_db lid; bn_library lid; bn_design lid; bn_object lid; bn_bit lid]
    [Z.b2z (isBusBit_ rid); bn_db rid; bn_library rid; bn_design rid; bn_object rid; bn_bit lid].

(** * The order *)

#[export] Instance Z_ltb_total : StrictTotal Z.ltb.
Proof.
  split.
  - apply Z.ltb_irrefl.
  - intros x y z. rewrite !Z.ltb_lt. lia.
  - intros x y. rewrite !Z.ltb_lt. lia.
Qed.

#[export] Instance nlid_tie_inj : Inj (=) (=) nlid_tie.
Proof. intros [[]] [[]]; intros [=]; subst; done. Qed.

Lemma nlid_eq_true a b : nlid_eq a b = true <-> a = b.
Proof. unfold nlid_eq, tie_eq. rewrite bool_decide_eq_true. split; [apply (inj nlid_tie)|by intros ->]. Qed.

#[export] Instance nlid_lt_total : StrictTotal nlid_lt.
Proof.
  unfold nlid_lt, tie_lt. split.
  - intros x. apply lt_irreflexive.
  - intros x y z. apply lt_transitive.
  - intros x y. destruct (lt_total (lt := lex_lt Z.ltb) (nlid_tie x) (nlid_tie y)) as [H|[H|H]];
      [by left| |by right; right]. right. left. by apply (inj nlid_tie).
Qed.

(** The six comparisons of identifiers are those of one strict total order:
    [==] is equality, exactly one of [<], [==] and [>] holds, [<=] and [>=] are
    the negations of [>] and [<], and [<] is transitive; so an identifier has one
    place in the intrusive sets sorted by it. *)
Theorem nlid_order a b c :
  (nlid_eq a b = true <-> a = b) /\
  (nlid_lt a b = true /\ nlid_eq a b = false /\ nlid_gt a b = false \/
   nlid_lt a b = false /\ nlid_eq a b = true /\ nlid_gt a b = false \/
   nlid_lt a b = false /\ nlid_eq a b = false /\ nlid_gt a b = true) /\
  nlid_ne a b = negb (nlid_eq a b) /\
  nlid_le a b = nlid_lt a b || nlid_eq a b /\
  nlid_ge a b = nlid_gt a b || nlid_eq a b /\
  (nlid_lt a b && nlid_lt b c = true -> nlid_lt a c = true).
Proof.
  split; [apply nlid_eq_true|].
  assert (nlid_gt a b = nlid_lt b a) as -> by done.
  assert (nlid_ne a b = negb (nlid_eq a b)) as -> by done.
  assert (nlid_le a b = negb (nlid_lt b a)) as -> by done.
  assert (nlid_ge a b = negb (nlid_lt a b)) as -> by done.
  assert (nlid_lt a b && nlid_lt b c = true -> nlid_lt a c = true) as Htr.
  { rewrite andb_true_iff. intros [? ?]. by apply (lt_transitive a b c). }
  destruct (lt_total (lt := nlid_lt) a b) as [H|[->|H]].
  - assert (nlid_eq a b = false) as ->.
    { apply not_true_iff_false. intros ->%nlid_eq_true. by rewrite lt_irreflexive in H. }
    rewrite H, (lt_asymmetric _ _ _ H). rewrite H in Htr. split_and!; naive_solver.
  - rewrite lt_irreflexive, (proj2 (nlid_eq_true b b) eq_refl). rewrite lt_irreflexive in Htr.
    split_and!; naive_solver.
  - assert (nlid_eq a b = false) as ->.
    { apply not_true_iff_false. intros ->%nlid_eq_true. by rewrite lt_irreflexive in H. }
    pose proof (lt_asymmetric _ _ _ H) as H'. rewrite H, H'. rewrite H' in Htr. split_and!; naive_solver.
Qed.

Lemma nlid_order_witness :
  let a := nlid_object Net 1 2 3 4 0 (-1) in
  let b := nlid_object Net 1 2 3 4 0 5 in
  nlid_lt a b = true /\ nlid_lt b (nlid_object Instance 1 2 3 0 0 0) = true /\
  nlid_lt a (nlid_object Instance 1 2 3 0 0 0) = true.
Proof.
  cbv zeta. split_and!; [reflexivity..|].
  apply (nlid_order (nlid_object Net 1 2 3 4 0 (-1)) (nlid_object Net 1 2 3 4 0 5)
    (nlid_object Instance 1 2 3 0 0 0)). reflexivity.
Defined.

(** The equality of net bits does not look at the right reference's bit: bits of
    one bus are all equal. *)
Lemma bitnet_eq_ignores_bit l r :
  bitnet_eq l r = true <->
    isBusBit_ l = isBusBit_ r /\ bn_db l = bn_db r /\ bn_library l = bn_library r /\
    bn_design l = bn_design r /\ bn_object l = bn_object r.
Proof.
  unfold bitnet_eq, tie_eq. rewrite bool_decide_eq_true. split.
  - intros [=]. split_and!; [|done..]. by destruct (isBusBit_ l), (isBusBit_ r).
  - intros (-> & -> & -> & -> & ->). done.
Qed.
