(* ===== verification/Geometry.v ===== *)
(** The physical netlist's geometry (src/src/nl/netlist/pnl): points, boxes,
    orientations and transforms. A coordinate is a [long int] of 64 bits; an
    overflow is undefined. *)
From S2P Require Import Prelude NLID.
Local Open Scope Z_scope.

(** * Coordinates *)

Definition unit_max : Z := 2 ^ 63 - 1.
Definition unit_min : Z := - 2 ^ 63.
Definition unit_fits (z : Z) : bool := (unit_min <=? z) && (z <=? unit_max).
(** The result of a signed operation. *)
Definition unit (z : Z) : outcome Z := if unit_fits z then Ret z else Undef.

(** * Points *)

Record PNLPoint := mkPoint { x_ : Z; y_ : Z }.
#[export] Instance PNLPoint_eq_dec : EqDecision PNLPoint.
Proof. solve_decision. Defined.

Definition point_eq (a b : PNLPoint) : bool := (x_ a =? x_ b) && (y_ a =? y_ b).
Definition point_lt (a b : PNLPoint) : bool := (x_ a <? x_ b) || ((x_ a =? x_ b) && (y_ a <? y_ b)).
Definition point_gt (a b : PNLPoint) : bool := (x_ b <? x_ a) || ((x_ a =? x_ b) && (y_ b <? y_ a)).

(** * Boxes *)

Record PNLBox := mkBox { left_ : Z; bottom_ : Z; right_ : Z; top_ : Z }.
Definition box_default : PNLBox := mkBox unit_max unit_max unit_min unit_min.
Definition box_point (left bottom : Z) : PNLBox := mkBox left bottom left bottom.
Definition getUpperRight (b : PNLBox) : PNLPoint := mkPoint (right_ b) (top_ b).
Definition getLowerLeft (b : PNLBox) : PNLPoint := mkPoint (left_ b) (bottom_ b).
Definition getWidth (b : PNLBox) : outcome Z := unit (right_ b - left_ b).
Definition getHalfWidth (b : PNLBox) : outcome Z := w ← getWidth b; Ret (Z.quot w 2).
Definition getHeight (b : PNLBox) : outcome Z := unit (top_ b - bottom_ b).
Definition getHalfHeight (b : PNLBox) : outcome Z := h ← getHeight b; Ret (Z.quot h 2).
Definition increase (b : PNLBox) (xLeft yBottom xRight yTop : Z) : outcome PNLBox :=
  l ← unit (left_ b - xLeft); bt ← unit (bottom_ b - yBottom);
  r ← unit (right_ b + xRight); t ← unit (top_ b + yTop); Ret (mkBox l bt r t).
Definition increase_by (b : PNLBox) (xDelta yDelta : Z) : outcome PNLBox :=
  increase b xDelta yDelta xDelta yDelta.

Definition box_eq (a b : PNLBox) : bool :=
  (left_ a =? left_ b) && (bottom_ a =? bottom_ b) && (right_ a =? right_ b) && (top_ a =? top_ b).
Definition box_lt (a b : PNLBox) : bool :=
  (left_ a <? left_ b) || ((left_ a =? left_ b) && (bottom_ a <? bottom_ b)) ||
  ((left_ a =? left_ b) && (bottom_ a =? bottom_ b) && (right_ a <? right_ b)) ||
  ((left_ a =? left_ b) && (bottom_ a =? bottom_ b) && (right_ a =? right_ b) && (top_ a <? top_ b)).
Definition box_gt (a b : PNLBox) : bool :=
  (left_ b <? left_ a) || ((left_ a =? left_ b) && (bottom_ b <? bottom_ a)) ||
  ((left_ a =? left_ b) && (bottom_ a =? bottom_ b) && (right_ b <? right_ a)) ||
  ((left_ a =? left_ b) && (bottom_ a =? bottom_ b) && (right_ a =? right_ b) && (top_ b <? top_ a)).

Definition merge (b other : PNLBox) : PNLBox :=
  mkBox (if left_ other <? left_ b then left_ other else left_ b)
    (if bottom_ other <? bottom_ b then bottom_ other else bottom_ b)
    (if right_ b <? right_ other then right_ other else right_ b)
    (if top_ b <? top_ other then top_ other else top_ b).
Definition isEmpty (b : PNLBox) : bool := (right_ b <? left_ b) && (top_ b <? bottom_ b).

(** * Orientations *)

Inductive orientation := R0 | R90 | R180 | R270 | MY | MYR90 | MX | MXR90.
#[export] Instance orientation_eq_dec : EqDecision orientation.
Proof. solve_decision. Defined.
Definition orientation_value (o : orientation) : nat :=
  match o with
  | R0 => 0 | R90 => 1 | R180 => 2 | R270 => 3 | MY => 4 | MYR90 => 5 | MX => 6 | MXR90 => 7
  end%nat.
Definition orientation_lt (a b : orientation) : bool := (orientation_value a <? orientation_value b)%nat.

(** * Transforms *)

(** The matrices and the table of products, indexed by the enumerators. *)
Definition A_table : list Z := [1; 0; -1; 0; -1; 0; 1; 0].
Definition B_table : list Z := [0; -1; 0; 1; 0; -1; 0; 1].
Definition C_table : list Z := [0; 1; 0; -1; 0; -1; 0; 1].
Definition D_table : list Z := [1; 0; -1; 0; 1; 0; -1; 0].
Definition DISCREMINENT : list Z := [1; 1; 1; 1; -1; -1; -1; -1].
Definition COMPOSE : list orientation :=
  [R0; R90; R180; R270; MX; MXR90; MY; MYR90;
   R90; R180; R270; R0; MXR90; MY; MYR90; MX;
   R180; R270; R0; R90; MY; MYR90; MX; MXR90;
   R270; R0; R90; R180; MYR90; MX; MXR90; MY;
   MX; MYR90; MY; MXR90; R0; R270; R180; R90;
   MXR90; MX; MYR90; MY; R90; R0; R270; R180;
   MY; MXR90; MX; MYR90; R180; R90; R0; R270;
   MYR90; MY; MXR90; MX; R270; R180; R90; R0].
Definition entry (table : list Z) (o : orientation) : Z := default 0 (table !! orientation_value o).
Definition compose (o o' : orientation) : orientation :=
  default R0 (COMPOSE !! (orientation_value o * 8 + orientation_value o')%nat).

Record PNLTransform := mkTransform { offset_ : PNLPoint; orientation_ : orientation }.
Definition transform_default : PNLTransform := mkTransform (mkPoint 0 0) R0.

(** [x * M + y * N + o], overflow checked at each operation. *)
Definition affine (m n : Z) (x y o : Z) : outcome Z :=
  a ← unit (x * m); b ← unit (y * n); s ← unit (a + b); unit (s + o).
Definition getX (t : PNLTransform) (x y : Z) : outcome Z :=
  affine (entry A_table (orientation_ t)) (entry B_table (orientation_ t)) x y (x_ (offset_ t)).
Definition getY (t : PNLTransform) (x y : Z) : outcome Z :=
  affine (entry C_table (orientation_ t)) (entry D_table (orientation_ t)) x y (y_ (offset_ t)).
Definition getTransform (t u : PNLTransform) : outcome PNLTransform :=
  let x := x_ (offset_ u) in
  let y := y_ (offset_ u) in
  ox ← affine (entry A_table (orientation_ t)) (entry B_table (orientation_ t)) x y (x_ (offset_ t));
  oy ← affine (entry C_table (orientation_ t)) (entry D_table (orientation_ t)) x y (y_ (offset_ t));
  Ret (mkTransform (mkPoint ox oy) (compose (orientation_ t) (orientation_ u))).
Definition getBox4 (t : PNLTransform) (x1 y1 x2 y2 : Z) : outcome PNLBox :=
  l ← getX t x1 y1; b ← getY t x1 y1; r ← getX t x2 y2; u ← getY t x2 y2; Ret (mkBox l b r u).
Definition getBox (t : PNLTransform) (b : PNLBox) : outcome PNLBox :=
  if isEmpty b then Ret b else getBox4 t (left_ b) (bottom_ b) (right_ b) (top_ b).

Definition transform_eq (a b : PNLTransform) : bool :=
  point_eq (offset_ a) (offset_ b) && bool_decide (orientation_ a = orientation_ b).
Definition transform_lt (a b : PNLTransform) : bool :=
  point_lt (offset_ a) (offset_ b) ||
  (point_eq (offset_ a) (offset_ b) && orientation_lt (orientation_ a) (orientation_ b)).
Definition transform_gt (a b : PNLTransform) : bool :=
  point_gt (offset_ a) (offset_ b) ||
  (point_eq (offset_ a) (offset_ b) && orientation_lt (orientation_ b) (orientation_ a)).

(** * The product of transforms *)

Definition is_mirror (o : orientation) : bool := (4 <=? orientation_value o)%nat.

(** The matrix [m n; p q] of an orientation. *)
Definition matrix (o : orientation) : Z * Z * Z * Z :=
  (entry A_table o, entry B_table o, entry C_table o, entry D_table o).
Definition matrix_mul (s t : Z * Z * Z * Z) : Z * Z * Z * Z :=
  let '(a, b, c, d) := s in let '(a', b', c', d') := t in
  (a * a' + b * c', a * b' + b * d', c * a' + d * c', c * b' + d * d').
Definition matrix_opp (s : Z * Z * Z * Z) : Z * Z * Z * Z :=
  let '(a, b, c, d) := s in (- a, - b, - c, - d).

(** The table is the product where the product is a rotation; where it is a
    mirror, it is the product turned by 180 degrees. *)
Lemma compose_matrix o o' :
  matrix (compose o o') =
    if Bool.eqb (is_mirror o) (is_mirror o') then matrix_mul (matrix o) (matrix o')
    else matrix_opp (matrix_mul (matrix o) (matrix o')).
Proof. destruct o, o'; reflexivity. Qed.

Lemma discriminant_spec o : default 0 (DISCREMINENT !! orientation_value o) =
  entry A_table o * entry D_table o - entry B_table o * entry C_table o.
Proof. destruct o; reflexivity. Qed.

(** Each row of a matrix has one entry, 1 or -1. *)
Definition row_ok (m n : Z) : Prop := (m = 0 /\ (n = 1 \/ n = -1)) \/ ((m = 1 \/ m = -1) /\ n = 0).
Lemma entries_ok o : row_ok (entry A_table o) (entry B_table o) /\ row_ok (entry C_table o) (entry D_table o).
Proof. destruct o; cbn; unfold row_ok; lia. Qed.

Lemma unit_small z : Z.abs z <= 2 ^ 62 -> unit z = Ret z.
Proof.
  intros H. unfold unit, unit_fits, unit_min, unit_max.
  rewrite (proj2 (Z.leb_le _ _)), (proj2 (Z.leb_le _ _)) by lia. done.
Qed.

Lemma affine_small m n x y o :
  row_ok m n -> Z.abs x <= 2 ^ 61 -> Z.abs y <= 2 ^ 61 -> Z.abs o <= 2 ^ 61 ->
  affine m n x y o = Ret (x * m + y * n + o).
Proof.
  intros Hr Hx Hy Ho. unfold affine.
  assert (Z.abs (x * m) <= 2 ^ 61 /\ Z.abs (y * n) <= 2 ^ 61 /\ Z.abs (x * m + y * n) <= 2 ^ 61) as (? & ? & ?)
    by (destruct Hr as [[-> [-> | ->]]|[[-> | ->] ->]]; lia).
  rewrite (unit_small (x * m)) by lia. cbn [mbind outcome_bind].
  rewrite (unit_small (y * n)) by lia. cbn [mbind outcome_bind].
  rewrite (unit_small (x * m + y * n)) by lia. cbn [mbind outcome_bind].
  apply unit_small. lia.
Qed.

Definition near (p : PNLPoint) (k : Z) : Prop := Z.abs (x_ p) <= 2 ^ k /\ Z.abs (y_ p) <= 2 ^ k.
Definition apply (t : PNLTransform) (p : PNLPoint) : outcome PNLPoint :=
  x ← getX t (x_ p) (y_ p); y ← getY t (x_ p) (y_ p); Ret (mkPoint x y).

Lemma apply_small t p :
  near (offset_ t) 61 -> near p 61 ->
  apply t p = Ret (mkPoint
    (x_ p * entry A_table (orientation_ t) + y_ p * entry B_table (orientation_ t) + x_ (offset_ t))
    (x_ p * entry C_table (orientation_ t) + y_ p * entry D_table (orientation_ t) + y_ (offset_ t))).
Proof.
  intros [? ?] [? ?]. destruct (entries_ok (orientation_ t)) as [Hab Hcd].
  unfold apply, getX, getY. rewrite (affine_small _ _ _ _ _ Hab) by done. cbn [mbind outcome_bind].
  by rewrite (affine_small _ _ _ _ _ Hcd).
Qed.

(** When both orientations turn, or both mirror, the product of two
    transforms does to a point what the second and then the first do, without
    overflow up to 2^59. *)
Theorem getTransform_composes t u p :
  is_mirror (orientation_ t) = is_mirror (orientation_ u) ->
  near (offset_ t) 59 -> near (offset_ u) 59 -> near p 59 ->
  exists v q r, getTransform t u = Ret v /\ apply u p = Ret q /\ apply t q = Ret r /\ apply v p = Ret r.
Proof.
  intros Hm Ht Hu Hp. destruct t as [[tx ty] ot], u as [[ux uy] ou], p as [x y].
  unfold near in *. cbn [offset_ orientation_ x_ y_] in *.
  destruct (entries_ok ot) as [Hab Hcd]. destruct (entries_ok ou) as [Hab' Hcd'].
  unfold getTransform. cbn [offset_ orientation_ x_ y_].
  rewrite (affine_small _ _ _ _ _ Hab), (affine_small _ _ _ _ _ Hcd) by lia. cbn [mbind outcome_bind].
  do 3 eexists. split; [done|]. rewrite apply_small by (unfold near; cbn; lia). split; [done|].
  cbn [offset_ orientation_ x_ y_].
  pose proof (compose_matrix ot ou) as Hc. rewrite Hm, eqb_reflx in Hc. unfold matrix, matrix_mul in Hc.
  injection Hc as HA HB HC HD. rewrite !apply_small; unfold near; cbn [offset_ orientation_ x_ y_].
  - split; [done|]. rewrite HA, HB, HC, HD. do 2 f_equal; ring.
  - destruct Hab as [[-> [-> | ->]]|[[-> | ->] ->]], Hcd as [[-> [-> | ->]]|[[-> | ->] ->]]; lia.
  - lia.
  - lia.
  - destruct Hab' as [[-> [-> | ->]]|[[-> | ->] ->]], Hcd' as [[-> [-> | ->]]|[[-> | ->] ->]]; lia.
Qed.

Lemma getTransform_composes_witness :
  let t := mkTransform (mkPoint 10 0) R90 in
  let u := mkTransform (mkPoint 0 5) R180 in
  exists v q r, getTransform t u = Ret v /\ apply u (mkPoint 1 2) = Ret q /\ apply t q = Ret r /\
    apply v (mkPoint 1 2) = Ret r.
Proof. cbv zeta. apply getTransform_composes; unfold near; cbn; (reflexivity || lia). Defined.

(** With one mirror, the product is turned by 180 degrees: [R0] times [MY] is
    [MX]. *)
Lemma getTransform_mirror_turned :
  let t := transform_default in
  let u := mkTransform (mkPoint 0 0) MY in
  getTransform t u = Ret (mkTransform (mkPoint 0 0) MX) /\
  apply u (mkPoint 1 2) = Ret (mkPoint (-1) 2) /\
  apply (mkTransform (mkPoint 0 0) MX) (mkPoint 1 2) = Ret (mkPoint 1 (-2)).
Proof. split_and!; reflexivity. Qed.

(** The corners of a turned box are not put in order, so the box counts as
    empty and is not turned back. *)
Lemma getBox_turned_empty :
  let t := mkTransform (mkPoint 0 0) R180 in
  let b := mkBox 1 1 3 2 in
  exists b', getBox t b = Ret b' /\ isEmpty b = false /\ isEmpty b' = true /\
    getBox t b' = Ret b' /\ b' <> b.
Proof. cbv zeta. eexists. split; [reflexivity|]. by split_and!. Qed.

(** * Merging boxes *)

(** [a] lies within [b]. *)
Definition within (a b : PNLBox) : Prop :=
  left_ b <= left_ a /\ bottom_ b <= bottom_ a /\ right_ a <= right_ b /\ top_ a <= top_ b.

(** The coordinates of [b] are values of the type. *)
Definition box_fits (b : PNLBox) : Prop :=
  Forall (fun z => unit_min <= z <= unit_max) [left_ b; bottom_ b; right_ b; top_ b].

(** [merge] gives the smallest box around both, and leaves a box merged into
    the default one as it is. *)
Theorem merge_smallest a b :
  within a (merge a b) /\ within b (merge a b) /\
  (forall c, within a c -> within b c -> within (merge a b) c) /\
  (box_fits b -> merge box_default b = b).
Proof.
  assert (within a (merge a b) /\ within b (merge a b) /\
    forall c, within a c -> within b c -> within (merge a b) c) as H.
  { unfold within, merge. cbn [left_ bottom_ right_ top_].
    destruct (Z.ltb_spec (left_ b) (left_ a)), (Z.ltb_spec (bottom_ b) (bottom_ a)),
      (Z.ltb_spec (right_ a) (right_ b)), (Z.ltb_spec (top_ a) (top_ b)); split_and!; lia. }
  destruct H as (? & ? & ?). split_and!; [done..|]. destruct b as [l bt r t]. unfold box_fits, merge, box_default.
  cbn [left_ bottom_ right_ top_]. rewrite !Forall_cons. intros Hb.
  destruct (Z.ltb_spec l unit_max), (Z.ltb_spec bt unit_max), (Z.ltb_spec unit_min r),
    (Z.ltb_spec unit_min t); f_equal; lia.
Qed.

Lemma merge_smallest_witness :
  within (mkBox 0 0 2 1) (merge (mkBox 0 0 2 1) (mkBox 1 (-1) 3 1)) /\
  merge box_default (mkBox 0 0 2 1) = mkBox 0 0 2 1.
Proof.
  split; [apply merge_smallest|]. apply (merge_smallest (mkBox 0 0 0 0) (mkBox 0 0 2 1)).
  unfold box_fits, unit_min, unit_max. cbn. repeat constructor; lia.
Defined.

(** * Orders *)

Lemma lex_lt_Z x y l k :
  lex_lt Z.ltb (x :: l) (y :: k) = (x <? y) || ((x =? y) && lex_lt Z.ltb l k).
Proof.
  cbn. destruct (Z.ltb_spec x y), (Z.eqb_spec x y), (Z.ltb_spec y x); cbn; try lia; done.
Qed.

Definition box_key (b : PNLBox) : list Z := [left_ b; bottom_ b; right_ b; top_ b].
Definition transform_key (t : PNLTransform) : list Z :=
  [x_ (offset_ t); y_ (offset_ t); Z.of_nat (orientation_value (orientation_ t))].

Lemma orientation_value_inj o o' : orientation_value o = orientation_value o' -> o = o'.
Proof. by destruct o, o'. Qed.

Lemma box_lt_key a b : box_lt a b = lex_lt Z.ltb (box_key a) (box_key b) /\
  box_gt a b = lex_lt Z.ltb (box_key b) (box_key a).
Proof.
  unfold box_key, box_lt, box_gt. rewrite !lex_lt_Z.
  rewrite (Z.eqb_sym (left_ b)), (Z.eqb_sym (bottom_ b)), (Z.eqb_sym (right_ b)).
  cbn [lex_lt]. rewrite !(andb_false_r (top_ _ =? top_ _)). split; btauto.
Qed.

Lemma transform_lt_key a b : transform_lt a b = lex_lt Z.ltb (transform_key a) (transform_key b) /\
  transform_gt a b = lex_lt Z.ltb (transform_key b) (transform_key a).
Proof.
  unfold transform_key, transform_lt, transform_gt, point_lt, point_gt, point_eq, orientation_lt.
  rewrite !lex_lt_Z, (Z.eqb_sym (x_ (offset_ b))), (Z.eqb_sym (y_ (offset_ b))).
  cbn [lex_lt]. rewrite !andb_false_r, !orb_false_r.
  assert (forall n m : nat, (Z.of_nat n <? Z.of_nat m) = (n <? m)%nat) as Hof.
  { intros n m. destruct (Z.ltb_spec (Z.of_nat n) (Z.of_nat m)), (Nat.ltb_spec n m); lia. }
  rewrite !Hof. split; btauto.
Qed.

(** The comparisons of transforms and of boxes: [<] is a strict total order,
    [>] its converse, and [==] is equality. *)
Theorem geometry_orders (a b c : PNLTransform) (d e f : PNLBox) :
  (transform_lt a a = false /\ transform_gt a b = transform_lt b a /\
   (transform_lt a b && transform_lt b c = true -> transform_lt a c = true) /\
   (transform_eq a b = true <-> a = b) /\
   (transform_lt a b = true \/ transform_eq a b = true \/ transform_gt a b = true)) /\
  (box_lt d d = false /\ box_gt d e = box_lt e d /\
   (box_lt d e && box_lt e f = true -> box_lt d f = true) /\
   (box_eq d e = true <-> d = e) /\
   (box_lt d e = true \/ box_eq d e = true \/ box_gt d e = true)).
Proof.
  assert (transform_eq a b = true <-> a = b) as Ht.
  { unfold transform_eq, point_eq. guards. destruct a as [[]], b as [[]]; cbn. naive_solver. }
  assert (box_eq d e = true <-> d = e) as Hb.
  { unfold box_eq. guards. destruct d, e; cbn. naive_solver. }
  rewrite Ht, Hb. rewrite !(proj1 (transform_lt_key _ _)), !(proj2 (transform_lt_key _ _)).
  rewrite !(proj1 (box_lt_key _ _)), !(proj2 (box_lt_key _ _)).
  rewrite !andb_true_iff. split_and!; try apply lt_irreflexive; try done.
  - intros [? ?]. by eapply (lt_transitive (lt := lex_lt Z.ltb)).
  - destruct (lt_total (lt := lex_lt Z.ltb) (transform_key a) (transform_key b)) as [|[Hk|]]; auto.
    right. left. destruct a as [[] o], b as [[] o']. injection Hk as -> -> Ho.
    by rewrite (orientation_value_inj o o') by lia.
  - intros [? ?]. by eapply (lt_transitive (lt := lex_lt Z.ltb)).
  - destruct (lt_total (lt := lex_lt Z.ltb) (box_key d) (box_key e)) as [|[Hk|]]; auto.
    right. left. destruct d, e. by injection Hk as -> -> -> ->.
Qed.

Lemma geometry_orders_witness :
  transform_lt (mkTransform (mkPoint 0 0) MX) (mkTransform (mkPoint 1 0) R90) = true.
Proof.
  apply (geometry_orders (mkTransform (mkPoint 0 0) MX) (mkTransform (mkPoint 0 5) R0)
    (mkTransform (mkPoint 1 0) R90) box_default box_default box_default). reflexivity.
Defined.
