(* ===== verification/Store.v ===== *)
(** Programs over a mutable store that can throw, with their weakest
    preconditions, and the two containers the netlist keeps its objects in: the
    intrusive set ordered by identifier and the map from names to identifiers. *)
From stdpp Require Import sorting.
From S2P Require Import Prelude.
Local Open Scope Z_scope.

(** * Programs *)

(** A run gives an outcome and the store it leaves, also when it throws. *)
Definition prog (S A : Type) : Type := S -> outcome A * S.

#[export] Instance prog_ret S : MRet (prog S) := fun A a s => (Ret a, s).
#[export] Instance prog_bind S : MBind (prog S) := fun A B f m s =>
  match m s with
  | (Ret a, s') => f a s'
  | (Throw e, s') => (Throw e, s')
  | (Undef, s') => (Undef, s')
  end.

Definition gets {S A} (f : S -> A) : prog S A := fun s => (Ret (f s), s).
Definition modify {S} (f : S -> S) : prog S unit := fun s => (Ret tt, f s).
Definition throw {S A} (reason : string) : prog S A := fun s => (Throw reason, s).
Definition undef {S A} : prog S A := fun s => (Undef, s).
Definition check {S} (c : bool) (reason : string) : prog S unit :=
  if c then mret tt else throw reason.
(** Reading through a pointer: a pointer to no object is undefined behaviour. *)
Definition deref {S A} (f : S -> option A) : prog S A := fun s =>
  (match f s with Some a => Ret a | None => Undef end, s).
(** [for (auto x: l) body(x)] over elements collected beforehand. *)
Fixpoint for_each {S A} (body : A -> prog S unit) (l : list A) : prog S unit :=
  match l with
  | [] => mret tt
  | x :: l => body x ≫= fun _ => for_each body l
  end.

(** * Weakest preconditions *)

(** From [s], [m] is defined; it returns with [Q] or throws with [E]. *)
Definition wp {S A} (m : prog S A) (s : S) (Q : A -> S -> Prop) (E : string -> S -> Prop) : Prop :=
  match m s with
  | (Ret a, s') => Q a s'
  | (Throw e, s') => E e s'
  | (Undef, _) => False
  end.

Section wp.
Context {S A B : Type}.
Implicit Types (m : prog S A) (f : A -> prog S B) (s : S).

Lemma wp_bind m f s Q E :
  wp (m ≫= f) s Q E <-> wp m s (fun a s' => wp (f a) s' Q E) E.
Proof. unfold wp, mbind, prog_bind. by destruct (m s) as [[a|e|] s']. Qed.

Lemma wp_ret (a : A) s Q E : wp (mret a) s Q E <-> Q a s.
Proof. done. Qed.

Lemma wp_gets (g : S -> A) s Q E : wp (gets g) s Q E <-> Q (g s) s.
Proof. done. Qed.

Lemma wp_modify (g : S -> S) s Q E : wp (modify g) s Q E <-> Q tt (g s).
Proof. done. Qed.

Lemma wp_throw e s (Q : A -> S -> Prop) E : wp (throw e) s Q E <-> E e s.
Proof. done. Qed.

Lemma wp_check c e s Q (E : string -> S -> Prop) :
  (c = true -> Q tt s) -> (c = false -> E e s) -> wp (check c e) s Q E.
Proof. destruct c; cbn; auto. Qed.

Lemma wp_deref (g : S -> option A) s Q E a : g s = Some a -> Q a s -> wp (deref g) s Q E.
Proof. unfold wp, deref. by intros ->. Qed.

Lemma wp_mono m s Q Q' (E E' : string -> S -> Prop) :
  wp m s Q E -> (forall a s', Q a s' -> Q' a s') -> (forall e s', E e s' -> E' e s') ->
  wp m s Q' E'.
Proof. unfold wp. destruct (m s) as [[a|e|] s']; eauto. Qed.
End wp.

(** Running a program for its effect, and what is known of the end of it. *)
Definition ignore {S A} (m : prog S A) : prog S unit := m ≫= fun _ => mret tt.
Lemma wp_ignore {S A} (m : prog S A) s Q (P : S -> Prop) E :
  wp m s Q E -> (forall a s', Q a s' -> P s') -> wp (ignore m) s (fun _ s' => P s') E.
Proof. intros H HP. unfold ignore. rewrite wp_bind. apply (wp_mono _ _ _ _ _ _ H); [|done]. intros a s' Ha. rewrite wp_ret. by eapply HP. Qed.
Lemma wp_just {S A} (m : prog S A) s Q (P : S -> Prop) (E E' : string -> S -> Prop) :
  wp m s Q E -> (forall a s', Q a s' -> P s') -> (forall e s', E e s' -> E' e s') -> wp m s (fun _ s' => P s') E'.
Proof. intros H HP HE. apply (wp_mono _ _ _ _ _ _ H); eauto. Qed.

(** A loop whose invariant [I] speaks of the elements visited so far. *)
Lemma wp_for_each {S A} (body : A -> prog S unit) (I : list A -> S -> Prop) l s (E : string -> S -> Prop) :
  I [] s ->
  (forall visited x rest s', l = visited ++ x :: rest -> I visited s' ->
     wp (body x) s' (fun _ s'' => I (visited ++ [x]) s'') E) ->
  wp (for_each body l) s (fun _ s' => I l s') E.
Proof.
  intros H0 Hstep.
  enough (Hgen : forall rest visited s', l = visited ++ rest -> I visited s' ->
    wp (for_each body rest) s' (fun _ s'' => I l s'') E) by exact (Hgen l [] s eq_refl H0).
  induction rest as [|x rest IH]; intros visited s' Hl HI; cbn.
  - rewrite app_nil_r in Hl. by subst.
  - rewrite wp_bind. eapply wp_mono; [exact (Hstep visited x rest s' Hl HI)| |done].
    cbn. intros [] s'' HI''. apply (IH (visited ++ [x])); [|done]. by rewrite <- app_assoc.
Qed.

(** Reads through a pointer whose object is known. *)
Ltac wp_read H := rewrite ?wp_bind; eapply wp_deref; [exact H|].

(** A pointer that is null. *)
Definition is_none {A} (o : option A) : bool := match o with Some _ => false | None => true end.
Lemma is_none_true {A} (o : option A) : is_none o = true <-> o = None.
Proof. destruct o; naive_solver. Qed.

(** * Intrusive sets *)

(** [boost::intrusive::set] keyed by the identifier of its elements. [insert]
    leaves the set alone when an element with the key is in it, [erase] takes
    the key of its argument. *)
Section intrusive.
Context {L : Type}.
Implicit Types (m : gmap Z L).

Definition set_insert (k : Z) (l : L) m : gmap Z L :=
  match m !! k with Some _ => m | None => <[k:=l]> m end.

(** The key of [*rbegin()]. *)
Definition last_key m : option Z :=
  map_fold (fun k _ acc => match acc with Some j => Some (Z.max k j) | None => Some k end) None m.

(** [rbegin()->id_ + 1] in an unsigned type of [w] bits, 0 in an empty set. *)
Definition next_id (w : Z) m : Z :=
  match last_key m with Some k => (k + 1) mod 2 ^ w | None => 0 end.

(** No identifier that the next one would wrap around at is in use. *)
Definition room (w : Z) m : Prop := forall k l, m !! k = Some l -> k < 2 ^ w - 1.

(** In order of identifiers. *)
Definition key_le (a b : Z * L) : Prop := a.1 <= b.1.
#[local] Instance key_le_dec a b : Decision (key_le a b) := decide (a.1 <= b.1).
Definition in_order m : list L := snd <$> merge_sort key_le (map_to_list m).

Lemma last_key_spec m :
  match last_key m with
  | None => m = ∅
  | Some k => (exists l, m !! k = Some l) /\ forall j l, m !! j = Some l -> j <= k
  end.
Proof.
  unfold last_key. apply (map_fold_weak_ind (fun o m => match o with None => m = ∅
    | Some k => (exists l, m !! k = Some l) /\ forall j l, m !! j = Some l -> j <= k end)); [done|].
  intros i x m' [k|] Hi.
  - intros [[l Hl] Hmax]. split.
    + destruct (Z.max_spec i k) as [[_ ->]|[_ ->]].
      * exists l. by rewrite lookup_insert_ne by naive_solver.
      * exists x. apply lookup_insert_eq.
    + intros j y [[-> _]|[_ Hj]]%lookup_insert_Some; [lia|]. specialize (Hmax j y Hj). lia.
  - intros ->. split; [exists x; apply lookup_insert_eq|].
    intros j y [[-> _]|[_ Hj]]%lookup_insert_Some; [lia|]. by rewrite lookup_empty in Hj.
Qed.

(** The next identifier is free as long as it does not wrap around. *)
Lemma next_id_fresh w m :
  (forall k l, m !! k = Some l -> 0 <= k < 2 ^ w - 1) -> 0 < w ->
  m !! next_id w m = None /\ 0 <= next_id w m < 2 ^ w /\
  forall k l, m !! k = Some l -> k < next_id w m.
Proof.
  intros Hb Hw. unfold next_id. pose proof (last_key_spec m) as H.
  destruct (last_key m) as [k|].
  - destruct H as [[l Hl] Hmax]. specialize (Hb k l Hl). rewrite Z.mod_small by lia.
    split_and!; [|lia|lia|].
    + destruct (m !! (k + 1)) as [y|] eqn:Hy; [|done]. specialize (Hmax _ _ Hy). lia.
    + intros j y Hj. specialize (Hmax _ _ Hj). lia.
  - subst m. split_and!; [done|lia|apply Z.pow_pos_nonneg; lia|]. intros k l Hk. by rewrite lookup_empty in Hk.
Qed.

Lemma room_bound w m :
  (forall k l, m !! k = Some l -> 0 <= k) -> room w m -> forall k l, m !! k = Some l -> 0 <= k < 2 ^ w - 1.
Proof. intros H0 H k l Hk. split; [by eapply H0|by eapply H]. Qed.

Lemma NoDup_in_order m :
  (forall k k' l, m !! k = Some l -> m !! k' = Some l -> k = k') -> NoDup (in_order m).
Proof.
  intros H. unfold in_order. apply NoDup_fmap_2_strong.
  - intros [k x] [k' x']. rewrite !(merge_sort_Permutation key_le (map_to_list m)), !elem_of_map_to_list.
    cbn. intros Hx Hx' ->. by rewrite (H _ _ _ Hx Hx').
  - rewrite (merge_sort_Permutation key_le (map_to_list m)). apply NoDup_map_to_list.
Qed.

Lemma elem_of_in_order m l : l ∈ in_order m <-> exists k, m !! k = Some l.
Proof.
  unfold in_order. rewrite list_elem_of_fmap. split.
  - intros ([k x] & -> & Hx). exists k. rewrite (merge_sort_Permutation key_le (map_to_list m)) in Hx.
    by apply elem_of_map_to_list.
  - intros [k Hk]. exists (k, l). split; [done|]. rewrite (merge_sort_Permutation key_le (map_to_list m)).
    by apply elem_of_map_to_list.
Qed.
End intrusive.

(** A set kept in the order [lt] of its keys, [in_order_by], and its [insert]. *)
Section ordered.
Context {K L : Type} `{Countable K} (lt : K -> K -> bool).
Implicit Types (m : gmap K L).

Definition ordered_insert (k : K) (l : L) (m : gmap K L) : gmap K L :=
  match m !! k with Some _ => m | None => <[k:=l]> m end.

Definition not_after (a b : K * L) : Prop := lt b.1 a.1 = false.
#[local] Instance not_after_dec a b : Decision (not_after a b) := decide (lt b.1 a.1 = false).
Definition in_order_by (m : gmap K L) : list L := snd <$> merge_sort not_after (map_to_list m).

Lemma elem_of_in_order_by m l : l ∈ in_order_by m <-> exists k, m !! k = Some l.
Proof.
  unfold in_order_by. rewrite list_elem_of_fmap. split.
  - intros ([k x] & -> & Hx). exists k. rewrite (merge_sort_Permutation not_after (map_to_list m)) in Hx.
    by apply elem_of_map_to_list.
  - intros [k Hk]. exists (k, l). split; [done|]. rewrite (merge_sort_Permutation not_after (map_to_list m)).
    by apply elem_of_map_to_list.
Qed.

Lemma NoDup_in_order_by m :
  (forall k k' l, m !! k = Some l -> m !! k' = Some l -> k = k') -> NoDup (in_order_by m).
Proof.
  intros Hinj. unfold in_order_by. apply NoDup_fmap_2_strong.
  - intros [k x] [k' x']. rewrite !(merge_sort_Permutation not_after (map_to_list m)), !elem_of_map_to_list.
    cbn. intros Hx Hx' ->. by rewrite (Hinj _ _ _ Hx Hx').
  - rewrite (merge_sort_Permutation not_after (map_to_list m)). apply NoDup_map_to_list.
Qed.
End ordered.

(** * Registries *)

(** The pair every owner keeps per kind of object: the intrusive set and the
    map from names to identifiers. A name is the number of an [NLName], 0 for
    the empty name. *)
Section registry.
Context {L : Type}.

Record registry := mkRegistry { objects : gmap Z L; nameIDs : gmap Z Z }.
Definition empty_registry : registry := mkRegistry ∅ ∅.

Definition is_empty_name (n : Z) : bool := n =? 0.

Lemma name_free {A} n (o : option A) : is_empty_name n || is_none o = true -> n <> 0 -> o = None.
Proof. unfold is_empty_name. rewrite orb_true_iff, is_none_true, Z.eqb_eq. naive_solver. Qed.

Definition add_object (id name : Z) (l : L) (r : registry) : registry :=
  mkRegistry (set_insert id l (objects r))
    (if is_empty_name name then nameIDs r else <[name:=id]> (nameIDs r)).

Definition remove_object (id name : Z) (r : registry) : registry :=
  mkRegistry (delete id (objects r)) (if is_empty_name name then nameIDs r else delete name (nameIDs r)).

(** [OWNER_RENAME]: a named object's node is extracted and put back under the
    new name; the node must be there. *)
Definition rename_object (id name previous : Z) (r : registry) : option registry :=
  if is_empty_name previous then
    Some (if is_empty_name name then r else mkRegistry (objects r) (<[name:=id]> (nameIDs r)))
  else match nameIDs r !! previous with
  | None => None
  | Some node =>
      let rest := delete previous (nameIDs r) in
      Some (mkRegistry (objects r)
        (if is_empty_name name then rest
         else match rest !! name with Some _ => rest | None => <[name:=node]> rest end))
  end.

Definition find_by_id (id : Z) (r : registry) : option L := objects r !! id.
Definition find_by_name (name : Z) (r : registry) : option L :=
  match nameIDs r !! name with Some id => find_by_id id r | None => None end.

(** [r] holds exactly the objects [owned l id name], with identifiers of [w]
    bits, and finds them by name. *)
Record represents (w : Z) (owned : L -> Z -> Z -> Prop) (r : registry) : Prop := {
  rep_objects k l : objects r !! k = Some l <-> exists n, owned l k n;
  rep_names n k : nameIDs r !! n = Some k <-> n <> 0 /\ exists l, owned l k n;
  rep_bound l k n : owned l k n -> 0 <= k < 2 ^ w;
  rep_unique l k n k' n' : owned l k n -> owned l k' n' -> k = k' /\ n = n' }.

Lemma represents_ext w P Q r :
  (forall l k n, P l k n <-> Q l k n) -> represents w P r -> represents w Q r.
Proof.
  intros H [Ho Hn Hb Hu]. split; intros *.
  - rewrite Ho. by setoid_rewrite H.
  - rewrite Hn. by setoid_rewrite H.
  - rewrite <- H. apply Hb.
  - rewrite <- !H. apply Hu.
Qed.

Lemma represents_empty w (P : L -> Z -> Z -> Prop) :
  (forall l k n, ~ P l k n) -> represents w P empty_registry.
Proof.
  intros H. split; intros *; cbn; rewrite ?lookup_empty; try (by split; [done|naive_solver]);
    intros Hp; by destruct (H _ _ _ Hp).
Qed.

Section rep.
Context {w : Z} {owned : L -> Z -> Z -> Prop} {r : registry} (R : represents w owned r).

Lemma rep_owner_unique k l l' n n' : owned l k n -> owned l' k n' -> l = l' /\ n = n'.
Proof.
  intros H H'. assert (objects r !! k = Some l) as Hl by (apply (rep_objects _ _ _ R); eauto).
  assert (objects r !! k = Some l') as Hl' by (apply (rep_objects _ _ _ R); eauto).
  rewrite Hl in Hl'. injection Hl' as ->. split; [done|]. exact (proj2 (rep_unique _ _ _ R _ _ _ _ _ H H')).
Qed.

Lemma find_by_id_spec k l : find_by_id k r = Some l <-> exists n, owned l k n.
Proof. exact (rep_objects _ _ _ R k l). Qed.

Lemma find_by_name_spec n l : n <> 0 -> find_by_name n r = Some l <-> exists k, owned l k n.
Proof.
  intros Hn. unfold find_by_name, find_by_id. split.
  - destruct (nameIDs r !! n) as [k|] eqn:E; [|done]. intros [m Hm]%(rep_objects _ _ _ R).
    apply (rep_names _ _ _ R) in E as [_ [l' H']].
    destruct (rep_owner_unique k l l' m n Hm H') as [-> ->]. eauto.
  - intros [k H]. rewrite (proj2 (rep_names _ _ _ R n k)) by eauto. apply (rep_objects _ _ _ R). eauto.
Qed.

Lemma find_by_name_None n : n <> 0 -> find_by_name n r = None -> forall l k, ~ owned l k n.
Proof.
  intros Hn H l k Hk. assert (find_by_name n r = Some l) by (apply find_by_name_spec; eauto). congruence.
Qed.

Lemma find_by_id_None k : find_by_id k r = None -> forall l n, ~ owned l k n.
Proof. intros H l n Hk. assert (find_by_id k r = Some l) by (apply find_by_id_spec; eauto). congruence. Qed.

(** A new object with a free identifier and a free or empty name. *)
Lemma represents_add owned' id name l :
  0 <= id < 2 ^ w -> find_by_id id r = None -> (name <> 0 -> find_by_name name r = None) ->
  (forall k n, ~ owned l k n) ->
  (forall x k n, owned' x k n <-> owned x k n \/ (x = l /\ k = id /\ n = name)) ->
  represents w owned' (add_object id name l r).
Proof.
  intros Hid Hfree Hname Hnew Hp. unfold find_by_id in Hfree. split; intros *; cbn.
  - unfold set_insert. rewrite Hfree, lookup_insert_Some, (rep_objects _ _ _ R). setoid_rewrite Hp.
    split; [naive_solver|]. intros [m [H|(-> & -> & ->)]]; [right|by left].
    split; [|eauto]. intros ->. destruct (find_by_id_None _ Hfree l0 m H).
  - setoid_rewrite Hp. unfold is_empty_name. destruct (Z.eqb_spec name 0) as [->|Hz].
    + rewrite (rep_names _ _ _ R). naive_solver.
    + rewrite lookup_insert_Some, (rep_names _ _ _ R). split; [naive_solver|].
      intros [Hn0 [x [H|(-> & -> & ->)]]]; [|by left]. right. split; [|by eauto].
      intros ->. by destruct (find_by_name_None _ Hn0 (Hname Hn0) x k).
  - rewrite Hp. intros [H|(-> & -> & ->)]; [exact (rep_bound _ _ _ R _ _ _ H)|done].
  - rewrite !Hp. intros [H|(Hx & -> & ->)] [H'|(Hx' & -> & ->)]; subst; try done.
    + exact (rep_unique _ _ _ R _ _ _ _ _ H H').
    + by destruct (Hnew k n).
    + by destruct (Hnew k' n').
Qed.

Lemma represents_remove owned' id name l :
  owned l id name ->
  (forall x k n, owned' x k n <-> owned x k n /\ x <> l) ->
  represents w owned' (remove_object id name r).
Proof.
  intros Hl Hp. split; intros *; cbn.
  - rewrite lookup_delete_Some, (rep_objects _ _ _ R). setoid_rewrite Hp. split.
    + intros [Hne [m Hm]]. exists m. split; [done|]. intros ->.
      by destruct (rep_unique _ _ _ R _ _ _ _ _ Hl Hm).
    + intros [m [Hm Hne]]. split; [|eauto]. intros ->. by destruct (rep_owner_unique _ _ _ _ _ Hl Hm) as [-> _].
  - setoid_rewrite Hp. unfold is_empty_name. destruct (Z.eqb_spec name 0) as [->|Hz].
    + rewrite (rep_names _ _ _ R). split; [|naive_solver]. intros [Hn [x Hx]]. split; [done|].
      exists x. split; [done|]. intros ->. by destruct (rep_unique _ _ _ R _ _ _ _ _ Hl Hx) as [_ <-].
    + rewrite lookup_delete_Some, (rep_names _ _ _ R). split.
      * intros [Hne [Hn [x Hx]]]. split; [done|]. exists x. split; [done|]. intros ->.
        by destruct (rep_unique _ _ _ R _ _ _ _ _ Hl Hx).
      * intros [Hn [x [Hx Hne]]]. split; [|eauto]. intros ->.
        assert (find_by_name n r = Some l) as E1 by (apply find_by_name_spec; eauto).
        assert (find_by_name n r = Some x) as E2 by (apply find_by_name_spec; eauto). congruence.
  - rewrite Hp. intros [H _]. exact (rep_bound _ _ _ R _ _ _ H).
  - rewrite !Hp. intros [H _] [H' _]. exact (rep_unique _ _ _ R _ _ _ _ _ H H').
Qed.

Lemma represents_rename owned' id name previous l :
  owned l id previous -> name <> previous -> (name <> 0 -> find_by_name name r = None) ->
  (forall x k n, owned' x k n <-> (owned x k n /\ x <> l) \/ (x = l /\ k = id /\ n = name)) ->
  exists r', rename_object id name previous r = Some r' /\ represents w owned' r'.
Proof.
  intros Hl Hne Hname Hp.
  assert (Hsep : forall x k n, owned x k n -> n <> 0 -> n <> name).
  { intros x k n Hx Hn ->. by destruct (find_by_name_None _ Hn (Hname Hn) x k). }
  assert (Hsame : forall x k, owned x k previous -> previous <> 0 -> x = l).
  { intros x k Hx Hn.
    assert (find_by_name previous r = Some l) as E1 by (apply find_by_name_spec; eauto).
    assert (find_by_name previous r = Some x) as E2 by (apply find_by_name_spec; eauto). congruence. }
  assert (Hmain : forall m, (forall n k, m !! n = Some k <->
      n <> 0 /\ ((n = name /\ k = id) \/ (n <> previous /\ nameIDs r !! n = Some k))) ->
      represents w owned' (mkRegistry (objects r) m)).
  { intros m Hm. split; intros *; cbn.
    - rewrite (rep_objects _ _ _ R). setoid_rewrite Hp. split.
      + intros [m' Hm']. destruct (decide (k = id)) as [->|Hk].
        * destruct (rep_owner_unique _ _ _ _ _ Hl Hm') as [-> _]. eauto.
        * exists m'. left. split; [done|]. intros ->. by destruct (rep_unique _ _ _ R _ _ _ _ _ Hl Hm').
      + intros [m' [[? _]|(-> & -> & ->)]]; eauto.
    - rewrite Hm, (rep_names _ _ _ R). setoid_rewrite Hp. split.
      + intros [Hn [[-> ->]|(Hnp & _ & x & Hx)]]; (split; [done|]); [eauto|].
        exists x. left. split; [done|]. intros ->. by destruct (rep_unique _ _ _ R _ _ _ _ _ Hl Hx) as [_ <-].
      + intros [Hn [x [[Hx Hxl]|(-> & -> & ->)]]]; (split; [done|]); [|by left].
        right. split; [|eauto]. intros ->. apply Hxl. by eapply Hsame.
    - rewrite Hp. intros [[H _]|(-> & -> & ->)]; [exact (rep_bound _ _ _ R _ _ _ H)|exact (rep_bound _ _ _ R _ _ _ Hl)].
    - rewrite !Hp. intros [[H ?]|(Hx & -> & ->)] [[H' ?]|(Hx' & -> & ->)]; subst; try done.
      exact (rep_unique _ _ _ R _ _ _ _ _ H H'). }
  assert (Hnames : forall n k, nameIDs r !! n = Some k -> n <> 0 /\ n <> name).
  { intros n k [Hn [x Hx]]%(rep_names _ _ _ R). split; [done|]. by eapply Hsep. }
  unfold rename_object, is_empty_name. destruct (Z.eqb_spec previous 0) as [->|Hprev].
  - destruct (Z.eqb_spec name 0) as [->|Hz]; [done|]. eexists. split; [done|]. apply Hmain.
    intros n k. rewrite lookup_insert_Some. split.
    + intros [[<- <-]|[_ H]]; [by auto|]. pose proof (Hnames _ _ H). naive_solver.
    + intros [Hn [[-> ->]|[_ H]]]; [by left|]. right. pose proof (Hnames _ _ H). naive_solver.
  - assert (nameIDs r !! previous = Some id) as -> by (apply (rep_names _ _ _ R); eauto).
    eexists. split; [done|]. apply Hmain. intros n k.
    destruct (Z.eqb_spec name 0) as [->|Hz].
    + rewrite lookup_delete_Some. split; [|naive_solver]. intros [? H].
      pose proof (Hnames _ _ H). naive_solver.
    + rewrite lookup_delete_ne by done. destruct (nameIDs r !! name) as [j|] eqn:E.
      { by destruct (Hnames _ _ E). }
      rewrite lookup_insert_Some, lookup_delete_Some. split.
      * intros [[<- <-]|[? [? H]]]; [by auto|]. pose proof (Hnames _ _ H). naive_solver.
      * intros [Hn [[-> ->]|[? H]]]; [by left|]. right. pose proof (Hnames _ _ H). naive_solver.
Qed.
End rep.
End registry.
Arguments registry : clear implicits.
