(* ===== verification/Names.v ===== *)
(** Interned names: the name table of the universe
    ([NLUniverse::getOrCreateNameID], [NLUniverse::getNameString]) and [NLName]
    (nl/netlist/core/NLName.cpp). *)
From S2P Require Import Prelude Store.
Local Open Scope Z_scope.

(** * The table and its operations *)

Record NameTable := mkNames { names : list string; nameToId : gmap string Z }.

(** [NLUniverse::postCreate] enters the empty string under 0. *)
Definition names_create : NameTable := mkNames [EmptyString] {[EmptyString := 0]}.

(** [std::numeric_limits<NLName::ID>::max()] *)
Definition id_max : Z := 2 ^ 32 - 1.

Definition getOrCreateNameID (name : string) : prog NameTable Z := fun t =>
  if bool_decide (name = EmptyString) then (Ret 0, t)
  else match nameToId t !! name with
  | Some id => (Ret id, t)
  | None =>
      if id_max <=? Z.of_nat (length (names t)) then (Throw "NLUniverse name table overflow", t)
      else
        let id := Z.of_nat (length (names t)) mod 2 ^ 32 in
        (Ret id, mkNames (names t ++ [name]) (<[name:=id]> (nameToId t)))
  end.

Definition getNameString (t : NameTable) (id : Z) : outcome string :=
  if (0 <=? id) && (id <? Z.of_nat (length (names t))) then vec_at (names t) (Z.to_nat id)
  else Throw "NLUniverse invalid NLName ID".

(** An [NLName] is the identifier; the table is that of the universe, if there
    is one. *)
Definition nlname (name : string) : prog (option NameTable) Z := fun universe =>
  match universe with
  | None => (Throw "NLName creation requires NLUniverse", None)
  | Some t =>
      if bool_decide (name = EmptyString) then (Ret 0, Some t)
      else let '(r, t') := getOrCreateNameID name t in (r, Some t')
  end.

Definition getStringRef (universe : option NameTable) (n : Z) : outcome string :=
  match universe with
  | None => Throw "NLName access requires NLUniverse"
  | Some t => getNameString t n
  end.
Definition nlname_empty (universe : option NameTable) (n : Z) : outcome bool :=
  s ← getStringRef universe n; Ret (bool_decide (s = EmptyString)).

Definition name_lt (l r : Z) : bool := l <? r.
Definition name_gt (l r : Z) : bool := r <? l.
Definition name_eq (l r : Z) : bool := l =? r.
Definition name_ne (l r : Z) : bool := negb (l =? r).

(** * The table's invariant *)

(** The map is the inverse of the vector, and the empty string has number 0. *)
Record names_wf (t : NameTable) : Prop := {
  names_inverse s id : nameToId t !! s = Some id <-> 0 <= id /\ names t !! Z.to_nat id = Some s;
  names_empty : names t !! 0%nat = Some EmptyString;
  names_bound : Z.of_nat (length (names t)) <= id_max }.

Lemma names_create_wf : names_wf names_create.
Proof.
  split; [|done|done]. intros s id. cbn. rewrite lookup_singleton_Some. split.
  - by intros [<- <-].
  - intros [Hid H]. destruct (Z.to_nat id) as [|n] eqn:E; [|by destruct n].
    injection H as <-. split; [done|lia].
Qed.

Lemma getNameString_Ret t id s :
  getNameString t id = Ret s <-> 0 <= id /\ names t !! Z.to_nat id = Some s.
Proof.
  unfold getNameString. destruct (Z.leb_spec 0 id); [|split; [done|lia]].
  destruct (Z.ltb_spec id (Z.of_nat (length (names t)))); cbn.
  - rewrite vec_at_Ret. naive_solver.
  - split; [done|]. intros [_ Hn%lookup_lt_Some]. lia.
Qed.

Lemma nameToId_getNameString t s id :
  names_wf t -> nameToId t !! s = Some id <-> getNameString t id = Ret s.
Proof. intros Hw. by rewrite getNameString_Ret, names_inverse. Qed.

(** Entering a new name keeps the inverse. *)
Lemma names_wf_snoc t s :
  names_wf t -> nameToId t !! s = None -> Z.of_nat (length (names t)) < id_max ->
  names_wf (mkNames (names t ++ [s]) (<[s:=Z.of_nat (length (names t))]> (nameToId t))).
Proof.
  intros [Hinv He Hb] Hs Hlt. split; cbn.
  - intros s' id. rewrite lookup_insert_Some. split.
    + intros [[<- <-]|[Hne H]].
      * split; [lia|]. rewrite Nat2Z.id. apply list_lookup_middle. done.
      * apply Hinv in H as [? H]. split; [done|]. by apply lookup_app_l_Some.
    + intros [Hid [H|[Hge H]]%lookup_app_Some].
      * right. split; [|by apply Hinv]. intros ->. assert (nameToId t !! s' = Some id) by (by apply Hinv). congruence.
      * left. apply list_lookup_singleton_Some in H as [Hz ->]. split; [done|lia].
  - by apply lookup_app_l_Some.
  - rewrite length_app. cbn. lia.
Qed.

Lemma getNameString_snoc t s id s' m :
  getNameString t id = Ret s' -> getNameString (mkNames (names t ++ [s]) m) id = Ret s'.
Proof. rewrite !getNameString_Ret. intros [? H]. split; [done|]. cbn. by apply lookup_app_l_Some. Qed.

(** * Properties *)

(** Interning. In a table whose map is the inverse of its vector, making a
    name gives an identifier whose string is the name, the invariant and the
    strings of all older identifiers are kept, and an older identifier is the
    new one exactly when it has the same string; only the empty name is empty.
    It throws only for a new name in a table of 2^32 - 1 names, which it then
    leaves alone. *)
Theorem nlname_interns t s :
  names_wf t ->
  match nlname s (Some t) with
  | (Ret id, Some t') =>
      names_wf t' /\ getNameString t' id = Ret s /\ 0 <= id < id_max /\
      nlname_empty (Some t') id = Ret (bool_decide (s = EmptyString)) /\
      (forall j s', getNameString t j = Ret s' ->
         getNameString t' j = Ret s' /\ (name_eq j id = true <-> s' = s))
  | (Throw _, Some t') =>
      t' = t /\ id_max <= Z.of_nat (length (names t)) /\ forall j, getNameString t j <> Ret s
  | _ => False
  end.
Proof.
  intros Hw. unfold nlname, getOrCreateNameID.
  assert (forall t' id, names_wf t' -> getNameString t' id = Ret s ->
    (forall j s', getNameString t j = Ret s' -> getNameString t' j = Ret s') ->
    names_wf t' /\ getNameString t' id = Ret s /\ 0 <= id < id_max /\
    nlname_empty (Some t') id = Ret (bool_decide (s = EmptyString)) /\
    (forall j s', getNameString t j = Ret s' ->
       getNameString t' j = Ret s' /\ (name_eq j id = true <-> s' = s))) as Hfound.
  { intros t' id Hw' Hs Hold. unfold nlname_empty, getStringRef. rewrite Hs. split_and!; try done.
    - by apply getNameString_Ret in Hs as [? _].
    - apply getNameString_Ret in Hs as [? Hs%lookup_lt_Some]. pose proof (names_bound _ Hw'). lia.
    - intros j s' Hj%Hold. split; [done|]. unfold name_eq. rewrite Z.eqb_eq. split; [congruence|].
      intros ->. apply nameToId_getNameString in Hj, Hs; [congruence|done..]. }
  case_bool_decide as He; [subst s; apply Hfound; [done| |done]|].
  { apply getNameString_Ret. split; [done|exact (names_empty _ Hw)]. }
  destruct (nameToId t !! s) as [id|] eqn:Hn.
  { apply Hfound; [done| |done]. by apply nameToId_getNameString. }
  destruct (Z.leb_spec id_max (Z.of_nat (length (names t)))) as [Hfull|Hroom].
  { split_and!; [done..|]. intros j Hj%nameToId_getNameString; congruence. }
  rewrite Z.mod_small by (unfold id_max in Hroom; lia).
  apply Hfound; [by apply names_wf_snoc| |intros; by apply getNameString_snoc].
  apply getNameString_Ret. split; [lia|]. cbn. rewrite Nat2Z.id. by apply list_lookup_middle.
Qed.

Lemma nlname_interns_witness :
  let t := snd (getOrCreateNameID "clk" (snd (getOrCreateNameID "q" names_create))) in
  getNameString t 1 = Ret "q"%string /\
  match nlname "q" (Some t) with
  | (Ret id, Some t') =>
      names_wf t' /\ getNameString t' id = Ret "q"%string /\ 0 <= id < id_max /\
      nlname_empty (Some t') id = Ret (bool_decide ("q"%string = EmptyString)) /\
      (forall j s', getNameString t j = Ret s' ->
         getNameString t' j = Ret s' /\ (name_eq j id = true <-> s' = "q"%string))
  | (Throw _, Some t') =>
      t' = t /\ id_max <= Z.of_nat (length (names t)) /\ forall j, getNameString t j <> Ret "q"%string
  | _ => False
  end.
Proof.
  cbv zeta. split; [reflexivity|]. apply nlname_interns.
  apply (names_wf_snoc (mkNames [EmptyString; "q"%string] _)); [|reflexivity|reflexivity].
  apply (names_wf_snoc names_create); [exact names_create_wf|reflexivity|reflexivity].
Defined.
