(* ===== verification/Universe.v ===== *)
(** The netlist hierarchy: the universe, its databases, their libraries and the
    designs these own (nl/netlist/core/NLUniverse.cpp, NLDB.cpp, NLLibrary.cpp,
    the creation, renaming and removal of nl/netlist/snl/SNLDesign.cpp). The
    contents of a design and physical designs are not part of the state. *)
From S2P Require Import Prelude NLID Store.
Local Open Scope Z_scope.

(** * State *)

(** A pointer. Objects are allocated at increasing addresses that are not used
    again, so a pointer to a deleted object points to nothing. *)
Notation loc := positive (only parsing).

Inductive library_type := LStandard | LInDB0 | LPrimitives.
Inductive design_type := DStandard | DUserBlackBox | DAutoBlackBox | DPrimitive.
#[export] Instance library_type_dec : EqDecision library_type.
Proof. solve_decision. Defined.
#[export] Instance design_type_dec : EqDecision design_type.
Proof. solve_decision. Defined.

(** [parent_] and [isRoot_]. *)
Inductive parent := ParentDB (d : loc) | ParentLibrary (p : loc).

Record NLDB := mkDB { db_id : Z; db_libraries : registry loc; db_topDesign : option loc }.
Record NLLibrary := mkLibrary {
  lib_id : Z; lib_name : Z; lib_type : library_type; lib_parent : parent;
  lib_libraries : registry loc; lib_designs : registry loc }.
Record SNLDesign := mkDesign { d_id : Z; d_name : Z; d_type : design_type; d_library : loc }.

Record universe := mkUniverse {
  dbs : gmap Z loc; db0_ : option loc; topDB_ : option loc;
  dbHeap : gmap loc NLDB; libHeap : gmap loc NLLibrary; designHeap : gmap loc SNLDesign;
  next : loc }.

Definition set_dbs (m : gmap Z loc) (u : universe) : universe :=
  mkUniverse m (db0_ u) (topDB_ u) (dbHeap u) (libHeap u) (designHeap u) (next u).
Definition set_db0 (d : option loc) (u : universe) : universe :=
  mkUniverse (dbs u) d (topDB_ u) (dbHeap u) (libHeap u) (designHeap u) (next u).
Definition set_topDB (d : option loc) (u : universe) : universe :=
  mkUniverse (dbs u) (db0_ u) d (dbHeap u) (libHeap u) (designHeap u) (next u).
Definition set_dbHeap (h : gmap loc NLDB) (u : universe) : universe :=
  mkUniverse (dbs u) (db0_ u) (topDB_ u) h (libHeap u) (designHeap u) (next u).
Definition set_libHeap (h : gmap loc NLLibrary) (u : universe) : universe :=
  mkUniverse (dbs u) (db0_ u) (topDB_ u) (dbHeap u) h (designHeap u) (next u).
Definition set_designHeap (h : gmap loc SNLDesign) (u : universe) : universe :=
  mkUniverse (dbs u) (db0_ u) (topDB_ u) (dbHeap u) (libHeap u) h (next u).
Definition bump (u : universe) : universe :=
  mkUniverse (dbs u) (db0_ u) (topDB_ u) (dbHeap u) (libHeap u) (designHeap u) (Pos.succ (next u)).

Definition db_set_id (id : Z) (b : NLDB) : NLDB := mkDB id (db_libraries b) (db_topDesign b).
Definition db_set_libraries (r : registry loc) (b : NLDB) : NLDB := mkDB (db_id b) r (db_topDesign b).
Definition db_set_top (x : option loc) (b : NLDB) : NLDB := mkDB (db_id b) (db_libraries b) x.
Definition lib_set_id (id : Z) (b : NLLibrary) : NLLibrary :=
  mkLibrary id (lib_name b) (lib_type b) (lib_parent b) (lib_libraries b) (lib_designs b).
Definition lib_set_name (n : Z) (b : NLLibrary) : NLLibrary :=
  mkLibrary (lib_id b) n (lib_type b) (lib_parent b) (lib_libraries b) (lib_designs b).
Definition lib_set_libraries (r : registry loc) (b : NLLibrary) : NLLibrary :=
  mkLibrary (lib_id b) (lib_name b) (lib_type b) (lib_parent b) r (lib_designs b).
Definition lib_set_designs (r : registry loc) (b : NLLibrary) : NLLibrary :=
  mkLibrary (lib_id b) (lib_name b) (lib_type b) (lib_parent b) (lib_libraries b) r.
Definition d_set_id (id : Z) (x : SNLDesign) : SNLDesign := mkDesign id (d_name x) (d_type x) (d_library x).
Definition d_set_name (n : Z) (x : SNLDesign) : SNLDesign := mkDesign (d_id x) n (d_type x) (d_library x).
Definition d_set_type (t : design_type) (x : SNLDesign) : SNLDesign := mkDesign (d_id x) (d_name x) t (d_library x).

(** Reading, writing, [new] and [delete]. *)
Definition the_db (d : loc) : prog universe NLDB := deref (fun u => dbHeap u !! d).
Definition the_lib (l : loc) : prog universe NLLibrary := deref (fun u => libHeap u !! l).
Definition the_design (x : loc) : prog universe SNLDesign := deref (fun u => designHeap u !! x).
Definition put_db (d : loc) (b : NLDB) : prog universe unit := modify (fun u => set_dbHeap (<[d:=b]> (dbHeap u)) u).
Definition put_lib (l : loc) (b : NLLibrary) : prog universe unit :=
  modify (fun u => set_libHeap (<[l:=b]> (libHeap u)) u).
Definition put_design (x : loc) (b : SNLDesign) : prog universe unit :=
  modify (fun u => set_designHeap (<[x:=b]> (designHeap u)) u).
Definition new_db (b : NLDB) : prog universe loc := fun u =>
  (Ret (next u), bump (set_dbHeap (<[next u:=b]> (dbHeap u)) u)).
Definition new_lib (b : NLLibrary) : prog universe loc := fun u =>
  (Ret (next u), bump (set_libHeap (<[next u:=b]> (libHeap u)) u)).
Definition new_design (b : SNLDesign) : prog universe loc := fun u =>
  (Ret (next u), bump (set_designHeap (<[next u:=b]> (designHeap u)) u)).
Definition delete_db (d : loc) : prog universe unit := modify (fun u => set_dbHeap (delete d (dbHeap u)) u).
Definition delete_lib (l : loc) : prog universe unit := modify (fun u => set_libHeap (delete l (libHeap u)) u).
Definition delete_design (x : loc) : prog universe unit :=
  modify (fun u => set_designHeap (delete x (designHeap u)) u).

Fixpoint first_some {A B} (f : A -> option B) (l : list A) : option B :=
  match l with
  | [] => None
  | a :: l => match f a with Some b => Some b | None => first_some f l end
  end.

(** * Getters *)

(** [NLLibrary::getDB] follows the parents, which are allocated before their
    children: the address bounds the length of the way. *)
Fixpoint getDB_from (fuel : nat) (libs : gmap loc NLLibrary) (l : loc) : option loc :=
  match fuel with
  | O => None
  | S fuel =>
      match libs !! l with
      | None => None
      | Some b => match lib_parent b with ParentDB d => Some d | ParentLibrary p => getDB_from fuel libs p end
      end
  end.
Definition lib_getDB (l : loc) (u : universe) : option loc := getDB_from (Pos.to_nat l) (libHeap u) l.

Definition lib_isRoot (b : NLLibrary) : bool := match lib_parent b with ParentDB _ => true | ParentLibrary _ => false end.

Definition universe_getDB (id : Z) (u : universe) : option loc := dbs u !! id.
Definition db_getLibrary (id : Z) (b : NLDB) : option loc := find_by_id id (db_libraries b).
Definition db_getLibraryByName (n : Z) (b : NLDB) : option loc := find_by_name n (db_libraries b).
Definition lib_getLibrary (id : Z) (b : NLLibrary) : option loc := find_by_id id (lib_libraries b).
Definition lib_getLibraryByName (n : Z) (b : NLLibrary) : option loc := find_by_name n (lib_libraries b).
Definition lib_getSNLDesign (id : Z) (b : NLLibrary) : option loc := find_by_id id (lib_designs b).
Definition lib_getSNLDesignByName (n : Z) (b : NLLibrary) : option loc := find_by_name n (lib_designs b).

Definition universe_getLibrary (dbID libraryID : Z) (u : universe) : option loc :=
  d ← universe_getDB dbID u; b ← dbHeap u !! d; db_getLibrary libraryID b.
Definition db_getSNLDesign (r : DBDesignReference) (b : NLDB) (u : universe) : option loc :=
  l ← db_getLibrary (dr_library r) b; lb ← libHeap u !! l; lib_getSNLDesign (dr_design r) lb.
Definition universe_getSNLDesign (r : DesignReference) (u : universe) : option loc :=
  d ← universe_getDB (ref_db r) u; b ← dbHeap u !! d; db_getSNLDesign (getDBDesignReference r) b u.

(** Collections, in order of identifiers. *)
Definition getGlobalLibraries (b : NLDB) : list loc := in_order (objects (db_libraries b)).
Definition lib_satisfies (P : NLLibrary -> bool) (u : universe) (l : loc) : bool :=
  match libHeap u !! l with Some lb => P lb | None => false end.
Definition getLibraries (b : NLDB) (u : universe) : list loc :=
  filter (fun l => lib_satisfies lib_isRoot u l = true) (getGlobalLibraries b).
Definition isPrimitives (b : NLLibrary) : bool := bool_decide (lib_type b = LPrimitives).
Definition isStandard (b : NLLibrary) : bool := bool_decide (lib_type b = LStandard).
Definition getPrimitiveLibraries (b : NLDB) (u : universe) : list loc :=
  filter (fun l => lib_satisfies isPrimitives u l = true) (getGlobalLibraries b).
Definition getSNLDesigns (b : NLLibrary) : list loc := in_order (objects (lib_designs b)).
Definition getDBs (u : universe) : list loc := in_order (dbs u).
Definition isDB0 (d : loc) (u : universe) : bool := bool_decide (db0_ u = Some d).
Definition getUserDBs (u : universe) : list loc := filter (fun d => isDB0 d u = false) (getDBs u).

Definition db_getSNLDesignByName (n : Z) (b : NLDB) (u : universe) : option loc :=
  first_some (fun l => lb ← libHeap u !! l; lib_getSNLDesignByName n lb) (getLibraries b u).
Definition universe_getSNLDesignByName (n : Z) (u : universe) : option loc :=
  first_some (fun d => b ← dbHeap u !! d; db_getSNLDesignByName n b u) (getDBs u).

(** Identifiers. *)
Definition db_getNLID (b : NLDB) : NLID := nlid_db (db_id b).
Definition lib_getNLID (l : loc) (u : universe) : option NLID :=
  lb ← libHeap u !! l; d ← lib_getDB l u; b ← dbHeap u !! d; Some (nlid_library (db_id b) (lib_id lb)).
Definition design_getNLID (x : loc) (u : universe) : option NLID :=
  xb ← designHeap u !! x; lb ← libHeap u !! d_library xb; d ← lib_getDB (d_library xb) u;
  b ← dbHeap u !! d; Some (nlid_design (db_id b) (lib_id lb) (d_id xb)).
Definition design_getReference (x : loc) (u : universe) : option DesignReference :=
  xb ← designHeap u !! x; lb ← libHeap u !! d_library xb; d ← lib_getDB (d_library xb) u;
  b ← dbHeap u !! d; Some (mkDesignRef (db_id b) (lib_id lb) (d_id xb)).

(** * Databases *)

Definition addDB (d : loc) : prog universe unit :=
  b ← the_db d; modify (fun u => set_dbs (set_insert (db_id b) d (dbs u)) u).
Definition addDBAndSetID (d : loc) : prog universe unit :=
  id ← gets (fun u => next_id 8 (dbs u)); b ← the_db d; put_db d (db_set_id id b) ;; addDB d.
Definition removeDB (d : loc) : prog universe unit :=
  b ← the_db d; modify (fun u => set_dbs (delete (db_id b) (dbs u)) u).

Definition db_create : prog universe loc :=
  d ← new_db (mkDB 0 empty_registry None); addDBAndSetID d ;; mret d.
Definition db_create_id (id : Z) : prog universe loc :=
  found ← gets (universe_getDB id);
  check (is_none found) "DB collision: duplicate or conflicting entry detected" ;;
  d ← new_db (mkDB id empty_registry None); addDB d ;; mret d.

Definition db_setID (d : loc) (id : Z) : prog universe unit :=
  removeDB d ;; b ← the_db d; put_db d (db_set_id id b) ;; addDB d.

(** A universe starts with the database of the cells the netlist manages,
    which is created first and so has number 0. *)
Definition no_universe : universe := mkUniverse ∅ None None ∅ ∅ ∅ 1%positive.
Definition universe_create : prog universe unit :=
  d ← db_create; modify (set_db0 (Some d)).

Definition setTopDB (d : loc) : prog universe unit :=
  is0 ← gets (isDB0 d); check (negb is0) "Cannot set DB0 as top DB" ;; modify (set_topDB (Some d)).
Definition db_setTopDesign (d : loc) (design : option loc) : prog universe unit :=
  b ← the_db d;
  (match design with
   | None => mret tt
   | Some x => xb ← the_design x; owner ← deref (lib_getDB (d_library xb));
               check (bool_decide (owner = d)) "Impossible setTopDesign call with"
   end) ;;
  put_db d (db_set_top design b).
Definition setTopDesign (x : loc) : prog universe unit :=
  xb ← the_design x; d ← deref (lib_getDB (d_library xb)); db_setTopDesign d (Some x) ;; setTopDB d.
Definition getTopDesign (u : universe) : option loc :=
  d ← topDB_ u; b ← dbHeap u !! d; db_topDesign b.

(** * Libraries *)

(** A database enters every library, under its name even when that is empty. *)
Definition db_addLibrary (d l : loc) : prog universe unit :=
  b ← the_db d; lb ← the_lib l;
  put_db d (db_set_libraries (mkRegistry (set_insert (lib_id lb) l (objects (db_libraries b)))
    (<[lib_name lb:=lib_id lb]> (nameIDs (db_libraries b)))) b).
Definition db_addLibraryAndSetID (d l : loc) : prog universe unit :=
  b ← the_db d; lb ← the_lib l;
  put_lib l (lib_set_id (next_id 16 (objects (db_libraries b))) lb) ;; db_addLibrary d l.
Definition db_removeLibrary (d l : loc) : prog universe unit :=
  b ← the_db d; lb ← the_lib l;
  put_db d (db_set_libraries (mkRegistry (delete (lib_id lb) (objects (db_libraries b)))
    (delete (lib_name lb) (nameIDs (db_libraries b)))) b).
Definition db_rename (d l : loc) (previous : Z) : prog universe unit :=
  b ← the_db d; lb ← the_lib l;
  r ← deref (fun _ => rename_object (lib_id lb) (lib_name lb) previous (db_libraries b));
  put_db d (db_set_libraries r b).

Definition lib_addLibrary (p l : loc) : prog universe unit :=
  pb ← the_lib p; lb ← the_lib l;
  put_lib p (lib_set_libraries (add_object (lib_id lb) (lib_name lb) l (lib_libraries pb)) pb).
Definition lib_removeLibrary (p l : loc) : prog universe unit :=
  pb ← the_lib p; lb ← the_lib l;
  put_lib p (lib_set_libraries (remove_object (lib_id lb) (lib_name lb) (lib_libraries pb)) pb).
Definition lib_renameLibrary (p l : loc) (previous : Z) : prog universe unit :=
  pb ← the_lib p; lb ← the_lib l;
  r ← deref (fun _ => rename_object (lib_id lb) (lib_name lb) previous (lib_libraries pb));
  put_lib p (lib_set_libraries r pb).

(** The checks made before a library is created under a database or a library,
    without and with an identifier. *)
Definition preCreate_in_db (d : loc) (name : Z) : prog universe unit :=
  b ← the_db d;
  check (is_empty_name name || is_none (db_getLibraryByName name b)) "NLDB contains already a NLLibrary named".
Definition preCreate_in_lib (p : loc) (type : library_type) (name : Z) : prog universe unit :=
  pb ← the_lib p;
  check (bool_decide (type = lib_type pb)) "non compatible types in library constructor" ;;
  check (is_empty_name name || is_none (lib_getLibraryByName name pb)) "NLLibrary contains already a NLLibrary named".
Definition library_preCreate (par : parent) (type : library_type) (name : Z) : prog universe unit :=
  match par with
  | ParentDB d => preCreate_in_db d name
  | ParentLibrary p => preCreate_in_lib p type name
  end.
Definition parent_getDB (par : parent) (u : universe) : option loc :=
  match par with ParentDB d => Some d | ParentLibrary p => lib_getDB p u end.
Definition library_preCreate_id (par : parent) (id : Z) (type : library_type) (name : Z) : prog universe unit :=
  library_preCreate par type name ;;
  d ← deref (parent_getDB par); b ← the_db d;
  check (is_none (db_getLibrary id b)) "NLDB contains already a NLLibrary with ID".

Definition enter_in_parent (l : loc) : prog universe unit :=
  lb ← the_lib l;
  match lib_parent lb with ParentDB _ => mret tt | ParentLibrary p => lib_addLibrary p l end.
Definition library_create (par : parent) (type : library_type) (name : Z) : prog universe loc :=
  library_preCreate par type name ;;
  l ← new_lib (mkLibrary 0 name type par empty_registry empty_registry);
  d ← deref (lib_getDB l); db_addLibraryAndSetID d l ;; enter_in_parent l ;; mret l.
Definition library_create_id (par : parent) (id : Z) (type : library_type) (name : Z) : prog universe loc :=
  library_preCreate_id par id type name ;;
  l ← new_lib (mkLibrary id name type par empty_registry empty_registry);
  d ← deref (lib_getDB l); db_addLibrary d l ;; enter_in_parent l ;; mret l.

Definition library_setName (l : loc) (name : Z) : prog universe unit :=
  lb ← the_lib l;
  if lib_name lb =? name then mret tt
  else
    (if is_empty_name name then mret tt
     else match lib_parent lb with
     | ParentDB _ => d ← deref (lib_getDB l); b ← the_db d;
         check (is_none (db_getLibraryByName name b)) "In DB cannot rename, another library has already this name."
     | ParentLibrary p => pb ← the_lib p;
         check (is_none (lib_getLibraryByName name pb)) "In parent library cannot rename, another library has already this name."
     end) ;;
    put_lib l (lib_set_name name lb) ;;
    match lib_parent lb with
    | ParentDB _ => d ← deref (lib_getDB l); db_rename d l (lib_name lb)
    | ParentLibrary p => lib_renameLibrary p l (lib_name lb)
    end.

(** * Designs *)

Definition addSNLDesign (l x : loc) : prog universe unit :=
  lb ← the_lib l; xb ← the_design x;
  put_lib l (lib_set_designs (add_object (d_id xb) (d_name xb) x (lib_designs lb)) lb).
Definition addSNLDesignAndSetID (l x : loc) : prog universe unit :=
  lb ← the_lib l; xb ← the_design x;
  put_design x (d_set_id (next_id 32 (objects (lib_designs lb))) xb) ;; addSNLDesign l x.
Definition removeSNLDesign (l x : loc) : prog universe unit :=
  lb ← the_lib l; xb ← the_design x;
  put_lib l (lib_set_designs (remove_object (d_id xb) (d_name xb) (lib_designs lb)) lb).
Definition lib_renameDesign (l x : loc) (previous : Z) : prog universe unit :=
  lb ← the_lib l; xb ← the_design x;
  r ← deref (fun _ => rename_object (d_id xb) (d_name xb) previous (lib_designs lb));
  put_lib l (lib_set_designs r lb).

Definition design_preCreate (l : loc) (type : design_type) (name : Z) : prog universe unit :=
  lb ← the_lib l;
  check (negb (bool_decide (type = DPrimitive) && negb (isPrimitives lb)))
    "Cannot create a primitive design in a non primitives library" ;;
  check (negb (negb (bool_decide (type = DPrimitive)) && isPrimitives lb))
    "Cannot create a non primitive design in a primitives library" ;;
  check (is_empty_name name || is_none (lib_getSNLDesignByName name lb)) "NLLibrary contains already a SNLDesign named".
Definition design_preCreate_id (l : loc) (id : Z) (type : design_type) (name : Z) : prog universe unit :=
  design_preCreate l type name ;;
  lb ← the_lib l; check (is_none (lib_getSNLDesign id lb)) "NLLibrary contains already a SNLDesign with ID".
Definition design_create (l : loc) (type : design_type) (name : Z) : prog universe loc :=
  design_preCreate l type name ;;
  x ← new_design (mkDesign 0 name type l); addSNLDesignAndSetID l x ;; mret x.
Definition design_create_id (l : loc) (id : Z) (type : design_type) (name : Z) : prog universe loc :=
  design_preCreate_id l id type name ;;
  x ← new_design (mkDesign id name type l); addSNLDesign l x ;; mret x.

Definition design_setName (x : loc) (name : Z) : prog universe unit :=
  xb ← the_design x;
  if d_name xb =? name then mret tt
  else
    (if is_empty_name name then mret tt
     else lb ← the_lib (d_library xb);
          check (is_none (lib_getSNLDesignByName name lb)) "In library cannot rename, another Design has already this name.") ;;
    put_design x (d_set_name name xb) ;; lib_renameDesign (d_library xb) x (d_name xb).
Definition design_setType (x : loc) (type : design_type) : prog universe unit :=
  check (negb (bool_decide (type = DPrimitive))) "cannot change design type to Primitive" ;;
  xb ← the_design x; put_design x (d_set_type type xb).

(** * Destruction *)

Definition design_destroy (x : loc) : prog universe unit :=
  xb ← the_design x; removeSNLDesign (d_library xb) x ;; delete_design x.

(** [NLLibrary::commonPreDestroy]: the designs, then the nested libraries, each
    of which first leaves the database's set. *)
Definition library_commonPreDestroy (destroy : loc -> prog universe unit) (l : loc) : prog universe unit :=
  lb ← the_lib l;
  for_each delete_design (getSNLDesigns lb) ;;
  put_lib l (lib_set_designs (mkRegistry ∅ (nameIDs (lib_designs lb))) lb) ;;
  for_each destroy (in_order (objects (lib_libraries lb))) ;;
  lb' ← the_lib l; put_lib l (lib_set_libraries (mkRegistry ∅ (nameIDs (lib_libraries lb'))) lb').
(** Nested libraries are younger than their parents: the number of addresses
    used so far bounds the depth. *)
Fixpoint destroyFromParentLibrary (fuel : nat) (l : loc) : prog universe unit :=
  match fuel with
  | O => undef
  | S fuel =>
      d ← deref (lib_getDB l); db_removeLibrary d l ;;
      library_commonPreDestroy (destroyFromParentLibrary fuel) l ;; delete_lib l
  end.
Definition library_destroy (l : loc) : prog universe unit :=
  lb ← the_lib l; d ← deref (lib_getDB l); db_removeLibrary d l ;;
  (match lib_parent lb with ParentDB _ => mret tt | ParentLibrary p => lib_removeLibrary p l end) ;;
  n ← gets next;
  library_commonPreDestroy (destroyFromParentLibrary (Pos.to_nat n)) l ;; delete_lib l.
Definition destroyFromDB (l : loc) : prog universe unit :=
  n ← gets next;
  library_commonPreDestroy (destroyFromParentLibrary (Pos.to_nat n)) l ;; delete_lib l.

(** [NLDB::commonPreDrestroy]: nested libraries leave the set, the standard
    roots are destroyed, then the others. *)
Definition db_erase_library (d l : loc) : prog universe unit :=
  b ← the_db d; lb ← the_lib l;
  put_db d (db_set_libraries (mkRegistry (delete (lib_id lb) (objects (db_libraries b)))
    (nameIDs (db_libraries b))) b).
Definition db_destroy (d : loc) : prog universe unit :=
  b ← the_db d; u ← gets (fun u => u);
  for_each (db_erase_library d) (filter (fun l => lib_satisfies lib_isRoot u l = false) (getGlobalLibraries b)) ;;
  for_each (fun l => db_erase_library d l ;; destroyFromDB l)
    (filter (fun l => lib_satisfies (fun lb => lib_isRoot lb && isStandard lb) u l = true) (getGlobalLibraries b)) ;;
  b' ← the_db d; for_each destroyFromDB (getGlobalLibraries b') ;;
  b'' ← the_db d; put_db d (db_set_libraries empty_registry b'') ;;
  removeDB d ;; delete_db d.

(** * Objects by identifier *)

Inductive object := ODB (d : loc) | OLibrary (l : loc) | ODesign (x : loc).

(** [NLUniverse::getObject], for the objects down to the designs. *)
Definition getObject (id : NLID) (u : universe) : option object :=
  match type_ id with
  | DB => ODB <$> universe_getDB (dbID_ id) u
  | Library => OLibrary <$> universe_getLibrary (dbID_ id) (libraryID_ id) u
  | Design => ODesign <$> universe_getSNLDesign (mkDesignRef (dbID_ id) (libraryID_ id) (designID_ id)) u
  | _ => None
  end.
Definition getNLID (o : object) (u : universe) : option NLID :=
  match o with
  | ODB d => db_getNLID <$> dbHeap u !! d
  | OLibrary l => lib_getNLID l u
  | ODesign x => design_getNLID x u
  end.
