(* ===== verification/UniverseInvariant.v ===== *)
(** The hierarchy's invariant: every set and name map of a database or library
    holds exactly the objects that point to it, and the lookups this gives.

    Every operation on the hierarchy keeps the invariant, or throws and leaves
    the hierarchy alone. *)
From S2P Require Import Prelude NLID Store Universe.
Local Open Scope Z_scope.

(** * What a library says of itself *)

(** The fields of a library that are not sets. *)
Record libinfo := mkInfo { i_id : Z; i_name : Z; i_type : library_type; i_parent : parent }.
Definition info (lb : NLLibrary) : libinfo := mkInfo (lib_id lb) (lib_name lb) (lib_type lb) (lib_parent lb).
Definition tree (u : universe) : gmap loc libinfo := info <$> libHeap u.

(** The database a library is in, following the parents. *)
Inductive in_db (t : gmap loc libinfo) : loc -> loc -> Prop :=
| in_db_root l i d : t !! l = Some i -> i_parent i = ParentDB d -> in_db t l d
| in_db_nested l i p d : t !! l = Some i -> i_parent i = ParentLibrary p -> in_db t p d -> in_db t l d.

Definition owns_library (t : gmap loc libinfo) (p l : loc) (k n : Z) : Prop :=
  exists i, t !! l = Some i /\ i_parent i = ParentLibrary p /\ i_id i = k /\ i_name i = n.
Definition owns_design (h : gmap loc SNLDesign) (l x : loc) (k n : Z) : Prop :=
  exists xb, h !! x = Some xb /\ d_library xb = l /\ d_id xb = k /\ d_name xb = n.

Definition parent_ok (u : universe) (l : loc) (i : libinfo) : Prop :=
  match i_parent i with
  | ParentDB d => is_Some (dbHeap u !! d)
  | ParentLibrary p => (p < l)%positive /\ exists j, tree u !! p = Some j /\ i_type j = i_type i
  end.

(** The invariant: databases by identifier, all libraries of a database by
    identifier, nested libraries and designs by identifier and name; nested
    libraries have their parent's type. *)
Record universe_wf (u : universe) : Prop := {
  wf_dbs k d : dbs u !! k = Some d <-> exists b, dbHeap u !! d = Some b /\ db_id b = k;
  wf_db_bound d b : dbHeap u !! d = Some b -> 0 <= db_id b < 2 ^ 8;
  wf_db_libraries d b : dbHeap u !! d = Some b -> forall k l,
    objects (db_libraries b) !! k = Some l <-> in_db (tree u) l d /\ exists i, tree u !! l = Some i /\ i_id i = k;
  wf_lib_bound l i : tree u !! l = Some i -> 0 <= i_id i < 2 ^ 16;
  wf_parent l i : tree u !! l = Some i -> parent_ok u l i;
  wf_libraries l lb : libHeap u !! l = Some lb -> represents 16 (owns_library (tree u) l) (lib_libraries lb);
  wf_designs l lb : libHeap u !! l = Some lb -> represents 32 (owns_design (designHeap u) l) (lib_designs lb);
  wf_library_of x xb : designHeap u !! x = Some xb -> is_Some (libHeap u !! d_library xb);
  wf_next_db d : is_Some (dbHeap u !! d) -> (d < next u)%positive;
  wf_next_lib l : is_Some (libHeap u !! l) -> (l < next u)%positive;
  wf_next_design x : is_Some (designHeap u !! x) -> (x < next u)%positive }.


(** * Following parents *)

Lemma tree_lookup u l lb : libHeap u !! l = Some lb -> tree u !! l = Some (info lb).
Proof. intros H. unfold tree. by rewrite lookup_fmap, H. Qed.
Lemma tree_lookup_inv u l i : tree u !! l = Some i -> exists lb, libHeap u !! l = Some lb /\ i = info lb.
Proof. unfold tree. rewrite lookup_fmap, fmap_Some. naive_solver. Qed.

Lemma in_db_unfold t l i d : t !! l = Some i ->
  in_db t l d <-> match i_parent i with ParentDB d' => d = d' | ParentLibrary p => in_db t p d end.
Proof.
  intros Hi. split.
  - intros H. inversion H as [? j ? Hj Hq|? j q ? Hj Hq Hqd]; subst; rewrite Hi in Hj; injection Hj as <-; by rewrite Hq.
  - destruct (i_parent i) eqn:E; [intros ->; by eapply in_db_root|intros H; by eapply in_db_nested].
Qed.

Lemma in_db_functional t l d d' : in_db t l d -> in_db t l d' -> d = d'.
Proof.
  intros H. revert d'. induction H as [l i d Hi Hp|l i p d Hi Hp _ IH]; intros d';
    rewrite (in_db_unfold _ _ _ _ Hi), Hp; [done|apply IH].
Qed.

Lemma in_db_lookup t l d : in_db t l d -> is_Some (t !! l).
Proof. by intros [? ? ? -> _|? ? ? ? -> _ _]. Qed.

(** Trees that agree on the parents of a set of libraries closed under parents
    agree on their databases. *)
Lemma in_db_agree (P : loc -> Prop) t t' x d :
  (forall y i, P y -> t !! y = Some i ->
     (exists i', t' !! y = Some i' /\ i_parent i' = i_parent i) /\ forall p, i_parent i = ParentLibrary p -> P p) ->
  P x -> in_db t x d -> in_db t' x d.
Proof.
  intros H Hx Hd. revert Hx. induction Hd as [y j d Hj Hp|y j p d Hj Hp Hq IH]; intros Hy;
    destruct (H y j Hy Hj) as [(j' & Hj' & E) Hc].
  - apply (in_db_root _ _ j'); [done|congruence].
  - apply (in_db_nested _ _ j' p); [done|congruence|]. apply IH. by apply Hc.
Qed.

Definition parents_ok (u : universe) : Prop := forall l i, tree u !! l = Some i -> parent_ok u l i.

Section parents.
Context {u : universe} (P : parents_ok u).

(** Every library is in a database, which the getter finds. *)
Lemma in_db_total_of l : is_Some (tree u !! l) -> exists d, in_db (tree u) l d /\ is_Some (dbHeap u !! d).
Proof.
  induction l as [l IH] using (well_founded_induction (Wf_nat.well_founded_ltof _ Pos.to_nat)).
  intros [i Hi]. pose proof (P _ _ Hi) as Hp.
  unfold parent_ok in Hp. destruct (i_parent i) as [d|p] eqn:E.
  - exists d. split; [by eapply in_db_root|done].
  - destruct Hp as [Hlt (j & Hj & _)]. destruct (IH p (proj1 (Pos2Nat.inj_lt _ _) Hlt) (mk_is_Some _ _ Hj)) as (d & Hd & Hdb).
    exists d. split; [by eapply in_db_nested|done].
Qed.

Lemma getDB_from_spec_of fuel l d :
  (Pos.to_nat l <= fuel)%nat -> getDB_from fuel (libHeap u) l = Some d <-> in_db (tree u) l d.
Proof.
  revert l. induction fuel as [|fuel IH]; intros l Hf; [lia|]. cbn.
  destruct (libHeap u !! l) as [lb|] eqn:Hl.
  - pose proof (tree_lookup _ _ _ Hl) as Hi. pose proof (P _ _ Hi) as Hp. unfold parent_ok in Hp. cbn in Hp.
    rewrite (in_db_unfold _ _ _ _ Hi). cbn. destruct (lib_parent lb) as [d'|p]; [naive_solver|]. apply IH. lia.
  - split; [done|]. intros [j Hj]%in_db_lookup. apply tree_lookup_inv in Hj as (? & ? & _). congruence.
Qed.

Lemma lib_getDB_spec_of l d : lib_getDB l u = Some d <-> in_db (tree u) l d.
Proof. by apply getDB_from_spec_of. Qed.

End parents.

#[local] Arguments db_getLibrary : simpl never.
#[local] Arguments lib_getSNLDesign : simpl never.
#[local] Arguments universe_getDB : simpl never.

Section wf.
Context {u : universe} (W : universe_wf u).

Lemma in_db_total l : is_Some (tree u !! l) -> exists d, in_db (tree u) l d /\ is_Some (dbHeap u !! d).
Proof. exact (in_db_total_of (wf_parent _ W) l). Qed.
Lemma getDB_from_spec fuel l d :
  (Pos.to_nat l <= fuel)%nat -> getDB_from fuel (libHeap u) l = Some d <-> in_db (tree u) l d.
Proof. exact (getDB_from_spec_of (wf_parent _ W) fuel l d). Qed.
Lemma lib_getDB_spec l d : lib_getDB l u = Some d <-> in_db (tree u) l d.
Proof. exact (lib_getDB_spec_of (wf_parent _ W) l d). Qed.

Lemma lib_getDB_total l lb : libHeap u !! l = Some lb ->
  exists d b, lib_getDB l u = Some d /\ in_db (tree u) l d /\ dbHeap u !! d = Some b.
Proof.
  intros Hl. destruct (in_db_total l) as (d & Hd & b & Hb); [by rewrite (tree_lookup _ _ _ Hl)|].
  exists d, b. by rewrite lib_getDB_spec.
Qed.

(** * Lookups *)

Lemma universe_getDB_spec k d :
  universe_getDB k u = Some d <-> exists b, dbHeap u !! d = Some b /\ db_id b = k.
Proof. exact (wf_dbs _ W k d). Qed.

Lemma db_getLibrary_spec d b k l : dbHeap u !! d = Some b ->
  db_getLibrary k b = Some l <-> in_db (tree u) l d /\ exists lb, libHeap u !! l = Some lb /\ lib_id lb = k.
Proof.
  intros Hb. unfold db_getLibrary, find_by_id. rewrite (wf_db_libraries _ W _ _ Hb).
  split; (intros [? H]; split; [done|]).
  - destruct H as (i & (lb & ? & ->)%tree_lookup_inv & <-). by exists lb.
  - destruct H as (lb & Hl & <-). exists (info lb). split; [by apply tree_lookup|done].
Qed.

Lemma lib_getSNLDesign_spec l lb k x : libHeap u !! l = Some lb ->
  lib_getSNLDesign k lb = Some x <-> exists xb, designHeap u !! x = Some xb /\ d_library xb = l /\ d_id xb = k.
Proof.
  intros Hl. unfold lib_getSNLDesign. rewrite (find_by_id_spec (wf_designs _ W _ _ Hl)).
  unfold owns_design. naive_solver.
Qed.

Lemma lib_getSNLDesignByName_spec l lb n x : libHeap u !! l = Some lb -> n <> 0 ->
  lib_getSNLDesignByName n lb = Some x <-> exists xb, designHeap u !! x = Some xb /\ d_library xb = l /\ d_name xb = n.
Proof.
  intros Hl Hn. unfold lib_getSNLDesignByName. rewrite (find_by_name_spec (wf_designs _ W _ _ Hl)) by done.
  unfold owns_design. naive_solver.
Qed.

(** An identifier finds an object exactly when it is the object's own. *)
Lemma getObject_spec o id :
  getNLID o u = Some id <-> getObject id u = Some o /\ exists a b c,
    id = match o with ODB _ => nlid_db a | OLibrary _ => nlid_library a b | ODesign _ => nlid_design a b c end.
Proof.
  destruct o as [d|l|x]; cbn [getNLID].
  - rewrite fmap_Some. unfold db_getNLID. split.
    + intros (b & Hb & ->). split; [|by exists (db_id b), 0, 0]. cbn. rewrite fmap_Some. exists d.
      split; [|done]. apply universe_getDB_spec. eauto.
    + intros [H (a & ? & ? & ->)]. cbn in H. apply fmap_Some in H as (d' & H & [= <-]).
      apply universe_getDB_spec in H as (b & Hb & <-). eauto.
  - unfold lib_getNLID. split.
    + intros H. apply bind_Some in H as (lb & Hl & H). apply bind_Some in H as (d & Hd & H).
      apply bind_Some in H as (b & Hb & [= <-]). apply lib_getDB_spec in Hd. split; [|by exists (db_id b), (lib_id lb), 0].
      cbn. rewrite fmap_Some. exists l. split; [|done]. unfold universe_getLibrary.
      rewrite (proj2 (universe_getDB_spec (db_id b) d)) by eauto. cbn. rewrite Hb. cbn.
      apply (db_getLibrary_spec _ _ _ _ Hb). eauto.
    + intros [H (a & k & ? & ->)]. cbn in H. apply fmap_Some in H as (l' & H & [= <-]). unfold universe_getLibrary in H.
      apply bind_Some in H as (d & (b & Hb & <-)%universe_getDB_spec & H). rewrite Hb in H. cbn in H.
      apply (db_getLibrary_spec _ _ _ _ Hb) in H as (Hin & lb & Hl & <-).
      rewrite Hl. cbn. rewrite (proj2 (lib_getDB_spec _ _) Hin). cbn. by rewrite Hb.
  - unfold design_getNLID. split.
    + intros H. apply bind_Some in H as (xb & Hx & H). apply bind_Some in H as (lb & Hl & H).
      apply bind_Some in H as (d & Hd & H). apply bind_Some in H as (b & Hb & [= <-]). apply lib_getDB_spec in Hd.
      split; [|by exists (db_id b), (lib_id lb), (d_id xb)]. cbn. rewrite fmap_Some. exists x. split; [|done].
      unfold universe_getSNLDesign. cbn. rewrite (proj2 (universe_getDB_spec (db_id b) d)) by eauto.
      cbn. rewrite Hb. cbn. unfold db_getSNLDesign. cbn. rewrite (proj2 (db_getLibrary_spec _ _ _ _ Hb)) by eauto.
      cbn. rewrite Hl. cbn. apply (lib_getSNLDesign_spec _ _ _ _ Hl). eauto.
    + intros [H (a & k & j & ->)]. cbn in H. apply fmap_Some in H as (x' & H & [= <-]).
      unfold universe_getSNLDesign in H. cbn [ref_db] in H.
      apply bind_Some in H as (d & (b & Hb & <-)%universe_getDB_spec & H). rewrite Hb in H. cbn in H.
      unfold db_getSNLDesign in H. cbn in H.
      apply bind_Some in H as (l & (Hin & lb & Hl & <-)%(db_getLibrary_spec _ _ _ _ Hb) & H).
      rewrite Hl in H. cbn in H. apply (lib_getSNLDesign_spec _ _ _ _ Hl) in H as (xb & Hx & <- & <-).
      rewrite Hx. cbn. rewrite Hl. cbn. rewrite (proj2 (lib_getDB_spec _ _) Hin). cbn. by rewrite Hb.
Qed.

Lemma getNLID_total_db d : is_Some (dbHeap u !! d) -> is_Some (getNLID (ODB d) u).
Proof. intros [b Hb]. cbn. by rewrite Hb. Qed.
Lemma getNLID_total_library l : is_Some (libHeap u !! l) -> is_Some (getNLID (OLibrary l) u).
Proof.
  intros [lb Hl]. destruct (lib_getDB_total _ _ Hl) as (d & b & Hd & _ & Hb). cbn. unfold lib_getNLID.
  by rewrite Hl; cbn; rewrite Hd; cbn; rewrite Hb.
Qed.
Lemma getNLID_total_design x : is_Some (designHeap u !! x) -> is_Some (getNLID (ODesign x) u).
Proof.
  intros [xb Hx]. destruct (wf_library_of _ W _ _ Hx) as [lb Hl].
  destruct (lib_getDB_total _ _ Hl) as (d & b & Hd & _ & Hb). cbn. unfold design_getNLID.
  by rewrite Hx; cbn; rewrite Hl; cbn; rewrite Hd; cbn; rewrite Hb.
Qed.
End wf.

(** * The operations keep the invariant *)

(** * Running an operation on a known state *)

Ltac heap_simpl :=
  cbn [dbs db0_ topDB_ dbHeap libHeap designHeap next set_dbs set_db0 set_topDB set_dbHeap set_libHeap
       set_designHeap bump db_set_id db_set_libraries db_set_top lib_set_id lib_set_name lib_set_libraries
       lib_set_designs d_set_id d_set_name d_set_type db_id db_libraries db_topDesign lib_id lib_name lib_type
       lib_parent lib_libraries lib_designs d_id d_name d_type d_library].

(** A read through a pointer whose object is known, perhaps under updates. *)
Ltac known := heap_simpl; first [eassumption | rewrite ?lookup_insert_eq; reflexivity
  | rewrite ?lookup_insert_ne by congruence; first [eassumption | rewrite ?lookup_insert_eq; reflexivity]].
Ltac wp_step := first
  [ rewrite wp_bind | rewrite wp_ret | rewrite wp_gets | rewrite wp_modify | rewrite wp_throw
  | progress unfold put_db, put_lib, put_design, delete_db, delete_lib, delete_design
  | (eapply wp_deref; [known|]) ].
Ltac wp_run := repeat (cbn beta; wp_step); heap_simpl.

(** A failed check leaves the state alone. *)
Notation unchanged u := (fun (_ : string) (u' : universe) => u' = u).

Lemma wp_new_lib b u Q E :
  wp (new_lib b) u Q E <-> Q (next u) (bump (set_libHeap (<[next u:=b]> (libHeap u)) u)).
Proof. done. Qed.
Lemma wp_new_db b u Q E :
  wp (new_db b) u Q E <-> Q (next u) (bump (set_dbHeap (<[next u:=b]> (dbHeap u)) u)).
Proof. done. Qed.
Lemma wp_new_design b u Q E :
  wp (new_design b) u Q E <-> Q (next u) (bump (set_designHeap (<[next u:=b]> (designHeap u)) u)).
Proof. done. Qed.

Lemma tree_same (h : gmap loc NLLibrary) l lb lb' :
  h !! l = Some lb -> info lb' = info lb -> info <$> <[l:=lb']> h = info <$> h.
Proof. intros H E. rewrite fmap_insert, E. apply insert_id. by rewrite lookup_fmap, H. Qed.

(** * Designs *)

(** Changing the designs of one library. *)
Lemma wf_change_designs u L lb r h n :
  universe_wf u -> libHeap u !! L = Some lb -> represents 32 (owns_design h L) r ->
  (forall l x k m, l <> L -> owns_design h l x k m <-> owns_design (designHeap u) l x k m) ->
  (forall x xb, h !! x = Some xb -> is_Some (libHeap u !! d_library xb)) ->
  (forall x, is_Some (h !! x) -> (x < n)%positive) -> (next u <= n)%positive ->
  universe_wf (mkUniverse (dbs u) (db0_ u) (topDB_ u) (dbHeap u) (<[L:=lib_set_designs r lb]> (libHeap u)) h n).
Proof.
  intros W HL Hr Hown Hlib Hlt Hn.
  pose proof (tree_same _ _ lb (lib_set_designs r lb) HL eq_refl) as T.
  split; unfold tree; heap_simpl; rewrite ?T.
  - apply W.
  - apply W.
  - apply W.
  - apply W.
  - intros l i Hi. generalize (wf_parent _ W _ _ Hi). unfold parent_ok, tree. heap_simpl. by rewrite T.
  - intros l lb' [[<- <-]|[_ Hl]]%lookup_insert_Some; [exact (wf_libraries _ W _ _ HL)|exact (wf_libraries _ W _ _ Hl)].
  - intros l lb' [[<- <-]|[Hne Hl]]%lookup_insert_Some; [done|].
    eapply represents_ext; [|exact (wf_designs _ W _ _ Hl)]. intros. symmetry. by apply Hown.
  - intros x xb Hx. apply lookup_insert_is_Some'. right. by eapply Hlib.
  - intros d Hd. cbn. pose proof (wf_next_db _ W _ Hd). lia.
  - intros l [->|Hl]%lookup_insert_is_Some'; cbn.
    + pose proof (wf_next_lib _ W _ (mk_is_Some _ _ HL)). lia.
    + pose proof (wf_next_lib _ W _ Hl). lia.
  - exact Hlt.
Qed.

Lemma owns_design_insert h x xb l y k m :
  owns_design (<[x:=xb]> h) l y k m <->
    (owns_design h l y k m /\ y <> x) \/ (y = x /\ d_library xb = l /\ d_id xb = k /\ d_name xb = m).
Proof.
  unfold owns_design. split.
  - intros (z & [[<- <-]|[Hne Hz]]%lookup_insert_Some & H); [by right|]. left. split; [|done]. by exists z.
  - intros [[(z & Hz & H) Hne]|(-> & H)].
    + exists z. split; [|done]. by rewrite lookup_insert_ne.
    + exists xb. split; [apply lookup_insert_eq|done].
Qed.

(** Entering a new design in the library it points to. *)
Lemma wf_new_design u L lb xb :
  universe_wf u -> libHeap u !! L = Some lb -> d_library xb = L ->
  0 <= d_id xb < 2 ^ 32 -> lib_getSNLDesign (d_id xb) lb = None ->
  (d_name xb <> 0 -> lib_getSNLDesignByName (d_name xb) lb = None) ->
  universe_wf (mkUniverse (dbs u) (db0_ u) (topDB_ u) (dbHeap u)
    (<[L:=lib_set_designs (add_object (d_id xb) (d_name xb) (next u) (lib_designs lb)) lb]> (libHeap u))
    (<[next u:=xb]> (designHeap u)) (Pos.succ (next u))).
Proof.
  intros W HL Hlib Hid Hfree Hname.
  assert (Hnew : designHeap u !! next u = None).
  { apply eq_None_not_Some. intros H. pose proof (wf_next_design _ W _ H). lia. }
  apply wf_change_designs; [done..| | | | |lia].
  - eapply (represents_add (wf_designs _ W _ _ HL)); [exact Hid|exact Hfree|exact Hname| |].
    + intros k n (z & Hz & _). congruence.
    + intros y k n. rewrite owns_design_insert. split; [naive_solver|].
      intros [H|(-> & -> & ->)]; [|by auto]. left. split; [done|]. intros ->. destruct H as (z & Hz & _). congruence.
  - intros l y k m Hne. rewrite owns_design_insert. split; [naive_solver|]. intros H. left. split; [done|].
    intros ->. destruct H as (z & Hz & _). congruence.
  - intros y z [[<- <-]|[_ Hz]]%lookup_insert_Some; [by rewrite Hlib, HL|]. by eapply (wf_library_of _ W).
  - intros y [->|Hy]%lookup_insert_is_Some'; [lia|]. pose proof (wf_next_design _ W _ Hy). lia.
Qed.

Lemma design_preCreate_ok l type name u lb (Q : unit -> universe -> Prop) :
  libHeap u !! l = Some lb ->
  ((name <> 0 -> lib_getSNLDesignByName name lb = None) -> (type = DPrimitive <-> isPrimitives lb = true) -> Q tt u) ->
  wp (design_preCreate l type name) u Q (unchanged u).
Proof.
  intros Hl HQ. unfold design_preCreate. wp_run. apply wp_check; [|done]. intros H1. wp_run. apply wp_check; [|done].
  intros H2. apply wp_check; [|done]. intros H3. apply HQ; [by apply name_free|].
  destruct (isPrimitives lb), (decide (type = DPrimitive)) as [E|E];
    rewrite ?(bool_decide_eq_true_2 _ E), ?(bool_decide_eq_false_2 _ E) in *; naive_solver.
Qed.

Lemma design_create_ok l type name u lb :
  universe_wf u -> libHeap u !! l = Some lb -> room 32 (objects (lib_designs lb)) ->
  wp (design_create l type name) u (fun x u' => universe_wf u' /\ x = next u /\
    exists id, designHeap u' = <[x:=mkDesign id name type l]> (designHeap u)) (unchanged u).
Proof.
  intros W Hl Hroom. unfold design_create. wp_run. apply design_preCreate_ok with lb; [done|]. intros Hname _.
  wp_run. rewrite wp_new_design. unfold addSNLDesignAndSetID, addSNLDesign. wp_run.
  pose proof (next_id_fresh 32 (objects (lib_designs lb))) as Hfresh. destruct Hfresh as (Hfree & Hid & _); [|lia|].
  { apply room_bound; [|done]. intros k x [n Hx]%(rep_objects _ _ _ (wf_designs _ W _ _ Hl)).
    by apply (rep_bound _ _ _ (wf_designs _ W _ _ Hl)) in Hx as [? _]. }
  rewrite insert_insert_eq. split; [|split; [done|by eexists]].
  exact (wf_new_design u l lb (mkDesign _ name type l) W Hl eq_refl Hid Hfree Hname).
Qed.

Lemma design_create_id_ok l id type name u lb :
  universe_wf u -> libHeap u !! l = Some lb -> 0 <= id < 2 ^ 32 ->
  wp (design_create_id l id type name) u (fun x u' => universe_wf u' /\ x = next u /\
    designHeap u' = <[x:=mkDesign id name type l]> (designHeap u)) (unchanged u).
Proof.
  intros W Hl Hid. unfold design_create_id, design_preCreate_id. wp_run.
  apply design_preCreate_ok with lb; [done|]. intros Hname _. wp_run. apply wp_check; [|done]. intros Hfree%is_none_true.
  wp_run. rewrite wp_new_design. unfold addSNLDesign. wp_run. split; [|done].
  exact (wf_new_design u l lb (mkDesign id name type l) W Hl eq_refl Hid Hfree Hname).
Qed.

(** Replacing a design in its library, whose registry is updated to match. *)
Lemma wf_replace_design u x xb xb' L lb r :
  universe_wf u -> designHeap u !! x = Some xb -> d_library xb = L -> d_library xb' = L -> libHeap u !! L = Some lb ->
  represents 32 (owns_design (<[x:=xb']> (designHeap u)) L) r ->
  universe_wf (mkUniverse (dbs u) (db0_ u) (topDB_ u) (dbHeap u) (<[L:=lib_set_designs r lb]> (libHeap u))
    (<[x:=xb']> (designHeap u)) (next u)).
Proof.
  intros W Hx Hlib Hlib' HL Hr. apply wf_change_designs; [done..| | | |lia].
  - intros l y k m Hne. rewrite owns_design_insert. split; [naive_solver|]. intros H. left. split; [done|].
    intros ->. destruct H as (z & Hz & E & _). congruence.
  - intros y z [[<- <-]|[_ Hz]]%lookup_insert_Some; [by rewrite Hlib', HL|]. by eapply (wf_library_of _ W).
  - intros y [->|Hy]%lookup_insert_is_Some'; apply (wf_next_design _ W); [by rewrite Hx|done].
Qed.

Lemma design_setName_ok x name u xb :
  universe_wf u -> designHeap u !! x = Some xb ->
  wp (design_setName x name) u (fun _ u' => universe_wf u' /\
    designHeap u' = <[x:=d_set_name name xb]> (designHeap u)) (unchanged u).
Proof.
  intros W Hx. destruct (wf_library_of _ W _ _ Hx) as [lb Hl]. pose proof (wf_designs _ W _ _ Hl) as R.
  unfold design_setName. wp_run. destruct (Z.eqb_spec (d_name xb) name) as [<-|Hne].
  { wp_run. split; [done|]. rewrite insert_id; [done|]. rewrite Hx. by destruct xb. }
  assert (Hgo : (name <> 0 -> lib_getSNLDesignByName name lb = None) ->
    wp (put_design x (d_set_name name xb) ≫= fun _ => lib_renameDesign (d_library xb) x (d_name xb)) u
      (fun _ u' => universe_wf u' /\ designHeap u' = <[x:=d_set_name name xb]> (designHeap u)) (unchanged u)).
  { intros Hname.
    destruct (represents_rename R (owns_design (<[x:=d_set_name name xb]> (designHeap u)) (d_library xb))
      (d_id xb) name (d_name xb) x) as (r & Hr & R'); [by exists xb|congruence|done| |].
    { intros y k n. rewrite owns_design_insert. cbn. naive_solver. }
    unfold lib_renameDesign. wp_run. split; [|done].
    exact (wf_replace_design u x xb (d_set_name name xb) _ lb r W Hx eq_refl eq_refl Hl R'). }
  destruct (is_empty_name name) eqn:E.
  - apply Hgo. apply Z.eqb_eq in E. done.
  - rewrite !wp_bind. eapply wp_deref; [exact Hl|]. apply wp_check; [|done]. intros Hn%is_none_true. by apply Hgo.
Qed.

Lemma represents_same_view u x xb xb' l r :
  designHeap u !! x = Some xb -> d_library xb' = d_library xb -> d_id xb' = d_id xb -> d_name xb' = d_name xb ->
  represents 32 (owns_design (designHeap u) l) r ->
  represents 32 (owns_design (<[x:=xb']> (designHeap u)) l) r.
Proof.
  intros Hx El Ei En. apply represents_ext. intros y k n. rewrite owns_design_insert. split.
  - intros (z & Hz & H). destruct (decide (y = x)) as [->|Hne]; [right|left; split; [by exists z|done]].
    rewrite Hx in Hz. injection Hz as <-. rewrite El, Ei, En. done.
  - intros [[H _]|(-> & H)]; [done|]. exists xb. by rewrite <- El, <- Ei, <- En.
Qed.

Lemma design_setType_ok x type u xb :
  universe_wf u -> designHeap u !! x = Some xb ->
  wp (design_setType x type) u (fun _ u' => universe_wf u' /\ type <> DPrimitive /\
    designHeap u' = <[x:=d_set_type type xb]> (designHeap u)) (unchanged u).
Proof.
  intros W Hx. destruct (wf_library_of _ W _ _ Hx) as [lb Hl].
  unfold design_setType. wp_run. apply wp_check; [|done]. intros Ht. guards. wp_run. split; [|done].
  pose proof (wf_replace_design u x xb (d_set_type type xb) (d_library xb) lb (lib_designs lb) W Hx eq_refl eq_refl Hl) as H.
  rewrite (insert_id (libHeap u)) in H by (rewrite Hl; by destruct lb). apply H.
  apply (represents_same_view _ _ xb); [done..|]. exact (wf_designs _ W _ _ Hl).
Qed.

Lemma design_destroy_ok x u xb :
  universe_wf u -> designHeap u !! x = Some xb ->
  wp (design_destroy x) u (fun _ u' => universe_wf u' /\ designHeap u' = delete x (designHeap u)) (unchanged u).
Proof.
  intros W Hx. destruct (wf_library_of _ W _ _ Hx) as [lb Hl]. pose proof (wf_designs _ W _ _ Hl) as R.
  assert (Hown : forall l y k n, owns_design (delete x (designHeap u)) l y k n <->
    owns_design (designHeap u) l y k n /\ y <> x).
  { intros l y k n. unfold owns_design. setoid_rewrite lookup_delete_Some. naive_solver. }
  unfold design_destroy, removeSNLDesign. wp_run. split; [|done].
  apply (wf_change_designs u (d_library xb) lb (remove_object (d_id xb) (d_name xb) (lib_designs lb))
    (delete x (designHeap u)) (next u) W Hl); [| | | |lia].
  - apply (represents_remove R) with x; [by exists xb|]. intros y k n. rewrite Hown. done.
  - intros l y k m Hne. rewrite Hown. split; [by intros []|]. intros H. split; [done|]. intros ->.
    destruct H as (z & Hz & E & _). congruence.
  - intros y z [_ Hz]%lookup_delete_Some. by eapply (wf_library_of _ W).
  - intros y [_ Hy]%lookup_delete_is_Some. by apply (wf_next_design _ W).
Qed.
