(* ===== verification/UniverseLibraries.v ===== *)
(** The operations on databases and libraries keep the hierarchy's invariant. *)
From S2P Require Import Prelude NLID Store Universe UniverseInvariant.
Local Open Scope Z_scope.

(** * Databases *)

Lemma in_db_has_db u l d : universe_wf u -> in_db (tree u) l d -> is_Some (dbHeap u !! d).
Proof.
  intros W H. destruct (in_db_total W l (in_db_lookup _ _ _ H)) as (d' & H' & Hd).
  by rewrite (in_db_functional _ _ _ _ H H').
Qed.

(** Replacing a database by one with the same identifier and set. *)
Lemma wf_change_db u d b b' :
  universe_wf u -> dbHeap u !! d = Some b -> db_id b' = db_id b ->
  objects (db_libraries b') = objects (db_libraries b) ->
  universe_wf (set_dbHeap (<[d:=b']> (dbHeap u)) u).
Proof.
  intros W Hd Hid Ho.
  assert (Hlook : forall e c, <[d:=b']> (dbHeap u) !! e = Some c -> exists c0, dbHeap u !! e = Some c0 /\
    db_id c = db_id c0 /\ objects (db_libraries c) = objects (db_libraries c0)).
  { intros e c [[<- <-]|[_ He]]%lookup_insert_Some; eauto. }
  assert (Hback : forall e c, dbHeap u !! e = Some c -> exists c', <[d:=b']> (dbHeap u) !! e = Some c' /\ db_id c' = db_id c).
  { intros e c He. destruct (decide (e = d)) as [->|Hne].
    - exists b'. rewrite lookup_insert_eq. split; [done|]. congruence.
    - exists c. by rewrite lookup_insert_ne. }
  split; heap_simpl; try apply W.
  - intros k e. rewrite (wf_dbs _ W). split.
    + intros (c & Hc & <-). destruct (Hback _ _ Hc) as (c' & ? & ?). eauto.
    + intros (c & Hc & <-). destruct (Hlook _ _ Hc) as (c' & ? & ? & _). eauto.
  - intros e c Hc. destruct (Hlook _ _ Hc) as (c0 & H0 & -> & _). exact (wf_db_bound _ W _ _ H0).
  - intros e c Hc. destruct (Hlook _ _ Hc) as (c0 & H0 & _ & ->). exact (wf_db_libraries _ W _ _ H0).
  - intros l i Hi. generalize (wf_parent _ W l i Hi). unfold parent_ok. heap_simpl. destruct (i_parent i); [|done].
    intros [c Hc]. destruct (Hback _ _ Hc) as (c' & -> & _). done.
  - intros e [c Hc]. destruct (Hlook _ _ Hc) as (c0 & H0 & _). apply (wf_next_db _ W). by rewrite H0.
Qed.

(** Entering a new database under a free identifier. *)
Lemma wf_new_db u id :
  universe_wf u -> 0 <= id < 2 ^ 8 -> universe_getDB id u = None ->
  universe_wf (mkUniverse (set_insert id (next u) (dbs u)) (db0_ u) (topDB_ u)
    (<[next u:=mkDB id empty_registry None]> (dbHeap u)) (libHeap u) (designHeap u) (Pos.succ (next u))).
Proof.
  intros W Hid Hfree. unfold universe_getDB in Hfree.
  assert (Hnew : dbHeap u !! next u = None).
  { apply eq_None_not_Some. intros H. pose proof (wf_next_db _ W _ H). lia. }
  split; heap_simpl; try apply W.
  - intros k e. unfold set_insert. rewrite Hfree, lookup_insert_Some, (wf_dbs _ W). split.
    + intros [[<- <-]|[Hne (b & Hb & <-)]].
      * eexists. by rewrite lookup_insert_eq.
      * exists b. rewrite lookup_insert_ne; [done|congruence].
    + intros (b & [[<- <-]|[Hne Hb]]%lookup_insert_Some & <-); [by left|]. right. split; [|eauto].
      intros ->. assert (dbs u !! db_id b = Some e) by (apply (wf_dbs _ W); eauto). congruence.
  - intros e b [[<- <-]|[_ Hb]]%lookup_insert_Some; [done|exact (wf_db_bound _ W _ _ Hb)].
  - intros e b [[<- <-]|[_ Hb]]%lookup_insert_Some; [|exact (wf_db_libraries _ W _ _ Hb)].
    intros k l. cbn. rewrite lookup_empty. split; [done|]. intros [[? H]%(in_db_has_db _ _ _ W) _]. congruence.
  - intros l i Hi. generalize (wf_parent _ W l i Hi). unfold parent_ok. heap_simpl. destruct (i_parent i) as [e|]; [|done].
    intros [b Hb]. exists b. rewrite lookup_insert_ne; [done|congruence].
  - intros e [->|He]%lookup_insert_is_Some'; [lia|]. pose proof (wf_next_db _ W _ He). lia.
  - intros l Hl. pose proof (wf_next_lib _ W _ Hl). lia.
  - intros l Hl. pose proof (wf_next_design _ W _ Hl). lia.
Qed.

Lemma db_create_ok u :
  universe_wf u -> room 8 (dbs u) ->
  wp db_create u (fun d u' => universe_wf u' /\ d = next u /\
    exists id, dbHeap u' = <[d:=mkDB id empty_registry None]> (dbHeap u)) (unchanged u).
Proof.
  intros W Hroom. unfold db_create. wp_run. rewrite wp_new_db. unfold addDBAndSetID, addDB. wp_run.
  rewrite insert_insert_eq. destruct (next_id_fresh 8 (dbs u)) as (Hfree & Hid & _); [|lia|].
  { apply room_bound; [|done]. intros k d (b & Hb & <-)%(wf_dbs _ W). by apply (wf_db_bound _ W) in Hb as [? _]. }
  split; [exact (wf_new_db u _ W Hid Hfree)|by eauto].
Qed.

Lemma db_create_id_ok id u :
  universe_wf u -> 0 <= id < 2 ^ 8 ->
  wp (db_create_id id) u (fun d u' => universe_wf u' /\ d = next u /\
    dbHeap u' = <[d:=mkDB id empty_registry None]> (dbHeap u)) (unchanged u).
Proof.
  intros W Hid. unfold db_create_id. wp_run. apply wp_check; [|done]. intros Hfree%is_none_true.
  wp_run. rewrite wp_new_db. unfold addDB. wp_run. split; [exact (wf_new_db u _ W Hid Hfree)|done].
Qed.

(** A database takes a free identifier. *)
Lemma db_setID_ok d id u b :
  universe_wf u -> dbHeap u !! d = Some b -> 0 <= id < 2 ^ 8 ->
  (forall e, universe_getDB id u = Some e -> e = d) ->
  wp (db_setID d id) u (fun _ u' => universe_wf u' /\ dbHeap u' = <[d:=db_set_id id b]> (dbHeap u)) (unchanged u).
Proof.
  intros W Hb Hid Hfree. unfold universe_getDB in Hfree. unfold db_setID, removeDB, addDB. wp_run. split; [|done].
  assert (Hd : dbs u !! db_id b = Some d) by (apply (wf_dbs _ W); eauto).
  assert (Hnone : delete (db_id b) (dbs u) !! id = None).
  { destruct (decide (id = db_id b)) as [->|Hne]; [apply lookup_delete_eq|].
    rewrite lookup_delete_ne by congruence. apply eq_None_not_Some. intros [e He].
    pose proof (Hfree e He) as ->. apply (wf_dbs _ W) in He as (b' & Hb' & <-). congruence. }
  split; heap_simpl; try apply W.
  - intros k e. unfold set_insert. rewrite Hnone, lookup_insert_Some, lookup_delete_Some, (wf_dbs _ W). split.
    + intros [[<- <-]|(Hne & Hk & c & Hc & <-)].
      * eexists. by rewrite lookup_insert_eq.
      * exists c. rewrite lookup_insert_ne; [done|]. intros ->. congruence.
    + intros (c & [[<- <-]|[Hne Hc]]%lookup_insert_Some & <-); [by left|]. right.
      assert (db_id c <> db_id b).
      { intros E. assert (dbs u !! db_id b = Some e) by (apply (wf_dbs _ W); eauto). congruence. }
      split; [|split; [done|by eauto]]. intros ->.
      assert (dbs u !! db_id c = Some e) as He by (apply (wf_dbs _ W); eauto). by apply Hfree in He as ->.
  - intros e c [[<- <-]|[_ Hc]]%lookup_insert_Some; [done|exact (wf_db_bound _ W _ _ Hc)].
  - intros e c [[<- <-]|[_ Hc]]%lookup_insert_Some; [exact (wf_db_libraries _ W _ _ Hb)|exact (wf_db_libraries _ W _ _ Hc)].
  - intros l i Hi. generalize (wf_parent _ W l i Hi). unfold parent_ok. heap_simpl. destruct (i_parent i) as [e|]; [|done].
    intros He. apply lookup_insert_is_Some'. by right.
  - intros e [->|He]%lookup_insert_is_Some'; apply (wf_next_db _ W); [by rewrite Hb|done].
Qed.

Lemma setTopDB_ok d u : universe_wf u -> wp (setTopDB d) u (fun _ u' => universe_wf u') (unchanged u).
Proof.
  intros W. unfold setTopDB. wp_run. apply wp_check; [|done]. intros _. wp_run. split; try apply W.
Qed.

Lemma db_setTopDesign_ok d x u b xb :
  universe_wf u -> dbHeap u !! d = Some b -> designHeap u !! x = Some xb ->
  wp (db_setTopDesign d (Some x)) u (fun _ u' => universe_wf u' /\ u' = set_dbHeap (<[d:=db_set_top (Some x) b]> (dbHeap u)) u)
    (unchanged u).
Proof.
  intros W Hb Hx. destruct (wf_library_of _ W _ _ Hx) as [lb Hl].
  destruct (lib_getDB_total W _ _ Hl) as (e & c & He & _). unfold db_setTopDesign. wp_run.
  apply wp_check; [|done]. intros _. wp_run. split; [|done]. by apply wf_change_db with b.
Qed.

(** * Entering libraries *)

Section new_library.
Context {u : universe} (W : universe_wf u) {d : loc} {b : NLDB} (Hd : dbHeap u !! d = Some b).
Context {lb : NLLibrary} (Hsub : lib_libraries lb = empty_registry) (Hdesigns : lib_designs lb = empty_registry).
Context (Hid : 0 <= lib_id lb < 2 ^ 16) (Hfree : db_getLibrary (lib_id lb) b = None).

Definition entered (lb : NLLibrary) (u : universe) : gmap loc libinfo := <[next u:=info lb]> (tree u).

Definition parent_in (u : universe) (lb : NLLibrary) (d : loc) : Prop :=
  match lib_parent lb with
  | ParentDB d' => d' = d
  | ParentLibrary p => in_db (tree u) p d /\ exists pb, libHeap u !! p = Some pb /\ lib_type pb = lib_type lb /\
      (lib_name lb <> 0 -> lib_getLibraryByName (lib_name lb) pb = None)
  end.
Context (Hpar : parent_in u lb d).

Lemma tree_next : tree u !! next u = None.
Proof.
  apply eq_None_not_Some. intros [i (l & Hl & _)%tree_lookup_inv].
  pose proof (wf_next_lib _ W _ (mk_is_Some _ _ Hl)). lia.
Qed.

Lemma parent_before l i p : tree u !! l = Some i -> i_parent i = ParentLibrary p -> p <> next u.
Proof.
  intros Hi Hp ->. pose proof (wf_parent _ W _ _ Hi) as H. unfold parent_ok in H. rewrite Hp in H.
  destruct H as (_ & j & Hj & _). by rewrite tree_next in Hj.
Qed.

Lemma entered_lookup l i :
  entered lb u !! l = Some i <-> (l = next u /\ i = info lb) \/ (l <> next u /\ tree u !! l = Some i).
Proof. unfold entered. rewrite lookup_insert_Some. naive_solver. Qed.

Lemma in_db_entered_old x e : x <> next u -> in_db (entered lb u) x e <-> in_db (tree u) x e.
Proof.
  intros Hx. unfold entered. split; apply (in_db_agree (fun y => y <> next u)); try done; intros y i Hy Hi.
  - rewrite lookup_insert_ne in Hi by done. split; [by exists i|]. intros p. by apply (parent_before y i).
  - split; [exists i; by rewrite lookup_insert_ne|]. intros p. by apply (parent_before y i).
Qed.

Lemma in_db_entered x e : in_db (entered lb u) x e <-> (x = next u /\ e = d) \/ (x <> next u /\ in_db (tree u) x e).
Proof.
  destruct (decide (x = next u)) as [->|Hx]; [|rewrite in_db_entered_old by done; naive_solver].
  rewrite (in_db_unfold _ _ (info lb)) by apply lookup_insert_eq. cbn. unfold parent_in in Hpar.
  destruct (lib_parent lb) as [d'|p]; [naive_solver|]. destruct Hpar as (Hp & pb & Hpb & _).
  rewrite in_db_entered_old.
  - split; [|naive_solver]. intros H. left. split; [done|exact (in_db_functional _ _ _ _ H Hp)].
  - intros ->. apply in_db_lookup in Hp as [i Hi]. by rewrite tree_next in Hi.
Qed.

Lemma owns_library_entered p x k n :
  owns_library (entered lb u) p x k n <->
    owns_library (tree u) p x k n \/ (x = next u /\ k = lib_id lb /\ n = lib_name lb /\ lib_parent lb = ParentLibrary p).
Proof.
  unfold owns_library, entered. split.
  - intros (i & [[<- <-]|[Hne Hi]]%lookup_insert_Some & H); [right; cbn in H; naive_solver|left; by exists i].
  - intros [(i & Hi & H)|(-> & -> & -> & H)]; [|exists (info lb); by rewrite lookup_insert_eq].
    exists i. rewrite lookup_insert_ne; [done|]. intros <-. by rewrite tree_next in Hi.
Qed.

(** No library of the database has the new identifier. *)
Lemma free_in_db x i : in_db (tree u) x d -> tree u !! x = Some i -> i_id i <> lib_id lb.
Proof.
  intros Hx Hi E. assert (objects (db_libraries b) !! lib_id lb = Some x) as H
    by (apply (wf_db_libraries _ W _ _ Hd); eauto).
  unfold db_getLibrary, find_by_id in Hfree. congruence.
Qed.

(** The new library enters its parent's set. *)
Lemma represents_parent p pb :
  lib_parent lb = ParentLibrary p -> libHeap u !! p = Some pb ->
  represents 16 (owns_library (entered lb u) p) (add_object (lib_id lb) (lib_name lb) (next u) (lib_libraries pb)).
Proof.
  intros Ep Hpb. unfold parent_in in Hpar. rewrite Ep in Hpar. destruct Hpar as (Hp & pb' & Hpb' & _ & Hname).
  rewrite Hpb in Hpb'. injection Hpb' as <-. pose proof (wf_libraries _ W _ _ Hpb) as R.
  apply (represents_add R); [exact Hid| |exact Hname| |].
  - unfold find_by_id. destruct (objects (lib_libraries pb) !! lib_id lb) as [x|] eqn:E; [|done].
    apply (rep_objects _ _ _ R) in E as (n & i & Hi & Hq & Ek & _). exfalso. apply (free_in_db x i); [|done|done].
    by eapply in_db_nested.
  - intros k n (i & Hi & _). by rewrite tree_next in Hi.
  - intros x k n. rewrite owns_library_entered. naive_solver.
Qed.

Lemma wf_entered (H' : gmap loc NLLibrary) (names : gmap Z Z) :
  info <$> H' = entered lb u ->
  (forall x xb', H' !! x = Some xb' -> (x = next u /\ xb' = lb) \/
     (x <> next u /\ exists xb, libHeap u !! x = Some xb /\ lib_designs xb' = lib_designs xb /\
        represents 16 (owns_library (entered lb u) x) (lib_libraries xb'))) ->
  universe_wf (mkUniverse (dbs u) (db0_ u) (topDB_ u)
    (<[d:=db_set_libraries (mkRegistry (set_insert (lib_id lb) (next u) (objects (db_libraries b))) names) b]> (dbHeap u))
    H' (designHeap u) (Pos.succ (next u))).
Proof.
  intros T HH. pose proof (wf_change_db u d b (db_set_libraries (mkRegistry (objects (db_libraries b)) names) b) W Hd
    eq_refl eq_refl) as W0.
  assert (Hlib : forall x, is_Some (H' !! x) <-> x = next u \/ is_Some (libHeap u !! x)).
  { intros x. transitivity (is_Some (entered lb u !! x)); [rewrite <- T, lookup_fmap, fmap_is_Some; done|].
    unfold entered. rewrite lookup_insert_is_Some'. unfold tree. rewrite lookup_fmap, fmap_is_Some. naive_solver. }
  split; unfold tree; heap_simpl; rewrite ?T.
  - intros k e. rewrite (wf_dbs _ W0). heap_simpl. split; intros (c & Hc & <-);
      apply lookup_insert_Some in Hc as [[<- <-]|[? Hc]]; eexists; (rewrite lookup_insert_eq || rewrite lookup_insert_ne by done); done.
  - intros e c [[<- <-]|[_ Hc]]%lookup_insert_Some; [exact (wf_db_bound _ W _ _ Hd)|exact (wf_db_bound _ W _ _ Hc)].
  - intros e c Hc k l. rewrite in_db_entered. apply lookup_insert_Some in Hc as [[<- <-]|[Hne Hc]].
    + cbn. unfold set_insert. unfold db_getLibrary, find_by_id in Hfree. rewrite Hfree, lookup_insert_Some,
        (wf_db_libraries _ W _ _ Hd). unfold entered. split.
      * intros [[<- <-]|(Hk & Hin & i & Hi & <-)]; [split; [by left|]; exists (info lb); by rewrite lookup_insert_eq|].
        assert (l <> next u) by (intros ->; by rewrite tree_next in Hi).
        split; [by right|]. exists i. by rewrite lookup_insert_ne.
      * intros [[[-> _]|[Hne Hin]] (i & Hi & <-)]; [rewrite lookup_insert_eq in Hi; injection Hi as <-; by left|].
        rewrite lookup_insert_ne in Hi by done. right. split; [|by eauto]. intros E. by apply (free_in_db l i).
    + rewrite (wf_db_libraries _ W _ _ Hc). unfold entered. split.
      * intros (Hin & i & Hi & <-). assert (l <> next u) by (intros ->; by rewrite tree_next in Hi).
        split; [by right|]. exists i. by rewrite lookup_insert_ne.
      * intros [[[-> ->]|[Hl Hin]] (i & Hi & <-)]; [done|]. rewrite lookup_insert_ne in Hi by done. eauto.
  - intros l i [[-> ->]|[_ Hi]]%entered_lookup; [done|exact (wf_lib_bound _ W _ _ Hi)].
  - intros l i Hi. unfold parent_ok, tree. heap_simpl. rewrite T. apply entered_lookup in Hi as [[-> ->]|[Hne Hi]].
    + cbn. unfold parent_in in Hpar. destruct (lib_parent lb) as [d'|p]; [subst d'; by rewrite lookup_insert_eq|].
      destruct Hpar as (_ & pb & Hpb & Ht & _). pose proof (wf_next_lib _ W _ (mk_is_Some _ _ Hpb)).
      split; [done|]. exists (info pb). unfold entered. rewrite lookup_insert_ne by lia.
      split; [by apply tree_lookup|done].
    + generalize (wf_parent _ W _ _ Hi). unfold parent_ok. destruct (i_parent i) as [e|p] eqn:Ep.
      * intros He. apply lookup_insert_is_Some'. by right.
      * intros (Hlt & j & Hj & Et). split; [done|]. exists j. unfold entered. rewrite lookup_insert_ne; [done|].
        intros <-. by rewrite tree_next in Hj.
  - intros x xb' Hx. destruct (HH _ _ Hx) as [[-> ->]|(_ & xb & _ & _ & R)]; [|done]. rewrite Hsub.
    apply represents_empty. intros l k n Hown. apply owns_library_entered in Hown as [(i & Hi & Hp & _)|(_ & _ & _ & Hp)].
    + by apply (parent_before _ _ _ Hi) in Hp.
    + unfold parent_in in Hpar. rewrite Hp in Hpar. destruct Hpar as (Hin & _). apply in_db_lookup in Hin as [i Hi].
      by rewrite tree_next in Hi.
  - intros x xb' Hx. destruct (HH _ _ Hx) as [[-> ->]|(_ & xb & Hxb & -> & _)]; [|exact (wf_designs _ W _ _ Hxb)].
    rewrite Hdesigns. apply represents_empty. intros l k n (z & Hz & E & _).
    destruct (wf_library_of _ W _ _ Hz) as [? Hn]. rewrite E in Hn. pose proof (wf_next_lib _ W _ (mk_is_Some _ _ Hn)). lia.
  - intros x xb Hx. apply Hlib. right. by eapply (wf_library_of _ W).
  - intros e [->|He]%lookup_insert_is_Some'; [pose proof (wf_next_db _ W _ (mk_is_Some _ _ Hd)); lia|].
    pose proof (wf_next_db _ W _ He). lia.
  - intros l [->|Hl]%Hlib; [lia|]. pose proof (wf_next_lib _ W _ Hl). lia.
  - intros x Hx. pose proof (wf_next_design _ W _ Hx). lia.
Qed.

(** A library that is allocated enters its database and its parent. *)
Lemma enter_ok :
  wp (db_addLibrary d (next u) ≫= fun _ => enter_in_parent (next u) ≫= fun _ => mret (next u))
    (bump (set_libHeap (<[next u:=lb]> (libHeap u)) u))
    (fun l u' => universe_wf u' /\ l = next u /\ tree u' = entered lb u) (unchanged u).
Proof.
  unfold db_addLibrary, enter_in_parent. wp_run.
  assert (Hsame : info <$> <[next u:=lb]> (libHeap u) = entered lb u) by apply fmap_insert.
  destruct (lib_parent lb) as [d'|p] eqn:Ep.
  - wp_run. split; [|done]. apply (wf_entered (<[next u:=lb]> (libHeap u))); [done|].
    intros x xb' [[<- <-]|[Hne Hx]]%lookup_insert_Some; [by left|]. right. split; [done|]. exists xb'.
    split; [done|]. split; [done|]. eapply represents_ext; [|exact (wf_libraries _ W _ _ Hx)].
    intros. rewrite owns_library_entered. rewrite Ep. naive_solver.
  - unfold lib_addLibrary. pose proof Hpar as Hp'. unfold parent_in in Hp'. rewrite Ep in Hp'.
    destruct Hp' as (Hp & pb & Hpb & Ht & Hname).
    assert (Hne : next u <> p) by (intros <-; pose proof (wf_next_lib _ W _ (mk_is_Some _ _ Hpb)); lia).
    wp_run. assert (Hpb' : <[next u:=lb]> (libHeap u) !! p = Some pb) by (by rewrite lookup_insert_ne).
    assert (T : info <$> <[p:=lib_set_libraries (add_object (lib_id lb) (lib_name lb) (next u) (lib_libraries pb)) pb]>
      (<[next u:=lb]> (libHeap u)) = entered lb u) by (by rewrite (tree_same _ _ pb)).
    split; [|done]. refine (wf_entered (<[p:=_]> (<[next u:=lb]> (libHeap u))) _ T _).
    intros x xb' [[<- <-]|[Hx1 [[<- <-]|[Hx2 Hx]]%lookup_insert_Some]]%lookup_insert_Some; [|by left|].
    + right. split; [done|]. exists pb. split; [done|]. split; [done|]. by apply represents_parent.
    + right. split; [done|]. exists xb'. split; [done|]. split; [done|].
      eapply represents_ext; [|exact (wf_libraries _ W _ _ Hx)]. intros. rewrite owns_library_entered, Ep. naive_solver.
Qed.

Lemma getDB_from_new fuel p : p <> next u ->
  getDB_from fuel (<[next u:=lb]> (libHeap u)) p = getDB_from fuel (libHeap u) p.
Proof.
  revert p. induction fuel as [|fuel IH]; intros p Hp; [done|]. cbn. rewrite lookup_insert_ne by done.
  destruct (libHeap u !! p) as [pb|] eqn:Hpb; [|done]. destruct (lib_parent pb) as [|q] eqn:E; [done|].
  apply IH. by apply (parent_before p (info pb)); [apply tree_lookup|].
Qed.

Lemma lib_getDB_new : lib_getDB (next u) (bump (set_libHeap (<[next u:=lb]> (libHeap u)) u)) = Some d.
Proof.
  unfold lib_getDB. heap_simpl. destruct (Pos.to_nat (next u)) as [|fuel] eqn:E; [lia|]. cbn.
  rewrite lookup_insert_eq. unfold parent_in in Hpar. destruct (lib_parent lb) as [d'|p]; [by subst|].
  destruct Hpar as (Hp & pb & Hpb & _). pose proof (wf_next_lib _ W _ (mk_is_Some _ _ Hpb)) as Hlt.
  rewrite getDB_from_new by (intros ->; lia). apply (getDB_from_spec W); [lia|done].
Qed.
End new_library.

(** What the checks before creation establish. *)
Lemma library_preCreate_ok par type name u d b (Q : unit -> universe -> Prop) :
  universe_wf u -> parent_getDB par u = Some d -> dbHeap u !! d = Some b ->
  ((forall id, parent_in u (mkLibrary id name type par empty_registry empty_registry) d) -> Q tt u) ->
  wp (library_preCreate par type name) u Q (unchanged u).
Proof.
  intros W Hd Hb HQ. unfold library_preCreate, parent_in in *. cbn in HQ. destruct par as [d'|p]; cbn in Hd.
  - injection Hd as ->. unfold preCreate_in_db. wp_run. apply wp_check; [|done]. intros _. by apply HQ.
  - apply (lib_getDB_spec W) in Hd. destruct (in_db_lookup _ _ _ Hd) as [i (pb & Hpb & _)%tree_lookup_inv].
    unfold preCreate_in_lib. wp_run. apply wp_check; [|done]. intros Ht. guards. apply wp_check; [|done].
    intros Hn. apply HQ. intros _. split; [done|]. exists pb. split; [done|]. split; [done|]. by apply name_free.
Qed.

Lemma library_create_ok par type name u d b :
  universe_wf u -> parent_getDB par u = Some d -> dbHeap u !! d = Some b -> room 16 (objects (db_libraries b)) ->
  wp (library_create par type name) u (fun l u' => universe_wf u' /\ l = next u /\
    exists id, tree u' = <[l:=mkInfo id name type par]> (tree u)) (unchanged u).
Proof.
  intros W Hd Hb Hroom. unfold library_create. rewrite wp_bind. apply library_preCreate_ok with d b; [done..|].
  intros Hpar. rewrite wp_bind, wp_new_lib, wp_bind. eapply wp_deref; [by apply (lib_getDB_new W (lb := mkLibrary 0 name type par _ _) (Hpar 0))|].
  unfold db_addLibraryAndSetID. wp_run.
  destruct (next_id_fresh 16 (objects (db_libraries b))) as (Hfree & Hid & _); [|lia|].
  { apply room_bound; [|done]. intros k l (_ & i & Hi & <-)%(wf_db_libraries _ W _ _ Hb).
    by apply (wf_lib_bound _ W) in Hi as [? _]. }
  set (lb := mkLibrary (next_id 16 (objects (db_libraries b))) name type par empty_registry empty_registry).
  pose proof (enter_ok W Hb (lb := lb) eq_refl eq_refl Hid Hfree (Hpar _)) as H. apply wp_bind in H.
  unfold set_libHeap, bump in *. heap_simpl. rewrite insert_insert_eq.
  apply (wp_mono _ _ _ _ _ _ H); [|done]. intros _ s H'.
  apply (wp_mono _ _ _ _ _ _ H'); [|done]. intros l s' (? & -> & ?). split; [done|]. split; [done|].
  by exists (lib_id lb).
Qed.

Lemma library_create_id_ok par id type name u d b :
  universe_wf u -> parent_getDB par u = Some d -> dbHeap u !! d = Some b -> 0 <= id < 2 ^ 16 ->
  wp (library_create_id par id type name) u (fun l u' => universe_wf u' /\ l = next u /\
    tree u' = <[l:=mkInfo id name type par]> (tree u)) (unchanged u).
Proof.
  intros W Hd Hb Hid. unfold library_create_id, library_preCreate_id. rewrite !wp_bind.
  apply library_preCreate_ok with d b; [done..|]. intros Hpar. wp_run. apply wp_check; [|done].
  intros Hfree%is_none_true. rewrite wp_bind, wp_new_lib, wp_bind.
  set (lb := mkLibrary id name type par empty_registry empty_registry).
  eapply wp_deref; [by apply (lib_getDB_new W (lb := lb) (Hpar id))|].
  apply (wp_mono _ _ _ _ _ _ (enter_ok W Hb (lb := lb) eq_refl eq_refl Hid Hfree (Hpar id))); [|done].
  by intros l u' (? & -> & ?).
Qed.

(** * Renaming libraries *)

Section rename_library.
Context {u : universe} (W : universe_wf u) {l : loc} {lb : NLLibrary} (Hl : libHeap u !! l = Some lb) (name : Z).

Definition renamed : gmap loc libinfo := <[l:=info (lib_set_name name lb)]> (tree u).

Lemma renamed_agree x i : tree u !! x = Some i ->
  exists i', renamed !! x = Some i' /\ i_parent i' = i_parent i /\ i_id i' = i_id i /\ i_type i' = i_type i.
Proof.
  intros Hi. unfold renamed. destruct (decide (x = l)) as [->|Hne].
  - rewrite (tree_lookup _ _ _ Hl) in Hi. injection Hi as <-. eexists. by rewrite lookup_insert_eq.
  - exists i. by rewrite lookup_insert_ne.
Qed.

Lemma renamed_agree_inv x i' : renamed !! x = Some i' ->
  exists i, tree u !! x = Some i /\ i_parent i' = i_parent i /\ i_id i' = i_id i /\ i_type i' = i_type i.
Proof.
  unfold renamed. intros [[<- <-]|[_ Hi]]%lookup_insert_Some; [|by exists i'].
  exists (info lb). by rewrite (tree_lookup _ _ _ Hl).
Qed.

Lemma in_db_renamed x e : in_db renamed x e <-> in_db (tree u) x e.
Proof.
  split; apply (in_db_agree (fun _ => True)); try done; intros y i _ Hi; (split; [|done]).
  - apply renamed_agree_inv in Hi as (j & ? & ? & _). eauto.
  - apply renamed_agree in Hi as (j & ? & ? & _). eauto.
Qed.

Lemma owns_library_renamed p x k n :
  owns_library renamed p x k n <-> (owns_library (tree u) p x k n /\ x <> l) \/
    (x = l /\ lib_parent lb = ParentLibrary p /\ k = lib_id lb /\ n = name).
Proof.
  unfold owns_library, renamed. split.
  - intros (i & [[<- <-]|[Hne Hi]]%lookup_insert_Some & H); [right; cbn in H; naive_solver|].
    left. split; [|done]. by exists i.
  - intros [[(i & Hi & H) Hne]|(-> & H & -> & ->)]; [exists i; by rewrite lookup_insert_ne|].
    exists (info (lib_set_name name lb)). by rewrite lookup_insert_eq.
Qed.

Lemma wf_renamed (H' : gmap loc NLLibrary) :
  info <$> H' = renamed ->
  (forall x xb', H' !! x = Some xb' -> exists xb, libHeap u !! x = Some xb /\ lib_designs xb' = lib_designs xb /\
     represents 16 (owns_library renamed x) (lib_libraries xb')) ->
  universe_wf (set_libHeap H' u).
Proof.
  intros T HH.
  assert (Hlib : forall x, is_Some (H' !! x) <-> is_Some (libHeap u !! x)).
  { intros x. transitivity (is_Some (renamed !! x)); [rewrite <- T, lookup_fmap, fmap_is_Some; done|].
    unfold renamed. rewrite lookup_insert_is_Some'. unfold tree. rewrite lookup_fmap, fmap_is_Some.
    split; [intros [<- | ?]; [by rewrite Hl|done]|by right]. }
  split; unfold tree; heap_simpl; rewrite ?T; try apply W.
  - intros e b Hb k x. rewrite in_db_renamed, (wf_db_libraries _ W _ _ Hb).
    split; (intros [? (i & Hi & <-)]; split; [done|]).
    + apply renamed_agree in Hi as (i' & ? & _ & ? & _). eauto.
    + apply renamed_agree_inv in Hi as (i' & ? & _ & -> & _). eauto.
  - intros x i (i' & Hi & _ & -> & _)%renamed_agree_inv. exact (wf_lib_bound _ W _ _ Hi).
  - intros x i (i' & Hi & Ep & _ & Et)%renamed_agree_inv. generalize (wf_parent _ W _ _ Hi).
    unfold parent_ok, tree. heap_simpl. rewrite T, Ep, Et. destruct (i_parent i') as [e|p]; [done|].
    intros (Hlt & j & (j' & ? & _ & _ & ?)%renamed_agree & E). split; [done|]. exists j'. split; [done|congruence].
  - intros x xb' Hx. by destruct (HH _ _ Hx) as (xb & _ & _ & R).
  - intros x xb' Hx. destruct (HH _ _ Hx) as (xb & Hxb & -> & _). exact (wf_designs _ W _ _ Hxb).
  - intros x xb Hx. apply Hlib. by eapply (wf_library_of _ W).
  - intros x Hx%Hlib. by apply (wf_next_lib _ W).
Qed.

Lemma represents_not_parent x xb : libHeap u !! x = Some xb -> lib_parent lb <> ParentLibrary x ->
  represents 16 (owns_library renamed x) (lib_libraries xb).
Proof.
  intros Hx Hne. eapply represents_ext; [|exact (wf_libraries _ W _ _ Hx)]. intros y k n.
  rewrite owns_library_renamed. split; [|naive_solver]. intros H. left. split; [done|]. intros ->.
  destruct H as (i & Hi & Hp & _). rewrite (tree_lookup _ _ _ Hl) in Hi. injection Hi as <-. done.
Qed.
End rename_library.

(** The two ways of entering the new name. *)
Lemma rename_root_ok l name u lb d b E :
  universe_wf u -> libHeap u !! l = Some lb -> lib_parent lb = ParentDB d -> dbHeap u !! d = Some b ->
  (lib_name lb <> 0 -> is_Some (nameIDs (db_libraries b) !! lib_name lb)) ->
  wp (put_lib l (lib_set_name name lb) ≫= fun _ => d0 ← deref (lib_getDB l); db_rename d0 l (lib_name lb)) u
    (fun _ u' => universe_wf u' /\ tree u' = renamed (u := u) (l := l) (lb := lb) name) E.
Proof.
  intros W Hl Ep Hb Hroot.
  assert (W1 : universe_wf (set_libHeap (<[l:=lib_set_name name lb]> (libHeap u)) u)).
  { apply (wf_renamed W Hl name); [apply fmap_insert|]. intros x xb' Hx.
    assert (exists xb, libHeap u !! x = Some xb /\ lib_designs xb' = lib_designs xb /\ lib_libraries xb' = lib_libraries xb)
      as (xb & Hxb & E1 & E2) by (apply lookup_insert_Some in Hx as [[<- <-]|[_ Hx]]; eauto).
    exists xb. split; [done|]. split; [done|]. rewrite E2. apply represents_not_parent; [done..|]. congruence. }
  assert (Hr : exists r, rename_object (lib_id lb) name (lib_name lb) (db_libraries b) = Some r /\
    objects r = objects (db_libraries b)).
  { unfold rename_object, is_empty_name. destruct (Z.eqb_spec (lib_name lb) 0); [by destruct (name =? 0); eexists|].
    destruct Hroot as [k ->]; [done|]. by eexists. }
  destruct Hr as (r & Hr & Ho). wp_run. eapply wp_deref.
  { unfold lib_getDB. heap_simpl. destruct (Pos.to_nat l) eqn:En; [lia|]. cbn. rewrite lookup_insert_eq. cbn. by rewrite Ep. }
  unfold db_rename. wp_run. split.
  - exact (wf_change_db _ d b (db_set_libraries r b) W1 Hb eq_refl Ho).
  - apply fmap_insert.
Qed.

Lemma rename_nested_ok l name u lb p pb E :
  universe_wf u -> libHeap u !! l = Some lb -> lib_parent lb = ParentLibrary p -> libHeap u !! p = Some pb -> l <> p ->
  lib_name lb <> name -> (name <> 0 -> lib_getLibraryByName name pb = None) ->
  wp (put_lib l (lib_set_name name lb) ≫= fun _ => lib_renameLibrary p l (lib_name lb)) u
    (fun _ u' => universe_wf u' /\ tree u' = renamed (u := u) (l := l) (lb := lb) name) E.
Proof.
  intros W Hl Ep Hpb Hlp Hne Hname.
  destruct (represents_rename (wf_libraries _ W _ _ Hpb) (owns_library (renamed (u := u) (l := l) (lb := lb) name) p)
    (lib_id lb) name (lib_name lb) l) as (r & Hr & R'); [|congruence|done| |].
  - exists (info lb). rewrite (tree_lookup _ _ _ Hl). done.
  - intros x k n. rewrite owns_library_renamed. naive_solver.
  - assert (Hpb' : <[l:=lib_set_name name lb]> (libHeap u) !! p = Some pb) by (by rewrite lookup_insert_ne).
    unfold lib_renameLibrary. wp_run.
    assert (T : info <$> <[p:=lib_set_libraries r pb]> (<[l:=lib_set_name name lb]> (libHeap u)) =
      renamed (u := u) (l := l) (lb := lb) name) by (rewrite (tree_same _ _ pb) by done; apply fmap_insert).
    split; [|exact T]. refine (wf_renamed W Hl name (<[p:=_]> (<[l:=lib_set_name name lb]> (libHeap u))) T _).
    intros x xb' [[<- <-]|[Hx1 [[<- <-]|[Hx2 Hx]]%lookup_insert_Some]]%lookup_insert_Some.
    + by exists pb.
    + exists lb. split; [done|]. split; [done|]. exact (represents_not_parent W Hl name l lb Hl ltac:(congruence)).
    + exists xb'. split; [done|]. split; [done|]. apply represents_not_parent; [done..|]. congruence.
Qed.

(** Renaming a nested library always works; renaming a root needs its old name
    in the database's map. *)
Lemma library_setName_ok l name u lb d b :
  universe_wf u -> libHeap u !! l = Some lb -> in_db (tree u) l d -> dbHeap u !! d = Some b ->
  (lib_isRoot lb = true -> lib_name lb <> 0 -> is_Some (nameIDs (db_libraries b) !! lib_name lb)) ->
  wp (library_setName l name) u (fun _ u' => universe_wf u' /\
    tree u' = renamed (u := u) (l := l) (lb := lb) name) (unchanged u).
Proof.
  intros W Hl Hd Hb Hroot. unfold library_setName. wp_run. pose proof (tree_lookup _ _ _ Hl) as Ht.
  destruct (Z.eqb_spec (lib_name lb) name) as [<-|Hne].
  { wp_run. split; [done|]. unfold renamed. rewrite insert_id; [done|]. rewrite Ht. by destruct lb. }
  destruct (lib_parent lb) as [d'|p] eqn:Ep.
  - rewrite (in_db_unfold _ _ (info lb)) in Hd by done. cbn in Hd. rewrite Ep in Hd. subst d'.
    assert (Hgo : forall E, _) by (intros E; exact (rename_root_ok l name u lb d b E W Hl Ep Hb
      (Hroot ltac:(unfold lib_isRoot; by rewrite Ep)))).
    destruct (is_empty_name name); [apply Hgo|]. rewrite !wp_bind. eapply wp_deref.
    { apply (lib_getDB_spec W). by eapply in_db_root. }
    rewrite wp_bind. eapply wp_deref; [exact Hb|]. apply wp_check; [|done]. intros _. apply Hgo.
  - pose proof (wf_parent _ W _ _ Ht) as Hp. unfold parent_ok in Hp. cbn in Hp. rewrite Ep in Hp.
    destruct Hp as (Hlt & _ & (pb & Hpb & _)%tree_lookup_inv & _). assert (Hlp : l <> p) by (intros ->; lia).
    pose proof (fun H E => rename_nested_ok l name u lb p pb E W Hl Ep Hpb Hlp Hne H) as Hgo.
    destruct (is_empty_name name) eqn:E0.
    { apply Hgo. apply Z.eqb_eq in E0. done. }
    rewrite !wp_bind. eapply wp_deref; [exact Hpb|]. apply wp_check; [|done]. intros Hn%is_none_true. by apply Hgo.
Qed.
