(* ===== verification/UniverseDestroy.v ===== *)
(** Destroying a library removes it, the libraries below it and their designs,
    and nothing else, and keeps the hierarchy's invariant. *)
From S2P Require Import Prelude NLID Store Universe UniverseInvariant UniverseLibraries.
Local Open Scope Z_scope.

(** * Libraries below a library *)

Inductive below (t : gmap loc libinfo) (l : loc) : loc -> Prop :=
| below_self : below t l l
| below_child x i p : t !! x = Some i -> i_parent i = ParentLibrary p -> below t l p -> below t l x.

Section below.
Context {u : universe} (P : parents_ok u).

Lemma below_le l x : below (tree u) l x -> (l <= x)%positive.
Proof.
  induction 1 as [|x i p Hi Hp _ IH]; [lia|]. pose proof (P _ _ Hi) as H. unfold parent_ok in H.
  rewrite Hp in H. lia.
Qed.

Lemma child_lt x i p : tree u !! x = Some i -> i_parent i = ParentLibrary p -> (p < x)%positive.
Proof. intros Hi Hp. pose proof (P _ _ Hi) as H. unfold parent_ok in H. rewrite Hp in H. by destruct H. Qed.

(** Siblings have nothing below in common. *)
Lemma below_siblings l c c' i i' x :
  tree u !! c = Some i -> i_parent i = ParentLibrary l -> tree u !! c' = Some i' -> i_parent i' = ParentLibrary l ->
  below (tree u) c x -> below (tree u) c' x -> c = c'.
Proof.
  intros Hc Hp Hc' Hp' H. revert c' i' Hc' Hp'. induction H as [|x j q Hj Hq H IH]; intros c' i' Hc' Hp' H'.
  - inversion H' as [|? j ? Hj Hq Hb]; subst; [done|]. rewrite Hc in Hj. injection Hj as <-.
    rewrite Hp in Hq. injection Hq as <-. apply below_le in Hb. pose proof (child_lt _ _ _ Hc' Hp'). lia.
  - inversion H' as [|? k ? Hk Hr Hb]; subst.
    + rewrite Hc' in Hj. injection Hj as <-. rewrite Hp' in Hq. injection Hq as <-.
      apply below_le in H. pose proof (child_lt _ _ _ Hc Hp). lia.
    + rewrite Hj in Hk. injection Hk as <-. rewrite Hq in Hr. injection Hr as <-. eauto.
Qed.

(** Below a library are the library and what is below its children. *)
Lemma below_unfold l x :
  below (tree u) l x <-> x = l \/ exists c i, tree u !! c = Some i /\ i_parent i = ParentLibrary l /\ below (tree u) c x.
Proof.
  split.
  - induction 1 as [|x i p Hi Hp H IH]; [by left|]. right. destruct IH as [->|(c & j & Hc & Hcp & Hb)].
    + exists x, i. split; [done|]. split; [done|]. constructor.
    + exists c, j. split; [done|]. split; [done|]. by apply below_child with i p.
  - intros [->|(c & i & Hc & Hp & H)]; [constructor|]. induction H as [|x j p Hj Hq _ IH].
    + by apply below_child with i l; [..|constructor].
    + by apply below_child with j p.
Qed.
End below.

(** * The hierarchy while a library is being destroyed *)

(** The invariant but for the libraries [X], whose own sets are not looked at
    and which no set of another library or of a database outside [Y] holds. *)
Record dying (X Y : loc -> Prop) (u : universe) : Prop := {
  dy_dbs k d : dbs u !! k = Some d <-> exists b, dbHeap u !! d = Some b /\ db_id b = k;
  dy_db_bound d b : dbHeap u !! d = Some b -> 0 <= db_id b < 2 ^ 8;
  dy_db_libraries d b : dbHeap u !! d = Some b -> ~ Y d -> forall k l,
    objects (db_libraries b) !! k = Some l <->
      in_db (tree u) l d /\ ~ X l /\ exists i, tree u !! l = Some i /\ i_id i = k;
  dy_lib_bound l i : tree u !! l = Some i -> 0 <= i_id i < 2 ^ 16;
  dy_parent : parents_ok u;
  dy_libraries l lb : libHeap u !! l = Some lb -> ~ X l ->
    represents 16 (fun x k n => owns_library (tree u) l x k n /\ ~ X x) (lib_libraries lb);
  dy_designs l lb : libHeap u !! l = Some lb -> ~ X l -> represents 32 (owns_design (designHeap u) l) (lib_designs lb);
  dy_library_of x xb : designHeap u !! x = Some xb -> is_Some (libHeap u !! d_library xb);
  dy_next_db d : is_Some (dbHeap u !! d) -> (d < next u)%positive;
  dy_next_lib l : is_Some (libHeap u !! l) -> (l < next u)%positive;
  dy_next_design x : is_Some (designHeap u !! x) -> (x < next u)%positive }.

Lemma dying_none u : universe_wf u -> dying (fun _ => False) (fun _ => False) u.
Proof.
  intros W. split; try apply W.
  - intros d b Hb _ k l. rewrite (wf_db_libraries _ W _ _ Hb). naive_solver.
  - exact (wf_parent _ W).
  - intros l lb Hl _. eapply represents_ext; [|exact (wf_libraries _ W _ _ Hl)]. naive_solver.
  - intros l lb Hl _. exact (wf_designs _ W _ _ Hl).
Qed.

Lemma dying_none_inv u : dying (fun _ => False) (fun _ => False) u -> universe_wf u.
Proof.
  intros D. split; try apply D.
  - intros d b Hb k l. rewrite (dy_db_libraries _ _ _ D _ _ Hb) by tauto. naive_solver.
  - intros l lb Hl. eapply represents_ext; [|exact (dy_libraries _ _ _ D _ _ Hl ltac:(tauto))]. naive_solver.
  - intros l lb Hl. exact (dy_designs _ _ _ D _ _ Hl ltac:(tauto)).
Qed.

(** From [u] to [u'] exactly the libraries [S] and their designs go; databases
    keep the libraries that share no identifier with one in [T]. *)
Record erased (S T : loc -> Prop) (u u' : universe) : Prop := {
  er_libs x b : libHeap u' !! x = Some b <-> libHeap u !! x = Some b /\ ~ S x;
  er_designs x b : designHeap u' !! x = Some b <-> designHeap u !! x = Some b /\ ~ S (d_library b);
  er_dbs d b : dbHeap u !! d = Some b -> exists b', dbHeap u' !! d = Some b' /\
    db_id b' = db_id b /\ db_topDesign b' = db_topDesign b /\
    (forall k x, objects (db_libraries b') !! k = Some x -> objects (db_libraries b) !! k = Some x) /\
    (forall k x, objects (db_libraries b) !! k = Some x ->
       (forall y i, T y -> in_db (tree u) y d -> tree u !! y = Some i -> i_id i <> k) ->
       objects (db_libraries b') !! k = Some x);
  er_dbs_inv d : is_Some (dbHeap u' !! d) -> is_Some (dbHeap u !! d);
  er_dbs_same : dbs u' = dbs u /\ db0_ u' = db0_ u /\ topDB_ u' = topDB_ u /\ next u' = next u }.

Lemma in_db_mono t t' x d : (forall y i, t !! y = Some i -> t' !! y = Some i) -> in_db t x d -> in_db t' x d.
Proof. intros H. apply (in_db_agree (fun _ => True)); [|done]. intros y i _ Hi%H. split; [by exists i|done]. Qed.

Lemma erased_tree S T u u' x i : erased S T u u' -> tree u' !! x = Some i <-> tree u !! x = Some i /\ ~ S x.
Proof.
  intros E. unfold tree. rewrite !lookup_fmap, !fmap_Some. setoid_rewrite (er_libs _ _ _ _ E). naive_solver.
Qed.

Lemma erased_refl u : erased (fun _ => False) (fun _ => False) u u.
Proof. split; naive_solver. Qed.

Lemma erased_trans S1 T1 S2 T2 S T u u1 u2 :
  erased S1 T1 u u1 -> erased S2 T2 u1 u2 ->
  (forall x, S x <-> S1 x \/ S2 x) -> (forall x, T1 x \/ T2 x -> T x) -> erased S T u u2.
Proof.
  intros E1 E2 HS HT. split.
  - intros x b. rewrite (er_libs _ _ _ _ E2), (er_libs _ _ _ _ E1), HS. tauto.
  - intros x b. rewrite (er_designs _ _ _ _ E2), (er_designs _ _ _ _ E1), HS. tauto.
  - intros d b Hb. destruct (er_dbs _ _ _ _ E1 _ _ Hb) as (b1 & Hb1 & Hid1 & Ht1 & Hs1 & Hk1).
    destruct (er_dbs _ _ _ _ E2 _ _ Hb1) as (b2 & Hb2 & Hid2 & Ht2 & Hs2 & Hk2). exists b2.
    split; [done|]. split; [congruence|]. split; [congruence|]. split; [by eauto|]. intros k x Hk Hy.
    apply Hk2; [apply Hk1; [done|]|].
    + intros y i Ty. apply Hy. auto.
    + intros y i Ty Hin Hi. apply (Hy y i); [by auto| |by apply (erased_tree _ _ _ _ _ _ E1) in Hi as [? _]].
      revert Hin. apply in_db_mono. intros z j Hj. by apply (erased_tree _ _ _ _ _ _ E1) in Hj as [? _].
  - intros d Hd. by apply (er_dbs_inv _ _ _ _ E1), (er_dbs_inv _ _ _ _ E2).
  - destruct (er_dbs_same _ _ _ _ E1) as (? & ? & ? & ?), (er_dbs_same _ _ _ _ E2) as (? & ? & ? & ?).
    split_and!; congruence.
Qed.

(** Erasing what is below a library leaves what is below its siblings. *)
Lemma erased_below T u u1 l c c' i i' x :
  parents_ok u -> erased (below (tree u) c) T u u1 -> c <> c' ->
  tree u !! c = Some i -> i_parent i = ParentLibrary l -> tree u !! c' = Some i' -> i_parent i' = ParentLibrary l ->
  below (tree u1) c' x <-> below (tree u) c' x.
Proof.
  intros P E Hne Hc Hp Hc' Hp'. split.
  - induction 1 as [|x j q Hj Hq _ IH]; [constructor|]. apply (erased_tree _ _ _ _ _ _ E) in Hj as [Hj _].
    by apply below_child with j q.
  - intros H. assert (Hn : forall y, below (tree u) c' y -> ~ below (tree u) c y).
    { intros y H1 H2. apply Hne. exact (below_siblings P l c c' i i' y Hc Hp Hc' Hp' H2 H1). }
    induction H as [|x j q Hj Hq H IH]; [constructor|]. apply below_child with j q; [|done..].
    apply (erased_tree _ _ _ _ _ _ E). split; [done|]. apply Hn. by apply below_child with j q.
Qed.

(** * The steps of a destruction *)

(** The library leaves its database's set, and its parent's. *)
Lemma dying_leave X Y u l lb d b (names : gmap Z Z) (H' : gmap loc NLLibrary) :
  dying X Y u -> libHeap u !! l = Some lb -> in_db (tree u) l d -> dbHeap u !! d = Some b -> ~ X l ->
  info <$> H' = tree u ->
  (forall x xb', H' !! x = Some xb' -> exists xb, libHeap u !! x = Some xb /\ lib_designs xb' = lib_designs xb /\
     (~ X x -> x <> l ->
      represents 16 (fun y k n => owns_library (tree u) x y k n /\ ~ (X y \/ y = l)) (lib_libraries xb'))) ->
  dying (fun x => X x \/ x = l) Y (mkUniverse (dbs u) (db0_ u) (topDB_ u)
    (<[d:=db_set_libraries (mkRegistry (delete (lib_id lb) (objects (db_libraries b))) names) b]> (dbHeap u))
    H' (designHeap u) (next u)).
Proof.
  intros D Hl Hin Hb HX T HH. pose proof (tree_lookup _ _ _ Hl) as Ht.
  assert (Hlib : forall x, is_Some (H' !! x) <-> is_Some (libHeap u !! x)).
  { intros x. transitivity (is_Some (tree u !! x)); [rewrite <- T|unfold tree]; by rewrite lookup_fmap, fmap_is_Some. }
  split; unfold parents_ok, tree; heap_simpl; rewrite ?T.
  - intros k e. rewrite (dy_dbs _ _ _ D). split; intros (c & Hc & <-).
    + destruct (decide (e = d)) as [->|Hne]; [|exists c; by rewrite lookup_insert_ne].
      rewrite Hb in Hc. injection Hc as <-. eexists. by rewrite lookup_insert_eq.
    + apply lookup_insert_Some in Hc as [[<- <-]|[_ Hc]]; [by exists b|by exists c].
  - intros e c [[<- <-]|[_ Hc]]%lookup_insert_Some; [exact (dy_db_bound _ _ _ D _ _ Hb)|exact (dy_db_bound _ _ _ D _ _ Hc)].
  - intros e c [[<- <-]|[Hne Hc]]%lookup_insert_Some HY k x.
    + cbn. rewrite lookup_delete_Some, (dy_db_libraries _ _ _ D _ _ Hb HY). split.
      * intros (Hk & Hx & Hnx & i & Hi & <-). split; [done|]. split; [|by exists i]. intros [?| ->]; [done|].
        rewrite Ht in Hi. injection Hi as <-. done.
      * intros (Hx & Hnx & i & Hi & <-). split; [|split; [done|split; [tauto|by exists i]]]. intros Ek. apply Hnx. right.
        assert (objects (db_libraries b) !! lib_id lb = Some l) as E1
          by (apply (dy_db_libraries _ _ _ D _ _ Hb HY); split; [done|split; [done|by exists (info lb)]]).
        assert (objects (db_libraries b) !! i_id i = Some x) as E2
          by (apply (dy_db_libraries _ _ _ D _ _ Hb HY); split; [done|split; [tauto|by exists i]]). congruence.
    + rewrite (dy_db_libraries _ _ _ D _ _ Hc HY). split; [|tauto]. intros (Hx & Hnx & ?). split; [done|].
      split; [|done]. intros [?| ->]; [done|]. apply Hne. exact (in_db_functional _ _ _ _ Hin Hx).
  - exact (dy_lib_bound _ _ _ D).
  - intros x i Hi. generalize (dy_parent _ _ _ D _ _ Hi). unfold parent_ok, tree. heap_simpl. rewrite T.
    destruct (i_parent i) as [e|p]; [|done]. intros He. apply lookup_insert_is_Some'. by right.
  - intros x xb' Hx Hnx. destruct (HH _ _ Hx) as (xb & _ & _ & R). apply R; [tauto|]. intros ->. tauto.
  - intros x xb' Hx Hnx. destruct (HH _ _ Hx) as (xb & Hxb & -> & _). apply (dy_designs _ _ _ D _ _ Hxb). tauto.
  - intros x xb Hx. apply Hlib. by eapply (dy_library_of _ _ _ D).
  - intros e [->|He]%lookup_insert_is_Some'; apply (dy_next_db _ _ _ D); [by rewrite Hb|done].
  - intros x Hx%Hlib. by apply (dy_next_lib _ _ _ D).
  - exact (dy_next_design _ _ _ D).
Qed.

Lemma erased_leave u l lb d b (names : gmap Z Z) (H' : gmap loc NLLibrary) :
  libHeap u !! l = Some lb -> in_db (tree u) l d -> dbHeap u !! d = Some b -> H' = libHeap u ->
  erased (fun _ => False) (fun x => x = l) u (mkUniverse (dbs u) (db0_ u) (topDB_ u)
    (<[d:=db_set_libraries (mkRegistry (delete (lib_id lb) (objects (db_libraries b))) names) b]> (dbHeap u))
    H' (designHeap u) (next u)).
Proof.
  intros Hl Hin Hb ->. split; heap_simpl; [tauto|tauto| | |done].
  - intros e c Hc. destruct (decide (e = d)) as [->|Hne].
    + rewrite Hb in Hc. injection Hc as <-. eexists. rewrite lookup_insert_eq. split; [done|]. heap_simpl. cbn.
      split; [done|]. split; [done|]. split; [by intros k x [_ Hk]%lookup_delete_Some|].
      intros k x Hk Hy. apply lookup_delete_Some. split; [|done].
      exact (Hy l (info lb) eq_refl Hin (tree_lookup _ _ _ Hl)).
    + exists c. rewrite lookup_insert_ne by done. naive_solver.
  - intros e [->|He]%lookup_insert_is_Some'; [by rewrite Hb|done].
Qed.

Lemma delete_designs_run xs u Q E :
  (forall h, (forall x b, h !! x = Some b <-> designHeap u !! x = Some b /\ x ∉ xs) -> Q tt (set_designHeap h u)) ->
  wp (for_each delete_design xs) u Q E.
Proof.
  revert u Q. induction xs as [|x xs IH]; intros u Q HQ; cbn [for_each].
  - apply wp_ret. assert (H := HQ (designHeap u)). destruct u. apply H. intros. split; [|tauto].
    split; [done|apply not_elem_of_nil].
  - rewrite wp_bind. unfold delete_design. apply wp_modify. apply IH. heap_simpl. intros h Hh. apply HQ.
    intros y b. rewrite Hh, lookup_delete_Some, not_elem_of_cons. naive_solver.
Qed.

(** Changes that touch only libraries under destruction. *)
Lemma dying_designs X Y u l h :
  dying X Y u -> X l -> (forall x b, h !! x = Some b <-> designHeap u !! x = Some b /\ d_library b <> l) ->
  dying X Y (set_designHeap h u).
Proof.
  intros D Hl Hh. split; try apply D.
  - intros x xb Hx Hnx. eapply represents_ext; [|exact (dy_designs _ _ _ D _ _ Hx Hnx)].
    intros y k n. unfold owns_design. heap_simpl. setoid_rewrite Hh. split; [|naive_solver].
    intros (b & Hb & <- & ?). exists b. split; [|done]. split; [done|]. intros E. by rewrite E in Hnx.
  - intros x xb [Hx _]%Hh. by eapply (dy_library_of _ _ _ D).
  - intros x [xb [Hx _]%Hh]. apply (dy_next_design _ _ _ D). by rewrite Hx.
Qed.

Lemma dying_put X Y u l lb lb' :
  dying X Y u -> libHeap u !! l = Some lb -> X l -> info lb' = info lb ->
  dying X Y (set_libHeap (<[l:=lb']> (libHeap u)) u).
Proof.
  intros D Hl HX Ei. pose proof (tree_same _ _ _ lb' Hl Ei) as T. split; unfold parents_ok, tree; heap_simpl; rewrite ?T; try apply D.
  - intros x i Hi. generalize (dy_parent _ _ _ D _ _ Hi). unfold parent_ok, tree. heap_simpl. by rewrite T.
  - intros x xb [[<- <-]|[_ Hx]]%lookup_insert_Some Hnx; [done|]. by apply (dy_libraries _ _ _ D).
  - intros x xb [[<- <-]|[_ Hx]]%lookup_insert_Some Hnx; [done|]. by apply (dy_designs _ _ _ D).
  - intros x xb Hx. apply lookup_insert_is_Some'. right. by eapply (dy_library_of _ _ _ D).
  - intros x [->|Hx]%lookup_insert_is_Some'; apply (dy_next_lib _ _ _ D); [by rewrite Hl|done].
Qed.

Lemma dying_delete X Y u l :
  dying (fun x => X x \/ x = l) Y u ->
  (forall x i, tree u !! x = Some i -> i_parent i <> ParentLibrary l) ->
  (forall x b, designHeap u !! x = Some b -> d_library b <> l) ->
  dying X Y (set_libHeap (delete l (libHeap u)) u).
Proof.
  intros D Hchild Hdes.
  assert (Ht : forall x i, info <$> delete l (libHeap u) !! x = Some i <-> tree u !! x = Some i /\ x <> l).
  { intros x i. unfold tree. rewrite lookup_fmap. destruct (decide (x = l)) as [->|Hne].
    - rewrite lookup_delete_eq. cbn. naive_solver.
    - rewrite lookup_delete_ne by done. naive_solver. }
  assert (T : forall x i, tree (set_libHeap (delete l (libHeap u)) u) !! x = Some i <-> tree u !! x = Some i /\ x <> l).
  { intros x i. unfold tree at 1. rewrite lookup_fmap. apply Ht. }
  assert (Hdb : forall x d, in_db (tree (set_libHeap (delete l (libHeap u)) u)) x d <-> in_db (tree u) x d /\ x <> l).
  { intros x d. split.
    - intros H. split; [revert H; apply in_db_mono; intros y i Hi; by apply T in Hi as [? _]|].
      apply in_db_lookup in H as [i Hi]. by apply T in Hi as [_ ?].
    - intros [H Hx]. revert Hx H. apply (in_db_agree (fun y => y <> l)). intros y i Hy Hi.
      split; [exists i; by rewrite T|]. intros p Hp ->. by apply Hchild in Hi. }
  split; heap_simpl; try apply D.
  - intros d b Hb HY k x. rewrite (dy_db_libraries _ _ _ D _ _ Hb HY), Hdb. setoid_rewrite T. naive_solver.
  - intros x i Hi. apply T in Hi as [Hi _]. exact (dy_lib_bound _ _ _ D _ _ Hi).
  - intros x i Hi. apply T in Hi as [Hi Hx]. generalize (dy_parent _ _ _ D _ _ Hi). unfold parent_ok.
    destruct (i_parent i) as [d|p] eqn:Ep; [done|]. intros (Hlt & j & Hj & E). split; [done|]. exists j.
    split; [|done]. apply T. split; [done|]. intros ->. by apply Hchild in Hi.
  - intros x xb [Hx1 Hx]%lookup_delete_Some Hnx.
    eapply represents_ext; [|apply (dy_libraries _ _ _ D _ _ Hx); naive_solver].
    intros y k n. unfold owns_library. setoid_rewrite T. naive_solver.
  - intros x xb [Hx1 Hx]%lookup_delete_Some Hnx. apply (dy_designs _ _ _ D _ _ Hx). naive_solver.
  - intros x xb Hx. apply lookup_delete_is_Some. split; [intros E; by apply (Hdes _ _ Hx)|]. by eapply (dy_library_of _ _ _ D).
  - intros x [_ Hx]%lookup_delete_is_Some. by apply (dy_next_lib _ _ _ D).
Qed.

(** * Destroying a library *)

Definition destroys (fuel : nat) : Prop := forall X Y u l lb p,
  dying X Y u -> libHeap u !! l = Some lb -> lib_parent lb = ParentLibrary p -> X p ->
  (forall x, below (tree u) l x -> ~ X x) -> (Pos.to_nat (next u) <= Pos.to_nat l + fuel)%nat ->
  wp (destroyFromParentLibrary fuel l) u (fun _ u' => dying X Y u' /\
    erased (below (tree u) l) (below (tree u) l) u u') (fun _ _ => False).

(** A child that the destruction of its siblings reaches whole. *)
Definition ripe (X : loc -> Prop) (fuel : nat) (l : loc) (u : universe) (c : loc) : Prop :=
  exists i, tree u !! c = Some i /\ i_parent i = ParentLibrary l /\
    (forall x, below (tree u) c x -> ~ X x) /\ (Pos.to_nat (next u) <= Pos.to_nat c + fuel)%nat.

Lemma ripe_erased X T fuel l u u1 c c' :
  parents_ok u -> erased (below (tree u) c) T u u1 -> c <> c' -> ripe X fuel l u c -> ripe X fuel l u c' ->
  ripe X fuel l u1 c' /\ forall x, below (tree u1) c' x <-> below (tree u) c' x.
Proof.
  intros P E Hne (i & Hc & Hp & _) (i' & Hc' & Hp' & HX' & Hf).
  assert (Hb : forall x, below (tree u1) c' x <-> below (tree u) c' x)
    by (intros x; exact (erased_below T u u1 l c c' i i' x P E Hne Hc Hp Hc' Hp')).
  split; [|done]. exists i'. split; [|split; [done|split]].
  - apply (erased_tree _ _ _ _ _ _ E). split; [done|]. intros H. apply Hne.
    apply (below_siblings P l c c' i i' c' Hc Hp Hc' Hp' H). constructor.
  - intros x. rewrite Hb. apply HX'.
  - destruct (er_dbs_same _ _ _ _ E) as (_ & _ & _ & ->). done.
Qed.

Lemma children_destroyed fuel : destroys fuel -> forall cs u X Y l,
  dying X Y u -> X l -> NoDup cs -> (forall c, c ∈ cs -> ripe X fuel l u c) ->
  wp (for_each (destroyFromParentLibrary fuel) cs) u (fun _ u' => dying X Y u' /\
    erased (fun x => exists c, c ∈ cs /\ below (tree u) c x) (fun x => exists c, c ∈ cs /\ below (tree u) c x) u u')
    (fun _ _ => False).
Proof.
  intros IH. induction cs as [|c cs IHc]; intros u X Y l D HX Hnd Hripe; cbn [for_each].
  - apply wp_ret. split; [done|]. apply (erased_trans _ _ _ _ _ _ u u u (erased_refl u) (erased_refl u)).
    + intros x. split; [intros (c & Hc & _); by apply elem_of_nil in Hc|tauto].
    + tauto.
  - apply NoDup_cons in Hnd as [Hc Hnd]. pose proof (Hripe c (list_elem_of_here _ _)) as Rc.
    pose proof Rc as (i & Ht & Hp & HXc & Hf). apply tree_lookup_inv in Ht as (lb & Hl & ->).
    rewrite wp_bind. apply (wp_mono _ _ _ _ _ _ (IH X Y u c lb l D Hl Hp HX HXc Hf)); [|done].
    intros _ u1 [D1 E1].
    assert (Hrest : forall c', c' ∈ cs -> ripe X fuel l u1 c' /\ forall x, below (tree u1) c' x <-> below (tree u) c' x).
    { intros c' Hc'. apply (ripe_erased X _ fuel l u u1 c c' (dy_parent _ _ _ D) E1); [by intros ->|done|].
      apply Hripe. by right. }
    apply (wp_mono _ _ _ _ _ _ (IHc u1 X Y l D1 HX Hnd (fun c' H => proj1 (Hrest c' H)))); [|done].
    intros _ u2 [D2 E2]. split; [done|].
    assert (Hset : forall x, (exists c0, c0 ∈ c :: cs /\ below (tree u) c0 x) <->
      below (tree u) c x \/ exists c0, c0 ∈ cs /\ below (tree u1) c0 x).
    { intros x. split.
      - intros (c0 & [-> | Hc0]%elem_of_cons & Hb); [by left|]. right. exists c0. split; [done|]. by apply Hrest.
      - intros [Hb|(c0 & Hc0 & Hb)]; [exists c|exists c0]; (split; [by constructor|]); [done|]. by apply Hrest. }
    apply (erased_trans _ _ _ _ _ _ _ _ _ E1 E2); [done|]. intros x. by rewrite Hset.
Qed.

(** The libraries a destruction goes through next are those below [l]. *)
Lemma emptied_children fuel X u l lb :
  parents_ok u -> (forall x, below (tree u) l x -> ~ X x) ->
  represents 16 (owns_library (tree u) l) (lib_libraries lb) -> (Pos.to_nat (next u) <= Pos.to_nat l + S fuel)%nat ->
  (forall x, (exists c, c ∈ in_order (objects (lib_libraries lb)) /\ below (tree u) c x) <-> below (tree u) l x /\ x <> l) /\
  NoDup (in_order (objects (lib_libraries lb))) /\
  forall c, c ∈ in_order (objects (lib_libraries lb)) -> ripe (fun x => X x \/ x = l) fuel l u c.
Proof.
  intros P HX R Hf.
  assert (Hin : forall c, c ∈ in_order (objects (lib_libraries lb)) <->
    exists i, tree u !! c = Some i /\ i_parent i = ParentLibrary l).
  { intros c. rewrite elem_of_in_order. setoid_rewrite (rep_objects _ _ _ R). unfold owns_library. naive_solver. }
  split; [|split].
  - intros x. setoid_rewrite Hin. rewrite (below_unfold l). split.
    + intros (c & (i & Hi & Hp) & Hb). split; [right; eauto|]. intros ->.
      apply (below_le P) in Hb. pose proof (child_lt P _ _ _ Hi Hp). lia.
    + intros [[->|(c & i & Hi & Hp & Hb)] Hne]; [done|]. eauto.
  - apply NoDup_in_order. intros k k' c Hk Hk'. apply (rep_objects _ _ _ R) in Hk as [n Hk], Hk' as [n' Hk'].
    by destruct (rep_unique _ _ _ R _ _ _ _ _ Hk Hk').
  - intros c (i & Hi & Hp)%Hin. pose proof (child_lt P _ _ _ Hi Hp) as Hlt. exists i. split; [done|]. split; [done|].
    split; [|lia]. intros x Hb [Hx| ->].
    + apply (HX x); [|done]. apply (below_unfold l). right. eauto.
    + apply (below_le P) in Hb. lia.
Qed.

Lemma erased_emptied u h l lb lb1 u2 :
  parents_ok u -> (forall x b, h !! x = Some b <-> designHeap u !! x = Some b /\ d_library b <> l) ->
  libHeap u !! l = Some lb -> info lb1 = info lb ->
  erased (fun x => below (tree u) l x /\ x <> l) (fun x => below (tree u) l x /\ x <> l)
    (set_libHeap (<[l:=lb1]> (libHeap u)) (set_designHeap h u)) u2 ->
  erased (below (tree u) l) (below (tree u) l) u (set_libHeap (delete l (libHeap u2)) u2).
Proof.
  intros P Hh Hl Hi E2. pose proof (tree_same _ _ _ lb1 Hl Hi) as T.
  assert (Hb : forall x, ~ below (tree u) l x <-> ~ (below (tree u) l x /\ x <> l) /\ x <> l).
  { intros x. split; [|tauto]. intros H. split; [tauto|]. intros ->. apply H. constructor. }
  split; heap_simpl.
  - intros x b. rewrite lookup_delete_Some, (er_libs _ _ _ _ E2). heap_simpl. rewrite Hb. split.
    + intros (Hne & Hx & Hn). rewrite lookup_insert_ne in Hx by done. naive_solver.
    + intros (Hx & Hn & Hne). rewrite lookup_insert_ne by done. naive_solver.
  - intros x b. rewrite (er_designs _ _ _ _ E2). heap_simpl. rewrite Hh, Hb. tauto.
  - intros d b Hd. destruct (er_dbs _ _ _ _ E2 d b Hd) as (b' & ? & ? & ? & ? & Hk). exists b'.
    do 4 (split; [done|]). intros k x Hx Hy. apply Hk; [done|]. intros y i [Ty _]. unfold tree. heap_simpl.
    rewrite T. by apply Hy.
  - exact (er_dbs_inv _ _ _ _ E2).
  - exact (er_dbs_same _ _ _ _ E2).
Qed.

(** Emptying and deleting a library that has left its database's set. *)
Lemma library_emptied fuel X Y u l lb :
  destroys fuel -> dying (fun x => X x \/ x = l) Y u -> libHeap u !! l = Some lb ->
  represents 16 (owns_library (tree u) l) (lib_libraries lb) ->
  represents 32 (owns_design (designHeap u) l) (lib_designs lb) ->
  (forall x, below (tree u) l x -> ~ X x) -> (Pos.to_nat (next u) <= Pos.to_nat l + S fuel)%nat ->
  wp (library_commonPreDestroy (destroyFromParentLibrary fuel) l ≫= fun _ => delete_lib l) u
    (fun _ u' => dying X Y u' /\ erased (below (tree u) l) (below (tree u) l) u u') (fun _ _ => False).
Proof.
  intros IH D Hl R1 R2 HX Hf. pose proof (dy_parent _ _ _ D) as P.
  unfold library_commonPreDestroy. wp_run. apply delete_designs_run. intros h Hh.
  assert (Hh' : forall x b, h !! x = Some b <-> designHeap u !! x = Some b /\ d_library b <> l).
  { intros x b. rewrite Hh. unfold getSNLDesigns. rewrite elem_of_in_order. setoid_rewrite (rep_objects _ _ _ R2).
    unfold owns_design. split; intros [Hb Hn]; (split; [done|]).
    - intros <-. apply Hn. exists (d_id b), (d_name b). by exists b.
    - intros (k & n & b' & Hb' & E & _). congruence. }
  set (lb1 := lib_set_designs (mkRegistry ∅ (nameIDs (lib_designs lb))) lb).
  set (u1 := set_libHeap (<[l:=lb1]> (libHeap u)) (set_designHeap h u)).
  assert (D1 : dying (fun x => X x \/ x = l) Y u1).
  { apply (dying_put _ _ (set_designHeap h u) l lb lb1); [|done|by right|done].
    apply dying_designs with l; [done|by right|done]. }
  assert (T1 : tree u1 = tree u) by (by apply (tree_same _ _ lb)).
  pose proof (emptied_children fuel X u l lb P HX R1 Hf) as (Hcs & Hnd & Hripe).
  assert (Hrun : wp (for_each (destroyFromParentLibrary fuel) (in_order (objects (lib_libraries lb)))) u1
    (fun _ u' => dying (fun x => X x \/ x = l) Y u' /\ erased (fun x => below (tree u) l x /\ x <> l)
       (fun x => below (tree u) l x /\ x <> l) u1 u') (fun _ _ => False)).
  { eapply wp_mono; [apply (children_destroyed fuel IH _ u1 (fun x => X x \/ x = l) Y l D1); [by right|done|]|..|done].
    - intros c Hc. unfold ripe. rewrite T1. by apply Hripe.
    - intros _ u' [D' E']. split; [done|]. rewrite T1 in E'.
      apply (erased_trans _ _ _ _ _ _ _ _ _ E' (erased_refl u')); intros x; rewrite <- Hcs; tauto. }
  wp_run. apply (wp_mono _ _ _ _ _ _ Hrun); [|done]. intros _ u2 [D2 E2].
  assert (Hl2 : libHeap u2 !! l = Some lb1).
  { apply (er_libs _ _ _ _ E2). split; [apply lookup_insert_eq|tauto]. }
  wp_run. rewrite delete_insert_eq. split.
  - refine (dying_delete X Y u2 l D2 _ _).
    + intros x i [Hx Hn]%(erased_tree _ _ _ _ _ _ E2) Hp. rewrite T1 in Hx. apply Hn. split.
      * by apply below_child with i l; [..|constructor].
      * intros ->. pose proof (child_lt P _ _ _ Hx Hp). lia.
    + intros x b [Hx _]%(er_designs _ _ _ _ E2). by apply Hh' in Hx as [_ ?].
  - exact (erased_emptied u h l lb lb1 u2 P Hh' Hl eq_refl E2).
Qed.

Lemma other_parent_kept X u l lb x (r : registry loc) :
  libHeap u !! l = Some lb -> lib_parent lb <> ParentLibrary x ->
  represents 16 (fun y k n => owns_library (tree u) x y k n /\ ~ X y) r ->
  represents 16 (fun y k n => owns_library (tree u) x y k n /\ ~ (X y \/ y = l)) r.
Proof.
  intros Hl Hne. apply represents_ext. intros y k n. split; [|tauto]. intros [Hown HX]. split; [done|].
  intros [?| ->]; [done|]. destruct Hown as (i & Hi & Hp & _). rewrite (tree_lookup _ _ _ Hl) in Hi. injection Hi as <-.
  done.
Qed.

Lemma db_removeLibrary_run d l b lb u (Q : unit -> universe -> Prop) E :
  dbHeap u !! d = Some b -> libHeap u !! l = Some lb ->
  Q tt (set_dbHeap (<[d:=db_set_libraries (mkRegistry (delete (lib_id lb) (objects (db_libraries b)))
    (delete (lib_name lb) (nameIDs (db_libraries b)))) b]> (dbHeap u)) u) ->
  wp (db_removeLibrary d l) u Q E.
Proof. intros Hd Hl HQ. unfold db_removeLibrary. wp_run. exact HQ. Qed.

(** Destroying a nested library whose parent is being destroyed. *)
Lemma destroys_all fuel : destroys fuel.
Proof.
  induction fuel as [|fuel IH]; intros X Y u l lb p D Hl Hp HXp HX Hf.
  - pose proof (dy_next_lib _ _ _ D _ (mk_is_Some _ _ Hl)). lia.
  - pose proof (dy_parent _ _ _ D) as P. assert (HXl : ~ X l) by (apply HX; constructor).
    destruct (in_db_total_of P l) as (d & Hin & b & Hb); [by rewrite (tree_lookup _ _ _ Hl)|].
    cbn [destroyFromParentLibrary]. rewrite wp_bind. eapply wp_deref; [by apply (lib_getDB_spec_of P)|].
    rewrite wp_bind. apply (db_removeLibrary_run d l b lb); [done..|].
    set (u1 := set_dbHeap _ u).
    assert (D1 : dying (fun x => X x \/ x = l) Y u1).
    { refine (dying_leave X Y u l lb d b _ (libHeap u) D Hl Hin Hb HXl eq_refl _). intros x xb Hx.
      exists xb. split; [done|]. split; [done|]. intros Hnx Hne.
      apply (other_parent_kept X u l lb); [done|congruence|]. exact (dy_libraries _ _ _ D _ _ Hx Hnx). }
    eapply wp_mono; [apply (library_emptied fuel X Y u1 l lb IH D1 Hl)|..|done].
    + eapply represents_ext; [|exact (dy_libraries _ _ _ D _ _ Hl HXl)]. intros y k n. split; [by intros [? _]|].
      intros Hown. split; [done|]. apply HX. destruct Hown as (i & Hi & Hpi & _).
      by apply below_child with i l; [..|constructor].
    + exact (dy_designs _ _ _ D _ _ Hl HXl).
    + exact HX.
    + exact Hf.
    + intros _ u' [D' E']. split; [done|].
      apply (erased_trans _ _ _ _ _ _ u u1 u' (erased_leave u l lb d b _ (libHeap u) Hl Hin Hb eq_refl) E').
      * intros x. change (tree u1) with (tree u). tauto.
      * intros x [->|Hx]; [constructor|exact Hx].
Qed.

(** What destroying a library takes away. *)
Record removed (S : loc -> Prop) (u u' : universe) : Prop := {
  rm_libraries x i : tree u' !! x = Some i <-> tree u !! x = Some i /\ ~ S x;
  rm_designs x b : designHeap u' !! x = Some b <-> designHeap u !! x = Some b /\ ~ S (d_library b);
  rm_dbs d : db_id <$> dbHeap u' !! d = db_id <$> dbHeap u !! d;
  rm_same : dbs u' = dbs u /\ db0_ u' = db0_ u /\ topDB_ u' = topDB_ u /\ next u' = next u }.

Lemma erased_removed S T u u' : erased S T u u' -> removed S u u'.
Proof.
  intros E. split.
  - intros x i. by rewrite (erased_tree _ _ _ _ _ _ E).
  - exact (er_designs _ _ _ _ E).
  - intros d. destruct (dbHeap u !! d) as [b|] eqn:Hb.
    + destruct (er_dbs _ _ _ _ E _ _ Hb) as (b' & -> & Hid & _). cbn. by rewrite Hid.
    + destruct (dbHeap u' !! d) as [b'|] eqn:Hb'; [|done].
      destruct (er_dbs_inv _ _ _ _ E d) as [? ?]; [by rewrite Hb'|congruence].
  - exact (er_dbs_same _ _ _ _ E).
Qed.

(** The library leaves its parent's set too. *)
Lemma parent_left u l lb p pb :
  universe_wf u -> libHeap u !! l = Some lb -> lib_parent lb = ParentLibrary p -> libHeap u !! p = Some pb ->
  represents 16 (fun y k n => owns_library (tree u) p y k n /\ ~ (False \/ y = l))
    (remove_object (lib_id lb) (lib_name lb) (lib_libraries pb)).
Proof.
  intros W Hl Ep Hpb. apply (represents_remove (wf_libraries _ W _ _ Hpb)) with l; [|tauto].
  exists (info lb). by rewrite (tree_lookup _ _ _ Hl).
Qed.

Lemma library_destroy_ok l u lb :
  universe_wf u -> libHeap u !! l = Some lb ->
  wp (library_destroy l) u (fun _ u' => universe_wf u' /\ removed (below (tree u) l) u u') (fun _ _ => False).
Proof.
  intros W Hl. pose proof (dying_none u W) as D. pose proof (wf_parent _ W) as P.
  destruct (lib_getDB_total W _ _ Hl) as (d & b & Hd & Hin & Hb).
  unfold library_destroy. rewrite wp_bind. eapply wp_deref; [exact Hl|]. rewrite wp_bind. eapply wp_deref; [exact Hd|].
  rewrite wp_bind. apply (db_removeLibrary_run d l b lb); [done..|].
  set (b1 := db_set_libraries _ b).
  assert (Hgo : forall H', H' !! l = Some lb -> info <$> H' = tree u ->
    (forall x xb', H' !! x = Some xb' -> exists xb, libHeap u !! x = Some xb /\ lib_designs xb' = lib_designs xb /\
      (~ False -> x <> l ->
       represents 16 (fun y k n => owns_library (tree u) x y k n /\ ~ (False \/ y = l)) (lib_libraries xb'))) ->
    wp (n ← gets next; library_commonPreDestroy (destroyFromParentLibrary (Pos.to_nat n)) l ;; delete_lib l)
      (set_libHeap H' (set_dbHeap (<[d:=b1]> (dbHeap u)) u))
      (fun _ u' => universe_wf u' /\ removed (below (tree u) l) u u') (fun _ _ => False)).
  { intros H' Hl' T HH. set (u1 := set_libHeap H' _).
    pose proof (dying_leave _ _ u l lb d b (delete (lib_name lb) (nameIDs (db_libraries b))) H' D Hl Hin Hb ltac:(tauto) T HH) as D1.
    assert (T1 : tree u1 = tree u) by exact T. rewrite wp_bind, wp_gets.
    eapply wp_mono; [apply (library_emptied (Pos.to_nat (next u1)) _ _ u1 l lb (destroys_all _) D1 Hl')|..|done].
    - rewrite T1. exact (wf_libraries _ W _ _ Hl).
    - exact (wf_designs _ W _ _ Hl).
    - tauto.
    - lia.
    - intros _ u' [D' E']. split; [by apply dying_none_inv|]. rewrite T1 in E'. apply erased_removed in E' as [E1 E2 E3 E4].
      split; [intros x i; rewrite E1; by rewrite T1|exact E2| |exact E4]. intros e. rewrite E3. unfold u1. heap_simpl.
      destruct (decide (e = d)) as [->|Hne]; [by rewrite lookup_insert_eq, Hb|by rewrite lookup_insert_ne]. }
  destruct (lib_parent lb) as [d'|p] eqn:Ep.
  - rewrite wp_bind, wp_ret. refine (Hgo (libHeap u) Hl eq_refl _). intros x xb Hx. exists xb.
    split; [done|]. split; [done|]. intros _ Hne. apply (other_parent_kept _ u l lb); [done|congruence|]. exact (dy_libraries _ _ _ D _ _ Hx ltac:(tauto)).
  - pose proof (P _ _ (tree_lookup _ _ _ Hl)) as Hp. unfold parent_ok in Hp. cbn in Hp. rewrite Ep in Hp.
    destruct Hp as (Hlt & _ & (pb & Hpb & _)%tree_lookup_inv & _). assert (Hlp : l <> p) by (intros ->; lia).
    rewrite wp_bind. unfold lib_removeLibrary. rewrite wp_bind. eapply wp_deref; [exact Hpb|].
    rewrite wp_bind. eapply wp_deref; [exact Hl|]. apply wp_modify.
    apply (Hgo (<[p:=_]> (libHeap u))); [by rewrite lookup_insert_ne|by apply (tree_same _ _ pb)|].
    intros x xb' [[<- <-]|[Hx1 Hx]]%lookup_insert_Some.
    + exists pb. split; [done|]. split; [done|]. intros _ _. by apply parent_left.
    + exists xb'. split; [done|]. split; [done|]. intros _ Hne. apply (other_parent_kept _ u l lb); [done|congruence|]. exact (dy_libraries _ _ _ D _ _ Hx ltac:(tauto)).
Qed.
