(* ===== verification/Hierarchy.v ===== *)
(** The netlist hierarchy as a state machine: what every sequence of operations
    on the universe keeps, and what lookups, creation and destruction give. *)
From S2P Require Import Prelude NLID Store Universe UniverseInvariant UniverseLibraries UniverseDestroy.
Local Open Scope Z_scope.

(** * Operations *)

Inductive operation :=
| CreateDB | CreateDBWithID (id : Z) | SetDBID (d : loc) (id : Z)
| SetTopDB (d : loc) | SetDBTopDesign (d x : loc)
| CreateLibrary (par : parent) (type : library_type) (name : Z)
| CreateLibraryWithID (par : parent) (id : Z) (type : library_type) (name : Z)
| RenameLibrary (l : loc) (name : Z) | DestroyLibrary (l : loc)
| CreateDesign (l : loc) (type : design_type) (name : Z)
| CreateDesignWithID (l : loc) (id : Z) (type : design_type) (name : Z)
| RenameDesign (x : loc) (name : Z) | RetypeDesign (x : loc) (type : design_type) | DestroyDesign (x : loc).

Definition run (o : operation) : prog universe unit :=
  match o with
  | CreateDB => ignore db_create
  | CreateDBWithID id => ignore (db_create_id id)
  | SetDBID d id => db_setID d id
  | SetTopDB d => setTopDB d
  | SetDBTopDesign d x => db_setTopDesign d (Some x)
  | CreateLibrary par type name => ignore (library_create par type name)
  | CreateLibraryWithID par id type name => ignore (library_create_id par id type name)
  | RenameLibrary l name => library_setName l name
  | DestroyLibrary l => library_destroy l
  | CreateDesign l type name => ignore (design_create l type name)
  | CreateDesignWithID l id type name => ignore (design_create_id l id type name)
  | RenameDesign x name => design_setName x name
  | RetypeDesign x type => design_setType x type
  | DestroyDesign x => design_destroy x
  end.

(** The pointers given are to objects, identifiers fit their type, and no
    counter of identifiers wraps around; a database is not given the identifier
    of another, and the map of its database knows a root library that is
    renamed. *)
Definition allowed (o : operation) (u : universe) : Prop :=
  match o with
  | CreateDB => room 8 (dbs u)
  | CreateDBWithID id => 0 <= id < 2 ^ 8
  | SetDBID d id => is_Some (dbHeap u !! d) /\ 0 <= id < 2 ^ 8 /\ forall e, universe_getDB id u = Some e -> e = d
  | SetTopDB d => is_Some (dbHeap u !! d)
  | SetDBTopDesign d x => is_Some (dbHeap u !! d) /\ is_Some (designHeap u !! x)
  | CreateLibrary par type name =>
      exists d b, parent_getDB par u = Some d /\ dbHeap u !! d = Some b /\ room 16 (objects (db_libraries b))
  | CreateLibraryWithID par id type name =>
      0 <= id < 2 ^ 16 /\ exists d b, parent_getDB par u = Some d /\ dbHeap u !! d = Some b
  | RenameLibrary l name => exists lb, libHeap u !! l = Some lb /\
      forall d b, lib_parent lb = ParentDB d -> dbHeap u !! d = Some b -> lib_name lb <> 0 ->
        is_Some (nameIDs (db_libraries b) !! lib_name lb)
  | DestroyLibrary l => is_Some (libHeap u !! l)
  | CreateDesign l type name => exists lb, libHeap u !! l = Some lb /\ room 32 (objects (lib_designs lb))
  | CreateDesignWithID l id type name => is_Some (libHeap u !! l) /\ 0 <= id < 2 ^ 32
  | RenameDesign x name => is_Some (designHeap u !! x)
  | RetypeDesign x type => is_Some (designHeap u !! x)
  | DestroyDesign x => is_Some (designHeap u !! x)
  end.

Inductive reachable : universe -> Prop :=
| reachable_create : reachable (universe_create no_universe).2
| reachable_run u o u' : reachable u -> allowed o u -> run o u = (Ret tt, u') -> reachable u'.

(** * Every operation keeps the invariant *)

Lemma universe_wf_empty : universe_wf no_universe.
Proof.
  split; cbn; try (intros *; rewrite ?lookup_empty; naive_solver).
  all: intros * [? H]; by rewrite lookup_empty in H.
Qed.

Lemma universe_create_ok : universe_wf (universe_create no_universe).2.
Proof.
  assert (W0 := universe_wf_empty).
  assert (H : wp universe_create no_universe (fun _ u' => universe_wf u') (unchanged no_universe)).
  { unfold universe_create. rewrite wp_bind.
    apply (wp_mono _ _ _ _ _ _ (db_create_ok no_universe W0 ltac:(intros k l Hk; cbn in Hk; by rewrite lookup_empty in Hk))); [|done].
    intros d u' (W & _). apply wp_modify. split; apply W. }
  exact H.
Qed.

Lemma run_ok o u : universe_wf u -> allowed o u -> wp (run o) u (fun _ u' => universe_wf u') (unchanged u).
Proof.
  intros W Ho. destruct o; cbn [run allowed] in *.
  - by apply (wp_ignore _ _ _ _ _ (db_create_ok u W Ho)); intros ? ? [].
  - by apply (wp_ignore _ _ _ _ _ (db_create_id_ok id u W Ho)); intros ? ? [].
  - destruct Ho as ([b Hb] & Hid & Hfree). by apply (wp_just _ _ _ _ _ _ (db_setID_ok d id u b W Hb Hid Hfree)); intros ? ? [].
  - exact (setTopDB_ok d u W).
  - destruct Ho as ([b Hb] & [xb Hx]). by apply (wp_just _ _ _ _ _ _ (db_setTopDesign_ok d x u b xb W Hb Hx)); intros ? ? [].
  - destruct Ho as (d & b & Hd & Hb & Hr).
    by apply (wp_ignore _ _ _ _ _ (library_create_ok par type name u d b W Hd Hb Hr)); intros ? ? [].
  - destruct Ho as (Hid & d & b & Hd & Hb).
    by apply (wp_ignore _ _ _ _ _ (library_create_id_ok par id type name u d b W Hd Hb Hid)); intros ? ? [].
  - destruct Ho as (lb & Hl & Hroot). destruct (lib_getDB_total W _ _ Hl) as (d & b & _ & Hin & Hb).
    apply (wp_just _ _ _ _ _ _ (library_setName_ok l name u lb d b W Hl Hin Hb
      ltac:(intros Hr; apply (Hroot d b); [|done]; revert Hr Hin; rewrite (in_db_unfold _ _ _ _ (tree_lookup _ _ _ Hl));
            cbn; unfold lib_isRoot; destruct (lib_parent lb); [by intros _ ->|done]))); [by intros ? ? []|done].
  - destruct Ho as [lb Hl]. eapply wp_mono; [exact (library_destroy_ok l u lb W Hl)|by intros ? ? []|done].
  - destruct Ho as (lb & Hl & Hr). by apply (wp_ignore _ _ _ _ _ (design_create_ok l type name u lb W Hl Hr)); intros ? ? [].
  - destruct Ho as ([lb Hl] & Hid). by apply (wp_ignore _ _ _ _ _ (design_create_id_ok l id type name u lb W Hl Hid)); intros ? ? [].
  - destruct Ho as [xb Hx]. by apply (wp_just _ _ _ _ _ _ (design_setName_ok x name u xb W Hx)); intros ? ? [].
  - destruct Ho as [xb Hx]. by apply (wp_just _ _ _ _ _ _ (design_setType_ok x type u xb W Hx)); intros ? ? [].
  - destruct Ho as [xb Hx]. by apply (wp_just _ _ _ _ _ _ (design_destroy_ok x u xb W Hx)); intros ? ? [].
Qed.

Lemma reachable_wf u : reachable u -> universe_wf u.
Proof.
  induction 1 as [|u o u' _ W Ho H]; [exact universe_create_ok|].
  pose proof (run_ok o u W Ho) as Hr. unfold wp in Hr. by rewrite H in Hr.
Qed.

(** * Properties *)

(** C6. Every state that operations on the universe reach is well formed: the
    sets of databases, libraries, nested libraries and designs and the maps
    from names hold exactly the objects whose owner they belong to, under their
    identifiers and names. From such a state an operation is defined, and either
    returns a well-formed state or throws and leaves the state as it was, when
    it is [allowed], as those that reach the state were: its objects are there,
    a given identifier fits its width, the counter that gives one has not reached
    the end of its width, [setID] does not give a database the identifier of
    another, and a root library that is renamed is in the map of names of its
    database. The code checks none of the last three: identifiers wrap around
    ([database_ids_wrap]), a database leaves the set ([database_setID_lost]), and
    a node that is not in a map is taken out of it ([rename_root_undefined]). *)
Theorem hierarchy_invariant u o :
  reachable u -> allowed o u ->
  universe_wf u /\
  match run o u with
  | (Ret _, u') => universe_wf u'
  | (Throw _, u') => u' = u
  | (Undef, _) => False
  end.
Proof. intros Hr Ho. pose proof (reachable_wf u Hr) as W. split; [done|]. exact (run_ok o u W Ho). Qed.

(** An object of the state. *)
Definition alive (o : object) (u : universe) : Prop :=
  match o with
  | ODB d => is_Some (dbHeap u !! d)
  | OLibrary l => is_Some (libHeap u !! l)
  | ODesign x => is_Some (designHeap u !! x)
  end.
(** The identifiers the constructors for databases, libraries and designs give. *)
Definition hierarchical (id : NLID) : Prop :=
  exists a b c, id = nlid_db a \/ id = nlid_library a b \/ id = nlid_design a b c.

(** In every reachable state each database, library and design has an
    identifier, looking the identifier up gives the object back, and no other
    identifier of a database, library or design finds it. *)
Theorem object_of_NLID u o :
  reachable u -> alive o u ->
  exists id, getNLID o u = Some id /\ hierarchical id /\
    forall id', hierarchical id' -> (getObject id' u = Some o <-> id' = id).
Proof.
  intros W%reachable_wf Ho.
  assert (is_Some (getNLID o u)) as [id Hid].
  { destruct o; [by apply getNLID_total_db|by apply getNLID_total_library|by apply getNLID_total_design]. }
  exists id. split; [done|]. pose proof (proj1 (getObject_spec W o id) Hid) as (Hget & a & b & c & E).
  split; [exists a, b, c; destruct o; auto|]. intros id' Hid'. split; [|by intros ->]. intros H.
  assert (getNLID o u = Some id') as H'; [|congruence]. apply (getObject_spec W). split; [done|].
  destruct Hid' as (a' & b' & c' & [->|[->| ->]]); exists a', b', c'; destruct o; try done; exfalso; revert H; cbn;
    rewrite fmap_Some; naive_solver.
Qed.

(** In every reachable state a library finds, by identifier and by non-empty
    name, exactly the designs and nested libraries it owns, so two of them never
    share an identifier or a name; a nested library has its parent's type. *)
Theorem library_lookups u l lb :
  reachable u -> libHeap u !! l = Some lb ->
  (forall k x, lib_getSNLDesign k lb = Some x <->
     exists xb, designHeap u !! x = Some xb /\ d_library xb = l /\ d_id xb = k) /\
  (forall n x, n <> 0 -> lib_getSNLDesignByName n lb = Some x <->
     exists xb, designHeap u !! x = Some xb /\ d_library xb = l /\ d_name xb = n) /\
  (forall k c, lib_getLibrary k lb = Some c <->
     exists cb, libHeap u !! c = Some cb /\ lib_parent cb = ParentLibrary l /\ lib_id cb = k) /\
  (forall n c, n <> 0 -> lib_getLibraryByName n lb = Some c <->
     exists cb, libHeap u !! c = Some cb /\ lib_parent cb = ParentLibrary l /\ lib_name cb = n) /\
  (forall c cb, libHeap u !! c = Some cb -> lib_parent cb = ParentLibrary l -> lib_type cb = lib_type lb).
Proof.
  intros W%reachable_wf Hl. pose proof (wf_libraries _ W _ _ Hl) as R.
  assert (Hown : forall c k n, owns_library (tree u) l c k n <->
    exists cb, libHeap u !! c = Some cb /\ lib_parent cb = ParentLibrary l /\ lib_id cb = k /\ lib_name cb = n).
  { intros c k n. unfold owns_library. split.
    - intros (i & (cb & Hc & ->)%tree_lookup_inv & H). by exists cb.
    - intros (cb & Hc & H). exists (info cb). split; [by apply tree_lookup|done]. }
  split_and!.
  - intros k x. exact (lib_getSNLDesign_spec W l lb k x Hl).
  - intros n x Hn. exact (lib_getSNLDesignByName_spec W l lb n x Hl Hn).
  - intros k c. unfold lib_getLibrary. rewrite (find_by_id_spec R). setoid_rewrite Hown. naive_solver.
  - intros n c Hn. unfold lib_getLibraryByName. rewrite (find_by_name_spec R) by done. setoid_rewrite Hown. naive_solver.
  - intros c cb Hc Hp. pose proof (wf_parent _ W _ _ (tree_lookup _ _ _ Hc)) as H. unfold parent_ok in H. cbn in H.
    rewrite Hp in H. destruct H as (_ & j & Hj & E). rewrite (tree_lookup _ _ _ Hl) in Hj. by injection Hj as <-.
Qed.

(** When a design may be created. *)
Definition creatable (u : universe) (l : loc) (lb : NLLibrary) (type : design_type) (name : Z) : Prop :=
  (type = DPrimitive <-> lib_type lb = LPrimitives) /\
  forall y yb, designHeap u !! y = Some yb -> d_library yb = l -> name <> 0 -> d_name yb <> name.

Lemma design_preCreate_exact u l lb type name (Q : unit -> universe -> Prop) E :
  universe_wf u -> libHeap u !! l = Some lb ->
  (creatable u l lb type name -> Q tt u) -> (forall e, ~ creatable u l lb type name -> E e u) ->
  wp (design_preCreate l type name) u Q E.
Proof.
  intros W Hl HQ HE. unfold design_preCreate. rewrite wp_bind. eapply wp_deref; [exact Hl|]. unfold isPrimitives.
  assert (Hname : is_empty_name name || is_none (lib_getSNLDesignByName name lb) = true <->
    forall y yb, designHeap u !! y = Some yb -> d_library yb = l -> name <> 0 -> d_name yb <> name).
  { unfold is_empty_name. destruct (Z.eqb_spec name 0) as [->|Hn]; [by split; [intros _ ? ? _ _ ?|]|]. cbn.
    rewrite is_none_true, eq_None_not_Some. split.
    - intros H y yb Hy El _ En. apply H. exists y.
      apply (lib_getSNLDesignByName_spec W l lb name y Hl Hn). eauto.
    - intros H [y Hy]. apply (lib_getSNLDesignByName_spec W l lb name y Hl Hn) in Hy as (yb & Hy & El & En). by apply (H y yb). }
  unfold creatable in *. rewrite wp_bind. apply wp_check; intros H1;
    [|apply HE; intros [Ht _]; revert H1; repeat case_bool_decide; cbn; intuition congruence].
  rewrite wp_bind. apply wp_check; intros H2; [|apply HE; intros [Ht _]; revert H2; repeat case_bool_decide; cbn; intuition congruence].
  apply wp_check; intros H3; [apply HQ|apply HE; intros [_ Hn]; apply Hname in Hn; congruence].
  split; [revert H1 H2; repeat case_bool_decide; cbn; naive_solver|by apply Hname].
Qed.

(** C20. In a reachable state, creating a design in a library that has an
    identifier left returns exactly when the type goes with the library's and
    the name is empty or unused there; the new design then has the type and name
    asked for and an identifier greater than all others in the library, by which
    the library finds it, and no other design, library or database changes.
    Otherwise it throws and leaves the state alone. *)
Theorem design_create_result u l lb type name :
  reachable u -> libHeap u !! l = Some lb -> room 32 (objects (lib_designs lb)) ->
  match design_create l type name u with
  | (Ret x, u') =>
      creatable u l lb type name /\ designHeap u !! x = None /\
      exists id, designHeap u' = <[x:=mkDesign id name type l]> (designHeap u) /\
        (forall y yb, designHeap u !! y = Some yb -> d_library yb = l -> d_id yb < id) /\
        (exists lb', libHeap u' !! l = Some lb' /\ lib_getSNLDesign id lb' = Some x) /\
        tree u' = tree u /\ dbHeap u' = dbHeap u /\ dbs u' = dbs u
  | (Throw _, u') => ~ creatable u l lb type name /\ u' = u
  | (Undef, _) => False
  end.
Proof.
  intros W%reachable_wf Hl Hroom. pose proof (wf_designs _ W _ _ Hl) as R.
  change (wp (design_create l type name) u (fun x u' => creatable u l lb type name /\ designHeap u !! x = None /\
      exists id, designHeap u' = <[x:=mkDesign id name type l]> (designHeap u) /\
        (forall y yb, designHeap u !! y = Some yb -> d_library yb = l -> d_id yb < id) /\
        (exists lb', libHeap u' !! l = Some lb' /\ lib_getSNLDesign id lb' = Some x) /\
        tree u' = tree u /\ dbHeap u' = dbHeap u /\ dbs u' = dbs u)
    (fun _ u' => ~ creatable u l lb type name /\ u' = u)).
  unfold design_create. rewrite wp_bind. apply design_preCreate_exact with lb; [done..| |done].
  intros Hok. rewrite wp_bind, wp_new_design. unfold addSNLDesignAndSetID, addSNLDesign. wp_run.
  destruct (next_id_fresh 32 (objects (lib_designs lb))) as (Hfree & Hid & Hmax); [|lia|].
  { apply room_bound; [|done]. intros k x [n Hx]%(rep_objects _ _ _ R). by apply (rep_bound _ _ _ R) in Hx as [? _]. }
  split; [done|]. split; [apply eq_None_not_Some; intros H; pose proof (wf_next_design _ W _ H); lia|].
  exists (next_id 32 (objects (lib_designs lb))). rewrite insert_insert_eq. split; [done|]. split; [|split].
  - intros y yb Hy El. apply (Hmax _ y). apply (rep_objects _ _ _ R). exists (d_name yb). by exists yb.
  - eexists. split; [apply lookup_insert_eq|]. unfold lib_getSNLDesign, find_by_id, add_object, set_insert. cbn.
    by rewrite Hfree, lookup_insert_eq.
  - split; [|done]. by apply (tree_same _ _ lb).
Qed.

(** C16. Destroying a library of a reachable state terminates, without undefined
    behaviour, in a well-formed state that lacks exactly the library, those
    below it and their designs. *)
Theorem library_destroy_removes u l :
  reachable u -> is_Some (libHeap u !! l) ->
  exists u', library_destroy l u = (Ret tt, u') /\ universe_wf u' /\ removed (below (tree u) l) u u'.
Proof.
  intros W%reachable_wf [lb Hl]. pose proof (library_destroy_ok l u lb W Hl) as H. unfold wp in H.
  destruct (library_destroy l u) as [[[]|e|] u']; [|done|done]. by exists u'.
Qed.

(** * A state to try the properties on *)

(** A database with a library 5, a library 5 in it, and designs in both. *)
Definition after (o : operation) (u : universe) : universe := (run o u).2.
Definition demo0 : universe := (universe_create no_universe).2.
Definition demo1 : universe := after CreateDB demo0.
Definition demo2 : universe := after (CreateLibrary (ParentDB 2) LStandard 5) demo1.
Definition demo3 : universe := after (CreateLibrary (ParentLibrary 3) LStandard 5) demo2.
Definition demo4 : universe := after (CreateDesign 3 DStandard 7) demo3.
Definition demo : universe := after (CreateDesign 4 DStandard 7) demo4.

Lemma room_of_list w (m : gmap Z loc) : forallb (fun p => p.1 <? 2 ^ w - 1) (map_to_list m) = true -> room w m.
Proof.
  intros H k l Hk%elem_of_map_to_list. rewrite forallb_forall in H. apply Z.ltb_lt, (H (k, l)). by apply list_elem_of_In.
Qed.

Lemma reachable_step u o : reachable u -> allowed o u -> (run o u).1 = Ret tt -> reachable (run o u).2.
Proof. intros Hr Ho H. apply (reachable_run u o _ Hr Ho). rewrite <- H. apply surjective_pairing. Qed.

Ltac demo_step := apply reachable_step; [|cbn [allowed]|by vm_compute].
Ltac demo_db := exists 2%positive; eexists; split; [by vm_compute|split; [by vm_compute|apply room_of_list; by vm_compute]].
Ltac demo_lib := eexists; split; [by vm_compute|apply room_of_list; by vm_compute].

Lemma demo3_reachable : reachable demo3.
Proof.
  demo_step; [|by demo_db]. demo_step; [|by demo_db]. demo_step; [exact reachable_create|]. apply room_of_list. by vm_compute.
Qed.
Lemma demo_reachable : reachable demo.
Proof. demo_step; [|by demo_lib]. demo_step; [exact demo3_reachable|by demo_lib]. Qed.

(** * Witnesses *)

Lemma hierarchy_invariant_witness :
  universe_wf demo /\
  match run (DestroyLibrary 4) demo with
  | (Ret _, u') => universe_wf u'
  | (Throw _, u') => u' = demo
  | (Undef, _) => False
  end.
Proof. apply (hierarchy_invariant demo (DestroyLibrary 4) demo_reachable). eexists. vm_compute. reflexivity. Defined.

Lemma object_of_NLID_witness :
  exists id, getNLID (ODesign 6) demo = Some id /\ hierarchical id /\
    forall id', hierarchical id' -> (getObject id' demo = Some (ODesign 6) <-> id' = id).
Proof. apply (object_of_NLID demo (ODesign 6) demo_reachable). eexists. vm_compute. reflexivity. Defined.

Lemma library_lookups_witness : exists lb, libHeap demo !! 4%positive = Some lb /\
  (forall n x, n <> 0 -> lib_getSNLDesignByName n lb = Some x <->
     exists xb, designHeap demo !! x = Some xb /\ d_library xb = 4%positive /\ d_name xb = n).
Proof.
  eexists. split; [vm_compute; reflexivity|].
  refine (proj1 (proj2 (library_lookups demo 4 _ demo_reachable _))). vm_compute. reflexivity.
Defined.

Lemma design_create_result_witness : exists lb, libHeap demo !! 4%positive = Some lb /\
  match design_create 4 DStandard 9 demo with
  | (Ret x, u') =>
      creatable demo 4 lb DStandard 9 /\ designHeap demo !! x = None /\
      exists id, designHeap u' = <[x:=mkDesign id 9 DStandard 4]> (designHeap demo) /\
        (forall y yb, designHeap demo !! y = Some yb -> d_library yb = 4%positive -> d_id yb < id) /\
        (exists lb', libHeap u' !! 4%positive = Some lb' /\ lib_getSNLDesign id lb' = Some x) /\
        tree u' = tree demo /\ dbHeap u' = dbHeap demo /\ dbs u' = dbs demo
  | (Throw _, u') => ~ creatable demo 4 lb DStandard 9 /\ u' = demo
  | (Undef, _) => False
  end.
Proof.
  eexists. split; [vm_compute; reflexivity|].
  apply (design_create_result demo 4 _ DStandard 9 demo_reachable); [vm_compute; reflexivity|].
  apply room_of_list. vm_compute. reflexivity.
Defined.

Lemma library_destroy_removes_witness :
  exists u', library_destroy 3 demo = (Ret tt, u') /\ universe_wf u' /\ removed (below (tree demo) 3) demo u'.
Proof. apply (library_destroy_removes demo 3 demo_reachable). eexists. vm_compute. reflexivity. Defined.

(** * What the code does not do *)

(** A database enters nested libraries in its map of names: a nested library
    hides the root library of the same name, and its destruction makes the root
    impossible to find by name. *)
Lemma nested_library_hides_root :
  (b ← dbHeap demo2 !! 2%positive; db_getLibraryByName 5 b) = Some 3%positive /\
  (b ← dbHeap demo3 !! 2%positive; db_getLibraryByName 5 b) = Some 4%positive /\
  (b ← dbHeap (after (DestroyLibrary 4) demo3) !! 2%positive; db_getLibraryByName 5 b) = None.
Proof. split_and!; vm_compute; reflexivity. Qed.

(** Renaming that root then takes a node out of the map that is not there. *)
Lemma rename_root_undefined :
  (library_setName 3 6 (after (DestroyLibrary 4) demo3)).1 = Undef.
Proof. vm_compute. reflexivity. Qed.

(** After database 255 the next one is given the identifier of the first, is
    not entered in the set, and cannot be found. *)
Lemma database_ids_wrap :
  let u := after CreateDB (after (CreateDBWithID 255) demo0) in
  (db_id <$> dbHeap u !! 3%positive) = Some 0 /\ universe_getDB 0 u = Some 1%positive /\
  getDBs u = [1%positive; 2%positive].
Proof. split_and!; vm_compute; reflexivity. Qed.

(** A database given the identifier of another leaves the set. *)
Lemma database_setID_lost :
  let u := after (SetDBID 2 0) demo1 in
  (db_id <$> dbHeap u !! 2%positive) = Some 0 /\ getDBs u = [1%positive].
Proof. split; vm_compute; reflexivity. Qed.

(** A primitive can be given another type in a library of primitives, which its
    creation forbids. *)
Lemma primitive_retyped :
  let u := (library_create (ParentDB 2) LPrimitives 5 demo1).2 in
  let u' := after (CreateDesign 3 DPrimitive 7) u in
  (design_setType 4 DStandard u').1 = Ret tt /\ (design_create 3 DStandard 8 u').1 <> Ret 5%positive.
Proof. split; vm_compute; [reflexivity|discriminate]. Qed.

(** Destroying the top design leaves its database pointing to it. *)
Lemma top_design_dangles :
  let u := after (DestroyDesign 5) (setTopDesign 5 demo).2 in
  getTopDesign u = Some 5%positive /\ designHeap u !! 5%positive = None.
Proof. split; vm_compute; reflexivity. Qed.
