(* ===== verification/Bus.v ===== *)
(** Scalars, buses and their bits: the shape that the nets and the terminals of
    a design share (nl/netlist/snl/SNLBusNet.cpp, SNLBusTerm.cpp), the positions
    of bits in a bus, and the invariant of a heap of such objects. *)
From S2P Require Import Prelude Store.
Local Open Scope Z_scope.

Notation loc := positive (only parsing).

(** * Ranges *)

(** [NLID::Bit] is an [int]; arithmetic that leaves it is undefined. *)
Definition in_int (x : Z) : bool := (- 2 ^ 31 <=? x) && (x <? 2 ^ 31).

Definition isBetween (n MSB LSB : Z) : bool := (Z.min MSB LSB <=? n) && (n <=? Z.max MSB LSB).
Definition getWidth (msb lsb : Z) : outcome Z :=
  _ ← defined (in_int (lsb - msb)); _ ← defined (in_int (Z.abs (lsb - msb) + 1)); Ret (Z.abs (lsb - msb) + 1).

(** The bit that [createBits] puts at position [i], and the position at which
    a bit is looked up. *)
Definition bit_at (msb lsb : Z) (i : nat) : Z := if lsb <? msb then msb - Z.of_nat i else msb + Z.of_nat i.
Definition bit_position (msb bit : Z) : nat := Z.to_nat (Z.abs (msb - bit)).

(** * Objects *)

(** What scalars and buses have: their design, identifier and name, and what
    only nets or only terminals have. *)
Record header (E : Type) := mkHeader { h_design : loc; h_id : Z; h_name : Z; h_extra : E }.
Arguments mkHeader {_}.
Arguments h_design {_}.
Arguments h_id {_}.
Arguments h_name {_}.
Arguments h_extra {_}.

(** A scalar, a bus with its vector of bits (a bit that was destroyed is null),
    or a bit of a bus. *)
Inductive bits_object (E : Type) :=
| Scalar (o : header E)
| Bus (o : header E) (msb lsb : Z) (bits : list (option loc))
| Bit (bus : loc) (bit : Z).
Arguments Scalar {_}.
Arguments Bus {_}.
Arguments Bit {_}.

Definition getBitAtPosition (bits : list (option loc)) (position : nat) : option loc :=
  match bits !! position with Some bit => bit | None => None end.
Definition getBit (msb lsb : Z) (bits : list (option loc)) (bit : Z) : option loc :=
  if isBetween bit msb lsb then getBitAtPosition bits (bit_position msb bit) else None.
(** [getBusBits]: the bits that are left. *)
Definition getBusBits (bits : list (option loc)) : list loc := omap (fun b => b) bits.

Section objects.
Context {E : Type}.
Implicit Types (h : gmap loc (bits_object E)) (o : header E).

Definition header_of (x : bits_object E) : option (header E) :=
  match x with Scalar o => Some o | Bus o _ _ _ => Some o | Bit _ _ => None end.
Definition set_header (o : header E) (x : bits_object E) : bits_object E :=
  match x with Scalar _ => Scalar o | Bus _ msb lsb bits => Bus o msb lsb bits | Bit b i => Bit b i end.
(** [getDesign] and [getID]: those of a bit are its bus's. *)
Definition object_header (h : gmap loc (bits_object E)) (l : loc) : option (header E) :=
  match h !! l with
  | Some (Scalar o) | Some (Bus o _ _ _) => Some o
  | Some (Bit b _) => match h !! b with Some (Bus o _ _ _) => Some o | _ => None end
  | None => None
  end.
(** [dynamic_cast] to the class of single bits, and [getBit]. *)
Definition is_bit (h : gmap loc (bits_object E)) (l : loc) : option Z :=
  match h !! l with Some (Scalar _) => Some 0 | Some (Bit _ bit) => Some bit | _ => None end.

(** [createBits], from position [i] on: the bits get new addresses. *)
Fixpoint createBits (b : loc) (msb lsb : Z) (i n : nat) (h : gmap loc (bits_object E)) (next : loc)
    : list (option loc) * gmap loc (bits_object E) * loc :=
  match n with
  | O => ([], h, next)
  | S n =>
      let '(bits, h', next') :=
        createBits b msb lsb (S i) n (<[next:=Bit b (bit_at msb lsb i)]> h) (Pos.succ next) in
      (Some next :: bits, h', next')
  end.
End objects.

(** * Positions *)

Lemma isBetween_true n msb lsb : isBetween n msb lsb = true <-> Z.min msb lsb <= n <= Z.max msb lsb.
Proof. unfold isBetween. rewrite andb_true_iff, !Z.leb_le. done. Qed.

Lemma getWidth_Ret msb lsb w :
  getWidth msb lsb = Ret w -> w = Z.abs (lsb - msb) + 1.
Proof. unfold getWidth. intros. by invert_run. Qed.

Lemma getWidth_narrow msb lsb msb' lsb' w :
  getWidth msb lsb = Ret w -> isBetween msb' msb lsb = true -> isBetween lsb' msb lsb = true ->
  getWidth msb' lsb' = Ret (Z.abs (lsb' - msb') + 1).
Proof.
  unfold getWidth. rewrite !isBetween_true. intros H H1 H2. invert_run. unfold in_int in *. guards.
  unfold defined. rewrite !(proj2 (andb_true_iff _ _)); [done|..]; rewrite Z.leb_le, Z.ltb_lt; lia.
Qed.

Section positions.
Context (msb lsb w : Z) (Hw : getWidth msb lsb = Ret w).

Lemma bit_position_at i : bit_position msb (bit_at msb lsb i) = i.
Proof. unfold bit_position, bit_at. destruct (lsb <? msb); lia. Qed.

Lemma bit_at_between i : (i < Z.to_nat w)%nat -> isBetween (bit_at msb lsb i) msb lsb = true.
Proof.
  apply getWidth_Ret in Hw as ->. rewrite isBetween_true. unfold bit_at.
  destruct (Z.ltb_spec lsb msb); lia.
Qed.

Lemma bit_at_position bit : isBetween bit msb lsb = true ->
  bit_at msb lsb (bit_position msb bit) = bit /\ (bit_position msb bit < Z.to_nat w)%nat.
Proof.
  apply getWidth_Ret in Hw as ->. rewrite isBetween_true. unfold bit_at, bit_position.
  destruct (Z.ltb_spec lsb msb); lia.
Qed.

Lemma bit_at_inj i j : bit_at msb lsb i = bit_at msb lsb j -> i = j.
Proof. unfold bit_at. destruct (lsb <? msb); lia. Qed.
End positions.

(** Dropping the first [k] positions keeps the bits of the others. *)
Lemma bit_at_drop msb lsb msb' i :
  isBetween msb' msb lsb = true ->
  bit_at msb' lsb i = bit_at msb lsb (bit_position msb msb' + i) \/ msb' = lsb.
Proof.
  rewrite isBetween_true. unfold bit_at, bit_position. intros H.
  destruct (Z.ltb_spec lsb msb), (Z.ltb_spec lsb msb'); lia.
Qed.
Lemma bit_at_take msb lsb lsb' i :
  isBetween lsb' msb lsb = true -> (i <= bit_position msb lsb')%nat -> bit_at msb lsb' i = bit_at msb lsb i.
Proof.
  rewrite isBetween_true. unfold bit_at, bit_position. intros H Hi.
  destruct (Z.ltb_spec lsb msb), (Z.ltb_spec lsb' msb); lia.
Qed.

Lemma getBit_in_range msb lsb bits i :
  getWidth msb lsb = Ret (Z.of_nat (length bits)) -> (i < length bits)%nat ->
  getBit msb lsb bits (bit_at msb lsb i) = getBitAtPosition bits i.
Proof.
  intros Hw Hi. unfold getBit. by rewrite (bit_at_between _ _ _ Hw), bit_position_at by lia.
Qed.
Lemma getBitAtPosition_Some bits i x : getBitAtPosition bits i = Some x <-> bits !! i = Some (Some x).
Proof. unfold getBitAtPosition. destruct (bits !! i); naive_solver. Qed.

Lemma elem_of_getBusBits bits x : x ∈ getBusBits bits <-> exists i : nat, bits !! i = Some (Some x).
Proof.
  unfold getBusBits. rewrite list_elem_of_omap. split.
  - intros (? & H & ->). by apply list_elem_of_lookup_1 in H.
  - intros [i H]. exists (Some x). split; [by apply list_elem_of_lookup_2 in H|done].
Qed.

(** * The invariant *)

Section invariant.
Context {E : Type}.
Implicit Types (h : gmap loc (bits_object E)) (o : header E) (regs : gmap loc (registry loc)).

(** The scalar or bus [x] of design [d] has identifier [k] and name [n]. *)
Definition owns_object (h : gmap loc (bits_object E)) (d x : loc) (k n : Z) : Prop :=
  exists y o, h !! x = Some y /\ header_of y = Some o /\ h_design o = d /\ h_id o = k /\ h_name o = n.

(** Designs hold exactly their scalars and buses, by identifier and name; a bus
    has the bits of its range that are not destroyed, at their positions. *)
Record objects_wf (h : gmap loc (bits_object E)) (regs : gmap loc (registry loc)) : Prop := {
  ow_registry d r : regs !! d = Some r -> represents 32 (owns_object h d) r;
  ow_design x y o : h !! x = Some y -> header_of y = Some o -> is_Some (regs !! h_design o);
  ow_width b o msb lsb bits : h !! b = Some (Bus o msb lsb bits) ->
    getWidth msb lsb = Ret (Z.of_nat (length bits));
  ow_bits b o msb lsb bits (i : nat) x : h !! b = Some (Bus o msb lsb bits) ->
    bits !! i = Some (Some x) -> h !! x = Some (Bit b (bit_at msb lsb i));
  ow_bit x b bit : h !! x = Some (Bit b bit) ->
    exists o msb lsb bits, h !! b = Some (Bus o msb lsb bits) /\ getBit msb lsb bits bit = Some x }.

Section facts.
Context {h : gmap loc (bits_object E)} {regs : gmap loc (registry loc)} (W : objects_wf h regs).

Lemma getBit_at b o msb lsb bits i :
  h !! b = Some (Bus o msb lsb bits) -> (i < length bits)%nat ->
  getBit msb lsb bits (bit_at msb lsb i) = getBitAtPosition bits i.
Proof. intros Hb. by apply getBit_in_range, (ow_width _ _ W _ _ _ _ _ Hb). Qed.

(** [getBit] finds the bit of that number, if it is left. *)
Lemma getBit_spec b o msb lsb bits bit x :
  h !! b = Some (Bus o msb lsb bits) -> getBit msb lsb bits bit = Some x <-> h !! x = Some (Bit b bit).
Proof.
  intros Hb. split.
  - unfold getBit, getBitAtPosition. destruct (isBetween bit msb lsb) eqn:Hbt; [|done].
    destruct (bits !! bit_position msb bit) as [y|] eqn:Hi; [|done]. intros ->.
    pose proof (ow_bits _ _ W _ _ _ _ _ _ _ Hb Hi) as Hx.
    by rewrite (proj1 (bit_at_position _ _ _ (ow_width _ _ W _ _ _ _ _ Hb) _ Hbt)) in Hx.
  - intros Hx. destruct (ow_bit _ _ W _ _ _ Hx) as (o' & m' & l' & bits' & Hb' & Hg).
    rewrite Hb in Hb'. by injection Hb' as <- <- <- <-.
Qed.

(** A bit is at one position of one bus. *)
Lemma getBit_position b o msb lsb bits bit x :
  h !! b = Some (Bus o msb lsb bits) -> h !! x = Some (Bit b bit) ->
  bits !! bit_position msb bit = Some (Some x) /\ bit_at msb lsb (bit_position msb bit) = bit.
Proof.
  intros Hb Hx. apply (getBit_spec _ _ _ _ _ _ _ Hb) in Hx. unfold getBit, getBitAtPosition in Hx.
  destruct (isBetween bit msb lsb) eqn:Hbt; [|done].
  split; [|exact (proj1 (bit_at_position _ _ _ (ow_width _ _ W _ _ _ _ _ Hb) _ Hbt))].
  destruct (bits !! bit_position msb bit); congruence.
Qed.

Lemma bits_distinct b o msb lsb bits (i j : nat) x :
  h !! b = Some (Bus o msb lsb bits) -> bits !! i = Some (Some x) -> bits !! j = Some (Some x) -> i = j.
Proof.
  intros Hb Hi Hj. pose proof (ow_bits _ _ W _ _ _ _ _ _ _ Hb Hi) as H1.
  pose proof (ow_bits _ _ W _ _ _ _ _ _ _ Hb Hj) as H2. rewrite H1 in H2. injection H2 as H2.
  by apply bit_at_inj in H2.
Qed.

Lemma object_header_total x : is_Some (h !! x) -> is_Some (object_header h x).
Proof.
  intros [[o|o msb lsb bits|b bit] Hx]; unfold object_header; rewrite Hx; [by eexists..|].
  destruct (ow_bit _ _ W _ _ _ Hx) as (o & m & l & bits & -> & _). by eexists.
Qed.

Lemma owns_unique d x y k m n : owns_object h d x k m -> owns_object h d y k n -> x = y.
Proof.
  intros (z & o & Hz & Ho & <- & <- & <-) H2. destruct (ow_design _ _ W _ _ _ Hz Ho) as [r Hr].
  eapply (proj1 (rep_owner_unique (ow_registry _ _ W _ _ Hr) (h_id o) x y (h_name o) n ltac:(by exists z, o) H2)).
Qed.

(** The identifier and bit of a single bit determine it. *)
Lemma is_bit_unique x y i o o' :
  is_bit h x = Some i -> is_bit h y = Some i -> object_header h x = Some o -> object_header h y = Some o' ->
  h_design o = h_design o' -> h_id o = h_id o' -> x = y.
Proof.
  assert (Hown : forall z v a, h !! z = Some v -> header_of v = Some a -> owns_object h (h_design a) z (h_id a) (h_name a))
    by (intros z v a Hz Ha; by exists v, a).
  unfold is_bit, object_header. intros Hx Hy Hox Hoy Hd Hid.
  assert (Hsame : forall z z' v v', h !! z = Some v -> h !! z' = Some v' -> header_of v = Some o ->
    header_of v' = Some o' -> z = z').
  { intros z z' v v' Hz Hz' Hv Hv'. pose proof (Hown _ _ _ Hz Hv) as H1. pose proof (Hown _ _ _ Hz' Hv') as H2.
    rewrite Hd, Hid in H1. by eapply owns_unique. }
  destruct (h !! x) as [[a|a m l bs|b bit]|] eqn:Ex; try done; destruct (h !! y) as [[a'|a' m' l' bs'|b' bit']|] eqn:Ey; try done.
  - by eapply Hsame; [exact Ex|exact Ey|..].
  - destruct (h !! b') as [[|? ? ? ?|]|] eqn:Eb; try done. by rewrite (Hsame _ _ _ _ Ex Eb Hox Hoy), Eb in Ex.
  - destruct (h !! b) as [[|? ? ? ?|]|] eqn:Eb; try done. by rewrite (Hsame _ _ _ _ Eb Ey Hox Hoy), Ey in Eb.
  - destruct (h !! b) as [[|? m l bs|]|] eqn:Eb; try done. destruct (h !! b') as [[|? m' l' bs'|]|] eqn:Eb'; try done.
    pose proof (Hsame _ _ _ _ Eb Eb' Hox Hoy) as <-. injection Hx as ->. injection Hy as ->.
    apply (getBit_spec _ _ _ _ _ _ _ Eb) in Ex. apply (getBit_spec _ _ _ _ _ _ _ Eb) in Ey. congruence.
Qed.
End facts.

(** ** Changes *)

(** Objects that keep their headers keep their owners. *)
Lemma owns_object_ext h h' :
  (forall x o, (exists y, h !! x = Some y /\ header_of y = Some o) <->
               (exists y, h' !! x = Some y /\ header_of y = Some o)) ->
  forall d x k n, owns_object h d x k n <-> owns_object h' d x k n.
Proof.
  intros H d x k n. unfold owns_object. split.
  - intros (y & o & Hy & Ho & Hd & Hk & Hn). destruct (proj1 (H x o) ltac:(by exists y)) as (y' & Hy' & Ho').
    by exists y', o.
  - intros (y & o & Hy & Ho & Hd & Hk & Hn). destruct (proj2 (H x o) ltac:(by exists y)) as (y' & Hy' & Ho').
    by exists y', o.
Qed.

(** A bus that loses bits or gets another range. *)
Lemma objects_wf_change_bus h h' regs b o msb lsb bits msb' lsb' bits' :
  objects_wf h regs -> h !! b = Some (Bus o msb lsb bits) ->
  h' !! b = Some (Bus o msb' lsb' bits') ->
  (forall y, y <> b -> h' !! y = h !! y \/ (h' !! y = None /\ exists bit, h !! y = Some (Bit b bit))) ->
  getWidth msb' lsb' = Ret (Z.of_nat (length bits')) ->
  (forall (i : nat) x, bits' !! i = Some (Some x) -> h' !! x = Some (Bit b (bit_at msb' lsb' i))) ->
  (forall x bit, h' !! x = Some (Bit b bit) -> getBit msb' lsb' bits' bit = Some x) ->
  objects_wf h' regs.
Proof.
  intros W Hb Hb' Hsame Hw Hbits Hbit.
  assert (Hup : forall y v, y <> b -> h' !! y = Some v -> h !! y = Some v).
  { intros y v Hy Hv. destruct (Hsame y Hy) as [E1|[E1 _]]; congruence. }
  assert (Hhead : forall x a, (exists y, h !! x = Some y /\ header_of y = Some a) <->
                              (exists y, h' !! x = Some y /\ header_of y = Some a)).
  { intros x a. destruct (decide (x = b)) as [->|Hx].
    - rewrite Hb, Hb'. split; intros (? & [= <-] & ?); by eexists.
    - destruct (Hsame x Hx) as [->|[-> [bit ->]]]; [done|]. split; intros (? & [= <-] & ?); done. }
  split.
  - intros d r Hr. eapply represents_ext; [|exact (ow_registry _ _ W _ _ Hr)]. by apply owns_object_ext.
  - intros x y a Hy Ha. destruct (proj2 (Hhead x a) ltac:(by exists y)) as (z & Hz & Hza).
    by eapply (ow_design _ _ W).
  - intros c a m l bs Hc. destruct (decide (c = b)) as [->|Hne].
    + rewrite Hb' in Hc. by injection Hc as <- <- <- <-.
    + exact (ow_width _ _ W _ _ _ _ _ (Hup _ _ Hne Hc)).
  - intros c a m l bs i x Hc Hi. destruct (decide (c = b)) as [->|Hne].
    + rewrite Hb' in Hc. injection Hc as <- <- <- <-. by apply Hbits.
    + pose proof (ow_bits _ _ W _ _ _ _ _ _ _ (Hup _ _ Hne Hc) Hi) as Hx.
      assert (x <> b) as Hxb by (intros ->; congruence).
      destruct (Hsame x Hxb) as [E1|[E1 [bit E2]]]; congruence.
  - intros x c bit Hx. destruct (decide (c = b)) as [->|Hne].
    + eauto 10.
    + assert (x <> b) as Hxb by (intros ->; congruence).
      destruct (ow_bit _ _ W _ _ _ (Hup _ _ Hxb Hx)) as (a & m & l & bs & Hc & Hg).
      exists a, m, l, bs. split; [|done]. destruct (Hsame c Hne) as [->|[_ [bit' E2]]]; [done|congruence].
Qed.

(** A scalar or bus leaves its design, a bus with its bits. *)
Lemma objects_wf_remove h h' regs x v o r :
  objects_wf h regs -> h !! x = Some v -> header_of v = Some o -> regs !! h_design o = Some r ->
  (forall y, h' !! y = h !! y \/ (h' !! y = None /\ (y = x \/ exists bit, h !! y = Some (Bit x bit)))) ->
  h' !! x = None -> (forall y bit, h !! y = Some (Bit x bit) -> h' !! y = None) ->
  objects_wf h' (<[h_design o:=remove_object (h_id o) (h_name o) r]> regs).
Proof.
  intros W Hx Hv Hr Hsame Hgone Hbits.
  assert (Hup : forall y z, h' !! y = Some z -> h !! y = Some z).
  { intros y z Hz. destruct (Hsame y) as [E1|[E1 _]]; congruence. }
  assert (Hkeep : forall y z a, h !! y = Some z -> header_of z = Some a -> y <> x -> h' !! y = Some z).
  { intros y z a Hz Ha Hne. destruct (Hsame y) as [->|[_ [->|[bit E1]]]]; [done|done|].
    rewrite Hz in E1. by injection E1 as ->. }
  assert (Hown : owns_object h (h_design o) x (h_id o) (h_name o)) by (by exists v, o).
  assert (Howns : forall d y k n, owns_object h' d y k n <-> owns_object h d y k n /\ y <> x).
  { intros d y k n. split.
    - intros (z & a & Hz & Ha). split; [exists z, a; by split; [apply Hup|]|]. intros ->. congruence.
    - intros [(z & a & Hz & Ha & Hrest) Hne]. exists z, a. split; [by eapply Hkeep|done]. }
  split.
  - intros d r' [[<- <-]|[Hne Hr']]%lookup_insert_Some.
    + eapply (represents_remove (ow_registry _ _ W _ _ Hr)); [exact Hown|]. intros *. apply Howns.
    + eapply represents_ext; [|exact (ow_registry _ _ W _ _ Hr')]. intros y k n. rewrite Howns. split; [|naive_solver].
      intros Hy. split; [done|]. intros ->. destruct Hy as (z & a & Hz & Ha & Hd & _). congruence.
  - intros y z a Hz Ha. apply lookup_insert_is_Some'. right. eapply (ow_design _ _ W); [by apply Hup|done].
  - intros c a m l bs Hc. exact (ow_width _ _ W _ _ _ _ _ (Hup _ _ Hc)).
  - intros c a m l bs i y Hc Hi. pose proof (ow_bits _ _ W _ _ _ _ _ _ _ (Hup _ _ Hc) Hi) as Hy.
    destruct (Hsame y) as [->|[_ [->|[bit E1]]]]; [done| |].
    + rewrite Hx in Hy. injection Hy as ->. done.
    + rewrite E1 in Hy. injection Hy as -> _. congruence.
  - intros y c bit Hy. destruct (ow_bit _ _ W _ _ _ (Hup _ _ Hy)) as (a & m & l & bs & Hc & Hg).
    exists a, m, l, bs. split; [|done]. eapply Hkeep; [exact Hc|done|]. intros ->.
    pose proof (Hbits _ _ (Hup _ _ Hy)). congruence.
Qed.

(** A new object with a free identifier and name enters its design: a bus with
    its bits, which are new too. *)
Lemma objects_wf_add h h' regs x v o r :
  objects_wf h regs -> h !! x = None -> h' !! x = Some v -> header_of v = Some o ->
  regs !! h_design o = Some r -> 0 <= h_id o < 2 ^ 32 -> find_by_id (h_id o) r = None ->
  (h_name o <> 0 -> find_by_name (h_name o) r = None) ->
  (forall y z, h !! y = Some z -> h' !! y = Some z) ->
  (forall y z, y <> x -> h' !! y = Some z -> h !! y = Some z \/ exists bit, z = Bit x bit) ->
  (forall msb lsb bits, v = Bus o msb lsb bits ->
     getWidth msb lsb = Ret (Z.of_nat (length bits)) /\
     forall (i : nat) y, bits !! i = Some (Some y) -> h' !! y = Some (Bit x (bit_at msb lsb i))) ->
  (forall y bit, h' !! y = Some (Bit x bit) -> exists msb lsb bits, v = Bus o msb lsb bits /\ getBit msb lsb bits bit = Some y) ->
  objects_wf h' (<[h_design o:=add_object (h_id o) (h_name o) x r]> regs).
Proof.
  intros W Hnew Hx Hv Hr Hid Hfree Hname Hkeep Hup Hbus Hbit.
  assert (Hnone : forall d k n, ~ owns_object h d x k n) by (intros d k n (z & a & Hz & _); congruence).
  assert (Howns : forall d y k n, owns_object h' d y k n <->
    owns_object h d y k n \/ (y = x /\ h_design o = d /\ k = h_id o /\ n = h_name o)).
  { intros d y k n. split.
    - intros (z & a & Hz & Ha & Hd & Hk & Hn). destruct (decide (y = x)) as [->|Hne].
      + rewrite Hx in Hz. injection Hz as <-. rewrite Hv in Ha. injection Ha as <-. by right.
      + destruct (Hup y z Hne Hz) as [E1|[bit ->]]; [|done]. left. by exists z, a.
    - intros [(z & a & Hz & H)|(-> & Hd & -> & ->)]; [|by exists v, o]. exists z, a. split; [by apply Hkeep|done]. }
  split.
  - intros d r' [[<- <-]|[Hne Hr']]%lookup_insert_Some.
    + eapply (represents_add (ow_registry _ _ W _ _ Hr)); [done..| |]; [by intros|]. intros y k n. rewrite Howns. naive_solver.
    + eapply represents_ext; [|exact (ow_registry _ _ W _ _ Hr')]. intros y k n. rewrite Howns. naive_solver.
  - intros y z a Hz Ha. apply lookup_insert_is_Some'. destruct (decide (y = x)) as [->|Hne].
    + left. rewrite Hx in Hz. injection Hz as <-. congruence.
    + right. destruct (Hup y z Hne Hz) as [E1|[bit ->]]; [|done]. by eapply (ow_design _ _ W).
  - intros c a m l bs Hc. destruct (decide (c = x)) as [->|Hne].
    + rewrite Hx in Hc. injection Hc as ->. cbn in Hv. injection Hv as ->. by apply Hbus.
    + destruct (Hup _ _ Hne Hc) as [E1|[bit E1]]; [|done]. exact (ow_width _ _ W _ _ _ _ _ E1).
  - intros c a m l bs i y Hc Hi. destruct (decide (c = x)) as [->|Hne].
    + rewrite Hx in Hc. injection Hc as ->. cbn in Hv. injection Hv as ->. by eapply (proj2 (Hbus _ _ _ eq_refl)).
    + destruct (Hup _ _ Hne Hc) as [E1|[bit E1]]; [|done]. apply Hkeep. exact (ow_bits _ _ W _ _ _ _ _ _ _ E1 Hi).
  - intros y c bit Hy. destruct (decide (c = x)) as [->|Hne].
    + destruct (Hbit _ _ Hy) as (m & l & bs & -> & Hg). by exists o, m, l, bs.
    + assert (y <> x) as Hyx by (intros ->; rewrite Hx in Hy; injection Hy as ->; done).
      destruct (Hup _ _ Hyx Hy) as [E1|[bit' [= ? ?]]]; [|done].
      destruct (ow_bit _ _ W _ _ _ E1) as (a & m & l & bs & Hc & Hg). exists a, m, l, bs. split; [by apply Hkeep|done].
Qed.

(** An object with another name. *)
Lemma objects_wf_rename h regs x v o name r r' :
  objects_wf h regs -> h !! x = Some v -> header_of v = Some o -> regs !! h_design o = Some r ->
  name <> h_name o -> (name <> 0 -> find_by_name name r = None) ->
  rename_object (h_id o) name (h_name o) r = Some r' ->
  objects_wf (<[x:=set_header (mkHeader (h_design o) (h_id o) name (h_extra o)) v]> h) (<[h_design o:=r']> regs).
Proof.
  intros W Hx Hv Hr Hne Hname Hren. set (o' := mkHeader (h_design o) (h_id o) name (h_extra o)).
  assert (Hown : owns_object h (h_design o) x (h_id o) (h_name o)) by (by exists v, o).
  assert (Hv' : header_of (set_header o' v) = Some o') by (by destruct v).
  assert (Howns : forall d y k n, owns_object (<[x:=set_header o' v]> h) d y k n <->
    (owns_object h d y k n /\ y <> x) \/ (y = x /\ h_design o = d /\ k = h_id o /\ n = name)).
  { intros d y k n. split.
    - intros (z & a & [[<- <-]|[Hyx Hz]]%lookup_insert_Some & Ha & Hrest).
      + rewrite Hv' in Ha. injection Ha as <-. cbn in Hrest. right. naive_solver.
      + left. split; [by exists z, a|done].
    - intros [[(z & a & Hz & H) Hyx]|(-> & <- & -> & ->)].
      + exists z, a. by rewrite lookup_insert_ne.
      + exists (set_header o' v), o'. rewrite lookup_insert_eq. done. }
  assert (Hbit : forall y c bit, <[x:=set_header o' v]> h !! y = Some (Bit c bit) <-> h !! y = Some (Bit c bit)).
  { intros y c bit. rewrite lookup_insert_Some. split; [|intros H; right; split; [intros ->; rewrite Hx in H; by injection H as ->|done]].
    intros [[_ E1]|[_ E1]]; [by destruct v|done]. }
  assert (Hbus : forall c a m l bs, <[x:=set_header o' v]> h !! c = Some (Bus a m l bs) -> exists a', h !! c = Some (Bus a' m l bs)).
  { intros c a m l bs [[<- E1]|[_ E1]]%lookup_insert_Some; [|eauto]. destruct v; try done. injection E1 as <- <- <- <-. eauto. }
  split.
  - intros d r'' [[<- <-]|[Hd Hr'']]%lookup_insert_Some.
    + edestruct (represents_rename (ow_registry _ _ W _ _ Hr)) as (r2 & E2 & HR); [exact Hown|exact Hne|exact Hname| |].
      2: { rewrite Hren in E2. injection E2 as <-. exact HR. }
      intros y k n. rewrite Howns. naive_solver.
    + eapply represents_ext; [|exact (ow_registry _ _ W _ _ Hr'')]. intros y k n. rewrite Howns.
      split; [|naive_solver]. intros Hy. left. split; [done|]. intros ->.
      destruct Hy as (z & a & Hz & Ha & Hrest & _). congruence.
  - intros y z a [[<- <-]|[_ Hz]]%lookup_insert_Some Ha; apply lookup_insert_is_Some'.
    + rewrite Hv' in Ha. injection Ha as <-. by left.
    + right. by eapply (ow_design _ _ W).
  - intros c a m l bs [a' Hc]%Hbus. exact (ow_width _ _ W _ _ _ _ _ Hc).
  - intros c a m l bs i y [a' Hc]%Hbus Hi. apply Hbit. exact (ow_bits _ _ W _ _ _ _ _ _ _ Hc Hi).
  - intros y c bit Hy%Hbit. destruct (ow_bit _ _ W _ _ _ Hy) as (a & m & l & bs & Hc & Hg).
    destruct (decide (c = x)) as [->|Hcx].
    + rewrite Hx in Hc. injection Hc as ->. exists o', m, l, bs. by rewrite lookup_insert_eq.
    + exists a, m, l, bs. by rewrite lookup_insert_ne.
Qed.

(** ** Creating and narrowing a bus *)

Lemma createBits_spec b msb lsb n : forall i h next bits h' next',
  createBits b msb lsb i n h next = (bits, h', next') ->
  length bits = n /\ (next <= next')%positive /\
  (forall y, (y < next \/ next' <= y)%positive -> h' !! y = h !! y) /\
  (forall y, (next <= y < next')%positive -> exists j : nat, bits !! j = Some (Some y)) /\
  (forall (j : nat) x, bits !! j = Some x ->
     exists y, x = Some y /\ (next <= y < next')%positive /\ h' !! y = Some (Bit b (bit_at msb lsb (i + j)))).
Proof.
  induction n as [|n IH]; intros i h next bits h' next'; cbn.
  { intros [= <- <- <-]. split_and!; [done|lia|done|lia|done]. }
  destruct (createBits b msb lsb (S i) n _ _) as [[bits0 h0] next0] eqn:E0. intros [= <- <- <-].
  apply IH in E0 as (Hlen & Hle & Hold & Hin & Hbits). split_and!; [cbn; congruence|lia| | |].
  - intros y Hy. rewrite Hold by lia. apply lookup_insert_ne. lia.
  - intros y Hy. destruct (decide (y = next)) as [->|Hne]; [by exists 0%nat|].
    destruct (Hin y ltac:(lia)) as [j Hj]. by exists (S j).
  - intros [|j] x Hj; cbn in Hj.
    + injection Hj as <-. exists next. split_and!; [done|lia|lia|]. rewrite (Hold next) by lia.
      by rewrite lookup_insert_eq, Nat.add_0_r.
    + destruct (Hbits j x Hj) as (y & -> & Hy & Hl). exists y. split_and!; [done|lia|lia|]. by rewrite Hl, Nat.add_succ_r.
Qed.

Lemma objects_wf_add_bus h h' regs x v o msb lsb bits r n next' :
  objects_wf h regs -> (forall y, is_Some (h !! y) -> (y < x)%positive) ->
  getWidth msb lsb = Ret (Z.of_nat n) ->
  createBits x msb lsb 0 n (<[x:=v]> h) (Pos.succ x) = (bits, h', next') ->
  regs !! h_design o = Some r -> 0 <= h_id o < 2 ^ 32 -> find_by_id (h_id o) r = None ->
  (h_name o <> 0 -> find_by_name (h_name o) r = None) ->
  objects_wf (<[x:=Bus o msb lsb bits]> h') (<[h_design o:=add_object (h_id o) (h_name o) x r]> regs).
Proof.
  intros W Hlt Hw Hc Hr Hid Hfree Hname. apply createBits_spec in Hc as (Hlen & Hle & Hold & Hin & Hbits).
  assert (Hnone : forall y, (x <= y)%positive -> h !! y = None).
  { intros y Hy. apply eq_None_not_Some. intros H. specialize (Hlt y H). lia. }
  assert (Hrange : forall y, y <> x -> h' !! y = h !! y \/ exists j : nat, bits !! j = Some (Some y)).
  { intros y Hy. destruct (decide (Pos.succ x <= y < next')%positive) as [Hr'|Hr']; [right; by apply Hin|].
    left. rewrite Hold by lia. by apply lookup_insert_ne. }
  assert (Hbits' : forall (j : nat) y, bits !! j = Some (Some y) -> y <> x /\ h' !! y = Some (Bit x (bit_at msb lsb j))).
  { intros j y Hj. destruct (Hbits j _ Hj) as (? & [= <-] & Hy & ->). split; [lia|done]. }
  eapply objects_wf_add; [exact W| |apply lookup_insert_eq|done|exact Hr|done..| | | |].
  - apply Hnone. lia.
  - intros y z Hy. specialize (Hlt y ltac:(by eexists)). rewrite lookup_insert_ne by lia. rewrite Hold by lia.
    by rewrite lookup_insert_ne by lia.
  - intros y z Hy. rewrite lookup_insert_ne by done. destruct (Hrange y Hy) as [->|[j Hj]]; [by left|].
    destruct (Hbits' _ _ Hj) as [_ ->]. intros [= <-]. right. by eexists.
  - intros ? ? ? [= <- <- <-]. rewrite Hlen. split; [done|]. intros i y Hi. destruct (Hbits' _ _ Hi) as [Hy Hy'].
    by rewrite lookup_insert_ne.
  - intros y bit [[_ E1]|[Hy Hbit]]%lookup_insert_Some; [done|]. exists msb, lsb, bits. split; [done|].
    destruct (Hrange y ltac:(done)) as [E1|[j Hj]].
    + rewrite E1 in Hbit. destruct (ow_bit _ _ W _ _ _ Hbit) as (? & ? & ? & ? & Hx & _). by rewrite Hnone in Hx by lia.
    + destruct (Hbits' _ _ Hj) as [_ E1]. rewrite E1 in Hbit. injection Hbit as <-.
      rewrite getBit_in_range; [by apply getBitAtPosition_Some|by rewrite Hlen|]. by apply lookup_lt_Some in Hj.
Qed.

(** A narrower range: the bits outside it are gone. *)
Lemma objects_wf_narrow h h' regs b o msb lsb bits msb' lsb' (k n : nat) :
  objects_wf h regs -> h !! b = Some (Bus o msb lsb bits) ->
  (forall i, (i < n)%nat -> bit_at msb' lsb' i = bit_at msb lsb (k + i)) ->
  (k + n <= length bits)%nat -> getWidth msb' lsb' = Ret (Z.of_nat n) ->
  h' !! b = Some (Bus o msb' lsb' (take n (drop k bits))) ->
  (forall y, y <> b -> h' !! y = h !! y \/ (h' !! y = None /\ exists bit, h !! y = Some (Bit b bit))) ->
  (forall (i : nat) y, bits !! i = Some (Some y) ->
     h' !! y = if decide (k <= i < k + n)%nat then Some (Bit b (bit_at msb lsb i)) else None) ->
  objects_wf h' regs.
Proof.
  intros W Hb Hat Hlen Hw Hb' Hsame Hbits.
  assert (Hl : length (take n (drop k bits)) = n) by (rewrite length_take, length_drop; lia).
  eapply objects_wf_change_bus; [exact W|exact Hb|exact Hb'|exact Hsame|by rewrite Hl| |].
  - intros i x. rewrite lookup_take_Some, lookup_drop. intros [Hi Hin].
    rewrite (Hbits _ _ Hi), decide_True by lia. by rewrite Hat.
  - intros x bit Hx. assert (h !! x = Some (Bit b bit)) as Hx0.
    { destruct (decide (x = b)) as [->|Hne]; [congruence|]. destruct (Hsame x Hne) as [E1|[E1 _]]; congruence. }
    destruct (getBit_position W _ _ _ _ _ _ _ Hb Hx0) as [Hi Hpos]. pose proof (Hbits _ _ Hi) as E1.
    rewrite Hx in E1. case_decide as Hin; [|done].
    assert (bit = bit_at msb' lsb' (bit_position msb bit - k)) as Ebit.
    { rewrite Hat by lia. replace (k + (bit_position msb bit - k))%nat with (bit_position msb bit) by lia. done. }
    rewrite Ebit at 1. rewrite getBit_in_range; [|by rewrite Hl|rewrite Hl; lia].
    apply getBitAtPosition_Some. rewrite lookup_take_Some, lookup_drop. split; [|lia].
    by replace (k + (bit_position msb bit - k))%nat with (bit_position msb bit) by lia.
Qed.

(** [setMSB] drops positions at the front, [setLSB] at the back. *)
Lemma narrow_msb h regs b o msb lsb bits msb' :
  objects_wf h regs -> h !! b = Some (Bus o msb lsb bits) -> isBetween msb' msb lsb = true ->
  exists n, (bit_position msb msb' + n = length bits)%nat /\ getWidth msb' lsb = Ret (Z.of_nat n) /\
    forall i, (i < n)%nat -> bit_at msb' lsb i = bit_at msb lsb (bit_position msb msb' + i).
Proof.
  intros W Hb Hbt. pose proof (ow_width _ _ W _ _ _ _ _ Hb) as Hw.
  pose proof (getWidth_narrow _ _ msb' lsb _ Hw Hbt ltac:(apply isBetween_true; lia)) as Hw'.
  apply getWidth_Ret in Hw. exists (Z.to_nat (Z.abs (lsb - msb') + 1)).
  apply isBetween_true in Hbt as Hbt'. split_and!.
  - unfold bit_position. lia.
  - rewrite Hw'. f_equal. lia.
  - intros i Hi. destruct (bit_at_drop msb lsb msb' i Hbt) as [?|E1]; [done|]. subst msb'.
    assert (i = 0)%nat as -> by lia. rewrite Nat.add_0_r.
    unfold bit_at, bit_position. rewrite Z.ltb_irrefl. destruct (Z.ltb_spec lsb msb); lia.
Qed.
Lemma narrow_lsb h regs b o msb lsb bits lsb' :
  objects_wf h regs -> h !! b = Some (Bus o msb lsb bits) -> isBetween lsb' msb lsb = true ->
  exists n, (n + Z.to_nat (Z.abs (lsb - lsb')) = length bits)%nat /\ getWidth msb lsb' = Ret (Z.of_nat n) /\
    forall i, (i < n)%nat -> bit_at msb lsb' i = bit_at msb lsb i.
Proof.
  intros W Hb Hbt. pose proof (ow_width _ _ W _ _ _ _ _ Hb) as Hw.
  pose proof (getWidth_narrow _ _ msb lsb' _ Hw ltac:(apply isBetween_true; lia) Hbt) as Hw'.
  apply getWidth_Ret in Hw. exists (Z.to_nat (Z.abs (lsb' - msb) + 1)).
  apply isBetween_true in Hbt as Hbt'. split_and!.
  - lia.
  - rewrite Hw'. f_equal. lia.
  - intros i Hi. apply bit_at_take; [done|]. unfold bit_position. lia.
Qed.

(** The bits at the front or at the back, when none of them was destroyed. *)
Lemma removed_front h regs b o msb lsb bits k ns :
  objects_wf h regs -> h !! b = Some (Bus o msb lsb bits) -> take k bits = Some <$> ns ->
  NoDup ns /\ (forall x (i : nat), bits !! i = Some (Some x) -> x ∈ ns <-> (i < k)%nat) /\
  (forall x, x ∈ ns -> exists i : nat, bits !! i = Some (Some x)).
Proof.
  intros W Hb Ens.
  assert (Hns : forall x (i : nat), ns !! i = Some x <-> bits !! i = Some (Some x) /\ (i < k)%nat).
  { intros x i. rewrite <- lookup_take_Some, Ens, list_lookup_fmap, fmap_Some. naive_solver. }
  split_and!.
  - apply NoDup_alt. intros i j x [Hi _]%Hns [Hj _]%Hns. exact (bits_distinct W _ _ _ _ _ _ _ _ Hb Hi Hj).
  - intros x i Hi. split.
    + intros [j [Hj Hjk]%Hns]%list_elem_of_lookup_1. by rewrite (bits_distinct W _ _ _ _ _ _ _ _ Hb Hi Hj).
    + intros Hik. apply list_elem_of_lookup_2 with i. by apply Hns.
  - intros x [j [Hj _]%Hns]%list_elem_of_lookup_1. by exists j.
Qed.
Lemma removed_back h regs b o msb lsb bits k ns :
  objects_wf h regs -> h !! b = Some (Bus o msb lsb bits) -> drop k bits = Some <$> ns ->
  NoDup ns /\ (forall x (i : nat), bits !! i = Some (Some x) -> x ∈ ns <-> (k <= i)%nat) /\
  (forall x, x ∈ ns -> exists i : nat, bits !! i = Some (Some x)).
Proof.
  intros W Hb Ens.
  assert (Hns : forall x (i : nat), ns !! i = Some x <-> bits !! (k + i)%nat = Some (Some x)).
  { intros x i. rewrite <- lookup_drop, Ens, list_lookup_fmap, fmap_Some. naive_solver. }
  split_and!.
  - apply NoDup_alt. intros i j x Hi%Hns Hj%Hns. pose proof (bits_distinct W _ _ _ _ _ _ _ _ Hb Hi Hj). lia.
  - intros x i Hi. split.
    + intros [j Hj%Hns]%list_elem_of_lookup_1. pose proof (bits_distinct W _ _ _ _ _ _ _ _ Hb Hi Hj). lia.
    + intros Hik. apply list_elem_of_lookup_2 with (i - k)%nat. apply Hns. by replace (k + (i - k))%nat with i by lia.
  - intros x [j Hj%Hns]%list_elem_of_lookup_1. by eexists.
Qed.
End invariant.
