(* ===== verification/Contents.v ===== *)
(** The contents of designs: terminals, nets, instances, the terminals of
    instances, and their connections (nl/netlist/snl/SNLDesign.cpp, SNLBitNet.cpp,
    SNLScalarNet.cpp, SNLBusNet.cpp, SNLScalarTerm.cpp, SNLBusTerm.cpp,
    SNLInstance.cpp, SNLInstTerm.cpp, SNLMacros.h). Bundles, parameters,
    attributes, shared paths and source locations are not part of the state. *)
From S2P Require Import Prelude NLID Store Bus.
Local Open Scope Z_scope.

(** * State *)

Inductive net_type := NStandard | NAssign0 | NAssign1 | NSupply0 | NSupply1 | NAssignX | NAssignZ.
Inductive direction := Input | Output | InOut | Undefined.
#[export] Instance net_type_dec : EqDecision net_type.
Proof. solve_decision. Defined.
#[export] Instance direction_dec : EqDecision direction.
Proof. solve_decision. Defined.

(** [SNLScalarTerm], [SNLBusTerm] and [SNLBusTermBit]; [flatID_] is a [size_t]
    that stays below the number of terminal bits ever created. *)
Record term_fields := mkTerm { flatID_ : nat; direction_ : direction }.
Notation SNLTerm := (bits_object term_fields).
(** [SNLScalarNet], [SNLBusNet] and [SNLBusNetBit]. *)
Notation SNLNet := (bits_object unit).
Record instance_fields := mkInst { model_ : loc; instTerms_ : list (option loc) }.
Notation SNLInstance := (header instance_fields).
Record SNLInstTerm := mkInstTerm { instance_ : loc; bitTerm_ : loc }.
(** What a design is, apart from what it holds. *)
Record design_fields := mkDesignFields { reference_ : DesignReference; primitive_ : bool }.

Record structure := mkStructure {
  designs : gmap loc design_fields;
  terms_ : gmap loc (registry loc);
  nets_ : gmap loc (registry loc);
  instances_ : gmap loc (registry loc);
  slaveInstances_ : gmap loc (gmap NLID loc);
  termHeap : gmap loc SNLTerm;
  netHeap : gmap loc SNLNet;
  instHeap : gmap loc SNLInstance;
  instTermHeap : gmap loc SNLInstTerm;
  next : loc }.

(** The fields that connect and order bits are maps of their own: [net_] of a
    net component, [components_] and the type of a bit net, [orderID_] of a bit
    terminal. *)
Record netlist := mkNetlist {
  str : structure;
  net_ : gmap loc loc;
  components_ : gmap loc (gmap NLID loc);
  netTypes : gmap loc net_type;
  orderIDs : gmap loc Z }.

Definition set_str (t : structure) (s : netlist) : netlist :=
  mkNetlist t (net_ s) (components_ s) (netTypes s) (orderIDs s).
Definition set_net (m : gmap loc loc) (s : netlist) : netlist :=
  mkNetlist (str s) m (components_ s) (netTypes s) (orderIDs s).
Definition set_components (m : gmap loc (gmap NLID loc)) (s : netlist) : netlist :=
  mkNetlist (str s) (net_ s) m (netTypes s) (orderIDs s).
Definition set_types (m : gmap loc net_type) (s : netlist) : netlist :=
  mkNetlist (str s) (net_ s) (components_ s) m (orderIDs s).
Definition set_orders (m : gmap loc Z) (s : netlist) : netlist :=
  mkNetlist (str s) (net_ s) (components_ s) (netTypes s) m.

Definition set_terms_ m (t : structure) := mkStructure (designs t) m (nets_ t) (instances_ t) (slaveInstances_ t)
  (termHeap t) (netHeap t) (instHeap t) (instTermHeap t) (next t).
Definition set_nets_ m (t : structure) := mkStructure (designs t) (terms_ t) m (instances_ t) (slaveInstances_ t)
  (termHeap t) (netHeap t) (instHeap t) (instTermHeap t) (next t).
Definition set_instances_ m (t : structure) := mkStructure (designs t) (terms_ t) (nets_ t) m (slaveInstances_ t)
  (termHeap t) (netHeap t) (instHeap t) (instTermHeap t) (next t).
Definition set_slaves m (t : structure) := mkStructure (designs t) (terms_ t) (nets_ t) (instances_ t) m
  (termHeap t) (netHeap t) (instHeap t) (instTermHeap t) (next t).
Definition set_termHeap h (t : structure) := mkStructure (designs t) (terms_ t) (nets_ t) (instances_ t) (slaveInstances_ t)
  h (netHeap t) (instHeap t) (instTermHeap t) (next t).
Definition set_netHeap h (t : structure) := mkStructure (designs t) (terms_ t) (nets_ t) (instances_ t) (slaveInstances_ t)
  (termHeap t) h (instHeap t) (instTermHeap t) (next t).
Definition set_instHeap h (t : structure) := mkStructure (designs t) (terms_ t) (nets_ t) (instances_ t) (slaveInstances_ t)
  (termHeap t) (netHeap t) h (instTermHeap t) (next t).
Definition set_instTermHeap h (t : structure) := mkStructure (designs t) (terms_ t) (nets_ t) (instances_ t) (slaveInstances_ t)
  (termHeap t) (netHeap t) (instHeap t) h (next t).
Definition set_next n (t : structure) := mkStructure (designs t) (terms_ t) (nets_ t) (instances_ t) (slaveInstances_ t)
  (termHeap t) (netHeap t) (instHeap t) (instTermHeap t) n.

(** Other nets in the same designs. *)
Definition with_nets (regs : gmap loc (registry loc)) (h : gmap loc SNLNet) (n : loc) (t : structure) : structure :=
  mkStructure (designs t) (terms_ t) regs (instances_ t) (slaveInstances_ t) (termHeap t) h (instHeap t) (instTermHeap t) n.

(** Reading, writing, [new] and [delete]. *)
Definition change (f : structure -> structure) : prog netlist unit := modify (fun s => set_str (f (str s)) s).
Definition the_term (x : loc) : prog netlist SNLTerm := deref (fun s => termHeap (str s) !! x).
Definition the_net (n : loc) : prog netlist SNLNet := deref (fun s => netHeap (str s) !! n).
Definition the_instance (i : loc) : prog netlist SNLInstance := deref (fun s => instHeap (str s) !! i).
Definition the_instTerm (it : loc) : prog netlist SNLInstTerm := deref (fun s => instTermHeap (str s) !! it).
Definition put_term x (v : SNLTerm) := change (fun t => set_termHeap (<[x:=v]> (termHeap t)) t).
Definition put_net n (v : SNLNet) := change (fun t => set_netHeap (<[n:=v]> (netHeap t)) t).
Definition put_instance i (v : SNLInstance) := change (fun t => set_instHeap (<[i:=v]> (instHeap t)) t).
Definition fresh : prog netlist loc := fun s => (Ret (next (str s)), set_str (set_next (Pos.succ (next (str s))) (str s)) s).
Definition new_term (v : SNLTerm) : prog netlist loc := x ← fresh; put_term x v ;; mret x.
Definition new_net (v : SNLNet) : prog netlist loc := n ← fresh; put_net n v ;; mret n.
Definition new_instance (v : SNLInstance) : prog netlist loc := i ← fresh; put_instance i v ;; mret i.
Definition new_instTerm (v : SNLInstTerm) : prog netlist loc :=
  it ← fresh; change (fun t => set_instTermHeap (<[it:=v]> (instTermHeap t)) t) ;; mret it.
Definition delete_term (x : loc) := change (fun t => set_termHeap (delete x (termHeap t)) t).
Definition delete_net (n : loc) := change (fun t => set_netHeap (delete n (netHeap t)) t).
Definition delete_instance (i : loc) := change (fun t => set_instHeap (delete i (instHeap t)) t).
Definition delete_instTerm (it : loc) := change (fun t => set_instTermHeap (delete it (instTermHeap t)) t).

(** Running a function that can fail. *)
Definition lift {A} (o : outcome A) : prog netlist A := fun s => (o, s).

(** * Getters *)

Definition net_design (t : structure) (n : loc) : option loc := h_design <$> object_header (netHeap t) n.
Definition comp_design (t : structure) (c : loc) : option loc :=
  match instTermHeap t !! c with
  | Some it => h_design <$> instHeap t !! instance_ it
  | None => h_design <$> object_header (termHeap t) c
  end.
(** [getNLID] of a terminal, of a terminal of an instance and of an instance. *)
Definition term_getNLID (t : structure) (x : loc) : option NLID :=
  v ← termHeap t !! x; o ← object_header (termHeap t) x; D ← designs t !! h_design o;
  let r := reference_ D in
  Some (match v with
        | Bit _ bit => nlid_object TermBit (ref_db r) (ref_library r) (ref_design r) (h_id o) 0 bit
        | _ => nlid_object Term (ref_db r) (ref_library r) (ref_design r) (h_id o) 0 0
        end).
Definition instTerm_getNLID (t : structure) (it : SNLInstTerm) : option NLID :=
  I ← instHeap t !! instance_ it; D ← designs t !! h_design I;
  o ← object_header (termHeap t) (bitTerm_ it); bit ← is_bit (termHeap t) (bitTerm_ it);
  let r := reference_ D in
  Some (nlid_object InstTerm (ref_db r) (ref_library r) (ref_design r) (h_id o) (h_id I) bit).
Definition comp_getNLID (t : structure) (c : loc) : option NLID :=
  match instTermHeap t !! c with Some it => instTerm_getNLID t it | None => term_getNLID t c end.
Definition instance_getNLID (t : structure) (I : SNLInstance) : option NLID :=
  D ← designs t !! h_design I;
  let r := reference_ D in
  Some (nlid_object Instance (ref_db r) (ref_library r) (ref_design r) 0 (h_id I) 0).

(** [getFlatID]; that of a bit follows its position. *)
Definition getFlatID (h : gmap loc SNLTerm) (x : loc) : option nat :=
  match h !! x with
  | Some (Scalar o) | Some (Bus o _ _ _) => Some (flatID_ (h_extra o))
  | Some (Bit b bit) =>
      match h !! b with
      | Some (Bus o msb _ _) => Some (flatID_ (h_extra o) + Z.to_nat (Z.abs (bit - msb)))%nat
      | _ => None
      end
  | None => None
  end.

Definition getComponents (s : netlist) (n : loc) : list loc :=
  in_order_by nlid_lt (default ∅ (components_ s !! n)).
Definition getType (s : netlist) (n : loc) : net_type := default NStandard (netTypes s !! n).

(** Bits of a net or terminal, and the bit terminals of a design in order. *)
Definition getBits {E} (h : gmap loc (bits_object E)) (x : loc) : list loc :=
  match h !! x with Some (Bus _ _ _ bits) => getBusBits bits | Some _ => [x] | None => [] end.
Definition getTerms (t : structure) (d : loc) : list loc :=
  match terms_ t !! d with Some r => in_order (objects r) | None => [] end.
Definition getBitTerms (t : structure) (d : loc) : list loc := getTerms t d ≫= getBits (termHeap t).
Definition getSlaveInstances (t : structure) (d : loc) : list loc :=
  in_order_by nlid_lt (default ∅ (slaveInstances_ t !! d)).

Definition getTerm (t : structure) (d : loc) (id : Z) : option loc := r ← terms_ t !! d; find_by_id id r.
Definition getTermByName (t : structure) (d : loc) (n : Z) : option loc := r ← terms_ t !! d; find_by_name n r.
Definition getNet (t : structure) (d : loc) (id : Z) : option loc := r ← nets_ t !! d; find_by_id id r.
Definition getNetByName (t : structure) (d : loc) (n : Z) : option loc := r ← nets_ t !! d; find_by_name n r.
Definition getInstance (t : structure) (d : loc) (id : Z) : option loc := r ← instances_ t !! d; find_by_id id r.
Definition getInstanceByName (t : structure) (d : loc) (n : Z) : option loc := r ← instances_ t !! d; find_by_name n r.
