(* ===== verification/Connections.v ===== *)
(** Connections between the bit nets of a design and its net components, which
    point at each other: the [setNet] of components (NET_COMPONENT_SET_NET in
    nl/netlist/snl/SNLMacros.h) and the operations of SNLBitNet.cpp.

    The invariant of the contents of designs, and what identifies a component
    and finds the terminal of an instance in every state that satisfies it. *)
From S2P Require Import Prelude NLID Store Bus Contents.
Local Open Scope Z_scope.

(** * Operations *)

Definition components (s : netlist) (n : loc) : gmap NLID loc := default ∅ (components_ s !! n).
Definition addComponent (n c : loc) : prog netlist unit :=
  _ ← the_net n; k ← deref (fun s => comp_getNLID (str s) c);
  modify (fun s => set_components (<[n:=ordered_insert k c (components s n)]> (components_ s)) s).
Definition removeComponent (n c : loc) : prog netlist unit :=
  _ ← the_net n; k ← deref (fun s => comp_getNLID (str s) c);
  modify (fun s => set_components (<[n:=delete k (components s n)]> (components_ s)) s).

(** The bit net that [setNet] connects to: a bus stands for its only bit. *)
Definition setNet_bit (t : structure) (n : loc) : outcome (option loc) :=
  match netHeap t !! n with
  | Some (Bus _ msb lsb bits) =>
      w ← getWidth msb lsb; _ ← require (w =? 1) "cannot set net, bus width is"; Ret (getBit msb lsb bits msb)
  | Some _ => Ret (Some n)
  | None => Undef
  end.
Definition setNet (c : loc) (net : option loc) : prog netlist unit :=
  bitNet ← (match net with
            | None => mret None
            | Some n =>
                dn ← deref (fun s => net_design (str s) n); d ← deref (fun s => comp_design (str s) c);
                check (bool_decide (dn = d)) "Impossible setNet call with incompatible designs" ;;
                t ← gets str; lift (setNet_bit t n)
            end);
  old ← gets (fun s => net_ s !! c);
  if bool_decide (old = bitNet) then mret tt
  else
    (match old with Some n => removeComponent n c | None => mret tt end) ;;
    modify (fun s => set_net (partial_alter (fun _ => bitNet) c (net_ s)) s) ;;
    (match bitNet with Some n => addComponent n c | None => mret tt end).

(** [SNLBitNet::preDestroy] *)
Definition bitNet_preDestroy (n : loc) : prog netlist unit :=
  cs ← gets (fun s => getComponents s n); for_each (fun c => setNet c None) cs.
(** [components_.clear()] forgets the components, which keep their [net_]. *)
Definition connectAllComponentsTo (n : loc) (net : option loc) : prog netlist unit :=
  _ ← the_net n;
  (if bool_decide (net = Some n) then mret tt
   else cs ← gets (fun s => getComponents s n); for_each (fun c => setNet c net) cs) ;;
  modify (fun s => set_components (<[n:=∅]> (components_ s)) s).

(** * The invariant *)

Definition is_component (t : structure) (c : loc) : Prop :=
  is_Some (instTermHeap t !! c) \/ is_Some (is_bit (termHeap t) c).
Definition is_bitNet (t : structure) (n : loc) : Prop := is_Some (is_bit (netHeap t) n).

(** Identifiers of components are unique in a design; a component is in the set
    of the net it points to and in no other, and both are of one design. *)
Record conn_wf (s : netlist) : Prop := {
  cw_key c c' d k : comp_design (str s) c = Some d -> comp_design (str s) c' = Some d ->
    comp_getNLID (str s) c = Some k -> comp_getNLID (str s) c' = Some k -> c = c';
  cw_alive c n : net_ s !! c = Some n -> exists d k, comp_design (str s) c = Some d /\
    comp_getNLID (str s) c = Some k /\ net_design (str s) n = Some d /\ is_bitNet (str s) n /\ is_component (str s) c;
  cw_components n k c : components s n !! k = Some c <-> net_ s !! c = Some n /\ comp_getNLID (str s) c = Some k }.

(** Only connections differ, and [net_] is as given. *)
Record rewired (s : netlist) (f : loc -> option loc) (s' : netlist) : Prop := {
  rw_str : str s' = str s;
  rw_types : netTypes s' = netTypes s;
  rw_orders : orderIDs s' = orderIDs s;
  rw_net c : net_ s' !! c = f c }.

Lemma rewired_ext s f g s' : (forall c, f c = g c) -> rewired s f s' -> rewired s g s'.
Proof. intros H [? ? ? Hn]. split; [done..|]. intros c. by rewrite Hn. Qed.

Notation unchanged s := (fun (_ : string) (s' : netlist) => s' = s).

Lemma components_insert s n m n' :
  components (set_components (<[n:=m]> (components_ s)) s) n' = if decide (n = n') then m else components s n'.
Proof.
  unfold components. cbn. destruct (decide (n = n')) as [->|Hne]; [by rewrite lookup_insert_eq|].
  by rewrite lookup_insert_ne.
Qed.

Section setNet.
Context (s : netlist) (W : conn_wf s) (c d : loc) (k : NLID).
Context (Hd : comp_design (str s) c = Some d) (Hk : comp_getNLID (str s) c = Some k).

Lemma bitNet_alive n : is_bitNet (str s) n -> is_Some (netHeap (str s) !! n).
Proof. intros [b Hb]. unfold is_bit in Hb. by destruct (netHeap (str s) !! n). Qed.

(** The state between leaving a net and entering another. *)
Lemma setNet_wf (bitNet : option loc) cs :
  is_component (str s) c ->
  (forall n, bitNet = Some n -> net_design (str s) n = Some d /\ is_bitNet (str s) n) ->
  (forall n' k' c', default ∅ (cs !! n') !! k' = Some c' <->
    comp_getNLID (str s) c' = Some k' /\ (if decide (c' = c) then bitNet = Some n' else net_ s !! c' = Some n')) ->
  conn_wf (set_components cs (set_net (partial_alter (fun _ => bitNet) c (net_ s)) s)).
Proof.
  intros Hcomp Hbit Hcs.
  assert (Hnet : forall c', partial_alter (fun _ => bitNet) c (net_ s) !! c' = if decide (c' = c) then bitNet else net_ s !! c').
  { intros c'. destruct (decide (c' = c)) as [->|Hne]; [by rewrite lookup_partial_alter_eq|by rewrite lookup_partial_alter_ne]. }
  split; cbn.
  - exact (cw_key _ W).
  - intros c' n. rewrite Hnet. destruct (decide (c' = c)) as [->|Hne]; [|apply W].
    intros H. destruct (Hbit _ H). by exists d, k.
  - intros n' k' c'. unfold components. cbn. rewrite Hcs, Hnet. destruct (decide (c' = c)); naive_solver.
Qed.

Lemma removeComponent_ok n (Q : unit -> netlist -> Prop) E :
  is_Some (netHeap (str s) !! n) ->
  Q tt (set_components (<[n:=delete k (components s n)]> (components_ s)) s) ->
  wp (removeComponent n c) s Q E.
Proof.
  intros [v Hv] HQ. unfold removeComponent. wp_read Hv.
  rewrite wp_bind. by wp_read Hk.
Qed.

(** Moving [c] from the net it is on to [bitNet]. *)
Lemma setNet_move (bitNet : option loc) E :
  is_component (str s) c ->
  (forall n, bitNet = Some n -> net_design (str s) n = Some d /\ is_bitNet (str s) n) ->
  wp (old ← gets (fun s => net_ s !! c);
      if bool_decide (old = bitNet) then mret tt
      else
        (match old with Some n => removeComponent n c | None => mret tt end) ;;
        modify (fun s => set_net (partial_alter (fun _ => bitNet) c (net_ s)) s) ;;
        (match bitNet with Some n => addComponent n c | None => mret tt end)) s
    (fun _ s' => conn_wf s' /\ rewired s (fun c' => if decide (c' = c) then bitNet else net_ s !! c') s') E.
Proof.
  intros Hcomp Hbit. rewrite wp_bind, wp_gets. cbn. case_bool_decide as Hold.
  { apply wp_ret. split; [done|]. split; [done..|]. intros c'. destruct (decide (c' = c)) as [->|]; congruence. }
  assert (Halter : forall cs, rewired s (fun c' => if decide (c' = c) then bitNet else net_ s !! c')
     (set_components cs (set_net (partial_alter (fun _ => bitNet) c (net_ s)) s))).
  { intros cs. split; [done..|]. intros c'. cbn.
    destruct (decide (c' = c)) as [->|Hne]; [by rewrite lookup_partial_alter_eq|by rewrite lookup_partial_alter_ne]. }
  set (out := match net_ s !! c with Some n => <[n:=delete k (components s n)]> (components_ s) | None => components_ s end).
  assert (Hout : forall n' k' c', default ∅ (out !! n') !! k' = Some c' <->
    comp_getNLID (str s) c' = Some k' /\ c' <> c /\ net_ s !! c' = Some n').
  { intros n' k' c'. assert (Hc : components s n' !! k' = Some c' <-> net_ s !! c' = Some n' /\ comp_getNLID (str s) c' = Some k')
      by apply W. subst out. destruct (net_ s !! c) as [n|] eqn:En.
    - pose proof (components_insert s n (delete k (components s n)) n') as Hins. unfold components in Hins at 1. cbn in Hins.
      rewrite Hins. destruct (decide (n = n')) as [->|Hne]; [|rewrite Hc; naive_solver].
      rewrite lookup_delete_Some, Hc. split; [naive_solver|]. intros (Hk' & Hne & Hn'). split; [|done].
      intros <-. apply Hne. destruct (cw_alive _ W _ _ Hn') as (d' & _ & Hd' & _ & Hnd' & _).
      destruct (cw_alive _ W _ _ En) as (d'' & _ & Hd'' & _ & Hnd'' & _).
      apply (cw_key _ W c' c d k); congruence.
    - change (components s n' !! k' = Some c' <-> comp_getNLID (str s) c' = Some k' /\ c' <> c /\ net_ s !! c' = Some n').
      rewrite Hc. naive_solver. }
  assert (Hrest : wp (modify (fun s => set_net (partial_alter (fun _ => bitNet) c (net_ s)) s) ;;
        (match bitNet with Some n => addComponent n c | None => mret tt end)) (set_components out s)
    (fun _ s' => conn_wf s' /\ rewired s (fun c' => if decide (c' = c) then bitNet else net_ s !! c') s') E).
  { rewrite wp_bind, wp_modify. cbn. destruct bitNet as [n|].
    - destruct (Hbit n eq_refl) as [Hnd Hnb]. destruct (bitNet_alive n Hnb) as [v Hv].
      unfold addComponent. wp_read Hv. wp_read Hk.
      apply wp_modify. split; [|exact (Halter _)]. refine (setNet_wf (Some n) _ Hcomp Hbit _). cbn. intros n' k' c'.
      pose proof (components_insert (set_components out s) n (ordered_insert k c (default ∅ (out !! n))) n') as Hins.
      unfold components in Hins. cbn in Hins. unfold components. cbn. rewrite Hins.
      assert (Hfree : default ∅ (out !! n) !! k = None).
      { apply eq_None_not_Some. intros [c2 (Hk2 & Hne & Hn2)%Hout]. apply Hne.
        destruct (cw_alive _ W _ _ Hn2) as (d' & _ & Hd' & _ & Hnd' & _). apply (cw_key _ W c2 c d k); congruence. }
      unfold ordered_insert. rewrite Hfree. destruct (decide (n = n')) as [->|Hne].
      + rewrite lookup_insert_Some, Hout. destruct (decide (c' = c)) as [->|Hcc]; [naive_solver congruence|].
        split; [naive_solver|]. intros [Hk' Hn']. right. split; [|done]. intros <-. apply Hcc.
        destruct (cw_alive _ W _ _ Hn') as (d' & _ & Hd' & _ & Hnd' & _). apply (cw_key _ W c' c d k); congruence.
      + rewrite Hout. destruct (decide (c' = c)) as [->|Hcc]; naive_solver.
    - apply wp_ret. split; [|exact (Halter _)]. refine (setNet_wf None _ Hcomp Hbit _). intros n' k' c'. rewrite Hout.
      destruct (decide (c' = c)); naive_solver. }
  rewrite wp_bind. subst out. destruct (net_ s !! c) as [n|] eqn:En.
  - apply removeComponent_ok; [|exact Hrest]. apply bitNet_alive. destruct (cw_alive _ W _ _ En) as (? & ? & H). apply H.
  - apply wp_ret. replace s with (set_components (components_ s) s) at 1 by by destruct s. exact Hrest.
Qed.

(** [setNet] disconnects the component, connects it to a bit net of its design,
    or throws. *)
Lemma setNet_None_ok E :
  is_component (str s) c ->
  wp (setNet c None) s
    (fun _ s' => conn_wf s' /\ rewired s (fun c' => if decide (c' = c) then None else net_ s !! c') s') E.
Proof. intros Hcomp. unfold setNet. rewrite wp_bind, wp_ret. cbn beta. apply setNet_move; [done|done]. Qed.

Lemma setNet_ok n dn :
  is_component (str s) c -> net_design (str s) n = Some dn -> setNet_bit (str s) n <> Undef ->
  (forall b, setNet_bit (str s) n = Ret (Some b) -> net_design (str s) b = Some dn /\ is_bitNet (str s) b) ->
  wp (setNet c (Some n)) s
    (fun _ s' => dn = d /\ conn_wf s' /\ exists bitNet, setNet_bit (str s) n = Ret bitNet /\
       rewired s (fun c' => if decide (c' = c) then bitNet else net_ s !! c') s')
    (fun _ s' => s' = s /\ (dn <> d \/ exists e, setNet_bit (str s) n = Throw e)).
Proof.
  intros Hcomp Hn Hdef Hbit. unfold setNet. wp_read Hn.
  wp_read Hd. rewrite wp_bind. apply wp_check.
  2: { intros H%bool_decide_eq_false_1. split; [done|by left]. }
  intros ->%bool_decide_eq_true_1. rewrite wp_bind, wp_gets. unfold lift, wp at 1.
  destruct (setNet_bit (str s) n) as [b|e|] eqn:E; [|split; [done|eauto]|done].
  apply (wp_mono _ _ _ _ _ _ (setNet_move b (fun _ _ => False) Hcomp ltac:(intros m ->; exact (Hbit m eq_refl)))); [|done].
  intros [] s' [W' R]. split; [done|]. split; [done|]. by exists b.
Qed.
End setNet.

(** * Whole nets *)

Lemma rewired_trans s f s1 g s2 :
  rewired s f s1 -> rewired s1 g s2 -> rewired s g s2.
Proof. intros [A1 A2 A3 _] [B1 B2 B3 B4]. split; congruence. Qed.
Lemma rewired_refl s : rewired s (fun c => net_ s !! c) s.
Proof. by split. Qed.

(** The components of a net are those that point to it. *)
Lemma elem_of_getComponents s n c : conn_wf s -> c ∈ getComponents s n <-> net_ s !! c = Some n.
Proof.
  intros W. unfold getComponents. rewrite elem_of_in_order_by. split.
  - intros [k Hk%(cw_components _ W)]. apply Hk.
  - intros Hn. destruct (cw_alive _ W _ _ Hn) as (d & k & _ & Hk & _). exists k. by apply (cw_components _ W).
Qed.

(** Moving every component of a net to [target], a bit net or none. *)
Lemma move_components_ok s n target E :
  conn_wf s -> (forall m, target = Some m -> is_bitNet (str s) m /\
    forall d, net_design (str s) n = Some d -> net_design (str s) m = Some d) ->
  wp (for_each (fun c => setNet c target) (getComponents s n)) s
    (fun _ s' => conn_wf s' /\ rewired s (fun c => if decide (net_ s !! c = Some n) then target else net_ s !! c) s') E.
Proof.
  intros W Ht. eapply wp_mono; [|
    |exact (fun _ _ (F : False) => False_ind _ F)].
  - apply (wp_for_each _ (fun visited s' => conn_wf s' /\
      rewired s (fun c => if decide (c ∈ visited) then target else net_ s !! c) s')); [split; [done|apply rewired_refl]|].
    intros visited c rest s' Hl [W' R].
    assert (Hc : net_ s !! c = Some n) by (apply (elem_of_getComponents s n c W); rewrite Hl; set_solver).
    destruct (cw_alive _ W _ _ Hc) as (d & k & Hd & Hk & Hnd & Hb & Hcomp).
    pose proof (rw_str _ _ _ R) as Estr. rewrite <- Estr in Hd, Hk, Hcomp.
    assert (Hset : wp (setNet c target) s' (fun _ s'' => conn_wf s'' /\
      rewired s' (fun c' => if decide (c' = c) then target else net_ s' !! c') s'') (fun _ _ => False)).
    { destruct target as [m|]; [|by apply (setNet_None_ok s' W' c d k)].
      destruct (Ht m eq_refl) as [Hm Hmd]. specialize (Hmd d Hnd). rewrite <- Estr in Hm, Hmd.
      assert (Hbit : setNet_bit (str s') m = Ret (Some m)).
      { unfold setNet_bit. destruct Hm as [x Hm]. unfold is_bit in Hm. by destruct (netHeap (str s') !! m) as [[]|]. }
      eapply wp_mono; [apply (setNet_ok s' W' c d k Hd Hk m d Hcomp Hmd)| |].
      - by rewrite Hbit.
      - rewrite Hbit. by intros ? [= <-].
      - cbn. rewrite Hbit. by intros [] s'' (_ & W'' & ? & [= <-] & R').
      - cbn. rewrite Hbit. by intros e s'' (_ & [?|[? ?]]). }
    eapply wp_mono; [exact Hset| |done]. cbn. intros [] s'' [W'' R']. split; [done|].
    eapply rewired_ext; [|exact (rewired_trans _ _ _ _ _ R R')]. cbn. intros c'. rewrite (rw_net _ _ _ R).
    destruct (decide (c' = c)) as [->|Hne]; [by rewrite decide_True by set_solver|].
    destruct (decide (c' ∈ visited)); [by rewrite decide_True by set_solver|by rewrite decide_False by set_solver].
  - cbn. intros [] s' [W' R]. split; [done|]. eapply rewired_ext; [|exact R]. cbn. intros c.
    pose proof (elem_of_getComponents s n c W) as Hin.
    destruct (decide (c ∈ getComponents s n)), (decide (net_ s !! c = Some n)); tauto.
Qed.

(** A net about to be destroyed loses its components. *)
Lemma bitNet_preDestroy_ok s n E :
  conn_wf s ->
  wp (bitNet_preDestroy n) s (fun _ s' => conn_wf s' /\
    rewired s (fun c => if decide (net_ s !! c = Some n) then None else net_ s !! c) s') E.
Proof. intros W. unfold bitNet_preDestroy. rewrite wp_bind, wp_gets. by apply move_components_ok. Qed.

Lemma connectAllComponentsTo_ok s n target E :
  conn_wf s -> is_Some (netHeap (str s) !! n) -> target <> Some n ->
  (forall m, target = Some m -> is_bitNet (str s) m /\
    forall d, net_design (str s) n = Some d -> net_design (str s) m = Some d) ->
  wp (connectAllComponentsTo n target) s (fun _ s' => conn_wf s' /\
    rewired s (fun c => if decide (net_ s !! c = Some n) then target else net_ s !! c) s') E.
Proof.
  intros W [v Hv] Hne Ht. unfold connectAllComponentsTo. wp_read Hv. rewrite (bool_decide_eq_false_2 _ Hne), !wp_bind, wp_gets.
  eapply wp_mono; [exact (move_components_ok s n target E W Ht)| |done]. cbn. intros [] s' [W' R].
  split; [|by destruct R].
  destruct W' as [K A C]. split; [exact K|exact A|]. intros m k c. cbn -[components].
  rewrite components_insert. destruct (decide (n = m)) as [<-|Hnm]; [|apply C].
  rewrite lookup_empty. split; [done|]. intros [Hc _]. rewrite (rw_net _ _ _ R) in Hc. cbn in Hc.
  destruct (decide (net_ s !! c = Some n)); congruence.
Qed.

(** A net without components, and a component without net, can go. *)
Lemma conn_wf_change_str s t :
  conn_wf s ->
  (forall c d k, comp_design t c = Some d -> comp_getNLID t c = Some k ->
     comp_design (str s) c = Some d /\ comp_getNLID (str s) c = Some k) ->
  (forall c n d k, net_ s !! c = Some n -> comp_design (str s) c = Some d -> comp_getNLID (str s) c = Some k ->
     is_component (str s) c -> net_design (str s) n = Some d -> is_bitNet (str s) n ->
     comp_design t c = Some d /\ comp_getNLID t c = Some k /\ is_component t c /\ net_design t n = Some d /\ is_bitNet t n) ->
  (forall c k, net_ s !! c <> None -> comp_getNLID t c = Some k -> comp_getNLID (str s) c = Some k) ->
  conn_wf (set_str t s).
Proof.
  intros W Hdown Hup Hkey. split; cbn.
  - intros c c' d k H1 H2 H3 H4. destruct (Hdown _ _ _ H1 H3), (Hdown _ _ _ H2 H4). by apply (cw_key _ W c c' d k).
  - intros c n Hc. destruct (cw_alive _ W _ _ Hc) as (d & k & Hd & Hk & Hnd & Hb & Hcomp).
    destruct (Hup c n d k) as (? & ? & ? & ? & ?); [done..|]. exists d, k. done.
  - intros n k c. change (components (set_str t s) n) with (components s n). rewrite (cw_components _ W).
    split; intros [Hc Hk]; (split; [done|]).
    + destruct (cw_alive _ W _ _ Hc) as (d & k' & Hd & Hk' & Hnd & Hb & Hcomp).
      destruct (Hup c n d k') as (? & ? & ? & ? & ?); [done..|]. congruence.
    + apply Hkey; [congruence|done].
Qed.

(** * The invariant of the contents of designs *)

(** [x] is a scalar terminal or bus terminal bit of design [d]. *)
Definition bit_term_of (t : structure) (x d : loc) : Prop :=
  is_Some (is_bit (termHeap t) x) /\ h_design <$> object_header (termHeap t) x = Some d.
(** The number of positions of a terminal. *)
Definition term_width (v : SNLTerm) : nat :=
  match v with Bus _ _ _ bits => length bits | _ => 1%nat end.
(** The slots of an instance, in the order of flat identifiers. *)
Definition slot (t : structure) (i : loc) (f : nat) : option loc :=
  match instHeap t !! i with Some inst => getBitAtPosition (instTerms_ (h_extra inst)) f | None => None end.

(** The instance terminals of [X] are not created yet or are removed already. *)
Record struct_wf_except (X : loc -> loc -> Prop) (t : structure) : Prop := {
  sw_terms : objects_wf (termHeap t) (terms_ t);
  sw_nets : objects_wf (netHeap t) (nets_ t);
  sw_instances : objects_wf (Scalar <$> instHeap t) (instances_ t);
  sw_designs d : is_Some (designs t !! d) <-> is_Some (terms_ t !! d);
  sw_designs_nets d : is_Some (designs t !! d) <-> is_Some (nets_ t !! d);
  sw_designs_instances d : is_Some (designs t !! d) <-> is_Some (instances_ t !! d);
  sw_references d d' D D' : designs t !! d = Some D -> designs t !! d' = Some D' ->
    reference_ D = reference_ D' -> d = d';
  sw_slaves d k i : default ∅ (slaveInstances_ t !! d) !! k = Some i <->
    exists I D, instHeap t !! i = Some I /\ model_ (h_extra I) = d /\ designs t !! d = Some D /\
      primitive_ D = false /\ instance_getNLID t I = Some k;
  sw_model i I : instHeap t !! i = Some I -> is_Some (designs t !! model_ (h_extra I));
  sw_slots i f it : slot t i f = Some it ->
    exists x, instTermHeap t !! it = Some (mkInstTerm i x) /\ getFlatID (termHeap t) x = Some f;
  sw_instTerm it v : instTermHeap t !! it = Some v ->
    exists I f, instHeap t !! instance_ v = Some I /\ slot t (instance_ v) f = Some it /\
      bit_term_of t (bitTerm_ v) (model_ (h_extra I));
  sw_complete i I x : instHeap t !! i = Some I -> bit_term_of t x (model_ (h_extra I)) -> ~ X i x ->
    exists f it, getFlatID (termHeap t) x = Some f /\ slot t i f = Some it;
  sw_flat x y vx vy ox oy : termHeap t !! x = Some vx -> termHeap t !! y = Some vy ->
    header_of vx = Some ox -> header_of vy = Some oy -> h_design ox = h_design oy -> h_id ox < h_id oy ->
    (flatID_ (h_extra ox) + term_width vx <= flatID_ (h_extra oy))%nat;
  sw_fresh l : (next t <= l)%positive ->
    termHeap t !! l = None /\ netHeap t !! l = None /\ instHeap t !! l = None /\ instTermHeap t !! l = None;
  sw_apart c : is_Some (termHeap t !! c) -> instTermHeap t !! c = None }.
Notation struct_wf := (struct_wf_except (fun _ _ => False)).

Lemma struct_wf_weaken (X Y : loc -> loc -> Prop) t :
  (forall i x, X i x -> Y i x) -> struct_wf_except X t -> struct_wf_except Y t.
Proof. intros H W. split; try apply W. intros i I x Hi Hx HY. eapply (sw_complete _ _ W); eauto. Qed.

Section facts.
Context {X : loc -> loc -> Prop} {t : structure} (W : struct_wf_except X t).

Lemma instance_owns i I : instHeap t !! i = Some I -> owns_object (Scalar <$> instHeap t) (h_design I) i (h_id I) (h_name I).
Proof. intros H. exists (Scalar I), I. by rewrite lookup_fmap, H. Qed.
Lemma instance_design i I : instHeap t !! i = Some I -> is_Some (designs t !! h_design I).
Proof.
  intros H. apply (sw_designs_instances _ _ W). apply (ow_design _ _ (sw_instances _ _ W) i (Scalar I) I); [|done].
  by rewrite lookup_fmap, H.
Qed.
Lemma header_top x o : object_header (termHeap t) x = Some o ->
  exists y v, termHeap t !! y = Some v /\ header_of v = Some o /\
    (y = x \/ exists bit, termHeap t !! x = Some (Bit y bit)).
Proof.
  unfold object_header. destruct (termHeap t !! x) as [[a|a m l bs|b bit]|] eqn:E; [| | |done].
  - intros [= ->]. exists x, (Scalar o). auto.
  - intros [= ->]. exists x, (Bus o m l bs). auto.
  - destruct (termHeap t !! b) as [[|a m l bs|]|] eqn:Eb; [done| |done..]. intros [= ->]. exists b, (Bus o m l bs). eauto.
Qed.
Lemma term_design x o : object_header (termHeap t) x = Some o -> is_Some (designs t !! h_design o).
Proof.
  intros (y & v & Hy & Ho & _)%header_top. apply (sw_designs _ _ W). exact (ow_design _ _ (sw_terms _ _ W) _ _ _ Hy Ho).
Qed.
Lemma is_bit_alive {E} (h : gmap loc (bits_object E)) x : is_Some (is_bit h x) -> is_Some (h !! x).
Proof. intros [b Hb]. unfold is_bit in Hb. by destruct (h !! x). Qed.
Lemma bit_term_header x d : bit_term_of t x d -> exists o, object_header (termHeap t) x = Some o /\ h_design o = d.
Proof. intros [_ (o & ? & ?)%fmap_Some]. eauto. Qed.

(** Where a bit terminal is among the flat bits of its design. *)
Lemma flat_bounds x o :
  is_Some (is_bit (termHeap t) x) -> object_header (termHeap t) x = Some o ->
  exists y v f, termHeap t !! y = Some v /\ header_of v = Some o /\ getFlatID (termHeap t) x = Some f /\
    (flatID_ (h_extra o) <= f < flatID_ (h_extra o) + term_width v)%nat /\
    (y = x /\ v = Scalar o \/ exists msb lsb bits, v = Bus o msb lsb bits /\
       bits !! (f - flatID_ (h_extra o))%nat = Some (Some x)).
Proof.
  unfold is_bit, object_header, getFlatID. intros Hb.
  destruct (termHeap t !! x) as [[a|a m l bs|b bit]|] eqn:Ex; [|by destruct Hb|destruct Hb as [? [= <-]]|by destruct Hb].
  - intros [= ->]. exists x, (Scalar o), (flatID_ (h_extra o)). split_and!; [done..|lia|cbn; lia|by left].
  - destruct (termHeap t !! b) as [[|a m l bs|]|] eqn:Eb; [done| |done..]. intros [= ->].
    destruct (getBit_position (sw_terms _ _ W) _ _ _ _ _ _ _ Eb Ex) as [Hi _].
    pose proof (lookup_lt_Some _ _ _ Hi) as Hlt. unfold bit_position in *.
    exists b, (Bus o m l bs), (flatID_ (h_extra o) + Z.to_nat (Z.abs (bit - m)))%nat.
    replace (Z.abs (bit - m)) with (Z.abs (m - bit)) by lia. split_and!; [done..|lia|cbn; lia|]. right.
    exists m, l, bs. split; [done|].
    by replace (flatID_ (h_extra o) + Z.to_nat (Z.abs (m - bit)) - flatID_ (h_extra o))%nat with (Z.to_nat (Z.abs (m - bit))) by lia.
Qed.

(** Flat identifiers are unique in a design. *)
Lemma flatID_unique x y d f :
  bit_term_of t x d -> bit_term_of t y d ->
  getFlatID (termHeap t) x = Some f -> getFlatID (termHeap t) y = Some f -> x = y.
Proof.
  intros [Hx (o & Ho & ->)%fmap_Some] [Hy (o' & Ho' & Hd)%fmap_Some] Hfx Hfy.
  destruct (flat_bounds x o Hx Ho) as (x' & v & f1 & Hx' & Hv & Hf1 & Hb1 & Hc1).
  destruct (flat_bounds y o' Hy Ho') as (y' & v' & f2 & Hy' & Hv' & Hf2 & Hb2 & Hc2).
  assert (f1 = f) as -> by congruence. assert (f2 = f) as -> by congruence.
  destruct (Z.lt_trichotomy (h_id o) (h_id o')) as [Hlt|[Heq|Hlt]].
  - pose proof (sw_flat _ _ W _ _ _ _ _ _ Hx' Hy' Hv Hv' Hd Hlt). lia.
  - assert (x' = y') as <-.
    { eapply (owns_unique (sw_terms _ _ W) (h_design o) _ _ (h_id o)); [by exists v, o|exists v', o'; by rewrite Heq, Hd]. }
    assert (v' = v) as -> by congruence. assert (o' = o) as -> by congruence.
    destruct Hc1 as [[<- ->]|(m & l & bs & -> & Hi)]; destruct Hc2 as [[<- E2]|(m' & l' & bs' & E2 & Hi')]; try done.
    injection E2 as <- <- <-. congruence.
  - pose proof (sw_flat _ _ W _ _ _ _ _ _ Hy' Hx' Hv' Hv (eq_sym Hd) Hlt). lia.
Qed.

(** The slot of a bit terminal holds its instance terminal. *)
Lemma slot_bit i I x f it :
  instHeap t !! i = Some I -> bit_term_of t x (model_ (h_extra I)) -> getFlatID (termHeap t) x = Some f ->
  slot t i f = Some it -> instTermHeap t !! it = Some (mkInstTerm i x).
Proof.
  intros Hi Hx Hf Hs. destruct (sw_slots _ _ W _ _ _ Hs) as (y & Hit & Hfy).
  destruct (sw_instTerm _ _ W _ _ Hit) as (I' & f' & Hi' & _ & Hy). cbn in *.
  assert (I' = I) as -> by congruence. by rewrite (flatID_unique x y _ f Hx Hy Hf Hfy).
Qed.

(** An instance has one terminal for each bit terminal of its model. *)
Lemma instTerm_unique it it' v :
  instTermHeap t !! it = Some v -> instTermHeap t !! it' = Some v -> it = it'.
Proof.
  intros H H'. destruct (sw_instTerm _ _ W _ _ H) as (I & f & Hi & Hs & _).
  destruct (sw_instTerm _ _ W _ _ H') as (I' & f' & Hi' & Hs' & _).
  destruct (sw_slots _ _ W _ _ _ Hs) as (x & Hx & Hf). destruct (sw_slots _ _ W _ _ _ Hs') as (x' & Hx' & Hf').
  simplify_eq. cbn in *. congruence.
Qed.

Lemma instances_same i i' I I' :
  instHeap t !! i = Some I -> instHeap t !! i' = Some I' -> h_design I = h_design I' -> h_id I = h_id I' -> i = i'.
Proof.
  intros Hi Hi' Hd Hid. eapply (owns_unique (sw_instances _ _ W) (h_design I) _ _ (h_id I)); [by apply instance_owns|].
  rewrite Hd, Hid. by apply instance_owns.
Qed.

Lemma instTerm_NLID_type v k : instTerm_getNLID t v = Some k -> type_ k = InstTerm.
Proof. unfold instTerm_getNLID. intros H. repeat (apply bind_Some in H as (? & _ & H)). by injection H as <-. Qed.
Lemma term_NLID_type c k : term_getNLID t c = Some k -> type_ k <> InstTerm.
Proof.
  unfold term_getNLID. intros H. apply bind_Some in H as (v & _ & H). repeat (apply bind_Some in H as (? & _ & H)).
  injection H as <-. by destruct v.
Qed.

(** The identifier of a component determines it in its design. *)
Lemma component_key c c' d k :
  comp_design t c = Some d -> comp_design t c' = Some d ->
  comp_getNLID t c = Some k -> comp_getNLID t c' = Some k -> c = c'.
Proof.
  unfold comp_design, comp_getNLID.
  destruct (instTermHeap t !! c) as [[i x]|] eqn:Ec; destruct (instTermHeap t !! c') as [[i' x']|] eqn:Ec'; cbn [instance_ bitTerm_].
  - unfold instTerm_getNLID; cbn [instance_ bitTerm_].
    destruct (instHeap t !! i) as [I|] eqn:Ei; [|done]. destruct (instHeap t !! i') as [I'|] eqn:Ei'; [|done].
    cbn. intros [= <-] [= Hd]. rewrite Hd.
    destruct (designs t !! h_design I) as [D|]; [|done]. cbn.
    destruct (object_header (termHeap t) x) as [o|] eqn:Eo; [|done]. destruct (object_header (termHeap t) x') as [o'|] eqn:Eo'; [|done].
    cbn. destruct (is_bit (termHeap t) x) as [b|] eqn:Eb; [|done]. destruct (is_bit (termHeap t) x') as [b'|] eqn:Eb'; [|done].
    cbn. intros [= <-] [= Hid HI Hb].
    assert (i = i') as <- by (eapply instances_same; eauto). assert (I' = I) as -> by congruence.
    destruct (sw_instTerm _ _ W _ _ Ec) as (J & _ & HJ & _ & Hx). destruct (sw_instTerm _ _ W _ _ Ec') as (J' & _ & HJ' & _ & Hx').
    cbn in *. assert (J = I) as -> by congruence. assert (J' = I) as -> by congruence.
    destruct Hx as [_ Hx]. destruct Hx' as [_ Hx']. rewrite Eo in Hx. rewrite Eo' in Hx'. cbn in Hx, Hx'. injection Hx as Hx. injection Hx' as Hx'.
    assert (x = x') as <- by (eapply (is_bit_unique (sw_terms _ _ W)); eauto; congruence).
    by eapply instTerm_unique.
  - intros _ _ H1%instTerm_NLID_type H2%term_NLID_type. congruence.
  - intros _ _ H1%term_NLID_type H2%instTerm_NLID_type. congruence.
  - unfold term_getNLID.
    destruct (object_header (termHeap t) c) as [o|] eqn:Eo; [|done]. destruct (object_header (termHeap t) c') as [o'|] eqn:Eo'; [|done].
    cbn. intros [= <-] [= Hd]. destruct (termHeap t !! c) as [v|] eqn:Ev; [|done]. destruct (termHeap t !! c') as [v'|] eqn:Ev'; [|done].
    cbn. rewrite Hd. destruct (designs t !! h_design o) as [D|]; [|done]. cbn. intros [= <-] H.
    assert (Htop : forall a a', header_of v = Some a -> header_of v' = Some a' -> h_id o' = h_id o -> c = c').
    { intros a a' Ha Ha' Hid. unfold object_header in Eo, Eo'. rewrite Ev in Eo. rewrite Ev' in Eo'.
      assert (a = o) as -> by (destruct v; cbn in *; congruence). assert (a' = o') as -> by (destruct v'; cbn in *; congruence).
      eapply (owns_unique (sw_terms _ _ W) (h_design o) _ _ (h_id o)); [by exists v, o|exists v', o'; by rewrite Hid]. }
    destruct v as [a|a m l bs|b bit], v' as [a'|a' m' l' bs'|b' bit']; try done; injection H as Hid; try by eapply Htop.
    eapply (is_bit_unique (sw_terms _ _ W) c c' bit); eauto; unfold is_bit; [by rewrite Ev|rewrite Ev'; congruence].
Qed.
End facts.

(** * Running on known objects *)

Lemma wp_fresh s Q E : wp fresh s Q E <-> Q (next (str s)) (set_str (set_next (Pos.succ (next (str s))) (str s)) s).
Proof. done. Qed.

Ltac ct_simpl :=
  cbn [str net_ components_ netTypes orderIDs set_str set_net set_components set_types set_orders
       designs terms_ nets_ instances_ slaveInstances_ termHeap netHeap instHeap instTermHeap next
       set_terms_ set_nets_ set_instances_ set_slaves set_termHeap set_netHeap set_instHeap set_instTermHeap set_next with_nets
       header_of set_header h_design h_id h_name h_extra model_ instTerms_ instance_ bitTerm_ flatID_ direction_ fst snd].
(** A read through a pointer whose object is known, perhaps under updates. *)
Ltac ct_known := ct_simpl; first [eassumption | rewrite ?lookup_insert_eq; reflexivity
  | rewrite ?lookup_insert_ne by congruence; first [eassumption | rewrite ?lookup_insert_eq; reflexivity]].
Ltac ct_step := first
  [ rewrite wp_bind | rewrite wp_ret | rewrite wp_gets | rewrite wp_modify | rewrite wp_throw | rewrite wp_fresh
  | progress unfold put_term, put_net, put_instance, change, new_term, new_net, new_instance, new_instTerm
  | (eapply wp_deref; [ct_known|]) ].
Ltac ct_run := repeat (cbn beta; ct_step); ct_simpl.
