(* ===== verification/DesignNets.v ===== *)
(** The nets of a design: creation, destruction, renaming, types and narrowing
    (nl/netlist/snl/SNLScalarNet.cpp, SNLBusNet.cpp, SNLBusNetBit.cpp, and the
    nets_ of SNLDesign.cpp). *)
From S2P Require Import Prelude NLID Store Bus Contents Connections.
Local Open Scope Z_scope.

(** * Operations *)

Definition addNet (d n : loc) : prog netlist unit :=
  v ← the_net n; o ← deref (fun _ => header_of v); r ← deref (fun s => nets_ (str s) !! d);
  change (fun t => set_nets_ (<[d:=add_object (h_id o) (h_name o) n r]> (nets_ t)) t).
Definition addNetAndSetID (d n : loc) : prog netlist unit :=
  v ← the_net n; o ← deref (fun _ => header_of v); r ← deref (fun s => nets_ (str s) !! d);
  put_net n (set_header (mkHeader (h_design o) (next_id 32 (objects r)) (h_name o) tt) v) ;; addNet d n.
Definition removeNet (d n : loc) : prog netlist unit :=
  v ← the_net n; o ← deref (fun _ => header_of v); r ← deref (fun s => nets_ (str s) !! d);
  change (fun t => set_nets_ (<[d:=remove_object (h_id o) (h_name o) r]> (nets_ t)) t).

Definition net_preCreate (d : loc) (name : Z) : prog netlist unit :=
  r ← deref (fun s => nets_ (str s) !! d);
  check (is_empty_name name || is_none (find_by_name name r)) "a net with this name already exists".
Definition net_preCreate_id (d : loc) (id name : Z) : prog netlist unit :=
  net_preCreate d name ;;
  r ← deref (fun s => nets_ (str s) !! d);
  check (is_none (find_by_id id r)) "a net with same id already exists".

Definition scalarNet_create (d : loc) (name : Z) : prog netlist loc :=
  net_preCreate d name ;; n ← new_net (Scalar (mkHeader d 0 name tt)); addNetAndSetID d n ;; mret n.
Definition scalarNet_create_id (d : loc) (id name : Z) : prog netlist loc :=
  net_preCreate_id d id name ;; n ← new_net (Scalar (mkHeader d id name tt)); addNet d n ;; mret n.

(** [SNLBusNet::createBits] *)
Definition createNetBits (b : loc) : prog netlist unit :=
  v ← the_net b;
  match v with
  | Bus o msb lsb _ =>
      w ← lift (getWidth msb lsb);
      t ← gets str;
      let '(bits, h, n) := createBits b msb lsb 0 (Z.to_nat w) (netHeap t) (next t) in
      change (fun t => set_next n (set_netHeap h t)) ;; put_net b (Bus o msb lsb bits)
  | _ => undef
  end.
Definition busNet_create (d : loc) (msb lsb name : Z) : prog netlist loc :=
  net_preCreate d name ;;
  b ← new_net (Bus (mkHeader d 0 name tt) msb lsb []); addNetAndSetID d b ;; createNetBits b ;; mret b.
Definition busNet_create_id (d : loc) (id msb lsb name : Z) : prog netlist loc :=
  net_preCreate_id d id name ;;
  b ← new_net (Bus (mkHeader d id name tt) msb lsb []); addNet d b ;; createNetBits b ;; mret b.

(** [delete] of a bit net, with its fields. *)
Definition delete_bitNet (n : loc) : prog netlist unit :=
  delete_net n ;; modify (fun s => set_types (delete n (netTypes s)) (set_components (delete n (components_ s)) s)).
(** [SNLBusNetBit::destroyFromBus] *)
Definition netBit_destroyFromBus (n : loc) : prog netlist unit := bitNet_preDestroy n ;; delete_bitNet n.
Definition busNet_removeBit (b : loc) (bit : Z) : prog netlist unit :=
  v ← the_net b;
  match v with
  | Bus o msb lsb bits =>
      put_net b (Bus o msb lsb (if isBetween bit msb lsb then <[bit_position msb bit:=None]> bits else bits))
  | _ => undef
  end.

(** [SNLNet::destroy], of scalars, buses and bits. *)
Definition net_destroy (n : loc) : prog netlist unit :=
  v ← the_net n;
  match v with
  | Scalar o => bitNet_preDestroy n ;; removeNet (h_design o) n ;; delete_bitNet n
  | Bus o msb lsb bits =>
      for_each netBit_destroyFromBus (getBusBits bits) ;; removeNet (h_design o) n ;; delete_net n
  | Bit b bit => bitNet_preDestroy n ;; busNet_removeBit b bit ;; delete_bitNet n
  end.

(** [setMSB] and [setLSB] read the components of the bits they remove, then
    destroy the bits: a bit destroyed before is a null pointer. *)
Definition check_unconnected (bit : option loc) : prog netlist unit :=
  match bit with
  | None => undef
  | Some n => s ← gets (fun s => s); check (is_none (head (getComponents s n))) "bit is connected"
  end.
Definition netBit_remove (bit : option loc) : prog netlist unit :=
  match bit with None => undef | Some n => netBit_destroyFromBus n end.
Definition busNet_setMSB (b : loc) (msb' : Z) : prog netlist unit :=
  v ← the_net b;
  match v with
  | Bus o msb lsb bits =>
      if msb' =? msb then mret tt
      else
        check (isBetween msb' msb lsb) "setMSB error: cannot be resized" ;;
        let removeCount := Z.to_nat (Z.abs (msb - msb')) in
        let removedBits := take removeCount bits in
        for_each check_unconnected removedBits ;;
        for_each netBit_remove removedBits ;;
        put_net b (Bus o msb' lsb (drop removeCount bits))
  | _ => undef
  end.
Definition busNet_setLSB (b : loc) (lsb' : Z) : prog netlist unit :=
  v ← the_net b;
  match v with
  | Bus o msb lsb bits =>
      if lsb' =? lsb then mret tt
      else
        check (isBetween lsb' msb lsb) "setLSB error: cannot be resized" ;;
        let eraseBegin := (length bits - Z.to_nat (Z.abs (lsb - lsb')))%nat in
        let removedBits := drop eraseBegin bits in
        for_each check_unconnected removedBits ;;
        for_each netBit_remove removedBits ;;
        put_net b (Bus o msb lsb' (take eraseBegin bits))
  | _ => undef
  end.

(** [setName]: bits refuse it. *)
Definition net_setName (n : loc) (name : Z) : prog netlist unit :=
  v ← the_net n;
  match header_of v with
  | None => throw "Unauthorized setName of SNLBusNetBit"
  | Some o =>
      if h_name o =? name then mret tt
      else
        r ← deref (fun s => nets_ (str s) !! h_design o);
        check (is_empty_name name || is_none (find_by_name name r)) "cannot rename, another net has already this name" ;;
        put_net n (set_header (mkHeader (h_design o) (h_id o) name tt) v) ;;
        r' ← deref (fun _ => rename_object (h_id o) name (h_name o) r);
        change (fun t => set_nets_ (<[h_design o:=r']> (nets_ t)) t)
  end.

(** [setType] of a bus sets that of the bits that are left. *)
Definition set_type (type : net_type) (n : loc) : prog netlist unit :=
  modify (fun s => set_types (<[n:=type]> (netTypes s)) s).
Definition net_setType (n : loc) (type : net_type) : prog netlist unit :=
  _ ← the_net n; bits ← gets (fun s => getBits (netHeap (str s)) n); for_each (set_type type) bits.

(** [isAssign0], ..., [isSupply1]: a bus whose bits are all destroyed is none of
    them. *)
Definition net_isAll (P : net_type -> bool) (s : netlist) (n : loc) : bool :=
  match netHeap (str s) !! n with
  | Some (Bus _ _ _ bits) => negb (forallb is_none bits) &&
      forallb (fun b => match b with None => true | Some x => P (getType s x) end) bits
  | _ => P (getType s n)
  end.
Definition is_type (a b : net_type) : bool := bool_decide (a = b).
Definition net_isConstant0 s n := net_isAll (is_type NAssign0) s n || net_isAll (is_type NSupply0) s n.
Definition net_isConstant1 s n := net_isAll (is_type NAssign1) s n || net_isAll (is_type NSupply1) s n.
Definition net_isConstant (s : netlist) (n : loc) : bool :=
  net_isConstant0 s n || net_isConstant1 s n || net_isAll (is_type NAssignX) s n || net_isAll (is_type NAssignZ) s n.

(** * The state after a change of nets *)

Lemma struct_wf_nets X t regs h n :
  struct_wf_except X t -> objects_wf h regs -> (forall d, is_Some (regs !! d) <-> is_Some (nets_ t !! d)) ->
  (next t <= n)%positive -> (forall l, (n <= l)%positive -> h !! l = None) ->
  struct_wf_except X (with_nets regs h n t).
Proof.
  intros W Hh Hregs Hn Hfresh. split; try apply W.
  - exact Hh.
  - intros d. cbn. rewrite Hregs. apply W.
  - intros l Hl. cbn in *. destruct (sw_fresh _ _ W l ltac:(lia)) as (? & _ & ? & ?). split_and!; auto.
Qed.

Lemma conn_wf_nets s regs h n :
  conn_wf s ->
  (forall m d, net_design (str s) m = Some d -> is_bitNet (str s) m -> (exists c, net_ s !! c = Some m) ->
     h_design <$> object_header h m = Some d /\ is_Some (is_bit h m)) ->
  conn_wf (set_str (with_nets regs h n (str s)) s).
Proof.
  intros W Hm. split; [exact (cw_key _ W)| |exact (cw_components _ W)].
  intros c m Hc. destruct (cw_alive _ W _ _ Hc) as (d & k & Hd & Hk & Hnd & Hb & Hcomp). exists d, k.
  destruct (Hm m d Hnd Hb ltac:(by exists c)) as [H1 H2]. done.
Qed.

(** What an object is does not change when others are added. *)
Lemma object_header_grow {E} (h h' : gmap loc (bits_object E)) x o :
  (forall y v, h !! y = Some v -> exists v', h' !! y = Some v' /\ header_of v' = header_of v /\
     (forall b i, v = Bit b i -> v' = v) /\ (forall o m l bs, v = Bus o m l bs -> exists m' l' bs', v' = Bus o m' l' bs')) ->
  object_header h x = Some o -> object_header h' x = Some o.
Proof.
  intros H. unfold object_header. destruct (h !! x) as [v|] eqn:E1; [|done].
  destruct (H _ _ E1) as (v' & -> & Hv & Hbit & Hbus). destruct v as [a|a m l bs|b i].
  - destruct v'; naive_solver.
  - destruct (Hbus _ _ _ _ eq_refl) as (? & ? & ? & ->). done.
  - rewrite (Hbit _ _ eq_refl). destruct (h !! b) as [v|] eqn:E2; [|done]. destruct v as [|a m l bs|]; try done.
    destruct (H _ _ E2) as (v2 & -> & _ & _ & Hbus2). by destruct (Hbus2 _ _ _ _ eq_refl) as (? & ? & ? & ->).
Qed.

Section steps.
Context {X : loc -> loc -> Prop}.
Implicit Types (s : netlist) (d n : loc).

Lemma net_fresh t : struct_wf_except X t -> forall y, is_Some (netHeap t !! y) -> (y < next t)%positive.
Proof.
  intros W y [v Hv]. destruct (decide (y < next t)%positive) as [|Hle]; [done|].
  destruct (sw_fresh _ _ W y ltac:(lia)) as (_ & H & _). congruence.
Qed.

Lemma net_preCreate_ok d name s r (Q : unit -> netlist -> Prop) :
  nets_ (str s) !! d = Some r -> ((name <> 0 -> find_by_name name r = None) -> Q tt s) ->
  wp (net_preCreate d name) s Q (unchanged s).
Proof.
  intros Hr HQ. unfold net_preCreate. wp_read Hr. apply wp_check; [|done]. intros H. apply HQ. by apply name_free.
Qed.
Lemma net_preCreate_id_ok d id name s r (Q : unit -> netlist -> Prop) :
  nets_ (str s) !! d = Some r ->
  ((name <> 0 -> find_by_name name r = None) -> find_by_id id r = None -> Q tt s) ->
  wp (net_preCreate_id d id name) s Q (unchanged s).
Proof.
  intros Hr HQ. unfold net_preCreate_id. rewrite wp_bind. apply (net_preCreate_ok _ _ _ _ _ Hr). intros Hname.
  wp_read Hr. apply wp_check; [|done]. intros Hid%is_none_true. by apply HQ.
Qed.

(** Entering a new net: the others stay as they are. *)
Lemma wf_new_net s d r r' h n :
  struct_wf_except X (str s) -> conn_wf s -> nets_ (str s) !! d = Some r ->
  objects_wf h (<[d:=r']> (nets_ (str s))) ->
  (forall y v, netHeap (str s) !! y = Some v -> h !! y = Some v) ->
  (next (str s) <= n)%positive -> (forall l, (n <= l)%positive -> h !! l = None) ->
  let t' := with_nets (<[d:=r']> (nets_ (str s))) h n (str s) in
  struct_wf_except X t' /\ conn_wf (set_str t' s).
Proof.
  intros W C Hr Hh Hkeep Hn Hfresh t'. split.
  - apply struct_wf_nets; [done|done| |done|done].
    intros d'. rewrite lookup_insert_is_Some'. split; [|by right]. intros [<-|?]; [by rewrite Hr|done].
  - apply conn_wf_nets; [done|]. intros m dm Hm [b Hb] _. unfold net_design in Hm. apply fmap_Some in Hm as (o & Ho & ->).
    split.
    + apply fmap_Some. exists o. split; [|done]. eapply object_header_grow; [|exact Ho]. intros y v Hy. exists v.
      split_and!; [by apply Hkeep|done|done|]. intros * ->. by eexists _, _, _.
    + exists b. unfold is_bit in *. destruct (netHeap (str s) !! m) eqn:Em; [|done]. by rewrite (Hkeep _ _ Em).
Qed.

Lemma wf_new_scalarNet s d id name r :
  struct_wf_except X (str s) -> conn_wf s -> nets_ (str s) !! d = Some r ->
  0 <= id < 2 ^ 32 -> find_by_id id r = None -> (name <> 0 -> find_by_name name r = None) ->
  let n := next (str s) in
  let t' := with_nets (<[d:=add_object id name n r]> (nets_ (str s)))
    (<[n:=Scalar (mkHeader d id name tt)]> (netHeap (str s))) (Pos.succ n) (str s) in
  struct_wf_except X t' /\ conn_wf (set_str t' s).
Proof.
  intros W C Hr Hid Hfree Hname n. assert (Hnew : netHeap (str s) !! n = None) by (apply (sw_fresh _ _ W); lia).
  assert (Hkeep : forall y v, netHeap (str s) !! y = Some v ->
    <[n:=Scalar (mkHeader d id name tt)]> (netHeap (str s)) !! y = Some v).
  { intros y v Hy. rewrite lookup_insert_ne; [done|]. intros <-. congruence. }
  apply wf_new_net with r; [done..| |exact Hkeep|lia|].
  - eapply (objects_wf_add _ _ _ n (Scalar (mkHeader d id name tt)) (mkHeader d id name tt)); try done; [apply W|apply lookup_insert_eq|..].
    + intros y z Hne. rewrite lookup_insert_ne by done. by left.
    + intros y bit Hy. destruct (decide (y = n)) as [->|Hne]; [by rewrite lookup_insert_eq in Hy|].
      rewrite lookup_insert_ne in Hy by done. destruct (ow_bit _ _ (sw_nets _ _ W) _ _ _ Hy) as (? & ? & ? & ? & H & _). congruence.
  - intros l Hl. rewrite lookup_insert_ne by lia. apply (sw_fresh _ _ W). lia.
Qed.

Lemma wf_new_busNet s d id name r msb lsb w v bits h n' :
  struct_wf_except X (str s) -> conn_wf s -> nets_ (str s) !! d = Some r ->
  0 <= id < 2 ^ 32 -> find_by_id id r = None -> (name <> 0 -> find_by_name name r = None) ->
  getWidth msb lsb = Ret w ->
  createBits (next (str s)) msb lsb 0 (Z.to_nat w) (<[next (str s):=v]> (netHeap (str s))) (Pos.succ (next (str s))) = (bits, h, n') ->
  let n := next (str s) in
  let t' := with_nets (<[d:=add_object id name n r]> (nets_ (str s)))
    (<[n:=Bus (mkHeader d id name tt) msb lsb bits]> h) n' (str s) in
  struct_wf_except X t' /\ conn_wf (set_str t' s).
Proof.
  intros W C Hr Hid Hfree Hname Hw Hc n. pose proof (net_fresh _ W) as Hlt.
  assert (0 <= w) by (apply getWidth_Ret in Hw; lia).
  pose proof (createBits_spec _ _ _ _ _ _ _ _ _ _ Hc) as (Hlen & Hle & Hold & _).
  apply wf_new_net with r; [done..| | |lia|].
  - refine (objects_wf_add_bus (netHeap (str s)) h _ n v (mkHeader d id name tt) msb lsb bits r (Z.to_nat w) n' (sw_nets _ _ W) Hlt _ Hc Hr Hid Hfree Hname).
    by rewrite Z2Nat.id.
  - intros y z Hy. specialize (Hlt y ltac:(by eexists)). rewrite lookup_insert_ne by lia. rewrite Hold by lia.
    by rewrite lookup_insert_ne by lia.
  - intros l Hl. rewrite lookup_insert_ne by lia. rewrite Hold by lia. rewrite lookup_insert_ne by lia.
    apply (sw_fresh _ _ W). lia.
Qed.

(** ** Creation *)

(** The identifier [addNetAndSetID] gives. *)
Lemma new_id s d r (regs : gmap loc (registry loc)) (h : gmap loc SNLNet) :
  objects_wf h regs -> regs !! d = Some r -> room 32 (objects r) ->
  0 <= next_id 32 (objects r) < 2 ^ 32 /\ find_by_id (next_id 32 (objects r)) r = None.
Proof.
  intros W Hr Hroom. destruct (next_id_fresh 32 (objects r)) as (Hfree & Hid & _); [|lia|done].
  apply room_bound; [|done]. intros k x [n Hx]%(rep_objects _ _ _ (ow_registry _ _ W _ _ Hr)).
  by apply (rep_bound _ _ _ (ow_registry _ _ W _ _ Hr)) in Hx as [? _].
Qed.

Lemma scalarNet_create_ok s d name r :
  struct_wf_except X (str s) -> conn_wf s -> nets_ (str s) !! d = Some r -> room 32 (objects r) ->
  wp (scalarNet_create d name) s (fun n s' => struct_wf_except X (str s') /\ conn_wf s' /\ n = next (str s) /\
    exists id, s' = set_str (with_nets (<[d:=add_object id name n r]> (nets_ (str s)))
      (<[n:=Scalar (mkHeader d id name tt)]> (netHeap (str s))) (Pos.succ n) (str s)) s) (unchanged s).
Proof.
  intros W C Hr Hroom. unfold scalarNet_create. ct_run. apply (net_preCreate_ok _ _ _ _ _ Hr). intros Hname.
  ct_run. unfold addNetAndSetID, addNet. ct_run.
  destruct (new_id s d r _ _ (sw_nets _ _ W) Hr Hroom) as [Hid Hfree]. rewrite insert_insert_eq.
  destruct (wf_new_scalarNet s d _ name r W C Hr Hid Hfree Hname) as [W' C'].
  split; [exact W'|]. split; [exact C'|]. split; [done|by eexists].
Qed.

Lemma scalarNet_create_id_ok s d id name r :
  struct_wf_except X (str s) -> conn_wf s -> nets_ (str s) !! d = Some r -> 0 <= id < 2 ^ 32 ->
  wp (scalarNet_create_id d id name) s (fun n s' => struct_wf_except X (str s') /\ conn_wf s' /\ n = next (str s) /\
    s' = set_str (with_nets (<[d:=add_object id name n r]> (nets_ (str s)))
      (<[n:=Scalar (mkHeader d id name tt)]> (netHeap (str s))) (Pos.succ n) (str s)) s) (unchanged s).
Proof.
  intros W C Hr Hid. unfold scalarNet_create_id. ct_run. apply (net_preCreate_id_ok _ _ _ _ _ _ Hr). intros Hname Hfree.
  ct_run. unfold addNet. ct_run.
  destruct (wf_new_scalarNet s d _ name r W C Hr Hid Hfree Hname) as [W' C'].
  split; [exact W'|]. split; [exact C'|]. done.
Qed.

Lemma wp_lift {A} (o : outcome A) s Q E a : o = Ret a -> Q a s -> wp (lift o) s Q E.
Proof. by intros ->. Qed.

(** The state after a bus [n] entered design [d]. *)
Definition bus_entered (s : netlist) (d n : loc) (id name msb lsb : Z) (r : registry loc) (s' : netlist) : Prop :=
  exists w bits h n', getWidth msb lsb = Ret w /\ length bits = Z.to_nat w /\
    s' = set_str (with_nets (<[d:=add_object id name n r]> (nets_ (str s)))
      (<[n:=Bus (mkHeader d id name tt) msb lsb bits]> h) n' (str s)) s.

Lemma createNetBits_ok s d id name msb lsb w r v :
  struct_wf_except X (str s) -> conn_wf s -> nets_ (str s) !! d = Some r ->
  0 <= id < 2 ^ 32 -> find_by_id id r = None -> (name <> 0 -> find_by_name name r = None) ->
  getWidth msb lsb = Ret w -> v = Bus (mkHeader d id name tt) msb lsb [] ->
  let n := next (str s) in
  wp (createNetBits n)
    (set_str (with_nets (<[d:=add_object id name n r]> (nets_ (str s))) (<[n:=v]> (netHeap (str s))) (Pos.succ n) (str s)) s)
    (fun _ s' => struct_wf_except X (str s') /\ conn_wf s' /\ bus_entered s d n id name msb lsb r s') (unchanged s).
Proof.
  intros W C Hr Hid Hfree Hname Hw -> n. unfold createNetBits. ct_run. eapply wp_lift; [exact Hw|]. ct_run.
  destruct (createBits _ _ _ _ _ _ _) as [[bits h] n'] eqn:Hc. ct_run.
  destruct (wf_new_busNet s d id name r msb lsb w _ bits h n' W C Hr Hid Hfree Hname Hw Hc) as [W' C'].
  split; [exact W'|]. split; [exact C'|]. exists w, bits, h, n'. split; [done|].
  split; [|done]. by apply createBits_spec in Hc as [? _].
Qed.

Lemma busNet_create_ok s d msb lsb name w r :
  struct_wf_except X (str s) -> conn_wf s -> nets_ (str s) !! d = Some r -> room 32 (objects r) ->
  getWidth msb lsb = Ret w ->
  wp (busNet_create d msb lsb name) s (fun n s' => struct_wf_except X (str s') /\ conn_wf s' /\ n = next (str s) /\
    exists id, bus_entered s d n id name msb lsb r s') (unchanged s).
Proof.
  intros W C Hr Hroom Hw. unfold busNet_create. ct_run. apply (net_preCreate_ok _ _ _ _ _ Hr). intros Hname.
  ct_run. unfold addNetAndSetID, addNet. ct_run.
  destruct (new_id s d r _ _ (sw_nets _ _ W) Hr Hroom) as [Hid Hfree]. rewrite insert_insert_eq.
  eapply wp_mono; [exact (createNetBits_ok s d _ name msb lsb w r _ W C Hr Hid Hfree Hname Hw eq_refl)| |done].
  cbn beta. intros _ s' (W' & C' & H). rewrite wp_ret. split; [done|]. split; [done|]. split; [done|]. by eexists.
Qed.

Lemma busNet_create_id_ok s d id msb lsb name w r :
  struct_wf_except X (str s) -> conn_wf s -> nets_ (str s) !! d = Some r -> 0 <= id < 2 ^ 32 ->
  getWidth msb lsb = Ret w ->
  wp (busNet_create_id d id msb lsb name) s (fun n s' => struct_wf_except X (str s') /\ conn_wf s' /\ n = next (str s) /\
    bus_entered s d n id name msb lsb r s') (unchanged s).
Proof.
  intros W C Hr Hid Hw. unfold busNet_create_id. ct_run. apply (net_preCreate_id_ok _ _ _ _ _ _ Hr). intros Hname Hfree.
  ct_run. unfold addNet. ct_run.
  eapply wp_mono; [exact (createNetBits_ok s d _ name msb lsb w r _ W C Hr Hid Hfree Hname Hw eq_refl)| |done].
  cbn beta. intros _ s' (W' & C' & H). rewrite wp_ret. done.
Qed.

(** ** Destruction *)

(** Nets that lose all components, and then their object. *)
Definition without_nets (ns : list loc) (s : netlist) (c : loc) : option loc :=
  match net_ s !! c with Some n => if decide (n ∈ ns) then None else Some n | None => None end.

(** The state when the bits [ns] are destroyed and nothing else changed. *)
Record bits_gone (s : netlist) (ns : list loc) (s' : netlist) : Prop := {
  bg_str : exists h, str s' = with_nets (nets_ (str s)) h (next (str s)) (str s) /\
    forall y, h !! y = if decide (y ∈ ns) then None else netHeap (str s) !! y;
  bg_net c : net_ s' !! c = without_nets ns s c;
  bg_types y : netTypes s' !! y = if decide (y ∈ ns) then None else netTypes s !! y;
  bg_orders : orderIDs s' = orderIDs s }.

Lemma bits_gone_refl s : bits_gone s [] s.
Proof.
  split.
  - exists (netHeap (str s)). split; [by destruct s as [[] ? ? ? ?]|]. intros y. by rewrite decide_False by set_solver.
  - intros c. unfold without_nets. destruct (net_ s !! c); [by rewrite decide_False by set_solver|done].
  - intros y. by rewrite decide_False by set_solver.
  - done.
Qed.

Lemma object_header_shrink {E} (h h' : gmap loc (bits_object E)) x o :
  h' !! x = h !! x -> (forall b a m l bs, h !! b = Some (Bus a m l bs) -> (exists i, h !! x = Some (Bit b i)) -> h' !! b = h !! b) ->
  object_header h x = Some o -> object_header h' x = Some o.
Proof.
  intros Hx Hb. unfold object_header. rewrite Hx. destruct (h !! x) as [[| |b i]|]; [done..| |done].
  destruct (h !! b) as [[|a m l bs|]|] eqn:E1; [done| |done..]. by rewrite (Hb _ _ _ _ _ E1 ltac:(by eexists)), E1.
Qed.

(** Deleting a bit net that nothing is connected to. *)
Lemma conn_wf_delete_bitNet s n v :
  conn_wf s -> (forall c, net_ s !! c <> Some n) -> netHeap (str s) !! n = Some v -> (forall o m l bs, v <> Bus o m l bs) ->
  conn_wf (set_types (delete n (netTypes s)) (set_components (delete n (components_ s))
    (set_str (with_nets (nets_ (str s)) (delete n (netHeap (str s))) (next (str s)) (str s)) s))).
Proof.
  intros C Hn Hv Hbus. pose proof (conn_wf_nets s (nets_ (str s)) (delete n (netHeap (str s))) (next (str s)) C) as C'.
  destruct C' as [K A P].
  { intros m d Hm [b Hb] [c Hc]. assert (m <> n) as Hne by (intros ->; by eapply Hn). split.
    - unfold net_design in Hm. apply fmap_Some in Hm as (o & Ho & ->). apply fmap_Some. exists o. split; [|done].
      eapply object_header_shrink; [by rewrite lookup_delete_ne| |exact Ho]. intros b' a m' l bs Hb' _.
      rewrite lookup_delete_ne; [done|]. intros <-. rewrite Hb' in Hv. injection Hv as <-. by eapply Hbus.
    - exists b. unfold is_bit in *. by rewrite lookup_delete_ne by done. }
  split; [exact K|exact A|]. intros m k c. cbn. rewrite <- (P m k c). unfold components. cbn.
  destruct (decide (m = n)) as [->|Hne]; [|by rewrite lookup_delete_ne]. rewrite lookup_delete_eq. simpl. rewrite lookup_empty.
  split; [done|]. intros H. destruct (proj1 (cw_components _ C n k c) H) as [Hc _]. by destruct (Hn c).
Qed.

Lemma netBit_destroyFromBus_ok s n v E :
  conn_wf s -> netHeap (str s) !! n = Some v -> (forall o m l bs, v <> Bus o m l bs) ->
  wp (netBit_destroyFromBus n) s (fun _ s' => conn_wf s' /\ bits_gone s [n] s') E.
Proof.
  intros C Hv Hbus. unfold netBit_destroyFromBus, delete_bitNet, delete_net, change. rewrite wp_bind.
  eapply wp_mono; [exact (bitNet_preDestroy_ok s n E C)| |done]. cbn beta. intros _ s1 [C1 R].
  pose proof (rw_str _ _ _ R) as Es. rewrite wp_bind, wp_modify, wp_modify. ct_simpl. rewrite Es. split.
  - rewrite <- Es. apply (conn_wf_delete_bitNet s1 n v C1); [|by rewrite Es|done]. intros c. rewrite (rw_net _ _ _ R). cbn.
    destruct (decide (net_ s !! c = Some n)); congruence.
  - split.
    + eexists. split; [done|]. intros y. destruct (decide (y ∈ [n])) as [->%list_elem_of_singleton|Hy]; [by rewrite lookup_delete_eq|].
      rewrite lookup_delete_ne; [done|]. intros <-. apply Hy. by left.
    + intros c. ct_simpl. rewrite (rw_net _ _ _ R). unfold without_nets. cbn.
      destruct (net_ s !! c) as [m|]; [|by destruct (decide _)].
      destruct (decide (Some m = Some n)) as [[= ->]|Hne]; [by rewrite decide_True by set_solver|].
      rewrite decide_False; [done|]. intros ->%list_elem_of_singleton. done.
    + intros y. ct_simpl. rewrite (rw_types _ _ _ R). destruct (decide (y ∈ [n])) as [->%list_elem_of_singleton|Hy]; [by rewrite lookup_delete_eq|].
      rewrite lookup_delete_ne; [done|]. intros <-. apply Hy. by left.
    + exact (rw_orders _ _ _ R).
Qed.

Lemma gone_app {A} (y : loc) ns ms (x : option A) :
  (if decide (y ∈ ns ++ ms) then None else x) = if decide (y ∈ ms) then None else if decide (y ∈ ns) then None else x.
Proof.
  destruct (decide (y ∈ ns ++ ms)) as [H|H]; rewrite elem_of_app in H; destruct (decide (y ∈ ms)), (decide (y ∈ ns)); tauto.
Qed.

Lemma bits_gone_trans s ns s1 ms s2 : bits_gone s ns s1 -> bits_gone s1 ms s2 -> bits_gone s (ns ++ ms) s2.
Proof.
  intros [(h1 & E1 & H1) N1 T1 O1] [(h2 & E2 & H2) N2 T2 O2]. split.
  - exists h2. split; [by rewrite E2, E1|]. intros y. by rewrite H2, E1, gone_app, <- H1.
  - intros c. rewrite N2. unfold without_nets. rewrite N1. unfold without_nets. destruct (net_ s !! c) as [m|]; [|done].
    rewrite gone_app. destruct (decide (m ∈ ns)), (decide (m ∈ ms)); done.
  - intros y. by rewrite T2, T1, gone_app.
  - congruence.
Qed.

Lemma destroy_bits_ok s ns E :
  conn_wf s -> NoDup ns -> (forall n, n ∈ ns -> exists b i, netHeap (str s) !! n = Some (Bit b i)) ->
  wp (for_each netBit_destroyFromBus ns) s (fun _ s' => conn_wf s' /\ bits_gone s ns s') E.
Proof.
  intros C Hnd Hns.
  apply (wp_for_each _ (fun visited s' => conn_wf s' /\ bits_gone s visited s')); [split; [done|apply bits_gone_refl]|].
  intros visited n rest s1 -> [C1 G]. destruct (Hns n ltac:(set_solver)) as (b & i & Hn).
  apply NoDup_app in Hnd as (_ & Hdis & _).
  eapply wp_mono; [eapply (netBit_destroyFromBus_ok s1 n (Bit b i) E C1)| |done].
  - destruct (bg_str _ _ _ G) as (h & -> & Hh). cbn. rewrite Hh, decide_False; [done|]. intros Hin.
    eapply Hdis; [exact Hin|by left].
  - done.
  - cbn beta. intros _ s2 [C2 G2]. split; [done|]. by eapply bits_gone_trans.
Qed.

(** The outcome of destroying a net with bits [ns]. *)
Record net_gone (s : netlist) (ns : list loc) (s' : netlist) : Prop := {
  ng_wf : struct_wf_except X (str s') /\ conn_wf s';
  ng_str : exists regs h, str s' = with_nets regs h (next (str s)) (str s) /\
    (forall y, y ∈ ns -> h !! y = None);
  ng_net c : net_ s' !! c = without_nets ns s c;
  ng_orders : orderIDs s' = orderIDs s }.

(** Changing the nets registry and a bus after its bits are gone. *)
Lemma conn_wf_nets_down s regs h n :
  conn_wf s ->
  (forall m v, netHeap (str s) !! m = Some v -> (forall o a b bs, v <> Bus o a b bs) -> h !! m = Some v) ->
  (forall b o m l bs x i, netHeap (str s) !! b = Some (Bus o m l bs) -> netHeap (str s) !! x = Some (Bit b i) ->
     exists m' l' bs', h !! b = Some (Bus o m' l' bs')) ->
  conn_wf (set_str (with_nets regs h n (str s)) s).
Proof.
  intros C Hkeep Hbus. apply conn_wf_nets; [done|]. intros m d Hm [b Hb] _. unfold net_design, object_header, is_bit in *.
  destruct (netHeap (str s) !! m) as [[o|o a' b' bs|b' i]|] eqn:Em; [|done| |done].
  - by rewrite (Hkeep _ _ Em) by done.
  - rewrite (Hkeep _ _ Em) by done. split; [|done]. destruct (netHeap (str s) !! b') as [[|o m' l bs|]|] eqn:Eb; [done| |done..].
    destruct (Hbus _ _ _ _ _ _ _ Eb Em) as (? & ? & ? & ->). done.
Qed.

Lemma conn_wf_regs s regs n :
  conn_wf s -> conn_wf (set_str (with_nets regs (netHeap (str s)) n (str s)) s).
Proof. by intros [K A P]. Qed.

Lemma scalarNet_destroy_ok s n o E :
  struct_wf_except X (str s) -> conn_wf s -> netHeap (str s) !! n = Some (Scalar o) ->
  wp (net_destroy n) s (fun _ s' => net_gone s [n] s') E.
Proof.
  intros W C Hn. unfold net_destroy. wp_read Hn. cbn beta iota. rewrite wp_bind.
  eapply wp_mono; [exact (bitNet_preDestroy_ok s n E C)| |done]. cbn beta. intros _ s1 [C1 R].
  pose proof (rw_str _ _ _ R) as Es. rewrite <- Es in Hn, W. unfold removeNet, delete_bitNet, delete_net.
  destruct (ow_design _ _ (sw_nets _ _ W) _ _ _ Hn eq_refl) as [r Hr]. ct_run.
  assert (Hgone : forall c, net_ s1 !! c <> Some n).
  { intros c. rewrite (rw_net _ _ _ R). cbn. destruct (decide (net_ s !! c = Some n)); congruence. }
  pose proof (conn_wf_delete_bitNet s1 n (Scalar o) C1 Hgone Hn ltac:(done)) as C2.
  split.
  - split.
    + apply (struct_wf_nets X (str s1) _ _ (next (str s1)) W); [| |lia|].
      * eapply (objects_wf_remove _ _ _ n (Scalar o) o r (sw_nets _ _ W) Hn eq_refl Hr); [|apply lookup_delete_eq|].
        -- intros y. destruct (decide (y = n)) as [->|Hy]; [right|left]; [by rewrite lookup_delete_eq; auto|by rewrite lookup_delete_ne].
        -- intros y bit Hy. destruct (ow_bit _ _ (sw_nets _ _ W) _ _ _ Hy) as (? & ? & ? & ? & Hb & _). rewrite Hn in Hb. done.
      * intros d. ct_simpl. rewrite lookup_insert_is_Some'. split; [intros [<-|?]; [by rewrite Hr|done]|by right].
      * intros l Hl. rewrite lookup_delete_None. right. by apply (sw_fresh _ _ W).
    + exact (conn_wf_regs _ _ _ C2).
  - eexists _, _. rewrite Es. split; [done|]. intros y ->%list_elem_of_singleton. apply lookup_delete_eq.
  - intros c. ct_simpl. rewrite (rw_net _ _ _ R). unfold without_nets. cbn. destruct (net_ s !! c) as [m|]; [|by destruct (decide _)].
    destruct (decide (Some m = Some n)) as [[= ->]|Hne]; [by rewrite decide_True by set_solver|].
    rewrite decide_False; [done|]. intros ->%list_elem_of_singleton. done.
  - exact (rw_orders _ _ _ R).
Qed.

Lemma bus_bits s b o msb lsb bits :
  struct_wf_except X (str s) -> netHeap (str s) !! b = Some (Bus o msb lsb bits) ->
  forall x, x ∈ getBusBits bits -> exists i : nat, bits !! i = Some (Some x) /\ netHeap (str s) !! x = Some (Bit b (bit_at msb lsb i)).
Proof.
  intros W Hb x [i Hi]%elem_of_getBusBits. exists i. split; [done|]. exact (ow_bits _ _ (sw_nets _ _ W) _ _ _ _ _ _ _ Hb Hi).
Qed.
Lemma omap_NoDup (l : list (option loc)) :
  (forall (i j : nat) x, l !! i = Some (Some x) -> l !! j = Some (Some x) -> i = j) -> NoDup (getBusBits l).
Proof.
  induction l as [|a l IH]; intros H; [constructor|]. unfold getBusBits in *. cbn.
  assert (Hl : NoDup (omap (fun b => b) l)).
  { apply IH. intros i j x Hi Hj. specialize (H (S i) (S j) x Hi Hj). lia. }
  destruct a as [x|]; [|done]. constructor; [|done]. intros [? [Hi%list_elem_of_lookup_1 Hx]]%list_elem_of_omap.
  destruct Hi as [i Hi]. subst. specialize (H 0%nat (S i) x eq_refl Hi). lia.
Qed.
Lemma NoDup_bus_bits h regs b o msb lsb bits :
  objects_wf (E := unit) h regs -> h !! b = Some (Bus o msb lsb bits) -> NoDup (getBusBits bits).
Proof. intros W Hb. apply omap_NoDup. intros i j x. exact (bits_distinct W _ _ _ _ _ _ _ _ Hb). Qed.

Lemma busNet_destroy_ok s n o msb lsb bits E :
  struct_wf_except X (str s) -> conn_wf s -> netHeap (str s) !! n = Some (Bus o msb lsb bits) ->
  wp (net_destroy n) s (fun _ s' => net_gone s (getBusBits bits) s') E.
Proof.
  intros W C Hn. unfold net_destroy. wp_read Hn. cbn beta iota. rewrite wp_bind.
  pose proof (bus_bits s n o msb lsb bits W Hn) as Hbits.
  eapply wp_mono; [apply (destroy_bits_ok s (getBusBits bits) E C)| |done].
  { by eapply NoDup_bus_bits; [apply W|]. }
  { intros x Hx. destruct (Hbits x Hx) as (i & _ & Hx'). eauto. }
  cbn beta. intros _ s1 [C1 [(h & Es & Hh) N1 T1 O1]].
  assert (Hn1 : h !! n = Some (Bus o msb lsb bits)).
  { rewrite Hh, decide_False; [done|]. intros Hin. destruct (Hbits _ Hin) as (? & _ & H). congruence. }
  destruct (ow_design _ _ (sw_nets _ _ W) _ _ _ Hn eq_refl) as [r Hr].
  unfold removeNet, delete_net. rewrite wp_bind, wp_bind. eapply wp_deref; [rewrite Es; exact Hn1|].
  rewrite wp_bind. eapply wp_deref; [reflexivity|]. rewrite wp_bind. eapply wp_deref; [rewrite Es; exact Hr|].
  unfold change. rewrite !wp_modify. ct_simpl. rewrite Es. ct_simpl.
  assert (Hh2 : forall y, delete n h !! y = netHeap (str s) !! y \/ (delete n h !! y = None /\
      (y = n \/ exists bit, netHeap (str s) !! y = Some (Bit n bit)))).
  { intros y. destruct (decide (y = n)) as [->|Hy]; [rewrite lookup_delete_eq; auto|]. rewrite lookup_delete_ne, Hh by done.
    destruct (decide (y ∈ getBusBits bits)) as [Hin|]; [|by left]. destruct (Hbits _ Hin) as (? & _ & H). eauto. }
  assert (Hgone : forall y bit, netHeap (str s) !! y = Some (Bit n bit) -> delete n h !! y = None).
  { intros y bit Hy. rewrite lookup_delete_None. right. rewrite Hh, decide_True; [done|]. apply elem_of_getBusBits.
    exists (bit_position msb bit). exact (proj1 (getBit_position (sw_nets _ _ W) _ _ _ _ _ _ _ Hn Hy)). }
  split.
  - split.
    + apply (struct_wf_nets X (str s) _ _ (next (str s)) W); [| |lia|].
      * exact (objects_wf_remove _ _ _ n (Bus o msb lsb bits) o r (sw_nets _ _ W) Hn eq_refl Hr Hh2 (lookup_delete_eq _ _) Hgone).
      * intros d. ct_simpl. rewrite lookup_insert_is_Some'. split; [intros [<-|?]; [by rewrite Hr|done]|by right].
      * intros l Hl. destruct (Hh2 l) as [->|[-> _]]; [by apply (sw_fresh _ _ W)|done].
    + pose proof (conn_wf_nets_down s1 (<[h_design o:=remove_object (h_id o) (h_name o) r]> (nets_ (str s))) (delete n h) (next (str s)) C1) as C2.
      rewrite Es in C2. ct_simpl. apply C2; ct_simpl.
      * intros m v Hm Hv. rewrite lookup_delete_ne; [done|]. intros <-. rewrite Hn1 in Hm. injection Hm as <-. by eapply Hv.
      * intros b o' m l bs x i Hb Hx. exists m, l, bs. rewrite lookup_delete_ne; [done|]. intros <-.
        rewrite Hh in Hx. case_decide; [done|]. specialize (Hgone _ _ Hx). rewrite lookup_delete_None, Hh in Hgone.
        destruct Hgone as [->|Hgone]; [congruence|]. rewrite decide_False in Hgone by done. congruence.
  - eexists _, _. split; [done|]. intros y Hy. rewrite lookup_delete_None. right. by rewrite Hh, decide_True.
  - exact N1.
  - exact O1.
Qed.

(** ** Losing bits *)

(** A bus whose bits [ns] are deleted and that gets another range and vector. *)
Lemma bus_narrowed s s1 ns b o msb lsb bits msb' lsb' bits' :
  struct_wf_except X (str s) -> netHeap (str s) !! b = Some (Bus o msb lsb bits) ->
  (forall x, x ∈ ns -> exists i, netHeap (str s) !! x = Some (Bit b i)) ->
  conn_wf s1 -> bits_gone s ns s1 ->
  (forall h, (forall y, y <> b -> h !! y = if decide (y ∈ ns) then None else netHeap (str s) !! y) ->
     h !! b = Some (Bus o msb' lsb' bits') -> objects_wf h (nets_ (str s))) ->
  wp (put_net b (Bus o msb' lsb' bits')) s1 (fun _ s' => net_gone s ns s' /\
    netHeap (str s') !! b = Some (Bus o msb' lsb' bits')) (fun _ _ => False).
Proof.
  intros W Hb Hns C1 [(h & Es & Hh) N1 T1 O1] Hwf. unfold put_net, change. rewrite wp_modify, Es. ct_simpl.
  assert (Hh' : forall y, y <> b -> <[b:=Bus o msb' lsb' bits']> h !! y = if decide (y ∈ ns) then None else netHeap (str s) !! y).
  { intros y Hy. by rewrite lookup_insert_ne, Hh by done. }
  split; [|apply lookup_insert_eq]. split.
  - split.
    + apply (struct_wf_nets X (str s) _ _ (next (str s)) W); [|done|lia|].
      * apply Hwf; [exact Hh'|apply lookup_insert_eq].
      * intros l Hl. ct_simpl. rewrite lookup_insert_ne.
        { rewrite Hh. destruct (decide (l ∈ ns)); [done|by apply (sw_fresh _ _ W)]. }
        intros <-. destruct (sw_fresh _ _ W b Hl) as (_ & E1 & _). congruence.
    + pose proof (conn_wf_nets_down s1 (nets_ (str s)) (<[b:=Bus o msb' lsb' bits']> h) (next (str s)) C1) as C2.
      rewrite Es in C2. ct_simpl. apply C2; ct_simpl.
      * intros m v Hm Hv. rewrite lookup_insert_ne; [done|]. intros <-. rewrite Hh in Hm. case_decide; [done|].
        rewrite Hb in Hm. injection Hm as <-. by eapply Hv.
      * intros b' o' m l bs x i Hb' Hx. destruct (decide (b = b')) as [<-|Hne].
        -- rewrite lookup_insert_eq. rewrite Hh in Hb'. case_decide; [done|]. rewrite Hb in Hb'. injection Hb' as <- _ _ _. eauto.
        -- rewrite lookup_insert_ne by done. eauto.
  - eexists _, _. split; [done|]. intros y Hy. rewrite Hh'; [by rewrite decide_True|].
    intros ->. destruct (Hns _ Hy) as [? E1]. congruence.
  - exact N1.
  - exact O1.
Qed.

Lemma for_each_remove ns : for_each netBit_remove (Some <$> ns) = for_each netBit_destroyFromBus ns.
Proof. induction ns as [|n ns IH]; [done|]. cbn. by rewrite IH. Qed.

Lemma check_unconnected_ok s ns (Q : unit -> netlist -> Prop) :
  Q tt s -> wp (for_each check_unconnected (Some <$> ns)) s Q (unchanged s).
Proof.
  intros HQ. induction ns as [|n ns IH]; cbn; [done|]. rewrite wp_bind, wp_bind, wp_gets. by apply wp_check.
Qed.

Lemma all_left (l : list (option loc)) : Forall is_Some l -> exists ns, l = Some <$> ns.
Proof. induction 1 as [|? l [x ->] _ [ns ->]]; [by exists []|by exists (x :: ns)]. Qed.

(** Narrowing keeps the positions [k], ..., [k + n - 1], if the bits to remove
    are there. *)
Lemma busNet_narrow_ok s b o msb lsb bits msb' lsb' (k n : nat) ns rm :
  struct_wf_except X (str s) -> conn_wf s -> netHeap (str s) !! b = Some (Bus o msb lsb bits) ->
  (k + n <= length bits)%nat -> getWidth msb' lsb' = Ret (Z.of_nat n) ->
  (forall i, (i < n)%nat -> bit_at msb' lsb' i = bit_at msb lsb (k + i)) ->
  rm = Some <$> ns ->
  (forall x (i : nat), bits !! i = Some (Some x) -> x ∈ ns <-> ~ (k <= i < k + n)%nat) ->
  (forall x, x ∈ ns -> exists i : nat, bits !! i = Some (Some x)) -> NoDup ns ->
  wp (for_each check_unconnected rm ;; for_each netBit_remove rm ;; put_net b (Bus o msb' lsb' (take n (drop k bits)))) s
    (fun _ s' => net_gone s ns s' /\ netHeap (str s') !! b = Some (Bus o msb' lsb' (take n (drop k bits)))) (unchanged s).
Proof.
  intros W C Hb Hlen Hw Hat -> Hin Hns Hnd. rewrite wp_bind. apply check_unconnected_ok. rewrite wp_bind, for_each_remove.
  assert (Hbit : forall x, x ∈ ns -> exists i, netHeap (str s) !! x = Some (Bit b i)).
  { intros x Hx. destruct (Hns x Hx) as [i Hi]. eexists. exact (ow_bits _ _ (sw_nets _ _ W) _ _ _ _ _ _ _ Hb Hi). }
  eapply wp_mono; [apply (destroy_bits_ok s ns (fun _ _ => False) C Hnd)| |done].
  { intros x Hx. destruct (Hbit x Hx) as [i E1]. eauto. }
  cbn beta. intros _ s1 [C1 G].
  eapply wp_mono; [exact (bus_narrowed s s1 ns b o msb lsb bits msb' lsb' (take n (drop k bits)) W Hb Hbit C1 G ltac:(
    intros h Hh Hhb; refine (objects_wf_narrow _ h _ b o msb lsb bits msb' lsb' k n (sw_nets _ _ W) Hb Hat Hlen Hw Hhb _ _);
    [intros y Hy; rewrite Hh by done; destruct (decide (y ∈ ns)) as [Hy'|]; [right; split; [done|by apply Hbit]|by left]
    |intros i y Hi; pose proof (ow_bits _ _ (sw_nets _ _ W) _ _ _ _ _ _ _ Hb Hi) as Hy;
     rewrite Hh by congruence; pose proof (Hin y i Hi); destruct (decide (y ∈ ns)), (decide (k <= i < k + n)%nat); tauto]))| |done].
  done.
Qed.

Lemma busNet_setMSB_ok s b o msb lsb bits msb' :
  struct_wf_except X (str s) -> conn_wf s -> netHeap (str s) !! b = Some (Bus o msb lsb bits) ->
  Forall is_Some (take (bit_position msb msb') bits) ->
  wp (busNet_setMSB b msb') s (fun _ s' => exists ns, take (bit_position msb msb') bits = Some <$> ns /\
      net_gone s ns s' /\ netHeap (str s') !! b = Some (Bus o msb' lsb (drop (bit_position msb msb') bits)))
    (unchanged s).
Proof.
  intros W C Hb Hleft. destruct (all_left _ Hleft) as [ns Ens]. unfold busNet_setMSB. wp_read Hb. cbn beta iota.
  destruct (Z.eqb_spec msb' msb) as [->|Hne].
  - apply wp_ret. replace (bit_position msb msb) with 0%nat in * by (unfold bit_position; rewrite Z.sub_diag; done).
    rewrite take_0 in Ens. destruct ns; [|done]. exists []. split; [done|]. split; [|done]. destruct (bits_gone_refl s) as [[h [E1 H1]] N T O].
    split; [done| |exact N|exact O]. exists (nets_ (str s)), (netHeap (str s)). split; [by destruct s as [[]]|].
    intros y Hy. by apply not_elem_of_nil in Hy.
  - rewrite wp_bind. apply wp_check; [|done]. intros Hbt.
    destruct (narrow_msb _ _ _ _ _ _ _ _ (sw_nets _ _ W) Hb Hbt) as (n & Hlen & Hw & Hat).
    change (Z.to_nat (Z.abs (msb - msb'))) with (bit_position msb msb'). set (k := bit_position msb msb') in *.
    assert (Etake : take n (drop k bits) = drop k bits) by (apply take_ge; rewrite length_drop; lia).
    destruct (removed_front _ _ _ _ _ _ _ _ _ (sw_nets _ _ W) Hb Ens) as (Hnd & Hin & Hns).
    cbv zeta. rewrite <- Etake.
    eapply wp_mono; [eapply (busNet_narrow_ok s b o msb lsb bits msb' lsb k n ns _ W C Hb ltac:(lia) Hw Hat Ens); [|done..]| |done].
    + intros x i Hi. pose proof (lookup_lt_Some _ _ _ Hi). rewrite (Hin _ _ Hi). lia.
    + cbn beta. intros _ s' [G Hb']. by exists ns.
Qed.

Lemma busNet_setLSB_ok s b o msb lsb bits lsb' :
  struct_wf_except X (str s) -> conn_wf s -> netHeap (str s) !! b = Some (Bus o msb lsb bits) ->
  let left := (length bits - Z.to_nat (Z.abs (lsb - lsb')))%nat in
  Forall is_Some (drop left bits) ->
  wp (busNet_setLSB b lsb') s (fun _ s' => exists ns, drop left bits = Some <$> ns /\
      net_gone s ns s' /\ netHeap (str s') !! b = Some (Bus o msb lsb' (take left bits)))
    (unchanged s).
Proof.
  intros W C Hb left Hleft. destruct (all_left _ Hleft) as [ns Ens]. unfold busNet_setLSB. wp_read Hb. cbn beta iota.
  destruct (Z.eqb_spec lsb' lsb) as [->|Hne].
  - apply wp_ret. assert (left = length bits) as El by (subst left; rewrite Z.sub_diag; cbn; lia). rewrite El in *.
    rewrite drop_all in Ens. destruct ns; [|done]. exists []. split; [by rewrite drop_all|]. rewrite firstn_all. split; [|done].
    destruct (bits_gone_refl s) as [[h [E1 H1]] N T O].
    split; [done| |exact N|exact O]. exists (nets_ (str s)), (netHeap (str s)). split; [by destruct s as [[]]|].
    intros y Hy. by apply not_elem_of_nil in Hy.
  - rewrite wp_bind. apply wp_check; [|done]. intros Hbt.
    destruct (narrow_lsb _ _ _ _ _ _ _ _ (sw_nets _ _ W) Hb Hbt) as (n & Hlen & Hw & Hat).
    cbv zeta. fold left. assert (n = left) as -> by lia.
    destruct (removed_back _ _ _ _ _ _ _ _ _ (sw_nets _ _ W) Hb Ens) as (Hnd & Hin & Hns).
    replace (take left bits) with (take left (drop 0 bits)) by by rewrite drop_0.
    eapply wp_mono; [eapply (busNet_narrow_ok s b o msb lsb bits msb lsb' 0 left ns _ W C Hb ltac:(lia) Hw Hat Ens); [|done..]| |done].
    + intros x i Hi. pose proof (lookup_lt_Some _ _ _ Hi). rewrite (Hin _ _ Hi). lia.
    + cbn beta. intros _ s' [G Hb']. by exists ns.
Qed.

Lemma netBit_destroy_ok s n b bit E :
  struct_wf_except X (str s) -> conn_wf s -> netHeap (str s) !! n = Some (Bit b bit) ->
  wp (net_destroy n) s (fun _ s' => net_gone s [n] s') E.
Proof.
  intros W C Hn. destruct (ow_bit _ _ (sw_nets _ _ W) _ _ _ Hn) as (o & msb & lsb & bits & Hb & Hg).
  destruct (getBit_position (sw_nets _ _ W) _ _ _ _ _ _ _ Hb Hn) as [Hi Hat].
  assert (Hbt : isBetween bit msb lsb = true) by (unfold getBit in Hg; by destruct (isBetween bit msb lsb)).
  assert (Hnb : n <> b) by (intros ->; congruence).
  unfold net_destroy. wp_read Hn. cbn beta iota. rewrite wp_bind.
  eapply wp_mono; [exact (bitNet_preDestroy_ok s n E C)| |done]. cbn beta. intros _ s1 [C1 R].
  pose proof (rw_str _ _ _ R) as Es. unfold busNet_removeBit, delete_bitNet, delete_net.
  rewrite !wp_bind. eapply wp_deref; [rewrite Es; exact Hb|]. cbn beta iota. rewrite Hbt. ct_run. rewrite Es. ct_simpl.
  set (bits' := <[bit_position msb bit:=None]> bits).
  assert (Hgone : forall c, net_ s1 !! c <> Some n).
  { intros c. rewrite (rw_net _ _ _ R). cbn. destruct (decide (net_ s !! c = Some n)); congruence. }
  pose proof (conn_wf_nets_down s1 (nets_ (str s)) (<[b:=Bus o msb lsb bits']> (netHeap (str s))) (next (str s)) C1) as C2.
  rewrite Es in C2.
  assert (C3 : conn_wf (set_str (with_nets (nets_ (str s)) (<[b:=Bus o msb lsb bits']> (netHeap (str s))) (next (str s)) (str s)) s1)).
  { apply C2.
    - intros m v Hm Hv. rewrite lookup_insert_ne; [done|]. intros <-. rewrite Hb in Hm. injection Hm as <-. by eapply Hv.
    - intros b' o' m l bs x i Hb' Hx. destruct (decide (b = b')) as [<-|Hne]; [|rewrite lookup_insert_ne by done; eauto].
      rewrite lookup_insert_eq. rewrite Hb in Hb'. injection Hb' as <- _ _ _. eauto. }
  pose proof (conn_wf_delete_bitNet _ n (Bit b bit) C3 Hgone ltac:(cbn; by rewrite lookup_insert_ne) ltac:(done)) as C4. cbn in C4.
  split.
  - split; [|exact C4]. apply (struct_wf_nets X (str s) _ _ (next (str s)) W); [|done|lia|].
    + assert (Hlook : forall y, y <> b -> delete n (<[b:=Bus o msb lsb bits']> (netHeap (str s))) !! y =
        if decide (y = n) then None else netHeap (str s) !! y).
      { intros y Hy. destruct (decide (y = n)) as [->|Hyn]; [apply lookup_delete_eq|]. by rewrite lookup_delete_ne, lookup_insert_ne. }
      eapply (objects_wf_change_bus _ _ _ b o msb lsb bits msb lsb bits' (sw_nets _ _ W) Hb).
      * rewrite lookup_delete_ne by done. apply lookup_insert_eq.
      * intros y Hy. rewrite Hlook by done. destruct (decide (y = n)) as [->|]; [right; eauto|by left].
      * subst bits'. rewrite length_insert. exact (ow_width _ _ (sw_nets _ _ W) _ _ _ _ _ Hb).
      * intros i x Hx. subst bits'. apply list_lookup_insert_Some in Hx as [(_ & ? & _)|[Hpos Hx]]; [done|].
        pose proof (ow_bits _ _ (sw_nets _ _ W) _ _ _ _ _ _ _ Hb Hx) as Hx'. rewrite Hlook by congruence.
        rewrite decide_False; [done|]. intros ->. pose proof (bits_distinct (sw_nets _ _ W) _ _ _ _ _ _ _ _ Hb Hi Hx). congruence.
      * intros x i Hx. assert (x <> b) as Hxb by (intros ->; rewrite lookup_delete_ne, lookup_insert_eq in Hx by done; done).
        rewrite Hlook in Hx by done. destruct (decide (x = n)) as [|Hxn]; [done|].
        pose proof (proj2 (getBit_spec (sw_nets _ _ W) _ _ _ _ _ _ _ Hb) Hx) as Hg'. unfold getBit in *.
        destruct (isBetween i msb lsb) eqn:Hibt; [|done]. apply getBitAtPosition_Some in Hg'. apply getBitAtPosition_Some. subst bits'.
        rewrite list_lookup_insert_ne; [done|]. intros Epos. rewrite <- Epos in Hg'. congruence.
    + intros l Hl. ct_simpl. rewrite lookup_delete_None. right. rewrite lookup_insert_ne; [by apply (sw_fresh _ _ W)|].
      intros <-. destruct (sw_fresh _ _ W b Hl) as (_ & E1 & _). congruence.
  - eexists _, _. split; [done|]. intros y ->%list_elem_of_singleton. apply lookup_delete_eq.
  - intros c. ct_simpl. rewrite (rw_net _ _ _ R). unfold without_nets. cbn. destruct (net_ s !! c) as [m|]; [|by destruct (decide _)].
    destruct (decide (Some m = Some n)) as [[= ->]|Hne]; [by rewrite decide_True by set_solver|].
    rewrite decide_False; [done|]. intros ->%list_elem_of_singleton. done.
  - exact (rw_orders _ _ _ R).
Qed.

(** ** Names and types *)

(** Renaming keeps the design of every object and the class of bits. *)
Lemma object_design_rename {E} (h : gmap loc (bits_object E)) n v o o' m :
  h !! n = Some v -> header_of v = Some o -> h_design o' = h_design o ->
  h_design <$> object_header (<[n:=set_header o' v]> h) m = h_design <$> object_header h m.
Proof.
  intros Hn Ho Hd. unfold object_header. destruct (decide (n = m)) as [<-|Hne].
  - rewrite lookup_insert_eq, Hn. destruct v; cbn in *; [congruence|congruence|done].
  - rewrite lookup_insert_ne by done. destruct (h !! m) as [[| |b i]|]; [done..| |done].
    destruct (decide (n = b)) as [<-|Hb]; [|by rewrite lookup_insert_ne]. rewrite lookup_insert_eq, Hn.
    destruct v; cbn in *; [done|congruence|done].
Qed.
Lemma is_bit_rename {E} (h : gmap loc (bits_object E)) n v o' m :
  h !! n = Some v -> is_bit (<[n:=set_header o' v]> h) m = is_bit h m.
Proof.
  intros Hn. unfold is_bit. destruct (decide (n = m)) as [<-|Hne]; [|by rewrite lookup_insert_ne].
  rewrite lookup_insert_eq, Hn. by destruct v.
Qed.

Lemma net_setName_ok s n v o name :
  struct_wf_except X (str s) -> conn_wf s -> netHeap (str s) !! n = Some v -> header_of v = Some o ->
  wp (net_setName n name) s (fun _ s' => struct_wf_except X (str s') /\ conn_wf s' /\
    exists regs, s' = set_str (with_nets regs (<[n:=set_header (mkHeader (h_design o) (h_id o) name tt) v]> (netHeap (str s)))
      (next (str s)) (str s)) s) (unchanged s).
Proof.
  intros W C Hn Ho. unfold net_setName. wp_read Hn. cbn beta. rewrite Ho.
  destruct (Z.eqb_spec (h_name o) name) as [<-|Hne].
  { apply wp_ret. split; [done|]. split; [done|]. exists (nets_ (str s)). rewrite insert_id; [by destruct s as [[]]|].
    rewrite Hn. f_equal. destruct o as [? ? ? []]. by destruct v; cbn in *; congruence. }
  destruct (ow_design _ _ (sw_nets _ _ W) _ _ _ Hn Ho) as [r Hr]. wp_read Hr. rewrite wp_bind. apply wp_check; [|done].
  intros Hfree. pose proof (name_free _ _ Hfree) as Hname. ct_run.
  destruct (represents_rename (ow_registry _ _ (sw_nets _ _ W) _ _ Hr) 
    (fun x k m => (owns_object (netHeap (str s)) (h_design o) x k m /\ x <> n) \/ (x = n /\ k = h_id o /\ m = name))
    (h_id o) name (h_name o) n)
    as (r' & Hren & _); [by exists v, o|done|done|done|].
  eapply wp_deref; [exact Hren|]. ct_run.
  pose proof (objects_wf_rename (netHeap (str s)) (nets_ (str s)) n v o name r r' (sw_nets _ _ W) Hn Ho Hr (not_eq_sym Hne) Hname Hren) as Hwf.
  destruct o as [d id name0 []]. cbn in *. split; [|split; [|by exists (<[d:=r']> (nets_ (str s)))]].
  - apply (struct_wf_nets X (str s) _ _ (next (str s)) W Hwf); [|lia|].
    + intros d'. rewrite lookup_insert_is_Some'. split; [intros [<-|?]; [by rewrite Hr|done]|by right].
    + intros l Hl. rewrite lookup_insert_ne; [by apply (sw_fresh _ _ W)|]. intros <-.
      destruct (sw_fresh _ _ W n Hl) as (_ & E1 & _). congruence.
  - refine (conn_wf_nets s _ _ (next (str s)) C _). intros m dm Hm Hb _. split.
    + rewrite <- Hm. by eapply object_design_rename.
    + unfold is_bitNet in Hb. rewrite <- (is_bit_rename _ n v (mkHeader d id name tt) m Hn) in Hb. exact Hb.
Qed.

(** A bit refuses a name. *)
Lemma net_setName_bit s n b bit name :
  netHeap (str s) !! n = Some (Bit b bit) -> net_setName n name s = (Throw "Unauthorized setName of SNLBusNetBit", s).
Proof. intros Hn. unfold net_setName, the_net, deref, mbind, prog_bind. by rewrite Hn. Qed.

Lemma net_setType_ok s n v type E :
  conn_wf s -> netHeap (str s) !! n = Some v ->
  wp (net_setType n type) s (fun _ s' => conn_wf s' /\ str s' = str s /\ net_ s' = net_ s /\ orderIDs s' = orderIDs s /\
    forall y, netTypes s' !! y = if decide (y ∈ getBits (netHeap (str s)) n) then Some type else netTypes s !! y) E.
Proof.
  intros C Hn. unfold net_setType. wp_read Hn. rewrite wp_bind, wp_gets.
  refine (wp_for_each (set_type type) (fun visited s' => conn_wf s' /\ str s' = str s /\ net_ s' = net_ s /\ orderIDs s' = orderIDs s /\
    forall y, netTypes s' !! y = if decide (y ∈ visited) then Some type else netTypes s !! y) _ s E _ _).
  { split_and!; [done..|]. intros y. by rewrite decide_False by apply not_elem_of_nil. }
  intros visited x rest s' _ ([K A P] & Es & En & Eo & Ht). unfold set_type. rewrite wp_modify.
  split_and!; [by split|done..|]. intros y. ct_simpl. destruct (decide (y = x)) as [->|Hne].
  - by rewrite lookup_insert_eq, decide_True by set_solver.
  - rewrite lookup_insert_ne, Ht by done. destruct (decide (y ∈ visited)); [by rewrite decide_True by set_solver|].
    rewrite decide_False; [done|]. set_solver.
Qed.
End steps.
