(* ===== verification/Interface.v ===== *)
(** The terminals of designs, the instances of designs and the terminals of
    instances: their operations (nl/netlist/snl/SNLDesign.cpp, SNLScalarTerm.cpp,
    SNLBusTerm.cpp, SNLBusTermBit.cpp, SNLInstance.cpp, SNLInstTerm.cpp). *)
From S2P Require Import Prelude NLID Store Bus Contents Connections DesignNets.
Local Open Scope Z_scope.

(** * Terminals of instances *)

Definition set_slots (slots : list (option loc)) (inst : SNLInstance) : SNLInstance :=
  mkHeader (h_design inst) (h_id inst) (h_name inst) (mkInst (model_ (h_extra inst)) slots).

(** [createInstTerm] appends; [removeInstTerm] goes by the flat identifier. *)
Definition createInstTerm (i x : loc) : prog netlist unit :=
  it ← new_instTerm (mkInstTerm i x); inst ← the_instance i;
  put_instance i (set_slots (instTerms_ (h_extra inst) ++ [Some it]) inst).
Definition instTerm_destroyFromInstance (it : loc) : prog netlist unit := setNet it None ;; delete_instTerm it.
Definition removeInstTerm (i x : loc) : prog netlist unit :=
  inst ← the_instance i; o ← deref (fun s => object_header (termHeap (str s)) x);
  lift (defined (bool_decide (h_design o = model_ (h_extra inst)))) ;;
  f ← deref (fun s => getFlatID (termHeap (str s)) x);
  lift (defined (f <? length (instTerms_ (h_extra inst)))%nat) ;;
  (match getBitAtPosition (instTerms_ (h_extra inst)) f with
   | Some it => instTerm_destroyFromInstance it
   | None => mret tt
   end) ;;
  inst' ← the_instance i; put_instance i (set_slots (<[f:=None]> (instTerms_ (h_extra inst'))) inst').

Definition getInstTerm (i : loc) (bitTerm : option loc) : prog netlist (option loc) :=
  match bitTerm with
  | None => throw "SNLInstance::getInsTerm error: bitTerm arg is null"
  | Some x =>
      inst ← the_instance i; o ← deref (fun s => object_header (termHeap (str s)) x);
      check (bool_decide (h_design o = model_ (h_extra inst))) "SNLInstance::getInsTerm incoherency" ;;
      f ← deref (fun s => getFlatID (termHeap (str s)) x);
      lift (defined (f <? length (instTerms_ (h_extra inst)))%nat) ;;
      mret (getBitAtPosition (instTerms_ (h_extra inst)) f)
  end.

(** * Terminals of designs *)

(** [setOrderIDs] numbers the bit terminals with a 32-bit counter. *)
Fixpoint number (i : Z) (xs : list loc) (m : gmap loc Z) : gmap loc Z :=
  match xs with [] => m | x :: xs => number ((i + 1) mod 2 ^ 32) xs (<[x:=i]> m) end.
Definition setOrderIDs (d : loc) : prog netlist unit :=
  modify (fun s => set_orders (number 0 (getBitTerms (str s) d) (orderIDs s)) s).

Definition term_getWidth (v : SNLTerm) : outcome Z :=
  match v with Bus _ msb lsb _ => getWidth msb lsb | _ => Ret 1 end.
Definition set_flatID (f : nat) (o : header term_fields) : header term_fields :=
  mkHeader (h_design o) (h_id o) (h_name o) (mkTerm f (direction_ (h_extra o))).

(** After the terminal with the greatest identifier. *)
Definition next_flatID (r : registry loc) : prog netlist nat :=
  match last_key (objects r) with
  | None => mret 0%nat
  | Some k =>
      l ← deref (fun _ => objects r !! k); v ← the_term l; o ← deref (fun _ => header_of v);
      w ← lift (term_getWidth v); mret (flatID_ (h_extra o) + Z.to_nat w)%nat
  end.

Definition addTerm (d x : loc) : prog netlist unit :=
  v ← the_term x; o ← deref (fun _ => header_of v); r ← deref (fun s => terms_ (str s) !! d);
  f ← next_flatID r;
  put_term x (set_header (set_flatID f o) v) ;;
  change (fun t => set_terms_ (<[d:=add_object (h_id o) (h_name o) x r]> (terms_ t)) t) ;;
  t ← gets str;
  for_each (fun i => for_each (createInstTerm i) (getBits (termHeap t) x)) (getSlaveInstances t d) ;;
  setOrderIDs d.
Definition addTermAndSetID (d x : loc) : prog netlist unit :=
  v ← the_term x; o ← deref (fun _ => header_of v); r ← deref (fun s => terms_ (str s) !! d);
  put_term x (set_header (mkHeader (h_design o) (next_id 32 (objects r)) (h_name o) (h_extra o)) v) ;; addTerm d x.
Definition removeTerm (d x : loc) : prog netlist unit :=
  v ← the_term x; o ← deref (fun _ => header_of v); t ← gets str;
  for_each (fun i => for_each (removeInstTerm i) (getBits (termHeap t) x)) (getSlaveInstances t d) ;;
  r ← deref (fun s => terms_ (str s) !! d);
  change (fun t => set_terms_ (<[d:=remove_object (h_id o) (h_name o) r]> (terms_ t)) t) ;;
  setOrderIDs d.

Definition term_preCreate (d : loc) (name : Z) : prog netlist unit :=
  r ← deref (fun s => terms_ (str s) !! d);
  check (is_empty_name name || is_none (find_by_name name r)) "a terminal with this name already exists".
Definition term_preCreate_id (d : loc) (id name : Z) : prog netlist unit :=
  term_preCreate d name ;;
  r ← deref (fun s => terms_ (str s) !! d);
  check (is_none (find_by_id id r)) "a terminal with this id already exists".

Definition scalarTerm_create (d : loc) (dir : direction) (name : Z) : prog netlist loc :=
  term_preCreate d name ;;
  x ← new_term (Scalar (mkHeader d 0 name (mkTerm 0 dir))); addTermAndSetID d x ;; mret x.
Definition scalarTerm_create_id (d : loc) (id : Z) (dir : direction) (name : Z) : prog netlist loc :=
  term_preCreate_id d id name ;;
  x ← new_term (Scalar (mkHeader d id name (mkTerm 0 dir))); addTerm d x ;; mret x.

(** [SNLBusTerm::createBits] comes before the terminal enters its design. *)
Definition createTermBits (b : loc) : prog netlist unit :=
  v ← the_term b;
  match v with
  | Bus o msb lsb _ =>
      w ← lift (getWidth msb lsb);
      t ← gets str;
      let '(bits, h, n) := createBits b msb lsb 0 (Z.to_nat w) (termHeap t) (next t) in
      change (fun t => set_next n (set_termHeap h t)) ;; put_term b (Bus o msb lsb bits)
  | _ => undef
  end.
Definition busTerm_create (d : loc) (dir : direction) (msb lsb name : Z) : prog netlist loc :=
  term_preCreate d name ;;
  b ← new_term (Bus (mkHeader d 0 name (mkTerm 0 dir)) msb lsb []);
  createTermBits b ;; addTermAndSetID d b ;; mret b.
Definition busTerm_create_id (d : loc) (id : Z) (dir : direction) (msb lsb name : Z) : prog netlist loc :=
  term_preCreate_id d id name ;;
  b ← new_term (Bus (mkHeader d id name (mkTerm 0 dir)) msb lsb []);
  createTermBits b ;; addTerm d b ;; mret b.

(** [delete] of a bit terminal, with its fields. *)
Definition delete_bitTerm (x : loc) : prog netlist unit :=
  delete_term x ;; modify (fun s => set_orders (delete x (orderIDs s)) s).
(** [SNLBusTermBit::destroyFromBus] *)
Definition termBit_destroyFromBus (x : loc) : prog netlist unit := setNet x None ;; delete_bitTerm x.
(** [SNLBusTerm::removeBit] *)
Definition busTerm_removeBit (b x : loc) (bit : Z) : prog netlist unit :=
  v ← the_term b;
  match v with
  | Bus o msb lsb bits =>
      put_term b (Bus o msb lsb (<[bit_position bit msb:=None]> bits)) ;;
      t ← gets str;
      for_each (fun i => removeInstTerm i x) (getSlaveInstances t (h_design o)) ;;
      setOrderIDs (h_design o)
  | _ => undef
  end.

(** [SNLTerm::destroy], of scalars, buses and bits; destroying a bus first
    disconnects all its bits. *)
Definition term_destroy (x : loc) : prog netlist unit :=
  v ← the_term x;
  match v with
  | Scalar o => setNet x None ;; removeTerm (h_design o) x ;; delete_bitTerm x
  | Bus o msb lsb bits =>
      removeTerm (h_design o) x ;;
      for_each (fun y => setNet y None) (getBusBits bits) ;;
      for_each termBit_destroyFromBus (getBusBits bits) ;; delete_term x
  | Bit b bit => setNet x None ;; busTerm_removeBit b x bit ;; delete_bitTerm x
  end.

Definition term_setName (x : loc) (name : Z) : prog netlist unit :=
  v ← the_term x;
  match header_of v with
  | None => throw "Unauthorized setName of SNLBusTermBit"
  | Some o =>
      if h_name o =? name then mret tt
      else
        r ← deref (fun s => terms_ (str s) !! h_design o);
        check (is_empty_name name || is_none (find_by_name name r)) "cannot rename, another term has already this name" ;;
        put_term x (set_header (mkHeader (h_design o) (h_id o) name (h_extra o)) v) ;;
        r' ← deref (fun _ => rename_object (h_id o) name (h_name o) r);
        change (fun t => set_terms_ (<[h_design o:=r']> (terms_ t)) t)
  end.

(** * Narrowing a bus terminal *)

(** The bits to remove must be unconnected, or alone on a constant net. *)
Definition check_removable (bit : option loc) : prog netlist unit :=
  match bit with
  | None => undef
  | Some x =>
      s ← gets (fun s => s);
      match net_ s !! x with
      | None => mret tt
      | Some n =>
          check (net_isConstant s n) "bit is connected to a non-constant net" ;;
          check (forallb (fun c => is_none (instTermHeap (str s) !! c)) (getComponents s n)) "net is connected to instances"
      end
  end.
(** Then no instance terminal of theirs may be connected. *)
Definition check_instTerm (i : loc) (bit : option loc) : prog netlist unit :=
  instTerm ← getInstTerm i bit;
  match instTerm with
  | None => mret tt
  | Some it => net ← gets (fun s => net_ s !! it); check (is_none net) "instTerm is connected"
  end.
Definition remove_instTerm_bit (i : loc) (bit : option loc) : prog netlist unit :=
  match bit with None => undef | Some x => removeInstTerm i x end.
Definition termBit_remove (bit : option loc) : prog netlist unit :=
  match bit with None => undef | Some x => setNet x None ;; termBit_destroyFromBus x end.

(** [setMSB] moves the slots of the bits that stay down to the bus's first
    flat identifier. *)
Definition move_slot (removeCount : nat) (slots : list (option loc)) (from : nat) : list (option loc) :=
  <[from:=None]> (<[(from - removeCount)%nat:=getBitAtPosition slots from]> slots).
Definition shift_slots (base oldWidth removeCount : nat) (i : loc) : prog netlist unit :=
  inst ← the_instance i;
  lift (defined (bool_decide (base + oldWidth <= length (instTerms_ (h_extra inst)))%nat)) ;;
  put_instance i (set_slots (foldl (move_slot removeCount) (instTerms_ (h_extra inst))
    (seq (base + removeCount) (oldWidth - removeCount))) inst).

Definition busTerm_narrow (removedBits : list (option loc)) (d : loc) (shift : loc -> prog netlist unit) : prog netlist unit :=
  for_each check_removable removedBits ;;
  t ← gets str;
  for_each (fun i => for_each (check_instTerm i) removedBits) (getSlaveInstances t d) ;;
  for_each (fun i => for_each (remove_instTerm_bit i) removedBits ;; shift i) (getSlaveInstances t d) ;;
  for_each termBit_remove removedBits.
Definition busTerm_setMSB (b : loc) (msb' : Z) : prog netlist unit :=
  v ← the_term b;
  match v with
  | Bus o msb lsb bits =>
      if msb' =? msb then mret tt
      else
        check (isBetween msb' msb lsb) "setMSB error: cannot be resized" ;;
        let removeCount := Z.to_nat (Z.abs (msb - msb')) in
        busTerm_narrow (take removeCount bits) (h_design o)
          (shift_slots (flatID_ (h_extra o)) (length bits) removeCount) ;;
        put_term b (Bus o msb' lsb (drop removeCount bits)) ;;
        setOrderIDs (h_design o)
  | _ => undef
  end.
Definition busTerm_setLSB (b : loc) (lsb' : Z) : prog netlist unit :=
  v ← the_term b;
  match v with
  | Bus o msb lsb bits =>
      if lsb' =? lsb then mret tt
      else
        check (isBetween lsb' msb lsb) "setLSB error: cannot be resized" ;;
        let eraseBegin := (length bits - Z.to_nat (Z.abs (lsb - lsb')))%nat in
        busTerm_narrow (drop eraseBegin bits) (h_design o) (fun _ => mret tt) ;;
        put_term b (Bus o msb lsb' (take eraseBegin bits)) ;;
        setOrderIDs (h_design o)
  | _ => undef
  end.

(** * Instances *)

Definition addInstance (d i : loc) : prog netlist unit :=
  inst ← the_instance i; r ← deref (fun s => instances_ (str s) !! d);
  change (fun t => set_instances_ (<[d:=add_object (h_id inst) (h_name inst) i r]> (instances_ t)) t).
Definition addInstanceAndSetID (d i : loc) : prog netlist unit :=
  inst ← the_instance i; r ← deref (fun s => instances_ (str s) !! d);
  put_instance i (mkHeader (h_design inst) (next_id 32 (objects r)) (h_name inst) (h_extra inst)) ;; addInstance d i.
Definition removeInstance (d i : loc) : prog netlist unit :=
  inst ← the_instance i; r ← deref (fun s => instances_ (str s) !! d);
  change (fun t => set_instances_ (<[d:=remove_object (h_id inst) (h_name inst) r]> (instances_ t)) t).

(** The set of a model's instances is ordered by their identifiers. *)
Definition slaves (t : structure) (m : loc) : gmap NLID loc := default ∅ (slaveInstances_ t !! m).
Definition addSlaveInstance (m i : loc) : prog netlist unit :=
  inst ← the_instance i; k ← deref (fun s => instance_getNLID (str s) inst);
  change (fun t => set_slaves (<[m:=ordered_insert k i (slaves t m)]> (slaveInstances_ t)) t).
Definition removeSlaveInstance (m i : loc) : prog netlist unit :=
  inst ← the_instance i; k ← deref (fun s => instance_getNLID (str s) inst);
  change (fun t => set_slaves (<[m:=delete k (slaves t m)]> (slaveInstances_ t)) t).

Definition instance_preCreate (d m : loc) (name : Z) : prog netlist unit :=
  D ← deref (fun s => designs (str s) !! d); _ ← deref (fun s => designs (str s) !! m);
  check (negb (primitive_ D)) "Cannot create SNLInstance in primitive design" ;;
  r ← deref (fun s => instances_ (str s) !! d);
  check (is_empty_name name || is_none (find_by_name name r)) "contains already a SNLInstance named".
Definition instance_preCreate_id (d m : loc) (id name : Z) : prog netlist unit :=
  instance_preCreate d m name ;;
  r ← deref (fun s => instances_ (str s) !! d);
  check (is_none (find_by_id id r)) "contains already a SNLInstance with id".
Definition instance_commonPostCreate (i : loc) : prog netlist unit :=
  inst ← the_instance i;
  let m := model_ (h_extra inst) in
  M ← deref (fun s => designs (str s) !! m);
  (if primitive_ M then mret tt else addSlaveInstance m i) ;;
  t ← gets str; for_each (createInstTerm i) (getBitTerms t m).
Definition instance_create (d m : loc) (name : Z) : prog netlist loc :=
  instance_preCreate d m name ;;
  i ← new_instance (mkHeader d 0 name (mkInst m []));
  addInstanceAndSetID d i ;; instance_commonPostCreate i ;; mret i.
Definition instance_create_id (d m : loc) (id name : Z) : prog netlist loc :=
  instance_preCreate_id d m id name ;;
  i ← new_instance (mkHeader d id name (mkInst m []));
  addInstance d i ;; instance_commonPostCreate i ;; mret i.

(** [SNLInstance::preDestroy]; truth-table caches and shared paths are not part
    of the state. *)
Definition destroy_slot (slot : option loc) : prog netlist unit :=
  match slot with None => mret tt | Some it => instTerm_destroyFromInstance it end.
Definition instance_destroy (i : loc) : prog netlist unit :=
  inst ← the_instance i;
  let m := model_ (h_extra inst) in
  M ← deref (fun s => designs (str s) !! m);
  (if primitive_ M then mret tt else removeSlaveInstance m i) ;;
  removeInstance (h_design inst) i ;;
  for_each destroy_slot (instTerms_ (h_extra inst)) ;; delete_instance i.

Definition instance_setName (i : loc) (name : Z) : prog netlist unit :=
  inst ← the_instance i;
  if h_name inst =? name then mret tt
  else
    r ← deref (fun s => instances_ (str s) !! h_design inst);
    check (is_empty_name name || is_none (find_by_name name r)) "cannot rename, another instance has already this name" ;;
    put_instance i (mkHeader (h_design inst) (h_id inst) name (h_extra inst)) ;;
    r' ← deref (fun _ => rename_object (h_id inst) name (h_name inst) r);
    change (fun t => set_instances_ (<[h_design inst:=r']> (instances_ t)) t).
