(* ===== verification/InterfaceSteps.v ===== *)
(** The terminals of instances come and go: [createInstTerm] and
    [removeInstTerm] keep the invariant but for the bits under way. *)
From S2P Require Import Prelude NLID Store Bus Contents Connections DesignNets Interface.
Local Open Scope Z_scope.

(** * Connections under changes of structure *)

(** Components that are connected stay what they are. *)
Lemma conn_wf_struct X s t :
  conn_wf s -> struct_wf_except X t -> netHeap t = netHeap (str s) ->
  (forall c n, net_ s !! c = Some n -> is_component (str s) c ->
     comp_design t c = comp_design (str s) c /\ comp_getNLID t c = comp_getNLID (str s) c /\ is_component t c) ->
  conn_wf (set_str t s).
Proof.
  intros C W Hnets Hsame. split.
  - exact (component_key W).
  - intros c n Hc. destruct (cw_alive _ C _ _ Hc) as (d & k & Hd & Hk & Hn & Hb & Hcomp).
    destruct (Hsame c n Hc Hcomp) as (E1 & E2 & E3). exists d, k. unfold net_design, is_bitNet in *. cbn.
    rewrite E1, E2, Hnets. done.
  - intros n k c. change (components (set_str t s) n) with (components s n). rewrite (cw_components _ C). cbn.
    split; intros [Hc Hk]; destruct (cw_alive _ C _ _ Hc) as (? & ? & _ & _ & _ & _ & Hcomp);
      destruct (Hsame c n Hc Hcomp) as (_ & E2 & _); (split; [done|congruence]).
Qed.

(** Flat identifiers, designs and bits only depend on the terminals. *)
Lemma bit_term_same t t' x d : termHeap t' = termHeap t -> bit_term_of t' x d <-> bit_term_of t x d.
Proof. intros E. unfold bit_term_of. by rewrite E. Qed.

Definition with_instTerms (hi : gmap loc SNLInstance) (ht : gmap loc SNLInstTerm) (n : loc) (t : structure) : structure :=
  mkStructure (designs t) (terms_ t) (nets_ t) (instances_ t) (slaveInstances_ t) (termHeap t) (netHeap t) hi ht n.

Lemma slot_insert t ht n i inst slots j f :
  instHeap t !! i = Some inst ->
  slot (with_instTerms (<[i:=set_slots slots inst]> (instHeap t)) ht n t) j f =
    if decide (j = i) then getBitAtPosition slots f else slot t j f.
Proof.
  intros Hi. unfold slot. cbn. destruct (decide (j = i)) as [->|Hne]; [by rewrite lookup_insert_eq|].
  by rewrite lookup_insert_ne.
Qed.

(** Instances with other slots are the same otherwise. *)
Lemma set_slots_fields slots (inst : SNLInstance) :
  h_design (set_slots slots inst) = h_design inst /\ h_id (set_slots slots inst) = h_id inst /\
  h_name (set_slots slots inst) = h_name inst /\ model_ (h_extra (set_slots slots inst)) = model_ (h_extra inst).
Proof. done. Qed.

Section slots.
Context {X : loc -> loc -> Prop} {t : structure} (W : struct_wf_except X t).
Context (i : loc) (inst : SNLInstance) (Hi : instHeap t !! i = Some inst).

Lemma instances_wf_slots slots :
  objects_wf (Scalar <$> <[i:=set_slots slots inst]> (instHeap t)) (instances_ t).
Proof.
  assert (Hown : forall d x k n, owns_object (Scalar <$> instHeap t) d x k n <->
    owns_object (Scalar <$> <[i:=set_slots slots inst]> (instHeap t)) d x k n).
  { intros d x k n. unfold owns_object. setoid_rewrite lookup_fmap. destruct (decide (x = i)) as [->|Hne].
    - rewrite lookup_insert_eq, Hi. split; intros (y & o & [= <-] & [= <-] & H); eexists _, _; (split; [done|]; split; [done|exact H]).
    - by rewrite lookup_insert_ne. }
  split.
  - intros d r Hr. eapply represents_ext; [|exact (ow_registry _ _ (sw_instances _ _ W) _ _ Hr)]. intros. apply Hown.
  - intros x y o Hy Ho. destruct (proj2 (Hown (h_design o) x (h_id o) (h_name o)) ltac:(by exists y, o)) as (y' & o' & Hy' & Ho' & <- & _).
    exact (ow_design _ _ (sw_instances _ _ W) _ _ _ Hy' Ho').
  - intros b o m l bs. rewrite lookup_fmap. by destruct (_ !! b).
  - intros b o m l bs j x. rewrite lookup_fmap. by destruct (_ !! b).
  - intros x b bit. rewrite lookup_fmap. by destruct (_ !! x).
Qed.

Lemma instance_NLID_slots hi ht n (J : SNLInstance) : instance_getNLID (with_instTerms hi ht n t) J = instance_getNLID t J.
Proof. done. Qed.

(** Replacing the slots of [i]: the clauses that do not speak of slots. *)
Lemma struct_wf_slots Y slots ht n :
  (next t <= n)%positive -> (forall l, (n <= l)%positive -> ht !! l = None) ->
  (forall c, is_Some (ht !! c) -> is_Some (instTermHeap t !! c) \/ (next t <= c)%positive) ->
  let t' := with_instTerms (<[i:=set_slots slots inst]> (instHeap t)) ht n t in
  (forall j f it, slot t' j f = Some it -> exists x, ht !! it = Some (mkInstTerm j x) /\ getFlatID (termHeap t) x = Some f) ->
  (forall it v, ht !! it = Some v -> exists J f, instHeap t !! instance_ v = Some J /\ slot t' (instance_ v) f = Some it /\
     bit_term_of t (bitTerm_ v) (model_ (h_extra J))) ->
  (forall j J x, instHeap t !! j = Some J -> bit_term_of t x (model_ (h_extra J)) -> ~ Y j x ->
     exists f it, getFlatID (termHeap t) x = Some f /\ slot t' j f = Some it) ->
  struct_wf_except Y t'.
Proof.
  intros Hn Hfresh Hdom t' H1 H2 H3.
  assert (Hlook : forall j J, instHeap t' !! j = Some J -> exists J0, instHeap t !! j = Some J0 /\
    h_design J = h_design J0 /\ h_id J = h_id J0 /\ model_ (h_extra J) = model_ (h_extra J0)).
  { intros j J Hj. change (instHeap t') with (<[i:=set_slots slots inst]> (instHeap t)) in Hj.
    apply lookup_insert_Some in Hj as [[<- <-]|[_ Hj]]; [by exists inst|by exists J]. }
  assert (Hlook' : forall j J0, instHeap t !! j = Some J0 -> exists J, instHeap t' !! j = Some J /\
    h_design J = h_design J0 /\ h_id J = h_id J0 /\ model_ (h_extra J) = model_ (h_extra J0)).
  { intros j J Hj. cbn. destruct (decide (i = j)) as [<-|Hne]; [rewrite lookup_insert_eq|rewrite lookup_insert_ne by done; eauto].
    exists (set_slots slots inst). split; [done|]. rewrite Hi in Hj. by injection Hj as <-. }
  assert (Hkey : forall J J0, h_design J = h_design J0 -> h_id J = h_id J0 -> instance_getNLID t' J = instance_getNLID t J0)
    by (intros J J0 E1 E2; unfold instance_getNLID; cbn; by rewrite E1, E2).
  split; try apply W.
  - apply instances_wf_slots.
  - intros d k j. change (slaveInstances_ t') with (slaveInstances_ t). rewrite (sw_slaves _ _ W). split.
    + intros (J & D & Hj & Hm & HD & Hp & Hk). destruct (Hlook' _ _ Hj) as (J' & Hj' & E1 & E2 & E3).
      exists J', D. rewrite (Hkey J' J) by done. split_and!; [done|congruence|done..].
    + intros (J & D & Hj & Hm & HD & Hp & Hk). destruct (Hlook _ _ Hj) as (J' & Hj' & E1 & E2 & E3).
      exists J', D. rewrite <- (Hkey J J') by done. split_and!; [done|congruence|done..].
  - intros j J Hj. destruct (Hlook _ _ Hj) as (J' & Hj' & E1 & E2 & E3). rewrite E3. by eapply (sw_model _ _ W).
  - exact H1.
  - intros it v Hit. destruct (H2 _ _ Hit) as (J & f & HJ & Hs & Hx). destruct (Hlook' _ _ HJ) as (J' & HJ' & _ & _ & E3).
    exists J', f. rewrite E3. done.
  - intros j J x Hj Hx HY. destruct (Hlook _ _ Hj) as (J' & Hj' & _ & _ & E3). rewrite E3 in Hx. by eapply H3.
  - intros l Hl. cbn in *. destruct (sw_fresh _ _ W l ltac:(lia)) as (F1 & F2 & F3 & F4). split_and!; [done|done| |by apply Hfresh].
    rewrite lookup_insert_ne; [done|]. intros <-. congruence.
  - intros c Hc. apply eq_None_not_Some. intros Hc'. destruct (Hdom c Hc') as [H|H].
    + rewrite (sw_apart _ _ W c Hc) in H. by destruct H.
    + destruct (sw_fresh _ _ W c H) as (F1 & _). change (termHeap t') with (termHeap t) in Hc. rewrite F1 in Hc. by destruct Hc.
Qed.

Lemma slot_here f : slot t i f = getBitAtPosition (instTerms_ (h_extra inst)) f.
Proof. unfold slot. by rewrite Hi. Qed.

(** ** Adding an instance terminal at the end *)

Lemma struct_wf_append x :
  bit_term_of t x (model_ (h_extra inst)) -> getFlatID (termHeap t) x = Some (length (instTerms_ (h_extra inst))) ->
  let it := next t in
  struct_wf_except (fun j y => X j y /\ ~ (j = i /\ y = x))
    (with_instTerms (<[i:=set_slots (instTerms_ (h_extra inst) ++ [Some it]) inst]> (instHeap t))
       (<[it:=mkInstTerm i x]> (instTermHeap t)) (Pos.succ it) t).
Proof.
  intros Hx Hf it. set (slots := instTerms_ (h_extra inst)) in *.
  assert (Hnew : instTermHeap t !! it = None) by (apply (sw_fresh _ _ W); lia).
  assert (Happ : forall f, getBitAtPosition (slots ++ [Some it]) f = if decide (f = length slots) then Some it else slot t i f).
  { intros f. rewrite slot_here. unfold getBitAtPosition. fold slots. destruct (decide (f = length slots)) as [->|Hne].
    - by rewrite lookup_app_r, Nat.sub_diag by done.
    - destruct (Nat.lt_ge_cases f (length slots)) as [Hlt|Hge]; [by rewrite lookup_app_l by done|].
      rewrite (lookup_ge_None_2 slots f Hge), lookup_app_r by done. by destruct (f - length slots)%nat as [|[]] eqn:E1; [lia|..]. }
  assert (Hslot : forall j f, slot (with_instTerms (<[i:=set_slots (slots ++ [Some it]) inst]> (instHeap t))
      (<[it:=mkInstTerm i x]> (instTermHeap t)) (Pos.succ it) t) j f =
      if decide (j = i /\ f = length slots) then Some it else slot t j f).
  { intros j f. rewrite (slot_insert t _ _ i inst _ j f Hi). destruct (decide (j = i)) as [->|Hne].
    - rewrite Happ. destruct (decide (f = length slots)); [rewrite decide_True by done|rewrite decide_False by tauto]; done.
    - by rewrite decide_False by tauto. }
  assert (Hold : forall j f y, slot t j f = Some y -> y <> it).
  { intros j f y Hy ->. destruct (sw_slots _ _ W _ _ _ Hy) as (? & H & _). congruence. }
  assert (Hfree : slot t i (length slots) = None).
  { rewrite slot_here. fold slots. unfold getBitAtPosition. by rewrite lookup_ge_None_2. }
  apply struct_wf_slots; [lia| | | | |].
  - intros l Hl. rewrite lookup_insert_ne by lia. apply (sw_fresh _ _ W). lia.
  - intros c [<-|Hc]%lookup_insert_is_Some'; [right; lia|by left].
  - intros j f y. rewrite Hslot. destruct (decide (j = i /\ f = length slots)) as [[-> ->]|_].
    + intros [= <-]. exists x. by rewrite lookup_insert_eq.
    + intros Hy. destruct (sw_slots _ _ W _ _ _ Hy) as (z & Hz & Hfz). exists z.
      rewrite lookup_insert_ne; [done|]. intros E. by destruct (Hold _ _ _ Hy).
  - intros y v [[<- <-]|[Hne Hv]]%lookup_insert_Some.
    + exists inst, (length slots). cbn -[slot]. split; [done|]. rewrite Hslot, decide_True by done. done.
    + destruct (sw_instTerm _ _ W _ _ Hv) as (J & f & HJ & Hs & Hb). exists J, f. split; [done|]. split; [|done].
      rewrite Hslot, decide_False; [done|]. intros [E1 E2]. rewrite E1, E2, Hfree in Hs. done.
  - intros j J y Hj Hy HX. destruct (decide (j = i /\ y = x)) as [[-> ->]|Hne].
    + exists (length slots), it. by rewrite Hslot, decide_True.
    + destruct (sw_complete _ _ W j J y Hj Hy ltac:(tauto)) as (f & z & Hfz & Hs). exists f, z. split; [done|].
      rewrite Hslot, decide_False; [done|]. intros [E1 E2]. rewrite E1, E2, Hfree in Hs. done.
Qed.

(** ** Removing one *)

Lemma struct_wf_remove x f it :
  bit_term_of t x (model_ (h_extra inst)) -> getFlatID (termHeap t) x = Some f -> slot t i f = Some it ->
  struct_wf_except (fun j y => X j y \/ (j = i /\ y = x))
    (with_instTerms (<[i:=set_slots (<[f:=None]> (instTerms_ (h_extra inst))) inst]> (instHeap t))
       (delete it (instTermHeap t)) (next t) t).
Proof.
  intros Hx Hf Hs. pose proof (slot_bit W _ _ _ _ _ Hi Hx Hf Hs) as Hit.
  assert (Hslot : forall j g, slot (with_instTerms (<[i:=set_slots (<[f:=None]> (instTerms_ (h_extra inst))) inst]> (instHeap t))
       (delete it (instTermHeap t)) (next t) t) j g = if decide (j = i /\ g = f) then None else slot t j g).
  { intros j g. rewrite (slot_insert t _ _ i inst _ j g Hi). destruct (decide (j = i)) as [->|Hne]; [|by rewrite decide_False by tauto].
    rewrite !slot_here. unfold getBitAtPosition. destruct (decide (g = f)) as [->|Hgf].
    - rewrite decide_True by done. destruct (decide (f < length (instTerms_ (h_extra inst)))%nat).
      + by rewrite list_lookup_insert_eq.
      + by rewrite list_insert_ge, lookup_ge_None_2 by lia.
    - rewrite decide_False by tauto. by rewrite list_lookup_insert_ne. }
  assert (Huniq : forall j g y, slot t j g = Some y -> y = it -> j = i /\ g = f).
  { intros j g y Hy ->. destruct (sw_slots _ _ W _ _ _ Hy) as (z & Hz & Hg). rewrite Hit in Hz. injection Hz as <- <-.
    split; congruence. }
  apply struct_wf_slots; [lia| | | | |].
  - intros l Hl. rewrite lookup_delete_None. right. by apply (sw_fresh _ _ W).
  - intros c [v [_ Hv]%lookup_delete_Some]. left. by eexists.
  - intros j g y. rewrite Hslot. destruct (decide (j = i /\ g = f)) as [|Hne]; [done|]. intros Hy.
    destruct (sw_slots _ _ W _ _ _ Hy) as (z & Hz & Hg). exists z. rewrite lookup_delete_ne; [done|].
    intros <-. by destruct Hne; eapply Huniq.
  - intros y v [Hne Hv]%lookup_delete_Some. destruct (sw_instTerm _ _ W _ _ Hv) as (J & g & HJ & Hsv & Hb).
    exists J, g. split; [done|]. split; [|done]. rewrite Hslot, decide_False; [done|]. intros [E1 E2].
    rewrite E1, E2 in Hsv. congruence.
  - intros j J y Hj Hy HX. destruct (sw_complete _ _ W j J y Hj Hy ltac:(tauto)) as (g & z & Hg & Hz).
    exists g, z. split; [done|]. rewrite Hslot, decide_False; [done|]. intros [-> ->]. apply HX. right. split; [done|].
    assert (J = inst) as -> by congruence. exact (flatID_unique W _ _ _ _ Hy Hx Hg Hf).
Qed.
End slots.

(** * Running them *)

(** Components other than the one created or removed. *)
Lemma comp_same_slots t i inst slots ht n c :
  instHeap t !! i = Some inst -> ht !! c = instTermHeap t !! c ->
  let t' := with_instTerms (<[i:=set_slots slots inst]> (instHeap t)) ht n t in
  comp_design t' c = comp_design t c /\ comp_getNLID t' c = comp_getNLID t c.
Proof.
  intros Hi Hc t'. unfold comp_design, comp_getNLID, instTerm_getNLID, term_getNLID. cbn. rewrite Hc.
  destruct (instTermHeap t !! c) as [[j x]|]; [|done]. cbn. destruct (decide (i = j)) as [<-|Hne].
  - by rewrite lookup_insert_eq, Hi.
  - by rewrite lookup_insert_ne.
Qed.

(** Only the slots of instances differ. *)
Definition same_instances (h h' : gmap loc SNLInstance) : Prop :=
  forall j, match h !! j with
            | Some J => exists slots, h' !! j = Some (set_slots slots J)
            | None => h' !! j = None
            end.
Lemma set_slots_twice l l' inst : set_slots l (set_slots l' inst) = set_slots l inst.
Proof. done. Qed.
Lemma same_instances_refl h : same_instances h h.
Proof. intros j. destruct (h !! j) as [[? ? ? [? l]]|] eqn:E; [by exists l|done]. Qed.
Lemma same_instances_trans h1 h2 h3 : same_instances h1 h2 -> same_instances h2 h3 -> same_instances h1 h3.
Proof.
  intros H1 H2 j. specialize (H1 j). specialize (H2 j). destruct (h1 !! j) as [J|].
  - destruct H1 as [l E1]. rewrite E1 in H2. destruct H2 as [l' E2]. exists l'. by rewrite E2.
  - by rewrite H1 in H2.
Qed.
Lemma same_instances_insert h i inst l : h !! i = Some inst -> same_instances h (<[i:=set_slots l inst]> h).
Proof.
  intros Hi j. destruct (decide (i = j)) as [<-|Hne]; [rewrite Hi, lookup_insert_eq; by exists l|].
  rewrite lookup_insert_ne by done. apply same_instances_refl.
Qed.
Lemma same_instances_lookup h h' j J : same_instances h h' -> h !! j = Some J -> exists l, h' !! j = Some (set_slots l J).
Proof. intros H Hj. specialize (H j). by rewrite Hj in H. Qed.

(** ** Creation *)

(** Instance terminals were added, nothing else changed. *)
Definition plugged (s s' : netlist) : Prop :=
  exists hi ht n, s' = set_str (with_instTerms hi ht n (str s)) s /\ same_instances (instHeap (str s)) hi /\
    (next (str s) <= n)%positive /\ (forall c v, instTermHeap (str s) !! c = Some v -> ht !! c = Some v).
Lemma plugged_refl s : plugged s s.
Proof.
  exists (instHeap (str s)), (instTermHeap (str s)), (next (str s)). split; [by destruct s as [[]]|].
  split; [apply same_instances_refl|]. split; [lia|done].
Qed.
Lemma plugged_trans s s1 s2 : plugged s s1 -> plugged s1 s2 -> plugged s s2.
Proof.
  intros (hi & ht & n & -> & Hi & Hn & Ht) (hi' & ht' & n' & -> & Hi' & Hn' & Ht'). cbn in *.
  exists hi', ht', n'. split; [done|]. split; [by eapply same_instances_trans|]. split; [lia|auto].
Qed.

Section create.
Context {X : loc -> loc -> Prop}.

Lemma createInstTerm_ok s i inst x E :
  struct_wf_except X (str s) -> conn_wf s -> instHeap (str s) !! i = Some inst ->
  bit_term_of (str s) x (model_ (h_extra inst)) ->
  getFlatID (termHeap (str s)) x = Some (length (instTerms_ (h_extra inst))) ->
  wp (createInstTerm i x) s (fun _ s' => struct_wf_except (fun j y => X j y /\ ~ (j = i /\ y = x)) (str s') /\ conn_wf s' /\
    plugged s s' /\ instHeap (str s') =
      <[i:=set_slots (instTerms_ (h_extra inst) ++ [Some (next (str s))]) inst]> (instHeap (str s))) E.
Proof.
  intros W C Hi Hx Hf. unfold createInstTerm. ct_run.
  pose proof (struct_wf_append W i inst Hi x Hx Hf) as W'. cbn in W'.
  split; [exact W'|]. split; [|split; [|done]].
  - refine (conn_wf_struct _ s _ C W' eq_refl _). intros c n _ Hc.
    assert (Hne : c <> next (str s)).
    { intros ->. destruct (sw_fresh _ _ W (next (str s)) ltac:(lia)) as (F1 & _ & _ & F4).
      destruct Hc as [[v Hv]|[b Hb]]; [congruence|]. unfold is_bit in Hb. by rewrite F1 in Hb. }
    assert (Hlook : <[next (str s):=mkInstTerm i x]> (instTermHeap (str s)) !! c = instTermHeap (str s) !! c) by by rewrite lookup_insert_ne.
    destruct (comp_same_slots (str s) i inst (instTerms_ (h_extra inst) ++ [Some (next (str s))]) _ (Pos.succ (next (str s))) c Hi Hlook) as [E1 E2].
    split; [exact E1|]. split; [exact E2|]. unfold is_component. cbn. by rewrite Hlook.
  - exists (<[i:=set_slots (instTerms_ (h_extra inst) ++ [Some (next (str s))]) inst]> (instHeap (str s))),
      (<[next (str s):=mkInstTerm i x]> (instTermHeap (str s))), (Pos.succ (next (str s))). split; [reflexivity|]. split; [by apply same_instances_insert|]. split; [lia|].
    intros c v Hv. rewrite lookup_insert_ne; [done|]. intros <-. destruct (sw_fresh _ _ W (next (str s)) ltac:(lia)) as (_ & _ & _ & F4). congruence.
Qed.
End create.

(** The bits [xs] get the slots that follow the last. *)
Lemma createInstTerms_ok X s i inst xs E :
  struct_wf_except X (str s) -> conn_wf s -> instHeap (str s) !! i = Some inst ->
  (forall (k : nat) x, xs !! k = Some x -> bit_term_of (str s) x (model_ (h_extra inst)) /\
     getFlatID (termHeap (str s)) x = Some (length (instTerms_ (h_extra inst)) + k)%nat) ->
  wp (for_each (createInstTerm i) xs) s (fun _ s' => struct_wf_except (fun j y => X j y /\ ~ (j = i /\ y ∈ xs)) (str s') /\ conn_wf s' /\
    plugged s s' /\ exists slots, instHeap (str s') = <[i:=set_slots slots inst]> (instHeap (str s)) /\
      length slots = (length (instTerms_ (h_extra inst)) + length xs)%nat) E.
Proof.
  intros W C Hi Hxs.
  refine (wp_for_each (createInstTerm i) (fun visited s' => struct_wf_except (fun j y => X j y /\ ~ (j = i /\ y ∈ visited)) (str s') /\
    conn_wf s' /\ plugged s s' /\ exists slots, instHeap (str s') = <[i:=set_slots slots inst]> (instHeap (str s)) /\
      length slots = (length (instTerms_ (h_extra inst)) + length visited)%nat) _ s E _ _).
  - split_and!; [|done|apply plugged_refl|].
    + eapply struct_wf_weaken; [|exact W]. intros j y HX. split; [done|]. intros [_ H]. by apply not_elem_of_nil in H.
    + exists (instTerms_ (h_extra inst)). split; [|cbn; lia]. rewrite insert_id; [done|]. rewrite Hi. by destruct inst as [? ? ? []].
  - intros visited x rest s1 Hl (W1 & C1 & P1 & slots & Hslots & Hlen).
    assert (Hi1 : instHeap (str s1) !! i = Some (set_slots slots inst)) by by rewrite Hslots, lookup_insert_eq.
    destruct (Hxs (length visited) x) as [Hx Hf]; [by rewrite Hl, list_lookup_middle|].
    assert (Et : termHeap (str s1) = termHeap (str s)) by (destruct P1 as (hi & ht & n & -> & _); done).
    eapply wp_mono; [apply (createInstTerm_ok s1 i (set_slots slots inst) x E W1 C1 Hi1)| |done].
    + apply (bit_term_same _ _ _ _ Et). exact Hx.
    + rewrite Et. cbn. by rewrite Hlen.
    + cbn beta. intros _ s2 (W2 & C2 & P2 & Hi2). split_and!; [|done|by eapply plugged_trans|].
      * eapply struct_wf_weaken; [|exact W2]. intros j y [[HX Hn] Hne]. split; [done|]. rewrite elem_of_app, list_elem_of_singleton. tauto.
      * eexists. rewrite Hi2, Hslots, insert_insert_eq, set_slots_twice. split; [reflexivity|].
        cbn. rewrite !length_app, Hlen. cbn. lia.
Qed.

(** ** Removal *)

(** The instance terminals in [P] are gone, with their connections. *)
Record unplugged (P : loc -> SNLInstTerm -> bool) (s s' : netlist) : Prop := {
  up_str : exists hi ht, str s' = with_instTerms hi ht (next (str s)) (str s) /\ same_instances (instHeap (str s)) hi /\
    forall c, ht !! c = match instTermHeap (str s) !! c with Some v => if P c v then None else Some v | None => None end;
  up_net c : net_ s' !! c = match instTermHeap (str s) !! c with
    | Some v => if P c v then None else net_ s !! c | None => net_ s !! c end;
  up_types : netTypes s' = netTypes s;
  up_orders : orderIDs s' = orderIDs s }.

Lemma unplugged_refl s : unplugged (fun _ _ => false) s s.
Proof.
  split; [|intros c; by destruct (instTermHeap (str s) !! c)|done..]. exists (instHeap (str s)), (instTermHeap (str s)).
  split; [by destruct s as [[]]|]. split; [apply same_instances_refl|]. intros c. by destruct (instTermHeap (str s) !! c).
Qed.
Lemma unplugged_ext P Q s s' : (forall c v, instTermHeap (str s) !! c = Some v -> P c v = Q c v) -> unplugged P s s' -> unplugged Q s s'.
Proof.
  intros H [(hi & ht & E1 & E2 & E3) N T O]. split; [|intros c; rewrite N; destruct (instTermHeap (str s) !! c) eqn:Ec; [by rewrite (H _ _ Ec)|done]|done..].
  exists hi, ht. split_and!; [done..|]. intros c. rewrite E3. destruct (instTermHeap (str s) !! c) eqn:Ec; [by rewrite (H _ _ Ec)|done].
Qed.
Lemma unplugged_trans P Q s s1 s2 : unplugged P s s1 -> unplugged Q s1 s2 -> unplugged (fun c v => P c v || Q c v) s s2.
Proof.
  intros [(hi & ht & E1 & E2 & E3) N T O] [(hi' & ht' & E1' & E2' & E3') N' T' O']. rewrite E1 in *. cbn in *. split; [| |congruence..].
  - exists hi', ht'. split; [done|]. split; [by eapply same_instances_trans|]. intros c. rewrite E3', E3.
    destruct (instTermHeap (str s) !! c) as [v|]; [|done]. by destruct (P c v).
  - intros c. rewrite N', E3, N. destruct (instTermHeap (str s) !! c) as [v|]; [|done]. by destruct (P c v).
Qed.

Definition is_of (i x : loc) (v : SNLInstTerm) : bool := bool_decide (instance_ v = i /\ bitTerm_ v = x).

Section remove.
Context {X : loc -> loc -> Prop}.

(** The components that are left when an instance terminal without net goes. *)
Lemma conn_wf_unplug s it i inst slots x Y :
  struct_wf_except X (str s) -> conn_wf s -> instTermHeap (str s) !! it = Some (mkInstTerm i x) ->
  instHeap (str s) !! i = Some inst -> net_ s !! it = None ->
  let t' := with_instTerms (<[i:=set_slots slots inst]> (instHeap (str s))) (delete it (instTermHeap (str s))) (next (str s)) (str s) in
  struct_wf_except Y t' -> conn_wf (set_str t' s).
Proof.
  intros W C Hit Hi Hnet t' W'. refine (conn_wf_struct Y s t' C W' eq_refl _). intros c n Hc Hcomp.
  assert (c <> it) as Hne by (intros ->; congruence).
  assert (Hlook : delete it (instTermHeap (str s)) !! c = instTermHeap (str s) !! c) by by rewrite lookup_delete_ne.
  destruct (comp_same_slots (str s) i inst slots _ (next (str s)) c Hi Hlook) as [E1 E2].
  split; [exact E1|]. split; [exact E2|]. unfold is_component in *. cbn. by rewrite Hlook.
Qed.

Lemma instTerm_component t it i x inst :
  struct_wf_except X t -> instTermHeap t !! it = Some (mkInstTerm i x) -> instHeap t !! i = Some inst ->
  comp_design t it = Some (h_design inst) /\ is_Some (comp_getNLID t it).
Proof.
  intros W Hit Hi. unfold comp_design, comp_getNLID, instTerm_getNLID. rewrite Hit. cbn. rewrite Hi. split; [done|]. cbn.
  destruct (instance_design W _ _ Hi) as [D ->]. cbn.
  destruct (sw_instTerm _ _ W _ _ Hit) as (J & f & _ & _ & [[b Hb] (o & Ho & _)%fmap_Some]). cbn in *. rewrite Ho. cbn. rewrite Hb. by eexists.
Qed.

Lemma removeInstTerm_ok s i inst x E :
  struct_wf_except X (str s) -> conn_wf s -> instHeap (str s) !! i = Some inst ->
  bit_term_of (str s) x (model_ (h_extra inst)) -> ~ X i x ->
  wp (removeInstTerm i x) s (fun _ s' => struct_wf_except (fun j y => X j y \/ (j = i /\ y = x)) (str s') /\ conn_wf s' /\
    unplugged (fun _ => is_of i x) s s') E.
Proof.
  intros W C Hi Hx HX. destruct (sw_complete _ _ W i inst x Hi Hx HX) as (f & it & Hf & Hs).
  pose proof (slot_bit W _ _ _ _ _ Hi Hx Hf Hs) as Hit.
  destruct (bit_term_header _ _ Hx) as (o & Ho & Hod). rewrite (slot_here i inst Hi) in Hs.
  assert (Hlen : (f < length (instTerms_ (h_extra inst)))%nat) by (apply getBitAtPosition_Some in Hs; by apply lookup_lt_Some in Hs).
  unfold removeInstTerm. wp_read Hi. wp_read Ho. rewrite wp_bind. eapply wp_lift; [by rewrite bool_decide_eq_true_2|].
  wp_read Hf. rewrite wp_bind. eapply wp_lift; [by rewrite (proj2 (Nat.ltb_lt _ _) Hlen)|].
  rewrite wp_bind, Hs. unfold instTerm_destroyFromInstance. rewrite wp_bind.
  destruct (instTerm_component _ _ _ _ _ W Hit Hi) as [Hd [k Hk]].
  eapply wp_mono; [exact (setNet_None_ok s C it _ k Hd Hk E ltac:(left; by eexists))| |done].
  cbn beta. intros _ s1 [C1 R]. pose proof (rw_str _ _ _ R) as Es. unfold delete_instTerm, change. rewrite wp_modify.
  rewrite wp_bind. eapply wp_deref; [rewrite Es; exact Hi|]. unfold put_instance, change. rewrite wp_modify. ct_simpl. rewrite Es. ct_simpl.
  rewrite <- (slot_here i inst Hi) in Hs. pose proof (struct_wf_remove W i inst Hi x f it Hx Hf Hs) as W'.
  assert (Hgone : net_ s1 !! it = None) by (rewrite (rw_net _ _ _ R); by rewrite decide_True).
  split; [exact W'|]. split.
  - rewrite <- Es in W, Hit, Hi, W'. rewrite <- Es. exact (conn_wf_unplug s1 it i inst _ x _ W C1 Hit Hi Hgone W').
  - assert (Hof : forall c v, instTermHeap (str s) !! c = Some v -> is_of i x v = bool_decide (c = it)).
    { intros c v Hv. unfold is_of. apply bool_decide_ext. split; [|intros ->; rewrite Hit in Hv; by injection Hv as <-].
      intros [E1 E2]. destruct v as [i' x']. cbn in *. subst. by eapply (instTerm_unique W). }
    split.
    + exists (<[i:=set_slots (<[f:=None]> (instTerms_ (h_extra inst))) inst]> (instHeap (str s))), (delete it (instTermHeap (str s))).
      split; [reflexivity|]. split; [by apply same_instances_insert|]. intros c.
      destruct (decide (c = it)) as [->|Hne].
      * by rewrite lookup_delete_eq, Hit, (Hof _ _ Hit), bool_decide_eq_true_2.
      * rewrite lookup_delete_ne by done. destruct (instTermHeap (str s) !! c) as [v|] eqn:Ec; [|done].
        by rewrite (Hof _ _ Ec), bool_decide_eq_false_2.
    + intros c. ct_simpl. rewrite (rw_net _ _ _ R). cbn. destruct (decide (c = it)) as [->|Hne].
      * by rewrite Hit, (Hof _ _ Hit), bool_decide_eq_true_2.
      * destruct (instTermHeap (str s) !! c) as [v|] eqn:Ec; [|done]. by rewrite (Hof _ _ Ec), bool_decide_eq_false_2.
    + exact (rw_types _ _ _ R).
    + exact (rw_orders _ _ _ R).
Qed.
End remove.

Definition is_among (i : loc) (xs : list loc) (v : SNLInstTerm) : bool := bool_decide (instance_ v = i /\ bitTerm_ v ∈ xs).

(** The instance terminals of [xs] in one instance. *)
Lemma removeInstTerms_ok X s i inst xs E :
  struct_wf_except X (str s) -> conn_wf s -> instHeap (str s) !! i = Some inst -> NoDup xs ->
  (forall x, x ∈ xs -> bit_term_of (str s) x (model_ (h_extra inst)) /\ ~ X i x) ->
  wp (for_each (removeInstTerm i) xs) s (fun _ s' => struct_wf_except (fun j y => X j y \/ (j = i /\ y ∈ xs)) (str s') /\ conn_wf s' /\
    unplugged (fun _ => is_among i xs) s s') E.
Proof.
  intros W C Hi Hnd Hxs.
  refine (wp_for_each (removeInstTerm i) (fun visited s' => struct_wf_except (fun j y => X j y \/ (j = i /\ y ∈ visited)) (str s') /\
    conn_wf s' /\ unplugged (fun _ => is_among i visited) s s') _ s E _ _).
  - split_and!; [|done|].
    + eapply struct_wf_weaken; [|exact W]. auto.
    + eapply unplugged_ext; [|apply unplugged_refl]. intros c v _. unfold is_among. rewrite bool_decide_eq_false_2; [done|].
      intros [_ H]. by apply not_elem_of_nil in H.
  - intros visited x rest s1 -> (W1 & C1 & P1).
    destruct (up_str _ _ _ P1) as (hi & ht & Es & Hsame & Hht).
    destruct (same_instances_lookup _ _ _ _ Hsame Hi) as [l Hl].
    destruct (Hxs x ltac:(set_solver)) as [Hx HX]. apply NoDup_app in Hnd as (_ & Hdis & _).
    eapply wp_mono; [apply (removeInstTerm_ok s1 i (set_slots l inst) x E W1 C1)| |done].
    + by rewrite Es.
    + rewrite Es. exact Hx.
    + intros [H|[_ H]]; [done|]. by apply (Hdis x H); left.
    + cbn beta. intros _ s2 (W2 & C2 & P2). split_and!; [|done|].
      * eapply struct_wf_weaken; [|exact W2]. intros j y. rewrite elem_of_app, list_elem_of_singleton. tauto.
      * eapply unplugged_ext; [|exact (unplugged_trans _ _ _ _ _ P1 P2)]. intros c v _. unfold is_among, is_of.
        cbn. rewrite <- bool_decide_or. apply bool_decide_ext. rewrite elem_of_app, list_elem_of_singleton. tauto.
Qed.

(** And in several instances. *)
Definition is_in (insts xs : list loc) (v : SNLInstTerm) : bool := bool_decide (instance_ v ∈ insts /\ bitTerm_ v ∈ xs).
Lemma removeInstTerms_all_ok X s insts d xs E :
  struct_wf_except X (str s) -> conn_wf s -> NoDup insts -> NoDup xs ->
  (forall i, i ∈ insts -> exists inst, instHeap (str s) !! i = Some inst /\ model_ (h_extra inst) = d) ->
  (forall i x, i ∈ insts -> x ∈ xs -> bit_term_of (str s) x d /\ ~ X i x) ->
  wp (for_each (fun i => for_each (removeInstTerm i) xs) insts) s
    (fun _ s' => struct_wf_except (fun j y => X j y \/ (j ∈ insts /\ y ∈ xs)) (str s') /\ conn_wf s' /\
      unplugged (fun _ => is_in insts xs) s s') E.
Proof.
  intros W C Hnd Hndx His Hxs.
  refine (wp_for_each _ (fun visited s' => struct_wf_except (fun j y => X j y \/ (j ∈ visited /\ y ∈ xs)) (str s') /\
    conn_wf s' /\ unplugged (fun _ => is_in visited xs) s s') _ s E _ _).
  - split_and!; [|done|].
    + eapply struct_wf_weaken; [|exact W]. auto.
    + eapply unplugged_ext; [|apply unplugged_refl]. intros c v _. unfold is_in. rewrite bool_decide_eq_false_2; [done|].
      intros [H _]. by apply not_elem_of_nil in H.
  - intros visited i rest s1 -> (W1 & C1 & P1).
    destruct (up_str _ _ _ P1) as (hi & ht & Es & Hsame & Hht).
    destruct (His i ltac:(set_solver)) as (inst & Hi & Hm).
    destruct (same_instances_lookup _ _ _ _ Hsame Hi) as [l Hl]. apply NoDup_app in Hnd as (_ & Hdis & _).
    eapply wp_mono; [apply (removeInstTerms_ok _ s1 i (set_slots l inst) xs E W1 C1)| |done].
    + by rewrite Es.
    + done.
    + intros x Hx. destruct (Hxs i x ltac:(set_solver) Hx) as [Hb HX]. rewrite Es. split; [cbn; by rewrite Hm|].
      intros [H|[H _]]; [done|]. by apply (Hdis i H); left.
    + cbn beta. intros _ s2 (W2 & C2 & P2). split_and!; [|done|].
      * eapply struct_wf_weaken; [|exact W2]. intros j y. rewrite elem_of_app, list_elem_of_singleton. naive_solver.
      * eapply unplugged_ext; [|exact (unplugged_trans _ _ _ _ _ P1 P2)]. intros c v _. unfold is_among, is_in.
        cbn. rewrite <- bool_decide_or. apply bool_decide_ext. rewrite elem_of_app, list_elem_of_singleton. tauto.
Qed.

Lemma struct_wf_restrict (X Y : loc -> loc -> Prop) t :
  (forall i inst x, instHeap t !! i = Some inst -> bit_term_of t x (model_ (h_extra inst)) -> X i x -> Y i x) ->
  struct_wf_except X t -> struct_wf_except Y t.
Proof. intros H W. split; try apply W. intros i I x Hi Hx HY. eapply (sw_complete _ _ W); eauto. Qed.

(** The bits [xs] get slots in several instances. *)
Lemma createInstTerms_all_ok X s insts xs E :
  struct_wf_except X (str s) -> conn_wf s -> NoDup insts ->
  (forall i, i ∈ insts -> exists inst, instHeap (str s) !! i = Some inst /\
     forall (k : nat) x, xs !! k = Some x -> bit_term_of (str s) x (model_ (h_extra inst)) /\
       getFlatID (termHeap (str s)) x = Some (length (instTerms_ (h_extra inst)) + k)%nat) ->
  wp (for_each (fun i => for_each (createInstTerm i) xs) insts) s
    (fun _ s' => struct_wf_except (fun j y => X j y /\ ~ (j ∈ insts /\ y ∈ xs)) (str s') /\ conn_wf s' /\ plugged s s') E.
Proof.
  intros W C Hnd Hinsts.
  eapply wp_mono; [refine (wp_for_each (fun i => for_each (createInstTerm i) xs) (fun visited s' =>
    (struct_wf_except (fun j y => X j y /\ ~ (j ∈ visited /\ y ∈ xs)) (str s') /\
    conn_wf s' /\ plugged s s') /\ forall i, i ∈ insts -> i ∉ visited -> instHeap (str s') !! i = instHeap (str s) !! i) _ s E _ _)|by intros _ s' [H _]|done].
  - split; [|done]. split_and!; [|done|apply plugged_refl].
    eapply struct_wf_weaken; [|exact W]. intros j y HX. split; [done|]. intros [H _]. by apply not_elem_of_nil in H.
  - intros visited i rest s1 -> ((W1 & C1 & P1) & Hsame).
    destruct (Hinsts i ltac:(set_solver)) as (inst & Hi & Hxs). apply NoDup_app in Hnd as (_ & Hdis & _).
    assert (Hiv : i ∉ visited) by (intros H; by apply (Hdis i H); left).
    assert (Et : termHeap (str s1) = termHeap (str s)) by (destruct P1 as (hi & ht & n & -> & _); done).
    eapply wp_mono; [apply (createInstTerms_ok _ s1 i inst xs E W1 C1)| |done].
    + rewrite Hsame; [done|set_solver|done].
    + intros k x Hx. rewrite Et, (bit_term_same _ _ _ _ Et). by apply Hxs.
    + cbn beta. intros _ s2 (W2 & C2 & P2 & slots & Hslots & _). split; [split_and!; [|done|by eapply plugged_trans]|].
      * eapply struct_wf_weaken; [|exact W2]. intros j y. rewrite elem_of_app, list_elem_of_singleton. naive_solver.
      * intros j Hj Hnot. rewrite Hslots, lookup_insert_ne; [apply Hsame; [done|set_solver]|set_solver].
Qed.
