(* ===== verification/InterfaceTerms.v ===== *)
(** Terminals enter a design: their flat identifiers, the slots of instances,
    and [addTerm], which gives every instance of the design the new terminals
    (nl/netlist/snl/SNLDesign.cpp). *)
From S2P Require Import Prelude NLID Store Bus Contents Connections DesignNets Interface InterfaceSteps.
Local Open Scope Z_scope.

(** * Changing the terminals of designs *)

Definition with_terms (regs : gmap loc (registry loc)) (h : gmap loc SNLTerm) (n : loc) (t : structure) : structure :=
  mkStructure (designs t) regs (nets_ t) (instances_ t) (slaveInstances_ t) h (netHeap t) (instHeap t) (instTermHeap t) n.

(** What the identifier of a bit terminal is made of: its design, identifier,
    whether it is a scalar, and its number. *)
Definition bit_info (h : gmap loc SNLTerm) (x : loc) : option (loc * Z * bool * Z) :=
  match h !! x with
  | Some (Scalar o) => Some (h_design o, h_id o, true, 0)
  | Some (Bit b bit) => match h !! b with Some (Bus o _ _ _) => Some (h_design o, h_id o, false, bit) | _ => None end
  | _ => None
  end.

Lemma bit_info_term t x d : bit_term_of t x d <-> exists id c i, bit_info (termHeap t) x = Some (d, id, c, i).
Proof.
  unfold bit_term_of, is_bit, object_header, bit_info. destruct (termHeap t !! x) as [[o|o m l bs|b i]|].
  - split; [intros [_ H]; cbn in H; injection H; intros; subst; eauto|intros (? & ? & ? & H); injection H; intros; subst; done].
  - split; [intros [[? ?] _]; done|by intros (? & ? & ? & ?)].
  - destruct (termHeap t !! b) as [[|o m l bs|]|].
    + split; [by intros [_ ?]|by intros (? & ? & ? & ?)].
    + split; [intros [_ H]; cbn in H; injection H; intros; subst; eauto|intros (? & ? & ? & H); injection H; intros; subst; done].
    + split; [by intros [_ ?]|by intros (? & ? & ? & ?)].
    + split; [by intros [_ ?]|by intros (? & ? & ? & ?)].
  - split; [intros [[? ?] _]; done|by intros (? & ? & ? & ?)].
Qed.

(** The parts that a bit's identifier reads. *)
Lemma bit_info_key h h' x v : bit_info h' x = bit_info h x -> bit_info h x = Some v ->
  is_bit h' x = is_bit h x /\ (fun o => (h_design o, h_id o)) <$> object_header h' x = (fun o => (h_design o, h_id o)) <$> object_header h x /\
  (exists a a', h !! x = Some (Scalar a) /\ h' !! x = Some (Scalar a')) \/
  is_bit h' x = is_bit h x /\ (fun o => (h_design o, h_id o)) <$> object_header h' x = (fun o => (h_design o, h_id o)) <$> object_header h x /\
  (exists b b' i, h !! x = Some (Bit b i) /\ h' !! x = Some (Bit b' i)).
Proof.
  unfold bit_info, is_bit, object_header. destruct (h !! x) as [[o|o m l bs|b i]|] eqn:E1; [|done| |done].
  - intros H _. left. destruct (h' !! x) as [[o'|o' m l bs|b' i']|]; [|done| |done].
    + injection H as E3 E4. cbn. rewrite E3, E4. eauto 10.
    + destruct (h' !! b') as [[]|]; done.
  - destruct (h !! b) as [[|o m l bs|]|] eqn:E2; [done| |done..]. intros H _. right.
    destruct (h' !! x) as [[o'|o' m' l' bs'|b' i']|]; [done|done| |done].
    destruct (h' !! b') as [[|o' m' l' bs'|]|]; [done| |done..]. injection H as E3 E4 ->. cbn. rewrite E3, E4. eauto 10.
Qed.

Lemma term_NLID_same t t' x v : designs t' = designs t ->
  bit_info (termHeap t') x = bit_info (termHeap t) x -> bit_info (termHeap t) x = Some v -> term_getNLID t' x = term_getNLID t x.
Proof.
  intros Hd H Hv. unfold term_getNLID. rewrite Hd.
  destruct (bit_info_key _ _ _ _ H Hv) as [(_ & Ho & a & a' & -> & ->)|(_ & Ho & b & b' & i & -> & ->)]; cbn [mbind option_bind];
    destruct (object_header (termHeap t') x) as [o'|], (object_header (termHeap t) x) as [o|]; try done;
    injection Ho as Ho1 Ho2; cbn; by rewrite Ho1, Ho2.
Qed.
Lemma instTerm_NLID_same t t' v w : designs t' = designs t -> instHeap t' = instHeap t ->
  bit_info (termHeap t') (bitTerm_ v) = bit_info (termHeap t) (bitTerm_ v) -> bit_info (termHeap t) (bitTerm_ v) = Some w ->
  instTerm_getNLID t' v = instTerm_getNLID t v.
Proof.
  intros Hd Hi H Hv. unfold instTerm_getNLID. rewrite Hd, Hi.
  assert (Hk : is_bit (termHeap t') (bitTerm_ v) = is_bit (termHeap t) (bitTerm_ v) /\
    (fun o => (h_design o, h_id o)) <$> object_header (termHeap t') (bitTerm_ v) =
    (fun o => (h_design o, h_id o)) <$> object_header (termHeap t) (bitTerm_ v))
    by (destruct (bit_info_key _ _ _ _ H Hv) as [(? & ? & _)|(? & ? & _)]; done).
  destruct Hk as [-> Ho]. destruct (instHeap t !! instance_ v) as [I|]; [|done]. cbn.
  destruct (designs t !! h_design I); [|done]. cbn.
  destruct (object_header (termHeap t') (bitTerm_ v)) as [o'|], (object_header (termHeap t) (bitTerm_ v)) as [o|]; try done.
  injection Ho as _ Ho2. cbn. by rewrite Ho2.
Qed.

Section with_terms.
Context {X Y : loc -> loc -> Prop} {t : structure} (W : struct_wf_except X t).
Context (regs : gmap loc (registry loc)) (h : gmap loc SNLTerm) (n : loc).

(** Terminals that instance terminals refer to stay; every other bit terminal
    is pending. *)
Lemma struct_wf_terms :
  objects_wf h regs -> (forall d, is_Some (regs !! d) <-> is_Some (terms_ t !! d)) -> (next t <= n)%positive ->
  (forall l, (n <= l)%positive -> h !! l = None) ->
  (forall c, is_Some (h !! c) -> is_Some (termHeap t !! c) \/ (next t <= c)%positive) ->
  (forall x y vx vy ox oy, h !! x = Some vx -> h !! y = Some vy -> header_of vx = Some ox -> header_of vy = Some oy ->
     h_design ox = h_design oy -> h_id ox < h_id oy -> (flatID_ (h_extra ox) + term_width vx <= flatID_ (h_extra oy))%nat) ->
  (forall it v, instTermHeap t !! it = Some v ->
     bit_info h (bitTerm_ v) = bit_info (termHeap t) (bitTerm_ v) /\ getFlatID h (bitTerm_ v) = getFlatID (termHeap t) (bitTerm_ v)) ->
  (forall i inst x, instHeap t !! i = Some inst -> bit_term_of (with_terms regs h n t) x (model_ (h_extra inst)) -> ~ Y i x ->
     bit_term_of t x (model_ (h_extra inst)) /\ ~ X i x /\ getFlatID h x = getFlatID (termHeap t) x) ->
  struct_wf_except Y (with_terms regs h n t).
Proof.
  intros Hh Hregs Hn Hfresh Hdom Hflat Hkeep Hnew. split; try apply W.
  - exact Hh.
  - intros d. cbn. rewrite Hregs. apply W.
  - intros i f it Hs. destruct (sw_slots _ _ W i f it Hs) as (x & Hit & Hf). exists x. split; [done|].
    pose proof (proj2 (Hkeep _ _ Hit)) as E. cbn in *. by rewrite E.
  - intros it v Hit. destruct (sw_instTerm _ _ W it v Hit) as (I & f & HI & Hs & Hb). exists I, f. split_and!; [done..|].
    apply bit_info_term. cbn. rewrite (proj1 (Hkeep _ _ Hit)). by apply bit_info_term.
  - intros i inst x Hi Hx HY. destruct (Hnew i inst x Hi Hx HY) as (Hx' & HX & Hf).
    destruct (sw_complete _ _ W i inst x Hi Hx' HX) as (f & it & Hfx & Hs). exists f, it. split; [|done]. cbn. by rewrite Hf.
  - exact Hflat.
  - intros l Hl. cbn in *. destruct (sw_fresh _ _ W l ltac:(lia)) as (_ & ? & ? & ?). split_and!; auto.
  - intros c Hc. cbn in *. destruct (Hdom c Hc) as [H|H]; [by apply (sw_apart _ _ W)|]. by destruct (sw_fresh _ _ W c H) as (_ & _ & _ & ?).
Qed.
End with_terms.

Lemma conn_wf_terms Y s regs h n :
  conn_wf s -> struct_wf_except Y (with_terms regs h n (str s)) ->
  (forall it v, instTermHeap (str s) !! it = Some v -> bit_info h (bitTerm_ v) = bit_info (termHeap (str s)) (bitTerm_ v) /\
     is_Some (bit_info (termHeap (str s)) (bitTerm_ v))) ->
  (forall c m, net_ s !! c = Some m -> instTermHeap (str s) !! c = None ->
     bit_info h c = bit_info (termHeap (str s)) c /\ is_Some (bit_info (termHeap (str s)) c)) ->
  conn_wf (set_str (with_terms regs h n (str s)) s).
Proof.
  intros C W Hit Hc. refine (conn_wf_struct Y s _ C W eq_refl _). intros c m Hm _.
  unfold comp_design, comp_getNLID, is_component. cbn. destruct (instTermHeap (str s) !! c) as [v|] eqn:Ec.
  - split; [done|]. split; [|left; by eexists]. destruct (Hit _ _ Ec) as [E1 [w E2]].
    by apply (instTerm_NLID_same (str s) (with_terms regs h n (str s)) v w).
  - destruct (Hc _ _ Hm Ec) as [E1 [w E2]].
    destruct (bit_info_key _ _ _ _ E1 E2) as [(Eb & Eo & Ecl)|(Eb & Eo & Ecl)].
    + split_and!.
      * destruct (object_header h c), (object_header (termHeap (str s)) c); try done. cbn in *. congruence.
      * by apply (term_NLID_same (str s) (with_terms regs h n (str s)) c w).
      * right. destruct Ecl as (a & a' & _ & E3). unfold is_bit. rewrite E3. by eexists.
    + split_and!.
      * destruct (object_header h c), (object_header (termHeap (str s)) c); try done. cbn in *. congruence.
      * by apply (term_NLID_same (str s) (with_terms regs h n (str s)) c w).
      * right. destruct Ecl as (b & b' & j & _ & E3). unfold is_bit. rewrite E3. by eexists.
Qed.

(** What is connected is a bit terminal. *)
Lemma connected_bit X s c m :
  struct_wf_except X (str s) -> conn_wf s -> net_ s !! c = Some m -> instTermHeap (str s) !! c = None ->
  is_Some (bit_info (termHeap (str s)) c).
Proof.
  intros W C Hc Hno. destruct (cw_alive _ C _ _ Hc) as (d & k & Hd & _ & _ & _ & [H|H]).
  - rewrite Hno in H. by destruct H.
  - unfold comp_design in Hd. rewrite Hno in Hd. destruct (proj1 (bit_info_term (str s) c d) (conj H Hd)) as (? & ? & ? & ->). by eexists.
Qed.
Lemma referred_bit X t it v :
  struct_wf_except X t -> instTermHeap t !! it = Some v -> is_Some (bit_info (termHeap t) (bitTerm_ v)).
Proof.
  intros W Hit. destruct (sw_instTerm _ _ W it v Hit) as (I & f & _ & _ & Hb).
  destruct (proj1 (bit_info_term _ _ _) Hb) as (? & ? & ? & ->). by eexists.
Qed.

(** * Creation *)

(** The flat identifier after the last terminal of a registry. *)
Definition flat_end (t : structure) (r : registry loc) : nat :=
  match last_key (objects r) with
  | None => 0%nat
  | Some k =>
      match l ← objects r !! k; v ← termHeap t !! l; o ← header_of v; Some (flatID_ (h_extra o) + term_width v)%nat with
      | Some f => f
      | None => 0%nat
      end
  end.

Section create.
Context {X : loc -> loc -> Prop}.

Lemma term_getWidth_width t x v : struct_wf_except X t -> termHeap t !! x = Some v -> is_Some (header_of v) ->
  term_getWidth v = Ret (Z.of_nat (term_width v)).
Proof.
  intros W Hx Ho. destruct v as [o|o m l bs|b i]; cbn; [done|exact (ow_width _ _ (sw_terms _ _ W) _ _ _ _ _ Hx)|by destruct Ho].
Qed.

Lemma registry_lookup t d r k l : struct_wf_except X t -> terms_ t !! d = Some r -> objects r !! k = Some l ->
  exists v o, termHeap t !! l = Some v /\ header_of v = Some o /\ h_design o = d /\ h_id o = k.
Proof.
  intros W Hr Hk. apply (rep_objects _ _ _ (ow_registry _ _ (sw_terms _ _ W) _ _ Hr)) in Hk as (n & v & o & Hv & Ho & Hd & Hid & _).
  by exists v, o.
Qed.

Lemma next_flatID_ok s s1 d r (Q : nat -> netlist -> Prop) E :
  struct_wf_except X (str s) -> terms_ (str s) !! d = Some r ->
  (forall y v, termHeap (str s) !! y = Some v -> termHeap (str s1) !! y = Some v) ->
  Q (flat_end (str s) r) s1 -> wp (next_flatID r) s1 Q E.
Proof.
  intros W Hr Hkeep HQ. unfold next_flatID, flat_end in *. pose proof (last_key_spec (objects r)) as Hk.
  destruct (last_key (objects r)) as [k|]; [|done]. destruct Hk as [[l Hl] _].
  destruct (registry_lookup _ _ _ _ _ W Hr Hl) as (v & o & Hv & Ho & _). rewrite Hl in HQ. cbn in HQ. rewrite Hv in HQ. cbn in HQ.
  rewrite Ho in HQ. cbn in HQ. wp_read Hl. pose proof (Hkeep _ _ Hv) as Hv1. wp_read Hv1. wp_read Ho. rewrite wp_bind.
  eapply wp_lift; [exact (term_getWidth_width _ _ _ W Hv ltac:(by eexists))|]. apply wp_ret. by rewrite Nat2Z.id.
Qed.

Lemma flat_end_bound t d r x v o :
  struct_wf_except X t -> terms_ t !! d = Some r -> termHeap t !! x = Some v -> header_of v = Some o -> h_design o = d ->
  (flatID_ (h_extra o) + term_width v <= flat_end t r)%nat.
Proof.
  intros W Hr Hx Ho Hd.
  assert (Hin : objects r !! h_id o = Some x).
  { apply (rep_objects _ _ _ (ow_registry _ _ (sw_terms _ _ W) _ _ Hr)). exists (h_name o), v, o. done. }
  unfold flat_end. pose proof (last_key_spec (objects r)) as Hk. destruct (last_key (objects r)) as [k|]; [|rewrite Hk in Hin; by rewrite lookup_empty in Hin].
  destruct Hk as [[l Hl] Hmax]. destruct (registry_lookup _ _ _ _ _ W Hr Hl) as (w & a & Hw & Ha & Had & Hak).
  rewrite Hl. cbn. rewrite Hw. cbn. rewrite Ha. cbn. destruct (decide (h_id o = k)) as [E|Hne].
  - rewrite E, Hl in Hin. injection Hin as ->. rewrite Hx in Hw. injection Hw as ->. rewrite Ho in Ha. by injection Ha as ->.
  - specialize (Hmax _ _ Hin). pose proof (sw_flat _ _ W x l v w o a Hx Hw Ho Ha ltac:(congruence) ltac:(lia)). lia.
Qed.

(** A new terminal after all others of its design. *)
Lemma wf_new_term s d r r' x v o h n :
  struct_wf_except X (str s) -> conn_wf s -> terms_ (str s) !! d = Some r -> termHeap (str s) !! x = None ->
  instTermHeap (str s) !! x = None -> objects_wf h (<[d:=r']> (terms_ (str s))) ->
  h !! x = Some v -> header_of v = Some o -> h_design o = d -> flatID_ (h_extra o) = flat_end (str s) r ->
  (forall k l, objects r !! k = Some l -> k < h_id o) ->
  (forall y z, termHeap (str s) !! y = Some z -> h !! y = Some z) ->
  (forall y z, y <> x -> h !! y = Some z -> termHeap (str s) !! y = Some z \/
     (next (str s) <= y)%positive /\ exists bit, z = Bit x bit) ->
  (next (str s) <= x)%positive -> (next (str s) <= n)%positive -> (forall l, (n <= l)%positive -> h !! l = None) ->
  let t' := with_terms (<[d:=r']> (terms_ (str s))) h n (str s) in
  struct_wf_except (fun i y => X i y \/ y ∈ getBits h x) t' /\ conn_wf (set_str t' s).
Proof.
  intros W C Hr Hx0 Hix Hh Hx Hv Hd Hf Hid Hkeep Hup Hxn Hn Hfresh t'.
  assert (Hinfo : forall y w, bit_info (termHeap (str s)) y = Some w -> bit_info h y = Some w /\ getFlatID h y = getFlatID (termHeap (str s)) y).
  { intros y w. unfold bit_info, getFlatID. destruct (termHeap (str s) !! y) as [[a|a m l bs|b i]|] eqn:Ey; [|done| |done].
    - by rewrite (Hkeep _ _ Ey).
    - rewrite (Hkeep _ _ Ey). destruct (termHeap (str s) !! b) as [[|a m l bs|]|] eqn:Eb; [done| |done..]. by rewrite (Hkeep _ _ Eb). }
  assert (W' : struct_wf_except (fun i y => X i y \/ y ∈ getBits h x) t').
  { apply (struct_wf_terms W); [exact Hh| |exact Hn|exact Hfresh| | | |].
    - intros d'. rewrite lookup_insert_is_Some'. split; [intros [<-|?]; [by rewrite Hr|done]|by right].
    - intros c [z Hc]. destruct (decide (c = x)) as [->|Hne]; [by right|]. destruct (Hup _ _ Hne Hc) as [E|[E _]]; [left; by eexists|by right].
    - intros y1 y2 v1 v2 o1 o2 H1 H2 Ho1 Ho2 Hdd Hlt.
      assert (Hcase : forall y w a, h !! y = Some w -> header_of w = Some a -> y = x /\ w = v /\ a = o \/ termHeap (str s) !! y = Some w).
      { intros y w a Hy Ha. destruct (decide (y = x)) as [->|Hne]; [left; split; [done|]; by simplify_eq|].
        destruct (Hup _ _ Hne Hy) as [E|[_ [bit ->]]]; [by right|done]. }
      destruct (Hcase _ _ _ H1 Ho1) as [(-> & -> & ->)|E1]; destruct (Hcase _ _ _ H2 Ho2) as [(-> & -> & ->)|E2].
      + lia.
      + exfalso. assert (objects r !! h_id o2 = Some y2) as Hin.
        { apply (rep_objects _ _ _ (ow_registry _ _ (sw_terms _ _ W) _ _ Hr)). exists (h_name o2), v2, o2. split_and!; [done..|congruence|done|done]. }
        specialize (Hid _ _ Hin). lia.
      + rewrite Hf. apply (flat_end_bound _ d r y1 v1 o1 W Hr E1 Ho1). congruence.
      + exact (sw_flat _ _ W _ _ _ _ _ _ E1 E2 Ho1 Ho2 Hdd Hlt).
    - intros it w Hit. destruct (referred_bit _ _ _ _ W Hit) as [u Hu]. destruct (Hinfo _ _ Hu) as [E1 E2]. by rewrite E1, E2.
    - intros i inst y Hi Hy HY. apply bit_info_term in Hy as (id & c & j & Hy). cbn in Hy.
      assert (Hold : is_Some (bit_info (termHeap (str s)) y)).
      { apply not_eq_None_Some. intros E. apply HY. right. unfold bit_info in Hy, E. unfold getBits.
        destruct (decide (y = x)) as [->|Hne].
        - rewrite Hx in Hy |- *. destruct v; [by left|done|done].
        - destruct (h !! y) as [z|] eqn:Ez; [|done]. destruct (Hup _ _ Hne Ez) as [Eo|[_ [bit ->]]].
          + rewrite Eo in E. destruct z as [a|a m l bs|b bit]; [done|done|].
            destruct (termHeap (str s) !! b) as [[ab|ab m l bs|bb bi]|] eqn:Eb; [by rewrite (Hkeep _ _ Eb) in Hy|done|by rewrite (Hkeep _ _ Eb) in Hy|].
            destruct (ow_bit _ _ (sw_terms _ _ W) _ _ _ Eo) as (? & ? & ? & ? & Hb & _). congruence.
          + destruct (ow_bit _ _ Hh _ _ _ Ez) as (a & m & l & bs & Hb & Hg). rewrite Hb. apply elem_of_getBusBits.
            exists (bit_position m bit). exact (proj1 (getBit_position Hh _ _ _ _ _ _ _ Hb Ez)). }
      destruct Hold as [u Hu]. destruct (Hinfo _ _ Hu) as [E1 E2]. split; [|split; [tauto|done]].
      apply bit_info_term. rewrite Hu. rewrite E1 in Hy. injection Hy as ->. eauto. }
  split; [exact W'|]. apply (conn_wf_terms _ s _ _ _ C W').
  - intros it w Hit. destruct (referred_bit _ _ _ _ W Hit) as [u Hu]. destruct (Hinfo _ _ Hu) as [E1 E2]. rewrite E1, Hu. split; [done|by eexists].
  - intros c m Hc Hno. destruct (connected_bit _ _ _ _ W C Hc Hno) as [u Hu]. destruct (Hinfo _ _ Hu) as [E1 E2]. rewrite E1, Hu. split; [done|by eexists].
Qed.
End create.

Lemma getBits_flat h x v o (k : nat) y regs :
  objects_wf h regs -> h !! x = Some v -> header_of v = Some o ->
  (forall msb lsb bits, v = Bus o msb lsb bits -> exists ys, bits = Some <$> ys) ->
  getBits h x !! k = Some y -> getFlatID h y = Some (flatID_ (h_extra o) + k)%nat.
Proof.
  intros W Hx Hv Hall. unfold getBits. rewrite Hx. destruct v as [a|a m l bs|b i]; [| |done].
  - injection Hv as ->. destruct k as [|k]; [|done]. intros [= ->]. unfold getFlatID. rewrite Hx. by rewrite Nat.add_0_r.
  - injection Hv as ->. destruct (Hall _ _ _ eq_refl) as [ys ->]. unfold getBusBits.
    assert (E : omap (fun b : option loc => b) (Some <$> ys) = ys) by (clear; induction ys as [|z ys IH]; [done|cbn; f_equal; exact IH]).
    rewrite E. intros Hy. assert (Hs : (Some <$> ys) !! k = Some (Some y)) by by rewrite list_lookup_fmap, Hy.
    pose proof (ow_bits _ _ W _ _ _ _ _ _ _ Hx Hs) as Hb. unfold getFlatID. rewrite Hb, Hx. do 2 f_equal.
    pose proof (bit_position_at m l k) as Hp. unfold bit_position in Hp. rewrite <- Hp at 2. f_equal. lia.
Qed.

(** The instances that a change of the terminals of [d] reaches: those in its
    set, or none at all when [d] is a primitive. *)
Definition reaches (t : structure) (d : loc) : Prop :=
  forall i inst, instHeap t !! i = Some inst -> model_ (h_extra inst) = d -> i ∈ getSlaveInstances t d.

Lemma elem_of_slaves X t d i : struct_wf_except X t -> i ∈ getSlaveInstances t d ->
  exists inst, instHeap t !! i = Some inst /\ model_ (h_extra inst) = d.
Proof.
  intros W. unfold getSlaveInstances. rewrite elem_of_in_order_by. intros [k Hk].
  apply (sw_slaves _ _ W) in Hk as (I & D & Hi & Hm & _). eauto.
Qed.
Lemma NoDup_slaves X t d : struct_wf_except X t -> NoDup (getSlaveInstances t d).
Proof.
  intros W. apply NoDup_in_order_by. intros k k' i Hk Hk'.
  apply (sw_slaves _ _ W) in Hk as (I & D & Hi & _ & _ & _ & E1). apply (sw_slaves _ _ W) in Hk' as (I' & D' & Hi' & _ & _ & _ & E2).
  congruence.
Qed.
Lemma reaches_nonprimitive X t d D : struct_wf_except X t -> designs t !! d = Some D -> primitive_ D = false -> reaches t d.
Proof.
  intros W HD Hp i inst Hi Hm. unfold getSlaveInstances. apply elem_of_in_order_by.
  assert (is_Some (instance_getNLID t inst)) as [k Hk].
  { unfold instance_getNLID. destruct (instance_design W _ _ Hi) as [D' ->]. by eexists. }
  exists k. apply (sw_slaves _ _ W). eauto 10.
Qed.

(** Every instance of [d] has [f] slots. *)
Definition slots_full (t : structure) (d : loc) (f : nat) : Prop :=
  forall i inst, instHeap t !! i = Some inst -> model_ (h_extra inst) = d -> length (instTerms_ (h_extra inst)) = f.

Lemma setOrderIDs_wf X s d (Q : unit -> netlist -> Prop) E :
  struct_wf_except X (str s) -> conn_wf s ->
  (forall s', struct_wf_except X (str s') -> conn_wf s' -> s' = set_orders (number 0 (getBitTerms (str s) d) (orderIDs s)) s -> Q tt s') ->
  wp (setOrderIDs d) s Q E.
Proof. intros W [K A P] HQ. unfold setOrderIDs. rewrite wp_modify. apply HQ; [done| |done]. by split. Qed.

(** The tail of [addTerm]: the instances of the design get the new slots. *)
Lemma plug_new_term s d x E :
  struct_wf_except (fun _ y => y ∈ getBits (termHeap (str s)) x) (str s) -> conn_wf s ->
  (forall y, y ∈ getBits (termHeap (str s)) x -> bit_term_of (str s) y d) ->
  reaches (str s) d -> forall f, slots_full (str s) d f ->
  (forall (k : nat) y, getBits (termHeap (str s)) x !! k = Some y -> getFlatID (termHeap (str s)) y = Some (f + k)%nat) ->
  wp (t ← gets str;
      for_each (fun i => for_each (createInstTerm i) (getBits (termHeap t) x)) (getSlaveInstances t d) ;;
      setOrderIDs d) s
    (fun _ s' => struct_wf (str s') /\ conn_wf s' /\ exists s1, plugged s s1 /\
       s' = set_orders (number 0 (getBitTerms (str s1) d) (orderIDs s1)) s1) E.
Proof.
  intros W C Hbits Hreach f Hfull Hflat. rewrite wp_bind, wp_gets, wp_bind.
  eapply wp_mono; [apply (createInstTerms_all_ok _ s (getSlaveInstances (str s) d) (getBits (termHeap (str s)) x) E W C)| |done].
  - by eapply NoDup_slaves.
  - intros i Hi. destruct (elem_of_slaves _ _ _ _ W Hi) as (inst & Hinst & Hm). exists inst. split; [done|].
    intros k y Hy. rewrite Hm, (Hfull _ _ Hinst Hm). split; [apply Hbits; by eapply list_elem_of_lookup_2|by apply Hflat].
  - cbn beta. intros _ s1 (W1 & C1 & P1). apply (setOrderIDs_wf (fun _ _ => False)); [|done|by intros s' W' C' ->; eauto].
    eapply struct_wf_restrict; [|exact W1]. cbn. intros i inst y Hi Hy [Hin Hnot].
    destruct P1 as (hi & ht & n & -> & Hsame & _). cbn in *. pose proof (Hsame i) as Hs.
    destruct (instHeap (str s) !! i) as [J|] eqn:EJ; [|congruence]. destruct Hs as [l Hl]. rewrite Hi in Hl. injection Hl as ->. cbn in *.
    apply Hnot. split; [|done]. apply (Hreach i J EJ).
    pose proof (Hbits y Hin) as [_ E1]. destruct Hy as [_ E2]. cbn in *. congruence.
Qed.

(** Whole creations: [h1] holds the new terminal [x], and its bits, already. *)
Section created.
Context (s : netlist) (W : struct_wf (str s)) (C : conn_wf s) (d : loc) (r : registry loc) (Hr : terms_ (str s) !! d = Some r).

Definition term_added (x : loc) (h : gmap loc SNLTerm) (n : loc) (r' : registry loc) (s' : netlist) : Prop :=
  exists s1, plugged (set_str (with_terms (<[d:=r']> (terms_ (str s))) h n (str s)) s) s1 /\
    s' = set_orders (number 0 (getBitTerms (str s1) d) (orderIDs s1)) s1.

Lemma addTerm_ok x v1 o1 h1 n E :
  h1 !! x = Some v1 -> header_of v1 = Some o1 -> h_design o1 = d ->
  (forall y z, termHeap (str s) !! y = Some z -> h1 !! y = Some z) ->
  (forall y z, y <> x -> h1 !! y = Some z -> termHeap (str s) !! y = Some z \/
     (next (str s) <= y)%positive /\ exists bit, z = Bit x bit) ->
  (next (str s) <= x)%positive -> (next (str s) <= n)%positive -> (forall l, (n <= l)%positive -> h1 !! l = None) ->
  (forall k l, objects r !! k = Some l -> k < h_id o1) ->
  (forall o msb lsb bits, v1 = Bus o msb lsb bits -> exists ys, bits = Some <$> ys) ->
  let h := <[x:=set_header (set_flatID (flat_end (str s) r) o1) v1]> h1 in
  let r' := add_object (h_id o1) (h_name o1) x r in
  objects_wf h (<[d:=r']> (terms_ (str s))) ->
  reaches (str s) d -> slots_full (str s) d (flat_end (str s) r) ->
  wp (addTerm d x) (set_str (with_terms (terms_ (str s)) h1 n (str s)) s)
    (fun _ s' => struct_wf (str s') /\ conn_wf s' /\ term_added x h n r' s') E.
Proof.
  intros Hx Ho Hd Hkeep Hup Hxn Hn Hfresh Hid Hbits h r' Hwf Hreach Hfull.
  assert (Hx0 : termHeap (str s) !! x = None) by (by apply (sw_fresh _ _ W)).
  assert (Hix : instTermHeap (str s) !! x = None) by (by apply (sw_fresh _ _ W)).
  unfold addTerm. ct_run. eapply (next_flatID_ok s _ d r); [exact W|exact Hr|exact Hkeep|].
  do 2 rewrite wp_bind, wp_modify. ct_simpl.
  fold h. set (v := set_header (set_flatID (flat_end (str s) r) o1) v1) in *.
  assert (Hv : header_of v = Some (set_flatID (flat_end (str s) r) o1)) by (subst v; by destruct v1).
  assert (Hxv : h !! x = Some v) by apply lookup_insert_eq.
  destruct (wf_new_term s d r r' x v (set_flatID (flat_end (str s) r) o1) h n W C Hr Hx0 Hix Hwf Hxv Hv Hd eq_refl) as [W' C'].
  { exact Hid. }
  { intros y z Hy. unfold h. rewrite lookup_insert_ne by congruence. by apply Hkeep. }
  { intros y z Hne. unfold h. rewrite lookup_insert_ne by done. by apply Hup. }
  { done. }
  { done. }
  { intros l Hl. unfold h. rewrite lookup_insert_ne; [by apply Hfresh|]. intros <-. rewrite Hfresh in Hx; done. }
  set (t' := with_terms (<[d:=r']> (terms_ (str s))) h n (str s)) in *.
  refine (plug_new_term (set_str t' s) d x E _ C' _ _ (flat_end (str s) r) Hfull _).
  - eapply struct_wf_weaken; [|exact W']. by intros i y [|].
  - intros y Hy. apply bit_info_term. cbn in *. fold h. unfold getBits in Hy. rewrite Hxv in Hy.
    destruct v1 as [a|a m l bs|]; cbn in Ho; [..|done]; injection Ho as ->; cbn in Hy, Hxv.
    + apply list_elem_of_singleton in Hy as ->. unfold bit_info. rewrite Hxv. cbn. rewrite Hd. eauto.
    + apply elem_of_getBusBits in Hy as [i Hi]. pose proof (ow_bits _ _ Hwf _ _ _ _ _ _ _ Hxv Hi) as Hb.
      unfold bit_info. rewrite Hb, Hxv. cbn. rewrite Hd. eauto.
  - intros i inst Hi Hm. exact (Hreach i inst Hi Hm).
  - intros k y Hk. cbn in *. refine (getBits_flat h x v _ k y _ Hwf Hxv Hv _ Hk).
    intros m l bs E1. destruct v1 as [a|a m1 l1 bs1|]; [done| |done]. injection E1 as <- <- <-. by eapply Hbits.
Qed.
End created.
