(* ===== verification/TermLifetime.v ===== *)
(** Creating and destroying the terminals of a design. A terminal enters last in
    the order of identifiers and of flat identifiers, and every instance of the
    design gets its terminals; when it is destroyed the instances lose them, with
    their connections, and the other terminals keep theirs
    (nl/netlist/snl/SNLTerm.cpp, SNLScalarTerm.cpp, SNLBusTerm.cpp, SNLDesign.cpp). *)
From S2P Require Import Prelude NLID Store Bus Contents Connections DesignNets Interface InterfaceSteps InterfaceTerms.
Local Open Scope Z_scope.

Section create.
Context (s : netlist) (W : struct_wf (str s)) (C : conn_wf s) (d : loc) (r : registry loc) (Hr : terms_ (str s) !! d = Some r).

Lemma term_preCreate_ok name (Q : unit -> netlist -> Prop) :
  ((name <> 0 -> find_by_name name r = None) -> Q tt s) -> wp (term_preCreate d name) s Q (unchanged s).
Proof.
  intros HQ. unfold term_preCreate. wp_read Hr. apply wp_check; [|done]. intros H. apply HQ. by apply name_free.
Qed.
Lemma term_preCreate_id_ok id name (Q : unit -> netlist -> Prop) :
  ((name <> 0 -> find_by_name name r = None) -> find_by_id id r = None -> Q tt s) ->
  wp (term_preCreate_id d id name) s Q (unchanged s).
Proof.
  intros HQ. unfold term_preCreate_id. rewrite wp_bind. apply term_preCreate_ok. intros Hname.
  wp_read Hr. apply wp_check; [|done]. intros Hid%is_none_true. by apply HQ.
Qed.

(** The identifier [addTermAndSetID] gives. *)
Lemma new_term_id : room 32 (objects r) ->
  0 <= next_id 32 (objects r) < 2 ^ 32 /\ find_by_id (next_id 32 (objects r)) r = None /\
  forall k l, objects r !! k = Some l -> k < next_id 32 (objects r).
Proof.
  intros Hroom. destruct (next_id_fresh 32 (objects r)) as (Hfree & Hid & Hlast); [|lia|done].
  apply room_bound; [|done]. intros k x [n Hx]%(rep_objects _ _ _ (ow_registry _ _ (sw_terms _ _ W) _ _ Hr)).
  by apply (rep_bound _ _ _ (ow_registry _ _ (sw_terms _ _ W) _ _ Hr)) in Hx as [? _].
Qed.

Lemma term_fresh y : is_Some (termHeap (str s) !! y) -> (y < next (str s))%positive.
Proof.
  intros [v Hv]. destruct (decide (y < next (str s))%positive) as [|Hle]; [done|].
  destruct (sw_fresh _ _ W y ltac:(lia)) as (H & _). congruence.
Qed.
Lemma after_free id : (forall k l, objects r !! k = Some l -> k < id) -> find_by_id id r = None.
Proof. intros H. apply eq_None_not_Some. intros [l Hl]. specialize (H _ _ Hl). lia. Qed.

Context (Hreach : reaches (str s) d) (Hfull : slots_full (str s) d (flat_end (str s) r)).

(** A scalar terminal [x] with identifier [id]. *)
Definition scalarTerm_entered (id name : Z) (dir : direction) (s' : netlist) : Prop :=
  let x := next (str s) in
  term_added s d x (<[x:=Scalar (mkHeader d id name (mkTerm (flat_end (str s) r) dir))]> (termHeap (str s)))
    (Pos.succ x) (add_object id name x r) s'.

Lemma addTerm_scalar f id name dir E :
  let x := next (str s) in
  0 <= id < 2 ^ 32 -> (forall k l, objects r !! k = Some l -> k < id) -> (name <> 0 -> find_by_name name r = None) ->
  wp (addTerm d x) (set_str (with_terms (terms_ (str s)) (<[x:=Scalar (mkHeader d id name (mkTerm f dir))]> (termHeap (str s)))
      (Pos.succ x) (str s)) s)
    (fun _ s' => struct_wf (str s') /\ conn_wf s' /\ scalarTerm_entered id name dir s') E.
Proof.
  intros x Hid Hlast Hname. assert (Hx0 : termHeap (str s) !! x = None) by (apply (sw_fresh _ _ W); lia).
  eapply wp_mono; [refine (addTerm_ok s W C d r Hr x (Scalar (mkHeader d id name (mkTerm f dir))) (mkHeader d id name (mkTerm f dir)) _ (Pos.succ x) (fun _ _ => False) (lookup_insert_eq _ _ _) eq_refl eq_refl _ _ _ _ _ _ _ _ Hreach Hfull)| |done].
  - intros y z Hy. rewrite lookup_insert_ne; [done|]. intros <-. congruence.
  - intros y z Hne. rewrite lookup_insert_ne by done. by left.
  - lia.
  - lia.
  - intros l Hl. rewrite lookup_insert_ne by lia. apply (sw_fresh _ _ W). lia.
  - exact Hlast.
  - done.
  - rewrite insert_insert_eq. cbn.
    eapply (objects_wf_add _ _ _ x (Scalar (mkHeader d id name (mkTerm (flat_end (str s) r) dir))) (mkHeader d id name (mkTerm (flat_end (str s) r) dir)));
      try done; [apply W|apply lookup_insert_eq|by apply after_free|..].
    + intros y z Hy. rewrite lookup_insert_ne; [done|]. intros <-. congruence.
    + intros y z Hne. rewrite lookup_insert_ne by done. by left.
    + intros y bit Hy. destruct (decide (y = x)) as [->|Hne]; [by rewrite lookup_insert_eq in Hy|].
      rewrite lookup_insert_ne in Hy by done. destruct (ow_bit _ _ (sw_terms _ _ W) _ _ _ Hy) as (? & ? & ? & ? & H & _). congruence.
  - cbn beta. intros _ s' (W' & C' & H). split; [exact W'|]. split; [exact C'|].
    unfold scalarTerm_entered. rewrite insert_insert_eq in H. exact H.
Qed.

Lemma scalarTerm_create_ok dir name : room 32 (objects r) ->
  wp (scalarTerm_create d dir name) s (fun x s' => struct_wf (str s') /\ conn_wf s' /\ x = next (str s) /\
    exists id, scalarTerm_entered id name dir s') (unchanged s).
Proof.
  intros Hroom. destruct (new_term_id Hroom) as (Hid & _ & Hlast). unfold scalarTerm_create. rewrite wp_bind.
  apply term_preCreate_ok. intros Hname. ct_run. unfold addTermAndSetID. ct_run. rewrite insert_insert_eq.
  eapply wp_mono; [exact (addTerm_scalar 0 (next_id 32 (objects r)) name dir (fun _ _ => False) Hid Hlast Hname)| |done].
  cbn beta. intros _ s' (W' & C' & H). rewrite wp_ret. eauto.
Qed.
Lemma scalarTerm_create_id_ok dir id name : 0 <= id < 2 ^ 32 -> (forall k l, objects r !! k = Some l -> k < id) ->
  wp (scalarTerm_create_id d id dir name) s (fun x s' => struct_wf (str s') /\ conn_wf s' /\ x = next (str s) /\
    scalarTerm_entered id name dir s') (unchanged s).
Proof.
  intros Hid Hlast. unfold scalarTerm_create_id. rewrite wp_bind.
  apply term_preCreate_id_ok. intros Hname _. ct_run.
  eapply wp_mono; [exact (addTerm_scalar 0 id name dir (fun _ _ => False) Hid Hlast Hname)| |done].
  cbn beta. intros _ s' (W' & C' & H). rewrite wp_ret. eauto.
Qed.

(** A bus terminal, whose bits exist when it enters. *)
Definition busTerm_entered (id name msb lsb : Z) (dir : direction) (s' : netlist) : Prop :=
  let x := next (str s) in
  exists w v bits h n, getWidth msb lsb = Ret w /\ length bits = Z.to_nat w /\
    createBits x msb lsb 0 (Z.to_nat w) (<[x:=v]> (termHeap (str s))) (Pos.succ x) = (bits, h, n) /\
    term_added s d x (<[x:=Bus (mkHeader d id name (mkTerm (flat_end (str s) r) dir)) msb lsb bits]> h) n (add_object id name x r) s'.

Lemma addTerm_bus f id name dir msb lsb w v bits h n E :
  let x := next (str s) in
  0 <= id < 2 ^ 32 -> (forall k l, objects r !! k = Some l -> k < id) -> (name <> 0 -> find_by_name name r = None) ->
  getWidth msb lsb = Ret w ->
  createBits x msb lsb 0 (Z.to_nat w) (<[x:=v]> (termHeap (str s))) (Pos.succ x) = (bits, h, n) ->
  wp (addTerm d x) (set_str (with_terms (terms_ (str s)) (<[x:=Bus (mkHeader d id name (mkTerm f dir)) msb lsb bits]> h) n (str s)) s)
    (fun _ s' => struct_wf (str s') /\ conn_wf s' /\ busTerm_entered id name msb lsb dir s') E.
Proof.
  intros x Hid Hlast Hname Hw Hc. assert (Hw0 : 0 <= w) by (apply getWidth_Ret in Hw; lia).
  pose proof (createBits_spec _ _ _ _ _ _ _ _ _ _ Hc) as (Hlen & Hle & Hold & Hin & Hbits).
  assert (Hnone : forall y, (x <= y)%positive -> termHeap (str s) !! y = None) by (intros y Hy; by apply (sw_fresh _ _ W)).
  eapply wp_mono; [refine (addTerm_ok s W C d r Hr x (Bus (mkHeader d id name (mkTerm f dir)) msb lsb bits) (mkHeader d id name (mkTerm f dir)) _ n (fun _ _ => False) (lookup_insert_eq _ _ _) eq_refl eq_refl _ _ _ _ _ _ _ _ Hreach Hfull)| |done].
  - intros y z Hy. pose proof (term_fresh y ltac:(by eexists)). rewrite lookup_insert_ne by lia. rewrite Hold by lia.
    by rewrite lookup_insert_ne by lia.
  - intros y z Hne. rewrite lookup_insert_ne by done. intros Hy. destruct (decide (Pos.succ x <= y < n)%positive) as [Hr'|Hr'].
    + destruct (Hin y Hr') as [j Hj]. destruct (Hbits j _ Hj) as (? & [= <-] & _ & Hy2). rewrite Hy2 in Hy. injection Hy as <-.
      right. split; [lia|by eexists].
    + rewrite Hold, lookup_insert_ne in Hy by lia. by left.
  - lia.
  - lia.
  - intros l Hl. rewrite lookup_insert_ne by lia. rewrite Hold, lookup_insert_ne by lia. apply Hnone. lia.
  - exact Hlast.
  - intros o ? ? ? [= <- <- <- <-]. apply all_left, Forall_lookup. intros j y Hj. destruct (Hbits _ _ Hj) as (z & -> & _). by eexists.
  - rewrite insert_insert_eq. cbn.
    refine (objects_wf_add_bus (termHeap (str s)) h _ x v (mkHeader d id name (mkTerm (flat_end (str s) r) dir)) msb lsb bits r (Z.to_nat w) n
      (sw_terms _ _ W) term_fresh _ Hc Hr Hid (after_free id Hlast) Hname). by rewrite Z2Nat.id.
  - cbn beta. intros _ s' (W' & C' & H). split; [exact W'|]. split; [exact C'|].
    rewrite insert_insert_eq in H. by exists w, v, bits, h, n.
Qed.

Lemma createTermBits_ok (o : header term_fields) msb lsb w (Q : unit -> netlist -> Prop) E :
  let x := next (str s) in getWidth msb lsb = Ret w ->
  (forall bits h n, createBits x msb lsb 0 (Z.to_nat w) (<[x:=Bus o msb lsb []]> (termHeap (str s))) (Pos.succ x) = (bits, h, n) ->
     Q tt (set_str (with_terms (terms_ (str s)) (<[x:=Bus o msb lsb bits]> h) n (str s)) s)) ->
  wp (createTermBits x) (set_str (with_terms (terms_ (str s)) (<[x:=Bus o msb lsb []]> (termHeap (str s))) (Pos.succ x) (str s)) s) Q E.
Proof.
  intros x Hw HQ. unfold createTermBits, with_terms. ct_run. eapply wp_lift; [exact Hw|]. ct_run.
  destruct (createBits _ _ _ _ _ _ _) as [[bits h] n] eqn:Hc. ct_run. exact (HQ _ _ _ eq_refl).
Qed.

Lemma busTerm_create_ok dir msb lsb name w : room 32 (objects r) -> getWidth msb lsb = Ret w ->
  wp (busTerm_create d dir msb lsb name) s (fun x s' => struct_wf (str s') /\ conn_wf s' /\ x = next (str s) /\
    exists id, busTerm_entered id name msb lsb dir s') (unchanged s).
Proof.
  intros Hroom Hw. destruct (new_term_id Hroom) as (Hid & _ & Hlast). unfold busTerm_create. rewrite wp_bind.
  apply term_preCreate_ok. intros Hname. ct_run. eapply createTermBits_ok; [exact Hw|]. intros bits h n Hc.
  unfold addTermAndSetID, with_terms. ct_run. rewrite insert_insert_eq.
  eapply wp_mono; [exact (addTerm_bus 0 (next_id 32 (objects r)) name dir msb lsb w _ bits h n (fun _ _ => False) Hid Hlast Hname Hw Hc)| |done].
  cbn beta. intros _ s' (W' & C' & H). rewrite wp_ret. eauto.
Qed.
Lemma busTerm_create_id_ok dir id msb lsb name w :
  0 <= id < 2 ^ 32 -> (forall k l, objects r !! k = Some l -> k < id) -> getWidth msb lsb = Ret w ->
  wp (busTerm_create_id d id dir msb lsb name) s (fun x s' => struct_wf (str s') /\ conn_wf s' /\ x = next (str s) /\
    busTerm_entered id name msb lsb dir s') (unchanged s).
Proof.
  intros Hid Hlast Hw. unfold busTerm_create_id. rewrite wp_bind.
  apply term_preCreate_id_ok. intros Hname _. ct_run. eapply createTermBits_ok; [exact Hw|]. intros bits h n Hc.
  rewrite wp_bind. eapply wp_mono; [exact (addTerm_bus 0 id name dir msb lsb w _ bits h n (fun _ _ => False) Hid Hlast Hname Hw Hc)| |done].
  cbn beta. intros _ s' (W' & C' & H). rewrite wp_ret. eauto.
Qed.
End create.

(** * Renaming *)

Section rename.
Context (h : gmap loc SNLTerm) (x : loc) (v : SNLTerm) (o : header term_fields) (name : Z).
Context (Hx : h !! x = Some v) (Hv : header_of v = Some o).
Local Notation o' := (mkHeader (h_design o) (h_id o) name (h_extra o)).
Local Notation h' := (<[x:=set_header o' v]> h).

Lemma rename_info y : bit_info h' y = bit_info h y /\ getFlatID h' y = getFlatID h y.
Proof.
  unfold bit_info, getFlatID. destruct (decide (x = y)) as [<-|Hne].
  - rewrite lookup_insert_eq, Hx. destruct v as [a|a m l bs|b i]; [..|done]; injection Hv as ->; done.
  - rewrite lookup_insert_ne by done. destruct (h !! y) as [[a|a m l bs|b i]|]; try done.
    destruct (decide (x = b)) as [<-|Hb]; [|by rewrite lookup_insert_ne]. rewrite lookup_insert_eq, Hx.
    destruct v as [a|a m l bs|c j]; [..|done]; injection Hv as ->; done.
Qed.
Lemma rename_lookup y z : h' !! y = Some z ->
  exists z', h !! y = Some z' /\ term_width z = term_width z' /\
    (forall a, header_of z = Some a -> exists a', header_of z' = Some a' /\ h_design a = h_design a' /\ h_id a = h_id a' /\ h_extra a = h_extra a').
Proof.
  intros [[<- <-]|[_ Hy]]%lookup_insert_Some; [|eauto 10]. exists v. split; [done|]. split; [by destruct v|].
  intros a Ha. exists o. split; [done|]. destruct v; cbn in Ha; [..|done]; by injection Ha as <-.
Qed.
End rename.

Lemma term_setName_ok X s x v o name :
  struct_wf_except X (str s) -> conn_wf s -> termHeap (str s) !! x = Some v -> header_of v = Some o ->
  wp (term_setName x name) s (fun _ s' => struct_wf_except X (str s') /\ conn_wf s' /\
    exists regs, s' = set_str (with_terms regs (<[x:=set_header (mkHeader (h_design o) (h_id o) name (h_extra o)) v]> (termHeap (str s)))
      (next (str s)) (str s)) s) (unchanged s).
Proof.
  intros W C Hx Hv. unfold term_setName. wp_read Hx. cbn beta. rewrite Hv.
  destruct (Z.eqb_spec (h_name o) name) as [<-|Hne].
  { apply wp_ret. split; [done|]. split; [done|]. exists (terms_ (str s)). rewrite insert_id; [by destruct s as [[]]|].
    rewrite Hx. f_equal. destruct o. by destruct v; cbn in *; congruence. }
  destruct (ow_design _ _ (sw_terms _ _ W) _ _ _ Hx Hv) as [r Hr]. wp_read Hr. rewrite wp_bind. apply wp_check; [|done].
  intros Hfree. pose proof (name_free _ _ Hfree) as Hname. ct_run.
  destruct (represents_rename (ow_registry _ _ (sw_terms _ _ W) _ _ Hr)
    (fun y k m => (owns_object (termHeap (str s)) (h_design o) y k m /\ y <> x) \/ (y = x /\ k = h_id o /\ m = name))
    (h_id o) name (h_name o) x) as (r' & Hren & _); [by exists v, o|done|done|done|].
  eapply wp_deref; [exact Hren|]. ct_run.
  pose proof (objects_wf_rename (termHeap (str s)) (terms_ (str s)) x v o name r r' (sw_terms _ _ W) Hx Hv Hr (not_eq_sym Hne) Hname Hren) as Hwf.
  set (h' := <[x:=set_header (mkHeader (h_design o) (h_id o) name (h_extra o)) v]> (termHeap (str s))) in *.
  pose proof (rename_info (termHeap (str s)) x v o name Hx Hv) as Hinfo. fold h' in Hinfo.
  assert (W' : struct_wf_except X (with_terms (<[h_design o:=r']> (terms_ (str s))) h' (next (str s)) (str s))).
  { apply (struct_wf_terms W); [exact Hwf| |lia| | | | |].
    - intros d. rewrite lookup_insert_is_Some'. split; [intros [<-|?]; [by rewrite Hr|done]|by right].
    - intros l Hl. unfold h'. rewrite lookup_insert_ne; [by apply (sw_fresh _ _ W)|]. intros <-. destruct (sw_fresh _ _ W x Hl) as [E1 _]. congruence.
    - intros c [z Hc]. left. destruct (rename_lookup _ _ _ _ name Hx Hv _ _ Hc) as (z' & -> & _). by eexists.
    - intros y z vy vz oy oz Hy Hz Hoy Hoz Hd Hlt. destruct (rename_lookup _ _ _ _ name Hx Hv _ _ Hy) as (vy' & Hy' & -> & Hoy').
      destruct (Hoy' _ Hoy) as (ay & Hay & E1 & E2 & ->). destruct (rename_lookup _ _ _ _ name Hx Hv _ _ Hz) as (vz' & Hz' & _ & Hoz').
      destruct (Hoz' _ Hoz) as (az & Haz & E3 & E4 & ->). apply (sw_flat _ _ W _ _ _ _ _ _ Hy' Hz' Hay Haz); congruence.
    - intros it w _. by apply Hinfo.
    - intros i inst y Hi Hy HX. destruct (Hinfo y) as [E1 E2]. split_and!; [|done|done]. apply bit_info_term. apply bit_info_term in Hy.
      cbn in Hy. by rewrite E1 in Hy. }
  split; [exact W'|]. split; [|by eexists]. apply (conn_wf_terms X s _ _ _ C W').
  - intros it w Hit. split; [by apply Hinfo|]. by eapply referred_bit.
  - intros c m Hc Hno. split; [by apply Hinfo|]. by eapply connected_bit.
Qed.

(** * Bits as components *)

Lemma bit_component X t x d :
  struct_wf_except X t -> bit_term_of t x d ->
  comp_design t x = Some d /\ is_Some (comp_getNLID t x) /\ is_component t x.
Proof.
  intros W Hx. destruct (bit_term_header _ _ Hx) as (o & Ho & Hd). destruct Hx as [Hb Hdx].
  pose proof (sw_apart _ _ W x (is_bit_alive _ _ Hb)) as Hno. split_and!; [|  |by right].
  - unfold comp_design. by rewrite Hno.
  - unfold comp_getNLID, term_getNLID. rewrite Hno. destruct (is_bit_alive _ _ Hb) as [v ->]. cbn. rewrite Ho. cbn.
    destruct (term_design W _ _ Ho) as [D ->]. by eexists.
Qed.

Lemma getBits_bit X t x d y :
  struct_wf_except X t -> is_Some (termHeap t !! x) -> h_design <$> object_header (termHeap t) x = Some d ->
  y ∈ getBits (termHeap t) x -> bit_term_of t y d.
Proof.
  intros W [v Hv] Hd. unfold getBits. rewrite Hv. destruct v as [a|a m l bs|b i].
  - intros ->%list_elem_of_singleton. split; [|done]. unfold is_bit. rewrite Hv. by eexists.
  - intros [k Hk]%elem_of_getBusBits. pose proof (ow_bits _ _ (sw_terms _ _ W) _ _ _ _ _ _ _ Hv Hk) as Hy.
    unfold bit_term_of, is_bit, object_header in *. rewrite Hv in Hd. rewrite Hy, Hv. split; [by eexists|done].
  - intros ->%list_elem_of_singleton. split; [|done]. unfold is_bit. rewrite Hv. by eexists.
Qed.
Lemma NoDup_getBits X t x : struct_wf_except X t -> NoDup (getBits (termHeap t) x).
Proof.
  intros W. unfold getBits. destruct (termHeap t !! x) as [[a|a m l bs|b i]|] eqn:Hx; [apply NoDup_singleton| |apply NoDup_singleton|constructor].
  apply omap_NoDup. intros i j y. exact (bits_distinct (sw_terms _ _ W) _ _ _ _ _ _ _ _ Hx).
Qed.

Lemma setNet_noop s c (Q : unit -> netlist -> Prop) E : net_ s !! c = None -> Q tt s -> wp (setNet c None) s Q E.
Proof. intros Hc HQ. unfold setNet. ct_run. by rewrite Hc, bool_decide_eq_true_2. Qed.

Lemma disconnect_ok s xs E :
  conn_wf s -> (forall x, x ∈ xs -> exists d, comp_design (str s) x = Some d /\ is_Some (comp_getNLID (str s) x) /\ is_component (str s) x) ->
  wp (for_each (fun x => setNet x None) xs) s (fun _ s' => conn_wf s' /\
    rewired s (fun c => if decide (c ∈ xs) then None else net_ s !! c) s') E.
Proof.
  intros C Hxs. refine (wp_for_each _ (fun visited s' => conn_wf s' /\
    rewired s (fun c => if decide (c ∈ visited) then None else net_ s !! c) s') _ s E _ _).
  - split; [done|]. eapply rewired_ext; [|apply rewired_refl]. intros c. by rewrite decide_False by apply not_elem_of_nil.
  - intros visited x rest s1 -> [C1 R]. destruct (Hxs x ltac:(set_solver)) as (d & Hd & [k Hk] & Hcomp). rewrite <- (rw_str _ _ _ R) in Hd, Hk, Hcomp.
    eapply wp_mono; [exact (setNet_None_ok s1 C1 x d k Hd Hk E Hcomp)| |done]. cbn beta. intros _ s2 [C2 R2]. split; [done|].
    eapply rewired_ext; [|exact (rewired_trans _ _ _ _ _ R R2)]. intros c. cbn. rewrite (rw_net _ _ _ R).
    destruct (decide (c = x)) as [->|Hne]; [by rewrite decide_True by set_solver|].
    destruct (decide (c ∈ visited)); [by rewrite decide_True by set_solver|by rewrite decide_False by set_solver].
Qed.

(** Registries and order identifiers are not part of connections. *)
Lemma conn_wf_registry s regs m : conn_wf s -> conn_wf (set_orders m (set_str (set_terms_ regs (str s)) s)).
Proof. intros [K A P]. split; [exact K|exact A|exact P]. Qed.

(** * Leaving the design *)

Section remove.
Context (s : netlist) (W : struct_wf (str s)) (C : conn_wf s) (x : loc) (v : SNLTerm) (o : header term_fields).
Context (Hx : termHeap (str s) !! x = Some v) (Hv : header_of v = Some o).
Context (r : registry loc) (Hr : terms_ (str s) !! h_design o = Some r) (Hreach : reaches (str s) (h_design o)).
Local Notation xs := (getBits (termHeap (str s)) x).

Lemma header_here : object_header (termHeap (str s)) x = Some o.
Proof. unfold object_header. rewrite Hx. destruct v; [by injection Hv as ->..|done]. Qed.

Lemma bits_here y : y ∈ xs -> bit_term_of (str s) y (h_design o).
Proof. apply (getBits_bit _ _ _ _ _ W); [by eexists|by rewrite header_here]. Qed.

(** Without its instance terminals. *)
Record unplugged_from (s1 : netlist) : Prop := {
  uf_wf : struct_wf_except (fun i y => i ∈ getSlaveInstances (str s) (h_design o) /\ y ∈ xs) (str s1);
  uf_conn : conn_wf s1;
  uf_gone : unplugged (fun _ => is_in (getSlaveInstances (str s) (h_design o)) xs) s s1 }.

Lemma removeTerm_ok E :
  wp (removeTerm (h_design o) x) s (fun _ s' => conn_wf s' /\ exists s1 m, unplugged_from s1 /\
    s' = set_orders m (set_str (set_terms_ (<[h_design o:=remove_object (h_id o) (h_name o) r]> (terms_ (str s))) (str s1)) s1)) E.
Proof.
  unfold removeTerm. wp_read Hx. wp_read Hv. rewrite wp_bind, wp_gets, wp_bind.
  eapply wp_mono; [apply (removeInstTerms_all_ok _ s (getSlaveInstances (str s) (h_design o)) (h_design o) xs E W C)| |done].
  - by eapply NoDup_slaves.
  - by eapply NoDup_getBits.
  - intros i Hi. exact (elem_of_slaves _ _ _ _ W Hi).
  - intros i y _ Hy. split; [by apply bits_here|by intros []].
  - cbn beta. intros _ s1 (W1 & C1 & U). destruct (up_str _ _ _ U) as (hi & ht & E1 & _).
    rewrite wp_bind. eapply wp_deref; [rewrite E1; exact Hr|]. unfold setOrderIDs. ct_run. split.
    + by apply conn_wf_registry.
    + exists s1. eexists. split; [|rewrite E1; reflexivity]. split; [|exact C1|exact U].
      eapply struct_wf_weaken; [|exact W1]. intros i y [[]|H]; exact H.
Qed.

(** No terminal of an instance is left that refers to one of its bits. *)
Lemma unreferred s1 it w : unplugged_from s1 -> instTermHeap (str s1) !! it = Some w -> bitTerm_ w ∉ xs.
Proof.
  intros [_ _ U] Hit Hin. destruct (up_str _ _ _ U) as (hi & ht & E1 & _ & Hht). rewrite E1 in Hit. cbn in Hit.
  rewrite Hht in Hit. destruct (instTermHeap (str s) !! it) as [w'|] eqn:Ew; [|done].
  destruct (is_in _ _ w') eqn:Ei; [done|]. injection Hit as ->.
  destruct (sw_instTerm _ _ W _ _ Ew) as (I & f & HI & _ & Hb). unfold is_in in Ei. apply bool_decide_eq_false_1 in Ei.
  apply Ei. split; [|done]. apply (Hreach _ _ HI). destruct (bits_here _ Hin) as [_ E2]. destruct Hb as [_ E3]. congruence.
Qed.

Context (h' : gmap loc SNLTerm).
Context (Hother : forall y, y <> x -> y ∉ xs -> h' !! y = termHeap (str s) !! y).
Context (Hgone : forall y, y = x \/ y ∈ xs -> h' !! y = None).

Lemma info_other y w : bit_info (termHeap (str s)) y = Some w -> y ∉ xs ->
  bit_info h' y = Some w /\ getFlatID h' y = getFlatID (termHeap (str s)) y.
Proof.
  intros Hw Hy. unfold bit_info, getFlatID in *. destruct (termHeap (str s) !! y) as [[a|a m l bs|b i]|] eqn:Ey; [|done| |done].
  - rewrite (Hother y), Ey; [done| |done]. intros ->. apply Hy. unfold getBits. rewrite Ey. by left.
  - destruct (termHeap (str s) !! b) as [[|a m l bs|]|] eqn:Eb; [done| |done..].
    assert (Hyx : y <> x) by (intros ->; rewrite Hx in Ey; injection Ey as ->; done).
    rewrite (Hother y Hyx Hy), Ey, (Hother b), Eb; [done| |].
    + intros ->. apply Hy. unfold getBits. rewrite Eb. apply elem_of_getBusBits. exists (bit_position m i).
      exact (proj1 (getBit_position (sw_terms _ _ W) _ _ _ _ _ _ _ Eb Ey)).
    + intros Hb%bits_here. destruct Hb as [[z Hz] _]. unfold is_bit in Hz. by rewrite Eb in Hz.
Qed.

Lemma objects_removed : objects_wf h' (<[h_design o:=remove_object (h_id o) (h_name o) r]> (terms_ (str s))).
Proof.
  eapply (objects_wf_remove _ _ _ x v o r (sw_terms _ _ W) Hx Hv Hr).
  - intros y. destruct (decide (y = x)) as [->|Hne]; [right; split; [apply Hgone; by left|by left]|].
    destruct (decide (y ∈ xs)) as [Hy|Hy]; [|left; by apply Hother]. right. split; [apply Hgone; by right|].
    right. unfold getBits in Hy. rewrite Hx in Hy. destruct v as [a|a m l bs|b i]; [by apply list_elem_of_singleton in Hy| |done].
    apply elem_of_getBusBits in Hy as [k Hk]. eexists. exact (ow_bits _ _ (sw_terms _ _ W) _ _ _ _ _ _ _ Hx Hk).
  - apply Hgone. by left.
  - intros y bit Hy. apply Hgone. right. destruct (ow_bit _ _ (sw_terms _ _ W) _ _ _ Hy) as (a & m & l & bs & Hb & _).
    unfold getBits. rewrite Hb. apply elem_of_getBusBits. exists (bit_position m bit).
    exact (proj1 (getBit_position (sw_terms _ _ W) _ _ _ _ _ _ _ Hb Hy)).
Qed.

(** The terminal and its bits deleted. *)
Lemma term_removed_wf s1 s2 :
  unplugged_from s1 -> conn_wf s2 -> str s2 = set_terms_ (<[h_design o:=remove_object (h_id o) (h_name o) r]> (terms_ (str s))) (str s1) ->
  (forall y, y ∈ xs -> net_ s2 !! y = None) ->
  struct_wf (set_termHeap h' (str s2)) /\ conn_wf (set_str (set_termHeap h' (str s2)) s2).
Proof.
  intros U C2 E2 Hnet. destruct (up_str _ _ _ (uf_gone _ U)) as (hi & ht & E1 & Hsame & Hht).
  assert (Eh : termHeap (str s1) = termHeap (str s)) by by rewrite E1.
  assert (W2 : struct_wf (with_terms (<[h_design o:=remove_object (h_id o) (h_name o) r]> (terms_ (str s))) h' (next (str s1)) (str s1))).
  { apply (struct_wf_terms (uf_wf _ U)).
    - exact objects_removed.
    - intros d. rewrite E1. cbn. rewrite lookup_insert_is_Some'. split; [intros [<-|?]; [by rewrite Hr|done]|by right].
    - lia.
    - intros l Hl. destruct (decide (l = x \/ l ∈ xs)) as [Hin|Hin]; [by apply Hgone|]. rewrite Hother by tauto.
      rewrite E1 in Hl. by apply (sw_fresh _ _ W).
    - intros c [z Hz]. left. rewrite Eh. destruct (decide (c = x \/ c ∈ xs)) as [Hin|Hin]; [by rewrite Hgone in Hz|].
      rewrite Hother in Hz by tauto. by eexists.
    - assert (Hdown : forall c z, h' !! c = Some z -> termHeap (str s) !! c = Some z).
      { intros c z Hz. destruct (decide (c = x \/ c ∈ xs)) as [Hin|Hin]; [by rewrite Hgone in Hz|]. by rewrite Hother in Hz by tauto. }
      intros y z vy vz oy oz Hy Hz. exact (sw_flat _ _ W _ _ _ _ _ _ (Hdown _ _ Hy) (Hdown _ _ Hz)).
    - intros it w Hit. pose proof (unreferred _ _ _ U Hit) as Hn. destruct (referred_bit _ _ _ _ (uf_wf _ U) Hit) as [u Hu].
      rewrite Eh in *. destruct (info_other _ _ Hu Hn) as [-> ->]. done.
    - intros i inst y Hi Hy _. apply bit_info_term in Hy as (id & c & j & Hy). cbn in Hy.
      assert (Hin : ~ (y = x \/ y ∈ xs)).
      { intros Hin. unfold bit_info in Hy. by rewrite (Hgone _ Hin) in Hy. }
      assert (Hold : is_Some (bit_info (termHeap (str s)) y)).
      { unfold bit_info in *. rewrite Hother in Hy by tauto. destruct (termHeap (str s) !! y) as [[a|a m l bs|b k]|]; [by eexists|done| |done].
        destruct (h' !! b) as [z|] eqn:Ez; [|done]. destruct (decide (b = x \/ b ∈ xs)) as [Hb|Hb]; [by rewrite Hgone in Ez|].
        rewrite Hother in Ez by tauto. rewrite Ez. by destruct z; eexists. }
      destruct Hold as [u Hu]. destruct (info_other _ _ Hu ltac:(tauto)) as [E3 E4]. rewrite Eh. split_and!; [|tauto|done].
      apply bit_info_term. rewrite Eh, Hu. rewrite E3 in Hy. injection Hy as ->. eauto. }
  assert (Et : set_termHeap h' (str s2) = with_terms (<[h_design o:=remove_object (h_id o) (h_name o) r]> (terms_ (str s))) h' (next (str s1)) (str s1))
    by by rewrite E2.
  rewrite Et. split; [exact W2|].
  assert (Et2 : with_terms (<[h_design o:=remove_object (h_id o) (h_name o) r]> (terms_ (str s))) h' (next (str s1)) (str s1) =
    with_terms (<[h_design o:=remove_object (h_id o) (h_name o) r]> (terms_ (str s))) h' (next (str s1)) (str s2)) by by rewrite E2.
  rewrite Et2 in *. apply (conn_wf_terms _ s2 _ _ _ C2 W2).
  - rewrite E2. cbn. rewrite Eh. intros it w Hit. pose proof (unreferred _ _ _ U Hit) as Hn.
    destruct (referred_bit _ _ _ _ (uf_wf _ U) Hit) as [u Hu]. rewrite Eh in Hu. destruct (info_other _ _ Hu Hn) as [-> _].
    rewrite Hu. split; [done|by eexists].
  - intros c m Hc. rewrite E2. cbn. rewrite Eh. intros Hno.
    assert (Hn : c ∉ xs) by (intros Hin; rewrite (Hnet _ Hin) in Hc; done).
    destruct (cw_alive _ C2 _ _ Hc) as (d & k & Hd & _ & _ & _ & Hcomp). rewrite E2 in Hd, Hcomp.
    assert (Hb : bit_term_of (str s) c d).
    { destruct Hcomp as [[w Hw]|Hb]; [cbn in Hw; congruence|]. unfold comp_design in Hd. cbn in Hd, Hb. rewrite Hno, Eh in Hd. rewrite Eh in Hb.
      by split. }
    apply bit_info_term in Hb as (? & ? & ? & Hu). destruct (info_other _ _ Hu Hn) as [-> _]. rewrite Hu. split; [done|by eexists].
Qed.
End remove.

(** * Destruction *)

(** The bits [xs] and the terminals of instances that refer to them are gone,
    and are connected no more; [f] is the heap of terminals that is left. *)
Record term_gone (s : netlist) (xs : list loc) (f : loc -> option SNLTerm) (s' : netlist) : Prop := {
  tg_struct : struct_wf (str s');
  tg_conn : conn_wf s';
  tg_heap y : termHeap (str s') !! y = f y;
  tg_instTerms c : instTermHeap (str s') !! c =
    match instTermHeap (str s) !! c with Some v => if decide (bitTerm_ v ∈ xs) then None else Some v | None => None end;
  tg_net c : net_ s' !! c = if decide (c ∈ xs) then None else
    match instTermHeap (str s) !! c with
    | Some v => if decide (bitTerm_ v ∈ xs) then None else net_ s !! c
    | None => net_ s !! c
    end;
  tg_nets : netHeap (str s') = netHeap (str s);
  tg_types : netTypes s' = netTypes s }.

(** The terminals but [x] and its bits [xs]. *)
Definition without_term (s : netlist) (x : loc) (xs : list loc) (y : loc) : option SNLTerm :=
  if decide (y = x \/ y ∈ xs) then None else termHeap (str s) !! y.

Section destroy.
Context (s : netlist) (W : struct_wf (str s)) (C : conn_wf s) (x : loc) (o : header term_fields).
Context (Hreach : reaches (str s) (h_design o)).

Lemma is_in_slaves v c : termHeap (str s) !! x = Some v -> header_of v = Some o ->
  forall w, instTermHeap (str s) !! c = Some w ->
  is_in (getSlaveInstances (str s) (h_design o)) (getBits (termHeap (str s)) x) w = bool_decide (bitTerm_ w ∈ getBits (termHeap (str s)) x).
Proof.
  intros Hx Hv w Hw. unfold is_in. apply bool_decide_ext. split; [by intros []|]. intros Hin. split; [|done].
  destruct (sw_instTerm _ _ W _ _ Hw) as (I & f & HI & _ & Hb). apply (Hreach _ _ HI).
  destruct (bits_here s W x v o Hx Hv _ Hin) as [_ E2]. destruct Hb as [_ E3]. congruence.
Qed.

Lemma scalarTerm_destroy_ok E :
  termHeap (str s) !! x = Some (Scalar o) -> wp (term_destroy x) s (fun _ s' => term_gone s [x] (without_term s x [x]) s') E.
Proof.
  intros Hx. unfold term_destroy. wp_read Hx. cbn beta iota. rewrite wp_bind.
  assert (Hbits : getBits (termHeap (str s)) x = [x]) by (unfold getBits; by rewrite Hx).
  assert (Hbit : bit_term_of (str s) x (h_design o)) by (apply (bits_here s W x (Scalar o) o Hx eq_refl); rewrite Hbits; by left).
  destruct (bit_component _ _ _ _ W Hbit) as (Hd & [k Hk] & Hcomp).
  eapply wp_mono; [exact (setNet_None_ok s C x _ k Hd Hk E Hcomp)| |done]. cbn beta. intros _ s0 [C0 R].
  pose proof (rw_str _ _ _ R) as Es. destruct (ow_design _ _ (sw_terms _ _ W) _ _ _ Hx eq_refl) as [r Hr].
  assert (W0 := W). assert (Hx0 := Hx). assert (Hr0 := Hr). rewrite <- Es in W0, Hx0, Hr0.
  rewrite wp_bind. eapply wp_mono; [exact (removeTerm_ok s0 W0 C0 x (Scalar o) o Hx0 eq_refl r Hr0 E)| |done].
  cbn beta. intros _ s2 (C2 & s1 & m & U & ->). unfold delete_bitTerm, delete_term. ct_run.
  destruct (up_str _ _ _ (uf_gone _ _ _ _ U)) as (hi & ht & E1 & Hsame & Hht). pose proof (up_net _ _ _ (uf_gone _ _ _ _ U)) as N1.
  rewrite Es in Hht. rewrite Es, Hbits in N1.
  assert (Hx1 : net_ s1 !! x = None).
  { rewrite N1, (sw_apart _ _ W) by by eexists. rewrite (rw_net _ _ _ R). by rewrite decide_True. }
  assert (Hh' : forall y, delete x (termHeap (str s)) !! y = if decide (y = x \/ y ∈ [x]) then None else termHeap (str s) !! y).
  { intros y. destruct (decide (y = x)) as [->|Hne]; [by rewrite lookup_delete_eq, decide_True by auto|].
    rewrite lookup_delete_ne, decide_False; [done| |done]. rewrite list_elem_of_singleton. tauto. }
  refine ((fun HH => _) (term_removed_wf s0 W0 x (Scalar o) o Hx0 eq_refl r Hr0 _ (delete x (termHeap (str s))) _ _ s1 _ U C2 eq_refl _)).
  - destruct HH as [W3 C3]. rewrite E1 in *. ct_simpl. rewrite Es in *. split.
    + exact W3.
    + destruct C3 as [K A P]. split; [exact K|exact A|exact P].
    + exact Hh'.
    + intros c. ct_simpl. cbn. rewrite Hht. destruct (instTermHeap (str s) !! c) as [w|] eqn:Ew; [|done].
      rewrite (is_in_slaves _ _ Hx eq_refl _ Ew), Hbits. case_bool_decide; case_decide; done.
    + intros c. ct_simpl. rewrite N1. destruct (decide (c ∈ [x])) as [->%list_elem_of_singleton|Hc]; [by rewrite N1 in Hx1|].
      rewrite (rw_net _ _ _ R). cbn. rewrite (decide_False (P := c = x)) by set_solver.
      destruct (instTermHeap (str s) !! c) as [w|] eqn:Ew; [|done].
      pose proof (is_in_slaves _ _ Hx eq_refl _ Ew) as Hin. rewrite Hbits in Hin. rewrite Hin. case_bool_decide; case_decide; done.
    + done.
    + ct_simpl. rewrite (up_types _ _ _ (uf_gone _ _ _ _ U)). exact (rw_types _ _ _ R).
  - rewrite Es. exact Hreach.
  - intros y Hy Hy'. rewrite Es. rewrite Hh', decide_False; [done|]. rewrite Es, Hbits in Hy'. tauto.
  - intros y Hy. rewrite Hh', decide_True; [done|]. by rewrite Es, Hbits in Hy.
  - intros y Hy. rewrite Es, Hbits in Hy. apply list_elem_of_singleton in Hy as ->. exact Hx1.
Qed.

(** Deleting disconnected bits. *)
Lemma delete_bits_ok s0 xs E :
  NoDup xs -> (forall y, y ∈ xs -> net_ s0 !! y = None) ->
  wp (for_each termBit_destroyFromBus xs) s0 (fun _ s' => exists h m, s' = set_orders m (set_str (set_termHeap h (str s0)) s0) /\
    forall y, h !! y = if decide (y ∈ xs) then None else termHeap (str s0) !! y) E.
Proof.
  intros Hnd Hnet. refine (wp_for_each _ (fun visited s' => exists h m, s' = set_orders m (set_str (set_termHeap h (str s0)) s0) /\
    forall y, h !! y = if decide (y ∈ visited) then None else termHeap (str s0) !! y) _ s0 E _ _).
  - exists (termHeap (str s0)), (orderIDs s0). split; [by destruct s0 as [[]]|]. intros y. by rewrite decide_False by apply not_elem_of_nil.
  - intros visited y rest s1 -> (h & m & -> & Hh). unfold termBit_destroyFromBus. rewrite wp_bind.
    apply setNet_noop; [apply Hnet; set_solver|]. unfold delete_bitTerm, delete_term. ct_run. eexists (delete y h), _. split; [reflexivity|].
    intros z. destruct (decide (z = y)) as [->|Hne]; [by rewrite lookup_delete_eq, decide_True by set_solver|].
    rewrite lookup_delete_ne, Hh by done. destruct (decide (z ∈ visited)); [by rewrite decide_True by set_solver|].
    by rewrite decide_False by set_solver.
Qed.

Lemma busTerm_destroy_ok msb lsb bits E :
  termHeap (str s) !! x = Some (Bus o msb lsb bits) -> wp (term_destroy x) s (fun _ s' => term_gone s (getBusBits bits) (without_term s x (getBusBits bits)) s') E.
Proof.
  intros Hx. unfold term_destroy. wp_read Hx. cbn beta iota. rewrite wp_bind.
  assert (Hbits : getBits (termHeap (str s)) x = getBusBits bits) by (unfold getBits; by rewrite Hx).
  assert (Hnd : NoDup (getBusBits bits)) by (rewrite <- Hbits; by eapply NoDup_getBits).
  assert (Hbit : forall y, y ∈ getBusBits bits -> bit_term_of (str s) y (h_design o))
    by (intros y Hy; apply (bits_here s W x _ o Hx eq_refl); by rewrite Hbits).
  destruct (ow_design _ _ (sw_terms _ _ W) _ _ _ Hx eq_refl) as [r Hr].
  eapply wp_mono; [exact (removeTerm_ok s W C x _ o Hx eq_refl r Hr E)| |done]. cbn beta. intros _ s2 (C2 & s1 & m & U & Es2).
  destruct (up_str _ _ _ (uf_gone _ _ _ _ U)) as (hi & ht & E1 & Hsame & Hht). pose proof (up_net _ _ _ (uf_gone _ _ _ _ U)) as N1.
  rewrite Hbits in N1. rewrite wp_bind. eapply wp_mono; [apply (disconnect_ok s2 (getBusBits bits) E C2)| |done].
  { intros y Hy. exists (h_design o). rewrite Es2. refine (bit_component _ (str s1) y (h_design o) (uf_wf _ _ _ _ U) _).
    rewrite E1. by apply Hbit. }
  cbn beta. intros _ s3 [C3 R3]. pose proof (rw_str _ _ _ R3) as Es3. pose proof (rw_net _ _ _ R3) as N3.
  rewrite wp_bind. eapply wp_mono; [apply (delete_bits_ok s3 (getBusBits bits) E Hnd)| |done].
  { intros y Hy. by rewrite N3, decide_True. }
  cbn beta. intros _ s4 (h & m4 & -> & Hh). unfold delete_term. ct_run.
  assert (Eheap : termHeap (str s3) = termHeap (str s)) by (rewrite Es3, Es2; cbn; by rewrite E1).
  assert (Hh' : forall y, delete x h !! y = if decide (y = x \/ y ∈ getBusBits bits) then None else termHeap (str s) !! y).
  { intros y. destruct (decide (y = x)) as [->|Hne]; [by rewrite lookup_delete_eq, decide_True by auto|].
    rewrite lookup_delete_ne, Hh, Eheap by done. destruct (decide (y ∈ _)); [by rewrite decide_True by auto|by rewrite decide_False by tauto]. }
  refine ((fun HH => _) (term_removed_wf s W x _ o Hx eq_refl r Hr Hreach (delete x h) _ _ s1 s3 U C3 _ _)).
  - destruct HH as [W4 C4]. split.
    + exact W4.
    + destruct C4 as [K A P]. split; [exact K|exact A|exact P].
    + exact Hh'.
    + intros c. ct_simpl. rewrite Es3, Es2. cbn. rewrite E1. cbn. rewrite Hht. destruct (instTermHeap (str s) !! c) as [w|] eqn:Ew; [|done].
      rewrite (is_in_slaves _ _ Hx eq_refl _ Ew), Hbits. case_bool_decide; case_decide; done.
    + intros c. ct_simpl. rewrite N3. destruct (decide (c ∈ getBusBits bits)); [done|]. rewrite Es2. cbn. rewrite N1.
      destruct (instTermHeap (str s) !! c) as [w|] eqn:Ew; [|done].
      pose proof (is_in_slaves _ _ Hx eq_refl _ Ew) as Hin. rewrite Hbits in Hin. rewrite Hin. case_bool_decide; case_decide; done.
    + ct_simpl. rewrite Es3, Es2. cbn. by rewrite E1.
    + ct_simpl. rewrite (rw_types _ _ _ R3), Es2. exact (up_types _ _ _ (uf_gone _ _ _ _ U)).
  - intros y Hy Hy'. rewrite Hh', decide_False; [done|]. rewrite Hbits in Hy'. tauto.
  - intros y Hy. rewrite Hh', decide_True; [done|]. by rewrite Hbits in Hy.
  - by rewrite Es3, Es2.
  - intros y Hy. rewrite N3, decide_True; [done|]. by rewrite Hbits in Hy.
Qed.
End destroy.
