(* ===== verification/InstanceSteps.v ===== *)
(** Instances: creation gives one terminal per bit terminal of the model, in
    flat order; destruction takes them all away (nl/netlist/snl/SNLInstance.cpp,
    SNLInstTerm.cpp and the instances_ and slaveInstances_ of SNLDesign.cpp). *)
From S2P Require Import Prelude NLID Store Bus Contents Connections DesignNets Interface InterfaceSteps InterfaceTerms TermLifetime.
Local Open Scope Z_scope.

Definition with_instances (regs : gmap loc (registry loc)) (sl : gmap loc (gmap NLID loc)) (hi : gmap loc SNLInstance)
    (ht : gmap loc SNLInstTerm) (n : loc) (t : structure) : structure :=
  mkStructure (designs t) (terms_ t) (nets_ t) regs sl (termHeap t) (netHeap t) hi ht n.

(** * The bit terminals of a design *)

Lemma elem_of_getBitTerms X t d x :
  struct_wf_except X t -> x ∈ getBitTerms t d <-> bit_term_of t x d.
Proof.
  intros W. unfold getBitTerms, getTerms. rewrite list_elem_of_bind. split.
  - intros (y & Hx & Hy). destruct (terms_ t !! d) as [r|] eqn:Hr; [|by apply not_elem_of_nil in Hy].
    apply elem_of_in_order in Hy as [k Hk]. destruct (registry_lookup _ _ _ _ _ W Hr Hk) as (v & o & Hv & Ho & Hd & _).
    apply (getBits_bit _ _ y d x W); [by eexists| |exact Hx].
    unfold object_header. rewrite Hv. destruct v; [by injection Ho as ->; cbn; rewrite Hd..|done].
  - intros Hx. destruct (bit_term_header _ _ Hx) as (o & Ho & Hd). destruct (flat_bounds W x o (proj1 Hx) Ho) as (y & v & f & Hy & Hv & _ & _ & Hc).
    exists y. split.
    + unfold getBits. rewrite Hy. destruct Hc as [[-> ->]|(m & l & bs & -> & Hi)]; [by left|]. apply elem_of_getBusBits. by eexists.
    + destruct (ow_design _ _ (sw_terms _ _ W) _ _ _ Hy Hv) as [r Hr]. rewrite Hd in Hr. rewrite Hr. apply elem_of_in_order. exists (h_id o).
      apply (rep_objects _ _ _ (ow_registry _ _ (sw_terms _ _ W) _ _ Hr)). exists (h_name o), v, o. done.
Qed.

(** The bits of [m] have the flat identifiers 0, 1, ...: none was removed. *)
Definition compact (t : structure) (m : loc) : Prop :=
  forall (k : nat) x, getBitTerms t m !! k = Some x -> getFlatID (termHeap t) x = Some k.

(** * Entering a design *)

Section create.
Context (s : netlist) (W : struct_wf (str s)) (C : conn_wf s) (d m : loc) (D M : design_fields).
Context (HD : designs (str s) !! d = Some D) (HM : designs (str s) !! m = Some M).
Context (r : registry loc) (Hr : instances_ (str s) !! d = Some r).

Definition instance_key (id : Z) : NLID :=
  nlid_object Instance (ref_db (reference_ D)) (ref_library (reference_ D)) (ref_design (reference_ D)) 0 id 0.

Lemma instance_key_unique j J id :
  instHeap (str s) !! j = Some J -> instance_getNLID (str s) J = Some (instance_key id) -> h_design J = d /\ h_id J = id.
Proof.
  intros Hj. unfold instance_getNLID, instance_key. destruct (designs (str s) !! h_design J) as [D'|] eqn:E; [|done]. cbn.
  intros [= E1 E2 E3 E4]. split; [|done]. apply (sw_references _ _ W _ _ _ _ E HD).
  destruct (reference_ D'), (reference_ D). cbn in *. congruence.
Qed.

Definition new_slaves (id : Z) (i : loc) : gmap loc (gmap NLID loc) :=
  if primitive_ M then slaveInstances_ (str s)
  else <[m:=ordered_insert (instance_key id) i (slaves (str s) m)]> (slaveInstances_ (str s)).

Lemma wf_new_instance id name :
  0 <= id < 2 ^ 32 -> find_by_id id r = None -> (name <> 0 -> find_by_name name r = None) ->
  let i := next (str s) in
  let t' := with_instances (<[d:=add_object id name i r]> (instances_ (str s))) (new_slaves id i)
    (<[i:=mkHeader d id name (mkInst m [])]> (instHeap (str s))) (instTermHeap (str s)) (Pos.succ i) (str s) in
  struct_wf_except (fun j _ => j = i) t' /\ conn_wf (set_str t' s).
Proof.
  intros Hid Hfree Hname i t'.
  destruct (sw_fresh _ _ W i ltac:(lia)) as (Ft & Fn & Fi & Fit).
  assert (Hold : forall j J, instHeap (str s) !! j = Some J -> j <> i) by (intros j J Hj ->; congruence).
  assert (Hslot : forall j f, slot t' j f = slot (str s) j f).
  { intros j f. unfold slot. cbn. destruct (decide (i = j)) as [<-|Hne]; [by rewrite lookup_insert_eq, Fi|by rewrite lookup_insert_ne]. }
  assert (Hkeep : forall j J, instHeap (str s) !! j = Some J -> instHeap t' !! j = Some J).
  { intros j J Hj. cbn. rewrite lookup_insert_ne; [done|]. by apply not_eq_sym, (Hold j J). }
  assert (Hno : forall J j, instHeap (str s) !! j = Some J -> instance_getNLID (str s) J <> Some (instance_key id)).
  { intros J j Hj Hk. destruct (instance_key_unique _ _ _ Hj Hk) as [E1 E2].
    assert (objects r !! id = Some j); [|unfold find_by_id in Hfree; congruence].
    apply (rep_objects _ _ _ (ow_registry _ _ (sw_instances _ _ W) _ _ Hr)). exists (h_name J).
    rewrite <- E1, <- E2. by apply instance_owns. }
  assert (Hmkey : slaves (str s) m !! instance_key id = None).
  { apply eq_None_not_Some. intros [j Hj]. apply (sw_slaves _ _ W) in Hj as (J & D' & HJ & _ & _ & _ & Hk). by eapply Hno. }
  assert (W' : struct_wf_except (fun j _ => j = i) t').
  { split; try apply W.
    - cbn. rewrite fmap_insert. refine (objects_wf_add _ _ _ i (Scalar (mkHeader d id name (mkInst m []))) (mkHeader d id name (mkInst m [])) r (sw_instances _ _ W) _ _ eq_refl Hr Hid Hfree Hname _ _ _ _).
      + by rewrite lookup_fmap, Fi.
      + by rewrite lookup_insert_eq.
      + intros y z Hy. rewrite lookup_insert_ne; [done|]. intros <-. by rewrite lookup_fmap, Fi in Hy.
      + intros y z Hne. rewrite lookup_insert_ne by done. by left.
      + done.
      + intros y bit. destruct (decide (y = i)) as [->|Hne]; [by rewrite lookup_insert_eq|]. rewrite lookup_insert_ne, lookup_fmap by done.
        by destruct (instHeap (str s) !! y).
    - intros d'. cbn. rewrite lookup_insert_is_Some'. rewrite (sw_designs_instances _ _ W). split; [by right|].
      intros [<-|?]; [by rewrite Hr|done].
    - intros d' k j. change (instance_getNLID t') with (instance_getNLID (str s)).
      transitivity (default ∅ (slaveInstances_ (str s) !! d') !! k = Some j \/
        primitive_ M = false /\ d' = m /\ k = instance_key id /\ j = i).
      + cbn. unfold new_slaves. destruct (primitive_ M); [naive_solver|]. destruct (decide (m = d')) as [<-|Hne].
        * rewrite lookup_insert_eq. cbn. unfold ordered_insert. rewrite Hmkey, lookup_insert_Some. unfold slaves. split.
          -- intros [[<- <-]|[_ ?]]; [by right|by left].
          -- intros [Hk|(_ & _ & -> & ->)]; [|by left]. right. split; [|done]. intros <-. unfold slaves in Hmkey. congruence.
        * rewrite lookup_insert_ne by done. naive_solver.
      + rewrite (sw_slaves _ _ W). split.
        * intros [(J & D' & HJ & Hm & HD' & Hp & Hk)|(Hp & -> & -> & ->)].
          -- exists J, D'. split_and!; [by apply Hkeep|done..].
          -- exists (mkHeader d id name (mkInst m [])), M. split_and!; [apply lookup_insert_eq|done..|]. unfold instance_getNLID. cbn. by rewrite HD.
        * intros (J & D' & HJ & Hm & HD' & Hp & Hk). cbn in HJ. apply lookup_insert_Some in HJ as [[<- <-]|[_ HJ]].
          -- right. cbn in Hm, HD'. subst d'. rewrite HM in HD'. injection HD' as <-. unfold instance_getNLID in Hk. cbn in Hk.
             rewrite HD in Hk. injection Hk as <-. done.
          -- left. exists J, D'. done.
    - intros j J HJ. cbn in HJ. apply lookup_insert_Some in HJ as [[<- <-]|[_ HJ]]; [by eexists|by eapply (sw_model _ _ W)].
    - intros j f it. rewrite Hslot. apply (sw_slots _ _ W).
    - intros it v Hit. destruct (sw_instTerm _ _ W it v Hit) as (J & f & HJ & Hs & Hb). exists J, f. rewrite Hslot. split; [by apply Hkeep|done].
    - intros j J x HJ Hx Hne. cbn in HJ. apply lookup_insert_Some in HJ as [[<- <-]|[_ HJ]]; [done|]. setoid_rewrite Hslot.
      apply (sw_complete _ _ W j J x HJ Hx). by intros [].
    - intros l Hl. cbn in *. destruct (sw_fresh _ _ W l ltac:(lia)) as (? & ? & ? & ?). split_and!; [done..| |done].
      rewrite lookup_insert_ne by lia. done. }
  split; [exact W'|]. refine (conn_wf_struct _ s t' C W' eq_refl _). intros c n _ Hc.
  unfold comp_design, comp_getNLID, instTerm_getNLID, is_component in *. cbn.
  destruct (instTermHeap (str s) !! c) as [v|] eqn:Ec; [|split_and!; [done..|exact Hc]].
  destruct (sw_instTerm _ _ W _ _ Ec) as (J & f & HJ & _). rewrite (lookup_insert_ne _ i) by (by apply not_eq_sym, (Hold _ J)).
  split_and!; [done..|by left].
Qed.

(** ** Creation *)

(** The state when instance [i] and its terminals exist. *)
Definition instance_entered (id name : Z) (s' : netlist) : Prop :=
  let i := next (str s) in
  plugged (set_str (with_instances (<[d:=add_object id name i r]> (instances_ (str s))) (new_slaves id i)
    (<[i:=mkHeader d id name (mkInst m [])]> (instHeap (str s))) (instTermHeap (str s)) (Pos.succ i) (str s)) s) s' /\
  exists slots, instHeap (str s') !! i = Some (mkHeader d id name (mkInst m slots)) /\
    length slots = length (getBitTerms (str s) m).

Lemma commonPostCreate_ok id name E :
  compact (str s) m -> 0 <= id < 2 ^ 32 -> find_by_id id r = None -> (name <> 0 -> find_by_name name r = None) ->
  let i := next (str s) in
  wp (instance_commonPostCreate i)
    (set_str (with_instances (<[d:=add_object id name i r]> (instances_ (str s))) (slaveInstances_ (str s))
      (<[i:=mkHeader d id name (mkInst m [])]> (instHeap (str s))) (instTermHeap (str s)) (Pos.succ i) (str s)) s)
    (fun _ s' => struct_wf (str s') /\ conn_wf s' /\ instance_entered id name s') E.
Proof.
  intros Hcomp Hid Hfree Hname i. destruct (wf_new_instance id name Hid Hfree Hname) as [W' C']. fold i in W', C'.
  set (inst := mkHeader d id name (mkInst m [])) in *.
  set (s1 := set_str (with_instances (<[d:=add_object id name i r]> (instances_ (str s))) (new_slaves id i)
    (<[i:=inst]> (instHeap (str s))) (instTermHeap (str s)) (Pos.succ i) (str s)) s) in *.
  assert (Htail : wp (t ← gets str; for_each (createInstTerm i) (getBitTerms t m)) s1
    (fun _ s' => struct_wf (str s') /\ conn_wf s' /\ instance_entered id name s') E).
  { rewrite wp_bind, wp_gets. change (getBitTerms (str s1) m) with (getBitTerms (str s) m).
    eapply wp_mono; [apply (createInstTerms_ok _ s1 i inst (getBitTerms (str s) m) E W' C' (lookup_insert_eq _ _ _))| |done].
    - intros k x Hx. split; [|by apply Hcomp]. change (bit_term_of (str s) x m). apply (elem_of_getBitTerms _ _ _ _ W).
      by eapply list_elem_of_lookup_2.
    - cbn beta. intros _ s' (W2 & C2 & P & slots & Hslots & Hlen). split_and!; [|exact C2|split; [exact P|]].
      + eapply struct_wf_restrict; [|exact W2]. intros j J x HJ Hx [-> Hn]. apply Hn. split; [done|].
        rewrite Hslots in HJ. rewrite lookup_insert_eq in HJ. injection HJ as <-. cbn in Hx.
        apply (elem_of_getBitTerms _ _ _ _ W). destruct P as (hi & ht & n & E1 & _). rewrite E1 in Hx. exact Hx.
      + exists slots. rewrite Hslots, lookup_insert_eq. done. }
  unfold instance_commonPostCreate. rewrite wp_bind. eapply wp_deref; [exact (lookup_insert_eq _ _ _)|]. cbn beta zeta.
  rewrite wp_bind. eapply wp_deref; [exact HM|]. rewrite wp_bind. unfold addSlaveInstance, with_instances in *.
  assert (Es1 : s1 = set_str (with_instances (<[d:=add_object id name i r]> (instances_ (str s)))
    (if primitive_ M then slaveInstances_ (str s) else <[m:=ordered_insert (instance_key id) i (slaves (str s) m)]> (slaveInstances_ (str s)))
    (<[i:=inst]> (instHeap (str s))) (instTermHeap (str s)) (Pos.succ i) (str s)) s) by done.
  destruct (primitive_ M) eqn:Ep.
  - rewrite wp_ret. rewrite Es1 in Htail. exact Htail.
  - rewrite wp_bind. eapply wp_deref; [exact (lookup_insert_eq _ _ _)|]. rewrite wp_bind.
    eapply wp_deref; [unfold instance_getNLID; cbn; by rewrite HD|]. unfold change. rewrite wp_modify. rewrite Es1 in Htail. exact Htail.
Qed.

Lemma instance_preCreate_ok name (Q : unit -> netlist -> Prop) :
  (primitive_ D = false -> (name <> 0 -> find_by_name name r = None) -> Q tt s) -> wp (instance_preCreate d m name) s Q (unchanged s).
Proof.
  intros HQ. unfold instance_preCreate. wp_read HD. wp_read HM. rewrite wp_bind. apply wp_check; [|done]. intros Hp%negb_true_iff.
  wp_read Hr. apply wp_check; [|done]. intros H. apply HQ; [done|by apply name_free].
Qed.

Lemma instance_create_ok name : compact (str s) m -> room 32 (objects r) ->
  wp (instance_create d m name) s (fun i s' => struct_wf (str s') /\ conn_wf s' /\ i = next (str s) /\
    exists id, instance_entered id name s') (unchanged s).
Proof.
  intros Hcomp Hroom. unfold instance_create. rewrite wp_bind. apply instance_preCreate_ok. intros _ Hname. ct_run.
  unfold addInstanceAndSetID, addInstance. ct_run. rewrite insert_insert_eq.
  destruct (next_id_fresh 32 (objects r)) as (Hfree & Hid & _); [|lia|].
  { apply room_bound; [|done]. intros k x [n Hx]%(rep_objects _ _ _ (ow_registry _ _ (sw_instances _ _ W) _ _ Hr)).
    by apply (rep_bound _ _ _ (ow_registry _ _ (sw_instances _ _ W) _ _ Hr)) in Hx as [? _]. }
  eapply wp_mono; [exact (commonPostCreate_ok (next_id 32 (objects r)) name (fun _ _ => False) Hcomp Hid Hfree Hname)| |done].
  cbn beta. intros _ s' (W' & C' & H). rewrite wp_ret. eauto.
Qed.
Lemma instance_create_id_ok id name : compact (str s) m -> 0 <= id < 2 ^ 32 ->
  wp (instance_create_id d m id name) s (fun i s' => struct_wf (str s') /\ conn_wf s' /\ i = next (str s) /\
    instance_entered id name s') (unchanged s).
Proof.
  intros Hcomp Hid. unfold instance_create_id, instance_preCreate_id. rewrite wp_bind, wp_bind. apply instance_preCreate_ok. intros _ Hname.
  wp_read Hr. apply wp_check; [|done]. intros Hfree%is_none_true. ct_run. unfold addInstance. ct_run.
  eapply wp_mono; [exact (commonPostCreate_ok id name (fun _ _ => False) Hcomp Hid Hfree Hname)| |done].
  cbn beta. intros _ s' (W' & C' & H). rewrite wp_ret. eauto.
Qed.
End create.

(** * Destruction *)

(** Disconnecting and deleting terminals of instances. *)
Definition without (ht : gmap loc SNLInstTerm) (gone : list (option loc)) (h : gmap loc SNLInstTerm) : Prop :=
  forall c, h !! c = if decide (Some c ∈ gone) then None else ht !! c.

Lemma conn_wf_drop s it :
  conn_wf s -> net_ s !! it = None -> termHeap (str s) !! it = None ->
  conn_wf (set_str (set_instTermHeap (delete it (instTermHeap (str s))) (str s)) s).
Proof.
  intros C Hnet Hno. apply conn_wf_change_str; [done|..].
  - intros c d k. unfold comp_design, comp_getNLID. cbn. destruct (decide (c = it)) as [->|Hne]; [|by rewrite lookup_delete_ne].
    rewrite lookup_delete_eq. unfold object_header. by rewrite Hno.
  - intros c n d k Hc. assert (c <> it) by congruence. unfold comp_design, comp_getNLID, is_component. cbn. by rewrite lookup_delete_ne.
  - intros c k Hc. assert (c <> it) by congruence. unfold comp_getNLID. cbn. by rewrite lookup_delete_ne.
Qed.

Lemma destroy_slots_ok s slots E :
  conn_wf s ->
  (forall (f g : nat) it, slots !! f = Some (Some it) -> slots !! g = Some (Some it) -> f = g) ->
  (forall (f : nat) it, slots !! f = Some (Some it) -> is_Some (instTermHeap (str s) !! it) /\ termHeap (str s) !! it = None /\
     exists d, comp_design (str s) it = Some d /\ is_Some (comp_getNLID (str s) it)) ->
  wp (for_each destroy_slot slots) s (fun _ s' => conn_wf s' /\ netTypes s' = netTypes s /\ orderIDs s' = orderIDs s /\
    (forall c, net_ s' !! c = if decide (Some c ∈ slots) then None else net_ s !! c) /\
    exists h, without (instTermHeap (str s)) slots h /\ str s' = set_instTermHeap h (str s)) E.
Proof.
  intros C Huniq Hit. refine (wp_for_each destroy_slot (fun visited s' => conn_wf s' /\ netTypes s' = netTypes s /\ orderIDs s' = orderIDs s /\
    (forall c, net_ s' !! c = if decide (Some c ∈ visited) then None else net_ s !! c) /\
    exists h, without (instTermHeap (str s)) visited h /\ str s' = set_instTermHeap h (str s)) _ s E _ _).
  { split_and!; [done..| |].
    - intros c. by rewrite decide_False by apply not_elem_of_nil.
    - exists (instTermHeap (str s)). split; [|by destruct s as [[]]]. intros c. by rewrite decide_False by apply not_elem_of_nil. }
  intros visited [it|] rest s1 Hl (C1 & T1 & O1 & N1 & h & Hh & E1); unfold destroy_slot.
  2: { rewrite wp_ret. split_and!; [done..| |].
    - intros c. rewrite N1. destruct (decide (Some c ∈ visited)); [by rewrite decide_True by set_solver|by rewrite decide_False by set_solver].
    - exists h. split; [|done]. intros c. rewrite Hh. destruct (decide (Some c ∈ visited)); [by rewrite decide_True by set_solver|by rewrite decide_False by set_solver]. }
  assert (Hlook : slots !! length visited = Some (Some it)) by by rewrite Hl, list_lookup_middle.
  assert (Hnew : Some it ∉ visited).
  { intros [j Hj]%list_elem_of_lookup_1. pose proof (lookup_lt_Some _ _ _ Hj).
    assert (j = length visited); [|lia]. apply (Huniq _ _ it); [|done]. by rewrite Hl, lookup_app_l. }
  destruct (Hit _ _ Hlook) as ([v Hv] & Hno & d & Hd & k & Hk).
  assert (Hv1 : instTermHeap (str s1) !! it = Some v) by (rewrite E1; cbn; by rewrite Hh, decide_False).
  assert (Hd1 : comp_design (str s1) it = Some d) by (unfold comp_design in *; rewrite Hv1; rewrite Hv in Hd; by rewrite E1).
  assert (Hk1 : comp_getNLID (str s1) it = Some k) by (unfold comp_getNLID in *; rewrite Hv1; rewrite Hv in Hk; by rewrite E1).
  unfold instTerm_destroyFromInstance. rewrite wp_bind.
  eapply wp_mono; [exact (setNet_None_ok s1 C1 it d k Hd1 Hk1 E ltac:(left; by eexists))| |done]. cbn beta. intros _ s2 [C2 R].
  unfold delete_instTerm, change. rewrite wp_modify. split_and!.
  - apply conn_wf_drop; [done| |].
    + by rewrite (rw_net _ _ _ R), decide_True.
    + rewrite (rw_str _ _ _ R), E1. exact Hno.
  - cbn. by rewrite (rw_types _ _ _ R).
  - cbn. by rewrite (rw_orders _ _ _ R).
  - intros c. cbn. rewrite (rw_net _ _ _ R), N1. destruct (decide (c = it)) as [->|Hne]; [by rewrite decide_True by set_solver|].
    destruct (decide (Some c ∈ visited)); [by rewrite decide_True by set_solver|by rewrite decide_False by set_solver].
  - exists (delete it h). split; [|cbn; by rewrite (rw_str _ _ _ R), E1]. intros c. destruct (decide (c = it)) as [->|Hne].
    + by rewrite lookup_delete_eq, decide_True by set_solver.
    + rewrite lookup_delete_ne, Hh by done.
      destruct (decide (Some c ∈ visited)); [by rewrite decide_True by set_solver|by rewrite decide_False by set_solver].
Qed.

Section destroy.
Context (s : netlist) (W : struct_wf (str s)) (C : conn_wf s) (i : loc) (inst : SNLInstance) (Hi : instHeap (str s) !! i = Some inst).

Lemma slots_distinct (f g : nat) it :
  instTerms_ (h_extra inst) !! f = Some (Some it) -> instTerms_ (h_extra inst) !! g = Some (Some it) -> f = g.
Proof.
  rewrite <- !getBitAtPosition_Some, <- !(slot_here i inst Hi). intros Hf Hg.
  destruct (sw_slots _ _ W _ _ _ Hf) as (x & Hx & Hfx). destruct (sw_slots _ _ W _ _ _ Hg) as (y & Hy & Hgy). congruence.
Qed.

(** Its terminals are those in its slots. *)
Lemma slots_all it : Some it ∈ instTerms_ (h_extra inst) <-> exists x, instTermHeap (str s) !! it = Some (mkInstTerm i x).
Proof.
  split.
  - intros [f Hf]%list_elem_of_lookup_1. rewrite <- getBitAtPosition_Some, <- (slot_here i inst Hi) in Hf.
    destruct (sw_slots _ _ W _ _ _ Hf) as (x & Hx & _). by exists x.
  - intros [x Hx]. destruct (sw_instTerm _ _ W _ _ Hx) as (I & f & HI & Hs & _). cbn in *.
    rewrite (slot_here i inst Hi), getBitAtPosition_Some in Hs. by eapply list_elem_of_lookup_2.
Qed.

(** The instance [i] and its terminals are gone, the terminals are connected no
    more, and the rest is as it was. *)
Record instance_gone (s' : netlist) : Prop := {
  ig_struct : struct_wf (str s');
  ig_conn : conn_wf s';
  ig_instances : instHeap (str s') = delete i (instHeap (str s));
  ig_instTerms c : instTermHeap (str s') !! c =
    match instTermHeap (str s) !! c with Some v => if decide (instance_ v = i) then None else Some v | None => None end;
  ig_net c : net_ s' !! c =
    match instTermHeap (str s) !! c with
    | Some v => if decide (instance_ v = i) then None else net_ s !! c
    | None => net_ s !! c
    end;
  ig_heaps : termHeap (str s') = termHeap (str s) /\ netHeap (str s') = netHeap (str s);
  ig_types : netTypes s' = netTypes s }.

Context (M : design_fields) (HM : designs (str s) !! model_ (h_extra inst) = Some M).
Context (r : registry loc) (Hr : instances_ (str s) !! h_design inst = Some r).

Definition old_slaves (k : NLID) : gmap loc (gmap NLID loc) :=
  if primitive_ M then slaveInstances_ (str s)
  else <[model_ (h_extra inst):=delete k (slaves (str s) (model_ (h_extra inst)))]> (slaveInstances_ (str s)).

Lemma wf_instance_gone k h :
  instance_getNLID (str s) inst = Some k -> without (instTermHeap (str s)) (instTerms_ (h_extra inst)) h ->
  struct_wf (with_instances (<[h_design inst:=remove_object (h_id inst) (h_name inst) r]> (instances_ (str s))) (old_slaves k)
    (delete i (instHeap (str s))) h (next (str s)) (str s)).
Proof.
  intros Hk Hh. set (t' := with_instances _ _ _ _ _ _).
  assert (Hslot : forall j f, j <> i -> slot t' j f = slot (str s) j f).
  { intros j f Hne. unfold slot. cbn. by rewrite lookup_delete_ne. }
  assert (Hgone : forall it v, h !! it = Some v -> instTermHeap (str s) !! it = Some v /\ instance_ v <> i).
  { intros it v. rewrite Hh. destruct (decide (Some it ∈ instTerms_ (h_extra inst))) as [|Hn]; [done|]. intros Hv. split; [done|].
    intros E1. apply Hn, slots_all. exists (bitTerm_ v). rewrite <- E1. by destruct v. }
  split; try apply W.
  - cbn. rewrite fmap_delete. refine (objects_wf_remove _ _ _ i (Scalar inst) inst r (sw_instances _ _ W) _ eq_refl Hr _ _ _).
    + by rewrite lookup_fmap, Hi.
    + intros y. destruct (decide (y = i)) as [->|Hne]; [right; rewrite lookup_delete_eq; auto|left; by rewrite lookup_delete_ne].
    + apply lookup_delete_eq.
    + intros y bit. rewrite lookup_fmap. by destruct (instHeap (str s) !! y).
  - intros d'. cbn. rewrite lookup_insert_is_Some'. rewrite (sw_designs_instances _ _ W). split; [by right|].
    intros [<-|?]; [by rewrite Hr|done].
  - intros d' k' j. change (instance_getNLID t') with (instance_getNLID (str s)).
    transitivity (default ∅ (slaveInstances_ (str s) !! d') !! k' = Some j /\ j <> i).
    + assert (Hi' : forall d k', default ∅ (slaveInstances_ (str s) !! d) !! k' = Some i <-> d = model_ (h_extra inst) /\ primitive_ M = false /\ k' = k).
      { intros d k2. rewrite (sw_slaves _ _ W). split.
        - intros (J & D' & HJ & Hm & HD' & Hp & Hk'). rewrite Hi in HJ. injection HJ as <-. rewrite <- Hm, HM in HD'. injection HD' as <-.
          rewrite Hk in Hk'. by injection Hk' as ->.
        - intros (-> & Hp & ->). exists inst, M. done. }
      cbn. unfold old_slaves. destruct (primitive_ M) eqn:Ep.
      * split; [|by intros []]. intros Hj. split; [done|]. intros ->. apply Hi' in Hj as (_ & ? & _). done.
      * destruct (decide (model_ (h_extra inst) = d')) as [<-|Hne].
        -- rewrite lookup_insert_eq. cbn. unfold slaves. rewrite lookup_delete_Some. split.
           ++ intros [Hkk Hj]. split; [done|]. intros ->. apply Hi' in Hj as (_ & _ & ->). done.
           ++ intros [Hj Hne]. split; [|done]. intros <-. apply Hne.
              assert (H2 := proj2 (Hi' (model_ (h_extra inst)) k) (conj eq_refl (conj eq_refl eq_refl))). congruence.
        -- rewrite lookup_insert_ne by done. split; [|by intros []]. intros Hj. split; [done|]. intros ->. apply Hi' in Hj as (-> & _). done.
    + rewrite (sw_slaves _ _ W). cbn. split.
      * intros [(J & D' & HJ & H) Hne]. exists J, D'. by rewrite lookup_delete_ne.
      * intros (J & D' & HJ & H). apply lookup_delete_Some in HJ as [Hne HJ]. split; [|done]. exists J, D'. done.
  - cbn. intros j J [_ HJ]%lookup_delete_Some. by eapply (sw_model _ _ W).
  - intros j f it Hs. destruct (decide (j = i)) as [->|Hne].
    { unfold slot in Hs. cbn in Hs. by rewrite lookup_delete_eq in Hs. }
    rewrite (Hslot _ _ Hne) in Hs. destruct (sw_slots _ _ W _ _ _ Hs) as (x & Hx & Hf). exists x. split; [|done]. cbn.
    rewrite Hh, decide_False; [done|]. intros [y Hy]%slots_all. rewrite Hx in Hy. injection Hy as ? _. done.
  - intros it v [Hv Hne]%Hgone. destruct (sw_instTerm _ _ W _ _ Hv) as (J & f & HJ & Hs & Hb). exists J, f.
    rewrite (Hslot _ _ Hne). split; [|done]. cbn. by rewrite lookup_delete_ne.
  - intros j J x HJ Hx _. cbn in HJ. apply lookup_delete_Some in HJ as [Hne HJ]. setoid_rewrite Hslot; [|by apply not_eq_sym]. exact (sw_complete _ _ W j J x HJ Hx ltac:(tauto)).
  - intros l Hl. cbn in *. destruct (sw_fresh _ _ W l Hl) as (? & ? & ? & ?). split_and!; [done..| |].
    + rewrite lookup_delete_None. by right.
    + rewrite Hh. by destruct (decide _).
  - intros c Hc. cbn. rewrite Hh. rewrite (sw_apart _ _ W c Hc). by destruct (decide _).
Qed.

Lemma instance_destroy_ok E : wp (instance_destroy i) s (fun _ s' => instance_gone s') E.
Proof.
  destruct (instance_design W _ _ Hi) as [D HD].
  assert (Hk : is_Some (instance_getNLID (str s) inst)) by (unfold instance_getNLID; rewrite HD; by eexists). destruct Hk as [k Hk].
  set (s1 := set_str (with_instances (<[h_design inst:=remove_object (h_id inst) (h_name inst) r]> (instances_ (str s))) (old_slaves k)
    (instHeap (str s)) (instTermHeap (str s)) (next (str s)) (str s)) s).
  assert (C1 : conn_wf s1) by (destruct C as [K A P]; split; [exact K|exact A|exact P]).
  assert (Hit : forall (f : nat) it, instTerms_ (h_extra inst) !! f = Some (Some it) -> is_Some (instTermHeap (str s1) !! it) /\ termHeap (str s1) !! it = None /\
     exists d, comp_design (str s1) it = Some d /\ is_Some (comp_getNLID (str s1) it)).
  { intros f it Hf%list_elem_of_lookup_2. apply slots_all in Hf as [x Hx]. cbn. split; [by eexists|]. split.
    - apply eq_None_not_Some. intros H. rewrite (sw_apart _ _ W _ H) in Hx. done.
    - eexists. exact (instTerm_component _ _ _ _ _ W Hx Hi). }
  assert (Htail : wp (for_each destroy_slot (instTerms_ (h_extra inst)) ;; delete_instance i) s1 (fun _ s' => instance_gone s') E).
  { rewrite wp_bind. eapply wp_mono; [exact (destroy_slots_ok s1 _ E C1 slots_distinct Hit)| |done].
    cbn beta. intros _ s2 (C2 & T2 & O2 & N2 & h & Hh & E2). unfold delete_instance, change. rewrite wp_modify.
    pose proof (wf_instance_gone k h Hk Hh) as W3.
    assert (Hgone : forall c, (if decide (Some c ∈ instTerms_ (h_extra inst)) then None else instTermHeap (str s) !! c) =
      match instTermHeap (str s) !! c with Some v => if decide (instance_ v = i) then None else Some v | None => None end).
    { intros c. destruct (instTermHeap (str s) !! c) as [v|] eqn:Ec; [|by destruct (decide _)].
      assert (Some c ∈ instTerms_ (h_extra inst) <-> instance_ v = i) as H.
      { rewrite slots_all, Ec. split; [by intros [x [= ->]]|]. intros E1. exists (bitTerm_ v). rewrite <- E1. by destruct v. }
      destruct (decide (Some c ∈ _)), (decide (instance_ v = i)); tauto. }
    rewrite E2. cbn in W3. split.
    - exact W3.
    - assert (Hconn : forall c n, net_ s2 !! c = Some n -> forall v, h !! c = Some v -> instance_ v <> i).
      { intros c n _ v Hv <-. rewrite Hh in Hv. cbn in Hv. rewrite Hgone in Hv. destruct (instTermHeap (str s) !! c); [|done].
        destruct (decide _) as [|Hn] in Hv; [done|]. injection Hv as ->. done. }
      assert (E3 : set_instHeap (delete i (instHeap (str s2))) (str s2) = with_instances (<[h_design inst:=remove_object (h_id inst) (h_name inst) r]> (instances_ (str s))) (old_slaves k)
        (delete i (instHeap (str s))) h (next (str s)) (str s)) by by rewrite E2.
      rewrite <- E2, E3.
      refine (conn_wf_struct _ s2 _ C2 W3 _ _); [by rewrite E2|].
      intros c n Hc Hcomp. rewrite E2 in *. unfold comp_design, comp_getNLID, instTerm_getNLID, is_component in *. cbn.
      cbn in Hcomp. destruct (h !! c) as [v|] eqn:Ec; [|split_and!; [done..|exact Hcomp]].
      rewrite (lookup_delete_ne _ i) by (apply not_eq_sym; by eapply Hconn). split_and!; [done..|by left].
    - done.
    - intros c. cbn. rewrite Hh. apply Hgone.
    - intros c. cbn. rewrite N2. cbn. destruct (decide (Some c ∈ _)) as [[x Hx]%slots_all|Hn]; [by rewrite Hx, decide_True|].
      destruct (instTermHeap (str s) !! c) as [v|] eqn:Ec; [|done]. rewrite decide_False; [done|]. intros E1. apply Hn, slots_all.
      exists (bitTerm_ v). rewrite Ec, <- E1. by destruct v.
    - done.
    - cbn. exact T2. }
  unfold instance_destroy. wp_read Hi. cbn beta zeta. wp_read HM. rewrite wp_bind. unfold removeSlaveInstance, removeInstance.
  assert (Es1 : s1 = set_str (with_instances (<[h_design inst:=remove_object (h_id inst) (h_name inst) r]> (instances_ (str s)))
    (if primitive_ M then slaveInstances_ (str s) else <[model_ (h_extra inst):=delete k (slaves (str s) (model_ (h_extra inst)))]> (slaveInstances_ (str s)))
    (instHeap (str s)) (instTermHeap (str s)) (next (str s)) (str s)) s) by done.
  destruct (primitive_ M) eqn:Ep.
  - rewrite wp_ret. ct_run. rewrite Es1 in Htail. rewrite wp_bind in Htail. exact Htail.
  - ct_run. rewrite Es1 in Htail. rewrite wp_bind in Htail. exact Htail.
Qed.
End destroy.

(** * Renaming *)

Lemma wf_instance_renamed X s i inst name r r' :
  struct_wf_except X (str s) -> conn_wf s -> instHeap (str s) !! i = Some inst -> instances_ (str s) !! h_design inst = Some r ->
  name <> h_name inst -> (name <> 0 -> find_by_name name r = None) -> rename_object (h_id inst) name (h_name inst) r = Some r' ->
  let t' := with_instances (<[h_design inst:=r']> (instances_ (str s))) (slaveInstances_ (str s))
    (<[i:=mkHeader (h_design inst) (h_id inst) name (h_extra inst)]> (instHeap (str s))) (instTermHeap (str s)) (next (str s)) (str s) in
  struct_wf_except X t' /\ conn_wf (set_str t' s).
Proof.
  intros W C Hi Hr Hne Hname Hren t'. set (inst' := mkHeader (h_design inst) (h_id inst) name (h_extra inst)) in *.
  assert (Hdown : forall j J, instHeap t' !! j = Some J -> exists J0, instHeap (str s) !! j = Some J0 /\ h_design J = h_design J0 /\
    h_id J = h_id J0 /\ h_extra J = h_extra J0).
  { intros j J HJ. cbn in HJ. apply lookup_insert_Some in HJ as [[<- <-]|[_ HJ]]; eauto. }
  assert (Hup : forall j J0, instHeap (str s) !! j = Some J0 -> exists J, instHeap t' !! j = Some J /\ h_design J = h_design J0 /\
    h_id J = h_id J0 /\ h_extra J = h_extra J0).
  { intros j J HJ. cbn. destruct (decide (i = j)) as [<-|Hij]; [|rewrite lookup_insert_ne by done; eauto].
    rewrite lookup_insert_eq. exists inst'. rewrite Hi in HJ. injection HJ as <-. done. }
  assert (Hslot : forall j f, slot t' j f = slot (str s) j f).
  { intros j f. unfold slot. destruct (instHeap (str s) !! j) as [J|] eqn:Ej.
    - destruct (Hup _ _ Ej) as (J' & -> & _ & _ & ->). done.
    - destruct (instHeap t' !! j) as [J'|] eqn:Ej'; [|done]. destruct (Hdown _ _ Ej') as (? & ? & _). congruence. }
  assert (Hkey : forall J J0, h_design J = h_design J0 -> h_id J = h_id J0 -> instance_getNLID t' J = instance_getNLID (str s) J0)
    by (intros J J0 E1 E2; unfold instance_getNLID; cbn; by rewrite E1, E2).
  assert (W' : struct_wf_except X t').
  { split; try apply W.
    - cbn. rewrite fmap_insert.
      exact (objects_wf_rename (Scalar <$> instHeap (str s)) _ i (Scalar inst) inst name r r' (sw_instances _ _ W)
        ltac:(by rewrite lookup_fmap, Hi) eq_refl Hr Hne Hname Hren).
    - intros d. cbn. rewrite lookup_insert_is_Some'. rewrite (sw_designs_instances _ _ W). split; [by right|].
      intros [<-|?]; [by rewrite Hr|done].
    - intros d k j. change (slaveInstances_ t') with (slaveInstances_ (str s)). rewrite (sw_slaves _ _ W). split.
      + intros (J & D & HJ & Hm & HD & Hp & Hk). destruct (Hup _ _ HJ) as (J' & HJ' & E1 & E2 & E3). exists J', D.
        rewrite (Hkey J' J) by done. rewrite E3. done.
      + intros (J & D & HJ & Hm & HD & Hp & Hk). destruct (Hdown _ _ HJ) as (J' & HJ' & E1 & E2 & E3). exists J', D.
        rewrite <- (Hkey J J') by done. rewrite <- E3. done.
    - intros j J HJ. destruct (Hdown _ _ HJ) as (J' & HJ' & E1 & E2 & E3). rewrite E3. by eapply (sw_model _ _ W).
    - intros j f it. rewrite Hslot. apply (sw_slots _ _ W).
    - intros it v Hit. destruct (sw_instTerm _ _ W it v Hit) as (J & f & HJ & Hs & Hb). destruct (Hup _ _ HJ) as (J' & HJ' & _ & _ & E3).
      exists J', f. rewrite Hslot, E3. done.
    - intros j J x HJ Hx HX. destruct (Hdown _ _ HJ) as (J' & HJ' & _ & _ & E3). rewrite E3 in Hx. setoid_rewrite Hslot.
      by apply (sw_complete _ _ W j J' x).
    - intros l Hl. destruct (sw_fresh _ _ W l Hl) as (? & ? & ? & ?). split_and!; [done..| |done]. cbn. rewrite lookup_insert_ne; [done|].
      intros <-. congruence. }
  split; [exact W'|]. refine (conn_wf_struct _ s t' C W' eq_refl _). intros c n _ Hc.
  unfold comp_design, comp_getNLID, instTerm_getNLID, is_component in *. cbn.
  destruct (instTermHeap (str s) !! c) as [v|] eqn:Ec; [|split_and!; [done..|exact Hc]].
  destruct (decide (i = instance_ v)) as [<-|Hij]; [rewrite lookup_insert_eq, Hi|rewrite lookup_insert_ne by done];
    (split_and!; [done..|by left]).
Qed.

Lemma instance_setName_ok X s i inst name r :
  struct_wf_except X (str s) -> conn_wf s -> instHeap (str s) !! i = Some inst -> instances_ (str s) !! h_design inst = Some r ->
  wp (instance_setName i name) s (fun _ s' => struct_wf_except X (str s') /\ conn_wf s' /\
    (forall l, instances_ (str s') !! h_design inst = Some l -> name <> 0 -> find_by_name name l = Some i) /\
    net_ s' = net_ s /\ instTermHeap (str s') = instTermHeap (str s)) (unchanged s).
Proof.
  intros W C Hi Hr. unfold instance_setName. wp_read Hi.
  assert (Hown : forall n, h_name inst = n -> owns_object (Scalar <$> instHeap (str s)) (h_design inst) i (h_id inst) n)
    by (intros n <-; by apply instance_owns).
  destruct (Z.eqb_spec (h_name inst) name) as [E1|Hne].
  { rewrite wp_ret. split_and!; [done..| |done|done]. rewrite Hr. intros l [= <-] Hn.
    apply (find_by_name_spec (ow_registry _ _ (sw_instances _ _ W) _ _ Hr) _ _ Hn). eauto. }
  wp_read Hr. rewrite wp_bind. apply wp_check; [|done]. intros Hfree. pose proof (name_free _ _ Hfree) as Hname.
  destruct (represents_rename (ow_registry _ _ (sw_instances _ _ W) _ _ Hr)
    (fun x k n => (owns_object (Scalar <$> instHeap (str s)) (h_design inst) x k n /\ x <> i) \/ (x = i /\ k = h_id inst /\ n = name))
    (h_id inst) name (h_name inst) i) as (r' & Hr' & R'); [by apply Hown|done|done|done|].
  ct_run. destruct (wf_instance_renamed X s i inst name r r' W C Hi Hr ltac:(done) Hname Hr') as [W' C'].
  split_and!; [exact W'|exact C'| |done|done]. rewrite lookup_insert_eq. intros l [= <-] Hn.
  apply (find_by_name_spec R' _ _ Hn). eauto.
Qed.
