(* ===== verification/TermBits.v ===== *)
(** Destroying one bit of a bus terminal. The bus forgets the bit before the
    instances lose their terminals; removing them commutes with that, so they
    can be thought of as removed first (nl/netlist/snl/SNLBusTerm.cpp,
    SNLBusTermBit.cpp). *)
From S2P Require Import Prelude NLID Store Bus Contents Connections DesignNets Interface InterfaceSteps InterfaceTerms TermLifetime.
Local Open Scope Z_scope.

(** * Programs that commute with a change of state *)

Definition commutes {S A} (f : S -> S) (m : prog S A) : Prop := forall s, m (f s) = ((m s).1, f (m s).2).

Section commutes.
Context {S : Type} (f : S -> S).

Lemma commutes_ret {A} (a : A) : commutes f (mret a).
Proof. done. Qed.
Lemma commutes_bind {A B} (m : prog S A) (k : A -> prog S B) :
  commutes f m -> (forall a, commutes f (k a)) -> commutes f (m ≫= k).
Proof.
  intros Hm Hk s. unfold mbind, prog_bind. rewrite Hm. destruct (m s) as [[a|e|] s']; [exact (Hk a s')|done..].
Qed.
Lemma commutes_gets {A} (g : S -> A) : (forall s, g (f s) = g s) -> commutes f (gets g).
Proof. intros H s. unfold gets. cbn. by rewrite H. Qed.
Lemma commutes_deref {A} (g : S -> option A) : (forall s, g (f s) = g s) -> commutes f (deref g).
Proof. intros H s. unfold deref. cbn. by rewrite H. Qed.
Lemma commutes_modify (g : S -> S) : (forall s, g (f s) = f (g s)) -> commutes f (modify g).
Proof. intros H s. unfold modify. cbn. by rewrite H. Qed.
Lemma commutes_for_each {A} (body : A -> prog S unit) l : (forall a, a ∈ l -> commutes f (body a)) -> commutes f (for_each body l).
Proof.
  induction l as [|a l IH]; intros H; [done|]. cbn. apply commutes_bind; [apply H; by left|]. intros _. apply IH. intros b Hb. apply H. by right.
Qed.
Lemma wp_commutes {A} (m : prog S A) s Q E :
  commutes f m -> wp m s (fun a s' => Q a (f s')) (fun e s' => E e (f s')) -> wp m (f s) Q E.
Proof. intros H. unfold wp. rewrite H. by destruct (m s) as [[a|e|] s']. Qed.
End commutes.

(** Changing the structure in a way that components do not notice. *)
Definition restructure (g : structure -> structure) (s : netlist) : netlist := set_str (g (str s)) s.

Record unnoticed (g : structure -> structure) : Prop := {
  un_nets t : netHeap (g t) = netHeap t;
  un_key t c : comp_getNLID (g t) c = comp_getNLID t c }.

Lemma commutes_setNet_None g c : unnoticed g -> commutes (restructure g) (setNet c None).
Proof.
  intros [Hn Hk]. unfold setNet. apply commutes_bind; [apply commutes_ret|]. intros bitNet.
  apply commutes_bind; [by apply commutes_gets|]. intros old. case_bool_decide; [apply commutes_ret|].
  apply commutes_bind; [|intros _; apply commutes_bind; [by apply commutes_modify|intros _]].
  - destruct old as [n|]; [|apply commutes_ret]. unfold removeComponent.
    apply commutes_bind; [apply commutes_deref; intros s; cbn; by rewrite Hn|]. intros _.
    apply commutes_bind; [apply commutes_deref; intros s; cbn; by rewrite Hk|]. intros k. by apply commutes_modify.
  - destruct bitNet as [n|]; [|apply commutes_ret]. unfold addComponent.
    apply commutes_bind; [apply commutes_deref; intros s; cbn; by rewrite Hn|]. intros _.
    apply commutes_bind; [apply commutes_deref; intros s; cbn; by rewrite Hk|]. intros k. by apply commutes_modify.
Qed.

(** And that leaves instance [i] and terminal [x] alone. *)
Record independent (g : structure -> structure) (i x : loc) : Prop := {
  in_unnoticed : unnoticed g;
  in_instance t : instHeap (g t) !! i = instHeap t !! i;
  in_header t : object_header (termHeap (g t)) x = object_header (termHeap t) x;
  in_flat t : getFlatID (termHeap (g t)) x = getFlatID (termHeap t) x;
  in_delete t it : set_instTermHeap (delete it (instTermHeap (g t))) (g t) = g (set_instTermHeap (delete it (instTermHeap t)) t);
  in_put t v : set_instHeap (<[i:=v]> (instHeap (g t))) (g t) = g (set_instHeap (<[i:=v]> (instHeap t)) t) }.

Lemma commutes_removeInstTerm g i x : independent g i x -> commutes (restructure g) (removeInstTerm i x).
Proof.
  intros [Hu Hi Hh Hf Hd Hp]. unfold removeInstTerm.
  apply commutes_bind; [apply commutes_deref; intros s; exact (Hi (str s))|]. intros inst.
  apply commutes_bind; [apply commutes_deref; intros s; exact (Hh (str s))|]. intros o.
  apply commutes_bind; [done|]. intros _.
  apply commutes_bind; [apply commutes_deref; intros s; exact (Hf (str s))|]. intros f.
  apply commutes_bind; [done|]. intros _. apply commutes_bind.
  - destruct (getBitAtPosition _ f) as [it|]; [|apply commutes_ret]. unfold instTerm_destroyFromInstance, delete_instTerm, change.
    apply commutes_bind; [by apply commutes_setNet_None|]. intros _. apply commutes_modify. intros s.
    unfold restructure. cbn. by rewrite Hd.
  - intros _. apply commutes_bind; [apply commutes_deref; intros s; exact (Hi (str s))|]. intros inst'.
    unfold put_instance, change. apply commutes_modify. intros s. unfold restructure. cbn. by rewrite Hp.
Qed.

(** * Forgetting a bit *)

(** A change of the terminals that keeps what their bits are. *)
Definition on_terms (phi : gmap loc SNLTerm -> gmap loc SNLTerm) (t : structure) : structure := set_termHeap (phi (termHeap t)) t.
Lemma on_terms_independent phi i x :
  (forall h y, object_header (phi h) y = object_header h y) -> (forall h y, is_bit (phi h) y = is_bit h y) ->
  (forall h y, is_Some (phi h !! y) <-> is_Some (h !! y)) ->
  (forall h y b k, phi h !! y = Some (Bit b k) <-> h !! y = Some (Bit b k)) ->
  (forall h, getFlatID (phi h) x = getFlatID h x) -> independent (on_terms phi) i x.
Proof.
  intros Hh Hb Hs Hbit Hf. split; try done; [|intros; exact (Hh _ _)|intros; exact (Hf _)]. split; [done|]. intros t c.
  unfold comp_getNLID, instTerm_getNLID, term_getNLID. cbn. rewrite Hh. destruct (instTermHeap t !! c) as [v|].
  { by rewrite Hh, Hb. }
  specialize (Hs (termHeap t) c). specialize (Hbit (termHeap t) c).
  destruct (phi (termHeap t) !! c) as [w|] eqn:E1, (termHeap t !! c) as [w'|] eqn:E2; [|by destruct (proj1 Hs); eauto|by destruct (proj2 Hs); eauto|done].
  destruct w as [| |b k], w' as [| |b' k']; try done.
  1,2: by pose proof (proj2 (Hbit b' k') eq_refl).
  1,2: by pose proof (proj1 (Hbit b k) eq_refl).
  pose proof (proj1 (Hbit b k) eq_refl) as Heq. by injection Heq as -> ->.
Qed.

(** The bus [b] without the bit at position [p]. *)
Definition forget (b : loc) (p : nat) (h : gmap loc SNLTerm) : gmap loc SNLTerm :=
  match h !! b with Some (Bus o m l bits) => <[b:=Bus o m l (<[p:=None]> bits)]> h | _ => h end.

Lemma forget_lookup b p h y :
  forget b p h !! y = if decide (y = b) then
    match h !! b with Some (Bus o m l bits) => Some (Bus o m l (<[p:=None]> bits)) | v => v end else h !! y.
Proof.
  unfold forget. destruct (h !! b) as [[| o m l bs|]|] eqn:E; destruct (decide (y = b)) as [->|Hne]; try done.
  - by rewrite lookup_insert_eq.
  - by rewrite lookup_insert_ne.
Qed.

Lemma forget_independent b p i x : independent (on_terms (forget b p)) i x.
Proof.
  apply on_terms_independent.
  - intros h y. unfold object_header. rewrite forget_lookup. destruct (decide (y = b)) as [->|Hne].
    + destruct (h !! b) as [[|o m l bs|c k]|] eqn:E; try done. rewrite forget_lookup. destruct (decide (c = b)) as [->|]; [|done]. by rewrite E.
    + destruct (h !! y) as [[|o m l bs|c k]|]; try done. rewrite forget_lookup. destruct (decide (c = b)) as [->|]; [|done].
      by destruct (h !! b) as [[]|].
  - intros h y. unfold is_bit. rewrite forget_lookup. destruct (decide (y = b)) as [->|Hne]; [|done]. by destruct (h !! b) as [[]|].
  - intros h y. rewrite forget_lookup. destruct (decide (y = b)) as [->|Hne]; [|done]. destruct (h !! b) as [[]|]; split; intros [? ?]; eauto.
  - intros h y c k. rewrite forget_lookup. destruct (decide (y = b)) as [->|Hne]; [|done]. by destruct (h !! b) as [[]|].
  - intros h. unfold getFlatID. rewrite forget_lookup. destruct (decide (x = b)) as [->|Hne].
    + destruct (h !! b) as [[|o m l bs|c k]|] eqn:E; try done. rewrite forget_lookup. destruct (decide (c = b)) as [->|]; [|done]. by rewrite E.
    + destruct (h !! x) as [[|o m l bs|c k]|]; try done. rewrite forget_lookup. destruct (decide (c = b)) as [->|]; [|done].
      by destruct (h !! b) as [[]|].
Qed.

(** * Destroying a bit *)

Lemma wp_ext {S A} (m m' : prog S A) s Q E : m s = m' s -> wp m' s Q E -> wp m s Q E.
Proof. unfold wp. by intros ->. Qed.
Lemma for_each_ext {S A} (f g : A -> prog S unit) l : (forall a s, f a s = g a s) -> forall s, for_each f l s = for_each g l s.
Proof.
  intros H. induction l as [|a l IH]; intros s; [done|]. cbn. unfold mbind, prog_bind. rewrite H. destruct (g a s) as [[?|?|] s']; [apply IH|done..].
Qed.
Lemma bind_ret_unit {S} (m : prog S unit) s : (m ;; mret tt) s = m s.
Proof. unfold mbind, prog_bind. by destruct (m s) as [[[]|?|] s']. Qed.

Lemma removeInstTerm_each_ok s x d insts E :
  struct_wf (str s) -> conn_wf s -> NoDup insts -> bit_term_of (str s) x d ->
  (forall i, i ∈ insts -> exists inst, instHeap (str s) !! i = Some inst /\ model_ (h_extra inst) = d) ->
  wp (for_each (fun i => removeInstTerm i x) insts) s
    (fun _ s' => struct_wf_except (fun j y => j ∈ insts /\ y = x) (str s') /\ conn_wf s' /\
      unplugged (fun _ => is_in insts [x]) s s') E.
Proof.
  intros W C Hnd Hx His. apply (wp_ext _ (for_each (fun i => for_each (removeInstTerm i) [x]) insts)).
  { apply for_each_ext. intros i s'. symmetry. exact (bind_ret_unit (removeInstTerm i x) s'). }
  eapply wp_mono; [apply (removeInstTerms_all_ok _ s insts d [x] E W C Hnd (NoDup_singleton x) His)| |done].
  - intros i y _ ->%list_elem_of_singleton. split; [done|by intros []].
  - cbn beta. intros _ s' (W' & C' & U). split_and!; [|done|done]. eapply struct_wf_weaken; [|exact W'].
    intros i y [[]|[? ->%list_elem_of_singleton]]. done.
Qed.

(** The structural part of [unplugged]. *)
Definition unplugged_str (P : SNLInstTerm -> bool) (t t1 : structure) : Prop :=
  exists hi ht, t1 = with_instTerms hi ht (next t) t /\ same_instances (instHeap t) hi /\
    forall c, ht !! c = match instTermHeap t !! c with Some v => if P v then None else Some v | None => None end.

Section destroy_bit.
Context (s : netlist) (W : struct_wf (str s)) (C : conn_wf s) (x b : loc) (bit : Z) (o : header term_fields) (msb lsb : Z) (bits : list (option loc)).
Context (Hx : termHeap (str s) !! x = Some (Bit b bit)) (Hb : termHeap (str s) !! b = Some (Bus o msb lsb bits)).
Context (Hreach : reaches (str s) (h_design o)).
Local Notation p := (bit_position msb bit).

Lemma bit_term_here : bit_term_of (str s) x (h_design o).
Proof. unfold bit_term_of, is_bit, object_header. rewrite Hx, Hb. split; [by eexists|done]. Qed.
Lemma bit_here : bits !! p = Some (Some x).
Proof. exact (proj1 (getBit_position (sw_terms _ _ W) _ _ _ _ _ _ _ Hb Hx)). Qed.
Lemma bit_not_bus : x <> b.
Proof. intros ->. congruence. Qed.

Definition without_bit : gmap loc SNLTerm := delete x (forget b p (termHeap (str s))).

Lemma without_bit_lookup y : without_bit !! y =
  if decide (y = x) then None else if decide (y = b) then Some (Bus o msb lsb (<[p:=None]> bits)) else termHeap (str s) !! y.
Proof.
  unfold without_bit. destruct (decide (y = x)) as [->|Hne]; [by rewrite lookup_delete_eq|]. rewrite lookup_delete_ne, forget_lookup by done.
  destruct (decide (y = b)); [by rewrite Hb|done].
Qed.

Lemma without_bit_wf : objects_wf without_bit (terms_ (str s)).
Proof.
  pose proof bit_not_bus as Hxb.
  refine (objects_wf_change_bus _ without_bit _ b o msb lsb bits msb lsb (<[p:=None]> bits) (sw_terms _ _ W) Hb _ _ _ _ _).
  - rewrite without_bit_lookup, decide_False, decide_True by done. done.
  - intros y Hy. rewrite without_bit_lookup. destruct (decide (y = x)) as [->|]; [right; eauto|left; by rewrite decide_False].
  - rewrite length_insert. exact (ow_width _ _ (sw_terms _ _ W) _ _ _ _ _ Hb).
  - intros k y Hk. assert (Hkp : k <> p).
    { intros ->. pose proof (lookup_lt_Some _ _ _ Hk) as Hlt. rewrite length_insert in Hlt. rewrite list_lookup_insert_eq in Hk by done. done. }
    rewrite list_lookup_insert_ne in Hk by done. pose proof (ow_bits _ _ (sw_terms _ _ W) _ _ _ _ _ _ _ Hb Hk) as Hy.
    rewrite without_bit_lookup, decide_False, decide_False; [done| |].
    + intros ->. congruence.
    + intros ->. apply Hkp. exact (bits_distinct (sw_terms _ _ W) _ _ _ _ _ _ _ _ Hb Hk bit_here).
  - intros y bt Hy. rewrite without_bit_lookup in Hy. destruct (decide (y = x)) as [|Hyx]; [done|]. destruct (decide (y = b)); [done|].
    destruct (getBit_position (sw_terms _ _ W) _ _ _ _ _ _ _ Hb Hy) as [Hpos Hat].
    rewrite <- Hat at 1. rewrite getBit_in_range; [|rewrite length_insert; exact (ow_width _ _ (sw_terms _ _ W) _ _ _ _ _ Hb)|rewrite length_insert; by eapply lookup_lt_Some].
    apply getBitAtPosition_Some. rewrite list_lookup_insert_ne; [done|]. intros Hpp. apply Hyx.
    pose proof bit_here as H2. rewrite Hpp in H2. congruence.
Qed.

Lemma without_bit_info y w : bit_info (termHeap (str s)) y = Some w -> y <> x ->
  bit_info without_bit y = Some w /\ getFlatID without_bit y = getFlatID (termHeap (str s)) y.
Proof.
  intros Hw Hy. unfold bit_info, getFlatID in *. rewrite !without_bit_lookup, (decide_False (P := y = x)) by done.
  destruct (decide (y = b)) as [->|]; [by rewrite Hb in Hw|]. destruct (termHeap (str s) !! y) as [[a|a m l bs|c i]|] eqn:Ey; [done..| |done].
  destruct (decide (c = x)) as [->|]; [by rewrite Hx in Hw|]. destruct (decide (c = b)) as [->|Hcb].
  - rewrite !without_bit_lookup, !decide_False, !decide_True by (done || exact (not_eq_sym bit_not_bus)). by rewrite Hb in Hw |- *.
  - rewrite !without_bit_lookup, !decide_False by done. done.
Qed.

Lemma bit_unreferred s1 it w :
  unplugged_str (is_in (getSlaveInstances (str s) (h_design o)) [x]) (str s) (str s1) -> instTermHeap (str s1) !! it = Some w -> bitTerm_ w <> x.
Proof.
  intros U Hit Hin. destruct U as (hi & ht & E1 & _ & Hht). rewrite E1 in Hit. cbn in Hit.
  rewrite Hht in Hit. destruct (instTermHeap (str s) !! it) as [w'|] eqn:Ew; [|done].
  destruct (is_in _ _ w') eqn:Ei; [done|]. injection Hit as ->.
  destruct (sw_instTerm _ _ W _ _ Ew) as (I & f & HI & _ & Hbw). unfold is_in in Ei. apply bool_decide_eq_false_1 in Ei.
  apply Ei. split; [|rewrite Hin; by left]. apply (Hreach _ _ HI). destruct bit_term_here as [_ E2]. destruct Hbw as [_ E3].
  rewrite Hin in E3. congruence.
Qed.

Lemma wf_without_bit s1 s2 :
  struct_wf_except (fun j y => j ∈ getSlaveInstances (str s) (h_design o) /\ y = x) (str s1) ->
  unplugged_str (is_in (getSlaveInstances (str s) (h_design o)) [x]) (str s) (str s1) ->
  conn_wf s2 -> str s2 = str s1 -> net_ s2 !! x = None ->
  let t' := with_terms (terms_ (str s)) without_bit (next (str s)) (str s2) in
  struct_wf t' /\ conn_wf (set_str t' s2).
Proof.
  intros W1 U C2 E2 Hnet t'. destruct (id U) as (hi & ht & E1 & Hsame & Hht).
  assert (Eh : termHeap (str s1) = termHeap (str s)) by by rewrite E1.
  assert (W' : struct_wf t').
  { subst t'. rewrite E2. apply (struct_wf_terms W1).
    - exact without_bit_wf.
    - intros d. by rewrite E1.
    - by rewrite E1.
    - intros l Hl. rewrite without_bit_lookup. destruct (sw_fresh _ _ W l Hl) as [F1 _].
      destruct (decide (l = x)) as [->|]; [done|]. destruct (decide (l = b)) as [->|]; [congruence|done].
    - intros c [z Hz]. left. rewrite Eh. rewrite without_bit_lookup in Hz. destruct (decide (c = x)); [done|].
      destruct (decide (c = b)) as [->|]; by eexists.
    - assert (Hdown : forall y v, without_bit !! y = Some v -> is_Some (header_of v) ->
        exists v', termHeap (str s) !! y = Some v' /\ header_of v' = header_of v /\ term_width v' = term_width v).
      { intros y v. rewrite without_bit_lookup. destruct (decide (y = x)); [done|]. destruct (decide (y = b)) as [->|]; [|eauto].
        intros [= <-] _. eexists. split; [exact Hb|]. cbn. by rewrite length_insert. }
      intros y z vy vz oy oz Hy Hz Hoy Hoz. destruct (Hdown _ _ Hy) as (vy' & Hy' & Ey & Ey2); [by eexists|].
      destruct (Hdown _ _ Hz) as (vz' & Hz' & Ez & _); [by eexists|]. rewrite <- Ey2.
      apply (sw_flat _ _ W _ _ _ _ _ _ Hy' Hz'); congruence.
    - intros it w Hit. pose proof (bit_unreferred _ _ _ U Hit) as Hn. destruct (referred_bit _ _ _ _ W1 Hit) as [u Hu].
      rewrite Eh in *. destruct (without_bit_info _ _ Hu Hn) as [-> ->]. done.
    - intros i inst y Hi Hy _. apply bit_info_term in Hy as (id & c & j & Hy). cbn in Hy.
      assert (Hne : y <> x) by (intros ->; unfold bit_info in Hy; by rewrite without_bit_lookup, decide_True in Hy).
      assert (Hold : is_Some (bit_info (termHeap (str s)) y)).
      { unfold bit_info in *. rewrite without_bit_lookup, (decide_False (P := y = x)) in Hy by done.
        destruct (decide (y = b)); [done|]. destruct (termHeap (str s) !! y) as [[a|a m l bs|e k]|]; [by eexists|done| |done].
        rewrite without_bit_lookup in Hy. destruct (decide (e = x)); [done|]. destruct (decide (e = b)) as [->|]; [rewrite Hb; by eexists|].
        by destruct (termHeap (str s) !! e) as [[]|]; eexists. }
      destruct Hold as [u Hu]. destruct (without_bit_info _ _ Hu Hne) as [E3 E4]. rewrite Eh. split_and!; [|tauto|done].
      apply bit_info_term. rewrite Eh, Hu. rewrite E3 in Hy. injection Hy as ->. eauto. }
  split; [exact W'|]. apply (conn_wf_terms _ s2 _ _ _ C2 W').
  - rewrite E2, Eh. intros it w Hit. pose proof (bit_unreferred _ _ _ U Hit) as Hn.
    destruct (referred_bit _ _ _ _ W1 Hit) as [u Hu]. rewrite Eh in Hu. destruct (without_bit_info _ _ Hu Hn) as [-> _].
    rewrite Hu. split; [done|by eexists].
  - intros c m Hc Hno. assert (c <> x) as Hne by (intros ->; congruence). rewrite E2 in *.
    destruct (connected_bit _ (set_str (str s1) s2) c m W1) as [u Hu]; [by rewrite <- E2; destruct s2|done|done|]. cbn in Hu. rewrite Eh in *.
    destruct (without_bit_info _ _ Hu Hne) as [-> _]. rewrite Hu. split; [done|by eexists].
Qed.

Lemma termBit_destroy_ok E :
  wp (term_destroy x) s (fun _ s' => term_gone s [x] (fun y => without_bit !! y) s') E.
Proof.
  unfold term_destroy. wp_read Hx. cbn beta iota. rewrite wp_bind.
  destruct (bit_component _ _ _ _ W bit_term_here) as (Hd & [k Hk] & Hcomp).
  eapply wp_mono; [exact (setNet_None_ok s C x _ k Hd Hk E Hcomp)| |done]. cbn beta. intros _ s0 [C0 R].
  pose proof (rw_str _ _ _ R) as Es. rewrite wp_bind. unfold busTerm_removeBit. rewrite wp_bind. eapply wp_deref; [rewrite Es; exact Hb|].
  cbn beta iota. unfold put_term, change. rewrite wp_bind, wp_modify, wp_bind, wp_gets, wp_bind.
  assert (Ef : set_str (set_termHeap (<[b:=Bus o msb lsb (<[bit_position bit msb:=None]> bits)]> (termHeap (str s0))) (str s0)) s0 =
    restructure (on_terms (forget b p)) s0).
  { unfold restructure, on_terms, forget. rewrite Es, Hb. by replace (bit_position bit msb) with p by (unfold bit_position; lia). }
  rewrite Ef. assert (W0 : struct_wf (str s0)) by by rewrite Es.
  assert (Esl : getSlaveInstances (str (restructure (on_terms (forget b p)) s0)) (h_design o) = getSlaveInstances (str s) (h_design o)) by (by rewrite <- Es).
  rewrite Esl. apply wp_commutes.
  { apply commutes_for_each. intros i _. apply commutes_removeInstTerm, forget_independent. }
  eapply wp_mono; [apply (removeInstTerm_each_ok s0 x (h_design o) (getSlaveInstances (str s) (h_design o)) _ W0 C0)| |intros ? ? H; exact H].
  { by eapply NoDup_slaves. }
  { rewrite Es. exact bit_term_here. }
  { intros i Hi. rewrite Es. exact (elem_of_slaves _ _ _ _ W Hi). }
  cbn beta. intros _ s1 (W1 & C1 & U0). unfold setOrderIDs, delete_bitTerm, delete_term, change. rewrite wp_modify, wp_bind, !wp_modify.
  destruct U0 as [(hi & ht & E1 & Hsame & Hht) N1 T1 _]. rewrite Es in E1, Hsame, Hht, N1.
  assert (Hin : forall c w, instTermHeap (str s) !! c = Some w ->
    is_in (getSlaveInstances (str s) (h_design o)) [x] w = bool_decide (bitTerm_ w ∈ [x])).
  { intros c w Hw. unfold is_in. apply bool_decide_ext. split; [by intros []|]. intros Hin. split; [|done].
    destruct (sw_instTerm _ _ W _ _ Hw) as (I & f & HI & _ & Hbw). apply (Hreach _ _ HI). apply list_elem_of_singleton in Hin.
    destruct bit_term_here as [_ E2]. destruct Hbw as [_ E3]. rewrite Hin in E3. congruence. }
  assert (Hx1 : net_ s1 !! x = None).
  { rewrite N1, (sw_apart _ _ W) by by eexists. by rewrite (rw_net _ _ _ R), decide_True. }
  destruct (wf_without_bit s1 s1 W1) as [W3 C3]; [by exists hi, ht|done..|].
  assert (Et : set_termHeap (delete x (forget b p (termHeap (str s1)))) (on_terms (forget b p) (str s1)) =
    with_terms (terms_ (str s)) without_bit (next (str s)) (str s1)) by by rewrite E1.
  rewrite <- Et in W3, C3. split.
  - exact W3.
  - destruct C3 as [K A P]. split; [exact K|exact A|exact P].
  - intros y. exact (f_equal (fun t => termHeap t !! y) Et).
  - intros c. cbn. rewrite E1. cbn. rewrite Hht. destruct (instTermHeap (str s) !! c) as [w|] eqn:Ew; [|done].
    rewrite (Hin _ _ Ew). case_bool_decide; case_decide; done.
  - intros c. cbn. destruct (decide (c ∈ [x])) as [->%list_elem_of_singleton|Hc]; [done|]. rewrite N1, (rw_net _ _ _ R).
    rewrite (decide_False (P := c = x)) by set_solver. destruct (instTermHeap (str s) !! c) as [w|] eqn:Ew; [|done].
    rewrite (Hin _ _ Ew). case_bool_decide; case_decide; done.
  - cbn. by rewrite E1.
  - cbn. rewrite T1. exact (rw_types _ _ _ R).
Qed.
End destroy_bit.
