(* ===== verification/Narrowing.v ===== *)
(** Narrowing a bus terminal: [setMSB] and [setLSB] check that the bits to
    remove are unused, take their terminals away from the instances, close the
    gap in the slots and delete the bits; what they do when run to the end
    (nl/netlist/snl/SNLBusTerm.cpp). *)
From S2P Require Import Prelude NLID Store Bus Contents Connections DesignNets Interface InterfaceSteps InterfaceTerms TermLifetime TermBits.
Local Open Scope Z_scope.

(** * [getInstTerm] *)

Lemma getInstTerm_ok X s i inst x E :
  struct_wf_except X (str s) -> instHeap (str s) !! i = Some inst -> bit_term_of (str s) x (model_ (h_extra inst)) -> ~ X i x ->
  wp (getInstTerm i (Some x)) s (fun r s' => s' = s /\ exists it, r = Some it /\ instTermHeap (str s) !! it = Some (mkInstTerm i x)) E.
Proof.
  intros W Hi Hx HX. destruct (sw_complete _ _ W i inst x Hi Hx HX) as (f & it & Hf & Hs).
  pose proof (slot_bit W _ _ _ _ _ Hi Hx Hf Hs) as Hit. destruct (bit_term_header _ _ Hx) as (o & Ho & Hod).
  rewrite (slot_here i inst Hi) in Hs.
  assert (Hlen : (f < length (instTerms_ (h_extra inst)))%nat) by (apply getBitAtPosition_Some in Hs; by apply lookup_lt_Some in Hs).
  unfold getInstTerm. wp_read Hi. wp_read Ho. rewrite wp_bind. apply wp_check; [intros _|by rewrite bool_decide_eq_true_2].
  wp_read Hf. rewrite wp_bind. eapply wp_lift; [by rewrite (proj2 (Nat.ltb_lt _ _) Hlen)|]. rewrite wp_ret, Hs. eauto.
Qed.

(** * The checks *)

(** What the checks establish: the bits are unconnected or on constant nets with
    no terminal of an instance, and their terminals of instances unconnected. *)
Definition unused (s : netlist) (insts ns : list loc) : Prop :=
  (forall x n, x ∈ ns -> net_ s !! x = Some n -> net_isConstant s n = true /\
     forall c, c ∈ getComponents s n -> instTermHeap (str s) !! c = None) /\
  (forall it v, instTermHeap (str s) !! it = Some v -> instance_ v ∈ insts -> bitTerm_ v ∈ ns -> net_ s !! it = None).

Section checks.
Context (s : netlist) (W : struct_wf (str s)).

Lemma check_removable_ok ns :
  wp (for_each check_removable (Some <$> ns)) s (fun _ s' => s' = s /\
    forall x n, x ∈ ns -> net_ s !! x = Some n -> net_isConstant s n = true /\
      forall c, c ∈ getComponents s n -> instTermHeap (str s) !! c = None) (unchanged s).
Proof.
  induction ns as [|x ns IH].
  { apply wp_ret. split; [done|]. by intros x n ?%not_elem_of_nil. }
  cbn. rewrite wp_bind, wp_bind, wp_gets.
  assert (Hgo : (forall n, net_ s !! x = Some n -> net_isConstant s n = true /\ forall c, c ∈ getComponents s n -> instTermHeap (str s) !! c = None) ->
    wp (for_each check_removable (Some <$> ns)) s (fun _ s' => s' = s /\
    forall y n, y ∈ x :: ns -> net_ s !! y = Some n -> net_isConstant s n = true /\
      forall c, c ∈ getComponents s n -> instTermHeap (str s) !! c = None) (unchanged s)).
  { intros Hx. eapply wp_mono; [exact IH| |done]. cbn beta. intros _ s' [-> H]. split; [done|].
    intros y n [->|Hy]%elem_of_cons; [apply Hx|by apply H]. }
  destruct (net_ s !! x) as [n|]; [|by apply Hgo]. rewrite wp_bind. apply wp_check; [intros Hc|done]. apply wp_check; [intros Hf|done].
  apply Hgo. intros ? [= <-]. split; [done|]. intros c Hin. rewrite forallb_forall in Hf. apply is_none_true, Hf. by apply list_elem_of_In.
Qed.

Lemma check_instTerms_ok i inst ns : instHeap (str s) !! i = Some inst -> (forall x, x ∈ ns -> bit_term_of (str s) x (model_ (h_extra inst))) ->
  wp (for_each (check_instTerm i) (Some <$> ns)) s (fun _ s' => s' = s /\
    forall it v, instTermHeap (str s) !! it = Some v -> instance_ v = i -> bitTerm_ v ∈ ns -> net_ s !! it = None) (unchanged s).
Proof.
  intros Hi. induction ns as [|x ns IH]; intros Hns.
  { apply wp_ret. split; [done|]. by intros it v _ _ ?%not_elem_of_nil. }
  cbn. unfold check_instTerm at 1. rewrite wp_bind, wp_bind.
  eapply wp_mono; [exact (getInstTerm_ok _ s i inst x _ W Hi (Hns x ltac:(by left)) ltac:(tauto))| |intros e s' H; exact H].
  cbn beta. intros r s' (-> & it & -> & Hit). rewrite wp_bind, wp_gets. apply wp_check; [intros Hnet%is_none_true|done].
  eapply wp_mono; [apply IH; intros y Hy; apply Hns; by right| |done]. cbn beta. intros _ s' [-> H]. split; [done|].
  intros jt v Hjt Hv [Hx|Hin]%elem_of_cons; [|by eapply H]. destruct v as [j y]. cbn in *. subst.
  by rewrite (instTerm_unique W _ _ _ Hjt Hit).
Qed.

Lemma check_slaves_ok insts d ns :
  (forall i, i ∈ insts -> exists inst, instHeap (str s) !! i = Some inst /\ model_ (h_extra inst) = d) ->
  (forall x, x ∈ ns -> bit_term_of (str s) x d) ->
  wp (for_each (fun i => for_each (check_instTerm i) (Some <$> ns)) insts) s (fun _ s' => s' = s /\
    forall it v, instTermHeap (str s) !! it = Some v -> instance_ v ∈ insts -> bitTerm_ v ∈ ns -> net_ s !! it = None) (unchanged s).
Proof.
  intros His Hns. induction insts as [|i insts IH].
  { apply wp_ret. split; [done|]. by intros it v _ ?%not_elem_of_nil. }
  cbn [for_each]. rewrite wp_bind. destruct (His i ltac:(by left)) as (inst & Hi & Hm).
  eapply wp_mono; [apply (check_instTerms_ok i inst ns Hi); by rewrite Hm| |done]. cbn beta. intros _ s' [-> H1].
  eapply wp_mono; [apply IH; intros j Hj; apply His; by right| |done]. cbn beta. intros _ s' [-> H2]. split; [done|].
  intros it v Hit [Hv|Hv]%elem_of_cons Hx; [by eapply H1|by eapply H2].
Qed.
End checks.

(** * Deleting the bits *)

Lemma conn_wf_drop_bit s x b i :
  conn_wf s -> net_ s !! x = None -> termHeap (str s) !! x = Some (Bit b i) -> instTermHeap (str s) !! x = None ->
  (forall it v, instTermHeap (str s) !! it = Some v -> bitTerm_ v <> x) ->
  conn_wf (set_str (set_termHeap (delete x (termHeap (str s))) (str s)) s).
Proof.
  intros C Hnet Hx Hix Href.
  assert (Hgrow : forall y o, object_header (delete x (termHeap (str s))) y = Some o -> object_header (termHeap (str s)) y = Some o).
  { intros y o. apply object_header_grow. intros z v Hz%lookup_delete_Some. exists v. split_and!; [apply Hz|done..|].
    intros * ->. by eexists _, _, _. }
  assert (Hshrink : forall y, y <> x -> object_header (delete x (termHeap (str s))) y = object_header (termHeap (str s)) y).
  { intros y Hy. unfold object_header. rewrite lookup_delete_ne by done. destruct (termHeap (str s) !! y) as [[| |c k]|]; try done.
    destruct (decide (c = x)) as [->|]; [by rewrite lookup_delete_eq, Hx|by rewrite lookup_delete_ne]. }
  assert (Hdes : forall c, c <> x -> comp_design (set_termHeap (delete x (termHeap (str s))) (str s)) c = comp_design (str s) c).
  { intros c Hc. unfold comp_design. cbn. by rewrite Hshrink. }
  assert (Hkey : forall c, c <> x -> comp_getNLID (set_termHeap (delete x (termHeap (str s))) (str s)) c = comp_getNLID (str s) c).
  { intros c Hc. unfold comp_getNLID. cbn. destruct (instTermHeap (str s) !! c) as [v|] eqn:Ev.
    - unfold instTerm_getNLID. cbn. pose proof (Href _ _ Ev). unfold is_bit. by rewrite Hshrink, lookup_delete_ne.
    - unfold term_getNLID. cbn. by rewrite Hshrink, lookup_delete_ne. }
  assert (Hno : comp_design (set_termHeap (delete x (termHeap (str s))) (str s)) x = None).
  { unfold comp_design. cbn. rewrite Hix. unfold object_header. by rewrite lookup_delete_eq. }
  apply conn_wf_change_str; [done|..].
  - intros c d k Hd Hk. assert (c <> x) as Hc by (intros ->; congruence). by rewrite Hdes in Hd by done; rewrite Hkey in Hk by done.
  - intros c n d k Hc Hd Hk Hcomp Hn Hb. assert (c <> x) as Hcx by congruence. rewrite Hdes, Hkey by done. split_and!; [done..| |done|done].
    unfold is_component, is_bit in *. cbn. by rewrite lookup_delete_ne.
  - intros c k Hc. assert (c <> x) as Hcx by congruence. by rewrite Hkey.
Qed.

Lemma remove_bits_ok s ns E :
  conn_wf s -> NoDup ns ->
  (forall x, x ∈ ns -> (exists b i, termHeap (str s) !! x = Some (Bit b i)) /\ instTermHeap (str s) !! x = None /\
     (exists d, comp_design (str s) x = Some d) /\ is_Some (comp_getNLID (str s) x)) ->
  (forall it v, instTermHeap (str s) !! it = Some v -> bitTerm_ v ∉ ns) ->
  wp (for_each termBit_remove (Some <$> ns)) s (fun _ s' => conn_wf s' /\ netTypes s' = netTypes s /\
    (forall c, net_ s' !! c = if decide (c ∈ ns) then None else net_ s !! c) /\
    exists h, str s' = set_termHeap h (str s) /\ forall y, h !! y = if decide (y ∈ ns) then None else termHeap (str s) !! y) E.
Proof.
  intros C Hnd Hns Href.
  assert (Hloop : forall f : loc -> prog netlist unit, f = (fun x => setNet x None ;; termBit_destroyFromBus x) ->
    for_each termBit_remove (Some <$> ns) = for_each f ns).
  { intros f ->. clear. induction ns as [|x ns IH]; [done|]. cbn. by rewrite IH. }
  rewrite (Hloop _ eq_refl). clear Hloop.
  refine (wp_for_each _ (fun visited s' => conn_wf s' /\ netTypes s' = netTypes s /\
    (forall c, net_ s' !! c = if decide (c ∈ visited) then None else net_ s !! c) /\
    exists h, str s' = set_termHeap h (str s) /\ forall y, h !! y = if decide (y ∈ visited) then None else termHeap (str s) !! y) _ s E _ _).
  { split_and!; [done..| |].
    - intros c. by rewrite decide_False by apply not_elem_of_nil.
    - exists (termHeap (str s)). split; [by destruct s as [[]]|]. intros y. by rewrite decide_False by apply not_elem_of_nil. }
  intros visited x rest s1 -> (C1 & T1 & N1 & h & E1 & Hh). apply NoDup_app in Hnd as (_ & Hdis & _).
  assert (Hxv : x ∉ visited) by (intros H; by apply (Hdis x H); left).
  destruct (Hns x ltac:(set_solver)) as ((b & i & Hx) & Hix & (d & Hd) & k & Hk).
  assert (Hx1 : termHeap (str s1) !! x = Some (Bit b i)) by (rewrite E1; cbn; by rewrite Hh, decide_False).
  unfold comp_design, comp_getNLID in Hd, Hk. rewrite Hix in Hd, Hk.
  assert (Hhead : object_header h x = object_header (termHeap (str s)) x).
  { unfold object_header. rewrite Hh, decide_False by done. unfold object_header in Hd. rewrite Hx in Hd |- *.
    rewrite Hh. destruct (termHeap (str s) !! b) as [[|o m l bs|]|] eqn:Eb; try done. rewrite decide_False; [done|].
    intros Hb. destruct (Hns b ltac:(set_solver)) as ((? & ? & Hb') & _). congruence. }
  assert (Hd1 : comp_design (str s1) x = Some d) by (unfold comp_design; rewrite E1; cbn; by rewrite Hix, Hhead).
  assert (Hk1 : comp_getNLID (str s1) x = Some k).
  { unfold comp_getNLID, term_getNLID in *. rewrite E1. cbn. rewrite Hix, Hhead, Hh, decide_False by done. exact Hk. }
  rewrite wp_bind. eapply wp_mono; [refine (setNet_None_ok s1 C1 x d k Hd1 Hk1 E _)| |done].
  { right. unfold is_bit. rewrite Hx1. by eexists. }
  cbn beta. intros _ s2 [C2 R]. pose proof (rw_str _ _ _ R) as Es. unfold termBit_destroyFromBus. rewrite wp_bind.
  apply setNet_noop; [by rewrite (rw_net _ _ _ R), decide_True|]. unfold delete_bitTerm, delete_term, change. rewrite wp_bind, !wp_modify.
  split_and!.
  - assert (C3 := conn_wf_drop_bit s2 x b i C2). rewrite Es in C3. rewrite Es. destruct C3 as [K A P]; [by rewrite (rw_net _ _ _ R), decide_True|done|by rewrite E1| |split; [exact K|exact A|exact P]].
    rewrite E1. intros it v Hit Heq. apply (Href _ _ Hit). rewrite Heq. set_solver.
  - cbn. by rewrite (rw_types _ _ _ R).
  - intros c. cbn. rewrite (rw_net _ _ _ R), N1. destruct (decide (c = x)) as [->|Hne]; [by rewrite decide_True by set_solver|].
    destruct (decide (c ∈ visited)); [by rewrite decide_True by set_solver|by rewrite decide_False by set_solver].
  - exists (delete x h). cbn. rewrite Es, E1. split; [done|]. intros y. destruct (decide (y = x)) as [->|Hne].
    + by rewrite lookup_delete_eq, decide_True by set_solver.
    + rewrite lookup_delete_ne, Hh by done.
      destruct (decide (y ∈ visited)); [by rewrite decide_True by set_solver|by rewrite decide_False by set_solver].
Qed.

(** * The narrowed bus *)

Lemma instances_wf_same h h' regs : same_instances h h' -> objects_wf (Scalar <$> h) regs -> objects_wf (Scalar <$> h') regs.
Proof.
  intros Hsame W.
  assert (Hown : forall d x k n, owns_object (Scalar <$> h) d x k n <-> owns_object (Scalar <$> h') d x k n).
  { intros d x k n. unfold owns_object. setoid_rewrite lookup_fmap. specialize (Hsame x). destruct (h !! x) as [J|].
    - destruct Hsame as [l ->]. split; intros (y & o & [= <-] & [= <-] & H); eexists _, _; (split; [done|]; split; [done|exact H]).
    - by rewrite Hsame. }
  split.
  - intros d r Hr. eapply represents_ext; [|exact (ow_registry _ _ W _ _ Hr)]. intros. apply Hown.
  - intros x y o Hy Ho. destruct (proj2 (Hown (h_design o) x (h_id o) (h_name o)) ltac:(by exists y, o)) as (y' & o' & Hy' & Ho' & <- & _).
    exact (ow_design _ _ W _ _ _ Hy' Ho').
  - intros b o m l bs. rewrite lookup_fmap. by destruct (_ !! b).
  - intros b o m l bs j x. rewrite lookup_fmap. by destruct (_ !! b).
  - intros x b bit. rewrite lookup_fmap. by destruct (_ !! x).
Qed.

(** The bits whose flat identifiers are in the range of a bus are its bits. *)
Lemma in_bus X t b o msb lsb bits x f :
  struct_wf_except X t -> termHeap t !! b = Some (Bus o msb lsb bits) -> bit_term_of t x (h_design o) ->
  getFlatID (termHeap t) x = Some f -> (flatID_ (h_extra o) <= f < flatID_ (h_extra o) + length bits)%nat ->
  bits !! (f - flatID_ (h_extra o))%nat = Some (Some x).
Proof.
  intros W Hb [Hx (a & Ha & Hd)%fmap_Some] Hf Hr.
  destruct (flat_bounds W x a Hx Ha) as (y & v & g & Hy & Hv & Hg & Hbd & Hc). assert (g = f) as -> by congruence.
  destruct (Z.lt_trichotomy (h_id o) (h_id a)) as [Hlt|[Heq|Hlt]].
  - pose proof (sw_flat _ _ W _ _ _ _ _ _ Hb Hy eq_refl Hv Hd Hlt). cbn in *. lia.
  - assert (y = b) as ->.
    { eapply (owns_unique (sw_terms _ _ W) (h_design o) _ _ (h_id o)); [exists v, a; by rewrite Heq, Hd|by eexists _, o]. }
    rewrite Hb in Hy. injection Hy as <-. injection Hv as <-. destruct Hc as [[_ ?]|(? & ? & ? & [= <- <- <-] & H)]; done.
  - pose proof (sw_flat _ _ W _ _ _ _ _ _ Hy Hb Hv eq_refl (eq_sym Hd) Hlt). lia.
Qed.

Section narrow.
Context (s : netlist) (W : struct_wf (str s)) (b : loc) (o : header term_fields) (msb lsb : Z) (bits : list (option loc)).
Context (Hb : termHeap (str s) !! b = Some (Bus o msb lsb bits)) (Hreach : reaches (str s) (h_design o)).
Context (msb' lsb' : Z) (k n : nat) (ns : list loc).
Context (Hat : forall i, (i < n)%nat -> bit_at msb' lsb' i = bit_at msb lsb (k + i)) (Hlen : (k + n <= length bits)%nat).
Context (Hw : getWidth msb' lsb' = Ret (Z.of_nat n)).
Context (Hin : forall x (i : nat), bits !! i = Some (Some x) -> x ∈ ns <-> ~ (k <= i < k + n)%nat).
Context (Hns : forall x, x ∈ ns -> exists i : nat, bits !! i = Some (Some x)).
Local Notation base := (flatID_ (h_extra o)).
Local Notation d := (h_design o).
Local Notation h := (termHeap (str s)).
Local Notation sls := (getSlaveInstances (str s) d).

(** The terminals that are left. *)
Definition narrowed (h' : gmap loc SNLTerm) : Prop :=
  forall y, h' !! y = if decide (y = b) then Some (Bus o msb' lsb' (take n (drop k bits))) else if decide (y ∈ ns) then None else h !! y.

Context (h' : gmap loc SNLTerm) (Hh' : narrowed h').

Lemma removed_bit x : x ∈ ns -> exists i : nat, bits !! i = Some (Some x) /\ h !! x = Some (Bit b (bit_at msb lsb i)).
Proof. intros [i Hi]%Hns. exists i. split; [done|]. exact (ow_bits _ _ (sw_terms _ _ W) _ _ _ _ _ _ _ Hb Hi). Qed.
Lemma bus_kept : b ∉ ns.
Proof. intros (i & _ & H)%removed_bit. congruence. Qed.

Lemma narrowed_wf : objects_wf h' (terms_ (str s)).
Proof.
  refine (objects_wf_narrow _ h' _ b o msb lsb bits msb' lsb' k n (sw_terms _ _ W) Hb Hat Hlen Hw _ _ _).
  - by rewrite Hh', decide_True.
  - intros y Hy. rewrite Hh', decide_False by done. destruct (decide (y ∈ ns)) as [H|]; [right|by left].
    destruct (removed_bit _ H) as (i & _ & ?). eauto.
  - intros i y Hi. pose proof (ow_bits _ _ (sw_terms _ _ W) _ _ _ _ _ _ _ Hb Hi) as Hy.
    rewrite Hh', (decide_False (P := y = b)) by congruence. pose proof (Hin y i Hi). rewrite Hy.
    destruct (decide (y ∈ ns)), (decide (k <= i < k + n)%nat); tauto.
Qed.

Lemma narrowed_info y w : bit_info h y = Some w -> y ∉ ns -> bit_info h' y = Some w.
Proof.
  unfold bit_info. intros Hy Hn. rewrite Hh'. destruct (decide (y = b)) as [->|]; [by rewrite Hb in Hy|]. rewrite decide_False by done.
  destruct (h !! y) as [[a|a m l bs|c i]|]; try done. rewrite Hh'. destruct (decide (c = b)) as [->|]; [by rewrite Hb in Hy|].
  rewrite decide_False; [done|]. intros (i' & _ & Hc)%removed_bit. by rewrite Hc in Hy.
Qed.
Lemma info_narrowed y w : bit_info h' y = Some w -> bit_info h y = Some w /\ y ∉ ns.
Proof.
  unfold bit_info. rewrite Hh'. destruct (decide (y = b)) as [->|]; [done|]. destruct (decide (y ∈ ns)) as [|Hn]; [done|].
  intros Hy. split; [|done]. destruct (h !! y) as [[a|a m l bs|c i]|]; try done. rewrite Hh' in Hy.
  destruct (decide (c = b)) as [->|]; [by rewrite Hb|]. by destruct (decide (c ∈ ns)).
Qed.

(** Flat identifiers move down by [k] in the bus and stay elsewhere. *)
Lemma narrowed_flat y d' f : bit_term_of (str s) y d' -> y ∉ ns -> getFlatID h y = Some f ->
  getFlatID h' y = Some f /\ (d' <> d \/ ~ (base <= f < base + length bits)%nat) \/
  d' = d /\ getFlatID h' y = Some (f - k)%nat /\ (base + k <= f < base + k + n)%nat.
Proof.
  intros Hy Hn Hf. assert (Hcase : (exists i, h !! y = Some (Bit b i)) \/ forall i, h !! y <> Some (Bit b i)).
  { destruct (h !! y) as [[| |c i]|]; [by right..| |by right]. destruct (decide (c = b)) as [->|Hc]; [left; by exists i|right]. by intros j [= ? _]. }
  destruct Hcase as [[i Hyb]|Hno].
  - right. destruct (getBit_position (sw_terms _ _ W) _ _ _ _ _ _ _ Hb Hyb) as [Hp Hpat].
    assert (Hr : (k <= bit_position msb i < k + n)%nat) by (destruct (decide (k <= bit_position msb i < k + n)%nat) as [|H]; [done|]; by destruct Hn; eapply Hin).
    unfold getFlatID in Hf. rewrite Hyb, Hb in Hf. replace (Z.abs (i - msb)) with (Z.abs (msb - i)) in Hf by lia.
    fold (bit_position msb i) in Hf. injection Hf as <-. split_and!; [|  |lia|lia].
    + destruct Hy as [_ Hy]. unfold object_header in Hy. rewrite Hyb, Hb in Hy. by injection Hy.
    + unfold getFlatID. rewrite Hh', (decide_False (P := y = b)), decide_False, Hyb by congruence. rewrite Hh', decide_True by done.
      replace (Z.abs (i - msb')) with (Z.abs (msb' - i)) by lia. fold (bit_position msb' i).
      assert (E1 : bit_position msb' i = (bit_position msb i - k)%nat).
      { rewrite <- Hpat at 1. replace (bit_position msb i) with (k + (bit_position msb i - k))%nat at 1 by lia.
        rewrite <- Hat by lia. apply bit_position_at. }
      rewrite E1. f_equal. lia.
  - left. split.
    + unfold getFlatID in *. assert (Hyb : y <> b).
      { intros ->. destruct Hy as [[z Hz] _]. unfold is_bit in Hz. by rewrite Hb in Hz. }
      rewrite Hh', decide_False, decide_False by done. destruct (h !! y) as [[a|a m l bs|c i]|] eqn:Ey; try done.
      rewrite Hh', decide_False; [|intros ->; by apply (Hno i)]. rewrite decide_False; [done|].
      intros (i' & _ & Hc)%removed_bit. by rewrite Hc in Hf.
    + destruct (decide (d' = d)) as [->|]; [right|by left]. intros Hr.
      pose proof (in_bus _ _ _ _ _ _ _ _ _ W Hb Hy Hf Hr) as Hp. eapply Hno. exact (ow_bits _ _ (sw_terms _ _ W) _ _ _ _ _ _ _ Hb Hp).
Qed.

(** The slots close the gap, in the instances of the design. *)
Definition closed_up (t1 : structure) (hi : gmap loc SNLInstance) : Prop :=
  same_instances (instHeap t1) hi /\
  forall i f, match hi !! i with Some inst => getBitAtPosition (instTerms_ (h_extra inst)) f | None => None end =
    if decide (i ∈ sls /\ (base <= f < base + length bits)%nat)
    then if decide (f < base + n)%nat then slot t1 i (f + k) else None else slot t1 i f.

Lemma wf_narrowed t1 hi :
  struct_wf_except (fun i y => i ∈ sls /\ y ∈ ns) t1 -> unplugged_str (is_in sls ns) (str s) t1 -> closed_up t1 hi ->
  struct_wf (mkStructure (designs t1) (terms_ t1) (nets_ t1) (instances_ t1) (slaveInstances_ t1) h' (netHeap t1) hi (instTermHeap t1) (next t1)).
Proof.
  intros W1 (hi1 & ht & E1 & Hsame1 & Hht) [Hsame Hslots]. set (t3 := mkStructure _ _ _ _ _ _ _ _ _ _).
  assert (Eh : termHeap t1 = h) by by rewrite E1.
  change (forall i f, slot t3 i f = if decide (i ∈ sls /\ (base <= f < base + length bits)%nat)
    then if decide (f < base + n)%nat then slot t1 i (f + k) else None else slot t1 i f) in Hslots.
  assert (Hdown : forall i J, hi !! i = Some J -> exists J1, instHeap t1 !! i = Some J1 /\ h_design J = h_design J1 /\ h_id J = h_id J1 /\
    model_ (h_extra J) = model_ (h_extra J1)).
  { intros i J HJ. specialize (Hsame i). destruct (instHeap t1 !! i) as [J1|]; [|congruence]. destruct Hsame as [l E2].
    rewrite E2 in HJ. injection HJ as <-. by exists J1. }
  assert (Hup : forall i J1, instHeap t1 !! i = Some J1 -> exists J, hi !! i = Some J /\ h_design J = h_design J1 /\ h_id J = h_id J1 /\
    model_ (h_extra J) = model_ (h_extra J1)).
  { intros i J1 HJ. destruct (same_instances_lookup _ _ _ _ Hsame HJ) as [l E2]. eauto. }
  assert (Hmodel : forall i J, instHeap t1 !! i = Some J -> i ∈ sls <-> model_ (h_extra J) = d).
  { intros i J HJ. rewrite E1 in HJ. cbn in HJ. pose proof (Hsame1 i) as H. destruct (instHeap (str s) !! i) as [J0|] eqn:EJ; [|congruence].
    destruct H as [l E2]. rewrite HJ in E2. injection E2 as ->. cbn. split.
    - intros Hi. destruct (elem_of_slaves _ _ _ _ W Hi) as (J1 & HJ1 & Hm). congruence.
    - by apply Hreach. }
  assert (Hunref : forall it v, instTermHeap t1 !! it = Some v -> bitTerm_ v ∉ ns).
  { intros it v Hit Hv. destruct (sw_instTerm _ _ W1 _ _ Hit) as (J & f & HJ & _ & [_ Hbt]). rewrite Eh in Hbt.
    rewrite E1 in Hit. cbn in Hit. rewrite Hht in Hit. destruct (instTermHeap (str s) !! it) as [w|]; [|done].
    destruct (is_in sls ns w) eqn:Ei; [done|]. injection Hit as ->. unfold is_in in Ei. apply bool_decide_eq_false_1 in Ei.
    apply Ei. split; [|done]. apply (Hmodel _ _ HJ). destruct (removed_bit _ Hv) as (i & _ & Hvb).
    unfold object_header in Hbt. rewrite Hvb, Hb in Hbt. by injection Hbt. }
  assert (Hbt : forall y d', bit_term_of t3 y d' <-> bit_term_of t1 y d' /\ y ∉ ns).
  { intros y d'. rewrite !bit_info_term, Eh. cbn. split.
    - intros (id & c & j & H). destruct (info_narrowed _ _ H). eauto.
    - intros [(id & c & j & H) Hn]. exists id, c, j. by apply narrowed_info. }
  assert (Hflat : forall y d' f, bit_term_of t1 y d' -> y ∉ ns -> getFlatID (termHeap t1) y = Some f ->
    getFlatID h' y = Some f /\ (d' <> d \/ ~ (base <= f < base + length bits)%nat) \/
    d' = d /\ getFlatID h' y = Some (f - k)%nat /\ (base + k <= f < base + k + n)%nat).
  { rewrite Eh. intros y d' f Hy. apply narrowed_flat. unfold bit_term_of in *. by rewrite <- Eh. }
  (* the slot of a terminal that is left *)
  assert (Hmove : forall i J y f, instHeap t1 !! i = Some J -> bit_term_of t1 y (model_ (h_extra J)) -> y ∉ ns ->
    getFlatID (termHeap t1) y = Some f -> exists g, getFlatID h' y = Some g /\ slot t3 i g = slot t1 i f).
  { intros i J y f HJ Hy Hn Hf. pose proof (Hmodel _ _ HJ) as Hm. destruct (Hflat _ _ _ Hy Hn Hf) as [[Hf' Hout]|(Hd & Hf' & Hr)].
    - exists f. split; [done|]. rewrite Hslots, decide_False; [done|]. intros [Hi Hr]. destruct Hout as [Hout|Hout]; tauto.
    - exists (f - k)%nat. split; [done|]. rewrite Hslots, decide_True by (split; [tauto|lia]). rewrite decide_True by lia. f_equal. lia. }
  split; try apply W1.
  - change (objects_wf h' (terms_ t1)). rewrite E1. exact narrowed_wf.
  - exact (instances_wf_same _ _ _ Hsame (sw_instances _ _ W1)).
  - intros d' key i. change (slaveInstances_ t3) with (slaveInstances_ t1). rewrite (sw_slaves _ _ W1).
    assert (Hkey : forall J J1, h_design J = h_design J1 -> h_id J = h_id J1 -> instance_getNLID t3 J = instance_getNLID t1 J1)
      by (intros J J1 E2 E3; unfold instance_getNLID; cbn; by rewrite E2, E3).
    split.
    + intros (J & D & HJ & Hm & HD & Hp & Hk). destruct (Hup _ _ HJ) as (J' & HJ' & E2 & E3 & E4). exists J', D.
      rewrite (Hkey J' J) by done. rewrite E4. done.
    + intros (J & D & HJ & Hm & HD & Hp & Hk). destruct (Hdown _ _ HJ) as (J' & HJ' & E2 & E3 & E4). exists J', D.
      rewrite <- (Hkey J J') by done. rewrite <- E4. done.
  - intros i J HJ. destruct (Hdown _ _ HJ) as (J' & HJ' & _ & _ & E4). rewrite E4. by eapply (sw_model _ _ W1).
  - intros i f it. rewrite Hslots. intros Hs.
    assert (exists g, slot t1 i g = Some it /\ (i ∈ sls /\ (base <= f < base + n)%nat /\ g = (f + k)%nat \/
      ~ (i ∈ sls /\ (base <= f < base + length bits)%nat) /\ g = f)) as (g & Hg & Hc).
    { destruct (decide (i ∈ sls /\ _)) as [[Hi Hr]|Hno]; [|eauto]. destruct (decide (f < base + n)%nat); [|done].
      exists (f + k)%nat. split; [done|]. left. split; [done|lia]. }
    destruct (sw_slots _ _ W1 _ _ _ Hg) as (y & Hit & Hf). exists y. split; [done|]. change (getFlatID h' y = Some f).
    destruct (sw_instTerm _ _ W1 _ _ Hit) as (J & f1 & HJ & _ & Hy). cbn in HJ, Hy. pose proof (Hmodel _ _ HJ) as Hm.
    destruct (Hflat _ _ _ Hy (Hunref _ _ Hit) Hf) as [[Hf' Hout]|(Hd & Hf' & Hr)].
    + destruct Hc as [(Hi & Hr & ->)|[_ ->]]; [|done]. destruct Hout as [Hout|Hout]; [tauto|lia].
    + destruct Hc as [(Hi & Hr' & ->)|[Hno ->]]; [rewrite Hf'; f_equal; lia|]. destruct Hno. split; [tauto|lia].
  - intros it v Hit. destruct (sw_instTerm _ _ W1 _ _ Hit) as (J & f & HJ & Hs & Hy). pose proof (Hunref _ _ Hit) as Hn.
    destruct (Hup _ _ HJ) as (J' & HJ' & _ & _ & E4). destruct (sw_slots _ _ W1 _ _ _ Hs) as (y & Hit' & Hf).
    change (instTermHeap t3) with (instTermHeap t1) in Hit. rewrite Hit in Hit'. injection Hit' as E5. apply (f_equal bitTerm_) in E5. cbn in E5. rewrite <- E5 in Hf.
    destruct (Hmove _ _ _ _ HJ Hy Hn Hf) as (g & _ & Hg). exists J', g. rewrite Hg, Hbt, E4. done.
  - intros i J y HJ Hy _. destruct (Hdown _ _ HJ) as (J1 & HJ1 & _ & _ & E4). rewrite E4 in Hy. apply Hbt in Hy as [Hy Hn].
    destruct (sw_complete _ _ W1 _ _ _ HJ1 Hy ltac:(tauto)) as (f & it & Hf & Hs).
    destruct (Hmove _ _ _ _ HJ1 Hy Hn Hf) as (g & Hg & Hsg). exists g, it. rewrite Hsg. done.
  - assert (Hold : forall y v a, h' !! y = Some v -> header_of v = Some a ->
      exists v', h !! y = Some v' /\ header_of v' = Some a /\ (term_width v <= term_width v')%nat).
    { intros y v a. rewrite Hh'. destruct (decide (y = b)) as [->|].
      - intros [= <-] [= <-]. eexists. split; [exact Hb|]. split; [done|]. cbn. rewrite length_take, length_drop. lia.
      - destruct (decide (y ∈ ns)); [done|]. eauto. }
    intros y z vy vz oy oz Hy Hz Hoy Hoz Hd Hlt. destruct (Hold _ _ _ Hy Hoy) as (vy' & Hy' & Hoy' & Hwy).
    destruct (Hold _ _ _ Hz Hoz) as (vz' & Hz' & Hoz' & _). pose proof (sw_flat _ _ W _ _ _ _ _ _ Hy' Hz' Hoy' Hoz' Hd Hlt). lia.
  - intros l Hl. destruct (sw_fresh _ _ W1 l Hl) as (F1 & F2 & F3 & F4). rewrite Eh in F1. split_and!; [|done| |done]; cbn.
    + rewrite Hh'. destruct (decide (l = b)) as [->|]; [congruence|]. by destruct (decide (l ∈ ns)).
    + specialize (Hsame l). by rewrite F3 in Hsame.
  - intros c [v Hc]. apply (sw_apart _ _ W1). rewrite Eh. cbn in Hc. rewrite Hh' in Hc.
    destruct (decide (c = b)) as [->|]; [by eexists|]. destruct (decide (c ∈ ns)); [done|by eexists].
Qed.
End narrow.

(** * Closing the gap *)

Lemma move_slot_spec k slots from f : (0 < k)%nat -> (k <= from < length slots)%nat ->
  getBitAtPosition (move_slot k slots from) f =
    if decide (f = from) then None else if decide (f = from - k)%nat then getBitAtPosition slots from else getBitAtPosition slots f.
Proof.
  intros Hk Hr. unfold move_slot, getBitAtPosition at 1. destruct (decide (f = from)) as [->|Hne].
  - by rewrite list_lookup_insert_eq by (rewrite length_insert; lia).
  - rewrite list_lookup_insert_ne by done. destruct (decide (f = from - k)%nat) as [->|Hne2].
    + by rewrite list_lookup_insert_eq by lia.
    + by rewrite list_lookup_insert_ne.
Qed.
Lemma length_move_slot k slots from : length (move_slot k slots from) = length slots.
Proof. unfold move_slot. by rewrite !length_insert. Qed.

Lemma shift_spec (base k m : nat) slots :
  (0 < k)%nat -> (base + k + m <= length slots)%nat ->
  (forall f, (base <= f < base + k)%nat -> getBitAtPosition slots f = None) ->
  let r := foldl (move_slot k) slots (seq (base + k) m) in
  length r = length slots /\ forall f, getBitAtPosition r f =
    if decide (base <= f < base + m + k)%nat then if decide (f < base + m)%nat then getBitAtPosition slots (f + k) else None
    else getBitAtPosition slots f.
Proof.
  intros Hk Hlen Hnone. induction m as [|m IH]; cbn zeta.
  { split; [done|]. intros f. cbn. destruct (decide (base <= f < base + 0 + k)%nat); [|done].
    rewrite decide_False by lia. apply Hnone. lia. }
  rewrite seq_S, foldl_app. cbn. destruct IH as [Hl IH]; [lia|]. cbn zeta in Hl, IH. split; [by rewrite length_move_slot|].
  intros f. rewrite move_slot_spec by (rewrite ?Hl; lia). destruct (decide (f = base + k + m)%nat) as [->|Hne].
  { rewrite decide_True, decide_False by lia. done. }
  destruct (decide (f = base + k + m - k)%nat) as [->|Hne2].
  - rewrite IH, decide_False by lia. rewrite decide_True, decide_True by lia. f_equal. lia.
  - rewrite IH. destruct (decide (base <= f < base + m + k)%nat), (decide (base <= f < base + S m + k)%nat); try lia; [|done].
    destruct (decide (f < base + m)%nat), (decide (f < base + S m)%nat); try lia; done.
Qed.

(** * Interleaved removals and shifts *)

(** The shift of instance [i], as a change of state. *)
Definition shift_instance (base oldWidth k : nat) (i : loc) (t : structure) : structure :=
  set_instHeap (alter (fun inst => set_slots (foldl (move_slot k) (instTerms_ (h_extra inst)) (seq (base + k) (oldWidth - k))) inst) i (instHeap t)) t.

Definition has_room (t : structure) (w : nat) (i : loc) : Prop :=
  exists inst, instHeap t !! i = Some inst /\ (w <= length (instTerms_ (h_extra inst)))%nat.

Lemma shift_slots_run base oldWidth k i s :
  has_room (str s) (base + oldWidth) i -> shift_slots base oldWidth k i s = (Ret tt, restructure (shift_instance base oldWidth k i) s).
Proof.
  intros (inst & Hi & Hlen). unfold shift_slots, mbind, prog_bind, the_instance, deref, lift, put_instance, change, modify, restructure, shift_instance.
  rewrite Hi, bool_decide_eq_true_2 by done. cbn. do 3 f_equal. symmetry. apply map_eq. intros j. destruct (decide (i = j)) as [<-|Hne].
  - by rewrite lookup_alter_eq, Hi, lookup_insert_eq.
  - by rewrite lookup_alter_ne, lookup_insert_ne.
Qed.

Lemma shift_independent base oldWidth k i j x : i <> j -> independent (shift_instance base oldWidth k i) j x.
Proof.
  intros Hne. split; [|intros t; cbn; by rewrite lookup_alter_ne|done|done|done|].
  - split; [done|]. intros t c. unfold comp_getNLID, instTerm_getNLID. cbn. destruct (instTermHeap t !! c) as [v|]; [|done].
    destruct (decide (i = instance_ v)) as [->|Hv]; [rewrite lookup_alter_eq|by rewrite lookup_alter_ne].
    by destruct (instHeap t !! instance_ v) as [[? ? ? []]|].
  - intros t v. unfold shift_instance, set_instHeap. cbn. f_equal. by rewrite alter_insert_ne.
Qed.

(** Lengths of slots are kept by removals. *)
Definition keeps_room (t t' : structure) : Prop := forall w i, has_room t w i -> has_room t' w i.

Lemma setNet_None_str c s s' : setNet c None s = (Ret tt, s') -> str s' = str s.
Proof.
  unfold setNet, mbind, prog_bind. cbn. case_bool_decide; [by intros [= <-]|].
  assert (Hrem : forall n s1, (removeComponent n c s).1 = Ret tt -> (removeComponent n c s).2 = s1 -> str s1 = str s).
  { intros n s1. unfold removeComponent, mbind, prog_bind, the_net, deref. destruct (netHeap (str s) !! n); [|done].
    destruct (comp_getNLID (str s) c); [|done]. by intros _ <-. }
  destruct (net_ s !! c) as [n|].
  - destruct (removeComponent n c s) as [[[]|?|] s1] eqn:E1; [|done..]. pose proof (Hrem n s1) as Hr. rewrite E1 in Hr.
    intros [= <-]. by apply Hr.
  - by intros [= <-].
Qed.

Lemma removeInstTerm_room i x s s' : removeInstTerm i x s = (Ret tt, s') -> keeps_room (str s) (str s').
Proof.
  unfold removeInstTerm, mbind, prog_bind, the_instance, deref, lift.
  destruct (instHeap (str s) !! i) as [inst|] eqn:Hi; [|done].
  destruct (object_header (termHeap (str s)) x); [|done]. destruct (defined _) as [[]|?|]; [|done..].
  destruct (getFlatID (termHeap (str s)) x) as [f|]; [|done]. destruct (defined _) as [[]|?|]; [|done..].
  assert (Hins : forall t, instHeap t = instHeap (str s) ->
    keeps_room (str s) (set_instHeap (<[i:=set_slots (<[f:=None]> (instTerms_ (h_extra inst))) inst]> (instHeap t)) t)).
  { intros t Et w j (J & HJ & Hw). unfold has_room. cbn. rewrite Et. destruct (decide (i = j)) as [<-|Hne].
    - rewrite lookup_insert_eq. eexists. split; [reflexivity|]. cbn. rewrite length_insert. rewrite Hi in HJ. by injection HJ as <-.
    - rewrite lookup_insert_ne by done. by exists J. }
  assert (Hput : forall s1 s2, instHeap (str s1) = instHeap (str s) ->
    put_instance i (set_slots (<[f:=None]> (instTerms_ (h_extra inst))) inst) s1 = (Ret tt, s2) -> keeps_room (str s) (str s2)).
  { intros s1 s2 E1. unfold put_instance, change, modify. intros [= <-]. cbn. by apply Hins. }
  destruct (getBitAtPosition _ f) as [it|].
  - unfold instTerm_destroyFromInstance, mbind, prog_bind. destruct (setNet it None s) as [[[]|?|] s1] eqn:E1; [|done..].
    apply setNet_None_str in E1. unfold delete_instTerm, change, modify. cbn. rewrite E1, Hi. intros H. refine (Hput _ _ _ H). cbn. by rewrite ?E1.
  - cbn. rewrite Hi. intros H. by refine (Hput _ _ _ H).
Qed.

Lemma for_each_room {A} (body : A -> prog netlist unit) l s s' :
  (forall a s s', body a s = (Ret tt, s') -> keeps_room (str s) (str s')) -> for_each body l s = (Ret tt, s') -> keeps_room (str s) (str s').
Proof.
  intros Hb. revert s. induction l as [|a l IH]; intros s; cbn; [intros [= <-]; by intros w i|]. unfold mbind, prog_bind.
  destruct (body a s) as [[[]|?|] s1] eqn:E1; [|done..]. intros H w i Hi. apply (IH _ H), (Hb _ _ _ E1), Hi.
Qed.

Definition shift_all (base oldWidth k : nat) (insts : list loc) (t : structure) : structure :=
  foldl (fun t i => shift_instance base oldWidth k i t) t insts.

(** The shifts can as well come after all removals. *)
Lemma shift_later (A : loc -> prog netlist unit) base oldWidth k insts s (Q : unit -> netlist -> Prop) E :
  NoDup insts -> (forall i, i ∈ insts -> has_room (str s) (base + oldWidth) i) ->
  (forall i j, i <> j -> commutes (restructure (shift_instance base oldWidth k i)) (A j)) ->
  (forall i s s', A i s = (Ret tt, s') -> keeps_room (str s) (str s')) ->
  wp (for_each A insts) s (fun _ s' => Q tt (restructure (shift_all base oldWidth k insts) s')) (fun _ _ => False) ->
  wp (for_each (fun i => A i ;; shift_slots base oldWidth k i) insts) s Q E.
Proof.
  intros Hnd Hroom Hcomm Hkeep. revert s Hroom. induction insts as [|i insts IH]; intros s Hroom.
  { cbn. unfold wp, restructure. cbn. by destruct s as [[]]. }
  cbn [for_each]. rewrite !wp_bind. intros Hwp. apply NoDup_cons in Hnd as [Hi Hnd].
  unfold wp in Hwp at 1. unfold wp at 1. destruct (A i s) as [[[]|e|] s1] eqn:E1; [|done..].
  assert (Hroom1 : forall j, j ∈ i :: insts -> has_room (str s1) (base + oldWidth) j) by (intros j Hj; by apply (Hkeep _ _ _ E1), Hroom).
  unfold wp at 1. rewrite shift_slots_run by (apply Hroom1; by left). apply (IH Hnd).
  - intros j Hj. destruct (Hroom1 j ltac:(by right)) as (inst & Hinst & Hlen). exists inst. split; [|done].
    cbn. rewrite lookup_alter_ne; [done|]. by intros ->.
  - apply wp_commutes; [|exact Hwp]. apply commutes_for_each. intros j Hj. apply Hcomm. by intros ->.
Qed.

Lemma shift_all_lookup base oldWidth k insts t : NoDup insts ->
  exists hi, shift_all base oldWidth k insts t = set_instHeap hi t /\ forall j,
    hi !! j = if decide (j ∈ insts)
      then (fun inst => set_slots (foldl (move_slot k) (instTerms_ (h_extra inst)) (seq (base + k) (oldWidth - k))) inst) <$> instHeap t !! j
      else instHeap t !! j.
Proof.
  revert t. induction insts as [|i insts IH]; intros t Hnd.
  { exists (instHeap t). split; [by destruct t|]. intros j. by rewrite decide_False by apply not_elem_of_nil. }
  apply NoDup_cons in Hnd as [Hi Hnd]. destruct (IH (shift_instance base oldWidth k i t) Hnd) as (hi & E1 & Hhi).
  exists hi. split; [by unfold shift_all in *; cbn; rewrite E1|]. intros j. rewrite Hhi. unfold shift_instance. cbn.
  destruct (decide (i = j)) as [<-|Hne].
  - rewrite decide_False, decide_True by (done || by left). by rewrite lookup_alter_eq.
  - rewrite lookup_alter_ne by done. destruct (decide (j ∈ insts)); [by rewrite decide_True by by right|].
    rewrite decide_False; [done|]. intros [?|?]%elem_of_cons; congruence.
Qed.

Lemma wp_run {S A} (m : prog S A) s Q E : wp m s Q E -> wp m s (fun a s' => Q a s' /\ m s = (Ret a, s')) E.
Proof. unfold wp. by destruct (m s) as [[a|e|] s']. Qed.

(** Connections only depend on what components are. *)
Lemma conn_wf_same s t :
  conn_wf s -> netHeap t = netHeap (str s) -> (forall c, comp_design t c = comp_design (str s) c) ->
  (forall c, comp_getNLID t c = comp_getNLID (str s) c) -> (forall c, is_component (str s) c -> is_component t c) -> conn_wf (set_str t s).
Proof.
  intros C Hn Hd Hk Hc. apply conn_wf_change_str; [done|..].
  - intros c d k. by rewrite Hd, Hk.
  - intros c n d k _. rewrite Hd, Hk. unfold net_design, is_bitNet. rewrite Hn. intros. split_and!; auto.
  - intros c k _. by rewrite Hk.
Qed.

Lemma comp_same_instances t hi c : same_instances (instHeap t) hi ->
  comp_design (set_instHeap hi t) c = comp_design t c /\ comp_getNLID (set_instHeap hi t) c = comp_getNLID t c.
Proof.
  intros Hsame. unfold comp_design, comp_getNLID, instTerm_getNLID. cbn. destruct (instTermHeap t !! c) as [v|]; [|done].
  specialize (Hsame (instance_ v)). destruct (instHeap t !! instance_ v) as [J|]; [by destruct Hsame as [l ->]|by rewrite Hsame].
Qed.

(** A bus with other bits and range has the same header. *)
Lemma comp_same_bus t b o m l bs m' l' bs' c : termHeap t !! b = Some (Bus o m l bs) ->
  let t' := set_termHeap (<[b:=Bus o m' l' bs']> (termHeap t)) t in
  comp_design t' c = comp_design t c /\ comp_getNLID t' c = comp_getNLID t c /\ (is_component t c -> is_component t' c).
Proof.
  intros Hb t'. assert (Hh : forall y, object_header (<[b:=Bus o m' l' bs']> (termHeap t)) y = object_header (termHeap t) y).
  { intros y. unfold object_header. destruct (decide (b = y)) as [<-|Hne]; [by rewrite lookup_insert_eq, Hb|]. rewrite lookup_insert_ne by done.
    destruct (termHeap t !! y) as [[| |e i]|]; try done. destruct (decide (b = e)) as [<-|]; [by rewrite lookup_insert_eq, Hb|by rewrite lookup_insert_ne]. }
  assert (Hi : forall y, is_bit (<[b:=Bus o m' l' bs']> (termHeap t)) y = is_bit (termHeap t) y).
  { intros y. unfold is_bit. destruct (decide (b = y)) as [<-|Hne]; [by rewrite lookup_insert_eq, Hb|by rewrite lookup_insert_ne]. }
  split_and!.
  - unfold comp_design. subst t'. cbn -[object_header]. by rewrite Hh.
  - unfold comp_getNLID, instTerm_getNLID, term_getNLID. subst t'. cbn -[object_header is_bit].
    destruct (instTermHeap t !! c) as [v|]; [by rewrite Hh, Hi|]. rewrite Hh.
    destruct (decide (b = c)) as [<-|Hne]; [by rewrite lookup_insert_eq, Hb|by rewrite lookup_insert_ne].
  - unfold is_component. subst t'. cbn -[is_bit]. by rewrite Hi.
Qed.

(** * Narrowing *)

Section run.
Context (s : netlist) (W : struct_wf (str s)) (C : conn_wf s) (b : loc) (o : header term_fields) (msb lsb : Z) (bits : list (option loc)).
Context (Hb : termHeap (str s) !! b = Some (Bus o msb lsb bits)) (Hreach : reaches (str s) (h_design o)).
Local Notation base := (flatID_ (h_extra o)).
Local Notation sls := (getSlaveInstances (str s) (h_design o)).

(** The outcome: [ns] are gone, the bus has the bits at the positions [k], ...,
    [k + n - 1] with the range given. *)
Definition left_over (msb' lsb' : Z) (k n : nat) (ns : list loc) (y : loc) : option SNLTerm :=
  if decide (y = b) then Some (Bus o msb' lsb' (take n (drop k bits))) else if decide (y ∈ ns) then None else termHeap (str s) !! y.

Section range.
Context (msb' lsb' : Z) (k n : nat) (ns : list loc).
Context (Hat : forall i, (i < n)%nat -> bit_at msb' lsb' i = bit_at msb lsb (k + i)) (Hlen : (k + n <= length bits)%nat).
Context (Hw : getWidth msb' lsb' = Ret (Z.of_nat n)) (Hnd : NoDup ns).
Context (Hin : forall x (i : nat), bits !! i = Some (Some x) -> x ∈ ns <-> ~ (k <= i < k + n)%nat).
Context (Hns : forall x, x ∈ ns -> exists i : nat, bits !! i = Some (Some x)).

Lemma removed_term x : x ∈ ns -> bit_term_of (str s) x (h_design o).
Proof.
  intros [i Hi]%Hns. pose proof (ow_bits _ _ (sw_terms _ _ W) _ _ _ _ _ _ _ Hb Hi) as Hx.
  unfold bit_term_of, is_bit, object_header. rewrite Hx, Hb. split; [by eexists|done].
Qed.

Lemma gap_empty t1 i f : struct_wf_except (fun i y => i ∈ sls /\ y ∈ ns) t1 -> unplugged_str (is_in sls ns) (str s) t1 -> i ∈ sls ->
  (base <= f < base + length bits)%nat -> ~ (base + k <= f < base + k + n)%nat -> slot t1 i f = None.
Proof.
  intros W1 (hi & ht & E1 & Hsame & Hht) Hi Hf Hout. destruct (slot t1 i f) as [it|] eqn:Hs; [exfalso|done].
  destruct (sw_slots _ _ W1 _ _ _ Hs) as (x & Hit & Hfx). destruct (sw_instTerm _ _ W1 _ _ Hit) as (J & g & HJ & _ & Hx). cbn in HJ, Hx.
  destruct (elem_of_slaves _ _ _ _ W Hi) as (J0 & HJ0 & Hm). rewrite E1 in HJ, Hx, Hfx, Hit. cbn in HJ, Hfx, Hit.
  destruct (same_instances_lookup _ _ _ _ Hsame HJ0) as [l Hl]. rewrite Hl in HJ. injection HJ as <-. cbn in Hx.
  assert (Hx' : bit_term_of (str s) x (h_design o)) by (rewrite <- Hm; exact Hx).
  pose proof (in_bus _ _ _ _ _ _ _ _ _ W Hb Hx' Hfx Hf) as Hp.
  rewrite Hht in Hit. destruct (instTermHeap (str s) !! it) as [v|] eqn:Ev; [|done].
  destruct (is_in sls ns v) eqn:Ei; [done|]. injection Hit as ->. unfold is_in in Ei. apply bool_decide_eq_false_1 in Ei. apply Ei. cbn.
  split; [done|]. apply (Hin _ _ Hp). lia.
Qed.

Lemma unplugged_same t t' P s1 : unplugged P s s1 -> t = str s -> t' = str s1 -> (forall c v w, P c v = P w v) -> unplugged_str (P b) t t'.
Proof.
  intros [(hi & ht & E1 & E2 & E3) _ _ _] -> -> HP. exists hi, ht. split_and!; [done..|]. intros c. rewrite E3.
  destruct (instTermHeap (str s) !! c) as [v|]; [by rewrite (HP c v b)|done].
Qed.

Lemma narrow_run (shift : loc -> prog netlist unit) :
  (forall s1, struct_wf_except (fun i y => i ∈ sls /\ y ∈ ns) (str s1) -> conn_wf s1 -> unplugged (fun _ => is_in sls ns) s s1 ->
     (forall w i, has_room (str s) w i -> has_room (str s1) w i) -> exists hi,
     closed_up s o bits k n (str s1) hi /\ forall Q : unit -> netlist -> Prop, Q tt (set_str (set_instHeap hi (str s1)) s1) ->
     wp (for_each (fun i => for_each (removeInstTerm i) ns) sls) s (fun _ s' => s' = s1) (fun _ _ => False) ->
     wp (for_each (fun i => for_each (removeInstTerm i) ns ;; shift i) sls) s Q (unchanged s)) ->
  wp (busTerm_narrow (Some <$> ns) (h_design o) shift ;; put_term b (Bus o msb' lsb' (take n (drop k bits))) ;; setOrderIDs (h_design o)) s
    (fun _ s' => term_gone s ns (left_over msb' lsb' k n ns) s' /\ unused s sls ns) (unchanged s).
Proof.
  intros Hshift. unfold busTerm_narrow. rewrite wp_bind, wp_bind.
  eapply wp_mono; [apply (check_removable_ok s ns)| |done]. cbn beta. intros _ s' [-> Hfree].
  rewrite wp_bind, wp_gets, wp_bind.
  eapply wp_mono; [apply (check_slaves_ok s W sls (h_design o) ns); [exact (fun i Hi => elem_of_slaves _ _ _ _ W Hi)|exact removed_term]| |done].
  cbn beta. intros _ s' [-> Hplug]. rewrite wp_bind.
  assert (Hloop : forall i s', (for_each (remove_instTerm_bit i) (Some <$> ns) ;; shift i) s' = (for_each (removeInstTerm i) ns ;; shift i) s').
  { intros i s'. assert (E1 : for_each (remove_instTerm_bit i) (Some <$> ns) = for_each (removeInstTerm i) ns); [|by rewrite E1].
    clear. induction ns as [|x ns' IH]; [done|]. cbn. by rewrite IH. }
  eapply wp_ext; [apply for_each_ext; exact Hloop|]. clear Hloop.
  pose proof (wp_run _ _ _ _ (removeInstTerms_all_ok _ s sls (h_design o) ns (fun _ _ => False) W C (NoDup_slaves _ _ _ W) Hnd
    (fun i Hi => elem_of_slaves _ _ _ _ W Hi) (fun i x _ Hx => conj (removed_term x Hx) (fun F : False => F)))) as Hrun.
  unfold wp in Hrun at 1. destruct (for_each (fun i => for_each (removeInstTerm i) ns) sls s) as [[[]|e|] s1] eqn:Erun; [|done..].
  destruct Hrun as ((W1' & C1 & U) & _).
  assert (W1 : struct_wf_except (fun i y => i ∈ sls /\ y ∈ ns) (str s1)) by (eapply struct_wf_weaken; [|exact W1']; by intros i y [[]|]).
  assert (Hkr : keeps_room (str s) (str s1)).
  { refine (for_each_room _ _ _ _ _ Erun). intros i s2 s3. apply for_each_room. intros x s4 s5. apply removeInstTerm_room. }
  destruct (Hshift s1 W1 C1 U Hkr) as (hi & Hclosed & Hgo). apply Hgo; [|unfold wp; by rewrite Erun]. clear Hgo Hshift.
  assert (U1 : unplugged_str (is_in sls ns) (str s) (str s1)) by exact (unplugged_same _ _ _ _ U eq_refl eq_refl (fun _ _ _ => eq_refl)).
  destruct U1 as (hi1 & ht & E1 & Hsame1 & Hht).
  set (s2 := set_str (set_instHeap hi (str s1)) s1).
  assert (C2 : conn_wf s2).
  { apply conn_wf_same; [done|done|..]; intros c; try apply (comp_same_instances _ _ _ (proj1 Hclosed)); done. }
  assert (Hunref : forall it v, instTermHeap (str s1) !! it = Some v -> bitTerm_ v ∉ ns).
  { intros it v Hit Hv. destruct (sw_instTerm _ _ W1 _ _ Hit) as (J & f & HJ & _ & [_ Hbt]). rewrite E1 in HJ, Hbt. cbn in HJ, Hbt.
    rewrite E1 in Hit. cbn in Hit. rewrite Hht in Hit. destruct (instTermHeap (str s) !! it) as [w|] eqn:Ew; [|done].
    destruct (is_in sls ns w) eqn:Ei; [done|]. injection Hit as ->. unfold is_in in Ei. apply bool_decide_eq_false_1 in Ei.
    apply Ei. split; [|done]. destruct (sw_instTerm _ _ W _ _ Ew) as (J0 & f0 & HJ0 & _ & [_ Hbt0]). apply (Hreach _ _ HJ0).
    destruct (removed_term _ Hv) as [_ Hd]. congruence. }
  eapply wp_mono; [apply (remove_bits_ok s2 ns (fun _ _ => False) C2 Hnd)| |done].
  { intros x Hx. assert (Hx1 : bit_term_of (str s1) x (h_design o)) by (rewrite E1; by apply removed_term).
    destruct (bit_component _ _ _ _ W1 Hx1) as (Hd & Hk & _). destruct (comp_same_instances (str s1) hi x (proj1 Hclosed)) as [E2 E3].
    destruct (Hns x Hx) as [i Hi]. pose proof (ow_bits _ _ (sw_terms _ _ W) _ _ _ _ _ _ _ Hb Hi) as Hxb. split_and!.
    - exists b, (bit_at msb lsb i). cbn. rewrite E1. exact Hxb.
    - cbn. apply (sw_apart _ _ W1). rewrite E1. by eexists.
    - exists (h_design o). cbn. by rewrite E2.
    - cbn. by rewrite E3. }
  { exact Hunref. }
  cbn beta. intros _ s3 (C3 & T3 & N3 & h & E3 & Hh). unfold put_term, setOrderIDs, change. rewrite wp_bind, !wp_modify.
  assert (Hbn : b ∉ ns) by (intros Hbn; destruct (removed_term _ Hbn) as [[z Hz] _]; unfold is_bit in Hz; by rewrite Hb in Hz).
  assert (Hb3 : termHeap (str s3) !! b = Some (Bus o msb lsb bits)) by (rewrite E3; cbn; rewrite Hh, decide_False by done; cbn; by rewrite E1).
  assert (Hn : narrowed s b o bits msb' lsb' k n ns (<[b:=Bus o msb' lsb' (take n (drop k bits))]> (termHeap (str s3)))).
  { intros y. destruct (decide (y = b)) as [->|Hne]; [by rewrite lookup_insert_eq|]. rewrite lookup_insert_ne by done. rewrite E3. cbn.
    rewrite Hh. cbn. by rewrite E1. }
  pose proof (wf_narrowed s W b o msb lsb bits Hb Hreach msb' lsb' k n ns Hat Hlen Hw Hin Hns _ Hn (str s1) hi W1
    (ex_intro _ hi1 (ex_intro _ ht (conj E1 (conj Hsame1 Hht)))) Hclosed) as W4.
  assert (Et : set_termHeap (<[b:=Bus o msb' lsb' (take n (drop k bits))]> (termHeap (str s3))) (str s3) =
    mkStructure (designs (str s1)) (terms_ (str s1)) (nets_ (str s1)) (instances_ (str s1)) (slaveInstances_ (str s1))
      (<[b:=Bus o msb' lsb' (take n (drop k bits))]> (termHeap (str s3))) (netHeap (str s1)) hi (instTermHeap (str s1)) (next (str s1)))
    by by rewrite E3.
  rewrite <- Et in W4.
  assert (Hgone : forall c w, instTermHeap (str s) !! c = Some w -> is_in sls ns w = bool_decide (bitTerm_ w ∈ ns)).
  { intros c w Hcw. unfold is_in. apply bool_decide_ext. split; [by intros []|]. intros Hv. split; [|done].
    destruct (sw_instTerm _ _ W _ _ Hcw) as (J0 & f0 & HJ0 & _ & [_ Hbt0]). apply (Hreach _ _ HJ0).
    destruct (removed_term _ Hv) as [_ Hd]. congruence. }
  split; [|by split]. split.
  - exact W4.
  - assert (C4 : conn_wf (set_str (set_termHeap (<[b:=Bus o msb' lsb' (take n (drop k bits))]> (termHeap (str s3))) (str s3)) s3)).
    { apply conn_wf_same; [done|done|..]; intros c; apply (comp_same_bus (str s3) b o msb lsb bits msb' lsb' _ c Hb3). }
    destruct C4 as [K A P]. split; [exact K|exact A|exact P].
  - intros y. unfold left_over. exact (Hn y).
  - intros c. cbn. rewrite E3. cbn. rewrite E1. cbn. rewrite Hht. destruct (instTermHeap (str s) !! c) as [w|] eqn:Ew; [|done].
    rewrite (Hgone _ _ Ew). case_bool_decide; case_decide; done.
  - intros c. cbn. rewrite N3. destruct (decide (c ∈ ns)); [done|]. cbn. rewrite (up_net _ _ _ U).
    destruct (instTermHeap (str s) !! c) as [w|] eqn:Ew; [|done]. rewrite (Hgone _ _ Ew). case_bool_decide; case_decide; done.
  - cbn. rewrite E3. cbn. by rewrite E1.
  - cbn. rewrite T3. exact (up_types _ _ _ U).
Qed.
End range.

(** Nothing happens when the range stays. *)
Lemma term_gone_none msb' lsb' : msb' = msb -> lsb' = lsb -> term_gone s [] (left_over msb' lsb' 0 (length bits) []) s.
Proof.
  intros -> ->. split; [done..| | | |done|done].
  - intros y. unfold left_over. rewrite drop_0, firstn_all. destruct (decide (y = b)) as [->|]; [done|]. by rewrite decide_False by apply not_elem_of_nil.
  - intros c. destruct (instTermHeap (str s) !! c); [|done]. by rewrite decide_False by apply not_elem_of_nil.
  - intros c. rewrite decide_False by apply not_elem_of_nil. destruct (instTermHeap (str s) !! c); [|done].
    by rewrite decide_False by apply not_elem_of_nil.
Qed.

Lemma busTerm_setLSB_ok lsb' :
  let left := (length bits - Z.to_nat (Z.abs (lsb - lsb')))%nat in
  Forall is_Some (drop left bits) ->
  wp (busTerm_setLSB b lsb') s (fun _ s' => exists ns, drop left bits = Some <$> ns /\
      term_gone s ns (left_over msb lsb' 0 left ns) s' /\ unused s sls ns) (unchanged s).
Proof.
  intros left Hleft. destruct (all_left _ Hleft) as [ns Ens]. unfold busTerm_setLSB. wp_read Hb. cbn beta iota.
  destruct (Z.eqb_spec lsb' lsb) as [->|Hne].
  - apply wp_ret. assert (left = length bits) as El by (subst left; rewrite Z.sub_diag; cbn; lia). rewrite El in *.
    rewrite drop_all in Ens. destruct ns; [|done]. exists []. split; [by rewrite drop_all|]. split; [by apply term_gone_none|].
    split; intros *; by intros ? ?%not_elem_of_nil || intros ?%not_elem_of_nil || intros _ _ ?%not_elem_of_nil.
  - rewrite wp_bind. apply wp_check; [|done]. intros Hbt.
    destruct (narrow_lsb _ _ _ _ _ _ _ _ (sw_terms _ _ W) Hb Hbt) as (n & Hlen & Hw & Hat).
    cbv zeta. fold left. assert (n = left) as -> by lia.
    destruct (removed_back _ _ _ _ _ _ _ _ _ (sw_terms _ _ W) Hb Ens) as (Hnd & Hin & Hns). rewrite Ens.
    assert (Hin' : forall x (i : nat), bits !! i = Some (Some x) -> x ∈ ns <-> ~ (0 <= i < 0 + left)%nat).
    { intros x i Hi. pose proof (lookup_lt_Some _ _ _ Hi). rewrite (Hin _ _ Hi). lia. }
    replace (take left bits) with (take left (drop 0 bits)) by by rewrite drop_0.
    eapply wp_mono; [apply (narrow_run msb lsb' 0 left ns Hat ltac:(lia) Hw Hnd Hin' Hns)| |done].
    + intros s1 W1 C1 U _. exists (instHeap (str s1)). split.
      * split; [apply same_instances_refl|]. intros i f. change (match instHeap (str s1) !! i with Some inst => _ | None => None end) with (slot (str s1) i f).
        destruct (decide (i ∈ sls /\ _)) as [[Hi Hf]|]; [|done]. destruct (decide (f < flatID_ (h_extra o) + left)%nat); [by rewrite Nat.add_0_r|].
        apply (gap_empty 0 left ns ltac:(lia) Hin' (str s1) i f W1); [|done|done|lia].
        exact (unplugged_same _ _ _ _ U eq_refl eq_refl (fun _ _ _ => eq_refl)).
      * intros Q HQ Hrun. eapply wp_ext; [apply for_each_ext; intros i s'; apply bind_ret_unit|].
        eapply wp_mono; [exact Hrun| |done]. cbn beta. intros [] s' ->. by destruct s1 as [[]].
    + cbn beta. intros _ s' [G Hu]. by exists ns.
Qed.

Lemma busTerm_setMSB_ok msb' :
  Forall is_Some (take (bit_position msb msb') bits) ->
  (forall i, i ∈ sls -> has_room (str s) (flatID_ (h_extra o) + length bits) i) ->
  wp (busTerm_setMSB b msb') s (fun _ s' => let k := bit_position msb msb' in exists ns, take k bits = Some <$> ns /\
      term_gone s ns (left_over msb' lsb k (length bits - k) ns) s' /\ unused s sls ns) (unchanged s).
Proof.
  intros Hleft Hroom. destruct (all_left _ Hleft) as [ns Ens]. unfold busTerm_setMSB. wp_read Hb. cbn beta iota.
  destruct (Z.eqb_spec msb' msb) as [->|Hne].
  - apply wp_ret. replace (bit_position msb msb) with 0%nat in * by (unfold bit_position; rewrite Z.sub_diag; done).
    rewrite take_0 in Ens. destruct ns; [|done]. exists []. split; [done|]. rewrite Nat.sub_0_r. split; [by apply term_gone_none|].
    split; intros *; by intros ? ?%not_elem_of_nil || intros ?%not_elem_of_nil || intros _ _ ?%not_elem_of_nil.
  - rewrite wp_bind. apply wp_check; [|done]. intros Hbt.
    destruct (narrow_msb _ _ _ _ _ _ _ _ (sw_terms _ _ W) Hb Hbt) as (n & Hlen & Hw & Hat).
    change (Z.to_nat (Z.abs (msb - msb'))) with (bit_position msb msb'). set (k := bit_position msb msb') in *.
    assert (Hk : (0 < k)%nat) by (subst k; unfold bit_position; lia).
    assert (n = length bits - k)%nat as -> by lia. set (n := (length bits - k)%nat) in *.
    destruct (removed_front _ _ _ _ _ _ _ _ _ (sw_terms _ _ W) Hb Ens) as (Hnd & Hin & Hns). cbv zeta. rewrite Ens.
    assert (Hin' : forall x (i : nat), bits !! i = Some (Some x) -> x ∈ ns <-> ~ (k <= i < k + n)%nat).
    { intros x i Hi. pose proof (lookup_lt_Some _ _ _ Hi). rewrite (Hin _ _ Hi). lia. }
    replace (drop k bits) with (take n (drop k bits)) by (apply take_ge; rewrite length_drop; lia).
    eapply wp_mono; [apply (narrow_run msb' lsb k n ns Hat ltac:(lia) Hw Hnd Hin' Hns)| |done].
    + intros s1 W1 C1 U Hkr.
      assert (U1 : unplugged_str (is_in sls ns) (str s) (str s1)) by exact (unplugged_same _ _ _ _ U eq_refl eq_refl (fun _ _ _ => eq_refl)).
      destruct (shift_all_lookup (flatID_ (h_extra o)) (length bits) k sls (str s1) (NoDup_slaves _ _ _ W)) as (hi & Ehi & Hhi).
      exists hi. split.
      * split.
        { intros j. rewrite Hhi. destruct (instHeap (str s1) !! j) as [J|] eqn:EJ.
          - destruct (decide (j ∈ sls)); [by eexists|]. exists (instTerms_ (h_extra J)). by destruct J as [? ? ? []].
          - by destruct (decide (j ∈ sls)). }
        intros i f. rewrite Hhi. destruct (decide (i ∈ sls)) as [Hi|Hi]; [|by rewrite decide_False by tauto].
        destruct (Hkr _ _ (Hroom i Hi)) as (J & HJ & HlJ). rewrite HJ. cbn [fmap option_fmap option_map].
        assert (Hslot : forall g, slot (str s1) i g = getBitAtPosition (instTerms_ (h_extra J)) g) by (intros g; unfold slot; by rewrite HJ).
        destruct (shift_spec (flatID_ (h_extra o)) k (length bits - k) (instTerms_ (h_extra J)) Hk ltac:(lia)) as [_ Hr].
        { intros g Hg. rewrite <- Hslot. apply (gap_empty k n ns ltac:(lia) Hin' (str s1) i g W1 U1 Hi); lia. }
        cbn zeta in Hr. cbn [set_slots h_extra instTerms_]. rewrite Hr, !Hslot. fold n.
        replace (flatID_ (h_extra o) + n + k)%nat with (flatID_ (h_extra o) + length bits)%nat by lia.
        destruct (decide (_ <= f < _ + length bits)%nat); [by rewrite (decide_True (P := i ∈ sls /\ _)) by done|by rewrite (decide_False (P := i ∈ sls /\ _)) by tauto].
      * intros Q HQ Hrun. apply shift_later.
        -- by eapply NoDup_slaves.
        -- exact Hroom.
        -- intros i j Hij. apply commutes_for_each. intros x _. apply commutes_removeInstTerm. by apply shift_independent.
        -- intros i s2 s3. apply for_each_room. intros x s4 s5. apply removeInstTerm_room.
        -- eapply wp_mono; [exact Hrun| |done]. cbn beta. intros _ s' ->. unfold restructure. by rewrite Ehi.
    + cbn beta. intros _ s' [G Hu]. by exists ns.
Qed.
End run.
