(* ===== verification/TermNets.v ===== *)
(** Connecting the terminals of an instance, and bus terminals, to nets bit by
    bit (nl/netlist/snl/SNLInstance.cpp [setTermsNets] and [setTermNet],
    SNLBusTerm.cpp [setNet]). *)
From S2P Require Import Prelude NLID Store Bus Contents Connections DesignNets Interface InterfaceSteps InterfaceTerms TermLifetime TermBits Narrowing.
Local Open Scope Z_scope.

(** * Operations *)

(** The bit numbers from [msb] to [lsb]. *)
Definition bit_range (msb lsb : Z) : list Z := bit_at msb lsb <$> seq 0 (Z.to_nat (Z.abs (lsb - msb) + 1)).

(** One turn of the loop of [setTermsNets]; [getInstTerm] of a terminal whose
    slot is empty gives a null pointer. *)
Definition setOneTermNet (i : loc) (p : option loc * option loc) : prog netlist unit :=
  match p.1 with
  | None => undef
  | Some x =>
      inst ← the_instance i; o ← deref (fun s => object_header (termHeap (str s)) x);
      check (bool_decide (model_ (h_extra inst) = h_design o)) "setTermsNets error with incompatible instance and terminal" ;;
      (match p.2 with
       | None => mret tt
       | Some n =>
           d ← deref (fun s => net_design (str s) n);
           check (bool_decide (d = h_design inst)) "setTermsNets error with incompatible instance and net"
       end) ;;
      instTerm ← getInstTerm i (Some x);
      match instTerm with None => undef | Some it => setNet it p.2 end
  end.
Definition setTermsNets (i : loc) (terms nets : list (option loc)) : prog netlist unit :=
  check (length terms =? length nets)%nat "setTermsNets only supported when terms and nets share same size" ;;
  for_each (setOneTermNet i) (zip terms nets).

Definition term_bits (term : loc) (msb' lsb' : Z) : prog netlist (list (option loc)) :=
  v ← the_term term;
  match v with
  | Bus _ msb lsb bits =>
      lift (defined (isBetween msb' msb lsb && isBetween lsb' msb lsb)) ;;
      mret (getBit msb lsb bits <$> bit_range msb' lsb')
  | _ => lift (defined (msb' =? lsb')) ;; mret [Some term]
  end.
Definition net_bits (net : option loc) (msb' lsb' : Z) : prog netlist (list (option loc)) :=
  match net with
  | None => lift (defined (msb' =? lsb')) ;; mret [None]
  | Some n =>
      v ← the_net n;
      match v with
      | Bus _ msb lsb bits =>
          lift (defined (isBetween msb' msb lsb && isBetween lsb' msb lsb)) ;;
          mret (getBit msb lsb bits <$> bit_range msb' lsb')
      | _ => lift (defined (msb' =? lsb')) ;; mret [Some n]
      end
  end.
(** The three [setTermNet]: ranges of both, a range of the net, all of both. *)
Definition setTermNet_ranges (i term : loc) (tmsb tlsb : Z) (net : option loc) (nmsb nlsb : Z) : prog netlist unit :=
  terms ← term_bits term tmsb tlsb; nets ← net_bits net nmsb nlsb; setTermsNets i terms nets.
Definition setTermNet_range (i term : loc) (net : option loc) (nmsb nlsb : Z) : prog netlist unit :=
  size ← lift (getWidth nmsb nlsb); v ← the_term term;
  match v with
  | Bus _ tmsb lsb _ =>
      let tlsb := if tmsb <? lsb then tmsb + size - 1 else tmsb - size + 1 in
      lift (defined (in_int tlsb)) ;; setTermNet_ranges i term tmsb tlsb net nmsb nlsb
  | _ => setTermNet_ranges i term 0 0 net nmsb nlsb
  end.
Definition net_getWidth (v : SNLNet) : outcome Z := match v with Bus _ msb lsb _ => getWidth msb lsb | _ => Ret 1 end.
Definition setTermNet (i term net : loc) : prog netlist unit :=
  tv ← the_term term; nv ← the_net net;
  tw ← lift (term_getWidth tv); nw ← lift (net_getWidth nv);
  check (tw =? nw) "setTermNet only supported when term and net share same width" ;;
  t ← gets str; setTermsNets i (Some <$> getBits (termHeap t) term) (Some <$> getBits (netHeap t) net).

(** [SNLBusTerm::setNet] *)
Definition setNet_some (bit : option loc) (net : option loc) : prog netlist unit :=
  match bit with None => mret tt | Some x => setNet x net end.
Definition busTerm_setNet (b : loc) (net : option loc) : prog netlist unit :=
  v ← the_term b;
  match v with
  | Bus o msb lsb bits =>
      match net with
      | None => for_each (fun bit => setNet_some bit None) bits
      | Some n =>
          d ← deref (fun s => net_design (str s) n);
          check (bool_decide (h_design o = d)) "setNet error: incompatible term and net" ;;
          nv ← the_net n; tw ← lift (getWidth msb lsb); nw ← lift (net_getWidth nv);
          check (tw =? nw) "setNet only supported when term and net have same width" ;;
          match nv with
          | Bus _ nmsb nlsb nbits =>
              for_each (fun p => setNet_some p.1 p.2)
                (zip (getBit msb lsb bits <$> bit_range msb lsb) (getBit nmsb nlsb nbits <$> bit_range nmsb nlsb))
          | _ => match getBit msb lsb bits msb with None => undef | Some x => setNet x (Some n) end
          end
      end
  | _ => undef
  end.

(** * Connecting lists of terminals *)

Lemma setNet_bit_ok s c d k net E :
  conn_wf s -> comp_design (str s) c = Some d -> comp_getNLID (str s) c = Some k -> is_component (str s) c ->
  (forall n, net = Some n -> net_design (str s) n = Some d /\ is_bitNet (str s) n) ->
  wp (setNet c net) s (fun _ s' => conn_wf s' /\ rewired s (fun c' => if decide (c' = c) then net else net_ s !! c') s') E.
Proof.
  intros C Hd Hk Hc Hnet. destruct net as [n|]; [|by apply (setNet_None_ok s C c d k)]. destruct (Hnet n eq_refl) as [Hn Hb].
  assert (Hbit : setNet_bit (str s) n = Ret (Some n)).
  { unfold setNet_bit. destruct Hb as [x Hx]. unfold is_bit in Hx. by destruct (netHeap (str s) !! n) as [[]|]. }
  eapply wp_mono; [apply (setNet_ok s C c d k Hd Hk n d Hc Hn)| |]; cbn beta; rewrite ?Hbit.
  - done.
  - by intros ? [= <-].
  - by intros [] s' (_ & C' & ? & [= <-] & R).
  - by intros e s' (_ & [?|[? ?]]).
Qed.

(** The net given to [y], the last of a list of pairs that names it. *)
Fixpoint given (ps : list (loc * option loc)) (y : loc) (old : option loc) : option loc :=
  match ps with
  | [] => old
  | p :: ps => given ps y (if decide (y = p.1) then p.2 else old)
  end.
Lemma given_app ps qs y old : given (ps ++ qs) y old = given qs y (given ps y old).
Proof. revert old. induction ps as [|p ps IH]; intros old; cbn; [done|apply IH]. Qed.
Lemma given_other ps y old : y ∉ ps.*1 -> given ps y old = old.
Proof.
  revert old. induction ps as [|p ps IH]; intros old Hy; cbn; [done|]. cbn in Hy. rewrite decide_False by set_solver. apply IH. set_solver.
Qed.
Lemma given_lookup ps y old (k : nat) n : NoDup ps.*1 -> ps !! k = Some (y, n) -> given ps y old = n.
Proof.
  revert old k. induction ps as [|p ps IH]; intros old k Hnd Hk; [done|]. cbn in Hnd. apply NoDup_cons in Hnd as [Hp Hnd].
  destruct k as [|k]; cbn in *.
  - injection Hk as ->. cbn in *. rewrite decide_True by done. by apply given_other.
  - by eapply IH.
Qed.

Section connect.
Context (s : netlist) (W : struct_wf (str s)) (C : conn_wf s) (i : loc) (inst : SNLInstance) (Hi : instHeap (str s) !! i = Some inst).

(** The net that a component has when the terminals of [i] are given nets. *)
Definition instance_given (ps : list (loc * option loc)) (c : loc) : option loc :=
  match instTermHeap (str s) !! c with
  | Some v => if decide (instance_ v = i) then given ps (bitTerm_ v) (net_ s !! c) else net_ s !! c
  | None => net_ s !! c
  end.

(** A pair is fine when [setTermsNets] does not throw on it. *)
Definition pair_ok (p : loc * option loc) : Prop :=
  bit_term_of (str s) p.1 (model_ (h_extra inst)) /\
  forall n, p.2 = Some n -> net_design (str s) n = Some (h_design inst) /\ is_bitNet (str s) n.

Lemma setOneTermNet_ok s1 ps x net E :
  conn_wf s1 -> rewired s (instance_given ps) s1 -> pair_ok (x, net) ->
  wp (setOneTermNet i (Some x, net)) s1 (fun _ s' => conn_wf s' /\ rewired s (instance_given (ps ++ [(x, net)])) s') E.
Proof.
  intros C1 R [Hx Hnet]. cbn in Hx, Hnet. pose proof (rw_str _ _ _ R) as Es. destruct (bit_term_header _ _ Hx) as (o & Ho & Hod).
  unfold setOneTermNet. cbn [fst snd]. rewrite wp_bind. eapply wp_deref; [rewrite Es; exact Hi|]. rewrite wp_bind. eapply wp_deref; [rewrite Es; exact Ho|].
  rewrite wp_bind. apply wp_check; [intros _|rewrite bool_decide_eq_true_2; done].
  assert (W1 : struct_wf (str s1)) by by rewrite Es.
  assert (Htail : wp (instTerm ← getInstTerm i (Some x); match instTerm with None => undef | Some it => setNet it net end) s1
    (fun _ s' => conn_wf s' /\ rewired s (instance_given (ps ++ [(x, net)])) s') E).
  { rewrite wp_bind. eapply wp_mono; [apply (getInstTerm_ok _ s1 i inst x E W1)| |done]; [by rewrite Es|by rewrite Es|tauto|].
    cbn beta. intros r s' (-> & it & -> & Hit). rewrite Es in Hit.
    destruct (instTerm_component _ _ _ _ _ W Hit Hi) as [Hd [k Hk]].
    eapply wp_mono; [apply (setNet_bit_ok s1 it (h_design inst) k net E C1)| |done]; rewrite ?Es; [done|done|left; by eexists|done|].
    cbn beta. intros _ s2 [C2 R2]. split; [done|]. eapply rewired_ext; [|exact (rewired_trans _ _ _ _ _ R R2)].
    intros c. cbn. rewrite (rw_net _ _ _ R). unfold instance_given.
    destruct (instTermHeap (str s) !! c) as [v|] eqn:Ec; [|by rewrite decide_False by congruence].
    destruct (decide (c = it)) as [->|Hne].
    - rewrite Hit in Ec. injection Ec as <-. cbn. rewrite decide_True, given_app by done. cbn. by rewrite decide_True.
    - destruct (decide (instance_ v = i)) as [Hv|]; [|done]. rewrite given_app. cbn. rewrite decide_False; [done|].
      intros Hvx. apply Hne, (instTerm_unique W _ _ v Ec). destruct v as [j y]. cbn in *. by subst. }
  destruct net as [n|]; rewrite wp_bind; [|by rewrite wp_ret].
  destruct (Hnet n eq_refl) as [Hn _]. rewrite wp_bind. eapply wp_deref; [rewrite Es; exact Hn|].
  apply wp_check; [intros _; exact Htail|by rewrite bool_decide_eq_true_2].
Qed.

Lemma setTermsNets_ok xs ns E :
  length xs = length ns -> (forall p, p ∈ zip xs ns -> pair_ok p) ->
  wp (setTermsNets i (Some <$> xs) ns) s (fun _ s' => conn_wf s' /\ rewired s (instance_given (zip xs ns)) s') E.
Proof.
  intros Hlen Hok. unfold setTermsNets. rewrite wp_bind. apply wp_check; [intros _|rewrite length_fmap, Nat.eqb_neq; done].
  assert (Ez : zip (Some <$> xs) ns = (fun p => (Some p.1, p.2)) <$> zip xs ns).
  { clear. revert ns. induction xs as [|x xs IH]; intros [|n ns]; cbn; [done..|]. f_equal. apply IH. }
  rewrite Ez. clear Ez.
  assert (Hloop : for_each (setOneTermNet i) ((fun p => (Some p.1, p.2)) <$> zip xs ns) =
    for_each (fun p => setOneTermNet i (Some p.1, p.2)) (zip xs ns)).
  { generalize (zip xs ns). intros ps. induction ps as [|p ps IH]; [done|]. cbn. by rewrite IH. }
  rewrite Hloop. clear Hloop.
  refine (wp_for_each _ (fun visited s' => conn_wf s' /\ rewired s (instance_given visited) s') _ s E _ _).
  - split; [done|]. eapply rewired_ext; [|apply rewired_refl]. intros c. unfold instance_given. cbn. destruct (instTermHeap (str s) !! c) as [v|]; [|done].
    by destruct (decide _).
  - intros visited [x net] rest s1 Hl [C1 R]. apply setOneTermNet_ok; [done|done|]. apply Hok. rewrite Hl. set_solver.
Qed.

(** Different sizes are refused before anything is connected. *)
Lemma setTermsNets_sizes terms nets : length terms <> length nets ->
  setTermsNets i terms nets s = (Throw "setTermsNets only supported when terms and nets share same size", s).
Proof. intros H. unfold setTermsNets, mbind, prog_bind. by rewrite (proj2 (Nat.eqb_neq _ _) H). Qed.
End connect.

(** * Whole terminals and nets *)

Lemma getBits_net X t n d y :
  struct_wf_except X t -> is_Some (netHeap t !! n) -> net_design t n = Some d -> y ∈ getBits (netHeap t) n ->
  net_design t y = Some d /\ is_bitNet t y.
Proof.
  intros W [v Hv] Hd. unfold getBits, net_design, is_bitNet in *. rewrite Hv. destruct v as [a|a m l bs|b j].
  - intros ->%list_elem_of_singleton. split; [done|]. unfold is_bit. rewrite Hv. by eexists.
  - intros [k Hk]%elem_of_getBusBits. pose proof (ow_bits _ _ (sw_nets _ _ W) _ _ _ _ _ _ _ Hv Hk) as Hy.
    unfold is_bit, object_header in *. rewrite Hv in Hd. rewrite Hy, Hv. split; [done|by eexists].
  - intros ->%list_elem_of_singleton. split; [done|]. unfold is_bit. rewrite Hv. by eexists.
Qed.

Lemma elem_of_zip_Some xs ns (p : loc * option loc) : p ∈ zip xs (Some <$> ns) -> p.1 ∈ xs /\ exists n, p.2 = Some n /\ n ∈ ns.
Proof.
  revert ns. induction xs as [|x xs IH]; intros [|n ns]; cbn; try by intros ?%not_elem_of_nil.
  intros [->|Hp]%elem_of_cons; cbn; [split; [by left|exists n; split; [done|by left]]|].
  destruct (IH _ Hp) as (H1 & m & H2 & H3). split; [by right|]. exists m. split; [done|by right].
Qed.

Section whole.
Context (s : netlist) (W : struct_wf (str s)) (C : conn_wf s).

Lemma setTermNet_ok i inst term net tv nv tw nw :
  instHeap (str s) !! i = Some inst ->
  termHeap (str s) !! term = Some tv -> h_design <$> object_header (termHeap (str s)) term = Some (model_ (h_extra inst)) ->
  netHeap (str s) !! net = Some nv -> net_design (str s) net = Some (h_design inst) ->
  term_getWidth tv = Ret tw -> net_getWidth nv = Ret nw ->
  let xs := getBits (termHeap (str s)) term in let ns := getBits (netHeap (str s)) net in
  wp (setTermNet i term net) s
    (fun _ s' => length xs = length ns /\ conn_wf s' /\ rewired s (instance_given s i (zip xs (Some <$> ns))) s')
    (fun _ s' => s' = s /\ (tw <> nw \/ length xs <> length ns)).
Proof.
  intros Hi Ht Htd Hn Hnd Htw Hnw xs ns. unfold setTermNet. wp_read Ht. wp_read Hn. rewrite wp_bind. eapply wp_lift; [exact Htw|].
  rewrite wp_bind. eapply wp_lift; [exact Hnw|]. rewrite wp_bind. apply wp_check; [intros _|intros Hne%Z.eqb_neq; by auto].
  rewrite wp_bind, wp_gets. fold xs ns. destruct (decide (length xs = length ns)) as [Hlen|Hlen].
  - eapply wp_mono; [apply (setTermsNets_ok s W C i inst Hi xs (Some <$> ns) (fun _ _ => False))| |done].
    + by rewrite length_fmap.
    + intros p Hp. destruct (elem_of_zip_Some _ _ _ Hp) as (Hx & n & Hn2 & Hnn). split.
      * apply (getBits_bit _ _ term _ _ W); [by eexists|done|done].
      * intros m. rewrite Hn2. intros [= <-]. apply (getBits_net _ _ net _ _ W); [by eexists|done|done].
    + by intros _ s' [? ?].
  - unfold wp. rewrite setTermsNets_sizes by (by rewrite !length_fmap). auto.
Qed.

(** The widths that [setTermNet] compares. *)
Lemma setTermNet_widths (inst : SNLInstance) term net :
  h_design <$> object_header (termHeap (str s)) term = Some (model_ (h_extra inst)) -> net_design (str s) net = Some (h_design inst) ->
  exists tv nv tw nw, termHeap (str s) !! term = Some tv /\ netHeap (str s) !! net = Some nv /\
    term_getWidth tv = Ret tw /\ net_getWidth nv = Ret nw.
Proof.
  intros Ht Hn.
  assert (is_Some (termHeap (str s) !! term)) as [tv Htv] by (unfold object_header in Ht; by destruct (termHeap (str s) !! term)).
  assert (is_Some (netHeap (str s) !! net)) as [nv Hnv] by (unfold net_design, object_header in Hn; by destruct (netHeap (str s) !! net)).
  assert (exists tw, term_getWidth tv = Ret tw) as [tw Htw].
  { destruct tv as [|a m l bs|]; [by eexists| |by eexists]. eexists. exact (ow_width _ _ (sw_terms _ _ W) _ _ _ _ _ Htv). }
  assert (exists nw, net_getWidth nv = Ret nw) as [nw Hnw].
  { destruct nv as [|a m l bs|]; [by eexists| |by eexists]. eexists. exact (ow_width _ _ (sw_nets _ _ W) _ _ _ _ _ Hnv). }
  by exists tv, nv, tw, nw.
Qed.

(** Bits of the whole range of a bus are its vector. *)
Lemma whole_range msb lsb bits : getWidth msb lsb = Ret (Z.of_nat (length bits)) -> getBit msb lsb bits <$> bit_range msb lsb = bits.
Proof.
  intros Hw. pose proof (getWidth_Ret _ _ _ Hw) as Hl. unfold bit_range. rewrite <- Hl, Nat2Z.id. apply list_eq. intros k.
  destruct (decide (k < length bits)%nat) as [Hk|Hk].
  - rewrite !list_lookup_fmap, lookup_seq_lt by done. cbn. rewrite getBit_in_range by done. unfold getBitAtPosition.
    by destruct (lookup_lt_is_Some_2 bits k Hk) as [x ->].
  - rewrite !lookup_ge_None_2; [done|lia|]. rewrite length_fmap, length_fmap, length_seq. lia.
Qed.

(** The nets that the bits of [b] get. *)
Definition bus_given (bits nbits : list (option loc)) (c : loc) : option loc :=
  given (omap (fun p => match p.1 with Some x => Some (x, p.2) | None => None end) (zip bits nbits)) c (net_ s !! c).

Lemma omap_last {A B} (f : A -> option B) l a : omap f (l ++ [a]) = omap f l ++ match f a with Some b => [b] | None => [] end.
Proof. by rewrite omap_app. Qed.

Lemma busTerm_setNet_bus_ok b o msb lsb bits n no nmsb nlsb nbits :
  termHeap (str s) !! b = Some (Bus o msb lsb bits) -> netHeap (str s) !! n = Some (Bus no nmsb nlsb nbits) ->
  wp (busTerm_setNet b (Some n)) s
    (fun _ s' => h_design o = h_design no /\ length bits = length nbits /\ conn_wf s' /\ rewired s (bus_given bits nbits) s')
    (fun _ s' => s' = s /\ (h_design o <> h_design no \/ length bits <> length nbits)).
Proof.
  intros Hb Hn. pose proof (ow_width _ _ (sw_terms _ _ W) _ _ _ _ _ Hb) as Hw. pose proof (ow_width _ _ (sw_nets _ _ W) _ _ _ _ _ Hn) as Hnw.
  unfold busTerm_setNet. wp_read Hb. cbn beta iota.
  assert (Hnd : net_design (str s) n = Some (h_design no)) by (unfold net_design, object_header; by rewrite Hn).
  wp_read Hnd. rewrite wp_bind. apply wp_check; [intros Hd%bool_decide_eq_true_1|intros Hd%bool_decide_eq_false_1; by auto].
  wp_read Hn. rewrite wp_bind. eapply wp_lift; [exact Hw|]. rewrite wp_bind. eapply wp_lift; [exact Hnw|]. rewrite wp_bind.
  apply wp_check; [intros Hl%Z.eqb_eq|intros Hl%Z.eqb_neq; split; [done|right; lia]].
  rewrite !whole_range by done.
  apply (wp_mono _ _ (fun _ s' => conn_wf s' /\ rewired s (bus_given bits nbits) s') _ (fun _ _ => False)); [|intros _ s' [H1 H2]; split_and!; [done|lia|done|done]|done].
  refine (wp_for_each _ (fun visited s' => conn_wf s' /\ rewired s (fun c => given (omap (fun p : option loc * option loc =>
    match p.1 with Some x => Some (x, p.2) | None => None end) visited) c (net_ s !! c)) s') _ s (fun _ _ => False) _ _).
  - split; [done|apply rewired_refl].
  - intros visited [bit net] rest s1 Hz [C1 R]. pose proof (rw_str _ _ _ R) as Es. cbn [fst snd]. unfold setNet_some.
    destruct bit as [x|]; [|apply wp_ret; split; [done|]; eapply rewired_ext; [|exact R]; intros c; by rewrite omap_last, app_nil_r].
    assert (Hk : zip bits nbits !! length visited = Some (Some x, net)) by by rewrite Hz, list_lookup_middle.
    apply lookup_zip_Some in Hk as [Hx Hnet].
    assert (Hxb : bit_term_of (str s) x (h_design o)).
    { pose proof (ow_bits _ _ (sw_terms _ _ W) _ _ _ _ _ _ _ Hb Hx) as H. unfold bit_term_of, is_bit, object_header. rewrite H, Hb. split; [by eexists|done]. }
    destruct (bit_component _ _ _ _ W Hxb) as (Hcd & [k Hck] & Hcc).
    eapply wp_mono; [apply (setNet_bit_ok s1 x (h_design o) k net (fun _ _ => False) C1)| |done]; rewrite ?Es; [done..| |].
    + intros m ->. pose proof (ow_bits _ _ (sw_nets _ _ W) _ _ _ _ _ _ _ Hn Hnet) as Hm.
      unfold net_design, is_bitNet, is_bit, object_header. rewrite Hm, Hn. cbn. rewrite Hd. split; [done|by eexists].
    + cbn beta. intros _ s2 [C2 R2]. split; [done|]. eapply rewired_ext; [|exact (rewired_trans _ _ _ _ _ R R2)].
      intros c. cbn. rewrite (rw_net _ _ _ R), omap_last. cbn. rewrite given_app. done.
Qed.
End whole.
