(* ===== verification/MergeAssigns.v ===== *)
(** [SNLDesign::mergeAssigns]: every assign instance moves the components of
    the net at its output to the net at its input, and goes. The nets that are
    left are the classes of the equivalence that the assigns generate; an input
    without a net leaves the components of the output without one
    (nl/netlist/snl/SNLDesign.cpp). *)
From stdpp Require Import relations.
From S2P Require Import Prelude NLID Store Bus Contents Connections DesignNets Interface InterfaceSteps InterfaceTerms TermLifetime InstanceSteps TermBits Narrowing.
Local Open Scope Z_scope.

(** * Operations *)

Definition getScalarTerm (t : structure) (d : loc) (id : Z) : option loc :=
  match getTerm t d id with
  | Some x => match termHeap t !! x with Some (Scalar _) => Some x | _ => None end
  | None => None
  end.
Definition getInstances (t : structure) (d : loc) : list loc :=
  match instances_ t !! d with Some r => in_order (objects r) | None => [] end.

(** [assign] is what [NLDB0::getAssign] gives; its input and output are the
    scalar terminals with identifiers 0 and 1. *)
Definition isAssign (assign : option loc) (t : structure) (i : loc) : bool :=
  match instHeap t !! i, assign with
  | Some inst, Some A => bool_decide (model_ (h_extra inst) = A)
  | _, _ => false
  end.
Definition getAssignInput (assign : option loc) (t : structure) : option loc := A ← assign; getScalarTerm t A 0.
Definition getAssignOutput (assign : option loc) (t : structure) : option loc := A ← assign; getScalarTerm t A 1.

Definition getNet_of (it : option loc) : prog netlist (option loc) :=
  match it with None => undef | Some it => _ ← the_instTerm it; gets (fun s => net_ s !! it) end.
Definition mergeAssign (input output : option loc) (i : loc) : prog netlist unit :=
  instInput ← getInstTerm i input; instOutput ← getInstTerm i output;
  inputNet ← getNet_of instInput; outputNet ← getNet_of instOutput;
  match outputNet with
  | None => undef
  | Some n =>
      connectAllComponentsTo n inputNet ;;
      v ← the_net n; match v with Scalar _ => net_destroy n | _ => mret tt end
  end.
Definition mergeAssigns (assign : option loc) (d : loc) : prog netlist unit :=
  t ← gets str;
  let assignInstances := List.filter (isAssign assign t) (getInstances t d) in
  for_each (mergeAssign (getAssignInput assign t) (getAssignOutput assign t)) assignInstances ;;
  for_each instance_destroy assignInstances.

(** * The nets that are left *)

(** The nets at the input and at the output of an assign; [None] is no net. *)
Definition link : Type := option loc * option loc.
(** Net [p.2] becomes net [p.1], or none. *)
Definition merge_step (rep : option loc -> option loc) (p : link) : option loc -> option loc :=
  fun x => if decide (rep x = rep p.2) then rep p.1 else rep x.
Definition merged (ps : list link) : option loc -> option loc := foldl merge_step (fun x => x) ps.
(** Each assign finds a net at its output, and not the one at its input. *)
Fixpoint mergeable_from (rep : option loc -> option loc) (ps : list link) : bool :=
  match ps with
  | [] => true
  | p :: ps => bool_decide (rep p.2 <> None) && bool_decide (rep p.1 <> rep p.2) && mergeable_from (merge_step rep p) ps
  end.
Definition mergeable (ps : list link) : bool := mergeable_from (fun x => x) ps.

Lemma merged_snoc ps p : merged (ps ++ [p]) = merge_step (merged ps) p.
Proof. unfold merged. by rewrite foldl_app. Qed.

Lemma merged_equivalence ps x y : merged ps x = merged ps y <-> rtsc (fun a b => (a, b) ∈ ps) x y.
Proof.
  revert x y. induction ps as [|[a b] ps IH] using rev_ind; intros x y.
  { cbn. split; [intros ->; reflexivity|]. intros H. induction H as [|? ? ? [?%not_elem_of_nil|?%not_elem_of_nil] _ _]; done. }
  rewrite merged_snoc. unfold merge_step. cbn [fst snd].
  assert (Hsub : forall u v, rtsc (fun a b => (a, b) ∈ ps) u v -> rtsc (fun c d => (c, d) ∈ ps ++ [(a, b)]) u v).
  { intros u v H. induction H as [|u v w H _ IHw]; [done|]. etransitivity; [|exact IHw]. destruct H; [apply rtsc_lr|apply rtsc_rl]; set_solver. }
  assert (Hab : rtsc (fun c d => (c, d) ∈ ps ++ [(a, b)]) a b) by (apply rtsc_lr; set_solver).
  assert (Hiff : forall u v, merged ps u = merged ps v -> rtsc (fun c d => (c, d) ∈ ps ++ [(a, b)]) u v) by (intros u v H; by apply Hsub, IH).
  split.
  - destruct (decide (merged ps x = merged ps b)) as [Hx|Hx], (decide (merged ps y = merged ps b)) as [Hy|Hy].
    + intros _. apply Hiff. congruence.
    + intros Ha. etransitivity; [by apply Hiff|]. etransitivity; [symmetry; exact Hab|]. by apply Hiff.
    + intros Ha. etransitivity; [by apply Hiff|]. etransitivity; [exact Hab|]. by apply Hiff.
    + apply Hiff.
  - intros H. induction H as [|u v w Huv _ IHw]; [done|]. rewrite <- IHw. clear IHw.
    assert (Hcase : merged ps u = merged ps v \/ (u = a /\ v = b) \/ (u = b /\ v = a)).
    { destruct Huv as [H|H]; rewrite elem_of_app, list_elem_of_singleton in H.
      - destruct H as [H|[= -> ->]]; [left|by auto]. apply IH, rtc_once. by left.
      - destruct H as [H|[= -> ->]]; [left|by auto]. apply IH, rtc_once. by right. }
    destruct Hcase as [->|[[-> ->]|[-> ->]]]; [done|..]; rewrite (decide_True (P := merged ps b = merged ps b)) by done; by destruct (decide _).
Qed.

Lemma mergeable_snoc ps p qs : mergeable (ps ++ p :: qs) = true -> merged ps p.2 <> None /\ merged ps p.1 <> merged ps p.2.
Proof.
  unfold mergeable, merged. generalize (fun x : option loc => x). induction ps as [|q ps IH]; intros rep; cbn [app mergeable_from foldl].
  - rewrite !andb_true_iff, !bool_decide_eq_true. by intros [? _].
  - rewrite andb_true_iff. intros [_ H]. by apply IH.
Qed.

Lemma merged_none ps : mergeable ps = true -> merged ps None = None.
Proof.
  induction ps as [|p ps IH] using rev_ind; [done|]. intros H. destruct (mergeable_snoc ps p [] H) as [Hn _]. rewrite merged_snoc. unfold merge_step.
  assert (Hps : mergeable ps = true).
  { revert H. unfold mergeable. generalize (fun x : option loc => x). clear IH Hn. induction ps as [|q ps IH]; intros rep; [done|]. cbn [app mergeable_from]. rewrite !andb_true_iff. intros [? ?]. split; [done|]. by apply IH. }
  rewrite (IH Hps). by rewrite decide_False by congruence.
Qed.

(** * Destroying instances *)

Record assigns_gone (insts : list loc) (s1 s2 : netlist) : Prop := {
  ag_struct : struct_wf (str s2);
  ag_conn : conn_wf s2;
  ag_instances i : instHeap (str s2) !! i = if decide (i ∈ insts) then None else instHeap (str s1) !! i;
  ag_instTerms c : instTermHeap (str s2) !! c =
    match instTermHeap (str s1) !! c with Some v => if decide (instance_ v ∈ insts) then None else Some v | None => None end;
  ag_net c : net_ s2 !! c =
    match instTermHeap (str s1) !! c with
    | Some v => if decide (instance_ v ∈ insts) then None else net_ s1 !! c
    | None => net_ s1 !! c
    end;
  ag_heaps : termHeap (str s2) = termHeap (str s1) /\ netHeap (str s2) = netHeap (str s1) }.

Lemma destroy_instances_ok s1 insts E :
  struct_wf (str s1) -> conn_wf s1 -> NoDup insts -> (forall i, i ∈ insts -> is_Some (instHeap (str s1) !! i)) ->
  wp (for_each instance_destroy insts) s1 (fun _ s' => assigns_gone insts s1 s') E.
Proof.
  intros W1 C1 Hnd Hi. refine (wp_for_each _ (fun visited s' => assigns_gone visited s1 s') _ s1 E _ _).
  - split; [done|done|..].
    + intros i. by rewrite decide_False by apply not_elem_of_nil.
    + intros c. destruct (instTermHeap (str s1) !! c); [by rewrite decide_False by apply not_elem_of_nil|done].
    + intros c. destruct (instTermHeap (str s1) !! c); [by rewrite decide_False by apply not_elem_of_nil|done].
    + done.
  - intros visited i rest s2 -> [W2 C2 I2 T2 N2 [H2 H2']]. apply NoDup_app in Hnd as (_ & Hdis & _).
    assert (Hiv : i ∉ visited) by (intros H; by apply (Hdis i H); left).
    destruct (Hi i ltac:(set_solver)) as [inst Hinst].
    assert (Hinst2 : instHeap (str s2) !! i = Some inst) by by rewrite I2, decide_False.
    destruct (sw_model _ _ W2 _ _ Hinst2) as [M HM].
    destruct (proj1 (sw_designs_instances _ _ W2 (h_design inst)) (instance_design W2 _ _ Hinst2)) as [r Hr].
    eapply wp_mono; [exact (instance_destroy_ok s2 W2 C2 i inst Hinst2 M HM r Hr E)| |done].
    cbn beta. intros _ s3 [W3 C3 I3 T3 N3 [H3 H3'] _].
    split; [done|done|..].
    + intros j. rewrite I3. destruct (decide (j = i)) as [->|Hne]; [by rewrite lookup_delete_eq, decide_True by set_solver|].
      rewrite lookup_delete_ne, I2 by done. destruct (decide (j ∈ visited)); [by rewrite decide_True by set_solver|by rewrite decide_False by set_solver].
    + intros c. rewrite T3, T2. destruct (instTermHeap (str s1) !! c) as [v|]; [|done].
      destruct (decide (instance_ v ∈ visited)); [by rewrite decide_True by set_solver|].
      destruct (decide (instance_ v = i)); [by rewrite decide_True by set_solver|by rewrite decide_False by set_solver].
    + intros c. rewrite N3, T2, N2. destruct (instTermHeap (str s1) !! c) as [v|]; [|done].
      destruct (decide (instance_ v ∈ visited)); [by rewrite decide_True by set_solver|].
      destruct (decide (instance_ v = i)); [by rewrite decide_True by set_solver|by rewrite decide_False by set_solver].
    + by rewrite H3, H3'.
Qed.

(** * Running it *)

Lemma with_nets_twice regs h n regs' h' n' t : with_nets regs h n (with_nets regs' h' n' t) = with_nets regs h n t.
Proof. done. Qed.

Section merge.
Context (s : netlist) (W : struct_wf (str s)) (C : conn_wf s) (A ain aout d : loc).
Context (Hain : bit_term_of (str s) ain A) (Haout : bit_term_of (str s) aout A).

(** Assign [i] is between the nets [p], either of which may be missing. *)
Definition assign_nets (i : loc) (p : link) : Prop :=
  exists inst it_in it_out, instHeap (str s) !! i = Some inst /\ model_ (h_extra inst) = A /\
    instTermHeap (str s) !! it_in = Some (mkInstTerm i ain) /\ net_ s !! it_in = p.1 /\
    instTermHeap (str s) !! it_out = Some (mkInstTerm i aout) /\ net_ s !! it_out = p.2.

(** Only nets differ from [s], and components are on the nets they became. *)
Record merging (ps : list link) (s1 : netlist) : Prop := {
  mg_struct : struct_wf (str s1);
  mg_conn : conn_wf s1;
  mg_str : exists regs h, str s1 = with_nets regs h (next (str s)) (str s);
  mg_net c : net_ s1 !! c = merged ps (net_ s !! c) }.

Lemma mergeAssign_ok ps i p s1 E :
  merging ps s1 -> assign_nets i p -> merged ps p.2 <> None -> merged ps p.1 <> merged ps p.2 ->
  wp (mergeAssign (Some ain) (Some aout) i) s1 (fun _ s' => merging (ps ++ [p]) s') E.
Proof.
  intros [W1 C1 (regs & h & E1) N1] (inst & it_in & it_out & Hi & Hm & Hin & Nin & Hout & Nout) Hsome Hne.
  assert (Hi1 : instHeap (str s1) !! i = Some inst) by by rewrite E1.
  assert (Hbit : forall x, bit_term_of (str s) x A -> bit_term_of (str s1) x (model_ (h_extra inst))) by (intros x Hx; rewrite E1, Hm; exact Hx).
  assert (Huniq : forall it it' v, instTermHeap (str s1) !! it = Some v -> instTermHeap (str s) !! it' = Some v -> it = it').
  { intros it it' v Hv Hv'. rewrite E1 in Hv. cbn in Hv. exact (instTerm_unique W _ _ _ Hv Hv'). }
  unfold mergeAssign. rewrite wp_bind.
  eapply wp_mono; [exact (getInstTerm_ok _ s1 i inst ain (fun _ _ => False) W1 Hi1 (Hbit _ Hain) (fun F => F))| |done].
  cbn beta. intros r1 s' (-> & it1 & -> & Hit1). rewrite wp_bind.
  eapply wp_mono; [exact (getInstTerm_ok _ s1 i inst aout (fun _ _ => False) W1 Hi1 (Hbit _ Haout) (fun F => F))| |done].
  cbn beta. intros r2 s' (-> & it2 & -> & Hit2).
  assert (it1 = it_in) as -> by exact (Huniq _ _ _ Hit1 Hin). assert (it2 = it_out) as -> by exact (Huniq _ _ _ Hit2 Hout).
  unfold getNet_of. wp_read Hit1. rewrite wp_gets, wp_bind. wp_read Hit2. rewrite wp_gets, !N1, Nin, Nout.
  destruct (merged ps p.2) as [b|] eqn:Eb; [|done]. clear Hsome. set (a := merged ps p.1) in *.
  assert (Na : net_ s1 !! it_in = a) by by rewrite N1, Nin. assert (Nb : net_ s1 !! it_out = Some b) by by rewrite N1, Nout, Eb.
  destruct (cw_alive _ C1 _ _ Nb) as (d2 & k2 & Hd2 & _ & Hnb & Hbb & _).
  assert (Hbv : is_Some (netHeap (str s1) !! b)) by (destruct Hbb as [z Hz]; unfold is_bit in Hz; by destruct (netHeap (str s1) !! b)).
  rewrite wp_bind. eapply wp_mono; [apply (connectAllComponentsTo_ok s1 b a (fun _ _ => False) C1 Hbv)| |done].
  { done. }
  { intros m Em. rewrite Em in Na. destruct (cw_alive _ C1 _ _ Na) as (d1 & k1 & Hd1 & _ & Hna & Hba & _). split; [done|]. intros d' Hd'.
    unfold comp_design in Hd1, Hd2. rewrite Hit1 in Hd1. rewrite Hit2 in Hd2. cbn in *. congruence. }
  cbn beta. intros _ s2 [C2 R]. destruct Hbv as [v Hv]. rewrite wp_bind. eapply wp_deref; [rewrite (rw_str _ _ _ R); exact Hv|].
  assert (N2 : forall c, net_ s2 !! c = merged (ps ++ [p]) (net_ s !! c)).
  { intros c. rewrite (rw_net _ _ _ R), N1, merged_snoc. unfold merge_step. by rewrite Eb. }
  assert (W2 : struct_wf (str s2)) by by rewrite (rw_str _ _ _ R).
  destruct v as [o|o m l bs|b' bit]; [|apply wp_ret; split; [done|done|rewrite (rw_str _ _ _ R); eauto|done]..].
  rewrite <- (rw_str _ _ _ R) in Hv.
  eapply wp_mono; [exact (scalarNet_destroy_ok s2 b o (fun _ _ => False) W2 C2 Hv)| |done].
  cbn beta. intros _ s3 [[W3 C3] (regs3 & h3 & E3 & _) N3 _]. split; [done|done| |].
  - exists regs3, h3. by rewrite E3, (rw_str _ _ _ R), E1.
  - intros c. rewrite N3. unfold without_nets. rewrite N2. destruct (merged (ps ++ [p]) (net_ s !! c)) as [m|] eqn:Ec; [|done].
    rewrite decide_False; [done|]. rewrite list_elem_of_singleton. intros ->. rewrite merged_snoc in Ec. unfold merge_step in Ec. rewrite Eb in Ec. fold a in Ec.
    by destruct (decide (merged ps (net_ s !! c) = Some b)).
Qed.

Lemma mergeAssigns_merge insts ps E :
  Forall2 assign_nets insts ps -> mergeable ps = true ->
  wp (for_each (mergeAssign (Some ain) (Some aout)) insts) s (fun _ s' => merging ps s') E.
Proof.
  intros HF Hac.
  eapply wp_mono; [refine (wp_for_each _ (fun visited s' => exists done_, length done_ = length visited /\ (exists rest, ps = done_ ++ rest) /\ merging done_ s') _ s (fun _ _ => False) _ _)| |done].
  - exists []. split; [done|]. split; [by exists ps|]. split; [done|done| |].
    + exists (nets_ (str s)), (netHeap (str s)). by destruct s as [[]].
    + done.
  - intros visited i rest s1 -> (qs & Hlen & (rs & ->) & M).
    apply Forall2_app_inv in HF as [_ HF]; [|done]. apply Forall2_cons_inv_l in HF as (p & rs' & Hp & _ & ->).
    eapply wp_mono; [exact (mergeAssign_ok qs i p s1 (fun _ _ => False) M Hp (proj1 (mergeable_snoc _ _ _ Hac)) (proj2 (mergeable_snoc _ _ _ Hac)))| |done].
    cbn beta. intros _ s2 M2. exists (qs ++ [p]). split; [by rewrite !length_app, Hlen|]. split; [exists rs'; by rewrite <- app_assoc|done].
  - cbn beta. intros _ s' (qs & Hlen & (rs & Hps) & M). pose proof (Forall2_length _ _ _ HF) as Hl. rewrite Hps, length_app in Hl.
    assert (rs = []) as -> by (destruct rs; [done|]; cbn in Hl; lia). by rewrite Hps, app_nil_r.
Qed.

(** The outcome: the assigns and their terminals are gone; the other components
    are connected to what their net became. *)
Record assigns_merged (insts : list loc) (ps : list link) (s' : netlist) : Prop := {
  am_struct : struct_wf (str s');
  am_conn : conn_wf s';
  am_instances i : instHeap (str s') !! i = if decide (i ∈ insts) then None else instHeap (str s) !! i;
  am_net c : net_ s' !! c =
    match instTermHeap (str s) !! c with
    | Some v => if decide (instance_ v ∈ insts) then None else merged ps (net_ s !! c)
    | None => merged ps (net_ s !! c)
    end }.

Lemma getScalarTerm_bit id x : getScalarTerm (str s) A id = Some x -> bit_term_of (str s) x A.
Proof.
  unfold getScalarTerm, getTerm, find_by_id. destruct (terms_ (str s) !! A) as [r|] eqn:Hr; [|done]. cbn.
  destruct (objects r !! id) as [y|] eqn:Hy; [|done]. destruct (registry_lookup _ _ _ _ _ W Hr Hy) as (v & o & Hv & Ho & Hd & _).
  rewrite Hv. destruct v as [a| |]; [|done..]. intros [= <-]. injection Ho as ->.
  unfold bit_term_of, is_bit, object_header. rewrite Hv. split; [by eexists|cbn; by rewrite Hd].
Qed.
End merge.

Lemma mergeAssigns_ok s A ain aout d ps (E : string -> netlist -> Prop) :
  struct_wf (str s) -> conn_wf s ->
  getAssignInput (Some A) (str s) = Some ain -> getAssignOutput (Some A) (str s) = Some aout ->
  let insts := List.filter (isAssign (Some A) (str s)) (getInstances (str s) d) in
  Forall2 (assign_nets s A ain aout) insts ps -> mergeable ps = true ->
  wp (mergeAssigns (Some A) d) s (fun _ s' => assigns_merged s insts ps s') E.
Proof.
  intros W C Hain Haout insts HF Hac. unfold mergeAssigns. rewrite wp_bind, wp_gets, wp_bind. fold insts. rewrite Hain, Haout.
  pose proof (getScalarTerm_bit s W A 0 ain Hain) as Bin. pose proof (getScalarTerm_bit s W A 1 aout Haout) as Bout.
  eapply wp_mono; [exact (mergeAssigns_merge s W C A ain aout Bin Bout insts ps (fun _ _ => False) HF Hac)| |done].
  cbn beta. intros _ s1 [W1 C1 (regs & h & E1) N1].
  assert (Hnd : NoDup insts).
  { unfold insts. apply NoDup_ListNoDup, List.NoDup_filter, NoDup_ListNoDup. unfold getInstances. destruct (instances_ (str s) !! d) as [r|] eqn:Hr; [|constructor].
    apply NoDup_in_order. intros k k' i Hk Hk'. pose proof (ow_registry _ _ (sw_instances _ _ W) _ _ Hr) as R.
    apply (rep_objects _ _ _ R) in Hk as [n Hk]. apply (rep_objects _ _ _ R) in Hk' as [n' Hk'].
    exact (proj1 (rep_unique _ _ _ R _ _ _ _ _ Hk Hk')). }
  eapply wp_mono; [apply (destroy_instances_ok s1 insts (fun _ _ => False) W1 C1 Hnd)| |done].
  { intros i Hi. apply list_elem_of_lookup_1 in Hi as [k Hk]. destruct (Forall2_lookup_l _ _ _ _ _ HF Hk) as (p & _ & inst & _ & _ & Hinst & _).
    rewrite E1. by eexists. }
  cbn beta. intros _ s2 [W2 C2 I2 T2 N2 _]. split; [done|done|..].
  - intros i. by rewrite I2, E1.
  - intros c. rewrite N2, N1, E1. done.
Qed.
