(* ===== verification/NetlistRuns.v ===== *)
(** The contents of designs as a state machine: what every sequence of
    operations on terminals, nets, instances and connections keeps.

    The conditions of [allowed], checked by evaluation, and runs of lists of
    operations under these checks. *)
From S2P Require Import Prelude NLID Store Bus Contents Connections DesignNets Interface InterfaceSteps InterfaceTerms TermLifetime InstanceSteps TermBits Narrowing TermNets MergeAssigns.
Local Open Scope Z_scope.

(** * Operations *)

Inductive operation :=
| CreateScalarNet (d : loc) (name : Z) | CreateScalarNetWithID (d : loc) (id name : Z)
| CreateBusNet (d : loc) (msb lsb name : Z) | CreateBusNetWithID (d : loc) (id msb lsb name : Z)
| NarrowNetMSB (b : loc) (msb : Z) | NarrowNetLSB (b : loc) (lsb : Z)
| RenameNet (n : loc) (name : Z) | RetypeNet (n : loc) (type : net_type) | DestroyNet (n : loc)
| CreateScalarTerm (d : loc) (dir : direction) (name : Z) | CreateScalarTermWithID (d : loc) (id : Z) (dir : direction) (name : Z)
| CreateBusTerm (d : loc) (dir : direction) (msb lsb name : Z) | CreateBusTermWithID (d : loc) (id : Z) (dir : direction) (msb lsb name : Z)
| NarrowTermMSB (b : loc) (msb : Z) | NarrowTermLSB (b : loc) (lsb : Z) | RenameTerm (x : loc) (name : Z) | DestroyTerm (x : loc)
| CreateInstance (d m : loc) (name : Z) | CreateInstanceWithID (d m : loc) (id name : Z)
| RenameInstance (i : loc) (name : Z) | DestroyInstance (i : loc)
| SetNet (c : loc) (net : option loc) | SetTermNet (i term net : loc) | SetBusNet (b net : loc)
| MoveComponents (n : loc) (net : option loc) | MergeAssigns (assign d : loc).

Definition run (o : operation) : prog netlist unit :=
  match o with
  | CreateScalarNet d name => ignore (scalarNet_create d name)
  | CreateScalarNetWithID d id name => ignore (scalarNet_create_id d id name)
  | CreateBusNet d msb lsb name => ignore (busNet_create d msb lsb name)
  | CreateBusNetWithID d id msb lsb name => ignore (busNet_create_id d id msb lsb name)
  | NarrowNetMSB b msb => busNet_setMSB b msb
  | NarrowNetLSB b lsb => busNet_setLSB b lsb
  | RenameNet n name => net_setName n name
  | RetypeNet n type => net_setType n type
  | DestroyNet n => net_destroy n
  | CreateScalarTerm d dir name => ignore (scalarTerm_create d dir name)
  | CreateScalarTermWithID d id dir name => ignore (scalarTerm_create_id d id dir name)
  | CreateBusTerm d dir msb lsb name => ignore (busTerm_create d dir msb lsb name)
  | CreateBusTermWithID d id dir msb lsb name => ignore (busTerm_create_id d id dir msb lsb name)
  | NarrowTermMSB b msb => busTerm_setMSB b msb
  | NarrowTermLSB b lsb => busTerm_setLSB b lsb
  | RenameTerm x name => term_setName x name
  | DestroyTerm x => term_destroy x
  | CreateInstance d m name => ignore (instance_create d m name)
  | CreateInstanceWithID d m id name => ignore (instance_create_id d m id name)
  | RenameInstance i name => instance_setName i name
  | DestroyInstance i => instance_destroy i
  | SetNet c net => setNet c net
  | SetTermNet i term net => setTermNet i term net
  | SetBusNet b net => busTerm_setNet b (Some net)
  | MoveComponents n net => connectAllComponentsTo n net
  | MergeAssigns assign d => mergeAssigns (Some assign) d
  end.

(** A terminal may enter design [d] when every instance of [d] is known to it
    and has exactly the slots that come before the new ones. *)
Definition open_interface (t : structure) (d : loc) : Prop :=
  reaches t d /\ exists r, terms_ t !! d = Some r /\ slots_full t d (flat_end t r).
Definition after_all (t : structure) (d : loc) (id : Z) : Prop :=
  0 <= id < 2 ^ 32 /\ forall r k l, terms_ t !! d = Some r -> objects r !! k = Some l -> k < id.
Definition has_room_for (regs : gmap loc (registry loc)) (d : loc) : Prop :=
  exists r, regs !! d = Some r /\ room 32 (objects r).

(** The pointers given are to objects of the right class and design, identifiers
    fit their type and no counter of identifiers wraps around; terminals enter
    last, instances are made of designs none of whose terminals was removed, and
    terminals leave designs that know their instances; the bits that narrowing
    removes were not destroyed before; a net is not merged into itself. *)
Definition allowed (o : operation) (s : netlist) : Prop :=
  let t := str s in
  match o with
  | CreateScalarNet d _ => has_room_for (nets_ t) d
  | CreateScalarNetWithID d id _ => is_Some (designs t !! d) /\ 0 <= id < 2 ^ 32
  | CreateBusNet d msb lsb _ => has_room_for (nets_ t) d /\ exists w, getWidth msb lsb = Ret w
  | CreateBusNetWithID d id msb lsb _ => is_Some (designs t !! d) /\ 0 <= id < 2 ^ 32 /\ exists w, getWidth msb lsb = Ret w
  | NarrowNetMSB b msb' => exists o msb lsb bits, netHeap t !! b = Some (Bus o msb lsb bits) /\
      Forall is_Some (take (bit_position msb msb') bits)
  | NarrowNetLSB b lsb' => exists o msb lsb bits, netHeap t !! b = Some (Bus o msb lsb bits) /\
      Forall is_Some (drop (length bits - Z.to_nat (Z.abs (lsb - lsb'))) bits)
  | RenameNet n _ | RetypeNet n _ | DestroyNet n => is_Some (netHeap t !! n)
  | CreateScalarTerm d _ _ => open_interface t d /\ has_room_for (terms_ t) d
  | CreateScalarTermWithID d id _ _ => open_interface t d /\ after_all t d id
  | CreateBusTerm d _ msb lsb _ => open_interface t d /\ has_room_for (terms_ t) d /\ exists w, getWidth msb lsb = Ret w
  | CreateBusTermWithID d id _ msb lsb _ => open_interface t d /\ after_all t d id /\ exists w, getWidth msb lsb = Ret w
  | NarrowTermMSB b msb' => exists o msb lsb bits, termHeap t !! b = Some (Bus o msb lsb bits) /\ reaches t (h_design o) /\
      Forall is_Some (take (bit_position msb msb') bits) /\
      forall i, i ∈ getSlaveInstances t (h_design o) -> has_room t (flatID_ (h_extra o) + length bits) i
  | NarrowTermLSB b lsb' => exists o msb lsb bits, termHeap t !! b = Some (Bus o msb lsb bits) /\ reaches t (h_design o) /\
      Forall is_Some (drop (length bits - Z.to_nat (Z.abs (lsb - lsb'))) bits)
  | RenameTerm x _ => is_Some (termHeap t !! x)
  | DestroyTerm x => exists o, object_header (termHeap t) x = Some o /\ reaches t (h_design o)
  | CreateInstance d m _ => is_Some (designs t !! m) /\ compact t m /\ has_room_for (instances_ t) d
  | CreateInstanceWithID d m id _ => is_Some (designs t !! d) /\ is_Some (designs t !! m) /\ compact t m /\ 0 <= id < 2 ^ 32
  | RenameInstance i _ | DestroyInstance i => is_Some (instHeap t !! i)
  | SetNet c net => is_component t c /\ forall n, net = Some n -> is_Some (netHeap t !! n)
  | SetTermNet i term net => exists inst, instHeap t !! i = Some inst /\
      h_design <$> object_header (termHeap t) term = Some (model_ (h_extra inst)) /\ net_design t net = Some (h_design inst)
  | SetBusNet b net => (exists o msb lsb bits, termHeap t !! b = Some (Bus o msb lsb bits)) /\
      exists o msb lsb bits, netHeap t !! net = Some (Bus o msb lsb bits)
  | MoveComponents n net => is_Some (netHeap t !! n) /\ net <> Some n /\
      forall m, net = Some m -> is_bitNet t m /\ net_design t m = net_design t n
  | MergeAssigns assign d => exists ain aout ps,
      getAssignInput (Some assign) t = Some ain /\ getAssignOutput (Some assign) t = Some aout /\
      Forall2 (assign_nets s assign ain aout) (List.filter (isAssign (Some assign) t) (getInstances t d)) ps /\ mergeable ps = true
  end.

(** Designs without contents. *)
Definition empty_registries (ds : gmap loc design_fields) : gmap loc (registry loc) := (fun _ => empty_registry) <$> ds.
Definition initial (ds : gmap loc design_fields) : netlist :=
  mkNetlist (mkStructure ds (empty_registries ds) (empty_registries ds) (empty_registries ds) ∅ ∅ ∅ ∅ ∅ 1%positive) ∅ ∅ ∅ ∅.

Inductive reachable : netlist -> Prop :=
| reachable_initial ds :
    (forall d d' D D', ds !! d = Some D -> ds !! d' = Some D' -> reference_ D = reference_ D' -> d = d') -> reachable (initial ds)
| reachable_run s o s' : reachable s -> allowed o s -> run o s = (Ret tt, s') -> reachable s'.

(** * The invariant *)

Definition netlist_wf (s : netlist) : Prop := struct_wf (str s) /\ conn_wf s.

Lemma objects_wf_empty {E} ds : objects_wf (∅ : gmap loc (bits_object E)) (empty_registries ds).
Proof.
  split; try (intros *; by rewrite lookup_empty).
  intros d r Hr. unfold empty_registries in Hr. rewrite lookup_fmap in Hr. destruct (ds !! d); [|done]. injection Hr as <-.
  apply represents_empty. intros l k n (y & o & H & _). by rewrite lookup_empty in H.
Qed.

Lemma initial_wf ds :
  (forall d d' D D', ds !! d = Some D -> ds !! d' = Some D' -> reference_ D = reference_ D' -> d = d') -> netlist_wf (initial ds).
Proof.
  intros Href. assert (Hreg : forall d, is_Some (ds !! d) <-> is_Some (empty_registries ds !! d)).
  { intros d. unfold empty_registries. rewrite lookup_fmap. by destruct (ds !! d); split; intros [? ?]; eauto. }
  assert (W : struct_wf (str (initial ds))).
  { split; try exact Hreg; try exact Href; try exact (objects_wf_empty ds); cbn.
    - intros d k i. rewrite lookup_empty. cbn. rewrite lookup_empty. split; [done|]. intros (I & D & H & _). by rewrite lookup_empty in H.
    - intros i I H. by rewrite lookup_empty in H.
    - intros i f it. unfold slot. cbn. by rewrite lookup_empty.
    - intros it v H. by rewrite lookup_empty in H.
    - intros i I x H. by rewrite lookup_empty in H.
    - intros x y vx vy ox oy H. by rewrite lookup_empty in H.
    - intros l _. by rewrite !lookup_empty.
    - intros c _. apply lookup_empty. }
  split; [exact W|]. split.
  - intros c c' d k Hd. unfold comp_design, object_header in Hd. cbn in Hd. by rewrite !lookup_empty in Hd.
  - intros c n. cbn. by rewrite lookup_empty.
  - intros n k c. unfold components. cbn. rewrite !lookup_empty. cbn. rewrite lookup_empty. naive_solver.
Qed.

Lemma component_total t c : struct_wf t -> is_component t c -> exists d k, comp_design t c = Some d /\ comp_getNLID t c = Some k.
Proof.
  intros W [[[i x] Hv]|Hb].
  - destruct (sw_instTerm _ _ W _ _ Hv) as (I & f & HI & _). destruct (instTerm_component _ _ _ _ _ W Hv HI) as [Hd [k Hk]]. eauto.
  - destruct (object_header_total (sw_terms _ _ W) c (is_bit_alive _ _ Hb)) as [o Ho].
    destruct (bit_component _ _ c (h_design o) W) as (Hd & [k Hk] & _); [split; [done|by rewrite Ho]|eauto].
Qed.

Lemma setNet_wf_ok s c net : netlist_wf s -> is_component (str s) c -> (forall n, net = Some n -> is_Some (netHeap (str s) !! n)) ->
  wp (setNet c net) s (fun _ s' => netlist_wf s') (unchanged s).
Proof.
  intros [W C] Hc Hn. destruct (component_total _ _ W Hc) as (d & k & Hd & Hk). destruct net as [n|].
  - destruct (Hn n eq_refl) as [v Hv]. destruct (object_header_total (sw_nets _ _ W) n ltac:(by eexists)) as [o Ho].
    eapply wp_mono; [apply (setNet_ok s C c d k Hd Hk n (h_design o) Hc)| |by intros e s' []].
    + unfold net_design. by rewrite Ho.
    + unfold setNet_bit. rewrite Hv. destruct v as [|a m l bs|]; [done| |done]. rewrite (ow_width _ _ (sw_nets _ _ W) _ _ _ _ _ Hv). cbn.
      by destruct (_ =? 1).
    + intros b. unfold setNet_bit. rewrite Hv. destruct v as [a|a m l bs|b' i].
      * intros [= <-]. unfold net_design, is_bitNet, is_bit. rewrite Ho, Hv. split; [done|by eexists].
      * rewrite (ow_width _ _ (sw_nets _ _ W) _ _ _ _ _ Hv). cbn. destruct (_ =? 1); [|done]. cbn. intros [= Hg].
        apply (getBit_spec (sw_nets _ _ W) _ _ _ _ _ _ _ Hv) in Hg.
        unfold net_design, is_bitNet, is_bit. unfold object_header in *. rewrite Hv in Ho. injection Ho as ->. rewrite Hg, Hv. split; [done|by eexists].
      * intros [= <-]. unfold net_design, is_bitNet, is_bit. rewrite Ho, Hv. split; [done|by eexists].
    + cbn beta. intros _ s' (_ & C' & b & _ & R). split; [by rewrite (rw_str _ _ _ R)|done].
  - eapply wp_mono; [exact (setNet_None_ok s C c d k Hd Hk _ Hc)| |intros e s' H; exact H].
    cbn beta. intros _ s' [C' R]. split; [by rewrite (rw_str _ _ _ R)|done].
Qed.

Lemma net_destroy_wf_ok s n E : netlist_wf s -> is_Some (netHeap (str s) !! n) ->
  wp (net_destroy n) s (fun _ s' => netlist_wf s' /\ exists regs h, str s' = with_nets regs h (next (str s)) (str s) /\
    (forall y, y ∈ getBits (netHeap (str s)) n -> h !! y = None) /\
    forall c, net_ s' !! c = without_nets (getBits (netHeap (str s)) n) s c) E.
Proof.
  intros [W C] [v Hv]. unfold getBits. rewrite Hv. destruct v as [o|o m l bs|b i].
  - eapply wp_mono; [exact (scalarNet_destroy_ok s n o E W C Hv)| |done]. cbn beta. intros _ s' [HW (regs & h & E1 & Hh) N _]. split; [exact HW|]. eauto.
  - eapply wp_mono; [exact (busNet_destroy_ok s n o m l bs E W C Hv)| |done]. cbn beta. intros _ s' [HW (regs & h & E1 & Hh) N _]. split; [exact HW|]. eauto.
  - eapply wp_mono; [exact (netBit_destroy_ok s n b i E W C Hv)| |done]. cbn beta. intros _ s' [HW (regs & h & E1 & Hh) N _]. split; [exact HW|]. eauto.
Qed.

Lemma term_destroy_wf_ok s x o E : netlist_wf s -> object_header (termHeap (str s)) x = Some o -> reaches (str s) (h_design o) ->
  wp (term_destroy x) s (fun _ s' => exists f, term_gone s (getBits (termHeap (str s)) x) f s') E.
Proof.
  intros [W C] Ho Hr. unfold object_header in Ho. unfold getBits. destruct (termHeap (str s) !! x) as [[a|a m l bs|b i]|] eqn:Hx; [..|done].
  - injection Ho as ->. eapply wp_mono; [exact (scalarTerm_destroy_ok s W C x o Hr E Hx)| |done]. intros u s' HG. eexists. exact HG.
  - injection Ho as ->. eapply wp_mono; [exact (busTerm_destroy_ok s W C x o Hr m l bs E Hx)| |done]. intros u s' HG. eexists. exact HG.
  - destruct (termHeap (str s) !! b) as [[|a m l bs|]|] eqn:Hb; [done| |done..]. injection Ho as ->.
    eapply wp_mono; [exact (termBit_destroy_ok s W C x b i o m l bs Hx Hb Hr E)| |done]. intros u s' HG. eexists. exact HG.
Qed.

Lemma net_design_registry s d : netlist_wf s -> is_Some (designs (str s) !! d) -> exists r, nets_ (str s) !! d = Some r.
Proof. intros [W _] Hd. by apply (sw_designs_nets _ _ W). Qed.

Lemma run_nets_ok o s : netlist_wf s -> allowed o s ->
  match o with
  | CreateScalarNet _ _ | CreateScalarNetWithID _ _ _ | CreateBusNet _ _ _ _ | CreateBusNetWithID _ _ _ _ _
  | NarrowNetMSB _ _ | NarrowNetLSB _ _ | RenameNet _ _ | RetypeNet _ _ | DestroyNet _ | SetNet _ _ | MoveComponents _ _ => True
  | _ => False end ->
  wp (run o) s (fun _ s' => netlist_wf s') (unchanged s).
Proof.
  intros HW Ho _Hkind. assert (HW' := HW). destruct HW as [W C]. destruct o as [d name|d id name|d msb lsb name|d id msb lsb name|b msb'|b lsb'|n name|n type|n| | | | | | | | | | | | |c net| | |n net|]; try done; cbn [run allowed] in *.
  - destruct Ho as (r & Hr & Hroom). by apply (wp_ignore _ _ _ _ _ (scalarNet_create_ok s d name r W C Hr Hroom)); intros ? ? (? & ? & _).
  - destruct Ho as [Hd Hid]. destruct (net_design_registry s d HW' Hd) as [r Hr].
    by apply (wp_ignore _ _ _ _ _ (scalarNet_create_id_ok s d id name r W C Hr Hid)); intros ? ? (? & ? & _).
  - destruct Ho as [(r & Hr & Hroom) [w Hw]]. by apply (wp_ignore _ _ _ _ _ (busNet_create_ok s d msb lsb name w r W C Hr Hroom Hw)); intros ? ? (? & ? & _).
  - destruct Ho as (Hd & Hid & w & Hw). destruct (net_design_registry s d HW' Hd) as [r Hr].
    by apply (wp_ignore _ _ _ _ _ (busNet_create_id_ok s d id msb lsb name w r W C Hr Hid Hw)); intros ? ? (? & ? & _).
  - destruct Ho as (o & msb & lsb & bits & Hb & Hl).
    apply (wp_just _ _ _ _ _ _ (busNet_setMSB_ok s b o msb lsb bits msb' W C Hb Hl)); [|done]. by intros ? ? (ns & _ & [HG _ _ _] & _).
  - destruct Ho as (o & msb & lsb & bits & Hb & Hl).
    apply (wp_just _ _ _ _ _ _ (busNet_setLSB_ok s b o msb lsb bits lsb' W C Hb Hl)); [|done]. by intros ? ? (ns & _ & [HG _ _ _] & _).
  - destruct Ho as [v Hv]. destruct (header_of v) as [o|] eqn:Hov.
    + by apply (wp_just _ _ _ _ _ _ (net_setName_ok s n v o name W C Hv Hov)); [intros ? ? (? & ? & _)|].
    + destruct v as [| |b i]; [done..|]. unfold wp. by rewrite (net_setName_bit s n b i name Hv).
  - destruct Ho as [v Hv]. apply (wp_just _ _ _ _ _ _ (net_setType_ok (X := fun _ _ => False) s n v type (fun _ _ => False) C Hv)); [|done].
    intros _ s' (C' & Es & _). split; [by rewrite Es|done].
  - by apply (wp_just _ _ _ _ _ _ (net_destroy_wf_ok s n (fun _ _ => False) HW' Ho)); [intros ? ? []|].
  - destruct Ho as [Hc Hn]. by apply setNet_wf_ok.
  - destruct Ho as (Hn & Hne & Hm).
    apply (wp_just _ _ _ _ _ _ (connectAllComponentsTo_ok s n net (fun _ _ => False) C Hn Hne ltac:(intros m Em; destruct (Hm m Em) as [H1 H2]; split; [done|]; intros d Hd; by rewrite H2))); [|done].
    intros _ s' [C' R]. split; [by rewrite (rw_str _ _ _ R)|done].
Qed.

Lemma operation_ok o s : netlist_wf s -> allowed o s -> wp (run o) s (fun _ s' => netlist_wf s') (unchanged s).
Proof.
  intros HW Ho. destruct o as [d name|d id name|d msb lsb name|d id msb lsb name|b msb'|b lsb'|n name|n type|n|d dir name|d id dir name
    |d dir msb lsb name|d id dir msb lsb name|b msb'|b lsb'|x name|x|d m name|d m id name|i name|i|c net|i term net|b net|n net|assign d];
    try (by apply run_nets_ok); assert (HW' := HW); destruct HW as [W C]; cbn [run allowed] in *.
  - destruct Ho as [(Hr & r & Ht & Hf) (r' & Ht' & Hroom)]. assert (r' = r) as -> by congruence.
    by apply (wp_ignore _ _ _ _ _ (scalarTerm_create_ok s W C d r Ht Hr Hf dir name Hroom)); intros ? ? (? & ? & _).
  - destruct Ho as [(Hr & r & Ht & Hf) [Hid Hlast]].
    by apply (wp_ignore _ _ _ _ _ (scalarTerm_create_id_ok s W C d r Ht Hr Hf dir id name Hid (fun k l => Hlast r k l Ht))); intros ? ? (? & ? & _).
  - destruct Ho as ((Hr & r & Ht & Hf) & (r' & Ht' & Hroom) & w & Hw). assert (r' = r) as -> by congruence.
    by apply (wp_ignore _ _ _ _ _ (busTerm_create_ok s W C d r Ht Hr Hf dir msb lsb name w Hroom Hw)); intros ? ? (? & ? & _).
  - destruct Ho as ((Hr & r & Ht & Hf) & [Hid Hlast] & w & Hw).
    by apply (wp_ignore _ _ _ _ _ (busTerm_create_id_ok s W C d r Ht Hr Hf dir id msb lsb name w Hid (fun k l => Hlast r k l Ht) Hw)); intros ? ? (? & ? & _).
  - destruct Ho as (o & msb & lsb & bits & Hb & Hr & Hl & Hroom).
    apply (wp_just _ _ _ _ _ _ (busTerm_setMSB_ok s W C b o msb lsb bits Hb Hr msb' Hl Hroom)); [|done]. by intros ? ? (ns & _ & [] & _).
  - destruct Ho as (o & msb & lsb & bits & Hb & Hr & Hl).
    apply (wp_just _ _ _ _ _ _ (busTerm_setLSB_ok s W C b o msb lsb bits Hb Hr lsb' Hl)); [|done]. by intros ? ? (ns & _ & [] & _).
  - destruct Ho as [v Hv]. destruct (header_of v) as [o|] eqn:Hov.
    + by apply (wp_just _ _ _ _ _ _ (term_setName_ok _ s x v o name W C Hv Hov)); [intros ? ? (? & ? & _)|].
    + destruct v as [| |b i]; [done..|]. unfold term_setName, the_term. wp_read Hv. done.
  - destruct Ho as (o & Hoh & Hr). by apply (wp_just _ _ _ _ _ _ (term_destroy_wf_ok s x o (fun _ _ => False) HW' Hoh Hr)); [intros ? ? (f & [])|].
  - destruct Ho as ([M HM] & Hcomp & r & Hr & Hroom).
    assert (is_Some (designs (str s) !! d)) as [D HD] by (apply (sw_designs_instances _ _ W); by eexists).
    by apply (wp_ignore _ _ _ _ _ (instance_create_ok s W C d m D M HD HM r Hr name Hcomp Hroom)); intros ? ? (? & ? & _).
  - destruct Ho as ([D HD] & [M HM] & Hcomp & Hid). destruct (proj1 (sw_designs_instances _ _ W d) ltac:(by eexists)) as [r Hr].
    by apply (wp_ignore _ _ _ _ _ (instance_create_id_ok s W C d m D M HD HM r Hr id name Hcomp Hid)); intros ? ? (? & ? & _).
  - destruct Ho as [inst Hi]. destruct (proj1 (sw_designs_instances _ _ W _) (instance_design W _ _ Hi)) as [r Hr].
    by apply (wp_just _ _ _ _ _ _ (instance_setName_ok _ s i inst name r W C Hi Hr)); [intros ? ? (? & ? & _)|].
  - destruct Ho as [inst Hi]. destruct (proj1 (sw_designs_instances _ _ W _) (instance_design W _ _ Hi)) as [r Hr].
    destruct (sw_model _ _ W _ _ Hi) as [M HM].
    by apply (wp_just _ _ _ _ _ _ (instance_destroy_ok s W C i inst Hi M HM r Hr (fun _ _ => False))); [intros ? ? []|].
  - destruct Ho as (inst & Hi & Ht & Hn).
    destruct (setTermNet_widths s W inst term net Ht Hn) as (tv & nv & tw & nw & Htv & Hnv & Htw & Hnw).
    apply (wp_just _ _ _ _ _ _ (setTermNet_ok s W C i inst term net tv nv tw nw Hi Htv Ht Hnv Hn Htw Hnw)).
    + intros _ s' (_ & C' & R). split; [by rewrite (rw_str _ _ _ R)|done].
    + by intros e s' [-> _].
  - destruct Ho as [(o & msb & lsb & bits & Hb) (no & nmsb & nlsb & nbits & Hn)].
    apply (wp_just _ _ _ _ _ _ (busTerm_setNet_bus_ok s W C b o msb lsb bits net no nmsb nlsb nbits Hb Hn)).
    + intros _ s' (_ & _ & C' & R). split; [by rewrite (rw_str _ _ _ R)|done].
    + by intros e s' [-> _].
  - destruct Ho as (ain & aout & ps & Hain & Haout & HF & Hac).
    by apply (wp_just _ _ _ _ _ _ (mergeAssigns_ok s assign ain aout d ps (fun _ _ => False) W C Hain Haout HF Hac)); [intros ? ? []|].
Qed.

Lemma reachable_netlist_wf s : reachable s -> netlist_wf s.
Proof.
  induction 1 as [ds Href|s o s' _ W Ho H]; [by apply initial_wf|].
  pose proof (operation_ok o s W Ho) as Hr. unfold wp in Hr. by rewrite H in Hr.
Qed.

(** * Allowed arguments, checked by evaluation *)

#[export] Instance SNLInstTerm_dec : EqDecision SNLInstTerm.
Proof. solve_decision. Defined.

(** * Checks *)

Definition checks_instances (P : loc -> SNLInstance -> bool) (t : structure) : bool :=
  forallb (fun p => P p.1 p.2) (map_to_list (instHeap t)).
Definition reaches_check (t : structure) (d : loc) : bool :=
  checks_instances (fun i inst => bool_decide (model_ (h_extra inst) <> d) || bool_decide (i ∈ getSlaveInstances t d)) t.
Definition open_check (t : structure) (d : loc) : bool :=
  reaches_check t d &&
  match terms_ t !! d with
  | Some r => checks_instances (fun i inst => bool_decide (model_ (h_extra inst) <> d) ||
      (length (instTerms_ (h_extra inst)) =? flat_end t r)%nat) t
  | None => false
  end.
Definition keys_below (b : Z) (r : registry loc) : bool := forallb (fun p => p.1 <? b) (map_to_list (objects r)).
Definition after_all_check (t : structure) (d : loc) (id : Z) : bool :=
  (0 <=? id) && (id <? 2 ^ 32) && match terms_ t !! d with Some r => keys_below id r | None => true end.
Definition room_check (regs : gmap loc (registry loc)) (d : loc) : bool :=
  match regs !! d with Some r => keys_below (2 ^ 32 - 1) r | None => false end.
Definition id_check (id : Z) : bool := (0 <=? id) && (id <? 2 ^ 32).
Definition width_check (msb lsb : Z) : bool := match getWidth msb lsb with Ret _ => true | _ => false end.
Definition is_there {A} (o : option A) : bool := negb (is_none o).
Definition all_there {A} (l : list (option A)) : bool := forallb is_there l.
Definition compact_check (t : structure) (m : loc) : bool :=
  bool_decide (getFlatID (termHeap t) <$> getBitTerms t m = Some <$> seq 0 (length (getBitTerms t m))).
Definition room_of (t : structure) (w : nat) (i : loc) : bool :=
  match instHeap t !! i with Some inst => (w <=? length (instTerms_ (h_extra inst)))%nat | None => false end.
Definition component_check (t : structure) (c : loc) : bool :=
  is_there (instTermHeap t !! c) || is_there (is_bit (termHeap t) c).

(** The nets of an assign. *)
Definition terminal_net (s : netlist) (i x : loc) : option (option loc) :=
  f ← getFlatID (termHeap (str s)) x; it ← slot (str s) i f; v ← instTermHeap (str s) !! it;
  if bool_decide (v = mkInstTerm i x) then Some (net_ s !! it) else None.
Definition assign_pair (s : netlist) (ain aout i : loc) : option link :=
  a ← terminal_net s i ain; b ← terminal_net s i aout; Some (a, b).
Definition assigns_check (s : netlist) (A d : loc) : bool :=
  match getAssignInput (Some A) (str s), getAssignOutput (Some A) (str s) with
  | Some ain, Some aout =>
      match mapM (assign_pair s ain aout) (List.filter (isAssign (Some A) (str s)) (getInstances (str s) d)) with
      | Some ps => mergeable ps
      | None => false
      end
  | _, _ => false
  end.

Definition allowed_check (o : operation) (s : netlist) : bool :=
  let t := str s in
  match o with
  | CreateScalarNet d _ => room_check (nets_ t) d
  | CreateScalarNetWithID d id _ => is_there (designs t !! d) && id_check id
  | CreateBusNet d msb lsb _ => room_check (nets_ t) d && width_check msb lsb
  | CreateBusNetWithID d id msb lsb _ => is_there (designs t !! d) && id_check id && width_check msb lsb
  | NarrowNetMSB b msb' => match netHeap t !! b with Some (Bus _ msb _ bits) => all_there (take (bit_position msb msb') bits) | _ => false end
  | NarrowNetLSB b lsb' => match netHeap t !! b with
      Some (Bus _ _ lsb bits) => all_there (drop (length bits - Z.to_nat (Z.abs (lsb - lsb'))) bits) | _ => false end
  | RenameNet n _ | RetypeNet n _ | DestroyNet n => is_there (netHeap t !! n)
  | CreateScalarTerm d _ _ => open_check t d && room_check (terms_ t) d
  | CreateScalarTermWithID d id _ _ => open_check t d && after_all_check t d id
  | CreateBusTerm d _ msb lsb _ => open_check t d && room_check (terms_ t) d && width_check msb lsb
  | CreateBusTermWithID d id _ msb lsb _ => open_check t d && after_all_check t d id && width_check msb lsb
  | NarrowTermMSB b msb' => match termHeap t !! b with
      | Some (Bus o msb _ bits) => reaches_check t (h_design o) && all_there (take (bit_position msb msb') bits) &&
          forallb (room_of t (flatID_ (h_extra o) + length bits)) (getSlaveInstances t (h_design o))
      | _ => false end
  | NarrowTermLSB b lsb' => match termHeap t !! b with
      | Some (Bus o _ lsb bits) => reaches_check t (h_design o) && all_there (drop (length bits - Z.to_nat (Z.abs (lsb - lsb'))) bits)
      | _ => false end
  | RenameTerm x _ => is_there (termHeap t !! x)
  | DestroyTerm x => match object_header (termHeap t) x with Some o => reaches_check t (h_design o) | None => false end
  | CreateInstance d m _ => is_there (designs t !! m) && compact_check t m && room_check (instances_ t) d
  | CreateInstanceWithID d m id _ => is_there (designs t !! d) && is_there (designs t !! m) && compact_check t m && id_check id
  | RenameInstance i _ | DestroyInstance i => is_there (instHeap t !! i)
  | SetNet c net => component_check t c && match net with Some n => is_there (netHeap t !! n) | None => true end
  | SetTermNet i term net => match instHeap t !! i with
      | Some inst => bool_decide (h_design <$> object_header (termHeap t) term = Some (model_ (h_extra inst))) &&
          bool_decide (net_design t net = Some (h_design inst))
      | None => false end
  | SetBusNet b net => match termHeap t !! b, netHeap t !! net with Some (Bus _ _ _ _), Some (Bus _ _ _ _) => true | _, _ => false end
  | MoveComponents n net => is_there (netHeap t !! n) && bool_decide (net <> Some n) &&
      match net with Some m => is_there (is_bit (netHeap t) m) && bool_decide (net_design t m = net_design t n) | None => true end
  | MergeAssigns A d => assigns_check s A d
  end.

(** * They are sound *)

Lemma checks_instances_sound P t : checks_instances P t = true -> forall i inst, instHeap t !! i = Some inst -> P i inst = true.
Proof.
  unfold checks_instances. rewrite forallb_forall. intros H i inst Hi. apply (H (i, inst)), list_elem_of_In. by apply elem_of_map_to_list.
Qed.
Lemma is_there_sound {A} (o : option A) : is_there o = true -> is_Some o.
Proof. by destruct o; [eexists|]. Qed.
Lemma all_there_sound {A} (l : list (option A)) : all_there l = true -> Forall is_Some l.
Proof. unfold all_there. rewrite forallb_forall, Forall_forall. intros H x Hx. by apply is_there_sound, H, list_elem_of_In. Qed.
Lemma keys_below_sound b r : keys_below b r = true -> forall k l, objects r !! k = Some l -> k < b.
Proof.
  unfold keys_below. rewrite forallb_forall. intros H k l Hk.
  specialize (H (k, l) (proj1 (list_elem_of_In _ _) (proj2 (elem_of_map_to_list _ _ _) Hk))). by apply Z.ltb_lt in H.
Qed.
Lemma reaches_sound t d : reaches_check t d = true -> reaches t d.
Proof.
  intros H i inst Hi Hm. pose proof (checks_instances_sound _ _ H _ _ Hi) as Hp. apply orb_true_iff in Hp as [Hp|Hp]; by apply bool_decide_eq_true_1 in Hp.
Qed.
Lemma open_sound t d : open_check t d = true -> open_interface t d.
Proof.
  unfold open_check. rewrite andb_true_iff. intros [Hr H]. split; [by apply reaches_sound|]. destruct (terms_ t !! d) as [r|]; [|done].
  exists r. split; [done|]. intros i inst Hi Hm. pose proof (checks_instances_sound _ _ H _ _ Hi) as Hp. apply orb_true_iff in Hp as [Hp|Hp].
  - by apply bool_decide_eq_true_1 in Hp.
  - by apply Nat.eqb_eq in Hp.
Qed.
Lemma room_sound regs d : room_check regs d = true -> has_room_for regs d.
Proof. unfold room_check. destruct (regs !! d) as [r|] eqn:E; [|done]. intros H. exists r. split; [done|]. intros k l Hk. by eapply keys_below_sound. Qed.
Lemma id_sound id : id_check id = true -> 0 <= id < 2 ^ 32.
Proof. unfold id_check. rewrite andb_true_iff, Z.leb_le, Z.ltb_lt. done. Qed.
Lemma after_all_sound t d id : after_all_check t d id = true -> after_all t d id.
Proof.
  unfold after_all_check. rewrite andb_true_iff. intros [Hid H]. split; [by apply id_sound|]. intros r k l Hr Hk. rewrite Hr in H. by eapply keys_below_sound.
Qed.
Lemma width_sound msb lsb : width_check msb lsb = true -> exists w, getWidth msb lsb = Ret w.
Proof. unfold width_check. destruct (getWidth msb lsb); [by eexists|done..]. Qed.
Lemma compact_sound t m : compact_check t m = true -> compact t m.
Proof.
  unfold compact_check. intros H%bool_decide_eq_true_1 k x Hk. apply (f_equal (fun l => l !! k)) in H.
  rewrite !list_lookup_fmap, Hk in H. cbn in H. rewrite lookup_seq_lt in H by by eapply lookup_lt_Some. by injection H.
Qed.
Lemma terminal_net_sound s i x n : terminal_net s i x = Some n -> exists it, instTermHeap (str s) !! it = Some (mkInstTerm i x) /\ net_ s !! it = n.
Proof.
  unfold terminal_net. intros (f & _ & (it & _ & (v & Hv & H)%bind_Some)%bind_Some)%bind_Some. case_bool_decide as E; [|done]. subst v. injection H as <-. eauto.
Qed.
Lemma assigns_sound s A d : assigns_check s A d = true -> allowed (MergeAssigns A d) s.
Proof.
  unfold assigns_check, allowed. destruct (getAssignInput (Some A) (str s)) as [ain|]; [|done].
  destruct (getAssignOutput (Some A) (str s)) as [aout|]; [|done].
  destruct (mapM _ _) as [ps|] eqn:E3; [|done]. intros Hac. exists ain, aout, ps. split_and!; [done..| |done].
  apply mapM_Some in E3. remember (List.filter _ _) as insts eqn:Ei.
  assert (Hall : forall i, i ∈ insts -> isAssign (Some A) (str s) i = true) by (intros i Hi%list_elem_of_In; subst insts; apply List.filter_In in Hi; tauto).
  clear Ei Hac. induction E3 as [|i p insts ps Hp _ IH]; constructor; [|apply IH; set_solver].
  specialize (Hall i ltac:(by left)). unfold isAssign in Hall. destruct (instHeap (str s) !! i) as [inst|] eqn:Hi; [|done].
  apply bool_decide_eq_true_1 in Hall. apply bind_Some in Hp as (a & (itin & H1 & H2)%terminal_net_sound & Hp).
  apply bind_Some in Hp as (b & (itout & H3 & H4)%terminal_net_sound & [= <-]). exists inst, itin, itout. done.
Qed.

Ltac split_checks := repeat match goal with
  | H : _ && _ = true |- _ => apply andb_true_iff in H as [? H]
  | H : _ /\ _ |- _ => destruct H
  end.
Lemma allowed_sound o s : allowed_check o s = true -> allowed o s.
Proof.
  destruct o; cbn [allowed_check allowed]; intros H; split_checks; split_and?;
    eauto using open_sound, room_sound, after_all_sound, compact_sound, is_there_sound, id_sound, width_sound.
  all: try by apply id_sound.
  - destruct (netHeap (str s) !! b) as [[|o' m l bs|]|]; try done. exists o', m, l, bs. split; [done|by apply all_there_sound].
  - destruct (netHeap (str s) !! b) as [[|o' m l bs|]|]; try done. exists o', m, l, bs. split; [done|by apply all_there_sound].
  - destruct (termHeap (str s) !! b) as [[|o' m l bs|]|]; try done. split_checks. exists o', m, l, bs.
    split_and!; [done|by apply reaches_sound|by apply all_there_sound|]. intros i Hi. rewrite forallb_forall in H.
    specialize (H i (proj1 (list_elem_of_In _ _) Hi)). unfold room_of in H. destruct (instHeap (str s) !! i) as [inst|] eqn:E; [|done].
    exists inst. split; [done|]. by apply Nat.leb_le.
  - destruct (termHeap (str s) !! b) as [[|o' m l bs|]|]; try done. split_checks. exists o', m, l, bs.
    split_and!; [done|by apply reaches_sound|by apply all_there_sound].
  - destruct (object_header (termHeap (str s)) x) as [o'|]; [|done]. exists o'. split; [done|by apply reaches_sound].
  - unfold component_check in *. match goal with H : _ || _ = true |- _ => apply orb_true_iff in H as [H|H] end; [left|right]; by apply is_there_sound.
  - intros n ->. by apply is_there_sound.
  - destruct (instHeap (str s) !! i) as [inst|]; [|done]. split_checks. exists inst. split; [done|].
    split; by eapply bool_decide_eq_true_1.
  - destruct (termHeap (str s) !! b) as [[|o' m l bs|]|]; try done. eauto.
  - destruct (termHeap (str s) !! b) as [[|o' m l bs|]|]; try done. destruct (netHeap (str s) !! net) as [[|o2 m2 l2 bs2|]|]; try done. eauto.
  - by eapply bool_decide_eq_true_1.
  - intros m ->. split_checks. split; [by apply is_there_sound|by eapply bool_decide_eq_true_1].
  - by apply assigns_sound.
Qed.

(** * Runs *)

Fixpoint run_all (os : list operation) (s : netlist) : option netlist :=
  match os with
  | [] => Some s
  | o :: os => if allowed_check o s then match run o s with (Ret _, s') => run_all os s' | _ => None end else None
  end.
Lemma run_all_reachable os s s' : reachable s -> run_all os s = Some s' -> reachable s'.
Proof.
  revert s. induction os as [|o os IH]; intros s Hs; cbn; [by intros [= <-]|].
  destruct (allowed_check o s) eqn:E; [|done]. destruct (run o s) as [[[]|e|] s1] eqn:E1; [|done..].
  apply IH. eapply reachable_run; [exact Hs|by apply allowed_sound|exact E1].
Qed.
