(* ===== verification/NetlistProperties.v ===== *)
(** What the contents of designs promise, in every state that operations
    reach, with a concrete netlist on which each promise is evaluated. *)
From stdpp Require Import relations.
From S2P Require Import Prelude NLID Store Bus Contents Connections DesignNets Interface InterfaceSteps InterfaceTerms TermLifetime InstanceSteps TermBits Narrowing TermNets MergeAssigns NetlistRuns.
Local Open Scope Z_scope.

(** * An example *)

(** Design 1 holds an instance of design 2, which has the bus terminal [5][3:0]
    and a scalar one, and two instances of the assign primitive, design 3. *)
Definition demo_designs : gmap loc design_fields :=
  <[1%positive:=mkDesignFields (mkDesignRef 1 0 0) false]> (<[2%positive:=mkDesignFields (mkDesignRef 1 0 1) false]>
  (<[3%positive:=mkDesignFields (mkDesignRef 0 0 0) true]> ∅)).
Definition demo_steps : list operation :=
  [ CreateScalarTermWithID 3 0 Input 0; CreateScalarTermWithID 3 1 Output 0; (* 1, 2 *)
    CreateBusTerm 2 Input 3 0 5; CreateScalarTerm 2 Output 6; (* 3 with bits 4 to 7, 8 *)
    CreateScalarTerm 1 Input 7; (* 9 *)
    CreateScalarNet 1 0; CreateScalarNet 1 0; CreateScalarNet 1 0; CreateBusNet 1 3 0 5; (* 10, 11, 12, 13 with bits 14 to 17 *)
    CreateInstance 1 2 7; (* 18 with terminals 19 to 23 *)
    CreateInstance 1 3 0; CreateInstance 1 3 0; (* 24 with 25, 26; 27 with 28, 29 *)
    SetNet 25 (Some 10%positive); SetNet 26 (Some 11%positive); SetNet 28 (Some 11%positive); SetNet 29 (Some 12%positive);
    SetNet 23 (Some 10%positive); SetNet 9 (Some 12%positive) ].
Definition demo : netlist := default (initial demo_designs) (run_all demo_steps (initial demo_designs)).

Lemma demo_netlist_reachable : reachable demo.
Proof.
  apply (run_all_reachable demo_steps (initial demo_designs)).
  - constructor. intros d d' D D'. unfold demo_designs. rewrite !lookup_insert_Some, !lookup_empty. naive_solver.
  - vm_compute. reflexivity.
Qed.

Lemma demo_net it it' v n m : instTermHeap (str demo) !! it' = Some v -> net_ demo !! it' = n ->
  instTermHeap (str demo) !! it = Some v -> net_ demo !! it = m -> n = m.
Proof.
  intros H' Hn H Hm. destruct (reachable_netlist_wf demo demo_netlist_reachable) as [W _].
  assert (it = it') as -> by exact (instTerm_unique W _ _ _ H H'). congruence.
Qed.

(** * The invariant *)

(** C2. In every reachable state the invariant of designs and connections holds,
    and every operation whose arguments are allowed either keeps it, or throws
    and changes nothing: no operation is undefined. *)
Theorem netlist_invariant s o : reachable s -> allowed o s ->
  netlist_wf s /\
  match run o s with
  | (Ret _, s') => netlist_wf s'
  | (Throw _, s') => s' = s
  | (Undef, _) => False
  end.
Proof. intros Hs Ho. pose proof (reachable_netlist_wf s Hs) as HW. split; [done|exact (operation_ok o s HW Ho)]. Qed.
Lemma netlist_invariant_witness : netlist_wf demo /\ exists s', run (MergeAssigns 3 1) demo = (Ret tt, s') /\ netlist_wf s'.
Proof.
  assert (Ha : allowed (MergeAssigns 3 1) demo) by (apply allowed_sound; vm_compute; reflexivity).
  pose proof (netlist_invariant demo (MergeAssigns 3 1) demo_netlist_reachable Ha) as [H1 H2]. split; [exact H1|].
  remember (run (MergeAssigns 3 1) demo) as r eqn:E. assert (Hr : match r.1 with Ret _ => true | _ => false end = true) by (subst r; vm_compute; reflexivity).
  destruct r as [[[]|e|] s']; [|discriminate Hr..]. exists s'. split; [reflexivity|exact H2].
Defined.

(** C1. A net lists exactly the components whose [net_] it is, each once; a
    connected component and its net are alive and belong to one design, and the
    net is a scalar net or a bus bit. *)
Theorem connections_agree s : reachable s ->
  (forall n c, c ∈ getComponents s n <-> net_ s !! c = Some n) /\
  (forall n, NoDup (getComponents s n)) /\
  (forall c n, net_ s !! c = Some n -> exists d, is_component (str s) c /\ comp_design (str s) c = Some d /\
     is_bitNet (str s) n /\ net_design (str s) n = Some d).
Proof.
  intros [W C]%reachable_netlist_wf. split_and!.
  - intros n c. exact (elem_of_getComponents s n c C).
  - intros n. apply NoDup_in_order_by. intros k k' c Hk Hk'.
    apply (cw_components _ C) in Hk as [_ Hk]. apply (cw_components _ C) in Hk' as [_ Hk']. congruence.
  - intros c n H. destruct (cw_alive _ C c n H) as (d & k & ? & _ & ? & ? & ?). by exists d.
Qed.
Lemma connections_agree_witness : getComponents demo 11 = [28; 26]%positive /\ net_ demo !! 28%positive = Some 11%positive.
Proof.
  pose proof (connections_agree demo demo_netlist_reachable) as [H _]. split; [vm_compute; reflexivity|].
  apply H. vm_compute. left.
Defined.

(** * Terminals of instances *)

(** For each bit terminal of its model an instance has exactly one terminal,
    which [getInstTerm] finds without a search; and terminals of instances are
    of bit terminals of the model only. *)
Theorem instance_terminals s i inst : reachable s -> instHeap (str s) !! i = Some inst ->
  (forall x, x ∈ getBitTerms (str s) (model_ (h_extra inst)) ->
     exists it, getInstTerm i (Some x) s = (Ret (Some it), s) /\
       forall it', instTermHeap (str s) !! it' = Some (mkInstTerm i x) <-> it' = it) /\
  (forall it x, instTermHeap (str s) !! it = Some (mkInstTerm i x) -> x ∈ getBitTerms (str s) (model_ (h_extra inst))).
Proof.
  intros [W C]%reachable_netlist_wf Hi. split.
  - intros x Hx%(elem_of_getBitTerms _ _ _ _ W).
    pose proof (getInstTerm_ok _ s i inst x (fun _ _ => False) W Hi Hx (fun F => F)) as H. unfold wp in H.
    destruct (getInstTerm i (Some x) s) as [[r|e|] s']; [|done..]. destruct H as (-> & it & -> & Hit). exists it. split; [done|].
    intros it'. split; [intros H; exact (instTerm_unique W _ _ _ H Hit)|by intros ->].
  - intros it x Hit. destruct (sw_instTerm _ _ W _ _ Hit) as (I & f & HI & _ & Hb). cbn in *. simplify_eq.
    by apply (elem_of_getBitTerms _ _ _ _ W).
Qed.
Lemma instance_terminals_witness : exists inst, instHeap (str demo) !! 18%positive = Some inst /\
  forall x, x ∈ getBitTerms (str demo) 2 -> exists it, getInstTerm 18 (Some x) demo = (Ret (Some it), demo).
Proof.
  exists (mkHeader 1%positive 0 7 (mkInst 2%positive (Some <$> [19; 20; 21; 22; 23]%positive))).
  assert (Hi : instHeap (str demo) !! 18%positive = Some (mkHeader 1%positive 0 7 (mkInst 2%positive (Some <$> [19; 20; 21; 22; 23]%positive)))) by (vm_compute; reflexivity).
  split; [exact Hi|]. intros x Hx. pose proof (instance_terminals demo 18 _ demo_netlist_reachable Hi) as [H _].
  destruct (H x Hx) as (it & Hit & _). exists it. exact Hit.
Defined.

(** C19. [setTermNet] connects the terminal's bits to the net's, bit by bit and
    for this instance only, when both have the same number of bits; it throws
    before it changes anything otherwise. *)
Theorem setTermNet_result s i inst term net :
  reachable s -> instHeap (str s) !! i = Some inst ->
  h_design <$> object_header (termHeap (str s)) term = Some (model_ (h_extra inst)) -> net_design (str s) net = Some (h_design inst) ->
  let xs := getBits (termHeap (str s)) term in
  let ns := getBits (netHeap (str s)) net in
  match setTermNet i term net s with
  | (Ret _, s') => length xs = length ns /\ str s' = str s /\
      (forall (k : nat) x n it, xs !! k = Some x -> ns !! k = Some n ->
         instTermHeap (str s) !! it = Some (mkInstTerm i x) -> net_ s' !! it = Some n) /\
      (forall c, (forall x, x ∈ xs -> instTermHeap (str s) !! c <> Some (mkInstTerm i x)) -> net_ s' !! c = net_ s !! c)
  | (Throw _, s') => s' = s /\
      ((exists tv nv, termHeap (str s) !! term = Some tv /\ netHeap (str s) !! net = Some nv /\ term_getWidth tv <> net_getWidth nv)
       \/ length xs <> length ns)
  | (Undef, _) => False
  end.
Proof.
  intros [W C]%reachable_netlist_wf Hi Ht Hn xs ns.
  destruct (setTermNet_widths s W inst term net Ht Hn) as (tv & nv & tw & nw & Htv & Hnv & Htw & Hnw).
  pose proof (setTermNet_ok s W C i inst term net tv nv tw nw Hi Htv Ht Hnv Hn Htw Hnw) as H. unfold wp in H. fold xs ns in H.
  destruct (setTermNet i term net s) as [[r|e|] s']; [|destruct H as [-> H]|done].
  - destruct H as (Hlen & _ & [Es _ _ N]). split_and!; [done..| |].
    + intros k x n it Hx Hnk Hit. rewrite N. unfold instance_given. rewrite Hit. cbn. rewrite decide_True by done.
      apply (given_lookup _ x _ k); [|by apply lookup_zip_Some; split; [|rewrite list_lookup_fmap, Hnk]].
      rewrite fst_zip by (rewrite length_fmap; lia). exact (NoDup_getBits _ _ _ W).
    + intros c Hc. rewrite N. unfold instance_given. destruct (instTermHeap (str s) !! c) as [[j y]|]; [|done]. cbn.
      destruct (decide (j = i)) as [->|]; [|done]. apply given_other. rewrite fst_zip by (rewrite length_fmap; lia).
      intros Hy. by apply (Hc y Hy).
  - split; [done|]. destruct H as [H|H]; [left|by right]. exists tv, nv. split_and!; [done..|]. rewrite Htw, Hnw. congruence.
Qed.
Lemma setTermNet_result_witness :
  (exists s', setTermNet 18 3 13 demo = (Ret tt, s') /\ net_ s' !! 19%positive = Some 14%positive /\ net_ s' !! 23%positive = Some 10%positive) /\
  exists e, setTermNet 18 3 10 demo = (Throw e, demo).
Proof.
  assert (Hi : instHeap (str demo) !! 18%positive = Some (mkHeader 1%positive 0 7 (mkInst 2%positive (Some <$> [19; 20; 21; 22; 23]%positive)))) by (vm_compute; reflexivity).
  assert (Ht : h_design <$> object_header (termHeap (str demo)) 3 = Some 2%positive) by (vm_compute; reflexivity).
  split.
  - assert (Hn : net_design (str demo) 13 = Some 1%positive) by (vm_compute; reflexivity).
    pose proof (setTermNet_result demo 18 _ 3 13 demo_netlist_reachable Hi Ht Hn) as H. cbv zeta in H.
    assert (Hr : match (setTermNet 18 3 13 demo).1 with Ret _ => true | _ => false end = true) by (vm_compute; reflexivity).
    destruct (setTermNet 18 3 13 demo) as [[[]|e|] s']; [|discriminate Hr..]. exists s'. destruct H as (_ & _ & H1 & H2). split; [reflexivity|]. split.
    + apply (H1 0%nat 4%positive 14%positive 19%positive); vm_compute; reflexivity.
    + rewrite H2; [vm_compute; reflexivity|]. intros x Hx Hit.
      assert (Hb : getBits (termHeap (str demo)) 3 = [4; 5; 6; 7]%positive) by (vm_compute; reflexivity). rewrite Hb in Hx.
      assert (Hv : instTermHeap (str demo) !! 23%positive = Some (mkInstTerm 18 8)) by (vm_compute; reflexivity). rewrite Hv in Hit.
      injection Hit as <-. apply list_elem_of_In in Hx. cbn in Hx. destruct Hx as [H|[H|[H|[H|[]]]]]; discriminate H.
  - assert (Hn : net_design (str demo) 10 = Some 1%positive) by (vm_compute; reflexivity).
    pose proof (setTermNet_result demo 18 _ 3 10 demo_netlist_reachable Hi Ht Hn) as H. cbv zeta in H.
    assert (Hr : match (setTermNet 18 3 10 demo).1 with Throw _ => true | _ => false end = true) by (vm_compute; reflexivity).
    destruct (setTermNet 18 3 10 demo) as [[[]|e|] s']; [discriminate Hr| |discriminate Hr]. exists e. destruct H as [-> _]. reflexivity.
Defined.

(** * Narrowing *)

(** C13. [setMSB] of a bus terminal removes the bits outside the new range and
    their terminals in all instances, all of them unused; every other bit keeps
    its number, and every other terminal of an instance its identity and its
    net. When the new bound is outside the range, or one of these bits is used,
    it throws and changes nothing. This is for [allowed] arguments: the bits to
    be removed were not destroyed (the code would follow their null pointers,
    [busTerm_setMSB_destroyed]), the instances of the model are in its set, and
    they have the slots of the bus. *)
Theorem busTerm_narrowed s b msb' o msb lsb bits :
  reachable s -> allowed (NarrowTermMSB b msb') s -> termHeap (str s) !! b = Some (Bus o msb lsb bits) ->
  match busTerm_setMSB b msb' s with
  | (Ret _, s') => exists ns, let k := bit_position msb msb' in
      take k bits = Some <$> ns /\ unused s (getSlaveInstances (str s) (h_design o)) ns /\
      termHeap (str s') !! b = Some (Bus o msb' lsb (drop k bits)) /\
      (forall x, x ∈ ns -> termHeap (str s') !! x = None /\ net_ s' !! x = None) /\
      (forall x, x <> b -> x ∉ ns -> termHeap (str s') !! x = termHeap (str s) !! x) /\
      (forall it v, instTermHeap (str s) !! it = Some v ->
         if decide (bitTerm_ v ∈ ns) then instTermHeap (str s') !! it = None
         else instTermHeap (str s') !! it = Some v /\ net_ s' !! it = net_ s !! it)
  | (Throw _, s') => s' = s
  | (Undef, _) => False
  end.
Proof.
  intros [W C]%reachable_netlist_wf (o' & msb0 & lsb0 & bits0 & Hb' & Hr & Hl & Hroom) Hb.
  assert (o' = o /\ msb0 = msb /\ lsb0 = lsb /\ bits0 = bits) as (-> & -> & -> & ->) by (rewrite Hb in Hb'; by injection Hb' as <- <- <- <-).
  pose proof (busTerm_setMSB_ok s W C b o msb lsb bits Hb Hr msb' Hl Hroom) as H. unfold wp in H.
  destruct (busTerm_setMSB b msb' s) as [[r|e|] s']; [|done..]. cbv zeta in H. destruct H as (ns & Hns & G & Hu). exists ns. cbv zeta.
  assert (Hx : forall x, x ∈ ns -> termHeap (str s) !! x <> Some (Bus o msb lsb bits)).
  { intros x [j Hj]%list_elem_of_lookup_1. apply (f_equal (fun l => l !! j)) in Hns. rewrite list_lookup_fmap, Hj in Hns. cbn in Hns.
    apply lookup_take_Some in Hns as [Hj' _]. rewrite (ow_bits _ _ (sw_terms _ _ W) _ _ _ _ _ _ _ Hb Hj'). congruence. }
  assert (Hbn : b ∉ ns) by (intros H; by apply (Hx b H)).
  assert (Hdead : forall x, x ∈ ns -> instTermHeap (str s) !! x = None).
  { intros x [j Hj]%list_elem_of_lookup_1. apply (f_equal (fun l => l !! j)) in Hns. rewrite list_lookup_fmap, Hj in Hns. cbn in Hns.
    apply lookup_take_Some in Hns as [Hj' _]. apply (sw_apart _ _ W). rewrite (ow_bits _ _ (sw_terms _ _ W) _ _ _ _ _ _ _ Hb Hj'). by eexists. }
  split_and!; [done..| | | |].
  - rewrite (tg_heap _ _ _ _ G). unfold left_over. rewrite decide_True by done. do 2 f_equal. apply take_ge. rewrite length_drop. lia.
  - intros x H. rewrite (tg_heap _ _ _ _ G), (tg_net _ _ _ _ G). unfold left_over. rewrite decide_False, !decide_True by (done || congruence). done.
  - intros x H1 H2. rewrite (tg_heap _ _ _ _ G). unfold left_over. by rewrite !decide_False.
  - intros it v Hv. rewrite (tg_instTerms _ _ _ _ G), Hv. destruct (decide (bitTerm_ v ∈ ns)) as [H|H]; [done|]. split; [done|].
    rewrite (tg_net _ _ _ _ G), Hv, !decide_False; [done..|]. intros Hit. by rewrite (Hdead it Hit) in Hv.
Qed.
Lemma busTerm_narrowed_witness : exists s', busTerm_setMSB 3 1 demo = (Ret tt, s') /\
  instTermHeap (str s') !! 19%positive = None /\ instTermHeap (str s') !! 21%positive = Some (mkInstTerm 18 6).
Proof.
  assert (Ha : allowed (NarrowTermMSB 3 1) demo) by (apply allowed_sound; vm_compute; reflexivity).
  assert (Hb : termHeap (str demo) !! 3%positive = Some (Bus (mkHeader 2%positive 0 5 (mkTerm 0 Input)) 3 0 (Some <$> [4; 5; 6; 7]%positive)))
    by (vm_compute; reflexivity).
  pose proof (busTerm_narrowed demo 3 1 _ _ _ _ demo_netlist_reachable Ha Hb) as H.
  assert (Hr : match (busTerm_setMSB 3 1 demo).1 with Ret _ => true | _ => false end = true) by (vm_compute; reflexivity).
  destruct (busTerm_setMSB 3 1 demo) as [[[]|e|] s']; [|discriminate Hr..]. exists s'. split; [reflexivity|].
  destruct H as (ns & Hns & _ & _ & _ & _ & H). change (take (bit_position 3 1) _) with (Some <$> [4; 5]%positive) in Hns.
  assert (ns = [4; 5]%positive) as -> by (destruct ns as [|x [|y [|]]]; try discriminate Hns; injection Hns as <- <-; reflexivity).
  assert (H19 : instTermHeap (str demo) !! 19%positive = Some (mkInstTerm 18 4)) by (vm_compute; reflexivity).
  assert (H21 : instTermHeap (str demo) !! 21%positive = Some (mkInstTerm 18 6)) by (vm_compute; reflexivity).
  split; [exact (H _ _ H19)|exact (proj1 (H _ _ H21))].
Defined.

(** * Nets *)

(** Destroying a net removes its bits and disconnects exactly the components
    that were on them; terminals and instances stay. It never fails. *)
Theorem net_destroyed s n : reachable s -> is_Some (netHeap (str s) !! n) ->
  exists s', net_destroy n s = (Ret tt, s') /\ netlist_wf s' /\
    (forall y, y ∈ getBits (netHeap (str s)) n -> netHeap (str s') !! y = None) /\
    (forall c m, net_ s' !! c = Some m <-> net_ s !! c = Some m /\ m ∉ getBits (netHeap (str s)) n) /\
    termHeap (str s') = termHeap (str s) /\ instHeap (str s') = instHeap (str s) /\ instTermHeap (str s') = instTermHeap (str s).
Proof.
  intros HW%reachable_netlist_wf Hn. pose proof (net_destroy_wf_ok s n (fun _ _ => False) HW Hn) as H. unfold wp in H.
  destruct (net_destroy n s) as [[[]|e|] s']; [|done..]. destruct H as (HW' & regs & h & Es & Hh & N). exists s'.
  split_and!; [done|done|by rewrite Es| |by rewrite Es..]. intros c m. rewrite N. unfold without_nets.
  destruct (net_ s !! c) as [m'|]; [|naive_solver]. case_decide; naive_solver.
Qed.
Lemma net_destroyed_witness : exists s', net_destroy 11 demo = (Ret tt, s') /\ net_ s' !! 26%positive = None /\ net_ s' !! 25%positive = Some 10%positive.
Proof.
  assert (Hn : is_Some (netHeap (str demo) !! 11%positive)) by (vm_compute; eexists; reflexivity).
  destruct (net_destroyed demo 11 demo_netlist_reachable Hn) as (s' & Hd & _ & _ & H & _). exists s'.
  assert (Hb : getBits (netHeap (str demo)) 11 = [11]%positive) by (vm_compute; reflexivity). rewrite Hb in H.
  assert (H26 : net_ demo !! 26%positive = Some 11%positive) by (vm_compute; reflexivity).
  assert (H25 : net_ demo !! 25%positive = Some 10%positive) by (vm_compute; reflexivity).
  split; [exact Hd|]. split.
  - destruct (net_ s' !! 26%positive) as [m|] eqn:E; [|reflexivity]. apply H in E as [E Hm]. rewrite H26 in E. injection E as <-.
    exfalso. apply Hm. left.
  - apply H. split; [exact H25|]. intros Hm%list_elem_of_singleton. discriminate Hm.
Defined.

(** C3. [mergeAssigns] on the assigns of a design with their nets [ps], where each
    assign, when its turn comes, finds a net at its output, and not the one at
    its input ([mergeable]: no output is open, and no assign is from a net to
    itself or closes a cycle of assigns). It returns; two components that are
    left are then on one net exactly when the assigns connected their nets, in
    any direction and through any number of assigns. An input may be open: what
    is connected to it by assigns is left unconnected, as is what was so before.
    The assign instances are gone and no other instance is. Without [mergeable]
    the code follows a null pointer or uses a deleted net
    ([mergeAssigns_open_output], [mergeAssigns_self], [mergeAssigns_twice]). *)
Theorem mergeAssigns_equivalence s A ain aout d ps :
  reachable s -> getAssignInput (Some A) (str s) = Some ain -> getAssignOutput (Some A) (str s) = Some aout ->
  let insts := List.filter (isAssign (Some A) (str s)) (getInstances (str s) d) in
  Forall2 (assign_nets s A ain aout) insts ps -> mergeable ps = true ->
  exists s', mergeAssigns (Some A) d s = (Ret tt, s') /\ netlist_wf s' /\
    (forall i, instHeap (str s') !! i = if decide (i ∈ insts) then None else instHeap (str s) !! i) /\
    (forall c, (forall v, instTermHeap (str s) !! c = Some v -> instance_ v ∉ insts) ->
       net_ s' !! c = None <-> rtsc (fun a b => (a, b) ∈ ps) (net_ s !! c) None) /\
    (forall c c',
       (forall v, instTermHeap (str s) !! c = Some v -> instance_ v ∉ insts) ->
       (forall v, instTermHeap (str s) !! c' = Some v -> instance_ v ∉ insts) ->
       net_ s' !! c = net_ s' !! c' <-> rtsc (fun a b => (a, b) ∈ ps) (net_ s !! c) (net_ s !! c')).
Proof.
  intros [W C]%reachable_netlist_wf Hin Hout insts HF Hac.
  pose proof (mergeAssigns_ok s A ain aout d ps (fun _ _ => False) W C Hin Hout HF Hac) as H. unfold wp in H. fold insts in H.
  destruct (mergeAssigns (Some A) d s) as [[[]|e|] s']; [|done..]. destruct H as [W' C' I N]. exists s'.
  assert (Hleft : forall c, (forall v, instTermHeap (str s) !! c = Some v -> instance_ v ∉ insts) -> net_ s' !! c = merged ps (net_ s !! c)).
  { intros c Hc. rewrite N. destruct (instTermHeap (str s) !! c) as [v|]; [|done]. by rewrite decide_False by auto. }
  split_and!; [done|done|done| |].
  - intros c Hc. rewrite (Hleft c Hc), <- merged_equivalence. by rewrite (merged_none ps Hac).
  - intros c c' Hc Hc'. by rewrite (Hleft c Hc), (Hleft c' Hc'), merged_equivalence.
Qed.
Lemma mergeAssigns_equivalence_witness : exists s', mergeAssigns (Some 3%positive) 1 demo = (Ret tt, s') /\
  instHeap (str s') !! 24%positive = None /\ net_ s' !! 23%positive = net_ s' !! 9%positive.
Proof.
  assert (Ha : allowed (MergeAssigns 3 1) demo) by (apply allowed_sound; vm_compute; reflexivity).
  destruct Ha as (ain & aout & ps & Hin & Hout & HF & Hac).
  assert (Hi : List.filter (isAssign (Some 3%positive) (str demo)) (getInstances (str demo) 1) = [24; 27]%positive) by (vm_compute; reflexivity).
  destruct (mergeAssigns_equivalence demo 3 ain aout 1 ps demo_netlist_reachable Hin Hout HF Hac) as (s' & Hm & _ & I & _ & H).
  exists s'. rewrite Hi in I, H, HF. split; [exact Hm|]. split; [rewrite I; vm_compute; reflexivity|].
  assert (ain = 1%positive) as -> by (assert (Hx : getAssignInput (Some 3%positive) (str demo) = Some 1%positive) by (vm_compute; reflexivity); congruence).
  assert (aout = 2%positive) as -> by (assert (Hx : getAssignOutput (Some 3%positive) (str demo) = Some 2%positive) by (vm_compute; reflexivity); congruence).
  apply Forall2_cons_inv_l in HF as ([a b] & ps1 & (inst1 & x1 & y1 & _ & _ & Hx1 & Ha1 & Hy1 & Hb1) & HF & ->).
  apply Forall2_cons_inv_l in HF as ([a' b'] & ps2 & (inst2 & x2 & y2 & _ & _ & Hx2 & Ha2 & Hy2 & Hb2) & _ & ->).
  cbn [fst snd] in *.
  pose proof (demo_net 25 _ _ _ (Some 10%positive) Hx1 Ha1 ltac:(vm_compute; reflexivity) ltac:(vm_compute; reflexivity)) as ->.
  pose proof (demo_net 26 _ _ _ (Some 11%positive) Hy1 Hb1 ltac:(vm_compute; reflexivity) ltac:(vm_compute; reflexivity)) as ->.
  pose proof (demo_net 28 _ _ _ (Some 11%positive) Hx2 Ha2 ltac:(vm_compute; reflexivity) ltac:(vm_compute; reflexivity)) as ->.
  pose proof (demo_net 29 _ _ _ (Some 12%positive) Hy2 Hb2 ltac:(vm_compute; reflexivity) ltac:(vm_compute; reflexivity)) as ->.
  apply (H 23%positive 9%positive).
  - intros v Hv. assert (Hv' : instTermHeap (str demo) !! 23%positive = Some (mkInstTerm 18 8)) by (vm_compute; reflexivity).
    rewrite Hv' in Hv. injection Hv as <-. intros [E|[E|E]%elem_of_cons]%elem_of_cons; [discriminate E..|by apply not_elem_of_nil in E].
  - intros v Hv. assert (Hv' : instTermHeap (str demo) !! 9%positive = None) by (vm_compute; reflexivity). congruence.
  - assert (net_ demo !! 23%positive = Some 10%positive) as -> by (vm_compute; reflexivity). assert (net_ demo !! 9%positive = Some 12%positive) as -> by (vm_compute; reflexivity).
    transitivity (Some 11%positive); apply rtsc_lr; [left|right; left].
Defined.

(** * Arguments that are not allowed *)

(** What is seen after allowed operations and one more. *)
Definition seen_after {A B} (os : list operation) (m : prog netlist A) (see : outcome A -> netlist -> B) : option B :=
  s ← run_all os (initial demo_designs); let (r, s') := m s in Some (see r s').
Definition outcome_after (os : list operation) (o : operation) : option (outcome unit) := seen_after os (run o) (fun r _ => r).
Definition one_assign : list operation :=
  [ CreateScalarTermWithID 3 0 Input 0; CreateScalarTermWithID 3 1 Output 0; (* 1, 2 *)
    CreateScalarNet 1 0; CreateScalarNet 1 0; CreateInstance 1 3 0 ]. (* 3, 4, 5 with 6, 7 *)

(** Two nets, one assign between them. *)
Lemma mergeAssigns_plain : outcome_after (one_assign ++ [SetNet 6 (Some 3%positive); SetNet 7 (Some 4%positive)]) (MergeAssigns 3 1) = Some (Ret tt).
Proof. vm_compute. reflexivity. Qed.
(** An assign from a net to itself: the net loses its list of components, is
    deleted, and the terminals of the assign are then disconnected from it. *)
Lemma mergeAssigns_self : outcome_after (one_assign ++ [SetNet 6 (Some 3%positive); SetNet 7 (Some 3%positive)]) (MergeAssigns 3 1) = Some Undef.
Proof. vm_compute. reflexivity. Qed.
(** The same assign twice. *)
Lemma mergeAssigns_twice : outcome_after (one_assign ++ [CreateInstance 1 3 0; (* 8 with 9, 10 *)
  SetNet 6 (Some 3%positive); SetNet 7 (Some 4%positive); SetNet 9 (Some 3%positive); SetNet 10 (Some 4%positive)]) (MergeAssigns 3 1) = Some Undef.
Proof. vm_compute. reflexivity. Qed.
(** An assign whose input is not connected: the terminal at the net of its output
    is left without a net. *)
Lemma mergeAssigns_open_input : seen_after (one_assign ++ [SetNet 7 (Some 4%positive); CreateInstance 1 3 0; (* 8 with 9, 10 *)
  SetNet 9 (Some 4%positive); SetNet 10 (Some 3%positive); CreateScalarTermWithID 1 0 Input 0; (* 11 *) SetNet 11 (Some 3%positive)])
  (run (MergeAssigns 3 1)) (fun r s => (r, net_ s !! 11%positive)) = Some (Ret tt, None).
Proof. vm_compute. reflexivity. Qed.
(** An assign whose output is not connected. *)
Lemma mergeAssigns_open_output : outcome_after (one_assign ++ [SetNet 6 (Some 3%positive)]) (MergeAssigns 3 1) = Some Undef.
Proof. vm_compute. reflexivity. Qed.
(** Merging a net into itself leaves components that it does not list. *)
Lemma connectAllComponentsTo_self :
  seen_after (one_assign ++ [SetNet 6 (Some 3%positive)]) (connectAllComponentsTo 3 (Some 3%positive)) (fun r s => (r, net_ s !! 6%positive, getComponents s 3)) =
  Some (Ret tt, Some 3%positive, []).
Proof. vm_compute. reflexivity. Qed.

(** Narrowing a bus one of whose outer bits was destroyed. *)
Lemma busNet_setMSB_destroyed : outcome_after [CreateBusNet 1 3 0 0; DestroyNet 2] (NarrowNetMSB 1 1) = Some Undef.
Proof. vm_compute. reflexivity. Qed.
Lemma busTerm_setMSB_destroyed : outcome_after [CreateBusTerm 1 Input 3 0 0; DestroyTerm 2] (NarrowTermMSB 1 1) = Some Undef.
Proof. vm_compute. reflexivity. Qed.
(** A terminal takes the flat identifier that the last one, now destroyed, had,
    but the instances append a slot for it. *)
Lemma flatID_reused :
  seen_after [CreateScalarTerm 2 Input 0; CreateScalarTerm 2 Input 0; CreateInstance 1 2 0; DestroyTerm 2] (run (CreateScalarTerm 2 Input 0))
    (fun r s => (r, getBitTerms (str s) 2, getFlatID (termHeap (str s)) 6, (getInstTerm 3 (Some 6%positive) s).1)) =
  Some (Ret tt, [1; 6]%positive, Some 1%nat, Ret None).
Proof. vm_compute. reflexivity. Qed.
(** An instance of a design one of whose terminals, not the last, was destroyed
    has fewer slots than flat identifiers. *)
Lemma slots_after_removal :
  seen_after [CreateScalarTerm 2 Input 0; CreateScalarTerm 2 Input 0; DestroyTerm 1] (run (CreateInstance 1 2 0))
    (fun r s => (r, (getInstTerm 3 (Some 2%positive) s).1)) = Some (Ret tt, Undef).
Proof. vm_compute. reflexivity. Qed.
(** Explicit identifiers that decrease give two terminals one flat identifier. *)
Lemma flatID_shared :
  seen_after [CreateScalarTermWithID 2 5 Input 0]
    (run (CreateScalarTermWithID 2 3 Input 0) ;; run (CreateScalarTermWithID 2 4 Input 0))
    (fun r s => (r, getFlatID (termHeap (str s)) <$> [1; 2; 3]%positive)) =
  Some (Ret tt, [Some 0; Some 1; Some 1]%nat).
Proof. vm_compute. reflexivity. Qed.
(** [setTermsNets] connects the terminals before the one it refuses. *)
Lemma setTermsNets_partial :
  seen_after [CreateScalarTerm 2 Input 0; CreateScalarTerm 2 Input 0; CreateInstance 1 2 0; CreateScalarNet 1 0; CreateScalarNet 2 0]
    (setTermsNets 3 (Some <$> [1; 2]%positive) (Some <$> [6; 7]%positive))
    (fun r s => (match r with Throw _ => true | _ => false end, net_ s !! 4%positive)) = Some (true, Some 6%positive).
Proof. vm_compute. reflexivity. Qed.
(** A bus of two constants is not constant. *)
Lemma isConstant_mixed :
  seen_after [CreateBusNet 1 1 0 0; RetypeNet 2 NAssign0; RetypeNet 3 NAssign1] (mret tt)
    (fun _ s => (net_isConstant s 2, net_isConstant s 3, net_isConstant s 1)) = Some (true, true, false).
Proof. vm_compute. reflexivity. Qed.
