(* ===== verification/Paths.v ===== *)
(** Paths of instances through the hierarchy: shared paths, each kept once in its
    last instance, and the handles on them (nl/netlist/snl/SNLSharedPath.cpp,
    SNLPath.cpp, SNLInstance.cpp). The netlist does not change. *)
From S2P Require Import Prelude NLID Store Bus Contents.
Local Open Scope Z_scope.

(** * State *)

(** An instance maps the shared path before it, [None] at the top, to the shared
    path that ends with it. *)
Record SNLSharedPath := mkSharedPath { headSharedPath_ : option loc; tailInstance_ : loc }.
Record paths := mkPaths { pathHeap : gmap loc SNLSharedPath; sharedPaths_ : gmap loc (gmap (option loc) loc); next_path : loc }.
#[export] Instance SNLSharedPath_dec : EqDecision SNLSharedPath.
Proof. solve_decision. Defined.
Notation on_paths := (prog paths).
(** [SNLPath] *)
Notation SNLPath := (option loc).

Definition shared_of (s : paths) (i : loc) : gmap (option loc) loc := default ∅ (sharedPaths_ s !! i).

Section paths.
Context (t : structure).

Definition alive_instance (i : loc) : on_paths SNLInstance := deref (fun _ => instHeap t !! i).
Definition the_shared (p : loc) : on_paths SNLSharedPath := deref (fun s => pathHeap s !! p).

(** * Shared paths *)

(** [SNLInstance::getSharedPath], [addSharedPath] *)
Definition getSharedPath (i : loc) (head : SNLPath) : on_paths (option loc) := alive_instance i ;; gets (fun s => shared_of s i !! head).
Definition addSharedPath (i : loc) (head : SNLPath) (p : loc) (s : paths) : paths :=
  mkPaths (pathHeap s) (<[i:=<[head:=p]> (shared_of s i)]> (sharedPaths_ s)) (next_path s).
Definition allocate_shared (v : SNLSharedPath) (s : paths) : paths := mkPaths (<[next_path s:=v]> (pathHeap s)) (sharedPaths_ s) (Pos.succ (next_path s)).

(** [SNLSharedPath::getModel] *)
Definition shared_getModel (p : loc) : on_paths loc := v ← the_shared p; i ← alive_instance (tailInstance_ v); mret (model_ (h_extra i)).
(** The constructor; an object whose constructor throws is not there. *)
Definition new_shared (tail : loc) (head : SNLPath) : on_paths loc :=
  inst ← alive_instance tail;
  (match head with
   | Some h => m ← shared_getModel h; check (bool_decide (m = h_design inst)) "Cannot construct Path with incompatible headPath"
   | None => mret tt
   end) ;;
  p ← gets next_path;
  modify (allocate_shared (mkSharedPath head tail)) ;; modify (addSharedPath tail head p) ;; mret p.
Definition find_or_new (i : loc) (head : SNLPath) : on_paths loc :=
  q ← getSharedPath i head; match q with Some p => mret p | None => new_shared i head end.

(** Heads are older than the shared paths made from them. *)
Definition enough : on_paths nat := gets (fun s => Pos.to_nat (next_path s)).
Fixpoint shared_getHeadInstance (fuel : nat) (p : loc) : on_paths loc :=
  match fuel with
  | O => undef
  | S fuel => v ← the_shared p; match headSharedPath_ v with Some h => shared_getHeadInstance fuel h | None => mret (tailInstance_ v) end
  end.
Fixpoint shared_getTailSharedPath (fuel : nat) (p : loc) : on_paths SNLPath :=
  match fuel with
  | O => undef
  | S fuel =>
      v ← the_shared p;
      match headSharedPath_ v with
      | None => mret None
      | Some h => h' ← shared_getTailSharedPath fuel h; p' ← find_or_new (tailInstance_ v) h'; mret (Some p')
      end
  end.
(** The design of the last instance met going up. *)
Fixpoint shared_getDesign (fuel : nat) (p : loc) : on_paths loc :=
  match fuel with
  | O => undef
  | S fuel =>
      v ← the_shared p; i ← alive_instance (tailInstance_ v);
      match headSharedPath_ v with Some h => shared_getDesign fuel h | None => mret (h_design i) end
  end.
Fixpoint shared_size (fuel : nat) (p : loc) : on_paths nat :=
  match fuel with
  | O => undef
  | S fuel => v ← the_shared p; match headSharedPath_ v with Some h => n ← shared_size fuel h; mret (S n) | None => mret 1%nat end
  end.
Fixpoint shared_getInstances (fuel : nat) (p : loc) : on_paths (list loc) :=
  match fuel with
  | O => undef
  | S fuel =>
      v ← the_shared p;
      match headSharedPath_ v with Some h => l ← shared_getInstances fuel h; mret (l ++ [tailInstance_ v]) | None => mret [tailInstance_ v] end
  end.
Fixpoint shared_getInstanceIDs (fuel : nat) (p : loc) : on_paths (list Z) :=
  match fuel with
  | O => undef
  | S fuel =>
      v ← the_shared p; 
      match headSharedPath_ v with
      | Some h => l ← shared_getInstanceIDs fuel h; i ← alive_instance (tailInstance_ v); mret (l ++ [h_id i])
      | None => i ← alive_instance (tailInstance_ v); mret [h_id i]
      end
  end.

(** * Paths *)

Definition createInstanceSharedPath (i : loc) : on_paths loc := find_or_new i None.
(** [SNLPath(instance)] *)
Definition path_of_instance (instance : option loc) : on_paths SNLPath :=
  match instance with Some i => p ← createInstanceSharedPath i; mret (Some p) | None => mret None end.
(** [SNLPath(headInstance, tailPath)] *)
Fixpoint path_cons_fuel (fuel : nat) (head : loc) (tail : SNLPath) : on_paths SNLPath :=
  match fuel with
  | O => undef
  | S fuel =>
      match tail with
      | None => p ← createInstanceSharedPath head; mret (Some p)
      | Some q => v ← the_shared q; h ← path_cons_fuel fuel head (headSharedPath_ v); p ← find_or_new (tailInstance_ v) h; mret (Some p)
      end
  end.
Definition path_cons (head : option loc) (tail : SNLPath) : on_paths SNLPath :=
  match head with
  | None => throw "cannot create SNLPath with null head instance"
  | Some i => n ← enough; path_cons_fuel (S n) i tail
  end.
(** [SNLPath(headPath, tailInstance)] *)
Definition path_snoc (head : SNLPath) (tail : option loc) : on_paths SNLPath :=
  match tail with
  | None => throw "Cannot create SNLPath with null tailInstance"
  | Some i =>
      match head with
      | None => p ← createInstanceSharedPath i; mret (Some p)
      | Some h =>
          m ← shared_getModel h; inst ← alive_instance i;
          check (bool_decide (m = h_design inst)) "Cannot create SNLPath with incompatible headPath" ;;
          p ← find_or_new i head; mret (Some p)
      end
  end.
Fixpoint path_extend (path : SNLPath) (l : list loc) : on_paths SNLPath :=
  match l with [] => mret path | i :: l => path ← path_snoc path (Some i); path_extend path l end.
(** The instances that a descriptor names from design [d] on. *)
Fixpoint find_instances {A} (find : loc -> A -> outcome (option loc)) (d : loc) (descriptor : list A) : on_paths (list loc) :=
  match descriptor with
  | [] => mret []
  | a :: descriptor =>
      i ← (fun s => (find d a, s));
      match i with
      | None => throw "Unfound instance in SNLPath constructor."
      | Some i => inst ← alive_instance i; l ← find_instances find (model_ (h_extra inst)) descriptor; mret (i :: l)
      end
  end.
Definition path_of_descriptor {A} (find : loc -> A -> outcome (option loc)) (top : option loc) (descriptor : list A) : on_paths SNLPath :=
  match top, descriptor with
  | None, _ | _, [] => mret None
  | Some d, _ => l ← find_instances find d descriptor; path_extend None l
  end.
(** [SNLPath(top, PathIDDescriptor)] *)
Definition path_of_ids : option loc -> list Z -> on_paths SNLPath := path_of_descriptor (fun d id => Ret (getInstance t d id)).
(** [SNLPath(top, PathStringDescriptor)] *)
Definition path_of_names : option loc -> list Z -> on_paths SNLPath :=
  path_of_descriptor (fun d name => if name =? 0 then Throw "Anonymous instance in SNLPath constructor." else Ret (getInstanceByName t d name)).

Definition path_getHeadInstance (p : SNLPath) : on_paths (option loc) :=
  match p with Some p => n ← enough; i ← shared_getHeadInstance n p; mret (Some i) | None => mret None end.
Definition path_getTailPath (p : SNLPath) : on_paths SNLPath :=
  match p with Some p => n ← enough; shared_getTailSharedPath n p | None => mret None end.
Definition path_getHeadPath (p : SNLPath) : on_paths SNLPath :=
  match p with Some p => v ← the_shared p; mret (headSharedPath_ v) | None => mret None end.
Definition path_getTailInstance (p : SNLPath) : on_paths (option loc) :=
  match p with Some p => v ← the_shared p; mret (Some (tailInstance_ v)) | None => mret None end.
Definition path_empty (p : SNLPath) : bool := is_none p.
Definition path_size (p : SNLPath) : on_paths nat := match p with Some p => n ← enough; shared_size n p | None => mret 0%nat end.
Definition path_getDesign (p : SNLPath) : on_paths (option loc) :=
  match p with Some p => n ← enough; d ← shared_getDesign n p; mret (Some d) | None => mret None end.
Definition path_getModel (p : SNLPath) : on_paths (option loc) :=
  match p with Some p => m ← shared_getModel p; mret (Some m) | None => mret None end.
Definition path_getInstances (p : SNLPath) : on_paths (list loc) := match p with Some p => n ← enough; shared_getInstances n p | None => mret [] end.
Definition path_getInstanceIDs (p : SNLPath) : on_paths (list Z) := match p with Some p => n ← enough; shared_getInstanceIDs n p | None => mret [] end.
(** Head instances of the path and of its tails, which are made on the way. *)
Fixpoint path_describe {A} (field : SNLInstance -> A) (fuel : nat) (p : SNLPath) : on_paths (list A) :=
  match fuel with
  | O => undef
  | S fuel =>
      match p with
      | None => mret []
      | Some q =>
          n ← enough; i ← shared_getHeadInstance n q; inst ← alive_instance i;
          p' ← shared_getTailSharedPath n q; l ← path_describe field fuel p'; mret (field inst :: l)
      end
  end.
Definition path_getIDDescriptor (p : SNLPath) : on_paths (list Z) := n ← enough; path_describe h_id n p.
Definition path_getPathDescriptor (p : SNLPath) : on_paths (list Z) := n ← enough; path_describe h_name n p.

(** What [SNLInstance::commonPreDestroy] does to the shared paths of the instance;
    those made from them stay. *)
Definition destroy_sharedPaths (i : loc) (s : paths) : paths :=
  mkPaths (foldr (fun p h => delete p.2 h) (pathHeap s) (map_to_list (shared_of s i))) (delete i (sharedPaths_ s)) (next_path s).

(** * The order of paths *)

Definition path_eq (p q : SNLPath) : bool := bool_decide (p = q).
(** From the tails up; the first instance that is less decides, one that is
    greater does not. *)
Fixpoint shared_lt (fuel : nat) (p q : SNLPath) : on_paths bool :=
  match fuel with
  | O => undef
  | S fuel =>
      match p, q with
      | None, _ => mret false
      | Some _, None => undef
      | Some p, Some q =>
          v ← the_shared p; w ← the_shared q;
          i ← alive_instance (tailInstance_ v); j ← alive_instance (tailInstance_ w);
          a ← deref (fun _ => instance_getNLID t i); b ← deref (fun _ => instance_getNLID t j);
          if nlid_lt a b then mret true else shared_lt fuel (headSharedPath_ v) (headSharedPath_ w)
      end
  end.
Definition path_lt (p q : SNLPath) : on_paths bool :=
  match p, q with
  | Some _, Some _ =>
      n ← path_size p; m ← path_size q;
      if negb (n =? m)%nat then mret (n <? m)%nat else f ← enough; shared_lt f p q
  | Some _, None => mret false
  | None, _ => mret (negb (is_none q))
  end.
Definition path_le (p q : SNLPath) : on_paths bool := b ← path_lt p q; mret (b || path_eq p q).
Definition path_gt (p q : SNLPath) : on_paths bool := b ← path_le p q; mret (negb b).
Definition path_ge (p q : SNLPath) : on_paths bool := b ← path_lt p q; mret (negb b).
End paths.
