(* ===== verification/PathSteps.v ===== *)
(** What the operations on paths do: a path stands for the list of its instances,
    and no two shared paths for the same list.

    Paths as a state machine: what every sequence of constructors and getters
    of paths keeps. *)
From S2P Require Import Prelude NLID Store Bus Contents Connections Paths.
Local Open Scope Z_scope.

(** * What a path stands for *)

Inductive spells (s : paths) : SNLPath -> list loc -> Prop :=
| spells_nil : spells s None []
| spells_snoc p v l : pathHeap s !! p = Some v -> spells s (headSharedPath_ v) l -> spells s (Some p) (l ++ [tailInstance_ v]).

Lemma spells_Some s p l : spells s (Some p) l -> exists v l', pathHeap s !! p = Some v /\ spells s (headSharedPath_ v) l' /\ l = l' ++ [tailInstance_ v].
Proof. inversion 1; subst. eauto. Qed.
Lemma spells_None s l : spells s None l -> l = [].
Proof. by inversion 1. Qed.
Lemma spells_fun s p l l' : spells s p l -> spells s p l' -> l = l'.
Proof.
  intros H. revert l'. induction H as [|p v l Hp _ IH]; intros l' H'; [by apply spells_None in H'|].
  apply spells_Some in H' as (v' & l'' & Hp' & H' & ->). assert (v' = v) as -> by congruence. by rewrite (IH _ H').
Qed.
Lemma spells_mono s s' p l : pathHeap s ⊆ pathHeap s' -> spells s p l -> spells s' p l.
Proof. intros Hs. induction 1 as [|p v l Hp _ IH]; [constructor|]. econstructor; [by eapply lookup_weaken|done]. Qed.
Lemma spells_empty s p : spells s p [] -> p = None.
Proof. destruct p as [p|]; [|done]. intros (v & l & _ & _ & H)%spells_Some. by destruct l. Qed.
Lemma spells_snoc_inv s p l i : spells s p (l ++ [i]) -> exists q h, p = Some q /\ pathHeap s !! q = Some (mkSharedPath h i) /\ spells s h l.
Proof.
  destruct p as [q|]; [|intros H%spells_None; by destruct l]. intros ([h j] & l' & Hq & Hs & E)%spells_Some. apply app_inj_tail in E as [-> ->].
  exists q, h. done.
Qed.

(** * The invariant *)

Section steps.
Context (t : structure).

(** Instance [i] can follow the instances [l]. *)
Definition follows (l : list loc) (i : loc) : Prop :=
  exists inst, instHeap t !! i = Some inst /\ match last l with
    | Some j => exists J, instHeap t !! j = Some J /\ model_ (h_extra J) = h_design inst
    | None => True
    end.
Inductive chain : list loc -> Prop :=
| chain_nil : chain []
| chain_snoc l i : chain l -> follows l i -> chain (l ++ [i]).
Record paths_wf (s : paths) : Prop := {
  pw_head p v h : pathHeap s !! p = Some v -> headSharedPath_ v = Some h -> (h < p)%positive /\ is_Some (pathHeap s !! h);
  pw_follows p v l : pathHeap s !! p = Some v -> spells s (headSharedPath_ v) l -> follows l (tailInstance_ v);
  pw_shared i h p : shared_of s i !! h = Some p <-> pathHeap s !! p = Some (mkSharedPath h i);
  pw_fresh p : (next_path s <= p)%positive -> pathHeap s !! p = None }.

Lemma chain_snoc_inv l i : chain (l ++ [i]) -> chain l /\ follows l i.
Proof. inversion 1 as [E|l' i' Hc Hf E]; [by destruct l|]. apply app_inj_tail in E as [-> ->]. done. Qed.

Section facts.
Context (s : paths) (W : paths_wf s).
Lemma spells_total p : is_Some (pathHeap s !! p) -> exists l, spells s (Some p) l /\ chain l /\ (length l <= Pos.to_nat p)%nat.
Proof.
  remember (Pos.to_nat p) as n eqn:En. revert p En. induction n as [n IH] using lt_wf_ind. intros p -> [[h i] Hp]. destruct h as [h|].
  - destruct (pw_head _ W _ _ h Hp eq_refl) as [Hlt Hh]. destruct (IH (Pos.to_nat h) ltac:(lia) h eq_refl Hh) as (l & Hl & Hc & Hn).
    exists (l ++ [i]). split; [exact (spells_snoc s p _ l Hp Hl)|]. split; [constructor; [done|exact (pw_follows _ W _ _ _ Hp Hl)]|].
    rewrite length_app. cbn. lia.
  - exists ([] ++ [i]). split; [exact (spells_snoc s p _ [] Hp (spells_nil s))|]. split; [constructor; [constructor|exact (pw_follows _ W _ _ [] Hp (spells_nil s))]|].
    cbn. lia.
Qed.
Lemma spells_chain p l : spells s p l -> chain l.
Proof.
  intros H. destruct p as [p|]; [|apply spells_None in H as ->; constructor].
  assert (Hp : is_Some (pathHeap s !! p)) by (apply spells_Some in H as (v & _ & -> & _); by eexists).
  destruct (spells_total p Hp) as (l' & Hl & Hc & _). by rewrite (spells_fun _ _ _ _ H Hl).
Qed.
Lemma spells_length p l : spells s p l -> (length l < Pos.to_nat (next_path s))%nat.
Proof.
  intros H. destruct p as [p|]; [|apply spells_None in H as ->; cbn; lia].
  assert (Hp : is_Some (pathHeap s !! p)) by (apply spells_Some in H as (v & _ & -> & _); by eexists).
  destruct (spells_total p Hp) as (l' & Hl & _ & Hn). rewrite (spells_fun _ _ _ _ H Hl).
  assert (p < next_path s)%positive; [|lia]. destruct (decide (next_path s <= p)%positive) as [Hle|]; [|lia]. rewrite (pw_fresh _ W p Hle) in Hp. by destruct Hp.
Qed.
Lemma spells_inj p q l : spells s p l -> spells s q l -> p = q.
Proof.
  revert p q. induction l as [|i l IH] using rev_ind; intros p q Hp Hq; [by rewrite (spells_empty _ _ Hp), (spells_empty _ _ Hq)|].
  apply spells_snoc_inv in Hp as (p' & h & -> & Hp & Hh). apply spells_snoc_inv in Hq as (q' & h' & -> & Hq & Hh').
  rewrite (IH _ _ Hh Hh') in Hp. apply (pw_shared _ W) in Hp, Hq. congruence.
Qed.
End facts.

(** A path for [l] is there, and nothing changes when it was. *)
Definition made (s : paths) (l : list loc) (p : SNLPath) (s' : paths) : Prop :=
  paths_wf s' /\ pathHeap s ⊆ pathHeap s' /\ spells s' p l /\ forall q, spells s q l -> s' = s.

Lemma made_there s p l : paths_wf s -> spells s p l -> made s l p s.
Proof. intros W H. done. Qed.

(** * Making shared paths *)

Lemma spells_tail_alive s p v l : paths_wf s -> pathHeap s !! p = Some v -> spells s (headSharedPath_ v) l -> is_Some (instHeap t !! tailInstance_ v).
Proof. intros W Hp Hl. destruct (pw_follows _ W _ _ _ Hp Hl) as (inst & Hi & _). by eexists. Qed.
Lemma allocate_wf s head i l : paths_wf s -> spells s head l -> follows l i -> shared_of s i !! head = None ->
  let s' := addSharedPath i head (next_path s) (allocate_shared (mkSharedPath head i) s) in
  paths_wf s' /\ pathHeap s ⊆ pathHeap s' /\ spells s' (Some (next_path s)) (l ++ [i]).
Proof.
  intros W Hl Hf Hn s'. assert (Hnew : pathHeap s !! next_path s = None) by (apply (pw_fresh _ W); lia).
  assert (Hsub : pathHeap s ⊆ pathHeap s') by (by apply insert_subseteq).
  assert (Hall : forall p v, pathHeap s' !! p = Some v -> p = next_path s /\ v = mkSharedPath head i \/ p <> next_path s /\ pathHeap s !! p = Some v).
  { intros p v. cbn. destruct (decide (p = next_path s)) as [->|Hne]; [rewrite lookup_insert_eq; intros [= <-]; by left|]. rewrite lookup_insert_ne by done. by right. }
  assert (Hback : forall p v l', pathHeap s !! p = Some v -> spells s' (headSharedPath_ v) l' -> spells s (headSharedPath_ v) l').
  { intros p v l' Hp Hs. destruct (headSharedPath_ v) as [h|] eqn:Eh; [|apply spells_None in Hs as ->; constructor].
    destruct (pw_head _ W _ _ h Hp Eh) as [_ Hh]. destruct (spells_total s W h Hh) as (l1 & Hl1 & _).
    by rewrite <- (spells_fun _ _ _ _ (spells_mono _ _ _ _ Hsub Hl1) Hs). }
  assert (Hlhead : spells s' head l) by (by eapply spells_mono).
  split; [|split; [done|]].
  - split.
    + intros p v h Hp Eh. destruct (Hall p v Hp) as [[-> ->]|[Hne Hp']].
      * cbn in Eh. subst head. assert (Hh : is_Some (pathHeap s !! h)) by (apply spells_Some in Hl as (w & _ & -> & _); by eexists).
        split; [|destruct Hh as [w Hw]; exists w; by eapply lookup_weaken].
        destruct (decide (next_path s <= h)%positive) as [Hle|]; [|lia]. rewrite (pw_fresh _ W h Hle) in Hh. by destruct Hh.
      * destruct (pw_head _ W _ _ h Hp' Eh) as [Hlt [w Hw]]. split; [done|]. exists w. by eapply lookup_weaken.
    + intros p v l' Hp Hs. destruct (Hall p v Hp) as [[-> ->]|[Hne Hp']]; [cbn in *; by rewrite (spells_fun _ _ _ _ Hs Hlhead)|].
      eapply (pw_follows _ W); [done|by eapply Hback].
    + intros j h p.
      assert (Ej : shared_of s' j = if decide (i = j) then <[head:=next_path s]> (shared_of s i) else shared_of s j).
      { unfold shared_of at 1. cbn. destruct (decide (i = j)) as [<-|Hne]; [by rewrite lookup_insert_eq|by rewrite lookup_insert_ne]. }
      rewrite Ej. destruct (decide (i = j)) as [<-|Hne].
      * destruct (decide (head = h)) as [<-|Hh].
        -- rewrite lookup_insert_eq. split; [intros [= <-]; apply lookup_insert_eq|].
           intros Hp. destruct (Hall p _ Hp) as [[-> _]|[_ Hp']]; [done|]. apply (pw_shared _ W) in Hp'. congruence.
        -- rewrite lookup_insert_ne by done. rewrite (pw_shared _ W). split; [intros Hp; by eapply lookup_weaken|].
           intros Hp. destruct (Hall p _ Hp) as [[_ [= ->]]|[_ Hp']]; [done|done].
      * rewrite (pw_shared _ W). split; [intros Hp; by eapply lookup_weaken|].
        intros Hp. destruct (Hall p _ Hp) as [[_ [= -> ->]]|[_ Hp']]; [done|done].
    + intros p Hp. cbn in *. rewrite lookup_insert_ne by lia. apply (pw_fresh _ W). lia.
  - apply (spells_snoc s' _ (mkSharedPath head i)); [cbn; apply lookup_insert_eq|done].
Qed.

Lemma model_ok s p l i inst Q E : paths_wf s -> spells s (Some p) l -> last l = Some i -> instHeap t !! i = Some inst ->
  Q (model_ (h_extra inst)) s -> wp (shared_getModel t p) s Q E.
Proof.
  intros W (v & l' & Hp & _ & ->)%spells_Some Hi Hinst HQ. rewrite last_snoc in Hi. injection Hi as <-.
  unfold shared_getModel, the_shared, alive_instance. wp_read Hp. wp_read Hinst. done.
Qed.
Lemma new_shared_ok s head l i E : paths_wf s -> spells s head l -> follows l i -> shared_of s i !! head = None ->
  wp (new_shared t i head) s (fun p s' => made s (l ++ [i]) (Some p) s') E.
Proof.
  intros W Hl Hf Hn. destruct Hf as (inst & Hinst & Hlast). unfold new_shared, alive_instance. wp_read Hinst.
  assert (Hdone : wp (p ← gets next_path; modify (allocate_shared (mkSharedPath head i)) ;; modify (addSharedPath i head p) ;; mret p) s
    (fun p s' => made s (l ++ [i]) (Some p) s') E).
  { rewrite !wp_bind, wp_gets, wp_bind, wp_modify, wp_bind, wp_modify, wp_ret.
    destruct (allocate_wf s head i l W Hl) as (W' & Hsub & Hs'); [by exists inst|done|]. split; [done|]. split; [done|]. split; [done|].
    intros q (q' & h & -> & Hq & Hh)%spells_snoc_inv. apply (pw_shared _ W) in Hq. rewrite (spells_inj s W h head l Hh Hl) in Hq. congruence. }
  rewrite wp_bind. destruct head as [h|]; [|by rewrite wp_ret].
  apply spells_Some in Hl as (v & l' & Hh & Hl' & ->). rewrite last_snoc in Hlast. destruct Hlast as (J & HJ & Hm).
  rewrite wp_bind. eapply model_ok; [done|by econstructor|by rewrite last_snoc|done|]. apply wp_check; [done|]. by rewrite Hm, bool_decide_true.
Qed.
Lemma find_or_new_ok s head l i E : paths_wf s -> spells s head l -> follows l i ->
  wp (find_or_new t i head) s (fun p s' => made s (l ++ [i]) (Some p) s') E.
Proof.
  intros W Hl Hf. unfold find_or_new, getSharedPath, alive_instance. destruct (id Hf) as (inst & Hinst & _). rewrite !wp_bind. eapply wp_deref; [exact Hinst|].
  rewrite wp_gets. destruct (shared_of s i !! head) as [p|] eqn:Ep; [|by apply new_shared_ok].
  rewrite wp_ret. apply made_there; [done|]. apply (pw_shared _ W) in Ep. exact (spells_snoc s p _ l Ep Hl).
Qed.
(** The constructor refuses an instance that cannot follow. *)
Lemma new_shared_refuses s p l i j inst J : paths_wf s -> spells s (Some p) l -> last l = Some j -> instHeap t !! j = Some J -> instHeap t !! i = Some inst ->
  model_ (h_extra J) <> h_design inst -> shared_of s i !! Some p = None ->
  find_or_new t i (Some p) s = (Throw "Cannot construct Path with incompatible headPath", s).
Proof.
  intros W Hl Hj HJ Hi Hne Hn. assert (H : wp (find_or_new t i (Some p)) s (fun _ _ => False) (fun e s' => e = "Cannot construct Path with incompatible headPath"%string /\ s' = s)).
  { unfold find_or_new, getSharedPath, alive_instance. rewrite !wp_bind. eapply wp_deref; [exact Hi|]. rewrite wp_gets, Hn.
    unfold new_shared, alive_instance. wp_read Hi. rewrite !wp_bind. eapply model_ok; [done..|]. apply wp_check; [|done]. intros H%bool_decide_eq_true_1. by rewrite H in Hne. }
  unfold wp in H. destruct (find_or_new t i (Some p) s) as [[?|e|] s']; [done| |done]. destruct H as [-> ->]. done.
Qed.

(** * Lists of instances *)

Lemma follows_nil i : is_Some (instHeap t !! i) -> follows [] i.
Proof. intros [inst Hi]. by exists inst. Qed.
Lemma chain_app l l' : chain (l ++ l') -> chain l.
Proof. induction l' as [|i l' IH] using rev_ind; [by rewrite app_nil_r|]. rewrite app_assoc. intros [H _]%chain_snoc_inv. by apply IH. Qed.
Lemma follows_after k l i : l <> [] -> follows (k ++ l) i <-> follows l i.
Proof. intros Hl. unfold follows. destruct l as [|j l _] using rev_ind; [done|]. by rewrite app_assoc, !last_snoc. Qed.
Lemma chain_tail i l : chain (i :: l) -> chain l.
Proof.
  induction l as [|j l IH] using rev_ind; [constructor|]. change (i :: l ++ [j]) with ((i :: l) ++ [j]). intros [Hc Hf]%chain_snoc_inv. constructor; [by apply IH|].
  destruct l as [|x l]; [|by apply (follows_after [i])]. destruct Hf as (inst & Hi & _). apply follows_nil. by eexists.
Qed.
Lemma chain_alive l i : chain l -> i ∈ l -> is_Some (instHeap t !! i).
Proof.
  induction 1 as [|l j _ IH (inst & Hj & _)]; [by intros ?%not_elem_of_nil|]. intros [Hi|Hi%list_elem_of_singleton]%elem_of_app; [auto|subst; by eexists].
Qed.
Lemma follows_alive l i : follows l i -> is_Some (instHeap t !! i).
Proof. intros (inst & H & _). by eexists. Qed.

(** * The constructors *)

Lemma path_of_instance_ok s i E : paths_wf s -> is_Some (instHeap t !! i) -> wp (path_of_instance t (Some i)) s (made s [i]) E.
Proof.
  intros W Hi. unfold path_of_instance, createInstanceSharedPath. rewrite wp_bind. eapply wp_mono; [apply (find_or_new_ok s None [] i E W); [constructor|by apply follows_nil]| |done].
  cbn beta. intros p s' H. by rewrite wp_ret.
Qed.
Lemma path_snoc_ok s h l i E : paths_wf s -> spells s h l -> follows l i -> wp (path_snoc t h (Some i)) s (made s (l ++ [i])) E.
Proof.
  intros W Hl Hf. unfold path_snoc.
  assert (Hdone : wp (p ← find_or_new t i h; mret (Some p)) s (made s (l ++ [i])) E).
  { rewrite wp_bind. eapply wp_mono; [by apply find_or_new_ok| |done]. cbn beta. intros p s' H. by rewrite wp_ret. }
  destruct h as [h|]; [|by apply spells_None in Hl as ->].
  destruct (id Hf) as (inst & Hi & Hlast). destruct (spells_Some _ _ _ Hl) as (v & l' & Hh & _ & ->). rewrite last_snoc in Hlast. destruct Hlast as (J & HJ & Hm).
  rewrite wp_bind. eapply model_ok; [done|exact Hl|by rewrite last_snoc|done|]. unfold alive_instance. wp_read Hi. rewrite wp_bind. apply wp_check; [done|].
  by rewrite Hm, bool_decide_true.
Qed.
Lemma path_snoc_refuses s p l j J i inst : paths_wf s -> spells s (Some p) l -> last l = Some j -> instHeap t !! j = Some J -> instHeap t !! i = Some inst ->
  model_ (h_extra J) <> h_design inst -> path_snoc t (Some p) (Some i) s = (Throw "Cannot create SNLPath with incompatible headPath", s).
Proof.
  intros W Hl Hj HJ Hi Hne.
  assert (H : wp (path_snoc t (Some p) (Some i)) s (fun _ _ => False) (fun e s' => e = "Cannot create SNLPath with incompatible headPath"%string /\ s' = s)).
  { unfold path_snoc, alive_instance. rewrite wp_bind. eapply model_ok; [done..|]. wp_read Hi. rewrite wp_bind. apply wp_check; [|done]. intros H%bool_decide_eq_true_1. by rewrite H in Hne. }
  unfold wp in H. destruct (path_snoc t (Some p) (Some i) s) as [[?|e|] s']; [done| |done]. destruct H as [-> ->]. done.
Qed.
Lemma made_trans s1 s2 s3 l l' p q : made s1 l p s2 -> (forall h, spells s1 h l' -> exists h', spells s1 h' l) -> made s2 l' q s3 -> made s1 l' q s3.
Proof.
  intros (W2 & Hs2 & Hp & Hn) Hpre (W3 & Hs3 & Hq & Hn'). split; [done|]. split; [by etransitivity|]. split; [done|].
  intros h Hh. destruct (Hpre h Hh) as [h' Hh']. assert (E : s2 = s1) by by eapply Hn. subst s2. by eapply Hn'.
Qed.
Lemma spells_prefix s p l i : spells s p (l ++ [i]) -> exists h, spells s h l.
Proof. intros (q & h & _ & _ & H)%spells_snoc_inv. by exists h. Qed.

Lemma path_cons_fuel_ok fuel s i q l E : paths_wf s -> spells s q l -> chain (i :: l) -> (length l < fuel)%nat ->
  wp (path_cons_fuel t fuel i q) s (made s (i :: l)) E.
Proof.
  intros W. revert s q l W. induction fuel as [|fuel IH]; intros s q l W Hq Hc Hf; [lia|]. cbn [path_cons_fuel]. destruct q as [q|].
  - destruct (spells_Some _ _ _ Hq) as (v & l' & Hv & Hl' & ->). unfold the_shared. wp_read Hv. rewrite wp_bind. rewrite length_app in Hf. cbn in Hf.
    change (i :: l' ++ [tailInstance_ v]) with ((i :: l') ++ [tailInstance_ v]) in *. destruct (chain_snoc_inv _ _ Hc) as [Hc' Hfol].
    eapply wp_mono; [apply (IH s _ l' W Hl' Hc'); lia| |done]. cbn beta. intros h s' Hm. destruct (id Hm) as (W' & _ & Hh & _).
    rewrite wp_bind. eapply wp_mono; [by apply find_or_new_ok| |done]. cbn beta. intros p s'' Hm'. rewrite wp_ret. eapply made_trans; [exact Hm| |exact Hm'].
    intros x Hx. by eapply spells_prefix.
  - apply spells_None in Hq as ->. unfold createInstanceSharedPath. rewrite wp_bind.
    eapply wp_mono; [apply (find_or_new_ok s None [] i E W); [constructor|]|cbn beta; intros p s' H; by rewrite wp_ret|done].
    apply follows_nil. eapply chain_alive; [exact Hc|]. left.
Qed.
Lemma path_cons_ok s i q l E : paths_wf s -> spells s q l -> chain (i :: l) -> wp (path_cons t (Some i) q) s (made s (i :: l)) E.
Proof.
  intros W Hq Hc. unfold path_cons, enough. rewrite wp_bind, wp_gets. apply path_cons_fuel_ok; [done..|]. pose proof (spells_length s W _ _ Hq). lia.
Qed.
Lemma path_extend_ok k s p l E : paths_wf s -> spells s p l -> chain (l ++ k) -> wp (path_extend t p k) s (made s (l ++ k)) E.
Proof.
  revert s p l. induction k as [|i k IH]; intros s p l W Hp Hc; cbn [path_extend].
  - rewrite wp_ret, app_nil_r. by apply made_there.
  - change (l ++ i :: k) with (l ++ [i] ++ k) in *. rewrite app_assoc in *. rewrite wp_bind. destruct (chain_snoc_inv _ _ (chain_app _ _ Hc)) as [_ Hf].
    eapply wp_mono; [by apply path_snoc_ok| |done]. cbn beta. intros q s' Hm. destruct (id Hm) as (W' & _ & Hq & _).
    eapply wp_mono; [by apply IH| |done]. cbn beta. intros r s'' Hm'. eapply made_trans; [exact Hm| |exact Hm'].
    intros x Hx. clear -Hx. remember (l ++ [i]) as m. clear Heqm. revert x Hx. induction k as [|j k IHk] using rev_ind; intros x Hx; [rewrite app_nil_r in Hx; by exists x|].
    rewrite app_assoc in Hx. destruct (spells_prefix _ _ _ _ Hx) as [y Hy]. by eapply IHk.
Qed.

(** * The getters *)

Lemma headInstance_ok fuel s p i l E : spells s (Some p) (i :: l) -> (length l < fuel)%nat -> wp (shared_getHeadInstance fuel p) s (fun r s' => r = i /\ s' = s) E.
Proof.
  revert p l. induction fuel as [|fuel IH]; intros p l Hp Hf; [lia|]. cbn [shared_getHeadInstance].
  destruct (spells_Some _ _ _ Hp) as (v & l' & Hv & Hl' & El). unfold the_shared. wp_read Hv. destruct l' as [|i' l'].
  - apply spells_empty in Hl' as ->. rewrite wp_ret. by injection El as -> _.
  - injection El as -> ->. rewrite length_app in Hf. cbn in Hf. destruct (headSharedPath_ v) as [h|] eqn:Eh; [|by apply spells_None in Hl']. apply (IH h l'); [done|lia].
Qed.
Lemma tailPath_ok fuel s p i l E : paths_wf s -> spells s (Some p) (i :: l) -> (length l < fuel)%nat -> wp (shared_getTailSharedPath t fuel p) s (made s l) E.
Proof.
  revert s p l. induction fuel as [|fuel IH]; intros s p l W Hp Hf; [lia|]. cbn [shared_getTailSharedPath].
  pose proof (spells_chain s W _ _ Hp) as Hc. destruct (spells_Some _ _ _ Hp) as (v & l' & Hv & Hl' & El). unfold the_shared. wp_read Hv. destruct l' as [|i' l'].
  - apply spells_empty in Hl' as ->. rewrite wp_ret. injection El as _ ->. apply made_there; [done|constructor].
  - injection El as -> ->. rewrite length_app in Hf. cbn in Hf. destruct (headSharedPath_ v) as [h|] eqn:Eh; [|by apply spells_None in Hl'].
    rewrite wp_bind. eapply wp_mono; [apply (IH s h l' W); [done|lia]| |done]. cbn beta. intros h' s' Hm. destruct (id Hm) as (W' & _ & Hh' & _).
    rewrite wp_bind. eapply wp_mono; [apply find_or_new_ok; [done..|]| |done].
    + apply chain_tail in Hc. by apply chain_snoc_inv in Hc as [_ Hf'].
    + cbn beta. intros p' s'' Hm'. rewrite wp_ret. eapply made_trans; [exact Hm| |exact Hm']. intros x Hx. by eapply spells_prefix.
Qed.
Lemma getInstances_ok fuel s p l E : spells s (Some p) l -> (length l <= fuel)%nat -> wp (shared_getInstances fuel p) s (fun r s' => r = l /\ s' = s) E.
Proof.
  revert p l. induction fuel as [|fuel IH]; intros p l Hp Hf; destruct (spells_Some _ _ _ Hp) as (v & l' & Hv & Hl' & ->); rewrite length_app in Hf; cbn in Hf; [lia|].
  cbn [shared_getInstances]. unfold the_shared. wp_read Hv. destruct (headSharedPath_ v) as [h|] eqn:Eh; [|by apply spells_None in Hl' as ->].
  rewrite wp_bind. eapply wp_mono; [apply IH; [done|lia]| |done]. cbn beta. by intros ? ? [-> ->].
Qed.
Lemma size_ok fuel s p l E : spells s (Some p) l -> (length l <= fuel)%nat -> wp (shared_size fuel p) s (fun r s' => r = length l /\ s' = s) E.
Proof.
  revert p l. induction fuel as [|fuel IH]; intros p l Hp Hf; destruct (spells_Some _ _ _ Hp) as (v & l' & Hv & Hl' & ->); rewrite length_app in Hf |- *; cbn in Hf; [lia|].
  cbn [shared_size]. unfold the_shared. wp_read Hv. destruct (headSharedPath_ v) as [h|] eqn:Eh; [|by apply spells_None in Hl' as ->].
  rewrite wp_bind. eapply wp_mono; [apply IH; [done|lia]| |done]. cbn beta. intros ? ? [-> ->]. rewrite wp_ret. cbn. split; [lia|done].
Qed.
Lemma path_size_ok s p l E : paths_wf s -> spells s p l -> wp (path_size p) s (fun r s' => r = length l /\ s' = s) E.
Proof.
  intros W Hp. unfold path_size, enough. destruct p as [p|]; [|by apply spells_None in Hp as ->]. rewrite wp_bind, wp_gets. apply size_ok; [done|].
  pose proof (spells_length s W _ _ Hp). lia.
Qed.
Lemma getDesign_ok fuel s p i inst l E : paths_wf s -> spells s (Some p) (i :: l) -> instHeap t !! i = Some inst -> (length l < fuel)%nat ->
  wp (shared_getDesign t fuel p) s (fun r s' => r = h_design inst /\ s' = s) E.
Proof.
  intros W. revert p l. induction fuel as [|fuel IH]; intros p l Hp Hi Hf; [lia|]. cbn [shared_getDesign].
  destruct (spells_Some _ _ _ Hp) as (v & l' & Hv & Hl' & El). destruct (spells_tail_alive s p v l' W Hv Hl') as [J HJ]. unfold the_shared, alive_instance. wp_read Hv. wp_read HJ.
  destruct l' as [|i' l'].
  - apply spells_empty in Hl' as ->. rewrite wp_ret. injection El as -> _. split; [congruence|done].
  - injection El as -> ->. rewrite length_app in Hf. cbn in Hf. destruct (headSharedPath_ v) as [h|] eqn:Eh; [|by apply spells_None in Hl']. apply (IH h l'); [done..|lia].
Qed.
Lemma describe_ok {A} (field : SNLInstance -> A) fuel s p l E : paths_wf s -> spells s p l -> (length l < fuel)%nat ->
  wp (path_describe t field fuel p) s (fun r s' => paths_wf s' /\ pathHeap s ⊆ pathHeap s' /\ Forall2 (fun a i => exists inst, instHeap t !! i = Some inst /\ a = field inst) r l) E.
Proof.
  revert s p l. induction fuel as [|fuel IH]; intros s p l W Hp Hf; [lia|]. cbn [path_describe]. destruct p as [p|]; [|apply spells_None in Hp as ->; rewrite wp_ret; by split_and!].
  destruct l as [|i l]; [apply spells_empty in Hp; discriminate Hp|]. cbn in Hf. pose proof (spells_length s W _ _ Hp) as Hn. cbn in Hn.
  unfold enough. rewrite wp_bind, wp_gets, wp_bind. eapply wp_mono; [apply (headInstance_ok _ s p i l); [exact Hp|lia]| |done]. cbn beta. intros r s' [-> ->].
  destruct (chain_alive _ i (spells_chain s W _ _ Hp)) as [inst Hi]; [left|]. unfold alive_instance. wp_read Hi.
  rewrite wp_bind. eapply wp_mono; [apply (tailPath_ok _ s p i l); [done|exact Hp|lia]| |done]. cbn beta. intros p' s' (W' & Hsub & Hp' & _).
  rewrite wp_bind. eapply wp_mono; [apply (IH s' p' l W' Hp'); lia| |done]. cbn beta. intros r s'' (W'' & Hsub' & Hr). rewrite wp_ret.
  split; [done|]. split; [by etransitivity|]. constructor; [by exists inst|done].
Qed.

(** * Descriptors *)

(** The instances named are those of a chain that starts in design [d]. *)
Lemma find_instances_ok {A} (find : loc -> A -> outcome (option loc)) (named : A -> loc -> Prop) s l descriptor d E :
  (forall a i inst, named a i -> instHeap t !! i = Some inst -> find (h_design inst) a = Ret (Some i)) ->
  chain l -> (forall i inst, head l = Some i -> instHeap t !! i = Some inst -> h_design inst = d) -> Forall2 named descriptor l ->
  wp (find_instances t find d descriptor) s (fun r s' => r = l /\ s' = s) E.
Proof.
  intros Hfind Hc Hd H. revert d Hd Hc. induction H as [|a i descriptor l Ha _ IH]; intros d Hd Hc; cbn [find_instances]; [done|].
  destruct (chain_alive _ i Hc) as [inst Hi]; [left|]. rewrite wp_bind. rewrite <- (Hd i inst eq_refl Hi).
  assert (Hf : find (h_design inst) a = Ret (Some i)) by by apply Hfind. unfold wp at 1. rewrite Hf. unfold alive_instance. wp_read Hi. rewrite wp_bind.
  eapply wp_mono; [apply IH| |done]; [|by apply (chain_tail i)|cbn beta; by intros ? ? [-> ->]].
  intros j J Hj HJ. destruct l as [|j' l]; [done|]. injection Hj as ->. change (i :: j :: l) with ([i] ++ [j] ++ l) in Hc. rewrite app_assoc in Hc.
  apply chain_app in Hc. apply chain_snoc_inv in Hc as [_ (J' & HJ' & K & HK & Hm)]. cbn in HK. simplify_eq. congruence.
Qed.
Lemma path_of_descriptor_ok {A} (find : loc -> A -> outcome (option loc)) (named : A -> loc -> Prop) s l descriptor d E : paths_wf s ->
  (forall a i inst, named a i -> instHeap t !! i = Some inst -> find (h_design inst) a = Ret (Some i)) ->
  chain l -> (forall i inst, head l = Some i -> instHeap t !! i = Some inst -> h_design inst = d) -> Forall2 named descriptor l ->
  wp (path_of_descriptor t find (Some d) descriptor) s (made s l) E.
Proof.
  intros W Hfind Hc Hd H. unfold path_of_descriptor. destruct descriptor as [|a descriptor]; [inversion H; subst; rewrite wp_ret; by apply made_there; [|constructor]|].
  rewrite wp_bind. eapply wp_mono; [by apply (find_instances_ok find named)| |done]. cbn beta. intros r s' [-> ->].
  exact (path_extend_ok l s None [] E W (spells_nil s) Hc).
Qed.
End steps.

(** * Paths as a state machine *)

Inductive path_operation :=
| OfInstance (i : option loc) | Cons (i : option loc) (tail : SNLPath) | Snoc (head : SNLPath) (i : option loc)
| OfIDs (top : option loc) (ids : list Z) | OfNames (top : option loc) (names : list Z)
| TailOf (p : SNLPath) | HeadOf (p : SNLPath) | Describe (p : SNLPath).

Definition handle (s : paths) (p : SNLPath) : Prop := forall q, p = Some q -> is_Some (pathHeap s !! q).

Section runs.
Context (t : structure) (W : struct_wf t).

Definition run_path (o : path_operation) : on_paths SNLPath :=
  match o with
  | OfInstance i => path_of_instance t i
  | Cons i tail => path_cons t i tail
  | Snoc head i => path_snoc t head i
  | OfIDs top ids => path_of_ids t top ids
  | OfNames top names => path_of_names t top names
  | TailOf p => path_getTailPath t p
  | HeadOf p => path_getHeadPath p
  | Describe p => _ ← path_getIDDescriptor t p; mret p
  end.
(** Pointers are to paths and instances that are there, or null. *)
Definition there (i : option loc) : Prop := forall j, i = Some j -> is_Some (instHeap t !! j).
Definition allowed_path (o : path_operation) (s : paths) : Prop :=
  match o with
  | OfInstance i => there i
  | Cons i p | Snoc p i => there i /\ handle s p
  | OfIDs _ _ | OfNames _ _ => True
  | TailOf p | HeadOf p | Describe p => handle s p
  end.
Definition no_paths : paths := mkPaths ∅ ∅ 1%positive.
Inductive reachable_paths : paths -> Prop :=
| reachable_none : reachable_paths no_paths
| reachable_path s o : reachable_paths s -> allowed_path o s -> reachable_paths (run_path o s).2.

(** * Handles *)

Lemma handle_spells s p : paths_wf t s -> handle s p -> exists l, spells s p l /\ chain t l.
Proof.
  intros Ws Hp. destruct p as [q|]; [|exists []; split; constructor].
  destruct (spells_total t s Ws q (Hp q eq_refl)) as (l & Hl & Hc & _). by exists l.
Qed.
Lemma spells_handle s p l : spells s p l -> handle s p.
Proof. intros H q ->. apply spells_Some in H as (v & _ & Hv & _). by eexists. Qed.
Lemma handle_mono s s' p : pathHeap s ⊆ pathHeap s' -> handle s p -> handle s' p.
Proof. intros Hs H q Hq. destruct (H q Hq) as [v Hv]. exists v. by eapply lookup_weaken. Qed.

(** * What operations keep *)

Definition keeps (s : paths) (m : on_paths SNLPath) : Prop :=
  wp m s (fun p s' => paths_wf t s' /\ pathHeap s ⊆ pathHeap s' /\ handle s' p) (fun _ s' => paths_wf t s' /\ pathHeap s ⊆ pathHeap s').
Lemma made_keeps s l p s' : made t s l p s' -> paths_wf t s' /\ pathHeap s ⊆ pathHeap s' /\ handle s' p.
Proof. intros (H1 & H2 & H3 & _). split_and!; [done..|by eapply spells_handle]. Qed.
Lemma keeps_ret s p : paths_wf t s -> handle s p -> keeps s (mret p).
Proof. intros Ws Hp. unfold keeps. by rewrite wp_ret. Qed.
Lemma keeps_throw s e : paths_wf t s -> keeps s (throw e).
Proof. intros Ws. unfold keeps. by rewrite wp_throw. Qed.
Lemma keeps_bind s (m : on_paths SNLPath) f : keeps s m -> (forall p s', paths_wf t s' -> pathHeap s ⊆ pathHeap s' -> handle s' p -> keeps s' (f p)) -> keeps s (m ≫= f).
Proof.
  unfold keeps. intros Hm Hf. rewrite wp_bind. eapply wp_mono; [exact Hm| |done]. cbn beta. intros p s' (Ws & Hs & Hp).
  eapply wp_mono; [by apply Hf| |]; cbn beta; intros; destruct_and?; split_and?; try done; by etransitivity.
Qed.
Lemma follows_dec l i : is_Some (instHeap t !! i) -> Forall (fun j => is_Some (instHeap t !! j)) l ->
  follows t l i \/ exists j J inst, last l = Some j /\ instHeap t !! j = Some J /\ instHeap t !! i = Some inst /\ model_ (h_extra J) <> h_design inst.
Proof.
  intros [inst Hi] Hl. destruct (last l) as [j|] eqn:Ej; [|left; exists inst; by rewrite Ej].
  destruct (proj1 (Forall_forall _ _) Hl j (last_Some_elem_of _ _ Ej)) as [J HJ].
  destruct (decide (model_ (h_extra J) = h_design inst)) as [He|Hne]; [left; exists inst; rewrite Ej; eauto|right; by exists j, J, inst].
Qed.
Lemma chain_all_there l : chain t l -> Forall (fun j => is_Some (instHeap t !! j)) l.
Proof. intros H. apply Forall_forall. intros i Hi. by eapply chain_alive. Qed.
Lemma not_follows_shared s p l i : paths_wf t s -> spells s p l -> ~ follows t l i -> shared_of s i !! p = None.
Proof.
  intros Ws Hp Hf. destruct (shared_of s i !! p) as [q|] eqn:E; [|done]. apply (pw_shared _ _ Ws) in E. destruct Hf. exact (pw_follows _ _ Ws _ _ _ E Hp).
Qed.
Lemma find_or_new_refuses s p l i : paths_wf t s -> spells s p l -> is_Some (instHeap t !! i) -> ~ follows t l i ->
  find_or_new t i p s = (Throw "Cannot construct Path with incompatible headPath", s).
Proof.
  intros Ws Hp Hi Hf. destruct (follows_dec l i Hi) as [H|(j & J & inst & Hj & HJ & Hinst & Hne)]; [by eapply chain_all_there, spells_chain|done|].
  destruct p as [p|]; [|by apply spells_None in Hp as ->]. eapply new_shared_refuses; [done..|]. by eapply not_follows_shared.
Qed.
Lemma find_or_new_keeps s p i : paths_wf t s -> handle s p -> is_Some (instHeap t !! i) -> keeps s (q ← find_or_new t i p; mret (Some q)).
Proof.
  intros Ws Hp Hi. destruct (handle_spells s p Ws Hp) as (l & Hl & Hc). unfold keeps. rewrite wp_bind.
  destruct (follows_dec l i Hi (chain_all_there l Hc)) as [Hf|(j & J & inst & Hj & HJ & Hinst & Hne)].
  - eapply wp_mono; [by apply (find_or_new_ok t s p l i (fun _ _ => False))| |done]. cbn beta. intros q s' Hm. rewrite wp_ret. by eapply made_keeps.
  - assert (Hf : ~ follows t l i) by (intros (inst' & Hi' & Hl'); rewrite Hj in Hl'; destruct Hl' as (J' & ? & ?); congruence).
    unfold wp. by rewrite (find_or_new_refuses s p l i Ws Hl Hi Hf).
Qed.
Lemma path_snoc_keeps s p i : paths_wf t s -> handle s p -> there i -> keeps s (path_snoc t p i).
Proof.
  intros Ws Hp Hi. unfold path_snoc. destruct i as [i|]; [|by apply keeps_throw]. specialize (Hi i eq_refl). destruct p as [p|]; [|by apply find_or_new_keeps].
  destruct (handle_spells s _ Ws Hp) as (l & Hl & Hc). destruct (spells_Some _ _ _ Hl) as (v & l' & Hv & Hl' & ->).
  destruct (spells_tail_alive t _ _ _ _ Ws Hv Hl') as [J HJ]. destruct (id Hi) as [inst Hinst].
  unfold keeps. rewrite wp_bind. eapply (model_ok t); [done|exact Hl|by rewrite last_snoc|exact HJ|]. unfold alive_instance. wp_read Hinst.
  rewrite wp_bind. apply wp_check; [|done]. intros _. by apply find_or_new_keeps.
Qed.
Lemma path_extend_keeps l : forall s p, paths_wf t s -> handle s p -> Forall (fun j => is_Some (instHeap t !! j)) l -> keeps s (path_extend t p l).
Proof.
  induction l as [|i l IH]; intros s p Ws Hp Hl; cbn [path_extend]; [by apply keeps_ret|]. apply Forall_cons in Hl as [Hi Hl].
  apply keeps_bind; [apply path_snoc_keeps; [done..|by intros j [= ->]]|]. intros. by apply IH.
Qed.
Lemma find_instances_keeps {A} (find : loc -> A -> outcome (option loc)) ds : (forall d a, find d a <> Undef) -> (forall d a i, find d a = Ret (Some i) -> is_Some (instHeap t !! i)) ->
  forall s d, wp (find_instances t find d ds) s (fun l s' => s' = s /\ Forall (fun j => is_Some (instHeap t !! j)) l) (fun _ s' => s' = s).
Proof.
  intros Hu Hs. induction ds as [|a ds IH]; intros s d; cbn [find_instances]; [by rewrite wp_ret|]. rewrite wp_bind. unfold wp at 1.
  specialize (Hu d a). destruct (find d a) as [[i|]|e|] eqn:Ef; [|done..]. destruct (Hs _ _ _ Ef) as [inst Hi]. unfold alive_instance. wp_read Hi.
  rewrite wp_bind. eapply wp_mono; [apply IH| |done]. cbn beta. intros l s' [-> Hl]. rewrite wp_ret. split; [done|]. constructor; [by eexists|done].
Qed.
Lemma path_of_descriptor_keeps {A} (find : loc -> A -> outcome (option loc)) s top ds : paths_wf t s ->
  (forall d a, find d a <> Undef) -> (forall d a i, find d a = Ret (Some i) -> is_Some (instHeap t !! i)) -> keeps s (path_of_descriptor t find top ds).
Proof.
  intros Ws Hu Hs. unfold path_of_descriptor. destruct top as [d|]; [|by apply keeps_ret]. destruct ds as [|a ds]; [by apply keeps_ret|].
  unfold keeps. rewrite wp_bind. eapply wp_mono; [by apply find_instances_keeps| |by intros e s' ->]. cbn beta. intros l s' [-> Hl]. by apply path_extend_keeps.
Qed.
Lemma instance_found d id i : getInstance t d id = Some i -> exists inst, instHeap t !! i = Some inst /\ h_design inst = d /\ h_id inst = id.
Proof.
  unfold getInstance. intros H. apply bind_Some in H as (r & Hr & H). apply (find_by_id_spec (ow_registry _ _ (sw_instances _ _ W) _ _ Hr)) in H as (n & y & o & Hy & Ho & Hd & Hid & _).
  rewrite lookup_fmap in Hy. destruct (instHeap t !! i) as [inst|]; [|done]. injection Hy as <-. injection Ho as <-. by exists inst.
Qed.
Lemma getInstance_there inst i : instHeap t !! i = Some inst -> getInstance t (h_design inst) (h_id inst) = Some i.
Proof.
  intros Hi. destruct (ow_design _ _ (sw_instances _ _ W) i (Scalar inst) inst) as [r Hr]; [by rewrite lookup_fmap, Hi|done|].
  unfold getInstance. rewrite Hr. cbn. apply (find_by_id_spec (ow_registry _ _ (sw_instances _ _ W) _ _ Hr)). exists (h_name inst). exact (instance_owns i inst Hi).
Qed.
Lemma named_instance_found d name i : getInstanceByName t d name = Some i -> is_Some (instHeap t !! i).
Proof.
  unfold getInstanceByName. intros H. apply bind_Some in H as (r & Hr & H). unfold find_by_name in H. destruct (nameIDs r !! name) as [id|]; [|done].
  destruct (instance_found d id i) as (inst & Hi & _); [unfold getInstance; by rewrite Hr|by eexists].
Qed.
Lemma path_cons_fuel_keeps fuel i : is_Some (instHeap t !! i) -> forall s q l, paths_wf t s -> spells s q l -> (length l < fuel)%nat -> keeps s (path_cons_fuel t fuel i q).
Proof.
  intros Hi. induction fuel as [|fuel IH]; intros s q l Ws Hq Hf; [lia|]. cbn [path_cons_fuel]. destruct q as [q|]; [|by apply find_or_new_keeps].
  destruct (spells_Some _ _ _ Hq) as (v & l' & Hv & Hl' & ->). rewrite length_app in Hf. cbn in Hf. unfold keeps, the_shared. wp_read Hv.
  pose proof (spells_tail_alive t _ _ _ _ Ws Hv Hl') as Ht.
  change (keeps s (h ← path_cons_fuel t fuel i (headSharedPath_ v); p ← find_or_new t (tailInstance_ v) h; mret (Some p))).
  apply keeps_bind; [apply (IH s _ l' Ws Hl'); lia|]. intros h s' Ws' _ Hh. by apply find_or_new_keeps.
Qed.

(** What constructors make, and when they refuse. *)
Lemma find_or_new_result s p l i : paths_wf t s -> spells s p l -> is_Some (instHeap t !! i) ->
  wp (find_or_new t i p) s (fun q s' => made t s (l ++ [i]) (Some q) s') (fun _ s' => s' = s /\ ~ chain t (l ++ [i])).
Proof.
  intros Ws Hp Hi. destruct (follows_dec l i Hi) as [Hf|(j & J & inst & Hj & HJ & Hinst & Hne)]; [by eapply chain_all_there, spells_chain|by apply find_or_new_ok|].
  assert (Hf : ~ follows t l i) by (intros (inst' & Hi' & Hl'); rewrite Hj in Hl'; destruct Hl' as (J' & ? & ?); congruence).
  unfold wp. rewrite (find_or_new_refuses s p l i Ws Hp Hi Hf). split; [done|]. by intros [_ ?]%chain_snoc_inv.
Qed.
Lemma path_snoc_result s p l i : paths_wf t s -> spells s p l -> is_Some (instHeap t !! i) ->
  wp (path_snoc t p (Some i)) s (fun q s' => made t s (l ++ [i]) q s') (fun _ s' => s' = s /\ ~ chain t (l ++ [i])).
Proof.
  intros Ws Hp Hi. destruct (follows_dec l i Hi) as [Hf|(j & J & inst & Hj & HJ & Hinst & Hne)]; [by eapply chain_all_there, spells_chain|by apply path_snoc_ok|].
  destruct p as [p|]; [|by apply spells_None in Hp as ->]. unfold wp. rewrite (path_snoc_refuses t s p l j J i inst) by done. split; [done|].
  intros [_ (inst' & Hi' & Hl')]%chain_snoc_inv. rewrite Hj in Hl'. destruct Hl' as (J' & ? & ?). congruence.
Qed.
Lemma path_cons_fuel_result fuel s i q l : is_Some (instHeap t !! i) -> paths_wf t s -> spells s q l -> (length l < fuel)%nat ->
  wp (path_cons_fuel t fuel i q) s (fun p s' => made t s (i :: l) p s') (fun _ _ => ~ chain t (i :: l)).
Proof.
  intros Hi. revert s q l. induction fuel as [|fuel IH]; intros s q l Ws Hq Hf; [lia|]. cbn [path_cons_fuel]. destruct q as [q|].
  - destruct (spells_Some _ _ _ Hq) as (v & l' & Hv & Hl' & ->). rewrite length_app in Hf. cbn in Hf. unfold the_shared. wp_read Hv. rewrite wp_bind.
    pose proof (spells_tail_alive t _ _ _ _ Ws Hv Hl') as Ht.
    eapply wp_mono; [apply (IH s _ l' Ws Hl'); lia| |].
    + cbn beta. intros h s' Hm. destruct (id Hm) as (Ws' & _ & Hh & _). rewrite wp_bind.
      eapply wp_mono; [by apply (find_or_new_result s' h (i :: l'))| |cbn beta; by intros _ s'' [_ H]]. cbn beta. intros p s'' Hm'. rewrite wp_ret.
      eapply made_trans; [exact Hm| |exact Hm']. intros x Hx. by eapply (spells_prefix s x (i :: l')).
    + cbn beta. intros _ _ H Hc. apply H. by apply (chain_app t (i :: l') [tailInstance_ v]).
  - apply spells_None in Hq as ->. unfold createInstanceSharedPath. rewrite wp_bind.
    eapply wp_mono; [apply (find_or_new_result s None [] i Ws); [constructor|done]|cbn beta; intros p s' H; by rewrite wp_ret|cbn beta; by intros _ s' [_ H]].
Qed.
Lemma path_cons_result s i q l : is_Some (instHeap t !! i) -> paths_wf t s -> spells s q l ->
  wp (path_cons t (Some i) q) s (fun p s' => made t s (i :: l) p s') (fun _ _ => ~ chain t (i :: l)).
Proof.
  intros Hi Ws Hq. unfold path_cons, enough. rewrite wp_bind, wp_gets. apply path_cons_fuel_result; [done..|]. pose proof (spells_length t s Ws _ _ Hq). lia.
Qed.

(** No operation is undefined; each one gives a path that is there or throws. *)
Lemma run_path_keeps s o : paths_wf t s -> allowed_path o s -> keeps s (run_path o).
Proof.
  intros Ws Ho. destruct o as [i|i p|p i|top ids|top names|p|p|p]; cbn [run_path allowed_path] in *.
  - unfold path_of_instance. destruct i as [i|]; [|by apply keeps_ret]. by apply find_or_new_keeps; [| |apply Ho].
  - destruct Ho as [Hi Hp]. unfold path_cons. destruct i as [i|]; [|by apply keeps_throw]. unfold keeps, enough. rewrite wp_bind, wp_gets.
    destruct (handle_spells s p Ws Hp) as (l & Hl & _). apply (path_cons_fuel_keeps _ i (Hi i eq_refl) s p l Ws Hl). pose proof (spells_length t s Ws _ _ Hl). lia.
  - destruct Ho as [Hi Hp]. by apply path_snoc_keeps.
  - apply path_of_descriptor_keeps; [done..|]. intros d a i [= H]. destruct (instance_found d a i H) as (inst & Hi & _). by eexists.
  - apply path_of_descriptor_keeps; [done|by intros d a; destruct (a =? 0)|]. intros d a i. destruct (a =? 0); [done|]. intros [= H]. by eapply named_instance_found.
  - unfold path_getTailPath. destruct p as [p|]; [|by apply keeps_ret]. destruct (handle_spells s _ Ws Ho) as (l & Hl & _).
    destruct l as [|i l]; [apply spells_empty in Hl; discriminate Hl|]. unfold keeps, enough. rewrite wp_bind, wp_gets.
    eapply wp_mono; [apply (tailPath_ok t _ s p i l (fun _ _ => False) Ws Hl); pose proof (spells_length t s Ws _ _ Hl) as H; cbn in H; lia| |done]. cbn beta. intros q s'. apply made_keeps.
  - unfold path_getHeadPath. destruct p as [p|]; [|by apply keeps_ret]. destruct (Ho p eq_refl) as [v Hv]. unfold keeps, the_shared. wp_read Hv. rewrite wp_ret.
    split_and!; [done..|]. intros h Hh. by apply (pw_head _ _ Ws _ _ _ Hv Hh).
  - destruct (handle_spells s _ Ws Ho) as (l & Hl & _). unfold path_getIDDescriptor, enough, keeps. rewrite wp_bind, wp_bind, wp_gets.
    eapply wp_mono; [apply (describe_ok t h_id _ s p l (fun _ _ => False) Ws Hl); pose proof (spells_length t s Ws _ _ Hl) as H; lia| |done]. cbn beta. intros r s' (Ws' & Hs & _).
    rewrite wp_ret. split_and!; [done..|]. by eapply handle_mono.
Qed.
Lemma no_paths_wf : paths_wf t no_paths.
Proof.
  split; cbn; try (intros *; by rewrite lookup_empty); intros i h p; unfold shared_of; cbn; rewrite !lookup_empty; cbn; by rewrite lookup_empty.
Qed.
Lemma reachable_paths_wf s : reachable_paths s -> paths_wf t s.
Proof.
  induction 1 as [|s o _ IH Ho]; [exact no_paths_wf|]. pose proof (run_path_keeps s o IH Ho) as H. unfold keeps, wp in H.
  destruct (run_path o s) as [[p|e|] s']; [by apply H|by apply H|done].
Qed.
End runs.
