(* ===== verification/Equipotential.v ===== *)
(** Occurrences, objects at the end of a path, and equipotentials, what is
    connected through the hierarchy (nl/netlist/snl/SNLOccurrence.cpp,
    SNLEquipotential.cpp). *)
From S2P Require Import Prelude NLID Store Bus Contents Connections Interface MergeAssigns Paths.
Local Open Scope Z_scope.

(** * Occurrences *)

Inductive design_object := ANet (n : loc) | AComponent (c : loc) | AnInstance (i : loc).
(** An occurrence of no object is not valid. *)
Record SNLOccurrence := mkOccurrence { path_ : SNLPath; object_ : option design_object }.
#[export] Instance design_object_dec : EqDecision design_object.
Proof. solve_decision. Defined.
#[export] Instance SNLOccurrence_dec : EqDecision SNLOccurrence.
Proof. solve_decision. Defined.

Definition net_getNLID (t : structure) (n : loc) : option NLID :=
  v ← netHeap t !! n; o ← object_header (netHeap t) n; D ← designs t !! h_design o;
  let r := reference_ D in
  Some (match v with
        | Bit _ bit => nlid_object NetBit (ref_db r) (ref_library r) (ref_design r) (h_id o) 0 bit
        | _ => nlid_object Net (ref_db r) (ref_library r) (ref_design r) (h_id o) 0 0
        end).
Definition object_getNLID (t : structure) (x : design_object) : option NLID :=
  match x with ANet n => net_getNLID t n | AComponent c => comp_getNLID t c | AnInstance i => I ← instHeap t !! i; instance_getNLID t I end.
Definition object_design (t : structure) (x : design_object) : option loc :=
  match x with ANet n => net_design t n | AComponent c => comp_design t c | AnInstance i => h_design <$> instHeap t !! i end.

Section occurrences.
Context (t : structure).

(** [SNLOccurrence(path, object)] *)
Definition new_occurrence (p : SNLPath) (x : option design_object) : on_paths SNLOccurrence :=
  (match p, x with
   | Some q, Some x =>
       m ← shared_getModel t q; d ← deref (fun _ => object_design t x);
       check (bool_decide (d = m)) "Incompatible path and object in Occurrence constructor"
   | _, _ => mret tt
   end) ;; mret (mkOccurrence p x).
Definition isNetComponentOccurrence (o : SNLOccurrence) : bool := match object_ o with Some (AComponent _) => true | _ => false end.
Definition isInstanceOccurrence (o : SNLOccurrence) : bool := match object_ o with Some (AnInstance _) => true | _ => false end.
(** [getComponentBitNet], [getComponentBitNetOccurrence] *)
Definition getComponentBitNet (s : netlist) (o : SNLOccurrence) : option loc := match object_ o with Some (AComponent c) => net_ s !! c | _ => None end.
Definition getComponentBitNetOccurrence (s : netlist) (o : SNLOccurrence) : on_paths SNLOccurrence :=
  match getComponentBitNet s o with Some n => new_occurrence (path_ o) (Some (ANet n)) | None => mret (mkOccurrence None None) end.
Definition occurrence_getDesign (o : SNLOccurrence) : on_paths (option loc) :=
  match path_ o with Some _ => path_getDesign t (path_ o) | None => mret (x ← object_ o; object_design t x) end.
Definition occurrence_isValid (o : SNLOccurrence) : bool := negb (is_none (object_ o)).
Definition objectID (x : design_object) : on_paths NLID := deref (fun _ => object_getNLID t x).
Definition occurrence_eq (a b : SNLOccurrence) : on_paths bool :=
  match object_ a, object_ b with
  | None, y => mret (is_none y)
  | Some _, None => mret false
  | Some x, Some y => i ← objectID x; j ← objectID y; mret (nlid_eq i j && path_eq (path_ a) (path_ b))
  end.
Definition occurrence_lt (a b : SNLOccurrence) : on_paths bool :=
  match object_ a, object_ b with
  | None, y => mret (negb (is_none y))
  | Some _, None => mret false
  | Some x, Some y =>
      i ← objectID x; j ← objectID y;
      if nlid_lt i j then mret true else if nlid_eq i j then path_lt t (path_ a) (path_ b) else mret false
  end.

Definition occurrence_le (a b : SNLOccurrence) : on_paths bool := l ← occurrence_lt a b; if l : bool then mret true else occurrence_eq a b.
Definition occurrence_gt (a b : SNLOccurrence) : on_paths bool := l ← occurrence_le a b; mret (negb l).
Definition occurrence_ge (a b : SNLOccurrence) : on_paths bool := l ← occurrence_lt a b; mret (negb l).

(** * Ordered sets of occurrences *)

(** [std::set] is defined when the comparison is a strict weak order on what is in
    the set and what is looked for; two elements neither of which is less are the
    same element. *)
Definition less_now (s : paths) (a b : SNLOccurrence) : bool := match (occurrence_lt a b s).1 with Ret b => b | _ => false end.
Definition strict_weak {A} (lt : A -> A -> bool) (l : list A) : bool :=
  forallb (fun a => negb (lt a a)) l &&
  forallb (fun a => forallb (fun b => negb (lt a b && lt b a)) l) l &&
  forallb (fun a => forallb (fun b => forallb (fun c => negb (lt a b) || lt a c || lt c b) l) l) l.
Definition contains {A} (lt : A -> A -> bool) (x : A) (l : list A) : bool := existsb (fun y => negb (lt x y) && negb (lt y x)) l.
Definition set_find (x : SNLOccurrence) (l : list SNLOccurrence) : on_paths bool :=
  s ← gets (fun s => s); if strict_weak (less_now s) (x :: l) then mret (contains (less_now s) x l) else undef.
End occurrences.

(** * Equipotentials *)

(** The sets are in the order in which elements came. *)
Record extractor := mkExtractor {
  visitedNetOccurrences_ : list SNLOccurrence; instTermOccurrences_ : list SNLOccurrence; equi_terms_ : list loc;
  equi_type_ : net_type; hasDrivingType_ : bool; paths_ : paths }.
Notation extraction := (prog extractor).
Definition set_paths (p : paths) (s : extractor) : extractor :=
  mkExtractor (visitedNetOccurrences_ s) (instTermOccurrences_ s) (equi_terms_ s) (equi_type_ s) (hasDrivingType_ s) p.
Definition add_visited (o : SNLOccurrence) (s : extractor) : extractor :=
  mkExtractor (visitedNetOccurrences_ s ++ [o]) (instTermOccurrences_ s) (equi_terms_ s) (equi_type_ s) (hasDrivingType_ s) (paths_ s).
Definition add_instTerm (o : SNLOccurrence) (s : extractor) : extractor :=
  mkExtractor (visitedNetOccurrences_ s) (instTermOccurrences_ s ++ [o]) (equi_terms_ s) (equi_type_ s) (hasDrivingType_ s) (paths_ s).
Definition add_term (x : loc) (s : extractor) : extractor :=
  mkExtractor (visitedNetOccurrences_ s) (instTermOccurrences_ s) (if bool_decide (x ∈ equi_terms_ s) then equi_terms_ s else equi_terms_ s ++ [x])
    (equi_type_ s) (hasDrivingType_ s) (paths_ s).
Definition merge_type (type : net_type) (acc : net_type * bool) : net_type * bool :=
  if bool_decide (type = NStandard) then acc
  else if negb acc.2 then (type, true) else if bool_decide (acc.1 = type) then acc else (NStandard, acc.2).
Definition add_type (type : net_type) (s : extractor) : extractor :=
  let '(type, driving) := merge_type type (equi_type_ s, hasDrivingType_ s) in
  mkExtractor (visitedNetOccurrences_ s) (instTermOccurrences_ s) (equi_terms_ s) type driving (paths_ s).

(** [SNLNet::Type::isConst0], [isConst1], [isConstX], [isConstZ], of the type of the equipotential. *)
Definition equi_isConst0 (e : extractor) : bool := bool_decide (equi_type_ e = NAssign0) || bool_decide (equi_type_ e = NSupply0).
Definition equi_isConst1 (e : extractor) : bool := bool_decide (equi_type_ e = NAssign1) || bool_decide (equi_type_ e = NSupply1).
Definition equi_isConstX (e : extractor) : bool := bool_decide (equi_type_ e = NAssignX).
Definition equi_isConstZ (e : extractor) : bool := bool_decide (equi_type_ e = NAssignZ).

Inductive mode := Standard | TraverseAssigns.

Section equipotential.
(** [NLDB0::getAssign], the designs that are black boxes, and the netlist. *)
Context (assign : option loc) (blackBoxes : gset loc) (mode_ : mode) (s0 : netlist).
#[local] Notation t := (str s0).

Definition with_paths {A} (m : on_paths A) : extraction A := fun s => let '(r, p) := m (paths_ s) in (r, set_paths p s).
(** [SNLInstance::isLeaf] *)
Definition isLeaf (i : loc) : outcome bool :=
  match instHeap t !! i with
  | Some inst =>
      let m := model_ (h_extra inst) in
      match designs t !! m with Some D => Ret (bool_decide (m ∈ blackBoxes) || primitive_ D) | None => Undef end
  | None => Undef
  end.
Definition pure_outcome {A} (o : outcome A) : extraction A := fun s => (o, s).
Definition instTerm_of (i : loc) (x : option loc) : extraction (option loc) := pure_outcome (getInstTerm i x s0).1.
Definition getBitTerms_of (n : loc) : list loc := List.filter (fun c => is_none (instTermHeap t !! c)) (getComponents s0 n).
Definition is_traversed (i : loc) : bool := match mode_ with TraverseAssigns => isAssign assign t i | Standard => false end.

Section again.
(** [extractNetFromNetComponentOccurrence], which is called again. *)
Context (extractNet : SNLOccurrence -> bool -> extraction unit).

Definition visit_instTerm (p : SNLPath) (component : loc) (v : SNLInstTerm) : extraction unit :=
  leaf ← pure_outcome (isLeaf (instance_ v));
  if leaf : bool then
    if is_traversed (instance_ v) then
      let oppositeTerm := if bool_decide (Some (bitTerm_ v) = getAssignInput assign t) then getAssignOutput assign t else getAssignInput assign t in
      it ← instTerm_of (instance_ v) oppositeTerm;
      o ← with_paths (new_occurrence t p (AComponent <$> it)); extractNet o false
    else
      o ← with_paths (new_occurrence t p (Some (AComponent component)));
      l ← gets instTermOccurrences_; b ← with_paths (set_find t o l); if b : bool then mret tt else modify (add_instTerm o)
  else
    p' ← with_paths (path_snoc t p (Some (instance_ v)));
    o ← with_paths (new_occurrence t p' (Some (AComponent (bitTerm_ v)))); extractNet o false.
Definition visit_term (p : SNLPath) (n component : loc) : extraction unit :=
  if path_empty p then modify (add_term component)
  else for_each (fun term =>
    parentPath ← with_paths (path_getHeadPath p);
    instance ← with_paths (path_getTailInstance p);
    match instance with
    | None => undef
    | Some i => it ← instTerm_of i (Some term); o ← with_paths (new_occurrence t parentPath (AComponent <$> it)); extractNet o false
    end) (getBitTerms_of n).
Definition visit_component (p : SNLPath) (n : loc) (from : SNLOccurrence) (start : bool) (component : loc) : extraction unit :=
  if negb start && bool_decide (Some (AComponent component) = object_ from) then mret tt
  else match instTermHeap t !! component with Some v => visit_instTerm p component v | None => visit_term p n component end.
(** [extractNetComponentsFromNetOccurrence] *)
Definition extractComponents (net from : SNLOccurrence) (start : bool) : extraction unit :=
  l ← gets visitedNetOccurrences_;
  b ← with_paths (set_find t net l);
  if b : bool then mret tt
  else
    modify (add_visited net) ;;
    match object_ net with
    | Some (ANet n) => modify (add_type (getType s0 n)) ;; for_each (visit_component (path_ net) n from start) (getComponents s0 n)
    | _ => undef
    end.
Definition extractNet_ (component : SNLOccurrence) (start : bool) : extraction unit :=
  net ← with_paths (getComponentBitNetOccurrence t s0 component);
  if occurrence_isValid net then extractComponents net component start else mret tt.
End again.

Fixpoint extractNet (fuel : nat) (component : SNLOccurrence) (start : bool) : extraction unit :=
  match fuel with O => undef | S fuel => extractNet_ (extractNet fuel) component start end.
(** [SNLEquipotential(netComponentOccurrence, mode)] *)
Definition equipotential (fuel : nat) (component : SNLOccurrence) (p : paths) : outcome unit * extractor :=
  extractNet fuel component true (mkExtractor [] [] [] NStandard false p).
End equipotential.
