(* ===== verification/OccurrenceOrder.v ===== *)
(** The order of paths and occurrences, on what they stand for: lists of
    instances, and objects at the end of them. Ordered sets of occurrences are
    sets when the order is one on their elements. *)
From S2P Require Import Prelude NLID Store Bus Contents Connections Interface InterfaceSteps NetlistRuns Paths PathSteps Equipotential.
Local Open Scope Z_scope.
#[local] Arguments nlid_lt : simpl never.
#[local] Arguments nlid_eq : simpl never.

(** A list of instances and an object of the model of the last one. *)
Definition place : Type := list loc * design_object.

(** * The comparisons *)

Section order.
Context (t : structure).

Definition instance_less (i j : loc) : bool :=
  match instHeap t !! i ≫= instance_getNLID t, instHeap t !! j ≫= instance_getNLID t with
  | Some a, Some b => nlid_lt a b
  | _, _ => false
  end.
(** One list is shorter, or at one position its instance is less. *)
Definition path_less (l l' : list loc) : bool :=
  if negb (length l =? length l')%nat then (length l <? length l')%nat
  else existsb (fun p => instance_less p.1 p.2) (zip l l').
Definition place_lt (a b : place) : bool :=
  match object_getNLID t a.2, object_getNLID t b.2 with
  | Some i, Some j => nlid_lt i j || nlid_eq i j && path_less a.1 b.1
  | _, _ => false
  end.
(** What an occurrence stands for. *)
Definition denotes (s : paths) (o : SNLOccurrence) (a : place) : Prop := spells s (path_ o) a.1 /\ object_ o = Some a.2.

Context (W : struct_wf t).

Lemma instance_has_NLID i : is_Some (instHeap t !! i) -> is_Some (instHeap t !! i ≫= instance_getNLID t).
Proof. intros [I Hi]. rewrite Hi. cbn. unfold instance_getNLID. destruct (instance_design W _ _ Hi) as [D ->]. by eexists. Qed.

Lemma shared_lt_ok fuel s p q l l' E : paths_wf t s -> spells s p l -> spells s q l' -> length l = length l' -> (length l < fuel)%nat ->
  wp (shared_lt t fuel p q) s (fun r s' => s' = s /\ r = existsb (fun p => instance_less p.1 p.2) (zip l l')) E.
Proof.
  intros Wp. revert p q l l'. induction fuel as [|fuel IH]; intros p q l l' Hp Hq Hlen Hf; [lia|]. cbn [shared_lt].
  destruct p as [p|]; [|by apply spells_None in Hp as ->]. destruct (spells_Some _ _ _ Hp) as (v & k & Hv & Hk & ->). rewrite length_app in Hlen, Hf. cbn in Hlen, Hf.
  destruct q as [q|]; [|apply spells_None in Hq as ->; cbn in Hlen; lia]. destruct (spells_Some _ _ _ Hq) as (w & k' & Hw & Hk' & ->). rewrite length_app in Hlen. cbn in Hlen.
  destruct (spells_tail_alive _ _ _ _ _ Wp Hv Hk) as [I HI]. destruct (spells_tail_alive _ _ _ _ _ Wp Hw Hk') as [J HJ].
  destruct (instance_has_NLID (tailInstance_ v)) as [a Ha]; [by eexists|]. destruct (instance_has_NLID (tailInstance_ w)) as [b Hb]; [by eexists|].
  assert (Ez : zip (k ++ [tailInstance_ v]) (k' ++ [tailInstance_ w]) = zip k k' ++ [(tailInstance_ v, tailInstance_ w)]) by (rewrite zip_with_app by lia; done).
  assert (El : instance_less (tailInstance_ v) (tailInstance_ w) = nlid_lt a b) by (unfold instance_less; by rewrite Ha, Hb).
  rewrite Ez, existsb_app. cbn. rewrite El, orb_false_r. rewrite HI in Ha. rewrite HJ in Hb. cbn in Ha, Hb.
  unfold the_shared, alive_instance. wp_read Hv. wp_read Hw. wp_read HI. wp_read HJ. wp_read Ha. wp_read Hb.
  destruct (nlid_lt a b); [by rewrite orb_true_r|]. rewrite orb_false_r. apply IH; [done..|lia|lia].
Qed.
Lemma path_lt_ok s p q l l' E : paths_wf t s -> spells s p l -> spells s q l' -> wp (path_lt t p q) s (fun r s' => s' = s /\ r = path_less l l') E.
Proof.
  intros Wp Hp Hq. unfold path_lt. destruct p as [p|].
  - destruct q as [q|].
    + rewrite wp_bind. eapply wp_mono; [by apply (path_size_ok t)| |done]. cbn beta. intros ? ? [-> ->].
      rewrite wp_bind. eapply wp_mono; [by apply (path_size_ok t)| |done]. cbn beta. intros ? ? [-> ->]. unfold path_less.
      destruct (length l =? length l')%nat eqn:En; cbn [negb]; [|done]. apply Nat.eqb_eq in En. unfold enough. rewrite wp_bind, wp_gets.
      apply shared_lt_ok; [done..|]. by apply (spells_length t s Wp (Some p)).
    + apply spells_None in Hq as ->. apply spells_Some in Hp as (v & k & _ & _ & ->). rewrite wp_ret. split; [done|]. unfold path_less. rewrite length_app. cbn.
      destruct (length k + 1)%nat eqn:En; [lia|done].
  - apply spells_None in Hp as ->. rewrite wp_ret. split; [done|]. destruct q as [q|]; [|by apply spells_None in Hq as ->].
    apply spells_Some in Hq as (v & k & _ & _ & ->). unfold path_less. rewrite length_app. cbn. by destruct (length k + 1)%nat eqn:En; [lia|].
Qed.

(** Paths and objects that are not less either way are the same. *)
Lemma instance_less_total i j : is_Some (instHeap t !! i) -> is_Some (instHeap t !! j) -> instance_less i j = false -> instance_less j i = false -> i = j.
Proof.
  intros Hi Hj. unfold instance_less. destruct (instance_has_NLID i Hi) as [a Ha]. destruct (instance_has_NLID j Hj) as [b Hb]. rewrite Ha, Hb. intros H1 H2.
  assert (a = b) as ->. { destruct (lt_total (lt := nlid_lt) a b) as [H|[H|H]]; [congruence|done|congruence]. }
  destruct Hi as [I Hi]. destruct Hj as [J Hj]. rewrite Hi in Ha. rewrite Hj in Hb. cbn in Ha, Hb. unfold instance_getNLID in Ha, Hb.
  destruct (designs t !! h_design I) as [D|] eqn:ED; [|done]. destruct (designs t !! h_design J) as [D'|] eqn:ED'; [|done]. cbn in Ha, Hb. rewrite <- Ha in Hb.
  injection Hb as H3 H4 H5 H6. eapply (instances_same W); [done..| |done]. eapply (sw_references _ _ W); [done..|].
  destruct (reference_ D), (reference_ D'). cbn in *. congruence.
Qed.
Lemma path_less_total l l' : Forall (fun i => is_Some (instHeap t !! i)) l -> Forall (fun i => is_Some (instHeap t !! i)) l' ->
  path_less l l' = false -> path_less l' l = false -> l = l'.
Proof.
  intros Hl Hl'. unfold path_less. destruct (decide (length l = length l')) as [Hn|Hn].
  - rewrite Hn, Nat.eqb_refl. cbn. revert l' Hn Hl'. induction Hl as [|i l Hi _ IH]; intros [|j l'] Hn Hl'; cbn in Hn; [done|lia..|].
    apply Forall_cons in Hl' as [Hj Hl']. cbn. rewrite !orb_false_iff. intros [Hij Hr] [Hji Hr']. f_equal; [by apply instance_less_total|apply IH; [lia|done..]].
  - intros H1 H2. destruct (Nat.eqb_spec (length l) (length l')); [done|]. destruct (Nat.eqb_spec (length l') (length l)); [lia|]. cbn in *.
    apply Nat.ltb_ge in H1, H2. lia.
Qed.
Lemma path_less_irrefl l : path_less l l = false.
Proof.
  unfold path_less. rewrite Nat.eqb_refl. cbn. apply not_true_iff_false. rewrite existsb_exists. intros ([i j] & Hin & H).
  assert (Hij : forall k : list loc, In (i, j) (zip k k) -> i = j). { induction k as [|x k IH]; [done|]. cbn. intros [[= -> ->]|Hk]; auto. }
  rewrite (Hij l Hin) in H. cbn in H. unfold instance_less in H. destruct (instHeap t !! j ≫= instance_getNLID t) as [a|]; [|done].
  by rewrite lt_irreflexive in H.
Qed.

(** * Objects and places *)

Definition object_there (x : design_object) : Prop :=
  match x with ANet n => is_bitNet t n | AComponent c => is_component t c | AnInstance i => is_Some (instHeap t !! i) end.
Definition placed (a : place) : Prop := Forall (fun i => is_Some (instHeap t !! i)) a.1 /\ object_there a.2.

Lemma same_design k d d' D D' : designs t !! d = Some D -> designs t !! d' = Some D' ->
  dbID_ k = ref_db (reference_ D) -> libraryID_ k = ref_library (reference_ D) -> designID_ k = ref_design (reference_ D) ->
  dbID_ k = ref_db (reference_ D') -> libraryID_ k = ref_library (reference_ D') -> designID_ k = ref_design (reference_ D') -> d = d'.
Proof. intros Hd Hd' H1 H2 H3 H4 H5 H6. eapply (sw_references _ _ W); [done..|]. destruct (reference_ D), (reference_ D'). cbn in *. congruence. Qed.
Definition of_design (k : NLID) (d : loc) : Prop :=
  exists D, designs t !! d = Some D /\ dbID_ k = ref_db (reference_ D) /\ libraryID_ k = ref_library (reference_ D) /\ designID_ k = ref_design (reference_ D).
Lemma of_design_same k d d' : of_design k d -> of_design k d' -> d = d'.
Proof. intros (D & HD & H1 & H2 & H3) (D' & HD' & H4 & H5 & H6). by eapply (same_design k d d' D D'). Qed.

(** The identifier of an object tells its class and its design. *)
Definition class_of (x : design_object) (k : NLID) : Prop :=
  match x, type_ k with
  | ANet _, (Net | NetBit) | AComponent _, (Term | TermBit | InstTerm) | AnInstance _, Instance => True
  | _, _ => False
  end.
Lemma object_NLID x k : object_getNLID t x = Some k -> class_of x k /\ exists d, object_design t x = Some d /\ of_design k d.
Proof.
  destruct x as [n|c|i]; cbn [object_getNLID object_design]; intros H.
  - unfold net_getNLID in H. apply bind_Some in H as (v & _ & H). apply bind_Some in H as (o & Ho & H). apply bind_Some in H as (D & HD & H). injection H as <-.
    split; [by destruct v|]. exists (h_design o). unfold net_design. rewrite Ho. split; [done|]. exists D. by destruct v.
  - unfold comp_getNLID, comp_design in *. destruct (instTermHeap t !! c) as [it|].
    + unfold instTerm_getNLID in H. apply bind_Some in H as (I & HI & H). apply bind_Some in H as (D & HD & H). apply bind_Some in H as (o & _ & H).
      apply bind_Some in H as (bit & _ & H). injection H as <-. split; [done|]. exists (h_design I). rewrite HI. split; [done|]. by exists D.
    + unfold term_getNLID in H. apply bind_Some in H as (v & _ & H). apply bind_Some in H as (o & Ho & H). apply bind_Some in H as (D & HD & H). injection H as <-.
      split; [by destruct v|]. exists (h_design o). rewrite Ho. split; [done|]. exists D. by destruct v.
  - apply bind_Some in H as (I & HI & H). unfold instance_getNLID in H. apply bind_Some in H as (D & HD & H). injection H as <-.
    split; [done|]. exists (h_design I). rewrite HI. split; [done|]. by exists D.
Qed.
Lemma net_key n n' k : is_bitNet t n -> is_bitNet t n' -> net_getNLID t n = Some k -> net_getNLID t n' = Some k -> n = n'.
Proof.
  intros Hn Hn' H H'. destruct (object_NLID (ANet n) k H) as (_ & d & Hd & Ho). destruct (object_NLID (ANet n') k H') as (_ & d' & Hd' & Ho').
  assert (d' = d) as -> by by eapply of_design_same. cbn in Hd, Hd'. unfold net_design in Hd, Hd'. unfold net_getNLID in H, H'.
  apply bind_Some in H as (v & Hv & H). apply bind_Some in H as (o & Eo & H). apply bind_Some in H as (D & _ & H).
  apply bind_Some in H' as (v' & Hv' & H'). apply bind_Some in H' as (o' & Eo' & H'). apply bind_Some in H' as (D' & _ & H').
  rewrite Eo in Hd. rewrite Eo' in Hd'. cbn in Hd, Hd'. injection Hd as Hd. injection Hd' as Hd'. rewrite <- H' in H. clear H'.
  unfold is_bitNet, is_bit in Hn, Hn'. rewrite Hv in Hn. rewrite Hv' in Hn'.
  destruct v as [a|a m l bs|b bit], v' as [a'|a' m' l' bs'|b' bit']; try (by destruct Hn); try (by destruct Hn'); injection H as Hk; try congruence.
  - unfold object_header in Eo, Eo'. rewrite Hv in Eo. rewrite Hv' in Eo'. injection Eo as ->. injection Eo' as ->.
    eapply (owns_unique (sw_nets _ _ W) d _ _ (h_id o)); [by exists (Scalar o), o|by exists (Scalar o'), o'].
  - eapply (is_bit_unique (sw_nets _ _ W) n n' bit); [unfold is_bit; rewrite ?Hv, ?Hv'; congruence..|exact Eo|exact Eo'|congruence|congruence].
Qed.
Lemma object_key x y k : object_there x -> object_there y -> object_getNLID t x = Some k -> object_getNLID t y = Some k -> x = y.
Proof.
  intros Hx Hy Kx Ky. destruct (object_NLID x k Kx) as (Cx & d & Dx & Ox). destruct (object_NLID y k Ky) as (Cy & d' & Dy & Oy).
  assert (d' = d) as -> by by eapply of_design_same. unfold class_of in Cx, Cy.
  destruct x as [n|c|i], y as [n'|c'|i']; try (by destruct (type_ k)); f_equal.
  - by eapply net_key.
  - by eapply (component_key W).
  - cbn in *. destruct Hx as [I HI]. destruct Hy as [J HJ]. rewrite HI in Kx, Dx. rewrite HJ in Ky, Dy. cbn in *.
    unfold instance_getNLID in *. apply bind_Some in Kx as (D & HD & Kx). apply bind_Some in Ky as (D' & HD' & Ky). rewrite <- Kx in Ky. injection Ky as _ _ _ Hid.
    eapply (instances_same W); [done..|congruence|congruence].
Qed.
Lemma net_has_design n o : object_header (netHeap t) n = Some o -> is_Some (designs t !! h_design o).
Proof.
  intros Ho. apply (sw_designs_nets _ _ W). unfold object_header in Ho.
  destruct (netHeap t !! n) as [[a|a m l bs|b bit]|] eqn:E; [| | |done]; try (injection Ho as ->; eapply (ow_design _ _ (sw_nets _ _ W)); [exact E|done]).
  destruct (netHeap t !! b) as [[|a m l bs|]|] eqn:Eb; [done| |done..]. injection Ho as ->. eapply (ow_design _ _ (sw_nets _ _ W)); [exact Eb|done].
Qed.
Lemma object_has_NLID x : object_there x -> is_Some (object_getNLID t x).
Proof.
  destruct x as [n|c|i]; cbn.
  - intros [b Hb]. pose proof (is_bit_alive _ _ ltac:(by exists b)) as Ha. destruct (object_header_total (sw_nets _ _ W) n Ha) as [o Ho]. destruct Ha as [v Hv].
    unfold net_getNLID. rewrite Hv. cbn. rewrite Ho. cbn. destruct (net_has_design n o Ho) as [D ->]. by eexists.
  - intros Hc. destruct (component_total t c W Hc) as (_ & k & _ & ->). by eexists.
  - exact (instance_has_NLID i).
Qed.

Lemma place_lt_irrefl a : place_lt a a = false.
Proof.
  unfold place_lt. destruct (object_getNLID t a.2) as [k|]; [|done]. rewrite lt_irreflexive, path_less_irrefl. cbn. by rewrite andb_false_r.
Qed.
Lemma place_lt_total a b : placed a -> placed b -> place_lt a b = false -> place_lt b a = false -> a = b.
Proof.
  intros [Ha Hxa] [Hb Hxb]. unfold place_lt. destruct (object_has_NLID _ Hxa) as [i Hi]. destruct (object_has_NLID _ Hxb) as [j Hj]. rewrite Hi, Hj.
  rewrite !orb_false_iff. intros [H1 H2] [H3 H4]. assert (i = j) as ->. { destruct (lt_total (lt := nlid_lt) i j) as [H|[H|H]]; [congruence|done|congruence]. }
  rewrite (proj2 (nlid_eq_true j j) eq_refl) in H2, H4. cbn in H2, H4. destruct a as [l x], b as [l' y]. cbn in *. f_equal; [by apply path_less_total|by eapply object_key].
Qed.

(** * Sets of occurrences *)

Lemma objectID_ok s x k Q E : object_getNLID t x = Some k -> Q k s -> wp (objectID t x) s Q E.
Proof. intros Hx HQ. unfold objectID. by eapply wp_deref. Qed.
Lemma occurrence_lt_ok s o o' a b E : paths_wf t s -> denotes s o a -> denotes s o' b -> placed a -> placed b ->
  wp (occurrence_lt t o o') s (fun r s' => s' = s /\ r = place_lt a b) E.
Proof.
  intros Wp [Ha Ho] [Hb Ho'] [_ Pa] [_ Pb]. unfold occurrence_lt, place_lt. rewrite Ho, Ho'.
  destruct (object_has_NLID _ Pa) as [i Hi]. destruct (object_has_NLID _ Pb) as [j Hj]. rewrite Hi, Hj.
  rewrite wp_bind. eapply objectID_ok; [exact Hi|]. rewrite wp_bind. eapply objectID_ok; [exact Hj|].
  destruct (nlid_lt i j); [done|]. destruct (nlid_eq i j); [|done]. by apply path_lt_ok.
Qed.

(** The order is one on the places [P]. *)
Record ordered (P : place -> Prop) : Prop := {
  or_asymmetric a b : P a -> P b -> place_lt a b = true -> place_lt b a = false;
  or_transitive a b c : P a -> P b -> P c -> place_lt a b = true -> place_lt b c = true -> place_lt a c = true }.

(** It is when no path has two instances. *)
Lemma path_less_shallow l l' : (length l <= 1)%nat -> (length l' <= 1)%nat ->
  path_less l l' = match l, l' with [], _ :: _ => true | i :: _, j :: _ => instance_less i j | _, _ => false end.
Proof. destruct l as [|i [|]], l' as [|j [|]]; cbn; intros; try lia; try done. unfold path_less. cbn. by rewrite orb_false_r. Qed.
Lemma instance_less_asymmetric i j : instance_less i j = true -> instance_less j i = false.
Proof.
  unfold instance_less. destruct (instHeap t !! i ≫= instance_getNLID t) as [a|]; [|done]. destruct (instHeap t !! j ≫= instance_getNLID t) as [b|]; [|done].
  apply lt_asymmetric. exact _.
Qed.
Lemma instance_less_transitive i j k : instance_less i j = true -> instance_less j k = true -> instance_less i k = true.
Proof.
  unfold instance_less. destruct (instHeap t !! i ≫= instance_getNLID t) as [a|]; [|done]. destruct (instHeap t !! j ≫= instance_getNLID t) as [b|]; [|done].
  destruct (instHeap t !! k ≫= instance_getNLID t) as [c|]; [|done]. apply lt_transitive.
Qed.
Lemma ordered_shallow P : (forall a, P a -> (length a.1 <= 1)%nat) -> ordered P.
Proof.
  intros HP.
  assert (Hasym : forall l l', (length l <= 1)%nat -> (length l' <= 1)%nat -> path_less l l' = true -> path_less l' l = false).
  { intros l l' Hl Hl'. rewrite !path_less_shallow by done. destruct l as [|i l], l' as [|j l']; try done. apply instance_less_asymmetric. }
  assert (Htrans : forall l l' l'', (length l <= 1)%nat -> (length l' <= 1)%nat -> (length l'' <= 1)%nat ->
    path_less l l' = true -> path_less l' l'' = true -> path_less l l'' = true).
  { intros l l' l'' Hl Hl' Hl''. rewrite !path_less_shallow by done. destruct l as [|i l], l' as [|j l'], l'' as [|k l'']; try done. apply instance_less_transitive. }
  split; unfold place_lt.
  - intros a b Ha Hb. destruct (object_getNLID t a.2) as [i|]; [|done]. destruct (object_getNLID t b.2) as [j|]; [|done].
    rewrite orb_true_iff, andb_true_iff, nlid_eq_true. intros [H|[-> H]].
    + rewrite (lt_asymmetric _ _ _ H). destruct (nlid_eq j i) eqn:E; [|done]. apply nlid_eq_true in E as ->. by rewrite lt_irreflexive in H.
    + rewrite lt_irreflexive, (Hasym _ _ (HP a Ha) (HP b Hb) H). by rewrite andb_false_r.
  - intros a b c Ha Hb Hc. destruct (object_getNLID t a.2) as [i|]; [|done]. destruct (object_getNLID t b.2) as [j|]; [|done]. destruct (object_getNLID t c.2) as [k|]; [|done].
    rewrite !orb_true_iff, !andb_true_iff, !nlid_eq_true. intros [H|[-> H]] [H'|[-> H']]; [left; by eapply lt_transitive|by left|by left|].
    right. split; [done|]. exact (Htrans _ _ _ (HP a Ha) (HP b Hb) (HP c Hc) H H').
Qed.

Section sets.
Context (P : place -> Prop) (HP : forall a, P a -> placed a) (Hord : ordered P).
Context (s : paths) (Wp : paths_wf t s).

Lemma less_now_ok o o' a b : denotes s o a -> denotes s o' b -> P a -> P b -> less_now t s o o' = place_lt a b.
Proof.
  intros Ho Ho' Ha Hb. pose proof (occurrence_lt_ok s o o' a b (fun _ _ => False) Wp Ho Ho' (HP a Ha) (HP b Hb)) as H. unfold wp in H. unfold less_now.
  destruct (occurrence_lt t o o' s) as [[r|e|] s']; [|done..]. by destruct H as [_ ->].
Qed.
Lemma denotes_inj o o' a : denotes s o a -> denotes s o' a -> o = o'.
Proof.
  intros [H1 H2] [H3 H4]. destruct o as [p x], o' as [p' x']. cbn in *. f_equal; [by eapply (spells_inj t s Wp)|congruence].
Qed.
Lemma strict_weak_ok os as_ : Forall2 (denotes s) os as_ -> Forall P as_ -> strict_weak (less_now t s) os = true.
Proof.
  intros H HPs. assert (Hin : forall o, In o os -> exists a, denotes s o a /\ P a).
  { intros o Ho%list_elem_of_In. apply list_elem_of_lookup_1 in Ho as [i Hi]. destruct (Forall2_lookup_l _ _ _ _ _ H Hi) as (a & Ha & Hd).
    exists a. split; [done|]. by apply (Forall_lookup_1 _ _ _ _ HPs Ha). }
  unfold strict_weak. rewrite !andb_true_iff, !forallb_forall. split_and!.
  - intros o Ho. destruct (Hin o Ho) as (a & Hd & Ha). rewrite (less_now_ok o o a a) by done. by rewrite place_lt_irrefl.
  - intros o Ho. rewrite forallb_forall. intros o' Ho'. destruct (Hin o Ho) as (a & Hd & Ha). destruct (Hin o' Ho') as (b & Hd' & Hb).
    rewrite (less_now_ok o o' a b), (less_now_ok o' o b a) by done. destruct (place_lt a b) eqn:E; [|done]. by rewrite (or_asymmetric _ Hord a b).
  - intros o Ho. rewrite forallb_forall. intros o' Ho'. rewrite forallb_forall. intros o'' Ho''.
    destruct (Hin o Ho) as (a & Hd & Ha). destruct (Hin o' Ho') as (b & Hd' & Hb). destruct (Hin o'' Ho'') as (c & Hd'' & Hc).
    rewrite (less_now_ok o o' a b), (less_now_ok o o'' a c), (less_now_ok o'' o' c b) by done.
    destruct (place_lt a b) eqn:Eab; [|done]. cbn. destruct (place_lt a c) eqn:Eac; [done|]. cbn. destruct (place_lt c a) eqn:Eca.
    + by apply (or_transitive _ Hord c a b).
    + assert (a = c) as <- by (apply place_lt_total; auto). done.
Qed.
Lemma set_find_ok o a os as_ E : denotes s o a -> P a -> Forall2 (denotes s) os as_ -> Forall P as_ ->
  wp (set_find t o os) s (fun r s' => s' = s /\ (r = true <-> a ∈ as_) /\ (r = true <-> o ∈ os)) E.
Proof.
  intros Ho Ha Hos Has. unfold set_find. rewrite wp_bind, wp_gets.
  rewrite (strict_weak_ok (o :: os) (a :: as_)) by (by constructor). rewrite wp_ret. split; [done|].
  assert (Heq : contains (less_now t s) o os = true <-> o ∈ os).
  { unfold contains. rewrite existsb_exists. split.
    - intros (o' & Ho' & Hn). apply andb_true_iff in Hn as [H1 H2]. apply negb_true_iff in H1, H2. apply list_elem_of_In in Ho'.
      destruct (list_elem_of_lookup_1 _ _ Ho') as [i Hi]. destruct (Forall2_lookup_l _ _ _ _ _ Hos Hi) as (b & Hb & Hd).
      assert (Pb : P b) by by apply (Forall_lookup_1 _ _ _ _ Has Hb).
      rewrite (less_now_ok o o' a b) in H1 by done. rewrite (less_now_ok o' o b a) in H2 by done.
      assert (a = b) as <- by (apply place_lt_total; auto). by rewrite (denotes_inj o o' a Ho Hd).
    - intros Hin. exists o. split; [by apply list_elem_of_In|]. rewrite (less_now_ok o o a a) by done. by rewrite place_lt_irrefl. }
  split; [|exact Heq]. rewrite Heq. split.
  - intros [i Hi]%list_elem_of_lookup_1. destruct (Forall2_lookup_l _ _ _ _ _ Hos Hi) as (b & Hb & [Hd Hx]). destruct Ho as [Hd' Hx'].
    assert (a = b) as ->; [|by eapply list_elem_of_lookup_2]. destruct a as [l x], b as [l' y]. cbn in *. f_equal; [by eapply spells_fun|congruence].
  - intros [i Hi]%list_elem_of_lookup_1. destruct (Forall2_lookup_r _ _ _ _ _ Hos Hi) as (o' & Ho' & Hd).
    rewrite (denotes_inj o o' a Ho Hd). by eapply list_elem_of_lookup_2.
Qed.
End sets.
End order.
