(* ===== verification/EquipotentialSteps.v ===== *)
(** What is connected through the hierarchy: steps between components of nets,
    links between nets at the end of paths, and what the extractor has explored.

    The extractor visits exactly what is connected: the invariant of its depth
    first search, kept by each of its functions. *)
From stdpp Require Import relations.
From S2P Require Import Prelude NLID Store Bus Contents Connections Interface InterfaceSteps InterfaceTerms TermLifetime InstanceSteps Narrowing MergeAssigns NetlistRuns Paths PathSteps Equipotential OccurrenceOrder.
Local Open Scope Z_scope.

(** A net at the end of a path. *)
Definition hier_net : Type := list loc * loc.
Definition node_place (a : hier_net) : place := (a.1, ANet a.2).
Definition comp_place (a : hier_net) : place := (a.1, AComponent a.2).

Section links.
Context (assign : option loc) (blackBoxes : gset loc) (mode_ : mode) (s0 : netlist).
#[local] Notation t := (str s0).
#[local] Notation isLeaf := (isLeaf blackBoxes s0).
#[local] Notation is_traversed := (is_traversed assign mode_ s0).

(** * What is connected *)

(** Into an instance that is not a leaf, out of it, and from one terminal of an
    assign to the other. *)
Inductive step : hier_net -> hier_net -> Prop :=
| step_down l c i x : instTermHeap t !! c = Some (mkInstTerm i x) -> isLeaf i = Ret false -> step (l, c) (l ++ [i], x)
| step_up l i x it : instTermHeap t !! x = None -> instTermHeap t !! it = Some (mkInstTerm i x) -> step (l ++ [i], x) (l, it)
| step_across l c c' i x y : instTermHeap t !! c = Some (mkInstTerm i x) -> instTermHeap t !! c' = Some (mkInstTerm i y) -> x <> y ->
    isLeaf i = Ret true -> is_traversed i = true -> step (l, c) (l, c').
Definition link (a b : hier_net) : Prop :=
  exists c c', net_ s0 !! c = Some a.2 /\ step (a.1, c) (b.1, c') /\ net_ s0 !! c' = Some b.2.
(** A terminal of a leaf, where equipotentials end. *)
Definition is_leaf_term (c : loc) : Prop :=
  exists i x, instTermHeap t !! c = Some (mkInstTerm i x) /\ isLeaf i = Ret true /\ is_traversed i = false.
Definition is_term (c : loc) : Prop := instTermHeap t !! c = None.

(** Nets of the model of the last instance, below instances that are not leaves. *)
Record valid (a : hier_net) : Prop := {
  va_chain : chain t a.1;
  va_inside : Forall (fun i => isLeaf i = Ret false) a.1;
  va_net : is_bitNet t a.2;
  va_design i I : last a.1 = Some i -> instHeap t !! i = Some I -> net_design t a.2 = Some (model_ (h_extra I)) }.
(** The assign primitive has one input and one output. *)
Definition assign_model : Prop :=
  forall A, assign = Some A -> exists ain aout, getAssignInput assign t = Some ain /\ getAssignOutput assign t = Some aout /\ ain <> aout /\
    forall x, bit_term_of t x A <-> x = ain \/ x = aout.

Context (W : struct_wf t) (C : conn_wf s0).

(** A component and its net are of one design. *)
Lemma component_net c n : net_ s0 !! c = Some n -> exists d, comp_design t c = Some d /\ net_design t n = Some d /\ is_bitNet t n /\ is_component t c.
Proof. intros H. destruct (cw_alive _ C c n H) as (d & k & ? & _ & ? & ? & ?). by exists d. Qed.
Lemma instTerm_of_instance c i x : instTermHeap t !! c = Some (mkInstTerm i x) ->
  exists I, instHeap t !! i = Some I /\ comp_design t c = Some (h_design I) /\ bit_term_of t x (model_ (h_extra I)).
Proof.
  intros H. destruct (sw_instTerm _ _ W _ _ H) as (I & f & HI & _ & Hx). cbn in *. exists I. split; [done|]. split; [|done].
  by apply (instTerm_component _ _ _ _ _ W H).
Qed.
Lemma bit_is_term x d : bit_term_of t x d -> is_term x /\ comp_design t x = Some d.
Proof. intros H. split; [|by apply (bit_component _ _ _ _ W H)]. apply (sw_apart _ _ W). by apply is_bit_alive, H. Qed.
Lemma term_is_bit x d : is_component t x -> is_term x -> comp_design t x = Some d -> bit_term_of t x d.
Proof. unfold is_term. intros [[v Hv]|Hb] Hn Hd; [congruence|]. split; [done|]. unfold comp_design in Hd. by rewrite Hn in Hd. Qed.
Lemma isLeaf_total i : is_Some (instHeap t !! i) -> exists b, isLeaf i = Ret b.
Proof. intros [I HI]. unfold Equipotential.isLeaf. rewrite HI. destruct (sw_model _ _ W _ _ HI) as [D ->]. by eexists. Qed.

Lemma traversed_bits (A : assign_model) i I : instHeap t !! i = Some I -> is_traversed i = true ->
  exists ain aout, getAssignInput assign t = Some ain /\ getAssignOutput assign t = Some aout /\ ain <> aout /\
    forall x, bit_term_of t x (model_ (h_extra I)) <-> x = ain \/ x = aout.
Proof.
  intros HI H. unfold Equipotential.is_traversed, isAssign in H. destruct mode_; [done|]. rewrite HI in H. destruct assign as [B|] eqn:EB in H; [|done].
  apply bool_decide_eq_true_1 in H. rewrite H. exact (A B EB).
Qed.

(** Where a step arrives. *)
Lemma step_place l c n l' c' : valid (l, n) -> net_ s0 !! c = Some n -> step (l, c) (l', c') ->
  chain t l' /\ Forall (fun i => isLeaf i = Ret false) l' /\
  forall i I, last l' = Some i -> instHeap t !! i = Some I -> comp_design t c' = Some (model_ (h_extra I)).
Proof.
  intros [Vc Vi Vn Vd] Hc Hs. cbn in *. destruct (component_net _ _ Hc) as (d & Hd & Hnd & _).
  inversion Hs as [l1 c1 i x Hi Hleaf|l1 i x it Ht Hi|l1 c1 c1' i x y Hi Hi' Hxy Hleaf Htr]; subst.
  - destruct (instTerm_of_instance _ _ _ Hi) as (I & HI & HdI & Hx). destruct (bit_is_term _ _ Hx) as [_ Hdx].
    assert (d = h_design I) as -> by congruence. split_and!; [constructor; [done|]|by apply Forall_app_2; [|constructor]|].
    + exists I. split; [done|]. destruct (last l) as [j|] eqn:Ej; [|done]. destruct (chain_alive t _ j Vc) as [J HJ]; [by apply last_Some_elem_of|].
      exists J. split; [done|]. rewrite (Vd _ _ eq_refl HJ) in Hnd. congruence.
    + intros j J. rewrite last_snoc. intros [= <-] HJ. congruence.
  - destruct (instTerm_of_instance _ _ _ Hi) as (I & HI & HdI & Hx). apply chain_snoc_inv in Vc as [Vc (I' & HI' & Hl)].
    apply Forall_app in Vi as [Vi _]. assert (I' = I) as -> by congruence. split_and!; [done..|]. intros j J Hj HJ. rewrite Hj in Hl.
    destruct Hl as (J' & HJ' & Hm). congruence.
  - destruct (instTerm_of_instance _ _ _ Hi) as (I & HI & HdI & _). destruct (instTerm_of_instance _ _ _ Hi') as (I' & HI' & HdI' & _).
    split_and!; [done..|]. intros j J Hj HJ. rewrite <- (Vd _ _ Hj HJ). congruence.
Qed.
Lemma valid_step l c n l' c' n' : valid (l, n) -> net_ s0 !! c = Some n -> step (l, c) (l', c') -> net_ s0 !! c' = Some n' -> valid (l', n').
Proof.
  intros V Hc Hs Hc'. destruct (step_place _ _ _ _ _ V Hc Hs) as (H1 & H2 & H3). destruct (component_net _ _ Hc') as (d & Hd & Hnd & Hb & _).
  split; cbn; [done..|]. intros i I Hi HI. rewrite Hnd, <- Hd. by apply (H3 i I).
Qed.
Lemma valid_reach a b : rtc link a b -> valid a -> valid b.
Proof. induction 1 as [|a b c (c1 & c2 & H1 & H2 & H3) _ IH]; [done|]. intros Ha. apply IH. destruct a, b. by eapply valid_step. Qed.

(** Steps come back, and where one arrives nothing ends. *)
Lemma step_back (A : assign_model) l c l' c' b : Forall (fun i => isLeaf i = Ret false) l -> is_component t c ->
  step (l, c) (l', c') -> step (l', c') b -> b = (l, c).
Proof.
  intros Vi Hc Hs Hb. inversion Hs as [l1 c1 i x Hi Hleaf|l1 i x it Ht Hi|l1 c1 c1' i x y Hi Hi' Hxy Hleaf Htr]; subst.
  - destruct (instTerm_of_instance _ _ _ Hi) as (I & _ & _ & Hx). destruct (bit_is_term _ _ Hx) as [Hx' _]. unfold is_term in Hx'.
    inversion Hb as [? ? ? ? Hy|l2 i' ? it Hn Hi2 El|? ? ? ? ? ? Hy]; subst; [congruence| |congruence].
    apply app_inj_tail in El as [-> ->]. f_equal. by eapply (instTerm_unique W).
  - apply Forall_app in Vi as [_ Vi]. apply (proj1 (Forall_singleton _ _)) in Vi.
    inversion Hb as [? ? i' x' Hi2|l2 i' ? it2 Hn|? ? ? i' ? ? Hi2 _ _ Hl2]; subst; [|congruence|].
    + rewrite Hi in Hi2. by injection Hi2 as <- <-.
    + rewrite Hi in Hi2. injection Hi2 as <- <-. congruence.
  - inversion Hb as [? ? i' x' Hi2 Hl2|l2 i' ? it2 Hn|? ? c2 i' x' y' Hi2 Hi3 Hxy' _ _]; subst; [|congruence|].
    + rewrite Hi' in Hi2. injection Hi2 as <- <-. congruence.
    + rewrite Hi' in Hi2. injection Hi2 as <- <-. f_equal. eapply (instTerm_unique W); [exact Hi3|]. rewrite Hi. do 2 f_equal.
      destruct (instTerm_of_instance _ _ _ Hi) as (I & HI & _ & Hx). destruct (traversed_bits A i I HI Htr) as (ain & aout & _ & _ & Hne & Hbits).
      destruct (instTerm_of_instance _ _ _ Hi') as (I2 & HI2 & _ & Hy). destruct (instTerm_of_instance _ _ _ Hi3) as (I3 & HI3 & _ & Hz).
      simplify_eq. apply Hbits in Hx, Hy, Hz. naive_solver.
Qed.
Lemma step_there l c l' c' : Forall (fun i => isLeaf i = Ret false) l -> step (l, c) (l', c') -> step (l', c') (l, c).
Proof.
  intros Vi Hs. inversion Hs as [l1 c1 i x Hi Hleaf|l1 i x it Ht Hi|l1 c1 c1' i x y Hi Hi' Hxy Hleaf Htr]; subst.
  - destruct (instTerm_of_instance _ _ _ Hi) as (I & _ & _ & Hx). destruct (bit_is_term _ _ Hx) as [Hx' _]. by apply step_up.
  - apply Forall_app in Vi as [_ Vi]. apply (proj1 (Forall_singleton _ _)) in Vi. by apply step_down.
  - by eapply step_across.
Qed.
Lemma link_sym a b : valid a -> link a b -> link b a.
Proof. intros V (c & c' & H1 & H2 & H3). exists c', c. split_and!; [done| |done]. apply step_there; [apply V|done]. Qed.
Lemma step_arrives l c l' c' : Forall (fun i => isLeaf i = Ret false) l -> step (l, c) (l', c') -> ~ is_leaf_term c' /\ (l' = [] -> ~ is_term c').
Proof.
  intros Vi Hs. unfold is_leaf_term, is_term. inversion Hs as [l1 c1 i x Hi Hleaf|l1 i x it Ht Hi|l1 c1 c1' i x y Hi Hi' Hxy Hleaf Htr]; subst.
  - destruct (instTerm_of_instance _ _ _ Hi) as (I & _ & _ & Hx). destruct (bit_is_term _ _ Hx) as [Hx' _]. unfold is_term in Hx'. split; [|by destruct l].
    intros (j & y & H & _). congruence.
  - apply Forall_app in Vi as [_ Vi]. apply (proj1 (Forall_singleton _ _)) in Vi. split; [|congruence]. intros (j & y & H & Hl & _). rewrite Hi in H. injection H as <- <-. congruence.
  - split; [|congruence]. intros (j & z & H & _ & Htr'). rewrite Hi' in H. injection H as <- <-. congruence.
Qed.

(** * Designs that do not contain themselves *)

Section finite.
Context (rank : loc -> nat) (Hrank : forall i I, instHeap t !! i = Some I -> (rank (model_ (h_extra I)) < rank (h_design I))%nat).
Definition deepest : nat := max_list ((fun p => rank (h_design p.2)) <$> map_to_list (instHeap t)).
Lemma deepest_max i I : instHeap t !! i = Some I -> (rank (h_design I) <= deepest)%nat.
Proof.
  intros H. unfold deepest. apply max_list_elem_of_le. apply list_elem_of_fmap. exists (i, I). split; [done|]. by apply elem_of_map_to_list.
Qed.
Lemma chain_depth l : chain t l -> forall i I, last l = Some i -> instHeap t !! i = Some I -> (length l + rank (model_ (h_extra I)) <= deepest)%nat.
Proof.
  induction 1 as [|l i Hc IH (I & HI & Hl)]; [done|]. intros j J. rewrite last_snoc. intros [= <-] HJ. assert (J = I) as -> by congruence. rewrite length_app. cbn.
  pose proof (Hrank _ _ HI). destruct (last l) as [j|] eqn:Ej.
  - destruct Hl as (K & HK & Hm). specialize (IH j K eq_refl HK). rewrite Hm in IH. lia.
  - apply last_None in Ej as ->. pose proof (deepest_max _ _ HI). cbn. lia.
Qed.
Lemma chain_length l : chain t l -> (length l <= deepest)%nat.
Proof.
  intros Hc. destruct (last l) as [i|] eqn:E; [|apply last_None in E as ->; cbn; lia]. destruct (chain_alive t _ i Hc (last_Some_elem_of _ _ E)) as [I HI].
  pose proof (chain_depth l Hc i I E HI). lia.
Qed.
(** Lists of at most [k] of [xs]. *)
Fixpoint lists (xs : list loc) (k : nat) : list (list loc) :=
  match k with O => [[]] | S k => [] :: (xs ≫= fun x => cons x <$> lists xs k) end.
Lemma elem_of_lists xs k l : (forall x, x ∈ l -> x ∈ xs) -> (length l <= k)%nat -> l ∈ lists xs k.
Proof.
  revert l. induction k as [|k IH]; intros [|x l] Hx Hl; cbn in *; [left|lia|left|]. right. apply list_elem_of_bind. exists x. split; [|apply Hx; left].
  apply list_elem_of_fmap. exists l. split; [done|]. apply IH; [intros y Hy; apply Hx; by right|lia].
Qed.
Definition all_nodes : list hier_net :=
  lists (fst <$> map_to_list (instHeap t)) deepest ≫= fun l => pair l <$> (fst <$> map_to_list (netHeap t)).
Lemma valid_all_nodes a : valid a -> a ∈ all_nodes.
Proof.
  intros [Vc _ Vn _]. destruct a as [l n]. unfold all_nodes. apply list_elem_of_bind. exists l. split.
  - apply list_elem_of_fmap_2. destruct (is_bit_alive _ _ Vn) as [v Hv]. apply list_elem_of_fmap. exists (n, v). split; [done|]. by apply elem_of_map_to_list.
  - apply elem_of_lists; [|by apply chain_length]. intros i Hi. destruct (chain_alive t _ i Vc Hi) as [I HI]. apply list_elem_of_fmap. exists (i, I). split; [done|].
    by apply elem_of_map_to_list.
Qed.
End finite.
End links.

(** * The extractor visits what is connected *)

(** * Small programs *)

Lemma with_paths_ok {A} (m : on_paths A) e Q E : wp m (paths_ e) (fun a p => Q a (set_paths p e)) (fun x p => E x (set_paths p e)) -> wp (with_paths m) e Q E.
Proof. unfold wp, with_paths. destruct (m (paths_ e)) as [[a|x|] p]; done. Qed.
Lemma pure_outcome_ok {A} (o : outcome A) a e Q E : o = Ret a -> Q a e -> wp (pure_outcome o) e Q E.
Proof. intros ->. done. Qed.
Lemma set_paths_same e : set_paths (paths_ e) e = e.
Proof. by destruct e. Qed.
Lemma new_occurrence_ok t s p l x Q E : spells s p l -> chain t l ->
  (forall i I, last l = Some i -> instHeap t !! i = Some I -> object_design t x = Some (model_ (h_extra I))) ->
  Q (mkOccurrence p (Some x)) s -> wp (new_occurrence t p (Some x)) s Q E.
Proof.
  intros Hp Hc Hx HQ. unfold new_occurrence. rewrite wp_bind. destruct p as [p|]; [|by rewrite !wp_ret].
  destruct (spells_Some _ _ _ Hp) as (v & l' & Hv & _ & ->). apply chain_snoc_inv in Hc as [_ (I & HI & _)].
  unfold shared_getModel, the_shared, alive_instance. rewrite wp_bind. wp_read Hv. wp_read HI. rewrite wp_ret.
  rewrite wp_bind. eapply wp_deref; [by apply (Hx (tailInstance_ v)); [rewrite last_snoc|]|]. apply wp_check; [by rewrite wp_ret|]. by rewrite bool_decide_true.
Qed.

(** The type is that of all nets that have one, if there is one such type. *)
Lemma merge_types {B} (type : B -> net_type) l : let r := foldl (fun acc a => merge_type (type a) acc) (NStandard, false) l in
  (r.2 = true <-> exists a, a ∈ l /\ type a <> NStandard) /\
  forall T, T <> NStandard -> r.1 = T <-> (exists a, a ∈ l /\ type a = T) /\ forall a, a ∈ l -> type a = NStandard \/ type a = T.
Proof.
  induction l as [|a l IH] using rev_ind; cbv zeta.
  - cbn. split; [split; [done|by intros (a & ?%not_elem_of_nil & _)]|]. intros T HT. split; [congruence|]. by intros ((a & ?%not_elem_of_nil & _) & _).
  - rewrite foldl_app. cbn [foldl]. destruct (foldl _ _ l) as [ty b] eqn:Ef. cbv zeta in IH. cbn [fst snd] in IH. destruct IH as [Hb HT].
    assert (Hin : forall x, x ∈ l ++ [a] <-> x ∈ l \/ x = a) by (intros x; by rewrite elem_of_app, list_elem_of_singleton).
    setoid_rewrite Hin. unfold merge_type. destruct (bool_decide (type a = NStandard)) eqn:Es.
    + apply bool_decide_eq_true_1 in Es. cbn [fst snd]. split; [naive_solver|]. intros T Tne. rewrite (HT T Tne). naive_solver.
    + apply bool_decide_eq_false_1 in Es. cbn [fst snd]. destruct b; cbn [negb].
      * destruct (proj1 Hb eq_refl) as (x & Hx & Hxs). case_bool_decide as Et; cbn [fst snd].
        -- split; [split; [by exists a; auto|done]|]. intros T Tne. rewrite (HT T Tne). split; [|naive_solver].
           intros [Hex Hall]. split; [naive_solver|]. assert (HtT : ty = T) by (apply HT; done). intros y [Hy| ->]; [auto|right; congruence].
        -- split; [split; [by exists a; auto|done]|]. intros T Tne. split; [congruence|]. intros [_ Hall]. exfalso. apply Et.
           assert (Ha : type a = T) by (destruct (Hall a ltac:(by right)); done). rewrite Ha. apply HT; [done|]. split.
           ++ exists x. split; [done|]. destruct (Hall x ltac:(by left)); done.
           ++ intros y Hy. apply Hall. by left.
      * assert (Hno : forall x, x ∈ l -> type x = NStandard).
        { intros x Hx. destruct (decide (type x = NStandard)) as [|Hne]; [done|]. assert (Hf : false = true) by (apply Hb; by exists x). discriminate Hf. }
        split; [split; [by exists a; auto|done]|]. intros T Tne. split; [intros <-; split; [by exists a; auto|naive_solver]|].
        intros [(x & [Hx| ->] & HxT) _]; [|done]. rewrite (Hno x Hx) in HxT. congruence.
Qed.

Section runs.
Context (assign : option loc) (blackBoxes : gset loc) (mode_ : mode) (s0 : netlist).
#[local] Notation t := (str s0).
#[local] Notation step := (step assign blackBoxes mode_ s0).
#[local] Notation link := (link assign blackBoxes mode_ s0).
#[local] Notation is_leaf_term := (is_leaf_term assign blackBoxes mode_ s0).
#[local] Notation valid := (valid blackBoxes s0).
#[local] Notation extractNet := (extractNet assign blackBoxes mode_ s0).

(** * The invariant *)

(** Nets [V] were visited and ends [R] found. *)
Record explored (start : hier_net) (V R : list hier_net) (e : extractor) : Prop := {
  ex_wf : paths_wf t (paths_ e);
  ex_visited : Forall2 (denotes (paths_ e)) (visitedNetOccurrences_ e) (node_place <$> V);
  ex_nodup : NoDup V;
  ex_reach : Forall (rtc link start) V;
  ex_ends : Forall2 (denotes (paths_ e)) (instTermOccurrences_ e) (comp_place <$> R);
  ex_ends_nodup : NoDup (instTermOccurrences_ e);
  ex_ends_found : Forall (fun r => exists n, (r.1, n) ∈ V /\ net_ s0 !! r.2 = Some n /\ is_leaf_term r.2) R;
  ex_terms x : x ∈ equi_terms_ e -> exists n, ([], n) ∈ V /\ net_ s0 !! x = Some n /\ is_term s0 x;
  ex_terms_nodup : NoDup (equi_terms_ e);
  ex_type : (equi_type_ e, hasDrivingType_ e) = foldl (fun acc a => merge_type (getType s0 a.2) acc) (NStandard, false) V }.

(** What component [c] at the end of [l] leads to was visited or found. *)
Record handled (V R : list hier_net) (T : list loc) (l : list loc) (c : loc) : Prop := {
  ha_step l' c' n' : step (l, c) (l', c') -> net_ s0 !! c' = Some n' -> (l', n') ∈ V;
  ha_end : is_leaf_term c -> (l, c) ∈ R;
  ha_term : l = [] -> is_term s0 c -> c ∈ T }.
Definition finished (V R : list hier_net) (T : list loc) (a : hier_net) : Prop := forall c, net_ s0 !! c = Some a.2 -> handled V R T a.1 c.
(** Sets grow, and new visited nets are finished. *)
Record grown (V R : list hier_net) (e : extractor) (V' R' : list hier_net) (e' : extractor) : Prop := {
  gr_paths : pathHeap (paths_ e) ⊆ pathHeap (paths_ e');
  gr_visited : V ⊆ V';
  gr_ends : R ⊆ R';
  gr_terms : equi_terms_ e ⊆ equi_terms_ e';
  gr_more : (length V <= length V')%nat;
  gr_finished a : a ∈ V' -> a ∉ V -> finished V' R' (equi_terms_ e') a }.

Lemma handled_mono V R T V' R' T' l c : V ⊆ V' -> R ⊆ R' -> T ⊆ T' -> handled V R T l c -> handled V' R' T' l c.
Proof. intros HV HR HT [H1 H2 H3]. split; eauto. Qed.
Lemma grown_handled V R e V' R' e' l c : grown V R e V' R' e' -> handled V R (equi_terms_ e) l c -> handled V' R' (equi_terms_ e') l c.
Proof. intros G. by apply handled_mono; apply G. Qed.
Lemma grown_refl V R e : grown V R e V R e.
Proof. by split. Qed.
Lemma grown_trans V1 R1 e1 V2 R2 e2 V3 R3 e3 : grown V1 R1 e1 V2 R2 e2 -> grown V2 R2 e2 V3 R3 e3 -> grown V1 R1 e1 V3 R3 e3.
Proof.
  intros G H. split; try (etransitivity; [apply G|apply H]). intros a Ha Hn. destruct (decide (a ∈ V2)) as [Ha2|Ha2]; [|by apply (gr_finished _ _ _ _ _ _ H)].
  intros c Hc. eapply grown_handled; [exact H|]. by apply (gr_finished _ _ _ _ _ _ G).
Qed.
Lemma denotes_mono s s' o a : pathHeap s ⊆ pathHeap s' -> denotes s o a -> denotes s' o a.
Proof. intros Hs [H1 H2]. split; [by eapply spells_mono|done]. Qed.
(** Making paths. *)
Lemma explored_paths start V R e s : explored start V R e -> paths_wf t s -> pathHeap (paths_ e) ⊆ pathHeap s ->
  explored start V R (set_paths s e) /\ grown V R e V R (set_paths s e).
Proof.
  intros X Ws Hs. split; [|by split]. destruct X. split; try done.
  - eapply Forall2_impl; [eassumption|]. intros o a. by apply denotes_mono.
  - eapply Forall2_impl; [eassumption|]. intros o a. by apply denotes_mono.
Qed.

(** * The search *)

Context (W : struct_wf t) (C : conn_wf s0) (A : assign_model assign s0).
Context (start : hier_net) (Vstart : valid start) (U : list hier_net) (HU : forall a, rtc link start a -> a ∈ U).
(** The places the extractor compares. *)
Definition seen (x : place) : Prop :=
  (exists a, rtc link start a /\ x = node_place a) \/ (exists a c, rtc link start a /\ net_ s0 !! c = Some a.2 /\ x = comp_place (a.1, c)).
Context (Hord : ordered t seen).

Lemma chain_there l : chain t l -> Forall (fun i => is_Some (instHeap t !! i)) l.
Proof. intros H. apply Forall_forall. intros i Hi. by eapply chain_alive. Qed.
Lemma reach_valid a : rtc link start a -> valid a.
Proof. intros H. by eapply (valid_reach assign blackBoxes mode_ s0 W C start). Qed.
Lemma seen_placed x : seen x -> placed t x.
Proof.
  intros [(a & Ha & ->)|(a & c & Ha & Hc & ->)]; destruct (reach_valid a Ha) as [Vc Vi Vn Vd]; (split; [by apply chain_there|]); [done|].
  cbn. by destruct (component_net s0 C _ _ Hc) as (d & _ & _ & _ & H).
Qed.
Lemma explored_length V R e : explored start V R e -> (length V <= length U)%nat.
Proof.
  intros X. apply submseteq_length, NoDup_submseteq; [apply X|]. intros a Ha. apply HU. by apply (proj1 (Forall_forall _ _) (ex_reach _ _ _ _ X)).
Qed.

Definition found_after (V R : list hier_net) (e : extractor) (good : list hier_net -> list hier_net -> extractor -> Prop) (e' : extractor) : Prop :=
  exists V' R', explored start V' R' e' /\ grown V R e V' R' e' /\ good V' R' e'.
Definition extracts (fuel : nat) (extract : SNLOccurrence -> bool -> extraction unit) : Prop :=
  forall V R e l c o first E, explored start V R e -> denotes (paths_ e) o (comp_place (l, c)) ->
    (forall n, net_ s0 !! c = Some n -> rtc link start (l, n)) -> (first = false -> handled V R (equi_terms_ e) l c) ->
    (length U < fuel + length V)%nat ->
    wp (extract o first) e (fun _ => found_after V R e (fun V' _ _ => forall n, net_ s0 !! c = Some n -> (l, n) ∈ V')) E.

Section visits.
Context (fuel : nat) (extract : SNLOccurrence -> bool -> extraction unit) (Hex : extracts fuel extract).
(** At a component [c] of a visited net. *)
Context (l : list loc) (n : loc) (Hreach : rtc link start (l, n)).

Section component.
Context (c : loc) (Hc : net_ s0 !! c = Some n).

Lemma extracts_step V R e l' c' o E : explored start V R e -> (l, n) ∈ V -> (length U < fuel + length V)%nat -> step (l, c) (l', c') ->
  denotes (paths_ e) o (comp_place (l', c')) ->
  wp (extract o false) e (fun _ => found_after V R e (fun V' _ _ => forall n', net_ s0 !! c' = Some n' -> (l', n') ∈ V')) E.
Proof.
  intros X Hn Hf Hs Ho. pose proof (reach_valid _ Hreach) as Vn. apply Hex; try done.
  - intros n' Hn'. eapply rtc_r; [exact Hreach|]. by exists c, c'.
  - intros _. destruct (component_net s0 C _ _ Hc) as (_ & _ & _ & _ & Hcomp).
    destruct (step_arrives assign blackBoxes mode_ s0 W l c l' c' (va_inside _ _ _ Vn) Hs) as [H1 H2].
    split; [|by intros ?%H1|by intros H3 ?%(H2 H3)].
    intros l'' c'' n'' Hs' Hn''. pose proof (step_back assign blackBoxes mode_ s0 W A l c l' c' _ (va_inside _ _ _ Vn) Hcomp Hs Hs') as [= -> ->].
    assert (n'' = n) as -> by congruence. done.
Qed.
Lemma new_occurrence_here s p l' c' E Q : spells s p l' -> step (l, c) (l', c') \/ l' = l /\ c' = c ->
  Q (mkOccurrence p (Some (AComponent c'))) s -> wp (new_occurrence t p (Some (AComponent c'))) s Q E.
Proof.
  intros Hp Hs HQ. pose proof (reach_valid _ Hreach) as V.
  assert (Hpl : chain t l' /\ forall i I, last l' = Some i -> instHeap t !! i = Some I -> comp_design t c' = Some (model_ (h_extra I))).
  { destruct Hs as [Hs|[-> ->]]; [by destruct (step_place assign blackBoxes mode_ s0 W C _ _ _ _ _ V Hc Hs) as (H1 & _ & H3)|].
    split; [apply V|]. intros i I Hi HI. destruct (component_net s0 C _ _ Hc) as (d & Hd & Hnd & _). rewrite Hd, <- Hnd. exact (va_design _ _ _ V _ _ Hi HI). }
  destruct Hpl as [Hch Hd]. eapply new_occurrence_ok; [exact Hp|done|exact Hd|done].
Qed.

Definition handles V R e : extractor -> Prop := found_after V R e (fun V' R' e' => handled V' R' (equi_terms_ e') l c).

(** Where the only step goes. *)
Lemma handles_step V R e l' c' e' :
  (forall l2 c2, step (l, c) (l2, c2) -> l2 = l' /\ c2 = c') -> ~ is_leaf_term c -> (l = [] -> ~ is_term s0 c) ->
  found_after V R e (fun V' _ _ => forall n', net_ s0 !! c' = Some n' -> (l', n') ∈ V') e' -> handles V R e e'.
Proof.
  intros H1 H2 H3 (V' & R' & X & G & Hv). exists V', R'. split; [done|]. split; [done|]. split; [|by intros ?%H2|by intros H4 ?%(H3 H4)].
  intros l2 c2 n' Hs Hn'. destruct (H1 _ _ Hs) as [-> ->]. auto.
Qed.
Lemma found_after_trans V R e V1 R1 e1 good e' : grown V R e V1 R1 e1 -> found_after V1 R1 e1 good e' -> found_after V R e good e'.
Proof. intros G (V' & R' & X & G' & Hg). exists V', R'. split; [done|]. split; [by eapply grown_trans|done]. Qed.

Lemma traverse_ok V R e p i x E : explored start V R e -> (l, n) ∈ V -> (length U < fuel + length V)%nat -> spells (paths_ e) p l ->
  instTermHeap t !! c = Some (mkInstTerm i x) -> isLeaf blackBoxes s0 i = Ret true -> is_traversed assign mode_ s0 i = true ->
  wp (let oppositeTerm := if bool_decide (Some x = getAssignInput assign t) then getAssignOutput assign t else getAssignInput assign t in
      it ← instTerm_of s0 i oppositeTerm; o ← with_paths (new_occurrence t p (AComponent <$> it)); extract o false) e (fun _ => handles V R e) E.
Proof.
  intros X Hn Hf Hp Hv Hleaf Htr. destruct (instTerm_of_instance s0 W _ _ _ Hv) as (I & HI & HdI & Hx).
  destruct (traversed_bits assign mode_ s0 A i I HI Htr) as (ain & aout & Hin & Hout & Hne & Hbits). rewrite Hin, Hout.
  assert (Hxs : x = ain \/ x = aout) by by apply Hbits.
  set (y := if bool_decide (x = ain) then aout else ain).
  assert (Ey : (if bool_decide (Some x = Some ain) then Some aout else Some ain) = Some y) by (subst y; do 2 case_bool_decide; congruence).
  assert (Hy : bit_term_of t y (model_ (h_extra I))) by (apply (proj2 (Hbits y)); subst y; destruct (bool_decide (x = ain)); auto).
  assert (Hxy : x <> y) by (subst y; case_bool_decide; destruct Hxs; congruence).
  assert (Hother : forall z, bit_term_of t z (model_ (h_extra I)) -> x <> z -> z = y) by (intros z Hz%Hbits Hxz; subst y; case_bool_decide; destruct Hxs, Hz; congruence).
  pose proof (getInstTerm_ok _ s0 i I y (fun _ _ => False) W HI Hy (fun F => F)) as H. unfold wp in H. cbv zeta. rewrite Ey.
  unfold instTerm_of. destruct (getInstTerm i (Some y) s0) as [[r|z|] s1] eqn:Eg; [|done..]. destruct H as (_ & it & -> & Hit).
  rewrite wp_bind. eapply pure_outcome_ok; [done|]. cbn [fmap option_fmap option_map].
  assert (Hs : step (l, c) (l, it)) by by eapply step_across.
  rewrite wp_bind. apply with_paths_ok. eapply new_occurrence_here; [exact Hp|by left|]. rewrite set_paths_same.
  eapply wp_mono; [apply (extracts_step V R e l it); [done..|by split]| |done]. cbn beta. intros _ e'. apply handles_step.
  - intros l2 c2 Hs2. inversion Hs2 as [? ? i2 x2 Hv2 Hleaf2|? ? ? ? Hv2|? ? ? i2 x2 y2 Hv2 Hc2 Hxy2]; subst; [congruence|congruence|].
    rewrite Hv in Hv2. injection Hv2 as <- <-. split; [done|]. eapply (instTerm_unique W); [exact Hc2|]. rewrite Hit. do 2 f_equal. symmetry.
    apply Hother; [|done]. destruct (instTerm_of_instance s0 W _ _ _ Hc2) as (I' & HI' & _ & Hy2). by simplify_eq.
  - intros (i2 & x2 & Hv2 & _ & Htr2). congruence.
  - intros _ Ht. unfold is_term in Ht. congruence.
Qed.
(** An end is found once. *)
Lemma end_ok V R e p E : explored start V R e -> (l, n) ∈ V -> spells (paths_ e) p l -> is_leaf_term c ->
  wp (o ← with_paths (new_occurrence t p (Some (AComponent c)));
      k ← gets instTermOccurrences_; b ← with_paths (set_find t o k); if b : bool then mret tt else modify (add_instTerm o)) e (fun _ => handles V R e) E.
Proof.
  intros X Hn Hp He. destruct (id He) as (i & x & Hv & Hleaf & Htr).
  assert (Hno : forall l' c', ~ step (l, c) (l', c')) by (intros l' c' Hs; inversion Hs; subst; congruence).
  assert (Hterm : ~ is_term s0 c) by (unfold is_term; congruence).
  rewrite wp_bind. apply with_paths_ok. eapply new_occurrence_here; [exact Hp|by right|]. rewrite set_paths_same, wp_bind, wp_gets, wp_bind.
  apply with_paths_ok. set (o := mkOccurrence p (Some (AComponent c))). assert (Ho : denotes (paths_ e) o (comp_place (l, c))) by done.
  assert (Hseen : seen (comp_place (l, c))) by (right; by exists (l, n), c).
  assert (Hends : Forall seen (comp_place <$> R)).
  { apply Forall_fmap, Forall_forall. intros r Hr. destruct (proj1 (Forall_forall _ _) (ex_ends_found _ _ _ _ X) r Hr) as (m & Hm & Hrm & _).
    right. exists (r.1, m), r.2. split; [|done]. by apply (proj1 (Forall_forall _ _) (ex_reach _ _ _ _ X)). }
  eapply wp_mono; [exact (set_find_ok t W seen seen_placed Hord _ (ex_wf _ _ _ _ X) o _ _ _ (fun _ _ => False) Ho Hseen (ex_ends _ _ _ _ X) Hends)| |done].
  cbn beta. intros b s' (-> & Hb & Hb'). rewrite set_paths_same. destruct b.
  - rewrite wp_ret. exists V, R. split; [done|]. split; [apply grown_refl|]. split; [by intros l' c' n' ?%Hno| |by intros _ ?%Hterm].
    intros _. pose proof (proj1 Hb eq_refl) as Hj. apply list_elem_of_lookup_1 in Hj as [j Hj]. rewrite list_lookup_fmap in Hj. apply fmap_Some in Hj as ([l2 c2] & Hj & [= <- <-]).
    by eapply list_elem_of_lookup_2.
  - assert (Hnew : o ∉ instTermOccurrences_ e) by (intros H%Hb'; done).
    rewrite wp_modify. exists V, (R ++ [(l, c)]). split_and!; [|split; cbn; [done|done|set_solver|done|done|done]|].
    + destruct X. split; cbn; try done.
      * rewrite fmap_app. apply Forall2_app; [done|by constructor].
      * apply NoDup_app. split; [done|]. split; [|apply NoDup_singleton]. by intros o' Ho' ->%list_elem_of_singleton.
      * apply Forall_app_2; [done|]. constructor; [|done]. by exists n.
    + split; [by intros l' c' n' ?%Hno| |by intros _ ?%Hterm]. intros _. apply elem_of_app. right. by apply list_elem_of_singleton.
Qed.
(** Into an instance. *)
Lemma inside_ok V R e p i x E : explored start V R e -> (l, n) ∈ V -> (length U < fuel + length V)%nat -> spells (paths_ e) p l ->
  instTermHeap t !! c = Some (mkInstTerm i x) -> isLeaf blackBoxes s0 i = Ret false ->
  wp (p' ← with_paths (path_snoc t p (Some i)); o ← with_paths (new_occurrence t p' (Some (AComponent x))); extract o false) e (fun _ => handles V R e) E.
Proof.
  intros X Hn Hf Hp Hv Hleaf. assert (Hs : step (l, c) (l ++ [i], x)) by by eapply step_down. pose proof (reach_valid _ Hreach) as Vn.
  destruct (step_place assign blackBoxes mode_ s0 W C _ _ _ _ _ Vn Hc Hs) as (Hch & _ & _). apply chain_snoc_inv in Hch as [_ Hfol].
  rewrite wp_bind. apply with_paths_ok. eapply wp_mono; [apply (path_snoc_ok t _ p l i (fun _ _ => False)); [apply X|done..]| |done].
  cbn beta. intros p' s' (Ws & Hsub & Hp' & _). destruct (explored_paths start V R e s' X Ws Hsub) as [X' G].
  rewrite wp_bind. apply with_paths_ok. eapply new_occurrence_here; [exact Hp'|by left|]. rewrite set_paths_same.
  eapply wp_mono; [apply (extracts_step V R _ (l ++ [i]) x); [done..|by split]| |done]. cbn beta. intros _ e' H. eapply handles_step; [| | |by eapply found_after_trans].
  - intros l2 c2 Hs2. inversion Hs2 as [? ? i2 x2 Hv2|? ? ? ? Hv2|? ? ? i2 x2 y2 Hv2 _ _ Hl2]; subst; [|congruence|]; rewrite Hv in Hv2; injection Hv2 as <- <-; [done|congruence].
  - intros (i2 & x2 & Hv2 & Hl2 & _). congruence.
  - intros _ Ht. unfold is_term in Ht. congruence.
Qed.
Lemma visit_instTerm_ok V R e p v E : explored start V R e -> (l, n) ∈ V -> (length U < fuel + length V)%nat -> spells (paths_ e) p l ->
  instTermHeap t !! c = Some v -> wp (visit_instTerm assign blackBoxes mode_ s0 extract p c v) e (fun _ => handles V R e) E.
Proof.
  intros X Hn Hf Hp Hv. destruct v as [i x]. unfold visit_instTerm. cbn [instance_ bitTerm_].
  destruct (instTerm_of_instance s0 W _ _ _ Hv) as (I & HI & _). destruct (isLeaf_total blackBoxes s0 W i ltac:(by eexists)) as [b Hb].
  rewrite wp_bind. eapply pure_outcome_ok; [exact Hb|]. destruct b; [|by apply inside_ok].
  destruct (is_traversed assign mode_ s0 i) eqn:Htr; [by eapply traverse_ok|]. apply end_ok; [done..|by exists i, x].
Qed.
(** Out of the last instance. *)
Lemma outside_ok V R e p i l0 E : l = l0 ++ [i] -> explored start V R e -> (l, n) ∈ V -> (length U < fuel + length V)%nat -> spells (paths_ e) p l -> is_term s0 c ->
  wp (parentPath ← with_paths (path_getHeadPath p); instance ← with_paths (path_getTailInstance p);
      match instance with
      | None => undef
      | Some i => it ← instTerm_of s0 i (Some c); o ← with_paths (new_occurrence t parentPath (AComponent <$> it)); extract o false
      end) e (fun _ => handles V R e) E.
Proof.
  intros El X Hn Hf Hp Ht. pose proof (reach_valid _ Hreach) as Vn. rewrite El in Hp. destruct (spells_snoc_inv _ _ _ _ Hp) as (q & h & -> & Hq & Hh).
  unfold path_getHeadPath, path_getTailInstance, the_shared. rewrite wp_bind. apply with_paths_ok. wp_read Hq. rewrite wp_ret, set_paths_same.
  rewrite wp_bind. apply with_paths_ok. wp_read Hq. rewrite wp_ret, set_paths_same. cbn [tailInstance_ headSharedPath_].
  assert (Hi : is_Some (instHeap t !! i)). { pose proof (va_chain _ _ _ Vn) as Vc. cbn in Vc. rewrite El in Vc. apply chain_snoc_inv in Vc as [_ Hfol]. by eapply follows_alive. }
  destruct Hi as [I HI]. destruct (component_net s0 C _ _ Hc) as (d & Hd & Hnd & _ & Hcomp).
  assert (Hbit : bit_term_of t c (model_ (h_extra I))).
  { apply term_is_bit; [done..|]. rewrite Hd, <- Hnd. eapply (va_design _ _ _ Vn); [cbn; rewrite El; apply last_snoc|done]. }
  pose proof (getInstTerm_ok _ s0 i I c (fun _ _ => False) W HI Hbit (fun F => F)) as H. unfold wp in H.
  unfold instTerm_of. destruct (getInstTerm i (Some c) s0) as [[r|z|] s1] eqn:Eg; [|done..]. destruct H as (_ & it & -> & Hit).
  rewrite wp_bind. eapply pure_outcome_ok; [done|]. cbn [fmap option_fmap option_map].
  assert (Hs : step (l, c) (l0, it)) by (rewrite El; by apply step_up).
  rewrite wp_bind. apply with_paths_ok. eapply new_occurrence_here; [exact Hh|by left|]. rewrite set_paths_same.
  eapply wp_mono; [apply (extracts_step V R e l0 it); [done..|by split]| |done]. cbn beta. intros _ e'. apply handles_step.
  - intros l2 c2 Hs2. rewrite El in Hs2. inversion Hs2 as [? ? i2 x2 Hv2|l3 i3 ? it3 _ Hv3 E3|? ? ? i2 x2 y2 Hv2]; subst; unfold is_term in Ht; [congruence| |congruence].
    apply app_inj_tail in E3 as [-> ->]. split; [done|]. by eapply (instTerm_unique W).
  - intros (i2 & x2 & Hv2 & _). unfold is_term in Ht. congruence.
  - rewrite El. by destruct l0.
Qed.
Lemma top_ok V R e E : l = [] -> explored start V R e -> (l, n) ∈ V -> is_term s0 c -> wp (modify (add_term c)) e (fun _ => handles V R e) E.
Proof.
  intros El X Hn Ht. rewrite wp_modify. exists V, R. split_and!.
  - destruct X. split; try done; unfold add_term; cbn; case_bool_decide; try done.
    + intros x [Hx|Hx%list_elem_of_singleton]%elem_of_app; [auto|]. subst x. exists n. by rewrite <- El.
    + apply NoDup_app. split; [done|]. split; [|apply NoDup_singleton]. intros x Hx Hx'%list_elem_of_singleton. by subst x.
  - split; try done. unfold add_term. cbn. case_bool_decide; set_solver.
  - split.
    + intros l' c' n' Hs. rewrite El in Hs. inversion Hs as [? ? ? ? Hv|l1 ? ? ? _ _ E1|? ? ? ? ? ? Hv]; subst; unfold is_term in Ht; [congruence|by destruct l'|congruence].
    + intros (i & x & Hv & _). unfold is_term in Ht. congruence.
    + intros _ _. unfold add_term. cbn. case_bool_decide; set_solver.
Qed.
End component.

Lemma visit_term_ok V R e p c E : net_ s0 !! c = Some n -> explored start V R e -> (l, n) ∈ V -> (length U < fuel + length V)%nat -> spells (paths_ e) p l -> is_term s0 c ->
  wp (visit_term s0 extract p n c) e (fun _ => handles c V R e) E.
Proof.
  intros Hc X Hn Hf Hp Ht. unfold visit_term. destruct p as [p|]; cbn [path_empty is_none]; [|apply spells_None in Hp; by apply top_ok].
  destruct (spells_Some _ _ _ Hp) as (v & l0 & _ & _ & El). set (i := tailInstance_ v) in El.
  assert (Hmem : forall x, x ∈ getBitTerms_of s0 n <-> net_ s0 !! x = Some n /\ is_term s0 x).
  { intros x. unfold getBitTerms_of. rewrite list_elem_of_In, filter_In, <- list_elem_of_In, (elem_of_getComponents s0 n x C), is_none_true. done. }
  eapply wp_mono; [apply (wp_for_each _ (fun done e' => found_after V R e (fun V' R' e' => forall x, x ∈ done -> handled V' R' (equi_terms_ e') l x) e'))| |done].
  - exists V, R. split; [done|]. split; [apply grown_refl|]. by intros x ?%not_elem_of_nil.
  - intros done_ x rest e1 Hl (V1 & R1 & X1 & G1 & Hd). assert (Hx : x ∈ getBitTerms_of s0 n) by (rewrite Hl; set_solver). apply Hmem in Hx as [Hx Hxt].
    eapply wp_mono; [apply (outside_ok x Hx V1 R1 e1 (Some p) i l0); [done..|by apply (gr_visited _ _ _ _ _ _ G1)| |by eapply spells_mono; [apply G1|]|done]| |done].
    { pose proof (gr_more _ _ _ _ _ _ G1). lia. }
    cbn beta. intros _ e2 (V2 & R2 & X2 & G2 & Hh). exists V2, R2. split; [done|]. split; [by eapply grown_trans|].
    intros y [Hy|Hy%list_elem_of_singleton]%elem_of_app; [by eapply grown_handled; [exact G2|apply Hd]|by subst y].
  - cbn beta. intros _ e' (V' & R' & X' & G & Hd). exists V', R'. split; [done|]. split; [done|]. apply Hd. by apply Hmem.
Qed.
Lemma visit_component_ok V R e p from c0 first c E : net_ s0 !! c = Some n -> explored start V R e -> (l, n) ∈ V -> (length U < fuel + length V)%nat ->
  spells (paths_ e) p l -> object_ from = Some (AComponent c0) -> (first = false -> handled V R (equi_terms_ e) l c0) ->
  wp (visit_component assign blackBoxes mode_ s0 extract p n from first c) e (fun _ => handles c V R e) E.
Proof.
  intros Hc X Hn Hf Hp Hfrom Hfirst. unfold visit_component. rewrite Hfrom. destruct (negb first && bool_decide (Some (AComponent c) = Some (AComponent c0))) eqn:Eb.
  - apply andb_true_iff in Eb as [Hneg Hcc%bool_decide_eq_true_1]. apply negb_true_iff in Hneg. injection Hcc as ->. rewrite wp_ret.
    exists V, R. split; [done|]. split; [apply grown_refl|auto].
  - destruct (instTermHeap t !! c) as [v|] eqn:Ev; [by apply visit_instTerm_ok|by apply visit_term_ok].
Qed.

(** * A net *)

Definition add_net (o : SNLOccurrence) (e : extractor) : extractor := add_type (getType s0 n) (add_visited o e).
Lemma add_net_ok V R e o : explored start V R e -> (l, n) ∉ V -> denotes (paths_ e) o (node_place (l, n)) -> explored start (V ++ [(l, n)]) R (add_net o e).
Proof.
  intros X Hn Ho. destruct X as [X1 X2 X3 X4 X5 X6 X7 X8 X9 X10]. unfold add_net, add_type.
  destruct (merge_type (getType s0 n) (equi_type_ (add_visited o e), hasDrivingType_ (add_visited o e))) as [ty dr] eqn:Em. split; cbn; try done.
  - rewrite fmap_app. apply Forall2_app; [done|by constructor].
  - apply NoDup_app. split; [done|]. split; [|apply NoDup_singleton]. by intros a Ha ->%list_elem_of_singleton.
  - apply Forall_app_2; [done|by constructor].
  - eapply Forall_impl; [exact X7|]. intros r (m & Hm & Hr). exists m. split; [set_solver|done].
  - intros x Hx. destruct (X8 x Hx) as (m & Hm & Hr). exists m. split; [set_solver|done].
  - rewrite foldl_app. cbn. rewrite <- X10. by rewrite <- Em.
Qed.

Lemma extractComponents_ok V R e o from c0 first E : explored start V R e -> denotes (paths_ e) o (node_place (l, n)) ->
  object_ from = Some (AComponent c0) -> (first = false -> handled V R (equi_terms_ e) l c0) -> (length U < S fuel + length V)%nat ->
  wp (extractComponents assign blackBoxes mode_ s0 extract o from first) e (fun _ => found_after V R e (fun V' _ _ => (l, n) ∈ V')) E.
Proof.
  intros X Ho Hfrom Hfirst Hf. unfold extractComponents. rewrite wp_bind, wp_gets, wp_bind. apply with_paths_ok.
  assert (Hseen : seen (node_place (l, n))) by (left; by exists (l, n)).
  assert (Hall : Forall seen (node_place <$> V)).
  { apply Forall_fmap, Forall_forall. intros a Ha. left. exists a. split; [|done]. by apply (proj1 (Forall_forall _ _) (ex_reach _ _ _ _ X)). }
  eapply wp_mono; [exact (set_find_ok t W seen seen_placed Hord _ (ex_wf _ _ _ _ X) o _ _ _ (fun _ _ => False) Ho Hseen (ex_visited _ _ _ _ X) Hall)| |done].
  cbn beta. intros b s' (-> & Hb & _). rewrite set_paths_same.
  assert (Hin : (l, n) ∈ V <-> node_place (l, n) ∈ node_place <$> V).
  { split; [apply list_elem_of_fmap_2|]. intros ([l2 n2] & [= <- <-] & H)%list_elem_of_fmap. done. }
  rewrite <- Hin in Hb. destruct b; [rewrite wp_ret; exists V, R; split; [done|]; split; [apply grown_refl|by apply Hb]|].
  assert (Hn : (l, n) ∉ V) by (intros H%Hb; done). destruct Ho as [Hp Hobj]. rewrite wp_bind, wp_modify, Hobj. cbn [node_place snd]. rewrite wp_bind, wp_modify.
  change (add_type (getType s0 n) (add_visited o e)) with (add_net o e). set (e1 := add_net o e). set (V1 := V ++ [(l, n)]).
  assert (X1 : explored start V1 R e1) by by apply add_net_ok.
  assert (Hsame : paths_ e1 = paths_ e /\ equi_terms_ e1 = equi_terms_ e /\ instTermOccurrences_ e1 = instTermOccurrences_ e).
  { subst e1. unfold add_net, add_type. by destruct (merge_type _ _). }
  destruct Hsame as (Ep & Et & _). assert (HV1 : length V1 = S (length V)) by (subst V1; rewrite length_app; cbn; lia).
  assert (Hln : (l, n) ∈ V1) by (subst V1; set_solver). assert (HVV : V ⊆ V1) by (subst V1; set_solver).
  eapply wp_mono; [apply (wp_for_each _ (fun done e' => found_after V1 R e1 (fun V' R' e' => forall x, x ∈ done -> handled V' R' (equi_terms_ e') l x) e'))| |done].
  - exists V1, R. split; [done|]. split; [apply grown_refl|]. by intros x ?%not_elem_of_nil.
  - intros done_ x rest e2 Hl (V2 & R2 & X2 & G2 & Hd). assert (Hx : x ∈ getComponents s0 n) by (rewrite Hl; set_solver). apply (elem_of_getComponents s0 n x C) in Hx.
    pose proof (gr_more _ _ _ _ _ _ G2) as Hmore.
    eapply wp_mono; [apply (visit_component_ok V2 R2 e2 _ _ c0 first x); [done..|by apply (gr_visited _ _ _ _ _ _ G2)|lia| |done|]| |done].
    + eapply spells_mono; [apply G2|]. by rewrite Ep.
    + intros Hfst. eapply grown_handled; [exact G2|]. rewrite Et. eapply handled_mono; [exact HVV|done|done|by apply Hfirst].
    + cbn beta. intros _ e3 (V3 & R3 & X3 & G3 & Hh). exists V3, R3. split; [done|]. split; [by eapply grown_trans|].
      intros y [Hy|Hy%list_elem_of_singleton]%elem_of_app; [by eapply grown_handled; [exact G3|apply Hd]|by subst y].
  - cbn beta. intros _ e' (V' & R' & X' & G & Hd). exists V', R'. split; [done|]. split; [|by apply (gr_visited _ _ _ _ _ _ G)].
    destruct G as [G1 G2 G3 G4 G5 G6]. rewrite Ep in G1. rewrite Et in G4. split; [done|by etransitivity|done|done|lia|].
    intros a Ha Hna. destruct (decide (a = (l, n))) as [->|Hne]; [|apply G6; [done|]; subst V1; rewrite elem_of_app, list_elem_of_singleton; tauto].
    intros c Hc. apply Hd. by apply (elem_of_getComponents s0 n c C).
Qed.
End visits.

Lemma extractNet_ok fuel : extracts fuel (extractNet fuel).
Proof.
  induction fuel as [|fuel IH]; intros V R e l c o first E X [Hp Ho] Hr Hfirst Hf; [pose proof (explored_length _ _ _ X); lia|].
  cbn [Equipotential.extractNet]. unfold extractNet_, getComponentBitNetOccurrence, getComponentBitNet. rewrite wp_bind. apply with_paths_ok. rewrite Ho. cbn [comp_place snd].
  destruct (net_ s0 !! c) as [n|] eqn:Hc.
  - pose proof (reach_valid _ (Hr n eq_refl)) as Vn. eapply new_occurrence_ok; [exact Hp|apply Vn|intros i I Hi HI; exact (va_design _ _ _ Vn _ _ Hi HI)|].
    rewrite set_paths_same. unfold occurrence_isValid. cbn [object_ is_none negb].
    eapply wp_mono; [eapply (extractComponents_ok fuel _ IH l n (Hr n eq_refl)); [exact X|by split|exact Ho|exact Hfirst|exact Hf]| |done].
    cbn beta. intros _ e' (V' & R' & X' & G & Hin). exists V', R'. split_and!; [done..|]. by intros n' [= <-].
  - rewrite wp_ret, set_paths_same. unfold occurrence_isValid. cbn. exists V, R. split_and!; [done|apply grown_refl|done].
Qed.

(** * The whole search *)

(** [e] holds exactly what is linked to [start]. *)
Record equipotential_of (e : extractor) : Prop := {
  eo_ends : exists R, Forall2 (denotes (paths_ e)) (instTermOccurrences_ e) (comp_place <$> R) /\
    forall r, r ∈ R <-> exists m, rtc link start (r.1, m) /\ net_ s0 !! r.2 = Some m /\ is_leaf_term r.2;
  eo_ends_nodup : NoDup (instTermOccurrences_ e);
  eo_terms x : x ∈ equi_terms_ e <-> exists m, rtc link start ([], m) /\ net_ s0 !! x = Some m /\ is_term s0 x;
  eo_terms_nodup : NoDup (equi_terms_ e);
  eo_type T : T <> NStandard -> equi_type_ e = T <->
    (exists a, rtc link start a /\ getType s0 a.2 = T) /\ forall a, rtc link start a -> getType s0 a.2 = NStandard \/ getType s0 a.2 = T;
  eo_paths : paths_wf t (paths_ e) }.

Lemma equipotential_ok fuel p s c E : paths_wf t s -> spells s p start.1 -> net_ s0 !! c = Some start.2 -> (length U < fuel)%nat ->
  wp (extractNet fuel (mkOccurrence p (Some (AComponent c))) true) (mkExtractor [] [] [] NStandard false s)
    (fun _ e => equipotential_of e /\ pathHeap s ⊆ pathHeap (paths_ e)) E.
Proof.
  intros Ws Hp Hc Hf. assert (Es : (start.1, start.2) = start) by by destruct start.
  eapply wp_mono; [apply (extractNet_ok fuel [] [] _ start.1 c)| |done].
  - split; cbn; try done; try constructor. by intros x ?%not_elem_of_nil.
  - by split.
  - intros n' Hn'. assert (n' = start.2) as -> by congruence. by rewrite Es.
  - done.
  - cbn. lia.
  - cbn beta. intros _ e (V & R & X & G & Hn). specialize (Hn start.2 Hc). rewrite Es in Hn.
    assert (Hfin : forall a, a ∈ V -> finished V R (equi_terms_ e) a) by (intros a Ha; apply (gr_finished _ _ _ _ _ _ G); [done|apply not_elem_of_nil]).
    assert (Hclosed : forall a b, rtc link a b -> a ∈ V -> b ∈ V).
    { intros a b H. induction H as [|a b b' (x & y & Hx & Hs & Hy) _ IH]; [done|]. intros Ha. apply IH. destruct a, b.
      exact (ha_step _ _ _ _ _ (Hfin _ Ha x Hx) _ _ _ Hs Hy). }
    assert (HV : forall a, a ∈ V <-> rtc link start a).
    { intros a. split; [apply (proj1 (Forall_forall _ _) (ex_reach _ _ _ _ X))|]. intros H. by eapply Hclosed. }
    split; [|by apply G]. split.
    + exists R. split; [apply X|]. intros [l2 c2]. split.
      * intros Hr. destruct (proj1 (Forall_forall _ _) (ex_ends_found _ _ _ _ X) _ Hr) as (m & Hm & Hrm & He). exists m. split; [by apply HV|done].
      * intros (m & Hm & Hr & He). cbn in *. apply HV in Hm. exact (ha_end _ _ _ _ _ (Hfin _ Hm c2 Hr) He).
    + apply X.
    + intros x. split.
      * intros Hx. destruct (ex_terms _ _ _ _ X x Hx) as (m & Hm & Hr & Ht). exists m. split; [by apply HV|done].
      * intros (m & Hm & Hr & Ht). apply HV in Hm. exact (ha_term _ _ _ _ _ (Hfin _ Hm x Hr) eq_refl Ht).
    + apply X.
    + intros T HT. destruct (merge_types (fun a => getType s0 a.2) V) as [_ H]. rewrite <- (ex_type _ _ _ _ X) in H. cbn [fst] in H. rewrite (H T HT).
      by setoid_rewrite HV.
    + apply X.
Qed.
End runs.
