(* ===== verification/PathProperties.v ===== *)
(** What paths, the order of paths and equipotentials promise, with a netlist of
    two levels on which each promise is evaluated. *)
From stdpp Require Import relations.
From S2P Require Import Prelude NLID Store Bus Contents Connections Interface MergeAssigns NetlistRuns Paths PathSteps Equipotential OccurrenceOrder EquipotentialSteps.
Local Open Scope Z_scope.

(** * An example *)

(** Design 1 holds an instance of design 2, an assign, of design 3, and a leaf, of
    design 4; design 2 holds a leaf too. *)
Definition levels_designs : gmap loc design_fields :=
  <[1%positive:=mkDesignFields (mkDesignRef 1 0 0) false]> (<[2%positive:=mkDesignFields (mkDesignRef 1 0 1) false]>
  (<[3%positive:=mkDesignFields (mkDesignRef 0 0 0) true]> (<[4%positive:=mkDesignFields (mkDesignRef 0 0 1) true]> ∅))).
Definition levels_steps : list operation :=
  [ CreateScalarTermWithID 3 0 Input 0; CreateScalarTermWithID 3 1 Output 0; (* 1, 2 *)
    CreateScalarTerm 4 Input 0; CreateScalarTerm 2 Input 0; CreateScalarTerm 1 Input 0; (* 3, 4, 5 *)
    CreateScalarNet 1 0; CreateScalarNet 1 0; CreateScalarNet 2 0; (* 6, 7, 8 *)
    CreateInstance 2 4 0; CreateInstance 1 2 0; CreateInstance 1 3 0; CreateInstance 1 4 0; (* 9 with 10; 11 with 12; 13 with 14, 15; 16 with 17 *)
    SetNet 5 (Some 6%positive); SetNet 12 (Some 6%positive); SetNet 4 (Some 8%positive); SetNet 10 (Some 8%positive);
    SetNet 14 (Some 6%positive); SetNet 15 (Some 7%positive); SetNet 17 (Some 7%positive); RetypeNet 8 NSupply0 ].
Definition levels : netlist := default (initial levels_designs) (run_all levels_steps (initial levels_designs)).

Lemma levels_reachable : reachable levels.
Proof.
  apply (run_all_reachable levels_steps (initial levels_designs)).
  - constructor. intros d d' D D'. unfold levels_designs. rewrite !lookup_insert_Some, !lookup_empty. naive_solver.
  - vm_compute. reflexivity.
Qed.
(** The paths made by a list of operations. *)
Definition run_paths (t : structure) (os : list path_operation) : paths := foldl (fun s o => (run_path t o s).2) no_paths os.
Definition levels_paths : paths := run_paths (str levels) [OfInstance (Some 11%positive); Snoc (Some 1%positive) (Some 9%positive)].
Lemma levels_paths_reachable : reachable_paths (str levels) levels_paths.
Proof.
  unfold levels_paths, run_paths. cbn [foldl]. apply reachable_path; [apply reachable_path; [apply reachable_none|]|].
  - intros j [= <-]. vm_compute. eexists. reflexivity.
  - split; intros j [= <-]; vm_compute; eexists; reflexivity.
Qed.

(** * Paths *)

Lemma wp_returns {S A} (m : prog S A) s (a : A) (s' : S) : wp m s (fun r s'' => r = a /\ s'' = s') (fun _ _ => False) -> m s = (Ret a, s').
Proof. unfold wp. destruct (m s) as [[r|e|] s'']; [by intros [-> ->]|done..]. Qed.
Lemma getInstances_returns t s p l : paths_wf t s -> spells s p l -> path_getInstances p s = (Ret l, s).
Proof.
  intros Ws Hp. unfold path_getInstances. destruct p as [p|]; [|by apply spells_None in Hp as ->]. apply wp_returns. unfold enough. rewrite wp_bind, wp_gets.
  apply (getInstances_ok _ s p l); [done|]. pose proof (spells_length t s Ws _ _ Hp). lia.
Qed.
Lemma getInstances_spells t s p l s' : paths_wf t s -> handle s p -> path_getInstances p s = (Ret l, s') -> spells s p l /\ s' = s.
Proof. intros Ws Hp H. destruct (handle_spells t s p Ws Hp) as (k & Hk & _). rewrite (getInstances_returns t s p k Ws Hk) in H. by injection H as <- <-. Qed.

(** C26. Paths are kept once: two paths are equal exactly when they have the same
    instances, which follow one another in the hierarchy. Whatever is done with
    paths, a path that is there stays and keeps its instances; no operation is
    undefined, and one that returns gives a path that is there. *)
Theorem paths_interned s0 s : reachable s0 -> reachable_paths (str s0) s ->
  (forall p q, handle s p -> handle s q -> exists l l', path_getInstances p s = (Ret l, s) /\ path_getInstances q s = (Ret l', s) /\
     chain (str s0) l /\ (path_eq p q = true <-> l = l')) /\
  (forall o, allowed_path (str s0) o s ->
     let (r, s') := run_path (str s0) o s in
     match r with Ret p => handle s' p | Throw _ => True | Undef => False end /\
     forall q, handle s q -> handle s' q /\ (path_getInstances q s').1 = (path_getInstances q s).1).
Proof.
  intros [W C]%reachable_netlist_wf Ws%reachable_paths_wf; [|done]. split.
  - intros p q Hp Hq. destruct (handle_spells _ s p Ws Hp) as (l & Hl & Hc). destruct (handle_spells _ s q Ws Hq) as (l' & Hl' & _). exists l, l'.
    split_and!; [by eapply getInstances_returns..|done|]. unfold path_eq. rewrite bool_decide_eq_true. split; [intros <-; by eapply spells_fun|].
    intros <-. by eapply (spells_inj (str s0) s Ws).
  - intros o Ho. pose proof (run_path_keeps _ W s o Ws Ho) as H. unfold keeps, wp in H. destruct (run_path (str s0) o s) as [r s'].
    assert (Hs : match r with Ret p => handle s' p | Throw _ => True | Undef => False end /\ (paths_wf (str s0) s' /\ pathHeap s ⊆ pathHeap s')) by (destruct r; [tauto|tauto|done]).
    destruct Hs as (Hr & Ws' & Hsub). split; [done|]. intros q Hq. split; [by eapply handle_mono|].
    destruct (handle_spells _ s q Ws Hq) as (l & Hl & _). rewrite (getInstances_returns _ s q l Ws Hl).
    by rewrite (getInstances_returns _ s' q l Ws' (spells_mono _ _ _ _ Hsub Hl)).
Qed.
Lemma paths_interned_witness : reachable_paths (str levels) levels_paths /\
  exists l l', path_getInstances (Some 1%positive) levels_paths = (Ret l, levels_paths) /\ path_getInstances (Some 2%positive) levels_paths = (Ret l', levels_paths) /\ l <> l'.
Proof.
  split; [exact levels_paths_reachable|]. destruct (paths_interned levels levels_paths levels_reachable levels_paths_reachable) as [H _].
  destruct (H (Some 1%positive) (Some 2%positive)) as (l & l' & H1 & H2 & _ & H3); [intros q [= <-]; vm_compute; eexists; reflexivity..|].
  exists l, l'. split_and!; [exact H1|exact H2|]. intros E. apply H3 in E. vm_compute in E. discriminate E.
Defined.

Lemma made_chain t s l p s' : made t s l p s' -> chain t l /\ path_getInstances p s' = (Ret l, s').
Proof. intros (Ws & _ & Hp & _). split; [by eapply spells_chain|by eapply getInstances_returns]. Qed.

(** A path extended by an instance, at its end or before its beginning, is
    the path of the longer list of instances; the constructors throw exactly when
    one of these instances is not of the model of the one before it. *)
Theorem path_constructors s0 s p l i : reachable s0 -> reachable_paths (str s0) s -> handle s p -> path_getInstances p s = (Ret l, s) ->
  is_Some (instHeap (str s0) !! i) ->
  match path_snoc (str s0) p (Some i) s with
  | (Ret q, s') => chain (str s0) (l ++ [i]) /\ path_getInstances q s' = (Ret (l ++ [i]), s')
  | (Throw _, s') => ~ chain (str s0) (l ++ [i]) /\ s' = s
  | (Undef, _) => False
  end /\
  match path_cons (str s0) (Some i) p s with
  | (Ret q, s') => chain (str s0) (i :: l) /\ path_getInstances q s' = (Ret (i :: l), s')
  | (Throw _, _) => ~ chain (str s0) (i :: l)
  | (Undef, _) => False
  end.
Proof.
  intros [W C]%reachable_netlist_wf Ws%reachable_paths_wf Hp Hl Hi; [|done]. apply (getInstances_spells (str s0)) in Hl as [Hl _]; [|done..]. split.
  - pose proof (path_snoc_result (str s0) s p l i Ws Hl Hi) as H. unfold wp in H. destruct (path_snoc (str s0) p (Some i) s) as [[q|e|] s']; [|tauto|done].
    by eapply made_chain.
  - pose proof (path_cons_result (str s0) s i p l Hi Ws Hl) as H. unfold wp in H. destruct (path_cons (str s0) (Some i) p s) as [[q|e|] s']; [|done..].
    by eapply made_chain.
Qed.
Lemma path_constructors_witness : exists q s', path_snoc (str levels) (Some 1%positive) (Some 9%positive) levels_paths = (Ret q, s') /\
  path_getInstances q s' = (Ret [11; 9]%positive, s').
Proof.
  assert (Hl : path_getInstances (Some 1%positive) levels_paths = (Ret [11]%positive, levels_paths)) by (vm_compute; reflexivity).
  assert (Hh : handle levels_paths (Some 1%positive)) by (intros q [= <-]; vm_compute; eexists; reflexivity).
  assert (Hi : is_Some (instHeap (str levels) !! 9%positive)) by (vm_compute; eexists; reflexivity).
  pose proof (path_constructors levels levels_paths (Some 1%positive) [11%positive] 9 levels_reachable levels_paths_reachable Hh Hl Hi) as [H _].
  assert (Hr : match (path_snoc (str levels) (Some 1%positive) (Some 9%positive) levels_paths).1 with Ret _ => true | _ => false end = true) by (vm_compute; reflexivity).
  destruct (path_snoc (str levels) (Some 1%positive) (Some 9%positive) levels_paths) as [[q|e|] s']; [|discriminate Hr..]. exists q, s'.
  split; [reflexivity|exact (proj2 H)].
Defined.

(** C27. The identifiers of the instances of a path, read from the design it
    starts in, name the same path, and naming it makes no new one. *)
Theorem path_descriptor_roundtrip s0 s p : reachable s0 -> reachable_paths (str s0) s -> handle s p ->
  exists ids top s1, path_getIDDescriptor (str s0) p s = (Ret ids, s1) /\ path_getDesign (str s0) p s1 = (Ret top, s1) /\
    path_of_ids (str s0) top ids s1 = (Ret p, s1) /\ (path_getInstances p s1).1 = (path_getInstances p s).1.
Proof.
  intros [W C]%reachable_netlist_wf Ws%reachable_paths_wf Hp; [|done]. set (t := str s0) in *. destruct (handle_spells t s p Ws Hp) as (l & Hl & Hc).
  assert (Hd : wp (path_getIDDescriptor t p) s (fun r s1 => paths_wf t s1 /\ pathHeap s ⊆ pathHeap s1 /\
    Forall2 (fun id i => exists inst, instHeap t !! i = Some inst /\ id = h_id inst) r l) (fun _ _ => False)).
  { unfold path_getIDDescriptor, enough. rewrite wp_bind, wp_gets. apply describe_ok; [done..|]. pose proof (spells_length t s Ws _ _ Hl). lia. }
  unfold wp in Hd. destruct (path_getIDDescriptor t p s) as [[ids|e|] s1] eqn:Ed; [|done..]. destruct Hd as (Ws1 & Hsub & Hids).
  pose proof (spells_mono _ _ _ _ Hsub Hl) as Hl1. pose proof (spells_length t s1 Ws1 _ _ Hl1) as Hlen.
  assert (Hinst : (path_getInstances p s1).1 = (path_getInstances p s).1) by (by rewrite (getInstances_returns t s p l Ws Hl), (getInstances_returns t s1 p l Ws1 Hl1)).
  destruct l as [|i l].
  { apply spells_empty in Hl as ->. apply Forall2_nil_inv_r in Hids as ->. by exists [], None, s1. }
  destruct p as [p|]; [|by apply spells_None in Hl]. destruct (chain_alive t _ i Hc) as [inst Hi]; [left|].
  exists ids, (Some (h_design inst)), s1. split_and!; [done| | |exact Hinst].
  - apply wp_returns. unfold path_getDesign, enough. rewrite wp_bind, wp_gets, wp_bind. cbn in Hlen.
    eapply wp_mono; [apply (getDesign_ok t _ s1 p i inst l (fun _ _ => False)); [done|exact Hl1|exact Hi|lia]| |done]. cbn beta. intros ? ? [-> ->]. by rewrite wp_ret.
  - apply wp_returns. eapply wp_mono; [apply (path_of_descriptor_ok t _ (fun id i => exists inst, instHeap t !! i = Some inst /\ id = h_id inst) s1 (i :: l) ids (h_design inst) (fun _ _ => False)); [done| |done| |done]| |done].
    + intros id j J (J' & HJ' & ->) HJ. assert (J' = J) as -> by congruence. f_equal. by apply getInstance_there.
    + intros j J [= <-] HJ. congruence.
    + cbn beta. intros q s2 (Ws2 & _ & Hq & Hsame). pose proof (Hsame _ Hl1) as ->. split; [|done]. by eapply (spells_inj t s1 Ws1).
Qed.
Lemma path_descriptor_roundtrip_witness : exists ids top s1, path_getIDDescriptor (str levels) (Some 2%positive) levels_paths = (Ret ids, s1) /\ ids = [0; 0] /\
  path_of_ids (str levels) top ids s1 = (Ret (Some 2%positive), s1).
Proof.
  assert (Hh : handle levels_paths (Some 2%positive)) by (intros q [= <-]; vm_compute; eexists; reflexivity).
  destruct (path_descriptor_roundtrip levels levels_paths (Some 2%positive) levels_reachable levels_paths_reachable Hh) as (ids & top & s1 & H1 & H2 & H3 & _).
  exists ids, top, s1. split_and!; [exact H1| |exact H3]. apply (f_equal fst) in H1. cbn [fst] in H1.
  assert (H : (path_getIDDescriptor (str levels) (Some 2%positive) levels_paths).1 = Ret [0; 0]) by (vm_compute; reflexivity). congruence.
Defined.

(** * Equipotentials *)

(** C4. On a reachable netlist in which no design contains itself ([rank]) and
    the assign primitive has its two terminals ([assign_model]), starting on a
    component of a net that is inside no leaf ([valid]), and when the order of
    paths that the code's sets use is a strict weak order on the places it visits
    ([ordered]), the extractor returns; it has found exactly the terminals of leaves, each with its path and each once, and
    exactly the terminals of the top, that are linked to that net through the
    terminals of instances, in and out of their models and, when it is to,
    across assigns; its type is the one that all typed nets it met agree on.
    Links go both ways. The order of paths is one when the places are at most one
    instance deep ([ordered_shallow]); at two levels it may be none, and a set
    that uses it is undefined ([path_lt_both_ways], [equipotential_undefined]). *)
Theorem equipotential_connected assign blackBoxes mode_ s0 s p c l n (rank : loc -> nat) :
  reachable s0 -> reachable_paths (str s0) s -> handle s p -> path_getInstances p s = (Ret l, s) -> net_ s0 !! c = Some n ->
  valid blackBoxes s0 (l, n) -> assign_model assign s0 ->
  (forall i I, instHeap (str s0) !! i = Some I -> (rank (model_ (h_extra I)) < rank (h_design I))%nat) ->
  ordered (str s0) (seen assign blackBoxes mode_ s0 (l, n)) ->
  (exists enough, forall fuel, (enough <= fuel)%nat -> exists e,
     equipotential assign blackBoxes mode_ s0 fuel (mkOccurrence p (Some (AComponent c))) s = (Ret tt, e) /\
     equipotential_of assign blackBoxes mode_ s0 (l, n) e) /\
  (forall a b, rtc (link assign blackBoxes mode_ s0) (l, n) a -> link assign blackBoxes mode_ s0 a b -> link assign blackBoxes mode_ s0 b a).
Proof.
  intros [W C]%reachable_netlist_wf Ws%reachable_paths_wf Hp Hl Hc V A Hrank Hord; [|done]. apply (getInstances_spells (str s0)) in Hl as [Hl _]; [|done..]. split.
  - set (U := all_nodes s0 rank). assert (HU : forall a, rtc (link assign blackBoxes mode_ s0) (l, n) a -> a ∈ U).
    { intros a Ha. apply (valid_all_nodes blackBoxes s0 rank Hrank). by eapply (valid_reach assign blackBoxes mode_ s0 W C (l, n)). }
    exists (S (length U)). intros fuel Hf.
    pose proof (equipotential_ok assign blackBoxes mode_ s0 W C A (l, n) V U HU Hord fuel p s c (fun _ _ => False) Ws Hl Hc Hf) as H.
    unfold wp in H. unfold equipotential. destruct (extractNet _ _ _ _ fuel _ _ _) as [[[]|e|] x]; [|done..]. exists x. split; [done|apply H].
  - intros a b Ha. apply link_sym; [done|]. by eapply (valid_reach assign blackBoxes mode_ s0 W C (l, n)).
Qed.

(** On the example, from the terminal of the top. *)
Lemma levels_valid_shallow a : valid ∅ levels a -> (length a.1 <= 1)%nat.
Proof.
  intros [Vc Vi _ _]. destruct a as [l n]. cbn in *.
  assert (Hall : forall i, isLeaf ∅ levels i = Ret false -> i = 11%positive).
  { intros i Hi. unfold isLeaf in Hi. destruct (instHeap (str levels) !! i) as [I|] eqn:E; [|done].
    assert (Hin : (i, I) ∈ map_to_list (instHeap (str levels))) by by apply elem_of_map_to_list.
    assert (Hc : forallb (fun p => match isLeaf ∅ levels p.1 with Ret false => bool_decide (p.1 = 11%positive) | _ => true end) (map_to_list (instHeap (str levels))) = true) by (vm_compute; reflexivity).
    rewrite forallb_forall in Hc. specialize (Hc (i, I) (proj1 (list_elem_of_In _ _) Hin)). cbn [fst] in Hc. unfold isLeaf in Hc. rewrite E, Hi in Hc.
    by apply bool_decide_eq_true_1 in Hc. }
  destruct l as [|i [|j l]]; cbn; [lia..|]. exfalso. apply Forall_cons in Vi as [Hi Vi]. apply Forall_cons in Vi as [Hj _]. apply Hall in Hi, Hj. subst i j.
  change (11%positive :: 11%positive :: l) with ([11; 11]%positive ++ l) in Vc. apply chain_app in Vc. change [11; 11]%positive with ([11]%positive ++ [11]%positive) in Vc.
  apply chain_snoc_inv in Vc as [_ (inst & Hinst & J & HJ & Hm)]. cbn [last] in HJ. vm_compute in Hinst. vm_compute in HJ. rewrite Hinst in HJ. injection HJ as <-. injection Hinst as <-. discriminate Hm.
Qed.
Lemma levels_assign : assign_model (Some 3%positive) levels.
Proof.
  intros A [= <-]. exists 1%positive, 2%positive. split_and!; [vm_compute; reflexivity..|done|]. intros x.
  destruct (reachable_netlist_wf levels levels_reachable) as [W _]. rewrite <- (InstanceSteps.elem_of_getBitTerms _ (str levels) 3 x W).
  assert (E : getBitTerms (str levels) 3 = [1; 2]%positive) by (vm_compute; reflexivity). rewrite E. rewrite !elem_of_cons, elem_of_nil. tauto.
Qed.
Definition levels_rank (d : loc) : nat := if decide (d = 1%positive) then 2 else if decide (d = 2%positive) then 1 else 0.
Lemma levels_ranked i I : instHeap (str levels) !! i = Some I -> (levels_rank (model_ (h_extra I)) < levels_rank (h_design I))%nat.
Proof.
  intros Hi. assert (H : checks_instances (fun _ J => (levels_rank (model_ (h_extra J)) <? levels_rank (h_design J))%nat) (str levels) = true) by (vm_compute; reflexivity).
  by apply Nat.ltb_lt, (checks_instances_sound _ _ H i I Hi).
Qed.
Lemma levels_start : valid ∅ levels ([], 6%positive).
Proof. split; [exact (chain_nil _)|exact (List.Forall_nil _)|vm_compute; eexists; reflexivity|intros i I [=]]. Qed.
Lemma levels_ordered : ordered (str levels) (seen (Some 3%positive) ∅ TraverseAssigns levels ([], 6%positive)).
Proof.
  destruct (reachable_netlist_wf levels levels_reachable) as [W C]. apply ordered_shallow.
  assert (H : forall a, rtc (link (Some 3%positive) ∅ TraverseAssigns levels) ([], 6%positive) a -> (length a.1 <= 1)%nat).
  { intros a Ha. apply levels_valid_shallow. exact (valid_reach _ _ _ _ W C _ _ Ha levels_start). }
  intros x [(a & Ha & ->)|(a & c & Ha & _ & ->)]; cbn; by apply H.
Qed.
Lemma equipotential_connected_witness : exists fuel e,
  equipotential (Some 3%positive) ∅ TraverseAssigns levels fuel (mkOccurrence None (Some (AComponent 5%positive))) no_paths = (Ret tt, e) /\
  5%positive ∈ equi_terms_ e /\ exists o, o ∈ instTermOccurrences_ e /\ denotes (paths_ e) o ([11%positive], AComponent 10%positive).
Proof.
  assert (Hc : net_ levels !! 5%positive = Some 6%positive) by (vm_compute; reflexivity).
  destruct (equipotential_connected (Some 3%positive) ∅ TraverseAssigns levels no_paths None 5 [] 6 levels_rank levels_reachable (reachable_none _)
    ltac:(done) eq_refl Hc levels_start levels_assign levels_ranked levels_ordered) as [[fuel H] _].
  destruct (H fuel ltac:(lia)) as (e & He & [(R & HR & HRin) _ Hterms _ _ _]). exists fuel, e. split; [exact He|]. split.
  - apply Hterms. exists 6%positive. split; [reflexivity|]. split; [exact Hc|vm_compute; reflexivity].
  - assert (Hin : ([11%positive], 10%positive) ∈ R).
    { apply HRin. exists 8%positive. split; [|split; [vm_compute; reflexivity|]].
      - apply rtc_once. exists 12%positive, 4%positive. split; [vm_compute; reflexivity|]. split; [|vm_compute; reflexivity].
        apply (step_down _ _ _ _ [] 12 11 4); vm_compute; reflexivity.
      - exists 9%positive, 3%positive. split_and!; vm_compute; reflexivity. }
    apply list_elem_of_lookup_1 in Hin as [j Hj]. assert (Hj' : (comp_place <$> R) !! j = Some ([11%positive], AComponent 10%positive)) by (rewrite list_lookup_fmap; exact (f_equal (fmap comp_place) Hj)).
    destruct (Forall2_lookup_r _ _ _ _ _ HR Hj') as (o & Ho & Hd). exists o. split; [by eapply list_elem_of_lookup_2|exact Hd].
Defined.

(** What the extractor finds there, with and without going across assigns. *)
Definition found_from (mode_ : mode) : option (list SNLOccurrence * list loc * net_type) :=
  match equipotential (Some 3%positive) ∅ mode_ levels 10 (mkOccurrence None (Some (AComponent 5%positive))) no_paths with
  | (Ret _, e) => Some (instTermOccurrences_ e, equi_terms_ e, equi_type_ e)
  | _ => None
  end.
Lemma levels_traversed : found_from TraverseAssigns =
  Some ([mkOccurrence (Some 1%positive) (Some (AComponent 10%positive)); mkOccurrence None (Some (AComponent 17%positive))], [5%positive], NSupply0).
Proof. vm_compute. reflexivity. Qed.
Lemma levels_standard : found_from Standard =
  Some ([mkOccurrence (Some 1%positive) (Some (AComponent 10%positive)); mkOccurrence None (Some (AComponent 14%positive))], [5%positive], NSupply0).
Proof. vm_compute. reflexivity. Qed.

(** * Where the order of paths is not one *)

(** Design 1 holds two instances of design 2, which holds two instances of design
    3; one net goes through all of them. *)
Definition twice_designs : gmap loc design_fields :=
  <[1%positive:=mkDesignFields (mkDesignRef 1 0 0) false]> (<[2%positive:=mkDesignFields (mkDesignRef 1 0 1) false]>
  (<[3%positive:=mkDesignFields (mkDesignRef 1 0 2) false]> ∅)).
Definition twice_steps : list operation :=
  [ CreateScalarTerm 3 Input 0; CreateScalarTerm 2 Input 0; CreateScalarNet 3 0; CreateScalarNet 2 0; CreateScalarNet 1 0; (* 1 to 5 *)
    CreateInstance 2 3 0; CreateInstance 2 3 0; CreateInstance 1 2 0; CreateInstance 1 2 0; (* 6 with 7; 8 with 9; 10 with 11; 12 with 13 *)
    SetNet 1 (Some 3%positive); SetNet 2 (Some 4%positive); SetNet 7 (Some 4%positive); SetNet 9 (Some 4%positive);
    SetNet 11 (Some 5%positive); SetNet 13 (Some 5%positive) ].
Definition after_twice {B} (see : netlist -> B) : option B := see <$> run_all twice_steps (initial twice_designs).
(** The second instance in the first one, and the first in the second, are each
    less than the other. *)
Lemma path_lt_both_ways :
  after_twice (fun s =>
    let p := run_paths (str s) [OfInstance (Some 10%positive); OfInstance (Some 12%positive); Snoc (Some 1%positive) (Some 8%positive); Snoc (Some 2%positive) (Some 6%positive)] in
    ((path_getInstances (Some 3%positive) p).1, (path_getInstances (Some 4%positive) p).1,
     (path_lt (str s) (Some 3%positive) (Some 4%positive) p).1, (path_lt (str s) (Some 4%positive) (Some 3%positive) p).1)) =
  Some (Ret [10; 8]%positive, Ret [12; 6]%positive, Ret true, Ret true).
Proof. vm_compute. reflexivity. Qed.
(** The extractor keeps the nets at the end of these paths in a set ordered so. *)
Lemma equipotential_undefined :
  after_twice (fun s => (equipotential None ∅ Standard s 20 (mkOccurrence None (Some (AComponent 11%positive))) no_paths).1) = Some Undef.
Proof. vm_compute. reflexivity. Qed.
(** One path is less than another that is not greater. *)
Lemma path_gt_not_lt :
  after_twice (fun s =>
    let p := run_paths (str s) [OfInstance (Some 10%positive); OfInstance (Some 12%positive); Snoc (Some 1%positive) (Some 8%positive); Snoc (Some 2%positive) (Some 6%positive)] in
    ((path_gt (str s) (Some 4%positive) (Some 3%positive) p).1, (path_lt (str s) (Some 3%positive) (Some 4%positive) p).1)) = Some (Ret false, Ret true).
Proof. vm_compute. reflexivity. Qed.

(** Destroying the first instance of a path: the path that ends in the second one
    stays in that one, and its head is gone. *)
Lemma dangling_head :
  let p := destroy_sharedPaths 11 levels_paths in
  ((getSharedPath (str levels) 9 (Some 1%positive) p).1, (path_getHeadPath (Some 2%positive) p).1, (path_size (Some 2%positive) p).1) =
  (Ret (Some 2%positive), Ret (Some 1%positive), Undef).
Proof. vm_compute. reflexivity. Qed.
