(* ===== verification/DNL.v ===== *)
(** The flat netlist: the hierarchy below a top design unfolded into one list of
    instances and one list of their terminals, and the nets of that flat view,
    the isos (dnl/DNL.h, DNL.cpp, DNL_impl.h). The netlist it is made from does
    not change, apart from the order identifiers of its objects. *)
From stdpp Require Import sorting.
From S2P Require Import Prelude NLID Store Bus Contents Connections Interface MergeAssigns Paths Equipotential.
Local Open Scope Z_scope.

(** * Identifiers *)

(** A [DNLID] is an index into a vector in memory; [None] is [DNLID_MAX]. *)
Notation DNLID := (option nat).
Definition id_le (a b : DNLID) : bool := match a, b with _, None => true | None, Some _ => false | Some a, Some b => (a <=? b)%nat end.
Definition id_lt (a b : DNLID) : bool := negb (id_le b a).
(** The indices from [first] to [second], both included. *)
Definition id_range (r : DNLID * DNLID) : list nat := match r with (Some a, Some b) => seq a (S b - a) | _ => [] end.

(** * Order identifiers *)

(** [orderID_] of instances and of bit terminals. *)
Record orders := mkOrders { inst_orders : gmap loc Z; bit_orders : gmap loc Z }.
Definition unset_order : Z := 2 ^ 32 - 1.
Definition inst_getOrderID (o : orders) (i : loc) : Z := default unset_order (inst_orders o !! i).
Definition bit_getOrderID (o : orders) (x : loc) : Z := default unset_order (bit_orders o !! x).
(** [SNLInstance::getInstTerms] *)
Definition getInstTerms (t : structure) (i : loc) : list loc :=
  match instHeap t !! i with Some inst => getBusBits (instTerms_ (h_extra inst)) | None => [] end.

Section order_ids.
Context (t : structure).
Definition inst_getModel {S} (i : loc) : prog S loc := I ← deref (fun _ => instHeap t !! i); mret (model_ (h_extra I)).
Definition instTerm_getBitTerm {S} (it : loc) : prog S loc := v ← deref (fun _ => instTermHeap t !! it); mret (bitTerm_ v).
Definition set_instOrderID (i : loc) (k : Z) (o : orders) : orders := mkOrders (<[i:=k]> (inst_orders o)) (bit_orders o).
Definition set_bitOrderID (x : loc) (k : Z) (o : orders) : orders := mkOrders (inst_orders o) (<[x:=k]> (bit_orders o)).
Fixpoint order_bits (id : Z) (l : list loc) : prog orders unit :=
  match l with [] => mret tt | x :: l => modify (set_bitOrderID x id) ;; order_bits ((id + 1) mod 2 ^ 32) l end.
Fixpoint order_instTerms (id : Z) (l : list loc) : prog orders unit :=
  match l with
  | [] => mret tt
  | it :: l => x ← instTerm_getBitTerm it; modify (set_bitOrderID x id) ;; order_instTerms ((id + 1) mod 2 ^ 32) l
  end.
(** The instances of a design; their models go onto the stack. *)
Fixpoint order_instances (id : Z) (l : list loc) (stack : list loc) : prog orders (list loc) :=
  match l with
  | [] => mret stack
  | i :: l =>
      modify (set_instOrderID i id) ;; m ← inst_getModel i; order_instTerms 0 (getInstTerms t i) ;;
      order_instances ((id + 1) mod 2 ^ 32) l (m :: stack)
  end.
Fixpoint order_designs (fuel : nat) (stack : list loc) : prog orders unit :=
  match stack with
  | [] => mret tt
  | d :: stack =>
      match fuel with O => undef | S fuel => stack ← order_instances 0 (getInstances t d) stack; order_designs fuel stack end
  end.
(** [OrderIDInitializer::process] *)
Definition initOrderIDs (fuel : nat) (top : loc) : prog orders unit :=
  order_bits 0 (getBitTerms t top) ;; order_designs fuel [top].
End order_ids.

(** [std::set] with the comparison of order identifiers: of two elements with
    one identifier the first stays. *)
Definition sorted_by (key : loc -> Z) (l : list loc) : list loc := in_order (foldl (fun m x => set_insert (key x) x m) ∅ l).

(** * Instances and terminals *)

Record DNLInstanceFull := mkDNLInstance {
  dnl_children : DNLID * DNLID; dnl_instance : option loc; dnl_id : DNLID; dnl_parent : DNLID; dnl_terms : DNLID * DNLID;
  dfsIn_ : DNLID; dfsOut_ : DNLID }.
Record DNLTerminalFull := mkDNLTerminal { DNLInstID_ : DNLID; dnl_terminal : option loc; dnl_bitTerminal : option loc; dnl_termID : DNLID }.
Definition null_instance : DNLInstanceFull := mkDNLInstance (Some 0, Some 0)%nat None None None (Some 0, Some 0)%nat None None.
Definition null_terminal : DNLTerminalFull := mkDNLTerminal None None None None.
Definition new_DNLInstance (instance : option loc) (id parent : DNLID) : DNLInstanceFull :=
  mkDNLInstance (Some 0, Some 0)%nat instance id parent (Some 0, Some 0)%nat None None.

Definition setTermsIndexes (r : DNLID * DNLID) (I : DNLInstanceFull) : DNLInstanceFull :=
  mkDNLInstance (dnl_children I) (dnl_instance I) (dnl_id I) (dnl_parent I) r (dfsIn_ I) (dfsOut_ I).
Definition setChildrenIndexes (r : DNLID * DNLID) (I : DNLInstanceFull) : DNLInstanceFull :=
  mkDNLInstance r (dnl_instance I) (dnl_id I) (dnl_parent I) (dnl_terms I) (dfsIn_ I) (dfsOut_ I).
Definition setDFSInterval (dfsIn dfsOut : DNLID) (I : DNLInstanceFull) : DNLInstanceFull :=
  mkDNLInstance (dnl_children I) (dnl_instance I) (dnl_id I) (dnl_parent I) (dnl_terms I) dfsIn dfsOut.
Definition isTop (I : DNLInstanceFull) : bool := bool_decide (dnl_id I = Some 0%nat).
Definition dnl_isNull (I : DNLInstanceFull) : bool := is_none (dnl_id I).
Definition dnl_isLeaf (I : DNLInstanceFull) : bool := bool_decide (fst (dnl_children I) = snd (dnl_children I)).
Definition isUnder (I parent : DNLInstanceFull) : bool :=
  negb (is_none (dnl_id I)) && negb (is_none (dnl_id parent)) && id_le (dfsIn_ parent) (dfsIn_ I) && id_lt (dfsIn_ I) (dfsOut_ parent).
Definition isTopPort (T : DNLTerminalFull) : bool := is_none (dnl_terminal T).

(** * The unfolding *)

Record flat := mkFlat {
  flat_orders : orders; DNLInstances_ : list DNLInstanceFull; leaves_ : list DNLID; DNLTerms_ : list DNLTerminalFull;
  designInstanceIDs_ : gmap NLID DNLID }.
Notation on_flat := (prog flat).
Definition set_orders_of (o : orders) (s : flat) : flat := mkFlat o (DNLInstances_ s) (leaves_ s) (DNLTerms_ s) (designInstanceIDs_ s).
Definition push_instance (I : DNLInstanceFull) (s : flat) : flat :=
  mkFlat (flat_orders s) (DNLInstances_ s ++ [I]) (leaves_ s) (DNLTerms_ s) (designInstanceIDs_ s).
Definition alter_instance (f : DNLInstanceFull -> DNLInstanceFull) (k : nat) (s : flat) : flat :=
  mkFlat (flat_orders s) (alter f k (DNLInstances_ s)) (leaves_ s) (DNLTerms_ s) (designInstanceIDs_ s).
Definition push_leaf (k : DNLID) (s : flat) : flat :=
  mkFlat (flat_orders s) (DNLInstances_ s) (leaves_ s ++ [k]) (DNLTerms_ s) (designInstanceIDs_ s).
Definition push_terminal (T : DNLTerminalFull) (s : flat) : flat :=
  mkFlat (flat_orders s) (DNLInstances_ s) (leaves_ s) (DNLTerms_ s ++ [T]) (designInstanceIDs_ s).
Definition put_designInstance (k : NLID) (id : DNLID) (s : flat) : flat :=
  mkFlat (flat_orders s) (DNLInstances_ s) (leaves_ s) (DNLTerms_ s) (<[k:=id]> (designInstanceIDs_ s)).
Definition nothing_flat (o : orders) : flat := mkFlat o [] [] [] ∅.

(** [getDNLInstanceFromID], [getDNLTerminalFromID]: the last, the null object
    once it is there, for [DNLID_MAX]. *)
Definition getDNLInstanceFromID (s : flat) (id : DNLID) : option DNLInstanceFull :=
  match id with None => last (DNLInstances_ s) | Some k => DNLInstances_ s !! k end.
Definition getDNLTerminalFromID (s : flat) (id : DNLID) : option DNLTerminalFull :=
  match id with None => last (DNLTerms_ s) | Some k => DNLTerms_ s !! k end.

Section flatten.
Context (t : structure).

(** [registerDesignInstance] *)
Definition registerDesignInstance (d : loc) (id : DNLID) : on_flat unit :=
  D ← deref (fun _ => designs t !! d);
  modify (put_designInstance (nlid_design (ref_db (reference_ D)) (ref_library (reference_ D)) (ref_design (reference_ D))) id).
(** [getDNLInstanceIDForDesign] *)
Definition getDNLInstanceIDForDesign (s : flat) (d : loc) : DNLID :=
  match designs t !! d with
  | None => None
  | Some D => default None (designInstanceIDs_ s !! nlid_design (ref_db (reference_ D)) (ref_library (reference_ D)) (ref_design (reference_ D)))
  end.

(** The terminals of the top and of an instance, in the order of their bits. *)
Definition sorted_bitTerms (o : orders) (l : list loc) : list loc := sorted_by (bit_getOrderID o) l.
Definition sorted_instTerms (o : orders) (l : list loc) : list loc :=
  sorted_by (fun it => match instTermHeap t !! it with Some v => bit_getOrderID o (bitTerm_ v) | None => unset_order end) l.
Definition push_bitTerm (parent : DNLID) (x : loc) : on_flat unit :=
  n ← gets (fun s => length (DNLTerms_ s)); modify (push_terminal (mkDNLTerminal parent None (Some x) (Some n))).
Definition push_instTerm (parent : DNLID) (it : loc) : on_flat unit :=
  x ← instTerm_getBitTerm t it; n ← gets (fun s => length (DNLTerms_ s)); modify (push_terminal (mkDNLTerminal parent (Some it) (Some x) (Some n))).
(** The indices of the terminals from [first] on; below the children of the top
    the last terminal is read before it is known that there is one. *)
Definition term_range (first : nat) : on_flat (DNLID * DNLID) :=
  n ← gets (fun s => length (DNLTerms_ s));
  if (first =? n)%nat then mret (None, None) else T ← deref (fun s => last (DNLTerms_ s)); mret (Some first, dnl_termID T).
Definition deep_term_range (first : nat) : on_flat (DNLID * DNLID) :=
  T ← deref (fun s => last (DNLTerms_ s)); n ← gets (fun s => length (DNLTerms_ s));
  if (first =? n)%nat then mret (None, None) else mret (Some first, dnl_termID T).
Definition child_range (first : nat) : on_flat (DNLID * DNLID) :=
  n ← gets (fun s => length (DNLInstances_ s));
  if (first =? n)%nat then mret (None, None) else I ← deref (fun s => last (DNLInstances_ s)); mret (Some first, dnl_id I).
Definition back_setTermsIndexes (r : DNLID * DNLID) : on_flat unit :=
  modify (fun s => alter_instance (setTermsIndexes r) (length (DNLInstances_ s) - 1) s).

(** An instance below [parent]; its identifier goes onto the stack. *)
Definition create_child (range : nat -> on_flat (DNLID * DNLID)) (parent : nat) (i : loc) : on_flat nat :=
  k ← gets (fun s => length (DNLInstances_ s));
  modify (push_instance (new_DNLInstance (Some i) (Some k) (Some parent))) ;;
  m ← inst_getModel t i; registerDesignInstance m (Some k) ;;
  first ← gets (fun s => length (DNLTerms_ s));
  (if bool_decide (getInstances t m = []) then modify (push_leaf (Some k)) else mret tt) ;;
  o ← gets flat_orders;
  for_each (push_instTerm (Some k)) (sorted_instTerms o (getInstTerms t i)) ;;
  r ← range first; back_setTermsIndexes r ;; mret k.
(** The stack has the last instance on top. *)
Fixpoint create_children (range : nat -> on_flat (DNLID * DNLID)) (parent : nat) (l : list loc) (stack : list nat) : on_flat (list nat) :=
  match l with [] => mret stack | i :: l => k ← create_child range parent i; create_children range parent l (k :: stack) end.
Definition expand (range : nat -> on_flat (DNLID * DNLID)) (parent : nat) (d : loc) (stack : list nat) : on_flat (list nat) :=
  first ← gets (fun s => length (DNLInstances_ s));
  stack ← create_children range parent (getInstances t d) stack;
  r ← child_range first; modify (alter_instance (setChildrenIndexes r) parent) ;; mret stack.
Definition create_top (top : loc) : on_flat nat :=
  k ← gets (fun s => length (DNLInstances_ s)); modify (push_instance (new_DNLInstance None (Some k) None)) ;;
  registerDesignInstance top (Some k) ;;
  first ← gets (fun s => length (DNLTerms_ s)); o ← gets flat_orders;
  for_each (push_bitTerm (Some k)) (sorted_bitTerms o (getBitTerms t top)) ;;
  r ← term_range first; back_setTermsIndexes r ;; mret k.
Fixpoint expand_all (fuel : nat) (stack : list nat) : on_flat unit :=
  match stack with
  | [] => mret tt
  | k :: stack =>
      match fuel with
      | O => undef
      | S fuel =>
          I ← deref (fun s => DNLInstances_ s !! k); i ← deref (fun _ => dnl_instance I); m ← inst_getModel t i;
          stack ← expand deep_term_range k m stack; expand_all fuel stack
      end
  end.

(** [initDFSIntervals] *)
Section visits.
Context (visit : nat -> nat -> on_flat nat).
Fixpoint visit_children (l : list nat) (next : nat) : on_flat nat :=
  match l with [] => mret next | k :: l => next ← visit k next; visit_children l next end.
Definition visit_instance (k next : nat) : on_flat nat :=
  I ← deref (fun s => DNLInstances_ s !! k);
  next' ← visit_children (id_range (dnl_children I)) (S next);
  modify (alter_instance (setDFSInterval (Some next) (Some next')) k) ;; mret next'.
End visits.
Fixpoint visit (fuel : nat) (k next : nat) : on_flat nat :=
  match fuel with O => undef | S fuel => visit_instance (visit fuel) k next end.

(** [DNL::process] up to the isos; [fuel] bounds the unfolding. *)
Definition flatten (fuel : nat) (top : loc) : on_flat unit :=
  (fun s => let '(r, o) := initOrderIDs t fuel top (flat_orders s) in (r, set_orders_of o s)) ;;
  k ← create_top top; stack ← expand term_range k top []; expand_all fuel stack ;;
  visit fuel 0%nat 0%nat ;;
  modify (push_instance null_instance) ;; modify (push_terminal null_terminal).
End flatten.

(** * Reading the flat netlist *)

Section getters.
Context (t : structure) (top : loc) (d : flat).

Definition getDNLInstance (T : DNLTerminalFull) : option DNLInstanceFull := getDNLInstanceFromID d (DNLInstID_ T).
Definition getParentInstance (I : DNLInstanceFull) : option DNLInstanceFull := getDNLInstanceFromID d (dnl_parent I).
Definition getSNLModel (I : DNLInstanceFull) : option loc :=
  match dnl_instance I with
  | Some i => (fun inst => model_ (h_extra inst)) <$> instHeap t !! i
  | None => if isTop I then Some top else None
  end.
Definition getSnlBitTerm (T : DNLTerminalFull) : option loc :=
  match dnl_bitTerminal T with Some x => Some x | None => it ← dnl_terminal T; bitTerm_ <$> instTermHeap t !! it end.
Definition dnl_getDirection (x : loc) : option direction := (fun o => direction_ (h_extra o)) <$> object_header (termHeap t) x.

(** The null object for an instance or a terminal of another design. *)
Definition getChildInstance (I : DNLInstanceFull) (i : loc) : option DNLInstanceFull :=
  inst ← instHeap t !! i;
  if bool_decide (getSNLModel I = Some (h_design inst)) then
    a ← fst (dnl_children I); DNLInstances_ d !! (a + Z.to_nat (inst_getOrderID (flat_orders d) i))%nat
  else last (DNLInstances_ d).
Definition getTerminal (I : DNLInstanceFull) (it : loc) : option DNLTerminalFull :=
  v ← instTermHeap t !! it;
  if bool_decide (dnl_instance I = Some (instance_ v)) then
    a ← fst (dnl_terms I); DNLTerms_ d !! (a + Z.to_nat (bit_getOrderID (flat_orders d) (bitTerm_ v)))%nat
  else last (DNLTerms_ d).
Definition getTerminalFromBitTerm (I : DNLInstanceFull) (x : loc) : option DNLTerminalFull :=
  o ← object_header (termHeap t) x;
  if bool_decide (getSNLModel I = Some (h_design o)) then
    a ← fst (dnl_terms I); DNLTerms_ d !! (a + Z.to_nat (bit_getOrderID (flat_orders d) x))%nat
  else last (DNLTerms_ d).

(** Up to the top; the loop does not end above it. *)
Fixpoint isInstanceChild_from (fuel : nat) (parent : DNLID) (inst : DNLID) : outcome bool :=
  match fuel with
  | O => Undef
  | S fuel =>
      if bool_decide (inst = Some 0%nat) then Ret false
      else if bool_decide (parent = inst) then Ret true
      else match getDNLInstanceFromID d inst with Some J => isInstanceChild_from fuel parent (dnl_parent J) | None => Undef end
  end.
Definition isInstanceChild (fuel : nat) (parent child : DNLID) : outcome bool :=
  if bool_decide (parent = Some 0%nat) then Ret true else isInstanceChild_from fuel parent child.

Fixpoint dnl_pathIDs (fuel : nat) (I : DNLInstanceFull) : option (list Z) :=
  if isTop I then Some []
  else match fuel with
       | O => None
       | S fuel => i ← dnl_instance I; inst ← instHeap t !! i; J ← getParentInstance I; ids ← dnl_pathIDs fuel J; Some (ids ++ [h_id inst])
       end.
(** [DNLInstanceFull::getPath], [DNLTerminalFull::getOccurrence], [getFullPathIDs] *)
Definition dnl_getPath (fuel : nat) (I : DNLInstanceFull) : on_paths SNLPath :=
  ids ← deref (fun _ => dnl_pathIDs fuel I); path_of_ids t (Some top) ids.
Definition dnl_getOccurrence (fuel : nat) (T : DNLTerminalFull) : on_paths SNLOccurrence :=
  I ← deref (fun _ => getDNLInstance T); p ← dnl_getPath fuel I;
  if isTop I then x ← deref (fun _ => getSnlBitTerm T); new_occurrence t p (Some (AComponent x))
  else h ← path_getHeadPath p; new_occurrence t h (AComponent <$> dnl_terminal T).
Definition getFullPathIDs (fuel : nat) (T : DNLTerminalFull) : on_paths (list Z) :=
  I ← deref (fun _ => getDNLInstance T); p ← dnl_getPath fuel I; ids ← path_getInstanceIDs t p;
  x ← deref (fun _ => getSnlBitTerm T); o ← deref (fun _ => object_header (termHeap t) x); bit ← deref (fun _ => is_bit (termHeap t) x);
  mret (ids ++ [h_id o; bit]).
End getters.

(** * Marks *)

(** A bit per terminal in words of 64, and the words that hold a mark, whose
    indices are kept in 32 bits. *)
Record visited := mkVisited { words : list Z; touchedWords : list nat }.
Definition no_marks : visited := mkVisited [] [].
Definition beginTraversal (nBits : nat) : prog visited unit :=
  modify (fun v => mkVisited (resize ((nBits + 63) / 64)%nat 0 (words v)) (touchedWords v)) ;;
  touched ← gets touchedWords;
  for_each (fun w => _ ← deref (fun v => words v !! w); modify (fun v => mkVisited (<[w:=0]> (words v)) (touchedWords v))) touched ;;
  modify (fun v => mkVisited (words v) []).
Definition bit_mask (bit : nat) : Z := Z.shiftl 1 (Z.of_nat (bit mod 64)).
Definition test_bit (bit : nat) : prog visited bool :=
  w ← deref (fun v => words v !! (bit / 64)%nat); mret (negb (Z.land w (bit_mask bit) =? 0)).
Definition set_bit (bit : nat) : prog visited unit :=
  w ← deref (fun v => words v !! (bit / 64)%nat);
  modify (fun v => mkVisited (<[(bit / 64)%nat:=Z.lor w (bit_mask bit)]> (words v))
    (if w =? 0 then touchedWords v ++ [Z.to_nat (Z.of_nat (bit / 64) mod 2 ^ 32)] else touchedWords v)).

(** * Collecting an iso *)

(** What the terminals and nets met are given to: the methods of the iso and the
    functions that go with them. *)
Record collector (W : Type) := mkCollector {
  addReader : nat -> prog W unit; addDriver : nat -> prog W unit; addHierTerm : nat -> prog W unit; addNet : loc -> prog W unit;
  updateReaderIsoID : nat -> prog W unit; updateDriverIsoID : nat -> prog W unit; updateConstant : loc -> prog W unit }.
Arguments addReader {_}.
Arguments addDriver {_}.
Arguments addHierTerm {_}.
Arguments addNet {_}.
Arguments updateReaderIsoID {_}.
Arguments updateDriverIsoID {_}.
Arguments updateConstant {_}.
Arguments mkCollector {_}.

Definition net_constant (s0 : netlist) (n : loc) : bool := negb (bool_decide (getType s0 n = NStandard)).
Definition getInstTerms_of (s0 : netlist) (n : loc) : list loc := List.filter (fun c => negb (is_none (instTermHeap (str s0) !! c))) (getComponents s0 n).

Section traversal.
Context (assign : option loc) (s0 : netlist) (top : loc) (d : flat).
#[local] Notation t := (str s0).
Context {W : Type} (h : collector W).

Record traversal := mkTraversal { stack_ : list nat; marks_ : visited; world_ : W }.
Definition on_marks {A} (m : prog visited A) : prog traversal A := fun s => let '(r, v) := m (marks_ s) in (r, mkTraversal (stack_ s) v (world_ s)).
Definition on_world {A} (m : prog W A) : prog traversal A := fun s => let '(r, w) := m (world_ s) in (r, mkTraversal (stack_ s) (marks_ s) w).
Definition push (f : nat) : prog traversal unit := modify (fun s => mkTraversal (f :: stack_ s) (marks_ s) (world_ s)).
(** [assert(id != DNLID_MAX)]: the mark of [DNLID_MAX] is not in memory either. *)
Definition id_of (T : DNLTerminalFull) : prog traversal nat := deref (fun _ => dnl_termID T).

Definition classify (fid : nat) (T : DNLTerminalFull) (inst : DNLInstanceFull) : prog traversal unit :=
  if isTop inst then
    x ← deref (fun _ => getSnlBitTerm t T); dir ← deref (fun _ => dnl_getDirection t x);
    if bool_decide (dir = Output) then on_world (addReader h fid) ;; on_world (updateReaderIsoID h fid)
    else on_world (addDriver h fid) ;; on_world (updateDriverIsoID h fid)
  else
    i ← deref (fun _ => dnl_instance inst); m ← inst_getModel t i;
    if bool_decide (getInstances t m = []) then
      it ← deref (fun _ => dnl_terminal T); x ← instTerm_getBitTerm t it; dir ← deref (fun _ => dnl_getDirection t x);
      if bool_decide (dir = Input) then on_world (addReader h fid) ;; on_world (updateReaderIsoID h fid)
      else on_world (addDriver h fid) ;; on_world (updateDriverIsoID h fid)
    else on_world (addHierTerm h fid) ;; on_world (updateReaderIsoID h fid).
Definition meet_net (n : loc) : prog traversal unit :=
  on_world (addNet h n) ;; if net_constant s0 n then on_world (updateConstant h n) else mret tt.

(** The terminals of a net at instance [I] of the hierarchy; a marked one ends
    the loop, as the net is done then. *)
Fixpoint push_instTerms (self : option nat) (I : DNLInstanceFull) (l : list loc) : prog traversal bool :=
  match l with
  | [] => mret false
  | it :: l =>
      v ← deref (fun _ => instTermHeap t !! it); J ← deref (fun _ => getChildInstance t top d I (instance_ v)); T ← deref (fun _ => getTerminal t d J it);
      f ← id_of T; b ← on_marks (test_bit f);
      if b : bool then mret true
      else if bool_decide (self = Some f) then push_instTerms self I l else push f ;; push_instTerms self I l
  end.
Fixpoint push_bitTerms (self : option nat) (I : DNLInstanceFull) (l : list loc) : prog traversal unit :=
  match l with
  | [] => mret tt
  | x :: l =>
      T ← deref (fun _ => getTerminalFromBitTerm t top d I x); f ← id_of T;
      if bool_decide (self = Some f) then push_bitTerms self I l
      else b ← on_marks (test_bit f); if b : bool then mret tt else push f ;; push_bitTerms self I l
  end.
(** The net inside the instance of a terminal, unless it is an assign, and the
    net outside. *)
Definition go_inside (fid : nat) (T : DNLTerminalFull) (inst : DNLInstanceFull) : prog traversal unit :=
  x ← deref (fun _ => getSnlBitTerm t T); m ← deref (fun _ => getSNLModel t top inst);
  match net_ s0 !! x with
  | Some n =>
      if bool_decide (assign = Some m) then mret tt
      else meet_net n ;; b ← push_instTerms None inst (getInstTerms_of s0 n);
           if b : bool then mret tt else push_bitTerms (Some fid) inst (getBitTerms_of s0 n)
  | None => mret tt
  end.
Definition go_outside (fid : nat) (T : DNLTerminalFull) (inst : DNLInstanceFull) : prog traversal unit :=
  if isTop inst then mret tt
  else it ← deref (fun _ => dnl_terminal T);
       match net_ s0 !! it with
       | Some n =>
           meet_net n ;; J ← deref (fun _ => getParentInstance d inst);
           b ← push_instTerms (Some fid) J (getInstTerms_of s0 n);
           if b : bool then mret tt else push_bitTerms None J (getBitTerms_of s0 n)
       | None => mret tt
       end.
Definition treat_terminal (fid : nat) : prog traversal unit :=
  b ← on_marks (test_bit fid);
  if b : bool then mret tt
  else
    T ← deref (fun _ => DNLTerms_ d !! fid); inst ← deref (fun _ => getDNLInstance d T);
    classify fid T inst ;; go_inside fid T inst ;; go_outside fid T inst ;; on_marks (set_bit fid).
Fixpoint traverse (fuel : nat) : prog traversal unit :=
  match fuel with
  | O => undef
  | S fuel =>
      l ← gets stack_;
      match l with
      | [] => mret tt
      | fid :: l => modify (fun s => mkTraversal l (marks_ s) (world_ s)) ;; treat_terminal fid ;; traverse fuel
      end
  end.
(** [treatDriver]; the marks are used again. *)
Definition treatDriver (fuel : nat) (term : nat) : prog (visited * W) unit := fun '(v, w) =>
  let '(r, s) := (on_marks (beginTraversal (length (DNLTerms_ d))) ;; push term ;; traverse fuel) (mkTraversal [] v w) in
  (r, (marks_ s, world_ s)).
End traversal.

(** * Isos *)

Inductive IsoType := STANDART | CONST0 | CONST1 | AMBIGUOUS | SHADOW | CONSTX | CONSTZ.
#[export] Instance IsoType_dec : EqDecision IsoType.
Proof. solve_decision. Defined.
Record DNLIso := mkIso { drivers_ : list nat; readers_ : list nat; iso_id : DNLID; isoType_ : IsoType }.
Record DNLIsoDB := mkIsoDB {
  isos_ : list DNLIso; constant0Isos_ : gset nat; constant1Isos_ : gset nat; constantXIsos_ : gset nat; constantZIsos_ : gset nat; shadowIsos_ : list nat }.
Definition no_isos : DNLIsoDB := mkIsoDB [] ∅ ∅ ∅ ∅ [].
Definition iso_addDriver (f : nat) (i : DNLIso) : DNLIso := mkIso (drivers_ i ++ [f]) (readers_ i) (iso_id i) (isoType_ i).
Definition iso_addReader (f : nat) (i : DNLIso) : DNLIso := mkIso (drivers_ i) (readers_ i ++ [f]) (iso_id i) (isoType_ i).
Definition iso_setId (id : DNLID) (i : DNLIso) : DNLIso := mkIso (drivers_ i) (readers_ i) id (isoType_ i).
Definition iso_clear (i : DNLIso) : DNLIso := mkIso [] [] (iso_id i) (isoType_ i).
Definition setIsoType (type : IsoType) (i : DNLIso) : DNLIso := mkIso (drivers_ i) (readers_ i) (iso_id i) type.
Definition isConstantIso (i : DNLIso) : bool := match isoType_ i with CONST0 | CONST1 | CONSTX | CONSTZ => true | _ => false end.

Definition set_isos (l : list DNLIso) (db : DNLIsoDB) : DNLIsoDB :=
  mkIsoDB l (constant0Isos_ db) (constant1Isos_ db) (constantXIsos_ db) (constantZIsos_ db) (shadowIsos_ db).
Definition addIso (db : DNLIsoDB) : DNLIsoDB := set_isos (isos_ db ++ [mkIso [] [] (Some (length (isos_ db))) STANDART]) db.
Definition alter_iso (f : DNLIso -> DNLIso) (k : nat) (db : DNLIsoDB) : DNLIsoDB := set_isos (alter f k (isos_ db)) db.
Definition getIsoFromIsoIDconst (db : DNLIsoDB) (id : DNLID) : option DNLIso := match id with None => last (isos_ db) | Some k => isos_ db !! k end.
(** Without the null iso, which is the last; a [size_t]. *)
Definition getNumIsos (db : DNLIsoDB) : Z := (Z.of_nat (length (isos_ db)) - 1) mod 2 ^ 64.
Definition getNumNonEmptyIsos (db : DNLIsoDB) : Z := (Z.of_nat (length (isos_ db)) - 1 - Z.of_nat (length (shadowIsos_ db))) mod 2 ^ 64.
Definition makeShadow (k : nat) (db : DNLIsoDB) : DNLIsoDB :=
  let db := alter_iso (setIsoType SHADOW ∘ iso_clear) k db in
  mkIsoDB (isos_ db) (constant0Isos_ db) (constant1Isos_ db) (constantXIsos_ db) (constantZIsos_ db) (shadowIsos_ db ++ [k]).
Definition removeConstantIso (k : nat) (db : DNLIsoDB) : DNLIsoDB :=
  mkIsoDB (isos_ db) (constant0Isos_ db ∖ {[k]}) (constant1Isos_ db ∖ {[k]}) (constantXIsos_ db ∖ {[k]}) (constantZIsos_ db ∖ {[k]}) (shadowIsos_ db).
(** [addConstantIso0], ..., [addConstantIsoZ] *)
Definition addConstantIso (type : IsoType) (k : nat) (db : DNLIsoDB) : DNLIsoDB :=
  let add c (s : gset nat) := if bool_decide (type = c) then {[k]} ∪ s else s in
  alter_iso (setIsoType type) k
    (mkIsoDB (isos_ db) (add CONST0 (constant0Isos_ db)) (add CONST1 (constant1Isos_ db)) (add CONSTX (constantXIsos_ db)) (add CONSTZ (constantZIsos_ db)) (shadowIsos_ db)).
Definition net_isoType (s0 : netlist) (n : loc) : IsoType :=
  match getType s0 n with NAssign0 | NSupply0 => CONST0 | NAssign1 | NSupply1 => CONST1 | NAssignX => CONSTX | NAssignZ => CONSTZ | NStandard => STANDART end.

(** * Making the isos *)

(** The iso identifier of every terminal, and the isos. *)
Record isos := mkIsos { termId2isoId_ : list DNLID; fidb_ : DNLIsoDB }.
Definition change_db (f : DNLIsoDB -> DNLIsoDB) (w : isos) : isos := mkIsos (termId2isoId_ w) (f (fidb_ w)).
Definition setIsoIdforTermId (id : DNLID) (f : nat) : prog isos unit :=
  n ← gets (fun w => length (termId2isoId_ w)); if (f <? n)%nat then modify (fun w => mkIsos (<[f:=id]> (termId2isoId_ w)) (fidb_ w)) else undef.
Definition getIsoIdfromTermId (w : isos) (f : nat) : DNLID := default None (termId2isoId_ w !! f).

Section builder.
Context (assign : option loc) (s0 : netlist) (top : loc) (d : flat).
#[local] Notation t := (str s0).

(** [handleConstant], of the iso at [r]. *)
Definition handleConstant (r : nat) (n : loc) : prog isos unit :=
  iso ← deref (fun w => isos_ (fidb_ w) !! r); k ← deref (fun _ => iso_id iso);
  let netType := net_isoType s0 n in
  if bool_decide (isoType_ iso = AMBIGUOUS) || bool_decide (netType = STANDART) then mret tt
  else if negb (bool_decide (isoType_ iso = STANDART)) && negb (bool_decide (isoType_ iso = netType)) then
    modify (change_db (alter_iso (setIsoType AMBIGUOUS) r ∘ removeConstantIso k))
  else modify (change_db (addConstantIso netType k)).
Definition handleReader (r : nat) (f : nat) : prog isos unit :=
  iso ← deref (fun w => isos_ (fidb_ w) !! r); setIsoIdforTermId (iso_id iso) f.
(** The iso at [r] collects; drivers keep their iso identifiers in the first round. *)
Definition collects (r : nat) (driver : nat -> prog isos unit) : collector isos :=
  mkCollector (fun f => modify (change_db (alter_iso (iso_addReader f) r))) (fun f => modify (change_db (alter_iso (iso_addDriver f) r)))
    (fun _ => mret tt) (fun _ => mret tt) (handleReader r) driver (handleConstant r).
Definition on_isos {A} (m : prog isos A) : prog (visited * isos) A := fun '(v, w) => let '(r, w) := m w in (r, (v, w)).
(** The iso of a terminal collects, starting there. *)
Definition treat_task (fuel : nat) (driver : nat -> nat -> prog isos unit) (term : nat) : prog (visited * isos) unit :=
  r ← on_isos (deref (fun w => getIsoIdfromTermId w term)); treatDriver assign s0 top d (collects r (driver r)) fuel term.

(** A terminal of a leaf that is not an input, or of the top that is not an
    output, on a net, has an iso of its own. *)
Definition is_task (leaf : bool) (f : nat) : prog isos bool :=
  T ← deref (fun _ => DNLTerms_ d !! f);
  if leaf then
    it ← deref (fun _ => dnl_terminal T); x ← instTerm_getBitTerm t it; dir ← deref (fun _ => dnl_getDirection t x);
    mret (negb (bool_decide (dir = Input)) && negb (is_none (net_ s0 !! it)))
  else
    x ← deref (fun _ => getSnlBitTerm t T); dir ← deref (fun _ => dnl_getDirection t x);
    mret (negb (bool_decide (dir = Output)) && negb (is_none (net_ s0 !! x))).
Definition addIsoToDB : prog isos nat := k ← gets (fun w => length (isos_ (fidb_ w))); modify (change_db addIso) ;; mret k.
Fixpoint add_tasks (leaf : bool) (l : list nat) (tasks : list nat) : prog isos (list nat) :=
  match l with
  | [] => mret tasks
  | f :: l =>
      b ← is_task leaf f;
      if b : bool then k ← addIsoToDB; setIsoIdforTermId (Some k) f ;; add_tasks leaf l (tasks ++ [f]) else add_tasks leaf l tasks
  end.
Fixpoint add_leaf_tasks (leaves : list DNLID) (tasks : list nat) : prog isos (list nat) :=
  match leaves with
  | [] => mret tasks
  | leaf :: leaves => inst ← deref (fun _ => getDNLInstanceFromID d leaf); tasks ← add_tasks true (id_range (dnl_terms inst)) tasks; add_leaf_tasks leaves tasks
  end.

(** Up to [getNumIsos() + 1], which is the number of isos, 0 too. *)
Definition isos_with_drivers (db : DNLIsoDB) : list nat :=
  filter (fun k => (1 < length (default [] (drivers_ <$> isos_ db !! k)))%nat) (seq 0 (Z.to_nat ((getNumIsos db + 1) mod 2 ^ 64))).
(** [*drivers.begin()] of the ordered set *)
Definition first_of (l : list nat) : option nat := match l with [] => None | f :: l => Some (foldr Nat.min f l) end.
(** The first drivers of the isos with several, in order, and those isos are
    shadows from then on. *)
Fixpoint shadow_isos (l : list nat) (firsts : gset nat) : prog isos (gset nat) :=
  match l with
  | [] => mret firsts
  | k :: l =>
      iso ← deref (fun w => isos_ (fidb_ w) !! k); f ← deref (fun _ => first_of (drivers_ iso));
      modify (change_db (makeShadow k)) ;; shadow_isos l ({[f]} ∪ firsts)
  end.
Definition again_task (f : nat) : prog isos unit := k ← addIsoToDB; setIsoIdforTermId (Some k) f.
(** A terminal on a net that no driver reaches. *)
Definition is_dangling (f : nat) : prog isos bool :=
  T ← deref (fun _ => DNLTerms_ d !! f); inst ← deref (fun _ => getDNLInstance d T); x ← deref (fun _ => getSnlBitTerm t T);
  out ← (if isTop inst then mret false else it ← deref (fun _ => dnl_terminal T); mret (negb (is_none (net_ s0 !! it))));
  w ← gets (fun w => getIsoIdfromTermId w f);
  mret (((negb (is_none (net_ s0 !! x)) && negb (dnl_isLeaf inst)) || out) && is_none w).
Definition dangling_task (fuel : nat) (f : nat) : prog (visited * isos) unit :=
  b ← on_isos (is_dangling f);
  if b : bool then
    k ← on_isos addIsoToDB; on_isos (setIsoIdforTermId (Some k) f) ;; treatDriver assign s0 top d (collects k (handleReader k)) fuel f ;;
    n ← on_isos (deref (fun w => length ∘ drivers_ <$> isos_ (fidb_ w) !! k)); if (n =? 0)%nat then mret tt else undef
  else mret tt.

(** [DNLIsoDBBuilder::process]; [schedule] is the order in which the tasks of a
    parallel loop run. A failed [assert] is undefined. *)
Definition build (fuel : nat) (schedule : list nat -> list nat) : prog (visited * isos) unit :=
  tasks ← on_isos (add_leaf_tasks (leaves_ d) []);
  inst ← deref (fun _ => DNLInstances_ d !! 0%nat); tasks ← on_isos (add_tasks false (id_range (dnl_terms inst)) tasks);
  for_each (treat_task fuel (fun _ _ => mret tt)) (schedule tasks) ;;
  multiDriverIsos ← on_isos (gets (isos_with_drivers ∘ fidb_)); driversToTreat ← on_isos (shadow_isos multiDriverIsos ∅);
  let again := merge_sort le (elements driversToTreat) in
  on_isos (for_each again_task again) ;;
  for_each (treat_task fuel handleReader) (schedule again) ;;
  multiDriverIsosRound2 ← on_isos (gets (isos_with_drivers ∘ fidb_));
  (if (length again =? length multiDriverIsosRound2)%nat then mret tt else undef) ;;
  for_each (dangling_task fuel) (seq 0 (length (DNLTerms_ d) - 1)).
End builder.

Record DNL := mkDNL { dnl_flat : flat; dnl_isos : isos }.
Definition add_null_iso (db : DNLIsoDB) : DNLIsoDB := set_isos (isos_ db ++ [mkIso [] [] None STANDART]) db.
(** [DNL::process] of a new [DNL]; [o] are the order identifiers there were. *)
Definition process (assign : option loc) (s0 : netlist) (fuel : nat) (schedule : list nat -> list nat) (top : loc) (o : orders) : outcome DNL :=
  let (r, d) := flatten (str s0) fuel top (nothing_flat o) in
  r ≫= fun _ =>
    let '(r, (_, w)) := build assign s0 top d fuel schedule (no_marks, mkIsos (replicate (length (DNLTerms_ d)) None) no_isos) in
    r ≫= fun _ => Ret (mkDNL d (change_db add_null_iso w)).

(** The one flat netlist there is: [isCreated], [get], [destroy]. *)
Definition isCreated (dnlFull : option DNL) : bool := negb (is_none dnlFull).
Definition get (create : outcome DNL) (dnlFull : option DNL) : outcome DNL := match dnlFull with Some d => Ret d | None => create end.
Definition destroy (dnlFull : option DNL) : option DNL := None.

(** Isos collected apart: [DNLIso] keeps the terminals of leaves and of the top,
    [DNLComplexIso] also the other terminals and the nets. *)
Record DNLComplexIso := mkComplexIso { base_iso : DNLIso; iso_nets : gset loc; iso_hierTerms : list nat }.
Definition new_complexIso (id : DNLID) : DNLComplexIso := mkComplexIso (mkIso [] [] id STANDART) ∅ [].
Definition complex_setId (id : DNLID) (c : DNLComplexIso) : DNLComplexIso := mkComplexIso (iso_setId id (base_iso c)) (iso_nets c) (iso_hierTerms c).
Definition complex_collects : collector DNLComplexIso :=
  mkCollector (fun f => modify (fun c => mkComplexIso (iso_addReader f (base_iso c)) (iso_nets c) (iso_hierTerms c)))
    (fun f => modify (fun c => mkComplexIso (iso_addDriver f (base_iso c)) (iso_nets c) (iso_hierTerms c)))
    (fun f => modify (fun c => mkComplexIso (base_iso c) (iso_nets c) (iso_hierTerms c ++ [f])))
    (fun n => modify (fun c => mkComplexIso (base_iso c) ({[n]} ∪ iso_nets c) (iso_hierTerms c)))
    (fun _ => mret tt) (fun _ => mret tt) (fun _ => mret tt).
Definition plain_collects : collector DNLIso :=
  mkCollector (fun f => modify (iso_addReader f)) (fun f => modify (iso_addDriver f)) (fun _ => mret tt) (fun _ => mret tt)
    (fun _ => mret tt) (fun _ => mret tt) (fun _ => mret tt).
(** [getCustomIso], with the iso's own way to collect. *)
Definition getCustomIso {W} (assign : option loc) (s0 : netlist) (top : loc) (D : DNL) (h : collector W) (setId : DNLID -> W -> W)
    (fuel : nat) (isoId : DNLID) (w : W) : outcome W :=
  let w := setId isoId w in
  match getIsoFromIsoIDconst (fidb_ (dnl_isos D)) isoId with
  | None => Undef
  | Some iso =>
      match drivers_ iso ++ readers_ iso with
      | [] => Ret w
      | seed :: _ => let '(r, (_, w)) := treatDriver assign s0 top (dnl_flat D) h fuel seed (no_marks, w) in r ≫= fun _ => Ret w
      end
  end.
