(* ===== verification/DNLFlatten.v ===== *)
(** The unfolding of the hierarchy gives one instance for each path from the
    top, with its children and its terminals side by side: the invariant of the
    loop that unfolds, and what is left when its stack is empty. *)
From stdpp Require Import sorting.
From S2P Require Import Prelude NLID Store Bus Contents Connections DesignNets Interface InterfaceSteps InterfaceTerms TermLifetime InstanceSteps MergeAssigns NetlistRuns Paths PathSteps Equipotential DNL.
Local Open Scope Z_scope.

(** * Sorted lists *)

Lemma StronglySorted_bind {A B} (P : A -> A -> Prop) (R : B -> B -> Prop) (f : A -> list B) l :
  StronglySorted P l -> (forall a, a ∈ l -> StronglySorted R (f a)) ->
  (forall a a' b b', a ∈ l -> a' ∈ l -> P a a' -> b ∈ f a -> b' ∈ f a' -> R b b') -> StronglySorted R (l ≫= f).
Proof.
  induction 1 as [|a l Hl IH Ha]; intros Hf HR; cbn; [constructor|].
  apply StronglySorted_app_2.
  - intros b b' Hb (a' & Hb' & Ha')%list_elem_of_bind. eapply HR; [left|right; exact Ha'| |done..]. by apply (proj1 (Forall_forall _ _) Ha).
  - apply Hf. left.
  - apply IH; [intros b Hb; apply Hf; by right|]. intros b b' c c' Hb Hb'. apply HR; by right.
Qed.
Lemma StronglySorted_impl {A} (R R' : A -> A -> Prop) l :
  StronglySorted R l -> (forall a b, a ∈ l -> b ∈ l -> R a b -> R' a b) -> StronglySorted R' l.
Proof.
  induction 1 as [|a l Hl IH Ha]; intros HR; constructor.
  - apply IH. intros b c Hb Hc. apply HR; by right.
  - apply Forall_forall. intros b Hb. apply HR; [left|by right|by apply (proj1 (Forall_forall _ _) Ha)].
Qed.
Lemma StronglySorted_map {A B} (R : A -> A -> Prop) (R' : B -> B -> Prop) (f : A -> B) l :
  StronglySorted R l -> (forall a b, a ∈ l -> b ∈ l -> R a b -> R' (f a) (f b)) -> StronglySorted R' (f <$> l).
Proof.
  induction 1 as [|a l Hl IH Ha]; intros HR; cbn; constructor.
  - apply IH. intros b c Hb Hc. apply HR; by right.
  - apply Forall_fmap, Forall_forall. intros b Hb. apply HR; [left|by right|by apply (proj1 (Forall_forall _ _) Ha)].
Qed.
Lemma StronglySorted_distinct {A} (R : A -> A -> Prop) l :
  StronglySorted R l -> NoDup l -> StronglySorted (fun a b => R a b /\ a <> b) l.
Proof.
  induction 1 as [|a l Hl IH Ha]; intros Hnd; constructor; apply NoDup_cons in Hnd as [Hn Hnd]; [by apply IH|].
  apply Forall_forall. intros b Hb. split; [by apply (proj1 (Forall_forall _ _) Ha)|]. by intros ->.
Qed.
#[local] Instance key_le_decision {L} (a b : Z * L) : Decision (key_le a b) := decide (a.1 <= b.1).
Lemma in_order_StronglySorted {L} (m : gmap Z L) :
  exists l, in_order m = snd <$> l /\ (forall k x, (k, x) ∈ l <-> m !! k = Some x) /\ StronglySorted (fun a b : Z * L => a.1 < b.1) l.
Proof.
  exists (merge_sort key_le (map_to_list m)). set (l := merge_sort key_le (map_to_list m)).
  assert (Hm : forall k x, (k, x) ∈ l <-> m !! k = Some x) by (intros k x; subst l; by rewrite (merge_sort_Permutation key_le (map_to_list m)), elem_of_map_to_list).
  split; [done|]. split; [done|].
  assert (Hs : StronglySorted key_le l).
  { apply StronglySorted_merge_sort; [intros a b c; unfold key_le; lia|intros a b; unfold key_le; lia]. }
  assert (Hnd : NoDup l) by (subst l; rewrite (merge_sort_Permutation key_le (map_to_list m)); apply NoDup_map_to_list).
  eapply StronglySorted_impl; [by apply StronglySorted_distinct|]. intros [k x] [k' x'] Ha Hb [Hle Hne]. unfold key_le in Hle. cbn in *.
  apply Hm in Ha, Hb. assert (k <> k'); [|lia]. intros <-. congruence.
Qed.

Lemma StronglySorted_imap {A B} (R : B -> B -> Prop) (f : nat -> A -> B) l :
  (forall j k a b, (j < k)%nat -> R (f j a) (f k b)) -> StronglySorted R (imap f l).
Proof.
  revert f. induction l as [|a l IH]; intros f H; cbn; constructor.
  - apply IH. intros j k x y Hlt. apply H. lia.
  - apply Forall_forall. intros b (k & y & -> & _)%elem_of_lookup_imap. apply H. lia.
Qed.

Lemma sum_list_with_ext {A} (f g : A -> nat) l : (forall a, a ∈ l -> f a = g a) -> sum_list_with f l = sum_list_with g l.
Proof. induction l as [|a l IH]; intros H; [done|]. cbn. rewrite (H a) by left. f_equal. apply IH. intros b Hb. apply H. by right. Qed.
Lemma sum_list_with_fmap {A B} (f : B -> nat) (g : A -> B) l : sum_list_with f (g <$> l) = sum_list_with (f ∘ g) l.
Proof. induction l as [|a l IH]; [done|]. cbn. by f_equal. Qed.

(** Elements that carry their positions are sorted already. *)
Lemma in_order_positions {L} (m : gmap Z L) (l : list L) :
  (forall z x, m !! z = Some x <-> exists k : nat, z = Z.of_nat k /\ l !! k = Some x) -> in_order m = l.
Proof.
  intros H. destruct (in_order_StronglySorted m) as (r & -> & Hr & Hs).
  assert (E : r = imap (fun k x => (Z.of_nat k, x)) l).
  { apply (StronglySorted_unique_strong (fun a b : Z * L => a.1 <= b.1)).
    - intros [k x] [k' x'] Hx Hx' ? ?. cbn in *. assert (k = k') as <- by lia. apply Hr, H in Hx as (j & -> & Hj).
      apply elem_of_lookup_imap in Hx' as (j' & y & [= E ->] & Hj'). assert (j' = j) as -> by lia. congruence.
    - eapply StronglySorted_impl; [done|]. intros a b _ _. cbn. lia.
    - apply StronglySorted_imap. intros j j' x y Hlt. cbn. lia.
    - apply NoDup_Permutation.
      + clear -Hs. induction Hs as [|a r Hs IH Ha]; constructor; [|done]. intros Hin. pose proof (proj1 (Forall_forall _ _) Ha _ Hin) as Hlt. cbn in Hlt. lia.
      + apply NoDup_alt. intros i j [z x]. rewrite !list_lookup_imap. destruct (l !! i) eqn:Ei; [|done]. destruct (l !! j) eqn:Ej; [|done].
        cbn. intros [= <- <-] [= E _]. lia.
      + intros [z x]. rewrite Hr, H. rewrite elem_of_lookup_imap. naive_solver. }
  rewrite E. clear. apply list_eq. intros i. rewrite list_lookup_fmap, list_lookup_imap. by destruct (l !! i).
Qed.
Lemma sorted_by_positions key l : (forall (k : nat) x, l !! k = Some x -> key x = Z.of_nat k) -> sorted_by key l = l.
Proof.
  intros H. unfold sorted_by. apply in_order_positions. revert H. induction l as [|y l IH] using rev_ind; intros H z x.
  { cbn. rewrite lookup_empty. split; [done|by intros (k & _ & ?)]. }
  rewrite foldl_app. cbn [foldl]. set (m := foldl _ _ l) in *.
  assert (Hm : forall z x, m !! z = Some x <-> exists k : nat, z = Z.of_nat k /\ l !! k = Some x).
  { apply IH. intros k w Hk. apply H. by apply lookup_app_l_Some. }
  assert (Hy : key y = Z.of_nat (length l)) by (apply H; by apply list_lookup_middle).
  assert (Hn : m !! key y = None).
  { apply eq_None_not_Some. intros [w (k & Hk & Hw)%Hm]. apply lookup_lt_Some in Hw. lia. }
  unfold set_insert. rewrite Hn, lookup_insert_Some, Hm. setoid_rewrite lookup_snoc_Some. split.
  - intros [[<- <-]|[_ (k & -> & Hk)]]; [exists (length l); split; [done|by right]|]. exists k. split; [done|]. left. split; [by apply lookup_lt_Some in Hk|done].
  - intros (k & -> & [[_ Hk]|[-> ->]]); [right|by left]. split; [|by exists k]. apply lookup_lt_Some in Hk. lia.
Qed.

Lemma StronglySorted_lt_NoDup {A} (f : A -> nat) l : StronglySorted (fun a b => (f a < f b)%nat) l -> NoDup l.
Proof. induction 1 as [|a l Hs IH Ha]; constructor; [|done]. intros Hin. pose proof (proj1 (Forall_forall _ _) Ha _ Hin). cbn in *. lia. Qed.
(** The elements left of a vector, when each carries its position. *)
Lemma getBusBits_sorted (f : loc -> nat) off bits : (forall (p : nat) x, bits !! p = Some (Some x) -> f x = (off + p)%nat) ->
  StronglySorted (fun a b => (f a < f b)%nat) (getBusBits bits).
Proof.
  revert off. unfold getBusBits. induction bits as [|[x|] bits IH]; intros off H; cbn; [constructor|..].
  - constructor; [apply (IH (S off)); intros p z Hp; rewrite (H (S p) z Hp); lia|]. apply Forall_forall. intros z Hz.
    apply list_elem_of_omap in Hz as (b & Hb & ->). apply list_elem_of_lookup in Hb as [p Hp]. rewrite (H 0%nat x eq_refl), (H (S p) z Hp). lia.
  - apply (IH (S off)). intros p z Hp. rewrite (H (S p) z Hp). lia.
Qed.

Section netlist.
Context (t : structure) (W : struct_wf t).

(** * The instances and the terminals of a design *)

Lemma elem_of_getInstances d i : i ∈ getInstances t d <-> exists inst, instHeap t !! i = Some inst /\ h_design inst = d.
Proof.
  unfold getInstances. split.
  - destruct (instances_ t !! d) as [r|] eqn:Hr; [|by intros ?%not_elem_of_nil]. intros [k Hk]%elem_of_in_order.
    apply (rep_objects _ _ _ (ow_registry _ _ (sw_instances _ _ W) _ _ Hr)) in Hk as (n & y & o & Hy & Ho & Hd & _).
    rewrite lookup_fmap in Hy. destruct (instHeap t !! i) as [inst|]; [|done]. injection Hy as <-. injection Ho as <-. by exists inst.
  - intros (inst & Hi & <-). destruct (ow_design _ _ (sw_instances _ _ W) i (Scalar inst) inst) as [r Hr]; [by rewrite lookup_fmap, Hi|done|].
    rewrite Hr. apply elem_of_in_order. exists (h_id inst). apply (rep_objects _ _ _ (ow_registry _ _ (sw_instances _ _ W) _ _ Hr)).
    exists (h_name inst). by apply instance_owns.
Qed.
Lemma NoDup_getInstances d : NoDup (getInstances t d).
Proof.
  unfold getInstances. destruct (instances_ t !! d) as [r|] eqn:Hr; [|constructor]. pose proof (ow_registry _ _ (sw_instances _ _ W) _ _ Hr) as R.
  apply NoDup_in_order. intros k k' i [n Hk]%(rep_objects _ _ _ R) [n' Hk']%(rep_objects _ _ _ R). by apply (rep_unique _ _ _ R _ _ _ _ _ Hk Hk').
Qed.

Definition flat_of (x : loc) : nat := default 0%nat (getFlatID (termHeap t) x).
Lemma getBits_sorted y v o : termHeap t !! y = Some v -> header_of v = Some o ->
  StronglySorted (fun a b => (flat_of a < flat_of b)%nat) (getBits (termHeap t) y) /\
  forall x, x ∈ getBits (termHeap t) y -> (flatID_ (h_extra o) <= flat_of x < flatID_ (h_extra o) + term_width v)%nat.
Proof.
  intros Hy Ho. unfold getBits. rewrite Hy. destruct v as [a|a m l bs|b bit]; [| |done]; injection Ho as ->.
  { split; [repeat constructor|]. intros x ->%list_elem_of_singleton. unfold flat_of, getFlatID. rewrite Hy. cbn. lia. }
  assert (Hb : forall (p : nat) x, bs !! p = Some (Some x) -> flat_of x = (flatID_ (h_extra o) + p)%nat).
  { intros p x Hp. pose proof (ow_bits _ _ (sw_terms _ _ W) _ _ _ _ _ _ _ Hy Hp) as Hx. unfold flat_of, getFlatID. rewrite Hx, Hy. cbn [default].
    pose proof (bit_position_at m l p) as Hq. unfold bit_position in Hq. rewrite <- Hq at 2. cbn. lia. }
  split.
  - exact (getBusBits_sorted flat_of (flatID_ (h_extra o)) bs Hb).
  - intros x (p & Hp)%elem_of_getBusBits. rewrite (Hb p x Hp). apply lookup_lt_Some in Hp. cbn [term_width]. lia.
Qed.
Lemma getBitTerms_sorted d : StronglySorted (fun a b => (flat_of a < flat_of b)%nat) (getBitTerms t d).
Proof.
  unfold getBitTerms, getTerms. destruct (terms_ t !! d) as [r|] eqn:Hr; [|constructor].
  pose proof (ow_registry _ _ (sw_terms _ _ W) _ _ Hr) as R. destruct (in_order_StronglySorted (objects r)) as (l & -> & Hl & Hs).
  assert (Hown : forall k y, (k, y) ∈ l -> exists v o, termHeap t !! y = Some v /\ header_of v = Some o /\ h_design o = d /\ h_id o = k).
  { intros k y Hy. apply Hl, (rep_objects _ _ _ R) in Hy as (n & v & o & Hv & Ho & Hd & Hk & _). by exists v, o. }
  apply (StronglySorted_bind (fun y y' => exists v v' o o', termHeap t !! y = Some v /\ termHeap t !! y' = Some v' /\
    header_of v = Some o /\ header_of v' = Some o' /\ (flatID_ (h_extra o) + term_width v <= flatID_ (h_extra o'))%nat)).
  - eapply StronglySorted_map; [exact Hs|]. intros [k y] [k' y'] Hy Hy' Hlt. cbn in *.
    destruct (Hown _ _ Hy) as (v & o & Hv & Ho & Hd & <-). destruct (Hown _ _ Hy') as (v' & o' & Hv' & Ho' & Hd' & <-).
    exists v, v', o, o'. split_and!; [done..|]. eapply (sw_flat _ _ W y y'); try done. congruence.
  - intros y ([k y'] & -> & Hy)%list_elem_of_fmap. destruct (Hown _ _ Hy) as (v & o & Hv & Ho & _). by apply (getBits_sorted y' v o).
  - intros y y' x x' _ _ (v & v' & o & o' & Hv & Hv' & Ho & Ho' & Hle) Hx Hx'.
    pose proof (proj2 (getBits_sorted y v o Hv Ho) x Hx). pose proof (proj2 (getBits_sorted y' v' o' Hv' Ho') x' Hx'). lia.
Qed.

(** The terminals of an instance, in the order of the bits of its model. *)
Lemma instTerms_in_order i inst : instHeap t !! i = Some inst ->
  Forall2 (fun it x => instTermHeap t !! it = Some (mkInstTerm i x)) (getInstTerms t i) (getBitTerms t (model_ (h_extra inst))).
Proof.
  intros Hi. unfold getInstTerms. rewrite Hi. set (slots := instTerms_ (h_extra inst)).
  assert (Hslot : forall (p : nat) it, slots !! p = Some (Some it) -> slot t i p = Some it) by (intros p it Hp; unfold slot, getBitAtPosition; rewrite Hi; fold slots; by rewrite Hp).
  assert (Hback : forall p it, slot t i p = Some it -> slots !! p = Some (Some it)).
  { intros p it. unfold slot, getBitAtPosition. rewrite Hi. fold slots. by destruct (slots !! p) as [[?|]|]; [intros [= ->]|..]. }
  set (bit := fun it => match instTermHeap t !! it with Some v => bitTerm_ v | None => it end).
  assert (Hbit : forall (p : nat) it, slots !! p = Some (Some it) -> instTermHeap t !! it = Some (mkInstTerm i (bit it)) /\ flat_of (bit it) = p /\
    bit_term_of t (bit it) (model_ (h_extra inst))).
  { intros p it Hp. destruct (sw_slots _ _ W _ _ _ (Hslot p it Hp)) as (x & Hx & Hf). unfold bit, flat_of. rewrite Hx. cbn. rewrite Hf.
    destruct (sw_instTerm _ _ W _ _ Hx) as (inst' & f & Hi' & _ & Hb). cbn in *. by assert (inst' = inst) as -> by congruence. }
  assert (Hsort : StronglySorted (fun a b => (flat_of a < flat_of b)%nat) (bit <$> getBusBits slots)).
  { eapply StronglySorted_map; [apply (getBusBits_sorted (fun it => flat_of (bit it)) 0 slots); intros p it Hp; by apply Hbit|done]. }
  assert (E : bit <$> getBusBits slots = getBitTerms t (model_ (h_extra inst))).
  { apply (StronglySorted_unique_strong (fun a b => (flat_of a < flat_of b)%nat)).
    - intros a b _ _ ? ?. lia.
    - exact Hsort.
    - apply getBitTerms_sorted.
    - apply NoDup_Permutation.
      + by eapply StronglySorted_lt_NoDup.
      + eapply StronglySorted_lt_NoDup, getBitTerms_sorted.
      + intros x. rewrite list_elem_of_fmap, (elem_of_getBitTerms _ _ _ _ W). split.
        * intros (it & -> & (p & Hp)%elem_of_getBusBits). by apply (Hbit p).
        * intros Hx. destruct (sw_complete _ _ W _ _ _ Hi Hx (fun F => F)) as (f & it & Hf & Hs). exists it.
          pose proof (slot_bit W _ _ _ _ _ Hi Hx Hf Hs) as Hit. split; [unfold bit; by rewrite Hit|]. apply elem_of_getBusBits. exists f. by apply Hback. }
  rewrite <- E. apply Forall2_fmap_r. apply Forall_Forall2_diag, Forall_forall. intros it (p & Hp)%elem_of_getBusBits. by apply (Hbit p).
Qed.
Lemma NoDup_getBitTerms d : NoDup (getBitTerms t d).
Proof. eapply StronglySorted_lt_NoDup, getBitTerms_sorted. Qed.
Lemma getBitTerms_place d d' (k k' : nat) x : getBitTerms t d !! k = Some x -> getBitTerms t d' !! k' = Some x -> d' = d /\ k' = k.
Proof.
  intros H H'. assert (d' = d) as ->; [|split; [done|]].
  - apply list_elem_of_lookup_2, (elem_of_getBitTerms _ _ _ _ W) in H, H'. destruct H as [_ H], H' as [_ H']. congruence.
  - eapply NoDup_lookup; [apply NoDup_getBitTerms|done..].
Qed.
Lemma getInstances_place d d' (k k' : nat) i : getInstances t d !! k = Some i -> getInstances t d' !! k' = Some i -> d' = d /\ k' = k.
Proof.
  intros H H'. assert (d' = d) as ->; [|split; [done|]].
  - apply list_elem_of_lookup_2, elem_of_getInstances in H, H'. destruct H as (? & ? & <-), H' as (? & ? & <-). congruence.
  - eapply NoDup_lookup; [apply NoDup_getInstances|done..].
Qed.

(** * Paths from a design *)

Definition modelOf (i : loc) : loc := match instHeap t !! i with Some inst => model_ (h_extra inst) | None => i end.
Definition model_at (d : loc) (l : list loc) : loc := match last l with Some i => modelOf i | None => d end.
Fixpoint path_from (d : loc) (l : list loc) : Prop :=
  match l with [] => True | i :: l => i ∈ getInstances t d /\ path_from (modelOf i) l end.

Lemma model_at_snoc d l i : model_at d (l ++ [i]) = modelOf i.
Proof. unfold model_at. by rewrite last_snoc. Qed.
Lemma model_at_cons d i l : model_at d (i :: l) = model_at (modelOf i) l.
Proof. unfold model_at. rewrite last_cons. by destruct (last l). Qed.
Lemma path_from_snoc d l i : path_from d (l ++ [i]) <-> path_from d l /\ i ∈ getInstances t (model_at d l).
Proof.
  revert d. induction l as [|j l IH]; intros d; cbn [app path_from]; [tauto|]. rewrite IH, model_at_cons. tauto.
Qed.
Lemma path_from_app d l l' : path_from d (l ++ l') <-> path_from d l /\ path_from (model_at d l) l'.
Proof. revert d. induction l as [|j l IH]; intros d; cbn [app path_from]; [unfold model_at; cbn; tauto|]. rewrite IH, model_at_cons. tauto. Qed.

(** * Designs that do not contain themselves *)

Context (rank : loc -> nat) (Hrank : forall i inst, instHeap t !! i = Some inst -> (rank (model_ (h_extra inst)) < rank (h_design inst))%nat).

Lemma rank_model d i : i ∈ getInstances t d -> (rank (modelOf i) < rank d)%nat.
Proof. intros (inst & Hi & <-)%elem_of_getInstances. unfold modelOf. rewrite Hi. by apply (Hrank i). Qed.
(** The number of paths from a design. *)
Fixpoint count (n : nat) (d : loc) : nat :=
  match n with O => 1%nat | S n => S (sum_list_with (fun i => count n (modelOf i)) (getInstances t d)) end.
Lemma count_enough n m d : (rank d <= n)%nat -> (rank d <= m)%nat -> count n d = count m d.
Proof.
  assert (Hnone : forall d, rank d = 0%nat -> getInstances t d = []).
  { intros e He. destruct (getInstances t e) as [|i l] eqn:E; [done|]. pose proof (rank_model e i) as H. rewrite E in H. specialize (H ltac:(left)). lia. }
  revert m d. induction n as [|n IH]; intros [|m] d Hn Hm; cbn [count]; [done|by rewrite Hnone by lia..|].
  f_equal. apply sum_list_with_ext. intros i Hi. pose proof (rank_model d i Hi). apply IH; lia.
Qed.
Definition size_below (d : loc) : nat := count (rank d) d.
Lemma size_below_unfold d : size_below d = S (sum_list_with (size_below ∘ modelOf) (getInstances t d)).
Proof.
  unfold size_below. rewrite (count_enough (rank d) (S (rank d)) d) by lia. cbn [count]. f_equal. apply sum_list_with_ext.
  intros i Hi. pose proof (rank_model d i Hi). cbn. apply count_enough; lia.
Qed.

(** * Order identifiers *)

Definition inst_right (o : orders) (i : loc) : Prop := forall d (k : nat), getInstances t d !! k = Some i -> inst_orders o !! i = Some (Z.of_nat k).
Definition bit_right (o : orders) (x : loc) : Prop := forall d (k : nat), getBitTerms t d !! k = Some x -> bit_orders o !! x = Some (Z.of_nat k).
Record more_right (o o' : orders) : Prop := {
  mr_inst i : inst_right o i -> inst_right o' i;
  mr_bit x : bit_right o x -> bit_right o' x }.
Lemma more_right_refl o : more_right o o.
Proof. done. Qed.
Lemma more_right_trans o1 o2 o3 : more_right o1 o2 -> more_right o2 o3 -> more_right o1 o3.
Proof. intros [A B] [A' B']. split; auto. Qed.
Lemma set_bit_right d (k : nat) x o : getBitTerms t d !! k = Some x ->
  more_right o (set_bitOrderID x (Z.of_nat k) o) /\ bit_right (set_bitOrderID x (Z.of_nat k) o) x.
Proof.
  intros Hx. assert (Hr : bit_right (set_bitOrderID x (Z.of_nat k) o) x).
  { intros d' k' Hk'. destruct (getBitTerms_place _ _ _ _ _ Hx Hk') as [-> ->]. cbn. by rewrite lookup_insert_eq. }
  split; [|done]. split; [done|]. intros y Hy. destruct (decide (y = x)) as [->|Hne]; [done|]. intros d' k' Hk'. cbn. rewrite lookup_insert_ne by done. by apply (Hy d').
Qed.
Lemma set_inst_right d (k : nat) i o : getInstances t d !! k = Some i ->
  more_right o (set_instOrderID i (Z.of_nat k) o) /\ inst_right (set_instOrderID i (Z.of_nat k) o) i.
Proof.
  intros Hx. assert (Hr : inst_right (set_instOrderID i (Z.of_nat k) o) i).
  { intros d' k' Hk'. destruct (getInstances_place _ _ _ _ _ Hx Hk') as [-> ->]. cbn. by rewrite lookup_insert_eq. }
  split; [|done]. split; [|done]. intros y Hy. destruct (decide (y = i)) as [->|Hne]; [done|]. intros d' k' Hk'. cbn. rewrite lookup_insert_ne by done. by apply (Hy d').
Qed.

(** The 32-bit counters do not come around. *)
Context (Hsmall : forall d, Z.of_nat (length (getInstances t d)) <= 2 ^ 32 /\ Z.of_nat (length (getBitTerms t d)) <= 2 ^ 32).
Lemma next_id {A} (k : nat) (l : list A) id (a : A) : (a :: l <> [] -> id = Z.of_nat k) -> Z.of_nat (k + length (a :: l)) <= 2 ^ 32 ->
  id = Z.of_nat k /\ (l <> [] -> (id + 1) mod 2 ^ 32 = Z.of_nat (S k)).
Proof.
  intros Hid Hl. rewrite Hid by done. split; [done|]. intros Hne. destruct l as [|b l]; [done|]. cbn [length] in Hl. rewrite Z.mod_small; lia.
Qed.

Lemma order_bits_ok d l (k : nat) id o E : (forall (j : nat) x, l !! j = Some x -> getBitTerms t d !! (k + j)%nat = Some x) ->
  (l <> [] -> id = Z.of_nat k) -> Z.of_nat (k + length l) <= 2 ^ 32 ->
  wp (order_bits id l) o (fun _ o' => more_right o o' /\ forall x, x ∈ l -> bit_right o' x) E.
Proof.
  revert k id o. induction l as [|x l IH]; intros k id o Hl Hid Hk; cbn [order_bits].
  { rewrite wp_ret. split; [done|]. by intros x ?%not_elem_of_nil. }
  destruct (next_id k l id x Hid Hk) as [-> Hid']. rewrite wp_bind, wp_modify.
  destruct (set_bit_right d k x o) as [Hm Hx]; [rewrite <- (Hl 0%nat x eq_refl); f_equal; lia|].
  eapply wp_mono; [apply (IH (S k)); [|done|cbn [length] in Hk; lia]| |done].
  - intros j y Hy. rewrite <- (Hl (S j) y Hy). f_equal. lia.
  - cbn beta. intros _ o' [Hm' Hl']. split; [by eapply more_right_trans|]. intros y [->|Hy]%elem_of_cons; [by apply Hm'|by apply Hl'].
Qed.
Lemma order_instTerms_ok i d its xs (k : nat) id o E : Forall2 (fun it x => instTermHeap t !! it = Some (mkInstTerm i x)) its xs ->
  (forall (j : nat) x, xs !! j = Some x -> getBitTerms t d !! (k + j)%nat = Some x) ->
  (its <> [] -> id = Z.of_nat k) -> Z.of_nat (k + length its) <= 2 ^ 32 ->
  wp (order_instTerms t id its) o (fun _ o' => more_right o o' /\ forall x, x ∈ xs -> bit_right o' x) E.
Proof.
  intros H. revert k id o. induction H as [|it x its xs Hit _ IH]; intros k id o Hl Hid Hk; cbn [order_instTerms].
  { rewrite wp_ret. split; [done|]. by intros x ?%not_elem_of_nil. }
  destruct (next_id k its id it Hid Hk) as [-> Hid']. unfold instTerm_getBitTerm. rewrite !wp_bind. eapply wp_deref; [exact Hit|]. rewrite wp_ret, wp_bind, wp_modify. cbn [bitTerm_].
  destruct (set_bit_right d k x o) as [Hm Hx]; [rewrite <- (Hl 0%nat x eq_refl); f_equal; lia|].
  eapply wp_mono; [apply (IH (S k)); [|done|cbn [length] in Hk; lia]| |done].
  - intros j y Hy. rewrite <- (Hl (S j) y Hy). f_equal. lia.
  - cbn beta. intros _ o' [Hm' Hl']. split; [by eapply more_right_trans|]. intros y [->|Hy]%elem_of_cons; [by apply Hm'|by apply Hl'].
Qed.
Lemma getModel_ok {S} (i d : loc) (s : S) Q E : i ∈ getInstances t d -> Q (modelOf i) s -> wp (inst_getModel t i) s Q E.
Proof.
  intros (inst & Hi & _)%elem_of_getInstances HQ. unfold inst_getModel. rewrite wp_bind. eapply wp_deref; [exact Hi|]. rewrite wp_ret.
  unfold modelOf in HQ. by rewrite Hi in HQ.
Qed.
(** The children of a design and the bits of their models are ordered. *)
Definition design_right (o : orders) (d : loc) : Prop := forall i, i ∈ getInstances t d -> inst_right o i /\ forall x, x ∈ getBitTerms t (modelOf i) -> bit_right o x.
Lemma design_right_mono o o' d : more_right o o' -> design_right o d -> design_right o' d.
Proof. intros M H i Hi. destruct (H i Hi) as [Hr Hb]. split; [by apply M|]. intros x Hx. by apply M, Hb. Qed.
Lemma order_instances_ok d l (k : nat) id stack o E : (forall (j : nat) i, l !! j = Some i -> getInstances t d !! (k + j)%nat = Some i) ->
  (l <> [] -> id = Z.of_nat k) -> Z.of_nat (k + length l) <= 2 ^ 32 ->
  wp (order_instances t id l stack) o (fun stack' o' => stack' = reverse (modelOf <$> l) ++ stack /\ more_right o o' /\
    forall i, i ∈ l -> inst_right o' i /\ forall x, x ∈ getBitTerms t (modelOf i) -> bit_right o' x) E.
Proof.
  revert k id o stack. induction l as [|i l IH]; intros k id o stack Hl Hid Hk; cbn [order_instances].
  { rewrite wp_ret. split; [done|]. split; [done|]. by intros i ?%not_elem_of_nil. }
  destruct (next_id k l id i Hid Hk) as [-> Hid']. rewrite wp_bind, wp_modify.
  assert (Hki : getInstances t d !! k = Some i) by (rewrite <- (Hl 0%nat i eq_refl); f_equal; lia).
  destruct (set_inst_right d k i o Hki) as [Hm Hi]. rewrite wp_bind. eapply getModel_ok; [by eapply list_elem_of_lookup_2|].
  pose proof (list_elem_of_lookup_2 _ _ _ Hki) as Hin. apply elem_of_getInstances in Hin as (inst & Hinst & _).
  assert (Em : modelOf i = model_ (h_extra inst)) by (unfold modelOf; by rewrite Hinst).
  pose proof (instTerms_in_order i inst Hinst) as Hits. rewrite <- Em in Hits. rewrite wp_bind.
  eapply wp_mono; [eapply (order_instTerms_ok i (modelOf i) _ _ 0 0); [exact Hits|done|done|]| |done].
  { rewrite (Forall2_length _ _ _ Hits). apply Hsmall. }
  cbn beta. intros _ o1 [Hm1 Hb1].
  eapply wp_mono; [apply (IH (S k)); [|done|cbn [length] in Hk; lia]| |done].
  - intros j y Hy. rewrite <- (Hl (S j) y Hy). f_equal. lia.
  - cbn beta. intros stack' o' (-> & Hm' & Hl'). split; [cbn [fmap list_fmap]; by rewrite reverse_cons, <- app_assoc|].
    split; [by eapply more_right_trans; [|eapply more_right_trans]|].
    intros j [->|Hj]%elem_of_cons; [|by apply Hl']. split; [by apply Hm', Hm1|]. intros x Hx. by apply Hm', Hb1.
Qed.
Lemma order_designs_ok fuel stack o E : (sum_list_with size_below stack <= fuel)%nat ->
  wp (order_designs t fuel stack) o (fun _ o' => more_right o o' /\ forall d l, d ∈ stack -> path_from d l -> design_right o' (model_at d l)) E.
Proof.
  revert stack o. induction fuel as [|fuel IH]; intros [|d stack] o Hf; cbn [order_designs].
  - rewrite wp_ret. split; [done|]. by intros d l ?%not_elem_of_nil.
  - exfalso. cbn in Hf. rewrite size_below_unfold in Hf. lia.
  - rewrite wp_ret. split; [done|]. by intros d l ?%not_elem_of_nil.
  - rewrite wp_bind. eapply wp_mono; [apply (order_instances_ok d (getInstances t d) 0 0); [done|done|apply Hsmall]| |done].
    cbn beta. intros stack' o1 (-> & Hm1 & Hd1). eapply wp_mono; [apply IH| |done].
    { rewrite sum_list_with_app, sum_list_with_reverse, sum_list_with_fmap. cbn in Hf. rewrite size_below_unfold in Hf. lia. }
    cbn beta. intros _ o' [Hm' Hall]. split; [by eapply more_right_trans|]. intros e l [->|He]%elem_of_cons Hp; [|apply Hall; [set_solver|done]].
    destruct l as [|i l]; [by apply (design_right_mono o1)|]. destruct Hp as [Hi Hp]. rewrite model_at_cons. apply Hall; [|done].
    apply elem_of_app. left. rewrite elem_of_reverse. by apply list_elem_of_fmap_2.
Qed.
(** Everything below the top is ordered. *)
Definition orders_right (top : loc) (o : orders) : Prop :=
  forall l, path_from top l -> (forall i, i ∈ getInstances t (model_at top l) -> inst_right o i) /\ forall x, x ∈ getBitTerms t (model_at top l) -> bit_right o x.
Lemma initOrderIDs_ok fuel top o E : (size_below top <= fuel)%nat -> wp (initOrderIDs t fuel top) o (fun _ o' => orders_right top o') E.
Proof.
  intros Hf. unfold initOrderIDs. rewrite wp_bind. eapply wp_mono; [apply (order_bits_ok top (getBitTerms t top) 0 0); [done|done|apply Hsmall]| |done].
  cbn beta. intros _ o1 [_ Hb]. eapply wp_mono; [apply order_designs_ok; cbn; lia| |done]. cbn beta. intros _ o' [Hm Hall] l Hl.
  pose proof (Hall top l ltac:(left) Hl) as Hd. split; [intros i Hi; by apply Hd|]. induction l as [|i l _] using rev_ind; [intros x Hx; by apply Hm, Hb|].
  apply path_from_snoc in Hl as [Hl Hi]. rewrite model_at_snoc. exact (proj2 (Hall top l ltac:(left) Hl i Hi)).
Qed.

(** * The terminals of a path *)

Context (top : loc).
Definition terms_of (l : list loc) : list (option loc * loc) :=
  match last l with
  | None => pair None <$> getBitTerms t top
  | Some i => zip_with (fun it x => (Some it, x)) (getInstTerms t i) (getBitTerms t (modelOf i))
  end.
(** What the elements of a list give, with their positions. *)
Definition collect {A B} (f : nat -> A -> list B) (l : list A) : list B := mjoin (imap f l).
Lemma collect_snoc {A B} (f : nat -> A -> list B) l a : collect f (l ++ [a]) = collect f l ++ f (length l) a.
Proof. unfold collect. rewrite imap_app, join_app. cbn. by rewrite Nat.add_0_r, app_nil_r. Qed.
Definition flat_terms (P : list (list loc)) : list (nat * (option loc * loc)) := collect (fun k l => pair k <$> terms_of l) P.
Definition new_terms (k n : nat) (l : list (option loc * loc)) : list DNLTerminalFull :=
  imap (fun j p => mkDNLTerminal (Some k) p.1 (Some p.2) (Some (n + j)%nat)) l.
Definition made_terms (F : list (nat * (option loc * loc))) : list DNLTerminalFull :=
  imap (fun n p => mkDNLTerminal (Some p.1) p.2.1 (Some p.2.2) (Some n)) F.
Lemma made_terms_app F k l : made_terms (F ++ (pair k <$> l)) = made_terms F ++ new_terms k (length F) l.
Proof. unfold made_terms, new_terms. rewrite imap_app, imap_fmap. done. Qed.
Lemma length_made F : length (made_terms F) = length F.
Proof. apply length_imap. Qed.
(** The range of the terminals of path number [k]. *)
Definition block (first n : nat) : DNLID * DNLID := if decide (n = 0%nat) then (None, None) else (Some first, Some (first + n - 1)%nat).
Definition term_block (P : list (list loc)) (k : nat) (l : list loc) : DNLID * DNLID := block (length (flat_terms (take k P))) (length (terms_of l)).
Definition leaf_ids (P : list (list loc)) : list DNLID :=
  collect (fun k l => if bool_decide (l <> [] /\ getInstances t (model_at top l) = []) then [Some k] else []) P.
Definition design_key (d : loc) : NLID :=
  match designs t !! d with Some D => nlid_design (ref_db (reference_ D)) (ref_library (reference_ D)) (ref_design (reference_ D)) | None => nlid_db 0 end.
Definition design_ids (P : list (list loc)) : gmap NLID DNLID :=
  foldl (fun m p => <[design_key (model_at top p.2):=Some p.1]> m) ∅ (imap pair P).
Lemma design_ids_snoc P l : design_ids (P ++ [l]) = <[design_key (model_at top l):=Some (length P)]> (design_ids P).
Proof. unfold design_ids. rewrite imap_app, foldl_app. cbn. by rewrite Nat.add_0_r. Qed.

(** * Small steps *)

Context (o : orders) (Ho : orders_right top o) (Htop : is_Some (designs t !! top)).

Lemma sorted_top : sorted_bitTerms o (getBitTerms t top) = getBitTerms t top.
Proof.
  apply sorted_by_positions. intros k x Hk. unfold bit_getOrderID. rewrite (proj2 (Ho [] Logic.I) x (list_elem_of_lookup_2 _ _ _ Hk) top k Hk). done.
Qed.
Lemma sorted_child l i : path_from top (l ++ [i]) -> sorted_instTerms t o (getInstTerms t i) = getInstTerms t i.
Proof.
  intros Hp. pose proof (proj2 (Ho _ Hp)) as Hb. rewrite model_at_snoc in Hb. apply path_from_snoc in Hp as [_ (inst & Hi & _)%elem_of_getInstances].
  pose proof (instTerms_in_order i inst Hi) as Hits. assert (Em : modelOf i = model_ (h_extra inst)) by (unfold modelOf; by rewrite Hi).
  rewrite Em in Hb. apply sorted_by_positions. intros k it Hk. destruct (Forall2_lookup_l _ _ _ _ _ Hits Hk) as (x & Hx & Hit). rewrite Hit. cbn.
  unfold bit_getOrderID. by rewrite (Hb x (list_elem_of_lookup_2 _ _ _ Hx) _ k Hx).
Qed.

Definition set_dnlTerms (T : list DNLTerminalFull) (s : flat) : flat := mkFlat (flat_orders s) (DNLInstances_ s) (leaves_ s) T (designInstanceIDs_ s).
Lemma push_bitTerm_step k x s Q E :
  wp (push_bitTerm k x) s Q E <-> Q tt (push_terminal (mkDNLTerminal k None (Some x) (Some (length (DNLTerms_ s)))) s).
Proof. done. Qed.
Lemma push_instTerm_step i k it x s Q E : instTermHeap t !! it = Some (mkInstTerm i x) ->
  wp (push_instTerm t k it) s Q E <-> Q tt (push_terminal (mkDNLTerminal k (Some it) (Some x) (Some (length (DNLTerms_ s)))) s).
Proof. intros Hit. unfold push_instTerm, instTerm_getBitTerm, wp, mbind, prog_bind, deref. by rewrite Hit. Qed.
Lemma push_bitTerms_ok k l s Q E :
  Q tt (set_dnlTerms (DNLTerms_ s ++ new_terms k (length (DNLTerms_ s)) (pair None <$> l)) s) -> wp (for_each (push_bitTerm (Some k)) l) s Q E.
Proof.
  revert s. induction l as [|x l IH]; intros s HQ; cbn [for_each]; [rewrite wp_ret; cbn in HQ; rewrite app_nil_r in HQ; by destruct s|].
  rewrite wp_bind, push_bitTerm_step. apply IH. unfold set_dnlTerms, push_terminal in *. cbn in *. unfold new_terms in *. cbn [imap] in HQ.
  rewrite length_app, <- app_assoc. cbn. rewrite Nat.add_0_r in HQ. erewrite imap_ext; [exact HQ|]. intros j p _. cbn. do 2 f_equal. lia.
Qed.
Lemma push_instTerms_ok i k its xs s Q E : Forall2 (fun it x => instTermHeap t !! it = Some (mkInstTerm i x)) its xs ->
  Q tt (set_dnlTerms (DNLTerms_ s ++ new_terms k (length (DNLTerms_ s)) (zip_with (fun it x => (Some it, x)) its xs)) s) ->
  wp (for_each (push_instTerm t (Some k)) its) s Q E.
Proof.
  intros H. revert s. induction H as [|it x its xs Hit _ IH]; intros s HQ; cbn [for_each]; [rewrite wp_ret; cbn in HQ; rewrite app_nil_r in HQ; by destruct s|].
  rewrite wp_bind, (push_instTerm_step i _ _ x) by done. apply IH. unfold set_dnlTerms, push_terminal in *. cbn in *. unfold new_terms in *. cbn [imap] in HQ.
  rewrite length_app, <- app_assoc. cbn. rewrite Nat.add_0_r in HQ. erewrite imap_ext; [exact HQ|]. intros j p _. cbn. do 2 f_equal. lia.
Qed.
(** Both ways to read the range, when there is a terminal to read. *)
Definition reads_range (range : nat -> on_flat (DNLID * DNLID)) (some : list DNLTerminalFull -> Prop) : Prop :=
  forall s D k l Q E, DNLTerms_ s = D ++ new_terms k (length D) l -> some (DNLTerms_ s) -> Q (block (length D) (length l)) s -> wp (range (length D)) s Q E.
Lemma last_new_terms k n l T : last (new_terms k n l) = Some T -> dnl_termID T = Some (n + length l - 1)%nat.
Proof.
  unfold new_terms. destruct l as [|p l _] using rev_ind; [done|]. rewrite imap_app. cbn [imap]. rewrite last_snoc. intros [= <-]. cbn. rewrite length_app. cbn. f_equal. lia.
Qed.
Lemma last_new_terms_some k n p l : is_Some (last (new_terms k n (p :: l))).
Proof. unfold new_terms. cbn [imap]. rewrite last_cons. by destruct (last _). Qed.
Lemma new_terms_length k n l : length (new_terms k n l) = length l.
Proof. apply length_imap. Qed.
Lemma term_range_ok : reads_range term_range (fun _ => True).
Proof.
  intros s D k l Q E Hs _ HQ. unfold term_range. rewrite wp_bind, wp_gets. rewrite Hs, length_app, new_terms_length. unfold block in HQ.
  destruct (Nat.eqb_spec (length D) (length D + length l)) as [Heq|Hne]; [by rewrite decide_True in HQ by lia|]. rewrite decide_False in HQ by lia.
  destruct l as [|p l]; [cbn in Hne; lia|]. destruct (last_new_terms_some k (length D) p l) as [T HT]. rewrite wp_bind. eapply wp_deref; [by rewrite Hs, last_app, HT|].
  by rewrite wp_ret, (last_new_terms _ _ _ _ HT).
Qed.
Lemma deep_term_range_ok : reads_range deep_term_range (fun T => T <> []).
Proof.
  intros s D k l Q E Hs Hsome HQ. unfold deep_term_range. rewrite wp_bind. destruct (last (DNLTerms_ s)) as [T|] eqn:HT; [|by apply last_None in HT].
  eapply wp_deref; [exact HT|]. rewrite wp_bind, wp_gets, Hs, length_app, new_terms_length. unfold block in HQ.
  destruct (Nat.eqb_spec (length D) (length D + length l)) as [Heq|Hne]; rewrite wp_ret; [by rewrite decide_True in HQ by lia|]. rewrite decide_False in HQ by lia.
  destruct l as [|p l]; [cbn in Hne; lia|]. destruct (last_new_terms_some k (length D) p l) as [T' HT']. rewrite Hs, last_app, HT' in HT. injection HT as <-.
  by rewrite (last_new_terms _ _ _ _ HT').
Qed.
Lemma registerDesignInstance_ok d id s Q E : is_Some (designs t !! d) -> Q tt (put_designInstance (design_key d) id s) -> wp (registerDesignInstance t d id) s Q E.
Proof. intros [D HD] HQ. unfold registerDesignInstance. rewrite wp_bind. eapply wp_deref; [exact HD|]. rewrite wp_modify. unfold design_key in HQ. by rewrite HD in HQ. Qed.

(** * The invariant of the unfolding *)

(** Instance number [k] is that at the end of path [l]. *)
Definition instance_at (P : list (list loc)) (k : nat) (l : list loc) (inst : DNLInstanceFull) : Prop :=
  dnl_instance inst = last l /\ dnl_id inst = Some k /\ dnl_terms inst = term_block P k l /\
  (l = [] -> dnl_parent inst = None) /\
  (forall l' i, l = l' ++ [i] -> exists j, dnl_parent inst = Some j /\ (j < k)%nat /\ P !! j = Some l').
Definition children_at (P : list (list loc)) (l : list loc) (r : DNLID * DNLID) : Prop :=
  exists a, r = block a (length (getInstances t (model_at top l))) /\
    forall (j : nat) i, getInstances t (model_at top l) !! j = Some i -> P !! (a + j)%nat = Some (l ++ [i]).
(** [P] lists the paths of the instances made; those of [stack] wait for their
    children, those of [busy] are getting them. *)
Record unfolding (P : list (list loc)) (stack busy : list nat) (s : flat) : Prop := {
  un_length : length (DNLInstances_ s) = length P;
  un_orders : flat_orders s = o;
  un_terms : DNLTerms_ s = made_terms (flat_terms P);
  un_leaves : leaves_ s = leaf_ids P;
  un_designs : designInstanceIDs_ s = design_ids P;
  un_first : P !! 0%nat = Some [];
  un_nodup : NoDup P;
  un_paths k l : P !! k = Some l -> path_from top l;
  un_inst k l : P !! k = Some l -> exists inst, DNLInstances_ s !! k = Some inst /\ instance_at P k l inst /\
    (k ∉ stack -> k ∉ busy -> children_at P l (dnl_children inst));
  un_open k l i : k ∈ stack -> P !! k = Some l -> l ++ [i] ∉ P;
  un_stack : NoDup stack;
  un_waiting k : k ∈ stack -> (0 < k < length P)%nat }.

Lemma instance_at_snoc P k l l' inst : (k < length P)%nat -> instance_at P k l inst -> instance_at (P ++ [l']) k l inst.
Proof.
  intros Hk (H1 & H2 & H3 & H4 & H5). split_and!; [done..| |done|].
  - rewrite H3. unfold term_block. by rewrite take_app_le by lia.
  - intros l1 i E. destruct (H5 l1 i E) as (j & ? & ? & ?). exists j. split_and!; [done..|]. by apply lookup_app_l_Some.
Qed.
Lemma children_at_app P Q l r : children_at P l r -> children_at (P ++ Q) l r.
Proof. intros (a & -> & H). exists a. split; [done|]. intros j i Hj. by apply lookup_app_l_Some, H. Qed.
Lemma prefix_there P stack busy s l i : unfolding P stack busy s -> l ++ [i] ∈ P -> l ∈ P.
Proof.
  intros U [k Hk]%list_elem_of_lookup. destruct (un_inst _ _ _ _ U _ _ Hk) as (inst & _ & (_ & _ & _ & _ & H) & _).
  destruct (H _ _ eq_refl) as (j & _ & _ & Hj). by eapply list_elem_of_lookup_2.
Qed.
Lemma model_alive l i : path_from top (l ++ [i]) -> is_Some (designs t !! modelOf i).
Proof. intros [_ (inst & Hi & _)%elem_of_getInstances]%path_from_snoc. unfold modelOf. rewrite Hi. by apply (sw_model _ _ W _ _ Hi). Qed.

Section range.
Context (range : nat -> on_flat (DNLID * DNLID)) (some : list DNLTerminalFull -> Prop) (Hrange : reads_range range some).
Context (Hsome : forall A B, some A -> some (A ++ B)).

(** The state after the child [i] of instance [k] at path [l] is made. *)
Definition child_made (P : list (list loc)) (k : nat) (l : list loc) (i : loc) (s : flat) : flat :=
  mkFlat (flat_orders s)
    (DNLInstances_ s ++ [mkDNLInstance (Some 0, Some 0)%nat (Some i) (Some (length P)) (Some k) (term_block (P ++ [l ++ [i]]) (length P) (l ++ [i])) None None])
    (leaf_ids (P ++ [l ++ [i]])) (made_terms (flat_terms (P ++ [l ++ [i]]))) (design_ids (P ++ [l ++ [i]])).
Lemma alter_last {A} (f : A -> A) (l : list A) a : alter f (length (l ++ [a]) - 1)%nat (l ++ [a]) = l ++ [f a].
Proof. rewrite length_app. cbn [length]. replace (length l + 1 - 1)%nat with (length l + 0)%nat by lia. by rewrite alter_app_r. Qed.
Lemma create_child_state P S X k l i s Q E : unfolding P S X s -> path_from top (l ++ [i]) -> some (DNLTerms_ s) ->
  Q (length P) (child_made P k l i s) -> wp (create_child t range k i) s Q E.
Proof.
  intros U Hp Hs HQ. pose proof (proj1 (path_from_snoc _ _ _) Hp) as [_ Hi]. pose proof (proj1 (elem_of_getInstances _ _) Hi) as (inst & Hinst & _).
  unfold create_child. rewrite wp_bind, wp_gets, wp_bind, wp_modify, wp_bind. eapply getModel_ok; [exact Hi|].
  rewrite wp_bind. apply registerDesignInstance_ok; [by eapply model_alive|]. rewrite wp_bind, wp_gets, wp_bind.
  set (s1 := put_designInstance _ _ _). set (s2 := if bool_decide (getInstances t (modelOf i) = []) then push_leaf (Some (length (DNLInstances_ s))) s1 else s1).
  assert (Hleaf : forall Q', Q' tt s2 -> wp (if bool_decide (getInstances t (modelOf i) = []) then modify (push_leaf (Some (length (DNLInstances_ s)))) else mret tt) s1 Q' E).
  { intros Q' HQ'. subst s2. by destruct (bool_decide _). }
  apply Hleaf. assert (E2 : flat_orders s2 = o /\ DNLTerms_ s2 = DNLTerms_ s) by (subst s2; case_bool_decide; split; cbn; [apply (un_orders _ _ _ _ U)|done|apply (un_orders _ _ _ _ U)|done]).
  destruct E2 as [Eo Et]. rewrite wp_bind, wp_gets, Eo, (sorted_child l i Hp), wp_bind.
  pose proof (instTerms_in_order i inst Hinst) as Hits. assert (Em : modelOf i = model_ (h_extra inst)) by (unfold modelOf; by rewrite Hinst). rewrite <- Em in Hits.
  eapply push_instTerms_ok; [exact Hits|]. set (T := zip_with _ _ _). assert (ET : T = terms_of (l ++ [i])) by (unfold terms_of; by rewrite last_snoc).
  rewrite Et, wp_bind. change (length (DNLTerms_ s1)) with (length (DNLTerms_ s)).
  eapply (Hrange _ (DNLTerms_ s) (length (DNLInstances_ s)) T); [done|by apply Hsome|].
  unfold back_setTermsIndexes. rewrite wp_bind, wp_modify, wp_ret. rewrite (un_length _ _ _ _ U).
  match goal with |- Q _ ?s' => replace s' with (child_made P k l i s) end; [done|].
  assert (El : leaves_ s2 = leaf_ids (P ++ [l ++ [i]])).
  { unfold leaf_ids. rewrite collect_snoc. fold (leaf_ids P). rewrite <- (un_leaves _ _ _ _ U), model_at_snoc. subst s2. rewrite (un_length _ _ _ _ U).
    case_bool_decide as Hn; cbn; [rewrite bool_decide_true; [done|split; [by destruct l|done]]|]. rewrite bool_decide_false by tauto. by rewrite app_nil_r. }
  assert (Ei : DNLInstances_ s2 = DNLInstances_ s ++ [new_DNLInstance (Some i) (Some (length P)) (Some k)]).
  { subst s2 s1. rewrite (un_length _ _ _ _ U). by case_bool_decide. }
  assert (Ed : designInstanceIDs_ s2 = design_ids (P ++ [l ++ [i]])).
  { rewrite design_ids_snoc, model_at_snoc, <- (un_designs _ _ _ _ U). subst s2 s1. rewrite (un_length _ _ _ _ U). by case_bool_decide. }
  unfold child_made, alter_instance, set_dnlTerms. cbn. rewrite El, Ei, Ed, Eo, (un_orders _ _ _ _ U). rewrite alter_last. f_equal.
  - do 2 f_equal. unfold setTermsIndexes, new_DNLInstance. cbn. f_equal. unfold term_block. rewrite take_app_length, (un_terms _ _ _ _ U), length_made. by rewrite ET.
  - unfold flat_terms. rewrite collect_snoc. fold (flat_terms P). rewrite made_terms_app, (un_terms _ _ _ _ U), length_made. by rewrite ET.
Qed.
Lemma create_child_ok P S X k l i s E : unfolding P S X s -> P !! k = Some l -> k ∉ S -> k ∈ X -> i ∈ getInstances t (model_at top l) -> l ++ [i] ∉ P ->
  some (DNLTerms_ s) ->
  wp (create_child t range k i) s (fun n s' => n = length P /\ unfolding (P ++ [l ++ [i]]) (n :: S) X s' /\ some (DNLTerms_ s')) E.
Proof.
  intros U Hk HkS HkX Hi Hnew Hs. assert (Hp : path_from top (l ++ [i])) by (apply path_from_snoc; split; [by eapply un_paths|done]).
  eapply create_child_state; [exact U|exact Hp|exact Hs|]. split; [done|]. split; [|cbn; unfold flat_terms; rewrite collect_snoc, made_terms_app; fold (flat_terms P); apply Hsome; by rewrite <- (un_terms _ _ _ _ U)].
  pose proof (lookup_lt_Some _ _ _ Hk) as Hklt. assert (HnX : forall j, j ∈ S -> (j < length P)%nat) by (intros j Hj; by apply (un_waiting _ _ _ _ U)).
  split; cbn; try done.
  - rewrite !length_app. cbn. by rewrite (un_length _ _ _ _ U).
  - apply (un_orders _ _ _ _ U).
  - apply lookup_app_l_Some, (un_first _ _ _ _ U).
  - apply NoDup_app. split; [apply (un_nodup _ _ _ _ U)|]. split; [by intros q Hq ->%list_elem_of_singleton|apply NoDup_singleton].
  - intros j q [[_ Hq]|[-> <-]]%lookup_snoc_Some; [by eapply un_paths|done].
  - intros j q [[Hj Hq]|[-> <-]]%lookup_snoc_Some.
    + destruct (un_inst _ _ _ _ U _ _ Hq) as (inst & Hinst & Hat & Hch). exists inst. split; [by apply lookup_app_l_Some|]. split; [by apply instance_at_snoc|].
      intros HnS HnB. apply children_at_app, Hch; [|done]. intros H. apply HnS. by right.
    + eexists. split; [apply list_lookup_middle; by rewrite (un_length _ _ _ _ U)|]. split; [|intros H _; exfalso; apply H; left].
      split_and!; cbn; [by rewrite last_snoc|done|done|by destruct l|]. intros l' i' [-> ->]%app_inj_tail. exists k. split_and!; [done..|]. by apply lookup_app_l_Some.
  - intros j q i' [->|Hj]%elem_of_cons.
    + intros [[Hlt _]|[_ <-]]%lookup_snoc_Some; [lia|]. intros [Hin|Heq%list_elem_of_singleton]%elem_of_app; [by apply Hnew; eapply prefix_there|].
      apply (f_equal length) in Heq. rewrite length_app in Heq. cbn in Heq. lia.
    + intros [[_ Hq]|[-> _]]%lookup_snoc_Some; [|specialize (HnX _ Hj); lia]. intros [Hin|Heq%list_elem_of_singleton]%elem_of_app; [by eapply (un_open _ _ _ _ U)|].
      apply app_inj_tail in Heq as [-> ->]. pose proof (NoDup_lookup _ _ _ _ (un_nodup _ _ _ _ U) Hq Hk) as ->. done.
  - constructor; [|apply (un_stack _ _ _ _ U)]. intros H%HnX. lia.
  - rewrite length_app. cbn. intros j [->|Hj]%elem_of_cons; [lia|]. pose proof (un_waiting _ _ _ _ U j Hj). lia.
Qed.
Lemma create_children_ok P S k l dn cs s E : P !! k = Some l -> k ∉ S -> (forall n, n ∈ S -> (n < length P)%nat) ->
  getInstances t (model_at top l) = dn ++ cs -> (forall i, i ∈ cs -> l ++ [i] ∉ P) ->
  unfolding P S [k] s -> some (DNLTerms_ s) ->
  wp (create_children t range k cs S) s (fun S' s' => S' = reverse (seq (length P) (length cs)) ++ S /\
    unfolding (P ++ ((fun i => l ++ [i]) <$> cs)) S' [k] s' /\ some (DNLTerms_ s')) E.
Proof.
  revert P S dn s. induction cs as [|i cs IH]; intros P S dn s Hk HkS HSlt Hdone Hnew U Hs; cbn [create_children].
  { rewrite wp_ret. cbn. by rewrite app_nil_r. }
  pose proof (NoDup_getInstances (model_at top l)) as Hnd. rewrite Hdone in Hnd. apply NoDup_app in Hnd as (_ & _ & Hnd). apply NoDup_cons in Hnd as [Hi Hnd].
  pose proof (lookup_lt_Some _ _ _ Hk) as Hklt.
  rewrite wp_bind. eapply wp_mono; [apply (create_child_ok P S [k] k l i s); [done..|by left|rewrite Hdone; set_solver|apply Hnew; by left|done]| |done].
  cbn beta. intros n s1 (-> & U1 & Hs1).
  eapply wp_mono; [apply (IH (P ++ [l ++ [i]]) (length P :: S) (dn ++ [i]) s1)| |done].
  - by apply lookup_app_l_Some.
  - intros [->|H]%elem_of_cons; [lia|done].
  - rewrite length_app. cbn. intros n [->|H]%elem_of_cons; [lia|]. specialize (HSlt n H). lia.
  - by rewrite Hdone, <- app_assoc.
  - intros j Hj [H|H%list_elem_of_singleton]%elem_of_app; [by apply (Hnew j); [right|]|]. apply app_inj_tail in H as [_ ->]. done.
  - done.
  - done.
  - cbn beta. intros S' s' (-> & U' & Hs'). split; [|split; [|done]].
    + rewrite length_app. cbn [length]. rewrite Nat.add_1_r. cbn [seq]. by rewrite reverse_cons, <- app_assoc.
    + cbn [fmap list_fmap]. by rewrite <- app_assoc in U'.
Qed.
(** An instance takes its children. *)
Lemma expand_ok P S k l s E : unfolding P (k :: S) [] s \/ (unfolding P [] [k] s /\ S = [] /\ forall i, l ++ [i] ∉ P) ->
  P !! k = Some l -> some (DNLTerms_ s) ->
  wp (expand t range k (model_at top l) S) s (fun S' s' => S' = reverse (seq (length P) (length (getInstances t (model_at top l)))) ++ S /\
    unfolding (P ++ ((fun i => l ++ [i]) <$> getInstances t (model_at top l))) S' [] s' /\ some (DNLTerms_ s')) E.
Proof.
  intros HU Hk Hs. set (cs := getInstances t (model_at top l)).
  assert (H : unfolding P S [k] s /\ k ∉ S /\ (forall n, n ∈ S -> (n < length P)%nat) /\ forall i, l ++ [i] ∉ P).
  { destruct HU as [U|(U & -> & Hnew)].
    - pose proof (un_stack _ _ _ _ U) as Hnd. apply NoDup_cons in Hnd as [HkS Hnd]. split; [|split; [done|split]].
      + destruct U. split; try done; [|intros j q i Hj; apply un_open0; by right|intros j Hj; apply un_waiting0; by right].
        intros j q Hq. destruct (un_inst0 j q Hq) as (inst & Hi & Hat & Hch). exists inst. split; [done|]. split; [done|]. intros H1 H2. apply Hch; [|by intros ?%not_elem_of_nil].
        intros [->|H]%elem_of_cons; [apply H2; by left|done].
      + intros n Hn. apply (un_waiting _ _ _ _ U). by right.
      + intros i. apply (un_open _ _ _ _ U k); [left|done].
    - split; [done|]. split; [by intros ?%not_elem_of_nil|]. split; [by intros n ?%not_elem_of_nil|done]. }
  destruct H as (U & HkS & HSlt & Hnew). unfold expand. rewrite wp_bind, wp_gets, wp_bind.
  eapply wp_mono; [apply (create_children_ok P S k l [] cs s); [done..| |done|done]; by intros|  |done].
  cbn beta. intros S' s1 (-> & U1 & Hs1). rewrite wp_bind. set (P1 := P ++ _) in *. pose proof (lookup_lt_Some _ _ _ Hk) as Hklt.
  assert (Hr : forall Q, Q (block (length P) (length cs)) s1 -> wp (child_range (length (DNLInstances_ s))) s1 Q E).
  { intros Q HQ. unfold child_range, block in *. rewrite wp_bind, wp_gets. rewrite (un_length _ _ _ _ U1), (un_length _ _ _ _ U). subst P1. rewrite length_app, length_fmap.
    destruct (Nat.eqb_spec (length P) (length P + length cs)) as [Heq|Hne]; [by rewrite decide_True in HQ by lia|]. rewrite decide_False in HQ by lia.
    destruct cs as [|i cs' _] eqn:Ecs using rev_ind; [cbn in Hne; lia|]. rewrite fmap_app in U1. cbn [fmap list_fmap] in U1. rewrite app_assoc in U1.
    destruct (un_inst _ _ _ _ U1 _ _ (list_lookup_middle _ [] _ _ eq_refl)) as (inst & Hi & (_ & Hid & _) & _).
    rewrite wp_bind. eapply wp_deref.
    { rewrite last_lookup, (un_length _ _ _ _ U1), length_app. cbn. rewrite Nat.add_1_r. exact Hi. }
    rewrite wp_ret, Hid, length_app, length_fmap. rewrite length_app in HQ. cbn in HQ. by replace (length P + length cs')%nat with (length P + (length cs' + 1) - 1)%nat by lia. }
  apply Hr. rewrite wp_bind, wp_modify, wp_ret. split; [done|]. split; [|done].
  destruct U1 as [Ulen Uor Ut Ul Ud Uf Und Up Ui Uop Ust Uw]. split; cbn; try done; [by rewrite length_alter|].
  intros j q Hq. destruct (Ui j q Hq) as (inst & Hi & Hat & Hch). destruct (decide (k = j)) as [<-|Hne].
  - rewrite list_lookup_alter_eq, Hi. eexists. split; [done|]. split; [done|]. intros _ _. cbn.
    assert (q = l) as -> by (subst P1; rewrite lookup_app_l in Hq by done; congruence).
    exists (length P). split; [done|]. intros j' i Hi'. subst P1. rewrite lookup_app_r by lia. rewrite list_lookup_fmap.
    replace (length P + j' - length P)%nat with j' by lia. fold cs in Hi'. by rewrite Hi'.
  - rewrite list_lookup_alter_ne by done. exists inst. split; [done|]. split; [done|]. intros H1 _. apply Hch; [done|]. by intros ->%list_elem_of_singleton.
Qed.
End range.

(** Some terminal is there before the children of children are made. *)
Definition has_terminal : Prop := getBitTerms t top <> [] \/ exists i, i ∈ getInstances t top /\ getBitTerms t (modelOf i) <> [].

(** * Unfolding everything *)

Lemma create_top_ok E : wp (create_top t top) (nothing_flat o) (fun k s' => k = 0%nat /\ unfolding [[]] [] [0%nat] s') E.
Proof.
  unfold create_top. rewrite wp_bind, wp_gets, wp_bind, wp_modify, wp_bind. apply registerDesignInstance_ok; [done|].
  rewrite wp_bind, wp_gets, wp_bind, wp_gets, wp_bind. cbn [flat_orders put_designInstance push_instance nothing_flat]. rewrite sorted_top. apply push_bitTerms_ok.
  cbn [DNLTerms_ put_designInstance push_instance nothing_flat length app]. set (T := pair None <$> getBitTerms t top). assert (ET : T = terms_of []) by done. rewrite wp_bind.
  eapply (term_range_ok _ [] 0%nat T); [done|done|]. unfold back_setTermsIndexes. rewrite wp_bind, wp_modify, wp_ret. split; [done|].
  assert (Ef : flat_terms [[]] = pair 0%nat <$> terms_of []) by (unfold flat_terms, collect; cbn; by rewrite app_nil_r).
  split; try done.
  - rewrite Ef. symmetry. exact (made_terms_app [] 0%nat (terms_of [])).
  - apply NoDup_singleton.
  - intros k l Hk. by destruct k as [|k]; [injection Hk as <-|].
  - intros k l Hk. destruct k as [|k]; [injection Hk as <-|done]. eexists. split; [done|]. split.
    + split_and!; cbn; try done. intros l' i H. by destruct l'.
    + intros _ H. exfalso. apply H. left.
  - by intros k l i ?%not_elem_of_nil.
  - constructor.
  - by intros k ?%not_elem_of_nil.
Qed.
Definition weight (P : list (list loc)) (S : list nat) : nat := sum_list_with (fun k => size_below (model_at top (default [] (P !! k)))) S.
Lemma weight_children P S l cs : (forall k, k ∈ S -> (k < length P)%nat) ->
  weight (P ++ ((fun i => l ++ [i]) <$> cs)) (reverse (seq (length P) (length cs)) ++ S) = (sum_list_with (size_below ∘ modelOf) cs + weight P S)%nat.
Proof.
  intros HS. unfold weight. rewrite sum_list_with_app, sum_list_with_reverse. f_equal.
  - assert (H : forall P, sum_list_with (fun k => size_below (model_at top (default [] ((P ++ ((fun i => l ++ [i]) <$> cs)) !! k)))) (seq (length P) (length cs)) =
      sum_list_with (size_below ∘ modelOf) cs); [|apply H].
    clear. induction cs as [|i cs IH]; intros P; [done|]. cbn [length seq fmap list_fmap sum_list_with]. rewrite list_lookup_middle by done. cbn [default].
    unfold id at 1. rewrite model_at_snoc. cbn [compose]. f_equal. specialize (IH (P ++ [l ++ [i]])). rewrite length_app in IH. cbn in IH. rewrite Nat.add_1_r in IH. rewrite <- app_assoc in IH. exact IH.
  - apply sum_list_with_ext. intros k Hk. by rewrite lookup_app_l by by apply HS.
Qed.
Lemma expand_all_ok fuel P S s E : unfolding P S [] s -> DNLTerms_ s <> [] -> (weight P S <= fuel)%nat ->
  wp (expand_all t fuel S) s (fun _ s' => exists P', unfolding P' [] [] s') E.
Proof.
  revert P S s. induction fuel as [|fuel IH]; intros P [|k S] s U Ht Hf; cbn [expand_all]; [rewrite wp_ret; by exists P| |rewrite wp_ret; by exists P|].
  { exfalso. unfold weight in Hf. cbn in Hf. rewrite size_below_unfold in Hf. lia. }
  destruct (un_waiting _ _ _ _ U k ltac:(left)) as [Hpos Hlt]. destruct (lookup_lt_is_Some_2 P k Hlt) as [l Hl].
  destruct (un_inst _ _ _ _ U _ _ Hl) as (inst & Hi & (Hlast & Hrest) & _). pose proof (un_paths _ _ _ _ U _ _ Hl) as Hp.
  destruct l as [|i l _] using rev_ind.
  { pose proof (NoDup_lookup _ _ _ _ (un_nodup _ _ _ _ U) Hl (un_first _ _ _ _ U)). lia. }
  rewrite last_snoc in Hlast. wp_read Hi. rewrite wp_bind. eapply wp_deref; [exact Hlast|]. rewrite wp_bind.
  eapply getModel_ok; [by apply path_from_snoc in Hp as [_ Hp]|]. rewrite wp_bind. rewrite <- (model_at_snoc top l i).
  eapply wp_mono; [apply (expand_ok deep_term_range (fun T => T <> []) deep_term_range_ok) with (P := P); [by intros [|]|by left|done|done]| |done].
  cbn beta. intros S' s' (-> & U' & Ht'). apply (IH _ _ _ U' Ht'). rewrite weight_children by (intros n Hn; apply (un_waiting _ _ _ _ U); by right).
  unfold weight in Hf |- *. cbn [sum_list_with] in Hf. rewrite Hl in Hf. cbn [default from_option] in Hf. unfold id in Hf at 1. rewrite (size_below_unfold (model_at top (l ++ [i]))) in Hf. lia.
Qed.

(** What the unfolding leaves: all paths from the top, each once. *)
Record unfolded (P : list (list loc)) (s : flat) : Prop := {
  uf_length : length (DNLInstances_ s) = length P;
  uf_terms : DNLTerms_ s = made_terms (flat_terms P);
  uf_leaves : leaves_ s = leaf_ids P;
  uf_designs : designInstanceIDs_ s = design_ids P;
  uf_orders : flat_orders s = o;
  uf_first : P !! 0%nat = Some [];
  uf_nodup : NoDup P;
  uf_paths l : l ∈ P <-> path_from top l;
  uf_inst k l : P !! k = Some l -> exists inst, DNLInstances_ s !! k = Some inst /\ instance_at P k l inst /\ children_at P l (dnl_children inst) }.
Lemma unfolding_done P s : unfolding P [] [] s -> unfolded P s.
Proof.
  intros U. assert (Hinst : forall k l, P !! k = Some l -> exists inst, DNLInstances_ s !! k = Some inst /\ instance_at P k l inst /\ children_at P l (dnl_children inst)).
  { intros k l Hk. destruct (un_inst _ _ _ _ U _ _ Hk) as (inst & Hi & Hat & Hch). exists inst. split; [done|]. split; [done|]. apply Hch; apply not_elem_of_nil. }
  split; try apply U; [|done]. intros l. split; [intros [k Hk]%list_elem_of_lookup; by eapply un_paths|].
  induction l as [|i l IH] using rev_ind; [intros _; eapply list_elem_of_lookup_2, (un_first _ _ _ _ U)|]. intros [Hl Hi]%path_from_snoc.
  apply IH, list_elem_of_lookup in Hl as [k Hk]. destruct (Hinst k l Hk) as (inst & _ & _ & (a & _ & Hch)).
  apply list_elem_of_lookup in Hi as [j Hj]. by eapply list_elem_of_lookup_2, Hch.
Qed.
Lemma unfold_ok fuel E : (size_below top <= fuel)%nat -> has_terminal ->
  wp (k ← create_top t top; S ← expand t term_range k top []; expand_all t fuel S) (nothing_flat o) (fun _ s' => exists P, unfolded P s') E.
Proof.
  intros Hf Hsome. rewrite wp_bind. eapply wp_mono; [apply create_top_ok| |done]. cbn beta. intros k s (-> & U). rewrite wp_bind.
  eapply wp_mono; [apply (expand_ok term_range (fun _ => True) term_range_ok ltac:(done) [[]] [] 0%nat [] s)| |done]; [|done|done|].
  { right. split; [done|]. split; [done|]. intros i H%list_elem_of_singleton. done. }
  cbn beta. change (model_at top []) with top. intros S' s' (-> & U' & _).
  eapply wp_mono; [eapply expand_all_ok; [exact U'| |]| |done].
  - rewrite (un_terms _ _ _ _ U'). intros H. apply (f_equal length) in H. rewrite length_made in H. cbn in H.
    assert (Hnil : flat_terms ([[]] ++ ((fun i => [] ++ [i]) <$> getInstances t top)) = []) by by apply length_zero_iff_nil.
    assert (Hno : forall k l, ([[]] ++ ((fun i => [] ++ [i]) <$> getInstances t top)) !! k = Some l -> terms_of l = []).
    { intros k l Hk. destruct (terms_of l) as [|p r] eqn:El; [done|]. exfalso. assert (Hin : (k, p) ∈ flat_terms ([[]] ++ ((fun i => [] ++ [i]) <$> getInstances t top))).
      { unfold flat_terms, collect. apply list_elem_of_join. eexists. split; [|apply elem_of_lookup_imap; by exists k, l]. rewrite El. left. }
      rewrite Hnil in Hin. by apply not_elem_of_nil in Hin. }
    destruct Hsome as [Htop'|(i & Hi & Hbits)].
    + pose proof (Hno 0%nat [] eq_refl) as H0. unfold terms_of in H0. cbn in H0. by destruct (getBitTerms t top).
    + apply list_elem_of_lookup in Hi as [j Hj]. assert (H0 : terms_of [i] = []).
      { apply (Hno (S j)). rewrite lookup_app_r by (cbn; lia). rewrite list_lookup_fmap. cbn [length]. replace (S j - 1)%nat with j by lia. by rewrite Hj. }
      unfold terms_of in H0. cbn in H0. apply (f_equal length) in H0. rewrite length_zip_with in H0.
      pose proof (list_elem_of_lookup_2 _ _ _ Hj) as Hi. apply elem_of_getInstances in Hi as (inst & Hinst & _).
      pose proof (Forall2_length _ _ _ (instTerms_in_order i inst Hinst)) as Hlen. unfold modelOf in *. rewrite Hinst in *. destruct (getBitTerms t _); [done|]. cbn in *. lia.
  - etransitivity; [apply Nat.eq_le_incl; apply (weight_children [[]] [] [] (getInstances t top)); by intros k ?%not_elem_of_nil|].
    unfold weight. cbn [sum_list_with]. rewrite size_below_unfold in Hf. lia.
  - cbn beta. intros _ s2 (P & U2). exists P. by apply unfolding_done.
Qed.

(** * The intervals of the depth first search *)

Section intervals.
Context (P : list (list loc)) (HP : NoDup P).
Definition interval (s : flat) (k a b : nat) : Prop := exists inst, DNLInstances_ s !! k = Some inst /\ dfsIn_ inst = Some a /\ dfsOut_ inst = Some b.
(** The intervals of the paths in [D] are between [lo] and [hi], and nested as the paths are. *)
Definition covers (D : list loc -> Prop) (lo hi : nat) (s : flat) : Prop :=
  forall k l, P !! k = Some l -> D l -> exists a b, interval s k a b /\ (lo <= a < b)%nat /\ (b <= hi)%nat /\
    forall k' l' a' b', P !! k' = Some l' -> D l' -> interval s k' a' b' -> (a <= a' < b)%nat <-> l `prefix_of` l'.
(** Only instances on paths in [D] change, and they in their intervals. *)
Record dfs_changed (D : list loc -> Prop) (s s' : flat) : Prop := {
  dc_same k l : P !! k = Some l -> ~ D l -> DNLInstances_ s' !! k = DNLInstances_ s !! k;
  dc_unfolded : unfolded P s -> unfolded P s' }.
Lemma interval_fun s k a b a' b' : interval s k a b -> interval s k a' b' -> a' = a /\ b' = b.
Proof. intros (i & Hi & Ha & Hb) (i' & Hi' & Ha' & Hb'). simplify_eq. split; congruence. Qed.
Lemma covers_same D lo hi s s' : (forall k l, P !! k = Some l -> D l -> DNLInstances_ s' !! k = DNLInstances_ s !! k) -> covers D lo hi s -> covers D lo hi s'.
Proof.
  intros Hs H k l Hk Hl. destruct (H k l Hk Hl) as (a & b & Hi & Hlo & Hhi & Hp). exists a, b. split_and!; [|lia|lia|lia|].
  - destruct Hi as (inst & Hi & ?). exists inst. by rewrite (Hs k l Hk Hl).
  - intros k' l' a' b' Hk' Hl' (inst & Hi' & ?). apply (Hp k' l' a' b' Hk' Hl'). exists inst. by rewrite <- (Hs k' l' Hk' Hl').
Qed.
Lemma covers_union D1 D2 lo mid hi s : covers D1 lo mid s -> covers D2 mid hi s -> (lo <= mid <= hi)%nat ->
  (forall l l', D1 l -> D2 l' -> ~ l `prefix_of` l' /\ ~ l' `prefix_of` l) -> covers (fun l => D1 l \/ D2 l) lo hi s.
Proof.
  intros H1 H2 Hm Hno k l Hk [Hl|Hl].
  - destruct (H1 k l Hk Hl) as (a & b & Hi & Hlo & Hhi & Hp). exists a, b. split_and!; [done|lia..|]. intros k' l' a' b' Hk' [Hl'|Hl'] Hi'; [by eapply Hp|].
    destruct (H2 k' l' Hk' Hl') as (a2 & b2 & Hi2 & Hlo2 & _). destruct (interval_fun _ _ _ _ _ _ Hi' Hi2) as [-> ->].
    destruct (Hno l l' Hl Hl'). split; [intros ?; exfalso; lia|done].
  - destruct (H2 k l Hk Hl) as (a & b & Hi & Hlo & Hhi & Hp). exists a, b. split_and!; [done|lia..|]. intros k' l' a' b' Hk' [Hl'|Hl'] Hi'; [|by eapply Hp].
    destruct (H1 k' l' Hk' Hl') as (a2 & b2 & Hi2 & Hlo2 & Hhi2 & _). destruct (interval_fun _ _ _ _ _ _ Hi' Hi2) as [-> ->].
    destruct (Hno l' l Hl' Hl). split; [intros ?; exfalso; lia|done].
Qed.
Lemma covers_ext D D' lo hi s : (forall l, path_from top l -> D l <-> D' l) -> (forall l, l ∈ P -> path_from top l) -> covers D lo hi s -> covers D' lo hi s.
Proof.
  intros HD Hall H k l Hk Hl. destruct (H k l Hk) as (a & b & Hi & Hlo & Hhi & Hp); [apply HD; [by eapply Hall, list_elem_of_lookup_2|done]|].
  exists a, b. split_and!; [done|lia..|]. intros k' l' a' b' Hk' Hl'. apply Hp; [done|]. apply HD; [by eapply Hall, list_elem_of_lookup_2|done].
Qed.
Lemma unfolded_interval a b k s : unfolded P s -> unfolded P (alter_instance (setDFSInterval a b) k s).
Proof.
  intros U. destruct U as [Ul Ut Ule Ud Uo Uf Un Up Ui]. split; try done; [cbn; by rewrite length_alter|]. intros j l Hj. destruct (Ui j l Hj) as (inst & Hi & Hat & Hch).
  cbn. destruct (decide (k = j)) as [<-|Hne]; [rewrite list_lookup_alter_eq, Hi; by eexists|rewrite list_lookup_alter_ne by done; by exists inst].
Qed.
Lemma dfs_changed_refl D s : dfs_changed D s s.
Proof. done. Qed.
Lemma dfs_changed_trans (D1 D2 D : list loc -> Prop) s1 s2 s3 : (forall l, D1 l -> D l) -> (forall l, D2 l -> D l) -> dfs_changed D1 s1 s2 -> dfs_changed D2 s2 s3 -> dfs_changed D s1 s3.
Proof.
  intros H1 H2 C1 C2. split; [|intros U; apply C2, C1, U]. intros k l Hk Hl. rewrite (dc_same _ _ _ C2 k l Hk) by auto. apply (dc_same _ _ _ C1 k l Hk). auto.
Qed.

Definition below_children (l : list loc) (cs : list loc) (l' : list loc) : Prop := exists i, i ∈ cs /\ (l ++ [i]) `prefix_of` l'.
Lemma children_apart (l : list loc) (i j : loc) (l1 l2 : list loc) : i <> j -> (l ++ [i]) `prefix_of` l1 -> (l ++ [j]) `prefix_of` l2 -> ~ l1 `prefix_of` l2.
Proof.
  intros Hne H1 H2 H. assert (H3 : (l ++ [i]) `prefix_of` l2) by by etransitivity. destruct H2 as [r ->], H3 as [r' E]. rewrite <- !app_assoc in E.
  apply app_inv_head in E. cbn in E. congruence.
Qed.
Lemma visit_children_ok (fuel : nat) l cs dn n0 (a n : nat) s E :
  (forall k i n s, P !! k = Some (l ++ [i]) -> unfolded P s -> i ∈ getInstances t (model_at top l) -> wp (visit fuel k n) s (fun n' s' => (n < n')%nat /\
     dfs_changed (prefix (l ++ [i])) s s' /\ covers (prefix (l ++ [i])) n n' s') E) ->
  getInstances t (model_at top l) = dn ++ cs -> (forall (j : nat) i, cs !! j = Some i -> P !! (a + j)%nat = Some (l ++ [i])) ->
  unfolded P s -> (n0 <= n)%nat -> covers (below_children l dn) n0 n s ->
  wp (visit_children (visit fuel) (seq a (length cs)) n) s (fun n' s' => (n <= n')%nat /\ dfs_changed (below_children l cs) s s' /\ covers (below_children l (dn ++ cs)) n0 n' s') E.
Proof.
  intros Hvisit. revert dn a n s. induction cs as [|i cs IH]; intros dn a n s Hdn Hpos U Hn Hc; cbn [length seq visit_children].
  { rewrite wp_ret. split; [done|]. split; [done|]. by rewrite app_nil_r. }
  pose proof (Hpos 0%nat i eq_refl) as Hk. rewrite Nat.add_0_r in Hk. pose proof (NoDup_getInstances (model_at top l)) as Hnd. rewrite Hdn in Hnd.
  assert (Hi : i ∈ getInstances t (model_at top l)) by (rewrite Hdn; set_solver). assert (Hidn : i ∉ dn) by (apply NoDup_app in Hnd as (_ & H & _); intros Hin; apply (H i Hin); left).
  rewrite wp_bind. eapply wp_mono; [by apply (Hvisit a i n s Hk U Hi)| |done]. cbn beta. intros n1 s1 (Hn1 & C1 & V1).
  assert (V : covers (below_children l (dn ++ [i])) n0 n1 s1).
  { apply (covers_ext (fun l' => below_children l dn l' \/ (l ++ [i]) `prefix_of` l')); [|intros q; by apply (uf_paths _ _ U)|].
    { intros q _. unfold below_children. setoid_rewrite elem_of_app. setoid_rewrite list_elem_of_singleton. naive_solver. }
    apply (covers_union _ _ n0 n n1); [|done|lia|].
    - eapply covers_same; [|exact Hc]. intros k q Hkq (j & Hj & Hq). apply (dc_same _ _ _ C1 k q Hkq). intros Hq'.
      exact (children_apart l i j q q ltac:(by intros ->) Hq' Hq (reflexivity q)).
    - intros q q' (j & Hj & Hq) Hq'. split; eapply children_apart; try done; by intros ->. }
  eapply wp_mono; [apply (IH (dn ++ [i]) (S a) n1 s1); [by rewrite <- app_assoc| |by apply C1|lia|done]| |done].
  - intros j i' Hj. rewrite <- (Hpos (S j) i' Hj). f_equal. lia.
  - cbn beta. intros n2 s2 (Hn2 & C2 & V2). split; [lia|]. split; [|by rewrite <- app_assoc in V2].
    eapply dfs_changed_trans; [| |exact C1|exact C2]; [intros q Hq; exists i; split; [left|done]|intros q (j & Hj & Hq); exists j; split; [by right|done]].
Qed.
Lemma id_range_block a n : id_range (block a n) = seq a n.
Proof. unfold block. destruct (decide (n = 0%nat)) as [->|Hn]; [done|]. unfold id_range. f_equal. lia. Qed.
Lemma visit_ok fuel k l n s E : (rank (model_at top l) < fuel)%nat -> P !! k = Some l -> unfolded P s ->
  wp (visit fuel k n) s (fun n' s' => (n < n')%nat /\ dfs_changed (prefix l) s s' /\ covers (prefix l) n n' s') E.
Proof.
  revert k l n s. induction fuel as [|fuel IH]; intros k l n s Hf Hk U; [lia|]. cbn [visit]. unfold visit_instance.
  destruct (uf_inst _ _ U k l Hk) as (inst & Hinst & Hat & (a & Hr & Hch)). wp_read Hinst. rewrite wp_bind, Hr, id_range_block.
  eapply wp_mono; [apply (visit_children_ok fuel l (getInstances t (model_at top l)) [] (S n) a (S n) s)| |done].
  - intros j i m s1 Hj U1 Hi. apply IH; [|done|done]. rewrite model_at_snoc. pose proof (rank_model _ _ Hi). lia.
  - done.
  - done.
  - done.
  - done.
  - intros j q _ (i & Hi%not_elem_of_nil & _). done.
  - cbn beta. intros n' s' (Hn & C & V). rewrite wp_bind, wp_modify, wp_ret. set (s2 := alter_instance _ k s'). split; [lia|].
    assert (Hother : forall j, j <> k -> DNLInstances_ s2 !! j = DNLInstances_ s' !! j) by (intros j Hj; cbn; by rewrite list_lookup_alter_ne by done).
    assert (Hk2 : interval s2 k n n').
    { destruct (uf_inst _ _ (dc_unfolded _ _ _ C U) k l Hk) as (inst' & Hi' & _). eexists. cbn. rewrite list_lookup_alter_eq, Hi'. split; [done|]. done. }
    assert (Hstrict : forall q, below_children l (getInstances t (model_at top l)) q -> l `prefix_of` q /\ q <> l).
    { intros q (i & _ & [r ->]). split; [rewrite <- app_assoc; by eexists|]. intros Hq. apply (f_equal length) in Hq. rewrite !length_app in Hq. cbn in Hq. lia. }
    assert (Hbelow : forall q, path_from top q -> l `prefix_of` q -> q <> l -> below_children l (getInstances t (model_at top l)) q).
    { intros q Hq [r ->] Hne. destruct r as [|i r]; [by rewrite app_nil_r in Hne|]. apply path_from_app in Hq as [_ [Hi _]]. exists i. split; [done|]. exists r. by rewrite <- app_assoc. }
    split.
    + split; [|intros _; by apply unfolded_interval, C]. intros j q Hj Hq. rewrite Hother by (intros ->; simplify_eq; done). apply (dc_same _ _ _ C j q Hj). by intros [? _]%Hstrict.
    + cbn [app] in V. assert (Vs : covers (below_children l (getInstances t (model_at top l))) (S n) n' s2).
      { eapply covers_same; [|exact V]. intros j q Hj Hq. apply Hother. intros ->. simplify_eq. by apply Hstrict in Hq as [_ ?]. }
      intros j q Hj Hq. destruct (decide (q = l)) as [->|Hne].
      * pose proof (NoDup_lookup _ _ _ _ HP Hj Hk) as ->. exists n, n'. split_and!; [done|lia..|]. intros j' q' a' b' Hj' Hq' Hi'. split; [done|]. intros _.
        destruct (decide (q' = l)) as [->|Hne']; [pose proof (NoDup_lookup _ _ _ _ HP Hj' Hk) as ->; destruct (interval_fun _ _ _ _ _ _ Hk2 Hi') as [-> ->]; lia|].
        destruct (Vs j' q' Hj') as (a2 & b2 & Hi2 & Hlo & Hhi & _); [apply Hbelow; [by eapply (uf_paths _ _ U), list_elem_of_lookup_2|done..]|].
        destruct (interval_fun _ _ _ _ _ _ Hi2 Hi') as [-> ->]. lia.
      * destruct (Vs j q Hj) as (a1 & b1 & Hi1 & Hlo & Hhi & Hp); [apply Hbelow; [by eapply (uf_paths _ _ U), list_elem_of_lookup_2|done..]|].
        exists a1, b1. split_and!; [done|lia..|]. intros j' q' a' b' Hj' Hq' Hi'.
        destruct (decide (q' = l)) as [->|Hne']; [|apply (Hp j' q' a' b' Hj'); [apply Hbelow; [by eapply (uf_paths _ _ U), list_elem_of_lookup_2|done..]|done]].
        pose proof (NoDup_lookup _ _ _ _ HP Hj' Hk) as ->. destruct (interval_fun _ _ _ _ _ _ Hk2 Hi') as [-> ->]. split; [intros ?; exfalso; lia|]. intros Hpre.
        exfalso. apply Hne. by apply (anti_symm prefix).
Qed.
End intervals.

(** * The flat netlist *)

(** All paths from the top, with their intervals, and the null objects at the end. *)
Definition flattened (P : list (list loc)) (d : flat) : Prop :=
  exists s n, unfolded P s /\ covers P (fun _ => True) 0 n s /\ d = push_terminal null_terminal (push_instance null_instance s).
End netlist.
Arguments flattened : clear implicits.

Section flatten.
Context (t : structure) (W : struct_wf t) (rank : loc -> nat) (Hrank : forall i inst, instHeap t !! i = Some inst -> (rank (model_ (h_extra inst)) < rank (h_design inst))%nat).
Context (Hsmall : forall d, Z.of_nat (length (getInstances t d)) <= 2 ^ 32 /\ Z.of_nat (length (getBitTerms t d)) <= 2 ^ 32).
Context (top : loc) (Htop : is_Some (designs t !! top)).

Lemma flatten_ok fuel o E : (size_below t rank top <= fuel)%nat -> (rank top < fuel)%nat -> has_terminal t top ->
  wp (flatten t fuel top) (nothing_flat o) (fun _ d => exists o' P, orders_right t top o' /\ flattened t top o' P d) E.
Proof.
  intros Hf Hr Hterm. unfold flatten. rewrite wp_bind.
  pose proof (initOrderIDs_ok t W rank Hrank Hsmall fuel top o (fun _ _ => False) Hf) as Hord. unfold wp in Hord.
  unfold wp at 1. cbn [flat_orders nothing_flat]. destruct (initOrderIDs t fuel top o) as [[[]|e|] o'] eqn:Eo; [|done..].
  change (set_orders_of o' (nothing_flat o)) with (nothing_flat o').
  assert (Hunf : forall (Q : unit -> flat -> Prop), (forall P s, unfolded t top o' P s -> Q tt s) ->
    wp (k ← create_top t top; S ← expand t term_range k top []; expand_all t fuel S) (nothing_flat o') Q E).
  { intros Q HQ. eapply wp_mono; [apply (unfold_ok t W rank Hrank Hsmall top o' Hord Htop fuel E Hf Hterm)| |done]. cbn beta. intros [] s (P & U). by eapply HQ. }
  assert (Hrest : forall P s, unfolded t top o' P s -> wp (visit fuel 0%nat 0%nat ≫= fun _ => modify (push_instance null_instance) ;; modify (push_terminal null_terminal)) s
    (fun _ d => exists o' P, orders_right t top o' /\ flattened t top o' P d) E).
  { intros P s U. rewrite wp_bind. eapply wp_mono; [apply (visit_ok t W rank Hrank Hsmall top o' Hord Htop P (uf_nodup _ _ _ _ _ U) fuel 0 [] 0 s); [exact Hr|apply U|done]| |done].
    cbn beta. intros n s' (_ & C & V). rewrite wp_bind, !wp_modify. exists o', P. split; [done|]. exists s', n. split; [by apply C|]. split; [|done].
    eapply covers_ext; [|intros q; by apply (uf_paths _ _ _ _ _ U)|exact V]. intros q _. split; [done|]. intros _. apply prefix_nil. }
  pose proof (Hunf (fun _ s => wp (visit fuel 0%nat 0%nat ≫= fun _ => modify (push_instance null_instance) ;; modify (push_terminal null_terminal)) s
    (fun _ d => exists o' P, orders_right t top o' /\ flattened t top o' P d) E) Hrest) as H.
  rewrite wp_bind in H. rewrite wp_bind. eapply wp_mono; [exact H| |done]. cbn beta. intros k s Hs. rewrite wp_bind in Hs. rewrite wp_bind.
  eapply wp_mono; [exact Hs| |done]. cbn beta. intros S s1 Hs1. by rewrite wp_bind.
Qed.

(** * Finding instances and terminals *)

Context (o : orders) (Ho : orders_right t top o) (P : list (list loc)) (d : flat) (F : flattened t top o P d).

(** Terminal number [f] is bit [x] of the model at the end of path [l]. *)
Definition terminal_at (f : nat) (l : list loc) (x : loc) : Prop :=
  exists k j, P !! k = Some l /\ getBitTerms t (model_at t top l) !! j = Some x /\ f = (length (flat_terms t top (take k P)) + j)%nat.
Definition terminals : nat := length (flat_terms t top P).

Lemma flat_path l : path_from t top l <-> exists k, P !! k = Some l.
Proof. destruct F as (s & n & U & _ & _). rewrite <- (uf_paths _ _ _ _ _ U). apply list_elem_of_lookup. Qed.
Lemma flat_nodup : NoDup P.
Proof. destruct F as (s & n & U & _ & _). apply U. Qed.
Lemma flat_zero : P !! 0%nat = Some [].
Proof. destruct F as (s & n & U & _ & _). apply U. Qed.
Lemma flat_orders_eq : flat_orders d = o.
Proof. destruct F as (s & n & U & _ & ->). cbn. apply U. Qed.
Lemma flat_length : length (DNLInstances_ d) = S (length P) /\ length (DNLTerms_ d) = S terminals.
Proof.
  destruct F as (s & n & U & _ & ->). cbn. rewrite !length_app, (uf_length _ _ _ _ _ U), (uf_terms _ _ _ _ _ U), length_made. cbn. unfold terminals. lia.
Qed.
Lemma flat_last : last (DNLInstances_ d) = Some null_instance /\ last (DNLTerms_ d) = Some null_terminal.
Proof. destruct F as (s & n & U & _ & ->). cbn. by rewrite !last_snoc. Qed.
Lemma flat_instance k l : P !! k = Some l -> exists inst, DNLInstances_ d !! k = Some inst /\ instance_at t top P k l inst /\ children_at t top P l (dnl_children inst).
Proof.
  destruct F as (s & n & U & _ & ->). intros Hk. destruct (uf_inst _ _ _ _ _ U k l Hk) as (inst & Hi & H). exists inst. split; [|done]. by apply lookup_app_l_Some.
Qed.
Lemma flat_leaves : leaves_ d = leaf_ids t top P.
Proof. destruct F as (s & n & U & _ & ->). apply U. Qed.
Lemma flat_designs : designInstanceIDs_ d = design_ids t top P.
Proof. destruct F as (s & n & U & _ & ->). apply U. Qed.
Lemma isTop_iff k l inst : P !! k = Some l -> instance_at t top P k l inst -> isTop inst = bool_decide (l = []).
Proof.
  intros Hk (_ & Hid & _). unfold isTop. rewrite Hid. apply bool_decide_ext. split.
  - intros [= ->]. rewrite flat_zero in Hk. congruence.
  - intros ->. by rewrite (NoDup_lookup _ _ _ _ flat_nodup Hk flat_zero).
Qed.
Lemma model_of_instance k l inst : P !! k = Some l -> instance_at t top P k l inst -> getSNLModel t top inst = Some (model_at t top l).
Proof.
  intros Hk Hat. unfold getSNLModel. rewrite (isTop_iff k l inst Hk Hat). destruct Hat as (-> & _). unfold model_at, modelOf. destruct l as [|i l _] using rev_ind; [done|].
  rewrite last_snoc. assert (Hp : path_from t top (l ++ [i])) by (apply flat_path; by exists k). apply (path_from_snoc t) in Hp as [_ Hi].
  apply (elem_of_getInstances t W) in Hi as (inst' & -> & _). done.
Qed.

Lemma length_terms_of l : path_from t top l -> length (terms_of t top l) = length (getBitTerms t (model_at t top l)).
Proof.
  intros Hp. unfold terms_of, model_at. destruct l as [|i l _] using rev_ind; [cbn; by rewrite length_fmap|]. rewrite last_snoc, length_zip_with.
  apply (path_from_snoc t) in Hp as [_ (inst & Hi & _)%(elem_of_getInstances t W)]. pose proof (Forall2_length _ _ _ (instTerms_in_order t W i inst Hi)) as H.
  unfold modelOf. rewrite Hi. lia.
Qed.
(** The terminal of an instance that goes with a bit, none at the top. *)
Definition terminal_of (l : list loc) (x : loc) (it : option loc) : Prop :=
  match last l with None => it = None | Some i => exists c, it = Some c /\ instTermHeap t !! c = Some (mkInstTerm i x) end.
Lemma terms_of_lookup l (j : nat) x : path_from t top l -> getBitTerms t (model_at t top l) !! j = Some x ->
  exists it, terms_of t top l !! j = Some (it, x) /\ terminal_of l x it.
Proof.
  intros Hp Hx. unfold terms_of, terminal_of, model_at in *. destruct l as [|i l _] using rev_ind; [exists None; cbn in *; split; [by rewrite list_lookup_fmap, Hx|done]|].
  rewrite last_snoc in *. apply (path_from_snoc t) in Hp as [_ (inst & Hi & _)%(elem_of_getInstances t W)]. pose proof (instTerms_in_order t W i inst Hi) as H.
  assert (Em : modelOf t i = model_ (h_extra inst)) by (unfold modelOf; by rewrite Hi). rewrite Em in *.
  destruct (Forall2_lookup_r _ _ _ _ _ H Hx) as (c & Hc & Hit). exists (Some c). split; [|by exists c]. by rewrite lookup_zip_with, Hc, Hx.
Qed.
Lemma flat_terms_lookup k l (j : nat) p : P !! k = Some l -> terms_of t top l !! j = Some p ->
  flat_terms t top P !! (length (flat_terms t top (take k P)) + j)%nat = Some (k, p).
Proof.
  intros Hk Hj. assert (Hlt : (k < length P)%nat) by by eapply lookup_lt_Some.
  assert (E : exists rest, flat_terms t top P = flat_terms t top (take k P) ++ (pair k <$> terms_of t top l) ++ rest).
  { pose proof (take_drop_middle P k l Hk) as Hmid. exists (mjoin (imap ((fun k l => pair k <$> terms_of t top l) ∘ Nat.add (length (take k P ++ [l]))) (drop (S k) P))).
    rewrite <- Hmid at 1. rewrite cons_middle, app_assoc. unfold flat_terms at 1. unfold collect. rewrite imap_app, join_app.
    fold (collect (fun k l => pair k <$> terms_of t top l) (take k P ++ [l])). rewrite collect_snoc, length_take, <- app_assoc. by replace (k `min` length P)%nat with k by lia. }
  destruct E as [rest ->]. rewrite lookup_app_r by lia. apply lookup_app_l_Some. replace (_ + j - _)%nat with j by lia. by rewrite list_lookup_fmap, Hj.
Qed.
Lemma flat_terms_split n k p : flat_terms t top P !! n = Some (k, p) -> exists l (j : nat), P !! k = Some l /\ terms_of t top l !! j = Some p /\
  n = (length (flat_terms t top (take k P)) + j)%nat.
Proof.
  clear F. revert n. induction P as [|l Q IH] using rev_ind; intros n; [done|]. unfold flat_terms at 1. rewrite collect_snoc. fold (flat_terms t top Q).
  rewrite lookup_app_Some. intros [Hn|[Hge Hn]].
  - destruct (IH n Hn) as (l' & j & Hk & Hj & ->). exists l', j. split; [by apply lookup_app_l_Some|]. split; [done|].
    rewrite take_app_le; [done|]. apply lookup_lt_Some in Hk. lia.
  - rewrite list_lookup_fmap in Hn. destruct (terms_of t top l !! _) as [p'|] eqn:Ej; [|done]. injection Hn as <- <-.
    exists l, (n - length (flat_terms t top Q))%nat. split; [by apply list_lookup_middle|]. split; [done|]. rewrite take_app_length. lia.
Qed.
Lemma terminal_lookup f l x : terminal_at f l x -> exists k it, P !! k = Some l /\ terminal_of l x it /\ (f < terminals)%nat /\
  DNLTerms_ d !! f = Some (mkDNLTerminal (Some k) it (Some x) (Some f)).
Proof.
  intros (k & j & Hk & Hx & ->). assert (Hp : path_from t top l) by (apply flat_path; by exists k).
  destruct (terms_of_lookup l j x Hp Hx) as (it & Hj & Hit). exists k, it. pose proof (flat_terms_lookup k l j _ Hk Hj) as Hf. split; [done|]. split; [done|].
  split; [by eapply lookup_lt_Some|]. destruct F as (s & n & U & _ & ->). cbn. apply lookup_app_l_Some. rewrite (uf_terms _ _ _ _ _ U). unfold made_terms.
  by rewrite list_lookup_imap, Hf.
Qed.
Lemma terminal_path f l x : terminal_at f l x -> path_from t top l /\ x ∈ getBitTerms t (model_at t top l).
Proof. intros (k & j & Hk & Hx & _). split; [apply flat_path; by exists k|by eapply list_elem_of_lookup_2]. Qed.
Lemma terminal_exists l x : path_from t top l -> x ∈ getBitTerms t (model_at t top l) -> exists f, terminal_at f l x.
Proof. intros [k Hk]%flat_path [j Hj]%list_elem_of_lookup. eexists. by exists k, j. Qed.
Lemma terminal_numbered f : (f < terminals)%nat -> exists l x, terminal_at f l x.
Proof.
  intros Hf. destruct (lookup_lt_is_Some_2 _ _ Hf) as [[k [it x]] Hx]. destruct (flat_terms_split _ _ _ Hx) as (l & j & Hk & Hj & ->). exists l.
  assert (Hp : path_from t top l) by (apply flat_path; by exists k). pose proof (lookup_lt_Some _ _ _ Hj) as Hlt. rewrite length_terms_of in Hlt by done.
  destruct (lookup_lt_is_Some_2 _ _ Hlt) as [y Hy]. exists y, k, j. done.
Qed.
Lemma terminal_fun f l x l' x' : terminal_at f l x -> terminal_at f l' x' -> l' = l /\ x' = x.
Proof.
  intros H H'. destruct (terminal_lookup _ _ _ H) as (k & it & Hk & _ & _ & Hf). destruct (terminal_lookup _ _ _ H') as (k' & it' & Hk' & _ & _ & Hf').
  rewrite Hf in Hf'. injection Hf' as <- _ <-. split; congruence.
Qed.
Lemma terminal_inj f g l x : terminal_at f l x -> terminal_at g l x -> f = g.
Proof.
  intros (k & j & Hk & Hx & ->) (k' & j' & Hk' & Hx' & ->). rewrite (NoDup_lookup _ _ _ _ flat_nodup Hk' Hk).
  by rewrite (NoDup_lookup _ _ _ _ (NoDup_getBitTerms t W _) Hx' Hx).
Qed.

(** What the getters find. *)
Lemma block_first a n : n <> 0%nat -> fst (block a n) = Some a.
Proof. intros Hn. unfold block. by rewrite decide_False. Qed.
Lemma getChildInstance_ok k l inst i : P !! k = Some l -> DNLInstances_ d !! k = Some inst -> i ∈ getInstances t (model_at t top l) ->
  exists k' inst', P !! k' = Some (l ++ [i]) /\ DNLInstances_ d !! k' = Some inst' /\ getChildInstance t top d inst i = Some inst'.
Proof.
  intros Hk Hi Hin. destruct (flat_instance k l Hk) as (inst2 & Hi2 & Hat & (a & Hr & Hch)). assert (inst2 = inst) as -> by congruence.
  pose proof (proj1 (elem_of_getInstances t W _ _) Hin) as (v & Hv & Hd). unfold getChildInstance. rewrite Hv. cbn.
  rewrite (model_of_instance k l inst Hk Hat), Hd, bool_decide_true by done. apply list_elem_of_lookup in Hin as Hj. destruct Hj as [j Hj].
  rewrite Hr, block_first by (intros H0; apply length_zero_iff_nil in H0; rewrite H0 in Hj; done). cbn. rewrite flat_orders_eq. unfold inst_getOrderID.
  rewrite (proj1 (Ho l (proj2 (flat_path l) (ex_intro _ k Hk))) i Hin _ j Hj). cbn. rewrite Nat2Z.id. pose proof (Hch j i Hj) as Hpath.
  destruct (flat_instance _ _ Hpath) as (inst' & Hi' & _). by exists (a + j)%nat, inst'.
Qed.
Lemma bits_at k l inst x : P !! k = Some l -> DNLInstances_ d !! k = Some inst -> x ∈ getBitTerms t (model_at t top l) ->
  exists f it, terminal_at f l x /\ terminal_of l x it /\
    (a ← fst (dnl_terms inst); DNLTerms_ d !! (a + Z.to_nat (bit_getOrderID (flat_orders d) x))%nat) = Some (mkDNLTerminal (Some k) it (Some x) (Some f)).
Proof.
  intros Hk Hi Hx. destruct (flat_instance k l Hk) as (inst2 & Hi2 & (_ & _ & Hr & _) & _). assert (inst2 = inst) as -> by congruence.
  assert (Hp : path_from t top l) by (apply flat_path; by exists k). pose proof (proj2 (Ho l Hp) x Hx) as Hord. pose proof Hx as [j Hj]%list_elem_of_lookup.
  rewrite Hr. unfold term_block. rewrite block_first; [|rewrite length_terms_of by done; apply lookup_lt_Some in Hj; lia]. cbn.
  rewrite flat_orders_eq. unfold bit_getOrderID. rewrite (Hord _ j Hj). cbn. rewrite Nat2Z.id.
  assert (Hat : terminal_at (length (flat_terms t top (take k P)) + j) l x) by (by exists k, j).
  destruct (terminal_lookup _ _ _ Hat) as (k' & it & Hk' & Hit & _ & Hf). rewrite (NoDup_lookup _ _ _ _ flat_nodup Hk' Hk) in Hf. by exists (length (flat_terms t top (take k P)) + j)%nat, it.
Qed.
Lemma getTerminal_ok k l i inst it x : P !! k = Some (l ++ [i]) -> DNLInstances_ d !! k = Some inst -> instTermHeap t !! it = Some (mkInstTerm i x) ->
  exists f, terminal_at f (l ++ [i]) x /\ getTerminal t d inst it = Some (mkDNLTerminal (Some k) (Some it) (Some x) (Some f)).
Proof.
  intros Hk Hi Hit. destruct (sw_instTerm _ _ W _ _ Hit) as (v & g & Hv & _ & Hx). cbn in *.
  assert (Hin : x ∈ getBitTerms t (model_at t top (l ++ [i]))) by (rewrite model_at_snoc; unfold modelOf; rewrite Hv; by apply (elem_of_getBitTerms _ _ _ _ W)).
  destruct (bits_at k _ inst x Hk Hi Hin) as (f & it' & Hf & Ht & E). exists f. split; [done|]. unfold getTerminal. rewrite Hit. cbn [bitTerm_ instance_ mbind option_bind].
  destruct (flat_instance k _ Hk) as (inst2 & Hi2 & (Hl & _) & _). assert (inst2 = inst) as -> by congruence. rewrite Hl, last_snoc, bool_decide_true by done.
  unfold terminal_of in Ht. rewrite last_snoc in Ht. destruct Ht as (c & -> & Hc). rewrite (instTerm_unique W c it _ Hc Hit) in E. exact E.
Qed.
Lemma getTerminalFromBitTerm_ok k l inst x : P !! k = Some l -> DNLInstances_ d !! k = Some inst -> x ∈ getBitTerms t (model_at t top l) ->
  exists f it, terminal_at f l x /\ terminal_of l x it /\ getTerminalFromBitTerm t top d inst x = Some (mkDNLTerminal (Some k) it (Some x) (Some f)).
Proof.
  intros Hk Hi Hx. destruct (bits_at k l inst x Hk Hi Hx) as (f & it & Hf & Hit & E). exists f, it. split; [done|]. split; [done|].
  apply (elem_of_getBitTerms _ _ _ _ W) in Hx as [_ Hx]. unfold getTerminalFromBitTerm.
  destruct (object_header (termHeap t) x) as [h|]; [|done]. injection Hx as Hd. cbn [mbind option_bind]. destruct (flat_instance k l Hk) as (inst2 & Hi2 & Hat & _).
  assert (inst2 = inst) as -> by congruence. by rewrite (model_of_instance k l inst Hk Hat), Hd, bool_decide_true.
Qed.
End flatten.

(** What the flat netlist promises to those who search it. *)
Class flat_view (t : structure) (top : loc) (P : list (list loc)) (d : flat) : Prop := {
  fv_lengths : length (DNLInstances_ d) = S (length P) /\ length (DNLTerms_ d) = S (terminals t top P);
  fv_last : last (DNLInstances_ d) = Some null_instance /\ last (DNLTerms_ d) = Some null_terminal;
  fv_nodup : NoDup P;
  fv_zero : P !! 0%nat = Some [];
  fv_path l : path_from t top l <-> exists k, P !! k = Some l;
  fv_instance k l : P !! k = Some l -> exists inst, DNLInstances_ d !! k = Some inst /\ instance_at t top P k l inst /\ children_at t top P l (dnl_children inst);
  fv_isTop k l inst : P !! k = Some l -> instance_at t top P k l inst -> isTop inst = bool_decide (l = []);
  fv_model k l inst : P !! k = Some l -> instance_at t top P k l inst -> getSNLModel t top inst = Some (model_at t top l);
  fv_terminal f l x : terminal_at t top P f l x -> exists k it, P !! k = Some l /\ terminal_of t l x it /\ (f < terminals t top P)%nat /\
    DNLTerms_ d !! f = Some (mkDNLTerminal (Some k) it (Some x) (Some f));
  fv_terminal_path f l x : terminal_at t top P f l x -> path_from t top l /\ x ∈ getBitTerms t (model_at t top l);
  fv_terminal_exists l x : path_from t top l -> x ∈ getBitTerms t (model_at t top l) -> exists f, terminal_at t top P f l x;
  fv_numbered f : (f < terminals t top P)%nat -> exists l x, terminal_at t top P f l x;
  fv_fun f l x l' x' : terminal_at t top P f l x -> terminal_at t top P f l' x' -> l' = l /\ x' = x;
  fv_inj f g l x : terminal_at t top P f l x -> terminal_at t top P g l x -> f = g;
  fv_getChildInstance k l inst i : P !! k = Some l -> DNLInstances_ d !! k = Some inst -> i ∈ getInstances t (model_at t top l) ->
    exists k' inst', P !! k' = Some (l ++ [i]) /\ DNLInstances_ d !! k' = Some inst' /\ getChildInstance t top d inst i = Some inst';
  fv_getTerminal k l i inst it x : P !! k = Some (l ++ [i]) -> DNLInstances_ d !! k = Some inst -> instTermHeap t !! it = Some (mkInstTerm i x) ->
    exists f, terminal_at t top P f (l ++ [i]) x /\ getTerminal t d inst it = Some (mkDNLTerminal (Some k) (Some it) (Some x) (Some f));
  fv_getTerminalFromBitTerm k l inst x : P !! k = Some l -> DNLInstances_ d !! k = Some inst -> x ∈ getBitTerms t (model_at t top l) ->
    exists f it, terminal_at t top P f l x /\ terminal_of t l x it /\ getTerminalFromBitTerm t top d inst x = Some (mkDNLTerminal (Some k) it (Some x) (Some f));
  fv_leaves : leaves_ d = leaf_ids t top P }.
#[export] Hint Resolve fv_nodup fv_zero : core.

Lemma flattened_view t (W : struct_wf t) top o P d : orders_right t top o -> flattened t top o P d -> flat_view t top P d.
Proof.
  intros Ho F. split.
  - by eapply flat_length.
  - by eapply flat_last.
  - by eapply flat_nodup.
  - by eapply flat_zero.
  - intros l. by eapply flat_path.
  - intros k l. by eapply flat_instance.
  - intros k l inst. by eapply isTop_iff.
  - intros k l inst. by eapply model_of_instance.
  - intros f l x. by eapply terminal_lookup.
  - intros f l x. by eapply terminal_path.
  - intros l x. by eapply terminal_exists.
  - intros f. by eapply terminal_numbered.
  - intros f l x l' x'. by eapply terminal_fun.
  - intros f g l x. by eapply terminal_inj.
  - intros k l inst i. by eapply getChildInstance_ok.
  - intros k l i inst it x. by eapply getTerminal_ok.
  - intros k l inst x. by eapply getTerminalFromBitTerm_ok.
  - by eapply flat_leaves.
Qed.
