(* ===== verification/DNLIsos.v ===== *)
(** What [treatDriver] collects: the terminals connected to the one it starts
    from through the nets of the hierarchy, each once. The marks it keeps stand
    for a set of terminals, and the early ends of its loops leave nothing out. *)
From stdpp Require Import sorting relations.
From S2P Require Import Prelude NLID Store Bus Contents Connections DesignNets Interface InterfaceSteps InterfaceTerms TermLifetime InstanceSteps MergeAssigns NetlistRuns Paths PathSteps Equipotential EquipotentialSteps DNL DNLFlatten.
Local Open Scope Z_scope.

(** * Marks *)

(** The terminals below [N] that are marked are those of [M]. *)
Record marks_ok (N : nat) (v : visited) (M : list nat) : Prop := {
  mk_length : length (words v) = ((N + 63) / 64)%nat;
  mk_bits (f : nat) z : (f < N)%nat -> words v !! (f / 64)%nat = Some z -> Z.testbit z (Z.of_nat (f mod 64)) = bool_decide (f ∈ M);
  mk_touched (w : nat) z : words v !! w = Some z -> z <> 0 -> w ∈ touchedWords v;
  mk_inside w : w ∈ touchedWords v -> (w < length (words v))%nat }.
(** New marks, or marks left by a traversal of as many terminals. *)
Definition reusable (N : nat) (v : visited) : Prop := v = no_marks \/ exists M, marks_ok N v M.

Lemma div_lt_words N f : (f < N)%nat -> (f / 64 < (N + 63) / 64)%nat.
Proof. intros H. apply Nat.div_lt_upper_bound; [lia|]. pose proof (Nat.div_mod (N + 63) 64). pose proof (Nat.mod_upper_bound (N + 63) 64). lia. Qed.
Lemma beginTraversal_ok N v E : reusable N v -> wp (beginTraversal N) v (fun _ v' => marks_ok N v' []) E.
Proof.
  intros Hv. unfold beginTraversal. rewrite wp_bind, wp_modify, wp_bind, wp_gets. set (n := ((N + 63) / 64)%nat).
  set (v1 := mkVisited (resize n 0 (words v)) (touchedWords v)).
  assert (H1 : length (words v1) = n /\ (forall (w : nat) z, words v1 !! w = Some z -> z <> 0 -> w ∈ touchedWords v1) /\ forall w, w ∈ touchedWords v1 -> (w < n)%nat).
  { subst v1. cbn. rewrite length_resize. split; [done|]. destruct Hv as [->|[M [Hl _ Ht Hi]]]; cbn.
    - split; [|by intros w ?%not_elem_of_nil]. intros w z. rewrite resize_nil. intros [-> _]%lookup_replicate. done.
    - rewrite resize_all_alt by done. split; [done|]. intros w Hw. apply Hi in Hw. by rewrite Hl in Hw. }
  destruct H1 as (Hlen & Htouch & Hin). rewrite wp_bind.
  eapply wp_mono; [apply (wp_for_each _ (fun dn v' => length (words v') = n /\ touchedWords v' = touchedWords v1 /\
    forall (w : nat) z, words v' !! w = Some z -> z <> 0 -> w ∈ touchedWords v1 /\ w ∉ dn))| |done].
  - split; [done|]. split; [done|]. intros w z Hw Hz. split; [by eapply Htouch|apply not_elem_of_nil].
  - intros dn w rest v' Hl (Hlen' & Ht' & Hz'). assert (Hw : (w < n)%nat) by (apply Hin; rewrite Hl; set_solver).
    destruct (lookup_lt_is_Some_2 (words v') w) as [z Hz]; [lia|]. wp_read Hz. rewrite wp_modify. cbn. rewrite length_insert. split; [done|]. split; [done|].
    intros w' z'. destruct (decide (w' = w)) as [->|Hne]; [rewrite list_lookup_insert_eq by lia; by intros [= <-]|]. rewrite list_lookup_insert_ne by done.
    intros Hw' Hne'. destruct (Hz' w' z' Hw' Hne'). split; [done|]. set_solver.
  - cbn beta. intros _ v' (Hlen' & Ht' & Hz'). rewrite wp_modify.
    assert (Hall : forall (w : nat) z, words v' !! w = Some z -> z = 0).
    { intros w z Hw. destruct (decide (z = 0)) as [|Hne]; [done|]. by destruct (Hz' w z Hw Hne). }
    split; cbn; [done| |intros w z Hw ?; by apply Hall in Hw|by intros w ?%not_elem_of_nil].
    intros f z _ ->%Hall. rewrite Z.bits_0. by rewrite bool_decide_false by apply not_elem_of_nil.
Qed.

Lemma testbit_mask f k : 0 <= k -> Z.testbit (bit_mask f) k = bool_decide (k = Z.of_nat (f mod 64)).
Proof.
  intros Hk. unfold bit_mask. rewrite Z.shiftl_spec by done. case_bool_decide as E; [subst k; by rewrite Z.sub_diag|].
  destruct (Z.le_gt_cases (Z.of_nat (f mod 64)) k); [|by rewrite Z.testbit_neg_r by lia]. destruct (k - Z.of_nat (f mod 64)) as [|p|p] eqn:Ep; [lia| |done]. by destruct p.
Qed.
Lemma mask_test z f : Z.land z (bit_mask f) =? 0 = negb (Z.testbit z (Z.of_nat (f mod 64))).
Proof.
  destruct (Z.testbit z (Z.of_nat (f mod 64))) eqn:Eb; cbn.
  - apply Z.eqb_neq. intros H. apply (f_equal (fun a => Z.testbit a (Z.of_nat (f mod 64)))) in H. rewrite Z.land_spec, testbit_mask, Z.bits_0, Eb, bool_decide_true in H by lia. done.
  - apply Z.eqb_eq. apply Z.bits_inj'. intros k Hk. rewrite Z.land_spec, testbit_mask, Z.bits_0 by done. case_bool_decide; [subst; by rewrite Eb|]. apply andb_false_r.
Qed.
Section marks.
Context (N : nat) (HN : Z.of_nat N <= 2 ^ 38).
Lemma test_bit_ok v M f Q E : marks_ok N v M -> (f < N)%nat -> Q (bool_decide (f ∈ M)) v -> wp (test_bit f) v Q E.
Proof.
  intros [Hl Hb _ _] Hf HQ. unfold test_bit. destruct (lookup_lt_is_Some_2 (words v) (f / 64)) as [z Hz]; [rewrite Hl; by apply div_lt_words|].
  wp_read Hz. rewrite wp_ret, mask_test, negb_involutive. by rewrite (Hb f z Hf Hz).
Qed.
Lemma set_bit_ok v M f E : marks_ok N v M -> (f < N)%nat -> wp (set_bit f) v (fun _ v' => marks_ok N v' (M ++ [f])) E.
Proof.
  intros [Hl Hb Ht Hi] Hf. unfold set_bit. destruct (lookup_lt_is_Some_2 (words v) (f / 64)) as [z Hz]; [rewrite Hl; by apply div_lt_words|].
  wp_read Hz. rewrite wp_modify. pose proof (lookup_lt_Some _ _ _ Hz) as Hlt.
  assert (Hw : Z.to_nat (Z.of_nat (f / 64) mod 2 ^ 32) = (f / 64)%nat).
  { rewrite Z.mod_small, Nat2Z.id; [done|]. split; [lia|]. rewrite Nat2Z.inj_div. apply Z.div_lt_upper_bound; [lia|]. change (Z.of_nat 64 * 2 ^ 32) with (2 ^ 38). lia. }
  split; cbn [words touchedWords]; rewrite ?length_insert.
  - done.
  - intros g z' Hg. destruct (decide (g / 64 = f / 64)%nat) as [E1|E1].
    + rewrite E1, list_lookup_insert_eq by done. intros [= <-]. rewrite Z.lor_spec, testbit_mask by lia. rewrite (Hb g z) by (try done; by rewrite E1).
      rewrite (bool_decide_ext (g ∈ M ++ [f]) (g ∈ M \/ g = f)) by set_solver. rewrite bool_decide_or. f_equal. apply bool_decide_ext. split; [|by intros ->].
      intros E2%Nat2Z.inj. rewrite (Nat.div_mod g 64), (Nat.div_mod f 64) by lia. lia.
    + rewrite list_lookup_insert_ne by done. intros Hz'. rewrite (Hb g z' Hg Hz'). apply bool_decide_ext. rewrite elem_of_app, list_elem_of_singleton.
      split; [by left|]. by intros [?| ->].
  - intros w z' Hw' Hne. destruct (decide (w = (f / 64)%nat)) as [->|Hne2].
    + destruct (Z.eqb_spec z 0) as [->|Hz0]; [rewrite Hw; set_solver|]. by apply (Ht _ z).
    + rewrite list_lookup_insert_ne in Hw' by done. pose proof (Ht w z' Hw' Hne). destruct (z =? 0); set_solver.
  - intros w. destruct (z =? 0); [rewrite elem_of_app, list_elem_of_singleton; intros [?| ->]; [by apply Hi|by rewrite Hw]|apply Hi].
Qed.
End marks.

(** * What is connected *)

Inductive role := Reader | Driver | Hier.
#[export] Instance role_dec : EqDecision role.
Proof. solve_decision. Defined.

Section connected.
Context (s0 : netlist) (assign : option loc) (top : loc) (P : list (list loc)).
#[local] Notation t := (str s0).
#[local] Notation terminal_at := (terminal_at t top P).
#[local] Notation model_at := (model_at t top).

(** What a terminal is in its iso. *)
Definition role_of (l : list loc) (x : loc) : role :=
  match last l with
  | None => if bool_decide (dnl_getDirection t x = Some Output) then Reader else Driver
  | Some i => if bool_decide (getInstances t (modelOf t i) = []) then (if bool_decide (dnl_getDirection t x = Some Input) then Reader else Driver) else Hier
  end.
(** A terminal is on the net inside its instance, unless that is an assign, and
    on the net outside. *)
Definition net_inside (l : list loc) (x : loc) (a : hier_net) : Prop := a.1 = l /\ net_ s0 !! x = Some a.2 /\ assign <> Some (model_at l).
Definition net_outside (l : list loc) (x : loc) (a : hier_net) : Prop :=
  exists i it, l = a.1 ++ [i] /\ instTermHeap t !! it = Some (mkInstTerm i x) /\ net_ s0 !! it = Some a.2.
Definition on_node (f : nat) (a : hier_net) : Prop := exists l x, terminal_at f l x /\ (net_inside l x a \/ net_outside l x a).
Definition shares (f g : nat) : Prop := exists a, on_node f a /\ on_node g a.
Definition connected : nat -> nat -> Prop := rtc shares.
Definition has_role (f : nat) (r : role) : Prop := exists l x, terminal_at f l x /\ role_of l x = r.

Lemma shares_sym f g : shares f g -> shares g f.
Proof. intros (a & ? & ?). by exists a. Qed.
Lemma connected_sym f g : connected f g -> connected g f.
Proof. induction 1 as [f|f g h Hs _ IH]; [reflexivity|]. etransitivity; [exact IH|]. by apply rtc_once, shares_sym. Qed.
#[export] Instance connected_equivalence : Equivalence connected.
Proof. split; [intros f; reflexivity|intros f g; apply connected_sym|intros f g h ? ?; by etransitivity]. Qed.
End connected.

Section traversal.
Context (s0 : netlist) (W : struct_wf (str s0)) (C : conn_wf s0) (assign : option loc) (top : loc) (P : list (list loc)) (d : flat).
#[local] Notation t := (str s0).
#[local] Notation terminal_at := (terminal_at t top P).
#[local] Notation model_at := (model_at t top).
#[local] Notation on_node := (on_node s0 assign top P).
#[local] Notation N := (length (DNLTerms_ d)).
Context (V : flat_view t top P d) (HA : forall A, assign = Some A -> getInstances t A = []) (HN : Z.of_nat N <= 2 ^ 38).

Lemma terminal_below f l x : terminal_at f l x -> (f < N)%nat.
Proof. intros H. destruct (fv_terminal f l x H) as (_ & _ & _ & _ & Hf & _). destruct fv_lengths as [_ ->]. lia. Qed.
(** A net of the model at the end of a path. *)
Definition good_node (a : hier_net) : Prop := path_from t top a.1 /\ net_design t a.2 = Some (model_at a.1) /\ assign <> Some (model_at a.1).
Lemma on_node_good f a : on_node f a -> good_node a.
Proof.
  destruct a as [l n]. intros (l' & x & Hf & [(E & Hn & Ha)|(i & it & -> & Hit & Hn)]); cbn in *; destruct (fv_terminal_path _ _ _ Hf) as [Hp Hx].
  - subst l'. split; [done|]. split; [|done]. destruct (component_net s0 C _ _ Hn) as (e & He & Hne & _). apply (elem_of_getBitTerms _ _ _ _ W) in Hx.
    destruct (bit_is_term s0 W x _ Hx) as [_ Hd]. cbn. congruence.
  - apply (path_from_snoc t) in Hp as [Hp Hi]. split; [done|]. cbn. split.
    + destruct (component_net s0 C _ _ Hn) as (e & He & Hne & _). destruct (instTerm_of_instance s0 W _ _ _ Hit) as (inst & Hinst & Hd & _).
      apply (elem_of_getInstances t W) in Hi as (inst' & Hinst' & <-). congruence.
    + intros E. rewrite (HA _ E) in Hi. by apply not_elem_of_nil in Hi.
Qed.
Lemma elem_of_getInstTerms_of n it : it ∈ getInstTerms_of s0 n <-> net_ s0 !! it = Some n /\ is_Some (instTermHeap t !! it).
Proof.
  unfold getInstTerms_of. rewrite list_elem_of_In, filter_In, <- list_elem_of_In, (elem_of_getComponents s0 n it C). apply and_iff_compat_l.
  destruct (instTermHeap t !! it); cbn; split; try done; by intros [? ?].
Qed.
Lemma elem_of_getBitTerms_of n x : x ∈ getBitTerms_of s0 n <-> net_ s0 !! x = Some n /\ instTermHeap t !! x = None.
Proof. unfold getBitTerms_of. by rewrite list_elem_of_In, filter_In, <- list_elem_of_In, (elem_of_getComponents s0 n x C), is_none_true. Qed.
(** The terminals on a node are those of the components of its net. *)
Definition instTerm_number (l : list loc) (it : loc) (f : nat) : Prop := exists i x, instTermHeap t !! it = Some (mkInstTerm i x) /\ terminal_at f (l ++ [i]) x.
Lemma node_instTerms a : good_node a -> exists fs, Forall2 (instTerm_number a.1) (getInstTerms_of s0 a.2) fs /\ Forall (fun f => on_node f a) fs.
Proof.
  intros (Hp & Hd & _). assert (H : forall it, it ∈ getInstTerms_of s0 a.2 -> exists f, instTerm_number a.1 it f /\ on_node f a).
  { intros it [Hn [[i x] Hit]]%elem_of_getInstTerms_of. destruct (component_net s0 C _ _ Hn) as (e & He & Hne & _).
    destruct (instTerm_of_instance s0 W _ _ _ Hit) as (inst & Hinst & Hdi & Hx).
    assert (Hi : i ∈ getInstances t (model_at a.1)) by (apply (elem_of_getInstances t W); exists inst; split; [done|congruence]).
    destruct (fv_terminal_exists (a.1 ++ [i]) x) as [f Hf]; [by apply (path_from_snoc t)|rewrite model_at_snoc; unfold modelOf; rewrite Hinst; by apply (elem_of_getBitTerms _ _ _ _ W)|].
    exists f. split; [by exists i, x|]. exists (a.1 ++ [i]), x. split; [done|]. right. by exists i, it. }
  clear -H. induction (getInstTerms_of s0 a.2) as [|it l IH]; [by exists []|]. destruct (H it) as (f & Hf & Hon); [left|]. destruct IH as (fs & Hfs & Hons); [intros it' Hit'; apply H; by right|].
  exists (f :: fs). split; by constructor.
Qed.
Lemma node_bitTerms a : good_node a -> exists fs, Forall2 (fun x f => terminal_at f a.1 x) (getBitTerms_of s0 a.2) fs /\ Forall (fun f => on_node f a) fs.
Proof.
  intros (Hp & Hd & Hna). assert (H : forall x, x ∈ getBitTerms_of s0 a.2 -> exists f, terminal_at f a.1 x /\ on_node f a).
  { intros x [Hn Hx]%elem_of_getBitTerms_of. destruct (component_net s0 C _ _ Hn) as (e & He & Hne & _ & Hc).
    assert (Hb : bit_term_of t x (model_at a.1)) by (apply (term_is_bit s0 x); [done|done|congruence]).
    destruct (fv_terminal_exists a.1 x) as [f Hf]; [done|by apply (elem_of_getBitTerms _ _ _ _ W)|]. exists f. split; [done|]. exists a.1, x. split; [done|]. by left. }
  clear -H. induction (getBitTerms_of s0 a.2) as [|it l IH]; [by exists []|]. destruct (H it) as (f & Hf & Hon); [left|]. destruct IH as (fs & Hfs & Hons); [intros it' Hit'; apply H; by right|].
  exists (f :: fs). split; by constructor.
Qed.
Lemma node_complete a fs gs f : Forall2 (instTerm_number a.1) (getInstTerms_of s0 a.2) fs -> Forall2 (fun x f => terminal_at f a.1 x) (getBitTerms_of s0 a.2) gs ->
  on_node f a -> f ∈ fs \/ f ∈ gs.
Proof.
  intros Hfs Hgs (l & x & Hf & [(E & Hn & _)|(i & it & -> & Hit & Hn)]).
  - right. subst l. destruct (fv_terminal_path _ _ _ Hf) as [_ Hx]. apply (elem_of_getBitTerms _ _ _ _ W) in Hx. destruct (bit_is_term s0 W x _ Hx) as [Hno _].
    assert (Hin : x ∈ getBitTerms_of s0 a.2) by (by apply elem_of_getBitTerms_of). apply list_elem_of_lookup in Hin as [j Hj].
    destruct (Forall2_lookup_l _ _ _ _ _ Hgs Hj) as (g & Hg & Hat). rewrite (fv_inj f g _ _ Hf Hat). by eapply list_elem_of_lookup_2.
  - left. assert (Hin : it ∈ getInstTerms_of s0 a.2) by (apply elem_of_getInstTerms_of; split; [done|by eexists]). apply list_elem_of_lookup in Hin as [j Hj].
    destruct (Forall2_lookup_l _ _ _ _ _ Hfs Hj) as (g & Hg & (i' & x' & Hit' & Hat)). rewrite Hit in Hit'. injection Hit' as <- <-.
    rewrite (fv_inj f g _ _ Hf Hat). by eapply list_elem_of_lookup_2.
Qed.
(** The number of components of a net is bounded. *)
Definition fanout : nat := max_list ((fun p => length (getComponents s0 p.1)) <$> map_to_list (components_ s0)).
Lemma length_components n : (length (getComponents s0 n) <= fanout)%nat.
Proof.
  unfold getComponents at 1. destruct (components_ s0 !! n) as [m|] eqn:E.
  - apply max_list_elem_of_le. apply list_elem_of_fmap. exists (n, m). split; [unfold getComponents; cbn; by rewrite E|]. by apply elem_of_map_to_list.
  - cbn [default]. unfold in_order_by. rewrite map_to_list_empty. cbn. lia.
Qed.

(** * Steps of the traversal *)

Context {World : Type} (h : collector World).
#[local] Notation traversal := (traversal (W := World)).
Definition meets (r : role) (f : nat) : prog World unit :=
  match r with
  | Reader => addReader h f ;; updateReaderIsoID h f
  | Driver => addDriver h f ;; updateDriverIsoID h f
  | Hier => addHierTerm h f ;; updateReaderIsoID h f
  end.
Definition meets_net (n : loc) : prog World unit := addNet h n ;; if net_constant s0 n then updateConstant h n else mret tt.

Lemma on_marks_ok {A} (m : prog visited A) (s : traversal) Q E :
  wp m (marks_ s) (fun a v => Q a (mkTraversal (stack_ s) v (world_ s))) (fun e v => E e (mkTraversal (stack_ s) v (world_ s))) -> wp (on_marks m) s Q E.
Proof. unfold wp, on_marks. by destruct (m (marks_ s)) as [[a|e|] v]. Qed.
Lemma on_world_ok {A} (m : prog World A) (s : traversal) Q E :
  wp m (world_ s) (fun a w => Q a (mkTraversal (stack_ s) (marks_ s) w)) (fun e w => E e (mkTraversal (stack_ s) (marks_ s) w)) -> wp (on_world m) s Q E.
Proof. unfold wp, on_world. by destruct (m (world_ s)) as [[a|e|] v]. Qed.
Lemma on_world_seq (m m' : prog World unit) (s : traversal) Q E :
  wp (m ;; m') (world_ s) (fun a w => Q a (mkTraversal (stack_ s) (marks_ s) w)) (fun e w => E e (mkTraversal (stack_ s) (marks_ s) w)) ->
  wp (on_world m ;; on_world m') s Q E.
Proof. rewrite !wp_bind. intros H. apply on_world_ok. eapply wp_mono; [exact H| |done]. cbn beta. intros _ w Hw. by apply on_world_ok. Qed.
Lemma meet_net_ok n (s : traversal) Q E :
  wp (meets_net n) (world_ s) (fun a w => Q a (mkTraversal (stack_ s) (marks_ s) w)) (fun e w => E e (mkTraversal (stack_ s) (marks_ s) w)) -> wp (meet_net s0 h n) s Q E.
Proof.
  unfold meets_net, meet_net. destruct (net_constant s0 n); [apply on_world_seq|]. rewrite !wp_bind. intros H. apply on_world_ok.
  eapply wp_mono; [exact H| |done]. cbn beta. intros _ w Hw. exact Hw.
Qed.
Lemma test_mark_ok M f (s : traversal) Q E : marks_ok N (marks_ s) M -> (f < N)%nat -> Q (bool_decide (f ∈ M)) s -> wp (on_marks (test_bit f)) s Q E.
Proof. intros HM Hf HQ. apply on_marks_ok. eapply test_bit_ok; [done..|]. by destruct s. Qed.

Lemma classify_ok f l x k it inst (s : traversal) Q E : terminal_at f l x -> P !! k = Some l -> terminal_of t l x it -> DNLInstances_ d !! k = Some inst ->
  wp (meets (role_of s0 l x) f) (world_ s) (fun _ w => Q tt (mkTraversal (stack_ s) (marks_ s) w)) (fun e w => E e (mkTraversal (stack_ s) (marks_ s) w)) ->
  wp (classify s0 h f (mkDNLTerminal (Some k) it (Some x) (Some f)) inst) s Q E.
Proof.
  intros Hf Hk Hit Hi HQ. destruct (fv_instance k l Hk) as (inst2 & Hi2 & Hat & _). assert (inst2 = inst) as -> by congruence.
  destruct (fv_terminal_path _ _ _ Hf) as [Hp Hx]. apply (elem_of_getBitTerms _ _ _ _ W) in Hx as Hb. destruct Hb as [_ (o & Ho & Hod)%fmap_Some].
  assert (Hdir : dnl_getDirection t x = Some (direction_ (h_extra o))) by (unfold dnl_getDirection; by rewrite Ho).
  assert (HQ' : wp (meets (role_of s0 l x) f) (world_ s) (fun a w => Q a (mkTraversal (stack_ s) (marks_ s) w)) (fun e w => E e (mkTraversal (stack_ s) (marks_ s) w))).
  { eapply wp_mono; [exact HQ| |done]. by intros []. }
  clear HQ. unfold classify. rewrite (fv_isTop k l inst Hk Hat). unfold role_of in HQ'. unfold terminal_of in Hit. rewrite Hdir in HQ'.
  destruct l as [|i l _] using rev_ind.
  - cbn [last] in HQ'. rewrite bool_decide_true by done. rewrite wp_bind. eapply wp_deref; [done|]. rewrite wp_bind. eapply wp_deref; [exact Hdir|].
    rewrite (bool_decide_ext (Some _ = Some Output) (direction_ (h_extra o) = Output)) in HQ' by (split; congruence). destruct (bool_decide _); by apply on_world_seq.
  - rewrite last_snoc in HQ', Hit. rewrite bool_decide_false by by destruct l. destruct Hat as (Hlast & _). rewrite last_snoc in Hlast.
    rewrite wp_bind. eapply wp_deref; [exact Hlast|]. apply (path_from_snoc t) in Hp as [_ Hin]. rewrite wp_bind. eapply (getModel_ok t W); [exact Hin|].
    destruct (bool_decide (getInstances t (modelOf t i) = [])); [|by apply on_world_seq]. destruct Hit as (c & -> & Hc).
    rewrite wp_bind. eapply wp_deref; [done|]. unfold instTerm_getBitTerm. rewrite !wp_bind. eapply wp_deref; [exact Hc|]. rewrite wp_ret. cbn [bitTerm_].
    rewrite wp_bind. eapply wp_deref; [exact Hdir|]. rewrite (bool_decide_ext (Some _ = Some Input) (direction_ (h_extra o) = Input)) in HQ' by (split; congruence).
    destruct (bool_decide _); by apply on_world_seq.
Qed.

(** Pushing the terminals of a node leaves marks and world alone. *)
Definition pushed (l : list nat) (s : traversal) : traversal := mkTraversal (l ++ stack_ s) (marks_ s) (world_ s).
Lemma pushed_nil s : pushed [] s = s.
Proof. by destruct s. Qed.
Lemma pushed_app l l' s : pushed l (pushed l' s) = pushed (l ++ l') s.
Proof. unfold pushed. cbn. by rewrite app_assoc. Qed.
(** All of [fs] but perhaps [fid] were pushed, or one of them is marked. *)
Definition pushes (M : list nat) (fid : nat) (fs : list nat) (s s' : traversal) : Prop :=
  exists l, s' = pushed l s /\ Forall (fun f => f ∈ fs) l /\ (length l <= length fs)%nat /\
    ((exists f, f ∈ fs /\ f ∈ M) \/ forall f, f ∈ fs -> f ∈ l \/ f = fid).
Lemma stack_instTerms_ok self fid M k inst l its fs (s : traversal) E : self = None \/ self = Some fid -> marks_ok N (marks_ s) M ->
  P !! k = Some l -> DNLInstances_ d !! k = Some inst -> Forall2 (instTerm_number l) its fs ->
  wp (push_instTerms s0 top d self inst its) s (fun b s' => pushes M fid fs s s' /\ (b = true -> exists f, f ∈ fs /\ f ∈ M)) E.
Proof.
  intros Hself HM Hk Hi H. revert s HM. induction H as [|it f its fs (i & x & Hit & Hf) _ IH]; intros s HM; cbn [push_instTerms].
  { rewrite wp_ret. split; [|done]. exists []. rewrite pushed_nil. split_and!; [done|constructor|done|]. right. by intros f ?%not_elem_of_nil. }
  assert (Hpath : path_from t top (l ++ [i])) by by apply (fv_terminal_path _ _ _ Hf). apply (path_from_snoc t) in Hpath as [_ Hin].
  wp_read Hit. cbn [instance_]. destruct (fv_getChildInstance k l inst i Hk Hi Hin) as (k' & inst' & Hk' & Hi' & Hchild). wp_read Hchild.
  destruct (fv_getTerminal k' l i inst' it x Hk' Hi' Hit) as (g & Hg & HT). rewrite (fv_inj g f _ _ Hg Hf) in HT. wp_read HT. unfold id_of. rewrite wp_bind.
  eapply wp_deref; [done|]. rewrite wp_bind. eapply test_mark_ok; [done|by eapply terminal_below|]. case_bool_decide as Hm.
  { rewrite wp_ret. split; [|intros _; exists f; split; [left|done]]. exists []. rewrite pushed_nil. split_and!; [done|constructor|cbn; lia|]. left. exists f. split; [left|done]. }
  case_bool_decide as Hs.
  - assert (f = fid) as -> by (destruct Hself; congruence). eapply wp_mono; [by apply IH| |done]. cbn beta. intros b s' ((r & -> & Hr & Hlen & Hcase) & Hb). split.
    + exists r. split; [done|]. split; [eapply Forall_impl; [exact Hr|]; intros; by right|]. split; [cbn; lia|].
      destruct Hcase as [(g' & ? & ?)|Hall]; [left; exists g'; split; [by right|done]|right]. intros g' [->|Hg']%elem_of_cons; [by right|by apply Hall].
    + intros Hbt. destruct (Hb Hbt) as (g' & ? & ?). exists g'. split; [by right|done].
  - rewrite wp_bind. unfold push. rewrite wp_modify. change (mkTraversal (f :: stack_ s) (marks_ s) (world_ s)) with (pushed [f] s).
    eapply wp_mono; [apply (IH (pushed [f] s)); done| |done]. cbn beta. intros b s' ((r & -> & Hr & Hlen & Hcase) & Hb). split.
    + exists (r ++ [f]). rewrite pushed_app. split; [done|]. split; [apply Forall_app; split; [eapply Forall_impl; [exact Hr|]; intros; by right|repeat constructor]|].
      split; [rewrite length_app; cbn; lia|]. destruct Hcase as [(g' & ? & ?)|Hall]; [left; exists g'; split; [by right|done]|right].
      intros g' [->|Hg']%elem_of_cons; [left; set_solver|]. destruct (Hall g' Hg'); [left; set_solver|by right].
    + intros Hbt. destruct (Hb Hbt) as (g' & ? & ?). exists g'. split; [by right|done].
Qed.
Lemma stack_bitTerms_ok self fid M k inst l xs fs (s : traversal) E : self = None \/ self = Some fid -> marks_ok N (marks_ s) M ->
  P !! k = Some l -> DNLInstances_ d !! k = Some inst -> Forall2 (fun x f => terminal_at f l x) xs fs ->
  wp (push_bitTerms s0 top d self inst xs) s (fun _ s' => pushes M fid fs s s') E.
Proof.
  intros Hself HM Hk Hi H. revert s HM. induction H as [|x f xs fs Hf _ IH]; intros s HM; cbn [push_bitTerms].
  { rewrite wp_ret. exists []. rewrite pushed_nil. split_and!; [done|constructor|done|]. right. by intros f ?%not_elem_of_nil. }
  destruct (fv_terminal_path _ _ _ Hf) as [_ Hx]. destruct (fv_getTerminalFromBitTerm k l inst x Hk Hi Hx) as (g & it & Hg & _ & HT).
  rewrite (fv_inj g f _ _ Hg Hf) in HT. wp_read HT. unfold id_of. rewrite wp_bind. eapply wp_deref; [done|]. case_bool_decide as Hs.
  - assert (f = fid) as -> by (destruct Hself; congruence). eapply wp_mono; [by apply IH| |done]. cbn beta. intros _ s' (r & -> & Hr & Hlen & Hcase).
    exists r. split; [done|]. split; [eapply Forall_impl; [exact Hr|]; intros; by right|]. split; [cbn; lia|].
    destruct Hcase as [(g' & ? & ?)|Hall]; [left; exists g'; split; [by right|done]|right]. intros g' [->|Hg']%elem_of_cons; [by right|by apply Hall].
  - rewrite wp_bind. eapply test_mark_ok; [done|by eapply terminal_below|]. case_bool_decide as Hm.
    { rewrite wp_ret. exists []. rewrite pushed_nil. split_and!; [done|constructor|cbn; lia|]. left. exists f. split; [left|done]. }
    rewrite wp_bind. unfold push. rewrite wp_modify. change (mkTraversal (f :: stack_ s) (marks_ s) (world_ s)) with (pushed [f] s).
    eapply wp_mono; [apply (IH (pushed [f] s)); done| |done]. cbn beta. intros _ s' (r & -> & Hr & Hlen & Hcase).
    exists (r ++ [f]). rewrite pushed_app. split; [done|]. split; [apply Forall_app; split; [eapply Forall_impl; [exact Hr|]; intros; by right|repeat constructor]|].
    split; [rewrite length_app; cbn; lia|]. destruct Hcase as [(g' & ? & ?)|Hall]; [left; exists g'; split; [by right|done]|right].
    intros g' [->|Hg']%elem_of_cons; [left; set_solver|]. destruct (Hall g' Hg'); [left; set_solver|by right].
Qed.
(** A node: its inst terminals, then, unless one was marked, its bit terminals. *)
Lemma push_node_ok selfI selfB fid M k inst a (s : traversal) E : (selfI = None \/ selfI = Some fid) -> (selfB = None \/ selfB = Some fid) ->
  marks_ok N (marks_ s) M -> good_node a -> P !! k = Some a.1 -> DNLInstances_ d !! k = Some inst ->
  (forall f g, f ∈ M -> on_node f a -> on_node g a -> g ∈ M \/ g = fid \/ g ∈ stack_ s) ->
  wp (b ← push_instTerms s0 top d selfI inst (getInstTerms_of s0 a.2); if b : bool then mret tt else push_bitTerms s0 top d selfB inst (getBitTerms_of s0 a.2)) s
    (fun _ s' => exists l, s' = pushed l s /\ Forall (fun f => on_node f a) l /\ (length l <= 2 * fanout)%nat /\
       forall g, on_node g a -> g ∈ M \/ g = fid \/ g ∈ stack_ s') E.
Proof.
  intros HsI HsB HM Ha Hk Hi Hclosed. destruct (node_instTerms a Ha) as (fs & Hfs & Hfsa). destruct (node_bitTerms a Ha) as (gs & Hgs & Hgsa).
  pose proof (Forall2_length _ _ _ Hfs) as Hlf. pose proof (Forall2_length _ _ _ Hgs) as Hlg.
  assert (Hlen : (length fs <= fanout)%nat /\ (length gs <= fanout)%nat).
  { pose proof (length_components a.2). rewrite <- Hlf, <- Hlg. unfold getInstTerms_of, getBitTerms_of.
    split; etransitivity; [apply List.filter_length_le|done|apply List.filter_length_le|done]. }
  rewrite Forall_forall in Hfsa, Hgsa.
  rewrite wp_bind. eapply wp_mono; [eapply stack_instTerms_ok; [exact HsI|done..]| |done]. cbn beta. intros b s1 ((l & -> & Hl & Hll & Hcase) & Hb). rewrite Forall_forall in Hl.
  assert (Hmarked : forall g0 r, g0 ∈ M -> on_node g0 a -> forall g, on_node g a -> g ∈ M \/ g = fid \/ g ∈ stack_ (pushed r s)).
  { intros g0 r HgM Hg0 g Hg. destruct (Hclosed g0 g HgM Hg0 Hg) as [|[|]]; [by left|by right; left|]. right. right. cbn. set_solver. }
  destruct b.
  - rewrite wp_ret. exists l. split; [done|]. split; [apply Forall_forall; auto|]. split; [lia|]. destruct (Hb eq_refl) as (g0 & Hg0 & HgM). apply (Hmarked g0); auto.
  - eapply wp_mono; [eapply (stack_bitTerms_ok selfB fid M k inst a.1 _ gs (pushed l s)); done| |done]. cbn beta. intros _ s' (r & -> & Hr & Hlr & Hcase'). rewrite Forall_forall in Hr.
    exists (r ++ l). rewrite pushed_app. split; [done|]. split; [apply Forall_forall; intros g [?|?]%elem_of_app; auto|]. split; [rewrite length_app; lia|].
    destruct Hcase as [(g0 & Hg0 & HgM)|Hall]; [apply (Hmarked g0); auto|]. destruct Hcase' as [(g0 & Hg0 & HgM)|Hall']; [apply (Hmarked g0); auto|].
    intros g Hg. destruct (node_complete a fs gs g Hfs Hgs Hg) as [Hin|Hin]; [destruct (Hall g Hin); [|by right; left]|destruct (Hall' g Hin); [|by right; left]]; right; right; cbn; set_solver.
Qed.

(** * What is met *)

Inductive event := Met (r : role) (f : nat) | MetNet (n : loc).
Definition take_event (e : event) : prog World unit := match e with Met r f => meets r f | MetNet n => meets_net n end.
Definition met (L : list event) : list nat := omap (fun e => match e with Met _ f => Some f | _ => None end) L.
Lemma met_app L L' : met (L ++ L') = met L ++ met L'.
Proof. apply omap_app. Qed.
Lemma elem_of_met f L : f ∈ met L <-> exists r, Met r f ∈ L.
Proof. unfold met. rewrite list_elem_of_omap. split; [intros ([r g|n] & He & [= ->]); by exists r|intros [r He]; by exists (Met r f)]. Qed.

Context (start : nat) (Hstart : (start < terminals t top P)%nat).
#[local] Notation connected := (connected s0 assign top P).
Definition event_true (e : event) : Prop :=
  match e with Met r f => connected start f /\ has_role s0 top P f r | MetNet n => exists f l, connected start f /\ on_node f (l, n) end.
(** The world keeps [holds] of the events so far. *)
Context (holds : list event -> World -> Prop).
Context (Hholds : forall L e w E, holds L w -> event_true e -> (forall r f, e = Met r f -> f ∉ met L) -> wp (take_event e) w (fun _ w' => holds (L ++ [e]) w') E).

Record searched (L : list event) (s : traversal) : Prop := {
  se_marks : marks_ok N (marks_ s) (met L);
  se_world : holds L (world_ s);
  se_true e : e ∈ L -> event_true e;
  se_nodup : NoDup (met L);
  se_stack f : f ∈ stack_ s -> connected start f;
  se_closed f g a : f ∈ met L -> on_node f a -> on_node g a -> g ∈ met L \/ g ∈ stack_ s;
  se_nets f l n : f ∈ met L -> on_node f (l, n) -> MetNet n ∈ L;
  se_start : start ∈ met L \/ start ∈ stack_ s }.

Lemma connected_terminal f : connected start f -> exists l x, terminal_at f l x.
Proof.
  intros H. destruct (decide (f = start)) as [->|Hne]; [by apply (fv_numbered (d := d))|]. apply rtc_inv_r in H as [->|(g & _ & (a & _ & (l & x & Hf & _)))]; [done|]. by exists l, x.
Qed.
(** Terminal [fid] is being treated: it is met and not yet marked, and the nodes
    of [nodes] are gone over. *)
Record treating (L : list event) (rest : list nat) (fid : nat) (nodes : list hier_net) (L' : list event) (s : traversal) : Prop := {
  tr_marks : marks_ok N (marks_ s) (met L);
  tr_world : holds L' (world_ s);
  tr_met : met L' = met L ++ [fid];
  tr_before e : e ∈ L -> e ∈ L';
  tr_true e : e ∈ L' -> event_true e;
  tr_stack : exists r, stack_ s = r ++ rest /\ (forall g, g ∈ r -> exists a, on_node fid a /\ on_node g a) /\ (length r <= length nodes * (2 * fanout))%nat;
  tr_nodes a : a ∈ nodes -> MetNet a.2 ∈ L' /\ forall g, on_node g a -> g ∈ met L \/ g = fid \/ g ∈ stack_ s }.

Section terminal.
Context (L : list event) (rest : list nat) (fid : nat) (Hfid : connected start fid) (Hnew : fid ∉ met L).
Context (Hclosed : forall f g a, f ∈ met L -> on_node f a -> on_node g a -> g ∈ met L \/ g = fid \/ g ∈ rest).

Lemma go_node_ok selfI selfB nodes L' a k inst (body : prog traversal unit) (s : traversal) E : treating L rest fid nodes L' s -> on_node fid a ->
  (selfI = None \/ selfI = Some fid) -> (selfB = None \/ selfB = Some fid) -> P !! k = Some a.1 -> DNLInstances_ d !! k = Some inst ->
  (forall s Q, wp (b ← push_instTerms s0 top d selfI inst (getInstTerms_of s0 a.2); if b : bool then mret tt else push_bitTerms s0 top d selfB inst (getBitTerms_of s0 a.2)) s Q E ->
     wp body s Q E) ->
  wp (meet_net s0 h a.2 ;; body) s (fun _ s' => treating L rest fid (nodes ++ [a]) (L' ++ [MetNet a.2]) s') E.
Proof.
  intros [Tm Tw Tme Tb Tt (r & Ts & Tr & Tl) Tn] Ha HsI HsB Hk Hi Hbody. rewrite wp_bind. apply meet_net_ok.
  assert (Htrue : event_true (MetNet a.2)) by (exists fid, a.1; by destruct a).
  eapply wp_mono; [apply (Hholds L' (MetNet a.2) _ (fun e w => E e (mkTraversal (stack_ s) (marks_ s) w)) Tw Htrue); by intros ? ?| |done].
  cbn beta. intros _ w Hw. apply Hbody.
  eapply wp_mono; [apply (push_node_ok selfI selfB fid (met L) k inst a); [done|done|done|by eapply on_node_good|done|done|]| |done].
  { cbn. intros f g Hf Hfa Hg. destruct (Hclosed f g a Hf Hfa Hg) as [|[|]]; [by left|by right; left|]. right. right. rewrite Ts. set_solver. }
  cbn beta. intros _ s' (l & -> & Hl & Hlen & Hall). rewrite Forall_forall in Hl. split; cbn.
  - done.
  - done.
  - rewrite met_app, Tme. cbn. by rewrite app_nil_r.
  - intros e He. apply elem_of_app. left. auto.
  - intros e [He|He%list_elem_of_singleton]%elem_of_app; [auto|by subst e].
  - exists (l ++ r). rewrite Ts, app_assoc. split; [done|]. split.
    + intros g [Hg|Hg]%elem_of_app; [exists a; split; [done|auto]|auto].
    + rewrite !length_app. cbn. lia.
  - intros b [Hb|Hb%list_elem_of_singleton]%elem_of_app.
    + destruct (Tn b Hb) as [H1 H2]. split; [set_solver|]. intros g Hg. destruct (H2 g Hg) as [|[|]]; [by left|by right; left|]. right. right. set_solver.
    + subst b. split; [set_solver|]. intros g Hg. apply (Hall g Hg).
Qed.
(** All its nodes are gone over, and it is marked. *)
Record treated (L' : list event) (s : traversal) : Prop := {
  td_marks : marks_ok N (marks_ s) (met L');
  td_world : holds L' (world_ s);
  td_met : met L' = met L ++ [fid];
  td_before e : e ∈ L -> e ∈ L';
  td_true e : e ∈ L' -> event_true e;
  td_stack : exists r, stack_ s = r ++ rest /\ (forall g, g ∈ r -> exists a, on_node fid a /\ on_node g a) /\ (length r <= 4 * fanout)%nat;
  td_nodes a : on_node fid a -> MetNet a.2 ∈ L' /\ forall g, on_node g a -> g ∈ met L' \/ g ∈ stack_ s }.
Lemma treating_done nodes L' s v : treating L rest fid nodes L' s -> (length nodes <= 2)%nat -> (forall a, on_node fid a -> a ∈ nodes) ->
  marks_ok N v (met L ++ [fid]) -> treated L' (mkTraversal (stack_ s) v (world_ s)).
Proof.
  intros [Tm Tw Tme Tb Tt (r & Ts & Tr & Tl) Tn] Hlen Hall Hv. split; cbn; try done; [by rewrite Tme|exists r; split; [done|]; split; [done|nia]|].
  intros a Ha. destruct (Tn a (Hall a Ha)) as [H1 H2]. split; [done|]. intros g Hg. rewrite Tme. destruct (H2 g Hg) as [|[->|]]; [left; set_solver..|by right].
Qed.
Lemma treat_fid_ok (s : traversal) E : marks_ok N (marks_ s) (met L) -> holds L (world_ s) -> (forall e, e ∈ L -> event_true e) -> stack_ s = rest ->
  wp (treat_terminal assign s0 top d h fid) s (fun _ s' => exists L', treated L' s') E.
Proof.
  intros Hm Hw Ht Hs. destruct (connected_terminal fid Hfid) as (l & x & Hf). pose proof (terminal_below _ _ _ Hf) as Hlt.
  destruct (fv_terminal _ _ _ Hf) as (k & it & Hk & Hit & _ & HT). destruct (fv_instance k l Hk) as (inst & Hinst & Hat & _).
  unfold treat_terminal. rewrite wp_bind. eapply test_mark_ok; [done..|]. rewrite bool_decide_false by done. wp_read HT.
  rewrite wp_bind. eapply (wp_deref _ _ _ _ inst); [exact Hinst|]. rewrite wp_bind. eapply (classify_ok fid l x k it inst); [done..|].
  assert (Htrue : event_true (Met (role_of s0 l x) fid)) by (split; [done|by exists l, x]).
  eapply wp_mono; [apply (Hholds L (Met (role_of s0 l x) fid) _ (fun e w => E e (mkTraversal (stack_ s) (marks_ s) w)) Hw Htrue); by intros ? ? [= _ ->]| |done].
  cbn beta. intros _ w Hw1. set (L1 := L ++ [Met (role_of s0 l x) fid]) in *. set (s1 := mkTraversal (stack_ s) (marks_ s) w).
  assert (T1 : treating L rest fid [] L1 s1).
  { split; cbn; try done.
    - subst L1. by rewrite met_app.
    - intros e He. apply elem_of_app. by left.
    - intros e [He|He%list_elem_of_singleton]%elem_of_app; [auto|by subst e].
    - exists []. split; [done|]. split; [by intros g ?%not_elem_of_nil|cbn; lia].
    - by intros a ?%not_elem_of_nil. }
  clearbody L1 s1. clear Hw1 w Hw Hm Hs.
  assert (Hin : wp (go_inside assign s0 top d h fid (mkDNLTerminal (Some k) it (Some x) (Some fid)) inst) s1 (fun _ s2 => exists nodes L2,
    treating L rest fid nodes L2 s2 /\ (length nodes <= 1)%nat /\ forall a, net_inside s0 assign top l x a -> a ∈ nodes) E).
  { unfold go_inside. rewrite wp_bind. eapply (wp_deref _ _ _ _ x); [done|]. rewrite wp_bind. eapply wp_deref; [by eapply fv_model|].
    destruct (net_ s0 !! x) as [n|] eqn:En; [case_bool_decide as Ha|].
    - rewrite wp_ret. exists [], L1. split; [done|]. split; [cbn; lia|]. by intros a (_ & _ & ?).
    - assert (Hon : on_node fid (l, n)) by (exists l, x; split; [done|]; by left). change n with (l, n).2.
      eapply wp_mono; [eapply (go_node_ok None (Some fid) [] L1 (l, n) k inst); [exact T1|exact Hon|by left|by right|done|done|by intros ? ? ?]| |done].
      cbn beta. intros _ s2 T2. exists [(l, n)]. eexists. split; [exact T2|]. split; [cbn; lia|]. intros [l' n'] (E1 & E2 & _). cbn in *. simplify_eq. left.
    - rewrite wp_ret. exists [], L1. split; [done|]. split; [cbn; lia|]. intros a (_ & ? & _). congruence. }
  rewrite wp_bind. eapply wp_mono; [exact Hin| |done]. cbn beta. clear Hin. intros _ s2 (nodes & L2 & T2 & Hlen2 & Hins).
  assert (Hout : wp (go_outside s0 top d h fid (mkDNLTerminal (Some k) it (Some x) (Some fid)) inst) s2 (fun _ s3 => exists nodes' L3,
    treating L rest fid nodes' L3 s3 /\ (length nodes' <= 2)%nat /\ (forall a, a ∈ nodes -> a ∈ nodes') /\ forall a, net_outside s0 l x a -> a ∈ nodes') E).
  { unfold go_outside. rewrite (fv_isTop k l inst Hk Hat). unfold terminal_of in Hit. destruct l as [|i l _] using rev_ind.
    { rewrite bool_decide_true by done. rewrite wp_ret. exists nodes, L2. split; [done|]. split; [lia|]. split; [done|]. intros a (i & c & E1 & _). by destruct (a.1). }
    rewrite bool_decide_false by by destruct l. rewrite last_snoc in Hit. destruct Hit as (c & -> & Hc). rewrite wp_bind. eapply wp_deref; [done|].
    assert (Hout : forall a, net_outside s0 (l ++ [i]) x a -> a.1 = l /\ net_ s0 !! c = Some a.2).
    { intros a (i' & c' & E1 & Hc' & Hn). apply app_inj_tail in E1 as [-> ->]. split; [done|]. by rewrite (instTerm_unique W c c' _ Hc Hc'). }
    destruct (net_ s0 !! c) as [n|] eqn:En.
    - assert (Hon : on_node fid (l, n)) by (exists (l ++ [i]), x; split; [done|]; right; exists i, c; done).
      destruct Hat as (_ & _ & _ & _ & Hpar). destruct (Hpar l i eq_refl) as (j & Hj & _ & HPj). destruct (fv_instance j l HPj) as (J & HJ & _).
      change n with (l, n).2. eapply wp_mono; [eapply (go_node_ok (Some fid) None nodes L2 (l, n) j J); [exact T2|exact Hon|by right|by left|done|done|]| |done].
      + intros s' Q HQ. rewrite wp_bind. eapply wp_deref; [unfold getParentInstance; rewrite Hj; exact HJ|]. exact HQ.
      + cbn beta. intros _ s3 T3. exists (nodes ++ [(l, n)]). eexists. split; [exact T3|]. split; [rewrite length_app; cbn; lia|]. split; [set_solver|].
        intros [l' n'] H. destruct (Hout _ H) as [E1 E2]. cbn in *. simplify_eq. set_solver.
    - rewrite wp_ret. exists nodes, L2. split; [done|]. split; [lia|]. split; [done|]. intros a H. destruct (Hout _ H) as [_ ?]. congruence. }
  rewrite wp_bind. eapply wp_mono; [exact Hout| |done]. cbn beta. clear Hout. intros _ s3 (nodes' & L3 & T3 & Hlen3 & Hsub & Hout).
  apply on_marks_ok. eapply wp_mono; [apply (set_bit_ok N HN _ (met L) fid (fun _ _ => False)); [apply T3|done]| |done]. cbn beta. intros _ v Hv. exists L3.
  eapply treating_done; [exact T3|done| |done]. intros a (l' & x' & Hf' & Hcase). destruct (fv_fun _ _ _ _ _ Hf Hf') as [-> ->]. destruct Hcase; auto.
Qed.
End terminal.

(** * The traversal *)

Definition enough_fuel : nat := S (S N * S (4 * fanout)).
Definition work (L : list event) (s : traversal) : nat := ((N - length (met L)) * S (4 * fanout) + length (stack_ s))%nat.
Lemma met_bounded L : NoDup (met L) -> (forall e, e ∈ L -> event_true e) -> (length (met L) <= N)%nat.
Proof.
  intros Hnd Ht. rewrite <- (length_seq N 0).
  assert (Hsub : met L ⊆ seq 0 N).
  { intros f [r Hf]%elem_of_met. destruct (Ht _ Hf) as [_ (l & x & Hat & _)]. apply elem_of_seq. pose proof (terminal_below _ _ _ Hat). lia. }
  by apply submseteq_length, NoDup_submseteq.
Qed.
Lemma traverse_meets fuel L s E : searched L s -> (work L s < fuel)%nat ->
  wp (traverse assign s0 top d h fuel) s (fun _ s' => exists L', searched L' s' /\ stack_ s' = []) E.
Proof.
  revert L s. induction fuel as [|fuel IH]; intros L s [Sm Sw St Sn Ss Sc Snet Sst] Hf; [lia|]. cbn [traverse]. rewrite wp_bind, wp_gets.
  destruct (stack_ s) as [|fid rest] eqn:Es; [rewrite wp_ret; exists L; split; [split; rewrite ?Es; done|done]|].
  rewrite wp_bind, wp_modify, wp_bind. set (s1 := mkTraversal rest (marks_ s) (world_ s)).
  assert (Hfid : connected start fid) by (apply Ss; left). destruct (connected_terminal fid Hfid) as (l & x & Hat). pose proof (terminal_below _ _ _ Hat) as Hlt.
  destruct (decide (fid ∈ met L)) as [Hin|Hnew].
  - unfold treat_terminal. rewrite wp_bind. eapply test_mark_ok; [exact Sm|done|]. rewrite bool_decide_true by done. rewrite wp_ret. apply (IH L).
    + split; try done; cbn.
      * intros f Hfr. apply Ss. by right.
      * intros f g a H1 H2 H3. destruct (Sc f g a H1 H2 H3) as [|[->|]%elem_of_cons]; [by left|by left|by right].
      * destruct Sst as [|[->|]%elem_of_cons]; [by left|by left|by right].
    + unfold work in *. rewrite Es in Hf. cbn in *. lia.
  - eapply wp_mono; [apply (treat_fid_ok L rest fid Hfid Hnew)| |done]; [|exact Sm|exact Sw|exact St|done|].
    { intros f g a H1 H2 H3. destruct (Sc f g a H1 H2 H3) as [|[->|]%elem_of_cons]; [by left|by right; left|by right; right]. }
    cbn beta. intros _ s' (L' & [Tm Tw Tme Tb Tt (r & Ts & Tr & Tl) Tn]). assert (Hnd : NoDup (met L')).
    { rewrite Tme. apply NoDup_app. split; [done|]. split; [|apply NoDup_singleton]. by intros g Hg ->%list_elem_of_singleton. }
    apply (IH L').
    + split; try done.
      * intros g Hg. rewrite Ts in Hg. apply elem_of_app in Hg as [Hg|Hg]; [|apply Ss; by right]. destruct (Tr g Hg) as (a & Ha & Hga).
        etransitivity; [exact Hfid|]. apply rtc_once. by exists a.
      * intros f g a H1 H2 H3. rewrite Tme in H1. apply elem_of_app in H1 as [H1|H1%list_elem_of_singleton].
        -- destruct (Sc f g a H1 H2 H3) as [|[->|]%elem_of_cons]; [left; rewrite Tme; set_solver..|right; rewrite Ts; set_solver].
        -- subst f. by apply (Tn a).
      * intros f l' n H1 H2. rewrite Tme in H1. apply elem_of_app in H1 as [H1|H1%list_elem_of_singleton]; [by eapply Tb, Snet|]. subst f. by apply (Tn (l', n)).
      * destruct Sst as [|[->|]%elem_of_cons]; [left; rewrite Tme; set_solver..|right; rewrite Ts; set_solver].
    + unfold work in *. rewrite Es in Hf. pose proof (met_bounded L' Hnd Tt) as Hb. rewrite Tme, length_app in Hb |- *. cbn [length] in *. rewrite Ts, length_app. nia.
Qed.
(** What a finished search has met. *)
Record collected (L : list event) : Prop := {
  cl_true e : e ∈ L -> event_true e;
  cl_nodup : NoDup (met L);
  cl_all f : f ∈ met L <-> connected start f;
  cl_nets n : MetNet n ∈ L <-> exists f l, connected start f /\ on_node f (l, n) }.
Lemma treatDriver_ok fuel v w E : reusable N v -> holds [] w -> (enough_fuel <= fuel)%nat ->
  wp (treatDriver assign s0 top d h fuel start) (v, w) (fun _ vw => exists L, collected L /\ holds L vw.2 /\ reusable N vw.1) (fun e vw => E e vw).
Proof.
  intros Hv Hw Hf. assert (H : wp (on_marks (beginTraversal N) ;; push start ;; traverse assign s0 top d h fuel) (mkTraversal [] v w)
    (fun _ s => exists L, collected L /\ holds L (world_ s) /\ reusable N (marks_ s)) (fun e s => E e (marks_ s, world_ s))).
  { rewrite wp_bind. apply on_marks_ok. eapply wp_mono; [by apply (beginTraversal_ok N v (fun _ _ => False))| |done]. cbn beta. intros _ v1 Hv1. rewrite wp_bind. unfold push at 1. rewrite wp_modify. cbn [stack_ marks_ world_].
    eapply wp_mono; [apply (traverse_meets fuel [] _ (fun _ _ => False))| |done].
    - split; cbn; try done; [by intros e ?%not_elem_of_nil|constructor|by intros f ->%list_elem_of_singleton|by intros f g a ?%not_elem_of_nil|by intros f l n ?%not_elem_of_nil|right; left].
    - unfold work, enough_fuel in *. cbn. cbn in Hf. lia.
    - cbn beta. intros _ s' (L & [Sm Sw St Sn Ss Sc Snet Sst] & Es). rewrite Es in *. exists L. split; [|split; [done|right; by exists (met L)]].
      assert (Hall : forall f, f ∈ met L <-> connected start f).
      { intros f. split; [intros [r Hr]%elem_of_met; by apply (St _ Hr)|]. intros Hc. destruct Sst as [Hst|?%not_elem_of_nil]; [|done].
        clear -Hc Hst Sc. induction Hc as [|f g k (a & Ha & Hb) _ IH]; [done|]. apply IH. destruct (Sc f g a Hst Ha Hb) as [|?%not_elem_of_nil]; done. }
      split; [done|done|done|]. intros n. split; [intros Hn; apply (St _ Hn)|]. intros (f & l & Hc & Hon). apply Hall in Hc. by eapply Snet. }
  unfold wp, treatDriver in *. destruct ((on_marks (beginTraversal N) ;; push start ;; traverse assign s0 top d h fuel) (mkTraversal [] v w)) as [[u|e|] s']; done.
Qed.
End traversal.
