(* ===== verification/DNLBuild.v ===== *)
(** The isos of the flat netlist: what each task of the builder does to the isos
    and to the iso identifiers of terminals, what the two rounds and the dangling
    nets leave, and that two terminals have one iso exactly when they are connected. *)
From stdpp Require Import sorting relations.
From S2P Require Import Prelude NLID Store Bus Contents Connections DesignNets Interface InterfaceSteps InterfaceTerms TermLifetime InstanceSteps MergeAssigns NetlistRuns Paths PathSteps Equipotential EquipotentialSteps DNL DNLFlatten DNLIsos.
Local Open Scope Z_scope.

(** * Types of isos *)

Definition const_step (cur ty : IsoType) : IsoType :=
  if bool_decide (cur = AMBIGUOUS) || bool_decide (ty = STANDART) then cur
  else if negb (bool_decide (cur = STANDART)) && negb (bool_decide (cur = ty)) then AMBIGUOUS else ty.
(** The type of an iso on nets of these types. *)
Definition merged_isoType (nets : IsoType -> Prop) (r : IsoType) : Prop :=
  match r with
  | STANDART => forall ty, nets ty -> ty = STANDART
  | AMBIGUOUS => exists a b, nets a /\ nets b /\ a <> b /\ a <> STANDART /\ b <> STANDART
  | SHADOW => False
  | c => nets c /\ forall ty, nets ty -> ty = STANDART \/ ty = c
  end.
Definition is_const (c : IsoType) : Prop := c = CONST0 \/ c = CONST1 \/ c = CONSTX \/ c = CONSTZ.
Definition is_net_isoType (ty : IsoType) : Prop := ty <> AMBIGUOUS /\ ty <> SHADOW.
Lemma merged_const nets c : is_const c -> merged_isoType nets c <-> nets c /\ forall ty, nets ty -> ty = STANDART \/ ty = c.
Proof. intros [->|[->|[->| ->]]]; done. Qed.
Lemma is_const_net ty : is_net_isoType ty -> ty <> STANDART -> is_const ty.
Proof. intros [? ?] ?. unfold is_const. destruct ty; auto; done. Qed.
Lemma merged_is_const nets r : merged_isoType nets r -> r <> STANDART -> r <> AMBIGUOUS -> is_const r.
Proof. intros H ? ?. unfold is_const. destruct r; auto; done. Qed.
Lemma const_not_standart c : is_const c -> c <> STANDART /\ c <> AMBIGUOUS.
Proof. by intros [->|[->|[->| ->]]]. Qed.
Lemma const_step_snoc nets r ty : (forall a, nets a -> is_net_isoType a) -> is_net_isoType ty -> merged_isoType nets r ->
  merged_isoType (fun a => nets a \/ a = ty) (const_step r ty).
Proof.
  intros Hn Hty H. unfold const_step. destruct (bool_decide_reflect (ty = STANDART)) as [->|Hs]; [rewrite orb_true_r|rewrite orb_false_r].
  { destruct (decide (r = AMBIGUOUS)) as [->|Ha]; [destruct H as (a & b & ? & ? & ?); exists a, b; tauto|].
    destruct (decide (r = STANDART)) as [->|Hr]; [intros a [Ha'|Ha']; [by apply H|done]|].
    pose proof (merged_is_const _ _ H Hr Ha) as Hc. apply (merged_const _ _ Hc). apply (merged_const _ _ Hc) in H as [H1 H2].
    split; [by left|]. intros a [Ha'| ->]; [by apply H2|by left]. }
  pose proof (is_const_net ty Hty Hs) as Hct. case_bool_decide as Ha; [subst r; destruct H as (a & b & ? & ? & ?); exists a, b; tauto|].
  destruct (bool_decide_reflect (r = STANDART)) as [->|Hr]; cbn [negb andb].
  { apply (merged_const _ _ Hct). split; [by right|]. intros a [Ha'| ->]; [left; by apply H|by right]. }
  pose proof (merged_is_const _ _ H Hr Ha) as Hc. apply (merged_const _ _ Hc) in H as [H1 H2].
  case_bool_decide as He; cbn [negb].
  - subst r. apply (merged_const _ _ Hct). split; [by left|]. intros a [Ha'| ->]; [by apply H2|by right].
  - exists r, ty. destruct (const_not_standart _ Hc), (const_not_standart _ Hct). tauto.
Qed.
Lemma merged_isoType_ext nets nets' r : (forall a, nets a <-> nets' a) -> merged_isoType nets r -> merged_isoType nets' r.
Proof. intros H. destruct r; cbn; first [done|setoid_rewrite H; done]. Qed.
Definition const_type (l : list IsoType) : IsoType := foldl const_step STANDART l.
Lemma const_type_merged l : Forall is_net_isoType l -> merged_isoType (fun ty => ty ∈ l) (const_type l).
Proof.
  induction l as [|ty l IH] using rev_ind; intros Hl; [intros ty Hty; by apply not_elem_of_nil in Hty|]. apply Forall_app in Hl as [Hl Hty].
  apply (proj1 (Forall_singleton _ _)) in Hty. unfold const_type. rewrite foldl_app. cbn. eapply merged_isoType_ext; [|apply const_step_snoc; [|exact Hty|by apply IH]].
  - intros a. cbn. rewrite elem_of_app, list_elem_of_singleton. done.
  - intros a Ha. by apply (proj1 (Forall_forall _ _) Hl).
Qed.
Lemma net_isoType_ok s0 n : is_net_isoType (net_isoType s0 n).
Proof. unfold net_isoType. by destruct (getType s0 n). Qed.
Lemma net_constant_type s0 n : net_constant s0 n = negb (bool_decide (net_isoType s0 n = STANDART)).
Proof. unfold net_constant, net_isoType. by destruct (getType s0 n). Qed.

(** * What a task collects *)

Definition of_role (r : role) (L : list event) : list nat := omap (fun e => match e with Met r' f => if decide (r' = r) then Some f else None | _ => None end) L.
Definition types_met (s0 : netlist) (L : list event) : list IsoType := omap (fun e => match e with MetNet n => Some (net_isoType s0 n) | _ => None end) L.
Lemma elem_of_role r L f : f ∈ of_role r L <-> Met r f ∈ L.
Proof.
  unfold of_role. rewrite list_elem_of_omap. split; [|intros H; exists (Met r f); split; [done|by rewrite decide_True]].
  intros ([r' g|n] & He & Hr); [|done]. destruct (decide (r' = r)) as [->|]; [|done]. by injection Hr as ->.
Qed.
Lemma NoDup_of_role r L : NoDup (met L) -> NoDup (of_role r L).
Proof.
  induction L as [|[r' f|n] L IH]; cbn; [constructor| |done]. intros [Hf Hnd]%NoDup_cons. destruct (decide (r' = r)); [|by apply IH].
  constructor; [|by apply IH]. intros H. apply elem_of_role in H. apply Hf, elem_of_met. by exists r.
Qed.
Definition const_set (c : IsoType) (db : DNLIsoDB) : gset nat :=
  match c with CONST0 => constant0Isos_ db | CONST1 => constant1Isos_ db | CONSTX => constantXIsos_ db | CONSTZ => constantZIsos_ db | _ => ∅ end.

Lemma const_set_add c ty j r db : is_const c -> j ∈ const_set c (addConstantIso ty r db) <-> j ∈ const_set c db \/ (j = r /\ c = ty).
Proof.
  intros Hc. assert (H : forall (b : bool) (X : gset nat), b = bool_decide (ty = c) -> j ∈ (if b then {[r]} ∪ X else X) <-> j ∈ X \/ (j = r /\ c = ty)).
  { intros b X ->. case_bool_decide as E; [|assert (c <> ty) by congruence; tauto]. rewrite elem_of_union, elem_of_singleton, E. tauto. }
  destruct Hc as [->|[->|[->| ->]]]; by apply H.
Qed.
Lemma const_set_remove c j r db : is_const c -> j ∈ const_set c (alter_iso (setIsoType AMBIGUOUS) r (removeConstantIso r db)) <-> j ∈ const_set c db /\ j <> r.
Proof. intros [->|[->|[->| ->]]]; exact (iff_trans (elem_of_difference _ _ _) (and_iff_compat_l _ (not_iff_compat (elem_of_singleton _ _)))). Qed.

(** Of an iso at [r] that was new in [w0]: [w] has collected the events [L];
    drivers get its identifier too when [upd]. *)
Definition marked_of (upd : bool) (L : list event) : list nat := of_role Reader L ++ of_role Hier L ++ (if upd then of_role Driver L else []).
Record kept (s0 : netlist) (upd : bool) (r : nat) (w0 : isos) (L : list event) (w : isos) : Prop := {
  kp_length : length (termId2isoId_ w) = length (termId2isoId_ w0);
  kp_isos : isos_ (fidb_ w) = <[r:=mkIso (of_role Driver L) (of_role Reader L) (Some r) (const_type (types_met s0 L))]> (isos_ (fidb_ w0));
  kp_ids f : getIsoIdfromTermId w f = if decide (f ∈ marked_of upd L) then Some r else getIsoIdfromTermId w0 f;
  kp_consts c j : is_const c -> j ∈ const_set c (fidb_ w) <-> (j <> r /\ j ∈ const_set c (fidb_ w0)) \/ (j = r /\ const_type (types_met s0 L) = c);
  kp_shadows : shadowIsos_ (fidb_ w) = shadowIsos_ (fidb_ w0) }.
Definition driver_handler (upd : bool) (r : nat) : nat -> prog isos unit := if upd then handleReader r else fun _ => mret tt.

Section kept.
Context (s0 : netlist) (upd : bool) (r : nat) (w0 : isos) (Hr : (r < length (isos_ (fidb_ w0)))%nat).

Lemma alter_insert {A} (f : A -> A) k (l : list A) a : (k < length l)%nat -> alter f k (<[k:=a]> l) = <[k:=f a]> l.
Proof. intros H. apply list_eq. intros j. destruct (decide (k = j)) as [<-|Hne]; [by rewrite list_lookup_alter_eq, !list_lookup_insert_eq by done|]. by rewrite list_lookup_alter_ne, !list_lookup_insert_ne by done. Qed.
Lemma kept_iso L w : kept s0 upd r w0 L w -> isos_ (fidb_ w) !! r = Some (mkIso (of_role Driver L) (of_role Reader L) (Some r) (const_type (types_met s0 L))).
Proof. intros K. rewrite (kp_isos _ _ _ _ _ _ K). by apply list_lookup_insert_eq. Qed.
Lemma set_id_ok f w Q E : (f < length (termId2isoId_ w))%nat -> is_Some (isos_ (fidb_ w) !! r) ->
  (forall iso, isos_ (fidb_ w) !! r = Some iso -> Q tt (mkIsos (<[f:=iso_id iso]> (termId2isoId_ w)) (fidb_ w))) -> wp (handleReader r f) w Q E.
Proof.
  intros Hf [iso Hi] HQ. unfold handleReader. wp_read Hi. unfold setIsoIdforTermId. rewrite wp_bind, wp_gets. rewrite (proj2 (Nat.ltb_lt _ _)) by done. rewrite wp_modify. by apply HQ.
Qed.
Lemma get_insert f g id w : (f < length (termId2isoId_ w))%nat ->
  getIsoIdfromTermId (mkIsos (<[f:=id]> (termId2isoId_ w)) (fidb_ w)) g = if decide (g = f) then id else getIsoIdfromTermId w g.
Proof. intros Hf. unfold getIsoIdfromTermId. cbn. destruct (decide (g = f)) as [->|Hne]; [by rewrite list_lookup_insert_eq|by rewrite list_lookup_insert_ne]. Qed.
Lemma of_role_snoc q L e : of_role q (L ++ [e]) = of_role q L ++ of_role q [e].
Proof. apply omap_app. Qed.
Lemma types_met_snoc L e : types_met s0 (L ++ [e]) = types_met s0 L ++ types_met s0 [e].
Proof. apply omap_app. Qed.

(** Meeting a terminal: [add] puts it among the drivers or the readers of the
    iso; its identifier is set when [sets]. *)
Lemma keep_terminal L w q f (add : DNLIso -> DNLIso) (sets : bool) E :
  kept s0 upd r w0 L w -> (f < length (termId2isoId_ w0))%nat ->
  (forall D R id T, add (mkIso D R id T) = mkIso (D ++ of_role Driver [Met q f]) (R ++ of_role Reader [Met q f]) id T) ->
  (forall g, g ∈ marked_of upd (L ++ [Met q f]) <-> g ∈ marked_of upd L \/ (sets = true /\ g = f)) ->
  wp (if sets then handleReader r f else mret tt) (change_db (alter_iso add r) w) (fun _ w' => kept s0 upd r w0 (L ++ [Met q f]) w') E.
Proof.
  intros K Hf Hadd Hmark. pose proof (kept_iso _ _ K) as Hiso. set (w1 := change_db (alter_iso add r) w).
  assert (E1 : isos_ (fidb_ w1) = <[r:=mkIso (of_role Driver (L ++ [Met q f])) (of_role Reader (L ++ [Met q f])) (Some r) (const_type (types_met s0 (L ++ [Met q f])))]> (isos_ (fidb_ w0))).
  { subst w1. cbn. rewrite (kp_isos _ _ _ _ _ _ K), alter_insert, Hadd by done. rewrite !of_role_snoc, types_met_snoc. cbn. by rewrite app_nil_r. }
  assert (E2 : types_met s0 (L ++ [Met q f]) = types_met s0 L) by (rewrite types_met_snoc; cbn; by rewrite app_nil_r).
  assert (Hres : forall w', isos_ (fidb_ w') = isos_ (fidb_ w1) -> (forall c, const_set c (fidb_ w') = const_set c (fidb_ w)) -> shadowIsos_ (fidb_ w') = shadowIsos_ (fidb_ w) ->
    length (termId2isoId_ w') = length (termId2isoId_ w) -> (forall g, getIsoIdfromTermId w' g = if decide (sets = true /\ g = f) then Some r else getIsoIdfromTermId w g) ->
    kept s0 upd r w0 (L ++ [Met q f]) w').
  { intros w' F1 F2 F3 F4 F5. destruct K as [K1 K2 K3 K4 K5]. split; [congruence|by rewrite F1| | |congruence].
    - intros g. rewrite F5, K3. destruct (decide (g ∈ marked_of upd (L ++ [Met q f]))) as [Hin|Hin].
      + apply Hmark in Hin as [Hin|Hin]; [|by rewrite decide_True]. destruct (decide (sets = true /\ g = f)); [done|by rewrite decide_True].
      + rewrite !decide_False; [done|..]; intros H; apply Hin, Hmark; tauto.
    - intros c j Hc. rewrite F2, E2. by apply K4. }
  destruct sets.
  - apply set_id_ok; [subst w1; cbn; by rewrite (kp_length _ _ _ _ _ _ K)|rewrite E1, list_lookup_insert_eq by done; by eexists|].
    intros iso. rewrite E1, list_lookup_insert_eq by done. intros [= <-]. apply Hres; try done; [cbn; by rewrite length_insert|]. intros g.
    rewrite get_insert by (subst w1; cbn; by rewrite (kp_length _ _ _ _ _ _ K)). cbn [iso_id].
    destruct (decide (g = f)) as [->|Hne]; [by rewrite decide_True|]. by rewrite (decide_False (P := true = true /\ g = f)) by tauto.
  - rewrite wp_ret. apply Hres; try done.
Qed.
Lemma keep_constant L w n E : kept s0 upd r w0 L w ->
  wp (handleConstant s0 r n) w (fun _ w' => kept s0 upd r w0 (L ++ [MetNet n]) w') E.
Proof.
  intros K. pose proof (kept_iso _ _ K) as Hiso. unfold handleConstant. wp_read Hiso. rewrite wp_bind. eapply wp_deref; [done|]. cbn [iso_id isoType_].
  set (cur := const_type (types_met s0 L)). set (ty := net_isoType s0 n).
  assert (Et : const_type (types_met s0 (L ++ [MetNet n])) = const_step cur ty) by (unfold const_type; rewrite types_met_snoc, foldl_app; done).
  assert (Eo : forall q, of_role q (L ++ [MetNet n]) = of_role q L) by (intros q; rewrite of_role_snoc; cbn; by rewrite app_nil_r).
  assert (Em : marked_of upd (L ++ [MetNet n]) = marked_of upd L) by (unfold marked_of; by rewrite !Eo).
  destruct K as [K1 K2 K3 K4 K5]. unfold const_step in Et.
  destruct (bool_decide (cur = AMBIGUOUS) || bool_decide (ty = STANDART)) eqn:Es.
  { rewrite wp_ret. split; rewrite ?Eo, ?Et, ?Em; done. }
  apply orb_false_iff in Es as [Ha%bool_decide_eq_false_1 Hs%bool_decide_eq_false_1]. pose proof (is_const_net ty (net_isoType_ok s0 n) Hs) as Hc.
  destruct (negb (bool_decide (cur = STANDART)) && negb (bool_decide (cur = ty))) eqn:Ed; rewrite wp_modify.
  - split; rewrite ?Eo, ?Et, ?Em; cbn; [done|rewrite K2, alter_insert by done; done|done| |done].
    intros c j Hcc. assert (Hset : j ∈ const_set c (alter_iso (setIsoType AMBIGUOUS) r (removeConstantIso r (fidb_ w))) <-> j ∈ const_set c (fidb_ w) /\ j <> r).
    { exact (const_set_remove c j r (fidb_ w) Hcc). }
    rewrite Hset, (K4 c j Hcc). destruct (const_not_standart c Hcc) as [_ Hca]. split; [intros [[?|[? _]] ?]; [by left|done]|intros [[? ?]|[_ <-]]; [split; [by left|done]|done]].
  - split; rewrite ?Eo, ?Et, ?Em; cbn; [done|rewrite K2, alter_insert by done; done|done| |done].
    intros c j Hcc. assert (Hset : j ∈ const_set c (addConstantIso ty r (fidb_ w)) <-> j ∈ const_set c (fidb_ w) \/ (j = r /\ c = ty)).
    { exact (const_set_add c ty j r (fidb_ w) Hcc). }
    rewrite Hset, (K4 c j Hcc). apply andb_false_iff in Ed. rewrite !negb_false_iff, !bool_decide_eq_true in Ed. destruct (const_not_standart c Hcc).
    destruct (decide (j = r)) as [->|]; [|tauto]. assert (Hcur : cur = c -> ty = c) by (intros <-; destruct Ed; congruence).
    split; [intros [[[? _]|[_ ?]]|[_ ?]]; [done|right..]|intros [[? _]|[_ ?]]; [done|right]]; split; auto.
Qed.
Lemma keeps L w e E : kept s0 upd r w0 L w -> (forall q f, e = Met q f -> (f < length (termId2isoId_ w0))%nat) ->
  wp (take_event s0 (collects s0 r (driver_handler upd r)) e) w (fun _ w' => kept s0 upd r w0 (L ++ [e]) w') E.
Proof.
  intros K Hf. destruct e as [q f|n]; cbn [take_event].
  - specialize (Hf q f eq_refl). destruct q; cbn [meets collects addReader addDriver addHierTerm updateReaderIsoID updateDriverIsoID]; rewrite wp_bind.
    + rewrite wp_modify. apply (keep_terminal L w Reader f (iso_addReader f) true); [done|done| |].
      * intros D R id T. cbn. by rewrite app_nil_r.
      * intros g. unfold marked_of. rewrite !of_role_snoc. cbn. destruct upd; set_solver.
    + rewrite wp_modify. assert (H : wp (if upd then handleReader r f else mret tt) (change_db (alter_iso (iso_addDriver f) r) w) (fun _ w' => kept s0 upd r w0 (L ++ [Met Driver f]) w') E).
      { apply (keep_terminal L w Driver f (iso_addDriver f) upd); [done|done| |].
        - intros D R id T. cbn. by rewrite app_nil_r.
        - intros g. unfold marked_of. rewrite !of_role_snoc. cbn. destruct upd; set_solver. }
      unfold driver_handler. by destruct upd.
    + rewrite wp_ret. replace w with (change_db (alter_iso (fun i => i) r) w).
      2:{ destruct w as [ids db]. unfold change_db. cbn. f_equal. destruct db. unfold alter_iso, set_isos. cbn. f_equal. apply list_eq. intros j.
          destruct (decide (r = j)) as [<-|Hne]; [rewrite list_lookup_alter_eq; by destruct (_ !! r)|by rewrite list_lookup_alter_ne]. }
      apply (keep_terminal L w Hier f (fun i => i) true); [done|done| |].
      * intros D R id T. cbn. by rewrite !app_nil_r.
      * intros g. unfold marked_of. rewrite !of_role_snoc. cbn. destruct upd; set_solver.
  - unfold meets_net. cbn [collects addNet updateConstant]. rewrite wp_bind, wp_ret, net_constant_type.
    destruct (bool_decide_reflect (net_isoType s0 n = STANDART)) as [Hs|Hs]; cbn [negb]; [|by apply keep_constant].
    rewrite wp_ret. assert (Et : const_type (types_met s0 (L ++ [MetNet n])) = const_type (types_met s0 L)).
    { unfold const_type. rewrite types_met_snoc, foldl_app. cbn. rewrite Hs. unfold const_step. by rewrite (bool_decide_true (STANDART = STANDART)), orb_true_r by done. }
    assert (Eo : forall q, of_role q (L ++ [MetNet n]) = of_role q L) by (intros q; rewrite of_role_snoc; cbn; by rewrite app_nil_r).
    assert (Em : marked_of upd (L ++ [MetNet n]) = marked_of upd L) by (unfold marked_of; by rewrite !Eo).
    destruct K as [K1 K2 K3 K4 K5]. split; rewrite ?Eo, ?Et, ?Em; done.
Qed.
End kept.

Section rounds.
Context (s0 : netlist) (W : struct_wf (str s0)) (C : conn_wf s0) (assign : option loc) (top : loc) (P : list (list loc)) (d : flat).
#[local] Notation t := (str s0).
#[local] Notation N := (length (DNLTerms_ d)).
#[local] Notation terminal_at := (terminal_at t top P).
#[local] Notation model_at := (model_at t top).
#[local] Notation on_node := (on_node s0 assign top P).
#[local] Notation connected := (connected s0 assign top P).
#[local] Notation has_role := (has_role s0 top P).
Context (V : flat_view t top P d) (HA : forall A, assign = Some A -> getInstances t A = []) (HN : Z.of_nat N <= 2 ^ 38).
Context (fuel : nat) (Hfuel : (enough_fuel s0 d <= fuel)%nat).

(** * Terminals and their roles *)

Lemma terminal_lt f l x : terminal_at f l x -> (f < terminals t top P)%nat.
Proof. intros H. by destruct (fv_terminal f l x H) as (_ & _ & _ & _ & Hf & _). Qed.
Lemma terminal_lt_N f : (f < terminals t top P)%nat -> (f < N)%nat.
Proof. destruct fv_lengths as [_ ->]. lia. Qed.
Lemma has_role_fun f r r' : has_role f r -> has_role f r' -> r' = r.
Proof. intros (l & x & Hf & <-) (l' & x' & Hf' & <-). by destruct (fv_fun _ _ _ _ _ Hf Hf') as [-> ->]. Qed.
Lemma has_role_total f : (f < terminals t top P)%nat -> exists r, has_role f r.
Proof. intros Hf. destruct (fv_numbered (d := d) f Hf) as (l & x & Hat). by exists (role_of s0 l x), l, x. Qed.
Lemma connected_lt f g : (f < terminals t top P)%nat -> connected f g -> (g < terminals t top P)%nat.
Proof. intros Hf H. destruct (connected_terminal s0 assign top P d V f Hf g H) as (l & x & Hat). by eapply terminal_lt. Qed.
(** The terminals connected to one are a list. *)
Lemma component f : (f < terminals t top P)%nat -> exists comp : list nat, forall g, g ∈ comp <-> connected f g.
Proof.
  intros Hf. set (h := mkCollector (W := unit) (fun _ => mret tt) (fun _ => mret tt) (fun _ => mret tt) (fun _ => mret tt) (fun _ => mret tt) (fun _ => mret tt) (fun _ => mret tt)).
  pose proof (treatDriver_ok s0 W C assign top P d V HA HN h f Hf (fun _ _ => True)) as H.
  assert (Hh : forall L e (w : unit) (E : string -> unit -> Prop), True -> event_true s0 assign top P f e -> (forall r g, e = Met r g -> g ∉ met L) -> wp (take_event s0 h e) w (fun _ _ => True) E).
  { intros L e w E _ _ _. destruct e as [[] g|n]; cbn; [done..|]. unfold meets_net. rewrite wp_bind, wp_ret. by destruct (net_constant s0 n). }
  specialize (H Hh fuel no_marks tt (fun _ _ => False) ltac:(by left) Logic.I Hfuel). unfold wp in H.
  destruct (treatDriver _ _ _ _ _ _ _ _) as [[[]|e|] vw]; [|done..]. destruct H as (L & Hc & _). exists (met L). apply Hc.
Qed.

Lemma connected_decidable f g : (f < terminals t top P)%nat -> connected f g \/ ~ connected f g.
Proof. intros Hf. destruct (component f Hf) as [comp H]. rewrite <- H. destruct (decide (g ∈ comp)); [by left|by right]. Qed.

(** * What an iso holds *)

Definition filled (f : nat) (i : DNLIso) : Prop :=
  NoDup (drivers_ i) /\ (forall g, g ∈ drivers_ i <-> connected f g /\ has_role g Driver) /\
  NoDup (readers_ i) /\ (forall g, g ∈ readers_ i <-> connected f g /\ has_role g Reader) /\
  merged_isoType (fun ty => exists g l n, connected f g /\ on_node g (l, n) /\ net_isoType s0 n = ty) (isoType_ i).
Lemma filled_connected f g i : connected f g -> filled f i -> filled g i.
Proof.
  intros Hc (H1 & H2 & H3 & H4 & H5). assert (H : forall k, connected f k <-> connected g k).
  { intros k. split; intros; [etransitivity; [apply connected_sym; exact Hc|done]|by etransitivity]. }
  split_and!; [done| |done| |].
  - intros k. rewrite H2. by rewrite H.
  - intros k. rewrite H4. by rewrite H.
  - eapply merged_isoType_ext; [|exact H5]. intros ty. by setoid_rewrite H.
Qed.
Definition new_iso (k : nat) : DNLIso := mkIso [] [] (Some k) STANDART.

(** A task at [f] of the iso at [r], which was new in [w0]. *)
Record tasked (upd : bool) (r f : nat) (w0 w : isos) : Prop := {
  tk_length : length (termId2isoId_ w) = length (termId2isoId_ w0);
  tk_isos : exists i, isos_ (fidb_ w) = <[r:=i]> (isos_ (fidb_ w0)) /\ iso_id i = Some r /\ filled f i /\
    forall c j, is_const c -> j ∈ const_set c (fidb_ w) <-> (j <> r /\ j ∈ const_set c (fidb_ w0)) \/ (j = r /\ isoType_ i = c);
  tk_here g : connected f g -> upd = true \/ ~ has_role g Driver -> getIsoIdfromTermId w g = Some r;
  tk_there g : ~ connected f g \/ (upd = false /\ has_role g Driver) -> getIsoIdfromTermId w g = getIsoIdfromTermId w0 g;
  tk_shadows : shadowIsos_ (fidb_ w) = shadowIsos_ (fidb_ w0) }.
Lemma task_ok upd r f v w0 E : (f < terminals t top P)%nat -> isos_ (fidb_ w0) !! r = Some (new_iso r) -> length (termId2isoId_ w0) = N ->
  (forall c, is_const c -> r ∉ const_set c (fidb_ w0)) -> reusable N v ->
  wp (treatDriver assign s0 top d (collects s0 r (driver_handler upd r)) fuel f) (v, w0) (fun _ vw => reusable N vw.1 /\ tasked upd r f w0 vw.2) (fun e vw => E e vw).
Proof.
  intros Hf Hr Hlen Hconst Hv. pose proof (lookup_lt_Some _ _ _ Hr) as Hlt.
  eapply wp_mono; [apply (treatDriver_ok s0 W C assign top P d V HA HN (collects s0 r (driver_handler upd r)) f Hf (kept s0 upd r w0))| |done].
  - intros L e w E' K He _. apply (keeps s0 upd r w0 Hlt L w e E' K). intros q g ->. destruct He as [_ (l & x & Hat & _)]. rewrite Hlen. by eapply terminal_lt_N, terminal_lt.
  - exact Hv.
  - split; try done.
    + cbn. by rewrite list_insert_id.
    + intros g. rewrite decide_False; [done|]. unfold marked_of, of_role. cbn. destruct upd; apply not_elem_of_nil.
    + intros c j Hc. cbn. specialize (Hconst c Hc). destruct (const_not_standart c Hc). split; [intros Hj; left; split; [by intros ->|done]|intros [[_ ?]|[_ ?]]; [done|congruence]].
  - exact Hfuel.
  - cbn beta. intros _ vw (L & [Ct Cn Ca Cnet] & K & Hv'). split; [done|]. pose proof K as [K1 K2 K3 K4 K5].
    assert (Hrole : forall q g, g ∈ of_role q L <-> connected f g /\ has_role g q).
    { intros q g. rewrite elem_of_role. split; [intros He; by apply (Ct _ He)|]. intros [Hc Hq]. apply Ca, elem_of_met in Hc as [q' He].
      destruct (Ct _ He) as [_ Hq']. by rewrite (has_role_fun _ _ _ Hq' Hq). }
    assert (Hmark : forall g, g ∈ marked_of upd L <-> connected f g /\ (upd = true \/ ~ has_role g Driver)).
    { intros g. unfold marked_of. rewrite !elem_of_app, !Hrole. split.
      - intros [[Hc Hq]|[[Hc Hq]|Hd]]; [(split; [done|]; right; intros Hq'; by pose proof (has_role_fun _ _ _ Hq Hq')) ..|].
        destruct upd; [|by apply not_elem_of_nil in Hd]. apply Hrole in Hd as [? _]. split; [done|by left].
      - intros [Hc Hcase]. destruct (has_role_total g (connected_lt _ _ Hf Hc)) as [[] Hq]; [by left| |by right; left]. destruct Hcase as [->|Hn]; [|done].
        right. right. by apply Hrole. }
    split; [exact K1| | | |exact K5].
    + eexists. split; [exact K2|]. split; [done|]. split; [|exact K4]. split_and!; cbn; [by apply NoDup_of_role|apply Hrole|by apply NoDup_of_role|apply Hrole|].
      eapply merged_isoType_ext; [|apply const_type_merged; apply Forall_forall; intros ty Hty; unfold types_met in Hty; apply list_elem_of_omap in Hty as ([q g|n] & _ & [= <-]); apply net_isoType_ok].
      intros ty. cbn. unfold types_met. rewrite list_elem_of_omap. split.
      * intros ([q g|n] & He & [= <-]). apply Cnet in He as (g & l & Hc & Hon). by exists g, l, n.
      * intros (g & l & n & Hc & Hon & <-). exists (MetNet n). split; [|done]. apply Cnet. by exists g, l.
    + intros g Hc Hcase. rewrite K3, decide_True; [done|]. by apply Hmark.
    + intros g Hcase. rewrite K3, decide_False; [done|]. intros [Hc Hu]%Hmark. destruct Hcase as [|[-> ?]]; [done|]. by destruct Hu.
Qed.

(** * Making the tasks *)

(** The terminals from which the isos are made: a driver on the net outside its
    instance, or of the top on the net inside. *)
Definition source (f : nat) : Prop :=
  exists l x it, terminal_at f l x /\ terminal_of t l x it /\ role_of s0 l x = Driver /\ is_Some (net_ s0 !! default x it).
Lemma terminal_of_fun l x it it' : terminal_of t l x it -> terminal_of t l x it' -> it' = it.
Proof.
  unfold terminal_of. destruct (last l) as [i|]; [|congruence]. intros (c & -> & Hc) (c' & -> & Hc'). by rewrite (instTerm_unique W c c' _ Hc Hc').
Qed.
Lemma source_driver f : source f -> has_role f Driver.
Proof. intros (l & x & it & ? & _ & ? & _). by exists l, x. Qed.
Lemma source_lt f : source f -> (f < terminals t top P)%nat.
Proof. intros (l & x & it & ? & _). by eapply terminal_lt. Qed.
Lemma direction_ok x m : x ∈ getBitTerms t m -> exists dir, dnl_getDirection t x = Some dir.
Proof. intros [_ (o & Ho & _)%fmap_Some]%(elem_of_getBitTerms _ _ _ _ W). unfold dnl_getDirection. rewrite Ho. by eexists. Qed.
Lemma is_task_ok (leaf : bool) f l x w Q E : terminal_at f l x -> (if leaf then l <> [] /\ getInstances t (model_at l) = [] else l = []) ->
  (forall b, (b = true <-> source f) -> Q b w) -> wp (is_task s0 d leaf f) w Q E.
Proof.
  intros Hf Hl HQ. destruct (fv_terminal _ _ _ Hf) as (k & it & Hk & Hit & _ & HT). destruct (fv_terminal_path _ _ _ Hf) as [_ Hx].
  destruct (direction_ok x _ Hx) as [dir Hdir]. unfold is_task. wp_read HT.
  assert (Hsrc : source f <-> role_of s0 l x = Driver /\ is_Some (net_ s0 !! default x it)).
  { split; [|intros [? ?]; by exists l, x, it]. intros (l' & x' & it' & Hf' & Hit' & Hr & Hn). destruct (fv_fun _ _ _ _ _ Hf Hf') as [-> ->]. by rewrite <- (terminal_of_fun _ _ _ _ Hit Hit'). }
  assert (Hnet : forall e : loc, is_none (net_ s0 !! e) = false <-> is_Some (net_ s0 !! e)).
  { intros e. destruct (net_ s0 !! e); cbn; split; try done; by intros [? ?]. }
  unfold role_of in Hsrc. unfold terminal_of in Hit. rewrite Hdir in Hsrc. destruct leaf.
  - destruct Hl as [Hl Hleaf]. destruct l as [|i l _] using rev_ind; [done|]. rewrite model_at_snoc in Hleaf. rewrite last_snoc in Hsrc, Hit. destruct Hit as (c & -> & Hc).
    rewrite bool_decide_true in Hsrc by done. wp_read (eq_refl (Some c)). unfold instTerm_getBitTerm. rewrite !wp_bind. eapply wp_deref; [exact Hc|]. rewrite wp_ret. wp_read Hdir. cbn [bitTerm_].
    rewrite wp_ret. apply HQ. rewrite Hsrc, andb_true_iff, !negb_true_iff, Hnet. apply and_iff_compat_r.
    repeat case_bool_decide; split; congruence.
  - subst l. cbn in Hsrc, Hit. subst it. rewrite wp_bind. eapply (wp_deref _ _ _ _ x); [done|]. wp_read Hdir. rewrite wp_ret. apply HQ. rewrite Hsrc, andb_true_iff, !negb_true_iff, Hnet. apply and_iff_compat_r.
    repeat case_bool_decide; split; congruence.
Qed.

Lemma addIsoToDB_ok w Q E : Q (length (isos_ (fidb_ w))) (change_db addIso w) -> wp addIsoToDB w Q E.
Proof. intros HQ. unfold addIsoToDB. by rewrite wp_bind, wp_gets, wp_bind, wp_modify, wp_ret. Qed.
Lemma setIsoId_ok id f w Q E : (f < length (termId2isoId_ w))%nat -> Q tt (mkIsos (<[f:=id]> (termId2isoId_ w)) (fidb_ w)) -> wp (setIsoIdforTermId id f) w Q E.
Proof. intros Hf HQ. unfold setIsoIdforTermId. rewrite wp_bind, wp_gets. by rewrite (proj2 (Nat.ltb_lt _ _)) by done. Qed.
(** A new iso, of terminal [f]. *)
Definition given (f : nat) (w : isos) : isos := mkIsos (<[f:=Some (length (isos_ (fidb_ w)))]> (termId2isoId_ w)) (addIso (fidb_ w)).
Lemma given_ok {A} f (m : nat -> prog isos A) w Q E : (f < length (termId2isoId_ w))%nat -> wp (m (length (isos_ (fidb_ w)))) (given f w) Q E ->
  wp (k ← addIsoToDB; setIsoIdforTermId (Some k) f ;; m k) w Q E.
Proof. intros Hf H. rewrite wp_bind. apply addIsoToDB_ok. rewrite wp_bind. by apply setIsoId_ok. Qed.
Lemma given_isos f w : isos_ (fidb_ (given f w)) = isos_ (fidb_ w) ++ [new_iso (length (isos_ (fidb_ w)))].
Proof. done. Qed.
Lemma given_get f w g : (f < length (termId2isoId_ w))%nat -> getIsoIdfromTermId (given f w) g = if decide (g = f) then Some (length (isos_ (fidb_ w))) else getIsoIdfromTermId w g.
Proof. intros Hf. exact (get_insert f g _ (mkIsos (termId2isoId_ w) (addIso (fidb_ w))) Hf). Qed.
Lemma given_length f w : length (termId2isoId_ (given f w)) = length (termId2isoId_ w).
Proof. apply length_insert. Qed.

Record tasks_added (T : list nat) (w : isos) : Prop := {
  ta_length : length (termId2isoId_ w) = N;
  ta_isos : isos_ (fidb_ w) = new_iso <$> seq 0 (length T);
  ta_ids f k : getIsoIdfromTermId w f = Some k <-> T !! k = Some f;
  ta_nodup : NoDup T;
  ta_consts c j : is_const c -> j ∉ const_set c (fidb_ w);
  ta_shadows : shadowIsos_ (fidb_ w) = [] }.
Lemma given_task T w f : tasks_added T w -> f ∉ T -> (f < N)%nat -> tasks_added (T ++ [f]) (given f w).
Proof.
  intros [Tl Ti Tid Tn Tc Ts] Hf Hlt. assert (Hn : length (isos_ (fidb_ w)) = length T) by (rewrite Ti; by rewrite length_fmap, length_seq).
  split; [by rewrite given_length| | | |done|done].
  - rewrite given_isos, Hn, Ti, length_app, seq_app, fmap_app. done.
  - intros g k. rewrite given_get by lia. rewrite Hn. destruct (decide (g = f)) as [->|Hne].
    + split; [intros [= <-]; by rewrite list_lookup_middle|]. rewrite lookup_snoc_Some. intros [[? Hk]|[<- _]]; [|done]. by apply list_elem_of_lookup_2 in Hk.
    + rewrite Tid, lookup_snoc_Some. split; [intros Hk; left; split; [by eapply lookup_lt_Some|done]|]. intros [[_ ?]|[_ ?]]; [done|congruence].
  - apply NoDup_app. split; [done|]. split; [by intros g Hg ->%list_elem_of_singleton|apply NoDup_singleton].
Qed.
Lemma add_tasks_ok (leaf : bool) l T w E : tasks_added T w -> NoDup l -> (forall f, f ∈ l -> f ∉ T) ->
  (forall f, f ∈ l -> exists lf x, terminal_at f lf x /\ if leaf then lf <> [] /\ getInstances t (model_at lf) = [] else lf = []) ->
  wp (add_tasks s0 d leaf l T) w (fun T' w' => tasks_added T' w' /\ forall f, f ∈ T' <-> f ∈ T \/ (f ∈ l /\ source f)) E.
Proof.
  revert T w. induction l as [|f l IH]; intros T w HT Hnd Hnew Hat; cbn [add_tasks].
  { rewrite wp_ret. split; [done|]. set_solver. }
  apply NoDup_cons in Hnd as [Hfl Hnd]. destruct (Hat f ltac:(left)) as (lf & x & Hf & Hlf). rewrite wp_bind. eapply is_task_ok; [exact Hf|done|]. intros b Hb.
  destruct b.
  - apply given_ok; [rewrite (ta_length _ _ HT); by eapply terminal_lt_N, terminal_lt|]. eapply wp_mono; [apply IH| |done].
    + apply given_task; [done|apply Hnew; left|by eapply terminal_lt_N, terminal_lt].
    + done.
    + intros g Hg [Hg'| ->%list_elem_of_singleton]%elem_of_app; [|done]. by apply (Hnew g); [right|].
    + intros g Hg. apply Hat. by right.
    + cbn beta. intros T' w' [HT' Hin]. split; [done|]. intros g. rewrite Hin, elem_of_app, list_elem_of_singleton, elem_of_cons. assert (Hs : source f) by by apply Hb.
      split; [intros [[H|H]|[H1 H2]]|intros [H|[[H|H1] H2]]]; subst; tauto.
  - eapply wp_mono; [apply IH| |done]; [done|done|intros g Hg; apply Hnew; by right|intros g Hg; apply Hat; by right|].
    cbn beta. intros T' w' [HT' Hin]. split; [done|]. intros g. rewrite Hin, elem_of_cons. assert (Hs : ~ source f) by (intros H; by apply Hb in H).
    split; [tauto|]. intros [H|[[H|H1] H2]]; subst; tauto.
Qed.

(** The leaves, and the terminals in the range of an instance. *)
Definition leaf_path (l : list loc) : Prop := l <> [] /\ getInstances t (model_at l) = [].
Lemma leaf_ids_ok Q : exists ks : list nat, leaf_ids t top Q = Some <$> ks /\ NoDup ks /\ forall k, k ∈ ks <-> exists l, Q !! k = Some l /\ leaf_path l.
Proof.
  clear Hfuel HN. induction Q as [|l Q (ks & E & Hnd & Hks)] using rev_ind.
  { exists []. split_and!; [done|constructor|]. intros k. split; [by intros ?%not_elem_of_nil|by intros (l & ? & _)]. }
  unfold leaf_ids. rewrite collect_snoc. fold (leaf_ids t top Q). rewrite E.
  assert (Hin : forall k, (exists l', (Q ++ [l]) !! k = Some l' /\ leaf_path l') <-> k ∈ ks \/ (k = length Q /\ leaf_path l)).
  { intros k. setoid_rewrite lookup_snoc_Some. rewrite Hks. split.
    - intros (l' & [[? ?]|[-> ->]] & ?); [left; by exists l'|by right].
    - intros [(l' & Hl & ?)|[-> ?]]; [exists l'; split; [left; split; [by eapply lookup_lt_Some|done]|done]|exists l; split; [by right|done]]. }
  case_bool_decide as Hl.
  - exists (ks ++ [length Q]). rewrite fmap_app. split; [done|]. split.
    + apply NoDup_app. split; [done|]. split; [|apply NoDup_singleton]. intros k Hk ->%list_elem_of_singleton. apply Hks in Hk as (l' & Hk & _). apply lookup_lt_Some in Hk. lia.
    + intros k. rewrite Hin, elem_of_app, list_elem_of_singleton. unfold leaf_path. tauto.
  - exists ks. rewrite app_nil_r. split; [done|]. split; [done|]. intros k. rewrite Hin. unfold leaf_path. tauto.
Qed.
Lemma terms_range k l inst f : P !! k = Some l -> instance_at t top P k l inst -> f ∈ id_range (dnl_terms inst) <-> exists x, terminal_at f l x.
Proof.
  intros Hk (_ & _ & -> & _). unfold term_block, block. assert (Hp : path_from t top l) by (apply fv_path; by exists k).
  set (first := length (flat_terms t top (take k P))). rewrite (length_terms_of t W top) by done.
  assert (Hat : (exists x, terminal_at f l x) <-> exists (j : nat) x, getBitTerms t (model_at l) !! j = Some x /\ f = (first + j)%nat).
  { split; [|intros (j & x & ? & ->); by exists x, k, j]. intros (x & k' & j & Hk' & Hx & ->). exists j, x. split; [done|]. by rewrite (NoDup_lookup _ _ _ _ fv_nodup Hk' Hk). }
  rewrite Hat. clear Hat. destruct (decide _) as [E|E]; cbn.
  - split; [by intros ?%not_elem_of_nil|]. intros (j & x & Hj & _). apply lookup_lt_Some in Hj. lia.
  - rewrite elem_of_seq. split.
    + intros Hf. destruct (lookup_lt_is_Some_2 (getBitTerms t (model_at l)) (f - first)) as [x Hx]; [lia|]. exists (f - first)%nat, x. split; [done|lia].
    + intros (j & x & Hj & ->). apply lookup_lt_Some in Hj. lia.
Qed.
Lemma NoDup_id_range r : NoDup (id_range r).
Proof. destruct r as [[a|] [b|]]; cbn; try constructor. apply NoDup_seq. Qed.
Lemma add_leaf_tasks_ok ks T w E : tasks_added T w -> NoDup ks -> (forall k, k ∈ ks -> exists l, P !! k = Some l /\ leaf_path l) ->
  (forall f k l x, f ∈ T -> k ∈ ks -> P !! k = Some l -> ~ terminal_at f l x) ->
  wp (add_leaf_tasks s0 d (Some <$> ks) T) w (fun T' w' => tasks_added T' w' /\
    forall f, f ∈ T' <-> f ∈ T \/ (source f /\ exists k l x, k ∈ ks /\ P !! k = Some l /\ terminal_at f l x)) E.
Proof.
  revert T w. induction ks as [|k ks IH]; intros T w HT Hnd Hks Hnew; cbn [fmap list_fmap add_leaf_tasks].
  { rewrite wp_ret. split; [done|]. intros f. split; [by left|]. intros [?|(_ & k & l & x & ?%not_elem_of_nil & _)]; done. }
  apply NoDup_cons in Hnd as [Hk Hnd]. destruct (Hks k ltac:(left)) as (l & Hl & Hleaf). destruct (fv_instance k l Hl) as (inst & Hi & Hat & _). wp_read Hi.
  rewrite wp_bind. eapply wp_mono; [apply (add_tasks_ok true _ T w); [done|apply NoDup_id_range| |]| |done].
  - intros f [x Hf]%(terms_range k l inst f Hl Hat) HfT. by apply (Hnew f k l x HfT ltac:(left) Hl).
  - intros f [x Hf]%(terms_range k l inst f Hl Hat). by exists l, x.
  - cbn beta. intros T1 w1 [HT1 Hin1]. assert (Hin1' : forall f, f ∈ T1 <-> f ∈ T \/ ((exists x, terminal_at f l x) /\ source f)).
    { intros f. rewrite Hin1. by rewrite (terms_range k l inst f Hl Hat). }
    eapply wp_mono; [apply IH| |done]; [done|done|intros k' ?; apply Hks; by right| |].
    + intros f k' l' x' Hf Hk' Hl' Hf'. apply Hin1' in Hf as [Hf|[[x Hf] _]]; [by apply (Hnew f k' l' x' Hf ltac:(by right) Hl')|].
      destruct (fv_fun _ _ _ _ _ Hf Hf') as [-> _]. by rewrite (NoDup_lookup _ _ _ _ fv_nodup Hl' Hl) in Hk'.
    + cbn beta. intros T' w' [HT' Hin']. split; [done|]. intros f. rewrite Hin', Hin1'. split.
      * intros [[H|[[x H] Hs]]|(Hs & k' & l' & x & H1 & H2 & H3)]; [by left|right; split; [done|]; exists k, l, x; split; [left|done]|].
        right. split; [done|]. exists k', l', x. split; [by right|done].
      * intros [H|(Hs & k' & l' & x & [->|H1]%elem_of_cons & H2 & H3)]; [by left; left| |right; split; [done|]; by exists k', l', x].
        left. right. split; [|done]. exists x. congruence.
Qed.
Definition first_tasks : prog isos (list nat) :=
  tasks ← add_leaf_tasks s0 d (leaves_ d) []; inst ← deref (fun _ => DNLInstances_ d !! 0%nat); add_tasks s0 d false (id_range (dnl_terms inst)) tasks.
Definition no_isos_of (n : nat) : isos := mkIsos (replicate n None) no_isos.
Lemma first_tasks_ok E : wp first_tasks (no_isos_of N) (fun T w => tasks_added T w /\ forall f, f ∈ T <-> source f) E.
Proof.
  destruct (leaf_ids_ok P) as (ks & Eks & Hnd & Hks). unfold first_tasks. rewrite fv_leaves, Eks, wp_bind. eapply wp_mono; [apply (add_leaf_tasks_ok ks [])| |done].
  - split; cbn; try done; [by rewrite length_replicate| |constructor|].
    + intros f k. split; [|done]. unfold getIsoIdfromTermId. cbn. destruct (_ !! f) as [o|] eqn:Eo; [|done]. by apply lookup_replicate in Eo as [-> _].
    + intros c j [->|[->|[->| ->]]]; cbn; apply not_elem_of_empty.
  - done.
  - intros k Hk. by apply Hks.
  - by intros f k l x ?%not_elem_of_nil.
  - cbn beta. intros T w [HT Hin]. destruct (fv_instance 0 [] fv_zero) as (inst & Hi & Hat & _). wp_read Hi.
    pose proof (fun f => terms_range 0 [] inst f fv_zero Hat) as Hr. eapply wp_mono; [apply (add_tasks_ok false _ T w); [done|apply NoDup_id_range| |]| |done].
    + intros f [x Hf]%Hr HfT. apply Hin in HfT as [?%not_elem_of_nil|(_ & k & l & y & Hk & Hl & Hy)]; [done|].
      apply Hks in Hk as (l' & Hl' & Hne & _). destruct (fv_fun _ _ _ _ _ Hf Hy) as [-> _]. congruence.
    + intros f [x Hf]%Hr. by exists [], x.
    + cbn beta. intros T' w' [HT' Hin']. split; [done|]. intros f. rewrite Hin', Hin, Hr. split; [intros [[?%not_elem_of_nil|[? _]]|[_ ?]]; done|].
      intros Hs. pose proof Hs as (l & x & it & Hf & _ & Hrole & _). destruct (decide (l = [])) as [->|Hne]; [right; split; [by exists x|done]|].
      left. right. split; [done|]. destruct (fv_terminal _ _ _ Hf) as (k & _ & Hk & _). exists k, l, x. split; [|done]. apply Hks. exists l. split; [done|]. split; [done|].
      destruct l as [|i l _] using rev_ind; [done|]. rewrite model_at_snoc. unfold role_of in Hrole. rewrite last_snoc in Hrole. by case_bool_decide.
Qed.

(** * Rounds *)

Lemma on_isos_ok {A} (m : prog isos A) v w Q E : wp m w (fun a w' => Q a (v, w')) (fun e w' => E e (v, w')) -> wp (on_isos m) (v, w) Q E.
Proof. unfold wp, on_isos. by destruct (m w) as [[a|e|] w']. Qed.

(** The isos from [base] on are new and those of the drivers [T]; these are not
    connected in a round that gives drivers the iso's identifier. *)
Record ready (upd : bool) (base : nat) (T : list nat) (w : isos) : Prop := {
  rd_length : length (termId2isoId_ w) = N;
  rd_size : length (isos_ (fidb_ w)) = (base + length T)%nat;
  rd_nodup : NoDup T;
  rd_source f : f ∈ T -> source f;
  rd_apart f g : upd = true -> f ∈ T -> g ∈ T -> connected f g -> f = g;
  rd_iso j f : T !! j = Some f -> isos_ (fidb_ w) !! (base + j)%nat = Some (new_iso (base + j)) /\ getIsoIdfromTermId w f = Some (base + j)%nat;
  rd_consts c k : is_const c -> (base <= k)%nat -> k ∉ const_set c (fidb_ w) }.
(** After the tasks of [dn]. *)
Record round_done (upd : bool) (base : nat) (T dn : list nat) (w0 w : isos) : Prop := {
  ro_length : length (termId2isoId_ w) = N;
  ro_size : length (isos_ (fidb_ w)) = length (isos_ (fidb_ w0));
  ro_below (k : nat) : (k < base)%nat -> isos_ (fidb_ w) !! k = isos_ (fidb_ w0) !! k;
  ro_new j f : T !! j = Some f -> f ∉ dn -> isos_ (fidb_ w) !! (base + j)%nat = Some (new_iso (base + j));
  ro_task j f : T !! j = Some f -> getIsoIdfromTermId w f = Some (base + j)%nat;
  ro_filled j f : T !! j = Some f -> f ∈ dn -> exists i, isos_ (fidb_ w) !! (base + j)%nat = Some i /\ iso_id i = Some (base + j)%nat /\ filled f i;
  ro_here f g : f ∈ dn -> connected f g -> upd = true \/ ~ has_role g Driver ->
    exists j f', T !! j = Some f' /\ connected f' g /\ getIsoIdfromTermId w g = Some (base + j)%nat;
  ro_there g : (forall f, f ∈ dn -> ~ connected f g) \/ (upd = false /\ has_role g Driver) -> getIsoIdfromTermId w g = getIsoIdfromTermId w0 g;
  ro_consts c (k : nat) : is_const c -> (base <= k)%nat -> k ∈ const_set c (fidb_ w) <-> exists i, isos_ (fidb_ w) !! k = Some i /\ isoType_ i = c;
  ro_old c (k : nat) : is_const c -> (k < base)%nat -> k ∈ const_set c (fidb_ w) <-> k ∈ const_set c (fidb_ w0);
  ro_shadows : shadowIsos_ (fidb_ w) = shadowIsos_ (fidb_ w0) }.
Lemma round_start upd base T w : ready upd base T w -> round_done upd base T [] w w.
Proof.
  intros [Rl Rs Rn Rf Ra Ri Rc]. split; try done.
  - intros j f Hj _. by apply (Ri j f).
  - intros j f Hj. by apply (Ri j f).
  - by intros j f _ ?%not_elem_of_nil.
  - by intros f g ?%not_elem_of_nil.
  - intros c k Hc Hk. split; [intros H; by apply Rc in H|]. intros (i & Hi & Ht). destruct (const_not_standart c Hc) as [Hs _].
    destruct (lookup_lt_is_Some_2 T (k - base)) as [f Hf]; [apply lookup_lt_Some in Hi; lia|]. destruct (Ri _ _ Hf) as [Hi' _].
    replace (base + (k - base))%nat with k in Hi' by lia. rewrite Hi in Hi'. injection Hi' as ->. by symmetry in Ht.
Qed.
Lemma round_step upd base T dn w0 w w' j f : ready upd base T w0 -> round_done upd base T dn w0 w -> T !! j = Some f -> f ∉ dn ->
  tasked upd (base + j) f w w' -> round_done upd base T (dn ++ [f]) w0 w'.
Proof.
  intros [Rl Rs Rn Rf Ra Ri Rc] [Ol Os Ob On Ot Of Oh Oth Oc Oo Osh] Hj Hf [Kl (i & Ki & Kid & Kf & Kc) Kh Kt Ks].
  assert (Hlt : (base + j < length (isos_ (fidb_ w)))%nat) by (apply lookup_lt_Some in Hj; lia).
  assert (HfT : f ∈ T) by by eapply list_elem_of_lookup_2.
  assert (Hother : forall j' f', T !! j' = Some f' -> j' <> j -> isos_ (fidb_ w') !! (base + j')%nat = isos_ (fidb_ w) !! (base + j')%nat).
  { intros j' f' Hj' Hne. rewrite Ki. apply list_lookup_insert_ne. lia. }
  assert (Hsame : forall j' f', T !! j' = Some f' -> f' = f -> j' = j) by (intros j' f' Hj' ->; by apply (NoDup_lookup _ _ _ _ Rn Hj' Hj)).
  split.
  - by rewrite Kl.
  - by rewrite Ki, length_insert.
  - intros k Hk. rewrite Ki, list_lookup_insert_ne by lia. by apply Ob.
  - intros j' f' Hj' Hf'. rewrite (Hother j' f') by (try done; intros ->; apply Hf'; rewrite Hj in Hj'; set_solver). apply (On j' f'); set_solver.
  - intros j' f' Hj'. destruct upd.
    + destruct (decide (f' = f)) as [->|Hne]; [rewrite (Hsame _ _ Hj' eq_refl); apply Kh; [reflexivity|by left]|]. rewrite Kt; [by apply Ot|].
      left. intros Hc. by destruct (Ra f f' eq_refl HfT (list_elem_of_lookup_2 _ _ _ Hj') Hc).
    + rewrite Kt; [by apply Ot|]. right. split; [done|]. apply source_driver, Rf. by eapply list_elem_of_lookup_2.
  - intros j' f' Hj' [Hdn| ->%list_elem_of_singleton]%elem_of_app.
    + rewrite (Hother j' f' Hj') by (intros ->; congruence). by apply Of.
    + rewrite (Hsame _ _ Hj' eq_refl). exists i. rewrite Ki, list_lookup_insert_eq by done. done.
  - intros f' g Hf' Hc Hu. destruct (connected_decidable f g (source_lt f (Rf f HfT))) as [Hfg|Hfg].
    + exists j, f. split; [done|]. split; [done|]. by apply Kh.
    + rewrite Kt by by left. apply (Oh f'); [|done|done]. apply elem_of_app in Hf' as [?| ->%list_elem_of_singleton]; done.
  - intros g Hg. rewrite Kt; [apply Oth; destruct Hg as [Hg|]; [left; set_solver|by right]|]. destruct Hg as [Hg|]; [left; apply Hg; set_solver|by right].
  - intros c k Hc Hk. rewrite (Kc c k Hc), Ki, (Oc c k Hc Hk). destruct (decide (k = base + j)%nat) as [->|Hne].
    + rewrite list_lookup_insert_eq by done. split; [intros [[? _]|[_ ?]]; [done|by exists i]|intros (i' & [= <-] & ?); by right].
    + rewrite list_lookup_insert_ne by done. split; [intros [[_ ?]|[? _]]; done|intros ?; by left].
  - intros c k Hc Hk. rewrite (Kc c k Hc), <- (Oo c k Hc Hk). split; [intros [[_ ?]|[? _]]; [done|lia]|intros ?; left; split; [lia|done]].
  - by rewrite Ks.
Qed.
Lemma round_ok upd base T l v w E : ready upd base T w -> l ≡ₚ T -> reusable N v ->
  wp (for_each (treat_task assign s0 top d fuel (driver_handler upd)) l) (v, w) (fun _ vw => reusable N vw.1 /\ round_done upd base T l w vw.2) E.
Proof.
  intros R Hl Hv. apply (wp_for_each _ (fun dn vw => reusable N vw.1 /\ round_done upd base T dn w vw.2)).
  { split; [done|by apply round_start]. }
  intros dn f rest [v' w'] El [Hv' O]. assert (Hnd : NoDup l) by (rewrite Hl; by apply (rd_nodup _ _ _ _ R)).
  assert (Hdn : f ∉ dn) by (rewrite El in Hnd; apply NoDup_app in Hnd as (_ & Hd & _); intros H; apply (Hd f H); left).
  assert (HfT : f ∈ T) by (rewrite <- Hl, El; set_solver). pose proof HfT as [j Hj]%list_elem_of_lookup. pose proof (ro_task _ _ _ _ _ _ O j f Hj) as Hid.
  unfold treat_task. rewrite wp_bind. apply on_isos_ok. eapply wp_deref; [exact Hid|].
  eapply wp_mono; [apply (task_ok upd (base + j) f v' w')| |done].
  - by apply source_lt, (rd_source _ _ _ _ R).
  - by apply (ro_new _ _ _ _ _ _ O j f).
  - apply O.
  - intros c Hc. rewrite (ro_consts _ _ _ _ _ _ O c _ Hc) by lia. rewrite (ro_new _ _ _ _ _ _ O j f Hj Hdn). intros (i & [= <-] & Ht).
    by destruct (const_not_standart c Hc) as [Hs _].
  - exact Hv'.
  - cbn beta. intros _ vw [Hv2 K]. split; [done|]. by eapply round_step.
Qed.

(** * After the first round *)

(** No net joins the terminals of a leaf inside it, unless it is an assign. *)
Context (HL : forall l i x, path_from t top (l ++ [i]) -> getInstances t (modelOf t i) = [] -> assign <> Some (modelOf t i) ->
  x ∈ getBitTerms t (modelOf t i) -> net_ s0 !! x = None).

Lemma driver_on_node f a : on_node f a -> has_role f Driver -> source f.
Proof.
  intros (l & x & Hf & Hon) (l' & x' & Hf' & Hr). destruct (fv_fun _ _ _ _ _ Hf Hf') as [-> ->]. destruct (fv_terminal _ _ _ Hf) as (k & it & Hk & Hit & _).
  destruct (fv_terminal_path _ _ _ Hf) as [Hp Hx]. exists l, x, it. split_and!; try done. destruct Hon as [(_ & Hn & Ha)|(i & c & -> & Hc & Hn)].
  - unfold terminal_of in Hit. unfold role_of in Hr. destruct l as [|i l _] using rev_ind; [cbn in Hit; subst it; by eexists|]. rewrite last_snoc in Hr. rewrite model_at_snoc in Hx, Ha.
    case_bool_decide as Hleaf; [|done]. by rewrite (HL l i x Hp Hleaf Ha Hx) in Hn.
  - unfold terminal_of in Hit. rewrite last_snoc in Hit. destruct Hit as (c' & -> & Hc'). rewrite <- (instTerm_unique W c c' _ Hc Hc'). by eexists.
Qed.
Lemma connected_source f g : source f -> connected f g -> has_role g Driver -> source g.
Proof. intros Hf Hc Hg. apply rtc_inv_r in Hc as [->|(h & _ & (a & _ & Ha))]; [done|]. by eapply driver_on_node. Qed.
Lemma connected_join f g h : connected f h -> connected g h -> connected f g.
Proof. intros ? ?. etransitivity; [done|]. by apply connected_sym. Qed.
Lemma connected_iff f g h : connected f g -> connected f h <-> connected g h.
Proof. intros Hc. split; intros H; [by etransitivity; [apply connected_sym|]|by etransitivity]. Qed.
Lemma any_connected (T : list nat) g : (forall f, f ∈ T -> source f) -> (exists f, f ∈ T /\ connected f g) \/ forall f, f ∈ T -> ~ connected f g.
Proof.
  induction T as [|f T IH]; intros HT; [right; by intros f ?%not_elem_of_nil|]. destruct (connected_decidable f g) as [Hc|Hc]; [apply source_lt, HT; left|left; exists f; split; [left|done]|].
  destruct IH as [(f' & ? & ?)|Hn]; [intros f' ?; apply HT; by right|left; exists f'; split; [by right|done]|]. right. by intros f' [->|?]%elem_of_cons; [|apply Hn].
Qed.
Lemma filled_same f g i j : connected f g -> filled f i -> filled g j -> drivers_ i ≡ₚ drivers_ j.
Proof.
  intros Hc (Hn & Hi & _) (Hn' & Hj & _). apply NoDup_Permutation; [done..|]. intros h. rewrite Hi, Hj. apply and_iff_compat_r.
  by apply connected_iff.
Qed.
(** What the first round leaves. *)
Record once (T : list nat) (w : isos) : Prop := {
  on_length : length (termId2isoId_ w) = N;
  on_size : length (isos_ (fidb_ w)) = length T;
  on_nodup : NoDup T;
  on_tasks f : f ∈ T <-> source f;
  on_iso k f : T !! k = Some f -> exists i, isos_ (fidb_ w) !! k = Some i /\ iso_id i = Some k /\ filled f i;
  on_id g k : getIsoIdfromTermId w g = Some k -> exists f, T !! k = Some f /\ connected f g;
  on_some f g : source f -> connected f g -> is_Some (getIsoIdfromTermId w g);
  on_consts c k : is_const c -> k ∈ const_set c (fidb_ w) <-> exists i, isos_ (fidb_ w) !! k = Some i /\ isoType_ i = c;
  on_shadows : shadowIsos_ (fidb_ w) = [] }.
Lemma tasks_ready T w : tasks_added T w -> (forall f, f ∈ T <-> source f) -> ready false 0 T w.
Proof.
  intros [Tl Ti Tid Tn Tc Ts] HT. split; try done.
  - by rewrite Ti, length_fmap, length_seq.
  - intros f. by rewrite HT.
  - intros j f Hj. split; [|by apply Tid]. rewrite Ti, list_lookup_fmap, lookup_seq_lt by (by eapply lookup_lt_Some). done.
  - intros c k Hc _. by apply Tc.
Qed.
Lemma first_round_once T l w0 w : tasks_added T w0 -> (forall f, f ∈ T <-> source f) -> l ≡ₚ T -> round_done false 0 T l w0 w -> once T w.
Proof.
  intros [Tl Ti Tid Tn Tc Ts] HT Hl [Ol Os Ob On Ot Of Oh Oth Oc Oo Osh].
  assert (Hold : forall g k, (has_role g Driver \/ forall f, f ∈ l -> ~ connected f g) -> getIsoIdfromTermId w g = Some k -> exists f, T !! k = Some f /\ connected f g).
  { intros g k Hg Hid. rewrite Oth in Hid by (destruct Hg; [by right|by left]). exists g. split; [by apply Tid|reflexivity]. }
  split; [done|by rewrite Os, Ti, length_fmap, length_seq|done|done| | | |intros c k Hc; apply (Oc c k Hc); lia|by rewrite Osh].
  - intros k f Hk. apply (Of k f Hk). rewrite Hl. by eapply list_elem_of_lookup_2.
  - intros g k Hid. destruct (any_connected l g) as [(f & Hf & Hc)|Hn]; [intros f; by rewrite Hl, HT| |by apply Hold; [right|]].
    destruct (has_role_total g (connected_lt _ _ (source_lt f (proj1 (HT f) ltac:(by rewrite <- Hl))) Hc)) as [r Hr].
    destruct (decide (r = Driver)) as [->|Hnr]; [by apply Hold; [left|]|]. destruct (Oh f g Hf Hc) as (j & f' & Hj & Hc' & Hid').
    { right. intros Hd. by pose proof (has_role_fun _ _ _ Hr Hd). }
    rewrite Hid in Hid'. injection Hid' as ->. by exists f'.
  - intros f g Hf Hc. destruct (has_role_total g (connected_lt _ _ (source_lt f Hf) Hc)) as [r Hr]. destruct (decide (r = Driver)) as [->|Hnr].
    + pose proof (connected_source f g Hf Hc Hr) as Hg. apply HT, list_elem_of_lookup in Hg as [j Hj]. rewrite (Ot j g Hj). by eexists.
    + destruct (Oh f g) as (j & f' & _ & _ & ->); [by rewrite Hl, HT|done| |by eexists]. right. intros Hd. by pose proof (has_role_fun _ _ _ Hr Hd).
Qed.

(** * Isos with several drivers *)

Definition several (w : isos) (k : nat) : Prop := exists i, isos_ (fidb_ w) !! k = Some i /\ (1 < length (drivers_ i))%nat.
Lemma isos_with_drivers_ok w : Z.of_nat (length (isos_ (fidb_ w))) < 2 ^ 64 ->
  NoDup (isos_with_drivers (fidb_ w)) /\ forall k, k ∈ isos_with_drivers (fidb_ w) <-> several w k.
Proof.
  intros Hlt. unfold isos_with_drivers, getNumIsos. rewrite Z.add_mod_idemp_l by done. replace (Z.of_nat (length (isos_ (fidb_ w))) - 1 + 1) with (Z.of_nat (length (isos_ (fidb_ w)))) by lia.
  rewrite Z.mod_small, Nat2Z.id by lia. split; [apply NoDup_filter, NoDup_seq|]. intros k. rewrite list_elem_of_filter, elem_of_seq. unfold several. split.
  - intros [Hd _]. destruct (isos_ (fidb_ w) !! k) as [i|]; [|cbn in Hd; lia]. by exists i.
  - intros (i & Hi & Hd). rewrite Hi. split; [done|]. apply lookup_lt_Some in Hi. lia.
Qed.
Lemma first_of_ok l f : first_of l = Some f -> f ∈ l /\ forall g, g ∈ l -> (f <= g)%nat.
Proof.
  destruct l as [|a l]; [done|]. cbn. intros [= <-]. induction l as [|b l [IH1 IH2]]; cbn; [split; [left|intros g ->%list_elem_of_singleton; lia]|]. split.
  - destruct (Nat.min_spec b (foldr Nat.min a l)) as [[_ ->]|[_ ->]]; [right; left|]. apply elem_of_cons in IH1 as [->|?]; [left|right; by right].
  - intros g [->|[->|Hg]%elem_of_cons]%elem_of_cons; [|lia|]; [specialize (IH2 a ltac:(left))|specialize (IH2 g ltac:(by right))]; lia.
Qed.
Definition shadow_of (i : DNLIso) : DNLIso := setIsoType SHADOW (iso_clear i).
Lemma shadow_isos_ok l X w E : NoDup l -> (forall k, k ∈ l -> several w k) ->
  wp (shadow_isos l X) w (fun X' w' => (forall f, f ∈ X' <-> f ∈ X \/ exists k i, k ∈ l /\ isos_ (fidb_ w) !! k = Some i /\ first_of (drivers_ i) = Some f) /\
    termId2isoId_ w' = termId2isoId_ w /\ length (isos_ (fidb_ w')) = length (isos_ (fidb_ w)) /\
    (forall k : nat, isos_ (fidb_ w') !! k = if decide (k ∈ l) then shadow_of <$> isos_ (fidb_ w) !! k else isos_ (fidb_ w) !! k) /\
    (forall c, const_set c (fidb_ w') = const_set c (fidb_ w)) /\ shadowIsos_ (fidb_ w') = shadowIsos_ (fidb_ w) ++ l) E.
Proof.
  revert X w. induction l as [|k l IH]; intros X w Hnd Hl; cbn [shadow_isos].
  { rewrite wp_ret. split_and!; try done; [|by rewrite app_nil_r]. intros f. split; [by left|]. intros [?|(k & i & ?%not_elem_of_nil & _)]; done. }
  apply NoDup_cons in Hnd as [Hk Hnd]. destruct (Hl k ltac:(left)) as (i & Hi & Hd). wp_read Hi.
  destruct (first_of (drivers_ i)) as [f|] eqn:Ef; [|destruct (drivers_ i); [cbn in Hd; lia|done]]. rewrite wp_bind. eapply wp_deref; [done|]. rewrite wp_bind, wp_modify.
  set (w1 := change_db (makeShadow k) w). assert (E1 : forall j : nat, isos_ (fidb_ w1) !! j = if decide (j = k) then shadow_of <$> isos_ (fidb_ w) !! j else isos_ (fidb_ w) !! j).
  { intros j. subst w1. cbn. destruct (decide (j = k)) as [->|Hne]; [by rewrite list_lookup_alter_eq|by rewrite list_lookup_alter_ne]. }
  eapply wp_mono; [apply (IH _ w1 Hnd)| |done].
  - intros j Hj. destruct (Hl j ltac:(by right)) as (i' & Hi' & Hd'). exists i'. rewrite E1, decide_False by (by intros ->). done.
  - cbn beta. intros X' w' (HX & Hids & Hlen & His & Hc & Hs). split_and!.
    + intros g. rewrite HX, elem_of_union, elem_of_singleton. split.
      * intros [[->|?]|(j & i' & Hj & Hi' & Hf)]; [right; exists k, i; split; [left|done]|by left|]. rewrite E1, decide_False in Hi' by (by intros ->).
        right. exists j, i'. split; [by right|done].
      * intros [?|(j & i' & [->|Hj]%elem_of_cons & Hi' & Hf)]; [by left; right|left; left; congruence|right]. exists j, i'. rewrite E1, decide_False by (by intros ->). done.
    + done.
    + rewrite Hlen. subst w1. cbn. by rewrite length_alter.
    + intros j. rewrite His, E1. destruct (decide (j ∈ l)) as [Hj|Hj]; [rewrite !decide_False by (by intros ->); by rewrite decide_True by (by right)|].
      destruct (decide (j = k)) as [->|Hne]; [by rewrite decide_True by left|]. rewrite decide_False; [done|]. by intros [?|?]%elem_of_cons.
    + intros c. rewrite Hc. by destruct c.
    + rewrite Hs. subst w1. cbn. by rewrite <- app_assoc.
Qed.
Lemma again_tasks_ok T w E : length (termId2isoId_ w) = N -> NoDup T -> (forall f, f ∈ T -> (f < N)%nat) ->
  wp (for_each again_task T) w (fun _ w' => length (termId2isoId_ w') = N /\
    isos_ (fidb_ w') = isos_ (fidb_ w) ++ (new_iso <$> seq (length (isos_ (fidb_ w))) (length T)) /\
    (forall j f, T !! j = Some f -> getIsoIdfromTermId w' f = Some (length (isos_ (fidb_ w)) + j)%nat) /\
    (forall g, g ∉ T -> getIsoIdfromTermId w' g = getIsoIdfromTermId w g) /\
    (forall c, const_set c (fidb_ w') = const_set c (fidb_ w)) /\ shadowIsos_ (fidb_ w') = shadowIsos_ (fidb_ w)) E.
Proof.
  intros Hlen Hnd HT. apply (wp_for_each _ (fun dn w' => length (termId2isoId_ w') = N /\
    isos_ (fidb_ w') = isos_ (fidb_ w) ++ (new_iso <$> seq (length (isos_ (fidb_ w))) (length dn)) /\
    (forall j f, dn !! j = Some f -> getIsoIdfromTermId w' f = Some (length (isos_ (fidb_ w)) + j)%nat) /\
    (forall g, g ∉ dn -> getIsoIdfromTermId w' g = getIsoIdfromTermId w g) /\
    (forall c, const_set c (fidb_ w') = const_set c (fidb_ w)) /\ shadowIsos_ (fidb_ w') = shadowIsos_ (fidb_ w))).
  { split_and!; try done. cbn. by rewrite app_nil_r. }
  intros dn f rest w' El (Hl' & His & Hids & Hno & Hc & Hs). assert (Hf : (f < N)%nat) by (apply HT; rewrite El; set_solver).
  assert (Hfdn : f ∉ dn) by (rewrite El in Hnd; apply NoDup_app in Hnd as (_ & Hd & _); intros H; apply (Hd f H); left).
  assert (Hn : length (isos_ (fidb_ w')) = (length (isos_ (fidb_ w)) + length dn)%nat) by (by rewrite His, length_app, length_fmap, length_seq).
  unfold again_task. rewrite wp_bind. apply addIsoToDB_ok. apply setIsoId_ok; [cbn; lia|]. change (mkIsos _ _) with (given f w'). split_and!.
  - by rewrite given_length.
  - rewrite given_isos, Hn, His, length_app, seq_app, fmap_app, app_assoc. done.
  - intros j g Hj. rewrite given_get by lia. apply lookup_snoc_Some in Hj as [[_ Hj]|[Ej Eg]]; [|subst j g; by rewrite decide_True, Hn].
    rewrite decide_False; [by apply Hids|]. intros ->. by apply list_elem_of_lookup_2 in Hj.
  - intros g Hg. rewrite given_get by lia. rewrite decide_False by set_solver. apply Hno. set_solver.
  - intros c. rewrite <- Hc. by destruct c.
  - done.
Qed.

Lemma length_bounded (T : list nat) n : NoDup T -> (forall f, f ∈ T -> (f < n)%nat) -> (length T <= n)%nat.
Proof.
  intros Hnd HT. rewrite <- (length_seq n 0). apply submseteq_length, NoDup_submseteq; [done|]. intros f Hf. apply elem_of_seq. specialize (HT f Hf). lia.
Qed.
Definition in_order_of (X : gset nat) : list nat := merge_sort le (elements X).
(** The first drivers of those isos have new isos, and the old ones are shadows. *)
Record second (T : list nat) (w1 : isos) (T2 : list nat) (w : isos) : Prop := {
  sc_ready : ready true (length T) T2 w;
  sc_tasks f : f ∈ T2 <-> exists k i, isos_ (fidb_ w1) !! k = Some i /\ (1 < length (drivers_ i))%nat /\ first_of (drivers_ i) = Some f;
  sc_shadow (k : nat) : several w1 k -> isos_ (fidb_ w) !! k = shadow_of <$> isos_ (fidb_ w1) !! k;
  sc_iso (k : nat) : (k < length T)%nat -> ~ several w1 k -> isos_ (fidb_ w) !! k = isos_ (fidb_ w1) !! k;
  sc_ids g : g ∉ T2 -> getIsoIdfromTermId w g = getIsoIdfromTermId w1 g;
  sc_consts c : const_set c (fidb_ w) = const_set c (fidb_ w1);
  sc_shadows k : k ∈ shadowIsos_ (fidb_ w) <-> several w1 k }.
Lemma once_owner T w k i : once T w -> isos_ (fidb_ w) !! k = Some i -> exists f, T !! k = Some f /\ source f /\ iso_id i = Some k /\ filled f i.
Proof.
  intros O Hi. pose proof (lookup_lt_Some _ _ _ Hi) as Hlt. rewrite (on_size _ _ O) in Hlt. destruct (lookup_lt_is_Some_2 T k Hlt) as [f Hf].
  destruct (on_iso _ _ O k f Hf) as (i' & Hi' & Hid & Hfl). exists f. assert (i' = i) as -> by congruence. split_and!; try done. apply (on_tasks _ _ O). by eapply list_elem_of_lookup_2.
Qed.
Lemma first_driver f i g : source f -> filled f i -> first_of (drivers_ i) = Some g -> connected f g /\ source g /\ forall h, connected f h -> source h -> (g <= h)%nat.
Proof.
  intros Hf (_ & Hd & _) [Hg Hmin]%first_of_ok. apply Hd in Hg as [Hc Hr]. split; [done|]. split; [by apply (connected_source f)|].
  intros h Hch Hh. apply Hmin, Hd. split; [done|by apply source_driver].
Qed.
Lemma second_ok T w1 E : once T w1 -> wp (shadow_isos (isos_with_drivers (fidb_ w1)) ∅) w1 (fun X w2 => wp (for_each again_task (in_order_of X)) w2 (fun _ w => second T w1 (in_order_of X) w) E) E.
Proof.
  intros O. assert (HTN : (length T <= N)%nat).
  { apply length_bounded; [apply O|]. intros f Hf. by apply terminal_lt_N, source_lt, (on_tasks _ _ O). }
  destruct (isos_with_drivers_ok w1) as [Hnd Hin]; [rewrite (on_size _ _ O); lia|].
  eapply wp_mono; [apply (shadow_isos_ok _ ∅ w1 E Hnd); intros k; apply Hin| |done]. cbn beta. intros X w2 (HX & Hids & Hlen & His & Hc & Hs).
  set (T2 := in_order_of X). assert (HT2 : forall f, f ∈ T2 <-> exists k i, isos_ (fidb_ w1) !! k = Some i /\ (1 < length (drivers_ i))%nat /\ first_of (drivers_ i) = Some f).
  { intros f. subst T2. unfold in_order_of. rewrite merge_sort_Permutation, elem_of_elements, HX. split.
    - intros [?%elem_of_empty|(k & i & Hk & Hi & Hf)]; [done|]. apply Hin in Hk as (i' & Hi' & Hd). exists k, i. rewrite Hi in Hi'. injection Hi' as <-. done.
    - intros (k & i & Hi & Hd & Hf). right. exists k, i. split; [apply Hin; by exists i|done]. }
  assert (HT2src : forall f, f ∈ T2 -> exists k i f0, T !! k = Some f0 /\ source f0 /\ isos_ (fidb_ w1) !! k = Some i /\ filled f0 i /\ first_of (drivers_ i) = Some f).
  { intros f (k & i & Hi & _ & Hf)%HT2. destruct (once_owner T w1 k i O Hi) as (f0 & Hk & Hsrc & _ & Hfl). by exists k, i, f0. }
  assert (HT2nd : NoDup T2) by (subst T2; unfold in_order_of; rewrite merge_sort_Permutation; apply NoDup_elements).
  assert (Hsrc : forall f, f ∈ T2 -> source f).
  { intros f Hf. destruct (HT2src f Hf) as (k & i & f0 & _ & Hs0 & _ & Hfl & Hfirst). by apply (first_driver f0 i f). }
  eapply wp_mono; [apply (again_tasks_ok T2 w2 E)| |done].
  - rewrite Hids. apply O.
  - done.
  - intros f Hf. by apply terminal_lt_N, source_lt, Hsrc.
  - cbn beta. intros _ w (Gl & Gi & Gid & Gno & Gc & Gs). rewrite Hlen, (on_size _ _ O) in Gi, Gid.
    assert (Hold : forall k : nat, (k < length T)%nat -> isos_ (fidb_ w) !! k = isos_ (fidb_ w2) !! k) by (intros k Hk; rewrite Gi, lookup_app_l; [done|by rewrite Hlen, (on_size _ _ O)]).
    split.
    + split; [done|by rewrite Gi, length_app, Hlen, (on_size _ _ O), length_fmap, length_seq|done|done| | |].
      * intros f g _ Hf Hg Hfg. destruct (HT2src f Hf) as (k & i & f0 & _ & Hs0 & _ & Hfl & Hfirst). destruct (HT2src g Hg) as (k' & i' & g0 & _ & Hs0' & _ & Hfl' & Hfirst').
        destruct (first_driver f0 i f Hs0 Hfl Hfirst) as (Hc0 & _ & Hmin). destruct (first_driver g0 i' g Hs0' Hfl' Hfirst') as (Hc0' & _ & Hmin').
        assert (f <= g)%nat by (apply Hmin; [by etransitivity|by apply Hsrc]). assert (g <= f)%nat by (apply Hmin'; [etransitivity; [exact Hc0'|by apply connected_sym]|by apply Hsrc]). lia.
      * intros j f Hj. split; [|by apply Gid]. rewrite Gi, lookup_app_r by (rewrite Hlen, (on_size _ _ O); lia). rewrite Hlen, (on_size _ _ O), list_lookup_fmap.
        replace (length T + j - length T)%nat with j by lia. by rewrite lookup_seq_lt by by eapply lookup_lt_Some.
      * intros c k Hcc Hk. rewrite Gc, Hc, (on_consts _ _ O) by done. intros (i & Hi & _). apply lookup_lt_Some in Hi. rewrite (on_size _ _ O) in Hi. lia.
    + done.
    + intros k Hk. rewrite Hold by (destruct Hk as (i & Hi & _); apply lookup_lt_Some in Hi; by rewrite (on_size _ _ O) in Hi). rewrite His, decide_True; [done|by apply Hin].
    + intros k Hlt Hk. rewrite Hold, His, decide_False; [done| |done]. by rewrite Hin.
    + intros g Hg. rewrite Gno by done. unfold getIsoIdfromTermId. by rewrite Hids.
    + intros c. by rewrite Gc.
    + intros k. by rewrite Gs, Hs, (on_shadows _ _ O), app_nil_l, Hin.
Qed.

(** * Labels *)

(** A terminal of an instance on the net outside, or on the net inside of a
    design with several instances. *)
Definition wired (f : nat) : Prop :=
  exists l x it, terminal_at f l x /\ terminal_of t l x it /\
    (((1 < length (getInstances t (model_at l)))%nat /\ is_Some (net_ s0 !! x)) \/ exists c, it = Some c /\ is_Some (net_ s0 !! c)).
(** Every iso is a shadow or that of the terminals connected to one, which are
    those with its identifier. *)
Record labelled (w : isos) : Prop := {
  lb_length : length (termId2isoId_ w) = N;
  lb_iso k i : isos_ (fidb_ w) !! k = Some i -> iso_id i = Some k /\
    ((k ∈ shadowIsos_ (fidb_ w) /\ i = mkIso [] [] (Some k) SHADOW) \/
     (k ∉ shadowIsos_ (fidb_ w) /\ exists f, (source f \/ wired f) /\ filled f i /\ forall g, getIsoIdfromTermId w g = Some k <-> connected f g));
  lb_shadow k : k ∈ shadowIsos_ (fidb_ w) -> is_Some (isos_ (fidb_ w) !! k);
  lb_id g k : getIsoIdfromTermId w g = Some k -> is_Some (isos_ (fidb_ w) !! k) /\ k ∉ shadowIsos_ (fidb_ w);
  lb_source f : source f -> is_Some (getIsoIdfromTermId w f);
  lb_consts c k : is_const c -> k ∉ shadowIsos_ (fidb_ w) -> k ∈ const_set c (fidb_ w) <-> exists i, isos_ (fidb_ w) !! k = Some i /\ isoType_ i = c }.

Section second_round.
Context (T : list nat) (w1 : isos) (T2 : list nat) (w3 : isos) (l : list nat) (w : isos).
Context (O : once T w1) (S2 : second T w1 T2 w3) (Hl : l ≡ₚ T2) (R : round_done true (length T) T2 l w3 w).
#[local] Notation b := (length T).

Lemma second_source f : f ∈ T2 -> source f.
Proof. apply (rd_source _ _ _ _ (sc_ready _ _ _ _ S2)). Qed.
Lemma in_round f : f ∈ l <-> f ∈ T2.
Proof. by rewrite Hl. Qed.
(** A terminal connected to a task of the second round has its iso, another one
    keeps that of the first. *)
Lemma second_here g : (exists f, f ∈ T2 /\ connected f g) -> exists j f, T2 !! j = Some f /\ connected f g /\ getIsoIdfromTermId w g = Some (b + j)%nat.
Proof. intros (f & Hf & Hc). apply (ro_here _ _ _ _ _ _ R f g); [by apply in_round|done|by left]. Qed.
Lemma second_there g : (forall f, f ∈ T2 -> ~ connected f g) -> getIsoIdfromTermId w g = getIsoIdfromTermId w1 g.
Proof.
  intros Hn. rewrite (ro_there _ _ _ _ _ _ R); [|left; intros f Hf; by apply Hn, in_round]. apply (sc_ids _ _ _ _ S2). intros Hg. apply (Hn g Hg). reflexivity.
Qed.
Lemma second_iso j f : T2 !! j = Some f -> exists i, isos_ (fidb_ w) !! (b + j)%nat = Some i /\ iso_id i = Some (b + j)%nat /\ filled f i.
Proof. intros Hj. apply (ro_filled _ _ _ _ _ _ R j f Hj), in_round. by eapply list_elem_of_lookup_2. Qed.
Lemma second_size : length (isos_ (fidb_ w)) = (b + length T2)%nat.
Proof. rewrite (ro_size _ _ _ _ _ _ R). apply (rd_size _ _ _ _ (sc_ready _ _ _ _ S2)). Qed.
(** The drivers of an iso of the first round, and of one of the second. *)
Lemma several_task k f : T !! k = Some f -> several w1 k -> exists g, g ∈ T2 /\ connected f g.
Proof.
  intros Hk (i & Hi & Hd). destruct (once_owner T w1 k i O Hi) as (f' & Hk' & Hs & _ & Hfl). assert (f' = f) as -> by congruence.
  destruct (first_of (drivers_ i)) as [g|] eqn:Eg; [|destruct (drivers_ i); [cbn in Hd; lia|done]]. exists g. split; [apply (sc_tasks _ _ _ _ S2); by exists k, i|].
  by apply (first_driver f i g).
Qed.
Lemma task_several f g k i : T !! k = Some f -> isos_ (fidb_ w1) !! k = Some i -> g ∈ T2 -> connected f g -> (1 < length (drivers_ i))%nat.
Proof.
  intros Hk Hi Hg Hc. apply (sc_tasks _ _ _ _ S2) in Hg as (k' & i' & Hi' & Hd & Hfirst). destruct (once_owner T w1 k' i' O Hi') as (f' & Hk' & Hs' & _ & Hfl').
  destruct (once_owner T w1 k i O Hi) as (f'' & Hk'' & Hs'' & _ & Hfl). assert (f'' = f) as -> by congruence.
  destruct (first_driver f' i' g Hs' Hfl' Hfirst) as (Hc' & _). assert (Hff : connected f f') by by eapply connected_join.
  by rewrite (Permutation_length (filled_same f f' i i' Hff Hfl Hfl')).
Qed.
Lemma task_iso_several j f i : T2 !! j = Some f -> isos_ (fidb_ w) !! (b + j)%nat = Some i -> (1 < length (drivers_ i))%nat.
Proof.
  intros Hj Hi. destruct (second_iso j f Hj) as (i2 & Hi2 & _ & Hfl). assert (i2 = i) as -> by congruence.
  assert (Hf : f ∈ T2) by by eapply list_elem_of_lookup_2. apply (sc_tasks _ _ _ _ S2) in Hf as (k & i' & Hi' & Hd & Hfirst).
  destruct (once_owner T w1 k i' O Hi') as (f' & _ & Hs' & _ & Hfl'). destruct (first_driver f' i' f Hs' Hfl' Hfirst) as (Hc & _).
  by rewrite <- (Permutation_length (filled_same f' f i' i Hc Hfl' Hfl)).
Qed.
Lemma below_iso k : (k < b)%nat -> (several w1 k -> isos_ (fidb_ w) !! k = shadow_of <$> isos_ (fidb_ w1) !! k) /\
  (~ several w1 k -> isos_ (fidb_ w) !! k = isos_ (fidb_ w1) !! k).
Proof. intros Hk. rewrite (ro_below _ _ _ _ _ _ R k Hk). split; intros H; [by apply (sc_shadow _ _ _ _ S2)|by apply (sc_iso _ _ _ _ S2)]. Qed.
Lemma several_decidable k : several w1 k \/ ~ several w1 k.
Proof.
  unfold several. destruct (isos_ (fidb_ w1) !! k) as [i|]; [|right; by intros (i & ? & _)].
  destruct (decide (1 < length (drivers_ i))%nat); [left; by exists i|right; intros (i' & [= <-] & ?); done].
Qed.
Lemma several_lt k : several w1 k -> (k < b)%nat.
Proof. intros (i & Hi & _). apply lookup_lt_Some in Hi. by rewrite (on_size _ _ O) in Hi. Qed.
(** The isos with several drivers are those of the second round. *)
Lemma second_several k : several w k <-> (b <= k < b + length T2)%nat.
Proof.
  split.
  - intros (i & Hi & Hd). pose proof (lookup_lt_Some _ _ _ Hi) as Hlt. rewrite second_size in Hlt. split; [|done]. destruct (decide (k < b)%nat) as [Hk|]; [|lia]. exfalso.
    destruct (below_iso k Hk) as [H1 H2]. destruct (several_decidable k) as [Hs|Hs].
    + rewrite (H1 Hs) in Hi. destruct (isos_ (fidb_ w1) !! k); [|done]. injection Hi as <-. cbn in Hd. lia.
    + rewrite (H2 Hs) in Hi. apply Hs. by exists i.
  - intros [Hk Hlt]. destruct (lookup_lt_is_Some_2 T2 (k - b)) as [f Hf]; [lia|]. destruct (second_iso _ _ Hf) as (i & Hi & _). exists i.
    pose proof (task_iso_several _ _ _ Hf Hi) as Hd. by replace (b + (k - b))%nat with k in Hi by lia.
Qed.
Lemma shadows_below k : k ∈ shadowIsos_ (fidb_ w) <-> several w1 k.
Proof. rewrite (ro_shadows _ _ _ _ _ _ R). apply (sc_shadows _ _ _ _ S2). Qed.
(** The one driver of an iso that is left. *)
Lemma single k f i : T !! k = Some f -> isos_ (fidb_ w1) !! k = Some i -> ~ several w1 k -> forall g, connected f g -> source g -> g = f.
Proof.
  intros Hk Hi Hn g Hc Hg. destruct (once_owner T w1 k i O Hi) as (f' & Hk' & Hs & _ & (_ & Hd & _)). assert (f' = f) as -> by congruence.
  assert (H1 : f ∈ drivers_ i) by (apply Hd; split; [reflexivity|by apply source_driver]). assert (H2 : g ∈ drivers_ i) by (apply Hd; split; [done|by apply source_driver]).
  destruct (drivers_ i) as [|a [|a' l']] eqn:E; [by apply not_elem_of_nil in H1|set_solver|]. destruct Hn. exists i. rewrite E. split; [done|]. cbn. lia.
Qed.
Lemma second_labelled : labelled w.
Proof.
  assert (Hchoice : forall g, (exists f, f ∈ T2 /\ connected f g) \/ forall f, f ∈ T2 -> ~ connected f g) by (intros g; apply any_connected, second_source).
  split.
  - apply R.
  - intros k i Hi. pose proof (lookup_lt_Some _ _ _ Hi) as Hlt. rewrite second_size in Hlt. rewrite shadows_below. destruct (decide (k < b)%nat) as [Hk|Hk].
    + destruct (below_iso k Hk) as [H1 H2]. destruct (lookup_lt_is_Some_2 (isos_ (fidb_ w1)) k) as [i1 Hi1]; [by rewrite (on_size _ _ O)|].
      destruct (once_owner T w1 k i1 O Hi1) as (f & Hf & Hsrc & Hid & Hfl). destruct (several_decidable k) as [Hs|Hs].
      * rewrite (H1 Hs), Hi1 in Hi. injection Hi as <-. split; [done|]. left. split; [done|]. unfold shadow_of, setIsoType. cbn. by rewrite Hid.
      * rewrite (H2 Hs), Hi1 in Hi. injection Hi as <-. split; [done|]. right. split; [done|]. exists f. split; [by left|]. split; [done|]. intros g. split.
        -- intros Hg. destruct (Hchoice g) as [He|Hn]; [destruct (second_here g He) as (j & f' & _ & _ & Hg'); rewrite Hg in Hg'; injection Hg'; lia|].
           rewrite second_there in Hg by done. destruct (on_id _ _ O g k Hg) as (f' & Hf' & Hc). congruence.
        -- intros Hc. destruct (Hchoice g) as [(f' & Hf' & Hc')|Hn].
           { exfalso. apply Hs. exists i1. split; [done|]. by apply (task_several f f' k i1 Hf Hi1 Hf'), (connected_join f f' g). }
           rewrite second_there by done. destruct (on_some _ _ O f g Hsrc Hc) as [k' Hk']. destruct (on_id _ _ O g k' Hk') as (f' & Hf' & Hc').
           rewrite (single k f i1 Hf Hi1 Hs f') in Hf'; [by rewrite (NoDup_lookup _ _ _ _ (on_nodup _ _ O) Hf Hf')|by eapply connected_join|].
           apply (on_tasks _ _ O). by eapply list_elem_of_lookup_2.
    + destruct (lookup_lt_is_Some_2 T2 (k - b)) as [f Hf]; [lia|]. destruct (second_iso _ _ Hf) as (i' & Hi' & Hid & Hfl). replace (b + (k - b))%nat with k in Hi', Hid by lia.
      assert (i' = i) as -> by congruence. split; [done|]. right. split; [intros Hs%several_lt; lia|]. exists f. split; [left; apply second_source; by eapply list_elem_of_lookup_2|]. split; [done|].
      pose proof (list_elem_of_lookup_2 _ _ _ Hf) as HfT. intros g. split.
      * intros Hg. destruct (Hchoice g) as [He|Hn].
        -- destruct (second_here g He) as (j & f' & Hj & Hc & Hg'). assert (j = k - b)%nat as -> by (rewrite Hg in Hg'; injection Hg'; lia). congruence.
        -- rewrite second_there in Hg by done. destruct (on_id _ _ O g k Hg) as (f' & Hf' & _). apply lookup_lt_Some in Hf'. lia.
      * intros Hc. destruct (second_here g) as (j & f' & Hj & Hc' & Hg); [by exists f|].
        assert (f' = f) as -> by (apply (rd_apart _ _ _ _ (sc_ready _ _ _ _ S2)); [done|by eapply list_elem_of_lookup_2|done|by eapply connected_join]).
        rewrite Hg. f_equal. pose proof (NoDup_lookup _ _ _ _ (rd_nodup _ _ _ _ (sc_ready _ _ _ _ S2)) Hf Hj). lia.
  - intros k. rewrite shadows_below. intros Hs%several_lt. apply lookup_lt_is_Some. rewrite second_size. lia.
  - intros g k Hg. rewrite shadows_below. destruct (Hchoice g) as [He|Hn].
    + destruct (second_here g He) as (j & f & Hj & _ & Hg'). rewrite Hg in Hg'. injection Hg' as ->. destruct (second_iso j f Hj) as (i & Hi & _). split; [by eexists|].
      intros Hs%several_lt. lia.
    + rewrite second_there in Hg by done. destruct (on_id _ _ O g k Hg) as (f & Hf & Hc). split.
      * apply lookup_lt_is_Some. rewrite second_size. apply lookup_lt_Some in Hf. lia.
      * intros Hs. destruct (several_task k f Hf Hs) as (f' & Hf' & Hc'). apply (Hn f' Hf'). by apply (connected_iff f f').
  - intros f Hf. destruct (Hchoice f) as [He|Hn]; [destruct (second_here f He) as (j & f' & _ & _ & ->); by eexists|].
    rewrite second_there by done. by apply (on_some _ _ O f f).
  - intros c k Hc Hs. rewrite shadows_below in Hs. destruct (decide (k < b)%nat) as [Hk|Hk].
    + rewrite (ro_old _ _ _ _ _ _ R c k Hc Hk), (sc_consts _ _ _ _ S2), (on_consts _ _ O) by done. by rewrite (proj2 (below_iso k Hk) Hs).
    + apply (ro_consts _ _ _ _ _ _ R c k Hc). lia.
Qed.
End second_round.

(** * Dangling nets *)

Lemma wired_driver f : wired f -> has_role f Driver -> source f.
Proof.
  intros (l & x & it & Hf & Hit & Hw) (l' & x' & Hf' & Hr). destruct (fv_fun _ _ _ _ _ Hf Hf') as [-> ->]. exists l, x, it. split_and!; try done.
  destruct Hw as [[Hi Hn]|(c & -> & Hn)]; [|done]. unfold terminal_of in Hit. unfold role_of in Hr. destruct l as [|i l _] using rev_ind; [cbn in Hit; by subst it|].
  rewrite last_snoc in Hr. rewrite model_at_snoc in Hi. case_bool_decide as Hl; [|done]. rewrite Hl in Hi. cbn in Hi. lia.
Qed.
Lemma wired_lt f : wired f -> (f < terminals t top P)%nat.
Proof. intros (l & x & it & ? & _). by eapply terminal_lt. Qed.
Lemma isLeaf_ok l inst : children_at t top P l (dnl_children inst) -> dnl_isLeaf inst = bool_decide (length (getInstances t (model_at l)) <= 1)%nat.
Proof.
  intros (a & E & _). unfold dnl_isLeaf. rewrite E. unfold block. apply bool_decide_ext. set (n := length _).
  destruct (decide (n = 0%nat)) as [->|Hn]; cbn; [split; [lia|done]|]. split; [intros [= ?]; lia|intros ?; f_equal; lia].
Qed.
Lemma is_dangling_ok f w Q E : (f < terminals t top P)%nat -> (forall b, (b = true <-> wired f /\ getIsoIdfromTermId w f = None) -> Q b w) -> wp (is_dangling s0 d f) w Q E.
Proof.
  intros Hlt HQ. destruct (fv_numbered (d := d) f Hlt) as (l & x & Hf). destruct (fv_terminal _ _ _ Hf) as (k & it & Hk & Hit & _ & HT).
  destruct (fv_instance k l Hk) as (inst & Hi & Hat & Hch). unfold is_dangling. wp_read HT. rewrite wp_bind. eapply wp_deref; [exact Hi|]. rewrite wp_bind. eapply wp_deref; [done|].
  assert (Hw : wired f <-> ((1 < length (getInstances t (model_at l)))%nat /\ is_Some (net_ s0 !! x)) \/ exists c, it = Some c /\ is_Some (net_ s0 !! c)).
  { split; [|intros ?; by exists l, x, it]. intros (l' & x' & it' & Hf' & Hit' & H). destruct (fv_fun _ _ _ _ _ Hf Hf') as [-> ->]. by rewrite <- (terminal_of_fun _ _ _ _ Hit Hit'). }
  assert (Hnet : forall e : loc, negb (is_none (net_ s0 !! e)) = bool_decide (is_Some (net_ s0 !! e))).
  { intros e. symmetry. destruct (net_ s0 !! e); [by apply bool_decide_true|apply bool_decide_false; by intros [? ?]]. }
  assert (Hout : wp (if isTop inst then mret false else it ← deref (fun _ => it); mret (negb (is_none (net_ s0 !! it)))) w
    (fun b w' => w' = w /\ (b = true <-> exists c, it = Some c /\ is_Some (net_ s0 !! c))) E).
  { rewrite (fv_isTop k l inst Hk Hat). unfold terminal_of in Hit. destruct l as [|i l _] using rev_ind.
    - cbn in Hit. subst it. rewrite bool_decide_true by done. rewrite wp_ret. split; [done|]. split; [done|]. by intros (c & ? & _).
    - rewrite last_snoc in Hit. destruct Hit as (c & -> & _). rewrite bool_decide_false by by destruct l. rewrite wp_bind. eapply wp_deref; [done|]. rewrite wp_ret. split; [done|].
      rewrite Hnet, bool_decide_eq_true. split; [intros ?; by exists c|by intros (c' & [= <-] & ?)]. }
  rewrite wp_bind. eapply wp_mono; [exact Hout| |done]. cbn beta. intros out w' [-> Ho]. rewrite wp_bind, wp_gets, wp_ret. apply HQ.
  rewrite andb_true_iff, orb_true_iff, andb_true_iff, Ho, Hw, (isLeaf_ok l inst Hch), Hnet, negb_true_iff, bool_decide_eq_true, bool_decide_eq_false, is_none_true.
  apply and_iff_compat_r, or_iff_compat_r. split; [intros [? ?]; split; [lia|done]|intros [? ?]; split; [done|lia]].
Qed.
Lemma labelled_owner w g k : labelled w -> getIsoIdfromTermId w g = Some k -> exists i f, isos_ (fidb_ w) !! k = Some i /\ iso_id i = Some k /\ (source f \/ wired f) /\
  filled f i /\ forall h, getIsoIdfromTermId w h = Some k <-> connected f h.
Proof. intros B Hg. destruct (lb_id _ B g k Hg) as [[i Hi] Hs]. destruct (lb_iso _ B k i Hi) as (Hid & [[? _]|(_ & f & Hf & Hfl & Hk)]); [done|]. by exists i, f. Qed.
Lemma labelled_closed w g h k : labelled w -> connected g h -> getIsoIdfromTermId w g = Some k -> getIsoIdfromTermId w h = Some k.
Proof. intros B Hc Hg. destruct (labelled_owner w g k B Hg) as (i & f & _ & _ & _ & _ & Hk). apply Hk. etransitivity; [by apply Hk|done]. Qed.
Lemma lookup_snoc_ne {A} (l : list A) a k : k <> length l -> (l ++ [a]) !! k = l !! k.
Proof.
  intros Hk. destruct (decide (k < length l)%nat); [by apply lookup_app_l|]. rewrite !lookup_ge_None_2; [done|lia|rewrite length_app; cbn; lia].
Qed.
Lemma label_dangling w w' f : labelled w -> wired f -> getIsoIdfromTermId w f = None -> tasked true (length (isos_ (fidb_ w))) f (given f w) w' ->
  labelled w' /\ (drivers_ <$> isos_ (fidb_ w') !! length (isos_ (fidb_ w)) = Some []) /\ (forall g k, getIsoIdfromTermId w g = Some k -> getIsoIdfromTermId w' g = Some k) /\
  is_Some (getIsoIdfromTermId w' f).
Proof.
  intros B Hf Hnone [Kl (i & Ki & Kid & Kf & Kc) Kh Kt Ks]. set (n := length (isos_ (fidb_ w))) in *. rewrite given_isos in Ki. fold n in Ki.
  assert (HfN : (f < N)%nat) by by apply terminal_lt_N, wired_lt.
  assert (Ei : isos_ (fidb_ w') = isos_ (fidb_ w) ++ [i]) by (rewrite Ki, insert_app_r_alt by done; subst n; by rewrite Nat.sub_diag).
  assert (Hnone' : forall g, connected f g -> getIsoIdfromTermId w g = None).
  { intros g Hc. destruct (getIsoIdfromTermId w g) as [k|] eqn:Eg; [|done]. rewrite (labelled_closed w g f k B (connected_sym _ _ _ _ _ _ Hc) Eg) in Hnone. done. }
  assert (Hhere : forall g, connected f g -> getIsoIdfromTermId w' g = Some n) by (intros g Hc; apply Kh; [done|by left]).
  assert (Hthere : forall g, ~ connected f g -> getIsoIdfromTermId w' g = getIsoIdfromTermId w g).
  { intros g Hc. rewrite Kt by by left. rewrite given_get by (by rewrite (lb_length _ B)). rewrite decide_False; [done|]. intros ->. by apply Hc. }
  assert (Hkeep : forall g k, getIsoIdfromTermId w g = Some k -> getIsoIdfromTermId w' g = Some k) by (intros g k Hg; rewrite Hthere; [done|]; intros Hc; by rewrite (Hnone' g Hc) in Hg).
  assert (Hback : forall g k, getIsoIdfromTermId w' g = Some k -> (k = n /\ connected f g) \/ ((k < n)%nat /\ ~ connected f g /\ getIsoIdfromTermId w g = Some k)).
  { intros g k Hg. destruct (connected_decidable f g (wired_lt f Hf)) as [Hc|Hc]; [left; rewrite (Hhere g Hc) in Hg; injection Hg as <-; done|right].
    rewrite (Hthere g Hc) in Hg. split; [|done]. destruct (lb_id _ B g k Hg) as [Hk _]. by apply lookup_lt_is_Some in Hk. }
  assert (Hnsh : n ∉ shadowIsos_ (fidb_ w)) by (intros Hs%(lb_shadow _ B)%lookup_lt_is_Some; subst n; lia).
  split; [|split; [|split; [done|rewrite Hhere; [by eexists|reflexivity]]]].
  - split.
    + rewrite Kl, given_length. apply B.
    + intros k j. rewrite Ei, Ks. intros [[Hk Hj]|[Ek Ej]]%lookup_snoc_Some.
      * destruct (lb_iso _ B k j Hj) as (Hid & [?|(Hs & f' & Hf' & Hfl & Hown)]); (split; [done|]); [by left|right]. split; [done|]. exists f'. split; [done|]. split; [done|].
        intros g. rewrite <- Hown. split; [|apply Hkeep]. intros [[-> _]|(_ & _ & ?)]%Hback; [subst n; lia|done].
      * subst k j. fold n. split; [done|]. right. split; [done|]. exists f. split; [by right|]. split; [done|]. intros g. split; [|apply Hhere].
        intros [[_ ?]|(? & _)]%Hback; [done|lia].
    + intros k. rewrite Ks, Ei. intros Hs%(lb_shadow _ B). apply lookup_lt_is_Some in Hs. apply lookup_lt_is_Some. rewrite length_app. lia.
    + intros g k. rewrite Ks, Ei. intros [[-> _]|(Hk & _ & Hg)]%Hback.
      * split; [apply lookup_lt_is_Some; rewrite length_app; cbn; subst n; lia|done].
      * split; [apply lookup_lt_is_Some; rewrite length_app; subst n; lia|by apply (lb_id _ B g k)].
    + intros g Hg. destruct (lb_source _ B g Hg) as [k Hk]. rewrite (Hkeep g k Hk). by eexists.
    + intros c k Hc. rewrite Ks. intros Hs. rewrite (Kc c k Hc), Ei. destruct (decide (k = n)) as [->|Hne].
      * subst n. rewrite list_lookup_middle by done. split; [intros [[? _]|[_ ?]]; [done|by exists i]|intros (j & [= <-] & ?); by right].
      * rewrite lookup_snoc_ne by done. pose proof (lb_consts _ B c k Hc Hs : k ∈ const_set c (fidb_ (given f w)) <-> _) as Hold. tauto.
  - rewrite Ei. subst n. rewrite list_lookup_middle by done. cbn. f_equal. destruct (drivers_ i) as [|g D] eqn:Ed; [done|]. exfalso.
    destruct Kf as (_ & Hd & _). assert (Hg : g ∈ drivers_ i) by (rewrite Ed; left). apply Hd in Hg as [Hc Hr]. assert (Hs : source g).
    { destruct (decide (g = f)) as [->|Hne]; [by apply wired_driver|]. apply rtc_inv_r in Hc as [->|(h & _ & (a & _ & Ha))]; [done|]. by eapply driver_on_node. }
    destruct (lb_source _ B g Hs) as [k Hk]. by rewrite (Hnone' g Hc) in Hk.
Qed.
Lemma dangling_ok v w E : labelled w -> reusable N v ->
  wp (for_each (dangling_task assign s0 top d fuel) (seq 0 (N - 1))) (v, w) (fun _ vw => labelled vw.2 /\ forall f, wired f -> is_Some (getIsoIdfromTermId vw.2 f)) E.
Proof.
  intros B Hv. eapply wp_mono; [apply (wp_for_each _ (fun dn vw => reusable N vw.1 /\ labelled vw.2 /\ forall f, f ∈ dn -> wired f -> is_Some (getIsoIdfromTermId vw.2 f)))| |done].
  - split; [done|]. split; [done|]. by intros f ?%not_elem_of_nil.
  - intros dn f rest [v' w'] El (Hv' & B' & Hdn). cbn in Hv', B', Hdn.
    assert (Hf : (f < terminals t top P)%nat).
    { assert (Hin : f ∈ seq 0 (N - 1)) by (rewrite El; set_solver). apply elem_of_seq in Hin. destruct fv_lengths as [_ HN']. lia. }
    unfold dangling_task. rewrite wp_bind. apply on_isos_ok, is_dangling_ok; [done|]. intros b Hb. destruct b.
    + destruct (proj1 Hb eq_refl) as [Hw Hnone]. rewrite wp_bind. apply on_isos_ok, addIsoToDB_ok. rewrite wp_bind. apply on_isos_ok, setIsoId_ok.
      { cbn. rewrite (lb_length _ B'). by apply terminal_lt_N. }
      change (mkIsos _ _) with (given f w'). set (n := length (isos_ (fidb_ w'))). rewrite wp_bind.
      eapply wp_mono; [apply (task_ok true n f v' (given f w'))| |done].
      * done.
      * rewrite given_isos. by apply list_lookup_middle.
      * rewrite given_length. apply B'.
      * intros c Hc Hin. assert (Hs : n ∉ shadowIsos_ (fidb_ w')) by (intros Hs%(lb_shadow _ B')%lookup_lt_is_Some; subst n; lia).
        apply (lb_consts _ B' c n Hc Hs) in Hin as (i & Hi & _). apply lookup_lt_Some in Hi. subst n. lia.
      * done.
      * cbn beta. intros _ [v2 w2] [Hv2 K]. cbn in Hv2, K. destruct (label_dangling w' w2 f B' Hw Hnone K) as (B2 & Hdr & Hkeep & Hsome).
        rewrite wp_bind. apply on_isos_ok. apply fmap_Some in Hdr as (i & Hi & Hd). eapply (wp_deref _ _ _ _ 0%nat); [cbn; fold n in Hi; rewrite Hi; cbn; by rewrite <- Hd|].
        change (0 =? 0)%nat with true. cbv iota. rewrite wp_ret. split; [done|]. split; [done|]. intros g [Hg| ->%list_elem_of_singleton]%elem_of_app Hwg; [|done].
        destruct (Hdn g Hg Hwg) as [k Hk]. cbn. rewrite (Hkeep g k Hk). by eexists.
    + rewrite wp_ret. split; [done|]. split; [done|]. intros g [Hg| ->%list_elem_of_singleton]%elem_of_app Hwg; [by apply Hdn|]. cbn.
      destruct (getIsoIdfromTermId w' f) eqn:Ef; [by eexists|]. by discriminate (proj2 Hb).
  - cbn beta. intros _ vw (_ & B' & Hall). split; [done|]. intros f Hf. apply Hall; [|done]. apply elem_of_seq. destruct fv_lengths as [_ HN']. pose proof (wired_lt f Hf). lia.
Qed.
(** The isos are made, whatever the order in which the tasks of a loop run. *)
Lemma build_ok schedule E : (forall l, schedule l ≡ₚ l) ->
  wp (build assign s0 top d fuel schedule) (no_marks, no_isos_of N) (fun _ vw => labelled vw.2 /\ forall f, wired f -> is_Some (getIsoIdfromTermId vw.2 f)) E.
Proof.
  intros Hsch. unfold build. pose proof (first_tasks_ok (fun _ _ => False)) as H. unfold first_tasks in H. rewrite wp_bind in H. rewrite wp_bind. apply on_isos_ok.
  eapply wp_mono; [exact H| |done]. clear H. cbn beta. intros T0 w0 H. destruct (fv_instance 0 [] fv_zero) as (inst & Hi & _). wp_read Hi.
  rewrite wp_bind in H. unfold wp at 1 in H. unfold deref in H. rewrite Hi in H. rewrite wp_bind. apply on_isos_ok. eapply wp_mono; [exact H| |done]. clear H. cbn beta. intros T w [HT Hsrc].
  pose proof (tasks_ready T w HT Hsrc) as R1. rewrite wp_bind. eapply wp_mono; [apply (round_ok false 0 T (schedule T) no_marks w _ R1 (Hsch T)); by left| |done].
  cbn beta. intros _ [v1 w1] [Hv1 D1]. cbn in Hv1, D1. pose proof (first_round_once T _ w w1 HT Hsrc (Hsch T) D1) as O.
  rewrite wp_bind. apply on_isos_ok. rewrite wp_gets. cbn [compose]. rewrite wp_bind. apply on_isos_ok. eapply wp_mono; [apply (second_ok T w1 (fun _ _ => False) O)| |done].
  cbn beta. intros X w2 H2. change (merge_sort le (elements X)) with (in_order_of X). set (T2 := in_order_of X) in *. rewrite wp_bind. apply on_isos_ok. eapply wp_mono; [exact H2| |done]. clear H2.
  cbn beta. intros _ w3 S2. rewrite wp_bind. eapply wp_mono; [apply (round_ok true (length T) T2 (schedule T2) v1 w3 _ (sc_ready _ _ _ _ S2) (Hsch T2) Hv1)| |done].
  cbn beta. intros _ [v4 w4] [Hv4 D4]. cbn in Hv4, D4. rewrite wp_bind. apply on_isos_ok. rewrite wp_gets. cbn [compose].
  pose proof (second_size T w1 T2 w3 _ w4 S2 D4) as Hsize.
  assert (HTN : (length T <= N)%nat) by (apply length_bounded; [apply O|]; intros f Hf; by apply terminal_lt_N, source_lt, (on_tasks _ _ O)).
  assert (HT2N : (length T2 <= N)%nat) by (apply length_bounded; [apply (rd_nodup _ _ _ _ (sc_ready _ _ _ _ S2))|]; intros f Hf; by apply terminal_lt_N, source_lt, (second_source T w1 T2 w3 S2)).
  destruct (isos_with_drivers_ok w4) as [Hnd Hin]; [rewrite Hsize; lia|].
  assert (Elen : length T2 = length (isos_with_drivers (fidb_ w4))).
  { rewrite <- (length_seq (length T2) (length T)). apply Permutation_length, NoDup_Permutation; [apply NoDup_seq|done|]. intros k. rewrite Hin, elem_of_seq.
    symmetry. by apply (second_several T w1 T2 w3 (schedule T2) w4). }
  rewrite Elen, Nat.eqb_refl, wp_bind, wp_ret. apply dangling_ok; [|done]. by apply (second_labelled T w1 T2 w3 (schedule T2) w4).
Qed.
End rounds.
