(* ===== verification/DNLProperties.v ===== *)
(** What the flat netlist promises of the hierarchy it is made from, and its isos
    of the connections of the netlist. *)
From stdpp Require Import sorting relations.
From S2P Require Import Prelude NLID Store Bus Contents Connections DesignNets Interface InterfaceSteps InterfaceTerms TermLifetime InstanceSteps MergeAssigns NetlistRuns Paths PathSteps Equipotential EquipotentialSteps PathProperties DNL DNLFlatten DNLIsos DNLBuild.
Local Open Scope Z_scope.

(** A design that can be unfolded: it does not contain itself, the 32-bit order
    identifiers of its objects do not come around, the top or a child of it has a
    terminal, and there is fuel for all the paths below it. *)
Record flattenable (t : structure) (rank : loc -> nat) (top : loc) (fuel : nat) : Prop := {
  fl_rank i inst : instHeap t !! i = Some inst -> (rank (model_ (h_extra inst)) < rank (h_design inst))%nat;
  fl_small m : Z.of_nat (length (getInstances t m)) <= 2 ^ 32 /\ Z.of_nat (length (getBitTerms t m)) <= 2 ^ 32;
  fl_top : is_Some (designs t !! top);
  fl_terminal : has_terminal t top;
  fl_fuel : (size_below t rank top <= fuel)%nat;
  fl_depth : (rank top < fuel)%nat }.
(** The paths from the top, each with a number. *)
Definition numbers_paths (t : structure) (top : loc) (P : list (list loc)) : Prop :=
  NoDup P /\ P !! 0%nat = Some [] /\ forall l, path_from t top l <-> exists k, P !! k = Some l.

Lemma flatten_flattened s0 rank top fuel o : reachable s0 -> flattenable (str s0) rank top fuel ->
  exists d o' P, flatten (str s0) fuel top (nothing_flat o) = (Ret tt, d) /\ orders_right (str s0) top o' /\ flattened (str s0) top o' P d.
Proof.
  intros [W _]%reachable_netlist_wf [Hr Hs Ht Hterm Hf Hd]. pose proof (flatten_ok (str s0) W rank Hr Hs top Ht fuel o (fun _ _ => False) Hf Hd Hterm) as H.
  unfold wp in H. destruct (flatten (str s0) fuel top (nothing_flat o)) as [[[]|e|] d]; [|done..]. destruct H as (o' & P & ? & ?). by exists d, o', P.
Qed.
Lemma flatten_view s0 rank top fuel o : reachable s0 -> flattenable (str s0) rank top fuel ->
  exists d P, flatten (str s0) fuel top (nothing_flat o) = (Ret tt, d) /\ flat_view (str s0) top P d.
Proof.
  intros H F. destruct (flatten_flattened s0 rank top fuel o H F) as (d & o' & P & E & Ho & Hfl). exists d, P. split; [done|].
  destruct (reachable_netlist_wf _ H) as [W _]. by eapply flattened_view.
Qed.

Section view.
Context (t : structure) (W : struct_wf t) (top : loc) (P : list (list loc)) (d : flat) (V : flat_view t top P d).
Lemma view_paths : numbers_paths t top P.
Proof. split; [apply fv_nodup|]. split; [apply fv_zero|]. intros l. apply fv_path. Qed.
Lemma view_parent k l i inst : P !! k = Some (l ++ [i]) -> DNLInstances_ d !! k = Some inst ->
  exists j J, P !! j = Some l /\ DNLInstances_ d !! j = Some J /\ getParentInstance d inst = Some J /\ dnl_parent inst = Some j.
Proof.
  intros Hk Hi. destruct (fv_instance k _ Hk) as (inst' & Hi' & (_ & _ & _ & _ & Hpar) & _). assert (inst' = inst) as -> by congruence.
  destruct (Hpar l i eq_refl) as (j & Hj & _ & HPj). destruct (fv_instance j l HPj) as (J & HJ & _). exists j, J. unfold getParentInstance. by rewrite Hj.
Qed.

(** Up from an instance. *)
Lemma isInstanceChild_from_ok n k l k' l' : P !! k = Some l -> P !! k' = Some l' -> l' <> [] -> (length l < n)%nat ->
  isInstanceChild_from d n (Some k') (Some k) = Ret (bool_decide (l' `prefix_of` l)).
Proof.
  intros Hk Hk' Hne. revert k Hk n. induction l as [|i l IH] using rev_ind; intros k Hk [|n] Hn; [cbn in Hn; lia| |rewrite length_app in Hn; cbn in Hn; lia|]; cbn [isInstanceChild_from].
  - rewrite (NoDup_lookup _ _ _ _ fv_nodup Hk fv_zero), bool_decide_true by done. rewrite bool_decide_false; [done|]. by intros ?%prefix_nil_inv.
  - rewrite bool_decide_false by (intros [= ->]; rewrite fv_zero in Hk; injection Hk as Hk; by destruct l). destruct (bool_decide_reflect (Some k' = Some k)) as [Heq|Heq].
    { injection Heq as ->. assert (l' = l ++ [i]) as -> by congruence. by rewrite bool_decide_true. }
    destruct (fv_instance k _ Hk) as (inst & Hi & _). destruct (view_parent k l i inst Hk Hi) as (j & J & Hj & _ & _ & Hpar). cbn [getDNLInstanceFromID]. rewrite Hi, Hpar.
    rewrite (IH j Hj n) by (rewrite length_app in Hn; cbn in Hn; lia). f_equal. apply bool_decide_ext. split; [intros H; by apply prefix_app_r|].
    intros [r Hr]. destruct r as [|x r _] using rev_ind; [rewrite app_nil_r in Hr; subst l'; by rewrite (NoDup_lookup _ _ _ _ fv_nodup Hk Hk') in Heq|].
    rewrite app_assoc in Hr. apply app_inj_tail in Hr as [-> _]. by exists r.
Qed.
Lemma isInstanceChild_ok n k l k' l' : P !! k = Some l -> P !! k' = Some l' -> (length l < n)%nat -> isInstanceChild d n (Some k') (Some k) = Ret (bool_decide (l' `prefix_of` l)).
Proof.
  intros Hk Hk' Hn. unfold isInstanceChild. destruct (bool_decide_reflect (Some k' = Some 0%nat)) as [Ht|Ht]; [injection Ht as ->; rewrite fv_zero in Hk'; injection Hk' as <-; by rewrite bool_decide_true by apply prefix_nil|].
  apply (isInstanceChild_from_ok n k l k' l' Hk Hk'); [|done]. intros ->. by rewrite (NoDup_lookup _ _ _ _ fv_nodup Hk' fv_zero) in Ht.
Qed.
(** The identifiers of the instances of a path. *)
Definition identifies (i : loc) (id : Z) : Prop := exists inst, instHeap t !! i = Some inst /\ h_id inst = id.
Lemma dnl_pathIDs_ok n k l inst : P !! k = Some l -> DNLInstances_ d !! k = Some inst -> (length l <= n)%nat ->
  exists ids, dnl_pathIDs t d n inst = Some ids /\ Forall2 identifies l ids.
Proof.
  revert n k inst. induction l as [|i l IH] using rev_ind; intros n k inst Hk Hi Hn; destruct (fv_instance k _ Hk) as (inst' & Hi' & Hat & _); assert (inst' = inst) as -> by congruence;
    pose proof (fv_isTop k _ inst Hk Hat) as Ht.
  - rewrite bool_decide_true in Ht by done. exists []. split; [destruct n; cbn; by rewrite Ht|constructor].
  - rewrite bool_decide_false in Ht by by destruct l. destruct n as [|n]; [rewrite length_app in Hn; cbn in Hn; lia|]. cbn [dnl_pathIDs]. rewrite Ht.
    destruct Hat as (-> & _). rewrite last_snoc. cbn [mbind option_bind]. assert (Hp : path_from t top (l ++ [i])) by (apply fv_path; by exists k).
    apply (path_from_snoc t) in Hp as [_ (v & Hv & _)%(elem_of_getInstances t W)]. rewrite Hv. cbn [mbind option_bind].
    destruct (view_parent k l i inst Hk Hi) as (j & J & Hj & HJ & -> & _). cbn [mbind option_bind].
    destruct (IH n j J Hj HJ) as (ids & -> & Hids); [rewrite length_app in Hn; cbn in Hn; lia|]. exists (ids ++ [h_id v]). split; [done|].
    apply Forall2_app; [done|]. constructor; [by exists v|constructor].
Qed.
Lemma path_from_chain l : path_from t top l -> chain t l.
Proof.
  induction l as [|i l IH] using rev_ind; [constructor|]. intros [Hl Hi]%(path_from_snoc t). constructor; [by apply IH|].
  apply (elem_of_getInstances t W) in Hi as (v & Hv & Hd). exists v. split; [done|]. destruct l as [|j l _] using rev_ind; [done|]. rewrite last_snoc.
  apply (path_from_snoc t) in Hl as [_ (J & HJ & _)%(elem_of_getInstances t W)]. exists J. split; [done|]. rewrite Hd, model_at_snoc. unfold modelOf. by rewrite HJ.
Qed.
(** [getPath] makes the path, or finds it. *)
Lemma dnl_getPath_ok n s k l inst E : paths_wf t s -> P !! k = Some l -> DNLInstances_ d !! k = Some inst -> (length l <= n)%nat ->
  wp (dnl_getPath t top d n inst) s (made t s l) E.
Proof.
  intros Ws Hk Hi Hn. destruct (dnl_pathIDs_ok n k l inst Hk Hi Hn) as (ids & Hids & Hall). unfold dnl_getPath. rewrite wp_bind. eapply wp_deref; [exact Hids|].
  assert (Hp : path_from t top l) by (apply fv_path; by exists k). unfold path_of_ids.
  apply (path_of_descriptor_ok t _ (fun id i => identifies i id)); [done| |by apply path_from_chain| |by apply Forall2_flip].
  - intros id i v (v' & Hv' & <-) Hv. assert (v' = v) as -> by congruence. f_equal. by apply getInstance_there.
  - intros i v Hh Hv. destruct l as [|j l]; [done|]. injection Hh as ->. destruct Hp as [(v' & Hv' & <-)%(elem_of_getInstances t W) _]. congruence.
Qed.
End view.

Lemma isUnder_ok t (W : struct_wf t) top o P d k l I k' l' J : orders_right t top o -> flattened t top o P d ->
  P !! k = Some l -> DNLInstances_ d !! k = Some I -> P !! k' = Some l' -> DNLInstances_ d !! k' = Some J -> isUnder I J = bool_decide (l' `prefix_of` l).
Proof.
  intros Ho F Hk HI Hk' HJ. pose proof (flattened_view t W top o P d Ho F) as V. destruct F as (s & n & U & C & ->).
  assert (Hs : forall j q K, P !! j = Some q -> (DNLInstances_ s ++ [null_instance]) !! j = Some K -> DNLInstances_ s !! j = Some K).
  { intros j q K Hj HK. rewrite lookup_app_l in HK; [done|]. rewrite (uf_length _ _ _ _ _ U). by eapply lookup_lt_Some. }
  cbn in HI, HJ. apply (Hs k l) in HI; [|done]. apply (Hs k' l') in HJ; [|done].
  destruct (C k l Hk Logic.I) as (a & b & (I' & HI' & Ha & Hb) & _). assert (I' = I) as -> by congruence.
  destruct (C k' l' Hk' Logic.I) as (a' & b' & (J' & HJ' & Ha' & Hb') & _ & _ & Hp). assert (J' = J) as -> by congruence.
  assert (Hid : forall j q K, P !! j = Some q -> DNLInstances_ s !! j = Some K -> is_none (dnl_id K) = false).
  { intros j q K Hj HK. destruct (uf_inst _ _ _ _ _ U j q Hj) as (K' & HK' & (_ & Hid & _) & _). assert (K' = K) as -> by congruence. by rewrite Hid. }
  unfold isUnder. rewrite (Hid k l I Hk HI), (Hid k' l' J Hk' HJ), Ha, Ha', Hb'. cbn. unfold id_lt. cbn.
  specialize (Hp k l a b Hk Logic.I ltac:(by exists I)). symmetry. case_bool_decide as H; symmetry.
  - apply Hp in H as [H1 H2]. rewrite (proj2 (Nat.leb_le _ _)) by done. cbn. apply negb_true_iff, Nat.leb_gt. done.
  - apply not_true_iff_false. intros [H1%Nat.leb_le H2%negb_true_iff%Nat.leb_gt]%andb_true_iff. apply H, Hp. lia.
Qed.

(** * The hierarchy *)

(** C7. Unfolding the hierarchy below a top design returns, when it is
    [flattenable]: no design contains itself, designs have at most 2^32 instances
    and terminals, the top or an instance in it has a terminal, and there is fuel
    for the instances and the depth. The instances are then
    the paths from the top, each once, and the null object at the end. An instance
    has the instance and the model at the end of its path, its parent is that of
    the path without its last instance, and the child found for an instance of its
    model is that of the path with the instance. The leaves are the instances,
    other than the top, of designs without instances, in order. *)
Theorem flat_instances s0 rank top fuel o : reachable s0 -> flattenable (str s0) rank top fuel ->
  exists d P, flatten (str s0) fuel top (nothing_flat o) = (Ret tt, d) /\ numbers_paths (str s0) top P /\
    length (DNLInstances_ d) = S (length P) /\ last (DNLInstances_ d) = Some null_instance /\
    (exists ks : list nat, leaves_ d = Some <$> ks /\ NoDup ks /\
       forall k, k ∈ ks <-> exists l, P !! k = Some l /\ l <> [] /\ getInstances (str s0) (model_at (str s0) top l) = []) /\
    forall k l, P !! k = Some l -> exists inst, DNLInstances_ d !! k = Some inst /\ dnl_id inst = Some k /\ dnl_instance inst = last l /\
      getSNLModel (str s0) top inst = Some (model_at (str s0) top l) /\
      (forall l' i, l = l' ++ [i] -> exists j J, P !! j = Some l' /\ DNLInstances_ d !! j = Some J /\ getParentInstance d inst = Some J) /\
      forall i, i ∈ getInstances (str s0) (model_at (str s0) top l) ->
        exists k' J, P !! k' = Some (l ++ [i]) /\ DNLInstances_ d !! k' = Some J /\ getChildInstance (str s0) top d inst i = Some J.
Proof.
  intros H F. destruct (flatten_view s0 rank top fuel o H F) as (d & P & E & V). destruct (reachable_netlist_wf _ H) as [W _]. exists d, P.
  split; [done|]. split; [by eapply view_paths|]. split; [apply fv_lengths|]. split; [apply fv_last|]. split; [rewrite fv_leaves; apply leaf_ids_ok|].
  intros k l Hk. destruct (fv_instance k l Hk) as (inst & Hi & Hat & _). exists inst. split; [done|]. pose proof Hat as (Hl & Hid & _). split; [done|]. split; [done|].
  split; [by eapply fv_model|]. split.
  - intros l' i ->. destruct (view_parent _ top P d V k l' i inst Hk Hi) as (j & J & Hj & HJ & Hp & _). by exists j, J.
  - intros i Hin. by apply (fv_getChildInstance k l inst i).
Qed.

(** C22. When a top is [flattenable], the terminals of the flat netlist are the bits of the terminals of the model
    at the end of each path, each once: every index but the last has its bit, and
    every bit its index. A terminal knows its instance, its terminal and its own
    index, and it is the one found for that terminal of the instance, or for the
    bit. *)
Theorem flat_terminals s0 rank top fuel o : reachable s0 -> flattenable (str s0) rank top fuel ->
  exists d P (at_ : nat -> list loc -> loc -> Prop), flatten (str s0) fuel top (nothing_flat o) = (Ret tt, d) /\ numbers_paths (str s0) top P /\
    last (DNLTerms_ d) = Some null_terminal /\
    (forall f, (f < length (DNLTerms_ d) - 1)%nat <-> exists l x, at_ f l x) /\
    (forall f l x l' x', at_ f l x -> at_ f l' x' -> l' = l /\ x' = x) /\
    (forall l x, path_from (str s0) top l -> x ∈ getBitTerms (str s0) (model_at (str s0) top l) -> exists f, at_ f l x /\ forall g, at_ g l x -> g = f) /\
    forall f l x, at_ f l x -> exists k it inst, P !! k = Some l /\ DNLInstances_ d !! k = Some inst /\ terminal_of (str s0) l x it /\
      DNLTerms_ d !! f = Some (mkDNLTerminal (Some k) it (Some x) (Some f)) /\
      getTerminalFromBitTerm (str s0) top d inst x = DNLTerms_ d !! f /\
      forall c, it = Some c -> getTerminal (str s0) d inst c = DNLTerms_ d !! f.
Proof.
  intros H F. destruct (flatten_view s0 rank top fuel o H F) as (d & P & E & V). destruct (reachable_netlist_wf _ H) as [W _]. exists d, P, (terminal_at (str s0) top P).
  split; [done|]. split; [by eapply view_paths|]. split; [apply fv_last|]. split; [|split; [|split]].
  - intros f. destruct fv_lengths as [_ ->]. split; [intros Hf; apply (fv_numbered (d := d)); lia|]. intros (l & x & Hf). destruct (fv_terminal f l x Hf) as (_ & _ & _ & _ & Hlt & _). lia.
  - intros f l x l' x'. by apply (fv_fun (d := d)).
  - intros l x Hl Hx. destruct (fv_terminal_exists (d := d) l x Hl Hx) as [f Hf]. exists f. split; [done|]. intros g Hg. by apply (fv_inj (d := d) g f l x).
  - intros f l x Hf. destruct (fv_terminal f l x Hf) as (k & it & Hk & Hit & _ & HT). destruct (fv_terminal_path f l x Hf) as [_ Hx].
    destruct (fv_instance k l Hk) as (inst & Hi & _). exists k, it, inst. split_and!; [done..| |].
    + destruct (fv_getTerminalFromBitTerm k l inst x Hk Hi Hx) as (g & it' & Hg & Hit' & ->). by rewrite HT, (fv_inj g f l x Hg Hf), (terminal_of_fun s0 W l x it it' Hit Hit').
    + intros c ->. unfold terminal_of in Hit. destruct l as [|i l _] using rev_ind; [done|]. rewrite last_snoc in Hit. destruct Hit as (c' & [= <-] & Hc).
      destruct (fv_getTerminal k l i inst c x Hk Hi Hc) as (g & Hg & ->). by rewrite HT, (fv_inj g f _ x Hg Hf).
Qed.

(** C24. When a top is [flattenable], an instance is under another by the intervals of the depth first search
    exactly when it is by the walk up its parents, that is when the path of the
    other begins its own. *)
Theorem isUnder_walks_up s0 rank top fuel o : reachable s0 -> flattenable (str s0) rank top fuel ->
  exists d P, flatten (str s0) fuel top (nothing_flat o) = (Ret tt, d) /\ numbers_paths (str s0) top P /\
    forall k l I k' l' J n, P !! k = Some l -> DNLInstances_ d !! k = Some I -> P !! k' = Some l' -> DNLInstances_ d !! k' = Some J -> (length l < n)%nat ->
      isInstanceChild d n (Some k') (Some k) = Ret (isUnder I J) /\ (isUnder I J = true <-> l' `prefix_of` l).
Proof.
  intros H F. destruct (flatten_flattened s0 rank top fuel o H F) as (d & o' & P & E & Ho & Hfl). destruct (reachable_netlist_wf _ H) as [W _].
  pose proof (flattened_view _ W top o' P d Ho Hfl) as V. exists d, P. split; [done|]. split; [by eapply view_paths|]. intros k l I k' l' J n Hk HI Hk' HJ Hn.
  rewrite (isUnder_ok _ W top o' P d k l I k' l' J Ho Hfl Hk HI Hk' HJ), (isInstanceChild_ok _ top P d V n k l k' l' Hk Hk' Hn), bool_decide_eq_true. done.
Qed.

(** C25. When a top is [flattenable], the path of a flat instance has the instances of its path from the top:
    [getPath] makes it, or finds the one there is, and whatever paths there are it
    never fails. *)
Theorem flat_getPath s0 rank top fuel o s : reachable s0 -> flattenable (str s0) rank top fuel -> reachable_paths (str s0) s ->
  exists d P, flatten (str s0) fuel top (nothing_flat o) = (Ret tt, d) /\ numbers_paths (str s0) top P /\
    forall k l I n, P !! k = Some l -> DNLInstances_ d !! k = Some I -> (length l <= n)%nat ->
      exists p s', dnl_getPath (str s0) top d n I s = (Ret p, s') /\ path_getInstances p s' = (Ret l, s') /\
        forall q, handle s q -> path_getInstances q s = (Ret l, s) -> q = p /\ s' = s.
Proof.
  intros H F Hs. destruct (flatten_view s0 rank top fuel o H F) as (d & P & E & V). destruct (reachable_netlist_wf _ H) as [W _]. pose proof (reachable_paths_wf _ W _ Hs) as Ws.
  exists d, P. split; [done|]. split; [by eapply view_paths|]. intros k l I n Hk HI Hn.
  pose proof (dnl_getPath_ok _ W top P d V n s k l I (fun _ _ => False) Ws Hk HI Hn) as Hp. unfold wp in Hp.
  destruct (dnl_getPath (str s0) top d n I s) as [[p|e|] s']; [|done..]. destruct Hp as (Ws' & Hsub & Hsp & Hsame). exists p, s'. split; [done|].
  split; [by eapply getInstances_returns|]. intros q Hq Hl. apply (getInstances_spells _ s q l s Ws Hq) in Hl as [Hl _]. pose proof (Hsame q Hl) as ->. split; [|done].
  by eapply (spells_inj _ s Ws).
Qed.

(** * Isos *)

(** An unfolding whose isos can be made: an assign has no instances, no other leaf
    has a net on the inside of a terminal, marks of the terminals have 32-bit word
    indices, and there is fuel for a traversal of all terminals. *)
Record buildable (s0 : netlist) (assign : option loc) (rank : loc -> nat) (top : loc) (fuel : nat) (o : orders) : Prop := {
  bd_flattenable : flattenable (str s0) rank top fuel;
  bd_assign A : assign = Some A -> getInstances (str s0) A = [];
  bd_leaves l i x : path_from (str s0) top (l ++ [i]) -> getInstances (str s0) (modelOf (str s0) i) = [] -> assign <> Some (modelOf (str s0) i) ->
    x ∈ getBitTerms (str s0) (modelOf (str s0) i) -> net_ s0 !! x = None;
  bd_size : Z.of_nat (length (DNLTerms_ (flatten (str s0) fuel top (nothing_flat o)).2)) <= 2 ^ 38;
  bd_fuel : (enough_fuel s0 (flatten (str s0) fuel top (nothing_flat o)).2 <= fuel)%nat }.
Definition reorders (schedule : list nat -> list nat) : Prop := forall l, schedule l ≡ₚ l.

Lemma process_labelled s0 assign rank top fuel o : reachable s0 -> buildable s0 assign rank top fuel o ->
  exists d P, flatten (str s0) fuel top (nothing_flat o) = (Ret tt, d) /\ flat_view (str s0) top P d /\
    (Z.of_nat (length (DNLTerms_ d)) <= 2 ^ 38 /\ (enough_fuel s0 d <= fuel)%nat) /\
    forall schedule, reorders schedule -> exists w, process assign s0 fuel schedule top o = Ret (mkDNL d (change_db add_null_iso w)) /\
      labelled s0 assign top P d w /\ forall f, wired s0 top P f -> is_Some (getIsoIdfromTermId w f).
Proof.
  intros H [F HA HL HN Hfuel]. destruct (flatten_view s0 rank top fuel o H F) as (d & P & E & V). destruct (reachable_netlist_wf _ H) as [W C]. rewrite E in HN, Hfuel. cbn [snd] in HN, Hfuel.
  exists d, P. split; [done|]. split; [done|]. split; [done|]. intros schedule Hs.
  pose proof (build_ok s0 W C assign top P d V HA HN fuel Hfuel HL schedule (fun _ _ => False) Hs) as Hb. unfold wp in Hb. unfold process. rewrite E. cbn.
  change (mkIsos (replicate (length (DNLTerms_ d)) None) no_isos) with (no_isos_of (length (DNLTerms_ d))).
  destruct (build assign s0 top d fuel schedule (no_marks, no_isos_of (length (DNLTerms_ d)))) as [[[]|e|] [v w]]; [|done..]. destruct Hb as [B Hw]. by exists w.
Qed.
Lemma labelled_last s0 assign top P d w : labelled s0 assign top P d w -> last (isos_ (fidb_ (change_db add_null_iso w))) = Some (mkIso [] [] None STANDART).
Proof. intros _. cbn. apply last_snoc. Qed.
Lemma labelled_lookup w (k : nat) : (k < length (isos_ (fidb_ (change_db add_null_iso w))) - 1)%nat -> isos_ (fidb_ (change_db add_null_iso w)) !! k = isos_ (fidb_ w) !! k.
Proof. cbn. rewrite length_app. cbn. intros Hk. apply lookup_app_l. lia. Qed.

(** C21. For an unfolding that is [buildable], whatever the order in which the tasks
    of a parallel loop run, the isos of the flat netlist are made: no assertion
    fails and nothing undefined happens. Buildable means: it can be unfolded
    ([flattenable]), assigns have no instances, no terminal of any other leaf has
    a net inside the leaf, there are at most 2^38 flat terminals, and the fuel is
    enough for a traversal. A leaf whose terminals share a net inside it can make
    an assertion fail ([feedthrough_asserts]). A
    terminal has an iso exactly when it is connected to a driver on the net outside
    its instance, to an input of the top on a net, or to a terminal on the net
    outside its instance or on the net inside a design of several instances. *)
Theorem isos_made s0 assign rank top fuel o : reachable s0 -> buildable s0 assign rank top fuel o ->
  exists d P, flatten (str s0) fuel top (nothing_flat o) = (Ret tt, d) /\ numbers_paths (str s0) top P /\
    forall schedule, reorders schedule -> exists D, process assign s0 fuel schedule top o = Ret D /\ dnl_flat D = d /\
      forall f, is_Some (getIsoIdfromTermId (dnl_isos D) f) <-> exists g, connected s0 assign top P g f /\ (source s0 top P g \/ wired s0 top P g).
Proof.
  intros H B. destruct (process_labelled s0 assign rank top fuel o H B) as (d & P & E & V & _ & Hp). exists d, P. split; [done|]. split; [by eapply view_paths|].
  intros schedule Hs. destruct (Hp schedule Hs) as (w & -> & L & Hw). eexists. split; [done|]. split; [done|]. intros f. cbn [dnl_isos].
  change (getIsoIdfromTermId (change_db add_null_iso w) f) with (getIsoIdfromTermId w f). split.
  - intros [k Hk]. destruct (labelled_owner s0 assign top P d w f k L Hk) as (i & g & _ & _ & Hg & _ & Hown). exists g. split; [by apply Hown|done].
  - intros (g & Hc & Hg). assert (Hsome : is_Some (getIsoIdfromTermId w g)) by (destruct Hg as [Hg|Hg]; [by apply (lb_source _ _ _ _ _ _ L)|by apply Hw]).
    destruct Hsome as [k Hk]. exists k. by eapply labelled_closed.
Qed.

(** C5. For a [buildable] unfolding, two terminals of which one has an iso have the same iso exactly when they
    are connected by nets, those inside an instance and those outside, however the
    tasks were scheduled; so two schedules put the same terminals together. *)
Theorem isos_partition s0 assign rank top fuel o : reachable s0 -> buildable s0 assign rank top fuel o ->
  exists P, numbers_paths (str s0) top P /\
    forall schedule schedule', reorders schedule -> reorders schedule' ->
      exists D D', process assign s0 fuel schedule top o = Ret D /\ process assign s0 fuel schedule' top o = Ret D' /\
        (forall f g k, getIsoIdfromTermId (dnl_isos D) f = Some k -> getIsoIdfromTermId (dnl_isos D) g = Some k <-> connected s0 assign top P f g) /\
        (forall f g, getIsoIdfromTermId (dnl_isos D) f = getIsoIdfromTermId (dnl_isos D) g <-> getIsoIdfromTermId (dnl_isos D') f = getIsoIdfromTermId (dnl_isos D') g).
Proof.
  intros H B. destruct (process_labelled s0 assign rank top fuel o H B) as (d & P & E & V & _ & Hp). exists P. split; [by eapply view_paths|].
  intros schedule schedule' Hs Hs'. destruct (Hp schedule Hs) as (w & -> & L & Hw). destruct (Hp schedule' Hs') as (w' & -> & L' & Hw').
  assert (Hpart : forall w f g k, labelled s0 assign top P d w -> getIsoIdfromTermId w f = Some k -> getIsoIdfromTermId w g = Some k <-> connected s0 assign top P f g).
  { intros u f g k Lu Hf. destruct (labelled_owner s0 assign top P d u f k Lu Hf) as (i & h & _ & _ & _ & _ & Hown). rewrite Hown. apply connected_iff. by apply Hown. }
  assert (Hsome : forall u u', labelled s0 assign top P d u -> labelled s0 assign top P d u' -> (forall f, wired s0 top P f -> is_Some (getIsoIdfromTermId u' f)) ->
    forall f, is_Some (getIsoIdfromTermId u f) -> is_Some (getIsoIdfromTermId u' f)).
  { intros u u' Lu Lu' Hwu f [k Hk]. destruct (labelled_owner s0 assign top P d u f k Lu Hk) as (i & h & _ & _ & Hh & _ & Hown).
    assert (Hh' : is_Some (getIsoIdfromTermId u' h)) by (destruct Hh as [Hh|Hh]; [by apply (lb_source _ _ _ _ _ _ Lu')|by apply Hwu]).
    destruct Hh' as [k' Hk']. exists k'. eapply labelled_closed; [done| |done]. by apply Hown. }
  assert (Hsame : forall u u', labelled s0 assign top P d u -> labelled s0 assign top P d u' -> (forall f, wired s0 top P f -> is_Some (getIsoIdfromTermId u f)) ->
    (forall f, wired s0 top P f -> is_Some (getIsoIdfromTermId u' f)) -> forall f g, getIsoIdfromTermId u f = getIsoIdfromTermId u g -> getIsoIdfromTermId u' f = getIsoIdfromTermId u' g).
  { intros u u' Lu Lu' Hwu Hwu' f g Hfg. destruct (getIsoIdfromTermId u f) as [k|] eqn:Ef.
    - destruct (Hsome u u' Lu Lu' Hwu' f ltac:(by eexists)) as [k' Hk']. rewrite Hk'. symmetry. apply (Hpart u' f g k' Lu' Hk'), (Hpart u f g k Lu Ef). done.
    - destruct (getIsoIdfromTermId u' f) as [k'|] eqn:Ef'; [destruct (Hsome u' u Lu' Lu Hwu f ltac:(by eexists)); congruence|].
      destruct (getIsoIdfromTermId u' g) as [k'|] eqn:Eg'; [destruct (Hsome u' u Lu' Lu Hwu g ltac:(by eexists)); congruence|done]. }
  do 2 eexists. split; [done|]. split; [done|]. split; [intros f g k; exact (Hpart w f g k L)|]. intros f g. split; [exact (Hsame w w' L L' Hw Hw' f g)|exact (Hsame w' w L' L Hw' Hw f g)].
Qed.

(** C8. For a [buildable] unfolding, an iso of the flat netlist knows its index. It is a shadow, which is empty,
    or holds the drivers and the readers connected to a terminal that has it, each
    once, and its type is that of their nets: constant when one constant is met,
    ambiguous when several are. The isos of a constant are found among its own,
    but for shadows; the last iso is the null iso. *)
Theorem iso_contents s0 assign rank top fuel o schedule : reachable s0 -> buildable s0 assign rank top fuel o -> reorders schedule ->
  exists P D, numbers_paths (str s0) top P /\ process assign s0 fuel schedule top o = Ret D /\
    let db := fidb_ (dnl_isos D) in
    last (isos_ db) = Some (mkIso [] [] None STANDART) /\
    forall k i, (k < length (isos_ db) - 1)%nat -> isos_ db !! k = Some i -> iso_id i = Some k /\
      (k ∈ shadowIsos_ db -> i = mkIso [] [] (Some k) SHADOW) /\
      (k ∉ shadowIsos_ db -> (exists f, getIsoIdfromTermId (dnl_isos D) f = Some k /\ filled s0 assign top P f i) /\
         forall c, is_const c -> k ∈ const_set c db <-> isoType_ i = c).
Proof.
  intros H B Hs. destruct (process_labelled s0 assign rank top fuel o H B) as (d & P & E & V & _ & Hp). destruct (Hp schedule Hs) as (w & -> & L & Hw).
  exists P. eexists. split; [by eapply view_paths|]. split; [done|]. cbn zeta. split; [by eapply labelled_last|]. cbn [dnl_isos]. intros k i Hk. rewrite labelled_lookup by done. intros Hi.
  destruct (lb_iso _ _ _ _ _ _ L k i Hi) as [Hid Hcase]. change (shadowIsos_ (fidb_ (change_db add_null_iso w))) with (shadowIsos_ (fidb_ w)). split; [done|]. split.
  - intros Hsh. by destruct Hcase as [[_ ?]|[? _]].
  - intros Hsh. destruct Hcase as [[? _]|(_ & f & _ & Hfl & Hown)]; [done|]. split; [exists f; split; [by apply Hown|done]|].
    intros c Hc. assert (Ec : const_set c (fidb_ (change_db add_null_iso w)) = const_set c (fidb_ w)) by by destruct c.
    rewrite Ec, (lb_consts _ _ _ _ _ _ L c k Hc Hsh), Hi. split; [by intros (j & [= <-] & ?)|intros ?; by exists i].
Qed.

(** What a complex iso has kept of the events. *)
Record complex_kept (id : DNLID) (L : list event) (c : DNLComplexIso) : Prop := {
  ck_base : base_iso c = mkIso (of_role Driver L) (of_role Reader L) id STANDART;
  ck_hier : iso_hierTerms c = of_role Hier L;
  ck_nets n : n ∈ iso_nets c <-> MetNet n ∈ L }.
Lemma complex_keeps s0 id L c e E : complex_kept id L c -> wp (take_event s0 complex_collects e) c (fun _ c' => complex_kept id (L ++ [e]) c') E.
Proof.
  intros [Kb Kh Kn]. destruct e as [[] f|n]; cbn [take_event meets complex_collects addReader addDriver addHierTerm updateReaderIsoID updateDriverIsoID].
  4: { unfold meets_net. cbn [complex_collects addNet updateConstant]. rewrite wp_bind, wp_modify.
    assert (H : complex_kept id (L ++ [MetNet n]) (mkComplexIso (base_iso c) ({[n]} ∪ iso_nets c) (iso_hierTerms c))).
    { split; cbn; rewrite ?of_role_snoc; cbn; rewrite ?app_nil_r; [done|done|]. intros m. rewrite elem_of_union, elem_of_singleton, Kn, elem_of_app, list_elem_of_singleton. split; [intros [->|]; [by right|by left]|intros [|[= ->]]; [by right|by left]]. }
    by destruct (net_constant s0 n). }
  all: rewrite wp_bind, wp_modify, wp_ret; split; cbn; rewrite ?Kb, ?Kh, ?of_role_snoc; cbn; rewrite ?app_nil_r; try done.
  all: intros n; rewrite Kn, elem_of_app, list_elem_of_singleton; split; [by left|by intros [|]].
Qed.
Lemma custom_collects s0 (W : struct_wf (str s0)) (C : conn_wf s0) assign top P d (V : flat_view (str s0) top P d) fuel id seed :
  (forall A, assign = Some A -> getInstances (str s0) A = []) -> Z.of_nat (length (DNLTerms_ d)) <= 2 ^ 38 -> (enough_fuel s0 d <= fuel)%nat -> (seed < terminals (str s0) top P)%nat ->
  exists v c L, treatDriver assign s0 top d complex_collects fuel seed (no_marks, new_complexIso id) = (Ret tt, (v, c)) /\
    complex_kept id L c /\ collected s0 assign top P seed L.
Proof.
  intros HA HN Hf Hs. pose proof (treatDriver_ok s0 W C assign top P d V HA HN complex_collects seed Hs (complex_kept id)) as H.
  specialize (H ltac:(intros L e w E K _ _; by apply complex_keeps) fuel no_marks (new_complexIso id) (fun _ _ => False) ltac:(by left)).
  unfold wp in H. destruct (treatDriver assign s0 top d complex_collects fuel seed (no_marks, new_complexIso id)) as [[[]|e|] [v c]].
  2-3: destruct H; [|done]; split; [done|done|intros n; by split; [intros ?%elem_of_empty|intros ?%not_elem_of_nil]].
  destruct H as (L & Hc & K & _); [|done|by exists v, c, L]. split; [done|done|intros n; by split; [intros ?%elem_of_empty|intros ?%not_elem_of_nil]].
Qed.

(** C23. For a [buildable] unfolding, a complex iso is filled for an iso identifier: with the drivers and the
    readers of the iso of that identifier, the terminals of instances in between
    that have the identifier, and the nets on the way. For a shadow, for the null
    iso and for the identifier of none it stays empty. *)
Theorem custom_iso s0 assign rank top fuel o schedule : reachable s0 -> buildable s0 assign rank top fuel o -> reorders schedule ->
  exists P D, numbers_paths (str s0) top P /\ process assign s0 fuel schedule top o = Ret D /\
    let db := fidb_ (dnl_isos D) in let getIso k := getCustomIso assign s0 top D complex_collects complex_setId fuel k (new_complexIso None) in
    getIso None = Ret (new_complexIso None) /\
    forall k i, (k < length (isos_ db) - 1)%nat -> isos_ db !! k = Some i -> exists c, getIso (Some k) = Ret c /\ iso_id (base_iso c) = Some k /\
      (drivers_ i ++ readers_ i = [] -> c = new_complexIso (Some k)) /\
      (drivers_ i ++ readers_ i <> [] -> drivers_ (base_iso c) ≡ₚ drivers_ i /\ readers_ (base_iso c) ≡ₚ readers_ i /\ NoDup (iso_hierTerms c) /\
         (forall g, g ∈ iso_hierTerms c <-> getIsoIdfromTermId (dnl_isos D) g = Some k /\ has_role s0 top P g Hier) /\
         forall n, n ∈ iso_nets c <-> exists g l, getIsoIdfromTermId (dnl_isos D) g = Some k /\ on_node s0 assign top P g (l, n)).
Proof.
  intros H B Hs. destruct (process_labelled s0 assign rank top fuel o H B) as (d & P & E & V & [HN Hf] & Hp). destruct (Hp schedule Hs) as (w & -> & L & Hw).
  destruct (reachable_netlist_wf _ H) as [W C]. exists P. eexists. split; [by eapply view_paths|]. split; [done|]. cbn zeta. unfold getCustomIso. cbn [dnl_isos dnl_flat]. split.
  { unfold getIsoFromIsoIDconst. by rewrite (labelled_last _ _ _ _ _ _ L). }
  intros k i Hk. rewrite labelled_lookup by done. intros Hi. unfold getIsoFromIsoIDconst. rewrite labelled_lookup, Hi by done.
  change (complex_setId (Some k) (new_complexIso None)) with (new_complexIso (Some k)).
  destruct (drivers_ i ++ readers_ i) as [|seed rest] eqn:Es; [exists (new_complexIso (Some k)); by split_and!|].
  destruct (lb_iso _ _ _ _ _ _ L k i Hi) as [_ [[_ ->]|(_ & f & _ & Hfl & Hown)]]; [done|]. pose proof Hfl as (Hnd & Hd & Hnr & Hr & _).
  assert (Hseed : connected s0 assign top P f seed).
  { assert (Hin : seed ∈ drivers_ i ++ readers_ i) by (rewrite Es; left). by apply elem_of_app in Hin as [[? _]%Hd|[? _]%Hr]. }
  assert (Hrole : exists r, has_role s0 top P seed r).
  { assert (Hin : seed ∈ drivers_ i ++ readers_ i) by (rewrite Es; left). apply elem_of_app in Hin as [Hin%Hd|Hin%Hr]; eexists; apply Hin. }
  destruct Hrole as (r & l & x & Hat & _).
  destruct (custom_collects s0 W C assign top P d V fuel (Some k) seed (bd_assign _ _ _ _ _ _ B) HN Hf ltac:(by eapply terminal_lt)) as (v & c & Ev & -> & [Kb Kh Kn] & [Ct Cn Ca Cnet]).
  exists c. split; [done|]. rewrite Kb, Kh. split; [done|]. split; [done|]. intros _.
  assert (Hconn : forall g, connected s0 assign top P seed g <-> connected s0 assign top P f g) by (intros g; symmetry; by apply connected_iff).
  assert (Hof : forall q g, g ∈ of_role q Ev <-> connected s0 assign top P f g /\ has_role s0 top P g q).
  { intros q g. rewrite elem_of_role. split; [intros He; destruct (Ct _ He) as [Hc Hq]; by rewrite <- Hconn|]. intros [Hc Hq]. apply Hconn, Ca, elem_of_met in Hc as [q' He].
    destruct (Ct _ He) as [_ Hq']. by rewrite (has_role_fun s0 top P d V g _ _ Hq' Hq). }
  cbn [drivers_ readers_]. split_and!.
  - apply NoDup_Permutation; [by apply NoDup_of_role|done|]. intros g. by rewrite Hof, Hd.
  - apply NoDup_Permutation; [by apply NoDup_of_role|done|]. intros g. by rewrite Hof, Hr.
  - by apply NoDup_of_role.
  - intros g. rewrite Hof. by rewrite <- Hown.
  - intros n. rewrite Kn, Cnet. split; intros (g & q & Hc & Hon); exists g, q; (split; [|done]); [by apply Hown, Hconn|by apply Hconn, Hown].
Qed.

(** * An example *)

Definition levels_rank (d : loc) : nat := match d with 1%positive => 2 | 2%positive => 1 | _ => 0 end.
Definition levels_orders : orders := mkOrders ∅ ∅.
Lemma in_heap {A} (p : loc -> A -> bool) (m : gmap loc A) i a : forallb (fun q => p q.1 q.2) (map_to_list m) = true -> m !! i = Some a -> p i a = true.
Proof. intros H Hi. rewrite forallb_forall in H. apply (H (i, a)), list_elem_of_In. by apply elem_of_map_to_list. Qed.
Definition levels_designs_list : list loc := [1; 2; 3; 4]%positive.
Lemma levels_instances m : m ∉ levels_designs_list -> getInstances (str levels) m = [].
Proof.
  intros Hm. destruct (reachable_netlist_wf _ levels_reachable) as [W _]. apply elem_of_nil_inv. intros i (inst & Hi & <-)%(elem_of_getInstances _ W).
  apply Hm. assert (H : bool_decide (h_design inst ∈ levels_designs_list) = true) by (apply (in_heap (fun _ inst => bool_decide (h_design inst ∈ levels_designs_list)) (instHeap (str levels)) i inst); [by vm_compute|done]).
  by apply bool_decide_eq_true in H.
Qed.
Lemma levels_bits m : m ∉ levels_designs_list -> getBitTerms (str levels) m = [].
Proof.
  intros Hm. destruct (reachable_netlist_wf _ levels_reachable) as [W _]. apply elem_of_nil_inv. intros x Hx.
  apply (elem_of_getBitTerms _ _ _ _ W) in Hx as [_ (h & Hh & ->)%fmap_Some].
  assert (Hx : exists v, termHeap (str levels) !! x = Some v) by (unfold object_header in Hh; destruct (termHeap (str levels) !! x) as [v|]; [by exists v|done]).
  destruct Hx as [v Hv]. pose proof (in_heap (fun x _ => match object_header (termHeap (str levels)) x with Some h => bool_decide (h_design h ∈ levels_designs_list) | None => true end)
    (termHeap (str levels)) x v ltac:(by vm_compute) Hv) as H. cbn beta in H. rewrite Hh in H. apply bool_decide_eq_true in H. exact (Hm H).
Qed.
Lemma levels_flattenable : flattenable (str levels) levels_rank 1 500.
Proof.
  split.
  - intros i inst Hi. apply Nat.ltb_lt. exact (in_heap (fun _ inst => (levels_rank (model_ (h_extra inst)) <? levels_rank (h_design inst))%nat) (instHeap (str levels)) i inst ltac:(by vm_compute) Hi).
  - intros m. destruct (decide (m ∈ levels_designs_list)) as [Hm|Hm].
    + assert (H : forallb (fun m => (Z.of_nat (length (getInstances (str levels) m)) <=? 2 ^ 32) && (Z.of_nat (length (getBitTerms (str levels) m)) <=? 2 ^ 32)) levels_designs_list = true) by by vm_compute.
      rewrite forallb_forall in H. apply list_elem_of_In, H, andb_true_iff in Hm as [?%Z.leb_le ?%Z.leb_le]. done.
    + rewrite levels_instances, levels_bits by done. cbn. lia.
  - vm_compute. by eexists.
  - left. by vm_compute.
  - apply Nat.leb_le. by vm_compute.
  - apply Nat.ltb_lt. by vm_compute.
Qed.
Lemma levels_buildable : buildable levels (Some 3%positive) levels_rank 1 500 levels_orders.
Proof.
  split.
  - exact levels_flattenable.
  - intros A [= <-]. by vm_compute.
  - intros l i x Hp Hleaf Ha Hx. destruct (reachable_netlist_wf _ levels_reachable) as [W _]. apply path_from_snoc in Hp as [_ (inst & Hi & _)%(elem_of_getInstances _ W)].
    pose proof (in_heap (fun i _ => bool_decide (getInstances (str levels) (modelOf (str levels) i) <> []) || bool_decide (Some 3%positive = Some (modelOf (str levels) i)) ||
      forallb (fun x => is_none (net_ levels !! x)) (getBitTerms (str levels) (modelOf (str levels) i))) (instHeap (str levels)) i inst ltac:(by vm_compute) Hi) as H. cbn beta in H.
    apply orb_true_iff in H as [H|H].
    + apply orb_true_iff in H as [H|H]; apply bool_decide_eq_true in H; [exact (False_ind _ (H Hleaf))|exact (False_ind _ (Ha H))].
    + rewrite forallb_forall in H. apply is_none_true, H, list_elem_of_In. exact Hx.
  - apply Z.leb_le. by vm_compute.
  - apply Nat.leb_le. by vm_compute.
Qed.
Definition levels_flat : flat := (flatten (str levels) 500 1 (nothing_flat levels_orders)).2.
Lemma levels_flat_is d : flatten (str levels) 500 1 (nothing_flat levels_orders) = (Ret tt, d) -> d = levels_flat.
Proof. intros E. unfold levels_flat. by rewrite E. Qed.
Lemma flat_instances_witness : exists d P, flatten (str levels) 500 1 (nothing_flat levels_orders) = (Ret tt, d) /\ numbers_paths (str levels) 1 P /\ length P = 5%nat /\
  leaves_ d = [Some 2; Some 3; Some 4]%nat.
Proof.
  destruct (flat_instances levels levels_rank 1 500 levels_orders levels_reachable levels_flattenable) as (d & P & E & HP & Hlen & _). exists d, P.
  split; [exact E|]. split; [exact HP|]. pose proof (levels_flat_is d E) as ->. split; [|vm_compute; reflexivity].
  assert (H : length (DNLInstances_ levels_flat) = 6%nat) by (vm_compute; reflexivity). rewrite H in Hlen. lia.
Defined.
Lemma flat_terminals_witness : exists d P, flatten (str levels) 500 1 (nothing_flat levels_orders) = (Ret tt, d) /\ numbers_paths (str levels) 1 P /\ length (DNLTerms_ d) = 7%nat /\
  exists l k inst, P !! k = Some l /\ DNLInstances_ d !! k = Some inst /\ getTerminalFromBitTerm (str levels) 1 d inst 5 = DNLTerms_ d !! 0%nat.
Proof.
  destruct (flat_terminals levels levels_rank 1 500 levels_orders levels_reachable levels_flattenable) as (d & P & at_ & E & HP & _ & Hall & _ & _ & Hat). exists d, P.
  split; [exact E|]. split; [exact HP|]. pose proof (levels_flat_is d E) as ->. assert (Hlen : length (DNLTerms_ levels_flat) = 7%nat) by (vm_compute; reflexivity).
  split; [exact Hlen|]. destruct (proj1 (Hall 0%nat)) as (l & x & H0); [rewrite Hlen; lia|]. destruct (Hat 0%nat l x H0) as (k & it & inst & Hk & Hi & _ & HT & Hget & _).
  assert (Hx : (DNLTerms_ levels_flat !! 0%nat ≫= dnl_bitTerminal) = Some 5%positive) by (vm_compute; reflexivity). rewrite HT in Hx. injection Hx as ->.
  exists l, k, inst. split; [exact Hk|]. split; [exact Hi|exact Hget].
Defined.
Lemma isUnder_walks_up_witness : exists d P, flatten (str levels) 500 1 (nothing_flat levels_orders) = (Ret tt, d) /\ numbers_paths (str levels) 1 P /\
  forall k l I n, P !! k = Some l -> DNLInstances_ d !! k = Some I -> (length l < n)%nat -> isUnder I I = true /\ isInstanceChild d n (Some k) (Some k) = Ret true.
Proof.
  destruct (isUnder_walks_up levels levels_rank 1 500 levels_orders levels_reachable levels_flattenable) as (d & P & E & HP & H). exists d, P.
  split; [exact E|]. split; [exact HP|]. intros k l I n Hk HI Hn. destruct (H k l I k l I n Hk HI Hk HI Hn) as [H1 H2].
  assert (Hu : isUnder I I = true) by (apply H2; reflexivity). split; [exact Hu|]. rewrite H1, Hu. reflexivity.
Defined.
Lemma flat_getPath_witness : exists d P, flatten (str levels) 500 1 (nothing_flat levels_orders) = (Ret tt, d) /\ numbers_paths (str levels) 1 P /\
  forall k l I, P !! k = Some l -> DNLInstances_ d !! k = Some I -> (length l <= 2)%nat ->
    exists p s', dnl_getPath (str levels) 1 d 2 I levels_paths = (Ret p, s') /\ path_getInstances p s' = (Ret l, s').
Proof.
  destruct (flat_getPath levels levels_rank 1 500 levels_orders levels_paths levels_reachable levels_flattenable levels_paths_reachable) as (d & P & E & HP & H). exists d, P.
  split; [exact E|]. split; [exact HP|]. intros k l I Hk HI Hl. destruct (H k l I 2%nat Hk HI Hl) as (p & s' & H1 & H2 & _). exists p, s'. split; [exact H1|exact H2].
Defined.
Lemma reverse_reorders : reorders reverse.
Proof. intros l. apply reverse_Permutation. Qed.
Lemma isos_made_witness : exists P D, numbers_paths (str levels) 1 P /\ process (Some 3%positive) levels 500 reverse 1 levels_orders = Ret D /\
  exists g, connected levels (Some 3%positive) 1 P g 2%nat /\ (source levels 1 P g \/ wired levels 1 P g).
Proof.
  destruct (isos_made levels (Some 3%positive) levels_rank 1 500 levels_orders levels_reachable levels_buildable) as (d & P & _ & HP & H).
  destruct (H reverse reverse_reorders) as (D & E & _ & Hf). exists P, D. split; [exact HP|]. split; [exact E|]. apply Hf.
  assert (Hc : match process (Some 3%positive) levels 500 reverse 1 levels_orders with Ret D => getIsoIdfromTermId (dnl_isos D) 2 | _ => None end = Some 1%nat) by (vm_compute; reflexivity).
  rewrite E in Hc. exists 1%nat. exact Hc.
Defined.
Lemma isos_partition_witness : exists P, numbers_paths (str levels) 1 P /\ connected levels (Some 3%positive) 1 P 0%nat 5%nat /\ ~ connected levels (Some 3%positive) 1 P 0%nat 4%nat.
Proof.
  destruct (isos_partition levels (Some 3%positive) levels_rank 1 500 levels_orders levels_reachable levels_buildable) as (P & HP & H).
  destruct (H reverse id reverse_reorders (fun l => reflexivity l)) as (D & D' & E & _ & Hp & _). exists P. split; [exact HP|].
  assert (Hc : match process (Some 3%positive) levels 500 reverse 1 levels_orders with Ret D => [getIsoIdfromTermId (dnl_isos D) 0; getIsoIdfromTermId (dnl_isos D) 5; getIsoIdfromTermId (dnl_isos D) 4] | _ => [] end
    = [Some 1; Some 1; Some 0]%nat) by (vm_compute; reflexivity).
  rewrite E in Hc. injection Hc as H0 H5 H4. split; [apply (Hp 0%nat 5%nat 1%nat H0); exact H5|]. intros Hn. apply (Hp 0%nat 4%nat 1%nat H0) in Hn. congruence.
Defined.
Lemma iso_contents_witness : exists P D i, numbers_paths (str levels) 1 P /\ process (Some 3%positive) levels 500 reverse 1 levels_orders = Ret D /\
  isos_ (fidb_ (dnl_isos D)) !! 1%nat = Some i /\ i = mkIso [0%nat] [2; 5]%nat (Some 1%nat) CONST0 /\ filled levels (Some 3%positive) 1 P 0%nat i.
Proof.
  destruct (iso_contents levels (Some 3%positive) levels_rank 1 500 levels_orders reverse levels_reachable levels_buildable reverse_reorders) as (P & D & HP & E & _ & H). cbn zeta in H.
  assert (Hc : match process (Some 3%positive) levels 500 reverse 1 levels_orders with Ret D => (length (isos_ (fidb_ (dnl_isos D))), isos_ (fidb_ (dnl_isos D)) !! 1%nat, shadowIsos_ (fidb_ (dnl_isos D)), termId2isoId_ (dnl_isos D)) | _ => (0%nat, None, [], []) end
    = (3%nat, Some (mkIso [0%nat] [2; 5]%nat (Some 1%nat) CONST0), [], [Some 1; Some 1; Some 1; Some 0; Some 0; Some 1; None]%nat)) by (vm_compute; reflexivity).
  rewrite E in Hc. injection Hc as Hlen Hi Hs Hids. destruct (H 1%nat _ ltac:(rewrite Hlen; lia) Hi) as (_ & _ & Hn). rewrite Hs in Hn. destruct (Hn (not_elem_of_nil _)) as [(f & Hf & Hfl) _].
  exists P, D, (mkIso [0%nat] [2; 5]%nat (Some 1%nat) CONST0). split; [exact HP|]. split; [exact E|]. split; [exact Hi|]. split; [reflexivity|].
  eapply filled_connected; [|exact Hfl]. destruct Hfl as (_ & Hd & _). apply (Hd 0%nat). left.
Defined.
Lemma custom_iso_witness : exists P D c, numbers_paths (str levels) 1 P /\ process (Some 3%positive) levels 500 reverse 1 levels_orders = Ret D /\
  getCustomIso (Some 3%positive) levels 1 D complex_collects complex_setId 500 (Some 1%nat) (new_complexIso None) = Ret c /\
  drivers_ (base_iso c) ≡ₚ [0%nat] /\ (8%positive ∈ iso_nets c <-> exists g l, getIsoIdfromTermId (dnl_isos D) g = Some 1%nat /\ on_node levels (Some 3%positive) 1 P g (l, 8%positive)).
Proof.
  destruct (custom_iso levels (Some 3%positive) levels_rank 1 500 levels_orders reverse levels_reachable levels_buildable reverse_reorders) as (P & D & HP & E & H). cbn zeta in H. destruct H as [_ H].
  assert (Hc : match process (Some 3%positive) levels 500 reverse 1 levels_orders with Ret D => (length (isos_ (fidb_ (dnl_isos D))), isos_ (fidb_ (dnl_isos D)) !! 1%nat) | _ => (0%nat, None) end
    = (3%nat, Some (mkIso [0%nat] [2; 5]%nat (Some 1%nat) CONST0))) by (vm_compute; reflexivity).
  rewrite E in Hc. injection Hc as Hlen Hi. destruct (H 1%nat _ ltac:(rewrite Hlen; lia) Hi) as (c & Hc & _ & _ & Hfull).
  destruct Hfull as (Hd & _ & _ & _ & Hn); [done|]. exists P, D, c. split; [exact HP|]. split; [exact E|]. split; [exact Hc|]. split; [exact Hd|exact (Hn 8%positive)].
Defined.

(** Design 2 joins its two terminals by a net; it is a leaf. In design 1 its input
    is on a net without drivers. The terminals dangle, but one is a driver. *)
Definition feedthrough_steps : list operation :=
  [ CreateScalarTerm 2 Input 0; CreateScalarTerm 2 Output 0; CreateScalarNet 2 0; CreateScalarNet 1 0; CreateInstance 1 2 0; (* 1, 2, 3, 4; 5 with 6, 7 *)
    SetNet 1 (Some 3%positive); SetNet 2 (Some 3%positive); SetNet 6 (Some 4%positive) ].
Definition feedthrough : option netlist := run_all feedthrough_steps (initial levels_designs).
Lemma feedthrough_asserts :
  match feedthrough with
  | Some s => match flatten (str s) 500 1 (nothing_flat levels_orders), process (Some 3%positive) s 500 id 1 levels_orders with (Ret tt, d), Undef => length (DNLTerms_ d) = 3%nat | _, _ => False end
  | None => False
  end.
Proof. vm_compute. reflexivity. Qed.
(** A net on the port alone, inside an instance with one child: the instance is
    not one of the leaves, but [isLeaf] says so, and the port has no iso. *)
Definition one_child_steps : list operation :=
  [ CreateScalarTerm 2 Input 0; CreateScalarNet 2 0; CreateInstance 2 4 0; CreateInstance 1 2 0; SetNet 1 (Some 2%positive) ].
Definition two_children_steps : list operation :=
  [ CreateScalarTerm 2 Input 0; CreateScalarNet 2 0; CreateInstance 2 4 0; CreateInstance 2 4 0; CreateInstance 1 2 0; SetNet 1 (Some 2%positive) ].
Definition port_iso (os : list operation) : option (list bool * list DNLID * DNLID) :=
  s ← run_all os (initial levels_designs);
  match process (Some 3%positive) s 500 id 1 levels_orders with
  | Ret D => Some (dnl_isLeaf <$> DNLInstances_ (dnl_flat D), leaves_ (dnl_flat D), getIsoIdfromTermId (dnl_isos D) 0)
  | _ => None
  end.
Lemma isLeaf_of_one_child : port_iso one_child_steps = Some ([true; true; true; true], [Some 2%nat], None) /\
  port_iso two_children_steps = Some ([true; false; true; true; true], [Some 2; Some 3]%nat, Some 0%nat).
Proof. split; vm_compute; reflexivity. Qed.
