(* ===== verification/VhdlLexer.v ===== *)
(** The scanner of the VHDL front end (vhdl/src/Lexer.cpp, vhdl/include/vhdl/Lexer.h).
    A loop takes fuel and is [Undef] without it; reading a character outside the
    source is [Undef]. Offsets, lines and columns are [size_t]s that stay below
    the size of the source, plus one. *)
From Stdlib Require Export Ascii.
From S2P Require Import Prelude Store.
Local Open Scope nat_scope.

(** * Data *)

Record SourcePosition := mkPos { offset : nat; line : nat; column : nat }.
Record SourceSpan := mkSpan { span_start : SourcePosition; span_end : SourcePosition }.
Inductive TokenKind :=
| Identifier | ExtendedIdentifier | IntegerLiteral | RealLiteral | StringLiteral | CharacterLiteral | Symbol | Invalid | EndOfFile.
Record Token := mkToken { kind : TokenKind; text : list ascii; canonical : list ascii; span : SourceSpan }.
Record LexDiagnostic := mkDiagnostic { message : string; d_span : SourceSpan }.
Record LexResult := mkResult { tokens : list Token; diagnostics : list LexDiagnostic }.
Record Scanner := mkScanner {
  excluded_ : bool; exclusionStart_ : SourcePosition; position_ : SourcePosition; result_ : LexResult }.

Definition set_position (p : SourcePosition) (s : Scanner) : Scanner := mkScanner (excluded_ s) (exclusionStart_ s) p (result_ s).
Definition set_excluded (e : bool) (x : SourcePosition) (s : Scanner) : Scanner := mkScanner e x (position_ s) (result_ s).
Definition push_token (t : Token) (s : Scanner) : Scanner :=
  mkScanner (excluded_ s) (exclusionStart_ s) (position_ s) (mkResult (tokens (result_ s) ++ [t]) (diagnostics (result_ s))).
Definition push_diagnostic (d : LexDiagnostic) (s : Scanner) : Scanner :=
  mkScanner (excluded_ s) (exclusionStart_ s) (position_ s) (mkResult (tokens (result_ s)) (diagnostics (result_ s) ++ [d])).

(** * Characters *)

Definition NUL : ascii := "000"%char.
Definition newline : ascii := "010"%char.
Definition quote : ascii := "034"%char.
Definition between (a c b : ascii) : bool := (N_of_ascii a <=? N_of_ascii c)%N && (N_of_ascii c <=? N_of_ascii b)%N.
Definition isUpper (c : ascii) : bool := between "A" c "Z".
Definition isAlpha (c : ascii) : bool := between "A" c "Z" || between "a" c "z".
Definition isDigit (c : ascii) : bool := between "0" c "9".
Definition isAlphaNumeric (c : ascii) : bool := isAlpha c || isDigit c.
Definition is_one_of (l : list ascii) (c : ascii) : bool := existsb (Ascii.eqb c) l.
Definition isWhitespace (c : ascii) : bool := is_one_of [" "; "009"; "010"; "013"; "012"]%char c.
Definition toLower (c : ascii) : ascii := if isUpper c then ascii_of_N (N_of_ascii c - N_of_ascii "A" + N_of_ascii "a") else c.
Definition chars (s : string) : list ascii := String.list_ascii_of_string s.

(** [words >> word] of an [istringstream] in the "C" locale. *)
Definition is_blank (c : ascii) : bool := is_one_of [" "; "009"; "010"; "011"; "012"; "013"]%char c.
Fixpoint skip_while (p : ascii -> bool) (l : list ascii) : list ascii :=
  match l with c :: l' => if p c then skip_while p l' else l | [] => [] end.
Fixpoint take_while (p : ascii -> bool) (l : list ascii) : list ascii :=
  match l with c :: l' => if p c then c :: take_while p l' else [] | [] => [] end.
Definition next_word (l : list ascii) : list ascii * list ascii :=
  let l := skip_while is_blank l in (take_while (fun c => negb (is_blank c)) l, skip_while (fun c => negb (is_blank c)) l).

(** * Loops *)

(** [for (;;)]: the body gives a result when it breaks or returns. *)
Fixpoint loop {St R} (fuel : nat) (body : prog St (option R)) : prog St R :=
  match fuel with
  | O => undef
  | S fuel => r ← body; match r with Some r => mret r | None => loop fuel body end
  end.
Definition while {St} (fuel : nat) (c : St -> bool) (body : prog St unit) : prog St unit :=
  loop fuel (b ← gets c; if b : bool then body ;; mret None else mret (Some tt)).

(** * The scanner *)

Section scanner.
Context (source : list ascii) (synthesis : bool).

(** No loop turns more often than there are characters. *)
Definition turns : nat := S (length source).

Definition atEnd (s : Scanner) : bool := length source <=? offset (position_ s).
Definition peek (lookahead : nat) (s : Scanner) : ascii :=
  let index := offset (position_ s) + lookahead in
  if index <? length source then default NUL (source !! index) else NUL.
Definition move (c : ascii) (p : SourcePosition) : SourcePosition :=
  if Ascii.eqb c newline then mkPos (S (offset p)) (S (line p)) 1 else mkPos (S (offset p)) (line p) (S (column p)).
Definition advance : prog Scanner ascii :=
  c ← deref (fun s => source !! offset (position_ s)); modify (fun s => set_position (move c (position_ s)) s) ;; mret c.
Definition skip : prog Scanner unit := advance ;; mret tt.
Definition skip_chars (p : ascii -> bool) : prog Scanner unit := while turns (fun s => p (peek 0 s)) skip.

Definition substr (from n : nat) : list ascii := take n (drop from source).
Definition emit (k : TokenKind) (start : SourcePosition) (canonical : list ascii) : prog Scanner unit :=
  modify (fun s => if excluded_ s then s
    else push_token (mkToken k (substr (offset start) (offset (position_ s) - offset start)) canonical (mkSpan start (position_ s))) s).
Definition diagnose (message : string) (start : SourcePosition) : prog Scanner unit :=
  modify (fun s => if excluded_ s then s else push_diagnostic (mkDiagnostic message (mkSpan start (position_ s))) s).
(** A malformed token. *)
Definition reject (message : string) (start : SourcePosition) : prog Scanner unit :=
  diagnose message start ;; emit Invalid start [].

(** Whether an underscore at [i] is between characters of the class, without
    looking outside [start, stop). *)
Definition separates (cls : ascii -> bool) (start stop i : nat) : outcome bool :=
  c ← vec_at source i;
  if Ascii.eqb c "_"%char then
    if (i =? start) || (i + 1 =? stop) then Ret false
    else a ← vec_at source (i - 1);
      if negb (cls a) then Ret false else b ← vec_at source (i + 1); Ret (cls b)
  else Ret true.
Fixpoint all_separate (cls : ascii -> bool) (start stop : nat) (l : list nat) : outcome bool :=
  match l with
  | [] => Ret true
  | i :: l => b ← separates cls start stop i; if b : bool then all_separate cls start stop l else Ret false
  end.
Definition validSeparators (cls : ascii -> bool) (start stop : nat) : prog Scanner bool :=
  fun s => (all_separate cls start stop (seq start (stop - start)), s).
Definition validDecimalSeparators (start stop : nat) : prog Scanner bool := validSeparators isDigit start stop.

(** A comment directive of synthesis tools. *)
Definition directive (start : SourcePosition) : prog Scanner unit :=
  stop ← gets position_;
  let comment := map toLower (substr (offset start + 2) (offset stop - offset start - 2)) in
  let '(prefix, words) := next_word comment in
  let command := (next_word words).1 in
  if negb (bool_decide (prefix = chars "pragma")) && negb (bool_decide (prefix = chars "synthesis")) && negb (bool_decide (prefix = chars "synopsys"))
  then mret tt
  else if bool_decide (command = chars "translate_off") then
    modify (fun s => if excluded_ s
      then push_diagnostic (mkDiagnostic "nested translate_off is unsupported" (mkSpan start (position_ s))) s
      else set_excluded true start s)
  else if bool_decide (command = chars "translate_on") then
    modify (fun s => set_excluded false (exclusionStart_ s) (if negb (excluded_ s)
      then push_diagnostic (mkDiagnostic "translate_on without translate_off" (mkSpan start (position_ s))) s else s))
  else mret tt.

Definition skipTrivia_turn : prog Scanner (option unit) :=
  while turns (fun s => negb (atEnd s) && isWhitespace (peek 0 s)) skip ;;
  s ← gets (fun s => s);
  if negb (Ascii.eqb (peek 0 s) "-") then mret (Some tt)
  else if negb (Ascii.eqb (peek 1 s) "-") then mret (Some tt)
  else
    start ← gets position_;
    while turns (fun s => negb (atEnd s) && negb (Ascii.eqb (peek 0 s) newline)) skip ;;
    (if synthesis then directive start else mret tt) ;;
    mret None.
Definition skipTrivia : prog Scanner unit := loop turns skipTrivia_turn.

Definition double_underscore (t : list ascii) (i : nat) : bool :=
  bool_decide (t !! i = Some "_"%char) && bool_decide (t !! (i - 1) = Some "_"%char).
Definition scanIdentifier (start : SourcePosition) : prog Scanner unit :=
  skip_chars (fun c => isAlphaNumeric c || Ascii.eqb c "_") ;;
  stop ← gets position_;
  let text := substr (offset start) (offset stop - offset start) in
  let valid := negb (bool_decide (text = [])) && negb (bool_decide (last text = Some "_"%char)) &&
    negb (existsb (double_underscore text) (seq 1 (length text - 1))) in
  if negb valid then reject "malformed basic identifier" start
  else emit Identifier start (map toLower text).

(** The loop gives [closed]. *)
Definition extended_turn : prog Scanner (option bool) :=
  s ← gets (fun s => s);
  if atEnd s then mret (Some false)
  else if negb (Ascii.eqb (peek 0 s) "\") then skip ;; mret None
  else
    skip ;; c ← gets (peek 0);
    if Ascii.eqb c "\" then skip ;; mret None else mret (Some true).
Definition scanExtendedIdentifier (start : SourcePosition) : prog Scanner unit :=
  skip ;; closed ← loop turns extended_turn;
  if negb closed then reject "unterminated extended identifier" start
  else emit ExtendedIdentifier start [].

(** An exponent, when there is one: the message of the error in it. *)
Definition scanExponent (no_digit : string) : prog Scanner (option string) :=
  c ← gets (peek 0);
  if Ascii.eqb c "e" || Ascii.eqb c "E" then
    skip ;; sign ← gets (peek 0);
    (if Ascii.eqb sign "+" || Ascii.eqb sign "-" then skip else mret tt) ;;
    exponentStart ← gets position_; d ← gets (peek 0);
    if negb (isDigit d) then mret (Some no_digit)
    else
      skip_chars (fun c => isDigit c || Ascii.eqb c "_") ;;
      stop ← gets position_; valid ← validDecimalSeparators (offset exponentStart) (offset stop);
      mret (if valid : bool then None else Some "underscores in an exponent must separate digits")
  else mret None.
Definition finish_number (start : SourcePosition) (real : bool) (no_digit : string) : prog Scanner unit :=
  e ← scanExponent no_digit;
  match e with
  | Some message => reject message start
  | None => emit (if real then RealLiteral else IntegerLiteral) start []
  end.
Definition scanBased (start : SourcePosition) : prog Scanner unit :=
  skip ;;
  digitsStart ← gets position_;
  while turns (fun s => negb (atEnd s) && negb (Ascii.eqb (peek 0 s) "#")) skip ;;
  stop ← gets position_;
  let real := existsb (Ascii.eqb ".") (substr (offset digitsStart) (offset stop - offset digitsStart)) in
  c ← gets (peek 0);
  if Ascii.eqb c "#" then
    skip ;;
    stop ← gets position_;
    valid ← validSeparators isAlphaNumeric (offset digitsStart) (offset stop - 1);
    if negb valid then reject "underscores in a based literal must separate digits" start
    else finish_number start real "based literal exponent requires at least one digit"
  else reject "unterminated based literal" start.
Definition scanFraction (start : SourcePosition) : prog Scanner unit :=
  skip ;;
  fractionStart ← gets position_;
  skip_chars (fun c => isDigit c || Ascii.eqb c "_") ;;
  stop ← gets position_; valid ← validDecimalSeparators (offset fractionStart) (offset stop);
  if negb valid then reject "underscores in a decimal fraction must separate digits" start
  else finish_number start true "exponent requires at least one digit".
Definition scanNumber (start : SourcePosition) : prog Scanner unit :=
  skip_chars (fun c => isDigit c || Ascii.eqb c "_") ;;
  stop ← gets position_; valid ← validDecimalSeparators (offset start) (offset stop);
  if negb valid then reject "underscores in a decimal literal must separate digits" start
  else
    s ← gets (fun s => s);
    if Ascii.eqb (peek 0 s) "#" then scanBased start
    else if Ascii.eqb (peek 0 s) "." && isDigit (peek 1 s) then scanFraction start
    else finish_number start false "exponent requires at least one digit".

(** The loop gives whether the string was closed. *)
Definition string_turn : prog Scanner (option bool) :=
  s ← gets (fun s => s);
  if atEnd s then mret (Some false)
  else
    c ← advance;
    if negb (Ascii.eqb c quote) then mret None
    else
      d ← gets (peek 0);
      if Ascii.eqb d quote then skip ;; mret None else mret (Some true).
Definition scanString (start : SourcePosition) : prog Scanner unit :=
  skip ;; closed ← loop turns string_turn;
  if closed : bool then emit StringLiteral start [] else reject "unterminated string literal" start.

Definition isCharacterLiteral (s : Scanner) : bool :=
  if Ascii.eqb (peek 1 s) "'" && Ascii.eqb (peek 2 s) "'" && Ascii.eqb (peek 3 s) "'" then true
  else negb (Ascii.eqb (peek 1 s) NUL) && Ascii.eqb (peek 2 s) "'" && negb (Ascii.eqb (peek 1 s) newline).
Definition scanCharacter (start : SourcePosition) : prog Scanner unit :=
  skip ;; skip ;; skip ;;
  c ← gets (peek 0);
  (if bool_decide (substr (offset start) 3 = chars "'''") && Ascii.eqb c "'" then skip else mret tt) ;;
  emit CharacterLiteral start [].

Definition compound : list (list ascii) := chars <$> [":="; "<="; ">="; "/="; "=>"; "**"; "<>"; "??"]%string.
Definition punctuation : list ascii := chars "&'()*+,-./:;<=>|[]?".
Definition scanSymbol (start : SourcePosition) : prog Scanner unit :=
  s ← gets (fun s => s);
  if negb (is_one_of punctuation (peek 0 s)) then skip ;; reject "invalid character in VHDL source" start
  else
    let candidate := if offset (position_ s) + 1 <? length source then [peek 0 s; peek 1 s] else [peek 0 s] in
    (if bool_decide (candidate ∈ compound) then skip else mret tt) ;; skip ;; emit Symbol start [].

Definition scanToken : prog Scanner unit :=
  s ← gets (fun s => s);
  let start := position_ s in let c := peek 0 s in
  if isAlpha c then scanIdentifier start
  else if Ascii.eqb c "\" then scanExtendedIdentifier start
  else if isDigit c then scanNumber start
  else if Ascii.eqb c quote then scanString start
  else if Ascii.eqb c "'" && isCharacterLiteral s then scanCharacter start
  else scanSymbol start.

Definition scanner_turn : prog Scanner (option unit) :=
  s ← gets (fun s => s);
  if atEnd s then mret (Some tt)
  else skipTrivia ;; s ← gets (fun s => s); if atEnd s then mret (Some tt) else scanToken ;; mret None.
Definition scanner_run : prog Scanner LexResult :=
  loop turns scanner_turn ;;
  modify (fun s => if excluded_ s
    then push_diagnostic (mkDiagnostic "unterminated translate_off region" (mkSpan (exclusionStart_ s) (position_ s))) s else s) ;;
  modify (fun s => push_token (mkToken EndOfFile [] [] (mkSpan (position_ s) (position_ s))) s) ;;
  gets result_.
End scanner.

Definition origin : SourcePosition := mkPos 0 1 1.
Definition lexer_scan (source : list ascii) (synthesis : bool) : outcome LexResult :=
  (scanner_run source synthesis (mkScanner false origin origin (mkResult [] []))).1.

(** The scanner on examples of the tests. *)
Definition shown (source : string) (synthesis : bool) : option (list (TokenKind * string) * list string) :=
  match lexer_scan (chars source) synthesis with
  | Ret r => Some ((fun t => (kind t, String.string_of_list_ascii (text t))) <$> tokens r, message <$> diagnostics r)
  | _ => None
  end.
Example shown_literals : shown "2#1010# 2#10.1#E+2 12.5e-2 \Case Sensitive\ q'event '1' '''' <= ?/=" false = Some (
  [(IntegerLiteral, "2#1010#"); (RealLiteral, "2#10.1#E+2"); (RealLiteral, "12.5e-2"); (ExtendedIdentifier, "\Case Sensitive\");
   (Identifier, "q"); (Symbol, "'"); (Identifier, "event"); (CharacterLiteral, "'1'"); (CharacterLiteral, "''''"); (Symbol, "<=");
   (Symbol, "?"); (Symbol, "/="); (EndOfFile, EmptyString)]%string, []).
Proof. vm_compute. reflexivity. Qed.
Example shown_malformed : shown "a__b 1__2 16#f_# -- c" false = Some (
  [(Invalid, "a__b"); (Invalid, "1__2"); (Invalid, "16#f_#"); (EndOfFile, EmptyString)]%string,
  ["malformed basic identifier"; "underscores in a decimal literal must separate digits"; "underscores in a based literal must separate digits"]%string).
Proof. vm_compute. reflexivity. Qed.
