(* ===== verification/VhdlPieces.v ===== *)
(** What the VHDL scanner does, told on the text that is left: the source is cut
    into blanks, comments and lexemes, and the scanner takes them one by one.

    The VHDL scanner takes the pieces of the source, whatever the source is: it
    returns, and never reads outside it. *)
From S2P Require Import Prelude Store VhdlLexer.
Local Open Scope nat_scope.

(** * Pieces *)

(** A malformed lexeme has the message of its error. *)
Inductive piece :=
| Blank (t : list ascii) | Comment (t : list ascii) | Lexeme (k : TokenKind) (error : option string) (t : list ascii).
Definition piece_text (pc : piece) : list ascii := match pc with Blank t | Comment t | Lexeme _ _ t => t end.

Definition is_underscore (c : ascii) : bool := Ascii.eqb c "_".
Definition digit_or_underscore (c : ascii) : bool := isDigit c || Ascii.eqb c "_".
Definition word_char (c : ascii) : bool := isAlphaNumeric c || Ascii.eqb c "_".
(** Every underscore is between two characters of the class. *)
Fixpoint separated (cls : ascii -> bool) (before : bool) (l : list ascii) : bool :=
  match l with
  | [] => true
  | c :: l => (if is_underscore c then before && match l with d :: _ => cls d | [] => false end else true) && separated cls (cls c) l
  end.
(** How many characters there are up to the delimiter that closes; one that is
    doubled stands for itself. *)
Fixpoint closing (q : ascii) (l : list ascii) : option nat :=
  match l with
  | [] => None
  | c :: l =>
      if Ascii.eqb c q then match l with d :: l' => if Ascii.eqb d q then Nat.add 2 <$> closing q l' else Some 1 | [] => Some 1 end
      else S <$> closing q l
  end.
Definition head_is (p : ascii -> bool) (l : list ascii) : bool := match l with c :: _ => p c | [] => false end.

(** The kind, the error and the length of the lexeme at the front. *)
Definition word (r : list ascii) : TokenKind * option string * nat :=
  let t := take_while word_char r in
  if separated isAlphaNumeric false t then (Identifier, None, length t) else (Invalid, Some "malformed basic identifier", length t).
Definition delimited (q : ascii) (k : TokenKind) (error : string) (r : list ascii) : TokenKind * option string * nat :=
  match closing q (drop 1 r) with Some n => (k, None, S n) | None => (Invalid, Some error, length r) end.
Definition is_sign (c : ascii) : bool := Ascii.eqb c "+" || Ascii.eqb c "-".
Definition is_exponent (c : ascii) : bool := Ascii.eqb c "e" || Ascii.eqb c "E".
Definition sign_length (r : list ascii) : nat := if head_is is_sign r then 1 else 0.
Definition exponent (no_digit : string) (r : list ascii) : option string * nat :=
  if head_is is_exponent r then
    let sign := sign_length (drop 1 r) in let r' := drop (1 + sign) r in
    if head_is isDigit r' then
      let t := take_while digit_or_underscore r' in
      (if separated isDigit false t then None else Some "underscores in an exponent must separate digits", 1 + sign + length t)
    else (Some no_digit, 1 + sign)
  else (None, 0).
Definition finished (real : bool) (no_digit : string) (n : nat) (r : list ascii) : TokenKind * option string * nat :=
  let '(e, m) := exponent no_digit r in
  match e with Some e => (Invalid, Some e, n + m) | None => (if real then RealLiteral else IntegerLiteral, None, n + m) end.
(** After the base and its mark, of [n] characters. *)
Definition based (n : nat) (r : list ascii) : TokenKind * option string * nat :=
  let t := take_while (fun c => negb (Ascii.eqb c "#")) r in
  if head_is (Ascii.eqb "#") (drop (length t) r) then
    if separated isAlphaNumeric false t
    then finished (existsb (Ascii.eqb ".") t) "based literal exponent requires at least one digit" (n + length t + 1) (drop (length t + 1) r)
    else (Invalid, Some "underscores in a based literal must separate digits", n + length t + 1)
  else (Invalid, Some "unterminated based literal", n + length t).
Definition fraction (n : nat) (r : list ascii) : TokenKind * option string * nat :=
  let t := take_while digit_or_underscore r in
  if separated isDigit false t then finished true "exponent requires at least one digit" (n + length t) (drop (length t) r)
  else (Invalid, Some "underscores in a decimal fraction must separate digits", n + length t).
Definition numeric (r : list ascii) : TokenKind * option string * nat :=
  let t := take_while digit_or_underscore r in let r' := drop (length t) r in
  if separated isDigit false t then
    if head_is (Ascii.eqb "#") r' then based (length t + 1) (drop 1 r')
    else if head_is (Ascii.eqb ".") r' && head_is isDigit (drop 1 r') then fraction (length t + 1) (drop 1 r')
    else finished false "exponent requires at least one digit" (length t) r'
  else (Invalid, Some "underscores in a decimal literal must separate digits", length t).
Definition char_at (k : nat) (r : list ascii) : ascii := default NUL (r !! k).
Definition is_character (r : list ascii) : bool :=
  bool_decide (take 4 r = chars "''''") ||
  (negb (Ascii.eqb (char_at 1 r) NUL) && Ascii.eqb (char_at 2 r) "'" && negb (Ascii.eqb (char_at 1 r) newline)).
Definition symbol (r : list ascii) : TokenKind * option string * nat :=
  if negb (head_is (is_one_of punctuation) r) then (Invalid, Some "invalid character in VHDL source", 1)
  else (Symbol, None, if bool_decide (take 2 r ∈ compound) then 2 else 1).
Definition lexeme (r : list ascii) : TokenKind * option string * nat :=
  if head_is isAlpha r then word r
  else if head_is (Ascii.eqb "\") r then delimited "\" ExtendedIdentifier "unterminated extended identifier" r
  else if head_is isDigit r then numeric r
  else if head_is (Ascii.eqb quote) r then delimited quote StringLiteral "unterminated string literal" r
  else if head_is (Ascii.eqb "'") r && is_character r then (CharacterLiteral, None, if bool_decide (take 4 r = chars "''''") then 4 else 3)
  else symbol r.

Definition not_newline (c : ascii) : bool := negb (Ascii.eqb c newline).
Definition next_piece (r : list ascii) : piece :=
  if head_is isWhitespace r then Blank (take_while isWhitespace r)
  else if bool_decide (take 2 r = chars "--") then Comment (take_while not_newline r)
  else let '(k, e, n) := lexeme r in Lexeme k e (take n r).
Fixpoint pieces_of (fuel : nat) (r : list ascii) : list piece :=
  match fuel, r with
  | S fuel, _ :: _ => let pc := next_piece r in pc :: pieces_of fuel (drop (length (piece_text pc)) r)
  | _, _ => []
  end.
Definition pieces (r : list ascii) : list piece := pieces_of (length r) r.

(** * Taking a piece *)

Definition moves (p : SourcePosition) (l : list ascii) : SourcePosition := foldl (fun p c => move c p) p l.
Definition to (s : Scanner) (l : list ascii) : Scanner := set_position (moves (position_ s) l) s.

(** [Some true] turns the exclusion on. *)
Definition command_of (comment : list ascii) : option bool :=
  let '(prefix, words) := next_word (map toLower comment) in
  let command := (next_word words).1 in
  if bool_decide (prefix ∈ chars <$> ["pragma"; "synthesis"; "synopsys"]%string) then
    if bool_decide (command = chars "translate_off") then Some true
    else if bool_decide (command = chars "translate_on") then Some false else None
  else None.
Definition take_comment (s : Scanner) (t : list ascii) : Scanner :=
  let s' := to s t in
  let span := mkSpan (position_ s) (position_ s') in
  match command_of (drop 2 t), excluded_ s with
  | None, _ => s'
  | Some true, true => push_diagnostic (mkDiagnostic "nested translate_off is unsupported" span) s'
  | Some true, false => set_excluded true (position_ s) s'
  | Some false, true => set_excluded false (exclusionStart_ s) s'
  | Some false, false => push_diagnostic (mkDiagnostic "translate_on without translate_off" span) s'
  end.
Definition canonical_of (k : TokenKind) (t : list ascii) : list ascii := match k with Identifier => map toLower t | _ => [] end.
Definition take_lexeme (s : Scanner) (k : TokenKind) (e : option string) (t : list ascii) : Scanner :=
  let s' := to s t in
  let span := mkSpan (position_ s) (position_ s') in
  if excluded_ s then s'
  else push_token (mkToken k t (canonical_of k t) span) (match e with Some m => push_diagnostic (mkDiagnostic m span) s' | None => s' end).
Definition absorb (synthesis : bool) (s : Scanner) (pc : piece) : Scanner :=
  match pc with
  | Blank t => to s t
  | Comment t => if synthesis then take_comment s t else to s t
  | Lexeme k e t => take_lexeme s k e t
  end.
Definition finish (s : Scanner) : LexResult :=
  let s := if excluded_ s
    then push_diagnostic (mkDiagnostic "unterminated translate_off region" (mkSpan (exclusionStart_ s) (position_ s))) s else s in
  result_ (push_token (mkToken EndOfFile [] [] (mkSpan (position_ s) (position_ s))) s).
Definition start_scanner : Scanner := mkScanner false origin origin (mkResult [] []).
Definition scanned (source : list ascii) (synthesis : bool) : LexResult := finish (foldl (absorb synthesis) start_scanner (pieces source)).

Example scanned_example : (fun s => (scanned (chars s) false, scanned (chars s) true)) <$>
  ["a -- PrAgMa translate_off 1.5E-3 ' 'x' 16#F"; "\a\\b\ <= 2#1_#e3_; 'a''' ''''-- synopsys translate_on"]%string =
  (fun s => (default (mkResult [] []) (match lexer_scan (chars s) false with Ret r => Some r | _ => None end),
             default (mkResult [] []) (match lexer_scan (chars s) true with Ret r => Some r | _ => None end))) <$>
  ["a -- PrAgMa translate_off 1.5E-3 ' 'x' 16#F"; "\a\\b\ <= 2#1_#e3_; 'a''' ''''-- synopsys translate_on"]%string.
Proof. vm_compute. reflexivity. Qed.

(** * The scanner takes the pieces *)

(** * Text *)

Lemma skip_take p l : take_while p l ++ skip_while p l = l.
Proof. induction l as [|c l IH]; [done|]. cbn. destruct (p c); [cbn; by rewrite IH|done]. Qed.
Lemma drop_take_while p l : drop (length (take_while p l)) l = skip_while p l.
Proof. induction l as [|c l IH]; [done|]. cbn. destruct (p c); [exact IH|done]. Qed.
Lemma take_take_while p l : take (length (take_while p l)) l = take_while p l.
Proof. induction l as [|c l IH]; [done|]. cbn. destruct (p c); [cbn; by rewrite IH|done]. Qed.
Lemma length_take_while p l : length (take_while p l) <= length l.
Proof. induction l as [|c l IH]; [done|]. cbn. destruct (p c); cbn; lia. Qed.
Lemma take_while_all p l c : c ∈ take_while p l -> p c = true.
Proof. induction l as [|d l IH]; cbn; [by intros ?%not_elem_of_nil|]. destruct (p d) eqn:E; [|by intros ?%not_elem_of_nil]. intros [->|H]%elem_of_cons; auto. Qed.
Lemma head_skip_while p l : head_is p (skip_while p l) = false.
Proof. induction l as [|c l IH]; [done|]. cbn. destruct (p c) eqn:E; [exact IH|exact E]. Qed.

Lemma moves_app p l l' : moves p (l ++ l') = moves (moves p l) l'.
Proof. apply foldl_app. Qed.
Lemma offset_moves p l : offset (moves p l) = offset p + length l.
Proof.
  revert p. induction l as [|c l IH]; intros p; cbn; [lia|]. change (foldl _ (move c p) l) with (moves (move c p) l). rewrite IH.
  unfold move. destruct (Ascii.eqb c newline); cbn; lia.
Qed.

Section scanner.
Context (source : list ascii) (synthesis : bool).

(** The text that is left. *)
Definition rest (s : Scanner) : list ascii := drop (offset (position_ s)) source.

Lemma to_app s l l' : to (to s l) l' = to s (l ++ l').
Proof. unfold to, set_position. cbn. by rewrite moves_app. Qed.
Lemma to_nil s : to s [] = s.
Proof. by destruct s. Qed.
Lemma rest_to s l r : rest s = l ++ r -> rest (to s l) = r.
Proof. unfold rest, to. cbn. rewrite offset_moves, <- drop_drop. intros ->. by rewrite drop_app_length. Qed.
Lemma rest_to_drop s n : rest (to s (take n (rest s))) = drop n (rest s).
Proof. apply rest_to. by rewrite take_drop. Qed.

Lemma atEnd_rest s : atEnd source s = match rest s with [] => true | _ => false end.
Proof.
  unfold atEnd, rest. destruct (drop (offset (position_ s)) source) as [|c r] eqn:E.
  - apply Nat.leb_le. apply (f_equal length) in E. rewrite length_drop in E. cbn in E. lia.
  - apply Nat.leb_gt. apply (f_equal length) in E. rewrite length_drop in E. cbn in E. lia.
Qed.
Lemma peek_rest k s : peek source k s = char_at k (rest s).
Proof.
  unfold peek, char_at, rest. rewrite lookup_drop. destruct (Nat.ltb_spec (offset (position_ s) + k) (length source)) as [H|H]; [done|].
  by rewrite lookup_ge_None_2.
Qed.
Lemma substr_rest p l r : drop (offset p) source = l ++ r -> substr source (offset p) (offset (moves p l) - offset p) = l.
Proof. intros E. unfold substr. rewrite E, offset_moves. replace (offset p + length l - offset p) with (length l) by lia. by rewrite take_app_length. Qed.

(** A character taken. *)
Lemma wp_advance s c r Q (E : string -> Scanner -> Prop) : rest s = c :: r -> Q c (to s [c]) -> wp (advance source) s Q E.
Proof.
  intros Hr HQ. unfold advance. rewrite wp_bind. apply (wp_deref _ _ _ _ c); [|exact HQ].
  unfold rest in Hr. apply (f_equal (fun l => l !! 0)) in Hr. rewrite lookup_drop, Nat.add_0_r in Hr. exact Hr.
Qed.
Lemma wp_skip s c r (Q : unit -> Scanner -> Prop) (E : string -> Scanner -> Prop) : rest s = c :: r -> Q tt (to s [c]) -> wp (skip source) s Q E.
Proof. intros Hr HQ. unfold skip. rewrite wp_bind. by apply (wp_advance _ _ _ _ _ Hr). Qed.

Lemma rest_length s : length (rest s) <= length source.
Proof. unfold rest. rewrite length_drop. lia. Qed.

(** One turn of a loop. *)
Lemma wp_loop {R} fuel (body : prog Scanner (option R)) s Q E :
  wp (loop (S fuel) body) s Q E <-> wp body s (fun r s' => wp (match r with Some r => mret r | None => loop fuel body end) s' Q E) E.
Proof. cbn [loop]. apply wp_bind. Qed.

(** A loop that takes the characters that [p] accepts. *)
Lemma wp_while_fuel p (c : Scanner -> bool) fuel s (Q : unit -> Scanner -> Prop) (E : string -> Scanner -> Prop) :
  (forall s, c s = head_is p (rest s)) -> length (rest s) < fuel -> Q tt (to s (take_while p (rest s))) -> wp (while fuel c (skip source)) s Q E.
Proof.
  intros Hc. revert s. induction fuel as [|fuel IH]; intros s Hlen HQ; [lia|]. unfold while. cbn [loop]. rewrite wp_bind, wp_bind, wp_gets, Hc.
  destruct (rest s) as [|d r] eqn:Er; cbn [head_is take_while] in *; [by rewrite to_nil in HQ|].
  destruct (p d) eqn:Ep; [|by rewrite to_nil in HQ]. rewrite wp_bind. apply (wp_skip s d r _ _ Er). rewrite wp_ret.
  apply IH.
  - rewrite (rest_to s [d] r Er). cbn in Hlen. lia.
  - by rewrite (rest_to s [d] r Er), to_app.
Qed.
Lemma wp_while p (c : Scanner -> bool) s (Q : unit -> Scanner -> Prop) (E : string -> Scanner -> Prop) :
  (forall s, c s = head_is p (rest s)) -> Q tt (to s (take_while p (rest s))) -> wp (while (turns source) c (skip source)) s Q E.
Proof. intros Hc. apply wp_while_fuel; [done|]. unfold turns. pose proof (rest_length s). lia. Qed.
Lemma wp_skip_chars p s (Q : unit -> Scanner -> Prop) (E : string -> Scanner -> Prop) :
  p NUL = false -> Q tt (to s (take_while p (rest s))) -> wp (skip_chars source p) s Q E.
Proof.
  intros Hp. apply wp_while. intros s'. rewrite peek_rest. unfold char_at. by destruct (rest s') as [|d r].
Qed.
Lemma wp_skip_until p s (Q : unit -> Scanner -> Prop) (E : string -> Scanner -> Prop) :
  Q tt (to s (take_while p (rest s))) -> wp (while (turns source) (fun s => negb (atEnd source s) && p (peek source 0 s)) (skip source)) s Q E.
Proof. apply wp_while. intros s'. rewrite atEnd_rest, peek_rest. unfold char_at. by destruct (rest s') as [|d r]. Qed.

(** * Separators *)

Lemma separates_spec cls start stop pre c l post :
  source = pre ++ c :: l ++ post -> start <= length pre -> stop = S (length pre + length l) ->
  separates source cls start stop (length pre) =
    Ret (if is_underscore c then (negb (length pre =? start)) && default false (cls <$> last pre) && match l with d :: _ => cls d | [] => false end else true).
Proof.
  intros Es Hs ->. unfold separates, is_underscore.
  assert (H0 : vec_at source (length pre) = Ret c) by (apply vec_at_Ret; by rewrite Es, list_lookup_middle).
  rewrite H0. cbn. destruct (Ascii.eqb c "_"); [|done]. destruct (Nat.eqb_spec (length pre) start) as [|Hne]; [done|]. cbn.
  destruct l as [|d l].
  { cbn. rewrite (proj2 (Nat.eqb_eq (length pre + 1) _)) by lia. by rewrite andb_false_r. }
  cbn. rewrite (proj2 (Nat.eqb_neq (length pre + 1) _)) by lia.
  destruct pre as [|a pre' _] using rev_ind; [cbn in *; lia|]. clear H0. rewrite length_app in *. cbn in *.
  rewrite last_snoc. cbn. replace (length pre' + 1 - 1) with (length pre') by lia.
  assert (Ha : vec_at source (length pre') = Ret a) by (apply vec_at_Ret; by rewrite Es, <- !app_assoc; cbn; rewrite list_lookup_middle).
  rewrite Ha. cbn. destruct (cls a); [|done]. cbn.
  assert (Hd : vec_at source (length pre' + 1 + 1) = Ret d).
  { apply vec_at_Ret. rewrite Es. rewrite lookup_app_r by (rewrite length_app; cbn; lia). rewrite length_app. cbn.
    by replace (length pre' + 1 + 1 - (length pre' + 1)) with 1 by lia. }
  by rewrite Hd.
Qed.

Lemma all_separate_spec cls start stop pre l post :
  source = pre ++ l ++ post -> start <= length pre -> stop = length pre + length l ->
  all_separate source cls start stop (seq (length pre) (length l)) =
    Ret (separated cls (negb (length pre =? start) && default false (cls <$> last pre)) l).
Proof.
  revert pre. induction l as [|c l IH]; intros pre Es Hs Hstop; [done|]. cbn [seq length all_separate].
  rewrite (separates_spec cls start stop pre c l post Es Hs) by (cbn in Hstop; lia). cbn [separated].
  set (b := if is_underscore c then _ else true). cbn. destruct b; [|done].
  specialize (IH (pre ++ [c])). rewrite length_app in IH. change (length [c]) with 1 in IH. rewrite Nat.add_1_r, last_snoc in IH.
  change (default false (cls <$> Some c)) with (cls c) in IH.
  cbn in Hstop. rewrite IH; [|by rewrite <- app_assoc|lia|lia]. rewrite (proj2 (Nat.eqb_neq (S (length pre)) start)) by lia. done.
Qed.

(** The check of a run of characters of the source. *)
Lemma wp_validSeparators cls (p : SourcePosition) l r s (Q : bool -> Scanner -> Prop) (E : string -> Scanner -> Prop) :
  drop (offset p) source = l ++ r -> Q (separated cls false l) s -> wp (validSeparators source cls (offset p) (offset p + length l)) s Q E.
Proof.
  intros Hr HQ. unfold validSeparators, wp. replace (offset p + length l - offset p) with (length l) by lia.
  destruct (decide (offset p <= length source)) as [Hle|Hgt].
  - pose proof (all_separate_spec cls (offset p) (offset p + length l) (take (offset p) source) l r) as H.
    rewrite length_take in H. replace (offset p `min` length source) with (offset p) in H by lia. rewrite Nat.eqb_refl in H. cbn in H.
    rewrite H; [done| |done|done]. by rewrite <- Hr, take_drop.
  - rewrite drop_ge in Hr by lia. destruct l; [done|done].
Qed.

(** * Lexemes *)

(** The lexeme of the given kind, error and length is taken. *)
Definition lexed (s : Scanner) (x : TokenKind * option string * nat) : Scanner := take_lexeme s x.1.1 x.1.2 (take x.2 (rest s)).

Lemma wp_emit s l r k (Q : unit -> Scanner -> Prop) (E : string -> Scanner -> Prop) :
  rest s = l ++ r -> Q tt (take_lexeme s k None l) -> wp (emit source k (position_ s) (canonical_of k l)) (to s l) Q E.
Proof.
  intros Hr HQ. unfold emit. rewrite wp_modify. unfold take_lexeme in HQ. cbn [excluded_ to set_position position_] in *.
  destruct (excluded_ s); [done|]. by rewrite (substr_rest _ _ _ Hr).
Qed.
Lemma wp_reject s l r m (Q : unit -> Scanner -> Prop) (E : string -> Scanner -> Prop) :
  rest s = l ++ r -> Q tt (take_lexeme s Invalid (Some m) l) -> wp (reject source m (position_ s)) (to s l) Q E.
Proof.
  intros Hr HQ. unfold reject, diagnose, emit. rewrite wp_bind, wp_modify, wp_modify. unfold take_lexeme in HQ. cbn [excluded_ to set_position position_] in *.
  destruct (excluded_ s) eqn:Ex; cbn [excluded_ to set_position position_ push_diagnostic]; rewrite Ex; [done|]. by rewrite (substr_rest _ _ _ Hr).
Qed.
Lemma lexed_app s l r n k e : rest s = l ++ r -> lexed s (k, e, length l + n) = take_lexeme s k e (l ++ take n r).
Proof. intros Hr. unfold lexed. cbn [fst snd]. by rewrite Hr, take_app_add. Qed.
Lemma lexed_whole s l r k e : rest s = l ++ r -> lexed s (k, e, length l) = take_lexeme s k e l.
Proof. intros Hr. rewrite <- (Nat.add_0_r (length l)), (lexed_app s l r) by done. by rewrite take_0, app_nil_r. Qed.

Lemma head_char p r : p NUL = false -> p (char_at 0 r) = head_is p r.
Proof. by destruct r. Qed.
Lemma head_is_cons p r : head_is p r = true -> exists c r', r = c :: r' /\ p c = true.
Proof. destruct r as [|c r]; [done|]. cbn. eauto. Qed.

(** A character of the class, if there is one. *)
Lemma wp_skip_if p s r (Q : unit -> Scanner -> Prop) (E : string -> Scanner -> Prop) :
  rest s = r -> Q tt (to s (take (if head_is p r then 1 else 0) r)) -> wp (if head_is p r then skip source else mret tt) s Q E.
Proof.
  intros Hr HQ. destruct (head_is p r) eqn:H; [|by rewrite to_nil in HQ]. apply head_is_cons in H as (c & r' & -> & _). by apply (wp_skip s c r').
Qed.

Lemma scanExponent_ok s m E :
  wp (scanExponent source m) s (fun e s' => e = (exponent m (rest s)).1 /\ s' = to s (take (exponent m (rest s)).2 (rest s))) E.
Proof.
  unfold scanExponent, exponent. rewrite wp_bind, wp_gets, peek_rest. fold (is_exponent (char_at 0 (rest s))). rewrite head_char by done.
  destruct (head_is is_exponent (rest s)) eqn:He; [|by rewrite wp_ret; cbn; rewrite to_nil].
  apply head_is_cons in He as (c & r & Er & _). rewrite Er. cbn [drop Nat.add]. rewrite drop_0.
  rewrite wp_bind. apply (wp_skip s c r _ _ Er). pose proof (rest_to s [c] r Er) as Er1. rewrite wp_bind, wp_gets, peek_rest, Er1.
  set (s1 := to s [c]) in *. fold (is_sign (char_at 0 r)). rewrite head_char by done. rewrite wp_bind. apply (wp_skip_if _ _ _ _ _ Er1).
  fold (sign_length r). set (sign := sign_length r). set (s2 := to s1 (take sign r)).
  assert (Er2 : rest s2 = drop sign r) by (unfold s2; rewrite <- Er1; apply rest_to_drop).
  assert (E2 : s2 = to s (c :: take sign r)) by (unfold s2, s1; by rewrite to_app).
  rewrite wp_bind, wp_gets, wp_bind, wp_gets, peek_rest, Er2, head_char by done. cbn [drop Nat.add].
  destruct (head_is isDigit (drop sign r)); cbn [negb fst snd]; [|rewrite wp_ret; split; [done|]; rewrite E2; done].
  rewrite wp_bind. apply wp_skip_chars; [done|]. rewrite Er2. change (fun c0 : ascii => isDigit c0 || Ascii.eqb c0 "_") with digit_or_underscore.
  set (t := take_while digit_or_underscore (drop sign r)).
  rewrite wp_bind, wp_gets, wp_bind. cbn [to set_position position_]. rewrite offset_moves. unfold validDecimalSeparators.
  apply (wp_validSeparators isDigit _ t (skip_while digit_or_underscore (drop sign r))).
  - unfold t. rewrite skip_take. exact Er2.
  - rewrite wp_ret. split; [by destruct (separated isDigit false t)|]. change (set_position (moves (position_ s2) t) s2) with (to s2 t).
    rewrite E2, to_app. f_equal. cbn [app take]. f_equal. rewrite <- take_take_drop. f_equal. unfold t. by rewrite take_take_while.
Qed.
Lemma finish_number_ok s l r real m E :
  rest s = l ++ r -> wp (finish_number source (position_ s) real m) (to s l) (fun _ s' => s' = lexed s (finished real m (length l) r)) E.
Proof.
  intros Hr. unfold finish_number. rewrite wp_bind. pose proof (rest_to s l r Hr) as Hr1.
  eapply wp_mono; [apply (scanExponent_ok (to s l) m (fun _ _ => False))| |done]. cbn beta. rewrite Hr1. intros e s' [-> ->]. unfold finished.
  destruct (exponent m r) as [e n]. cbn [fst snd]. rewrite to_app.
  assert (Hr2 : rest s = (l ++ take n r) ++ drop n r) by by rewrite <- app_assoc, take_drop.
  destruct e as [e|].
  - apply (wp_reject s _ _ e _ _ Hr2). by rewrite (lexed_app s l r).
  - destruct real; [apply (wp_emit s _ _ RealLiteral _ _ Hr2)|apply (wp_emit s _ _ IntegerLiteral _ _ Hr2)]; by rewrite (lexed_app s l r).
Qed.

Definition as_lexed (s : Scanner) (x : TokenKind * option string * nat) : unit -> Scanner -> Prop := fun _ s' => s' = lexed s x.
Lemma wp_reject_lexed s l r m E : rest s = l ++ r -> wp (reject source m (position_ s)) (to s l) (as_lexed s (Invalid, Some m, length l)) E.
Proof. intros Hr. apply (wp_reject s l r _ _ _ Hr). unfold as_lexed. by rewrite (lexed_whole s l r). Qed.
Lemma wp_emit_lexed s l r k E : rest s = l ++ r -> wp (emit source k (position_ s) (canonical_of k l)) (to s l) (as_lexed s (k, None, length l)) E.
Proof. intros Hr. apply (wp_emit s l r _ _ _ Hr). unfold as_lexed. by rewrite (lexed_whole s l r). Qed.

(** A run of digits and underscores, with its check. *)
Lemma digit_run_ok s (f : bool -> prog Scanner unit) (Q : unit -> Scanner -> Prop) (E : string -> Scanner -> Prop) :
  let t := take_while digit_or_underscore (rest s) in
  wp (f (separated isDigit false t)) (to s t) Q E ->
  wp (skip_chars source (fun c => isDigit c || Ascii.eqb c "_") ;;
      stop ← gets position_; valid ← validDecimalSeparators source (offset (position_ s)) (offset stop); f valid) s Q E.
Proof.
  intros t HQ. rewrite wp_bind. apply wp_skip_chars; [done|].
  change (fun c0 : ascii => isDigit c0 || Ascii.eqb c0 "_") with digit_or_underscore. fold t.
  rewrite wp_bind, wp_gets, wp_bind. cbn [to set_position position_]. rewrite offset_moves. unfold validDecimalSeparators.
  apply (wp_validSeparators isDigit _ t (skip_while digit_or_underscore (rest s))); [unfold t; by rewrite skip_take|exact HQ].
Qed.

Lemma scanFraction_ok s l c r E : rest s = l ++ c :: r -> wp (scanFraction source (position_ s)) (to s l) (as_lexed s (fraction (length l + 1) r)) E.
Proof.
  intros Hr. unfold scanFraction. rewrite wp_bind. apply (wp_skip _ c r _ _ (rest_to _ _ _ Hr)). rewrite to_app.
  assert (Hr1 : rest s = (l ++ [c]) ++ r) by by rewrite <- app_assoc. rewrite wp_bind, wp_gets. apply (digit_run_ok (to s (l ++ [c]))). rewrite (rest_to _ _ _ Hr1), to_app.
  unfold fraction. set (t := take_while digit_or_underscore r).
  assert (Hr2 : rest s = ((l ++ [c]) ++ t) ++ drop (length t) r) by (unfold t; by rewrite <- app_assoc, drop_take_while, skip_take).
  assert (Hlen : length l + 1 + length t = length ((l ++ [c]) ++ t)) by (rewrite !length_app; done). rewrite Hlen.
  destruct (separated isDigit false t); cbn [negb]; [by apply finish_number_ok|exact (wp_reject_lexed s _ _ _ _ Hr2)].
Qed.

Lemma scanBased_ok s l c r E : rest s = l ++ c :: r -> wp (scanBased source (position_ s)) (to s l) (as_lexed s (based (length l + 1) r)) E.
Proof.
  intros Hr. unfold scanBased. rewrite wp_bind. apply (wp_skip _ c r _ _ (rest_to _ _ _ Hr)). rewrite to_app.
  assert (Hr1 : rest s = (l ++ [c]) ++ r) by by rewrite <- app_assoc. pose proof (rest_to _ _ _ Hr1) as Hr1'.
  rewrite wp_bind, wp_gets, wp_bind. apply (wp_skip_until (fun d => negb (Ascii.eqb d "#"))). rewrite Hr1'. unfold based.
  set (t := take_while (fun d => negb (Ascii.eqb d "#")) r). set (s1 := to s (l ++ [c])) in *.
  assert (Et : r = t ++ drop (length t) r) by (unfold t; by rewrite drop_take_while, skip_take).
  rewrite wp_bind, wp_gets. cbn [to set_position position_].
  assert (Esub : substr source (offset (position_ s1)) (offset (moves (position_ s1) t) - offset (position_ s1)) = t).
  { apply (substr_rest _ _ (drop (length t) r)). rewrite <- Et. exact Hr1'. }
  rewrite Esub, wp_bind, wp_gets. change (set_position (moves (position_ s1) t) s1) with (to s1 t). unfold s1. rewrite to_app.
  assert (Hr2 : rest s = ((l ++ [c]) ++ t) ++ drop (length t) r) by by rewrite <- (app_assoc (l ++ [c])), <- Et.
  assert (Hlen : length ((l ++ [c]) ++ t) = length l + 1 + length t) by (rewrite !length_app; done).
  rewrite peek_rest, (rest_to _ _ _ Hr2).
  assert (Hh : Ascii.eqb (char_at 0 (drop (length t) r)) "#" = head_is (Ascii.eqb "#") (drop (length t) r)).
  { rewrite <- head_char by done. apply Ascii.eqb_sym. }
  rewrite Hh. destruct (head_is (Ascii.eqb "#") (drop (length t) r)) eqn:He; [|rewrite <- Hlen; exact (wp_reject_lexed s _ _ _ _ Hr2)].
  apply head_is_cons in He as (d & r' & Ed & _). rewrite Ed in Hr2.
  rewrite wp_bind. apply (wp_skip _ d r' _ _ (rest_to _ _ _ Hr2)). rewrite to_app.
  assert (Hr3 : rest s = (((l ++ [c]) ++ t) ++ [d]) ++ r') by by rewrite <- app_assoc.
  assert (Hlen3 : length (((l ++ [c]) ++ t) ++ [d]) = length l + 1 + length t + 1) by (rewrite length_app, Hlen; done).
  rewrite wp_bind, wp_gets, wp_bind. cbn [to set_position position_]. rewrite (offset_moves (position_ s) (((l ++ [c]) ++ t) ++ [d])), Hlen3.
  assert (Hoff : offset (moves (position_ s) (l ++ [c])) = offset (position_ s) + (length l + 1)) by by rewrite offset_moves, length_app.
  replace (offset (position_ s) + (length l + 1 + length t + 1) - 1) with (offset (moves (position_ s) (l ++ [c])) + length t) by lia.
  apply (wp_validSeparators isAlphaNumeric _ t (drop (length t) r)); [rewrite <- Et; exact Hr1'|].
  change (set_position _ s) with (to s (((l ++ [c]) ++ t) ++ [d])).
  assert (Edrop : drop (length t + 1) r = r') by (by rewrite <- drop_drop, Ed). rewrite Edrop, <- Hlen3.
  destruct (separated isAlphaNumeric false t); cbn [negb]; [by apply finish_number_ok|exact (wp_reject_lexed s _ _ _ _ Hr3)].
Qed.

Lemma scanNumber_ok s E : wp (scanNumber source (position_ s)) s (as_lexed s (numeric (rest s))) E.
Proof.
  unfold scanNumber, numeric. set (r := rest s).
  apply (digit_run_ok s (fun valid => if negb valid then _ else _)). fold r. set (t := take_while digit_or_underscore r).
  assert (Hr2 : rest s = t ++ drop (length t) r) by (unfold t, r; by rewrite drop_take_while, skip_take).
  destruct (separated isDigit false t); cbn [negb]; [|exact (wp_reject_lexed s _ _ _ _ Hr2)].
  pose proof (rest_to _ _ _ Hr2) as Hr3. rewrite wp_bind, wp_gets, !peek_rest, Hr3.
  assert (Hh : forall q, q <> NUL -> Ascii.eqb (char_at 0 (drop (length t) r)) q = head_is (Ascii.eqb q) (drop (length t) r)).
  { intros q Hq. rewrite <- head_char by by apply Ascii.eqb_neq. apply Ascii.eqb_sym. }
  rewrite !Hh by done.
  destruct (head_is (Ascii.eqb "#") (drop (length t) r)) eqn:He.
  { apply head_is_cons in He as (c & r' & Ed & _). rewrite Ed in *. cbn [drop]. rewrite drop_0. by apply (scanBased_ok s t c r'). }
  assert (Hd : isDigit (char_at 1 (drop (length t) r)) = head_is isDigit (drop 1 (drop (length t) r))).
  { rewrite <- head_char by done. unfold char_at. by rewrite !lookup_drop. }
  rewrite Hd. destruct (head_is (Ascii.eqb ".") (drop (length t) r) && _) eqn:He2; [|by apply finish_number_ok].
  apply andb_true_iff in He2 as [He2 _]. apply head_is_cons in He2 as (c & r' & Ed & _). rewrite Ed in *. cbn [drop]. rewrite drop_0. by apply (scanFraction_ok s t c r').
Qed.

(** Underscores in identifiers. *)
Lemma separated_word before l : (forall c, c ∈ l -> word_char c = true) ->
  separated isAlphaNumeric before l = true <->
  (head_is is_underscore l = true -> before = true) /\ last l <> Some "_"%char /\
  forall i, ~ (l !! i = Some "_"%char /\ l !! S i = Some "_"%char).
Proof.
  revert before. induction l as [|c l IH]; intros before Hw; [split; [intros _; split_and!; [done..|by intros i [? _]]|done]|].
  cbn [separated head_is]. rewrite andb_true_iff, IH by (intros d Hd; apply Hw; by right).
  assert (Hu : is_underscore c = true <-> c = "_"%char) by apply Ascii.eqb_eq.
  assert (Hlast : last (c :: l) = match last l with Some d => Some d | None => Some c end) by apply last_cons.
  assert (Hsplit : (forall i, ~ ((c :: l) !! i = Some "_"%char /\ (c :: l) !! S i = Some "_"%char)) <->
    ~ (c = "_"%char /\ head_is is_underscore l = true) /\ forall i, ~ (l !! i = Some "_"%char /\ l !! S i = Some "_"%char)).
  { split.
    - intros H. split; [intros [-> Hh]; apply head_is_cons in Hh as (d & l' & -> & Hd); apply Ascii.eqb_eq in Hd as ->; by apply (H 0)|intros i; apply (H (S i))].
    - intros [H1 H2] [|i]; [|apply H2]. cbn. intros [[= ->] Hd]. apply H1. split; [done|]. destruct l as [|d l]; [done|]. cbn in *. injection Hd as ->. done. }
  rewrite Hsplit, Hlast. destruct (is_underscore c) eqn:Ec.
  - pose proof (proj1 Hu eq_refl) as ->. clear Hu Ec. destruct l as [|d l]; cbn [head_is last].
    { cbn. rewrite andb_false_r. split; [by intros [? _]|intros (_ & H & _); by destruct H]. }
    assert (Hd : isAlphaNumeric d = true <-> is_underscore d <> true).
    { specialize (Hw d ltac:(set_solver)). unfold word_char in Hw. split.
      - intros Ha Hd%Ascii.eqb_eq. by subst d.
      - intros Hd. apply orb_true_iff in Hw as [?|?]; done. }
    rewrite andb_true_iff, Hd. assert (Hl : exists e, last (d :: l) = Some e) by (rewrite last_cons; destruct (last l); eauto). destruct Hl as [e ->].
    change (isAlphaNumeric "_") with false. naive_solver.
  - assert (Ha : isAlphaNumeric c = true).
    { specialize (Hw c ltac:(set_solver)). unfold word_char in Hw. apply orb_true_iff in Hw as [?|Hc]; [done|]. unfold is_underscore in Ec. congruence. }
    rewrite Ha. assert (Hc : c <> "_"%char) by (intros ->; done). destruct l as [|d l]; [cbn; naive_solver|].
    assert (Hl : exists e, last (d :: l) = Some e) by (rewrite last_cons; destruct (last l); eauto). destruct Hl as [e ->]. naive_solver.
Qed.

Lemma valid_word l : (forall c, c ∈ l -> word_char c = true) -> head_is isAlpha l = true ->
  negb (bool_decide (l = [])) && negb (bool_decide (last l = Some "_"%char)) && negb (existsb (double_underscore l) (seq 1 (length l - 1))) =
  separated isAlphaNumeric false l.
Proof.
  intros Hw Hh. apply eq_true_iff_eq. rewrite separated_word by done. rewrite !andb_true_iff, !negb_true_iff, !bool_decide_eq_false.
  apply head_is_cons in Hh as (c & l' & -> & Hc).
  assert (Hcu : head_is is_underscore (c :: l') = false) by (cbn; destruct (is_underscore c) eqn:E; [apply Ascii.eqb_eq in E as ->; done|done]).
  rewrite Hcu.
  assert (Hex : existsb (double_underscore (c :: l')) (seq 1 (length (c :: l') - 1)) = false <->
    forall i, ~ ((c :: l') !! i = Some "_"%char /\ (c :: l') !! S i = Some "_"%char)).
  { rewrite <- not_true_iff_false, existsb_exists. split.
    - intros H i [Hi Hi']. apply H. exists (S i). split.
      + apply in_seq. pose proof (lookup_lt_Some _ _ _ Hi'). lia.
      + unfold double_underscore. replace (S i - 1) with i by lia. by rewrite !bool_decide_eq_true_2.
    - intros H (j & Hj%in_seq & Hd). unfold double_underscore in Hd. apply andb_true_iff in Hd as [H1%bool_decide_eq_true_1 H2%bool_decide_eq_true_1].
      apply (H (j - 1)). split; [done|]. by replace (S (j - 1)) with j by lia. }
  rewrite Hex. naive_solver.
Qed.

Lemma scanIdentifier_ok s E : head_is isAlpha (rest s) = true -> wp (scanIdentifier source (position_ s)) s (as_lexed s (word (rest s))) E.
Proof.
  intros Hh. unfold scanIdentifier, word. rewrite wp_bind. apply wp_skip_chars; [done|].
  change (fun c0 : ascii => isAlphaNumeric c0 || Ascii.eqb c0 "_") with word_char. set (t := take_while word_char (rest s)).
  assert (Hr : rest s = t ++ skip_while word_char (rest s)) by (unfold t; by rewrite skip_take).
  rewrite wp_bind, wp_gets. cbn [to set_position position_]. rewrite (substr_rest _ _ _ Hr). change (set_position _ s) with (to s t).
  assert (Ht : head_is isAlpha t = true).
  { apply head_is_cons in Hh as (c & r & Er & Hc). unfold t. rewrite Er. cbn. unfold word_char, isAlphaNumeric. by rewrite Hc. }
  rewrite valid_word; [|apply take_while_all|done]. destruct (separated isAlphaNumeric false t); cbn [negb].
  - exact (wp_emit_lexed s t _ Identifier _ Hr).
  - exact (wp_reject_lexed s t _ _ _ Hr).
Qed.

(** The loops that look for a delimiter. *)
Definition found (q : ascii) (s : Scanner) : bool -> Scanner -> Prop := fun closed s' =>
  match closing q (rest s) with
  | Some n => closed = true /\ s' = to s (take n (rest s))
  | None => closed = false /\ s' = to s (rest s)
  end.
Lemma found_later q s l r closed s' : rest s = l ++ r ->
  closing q (rest s) = Nat.add (length l) <$> closing q r -> found q (to s l) closed s' -> found q s closed s'.
Proof.
  intros Hr Hc. unfold found. rewrite Hc, (rest_to _ _ _ Hr), to_app, Hr. destruct (closing q r) as [n|]; cbn; [|done].
  by rewrite to_app, take_app_add.
Qed.
Lemma closing_other q c r : c <> q -> closing q (c :: r) = S <$> closing q r.
Proof. intros H. cbn. by rewrite (proj2 (Ascii.eqb_neq c q) H). Qed.
Lemma closing_double q r : closing q (q :: q :: r) = Nat.add 2 <$> closing q r.
Proof. cbn. by rewrite Ascii.eqb_refl. Qed.
Lemma closing_single q r : q <> NUL -> Ascii.eqb (char_at 0 r) q = false -> closing q (q :: r) = Some 1.
Proof. intros Hq Hr. cbn. rewrite Ascii.eqb_refl. destruct r as [|d r]; [done|]. cbn in Hr. by rewrite Hr. Qed.

Lemma extended_loop_ok fuel s E :
  length (rest s) < fuel ->
  wp (loop fuel (extended_turn source)) s (found "\" s) E.
Proof.
  revert s. induction fuel as [|fuel IH]; intros s Hf; [lia|]. rewrite wp_loop. unfold extended_turn at 1. rewrite wp_bind, wp_gets, atEnd_rest, peek_rest.
  destruct (rest s) as [|c r] eqn:Er; [rewrite wp_ret, wp_ret; unfold found; rewrite Er; cbn; by rewrite to_nil|]. cbn in Hf.
  change (char_at 0 (c :: r)) with c. destruct (Ascii.eqb_spec c "\") as [->|Hc]; cbn [negb].
  - rewrite wp_bind. apply (wp_skip s _ r _ _ Er). rewrite wp_bind, wp_gets, peek_rest, (rest_to s ["\"%char] r Er).
    destruct (Ascii.eqb (char_at 0 r) "\") eqn:Ed.
    + destruct r as [|d r]; [done|]. apply Ascii.eqb_eq in Ed. cbn in Ed. subst d.
      rewrite wp_bind. apply (wp_skip _ _ r _ _ (rest_to s ["\"%char] _ Er)). rewrite wp_ret, to_app. cbn [app].
      assert (Er2 : rest s = ["\"; "\"]%char ++ r) by done.
      eapply wp_mono; [apply IH; rewrite (rest_to _ _ _ Er2); cbn in Hf; lia| |done]. intros b s' Hb. apply (found_later _ s _ r _ _ Er2); [|done].
      rewrite Er. apply closing_double.
    + rewrite wp_ret, wp_ret. unfold found. rewrite Er, closing_single by done. split; [done|]. cbn. by rewrite take_0.
  - rewrite wp_bind. apply (wp_skip s c r _ _ Er). rewrite wp_ret. assert (Er1 : rest s = [c] ++ r) by done.
    eapply wp_mono; [apply IH; rewrite (rest_to _ _ _ Er1); lia| |done]. intros b s' Hb. apply (found_later _ s _ r _ _ Er1); [|done].
    rewrite Er. by apply closing_other.
Qed.
Lemma string_loop_ok fuel s E :
  length (rest s) < fuel ->
  wp (loop fuel (string_turn source)) s (found quote s) E.
Proof.
  revert s. induction fuel as [|fuel IH]; intros s Hf; [lia|]. rewrite wp_loop. unfold string_turn at 1. rewrite wp_bind, wp_gets, atEnd_rest.
  destruct (rest s) as [|c r] eqn:Er; [rewrite wp_ret, wp_ret; unfold found; rewrite Er; cbn; by rewrite to_nil|]. cbn in Hf.
  rewrite wp_bind. apply (wp_advance s _ r _ _ Er). destruct (Ascii.eqb_spec c quote) as [->|Hc]; cbn [negb].
  - rewrite wp_bind, wp_gets, peek_rest, (rest_to s [quote] r Er).
    destruct (Ascii.eqb (char_at 0 r) quote) eqn:Ed.
    + destruct r as [|d r]; [done|]. apply Ascii.eqb_eq in Ed. change (char_at 0 (d :: r)) with d in Ed. subst d.
      rewrite wp_bind. apply (wp_skip _ _ r _ _ (rest_to s [quote] _ Er)). rewrite wp_ret, to_app. cbn [app].
      assert (Er2 : rest s = [quote; quote] ++ r) by done.
      eapply wp_mono; [apply IH; rewrite (rest_to _ _ _ Er2); cbn in Hf; lia| |done]. intros b s' Hb. apply (found_later _ s _ r _ _ Er2); [|done].
      rewrite Er. apply closing_double.
    + rewrite wp_ret, wp_ret. unfold found. rewrite Er, closing_single by done. split; [done|]. cbn. by rewrite take_0.
  - rewrite wp_ret. assert (Er1 : rest s = [c] ++ r) by done.
    eapply wp_mono; [apply IH; rewrite (rest_to _ _ _ Er1); lia| |done]. intros b s' Hb. apply (found_later _ s _ r _ _ Er1); [|done].
    rewrite Er. by apply closing_other.
Qed.

(** What is found closes the lexeme. *)
Lemma delimited_ok q k m s c r (b : bool) s' (m' : prog Scanner unit) E :
  rest s = c :: r -> found q (to s [c]) b s' ->
  (forall l, m' = (if b then emit source k (position_ s) (canonical_of k l) else reject source m (position_ s))) ->
  wp m' s' (as_lexed s (delimited q k m (rest s))) E.
Proof.
  intros Er Hf Hm. unfold found, delimited in *. rewrite (rest_to s [c] r Er) in Hf. rewrite Er. cbn [drop]. rewrite drop_0.
  destruct (closing q r) as [n|]; destruct Hf as [-> ->]; rewrite to_app; cbn [app].
  - assert (Hr : rest s = (c :: take n r) ++ drop n r) by (cbn; by rewrite take_drop). rewrite (Hm (c :: take n r)).
    apply (wp_emit s _ _ _ _ _ Hr). unfold as_lexed, lexed. cbn [fst snd]. by rewrite Er.
  - assert (Hr : rest s = (c :: r) ++ []) by by rewrite app_nil_r. rewrite (Hm (c :: r)). exact (wp_reject_lexed s _ _ _ _ Hr).
Qed.

Lemma scanExtendedIdentifier_ok s c r E : rest s = c :: r ->
  wp (scanExtendedIdentifier source (position_ s)) s (as_lexed s (delimited "\" ExtendedIdentifier "unterminated extended identifier" (rest s))) E.
Proof.
  intros Er. unfold scanExtendedIdentifier. rewrite wp_bind. apply (wp_skip s c r _ _ Er). rewrite wp_bind.
  eapply wp_mono; [apply (extended_loop_ok (turns source) (to s [c]) (fun _ _ => False)); unfold turns; pose proof (rest_length (to s [c])); lia| |done].
  intros b s' Hf. apply (delimited_ok _ _ _ s c r b s' _ _ Er Hf). by intros l; destruct b.
Qed.
Lemma scanString_ok s c r E : rest s = c :: r ->
  wp (scanString source (position_ s)) s (as_lexed s (delimited quote StringLiteral "unterminated string literal" (rest s))) E.
Proof.
  intros Er. unfold scanString. rewrite wp_bind. apply (wp_skip s c r _ _ Er). rewrite wp_bind.
  eapply wp_mono; [apply (string_loop_ok (turns source) (to s [c]) (fun _ _ => False)); unfold turns; pose proof (rest_length (to s [c])); lia| |done].
  intros b s' Hf. apply (delimited_ok _ _ _ s c r b s' _ _ Er Hf). by intros l; destruct b.
Qed.

Lemma char_at_Some k r : char_at k r <> NUL -> exists c, r !! k = Some c.
Proof. unfold char_at. destruct (r !! k); [eauto|done]. Qed.
Lemma isCharacterLiteral_rest s r : rest s = "'"%char :: r -> isCharacterLiteral source s = is_character ("'"%char :: r).
Proof.
  intros Er. unfold isCharacterLiteral, is_character. rewrite !peek_rest, Er.
  assert (H4 : Ascii.eqb (char_at 1 ("'"%char :: r)) "'" && Ascii.eqb (char_at 2 ("'"%char :: r)) "'" && Ascii.eqb (char_at 3 ("'"%char :: r)) "'" =
    bool_decide (take 4 ("'"%char :: r) = chars "''''")).
  { unfold char_at. destruct r as [|c1 [|c2 [|c3 r]]]; cbn; rewrite ?andb_false_r; try (symmetry; by apply bool_decide_eq_false).
    destruct (Ascii.eqb_spec c1 "'") as [->|H1]; [|symmetry; apply bool_decide_eq_false; congruence].
    destruct (Ascii.eqb_spec c2 "'") as [->|H2]; [|symmetry; apply bool_decide_eq_false; congruence].
    destruct (Ascii.eqb_spec c3 "'") as [->|H3]; [|symmetry; apply bool_decide_eq_false; congruence].
    symmetry. by apply bool_decide_eq_true. }
  rewrite H4. by destruct (bool_decide _).
Qed.
Lemma is_character_length r : is_character ("'"%char :: r) = true -> exists c1 c2 r', r = c1 :: c2 :: r'.
Proof.
  unfold is_character, char_at. destruct r as [|c1 [|c2 r]]; [| |eauto]; cbn; rewrite ?andb_false_r; intros [H|H]%orb_true_iff; try done;
    by apply bool_decide_eq_true_1 in H.
Qed.
Lemma scanCharacter_ok s r E : rest s = "'"%char :: r -> is_character ("'"%char :: r) = true ->
  wp (scanCharacter source (position_ s)) s
    (as_lexed s (CharacterLiteral, None, if bool_decide (take 4 (rest s) = chars "''''") then 4 else 3)) E.
Proof.
  intros Er Hc. destruct (is_character_length r Hc) as (c1 & c2 & r' & ->). unfold scanCharacter.
  rewrite wp_bind. apply (wp_skip s _ _ _ _ Er).
  rewrite wp_bind. apply (wp_skip _ _ _ _ _ (rest_to s ["'"%char] _ Er)). rewrite to_app.
  rewrite wp_bind. apply (wp_skip _ _ _ _ _ (rest_to s ["'"; c1]%char _ Er)). rewrite to_app. cbn [app].
  rewrite wp_bind, wp_gets, peek_rest, (rest_to s ["'"; c1; c2]%char _ Er).
  assert (Hsub : substr source (offset (position_ s)) 3 = ["'"; c1; c2]%char) by (unfold substr; fold (rest s); by rewrite Er).
  rewrite Hsub.
  assert (H4 : bool_decide (["'"; c1; c2]%char = chars "'''") && Ascii.eqb (char_at 0 r') "'" = bool_decide (take 4 (rest s) = chars "''''")).
  { rewrite Er. destruct (bool_decide (["'"; c1; c2]%char = chars "'''")) eqn:E3.
    - apply bool_decide_eq_true_1 in E3. injection E3 as -> ->. destruct r' as [|c3 r']; cbn; [symmetry; by apply bool_decide_eq_false|].
      unfold char_at. cbn. destruct (Ascii.eqb_spec c3 "'") as [->|H]; symmetry; [by apply bool_decide_eq_true|apply bool_decide_eq_false; congruence].
    - apply bool_decide_eq_false_1 in E3. cbn. symmetry. apply bool_decide_eq_false. intros H. apply E3. cbn. destruct r'; cbn in H; congruence. }
  rewrite H4, wp_bind. destruct (bool_decide (take 4 (rest s) = chars "''''")) eqn:E4.
  - apply andb_true_iff in H4 as [_ H]. destruct r' as [|c3 r']; [done|].
    apply (wp_skip _ _ _ _ _ (rest_to s ["'"; c1; c2]%char _ Er)). rewrite to_app. exact (wp_emit_lexed s ["'"; c1; c2; c3]%char r' CharacterLiteral _ Er).
  - rewrite wp_ret. exact (wp_emit_lexed s ["'"; c1; c2]%char r' CharacterLiteral _ Er).
Qed.

Lemma scanSymbol_ok s c r E : rest s = c :: r -> wp (scanSymbol source (position_ s)) s (as_lexed s (symbol (rest s))) E.
Proof.
  intros Er. unfold scanSymbol, symbol. rewrite wp_bind, wp_gets, !peek_rest, Er. change (char_at 0 (c :: r)) with c. cbn [head_is].
  destruct (is_one_of punctuation c); cbn [negb].
  - assert (Hcand : (if offset (position_ s) + 1 <? length source then [c; char_at 1 (c :: r)] else [c]) = take 2 (c :: r)).
    { unfold rest in Er. pose proof (f_equal length Er) as Hl. rewrite length_drop in Hl. cbn in Hl. destruct r as [|d r]; cbn in Hl.
      - by rewrite (proj2 (Nat.ltb_ge _ _)) by lia.
      - by rewrite (proj2 (Nat.ltb_lt _ _)) by lia. }
    rewrite Hcand, wp_bind. destruct (bool_decide (take 2 (c :: r) ∈ compound)) eqn:Ed.
    + destruct r as [|d r].
      { apply bool_decide_eq_true_1 in Ed. exfalso. cbn in Ed. repeat (apply elem_of_cons in Ed as [Ed|Ed]; [discriminate Ed|]). by apply not_elem_of_nil in Ed. }
      apply (wp_skip s c _ _ _ Er). rewrite wp_bind. apply (wp_skip _ d r _ _ (rest_to s [c] _ Er)). rewrite to_app.
      exact (wp_emit_lexed s [c; d] r Symbol _ Er).
    + rewrite wp_ret, wp_bind. apply (wp_skip s c _ _ _ Er). exact (wp_emit_lexed s [c] r Symbol _ Er).
  - rewrite wp_bind. apply (wp_skip s c _ _ _ Er). exact (wp_reject_lexed s [c] r _ _ Er).
Qed.

Lemma scanToken_ok s E : rest s <> [] -> wp (scanToken source) s (as_lexed s (lexeme (rest s))) E.
Proof.
  intros Hr. destruct (rest s) as [|c r] eqn:Er; [done|]. rewrite <- Er. unfold scanToken, lexeme. rewrite wp_bind, wp_gets, peek_rest.
  assert (Hc : char_at 0 (rest s) = c) by by rewrite Er. rewrite Hc.
  assert (Hh : forall p, head_is p (rest s) = p c) by (intros p; by rewrite Er). rewrite !Hh.
  assert (Hq : forall q, Ascii.eqb c q = Ascii.eqb q c) by (intros q; apply Ascii.eqb_sym). rewrite !Hq.
  destruct (isAlpha c) eqn:E1; [apply scanIdentifier_ok; by rewrite Hh|].
  destruct (Ascii.eqb "\" c); [exact (scanExtendedIdentifier_ok s c r E Er)|].
  destruct (isDigit c); [apply scanNumber_ok|].
  destruct (Ascii.eqb quote c); [exact (scanString_ok s c r E Er)|].
  destruct (Ascii.eqb_spec "'" c) as [<-|]; cbn [andb]; [|exact (scanSymbol_ok s c r E Er)].
  rewrite (isCharacterLiteral_rest s r Er). assert (Hi : is_character (rest s) = is_character ("'"%char :: r)) by by rewrite Er. rewrite Hi.
  destruct (is_character ("'"%char :: r)) eqn:Ec.
  - exact (scanCharacter_ok s r E Er Ec).
  - exact (scanSymbol_ok s _ r E Er).
Qed.

(** * Comments *)

Lemma directive_ok s t r (Q : unit -> Scanner -> Prop) E :
  rest s = t ++ r -> 2 <= length t -> Q tt (take_comment s t) -> wp (directive source (position_ s)) (to s t) Q E.
Proof.
  intros Hr Hl HQ. unfold directive. rewrite wp_bind, wp_gets. cbn [to set_position position_].
  assert (Hsub : substr source (offset (position_ s) + 2) (offset (moves (position_ s) t) - offset (position_ s) - 2) = drop 2 t).
  { unfold substr. rewrite offset_moves, <- drop_drop. fold (rest s). rewrite Hr. replace (offset (position_ s) + length t - offset (position_ s) - 2) with (length t - 2) by lia.
    destruct t as [|a [|b t]]; [cbn in Hl; lia..|]. cbn. rewrite !drop_0, Nat.sub_0_r. apply take_app_length. }
  rewrite Hsub. unfold take_comment, command_of in HQ. destruct (next_word (map toLower (drop 2 t))) as [prefix words].
  assert (Hp : negb (bool_decide (prefix = chars "pragma")) && negb (bool_decide (prefix = chars "synthesis")) && negb (bool_decide (prefix = chars "synopsys")) =
    negb (bool_decide (prefix ∈ chars <$> ["pragma"; "synthesis"; "synopsys"]%string))).
  { rewrite <- !negb_orb. f_equal. apply eq_true_iff_eq. rewrite !orb_true_iff, !bool_decide_eq_true. cbn. rewrite !elem_of_cons, elem_of_nil. tauto. }
  rewrite Hp. destruct (bool_decide (prefix ∈ _)); cbn [negb]; [|exact HQ].
  change (set_position _ s) with (to s t).
  destruct (bool_decide ((next_word words).1 = chars "translate_off")); [rewrite wp_modify; cbn [excluded_ to set_position] in *; by destruct (excluded_ s)|].
  destruct (bool_decide ((next_word words).1 = chars "translate_on")); [|exact HQ].
  rewrite wp_modify. cbn [excluded_ to set_position] in *. destruct s as [e x p res]. cbn in *. by destruct e.
Qed.

(** * Pieces *)

Lemma take_while_nonempty p r : head_is p r = true -> 1 <= length (take_while p r).
Proof. intros (c & r' & -> & Hc)%head_is_cons. cbn. rewrite Hc. cbn. lia. Qed.
Lemma lexeme_progress r : r <> [] -> 1 <= (lexeme r).2.
Proof.
  intros Hr. unfold lexeme. destruct (head_is isAlpha r) eqn:E1.
  { unfold word. assert (H : 1 <= length (take_while word_char r)).
    { apply take_while_nonempty. apply head_is_cons in E1 as (c & r' & -> & Hc). cbn. unfold word_char, isAlphaNumeric. by rewrite Hc. }
    by destruct (separated _ _ _). }
  assert (Hdel : forall q k m, 1 <= (delimited q k m r).2).
  { intros q k m. unfold delimited. destruct (closing q (drop 1 r)); cbn; [lia|]. destruct r; [done|cbn; lia]. }
  destruct (head_is (Ascii.eqb "\") r); [apply Hdel|]. destruct (head_is isDigit r) eqn:E2.
  { unfold numeric. set (t := take_while digit_or_underscore r). assert (H : 1 <= length t).
    { apply take_while_nonempty. apply head_is_cons in E2 as (c & r' & -> & Hc). cbn. unfold digit_or_underscore. by rewrite Hc. }
    assert (Hfin : forall real m n r', n <= (finished real m n r').2).
    { intros real m n r'. unfold finished. destruct (exponent m r') as [[]]; cbn; lia. }
    destruct (separated isDigit false t); [|done]. destruct (head_is (Ascii.eqb "#") _).
    { unfold based. destruct (head_is (Ascii.eqb "#") _); [|cbn; lia]. destruct (separated _ _ _); [|cbn; lia].
      etransitivity; [|apply Hfin]. lia. }
    destruct (head_is (Ascii.eqb ".") _ && _); [|etransitivity; [exact H|apply Hfin]].
    unfold fraction. destruct (separated _ _ _); [etransitivity; [|apply Hfin]; lia|cbn; lia]. }
  destruct (head_is (Ascii.eqb quote) r); [apply Hdel|]. destruct (head_is (Ascii.eqb "'") r && is_character r).
  { cbn. destruct (bool_decide _); lia. }
  unfold symbol. destruct (negb _); [done|]. cbn. destruct (bool_decide _); lia.
Qed.
Lemma next_piece_split r : r <> [] ->
  r = piece_text (next_piece r) ++ drop (length (piece_text (next_piece r))) r /\ 1 <= length (piece_text (next_piece r)).
Proof.
  intros Hr. unfold next_piece. destruct (head_is isWhitespace r) eqn:E1.
  { cbn [piece_text]. split; [by rewrite drop_take_while, skip_take|by apply take_while_nonempty]. }
  destruct (bool_decide (take 2 r = chars "--")) eqn:E2.
  { cbn [piece_text]. split; [by rewrite drop_take_while, skip_take|]. apply take_while_nonempty. apply bool_decide_eq_true_1 in E2.
    destruct r as [|c r]; [done|]. injection E2 as -> _. done. }
  pose proof (lexeme_progress r Hr) as Hn. destruct (lexeme r) as [[k e] n]. cbn [piece_text snd] in *. rewrite length_take. split.
  - destruct (decide (n <= length r)); [by rewrite Nat.min_l, take_drop by lia|]. rewrite Nat.min_r, take_ge, drop_all, app_nil_r by lia. done.
  - destruct r; [done|]. cbn. lia.
Qed.
Lemma pieces_of_enough f f' r : length r <= f -> length r <= f' -> pieces_of f r = pieces_of f' r.
Proof.
  revert f' r. induction f as [|f IH]; intros f' r Hf Hf'; [destruct r; [by destruct f'|cbn in Hf; lia]|].
  destruct r as [|c r]; [by destruct f'|]. destruct f' as [|f']; [cbn in Hf'; lia|]. cbn [pieces_of]. f_equal.
  destruct (next_piece_split (c :: r) ltac:(done)) as [_ Hl]. apply IH; rewrite length_drop; cbn in *; lia.
Qed.
Lemma pieces_cons r : r <> [] -> pieces r = next_piece r :: pieces (drop (length (piece_text (next_piece r))) r).
Proof.
  intros Hr. unfold pieces at 1. destruct r as [|c r]; [done|]. cbn [length pieces_of]. f_equal.
  destruct (next_piece_split (c :: r) ltac:(done)) as [_ Hl]. apply pieces_of_enough; rewrite length_drop; cbn in *; lia.
Qed.

(** From [s] the pieces [ps] are taken, which leads to [s']. *)
Definition takes (s : Scanner) (ps : list piece) (s' : Scanner) : Prop :=
  s' = foldl (absorb synthesis) s ps /\ pieces (rest s) = ps ++ pieces (rest s') /\ length (rest s') + length ps <= length (rest s).
Lemma takes_nil s : takes s [] s.
Proof. split_and!; [done|done|cbn; lia]. Qed.
Lemma takes_app s ps s' ps' s'' : takes s ps s' -> takes s' ps' s'' -> takes s (ps ++ ps') s''.
Proof.
  unfold takes. intros (E1 & H2 & H3) (E2 & H5 & H6). rewrite (length_app ps). split_and!; [by rewrite E2, E1, foldl_app|by rewrite H2, H5, app_assoc|lia].
Qed.
Lemma rest_take_lexeme s k e t : rest (take_lexeme s k e t) = rest (to s t).
Proof. unfold take_lexeme. destruct (excluded_ s), e; done. Qed.
Lemma rest_take_comment s t : rest (take_comment s t) = rest (to s t).
Proof. unfold take_comment. destruct (command_of (drop 2 t)) as [[]|], (excluded_ s); done. Qed.
Lemma rest_absorb s pc : rest (absorb synthesis s pc) = rest (to s (piece_text pc)).
Proof. destruct pc as [t|t|k e t]; cbn; [done|destruct synthesis; [apply rest_take_comment|done]|apply rest_take_lexeme]. Qed.
(** The next piece is taken. *)
Lemma takes_next s : rest s <> [] -> takes s [next_piece (rest s)] (absorb synthesis s (next_piece (rest s))).
Proof.
  intros Hr. destruct (next_piece_split (rest s) Hr) as [Hsplit Hlen]. pose proof (rest_to s _ _ Hsplit) as Hr1.
  split_and!; [done| |]; rewrite rest_absorb, Hr1.
  - by rewrite pieces_cons at 1.
  - rewrite length_drop. cbn. pose proof (f_equal length Hsplit) as H. rewrite length_app, length_drop in H. lia.
Qed.

Definition is_trivia (r : list ascii) : bool := head_is isWhitespace r || bool_decide (take 2 r = chars "--").
Lemma dashes r : Ascii.eqb (char_at 0 r) "-" && Ascii.eqb (char_at 1 r) "-" = bool_decide (take 2 r = chars "--").
Proof.
  unfold char_at. destruct r as [|c [|d r]]; cbn; rewrite ?andb_false_r; try (symmetry; by apply bool_decide_eq_false).
  destruct (Ascii.eqb_spec c "-") as [->|H]; [|symmetry; apply bool_decide_eq_false; congruence].
  destruct (Ascii.eqb_spec d "-") as [->|H]; symmetry; [by apply bool_decide_eq_true|apply bool_decide_eq_false; congruence].
Qed.

Lemma blanks_ok s E :
  wp (while (turns source) (fun s => negb (atEnd source s) && isWhitespace (peek source 0 s)) (skip source)) s
    (fun _ s' => exists ps, takes s ps s' /\ head_is isWhitespace (rest s') = false) E.
Proof.
  apply wp_skip_until. set (t := take_while isWhitespace (rest s)).
  assert (Hr1 : rest (to s t) = skip_while isWhitespace (rest s)) by (apply rest_to; unfold t; by rewrite skip_take).
  destruct (head_is isWhitespace (rest s)) eqn:Eh.
  - exists [Blank t]. split; [|rewrite Hr1; apply head_skip_while]. assert (Hp : next_piece (rest s) = Blank t) by (unfold next_piece; by rewrite Eh).
    assert (Hne : rest s <> []) by by destruct (rest s). pose proof (takes_next s Hne) as H. rewrite Hp in H. exact H.
  - assert (t = []) as -> by (unfold t; destruct (rest s) as [|c r]; [done|]; cbn in *; by rewrite Eh). rewrite to_nil. exists []. split; [apply takes_nil|done].
Qed.
Lemma skipTrivia_loop_ok fuel s E : length (rest s) < fuel ->
  wp (loop fuel (skipTrivia_turn source synthesis)) s (fun _ s' => exists ps, takes s ps s' /\ is_trivia (rest s') = false) E.
Proof.
  revert s. induction fuel as [|fuel IH]; intros s Hf; [lia|]. rewrite wp_loop. unfold skipTrivia_turn at 1. rewrite wp_bind.
  eapply wp_mono; [exact (blanks_ok s (fun _ _ => False))| |done]. cbn beta. intros _ s1 (ps & T1 & Hw). rewrite wp_bind, wp_gets, !peek_rest.
  destruct (bool_decide (take 2 (rest s1) = chars "--")) eqn:Ed.
  - pose proof Ed as Hd. rewrite <- dashes in Hd. apply andb_true_iff in Hd as [-> ->]. cbn [negb].
    rewrite wp_bind, wp_gets, wp_bind. apply (wp_skip_until not_newline). set (t := take_while not_newline (rest s1)).
    assert (Hne : rest s1 <> []) by (intros H; by rewrite H in Ed).
    assert (Hp : next_piece (rest s1) = Comment t) by (unfold next_piece; by rewrite Hw, Ed).
    pose proof (takes_next s1 Hne) as T2. rewrite Hp in T2. cbn [absorb] in T2.
    assert (Hgo : wp (loop fuel (skipTrivia_turn source synthesis))
       (if synthesis then take_comment s1 t else to s1 t) (fun _ s' => exists ps, takes s ps s' /\ is_trivia (rest s') = false) E).
    { eapply wp_mono; [apply (IH _)| |intros e s' H; exact H].
      - destruct T1 as (_ & _ & L1), T2 as (_ & _ & L2). cbn in L2. lia.
      - cbn beta. intros _ s3 (ps3 & T3 & H3). exists ((ps ++ [Comment t]) ++ ps3). split; [|done]. eapply takes_app; [|exact T3]. by eapply takes_app. }
    destruct synthesis; rewrite wp_bind; [|by rewrite wp_ret].
    assert (Hsplit : rest s1 = t ++ drop (length t) (rest s1)) by (unfold t; by rewrite drop_take_while, skip_take).
    apply (directive_ok s1 t _ _ _ Hsplit); [|exact Hgo]. unfold t. apply bool_decide_eq_true_1 in Ed. destruct (rest s1) as [|a [|b r]]; [done..|].
    injection Ed as -> ->. cbn. lia.
  - assert (Hexit : exists ps', takes s ps' s1 /\ is_trivia (rest s1) = false) by (exists ps; split; [done|]; unfold is_trivia; by rewrite Hw, Ed).
    rewrite <- dashes in Ed. destruct (Ascii.eqb (char_at 0 (rest s1)) "-"); cbn [negb andb] in *; [|by rewrite wp_ret, wp_ret].
    rewrite Ed. cbn [negb]. by rewrite wp_ret, wp_ret.
Qed.
Lemma skipTrivia_ok s E : wp (skipTrivia source synthesis) s (fun _ s' => exists ps, takes s ps s' /\ is_trivia (rest s') = false) E.
Proof. apply skipTrivia_loop_ok. unfold turns. pose proof (rest_length s). lia. Qed.

(** * The whole source *)

Lemma next_lexeme r : is_trivia r = false -> next_piece r = Lexeme (lexeme r).1.1 (lexeme r).1.2 (take (lexeme r).2 r).
Proof. unfold is_trivia, next_piece. intros [-> ->]%orb_false_iff. by destruct (lexeme r) as [[k e] n]. Qed.

Lemma scanner_loop_ok fuel s E : length (rest s) < fuel ->
  wp (loop fuel (scanner_turn source synthesis)) s (fun _ s' => s' = foldl (absorb synthesis) s (pieces (rest s))) E.
Proof.
  revert s. induction fuel as [|fuel IH]; intros s Hf; [lia|]. rewrite wp_loop. unfold scanner_turn at 1. rewrite wp_bind, wp_gets, atEnd_rest.
  destruct (rest s) as [|c r] eqn:Er; [by rewrite wp_ret, wp_ret|]. rewrite <- Er in *. rewrite wp_bind.
  eapply wp_mono; [exact (skipTrivia_ok s (fun _ _ => False))| |done]. cbn beta. intros _ s1 (ps & (Es1 & Hps & Hl) & Ht). rewrite Hps, foldl_app, <- Es1.
  rewrite wp_bind, wp_gets, atEnd_rest. destruct (rest s1) as [|c1 r1] eqn:Er1; [by rewrite wp_ret, wp_ret|]. rewrite <- Er1 in *.
  assert (Hne : rest s1 <> []) by by rewrite Er1. pose proof (takes_next s1 Hne) as (_ & Hp & Hl2). rewrite (next_lexeme _ Ht) in Hp, Hl2. cbn [absorb] in Hp, Hl2.
  rewrite wp_bind. eapply wp_mono; [exact (scanToken_ok s1 (fun _ _ => False) Hne)| |done]. cbn beta. intros _ s2 ->. unfold lexed. rewrite wp_ret.
  eapply wp_mono; [apply (IH _)| |intros e s' H; exact H].
  - cbn in Hl2. lia.
  - cbn beta. intros _ s' ->. by rewrite Hp.
Qed.

Lemma scan_pieces : lexer_scan source synthesis = Ret (scanned source synthesis).
Proof.
  unfold lexer_scan. fold start_scanner. assert (H : wp (scanner_run source synthesis) start_scanner (fun a _ => a = scanned source synthesis) (fun _ _ => False)).
  { unfold scanner_run. rewrite wp_bind. eapply wp_mono; [apply (scanner_loop_ok (turns source) start_scanner (fun _ _ => False))| |done].
    - unfold turns. pose proof (rest_length start_scanner). lia.
    - cbn beta. intros _ s' ->. rewrite wp_bind, wp_modify, wp_bind, wp_modify, wp_gets. unfold scanned, finish, rest. cbn [position_ start_scanner origin offset]. by rewrite drop_0. }
  unfold wp in H. destruct (scanner_run source synthesis start_scanner) as [[a|e|] s']; [|done..]. by rewrite H.
Qed.
End scanner.
