(* ===== verification/VhdlProperties.v ===== *)
(** What the tokens of the VHDL scanner are to its source: they tile it, errors
    are the malformed ones, exclusion only drops tokens, and printed tokens are
    scanned back. *)
From S2P Require Import Prelude Store VhdlLexer VhdlPieces.
Local Open Scope nat_scope.

(** * Statements *)

(** Where the text after [l] begins. *)
Definition newlines (l : list ascii) : nat := length (List.filter (Ascii.eqb newline) l).
Definition last_line (l : list ascii) : list ascii := rev (take_while not_newline (rev l)).
Definition position_after (l : list ascii) : SourcePosition := mkPos (length l) (S (newlines l)) (S (length (last_line l))).

(** White space and comments. *)
Inductive trivia : list ascii -> Prop :=
| trivia_nil : trivia []
| trivia_space c l : isWhitespace c = true -> trivia l -> trivia (c :: l)
| trivia_comment t l : Forall (fun c => c <> newline) t -> (l = [] \/ head_is (Ascii.eqb newline) l = true) -> trivia l ->
    trivia (chars "--" ++ t ++ l).

(** After the text [before], the tokens are what the text [r] holds. *)
Inductive laid_out (before : list ascii) : list ascii -> list Token -> Prop :=
| laid_end gap : trivia gap ->
    laid_out before gap [mkToken EndOfFile [] [] (mkSpan (position_after (before ++ gap)) (position_after (before ++ gap)))]
| laid_token gap t r ts : trivia gap -> kind t <> EndOfFile -> text t <> [] -> head_is isWhitespace (text t) = false ->
    span t = mkSpan (position_after (before ++ gap)) (position_after (before ++ gap ++ text t)) ->
    laid_out (before ++ gap ++ text t) r ts -> laid_out before (gap ++ text t ++ r) (t :: ts).

Definition is_invalid (t : Token) : bool := match kind t with Invalid => true | _ => false end.

(** * Positions *)

Lemma position_after_snoc l c : position_after (l ++ [c]) = move c (position_after l).
Proof.
  unfold position_after, newlines, last_line, move. rewrite List.filter_app, !length_app, rev_app_distr. cbn [rev app take_while List.filter offset line column length].
  unfold not_newline. rewrite (Ascii.eqb_sym newline c). destruct (Ascii.eqb c newline); cbn [negb rev length].
  - by rewrite !Nat.add_1_r.
  - rewrite length_app, Nat.add_0_r. cbn [length]. by rewrite !Nat.add_1_r.
Qed.
Lemma moves_after l l' : moves (position_after l) l' = position_after (l ++ l').
Proof.
  revert l. induction l' as [|c l' IH]; intros l; [by rewrite app_nil_r|].
  change (moves (position_after l) (c :: l')) with (moves (move c (position_after l)) l'). rewrite <- position_after_snoc, IH. by rewrite <- app_assoc.
Qed.

(** * Trivia *)

Lemma trivia_spaces t l : Forall (fun c => isWhitespace c = true) t -> trivia l -> trivia (t ++ l).
Proof. induction 1; [done|]. intros Hl. cbn. constructor; auto. Qed.

(** What is before the next lexeme. *)
Lemma take_while_forall p l : Forall (fun c => p c = true) (take_while p l).
Proof. apply Forall_forall. intros c Hc. exact (take_while_all p l c Hc). Qed.

Lemma comment_trivia r l : take 2 r = chars "--" -> (l = [] \/ head_is (Ascii.eqb newline) l = true) -> trivia l -> trivia (take_while not_newline r ++ l).
Proof.
  intros H Hh Hl. destruct r as [|a [|b r]]; [done..|]. injection H as -> ->. cbn.
  apply (trivia_comment (take_while not_newline r) l); [|done..].
  apply Forall_forall. intros c Hc%take_while_all. unfold not_newline in Hc. by apply negb_true_iff, Ascii.eqb_neq in Hc.
Qed.

(** Trivia that is before a text is before its first token. *)
Lemma laid_after before t r ts :
  (forall l r', r = l ++ r' -> head_is isWhitespace r' = false -> trivia l -> trivia (t ++ l)) ->
  laid_out (before ++ t) r ts -> laid_out before (t ++ r) ts.
Proof.
  intros Ht H. inversion H as [gap Hg|gap k r' ts' Hg Hk Hn Hw Hs Hl]; subst; clear H.
  - rewrite <- app_assoc. apply laid_end. apply (Ht _ []); [by rewrite app_nil_r|done..].
  - rewrite app_assoc. apply laid_token; [|done..|by rewrite Hs, !app_assoc|by rewrite <- !app_assoc in *].
    apply (Ht _ (text k ++ r')); [done| |done]. by destruct (text k).
Qed.

(** * The tokens of the pieces *)

Definition token_of (p : SourcePosition) (k : TokenKind) (t : list ascii) : Token := mkToken k t (canonical_of k t) (mkSpan p (moves p t)).
Fixpoint tokens_of (p : SourcePosition) (ps : list piece) : list Token :=
  match ps with
  | [] => [mkToken EndOfFile [] [] (mkSpan p p)]
  | Lexeme k _ t :: ps => token_of p k t :: tokens_of (moves p t) ps
  | pc :: ps => tokens_of (moves p (piece_text pc)) ps
  end.
Fixpoint errors_of (p : SourcePosition) (ps : list piece) : list LexDiagnostic :=
  match ps with
  | [] => []
  | Lexeme _ (Some m) t :: ps => mkDiagnostic m (mkSpan p (moves p t)) :: errors_of (moves p t) ps
  | pc :: ps => errors_of (moves p (piece_text pc)) ps
  end.
Lemma absorbed_plain s ps : excluded_ s = false ->
  finish (foldl (absorb false) s ps) =
  mkResult (tokens (result_ s) ++ tokens_of (position_ s) ps) (diagnostics (result_ s) ++ errors_of (position_ s) ps).
Proof.
  revert s. induction ps as [|pc ps IH]; intros s Hs; cbn [foldl].
  - unfold finish. rewrite Hs. destruct s as [e x q [ts ds]]. cbn. by rewrite app_nil_r.
  - destruct pc as [t|t|k e t]; cbn [absorb tokens_of errors_of piece_text]; [by rewrite IH..|].
    unfold take_lexeme. rewrite Hs, IH by by destruct e. destruct s as [x y q [ts ds]].
    destruct e; cbn; by rewrite <- ?app_assoc.
Qed.
Lemma scanned_plain source : scanned source false = mkResult (tokens_of origin (pieces source)) (errors_of origin (pieces source)).
Proof. exact (absorbed_plain start_scanner (pieces source) eq_refl). Qed.

(** A lexeme has an error when its kind is [Invalid]. *)
Definition sound_lexeme (x : TokenKind * option string * nat) : Prop :=
  x.1.1 <> EndOfFile /\ (x.1.1 = Invalid <-> x.1.2 <> None).
Lemma sound_ok k n : k <> EndOfFile -> k <> Invalid -> sound_lexeme (k, None, n).
Proof. intros H1 H2. by split. Qed.
Lemma sound_invalid m n : sound_lexeme (Invalid, Some m, n).
Proof. by split. Qed.
#[local] Hint Resolve sound_ok sound_invalid : core.
Lemma sound_finished real m n r : sound_lexeme (finished real m n r).
Proof. unfold finished. destruct (exponent m r) as [[e|] k]; [auto|]. destruct real; by apply sound_ok. Qed.
#[local] Hint Resolve sound_finished : core.
Lemma sound_numeric r : sound_lexeme (numeric r).
Proof. unfold numeric, based, fraction. repeat case_match; auto. Qed.
Lemma lexeme_sound r : sound_lexeme (lexeme r).
Proof.
  unfold lexeme, word, delimited, symbol. repeat case_match; auto using sound_numeric; by apply sound_ok.
Qed.

(** * The tokens tile the source *)

Lemma lexeme_not_space r : head_is isWhitespace (take (lexeme r).2 r) = false \/ head_is isWhitespace r = true.
Proof. destruct r as [|c r]; [left; by rewrite take_nil|]. destruct (lexeme (c :: r)).2; [by left|]. cbn [take head_is]. destruct (isWhitespace c); auto. Qed.

Lemma tokens_laid before r : laid_out before r (tokens_of (position_after before) (pieces r)).
Proof.
  remember (length r) as n eqn:Hn. revert before r Hn. induction n as [n IH] using lt_wf_ind. intros before r ->.
  destruct (decide (r = [])) as [->|Hr].
  { cbn. pose proof (laid_end before [] trivia_nil) as H. by rewrite app_nil_r in H. }
  destruct (next_piece_split r Hr) as [Hsplit Hlen]. rewrite (pieces_cons r Hr).
  set (r' := drop (length (piece_text (next_piece r))) r) in *.
  assert (Hrec : forall before, laid_out before r' (tokens_of (position_after before) (pieces r'))).
  { intros before'. apply (IH (length r')); [|done]. apply (f_equal length) in Hsplit. rewrite length_app in Hsplit. lia. }
  revert Hsplit Hlen Hrec. clearbody r'. unfold next_piece.
  destruct (head_is isWhitespace r) eqn:Ew.
  { cbn [piece_text tokens_of]. intros Hsplit _ Hrec. rewrite moves_after. rewrite Hsplit at 1. apply laid_after; [|apply Hrec].
    intros l _ _ _. apply trivia_spaces, take_while_forall. }
  destruct (bool_decide (take 2 r = chars "--")) eqn:Ed.
  { cbn [piece_text tokens_of]. intros Hsplit _ Hrec. rewrite moves_after. rewrite Hsplit at 1. apply laid_after; [|apply Hrec].
    intros l r1 Hl Hr1 Htl. apply comment_trivia; [by apply bool_decide_eq_true_1 in Ed| |done].
    assert (Hskip : r' = skip_while not_newline r) by (apply (app_inv_head (take_while not_newline r)); by rewrite <- Hsplit, skip_take).
    pose proof (head_skip_while not_newline r) as Hh. rewrite <- Hskip in Hh. destruct l as [|c l]; [by left|right].
    rewrite Hl in Hh. cbn [head_is app] in *. unfold not_newline in Hh. apply negb_false_iff in Hh. by rewrite Ascii.eqb_sym. }
  pose proof (lexeme_not_space r) as Hsp. pose proof (lexeme_sound r) as [Hk _].
  destruct (lexeme r) as [[k e] m]. cbn [piece_text tokens_of fst snd] in *. intros Hsplit Hlen Hrec.
  set (t := take m r) in *. rewrite Hsplit. apply (laid_token before [] (token_of (position_after before) k t) r').
  - constructor.
  - done.
  - cbn. intros E. subst t. rewrite E in Hlen. cbn in Hlen. lia.
  - destruct Hsp as [Hsp|Hsp]; [exact Hsp|by rewrite Ew in Hsp].
  - unfold token_of. cbn. by rewrite moves_after, app_nil_r.
  - cbn. rewrite moves_after. apply Hrec.
Qed.

(** C29. The tokens of any source tile it: before each of them there is only white
    space and comments, its text is what the source holds from the start of its
    span to the end, and the offset, line and column of both are those of the
    text before them. The last token, and no other, is the end of the file. *)
Theorem tokens_tile_source source : exists r, lexer_scan source false = Ret r /\ laid_out [] source (tokens r).
Proof. exists (scanned source false). split; [apply scan_pieces|]. rewrite scanned_plain. exact (tokens_laid [] source). Qed.

(** C28. The scanner returns on every source, with or without the directives of
    synthesis tools, and what it returns is what taking the pieces of the source
    one by one gives. *)
Theorem scan_takes_pieces source synthesis :
  lexer_scan source synthesis = Ret (scanned source synthesis) /\ concat (piece_text <$> pieces source) = source.
Proof.
  split; [apply scan_pieces|]. remember (length source) as n eqn:Hn. revert source Hn. induction n as [n IH] using lt_wf_ind. intros r ->.
  destruct (decide (r = [])) as [->|Hr]; [done|]. destruct (next_piece_split r Hr) as [Hsplit Hlen]. rewrite (pieces_cons r Hr). cbn.
  rewrite (IH (length (drop (length (piece_text (next_piece r))) r))); [by rewrite <- Hsplit| |done].
  apply (f_equal length) in Hsplit. rewrite length_app in Hsplit. lia.
Qed.

(** * Errors *)

Lemma errors_invalid p r : d_span <$> errors_of p (pieces r) = span <$> List.filter is_invalid (tokens_of p (pieces r)).
Proof.
  remember (length r) as n eqn:Hn. revert p r Hn. induction n as [n IH] using lt_wf_ind. intros p r ->.
  destruct (decide (r = [])) as [->|Hr]; [done|]. destruct (next_piece_split r Hr) as [Hsplit Hlen]. rewrite (pieces_cons r Hr).
  set (r' := drop (length (piece_text (next_piece r))) r) in *.
  assert (Hrec : forall p, d_span <$> errors_of p (pieces r') = span <$> List.filter is_invalid (tokens_of p (pieces r'))).
  { intros p'. apply (IH (length r')); [|done]. apply (f_equal length) in Hsplit. rewrite length_app in Hsplit. lia. }
  revert Hrec. clearbody r'. clear. unfold next_piece. intros Hrec. pose proof (lexeme_sound r) as [_ Hk].
  destruct (head_is isWhitespace r); [apply Hrec|]. destruct (bool_decide (take 2 r = chars "--")); [apply Hrec|].
  destruct (lexeme r) as [[k e] m]. cbn [fst snd] in Hk. destruct e as [e|].
  - rewrite (proj2 Hk) by done. cbn. by rewrite Hrec.
  - cbn [errors_of tokens_of List.filter piece_text]. unfold is_invalid at 1, token_of at 1. cbn [kind]. destruct k; try exact (Hrec _). by destruct (proj1 Hk eq_refl).
Qed.

(** Without synthesis directives, what the scanner complains of are the
    malformed tokens, each once and in order: there is no diagnostic if and only
    if no token is invalid. *)
Theorem diagnostics_are_invalid_tokens source : exists r, lexer_scan source false = Ret r /\
  d_span <$> diagnostics r = span <$> List.filter is_invalid (tokens r).
Proof. exists (scanned source false). split; [apply scan_pieces|]. rewrite scanned_plain. apply errors_invalid. Qed.

(** * Exclusion *)

(** A comment that is no directive of a synthesis tool. *)
Definition is_plain (pc : piece) : Prop := match pc with Comment t => command_of (drop 2 t) = None | _ => True end.

Lemma absorb_position synthesis s s' pc : position_ s = position_ s' -> position_ (absorb synthesis s pc) = position_ (absorb false s' pc).
Proof.
  intros H. destruct pc as [t|t|k e t]; cbn [absorb]; [by cbn; rewrite H| |].
  - destruct synthesis; [|by cbn; rewrite H]. unfold take_comment.
    destruct (command_of (drop 2 t)) as [[]|], (excluded_ s); cbn; by rewrite H.
  - unfold take_lexeme. destruct (excluded_ s), (excluded_ s'), e; cbn; by rewrite H.
Qed.
Lemma absorb_sublist s s' pc : position_ s = position_ s' -> excluded_ s' = false -> sublist (tokens (result_ s)) (tokens (result_ s')) ->
  sublist (tokens (result_ (absorb true s pc))) (tokens (result_ (absorb false s' pc))).
Proof.
  intros Hp He H. destruct pc as [t|t|k e t]; cbn [absorb]; [done| |].
  - unfold take_comment. by destruct (command_of (drop 2 t)) as [[]|], (excluded_ s).
  - unfold take_lexeme. rewrite He. destruct (excluded_ s); [destruct e; cbn; by apply sublist_inserts_r|].
    destruct e; cbn; rewrite Hp; by apply sublist_app.
Qed.
Lemma absorb_excluded s pc : excluded_ s = false -> excluded_ (absorb false s pc) = false.
Proof. intros H. destruct pc as [t|t|k [e|] t]; cbn; [done..| |]; unfold take_lexeme; by rewrite H. Qed.
Lemma absorbed_sublist ps s s' : position_ s = position_ s' -> excluded_ s' = false -> sublist (tokens (result_ s)) (tokens (result_ s')) ->
  sublist (tokens (finish (foldl (absorb true) s ps))) (tokens (finish (foldl (absorb false) s' ps))).
Proof.
  revert s s'. induction ps as [|pc ps IH]; intros s s' Hp He H; cbn [foldl].
  - unfold finish. rewrite He. destruct (excluded_ s); cbn; rewrite Hp; by apply sublist_app.
  - apply IH; [by apply absorb_position|by apply absorb_excluded|by apply absorb_sublist].
Qed.
Lemma absorbed_plainly ps s : Forall is_plain ps -> foldl (absorb true) s ps = foldl (absorb false) s ps.
Proof.
  intros H. revert s. induction H as [|pc ps Hpc _ IH]; intros s; cbn [foldl]; [done|]. rewrite IH. f_equal.
  destruct pc as [t|t|k e t]; cbn [absorb]; [done| |done]. change (command_of (drop 2 t) = None) in Hpc. unfold take_comment. by rewrite Hpc.
Qed.

(** The directives of synthesis tools only leave tokens out: what is scanned
    with them are some of the tokens scanned without, in the same order, spans
    included; on a source without directives the results are the same. *)
Theorem directives_only_drop source : exists r r',
  lexer_scan source false = Ret r /\ lexer_scan source true = Ret r' /\ sublist (tokens r') (tokens r) /\
  (Forall is_plain (pieces source) -> r' = r).
Proof.
  exists (scanned source false), (scanned source true). split_and!; [apply scan_pieces..|by apply absorbed_sublist|].
  intros H. unfold scanned. by rewrite (absorbed_plainly _ _ H).
Qed.

(** * Printed tokens *)

(** Numbers: digits with underscores between them, and an exponent. *)
Inductive sign := Plus | Minus.
Record power := mkPower { big_e : bool; power_sign : option sign; power_digits : list ascii }.
Inductive literal :=
| LName (t : list ascii) | LExtended (body : list ascii) | LString (body : list ascii) | LChar (c : ascii)
| LDecimal (t : list ascii) (fraction : option (list ascii)) (e : option power)
| LBased (base body : list ascii) (e : option power)
| LSymbol (t : list ascii).

(** The delimiters and compound delimiters of the language. *)
Definition symbols : list (list ascii) := chars <$>
  [":="; "<="; ">="; "/="; "=>"; "**"; "<>"; "??"; "&"; "'"; "("; ")"; "*"; "+"; ","; "-"; "."; "/"; ":"; ";"; "<"; "="; ">"; "|"; "["; "]"; "?"]%string.

Definition digits_ok (t : list ascii) : bool := head_is isDigit t && forallb digit_or_underscore t && separated isDigit false t.
Definition power_ok (e : option power) : bool := match e with Some e => digits_ok (power_digits e) | None => true end.
Definition literal_ok (x : literal) : bool :=
  match x with
  | LName t => head_is isAlpha t && forallb word_char t && separated isAlphaNumeric false t
  | LExtended _ | LString _ => true
  | LChar c => negb (Ascii.eqb c NUL) && negb (Ascii.eqb c newline)
  | LDecimal t f e => digits_ok t && match f with Some f => digits_ok f | None => true end && power_ok e
  | LBased b t e => digits_ok b && forallb (fun c => negb (Ascii.eqb c "#")) t && separated isAlphaNumeric false t && power_ok e
  | LSymbol t => bool_decide (t ∈ symbols)
  end.

(** The delimiter stands twice for itself. *)
Fixpoint escaped (q : ascii) (l : list ascii) : list ascii :=
  match l with [] => [] | c :: l => (if Ascii.eqb c q then [q; q] else [c]) ++ escaped q l end.
Definition print_power (e : option power) : list ascii :=
  match e with
  | None => []
  | Some e => (if big_e e then "E" else "e")%char :: match power_sign e with Some Plus => ["+"] | Some Minus => ["-"] | None => [] end%char ++ power_digits e
  end.
Definition print_literal (x : literal) : list ascii :=
  match x with
  | LName t | LSymbol t => t
  | LExtended b => "\"%char :: escaped "\" b ++ ["\"%char]
  | LString b => quote :: escaped quote b ++ [quote]
  | LChar c => ["'"; c; "'"]%char
  | LDecimal t f e => t ++ match f with Some f => "."%char :: f | None => [] end ++ print_power e
  | LBased b t e => b ++ "#"%char :: t ++ "#"%char :: print_power e
  end.
Definition kind_of (x : literal) : TokenKind :=
  match x with
  | LName _ => Identifier | LExtended _ => ExtendedIdentifier | LString _ => StringLiteral | LChar _ => CharacterLiteral | LSymbol _ => Symbol
  | LDecimal _ (Some _) _ => RealLiteral | LDecimal _ None _ => IntegerLiteral
  | LBased _ t _ => if existsb (Ascii.eqb ".") t then RealLiteral else IntegerLiteral
  end.
(** One to a line. *)
Definition print_literals (l : list literal) : list ascii := concat ((fun x => print_literal x ++ [newline]) <$> l).

(** * Scanning what is printed *)

(** What follows does not go on the token. *)
Definition stops (p : ascii -> bool) (r : list ascii) : Prop := head_is p r = false.
Lemma take_while_all_app p t r : forallb p t = true -> head_is p r = false -> take_while p (t ++ r) = t.
Proof.
  induction t as [|c t IH]; cbn; intros Ht Hr; [|apply andb_true_iff in Ht as [-> Ht]; by rewrite IH].
  destruct r as [|c r]; [done|]. cbn in *. by rewrite Hr.
Qed.
Lemma closing_escaped q b r : q <> newline -> closing q (escaped q b ++ q :: newline :: r) = Some (length (escaped q b) + 1).
Proof.
  intros Hq. induction b as [|c b IH]; cbn [escaped app].
  - cbn [closing]. rewrite Ascii.eqb_refl. by rewrite (proj2 (Ascii.eqb_neq newline q)) by congruence.
  - destruct (Ascii.eqb_spec c q) as [->|Hc].
    + cbn [app]. rewrite closing_double, IH. done.
    + cbn [app]. rewrite closing_other, IH by done. done.
Qed.
Lemma take_all_app {A} (t r : list A) n : n = length t -> take n (t ++ r) = t.
Proof. intros ->. by rewrite take_app_length. Qed.

Lemma word_name t r : head_is isAlpha t = true -> forallb word_char t = true -> separated isAlphaNumeric false t = true ->
  word (t ++ newline :: r) = (Identifier, None, length t).
Proof. intros _ Ht Hs. unfold word. by rewrite take_while_all_app, Hs. Qed.
Lemma delimited_escaped q k m b r : q <> newline ->
  delimited q k m ((q :: escaped q b ++ [q]) ++ newline :: r) = (k, None, length (q :: escaped q b ++ [q])).
Proof.
  intros Hq. unfold delimited. cbn [app drop]. rewrite drop_0, <- app_assoc. cbn [app]. rewrite closing_escaped by done. cbn. by rewrite length_app.
Qed.
Lemma digits_ok_alt t : digits_ok t = true -> head_is isDigit t = true /\ forallb digit_or_underscore t = true /\ separated isDigit false t = true.
Proof. unfold digits_ok. by intros [[]%andb_true_iff]%andb_true_iff. Qed.
Lemma head_app p (t r : list ascii) : head_is p t = true -> head_is p (t ++ r) = true.
Proof. by destruct t. Qed.
Lemma head_is_app p (t r : list ascii) : t <> [] -> head_is p (t ++ r) = head_is p t.
Proof. by destruct t. Qed.

Lemma exponent_printed m e r : power_ok e = true -> exponent m (print_power e ++ newline :: r) = (None, length (print_power e)).
Proof.
  destruct e as [[be sg ds]|]; [|done]. cbn [power_ok power_digits]. intros (Hh & Hd & Hs)%digits_ok_alt. unfold exponent.
  assert (Ht : take_while digit_or_underscore (ds ++ newline :: r) = ds) by by apply take_while_all_app.
  assert (He : head_is is_exponent (print_power (Some (mkPower be sg ds)) ++ newline :: r) = true) by by destruct be.
  rewrite He. cbn [print_power big_e power_sign power_digits app drop]. rewrite drop_0.
  destruct sg as [[]|]; cbn [app]; unfold sign_length; cbn [head_is is_sign].
  1,2: cbn; rewrite drop_0; rewrite head_app by done; rewrite Ht, Hs; done.
  assert (Hsg : head_is is_sign (ds ++ newline :: r) = false).
  { destruct ds as [|d ds]; [done|]. cbn in *. destruct (is_sign d) eqn:E; [|done]. unfold is_sign in E.
    apply orb_true_iff in E as [->%Ascii.eqb_eq| ->%Ascii.eqb_eq]; done. }
  rewrite Hsg. cbn [Nat.add drop]. rewrite drop_0, head_app by done. by rewrite Ht, Hs.
Qed.
Lemma finished_printed real m n e r : power_ok e = true ->
  finished real m n (print_power e ++ newline :: r) = (if real then RealLiteral else IntegerLiteral, None, n + length (print_power e)).
Proof. intros He. unfold finished. by rewrite exponent_printed. Qed.
Lemma power_head p e r : p newline = false -> p "e"%char = false -> p "E"%char = false -> head_is p (print_power e ++ newline :: r) = false.
Proof. intros H1 H2 H3. destruct e as [[[] sg ds]|]; done. Qed.

Lemma numeric_printed x r : literal_ok x = true -> match x with LDecimal _ _ _ | LBased _ _ _ => True | _ => False end ->
  numeric (print_literal x ++ newline :: r) = (kind_of x, None, length (print_literal x)).
Proof.
  intros Hok Hx. destruct x as [| | | |t f e|b t e|]; try done; clear Hx; cbn [literal_ok] in Hok.
  - apply andb_true_iff in Hok as [[Ht Hf]%andb_true_iff He]. apply digits_ok_alt in Ht as (_ & Hd & Hs). unfold numeric. cbn [print_literal].
    destruct f as [f|]; cbn [app].
    + apply digits_ok_alt in Hf as (Hfh & Hfd & Hfs). rewrite <- app_assoc. rewrite take_while_all_app by done. rewrite drop_app_length, Hs. cbn [app head_is drop].
      rewrite drop_0, <- app_assoc, head_app by done. cbn. unfold fraction.
      rewrite take_while_all_app by (done || by apply power_head). rewrite Hfs, drop_app_length, finished_printed by done.
      cbn [kind_of]. f_equal. rewrite !length_app. cbn. rewrite length_app. lia.
    + rewrite <- app_assoc, take_while_all_app by (done || by apply power_head). rewrite drop_app_length, Hs, !power_head by done.
      cbn [andb]. rewrite finished_printed by done. by rewrite length_app.
  - apply andb_true_iff in Hok as [[[Hb Ht]%andb_true_iff Hs]%andb_true_iff He]. apply digits_ok_alt in Hb as (_ & Hd & Hbs). unfold numeric. cbn [print_literal].
    rewrite <- app_assoc, take_while_all_app by done. rewrite drop_app_length, Hbs. cbn [app head_is drop]. rewrite Ascii.eqb_refl, drop_0, <- app_assoc.
    unfold based. rewrite take_while_all_app by done. rewrite drop_app_length. cbn [app head_is]. rewrite Ascii.eqb_refl, Hs.
    rewrite <- drop_drop, drop_app_length. cbn [drop]. rewrite drop_0, finished_printed by done. cbn [kind_of]. f_equal.
    rewrite !length_app. cbn. rewrite length_app. cbn. lia.
Qed.

Lemma digit_not_alpha c : isDigit c = true -> isAlpha c = false /\ Ascii.eqb "\" c = false.
Proof.
  by destruct c as [[] [] [] [] [] [] [] []].
Qed.
Lemma lexeme_number r : head_is isDigit r = true -> lexeme r = numeric r.
Proof. intros H. destruct r as [|c r]; [done|]. pose proof (digit_not_alpha c H) as [H1 H2]. unfold lexeme. cbn [head_is] in *. by rewrite H1, H2, H. Qed.
Lemma quote_not_character r : is_character ("'"%char :: newline :: r) = false.
Proof.
  unfold is_character. rewrite (bool_decide_eq_false_2 (take 4 _ = _)) by discriminate. unfold char_at. cbn [lookup list_lookup default orb].
  change (Ascii.eqb newline newline) with true. by rewrite andb_false_r.
Qed.
Lemma lexeme_symbol t r : literal_ok (LSymbol t) = true -> lexeme (t ++ newline :: r) = (Symbol, None, length t).
Proof.
  cbn [literal_ok]. intros Ht%bool_decide_eq_true. cbn in Ht.
  repeat (apply elem_of_cons in Ht as [->|Ht]; [first [vm_compute; reflexivity|unfold lexeme; cbn [app]; by rewrite quote_not_character]|]). by apply not_elem_of_nil in Ht.
Qed.
Lemma lexeme_char c r : literal_ok (LChar c) = true -> lexeme (["'"; c; "'"]%char ++ newline :: r) = (CharacterLiteral, None, 3).
Proof.
  cbn [literal_ok]. intros [H1 H2]%andb_true_iff. unfold lexeme. cbn [app head_is].
  assert (Hi : is_character ("'" :: c :: "'" :: newline :: r)%char = true).
  { unfold is_character. change (char_at 1 _) with c. change (char_at 2 _) with "'"%char. rewrite H1, H2. apply orb_true_r. }
  rewrite Hi. rewrite (bool_decide_eq_false_2 (take 4 _ = _)) by discriminate. done.
Qed.
Lemma lexeme_printed x r : literal_ok x = true -> lexeme (print_literal x ++ newline :: r) = (kind_of x, None, length (print_literal x)).
Proof.
  intros Hok. destruct x as [t|b|b|c|t f e|b t e|t].
  - cbn [literal_ok] in Hok. apply andb_true_iff in Hok as [[H1 H2]%andb_true_iff H3]. unfold lexeme. rewrite head_app by done. by apply word_name.
  - exact (delimited_escaped "\" ExtendedIdentifier _ b r ltac:(done)).
  - exact (delimited_escaped quote StringLiteral _ b r ltac:(done)).
  - by apply lexeme_char.
  - rewrite lexeme_number; [by apply numeric_printed|]. cbn [literal_ok] in Hok. apply andb_true_iff in Hok as [[Ht _]%andb_true_iff _].
    apply digits_ok_alt in Ht as (Ht & _). cbn [print_literal]. rewrite <- !app_assoc. by apply head_app.
  - rewrite lexeme_number; [by apply numeric_printed|]. cbn [literal_ok] in Hok. apply andb_true_iff in Hok as [[[Ht _]%andb_true_iff _]%andb_true_iff _].
    apply digits_ok_alt in Ht as (Ht & _). cbn [print_literal]. rewrite <- app_assoc. by apply head_app.
  - by apply lexeme_symbol.
Qed.

(** A printed token does not begin like trivia. *)
Lemma alpha_not_space c : isAlpha c = true -> isWhitespace c = false /\ c <> "-"%char.
Proof.
  intros H. split.
  - destruct (isWhitespace c) eqn:E; [|done]. apply existsb_exists in E as (d & Hd & ->%Ascii.eqb_eq). cbn in Hd.
    repeat (destruct Hd as [<-|Hd]; [discriminate H|]). done.
  - by intros ->.
Qed.
Lemma digit_not_space c : isDigit c = true -> isWhitespace c = false /\ c <> "-"%char.
Proof.
  intros H. split.
  - destruct (isWhitespace c) eqn:E; [|done]. apply existsb_exists in E as (d & Hd & ->%Ascii.eqb_eq). cbn in Hd.
    repeat (destruct Hd as [<-|Hd]; [discriminate H|]). done.
  - by intros ->.
Qed.
Definition begins_token (r : list ascii) : Prop := head_is isWhitespace r = false /\ take 2 r <> chars "--" /\ r <> [].
Lemma begins_head p r t : (forall c, p c = true -> isWhitespace c = false /\ c <> "-"%char) -> head_is p t = true -> begins_token (t ++ r).
Proof.
  intros Hp H. destruct t as [|c t]; [done|]. destruct (Hp c H) as [Hw Hd]. split_and!; [done| |done].
  cbn. intros E. congruence.
Qed.
Lemma printed_begins x r : literal_ok x = true -> begins_token (print_literal x ++ newline :: r).
Proof.
  intros Hok. destruct x as [t|b|b|c|t f e|b t e|t]; cbn [print_literal].
  - cbn [literal_ok] in Hok. apply andb_true_iff in Hok as [[H1 _]%andb_true_iff _]. exact (begins_head _ _ _ alpha_not_space H1).
  - by split_and!.
  - by split_and!.
  - by split_and!.
  - cbn [literal_ok] in Hok. apply andb_true_iff in Hok as [[(Ht & _)%digits_ok_alt _]%andb_true_iff _].
    rewrite <- !app_assoc. exact (begins_head _ _ _ digit_not_space Ht).
  - cbn [literal_ok] in Hok. apply andb_true_iff in Hok as [[[(Ht & _)%digits_ok_alt _]%andb_true_iff _]%andb_true_iff _].
    rewrite <- app_assoc. exact (begins_head _ _ _ digit_not_space Ht).
  - cbn [literal_ok] in Hok. apply bool_decide_eq_true in Hok. cbn in Hok. repeat (apply elem_of_cons in Hok as [->|Hok]; [by split_and!|]). by apply not_elem_of_nil in Hok.
Qed.

Lemma pieces_printed l : Forall (fun x => literal_ok x = true) l ->
  pieces (print_literals l) = l ≫= (fun x => [Lexeme (kind_of x) None (print_literal x); Blank [newline]]).
Proof.
  induction 1 as [|x l Hx Hl IH]; [done|]. unfold print_literals. cbn [fmap list_fmap concat mbind list_bind app].
  fold (print_literals l). rewrite <- app_assoc. cbn [app]. set (r := print_literals l) in *.
  destruct (printed_begins x r Hx) as (Hw & Hd & Hn). rewrite (pieces_cons _ Hn). unfold next_piece. rewrite Hw, (bool_decide_eq_false_2 _ Hd), (lexeme_printed x r Hx), take_app_length.
  f_equal. cbn [piece_text]. rewrite drop_app_length, pieces_cons by done. unfold next_piece. change (head_is isWhitespace (newline :: r)) with true. cbn iota.
  assert (Hb : take_while isWhitespace (newline :: r) = [newline]).
  { assert (Hr : head_is isWhitespace r = false).
    { unfold r. destruct Hl as [|y l Hy Hl]; [done|]. unfold print_literals. cbn [fmap list_fmap concat]. rewrite <- app_assoc. exact (proj1 (printed_begins y _ Hy)). }
    exact (take_while_all_app isWhitespace [newline] r eq_refl Hr). }
  rewrite Hb. f_equal. cbn [piece_text length drop]. by rewrite drop_0.
Qed.
Definition shown_token (t : Token) : TokenKind * list ascii := (kind t, text t).
Lemma shown_pieces l p :
  shown_token <$> tokens_of p (l ≫= (fun x => [Lexeme (kind_of x) None (print_literal x); Blank [newline]])) =
  ((fun x => (kind_of x, print_literal x)) <$> l) ++ [(EndOfFile, [])].
Proof. revert p. induction l as [|x l IH]; intros p; [done|]. cbn. by rewrite IH. Qed.
Lemma errors_pieces l p : errors_of p (l ≫= (fun x => [Lexeme (kind_of x) None (print_literal x); Blank [newline]])) = [].
Proof. revert p. induction l as [|x l IH]; intros p; [done|]. cbn. by rewrite IH. Qed.

(** C30. Well-formed tokens printed one to a line are scanned back: names, extended
    names and strings with their delimiters doubled, character literals, decimal
    and based numbers with their fractions, separators and exponents, and every
    symbol come back with their kinds and texts, and there are no errors. *)
Theorem printed_tokens_scan_back l : Forall (fun x => literal_ok x = true) l ->
  exists r, lexer_scan (print_literals l) false = Ret r /\ diagnostics r = [] /\
    shown_token <$> tokens r = ((fun x => (kind_of x, print_literal x)) <$> l) ++ [(EndOfFile, [])].
Proof.
  intros Hl. exists (scanned (print_literals l) false). split; [apply scan_pieces|]. rewrite scanned_plain, (pieces_printed l Hl). cbn [tokens diagnostics].
  split; [apply errors_pieces|apply shown_pieces].
Qed.
Definition some_literals : list literal :=
  [LName (chars "q_1"); LExtended (chars "a"); LString (quote :: chars "x"); LChar "'"; LSymbol (chars "<=");
   LDecimal (chars "1_0") (Some (chars "5")) (Some (mkPower true (Some Minus) (chars "2"))); LBased (chars "16") (chars "F_F.8") None; LSymbol (chars "-")].
Lemma printed_tokens_scan_back_witness : exists r, lexer_scan (print_literals some_literals) false = Ret r /\ diagnostics r = [] /\
    shown_token <$> tokens r = ((fun x => (kind_of x, print_literal x)) <$> some_literals) ++ [(EndOfFile, [])].
Proof. apply printed_tokens_scan_back. repeat constructor. Defined.
