(* ===== verification/VhdlSyntax.v ===== *)
(** The syntax trees of the VHDL parser (vhdl/include/vhdl/Parser.h). The fields
    of a structure are named after it; [over_] updates one field. A pointer that
    can be null is an [option]. *)
From S2P Require Import Prelude Store VhdlLexer.
Local Open Scope nat_scope.

Definition default_span : SourceSpan := mkSpan origin origin.
Definition join (first last : SourceSpan) : SourceSpan := mkSpan (span_start first) (span_end last).

Record Name := mkName { spelling : list ascii; n_canonical : list ascii; n_span : SourceSpan }.
Definition no_name : Name := mkName [] [] default_span.
Definition nameKey (n : Name) : list ascii := match n_canonical n with [] => spelling n | c => c end.
Inductive PortMode := ModeIn | ModeOut | ModeInOut | ModeBuffer | ModeLinkage.

(** * Expressions *)

Inductive expression_kind :=
| EName | EIntegerLiteral | ERealLiteral | EStringLiteral | ECharacterLiteral | EUnary | EBinary | EConditional | EIndexed | EOthers | EAggregate
| ERange | EBitStringLiteral | ECall | ESelected | EAssociation | EAttribute.
#[export] Instance expression_kind_eq_dec : EqDecision expression_kind.
Proof. solve_decision. Defined.
Inductive Expression := mkExpression {
  elements : list Expression; e_kind : expression_kind; e_text : list ascii; e_canonical : list ascii; e_span : SourceSpan;
  e_left : option Expression; e_right : option Expression; e_condition : option Expression }.
Definition set_e_span (sp : SourceSpan) (e : Expression) : Expression :=
  mkExpression (elements e) (e_kind e) (e_text e) (e_canonical e) sp (e_left e) (e_right e) (e_condition e).
Definition leaf (k : expression_kind) (text canonical : list ascii) (sp : SourceSpan) : Expression := mkExpression [] k text canonical sp None None None.
Definition make_node (k : expression_kind) (text : list ascii) (sp : SourceSpan) (left right : option Expression) : Expression :=
  mkExpression [] k text [] sp left right None.
Definition is_kind (k : expression_kind) (e : Expression) : bool := bool_decide (e_kind e = k).

(** Induction that reaches the elements and the children. *)
Lemma Expression_ind' (P : Expression -> Prop) :
  (forall els k t c sp l r d, Forall P els -> (forall e, l = Some e -> P e) -> (forall e, r = Some e -> P e) -> (forall e, d = Some e -> P e) ->
    P (mkExpression els k t c sp l r d)) -> forall e, P e.
Proof.
  intros H. fix IH 1. intros [els k t c sp l r d]. apply H.
  - induction els as [|e els IHels]; constructor; [apply IH|exact IHels].
  - destruct l as [e|]; [intros ? [= <-]; apply IH|intros ? [=]].
  - destruct r as [e|]; [intros ? [= <-]; apply IH|intros ? [=]].
  - destruct d as [e|]; [intros ? [= <-]; apply IH|intros ? [=]].
Qed.

Record DiscreteRange := mkRange { r_left : Z; r_right : Z; r_ascending : bool; r_span : SourceSpan; r_leftExpression : option Expression;
  r_rightExpression : option Expression; r_attribute : option Expression; r_subtype : option Name }.
Record TypeMark := mkType { t_name : Name; t_constraint : option DiscreteRange }.
Record SubtypeDeclaration := mkSubtype { st_name : Name; st_type : TypeMark; st_span : SourceSpan }.
Record AliasDeclaration := mkAlias { al_name : Name; al_type : option TypeMark; al_target : option Expression; al_span : SourceSpan }.
Record PortDeclaration := mkPort { po_names : list Name; po_mode : PortMode; po_type : TypeMark; po_span : SourceSpan; po_defaultValue : option Expression }.
Record GenericDeclaration := mkGeneric { ge_names : list Name; ge_type : TypeMark; ge_defaultValue : option Expression; ge_span : SourceSpan; ge_mode : PortMode }.
Record ObjectDeclaration := mkObject { ob_names : list Name; ob_type : TypeMark; ob_span : SourceSpan; ob_initializer : option Expression }.
Record ConstantDeclaration := mkConstant { co_object : ObjectDeclaration; co_value : option Expression }.
Record ArrayTypeDeclaration := mkArray { ar_name : Name; ar_indexRange : DiscreteRange; ar_elementType : TypeMark; ar_span : SourceSpan; ar_indexSubtype : option Name;
  ar_indexType : option Name }.
Record EnumerationTypeDeclaration := mkEnumeration { en_name : Name; en_literals : list Name; en_span : SourceSpan }.
Record RecordTypeDeclaration := mkRecord { rt_name : Name; rt_fields : list ObjectDeclaration; rt_span : SourceSpan }.
Inductive AssignmentKind := SignalAssignment | VariableAssignment.

Record Assignment := mkAssignment { as_target : Name; as_value : option Expression; as_span : SourceSpan; as_kind : AssignmentKind; as_indices : list Expression;
  as_selector : option Expression; as_choices : list (list Expression); as_alternatives : list Expression }.
Inductive statement_kind := SAssignment | SIf | SFor | SReturn | SCase | SNull | SExit | SWhile | SWait | SCall.
Inductive SequentialStatement := mkStatement {
  ss_kind : statement_kind; ss_assignment : Assignment; ss_condition : option Expression; ss_iterator : Name; ss_range : DiscreteRange;
  ss_statements : list SequentialStatement; ss_alternative : list SequentialStatement; ss_span : SourceSpan; ss_returnValue : option Expression;
  ss_procedureCall : option Expression; ss_choices : list (list Expression); ss_caseBodies : list (list SequentialStatement) }.

Definition over_ss_span (f : SourceSpan -> SourceSpan) (x : SequentialStatement) : SequentialStatement :=
  mkStatement (ss_kind x) (ss_assignment x) (ss_condition x) (ss_iterator x) (ss_range x) (ss_statements x) (ss_alternative x) (f (ss_span x)) (ss_returnValue x)
  (ss_procedureCall x) (ss_choices x) (ss_caseBodies x).

Record FileDeclaration := mkFile { fi_names : list Name; fi_type : Name; fi_mode : Name; fi_path : option Expression; fi_span : SourceSpan }.
Record FunctionDeclaration := mkFunction { fu_name : Name; fu_parameters : list GenericDeclaration; fu_returnType : TypeMark; fu_variables : list ObjectDeclaration;
  fu_constants : list ConstantDeclaration; fu_statements : list SequentialStatement; fu_span : SourceSpan; fu_body : bool; fu_pure : bool; fu_procedure : bool;
  fu_files : list FileDeclaration }.
Definition over_fu_variables (f : list ObjectDeclaration -> list ObjectDeclaration) (x : FunctionDeclaration) : FunctionDeclaration :=
  mkFunction (fu_name x) (fu_parameters x) (fu_returnType x) (f (fu_variables x)) (fu_constants x) (fu_statements x) (fu_span x) (fu_body x) (fu_pure x) (fu_procedure x)
  (fu_files x).
Definition over_fu_constants (f : list ConstantDeclaration -> list ConstantDeclaration) (x : FunctionDeclaration) : FunctionDeclaration :=
  mkFunction (fu_name x) (fu_parameters x) (fu_returnType x) (fu_variables x) (f (fu_constants x)) (fu_statements x) (fu_span x) (fu_body x) (fu_pure x) (fu_procedure x)
  (fu_files x).
Definition over_fu_statements (f : list SequentialStatement -> list SequentialStatement) (x : FunctionDeclaration) : FunctionDeclaration :=
  mkFunction (fu_name x) (fu_parameters x) (fu_returnType x) (fu_variables x) (fu_constants x) (f (fu_statements x)) (fu_span x) (fu_body x) (fu_pure x) (fu_procedure x)
  (fu_files x).
Definition over_fu_span (f : SourceSpan -> SourceSpan) (x : FunctionDeclaration) : FunctionDeclaration :=
  mkFunction (fu_name x) (fu_parameters x) (fu_returnType x) (fu_variables x) (fu_constants x) (fu_statements x) (f (fu_span x)) (fu_body x) (fu_pure x) (fu_procedure x)
  (fu_files x).
Definition over_fu_body (f : bool -> bool) (x : FunctionDeclaration) : FunctionDeclaration :=
  mkFunction (fu_name x) (fu_parameters x) (fu_returnType x) (fu_variables x) (fu_constants x) (fu_statements x) (fu_span x) (f (fu_body x)) (fu_pure x) (fu_procedure x)
  (fu_files x).
Definition over_fu_files (f : list FileDeclaration -> list FileDeclaration) (x : FunctionDeclaration) : FunctionDeclaration :=
  mkFunction (fu_name x) (fu_parameters x) (fu_returnType x) (fu_variables x) (fu_constants x) (fu_statements x) (fu_span x) (fu_body x) (fu_pure x) (fu_procedure x)
  (f (fu_files x)).

Record LibraryClause := mkLibrary { li_names : list Name; li_span : SourceSpan }.
Record UseClause := mkUse { us_selectedName : list Name; us_span : SourceSpan }.
Record ContextClause := mkContext { cx_libraries : list LibraryClause; cx_uses : list UseClause }.
Definition over_cx_libraries (f : list LibraryClause -> list LibraryClause) (x : ContextClause) : ContextClause :=
  mkContext (f (cx_libraries x)) (cx_uses x).
Definition over_cx_uses (f : list UseClause -> list UseClause) (x : ContextClause) : ContextClause :=
  mkContext (cx_libraries x) (f (cx_uses x)).

Inductive ClockEdgeForm := EventAndLevel | RisingEdgeCall | FallingEdgeCall.
#[export] Instance ClockEdgeForm_eq_dec : EqDecision ClockEdgeForm.
Proof. solve_decision. Defined.

Record ClockedProcess := mkProcess { pr_sensitivity : Name; pr_eventSignal : Name; pr_levelSignal : Name; pr_level : list ascii; pr_assignments : list Assignment;
  pr_variables : list ObjectDeclaration; pr_enableSignal : option Name; pr_enableLevel : list ascii; pr_resetSignal : option Name; pr_resetLevel : list ascii;
  pr_resetAssignments : list Assignment; pr_edgeForm : ClockEdgeForm; pr_span : SourceSpan; pr_statements : list SequentialStatement; pr_sensitivityList : list Name;
  pr_sensitivityFields : list (list Name); pr_combinational : bool; pr_allSensitivity : bool; pr_asynchronousReset : bool; pr_resetStatements : list SequentialStatement;
  pr_label : option Name; pr_constants : list ConstantDeclaration; pr_clockEnable : option Expression; pr_arrayTypes : list ArrayTypeDeclaration;
  pr_recordTypes : list RecordTypeDeclaration; pr_enumerationTypes : list EnumerationTypeDeclaration; pr_subtypes : list SubtypeDeclaration;
  pr_functions : list FunctionDeclaration }.
Definition over_pr_sensitivity (f : Name -> Name) (x : ClockedProcess) : ClockedProcess :=
  mkProcess (f (pr_sensitivity x)) (pr_eventSignal x) (pr_levelSignal x) (pr_level x) (pr_assignments x) (pr_variables x) (pr_enableSignal x) (pr_enableLevel x)
  (pr_resetSignal x) (pr_resetLevel x) (pr_resetAssignments x) (pr_edgeForm x) (pr_span x) (pr_statements x) (pr_sensitivityList x) (pr_sensitivityFields x)
  (pr_combinational x) (pr_allSensitivity x) (pr_asynchronousReset x) (pr_resetStatements x) (pr_label x) (pr_constants x) (pr_clockEnable x) (pr_arrayTypes x)
  (pr_recordTypes x) (pr_enumerationTypes x) (pr_subtypes x) (pr_functions x).
Definition over_pr_eventSignal (f : Name -> Name) (x : ClockedProcess) : ClockedProcess :=
  mkProcess (pr_sensitivity x) (f (pr_eventSignal x)) (pr_levelSignal x) (pr_level x) (pr_assignments x) (pr_variables x) (pr_enableSignal x) (pr_enableLevel x)
  (pr_resetSignal x) (pr_resetLevel x) (pr_resetAssignments x) (pr_edgeForm x) (pr_span x) (pr_statements x) (pr_sensitivityList x) (pr_sensitivityFields x)
  (pr_combinational x) (pr_allSensitivity x) (pr_asynchronousReset x) (pr_resetStatements x) (pr_label x) (pr_constants x) (pr_clockEnable x) (pr_arrayTypes x)
  (pr_recordTypes x) (pr_enumerationTypes x) (pr_subtypes x) (pr_functions x).
Definition over_pr_levelSignal (f : Name -> Name) (x : ClockedProcess) : ClockedProcess :=
  mkProcess (pr_sensitivity x) (pr_eventSignal x) (f (pr_levelSignal x)) (pr_level x) (pr_assignments x) (pr_variables x) (pr_enableSignal x) (pr_enableLevel x)
  (pr_resetSignal x) (pr_resetLevel x) (pr_resetAssignments x) (pr_edgeForm x) (pr_span x) (pr_statements x) (pr_sensitivityList x) (pr_sensitivityFields x)
  (pr_combinational x) (pr_allSensitivity x) (pr_asynchronousReset x) (pr_resetStatements x) (pr_label x) (pr_constants x) (pr_clockEnable x) (pr_arrayTypes x)
  (pr_recordTypes x) (pr_enumerationTypes x) (pr_subtypes x) (pr_functions x).
Definition over_pr_level (f : list ascii -> list ascii) (x : ClockedProcess) : ClockedProcess :=
  mkProcess (pr_sensitivity x) (pr_eventSignal x) (pr_levelSignal x) (f (pr_level x)) (pr_assignments x) (pr_variables x) (pr_enableSignal x) (pr_enableLevel x)
  (pr_resetSignal x) (pr_resetLevel x) (pr_resetAssignments x) (pr_edgeForm x) (pr_span x) (pr_statements x) (pr_sensitivityList x) (pr_sensitivityFields x)
  (pr_combinational x) (pr_allSensitivity x) (pr_asynchronousReset x) (pr_resetStatements x) (pr_label x) (pr_constants x) (pr_clockEnable x) (pr_arrayTypes x)
  (pr_recordTypes x) (pr_enumerationTypes x) (pr_subtypes x) (pr_functions x).
Definition over_pr_assignments (f : list Assignment -> list Assignment) (x : ClockedProcess) : ClockedProcess :=
  mkProcess (pr_sensitivity x) (pr_eventSignal x) (pr_levelSignal x) (pr_level x) (f (pr_assignments x)) (pr_variables x) (pr_enableSignal x) (pr_enableLevel x)
  (pr_resetSignal x) (pr_resetLevel x) (pr_resetAssignments x) (pr_edgeForm x) (pr_span x) (pr_statements x) (pr_sensitivityList x) (pr_sensitivityFields x)
  (pr_combinational x) (pr_allSensitivity x) (pr_asynchronousReset x) (pr_resetStatements x) (pr_label x) (pr_constants x) (pr_clockEnable x) (pr_arrayTypes x)
  (pr_recordTypes x) (pr_enumerationTypes x) (pr_subtypes x) (pr_functions x).
Definition over_pr_variables (f : list ObjectDeclaration -> list ObjectDeclaration) (x : ClockedProcess) : ClockedProcess :=
  mkProcess (pr_sensitivity x) (pr_eventSignal x) (pr_levelSignal x) (pr_level x) (pr_assignments x) (f (pr_variables x)) (pr_enableSignal x) (pr_enableLevel x)
  (pr_resetSignal x) (pr_resetLevel x) (pr_resetAssignments x) (pr_edgeForm x) (pr_span x) (pr_statements x) (pr_sensitivityList x) (pr_sensitivityFields x)
  (pr_combinational x) (pr_allSensitivity x) (pr_asynchronousReset x) (pr_resetStatements x) (pr_label x) (pr_constants x) (pr_clockEnable x) (pr_arrayTypes x)
  (pr_recordTypes x) (pr_enumerationTypes x) (pr_subtypes x) (pr_functions x).
Definition over_pr_resetSignal (f : option Name -> option Name) (x : ClockedProcess) : ClockedProcess :=
  mkProcess (pr_sensitivity x) (pr_eventSignal x) (pr_levelSignal x) (pr_level x) (pr_assignments x) (pr_variables x) (pr_enableSignal x) (pr_enableLevel x)
  (f (pr_resetSignal x)) (pr_resetLevel x) (pr_resetAssignments x) (pr_edgeForm x) (pr_span x) (pr_statements x) (pr_sensitivityList x) (pr_sensitivityFields x)
  (pr_combinational x) (pr_allSensitivity x) (pr_asynchronousReset x) (pr_resetStatements x) (pr_label x) (pr_constants x) (pr_clockEnable x) (pr_arrayTypes x)
  (pr_recordTypes x) (pr_enumerationTypes x) (pr_subtypes x) (pr_functions x).
Definition over_pr_resetLevel (f : list ascii -> list ascii) (x : ClockedProcess) : ClockedProcess :=
  mkProcess (pr_sensitivity x) (pr_eventSignal x) (pr_levelSignal x) (pr_level x) (pr_assignments x) (pr_variables x) (pr_enableSignal x) (pr_enableLevel x)
  (pr_resetSignal x) (f (pr_resetLevel x)) (pr_resetAssignments x) (pr_edgeForm x) (pr_span x) (pr_statements x) (pr_sensitivityList x) (pr_sensitivityFields x)
  (pr_combinational x) (pr_allSensitivity x) (pr_asynchronousReset x) (pr_resetStatements x) (pr_label x) (pr_constants x) (pr_clockEnable x) (pr_arrayTypes x)
  (pr_recordTypes x) (pr_enumerationTypes x) (pr_subtypes x) (pr_functions x).
Definition over_pr_edgeForm (f : ClockEdgeForm -> ClockEdgeForm) (x : ClockedProcess) : ClockedProcess :=
  mkProcess (pr_sensitivity x) (pr_eventSignal x) (pr_levelSignal x) (pr_level x) (pr_assignments x) (pr_variables x) (pr_enableSignal x) (pr_enableLevel x)
  (pr_resetSignal x) (pr_resetLevel x) (pr_resetAssignments x) (f (pr_edgeForm x)) (pr_span x) (pr_statements x) (pr_sensitivityList x) (pr_sensitivityFields x)
  (pr_combinational x) (pr_allSensitivity x) (pr_asynchronousReset x) (pr_resetStatements x) (pr_label x) (pr_constants x) (pr_clockEnable x) (pr_arrayTypes x)
  (pr_recordTypes x) (pr_enumerationTypes x) (pr_subtypes x) (pr_functions x).
Definition over_pr_span (f : SourceSpan -> SourceSpan) (x : ClockedProcess) : ClockedProcess :=
  mkProcess (pr_sensitivity x) (pr_eventSignal x) (pr_levelSignal x) (pr_level x) (pr_assignments x) (pr_variables x) (pr_enableSignal x) (pr_enableLevel x)
  (pr_resetSignal x) (pr_resetLevel x) (pr_resetAssignments x) (pr_edgeForm x) (f (pr_span x)) (pr_statements x) (pr_sensitivityList x) (pr_sensitivityFields x)
  (pr_combinational x) (pr_allSensitivity x) (pr_asynchronousReset x) (pr_resetStatements x) (pr_label x) (pr_constants x) (pr_clockEnable x) (pr_arrayTypes x)
  (pr_recordTypes x) (pr_enumerationTypes x) (pr_subtypes x) (pr_functions x).
Definition over_pr_statements (f : list SequentialStatement -> list SequentialStatement) (x : ClockedProcess) : ClockedProcess :=
  mkProcess (pr_sensitivity x) (pr_eventSignal x) (pr_levelSignal x) (pr_level x) (pr_assignments x) (pr_variables x) (pr_enableSignal x) (pr_enableLevel x)
  (pr_resetSignal x) (pr_resetLevel x) (pr_resetAssignments x) (pr_edgeForm x) (pr_span x) (f (pr_statements x)) (pr_sensitivityList x) (pr_sensitivityFields x)
  (pr_combinational x) (pr_allSensitivity x) (pr_asynchronousReset x) (pr_resetStatements x) (pr_label x) (pr_constants x) (pr_clockEnable x) (pr_arrayTypes x)
  (pr_recordTypes x) (pr_enumerationTypes x) (pr_subtypes x) (pr_functions x).
Definition over_pr_sensitivityList (f : list Name -> list Name) (x : ClockedProcess) : ClockedProcess :=
  mkProcess (pr_sensitivity x) (pr_eventSignal x) (pr_levelSignal x) (pr_level x) (pr_assignments x) (pr_variables x) (pr_enableSignal x) (pr_enableLevel x)
  (pr_resetSignal x) (pr_resetLevel x) (pr_resetAssignments x) (pr_edgeForm x) (pr_span x) (pr_statements x) (f (pr_sensitivityList x)) (pr_sensitivityFields x)
  (pr_combinational x) (pr_allSensitivity x) (pr_asynchronousReset x) (pr_resetStatements x) (pr_label x) (pr_constants x) (pr_clockEnable x) (pr_arrayTypes x)
  (pr_recordTypes x) (pr_enumerationTypes x) (pr_subtypes x) (pr_functions x).
Definition over_pr_sensitivityFields (f : list (list Name) -> list (list Name)) (x : ClockedProcess) : ClockedProcess :=
  mkProcess (pr_sensitivity x) (pr_eventSignal x) (pr_levelSignal x) (pr_level x) (pr_assignments x) (pr_variables x) (pr_enableSignal x) (pr_enableLevel x)
  (pr_resetSignal x) (pr_resetLevel x) (pr_resetAssignments x) (pr_edgeForm x) (pr_span x) (pr_statements x) (pr_sensitivityList x) (f (pr_sensitivityFields x))
  (pr_combinational x) (pr_allSensitivity x) (pr_asynchronousReset x) (pr_resetStatements x) (pr_label x) (pr_constants x) (pr_clockEnable x) (pr_arrayTypes x)
  (pr_recordTypes x) (pr_enumerationTypes x) (pr_subtypes x) (pr_functions x).
Definition over_pr_combinational (f : bool -> bool) (x : ClockedProcess) : ClockedProcess :=
  mkProcess (pr_sensitivity x) (pr_eventSignal x) (pr_levelSignal x) (pr_level x) (pr_assignments x) (pr_variables x) (pr_enableSignal x) (pr_enableLevel x)
  (pr_resetSignal x) (pr_resetLevel x) (pr_resetAssignments x) (pr_edgeForm x) (pr_span x) (pr_statements x) (pr_sensitivityList x) (pr_sensitivityFields x)
  (f (pr_combinational x)) (pr_allSensitivity x) (pr_asynchronousReset x) (pr_resetStatements x) (pr_label x) (pr_constants x) (pr_clockEnable x) (pr_arrayTypes x)
  (pr_recordTypes x) (pr_enumerationTypes x) (pr_subtypes x) (pr_functions x).
Definition over_pr_allSensitivity (f : bool -> bool) (x : ClockedProcess) : ClockedProcess :=
  mkProcess (pr_sensitivity x) (pr_eventSignal x) (pr_levelSignal x) (pr_level x) (pr_assignments x) (pr_variables x) (pr_enableSignal x) (pr_enableLevel x)
  (pr_resetSignal x) (pr_resetLevel x) (pr_resetAssignments x) (pr_edgeForm x) (pr_span x) (pr_statements x) (pr_sensitivityList x) (pr_sensitivityFields x)
  (pr_combinational x) (f (pr_allSensitivity x)) (pr_asynchronousReset x) (pr_resetStatements x) (pr_label x) (pr_constants x) (pr_clockEnable x) (pr_arrayTypes x)
  (pr_recordTypes x) (pr_enumerationTypes x) (pr_subtypes x) (pr_functions x).
Definition over_pr_asynchronousReset (f : bool -> bool) (x : ClockedProcess) : ClockedProcess :=
  mkProcess (pr_sensitivity x) (pr_eventSignal x) (pr_levelSignal x) (pr_level x) (pr_assignments x) (pr_variables x) (pr_enableSignal x) (pr_enableLevel x)
  (pr_resetSignal x) (pr_resetLevel x) (pr_resetAssignments x) (pr_edgeForm x) (pr_span x) (pr_statements x) (pr_sensitivityList x) (pr_sensitivityFields x)
  (pr_combinational x) (pr_allSensitivity x) (f (pr_asynchronousReset x)) (pr_resetStatements x) (pr_label x) (pr_constants x) (pr_clockEnable x) (pr_arrayTypes x)
  (pr_recordTypes x) (pr_enumerationTypes x) (pr_subtypes x) (pr_functions x).
Definition over_pr_resetStatements (f : list SequentialStatement -> list SequentialStatement) (x : ClockedProcess) : ClockedProcess :=
  mkProcess (pr_sensitivity x) (pr_eventSignal x) (pr_levelSignal x) (pr_level x) (pr_assignments x) (pr_variables x) (pr_enableSignal x) (pr_enableLevel x)
  (pr_resetSignal x) (pr_resetLevel x) (pr_resetAssignments x) (pr_edgeForm x) (pr_span x) (pr_statements x) (pr_sensitivityList x) (pr_sensitivityFields x)
  (pr_combinational x) (pr_allSensitivity x) (pr_asynchronousReset x) (f (pr_resetStatements x)) (pr_label x) (pr_constants x) (pr_clockEnable x) (pr_arrayTypes x)
  (pr_recordTypes x) (pr_enumerationTypes x) (pr_subtypes x) (pr_functions x).
Definition over_pr_label (f : option Name -> option Name) (x : ClockedProcess) : ClockedProcess :=
  mkProcess (pr_sensitivity x) (pr_eventSignal x) (pr_levelSignal x) (pr_level x) (pr_assignments x) (pr_variables x) (pr_enableSignal x) (pr_enableLevel x)
  (pr_resetSignal x) (pr_resetLevel x) (pr_resetAssignments x) (pr_edgeForm x) (pr_span x) (pr_statements x) (pr_sensitivityList x) (pr_sensitivityFields x)
  (pr_combinational x) (pr_allSensitivity x) (pr_asynchronousReset x) (pr_resetStatements x) (f (pr_label x)) (pr_constants x) (pr_clockEnable x) (pr_arrayTypes x)
  (pr_recordTypes x) (pr_enumerationTypes x) (pr_subtypes x) (pr_functions x).
Definition over_pr_constants (f : list ConstantDeclaration -> list ConstantDeclaration) (x : ClockedProcess) : ClockedProcess :=
  mkProcess (pr_sensitivity x) (pr_eventSignal x) (pr_levelSignal x) (pr_level x) (pr_assignments x) (pr_variables x) (pr_enableSignal x) (pr_enableLevel x)
  (pr_resetSignal x) (pr_resetLevel x) (pr_resetAssignments x) (pr_edgeForm x) (pr_span x) (pr_statements x) (pr_sensitivityList x) (pr_sensitivityFields x)
  (pr_combinational x) (pr_allSensitivity x) (pr_asynchronousReset x) (pr_resetStatements x) (pr_label x) (f (pr_constants x)) (pr_clockEnable x) (pr_arrayTypes x)
  (pr_recordTypes x) (pr_enumerationTypes x) (pr_subtypes x) (pr_functions x).
Definition over_pr_clockEnable (f : option Expression -> option Expression) (x : ClockedProcess) : ClockedProcess :=
  mkProcess (pr_sensitivity x) (pr_eventSignal x) (pr_levelSignal x) (pr_level x) (pr_assignments x) (pr_variables x) (pr_enableSignal x) (pr_enableLevel x)
  (pr_resetSignal x) (pr_resetLevel x) (pr_resetAssignments x) (pr_edgeForm x) (pr_span x) (pr_statements x) (pr_sensitivityList x) (pr_sensitivityFields x)
  (pr_combinational x) (pr_allSensitivity x) (pr_asynchronousReset x) (pr_resetStatements x) (pr_label x) (pr_constants x) (f (pr_clockEnable x)) (pr_arrayTypes x)
  (pr_recordTypes x) (pr_enumerationTypes x) (pr_subtypes x) (pr_functions x).
Definition over_pr_arrayTypes (f : list ArrayTypeDeclaration -> list ArrayTypeDeclaration) (x : ClockedProcess) : ClockedProcess :=
  mkProcess (pr_sensitivity x) (pr_eventSignal x) (pr_levelSignal x) (pr_level x) (pr_assignments x) (pr_variables x) (pr_enableSignal x) (pr_enableLevel x)
  (pr_resetSignal x) (pr_resetLevel x) (pr_resetAssignments x) (pr_edgeForm x) (pr_span x) (pr_statements x) (pr_sensitivityList x) (pr_sensitivityFields x)
  (pr_combinational x) (pr_allSensitivity x) (pr_asynchronousReset x) (pr_resetStatements x) (pr_label x) (pr_constants x) (pr_clockEnable x) (f (pr_arrayTypes x))
  (pr_recordTypes x) (pr_enumerationTypes x) (pr_subtypes x) (pr_functions x).
Definition over_pr_recordTypes (f : list RecordTypeDeclaration -> list RecordTypeDeclaration) (x : ClockedProcess) : ClockedProcess :=
  mkProcess (pr_sensitivity x) (pr_eventSignal x) (pr_levelSignal x) (pr_level x) (pr_assignments x) (pr_variables x) (pr_enableSignal x) (pr_enableLevel x)
  (pr_resetSignal x) (pr_resetLevel x) (pr_resetAssignments x) (pr_edgeForm x) (pr_span x) (pr_statements x) (pr_sensitivityList x) (pr_sensitivityFields x)
  (pr_combinational x) (pr_allSensitivity x) (pr_asynchronousReset x) (pr_resetStatements x) (pr_label x) (pr_constants x) (pr_clockEnable x) (pr_arrayTypes x)
  (f (pr_recordTypes x)) (pr_enumerationTypes x) (pr_subtypes x) (pr_functions x).
Definition over_pr_enumerationTypes (f : list EnumerationTypeDeclaration -> list EnumerationTypeDeclaration) (x : ClockedProcess) : ClockedProcess :=
  mkProcess (pr_sensitivity x) (pr_eventSignal x) (pr_levelSignal x) (pr_level x) (pr_assignments x) (pr_variables x) (pr_enableSignal x) (pr_enableLevel x)
  (pr_resetSignal x) (pr_resetLevel x) (pr_resetAssignments x) (pr_edgeForm x) (pr_span x) (pr_statements x) (pr_sensitivityList x) (pr_sensitivityFields x)
  (pr_combinational x) (pr_allSensitivity x) (pr_asynchronousReset x) (pr_resetStatements x) (pr_label x) (pr_constants x) (pr_clockEnable x) (pr_arrayTypes x)
  (pr_recordTypes x) (f (pr_enumerationTypes x)) (pr_subtypes x) (pr_functions x).
Definition over_pr_subtypes (f : list SubtypeDeclaration -> list SubtypeDeclaration) (x : ClockedProcess) : ClockedProcess :=
  mkProcess (pr_sensitivity x) (pr_eventSignal x) (pr_levelSignal x) (pr_level x) (pr_assignments x) (pr_variables x) (pr_enableSignal x) (pr_enableLevel x)
  (pr_resetSignal x) (pr_resetLevel x) (pr_resetAssignments x) (pr_edgeForm x) (pr_span x) (pr_statements x) (pr_sensitivityList x) (pr_sensitivityFields x)
  (pr_combinational x) (pr_allSensitivity x) (pr_asynchronousReset x) (pr_resetStatements x) (pr_label x) (pr_constants x) (pr_clockEnable x) (pr_arrayTypes x)
  (pr_recordTypes x) (pr_enumerationTypes x) (f (pr_subtypes x)) (pr_functions x).
Definition over_pr_functions (f : list FunctionDeclaration -> list FunctionDeclaration) (x : ClockedProcess) : ClockedProcess :=
  mkProcess (pr_sensitivity x) (pr_eventSignal x) (pr_levelSignal x) (pr_level x) (pr_assignments x) (pr_variables x) (pr_enableSignal x) (pr_enableLevel x)
  (pr_resetSignal x) (pr_resetLevel x) (pr_resetAssignments x) (pr_edgeForm x) (pr_span x) (pr_statements x) (pr_sensitivityList x) (pr_sensitivityFields x)
  (pr_combinational x) (pr_allSensitivity x) (pr_asynchronousReset x) (pr_resetStatements x) (pr_label x) (pr_constants x) (pr_clockEnable x) (pr_arrayTypes x)
  (pr_recordTypes x) (pr_enumerationTypes x) (pr_subtypes x) (f (pr_functions x)).

Record EntityDeclaration := mkEntity { ed_name : Name; ed_generics : list GenericDeclaration; ed_ports : list PortDeclaration; ed_span : SourceSpan;
  ed_context : ContextClause }.
Definition over_ed_context (f : ContextClause -> ContextClause) (x : EntityDeclaration) : EntityDeclaration :=
  mkEntity (ed_name x) (ed_generics x) (ed_ports x) (ed_span x) (f (ed_context x)).

Record GenericAssociation := mkGenericAssociation { ga_formal : option Name; ga_actual : option Expression; ga_span : SourceSpan }.
Record EntityInstantiation := mkInstantiation { ei_label : Name; ei_library : Name; ei_entity : Name; ei_architecture : option Name;
  ei_generics : list GenericAssociation; ei_actuals : list Name; ei_span : SourceSpan; ei_formals : list (option Name); ei_component : bool;
  ei_actualIndices : list (list Expression); ei_actualLiterals : list (option Expression); ei_formalIndices : list (list Expression); ei_actualOpen : list bool }.
Inductive GenerateStatement := mkGenerate {
  gs_iterator : Name; gs_range : DiscreteRange; gs_assignments : list Assignment; gs_generates : list GenerateStatement; gs_label : Name;
  gs_instantiations : list EntityInstantiation; gs_conditional : bool; gs_condition : option Expression; gs_alternatives : list GenerateStatement;
  gs_processes : list ClockedProcess; gs_signals : list ObjectDeclaration; gs_constants : list ConstantDeclaration; gs_arrayTypes : list ArrayTypeDeclaration;
  gs_recordTypes : list RecordTypeDeclaration; gs_enumerationTypes : list EnumerationTypeDeclaration; gs_subtypes : list SubtypeDeclaration;
  gs_functions : list FunctionDeclaration }.

Definition over_gs_assignments (f : list Assignment -> list Assignment) (x : GenerateStatement) : GenerateStatement :=
  mkGenerate (gs_iterator x) (gs_range x) (f (gs_assignments x)) (gs_generates x) (gs_label x) (gs_instantiations x) (gs_conditional x) (gs_condition x)
  (gs_alternatives x) (gs_processes x) (gs_signals x) (gs_constants x) (gs_arrayTypes x) (gs_recordTypes x) (gs_enumerationTypes x) (gs_subtypes x) (gs_functions x).
Definition over_gs_generates (f : list GenerateStatement -> list GenerateStatement) (x : GenerateStatement) : GenerateStatement :=
  mkGenerate (gs_iterator x) (gs_range x) (gs_assignments x) (f (gs_generates x)) (gs_label x) (gs_instantiations x) (gs_conditional x) (gs_condition x)
  (gs_alternatives x) (gs_processes x) (gs_signals x) (gs_constants x) (gs_arrayTypes x) (gs_recordTypes x) (gs_enumerationTypes x) (gs_subtypes x) (gs_functions x).
Definition over_gs_label (f : Name -> Name) (x : GenerateStatement) : GenerateStatement :=
  mkGenerate (gs_iterator x) (gs_range x) (gs_assignments x) (gs_generates x) (f (gs_label x)) (gs_instantiations x) (gs_conditional x) (gs_condition x)
  (gs_alternatives x) (gs_processes x) (gs_signals x) (gs_constants x) (gs_arrayTypes x) (gs_recordTypes x) (gs_enumerationTypes x) (gs_subtypes x) (gs_functions x).
Definition over_gs_instantiations (f : list EntityInstantiation -> list EntityInstantiation) (x : GenerateStatement) : GenerateStatement :=
  mkGenerate (gs_iterator x) (gs_range x) (gs_assignments x) (gs_generates x) (gs_label x) (f (gs_instantiations x)) (gs_conditional x) (gs_condition x)
  (gs_alternatives x) (gs_processes x) (gs_signals x) (gs_constants x) (gs_arrayTypes x) (gs_recordTypes x) (gs_enumerationTypes x) (gs_subtypes x) (gs_functions x).
Definition over_gs_conditional (f : bool -> bool) (x : GenerateStatement) : GenerateStatement :=
  mkGenerate (gs_iterator x) (gs_range x) (gs_assignments x) (gs_generates x) (gs_label x) (gs_instantiations x) (f (gs_conditional x)) (gs_condition x)
  (gs_alternatives x) (gs_processes x) (gs_signals x) (gs_constants x) (gs_arrayTypes x) (gs_recordTypes x) (gs_enumerationTypes x) (gs_subtypes x) (gs_functions x).
Definition over_gs_condition (f : option Expression -> option Expression) (x : GenerateStatement) : GenerateStatement :=
  mkGenerate (gs_iterator x) (gs_range x) (gs_assignments x) (gs_generates x) (gs_label x) (gs_instantiations x) (gs_conditional x) (f (gs_condition x))
  (gs_alternatives x) (gs_processes x) (gs_signals x) (gs_constants x) (gs_arrayTypes x) (gs_recordTypes x) (gs_enumerationTypes x) (gs_subtypes x) (gs_functions x).
Definition over_gs_alternatives (f : list GenerateStatement -> list GenerateStatement) (x : GenerateStatement) : GenerateStatement :=
  mkGenerate (gs_iterator x) (gs_range x) (gs_assignments x) (gs_generates x) (gs_label x) (gs_instantiations x) (gs_conditional x) (gs_condition x)
  (f (gs_alternatives x)) (gs_processes x) (gs_signals x) (gs_constants x) (gs_arrayTypes x) (gs_recordTypes x) (gs_enumerationTypes x) (gs_subtypes x) (gs_functions x).
Definition over_gs_processes (f : list ClockedProcess -> list ClockedProcess) (x : GenerateStatement) : GenerateStatement :=
  mkGenerate (gs_iterator x) (gs_range x) (gs_assignments x) (gs_generates x) (gs_label x) (gs_instantiations x) (gs_conditional x) (gs_condition x) (gs_alternatives x)
  (f (gs_processes x)) (gs_signals x) (gs_constants x) (gs_arrayTypes x) (gs_recordTypes x) (gs_enumerationTypes x) (gs_subtypes x) (gs_functions x).
Definition over_gs_signals (f : list ObjectDeclaration -> list ObjectDeclaration) (x : GenerateStatement) : GenerateStatement :=
  mkGenerate (gs_iterator x) (gs_range x) (gs_assignments x) (gs_generates x) (gs_label x) (gs_instantiations x) (gs_conditional x) (gs_condition x) (gs_alternatives x)
  (gs_processes x) (f (gs_signals x)) (gs_constants x) (gs_arrayTypes x) (gs_recordTypes x) (gs_enumerationTypes x) (gs_subtypes x) (gs_functions x).
Definition over_gs_constants (f : list ConstantDeclaration -> list ConstantDeclaration) (x : GenerateStatement) : GenerateStatement :=
  mkGenerate (gs_iterator x) (gs_range x) (gs_assignments x) (gs_generates x) (gs_label x) (gs_instantiations x) (gs_conditional x) (gs_condition x) (gs_alternatives x)
  (gs_processes x) (gs_signals x) (f (gs_constants x)) (gs_arrayTypes x) (gs_recordTypes x) (gs_enumerationTypes x) (gs_subtypes x) (gs_functions x).
Definition over_gs_arrayTypes (f : list ArrayTypeDeclaration -> list ArrayTypeDeclaration) (x : GenerateStatement) : GenerateStatement :=
  mkGenerate (gs_iterator x) (gs_range x) (gs_assignments x) (gs_generates x) (gs_label x) (gs_instantiations x) (gs_conditional x) (gs_condition x) (gs_alternatives x)
  (gs_processes x) (gs_signals x) (gs_constants x) (f (gs_arrayTypes x)) (gs_recordTypes x) (gs_enumerationTypes x) (gs_subtypes x) (gs_functions x).
Definition over_gs_recordTypes (f : list RecordTypeDeclaration -> list RecordTypeDeclaration) (x : GenerateStatement) : GenerateStatement :=
  mkGenerate (gs_iterator x) (gs_range x) (gs_assignments x) (gs_generates x) (gs_label x) (gs_instantiations x) (gs_conditional x) (gs_condition x) (gs_alternatives x)
  (gs_processes x) (gs_signals x) (gs_constants x) (gs_arrayTypes x) (f (gs_recordTypes x)) (gs_enumerationTypes x) (gs_subtypes x) (gs_functions x).
Definition over_gs_enumerationTypes (f : list EnumerationTypeDeclaration -> list EnumerationTypeDeclaration) (x : GenerateStatement) : GenerateStatement :=
  mkGenerate (gs_iterator x) (gs_range x) (gs_assignments x) (gs_generates x) (gs_label x) (gs_instantiations x) (gs_conditional x) (gs_condition x) (gs_alternatives x)
  (gs_processes x) (gs_signals x) (gs_constants x) (gs_arrayTypes x) (gs_recordTypes x) (f (gs_enumerationTypes x)) (gs_subtypes x) (gs_functions x).
Definition over_gs_subtypes (f : list SubtypeDeclaration -> list SubtypeDeclaration) (x : GenerateStatement) : GenerateStatement :=
  mkGenerate (gs_iterator x) (gs_range x) (gs_assignments x) (gs_generates x) (gs_label x) (gs_instantiations x) (gs_conditional x) (gs_condition x) (gs_alternatives x)
  (gs_processes x) (gs_signals x) (gs_constants x) (gs_arrayTypes x) (gs_recordTypes x) (gs_enumerationTypes x) (f (gs_subtypes x)) (gs_functions x).
Definition over_gs_functions (f : list FunctionDeclaration -> list FunctionDeclaration) (x : GenerateStatement) : GenerateStatement :=
  mkGenerate (gs_iterator x) (gs_range x) (gs_assignments x) (gs_generates x) (gs_label x) (gs_instantiations x) (gs_conditional x) (gs_condition x) (gs_alternatives x)
  (gs_processes x) (gs_signals x) (gs_constants x) (gs_arrayTypes x) (gs_recordTypes x) (gs_enumerationTypes x) (gs_subtypes x) (f (gs_functions x)).
Definition over_gs_iterator (f : Name -> Name) (x : GenerateStatement) : GenerateStatement :=
  mkGenerate (f (gs_iterator x)) (gs_range x) (gs_assignments x) (gs_generates x) (gs_label x) (gs_instantiations x) (gs_conditional x) (gs_condition x)
  (gs_alternatives x) (gs_processes x) (gs_signals x) (gs_constants x) (gs_arrayTypes x) (gs_recordTypes x) (gs_enumerationTypes x) (gs_subtypes x) (gs_functions x).
Definition over_gs_range (f : DiscreteRange -> DiscreteRange) (x : GenerateStatement) : GenerateStatement :=
  mkGenerate (gs_iterator x) (f (gs_range x)) (gs_assignments x) (gs_generates x) (gs_label x) (gs_instantiations x) (gs_conditional x) (gs_condition x)
  (gs_alternatives x) (gs_processes x) (gs_signals x) (gs_constants x) (gs_arrayTypes x) (gs_recordTypes x) (gs_enumerationTypes x) (gs_subtypes x) (gs_functions x).

Record PackageDeclaration := mkPackage { pk_name : Name; pk_context : ContextClause; pk_arrayTypes : list ArrayTypeDeclaration; pk_constants : list ConstantDeclaration;
  pk_components : list EntityDeclaration; pk_body : bool; pk_recordTypes : list RecordTypeDeclaration; pk_enumerationTypes : list EnumerationTypeDeclaration;
  pk_functions : list FunctionDeclaration; pk_subtypes : list SubtypeDeclaration }.
Definition over_pk_context (f : ContextClause -> ContextClause) (x : PackageDeclaration) : PackageDeclaration :=
  mkPackage (pk_name x) (f (pk_context x)) (pk_arrayTypes x) (pk_constants x) (pk_components x) (pk_body x) (pk_recordTypes x) (pk_enumerationTypes x) (pk_functions x)
  (pk_subtypes x).
Definition over_pk_arrayTypes (f : list ArrayTypeDeclaration -> list ArrayTypeDeclaration) (x : PackageDeclaration) : PackageDeclaration :=
  mkPackage (pk_name x) (pk_context x) (f (pk_arrayTypes x)) (pk_constants x) (pk_components x) (pk_body x) (pk_recordTypes x) (pk_enumerationTypes x) (pk_functions x)
  (pk_subtypes x).
Definition over_pk_constants (f : list ConstantDeclaration -> list ConstantDeclaration) (x : PackageDeclaration) : PackageDeclaration :=
  mkPackage (pk_name x) (pk_context x) (pk_arrayTypes x) (f (pk_constants x)) (pk_components x) (pk_body x) (pk_recordTypes x) (pk_enumerationTypes x) (pk_functions x)
  (pk_subtypes x).
Definition over_pk_components (f : list EntityDeclaration -> list EntityDeclaration) (x : PackageDeclaration) : PackageDeclaration :=
  mkPackage (pk_name x) (pk_context x) (pk_arrayTypes x) (pk_constants x) (f (pk_components x)) (pk_body x) (pk_recordTypes x) (pk_enumerationTypes x) (pk_functions x)
  (pk_subtypes x).
Definition over_pk_recordTypes (f : list RecordTypeDeclaration -> list RecordTypeDeclaration) (x : PackageDeclaration) : PackageDeclaration :=
  mkPackage (pk_name x) (pk_context x) (pk_arrayTypes x) (pk_constants x) (pk_components x) (pk_body x) (f (pk_recordTypes x)) (pk_enumerationTypes x) (pk_functions x)
  (pk_subtypes x).
Definition over_pk_enumerationTypes (f : list EnumerationTypeDeclaration -> list EnumerationTypeDeclaration) (x : PackageDeclaration) : PackageDeclaration :=
  mkPackage (pk_name x) (pk_context x) (pk_arrayTypes x) (pk_constants x) (pk_components x) (pk_body x) (pk_recordTypes x) (f (pk_enumerationTypes x)) (pk_functions x)
  (pk_subtypes x).
Definition over_pk_functions (f : list FunctionDeclaration -> list FunctionDeclaration) (x : PackageDeclaration) : PackageDeclaration :=
  mkPackage (pk_name x) (pk_context x) (pk_arrayTypes x) (pk_constants x) (pk_components x) (pk_body x) (pk_recordTypes x) (pk_enumerationTypes x) (f (pk_functions x))
  (pk_subtypes x).
Definition over_pk_subtypes (f : list SubtypeDeclaration -> list SubtypeDeclaration) (x : PackageDeclaration) : PackageDeclaration :=
  mkPackage (pk_name x) (pk_context x) (pk_arrayTypes x) (pk_constants x) (pk_components x) (pk_body x) (pk_recordTypes x) (pk_enumerationTypes x) (pk_functions x)
  (f (pk_subtypes x)).

Record ArchitectureBody := mkArchitecture { ab_name : Name; ab_entity : Name; ab_assignments : list Assignment; ab_processes : list ClockedProcess;
  ab_arrayTypes : list ArrayTypeDeclaration; ab_signals : list ObjectDeclaration; ab_instantiations : list EntityInstantiation; ab_span : SourceSpan;
  ab_context : ContextClause; ab_generates : list GenerateStatement; ab_components : list EntityDeclaration; ab_constants : list ConstantDeclaration;
  ab_recordTypes : list RecordTypeDeclaration; ab_enumerationTypes : list EnumerationTypeDeclaration; ab_functions : list FunctionDeclaration;
  ab_subtypes : list SubtypeDeclaration; ab_aliases : list AliasDeclaration }.
Definition over_ab_assignments (f : list Assignment -> list Assignment) (x : ArchitectureBody) : ArchitectureBody :=
  mkArchitecture (ab_name x) (ab_entity x) (f (ab_assignments x)) (ab_processes x) (ab_arrayTypes x) (ab_signals x) (ab_instantiations x) (ab_span x) (ab_context x)
  (ab_generates x) (ab_components x) (ab_constants x) (ab_recordTypes x) (ab_enumerationTypes x) (ab_functions x) (ab_subtypes x) (ab_aliases x).
Definition over_ab_processes (f : list ClockedProcess -> list ClockedProcess) (x : ArchitectureBody) : ArchitectureBody :=
  mkArchitecture (ab_name x) (ab_entity x) (ab_assignments x) (f (ab_processes x)) (ab_arrayTypes x) (ab_signals x) (ab_instantiations x) (ab_span x) (ab_context x)
  (ab_generates x) (ab_components x) (ab_constants x) (ab_recordTypes x) (ab_enumerationTypes x) (ab_functions x) (ab_subtypes x) (ab_aliases x).
Definition over_ab_arrayTypes (f : list ArrayTypeDeclaration -> list ArrayTypeDeclaration) (x : ArchitectureBody) : ArchitectureBody :=
  mkArchitecture (ab_name x) (ab_entity x) (ab_assignments x) (ab_processes x) (f (ab_arrayTypes x)) (ab_signals x) (ab_instantiations x) (ab_span x) (ab_context x)
  (ab_generates x) (ab_components x) (ab_constants x) (ab_recordTypes x) (ab_enumerationTypes x) (ab_functions x) (ab_subtypes x) (ab_aliases x).
Definition over_ab_signals (f : list ObjectDeclaration -> list ObjectDeclaration) (x : ArchitectureBody) : ArchitectureBody :=
  mkArchitecture (ab_name x) (ab_entity x) (ab_assignments x) (ab_processes x) (ab_arrayTypes x) (f (ab_signals x)) (ab_instantiations x) (ab_span x) (ab_context x)
  (ab_generates x) (ab_components x) (ab_constants x) (ab_recordTypes x) (ab_enumerationTypes x) (ab_functions x) (ab_subtypes x) (ab_aliases x).
Definition over_ab_instantiations (f : list EntityInstantiation -> list EntityInstantiation) (x : ArchitectureBody) : ArchitectureBody :=
  mkArchitecture (ab_name x) (ab_entity x) (ab_assignments x) (ab_processes x) (ab_arrayTypes x) (ab_signals x) (f (ab_instantiations x)) (ab_span x) (ab_context x)
  (ab_generates x) (ab_components x) (ab_constants x) (ab_recordTypes x) (ab_enumerationTypes x) (ab_functions x) (ab_subtypes x) (ab_aliases x).
Definition over_ab_span (f : SourceSpan -> SourceSpan) (x : ArchitectureBody) : ArchitectureBody :=
  mkArchitecture (ab_name x) (ab_entity x) (ab_assignments x) (ab_processes x) (ab_arrayTypes x) (ab_signals x) (ab_instantiations x) (f (ab_span x)) (ab_context x)
  (ab_generates x) (ab_components x) (ab_constants x) (ab_recordTypes x) (ab_enumerationTypes x) (ab_functions x) (ab_subtypes x) (ab_aliases x).
Definition over_ab_context (f : ContextClause -> ContextClause) (x : ArchitectureBody) : ArchitectureBody :=
  mkArchitecture (ab_name x) (ab_entity x) (ab_assignments x) (ab_processes x) (ab_arrayTypes x) (ab_signals x) (ab_instantiations x) (ab_span x) (f (ab_context x))
  (ab_generates x) (ab_components x) (ab_constants x) (ab_recordTypes x) (ab_enumerationTypes x) (ab_functions x) (ab_subtypes x) (ab_aliases x).
Definition over_ab_generates (f : list GenerateStatement -> list GenerateStatement) (x : ArchitectureBody) : ArchitectureBody :=
  mkArchitecture (ab_name x) (ab_entity x) (ab_assignments x) (ab_processes x) (ab_arrayTypes x) (ab_signals x) (ab_instantiations x) (ab_span x) (ab_context x)
  (f (ab_generates x)) (ab_components x) (ab_constants x) (ab_recordTypes x) (ab_enumerationTypes x) (ab_functions x) (ab_subtypes x) (ab_aliases x).
Definition over_ab_components (f : list EntityDeclaration -> list EntityDeclaration) (x : ArchitectureBody) : ArchitectureBody :=
  mkArchitecture (ab_name x) (ab_entity x) (ab_assignments x) (ab_processes x) (ab_arrayTypes x) (ab_signals x) (ab_instantiations x) (ab_span x) (ab_context x)
  (ab_generates x) (f (ab_components x)) (ab_constants x) (ab_recordTypes x) (ab_enumerationTypes x) (ab_functions x) (ab_subtypes x) (ab_aliases x).
Definition over_ab_constants (f : list ConstantDeclaration -> list ConstantDeclaration) (x : ArchitectureBody) : ArchitectureBody :=
  mkArchitecture (ab_name x) (ab_entity x) (ab_assignments x) (ab_processes x) (ab_arrayTypes x) (ab_signals x) (ab_instantiations x) (ab_span x) (ab_context x)
  (ab_generates x) (ab_components x) (f (ab_constants x)) (ab_recordTypes x) (ab_enumerationTypes x) (ab_functions x) (ab_subtypes x) (ab_aliases x).
Definition over_ab_recordTypes (f : list RecordTypeDeclaration -> list RecordTypeDeclaration) (x : ArchitectureBody) : ArchitectureBody :=
  mkArchitecture (ab_name x) (ab_entity x) (ab_assignments x) (ab_processes x) (ab_arrayTypes x) (ab_signals x) (ab_instantiations x) (ab_span x) (ab_context x)
  (ab_generates x) (ab_components x) (ab_constants x) (f (ab_recordTypes x)) (ab_enumerationTypes x) (ab_functions x) (ab_subtypes x) (ab_aliases x).
Definition over_ab_enumerationTypes (f : list EnumerationTypeDeclaration -> list EnumerationTypeDeclaration) (x : ArchitectureBody) : ArchitectureBody :=
  mkArchitecture (ab_name x) (ab_entity x) (ab_assignments x) (ab_processes x) (ab_arrayTypes x) (ab_signals x) (ab_instantiations x) (ab_span x) (ab_context x)
  (ab_generates x) (ab_components x) (ab_constants x) (ab_recordTypes x) (f (ab_enumerationTypes x)) (ab_functions x) (ab_subtypes x) (ab_aliases x).
Definition over_ab_functions (f : list FunctionDeclaration -> list FunctionDeclaration) (x : ArchitectureBody) : ArchitectureBody :=
  mkArchitecture (ab_name x) (ab_entity x) (ab_assignments x) (ab_processes x) (ab_arrayTypes x) (ab_signals x) (ab_instantiations x) (ab_span x) (ab_context x)
  (ab_generates x) (ab_components x) (ab_constants x) (ab_recordTypes x) (ab_enumerationTypes x) (f (ab_functions x)) (ab_subtypes x) (ab_aliases x).
Definition over_ab_subtypes (f : list SubtypeDeclaration -> list SubtypeDeclaration) (x : ArchitectureBody) : ArchitectureBody :=
  mkArchitecture (ab_name x) (ab_entity x) (ab_assignments x) (ab_processes x) (ab_arrayTypes x) (ab_signals x) (ab_instantiations x) (ab_span x) (ab_context x)
  (ab_generates x) (ab_components x) (ab_constants x) (ab_recordTypes x) (ab_enumerationTypes x) (ab_functions x) (f (ab_subtypes x)) (ab_aliases x).
Definition over_ab_aliases (f : list AliasDeclaration -> list AliasDeclaration) (x : ArchitectureBody) : ArchitectureBody :=
  mkArchitecture (ab_name x) (ab_entity x) (ab_assignments x) (ab_processes x) (ab_arrayTypes x) (ab_signals x) (ab_instantiations x) (ab_span x) (ab_context x)
  (ab_generates x) (ab_components x) (ab_constants x) (ab_recordTypes x) (ab_enumerationTypes x) (ab_functions x) (ab_subtypes x) (f (ab_aliases x)).

Record DesignFile := mkFileTree { df_packages : list PackageDeclaration; df_entities : list EntityDeclaration; df_architectures : list ArchitectureBody }.
Definition over_df_packages (f : list PackageDeclaration -> list PackageDeclaration) (x : DesignFile) : DesignFile :=
  mkFileTree (f (df_packages x)) (df_entities x) (df_architectures x).
Definition over_df_entities (f : list EntityDeclaration -> list EntityDeclaration) (x : DesignFile) : DesignFile :=
  mkFileTree (df_packages x) (f (df_entities x)) (df_architectures x).
Definition over_df_architectures (f : list ArchitectureBody -> list ArchitectureBody) (x : DesignFile) : DesignFile :=
  mkFileTree (df_packages x) (df_entities x) (f (df_architectures x)).

Record ParseDiagnostic := mkParseDiagnostic { pd_message : string; pd_span : SourceSpan }.
Record ParseWarning := mkWarning { pw_code : string; pw_message : string; pw_span : SourceSpan }.
Record ParseResult := mkParseResult { pr_syntax : DesignFile; pr_diagnostics : list ParseDiagnostic; pr_warnings : list ParseWarning }.
Definition hasErrors (r : ParseResult) : bool := match pr_diagnostics r with [] => false | _ => true end.

(** * Default values *)

Definition no_range : DiscreteRange := mkRange 0 0 false default_span None None None None.
Definition no_type : TypeMark := mkType no_name None.
Definition no_assignment : Assignment := mkAssignment no_name None default_span SignalAssignment [] None [] [].
Definition no_context : ContextClause := mkContext [] [].
Definition no_process : ClockedProcess :=
  mkProcess no_name no_name no_name [] [] [] None [] None [] [] EventAndLevel default_span [] [] [] false false false [] None [] None [] [] [] [] [].
Definition no_generate : GenerateStatement := mkGenerate no_name no_range [] [] no_name [] false None [] [] [] [] [] [] [] [] [].
Definition push {A} (a : A) (l : list A) : list A := l ++ [a].
