(* ===== verification/VhdlParser.v ===== *)
(** The state of the VHDL parser and its expressions (vhdl/src/Parser.cpp). The
    scanned tokens are given; reading one out of their range, a null pointer and
    a loop or recursion out of fuel are [Undef]. A function that reports an error
    and returns nothing gives [None]. *)
From S2P Require Import Prelude Store VhdlLexer VhdlSyntax.
Local Open Scope nat_scope.

Record ParserState := mkParser {
  index_ : nat; allowWait_ : bool; syntax_ : DesignFile; diagnostics_ : list ParseDiagnostic; warnings_ : list ParseWarning }.
Notation parser := (prog ParserState).
Definition set_index (i : nat) (s : ParserState) : ParserState := mkParser i (allowWait_ s) (syntax_ s) (diagnostics_ s) (warnings_ s).
Definition set_allowWait (b : bool) (s : ParserState) : ParserState := mkParser (index_ s) b (syntax_ s) (diagnostics_ s) (warnings_ s).
Definition over_syntax (f : DesignFile -> DesignFile) (s : ParserState) : ParserState :=
  mkParser (index_ s) (allowWait_ s) (f (syntax_ s)) (diagnostics_ s) (warnings_ s).
Definition set_diagnostics (d : list ParseDiagnostic) (s : ParserState) : ParserState := mkParser (index_ s) (allowWait_ s) (syntax_ s) d (warnings_ s).
Definition add_warning (w : ParseWarning) (s : ParserState) : ParserState :=
  mkParser (index_ s) (allowWait_ s) (syntax_ s) (diagnostics_ s) (warnings_ s ++ [w]).

(** [if (!x) return std::nullopt;] and [if (!c) return std::nullopt;]. *)
Notation "x ←? m ; k" := (m ≫= fun o => match o with Some x => k | None => mret None end)
  (at level 20, m at level 100, k at level 200, right associativity, only parsing).
Notation "'demand' m ; k" := (m ≫= fun b : bool => if b then k else mret None)
  (at level 20, m at level 100, k at level 200, right associativity, only parsing).
Definition either (a b : parser bool) : parser bool := x ← a; if x : bool then mret true else b.
Definition both (a b : parser bool) : parser bool := x ← a; if x : bool then b else mret false.
Definition notM (a : parser bool) : parser bool := x ← a; mret (negb x).

(** Loops over local variables: the body goes on with their new values, or gives
    the result. *)
Fixpoint iterate {St L R} (fuel : nat) (body : L -> prog St (L + R)) (l : L) : prog St R :=
  match fuel with
  | O => undef
  | S fuel => r ← body l; match r with inl l => iterate fuel body l | inr r => mret r end
  end.

Section parser.
Context (tokens : list Token).

(** Every turn of a loop takes a token. *)
Definition rounds : nat := S (length tokens).
(** [while (c) body], which can return nothing. *)
Definition while_some {L} (c : parser bool) (body : L -> parser (option L)) : L -> parser (option L) :=
  iterate rounds (fun l => b ← c; if b : bool then r ← body l; mret (match r with Some l => inl l | None => inr None end) else mret (inr (Some l))).
(** [do body while (c)]; the body says whether it breaks. *)
Definition do_while_break {L} (body : L -> parser (option (L * bool))) (c : parser bool) : L -> parser (option L) :=
  iterate rounds (fun l => r ← body l; match r with
    | Some (l, true) => mret (inr (Some l))
    | Some (l, false) => b ← c; mret (if b : bool then inl l else inr (Some l))
    | None => mret (inr None)
    end).
Definition do_while_some {L} (body : L -> parser (option L)) : parser bool -> L -> parser (option L) :=
  do_while_break (fun l => l ←? body l; mret (Some (l, false))).

(** * Tokens *)

Definition current : parser Token := deref (fun s => tokens !! index_ s).
Definition look (distance : nat) : parser Token :=
  deref (fun s => let next := index_ s + distance in tokens !! (if next <? length tokens then next else length tokens - 1)).
(** [lexed_.tokens[index_ - 1].span]. *)
Definition previous : parser Token := deref (fun s => match index_ s with O => None | S i => tokens !! i end).
Definition current_span : parser SourceSpan := t ← current; mret (span t).
Definition previous_span : parser SourceSpan := t ← previous; mret (span t).

Definition is_end (t : Token) : bool := match kind t with EndOfFile => true | _ => false end.
Definition is_word (value : string) (t : Token) : bool :=
  match kind t with Identifier => bool_decide (canonical t = chars value) | _ => false end.
Definition is_symbol (value : string) (t : Token) : bool := match kind t with Symbol => bool_decide (text t = chars value) | _ => false end.
Definition is_name_token (t : Token) : bool := match kind t with Identifier | ExtendedIdentifier => true | _ => false end.
Definition atEnd : parser bool := t ← current; mret (is_end t).
Definition advance : parser Token := t ← current; (if is_end t then mret tt else modify (fun s => set_index (S (index_ s)) s)) ;; mret t.
Definition word (value : string) : parser bool := t ← current; mret (is_word value t).
Definition words (l : list string) : parser bool := t ← current; mret (existsb (fun value => is_word value t) l).
Definition symbol (value : string) : parser bool := t ← current; mret (is_symbol value t).
Definition acceptWord (value : string) : parser bool := b ← word value; if negb b then mret false else advance ;; mret true.
Definition acceptSymbol (value : string) : parser bool := b ← symbol value; if negb b then mret false else advance ;; mret true.
Definition error (message : string) (sp : SourceSpan) : parser unit :=
  modify (fun s => set_diagnostics (diagnostics_ s ++ [mkParseDiagnostic message sp]) s).
(** An error where the parser is, and nothing is returned. *)
Definition error_here {A} (message : string) : parser (option A) := sp ← current_span; error message sp ;; mret None.
Definition expectWord (value : string) : parser bool :=
  b ← acceptWord value; if b : bool then mret true else sp ← current_span; error ("expected keyword '" +:+ value +:+ "'") sp ;; mret false.
Definition expectSymbol (value : string) : parser bool :=
  b ← acceptSymbol value; if b : bool then mret true else sp ← current_span; error ("expected '" +:+ value +:+ "'") sp ;; mret false.
Definition isNameToken : parser bool := t ← current; mret (is_name_token t).
Definition parseName : parser (option Name) :=
  t ← current; if negb (is_name_token t) then error "expected an identifier" (span t) ;; mret None
  else t ← advance; mret (Some (mkName (text t) (canonical t) (span t))).
(** [isNameToken() && look().text == ":"]. *)
Definition look_text (distance : nat) (value : string) : parser bool := t ← look distance; mret (bool_decide (text t = chars value)).
Definition look_canonical (distance : nat) (value : string) : parser bool := t ← look distance; mret (bool_decide (canonical t = chars value)).
Definition isLabel : parser bool := both isNameToken (look_text 1 ":").
(** [do name while (acceptSymbol(","))]. *)
Definition parseNames : parser (option (list Name)) :=
  do_while_some (fun names => name ←? parseName; mret (Some (push name names))) (acceptSymbol ",") [].

Definition synchronize (wordToStop : string) : parser unit :=
  iterate rounds (fun _ => go ← both (notM atEnd) (notM (word wordToStop));
    if go : bool then b ← symbol ";"; if b : bool then advance ;; mret (inr tt) else advance ;; mret (inl tt) else mret (inr tt)) tt.

(** * Bit strings *)

Definition without_underscores (l : list ascii) : list ascii := List.filter (fun c => negb (Ascii.eqb c "_")) l.
Definition digit_value (c : ascii) : Z := (Z.of_N (N_of_ascii c) - 48)%Z.
(** [std::from_chars] that takes all the digits, with values up to [limit]. *)
Definition from_chars (limit : Z) (digits : list ascii) : option Z :=
  match digits with
  | [] => None
  | _ => if forallb isDigit digits then
      let value := foldl (fun v c => 10 * v + digit_value c)%Z 0%Z digits in if (value <=? limit)%Z then Some value else None
    else None
  end.

Definition bitStringBase (t : Token) : bool :=
  match kind t with
  | Identifier => bool_decide (canonical t ∈ chars <$> ["b"; "o"; "x"; "d"; "ub"; "uo"; "ux"; "sb"; "so"; "sx"]%string)
  | _ => false
  end.

Definition bit_value (c : ascii) : N := (N_of_ascii c - 48)%N.
Definition bit_char (n : N) : ascii := ascii_of_N (48 + n mod 2).
(** [bits] has its least bit first. *)
Fixpoint times_ten (carry : N) (bits : list ascii) : N * list ascii :=
  match bits with
  | [] => (carry, [])
  | b :: bits => let carry := (carry + bit_value b * 10)%N in let '(k, r) := times_ten (carry / 2)%N bits in (k, bit_char carry :: r)
  end.
(** The bits of an [unsigned]. *)
Fixpoint carry_bits (width : nat) (carry : N) : list ascii :=
  match width with O => [] | S width => if (carry =? 0)%N then [] else bit_char carry :: carry_bits width (carry / 2)%N end.
Definition decimal_step (c : ascii) (bits : list ascii) : list ascii :=
  let '(carry, bits) := times_ten (bit_value c) bits in bits ++ carry_bits 32 carry.
Definition max_bits : nat := Z.to_nat 65536.
Fixpoint decimal_bits (start literal : SourceSpan) (l bits : list ascii) : parser (option (list ascii)) :=
  match l with
  | [] => mret (Some (rev bits))
  | c :: l =>
      if Ascii.eqb c "_" then decimal_bits start literal l bits
      else if negb (isDigit c) then error "decimal bit string requires decimal digits" literal ;; mret None
      else let bits := decimal_step c bits in
        if max_bits <? length bits then error "bit string length exceeds the supported range" start ;; mret None
        else decimal_bits start literal l bits
  end.

Definition upper (c : ascii) : ascii := if between "a" c "z" then ascii_of_N (N_of_ascii c - 32) else c.
Definition radix_digit (c : ascii) : Z :=
  if isDigit c then digit_value c else if between "A" c "F" then (Z.of_N (N_of_ascii c) - 65 + 10)%Z else (-1)%Z.
Definition radix_width (radix : ascii) : nat := if Ascii.eqb radix "x" then 4 else if Ascii.eqb radix "o" then 3 else 1.
Definition digit_bits (width : nat) (c : ascii) : option (list ascii) :=
  let c := upper c in
  if Ascii.eqb c "X" || Ascii.eqb c "Z" then Some (repeat c width)
  else
    let digit := radix_digit c in
    if (digit <? 0)%Z || (2 ^ Z.of_nat width <=? digit)%Z then None
    else Some ((fun bit => if Z.odd (Z.shiftr digit (Z.of_nat bit)) then "1"%char else "0"%char) <$> rev (seq 0 width)).
Fixpoint radix_bits (width : nat) (start literal : SourceSpan) (l bits : list ascii) : parser (option (list ascii)) :=
  match l with
  | [] => mret (Some bits)
  | c :: l =>
      if Ascii.eqb c "_" then radix_bits width start literal l bits
      else match digit_bits width c with
      | None => error "invalid bit string digit" literal ;; mret None
      | Some b =>
          let bits := bits ++ b in
          if max_bits <? length bits then error "bit string length exceeds the supported range" start ;; mret None
          else radix_bits width start literal l bits
      end
  end.

(** A text without the delimiters at its ends. *)
Definition inside (t : list ascii) : list ascii := take (length t - 2) (drop 1 t).
Fixpoint has_double_underscore (l : list ascii) : bool :=
  match l with
  | a :: ((b :: _) as l') => (Ascii.eqb a "_" && Ascii.eqb b "_") || has_double_underscore l'
  | _ => false
  end.
Definition misplaced_underscore (t : list ascii) : bool :=
  (2 <? length t) && (bool_decide (t !! 1 = Some "_"%char) || bool_decide (t !! (length t - 2) = Some "_"%char) || has_double_underscore t).
Fixpoint find_first_not_of (pad : ascii) (l : list ascii) : option nat :=
  match l with [] => None | c :: l => if Ascii.eqb c pad then S <$> find_first_not_of pad l else Some 0 end.
(** The bits brought to a length, unless a digit that is no padding is lost. *)
Definition fit (pad : ascii) (n : nat) (bits : list ascii) : option (list ascii) :=
  if n <? length bits then
    let excess := length bits - n in
    match find_first_not_of pad bits with
    | Some i => if i <? excess then None else Some (drop excess bits)
    | None => Some (drop excess bits)
    end
  else Some (repeat pad (n - length bits) ++ bits).

Definition bitStringLength : parser (option (option nat)) :=
  t ← current;
  match kind t with
  | IntegerLiteral =>
      advance ;;
      match from_chars (2 ^ 64 - 1) (without_underscores (text t)) with
      | Some value => if (65536 <? value)%Z then error "bit string length exceeds the supported range" (span t) ;; mret None else mret (Some (Some (Z.to_nat value)))
      | None => error "bit string length exceeds the supported range" (span t) ;; mret None
      end
  | _ => mret (Some None)
  end.
Definition parseExtendedBitString : parser (option Expression) :=
  start ← current_span;
  len ←? bitStringLength;
  base ← advance; literal ← advance;
  if (match len with Some _ => negb (offset (span_end start) =? offset (span_start (span base))) | None => false end) ||
     negb (offset (span_end (span base)) =? offset (span_start (span literal)))
  then error "bit string length, base, and string must be adjacent" start ;; mret None
  else if misplaced_underscore (text literal) then error "bit string underscores must separate digits" (span literal) ;; mret None
  else
    let signedBase := bool_decide (head (canonical base) = Some "s"%char) in
    let radix := default NUL (last (canonical base)) in
    bits ←? (if Ascii.eqb radix "d" then decimal_bits start (span literal) (inside (text literal)) ["0"%char]
      else radix_bits (radix_width radix) start (span literal) (inside (text literal)) []);
    if signedBase && bool_decide (bits = []) then error "signed bit string cannot be empty" (span literal) ;; mret None
    else
      let pad := if signedBase then default NUL (head bits) else "0"%char in
      match (match len with Some n => fit pad n bits | None => Some bits end) with
      | None => error "excess non-padding digits in bit string literal" (span literal) ;; mret None
      | Some bits => mret (Some (leaf EBitStringLiteral (quote :: bits ++ [quote]) (chars "b") (join start (span literal))))
      end.

(** * Expressions *)

Inductive request := Exp (minimumPrecedence : Z) | Primary.

Definition one_of (l : list string) (t : Token) : bool := existsb (fun value => is_word value t) l.
Definition one_symbol (l : list string) (t : Token) : bool := existsb (fun value => is_symbol value t) l.
Definition precedence_of (t : Token) : Z :=
  if one_of ["or"; "nor"; "xor"; "xnor"]%string t then 1
  else if one_of ["and"; "nand"]%string t then 2
  else if one_symbol ["="; "/="; "<"; "<="; ">"; ">="]%string t then 3
  else if one_symbol ["+"; "-"; "&"]%string t then 4
  else if one_symbol ["*"; "/"]%string t || one_of ["mod"; "rem"]%string t then 5
  else if is_symbol "**" t then 6
  else -1.
Definition precedence : parser Z := t ← current; mret (precedence_of t).
Definition has_text (l : list string) (t : Token) : bool := bool_decide (text t ∈ chars <$> l).
Definition op_precedence (op : Token) : Z :=
  if one_of ["or"; "nor"; "xor"; "xnor"]%string op then 1
  else if one_of ["and"; "nand"]%string op then 2
  else if one_of ["mod"; "rem"]%string op then 5
  else if has_text ["="; "/="; "<"; "<="; ">"; ">="]%string op then 3
  else if has_text ["+"; "-"; "&"]%string op then 4
  else if has_text ["*"; "/"]%string op then 5
  else if has_text ["**"]%string op then 6
  else -1.
Definition operator_text (op : Token) : list ascii := match kind op with Identifier => canonical op | _ => text op end.

Section expressions.
(** The functions called again. *)
Context (parse : request -> parser (option Expression)).

Definition parseIndex_ : parser (option Expression) :=
  lhs ←? parse (Exp 0);
  b ← words ["to"; "downto"]%string;
  if b : bool then
    t ← advance;
    rhs ←? parse (Exp 0);
    mret (Some (make_node ERange (canonical t) default_span (Some lhs) (Some rhs)))
  else mret (Some lhs).

Definition parseExpression_ (minimumPrecedence : Z) : parser (option Expression) :=
  lhs ←? parse Primary;
  iterate rounds (fun lhs =>
    p ← precedence;
    if (minimumPrecedence <=? p)%Z then
      op ← advance;
      rhs ← parse (Exp (op_precedence op + (if has_text ["**"]%string op then 0 else 1)));
      match rhs with
      | None => mret (inr None)
      | Some rhs => mret (inl (make_node EBinary (operator_text op) (join (e_span lhs) (e_span rhs)) (Some lhs) (Some rhs)))
      end
    else mret (inr (Some lhs))) lhs.

Definition acceptUnary : parser bool :=
  foldr either (mret false)
    ([acceptSymbol "??"; acceptSymbol "+"; acceptSymbol "-"; acceptWord "not"; acceptWord "abs"; acceptWord "and"; acceptWord "or"; acceptWord "nand";
      acceptWord "nor"; acceptWord "xor"; acceptWord "xnor"]).
Definition parseUnary : parser (option Expression) :=
  op ← previous;
  operand ←? (if has_text ["+"; "-"]%string op then parse (Exp 5) else parse Primary);
  mret (Some (make_node EUnary (operator_text op) (join (span op) (e_span operand)) (Some operand) None)).

(** [actual => value], when the arrow follows. *)
Definition associate (actual : Expression) : parser (option Expression) :=
  b ← acceptSymbol "=>";
  if negb b then mret (Some actual)
  else
    rhs ←? parse (Exp 0);
    mret (Some (make_node EAssociation [] (join (e_span actual) (e_span rhs)) (Some actual) (Some rhs))).
Definition parseChoices (element : Expression) : parser (option Expression) :=
  l ←? while_some (acceptSymbol "|") (fun l => choice ←? parseIndex_; mret (Some (push choice l))) [element];
  b ← symbol "=>";
  if b : bool then mret (Some (mkExpression l EAggregate [] [] (e_span element) None None None))
  else error_here "aggregate choices require an association".
Definition parseElement : parser (option Expression) :=
  element ←? parseIndex_;
  b ← symbol "|";
  element ←? (if b : bool then parseChoices element else mret (Some element));
  associate element.
Definition parseAggregate (nested : Expression) : parser (option Expression) :=
  l ←? while_some (acceptSymbol ",") (fun l => element ←? parseElement; mret (Some (push element l))) [nested];
  mret (Some (mkExpression l EAggregate [] [] default_span None None None)).
Definition parseParenthesized : parser (option Expression) :=
  start ← previous_span;
  others ← acceptWord "others";
  if others : bool then
    demand expectSymbol "=>";
    value ←? parse (Exp 0);
    demand expectSymbol ")";
    stop ← previous_span; mret (Some (make_node EOthers [] (join start stop) (Some value) None))
  else
    nested ←? parseElement;
    b ← symbol ",";
    nested ←? (if b || is_kind EAssociation nested then parseAggregate nested else mret (Some nested));
    demand expectSymbol ")";
    stop ← previous_span; mret (Some (set_e_span (join start stop) nested)).

Definition parseCall (callee index : Expression) : parser (option Expression) :=
  l ←? while_some (acceptSymbol ",") (fun l =>
    argument ←? parse (Exp 0); argument ←? associate argument; mret (Some (push argument l))) [index];
  demand expectSymbol ")";
  stop ← previous_span; mret (Some (mkExpression l ECall [] [] (join (e_span callee) stop) (Some callee) None None)).
Definition parseSuffix (expression : Expression) : parser (option Expression) :=
  tick ← acceptSymbol "'";
  if tick : bool then
    name ←? parseName;
    mret (Some (mkExpression [] EAttribute (spelling name) (n_canonical name) (join (e_span expression) (n_span name)) (Some expression) None None))
  else
    dot ← acceptSymbol ".";
    if dot : bool then
      field ←? parseName;
      mret (Some (mkExpression [] ESelected (spelling field) (n_canonical field) (join (e_span expression) (n_span field)) (Some expression) None None))
    else
      advance ;;
      index ←? parseIndex_;
      index ←? associate index;
      b ← symbol ",";
      if b || is_kind EAssociation index then parseCall expression index
      else
        demand expectSymbol ")";
        stop ← previous_span; mret (Some (make_node EIndexed [] (join (e_span expression) stop) (Some expression) (Some index))).
Definition parseNameExpression : parser (option Expression) :=
  name ←? parseName;
  while_some (either (symbol ".") (either (symbol "(") (symbol "'"))) parseSuffix
    (leaf EName (spelling name) (n_canonical name) (n_span name)).

Definition parseBitString : parser (option Expression) :=
  base ← advance; literal ← advance; stop ← previous_span;
  mret (Some (leaf EBitStringLiteral (text literal) (canonical base) stop)).
Definition literal_kind (k : TokenKind) : option expression_kind :=
  match k with
  | IntegerLiteral => Some EIntegerLiteral | RealLiteral => Some ERealLiteral | StringLiteral => Some EStringLiteral
  | CharacterLiteral => Some ECharacterLiteral | _ => None
  end.
Definition parseLiteral : parser (option Expression) :=
  t ← current;
  match literal_kind (kind t) with
  | None => error "expected a name, literal, or parenthesized expression" (span t) ;; mret None
  | Some k => advance ;; mret (Some (leaf k (text t) [] (span t)))
  end.

Definition is_string (t : Token) : bool := match kind t with StringLiteral => true | _ => false end.
Definition is_integer (t : Token) : bool := match kind t with IntegerLiteral => true | _ => false end.
Definition startsExtendedBitString : parser bool :=
  t ← current; t1 ← look 1; t2 ← look 2;
  mret ((is_integer t && bitStringBase t1 && is_string t2) ||
        (bitStringBase t && negb (length (canonical t) =? 1) && is_string t1) || (is_word "d" t && is_string t1)).
Definition parsePrimary_ : parser (option Expression) :=
  extended ← startsExtendedBitString;
  if extended : bool then parseExtendedBitString
  else
    unary ← acceptUnary;
    if unary : bool then parseUnary
    else
      parenthesis ← acceptSymbol "(";
      if parenthesis : bool then parseParenthesized
      else
        bits ← both (words ["x"; "b"; "o"]%string) (t ← look 1; mret (is_string t));
        if bits : bool then parseBitString
        else name ← isNameToken; if name : bool then parseNameExpression else parseLiteral.
End expressions.

Fixpoint parse_expression (fuel : nat) (r : request) : parser (option Expression) :=
  match fuel with
  | O => undef
  | S fuel => match r with Exp p => parseExpression_ (parse_expression fuel) p | Primary => parsePrimary_ (parse_expression fuel) end
  end.
(** A call takes a token or asks for a primary. *)
Definition depth : nat := 2 * length tokens + 2.
Definition parseExpression (minimumPrecedence : Z) : parser (option Expression) := parse_expression depth (Exp minimumPrecedence).
Definition parseIndex : parser (option Expression) := parseIndex_ (parse_expression depth).

(** [value when condition else other]. *)
Fixpoint parse_conditional (fuel : nat) (allowOmittedElse : bool) : parser (option Expression) :=
  match fuel with
  | O => undef
  | S fuel =>
      value ←? parseExpression 0;
      b ← acceptWord "when";
      if negb b then mret (Some value)
      else
        condition ←? parseExpression 0;
        let conditional right sp := mkExpression [] EConditional [] [] (join (e_span value) sp) (Some value) right (Some condition) in
        omitted ← (if allowOmittedElse : bool then symbol ";" else mret false);
        if omitted : bool then mret (Some (conditional None (e_span condition)))
        else
          demand expectWord "else";
          rhs ←? parse_conditional fuel allowOmittedElse;
          mret (Some (conditional (Some rhs) (e_span rhs)))
  end.
Definition parseConditional (allowOmittedElse : bool) : parser (option Expression) := parse_conditional rounds allowOmittedElse.

(** * Ranges *)

Definition decimalInteger (t : Token) : option Z :=
  match kind t with
  | IntegerLiteral => if existsb (Ascii.eqb "#") (text t) then None else from_chars (2 ^ 63 - 1) (without_underscores (text t))
  | _ => None
  end.
Fixpoint literalInteger (e : Expression) : option Z :=
  match e_kind e with
  | EIntegerLiteral => decimalInteger (mkToken IntegerLiteral (e_text e) [] (e_span e))
  | EUnary =>
      match e_left e with
      | None => None
      | Some lhs =>
          match literalInteger lhs with
          | None => None
          | Some value =>
              if bool_decide (e_text e = chars "-") then Some (- value)%Z else if bool_decide (e_text e = chars "+") then Some value else None
          end
      end
  | _ => None
  end.
Definition is_range_attribute (e : Expression) : bool :=
  is_kind EAttribute e && (bool_decide (e_canonical e = chars "range") || bool_decide (e_canonical e = chars "reverse_range")).
(** The attribute of a range, which can have an index. *)
Definition attribute_of (e : Expression) : option Expression := if is_kind EIndexed e then e_left e else Some e.
Definition is_none_or {A} (p : A -> bool) (o : option A) : bool := match o with Some a => p a | None => false end.
Definition parseDiscreteRange : parser (option DiscreteRange) :=
  start ← current_span;
  leftExpression ←? parseExpression 0;
  if is_none_or is_range_attribute (attribute_of leftExpression)
  then mret (Some (mkRange 0 0 false (e_span leftExpression) None None (Some leftExpression) None))
  else
    bounds ← words ["to"; "downto"]%string;
    if is_kind EName leftExpression && negb bounds then
      mret (Some (mkRange 0 0 false (e_span leftExpression) None None None
        (Some (mkName (e_text leftExpression) (e_canonical leftExpression) (e_span leftExpression)))))
    else if negb bounds then error_here "expected 'to' or 'downto' in range constraint"
    else
      ascending ← acceptWord "to";
      (if ascending : bool then mret tt else acceptWord "downto" ;; mret tt) ;;
      rightExpression ←? parseExpression 0;
      stop ← previous_span;
      mret (Some (mkRange (default 0%Z (literalInteger leftExpression)) (default 0%Z (literalInteger rightExpression)) ascending (join start stop)
        (Some leftExpression) (Some rightExpression) None None)).
End parser.
