(* ===== verification/VhdlDeclarations.v ===== *)
(** Declarations, entities and assignments of the VHDL parser
    (vhdl/src/Parser.cpp). *)
From S2P Require Import Prelude Store VhdlLexer VhdlSyntax VhdlParser.
Local Open Scope nat_scope.

Section declarations.
Context (tokens : list Token) (synthesis_ : bool).
#[local] Notation parseName := (parseName tokens).
#[local] Notation parseNames := (parseNames tokens).
#[local] Notation parseExpression := (parseExpression tokens).
#[local] Notation parseDiscreteRange := (parseDiscreteRange tokens).
#[local] Notation acceptWord := (acceptWord tokens).
#[local] Notation acceptSymbol := (acceptSymbol tokens).
#[local] Notation expectWord := (expectWord tokens).
#[local] Notation expectSymbol := (expectSymbol tokens).
#[local] Notation current_span := (current_span tokens).
#[local] Notation previous_span := (previous_span tokens).
#[local] Notation word := (word tokens).
#[local] Notation words := (words tokens).
#[local] Notation symbol := (symbol tokens).
#[local] Notation advance := (advance tokens).
#[local] Notation atEnd := (atEnd tokens).
#[local] Notation isNameToken := (isNameToken tokens).
#[local] Notation while_some := (while_some tokens).
#[local] Notation do_while_some := (do_while_some tokens).
#[local] Notation do_while_break := (do_while_break tokens).

(** * Clauses of the context *)

Definition parseLibraryClause : parser (option LibraryClause) :=
  t ← advance; names ←? parseNames; demand expectSymbol ";"; stop ← previous_span; mret (Some (mkLibrary names (join (span t) stop))).
(** One selected name, or nothing after an error. *)
Definition parseSelectedName : parser (option (list Name)) :=
  name ←? parseName;
  while_some (acceptSymbol ".") (fun l => name ←? parseName; mret (Some (push name l))) [name].
(** The clauses read, and whether there was no error. *)
Definition parseUseClauses (start : SourceSpan) : parser (list UseClause * bool) :=
  iterate (rounds tokens) (fun clauses =>
    name ← parseSelectedName;
    match name with
    | None => mret (inr (clauses, false))
    | Some name => let clauses := push (mkUse name start) clauses in b ← acceptSymbol ","; mret (if b : bool then inl clauses else inr (clauses, true))
    end) [].
Definition parseUseClause : parser (list UseClause) :=
  t ← advance;
  '(clauses, ok) ← parseUseClauses (span t);
  if negb ok then mret clauses
  else
    b ← expectSymbol ";";
    if negb b then mret clauses
    else stop ← previous_span; mret ((fun clause => mkUse (us_selectedName clause) (join (span t) stop)) <$> clauses).

(** * Types and ranges *)

Definition parenthesized_constraint : parser (option (option DiscreteRange)) :=
  b ← acceptSymbol "(";
  if b : bool then range ←? parseDiscreteRange; demand expectSymbol ")"; mret (Some (Some range)) else mret (Some None).
Definition range_constraint : parser (option (option DiscreteRange)) :=
  b ← acceptWord "range"; if b : bool then range ←? parseDiscreteRange; mret (Some (Some range)) else mret (Some None).
Definition type_constraint : parser (option (option DiscreteRange)) :=
  b ← symbol "("; if b : bool then parenthesized_constraint else range_constraint.
Definition default_value : parser (option (option Expression)) :=
  b ← acceptSymbol ":="; if b : bool then e ←? parseExpression 0; mret (Some (Some e)) else mret (Some None).

(** * Interfaces *)

Definition is_mode_in (m : PortMode) : bool := match m with ModeIn => true | _ => false end.
Definition parameter_mode (procedure : bool) : parser PortMode :=
  b ← acceptWord "in";
  if negb b && procedure then
    b ← acceptWord "inout"; if b : bool then mret ModeInOut else b ← acceptWord "out"; mret (if b : bool then ModeOut else ModeIn)
  else mret ModeIn.
Definition parseGenericDeclaration (procedure : bool) : parser (option GenericDeclaration) :=
  start ← current_span;
  constantClass ← acceptWord "constant";
  (if procedure && negb constantClass then acceptWord "variable" else mret false) ;;
  names ←? parseNames;
  demand expectSymbol ":";
  mode ← parameter_mode procedure;
  if constantClass && negb (is_mode_in mode) then error "constant procedure parameters require mode in" start ;; mret None
  else
    typeName ←? parseName;
    constraint ←? type_constraint;
    defaultValue ←? default_value;
    let stop := match defaultValue with Some e => e_span e | None => n_span typeName end in
    mret (Some (mkGeneric names (mkType typeName constraint) defaultValue (join start stop) mode)).

Definition port_mode : parser PortMode :=
  b ← acceptWord "in"; if b : bool then mret ModeIn else
  b ← acceptWord "out"; if b : bool then mret ModeOut else
  b ← acceptWord "inout"; if b : bool then mret ModeInOut else
  b ← acceptWord "buffer"; if b : bool then mret ModeBuffer else
  b ← acceptWord "linkage"; mret (if b : bool then ModeLinkage else ModeIn).
Definition parsePortDeclaration : parser (option PortDeclaration) :=
  start ← current_span;
  acceptWord "signal" ;;
  name ←? parseName;
  names ←? while_some (acceptSymbol ",") (fun names => name ←? parseName; mret (Some (push name names))) [name];
  demand expectSymbol ":";
  mode ← port_mode;
  typeName ←? parseName;
  constraint ←? type_constraint;
  defaultValue ←? default_value;
  let stop := match defaultValue, constraint with Some e, _ => e_span e | None, Some r => r_span r | None, None => n_span typeName end in
  mret (Some (mkPort names mode (mkType typeName constraint) (join start stop) defaultValue)).

(** * Objects and types *)

Definition parseObjectDeclaration (allowInitializer : bool) : parser (option ObjectDeclaration) :=
  start ← previous_span;
  names ←? parseNames;
  demand expectSymbol ":";
  typeName ←? parseName;
  bounds ←? parenthesized_constraint;
  range ←? range_constraint;
  initializer ←? (if allowInitializer : bool then default_value else mret (Some None));
  demand expectSymbol ";";
  stop ← previous_span;
  mret (Some (mkObject names (mkType typeName (match range with Some r => Some r | None => bounds end)) (join start stop) initializer)).
Definition parseConstantDeclaration : parser (option ConstantDeclaration) :=
  object ←? parseObjectDeclaration true;
  match ob_initializer object with
  | None => error "constant requires an initializer" (ob_span object) ;; mret None
  | Some value => mret (Some (mkConstant (mkObject (ob_names object) (ob_type object) (ob_span object) None) (Some value)))
  end.
Definition parseSubtypeDeclaration : parser (option SubtypeDeclaration) :=
  t ← advance;
  name ←? parseName; demand expectWord "is";
  base ←? parseName;
  constraint ←? type_constraint;
  demand expectSymbol ";";
  stop ← previous_span; mret (Some (mkSubtype name (mkType base constraint) (join (span t) stop))).
Definition parseEnumerationTypeDeclaration : parser (option EnumerationTypeDeclaration) :=
  start ← previous_span;
  name ←? parseName; demand expectWord "is"; demand expectSymbol "(";
  literals ←? parseNames;
  demand expectSymbol ")"; demand expectSymbol ";";
  stop ← previous_span; mret (Some (mkEnumeration name literals (join start stop))).

(** A name after [end] must be the one declared: whether it is not. *)
Definition closing_mismatch (key : list ascii) (message : string) : parser bool :=
  b ← isNameToken;
  if b : bool then
    closing ← parseName;
    match closing with
    | None => undef
    | Some closing => if bool_decide (nameKey closing = key) then mret false else error message (n_span closing) ;; mret true
    end
  else mret false.
(** Where it is an error and no more. *)
Definition check_closing (key : list ascii) (message : string) : parser unit :=
  b ← isNameToken;
  if b : bool then
    closing ← parseName;
    match closing with
    | None => mret tt
    | Some closing => if bool_decide (nameKey closing = key) then mret tt else error message (n_span closing)
    end
  else mret tt.

Definition parseRecordTypeDeclaration : parser (option RecordTypeDeclaration) :=
  start ← previous_span;
  name ←? parseName; demand expectWord "is"; demand expectWord "record";
  fields ←? while_some (both (notM atEnd) (notM (word "end")))
    (fun fields => field ←? parseObjectDeclaration false; mret (Some (push field fields))) [];
  match fields with
  | [] => error_here tokens "record requires at least one element"
  | _ =>
      demand expectWord "end"; demand expectWord "record";
      mismatch ← closing_mismatch (nameKey name) "record end name mismatch";
      if mismatch : bool then mret None
      else demand expectSymbol ";"; stop ← previous_span; mret (Some (mkRecord name fields (join start stop)))
  end.

(** The index of an array: a subtype without bounds, the name of a type, or a
    range. *)
Definition array_index : parser (option (option Name * option Name * DiscreteRange)) :=
  named ← isNameToken; range ← look_canonical tokens 1 "range"; box ← look_text tokens 2 "<>"; closes ← look_text tokens 1 ")";
  if named && range && box then name ← parseName; advance ;; advance ;; mret (Some (name, None, no_range))
  else if named && closes then name ← parseName; mret (Some (None, name, no_range))
  else range ←? parseDiscreteRange; mret (Some (None, None, range)).
Definition parseArrayTypeDeclaration : parser (option ArrayTypeDeclaration) :=
  start ← previous_span;
  name ←? parseName; demand expectWord "is"; demand expectWord "array"; demand expectSymbol "(";
  index ←? array_index;
  demand expectSymbol ")"; demand expectWord "of";
  elementName ←? parseName;
  constraint ←? parenthesized_constraint;
  demand expectSymbol ";";
  stop ← previous_span;
  mret (Some (mkArray name index.2 (mkType elementName constraint) (join start stop) index.1.1 index.1.2)).

Inductive type_declaration :=
| EnumerationType (t : EnumerationTypeDeclaration) | RecordType (t : RecordTypeDeclaration) | ArrayType (t : ArrayTypeDeclaration).
(** After [type]. *)
Definition parseTypeDeclaration : parser (option type_declaration) :=
  parenthesis ← look_text tokens 2 "(";
  if parenthesis : bool then t ←? parseEnumerationTypeDeclaration; mret (Some (EnumerationType t))
  else
    record ← look_canonical tokens 2 "record";
    if record : bool then t ←? parseRecordTypeDeclaration; mret (Some (RecordType t))
    else t ←? parseArrayTypeDeclaration; mret (Some (ArrayType t)).

Definition read_mode (start : SourceSpan) : Name := mkName (chars "read_mode") (chars "read_mode") start.
Definition write_mode (start : SourceSpan) : Name := mkName (chars "write_mode") (chars "write_mode") start.
Definition file_mode (mode : Name) (start : SourceSpan) : parser Name :=
  b ← acceptWord "in"; if b : bool then mret (read_mode start) else b ← acceptWord "out"; mret (if b : bool then write_mode start else mode).
Definition parseFileDeclaration : parser (option FileDeclaration) :=
  t ← advance;
  names ←? parseNames;
  demand expectSymbol ":";
  type ←? parseName;
  opens ← acceptWord "open";
  mode ←? (if opens : bool then parseName else mret (Some (read_mode (span t))));
  has_path ← acceptWord "is";
  mp ←? (if has_path : bool then mode ← file_mode mode (span t); path ←? parseExpression 0; mret (Some (mode, Some path)) else mret (Some (mode, None)));
  demand expectSymbol ";";
  stop ← previous_span; mret (Some (mkFile names type mp.1 mp.2 (join (span t) stop))).

Definition parseAlias : parser (option AliasDeclaration) :=
  t ← advance;
  name ←? parseName;
  typed ← acceptSymbol ":";
  type ←? (if typed : bool then type ←? parseName; bounds ←? parenthesized_constraint; mret (Some (Some (mkType type bounds))) else mret (Some None));
  demand expectWord "is";
  target ←? parseExpression 0;
  demand expectSymbol ";";
  stop ← previous_span; mret (Some (mkAlias name type (Some target) (join (span t) stop))).

(** * Entities *)

Definition parseGenerics : parser (option (list GenericDeclaration)) :=
  demand expectSymbol "(";
  generics ←? while_some (both (notM atEnd) (notM (symbol ")"))) (fun generics =>
    generic ← parseGenericDeclaration false;
    let generics := match generic with Some g => push g generics | None => generics end in
    b ← acceptSymbol ";";
    if b : bool then mret (Some generics)
    else
      b ← symbol ")";
      if b : bool then mret (Some generics)
      else sp ← current_span; error "expected ';' or ')' after generic declaration" sp ;; synchronize tokens "end" ;; mret None) [];
  demand expectSymbol ")"; demand expectSymbol ";"; mret (Some generics).
Definition parsePorts : parser (option (list PortDeclaration)) :=
  demand expectSymbol "(";
  ports ←? while_some (both (notM atEnd) (notM (symbol ")"))) (fun ports =>
    before ← current_span;
    port ← parsePortDeclaration;
    let ports := match port with Some p => push p ports | None => ports end in
    b ← acceptSymbol ";";
    if b : bool then mret (Some ports)
    else
      b ← symbol ")";
      if b : bool then
        now ← current_span;
        (if offset (span_start before) =? offset (span_start now) then advance ;; mret tt else mret tt) ;; mret (Some ports)
      else sp ← current_span; error "expected ';' or ')' after port declaration" sp ;; synchronize tokens "end" ;; mret None) [];
  demand expectSymbol ")"; demand expectSymbol ";"; mret (Some ports).
Definition parseEntity (component : bool) : parser (option EntityDeclaration) :=
  t ← advance;
  name ←? parseName;
  demand (if component : bool then acceptWord "is" ;; mret true else expectWord "is");
  b ← acceptWord "generic"; generics ←? (if b : bool then parseGenerics else mret (Some []));
  b ← acceptWord "port"; ports ←? (if b : bool then parsePorts else mret (Some []));
  b ← word "end";
  (if b : bool then mret tt
   else sp ← current_span; error "unsupported entity declaration; expected end of entity" sp ;; synchronize tokens "end") ;;
  demand expectWord "end";
  (if component : bool then expectWord "component" else acceptWord "entity") ;;
  check_closing (nameKey name) "entity end name does not match its declaration" ;;
  demand expectSymbol ";";
  stop ← previous_span; mret (Some (mkEntity name generics ports (join (span t) stop) no_context)).

(** * Statements that synthesis ignores *)

Definition startsIgnoredDiagnostic : parser bool :=
  if negb synthesis_ then mret false
  else
    label ← isLabel tokens;
    let offset := if label : bool then 2 else 0 in
    postponed ← look_canonical tokens offset "postponed";
    let offset := if postponed : bool then S offset else offset in
    either (look_canonical tokens offset "assert") (look_canonical tokens offset "report").
Definition ignored_warning (assertion : bool) (sp : SourceSpan) : ParseWarning :=
  if assertion then mkWarning "ignored-assertion" "assertion ignored for synthesis; condition, report, and severity are not evaluated" sp
  else mkWarning "ignored-report" "report ignored for synthesis; message and severity are not evaluated" sp.
Definition skipLabel : parser unit := label ← isLabel tokens; if label : bool then advance ;; advance ;; mret tt else mret tt.
Definition parseIgnoredDiagnostic : parser (option unit) :=
  start ← current_span;
  skipLabel ;;
  acceptWord "postponed" ;;
  assertion ← acceptWord "assert";
  _e ←? (if assertion : bool then e ←? parseExpression 0; mret (Some tt) else mret (Some tt));
  report ← (if assertion : bool then word "report" else mret true);
  _e ←? (if report : bool then demand expectWord "report"; e ←? parseExpression 0; mret (Some tt) else mret (Some tt));
  severity ← acceptWord "severity";
  _e ←? (if severity : bool then e ←? parseExpression 0; mret (Some tt) else mret (Some tt));
  demand expectSymbol ";";
  stop ← previous_span; modify (add_warning (ignored_warning assertion (join start stop))) ;; mret (Some tt).

Definition attribute_type : parser (option unit) :=
  type ← parseName;
  match type with
  | Some type =>
      if bool_decide (nameKey type ∈ chars <$> ["string"; "boolean"; "integer"; "natural"]%string) then demand expectSymbol ";"; mret (Some tt)
      else error_here tokens "unsupported synthesis attribute type"
  | None => error_here tokens "unsupported synthesis attribute type"
  end.
Definition attribute_specification (name : Name) (start : SourceSpan) : parser (option unit) :=
  demand expectWord "of";
  every ← either (acceptWord "all") (acceptWord "others");
  _e ←? (if every : bool then mret (Some []) else parseNames);
  demand expectSymbol ":";
  entityClass ←? parseName;
  if negb (bool_decide (nameKey entityClass ∈ chars <$> ["signal"; "variable"; "label"; "entity"; "architecture"]%string))
  then error "unsupported synthesis attribute entity class" (n_span entityClass) ;; mret None
  else
    demand expectWord "is"; e ←? parseExpression 0; demand expectSymbol ";";
    stop ← previous_span;
    modify (add_warning (mkWarning "ignored-attribute"
      ("attribute '" +:+ String.string_of_list_ascii (spelling name) +:+ "' ignored for synthesis; mapping hints are not applied") (join start stop))) ;;
    mret (Some tt).
Definition parseSynthesisAttribute : parser (option unit) :=
  t ← advance;
  name ←? parseName;
  if bool_decide (nameKey name = chars "foreign") then error "foreign attributes are unsupported" (span t) ;; mret None
  else if negb synthesis_ then error "attribute declarations require synthesis mode" (span t) ;; mret None
  else b ← acceptSymbol ":"; if b : bool then attribute_type else attribute_specification name (span t).

(** * Assignments *)

Definition selected (field : Name) : Expression := leaf ESelected (spelling field) (n_canonical field) (n_span field).
Definition parsePortSelection : parser (option (list Expression)) :=
  while_some (either (symbol ".") (symbol "(")) (fun indices =>
    dot ← acceptSymbol ".";
    if dot : bool then field ←? parseName; mret (Some (push (selected field) indices))
    else
      advance ;; index ←? parseIndex tokens; demand expectSymbol ")"; mret (Some (push index indices))) [].

(** [others], or expressions between bars. *)
Definition parseChoiceList : parser (option (bool * list Expression)) :=
  otherwise ← acceptWord "others";
  if otherwise : bool then mret (Some (true, []))
  else
    choices ←? do_while_some (fun choices => choice ←? parseIndex tokens; mret (Some (push choice choices))) (acceptSymbol "|") [];
    mret (Some (false, choices)).
Definition parseAlternatives : parser (option (list Expression * list (list Expression))) :=
  do_while_break (fun '(alternatives, choices) =>
    value ←? parseExpression 0; demand expectWord "when";
    c ←? parseChoiceList;
    mret (Some ((push value alternatives, push c.2 choices), c.1))) (acceptSymbol ",") ([], []).
Definition parseAssignment (sequential selectedAllowed allowOmittedElse : bool) : parser (option Assignment) :=
  start ← current_span;
  b ← (if selectedAllowed : bool then acceptWord "with" else mret false);
  selector ←? (if b : bool then selector ←? parseExpression 0; demand expectWord "select"; mret (Some (Some selector)) else mret (Some None));
  target ←? parseName;
  indices ←? parsePortSelection;
  variable ← (if sequential : bool then acceptSymbol ":=" else mret false);
  let kind := if variable : bool then VariableAssignment else SignalAssignment in
  demand (if variable : bool then mret true else expectSymbol "<=");
  match selector with
  | Some selector =>
      l ←? parseAlternatives;
      demand expectSymbol ";";
      stop ← previous_span; mret (Some (mkAssignment target None (join start stop) SignalAssignment indices (Some selector) l.2 l.1))
  | None =>
      value ←? parseConditional tokens allowOmittedElse;
      demand expectSymbol ";";
      stop ← previous_span; mret (Some (mkAssignment target (Some value) (join start stop) kind indices None [] []))
  end.
End declarations.

Fixpoint cloneExpression (e : Expression) : Expression :=
  mkExpression (map cloneExpression (elements e)) (e_kind e) (e_text e) (e_canonical e) (e_span e)
    (match e_left e with Some x => Some (cloneExpression x) | None => None end)
    (match e_right e with Some x => Some (cloneExpression x) | None => None end)
    (match e_condition e with Some x => Some (cloneExpression x) | None => None end).
Fixpoint conditionalAssignment (target : Assignment) (value : Expression) : outcome SequentialStatement :=
  if is_kind EConditional value then
    first ← (match e_left value with Some l => conditionalAssignment target l | None => Undef end);
    alternative ← (match e_right value with Some r => s ← conditionalAssignment target r; Ret [s] | None => Ret [] end);
    Ret (mkStatement SIf no_assignment (e_condition value) no_name no_range [first] alternative (as_span target) None None [] [])
  else
    Ret (mkStatement SAssignment
      (mkAssignment (as_target target) (Some value) (as_span target) (as_kind target) (cloneExpression <$> as_indices target) None [] [])
      None no_name no_range [] [] (as_span target) None None [] []).
