(* ===== verification/VhdlStatements.v ===== *)
(** Sequential statements, subprograms and processes of the VHDL parser
    (vhdl/src/Parser.cpp). *)
From S2P Require Import Prelude Store VhdlLexer VhdlSyntax VhdlParser VhdlDeclarations.
Local Open Scope nat_scope.

Definition of_outcome {A} (o : outcome A) : parser A := fun s => (o, s).
(** [diagnostics.resize(n)]. *)
Definition resize (n : nat) (l : list ParseDiagnostic) : list ParseDiagnostic :=
  take n l ++ repeat (mkParseDiagnostic EmptyString default_span) (n - length l).
(** Back to an earlier place: the diagnostics since are forgotten. *)
Definition rewind (index n : nat) : parser unit := modify (fun s => set_diagnostics (resize n (diagnostics_ s)) (set_index index s)).

Section statements.
Context (tokens : list Token) (synthesis_ : bool).
#[local] Notation parseName := (parseName tokens).
#[local] Notation parseExpression := (parseExpression tokens).
#[local] Notation acceptWord := (acceptWord tokens).
#[local] Notation acceptSymbol := (acceptSymbol tokens).
#[local] Notation expectWord := (expectWord tokens).
#[local] Notation expectSymbol := (expectSymbol tokens).
#[local] Notation current_span := (current_span tokens).
#[local] Notation previous_span := (previous_span tokens).
#[local] Notation word := (word tokens).
#[local] Notation words := (words tokens).
#[local] Notation symbol := (symbol tokens).
#[local] Notation advance := (advance tokens).
#[local] Notation atEnd := (atEnd tokens).
#[local] Notation isNameToken := (isNameToken tokens).
#[local] Notation while_some := (while_some tokens).
#[local] Notation do_while_some := (do_while_some tokens).
#[local] Notation do_while_break := (do_while_break tokens).
#[local] Notation parseAssignment := (parseAssignment tokens).
#[local] Notation rounds := (rounds tokens).

(** * Statements *)

(** The functions called again: statements, and an [if] after its keyword. *)
Record sequential := mkSequential {
  parse_statements : bool -> parser (option (list SequentialStatement)); parse_if : bool -> parser (option SequentialStatement) }.
Definition plain_statement (k : statement_kind) (condition : option Expression) (body alternative : list SequentialStatement) : SequentialStatement :=
  mkStatement k no_assignment condition no_name no_range body alternative default_span None None [] [].

(** The label of a loop or case, if there is one. *)
Definition parseLoopLabel : parser (option (option Name)) :=
  b ← isLabel tokens;
  if b : bool then
    loopLabel ← parseName; advance ;;
    b ← words ["for"; "while"; "case"]%string;
    if b : bool then mret (Some loopLabel) else error_here tokens "only loop and case statement labels are supported"
  else mret (Some None).
(** The label after [end]: whether it differs from the one of the statement. *)
Definition label_mismatch (label : option Name) (message : string) : parser bool :=
  b ← isNameToken;
  if b : bool then
    closing ← parseName;
    match closing, label with
    | None, _ => undef
    | Some closing, Some label => if bool_decide (nameKey closing = nameKey label) then mret false else error message (n_span closing) ;; mret true
    | Some closing, None => error message (n_span closing) ;; mret true
    end
  else mret false.
Definition loopEnd (label : option Name) : parser (option unit) :=
  demand expectWord "end"; demand expectWord "loop";
  mismatch ← label_mismatch label "loop end label mismatch";
  if mismatch : bool then mret None else demand expectSymbol ";"; mret (Some tt).

Section again.
Context (again : sequential).

Definition parseWait (start : SourceSpan) : parser (option SequentialStatement) :=
  allowed ← gets allowWait_;
  if negb allowed then error "wait is supported only in a process without sensitivity" start ;; mret None
  else demand expectSymbol ";"; mret (Some (plain_statement SWait None [] [])).
Definition parseExit (functionBody : bool) (start : SourceSpan) : parser (option SequentialStatement) :=
  if negb functionBody then error "exit is currently supported only in function loops" start ;; mret None
  else
    b ← acceptWord "when";
    condition ←? (if b : bool then e ←? parseExpression 0; mret (Some (Some e))
      else b ← symbol ";"; if b : bool then mret (Some None) else error_here tokens "labeled exit is not supported");
    demand expectSymbol ";"; mret (Some (plain_statement SExit condition [] [])).
Definition parseNull : parser (option SequentialStatement) := demand expectSymbol ";"; mret (Some (plain_statement SNull None [] [])).
Definition parseCase (functionBody : bool) (label : option Name) : parser (option SequentialStatement) :=
  condition ←? parseExpression 0; demand expectWord "is";
  alternatives ←? do_while_break (fun l =>
    demand expectWord "when";
    c ←? parseChoiceList tokens;
    demand expectSymbol "=>";
    body ← parse_statements again functionBody;
    match body with
    | None => error_here tokens "invalid case alternative"
    | Some body => mret (Some (push (c.2, body) l, c.1))
    end) (word "when") [];
  demand expectWord "end"; demand expectWord "case";
  mismatch ← label_mismatch label "case end label mismatch";
  if mismatch : bool then mret None
  else
    demand expectSymbol ";";
    mret (Some (mkStatement SCase no_assignment (Some condition) no_name no_range [] [] default_span None None (fst <$> alternatives) (snd <$> alternatives))).
(** After [if] or [elsif]. *)
Definition parseIfStatement_ (functionBody : bool) : parser (option SequentialStatement) :=
  condition ←? parseExpression 0; demand expectWord "then";
  body ←? parse_statements again functionBody;
  b ← acceptWord "elsif";
  if b : bool then alternative ←? parse_if again functionBody; mret (Some (plain_statement SIf (Some condition) body [alternative]))
  else
    b ← acceptWord "else";
    alternative ←? (if b : bool then parse_statements again functionBody else mret (Some []));
    demand expectWord "end"; demand expectWord "if"; demand expectSymbol ";";
    mret (Some (plain_statement SIf (Some condition) body alternative)).
Definition parseWhile (functionBody : bool) (label : option Name) : parser (option SequentialStatement) :=
  condition ←? parseExpression 0; demand expectWord "loop";
  body ←? parse_statements again functionBody;
  _e ←? loopEnd label;
  mret (Some (plain_statement SWhile (Some condition) body [])).
Definition parseFor (functionBody : bool) (label : option Name) : parser (option SequentialStatement) :=
  iterator ←? parseName; demand expectWord "in";
  range ←? parseDiscreteRange tokens; demand expectWord "loop";
  body ←? parse_statements again functionBody;
  _e ←? loopEnd label;
  mret (Some (mkStatement SFor no_assignment None iterator range body [] default_span None None [] [])).
Definition parseReturn : parser (option SequentialStatement) :=
  e ←? parseExpression 0; demand expectSymbol ";";
  mret (Some (mkStatement SReturn no_assignment None no_name no_range [] [] default_span (Some e) None [] [])).

(** Whether the chain of conditional values ends without [else]. *)
Fixpoint omits_else (e : Expression) : bool :=
  if is_kind EConditional e then match e_right e with Some e => omits_else e | None => true end else false.
Definition parse_simple_assignment : parser (option SequentialStatement) :=
  assignment ←? parseAssignment true false true;
  match as_value assignment with
  | None => undef
  | Some value =>
      if omits_else value then s ← of_outcome (conditionalAssignment assignment value); mret (Some s)
      else mret (Some (mkStatement SAssignment assignment None no_name no_range [] [] default_span None None [] []))
  end.
Definition is_callable (e : Expression) : bool := is_kind ECall e || is_kind EIndexed e || is_kind EName e.
(** A call or, from the same place, an assignment. *)
Definition parseSimpleStatement : parser (option SequentialStatement) :=
  saved ← gets index_; savedDiagnostics ← gets (fun s => length (diagnostics_ s));
  call ← parseExpression 0;
  ends ← symbol ";";
  match (if ends : bool then call else None) with
  | Some call =>
      if is_callable call then
        advance ;; mret (Some (mkStatement SCall no_assignment None no_name no_range [] [] default_span None (Some call) [] []))
      else rewind saved savedDiagnostics ;; parse_simple_assignment
  | None => rewind saved savedDiagnostics ;; parse_simple_assignment
  end.

(** The first of the cases whose test holds. *)
Fixpoint first_case {A} (cases : list (parser bool * parser A)) (otherwise : parser A) : parser A :=
  match cases with
  | [] => otherwise
  | (test, body) :: cases => b ← test; if b : bool then body else first_case cases otherwise
  end.
Definition parseStatement (functionBody : bool) : parser (option SequentialStatement) :=
  start ← current_span;
  label ←? parseLoopLabel;
  statement ←? first_case [
    (acceptWord "wait", parseWait start);
    (startsIgnoredDiagnostic tokens synthesis_, _e ←? parseIgnoredDiagnostic tokens; mret (Some (plain_statement SNull None [] [])));
    (acceptWord "exit", parseExit functionBody start);
    (acceptWord "null", parseNull);
    (acceptWord "case", parseCase functionBody label);
    (acceptWord "if", parseIfStatement_ functionBody);
    (acceptWord "while", parseWhile functionBody label);
    (acceptWord "for", parseFor functionBody label);
    (if functionBody then acceptWord "return" else mret false, parseReturn)] parseSimpleStatement;
  stop ← previous_span;
  mret (Some (over_ss_span (fun _ => join start stop) statement)).
Definition parseStatements_ (functionBody : bool) : parser (option (list SequentialStatement)) :=
  while_some (both (notM atEnd) (notM (words ["end"; "else"; "elsif"; "when"]%string)))
    (fun l => statement ←? parseStatement functionBody; mret (Some (push statement l))) [].
End again.

Fixpoint sequential_ (fuel : nat) : sequential :=
  match fuel with
  | O => mkSequential (fun _ => undef) (fun _ => undef)
  | S fuel => let again := sequential_ fuel in mkSequential (parseStatements_ again) (parseIfStatement_ again)
  end.
Definition parseStatements (functionBody : bool) : parser (option (list SequentialStatement)) := parse_statements (sequential_ rounds) functionBody.

(** * Subprograms *)

Definition function_declarations : FunctionDeclaration -> parser (option FunctionDeclaration) :=
  while_some (words ["variable"; "constant"; "file"]%string) (fun function =>
    file ← word "file";
    if file : bool then file ←? parseFileDeclaration tokens; mret (Some (over_fu_files (push file) function))
    else
      variable ← acceptWord "variable";
      if variable : bool then variable ←? parseObjectDeclaration tokens true; mret (Some (over_fu_variables (push variable) function))
      else advance ;; constant ←? parseConstantDeclaration tokens; mret (Some (over_fu_constants (push constant) function))).
Definition function_body (function : FunctionDeclaration) : parser (option FunctionDeclaration) :=
  function ←? function_declarations (over_fu_body (fun _ => true) function);
  demand expectWord "begin";
  statements ←? parseStatements true;
  demand expectWord "end";
  acceptWord (if fu_procedure function then "procedure" else "function") ;;
  mismatch ← closing_mismatch tokens (nameKey (fu_name function)) "function end name mismatch";
  if mismatch : bool then mret None else mret (Some (over_fu_statements (fun _ => statements) function)).
Definition parseParameters (procedure : bool) : parser (option (list GenericDeclaration)) :=
  b ← acceptSymbol "(";
  if b : bool then
    l ←? do_while_some (fun l => parameter ←? parseGenericDeclaration tokens procedure; mret (Some (push parameter l))) (acceptSymbol ";") [];
    demand expectSymbol ")"; mret (Some l)
  else mret (Some []).
Definition parseFunction : parser (option FunctionDeclaration) :=
  start ← current_span;
  impure ← acceptWord "impure";
  (if impure : bool then mret false else acceptWord "pure") ;;
  procedure ← acceptWord "procedure";
  demand (if procedure : bool then mret true else expectWord "function");
  name ←? parseName;
  parameters ←? parseParameters procedure;
  returnType ←? (if procedure : bool then mret (Some no_type) else demand expectWord "return"; result ←? parseName; mret (Some (mkType result None)));
  let function := mkFunction name parameters returnType [] [] [] default_span false (negb impure) procedure [] in
  b ← acceptWord "is";
  function ←? (if b : bool then function_body function else mret (Some function));
  demand expectSymbol ";";
  stop ← previous_span; mret (Some (over_fu_span (fun _ => join start stop) function)).
Definition startsFunction : parser bool := words ["function"; "pure"; "impure"; "procedure"]%string.

(** * Clocks *)

Record ClockPredicate := mkPredicate { cp_eventSignal : option Name; cp_levelSignal : option Name; cp_level : list ascii; cp_form : ClockEdgeForm }.
Definition clock_edge : parser (option ClockPredicate) :=
  falling ← acceptWord "falling_edge";
  (if falling : bool then mret tt else advance ;; mret tt) ;;
  demand expectSymbol "(";
  signal ←? parseName;
  demand expectSymbol ")";
  mret (Some (mkPredicate (Some signal) (Some signal) (chars (if falling : bool then "'0'" else "'1'")) (if falling : bool then FallingEdgeCall else RisingEdgeCall))).
(** The text of a character literal, or nothing with an error. *)
Definition parseLevel (message : string) : parser (option (list ascii)) :=
  t ← current tokens;
  match kind t with CharacterLiteral => advance ;; mret (Some (text t)) | _ => error message (span t) ;; mret None end.
Definition clock_operand : parser (option ClockPredicate) :=
  signal ←? parseName;
  b ← acceptSymbol "'";
  if b : bool then demand expectWord "event"; mret (Some (mkPredicate (Some signal) None [] EventAndLevel))
  else demand expectSymbol "="; level ←? parseLevel "expected a clock level character literal"; mret (Some (mkPredicate None (Some signal) level EventAndLevel)).
Definition is_some_name (o : option Name) : bool := match o with Some _ => true | None => false end.
Definition event_and_level (p : ClockPredicate) : bool := bool_decide (cp_form p = EventAndLevel).
Fixpoint parse_clock_predicate (fuel : nat) (operand : bool) : parser (option ClockPredicate) :=
  match fuel with
  | O => undef
  | S fuel =>
      parenthesis ← acceptSymbol "(";
      edge ← words ["rising_edge"; "falling_edge"]%string;
      predicate ←? (if parenthesis : bool then nested ←? parse_clock_predicate fuel false; demand expectSymbol ")"; mret (Some nested)
        else if edge : bool then clock_edge else clock_operand);
      conjunction ← (if negb operand && event_and_level predicate then acceptWord "and" else mret false);
      if conjunction : bool then
        rhs ←? parse_clock_predicate fuel true;
        if negb (event_and_level predicate) || negb (event_and_level rhs) || (is_some_name (cp_eventSignal predicate) && is_some_name (cp_eventSignal rhs)) ||
          (is_some_name (cp_levelSignal predicate) && is_some_name (cp_levelSignal rhs))
        then error_here tokens "expected one clock event and one clock level"
        else
          mret (Some (mkPredicate (match cp_eventSignal rhs with Some n => Some n | None => cp_eventSignal predicate end)
            (match cp_levelSignal rhs with Some n => Some n | None => cp_levelSignal predicate end)
            (match cp_levelSignal rhs with Some _ => cp_level rhs | None => cp_level predicate end) (cp_form predicate)))
      else mret (Some predicate)
  end.
Definition parseClockPredicate (operand : bool) : parser (option ClockPredicate) := parse_clock_predicate rounds operand.

(** The process is changed also when the guard is not accepted. *)
Definition parseClockGuard (process : ClockedProcess) : parser (ClockedProcess * bool) :=
  predicate ← parseClockPredicate false;
  match predicate with
  | None => mret (process, false)
  | Some p =>
      match cp_eventSignal p, cp_levelSignal p with
      | Some event, Some level =>
          let process := over_pr_eventSignal (fun _ => event) (over_pr_levelSignal (fun _ => level)
            (over_pr_level (fun _ => cp_level p) (over_pr_edgeForm (fun _ => cp_form p) process))) in
          b ← acceptWord "and";
          enable ← (if b : bool then e ← parseExpression 0; mret (Some e) else mret None);
          match enable with
          | Some None => mret (over_pr_clockEnable (fun _ => None) process, false)
          | Some (Some e) => ok ← expectWord "then"; mret (over_pr_clockEnable (fun _ => Some e) process, ok)
          | None => ok ← expectWord "then"; mret (process, ok)
          end
      | _, _ => sp ← current_span; error "expected rising_edge or a clock event and level guard" sp ;; mret (process, false)
      end
  end.

Definition parseProcessEnd (label : option Name) : parser bool :=
  b ← both (expectWord "end") (expectWord "process");
  if negb b then mret false
  else
    b ← isNameToken;
    if b : bool then
      closing ← parseName;
      match closing with
      | None => mret false
      | Some closing =>
          if match label with Some label => bool_decide (nameKey closing = nameKey label) | None => false end then expectSymbol ";"
          else error "process end label does not match its declaration" (n_span closing) ;; mret false
      end
    else expectSymbol ";".

(** * Processes *)

Definition process_type (t : type_declaration) (process : ClockedProcess) : ClockedProcess :=
  match t with
  | EnumerationType t => over_pr_enumerationTypes (push t) process
  | RecordType t => over_pr_recordTypes (push t) process
  | ArrayType t => over_pr_arrayTypes (push t) process
  end.
Definition parseProcessDeclarations : ClockedProcess -> parser (option ClockedProcess) :=
  while_some (both (notM atEnd) (notM (word "begin"))) (fun process => first_case [
    (acceptWord "variable", d ←? parseObjectDeclaration tokens true; mret (Some (over_pr_variables (push d) process)));
    (acceptWord "constant", d ←? parseConstantDeclaration tokens; mret (Some (over_pr_constants (push d) process)));
    (word "subtype", d ←? parseSubtypeDeclaration tokens; mret (Some (over_pr_subtypes (push d) process)));
    (startsFunction, d ←? parseFunction; mret (Some (over_pr_functions (push d) process)));
    (acceptWord "type", t ←? parseTypeDeclaration tokens; mret (Some (process_type t process)))]
    (error_here tokens "unsupported process declaration")).
(** Names with their fields, between commas. *)
Definition parseSensitivity : ClockedProcess -> parser (option ClockedProcess) :=
  do_while_some (fun process =>
    name ←? parseName;
    fields ←? while_some (acceptSymbol ".") (fun fields => field ←? parseName; mret (Some (push field fields))) [];
    mret (Some (over_pr_sensitivityFields (push fields) (over_pr_sensitivityList (push name) process)))) (acceptSymbol ",").

(** A signal compared with a level, and [then]. *)
Definition parseLevelTest (message : string) : parser (option (Name * list ascii)) :=
  signal ←? parseName; demand expectSymbol "=";
  level ←? parseLevel message;
  demand expectWord "then"; mret (Some (signal, level)).
Definition parseAssignments (until : list string) : parser (option (list Assignment)) :=
  do_while_some (fun l => assignment ←? parseAssignment true false false; mret (Some (push assignment l))) (both (notM atEnd) (notM (words until))) [].
(** What follows the first assignments: the reset and enable tests with their
    levels, the assignments of the reset and the others. *)
Definition simple_branches (control : option (Name * list ascii)) (assignments : list Assignment) :
    parser (option (option (Name * list ascii) * option (Name * list ascii) * list Assignment * list Assignment)) :=
  match control with
  | None => mret (Some (None, None, [], assignments))
  | Some control =>
      b ← acceptWord "elsif";
      if b : bool then
        enable ←? parseLevelTest "expected an enable level character literal";
        l ←? parseAssignments ["end"]%string;
        mret (Some (Some control, Some enable, assignments, l))
      else
        b ← acceptWord "else";
        if b : bool then l ←? parseAssignments ["end"]%string; mret (Some (Some control, None, assignments, l))
        else mret (Some (None, Some control, [], assignments))
  end.
Definition end_if : parser (option unit) := demand expectWord "end"; demand expectWord "if"; demand expectSymbol ";"; mret (Some tt).
Definition is_some_test (o : option (Name * list ascii)) : bool := match o with Some _ => true | None => false end.
Definition level_of (o : option (Name * list ascii)) : list ascii := match o with Some (_, level) => level | None => [] end.
Definition parseSimpleClockedProcess (label : option Name) : parser (option ClockedProcess) :=
  t ← advance;
  demand expectSymbol "("; sensitivity ←? parseName; demand expectSymbol ")";
  acceptWord "is" ;;
  variables ←? while_some (acceptWord "variable") (fun l => d ←? parseObjectDeclaration tokens false; mret (Some (push d l))) [];
  demand expectWord "begin"; demand expectWord "if";
  guard ← parseClockGuard no_process;
  let process := guard.1 in
  if negb guard.2 || match pr_clockEnable process with Some _ => true | None => false end then mret None
  else
    b ← acceptWord "if";
    control ←? (if b : bool then c ←? parseLevelTest "expected a control level character literal"; mret (Some (Some c)) else mret (Some None));
    assignments ←? parseAssignments ["end"; "else"; "elsif"; "when"]%string;
    r ←? simple_branches control assignments;
    let '(reset, enable, resetAssignments, assignments) := r in
    _e ←? (if is_some_test enable || is_some_test reset then end_if else mret (Some tt));
    _e ←? end_if;
    demand parseProcessEnd label;
    stop ← previous_span;
    mret (Some (mkProcess sensitivity (pr_eventSignal process) (pr_levelSignal process) (pr_level process) assignments variables (fst <$> enable) (level_of enable)
      (fst <$> reset) (level_of reset) resetAssignments (pr_edgeForm process) (join (span t) stop)
      [] [] [] false false false [] None [] None [] [] [] [] [])).

(** A reset that compares a signal with a level, either way round. *)
Definition reset_of (reset : Expression) : parser (option (Expression * Expression)) :=
  match e_left reset, e_right reset with
  | Some lhs, Some rhs =>
      let '(signal, level) := if is_kind ECharacterLiteral lhs then (rhs, lhs) else (lhs, rhs) in
      if negb (is_kind EName signal) || negb (is_kind ECharacterLiteral level) ||
        (negb (bool_decide (e_text level = chars "'0'")) && negb (bool_decide (e_text level = chars "'1'")))
      then error "asynchronous reset must compare a signal to '0' or '1'" (e_span reset) ;; mret None
      else mret (Some (signal, level))
  | _, _ => undef
  end.
(** What is before the clock guard that was not found where it was tried first. *)
Definition parseAsynchronousReset (process : ClockedProcess) : parser (option ClockedProcess) :=
  reset ← parseExpression 0;
  match (match reset with Some r => if is_kind EBinary r && bool_decide (e_text r = chars "=") then Some r else None | None => None end) with
  | None => error_here tokens "expected a clock guard or scalar reset equality"
  | Some reset =>
      r ←? reset_of reset;
      let signal := r.1 in
      let process := over_pr_asynchronousReset (fun _ => true) (over_pr_resetSignal (fun _ => Some (mkName (e_text signal) (e_canonical signal) (e_span signal)))
        (over_pr_resetLevel (fun _ => e_text r.2) process)) in
      demand expectWord "then";
      statements ←? parseStatements false;
      demand expectWord "elsif";
      guard ← parseClockGuard (over_pr_resetStatements (fun _ => statements) process);
      if guard.2 : bool then mret (Some guard.1) else mret None
  end.
(** The statements under an enable. *)
Definition enabled_statements (process : ClockedProcess) : ClockedProcess :=
  match pr_clockEnable process with
  | None => process
  | Some e =>
      over_pr_clockEnable (fun _ => None) (over_pr_statements (fun body =>
        [mkStatement SIf no_assignment (Some e) no_name no_range body [] (e_span e) None None [] []]) process)
  end.
Definition parseEdgeBody (process : ClockedProcess) : parser (option ClockedProcess) :=
  guardIndex ← gets index_; guardDiagnostics ← gets (fun s => length (diagnostics_ s));
  guard ← parseClockGuard process;
  process ←? (if guard.2 : bool then mret (Some guard.1) else rewind guardIndex guardDiagnostics ;; parseAsynchronousReset guard.1);
  match pr_sensitivityList process with
  | [] => undef
  | sensitivity :: _ =>
      let process := over_pr_sensitivity (fun _ => sensitivity) process in
      b ← word "end";
      if b : bool then error_here tokens "expected a statement inside the clock guard"
      else
        statements ←? parseStatements false;
        _e ←? end_if;
        mret (Some (enabled_statements (over_pr_statements (fun _ => statements) process)))
  end.
Definition parseEdgeProcess (label : option Name) : parser (option ClockedProcess) :=
  savedIndex ← gets index_; savedDiagnostics ← gets (fun s => length (diagnostics_ s));
  legacy ← parseSimpleClockedProcess label;
  match legacy with
  | Some process => mret (Some process)
  | None =>
      rewind savedIndex savedDiagnostics ;;
      t ← advance;
      demand expectSymbol "(";
      process ←? parseSensitivity no_process;
      demand expectSymbol ")";
      acceptWord "is" ;;
      process ←? parseProcessDeclarations process;
      demand expectWord "begin"; demand expectWord "if";
      process ←? parseEdgeBody process;
      process ←? while_some (both (notM atEnd) (notM (word "end")))
        (fun process => assignment ←? parseAssignment false false false; mret (Some (over_pr_assignments (push assignment) process))) process;
      demand parseProcessEnd label;
      stop ← previous_span; mret (Some (over_pr_span (fun _ => join (span t) stop) process))
  end.

(** Whether a clock edge is tested before the end of the process. *)
Definition token_at (i : nat) : outcome Token := match tokens !! i with Some t => Ret t | None => Undef end.
Fixpoint edge_ahead (l : list nat) : outcome bool :=
  match l with
  | [] => Ret false
  | i :: l =>
      t ← token_at i; before ← token_at (i - 1);
      if bool_decide (canonical t = chars "process") && bool_decide (canonical before = chars "end") then Ret false
      else if ((bool_decide (canonical t = chars "rising_edge") || bool_decide (canonical t = chars "falling_edge")) &&
               match tokens !! (i + 1) with Some t => bool_decide (text t = chars "(") | None => false end) ||
              (bool_decide (canonical t = chars "event") && bool_decide (text before = chars "'"))
      then Ret true
      else edge_ahead l
  end.
Definition process_sensitivity (process : ClockedProcess) : parser (option ClockedProcess) :=
  b ← acceptSymbol "(";
  if b : bool then
    every ← acceptWord "all";
    process ←? (if every : bool then mret (Some (over_pr_allSensitivity (fun _ => true) process)) else parseSensitivity process);
    demand expectSymbol ")"; mret (Some process)
  else mret (Some process).
(** [expectWord("begin") && parseStatements(...) && parseProcessEnd(label)]. *)
Definition process_body (label : option Name) : parser (option (list SequentialStatement)) :=
  demand expectWord "begin"; statements ←? parseStatements false; demand parseProcessEnd label; mret (Some statements).
Definition parseClockedProcess (label : option Name) : parser (option ClockedProcess) :=
  i ← gets index_;
  edge ← of_outcome (edge_ahead (seq (S i) (length tokens - S i)));
  if edge : bool then
    process ← parseEdgeProcess label; mret (over_pr_label (fun _ => label) <$> process)
  else
    t ← advance;
    process ←? process_sensitivity (over_pr_label (fun _ => label) (over_pr_combinational (fun _ => true) no_process));
    acceptWord "is" ;;
    process ←? parseProcessDeclarations process;
    previousWait ← gets allowWait_;
    modify (set_allowWait (negb (pr_allSensitivity process) && bool_decide (length (pr_sensitivityList process) = 0))) ;;
    body ← process_body label;
    modify (set_allowWait previousWait) ;;
    match body with
    | None => mret None
    | Some statements =>
        stop ← previous_span;
        mret (Some (over_pr_span (fun _ => join (span t) stop) (over_pr_statements (fun _ => statements) process)))
    end.
End statements.
