(* ===== verification/VhdlUnits.v ===== *)
(** Instantiations, generate statements and design units of the VHDL parser, and
    the parser itself (vhdl/src/Parser.cpp). *)
From S2P Require Import Prelude Store VhdlLexer VhdlSyntax VhdlParser VhdlDeclarations VhdlStatements.
Local Open Scope nat_scope.

Section units.
Context (tokens : list Token) (synthesis_ : bool).
#[local] Notation parseName := (parseName tokens).
#[local] Notation parseExpression := (parseExpression tokens).
#[local] Notation acceptWord := (acceptWord tokens).
#[local] Notation acceptSymbol := (acceptSymbol tokens).
#[local] Notation expectWord := (expectWord tokens).
#[local] Notation expectSymbol := (expectSymbol tokens).
#[local] Notation current_span := (current_span tokens).
#[local] Notation previous_span := (previous_span tokens).
#[local] Notation word := (word tokens).
#[local] Notation words := (words tokens).
#[local] Notation symbol := (symbol tokens).
#[local] Notation advance := (advance tokens).
#[local] Notation atEnd := (atEnd tokens).
#[local] Notation while_some := (while_some tokens).
#[local] Notation do_while_some := (do_while_some tokens).
#[local] Notation rounds := (rounds tokens).
#[local] Notation parseFunction := (parseFunction tokens synthesis_).
#[local] Notation startsFunction := (startsFunction tokens).

(** * Instantiations *)

(** Whether an arrow follows at the depth of the name. *)
Fixpoint named_ahead (depth : nat) (l : list Token) : bool :=
  match l with
  | [] => false
  | t :: l =>
      let has value := bool_decide (text t = chars value) in
      if has "=>" && (depth =? 0) then true
      else if has "(" then named_ahead (S depth) l
      else if has ")" then match depth with O => false | S depth => named_ahead depth l end
      else if (has "," && (depth =? 0)) || has ";" then false
      else named_ahead depth l
  end.
Definition startsNamedPortAssociation : parser bool :=
  both (isNameToken tokens) (i ← gets index_; mret (named_ahead 0 (drop (S i) tokens))).

Record PortAssociation := mkPortAssociation {
  pa_formal : option Name; pa_formalIndices : list Expression; pa_open : bool; pa_literal : option Expression; pa_indices : list Expression; pa_actual : Name }.
(** The prefix of the selections and indices of an actual, and whether there is
    an index. *)
Fixpoint port_prefix (e : Expression) : outcome (Expression * bool) :=
  if is_kind ESelected e || is_kind EIndexed e then
    match e_left e with None => Undef | Some l => '(p, indexed) ← port_prefix l; Ret (p, indexed || is_kind EIndexed e) end
  else Ret (e, false).
Definition parseFormal : parser (option (option Name * list Expression)) :=
  named ← startsNamedPortAssociation;
  if named : bool then
    formal ←? parseName; indices ←? parsePortSelection tokens; demand expectSymbol "=>"; mret (Some (Some formal, indices))
  else mret (Some (None, [])).
Definition parseActual (formal : option Name * list Expression) : parser (option PortAssociation) :=
  opens ← acceptWord "open";
  if opens : bool then sp ← previous_span; mret (Some (mkPortAssociation formal.1 formal.2 true None [] (mkName [] [] sp)))
  else
    saved ← gets index_;
    value ←? parseExpression 0;
    p ← of_outcome (port_prefix value);
    if negb (is_kind EName p.1) then mret (Some (mkPortAssociation formal.1 formal.2 false (Some value) [] no_name))
    else
      modify (set_index saved) ;;
      actual ←? parseName;
      indices ←? parsePortSelection tokens;
      mret (Some (mkPortAssociation formal.1 formal.2 false (if (p.2 : bool) then Some value else None) indices actual)).
Definition parsePortMap : parser (option (list PortAssociation)) :=
  b ← symbol ")";
  if b : bool then mret (Some [])
  else do_while_some (fun l => formal ←? parseFormal; actual ←? parseActual formal; mret (Some (push actual l))) (acceptSymbol ",") [].

Definition parseGenericAssociation : parser (option GenericAssociation) :=
  start ← current_span;
  named ← both (isNameToken tokens) (t ← look tokens 1; mret (is_symbol "=>" t));
  formal ← (if named : bool then formal ← parseName; advance ;; mret formal else mret None);
  actual ←? parseExpression 0;
  mret (Some (mkGenericAssociation formal (Some actual) (join start (e_span actual)))).
Definition parseGenericMap : parser (option (list GenericAssociation)) :=
  b ← acceptWord "generic";
  if b : bool then
    demand expectWord "map"; demand expectSymbol "(";
    b ← symbol ")";
    l ←? (if b : bool then mret (Some []) else do_while_some (fun l => a ←? parseGenericAssociation; mret (Some (push a l))) (acceptSymbol ",") []);
    demand expectSymbol ")"; mret (Some l)
  else mret (Some []).
Definition parseEntityInstantiation : parser (option EntityInstantiation) :=
  start ← current_span;
  label ←? parseName; demand expectSymbol ":";
  direct ← acceptWord "entity";
  library ←? (if direct : bool then library ←? parseName; demand expectSymbol "."; mret (Some library) else mret (Some (mkName (chars "work") (chars "work") start)));
  entity ←? parseName;
  b ← acceptSymbol "(";
  architecture ←? (if b : bool then a ←? parseName; demand expectSymbol ")"; mret (Some (Some a)) else mret (Some None));
  generics ←? parseGenericMap;
  demand expectWord "port"; demand expectWord "map"; demand expectSymbol "(";
  l ←? parsePortMap;
  demand expectSymbol ")"; demand expectSymbol ";";
  stop ← previous_span;
  mret (Some (mkInstantiation label library entity architecture generics (pa_actual <$> l) (join start stop) (pa_formal <$> l) (negb direct)
    (pa_indices <$> l) (pa_literal <$> l) (pa_formalIndices <$> l) (pa_open <$> l))).

(** * Generate statements *)

Definition startsGenerate : parser bool :=
  either (words ["for"; "if"]%string) (both (isLabel tokens) (either (look_canonical tokens 2 "for") (look_canonical tokens 2 "if"))).
(** A declaration that is not supported here. *)
Fixpoint reject_declarations (place : string) (l : list string) : parser (option unit) :=
  match l with
  | [] => mret (Some tt)
  | declaration :: l =>
      b ← word declaration;
      if b : bool then error_here tokens (place +:+ declaration +:+ " declarations are not supported") else reject_declarations place l
  end.
Definition generate_type (t : type_declaration) (generate : GenerateStatement) : GenerateStatement :=
  match t with
  | EnumerationType t => over_gs_enumerationTypes (push t) generate
  | RecordType t => over_gs_recordTypes (push t) generate
  | ArrayType t => over_gs_arrayTypes (push t) generate
  end.
Definition generate_declaration_words : list string :=
  ["signal"; "constant"; "type"; "subtype"; "attribute"; "function"; "pure"; "impure"; "procedure"]%string.
Definition parseGenerateDeclarations : GenerateStatement -> parser (option GenerateStatement) :=
  while_some (words generate_declaration_words) (fun generate => first_case [
    (startsFunction, d ←? parseFunction; mret (Some (over_gs_functions (push d) generate)));
    (word "attribute", _e ←? parseSynthesisAttribute tokens synthesis_; mret (Some generate));
    (word "subtype", d ←? parseSubtypeDeclaration tokens; mret (Some (over_gs_subtypes (push d) generate)));
    (acceptWord "signal", d ←? parseObjectDeclaration tokens true; mret (Some (over_gs_signals (push d) generate)));
    (acceptWord "constant", d ←? parseConstantDeclaration tokens; mret (Some (over_gs_constants (push d) generate)))]
    (advance ;; t ←? parseTypeDeclaration tokens; mret (Some (generate_type t generate)))).
(** The label of a process, taken with its colon. *)
Definition parseProcessLabel : parser (option Name) :=
  b ← both (isLabel tokens) (look_canonical tokens 2 "process");
  if b : bool then label ← parseName; advance ;; mret label else mret None.
Section again.
Context (parseGenerate : parser (option GenerateStatement)).

Definition parseConcurrent (generate : GenerateStatement) : parser (option GenerateStatement) :=
  label ← parseProcessLabel;
  first_case [
    (startsIgnoredDiagnostic tokens synthesis_, _e ←? parseIgnoredDiagnostic tokens; mret (Some generate));
    (startsGenerate, child ←? parseGenerate; mret (Some (over_gs_generates (push child) generate)));
    (word "process", p ←? parseClockedProcess tokens synthesis_ label; mret (Some (over_gs_processes (push p) generate)));
    (isLabel tokens, i ←? parseEntityInstantiation; mret (Some (over_gs_instantiations (push i) generate)))]
    (a ←? parseAssignment tokens false true false; mret (Some (over_gs_assignments (push a) generate))).
Definition parseGenerateBody (generate : GenerateStatement) : parser (option GenerateStatement) :=
  declarations ← words generate_declaration_words;
  generate ←? parseGenerateDeclarations generate;
  _e ←? reject_declarations "generate-local " ["subtype"; "function"; "procedure"; "component"; "attribute"; "shared"; "file"; "alias"; "use"]%string;
  demand (if declarations : bool then expectWord "begin" else acceptWord "begin" ;; mret true);
  while_some (both (notM atEnd) (notM (words ["end"; "elsif"; "else"]%string))) parseConcurrent generate.

(** After the condition, or from [else]. *)
Definition parseBranch (otherwise : bool) : parser (option GenerateStatement) :=
  condition ←? (if otherwise : bool then mret (Some None) else advance ;; e ←? parseExpression 0; mret (Some (Some e)));
  demand expectWord "generate";
  parseGenerateBody (over_gs_conditional (fun _ => true) (over_gs_condition (fun _ => condition) no_generate)).
Definition parseBranches (generate : GenerateStatement) : parser (option GenerateStatement) :=
  iterate rounds (fun generate =>
    b ← words ["elsif"; "else"]%string;
    if negb b then mret (inr (Some generate))
    else
      otherwise ← acceptWord "else";
      branch ← parseBranch otherwise;
      match branch with
      | None => mret (inr None)
      | Some branch =>
          let generate := over_gs_alternatives (push branch) generate in
          mret (if otherwise : bool then inr (Some generate) else inl generate)
      end) generate.
Definition generate_scheme (generate : GenerateStatement) : parser (option GenerateStatement) :=
  b ← acceptWord "if";
  if b : bool then
    condition ←? parseExpression 0;
    mret (Some (over_gs_conditional (fun _ => true) (over_gs_condition (fun _ => Some condition) generate)))
  else
    demand expectWord "for"; iterator ←? parseName; demand expectWord "in";
    range ←? parseDiscreteRange tokens;
    mret (Some (over_gs_iterator (fun _ => iterator) (over_gs_range (fun _ => range) generate))).
Definition generate_label : parser GenerateStatement :=
  b ← isLabel tokens;
  if b : bool then
    label ← parseName;
    match label with None => undef | Some label => advance ;; mret (over_gs_label (fun _ => label) no_generate) end
  else mret no_generate.
Definition parseGenerate_ : parser (option GenerateStatement) :=
  generate ← generate_label;
  generate ←? generate_scheme generate;
  demand expectWord "generate";
  generate ←? parseGenerateBody generate;
  generate ←? (if gs_conditional generate then parseBranches generate else mret (Some generate));
  demand expectWord "end"; demand expectWord "generate";
  mismatch ← closing_mismatch tokens (nameKey (gs_label generate)) "generate end name mismatch";
  if mismatch : bool then mret None else demand expectSymbol ";"; mret (Some generate).
End again.
Fixpoint parse_generate (fuel : nat) : parser (option GenerateStatement) :=
  match fuel with O => undef | S fuel => parseGenerate_ (parse_generate fuel) end.
Definition parseGenerate : parser (option GenerateStatement) := parse_generate rounds.

(** * Architectures *)

Definition architecture_type (t : type_declaration) (a : ArchitectureBody) : ArchitectureBody :=
  match t with
  | EnumerationType t => over_ab_enumerationTypes (push t) a
  | RecordType t => over_ab_recordTypes (push t) a
  | ArrayType t => over_ab_arrayTypes (push t) a
  end.
Definition parseArchitectureDeclarations : ArchitectureBody -> parser (option ArchitectureBody) :=
  while_some (words ["signal"; "type"; "component"; "constant"; "subtype"; "attribute"; "function"; "pure"; "impure"; "procedure"; "alias"]%string)
    (fun a => first_case [
      (word "alias", d ←? parseAlias tokens; mret (Some (over_ab_aliases (push d) a)));
      (word "attribute", _e ←? parseSynthesisAttribute tokens synthesis_; mret (Some a));
      (word "subtype", d ←? parseSubtypeDeclaration tokens; mret (Some (over_ab_subtypes (push d) a)));
      (startsFunction, d ←? parseFunction; mret (Some (over_ab_functions (push d) a)));
      (acceptWord "signal", d ←? parseObjectDeclaration tokens true; mret (Some (over_ab_signals (push d) a)));
      (acceptWord "constant", d ←? parseConstantDeclaration tokens; mret (Some (over_ab_constants (push d) a)));
      (word "component", d ←? parseEntity tokens true; mret (Some (over_ab_components (push d) a)))]
      (advance ;; t ←? parseTypeDeclaration tokens; mret (Some (architecture_type t a)))).
(** [Some] of the new architecture, or the old one after skipping to a place to
    go on from. *)
Definition or_synchronize {A} (a : ArchitectureBody) (f : A -> ArchitectureBody) (m : parser (option A)) : parser (option ArchitectureBody) :=
  r ← m; match r with Some x => mret (Some (f x)) | None => synchronize tokens "end" ;; mret (Some a) end.
(** A statement, and whether the end of the turn is skipped. *)
Definition architecture_statement (a : ArchitectureBody) : parser (option (ArchitectureBody * bool)) :=
  label ← parseProcessLabel;
  ignored ← startsIgnoredDiagnostic tokens synthesis_;
  if ignored : bool then _e ←? parseIgnoredDiagnostic tokens; mret (Some (a, true))
  else
    a ←? first_case [
      (startsGenerate, g ←? parseGenerate; mret (Some (over_ab_generates (push g) a)));
      (isLabel tokens, or_synchronize a (fun i => over_ab_instantiations (push i) a) parseEntityInstantiation);
      (word "process", or_synchronize a (fun p => over_ab_processes (push p) a) (parseClockedProcess tokens synthesis_ label))]
      (or_synchronize a (fun x => over_ab_assignments (push x) a) (parseAssignment tokens false true false));
    mret (Some (a, false)).
Definition parseArchitectureStatements : ArchitectureBody -> parser (option ArchitectureBody) :=
  while_some (both (notM atEnd) (notM (word "end"))) (fun a =>
    before ← current_span;
    r ←? architecture_statement a;
    if r.2 : bool then mret (Some r.1)
    else
      stuck ← both (both (notM atEnd) (notM (word "end"))) (now ← current_span; mret (offset (span_start now) =? offset (span_start before)));
      (if stuck : bool then advance ;; mret tt else mret tt) ;; mret (Some r.1)).
Definition parseArchitecture : parser (option ArchitectureBody) :=
  t ← advance;
  name ←? parseName; demand expectWord "of";
  entity ←? parseName; demand expectWord "is";
  a ←? parseArchitectureDeclarations (mkArchitecture name entity [] [] [] [] [] (span t) no_context [] [] [] [] [] [] [] []);
  _e ←? reject_declarations "architecture "
    ["subtype"; "variable"; "shared"; "file"; "alias"; "attribute"; "procedure"; "package"; "use"; "group"; "disconnect"; "configuration"]%string;
  demand expectWord "begin";
  a ←? parseArchitectureStatements a;
  demand expectWord "end";
  acceptWord "architecture" ;;
  check_closing tokens (nameKey (ab_name a)) "architecture end name does not match its declaration" ;;
  demand expectSymbol ";";
  stop ← previous_span; mret (Some (over_ab_span (fun _ => join (span t) stop) a)).

(** * Packages *)

Definition package_type (t : type_declaration) (p : PackageDeclaration) : PackageDeclaration :=
  match t with
  | EnumerationType t => over_pk_enumerationTypes (push t) p
  | RecordType t => over_pk_recordTypes (push t) p
  | ArrayType t => over_pk_arrayTypes (push t) p
  end.
Definition unless_body (p : PackageDeclaration) (test : parser bool) : parser bool := if pk_body p then mret false else test.
Definition parsePackageDeclarations : PackageDeclaration -> parser (option PackageDeclaration) :=
  while_some (both (notM atEnd) (notM (word "end"))) (fun p => first_case [
    (word "subtype", d ←? parseSubtypeDeclaration tokens; mret (Some (over_pk_subtypes (push d) p)));
    (unless_body p (acceptWord "type"), t ←? parseTypeDeclaration tokens; mret (Some (package_type t p)));
    (unless_body p (acceptWord "constant"), d ←? parseConstantDeclaration tokens; mret (Some (over_pk_constants (push d) p)));
    (unless_body p (word "component"), d ←? parseEntity tokens true; mret (Some (over_pk_components (push d) p)));
    (startsFunction,
      function ←? parseFunction;
      if pk_body p && negb (fu_body function) then error "package body requires a function body" (fu_span function) ;; mret None
      else mret (Some (over_pk_functions (push function) p)))]
    (error_here tokens "unsupported package declaration")).
Definition parsePackage : parser (option PackageDeclaration) :=
  advance ;;
  body ← acceptWord "body";
  name ←? parseName; demand expectWord "is";
  p ←? parsePackageDeclarations (mkPackage name no_context [] [] [] body [] [] [] []);
  demand expectWord "end";
  package ← acceptWord "package";
  (if package && body then expectWord "body" else mret true) ;;
  check_closing tokens (nameKey name) "package end name mismatch" ;;
  demand expectSymbol ";"; mret (Some p).

(** * Design files *)

Definition parseContext : parser ContextClause :=
  iterate rounds (fun context =>
    b ← words ["library"; "use"]%string;
    if negb b then mret (inr context)
    else
      library ← word "library";
      if library : bool then
        clause ← parseLibraryClause tokens;
        mret (inl (match clause with Some c => over_cx_libraries (push c) context | None => context end))
      else clauses ← parseUseClause tokens; mret (inl (over_cx_uses (fun l => l ++ clauses) context))) no_context.
Definition parseUnit (context : ContextClause) : parser unit := first_case [
  (word "entity",
    e ← parseEntity tokens false;
    match e with Some e => modify (over_syntax (over_df_entities (push (over_ed_context (fun _ => context) e)))) | None => mret tt end);
  (word "architecture",
    a ← parseArchitecture;
    match a with Some a => modify (over_syntax (over_df_architectures (push (over_ab_context (fun _ => context) a)))) | None => mret tt end);
  (word "package",
    p ← parsePackage;
    match p with Some p => modify (over_syntax (over_df_packages (push (over_pk_context (fun _ => context) p)))) | None => mret tt end)]
  (sp ← current_span; error "expected an entity or architecture design unit" sp ;; advance ;; mret tt).
Definition run_turn : parser (option unit) :=
  stop ← atEnd;
  if stop : bool then mret (Some tt)
  else
    before ← current_span;
    context ← parseContext;
    parseUnit context ;;
    stuck ← both (notM atEnd) (now ← current_span; mret (offset (span_start now) =? offset (span_start before)));
    (if stuck : bool then advance ;; mret tt else mret tt) ;; mret None.
Definition parser_run : parser ParseResult :=
  loop rounds run_turn ;; s ← gets (fun s => s); mret (mkParseResult (syntax_ s) (diagnostics_ s) (warnings_ s)).
End units.

Definition start_parser (d : list LexDiagnostic) : ParserState :=
  mkParser 0 false (mkFileTree [] [] []) ((fun d => mkParseDiagnostic (message d) (d_span d)) <$> d) [].
Definition parser_parse (source : list ascii) (synthesis : bool) : outcome ParseResult :=
  lexed ← lexer_scan source synthesis;
  (parser_run (tokens lexed) synthesis (start_parser (diagnostics lexed))).1.
