(* ===== verification/VhdlParserSteps.v ===== *)
(** Reasoning on runs of the VHDL parser: what a function that takes tokens
    leaves, a tactic that goes through its body, and the expressions. *)
From S2P Require Import Prelude Store VhdlLexer VhdlSyntax VhdlParser.
Local Open Scope nat_scope.

Notation run m s Q := (wp m s Q (fun _ _ => False)).
Lemma run_mono {A} (m : parser A) s (Q Q' : A -> ParserState -> Prop) : run m s Q -> (forall a s', Q a s' -> Q' a s') -> run m s Q'.
Proof. intros H HQ. by eapply wp_mono. Qed.

(** * What a run leaves *)

Section steps.
Context (tokens : list Token).

(** The last token is the end of the file, and the parser is after the first. *)
Definition ends_with_file : Prop := exists ts t, tokens = ts ++ [t] /\ is_end t = true.
Definition ready (s : ParserState) : Prop := 0 < index_ s < length tokens.
Definition left_over (s : ParserState) : nat := length tokens - index_ s.
(** Tokens are taken and diagnostics are added. *)
Definition grows (s s' : ParserState) : Prop :=
  index_ s <= index_ s' < length tokens /\ allowWait_ s' = allowWait_ s /\ syntax_ s' = syntax_ s /\ diagnostics_ s `prefix_of` diagnostics_ s'.
Definition complains (s s' : ParserState) : Prop := length (diagnostics_ s) < length (diagnostics_ s').
(** Something is returned after [k] tokens at least, or there is an error. *)
Definition parsed {A} (k : nat) (Q : A -> Prop) (s : ParserState) (r : option A) (s' : ParserState) : Prop :=
  grows s s' /\ match r with Some a => index_ s + k <= index_ s' /\ Q a | None => complains s s' end.
Definition any {A} (_ : A) : Prop := True.
(** A test that takes a token when it holds, and that complains when it must hold. *)
Definition accepts (s : ParserState) (b : bool) (s' : ParserState) : Prop := grows s s' /\ if b then index_ s < index_ s' else s' = s.
Definition expects (s : ParserState) (b : bool) (s' : ParserState) : Prop := grows s s' /\ if b then index_ s < index_ s' else complains s s'.
(** A test that holds only before the end. *)
Definition not_end (s : ParserState) : Prop := exists t, tokens !! index_ s = Some t /\ is_end t = false.
Definition looks (s : ParserState) (b : bool) (s' : ParserState) : Prop := s' = s /\ (b = true -> not_end s).

Lemma grows_refl s : index_ s < length tokens -> grows s s.
Proof. unfold grows. split; [lia|split; [done|split; [done|reflexivity]]]. Qed.
Lemma grows_trans s1 s2 s3 : grows s1 s2 -> grows s2 s3 -> grows s1 s3.
Proof. intros (H1 & A1 & Y1 & P1) (H2 & A2 & Y2 & P2). unfold grows. split; [lia|split; [congruence|split; [congruence|by etrans]]]. Qed.
Lemma grows_facts s s' : grows s s' ->
  index_ s <= index_ s' /\ index_ s' < length tokens /\ allowWait_ s' = allowWait_ s /\ syntax_ s' = syntax_ s /\ diagnostics_ s `prefix_of` diagnostics_ s' /\
  length (diagnostics_ s) <= length (diagnostics_ s').
Proof. intros ([H1 H2] & A & Y & P). repeat (split; [done|]); by apply prefix_length. Qed.
End steps.

#[export] Hint Unfold ready left_over complains : vhdl_facts.

(** The facts of a hypothesis about a run. *)
Ltac facts H :=
  lazymatch type of H with
  | grows _ _ _ => let H1 := fresh "Hi" in let H2 := fresh "Hb" in let H3 := fresh "Ha" in let H4 := fresh "Hp" in let H5 := fresh "Hd" in
      let H6 := fresh "Hy" in apply grows_facts in H; destruct H as (H1 & H2 & H3 & H6 & H4 & H5)
  | _ /\ _ => let H1 := fresh "H" in let H2 := fresh "H" in destruct H as [H1 H2]; facts H1; facts H2
  | parsed _ _ _ _ _ _ => unfold parsed in H; facts H
  | accepts _ _ _ _ => unfold accepts in H; facts H
  | expects _ _ _ _ => unfold expects in H; facts H
  | looks _ _ _ _ => unfold looks in H; facts H
  | complains _ _ => unfold complains in H
  | ready _ _ => unfold ready in H
  | ?x = ?y => try subst x
  | match _ with _ => _ end => idtac
  | _ => idtac
  end.
(** Chains of prefixes. *)
Ltac prefixes :=
  repeat match goal with
  | |- ?a `prefix_of` ?a => reflexivity
  | H : ?a `prefix_of` ?b |- ?a `prefix_of` ?c => etransitivity; [exact H|]; clear H
  end.
Ltac numbers := unfold ready, left_over, complains in *; cbn [index_ allowWait_ syntax_ diagnostics_ set_index set_diagnostics add_warning over_syntax set_allowWait] in *; lia.
Ltac tidy :=
  repeat match goal with
  | H : false = true |- _ => discriminate H
  | H : true = false |- _ => discriminate H
  | H : _ /\ _ |- _ => facts H
  | H : complains _ _ |- _ => unfold complains in H
  | H : False |- _ => destruct H
  | H : Some _ = None |- _ => discriminate H
  | H : (if ?b then _ else None) = Some _ |- _ => is_var b; destruct b; [|discriminate H]
  | H : None = Some _ |- _ => discriminate H
  | H : Some _ = Some _ |- _ => injection H as H; subst
  | H : negb _ = true |- _ => apply negb_true_iff in H
  | H : negb _ = false |- _ => apply negb_false_iff in H
  | H : @eq ParserState ?x _ |- _ => is_var x; subst x
  | H : ?x = true |- _ => is_var x; subst x
  | H : ?x = Some _ |- _ => is_var x; subst x
  | H : ?x = None |- _ => is_var x; subst x
  | H : ?x = false |- _ => is_var x; subst x
  | H : if true then _ else _ |- _ => cbn iota in H; facts H
  | H : if false then _ else _ |- _ => cbn iota in H; facts H
  | H : match Some _ with _ => _ end |- _ => cbn iota in H; facts H
  | H : match None with _ => _ end |- _ => cbn iota in H; facts H
  end.

Ltac grow := unfold grows; cbn [index_ allowWait_ syntax_ diagnostics_ set_index set_diagnostics add_warning over_syntax set_allowWait] in *; split; [numbers|split; [congruence|split; [congruence|prefixes]]].
Ltac finish_run :=
  cbn [fst snd];
  lazymatch goal with
  | |- grows _ _ _ => grow
  | |- parsed _ _ _ _ (_ <$> ?r) _ => is_var r; destruct r; cbn [fmap option_fmap option_map]; tidy; finish_run
  | |- parsed _ _ _ _ ?r _ => try (is_var r; destruct r; tidy); unfold parsed; finish_run
  | |- accepts _ _ ?r _ => try (is_var r; destruct r; tidy); unfold accepts; finish_run
  | |- expects _ _ ?r _ => try (is_var r; destruct r; tidy); unfold expects; finish_run
  | |- looks _ _ _ _ => unfold looks; finish_run
  | |- _ /\ _ => split; finish_run
  | |- complains _ _ => numbers
  | |- any _ => exact I
  | |- _ = _ -> _ => let H := fresh "H" in intros H; tidy; try finish_run
  | |- match ?r with _ => _ end => is_var r; destruct r; tidy; finish_run
  | |- if ?r then _ else _ => is_var r; destruct r; tidy; finish_run
  | |- ready _ _ => numbers
  | |- _ <= _ => numbers
  | |- _ < _ => numbers
  | |- _ => try done
  end.
Create HintDb vhdl.
#[export] Hint Extern 1 (ready _ _) => numbers : vhdl.
#[export] Hint Extern 1 (_ < _) => numbers : vhdl.
#[export] Hint Extern 1 (_ <= _) => numbers : vhdl.
#[export] Hint Extern 2 (not_end _ _) => (match goal with H : _ = _ -> not_end _ _ |- _ => apply H; done end) : vhdl.

(** One step of a body. *)
Ltac vc_step :=
  lazymatch goal with
  | |- wp (mret _) _ _ _ => rewrite wp_ret
  | |- wp (gets _) _ _ _ => rewrite wp_gets
  | |- wp (modify _) _ _ _ => rewrite wp_modify
  | |- wp (_ ≫= _) _ _ _ => rewrite wp_bind
  | |- wp (if ?b then _ else _) _ _ _ => let E := fresh "E" in destruct b eqn:E
  | |- wp (match ?x with _ => _ end) _ _ _ => let E := fresh "E" in destruct x eqn:E
  | |- if ?b then _ else _ => let E := fresh "E" in destruct b eqn:E
  | |- match ?x with _ => _ end => let E := fresh "E" in destruct x eqn:E
  | |- wp _ _ _ _ => eapply run_mono; [solve [eauto 4 with vhdl]|let H := fresh "H" in cbn beta; intros ?r ?s' H; facts H]
  end.
Ltac vc_simple := repeat (vc_step; tidy).

(** * Tokens *)

Section tokens.
Context (tokens : list Token) (Hend : ends_with_file tokens).
#[local] Notation ready := (ready tokens).
#[local] Notation grows := (grows tokens).
#[local] Notation parsed := (parsed tokens).
#[local] Notation looks := (looks tokens).
#[local] Notation not_end := (not_end tokens).

Lemma current_ok s : index_ s < length tokens -> run (current tokens) s (fun t s' => s' = s /\ tokens !! index_ s = Some t).
Proof. intros H. destruct (lookup_lt_is_Some_2 tokens _ H) as [t Ht]. unfold current. by apply (wp_deref _ _ _ _ t). Qed.
Lemma look_ok s d : index_ s < length tokens -> run (look tokens d) s (fun _ s' => s' = s).
Proof.
  intros H. unfold look. set (i := if index_ s + d <? length tokens then index_ s + d else length tokens - 1).
  assert (Hi : i < length tokens) by (unfold i; destruct (Nat.ltb_spec (index_ s + d) (length tokens)); lia).
  destruct (lookup_lt_is_Some_2 tokens i Hi) as [t Ht]. by apply (wp_deref _ _ _ _ t).
Qed.
Lemma previous_ok s : ready s -> run (previous tokens) s (fun _ s' => s' = s).
Proof.
  intros [H1 H2]. unfold previous. destruct (lookup_lt_is_Some_2 tokens (index_ s - 1)) as [t Ht]; [lia|]. apply (wp_deref _ _ _ _ t); [|done].
  destruct (index_ s) as [|i]; [lia|]. by rewrite Nat.sub_1_r in Ht.
Qed.
Lemma not_end_next s : not_end s -> S (index_ s) < length tokens.
Proof.
  intros (t & Ht & Hn). destruct Hend as (ts & e & -> & He). rewrite length_app. cbn.
  destruct (decide (index_ s < length ts)) as [|Hge]; [lia|]. exfalso. apply lookup_app_Some in Ht as [Ht|[Hge' Ht]].
  - apply lookup_lt_Some in Ht. lia.
  - apply list_lookup_singleton_Some in Ht as [_ <-]. congruence.
Qed.

Lemma not_end_of s t : tokens !! index_ s = Some t -> is_end t = false -> not_end s.
Proof. by exists t. Qed.
(** What moves the parser by a token. *)
Lemma grows_next s : not_end s -> grows s (set_index (S (index_ s)) s) /\ index_ s < index_ (set_index (S (index_ s)) s).
Proof. intros H. apply not_end_next in H. split; [grow|numbers]. Qed.

Lemma advance_ok s : index_ s < length tokens -> not_end s -> run (advance tokens) s (fun _ s' => grows s s' /\ index_ s < index_ s').
Proof.
  intros Hs Hn. unfold advance. rewrite wp_bind. eapply run_mono; [by apply current_ok|]. cbn beta. intros t s' [-> Ht].
  destruct Hn as (t' & Ht' & He). rewrite Ht in Ht'. injection Ht' as <-. rewrite He, wp_bind, wp_modify, wp_ret. apply grows_next. by exists t.
Qed.
Lemma advance_weak s : index_ s < length tokens -> run (advance tokens) s (fun _ s' => grows s s').
Proof.
  intros Hs. unfold advance. rewrite wp_bind. eapply run_mono; [by apply current_ok|]. cbn beta. intros t s' [-> Ht]. rewrite wp_bind.
  destruct (is_end t) eqn:He; [rewrite !wp_ret; by apply grows_refl|]. rewrite wp_modify, wp_ret. apply grows_next. by exists t.
Qed.
Lemma test_ok (p : Token -> bool) s : index_ s < length tokens -> (forall t, p t = true -> is_end t = false) ->
  run (t ← current tokens; mret (p t)) s (looks s).
Proof.
  intros Hs Hp. rewrite wp_bind. eapply run_mono; [by apply current_ok|]. cbn beta. intros t s' [-> Ht]. rewrite wp_ret. split; [done|].
  intros H. exists t. split; [done|by apply Hp].
Qed.
Lemma is_word_end v t : is_word v t = true -> is_end t = false.
Proof. unfold is_word, is_end. by destruct (kind t). Qed.
Lemma is_symbol_end v t : is_symbol v t = true -> is_end t = false.
Proof. unfold is_symbol, is_end. by destruct (kind t). Qed.
Lemma is_name_end t : is_name_token t = true -> is_end t = false.
Proof. unfold is_name_token, is_end. by destruct (kind t). Qed.
Lemma words_end l t : existsb (fun v => is_word v t) l = true -> is_end t = false.
Proof. intros (v & _ & H)%existsb_exists. by apply is_word_end in H. Qed.
Lemma word_ok v s : index_ s < length tokens -> run (word tokens v) s (looks s).
Proof. intros Hs. apply test_ok; [done|]. apply is_word_end. Qed.
Lemma words_ok l s : index_ s < length tokens -> run (words tokens l) s (looks s).
Proof. intros Hs. apply test_ok; [done|]. apply words_end. Qed.
Lemma symbol_ok v s : index_ s < length tokens -> run (symbol tokens v) s (looks s).
Proof. intros Hs. apply test_ok; [done|]. apply is_symbol_end. Qed.
Lemma isNameToken_ok s : index_ s < length tokens -> run (isNameToken tokens) s (looks s).
Proof. intros Hs. apply test_ok; [done|]. apply is_name_end. Qed.
Lemma atEnd_ok s : index_ s < length tokens -> run (atEnd tokens) s (fun b s' => s' = s /\ (b = false -> not_end s)).
Proof.
  intros Hs. unfold atEnd. rewrite wp_bind. eapply run_mono; [by apply current_ok|]. cbn beta. intros t s' [-> Ht]. rewrite wp_ret. split; [done|].
  intros H. by exists t.
Qed.
Lemma look_test_ok (p : Token -> bool) d s : index_ s < length tokens -> run (t ← look tokens d; mret (p t)) s (fun _ s' => s' = s).
Proof. intros Hs. rewrite wp_bind. eapply run_mono; [by apply look_ok|]. cbn beta. by intros t s' ->. Qed.
Lemma look_text_ok d v s : index_ s < length tokens -> run (look_text tokens d v) s (fun _ s' => s' = s).
Proof. apply look_test_ok. Qed.
Lemma look_canonical_ok d v s : index_ s < length tokens -> run (look_canonical tokens d v) s (fun _ s' => s' = s).
Proof. apply look_test_ok. Qed.
Lemma current_span_ok s : index_ s < length tokens -> run (current_span tokens) s (fun _ s' => s' = s).
Proof. intros Hs. unfold current_span. rewrite wp_bind. eapply run_mono; [by apply current_ok|]. cbn beta. by intros t s' [-> _]. Qed.
Lemma previous_span_ok s : ready s -> run (previous_span tokens) s (fun _ s' => s' = s).
Proof. intros Hs. unfold previous_span. rewrite wp_bind. eapply run_mono; [by apply previous_ok|]. cbn beta. by intros t s' ->. Qed.
Lemma error_ok m sp s : index_ s < length tokens -> run (error m sp) s (fun (_ : unit) s' => grows s s' /\ complains s s').
Proof.
  intros Hs. unfold error. rewrite wp_modify. unfold complains. cbn. split; [|rewrite length_app; cbn; lia].
  unfold VhdlParserSteps.grows. cbn. split; [lia|split; [done|split; [done|by eexists]]].
Qed.
Lemma accept_ok test s : (forall s, index_ s < length tokens -> run test s (looks s)) -> index_ s < length tokens ->
  run (b ← test; if negb b then mret false else advance tokens ;; mret true) s (accepts tokens s).
Proof.
  intros Ht Hs. rewrite wp_bind. eapply run_mono; [by apply Ht|]. cbn beta. intros b s' [-> Hb]. destruct b; cbn [negb].
  - rewrite wp_bind. eapply run_mono; [apply advance_ok; auto|]. cbn beta. intros t s' [H1 H2]. by rewrite wp_ret.
  - rewrite wp_ret. split; [by apply grows_refl|done].
Qed.
Lemma acceptWord_ok v s : index_ s < length tokens -> run (acceptWord tokens v) s (accepts tokens s).
Proof. apply accept_ok. intros. by apply word_ok. Qed.
Lemma acceptSymbol_ok v s : index_ s < length tokens -> run (acceptSymbol tokens v) s (accepts tokens s).
Proof. apply accept_ok. intros. by apply symbol_ok. Qed.
#[local] Hint Resolve current_ok look_ok previous_ok advance_ok word_ok words_ok symbol_ok isNameToken_ok atEnd_ok look_text_ok look_canonical_ok current_span_ok
  previous_span_ok error_ok acceptWord_ok acceptSymbol_ok : vhdl.
#[local] Hint Resolve advance_weak | 10 : vhdl.
Lemma expectWord_ok v s : index_ s < length tokens -> run (expectWord tokens v) s (expects tokens s).
Proof. intros Hs. unfold expectWord. vc_simple; finish_run. Qed.
Lemma expectSymbol_ok v s : index_ s < length tokens -> run (expectSymbol tokens v) s (expects tokens s).
Proof. intros Hs. unfold expectSymbol. vc_simple; finish_run. Qed.
Lemma error_here_ok {A} m s : index_ s < length tokens -> run (error_here tokens m) s (fun (r : option A) s' => r = None /\ grows s s' /\ complains s s').
Proof. intros Hs. unfold error_here. vc_simple; finish_run. Qed.
Lemma parseName_ok s : index_ s < length tokens -> run (parseName tokens) s (parsed 1 any s).
Proof.
  intros Hs. unfold parseName. do 2 vc_step. vc_step; [vc_simple; finish_run|].
  assert (not_end s) by (eapply not_end_of; [done|]; apply is_name_end; by apply negb_false_iff). vc_simple; finish_run.
Qed.
Lemma isLabel_ok s : index_ s < length tokens -> run (isLabel tokens) s (looks s).
Proof. intros Hs. unfold isLabel, both. vc_simple; finish_run. eauto. Qed.

(** * Loops *)

Lemma run_iterate {L R} (body : L -> parser (L + R)) (I : L -> ParserState -> Prop) (Q : R -> ParserState -> Prop) fuel l s :
  (forall l s, I l s -> index_ s < length tokens) ->
  (forall l s1, I l s1 -> run (body l) s1 (fun r s2 => match r with inl l' => I l' s2 /\ index_ s1 < index_ s2 | inr r => Q r s2 end)) ->
  I l s -> left_over tokens s < fuel -> run (iterate fuel body l) s Q.
Proof.
  intros Hb Hbody. revert l s. induction fuel as [|fuel IH]; intros l s HI Hf; [unfold left_over in Hf; lia|]. cbn [iterate]. rewrite wp_bind.
  eapply run_mono; [by apply Hbody|]. cbn beta. intros [l'|r] s' H; [|by rewrite wp_ret].
  destruct H as [HI' Hlt]. apply IH; [done|]. pose proof (Hb _ _ HI'). unfold left_over in *. lia.
Qed.
Lemma rounds_enough s : 0 < index_ s -> left_over tokens s < rounds tokens.
Proof. unfold left_over, rounds. lia. Qed.

Lemma while_some_ok {L} (P : L -> Prop) c (body : L -> parser (option L)) l s :
  ready s -> P l ->
  (forall l s1, ready s1 -> grows s s1 -> P l ->
    run (b ← c; if b : bool then r ← body l; mret (Some r) else mret None) s1
      (fun r s2 => grows s1 s2 /\ match r with None => True | Some None => complains s1 s2 | Some (Some l') => index_ s1 < index_ s2 /\ P l' end)) ->
  run (while_some tokens c body l) s (parsed 0 P s).
Proof.
  intros Hr HP Hbody. unfold while_some.
  apply (run_iterate _ (fun l s1 => ready s1 /\ grows s s1 /\ P l)).
  - intros _ s1 ([_ H] & _). exact H.
  - intros l1 s1 (Hr1 & Hg1 & HP1). specialize (Hbody l1 s1 Hr1 Hg1 HP1). rewrite wp_bind in Hbody. rewrite wp_bind. eapply run_mono; [exact Hbody|]. cbn beta.
    intros [] s2 H; [rewrite wp_bind in H; rewrite wp_bind|rewrite wp_ret in H; rewrite wp_ret].
    + eapply run_mono; [exact H|]. cbn beta. intros r s3. rewrite !wp_ret. intros [Hg H3]. destruct r as [l'|].
      * destruct H3 as [Hlt HP']. split; [|done]. split; [destruct Hg as [? _]; unfold VhdlParserSteps.ready in *; lia|]. split; [by eapply grows_trans|done].
      * split; [by eapply grows_trans|]. apply grows_facts in Hg1. unfold complains in *. lia.
    + destruct H as [Hg _]. split; [by eapply grows_trans|]. split; [|done]. apply grows_facts in Hg, Hg1. lia.
  - split; [done|]. split; [apply grows_refl; apply Hr|done].
  - apply rounds_enough. apply Hr.
Qed.
Lemma do_while_break_ok {L} (I P : L -> Prop) (body : L -> parser (option (L * bool))) c l s :
  (forall l, P l -> I l) -> ready s -> I l ->
  (forall l s1, ready s1 -> grows s s1 -> I l ->
    run (r ← body l; match r with Some (l, true) => mret (Some (l, false)) | Some (l, false) => b ← c; mret (Some (l, b)) | None => mret None end) s1
      (fun r s2 => grows s1 s2 /\ match r with None => complains s1 s2 | Some (l', _) => index_ s1 < index_ s2 /\ P l' end)) ->
  run (do_while_break tokens body c l) s (parsed 1 P s).
Proof.
  intros HI Hr HP Hbody. unfold do_while_break.
  apply (run_iterate _ (fun l s1 => ready s1 /\ grows s s1 /\ I l)).
  - intros _ s1 ([_ H] & _). exact H.
  - intros l1 s1 (Hr1 & Hg1 & HP1). specialize (Hbody l1 s1 Hr1 Hg1 HP1). rewrite wp_bind in Hbody. rewrite wp_bind. eapply run_mono; [exact Hbody|]. cbn beta.
    assert (Hnone : forall s2, grows s1 s2 /\ complains s1 s2 -> parsed 1 P s None s2).
    { intros s2 [Hg Hc]. split; [by eapply grows_trans|]. apply grows_facts in Hg1. unfold complains in *. lia. }
    assert (Hsome : forall l' s2, grows s1 s2 /\ index_ s1 < index_ s2 /\ P l' -> parsed 1 P s (Some l') s2).
    { intros l' s2 (Hg & Hlt & HP'). split; [by eapply grows_trans|]. apply grows_facts in Hg1. split; [lia|done]. }
    intros [[l' []]|] s2 H; [rewrite wp_ret in H; rewrite wp_ret; by apply Hsome|rewrite wp_bind in H; rewrite wp_bind|rewrite wp_ret in H; rewrite wp_ret; by apply Hnone].
    eapply run_mono; [exact H|]. cbn beta. intros b s3. rewrite !wp_ret. intros (Hg & Hlt & HP'). destruct b; [|by apply Hsome].
    split; [|done]. split; [destruct Hg as [? _]; unfold VhdlParserSteps.ready in *; lia|]. split; [by eapply grows_trans|by apply HI].
  - split; [done|]. split; [apply grows_refl; apply Hr|done].
  - apply rounds_enough. apply Hr.
Qed.
Lemma do_while_some_ok {L} (I P : L -> Prop) (body : L -> parser (option L)) c l s :
  (forall l, P l -> I l) -> ready s -> I l ->
  (forall l s1, ready s1 -> grows s s1 -> I l ->
    run (r ← body l; match r with Some l => b ← c; mret (Some (l, b)) | None => mret None end) s1
      (fun r s2 => grows s1 s2 /\ match r with None => complains s1 s2 | Some (l', _) => index_ s1 < index_ s2 /\ P l' end)) ->
  run (do_while_some tokens body c l) s (parsed 1 P s).
Proof.
  intros HI Hr HP Hbody. apply (do_while_break_ok I); [done..|]. intros l1 s1 Hr1 Hg1 HP1. specialize (Hbody l1 s1 Hr1 Hg1 HP1).
  rewrite wp_bind in Hbody. rewrite !wp_bind. eapply run_mono; [exact Hbody|]. cbn beta. intros [l'|] s2 H; rewrite wp_ret; exact H.
Qed.
End tokens.

#[export] Hint Resolve current_ok look_ok previous_ok advance_ok word_ok words_ok symbol_ok isNameToken_ok isLabel_ok atEnd_ok look_text_ok look_canonical_ok
  current_span_ok previous_span_ok error_ok acceptWord_ok acceptSymbol_ok expectWord_ok expectSymbol_ok error_here_ok parseName_ok : vhdl.
#[export] Hint Resolve advance_weak | 10 : vhdl.
Ltac loop_body := let Hr := fresh "Hr" in let Hg := fresh "Hg" in cbn beta; intros ? ? Hr Hg ?; facts Hr; facts Hg.
Ltac after_run := let H := fresh "H" in cbn beta; intros ? ? H; facts H.
Ltac vc_loop :=
  lazymatch goal with
  | tk : list Token |- wp (error _ _) _ _ _ => eapply run_mono; [apply (error_ok tk); numbers|after_run]
  | |- wp (while_some _ _ _ _) _ _ _ => eapply run_mono; [apply (while_some_ok _ any); [numbers|exact I|loop_body]|after_run]
  | |- wp (do_while_some _ _ _ _) _ _ _ => eapply run_mono; [apply (do_while_some_ok _ any any); [done|numbers|exact I|loop_body]|after_run]
  | |- wp (do_while_break _ _ _ _) _ _ _ => eapply run_mono; [apply (do_while_break_ok _ any any); [done|numbers|exact I|loop_body]|after_run]
  | |- _ => vc_step
  end.
Ltac vc := repeat (vc_loop; tidy).
Ltac runs := vc; finish_run.

Section more.
Context (tokens : list Token) (Hend : ends_with_file tokens).
Lemma parseNames_ok s : ready tokens s -> run (parseNames tokens) s (parsed tokens 1 any s).
Proof. intros Hs. facts Hs. unfold parseNames. runs. Qed.
Lemma synchronize_ok v s : ready tokens s -> run (synchronize tokens v) s (fun _ s' => grows tokens s s').
Proof.
  intros Hs. unfold synchronize.
  apply (run_iterate tokens _ (fun _ s1 => ready tokens s1 /\ grows tokens s s1)); [by intros _ s1 [[_ H] _]| |split; [done|apply grows_refl; apply Hs]|apply rounds_enough; apply Hs].
  intros _ s1 [Hr Hg]. facts Hr. facts Hg. unfold both, notM. runs.
Qed.
(** What a test finds depends on the place only. *)
Definition symbol_at (v : string) (i : nat) : bool := match tokens !! i with Some t => is_symbol v t | None => false end.
Lemma symbol_at_ok v s : index_ s < length tokens -> run (symbol tokens v) s (fun b s' => looks tokens s b s' /\ b = symbol_at v (index_ s)).
Proof.
  intros Hs. unfold symbol, symbol_at. rewrite wp_bind. eapply run_mono; [by apply current_ok|]. cbn beta. intros t s' [-> Ht]. rewrite wp_ret, Ht.
  split; [|done]. split; [done|]. intros H. exists t. split; [done|by eapply is_symbol_end].
Qed.
Definition word_at (v : string) (i : nat) : bool := match tokens !! i with Some t => is_word v t | None => false end.
Lemma word_at_ok v s : index_ s < length tokens -> run (word tokens v) s (fun b s' => looks tokens s b s' /\ b = word_at v (index_ s)).
Proof.
  intros Hs. unfold word, word_at. rewrite wp_bind. eapply run_mono; [by apply current_ok|]. cbn beta. intros t s' [-> Ht]. rewrite wp_ret, Ht.
  split; [|done]. split; [done|]. intros H. exists t. split; [done|by eapply is_word_end].
Qed.
Definition end_at (i : nat) : bool := match tokens !! i with Some t => is_end t | None => false end.
Lemma end_at_ok s : index_ s < length tokens -> run (atEnd tokens) s (fun b s' => s' = s /\ (b = false -> not_end tokens s) /\ b = end_at (index_ s)).
Proof.
  intros Hs. unfold atEnd, end_at. rewrite wp_bind. eapply run_mono; [by apply current_ok|]. cbn beta. intros t s' [-> Ht]. rewrite wp_ret, Ht.
  split; [done|]. split; [|done]. intros H. by exists t.
Qed.
Definition span_at (i : nat) : SourceSpan := match tokens !! i with Some t => span t | None => default_span end.
Lemma span_at_ok s : index_ s < length tokens -> run (current_span tokens) s (fun r s' => s' = s /\ r = span_at (index_ s)).
Proof.
  intros Hs. unfold current_span, span_at. rewrite wp_bind. eapply run_mono; [by apply current_ok|]. cbn beta. intros t s' [-> Ht]. by rewrite wp_ret, Ht.
Qed.
(** A name that is there is read. *)
Lemma parseName_there s t : index_ s < length tokens -> tokens !! index_ s = Some t -> is_name_token t = true ->
  run (parseName tokens) s (fun r s' => exists n, r = Some n /\ grows tokens s s' /\ index_ s < index_ s').
Proof.
  intros Hs Ht En. unfold parseName. rewrite wp_bind. eapply run_mono; [by apply current_ok|]. cbn beta. intros t' s' [-> Ht'].
  rewrite Ht in Ht'. injection Ht' as <-. rewrite En. cbn [negb]. rewrite wp_bind.
  eapply run_mono; [apply advance_ok; [done..|eapply not_end_of; [done|by apply is_name_end]]|]. cbn beta. intros t' s' [Hg Hl]. rewrite wp_ret. by eexists.
Qed.
Lemma run_name_there {A} (k : option Name -> parser A) (other : parser A) s Q : index_ s < length tokens ->
  (forall n s', grows tokens s s' -> index_ s < index_ s' -> run (k (Some n)) s' Q) -> run other s Q ->
  run (b ← isNameToken tokens; if b : bool then n ← parseName tokens; k n else other) s Q.
Proof.
  intros Hs Hk Ho. unfold isNameToken. rewrite !wp_bind. eapply run_mono; [by apply current_ok|]. cbn beta. intros t s' [-> Ht]. rewrite wp_ret.
  destruct (is_name_token t) eqn:En; [|done]. rewrite wp_bind. eapply run_mono; [by apply (parseName_there s t)|]. cbn beta. intros r s' (n & -> & Hg & Hl). by apply Hk.
Qed.
Lemma run_label_there {A} (k : option Name -> parser A) (other : parser A) s Q : index_ s < length tokens ->
  (forall n s', grows tokens s s' -> index_ s < index_ s' -> run (k (Some n)) s' Q) -> run other s Q ->
  run (b ← isLabel tokens; if b : bool then n ← parseName tokens; k n else other) s Q.
Proof.
  intros Hs Hk Ho. unfold isLabel, both, isNameToken. rewrite !wp_bind. eapply run_mono; [by apply current_ok|]. cbn beta. intros t s' [-> Ht]. rewrite wp_ret.
  destruct (is_name_token t) eqn:En; [|by rewrite wp_ret]. eapply run_mono; [by apply look_text_ok|]. cbn beta. intros [] s' ->; [|done].
  rewrite wp_bind. eapply run_mono; [by apply (parseName_there s t)|]. cbn beta. intros r s' (n & -> & Hg & Hl). by apply Hk.
Qed.
End more.
#[export] Hint Resolve parseNames_ok synchronize_ok : vhdl.
