(* ===== verification/VhdlExpressionSteps.v ===== *)
(** The expressions of the VHDL parser: every run returns, takes tokens, and
    builds trees whose nodes have the children of their kind.

    Declarations, entities and assignments of the VHDL parser: every run returns,
    with something after taking tokens or with an error. *)
From S2P Require Import Prelude Store VhdlLexer VhdlSyntax VhdlParser VhdlDeclarations VhdlParserSteps.
Local Open Scope nat_scope.

(** * Shapes *)

Definition is_present {A} (o : option A) : bool := match o with Some _ => true | None => false end.
Definition all_of {A} (p : A -> bool) (o : option A) : bool := match o with Some a => p a | None => true end.
(** Whether a kind of node has elements, a left child, a right child and a
    condition. *)
Definition arity_ok (k : expression_kind) (els left right condition : bool) : bool :=
  match k with
  | EName | EIntegerLiteral | ERealLiteral | EStringLiteral | ECharacterLiteral | EBitStringLiteral => negb els && negb left && negb right && negb condition
  | EUnary | EOthers | ESelected | EAttribute => negb els && left && negb right && negb condition
  | EBinary | EIndexed | ERange | EAssociation => negb els && left && right && negb condition
  | ECall => els && left && negb right && negb condition
  | EAggregate => els && negb left && negb right && negb condition
  | EConditional => negb els && left && right && condition
  end.
Fixpoint shaped (e : Expression) : bool :=
  match e with
  | mkExpression els k _ _ _ l r c =>
      arity_ok k (match els with [] => false | _ => true end) (is_present l) (is_present r) (is_present c) && forallb shaped els &&
      match l with Some l => shaped l | None => true end && match r with Some r => shaped r | None => true end &&
      match c with Some c => shaped c | None => true end
  end.
Definition Shaped (e : Expression) : Prop := shaped e = true.
Definition all_shaped (l : list Expression) : Prop := l <> [] /\ forallb shaped l = true.

Lemma shaped_leaf k t c sp : arity_ok k false false false false = true -> Shaped (leaf k t c sp).
Proof. intros H. unfold Shaped, leaf. cbn. by rewrite H. Qed.
Lemma shaped_span sp e : Shaped e -> Shaped (set_e_span sp e).
Proof. by destruct e. Qed.
Lemma all_shaped_push e l : Shaped e -> all_shaped l -> all_shaped (push e l).
Proof. intros He [_ Hl]. unfold push. split; [by destruct l|]. unfold Shaped in He. by rewrite forallb_app, Hl; cbn; rewrite He. Qed.
Lemma all_shaped_one e : Shaped e -> all_shaped [e].
Proof. intros He. split; [done|]. unfold Shaped in He. cbn. by rewrite He. Qed.
Lemma shaped_elements k t c sp l left : all_shaped l -> (forall e, left = Some e -> Shaped e) -> arity_ok k true (is_present left) false false = true ->
  Shaped (mkExpression l k t c sp left None None).
Proof.
  intros [Hn Hl] Hleft Ha. unfold Shaped. cbn. rewrite Hl. destruct l as [|x l]; [done|]. cbn [is_present]. rewrite Ha. destruct left as [e|]; [|done].
  specialize (Hleft e eq_refl). unfold Shaped in Hleft. by rewrite Hleft.
Qed.
(** Conditionals whose last [else] may be left out. *)
Inductive Omitting : Expression -> Prop :=
| omitting_none e : Shaped e -> Omitting e
| omitting_last t c sp l d : Shaped l -> Shaped d -> Omitting (mkExpression [] EConditional t c sp (Some l) None (Some d))
| omitting_else t c sp l r d : Shaped l -> Omitting r -> Shaped d -> Omitting (mkExpression [] EConditional t c sp (Some l) (Some r) (Some d)).
Definition conditional_ok (allowOmittedElse : bool) (e : Expression) : Prop := if allowOmittedElse then Omitting e else Shaped e.
#[export] Hint Constructors Omitting : vhdl_shapes.
#[export] Hint Resolve shaped_leaf shaped_span all_shaped_push all_shaped_one : vhdl_shapes.

Ltac shape :=
  unfold Shaped, make_node, leaf in *; cbn [shaped arity_ok is_present negb andb forallb];
  repeat match goal with H : shaped _ = true |- _ => rewrite H; clear H end; done.
#[export] Hint Extern 1 (_ <= _)%Z => lia : vhdl.
#[export] Hint Extern 4 (Shaped _) => shape : vhdl_shapes.
Ltac finish_shape := finish_run; eauto 3 with vhdl_shapes.

(** * Expressions *)

Section expressions.
Context (tokens : list Token) (Hend : ends_with_file tokens).
#[local] Notation ready := (ready tokens).
#[local] Notation parsed := (parsed tokens).
#[local] Notation left_over := (left_over tokens).

(** How much fuel a request takes at most. *)
Definition need (r : request) (s : ParserState) : nat := match r with Exp _ => 2 * left_over s | Primary => 2 * left_over s - 1 end.

Definition valid_request (r : request) : Prop := match r with Exp p => (0 <= p)%Z | Primary => True end.
Lemma op_precedence_valid op : (0 <= op_precedence op + (if has_text ["**"]%string op then 0 else 1))%Z.
Proof. unfold op_precedence. repeat case_match; lia. Qed.

Lemma bitStringLength_ok s : ready s ->
  run (bitStringLength tokens) s (fun r s' => grows tokens s s' /\ match r with None => complains s s' | Some None => s' = s | Some (Some _) => index_ s < index_ s' end).
Proof.
  intros Hs. facts Hs. unfold bitStringLength. do 2 vc_loop. destruct (kind r) eqn:Ek; try (rewrite wp_ret; finish_run).
  assert (not_end tokens s) by (eapply not_end_of; [done|]; unfold is_end; by rewrite Ek). runs.
Qed.
Lemma decimal_bits_ok start lit l bits s : ready s -> run (decimal_bits start lit l bits) s (parsed 0 any s).
Proof.
  intros Hs. revert bits. induction l as [|c l IH]; intros bits; cbn [decimal_bits]; facts Hs; [runs|].
  destruct (Ascii.eqb c "_"); [apply IH|]. specialize (IH (decimal_step c bits)). vc; finish_run.
Qed.
Lemma radix_bits_ok w start lit l bits s : ready s -> run (radix_bits w start lit l bits) s (parsed 0 any s).
Proof.
  intros Hs. revert bits. induction l as [|c l IH]; intros bits; cbn [radix_bits]; facts Hs; [runs|].
  destruct (Ascii.eqb c "_"); [apply IH|]. vc; finish_run.
Qed.
#[local] Hint Resolve bitStringLength_ok decimal_bits_ok radix_bits_ok : vhdl.
Lemma parseExtendedBitString_ok s : ready s -> not_end tokens s -> run (parseExtendedBitString tokens) s (parsed 1 Shaped s).
Proof.
  intros Hs Hn. facts Hs. unfold parseExtendedBitString. do 5 vc_loop; tidy; [|finish_run]. destruct o as [n|]; tidy.
  all: vc; finish_shape.
Qed.

Section again.
Context (parse : request -> parser (option Expression)) (limit : nat).
Context (Hparse : forall r s, valid_request r -> ready s -> need r s <= limit -> run (parse r) s (parsed 1 Shaped s)).

Lemma parse_exp_ok p s : (0 <= p)%Z -> ready s -> 2 * left_over s <= limit -> run (parse (Exp p)) s (parsed 1 Shaped s).
Proof. exact (Hparse (Exp p) s). Qed.
Lemma parse_primary_ok s : ready s -> 2 * left_over s - 1 <= limit -> run (parse Primary) s (parsed 1 Shaped s).
Proof. exact (Hparse Primary s I). Qed.
#[local] Hint Resolve parse_exp_ok parse_primary_ok op_precedence_valid : vhdl.

Lemma parseIndex__ok s : ready s -> 2 * left_over s <= limit -> run (parseIndex_ tokens parse) s (parsed 1 Shaped s).
Proof. intros Hs Hl. facts Hs. unfold parseIndex_. vc; finish_shape. Qed.
#[local] Hint Resolve parseIndex__ok : vhdl.

Lemma one_symbol_end l t : one_symbol l t = true -> is_end t = false.
Proof. intros (v & _ & H)%existsb_exists. by apply is_symbol_end in H. Qed.
Lemma precedence_end t : (0 <= precedence_of t)%Z -> is_end t = false.
Proof.
  unfold precedence_of. destruct (one_of _ t) eqn:E1; [intros _; by apply words_end in E1|].
  destruct (one_of ["and"; _]%string t) eqn:E2; [intros _; by apply words_end in E2|].
  destruct (one_symbol _ t) eqn:E3; [intros _; by apply one_symbol_end in E3|].
  destruct (one_symbol ["+"; _; _]%string t) eqn:E4; [intros _; by apply one_symbol_end in E4|].
  destruct (one_symbol ["*"; _]%string t) eqn:E5; [intros _; by apply one_symbol_end in E5|].
  destruct (one_of ["mod"; _]%string t) eqn:E6; [intros _; by apply words_end in E6|]. cbn [orb].
  destruct (is_symbol "**" t) eqn:E7; [intros _; by apply is_symbol_end in E7|lia].
Qed.
Lemma precedence_ok s : index_ s < length tokens -> run (precedence tokens) s (fun p s' => s' = s /\ ((0 <= p)%Z -> not_end tokens s)).
Proof.
  intros Hs. unfold precedence. rewrite wp_bind. eapply run_mono; [by apply current_ok|]. cbn beta. intros t s' [-> Ht]. rewrite wp_ret.
  split; [done|]. intros H%precedence_end. by exists t.
Qed.
Lemma parseExpression__ok p s : (0 <= p)%Z -> ready s -> 2 * left_over s - 1 <= limit -> run (parseExpression_ tokens parse p) s (parsed 1 Shaped s).
Proof.
  intros Hp0 Hs Hl. facts Hs. unfold parseExpression_. do 2 vc_loop. vc_loop; tidy; [|finish_run].
  apply (run_iterate tokens _ (fun e s1 => ready s1 /\ grows tokens s s1 /\ index_ s < index_ s1 /\ Shaped e)).
  - by intros _ s1 ([_ ?] & _).
  - clear dependent s'. intros e1 s1 (Hr & Hg & Hlt & He). facts Hr. facts Hg. rewrite wp_bind. eapply run_mono; [by apply precedence_ok|]. cbn beta. intros q s' [-> Hq].
    destruct (p <=? q)%Z eqn:Ep; [|rewrite wp_ret; finish_shape]. assert (not_end tokens s1) by (apply Hq; lia). vc; finish_shape.
  - finish_shape.
  - apply rounds_enough. numbers.
Qed.

Lemma acceptUnary_ok s : index_ s < length tokens -> run (acceptUnary tokens) s (accepts tokens s).
Proof. intros Hs. unfold acceptUnary. cbn [foldr]. unfold either. runs. Qed.
Lemma parseUnary_ok s s0 : ready s -> index_ s0 < index_ s -> 2 * left_over s <= limit -> run (parseUnary tokens parse) s (parsed 1 Shaped s).
Proof. intros Hs _ Hl. facts Hs. unfold parseUnary. vc; finish_shape. Qed.

Lemma associate_ok e s : ready s -> Shaped e -> 2 * left_over s <= limit -> run (associate tokens parse e) s (parsed 0 Shaped s).
Proof. intros Hs He Hl. facts Hs. unfold associate. vc; finish_shape. Qed.
#[local] Hint Resolve associate_ok : vhdl.
Lemma parseChoices_ok e s : ready s -> Shaped e -> 2 * left_over s <= limit -> run (parseChoices tokens parse e) s (parsed 0 Shaped s).
Proof.
  intros Hs He Hl. facts Hs. unfold parseChoices. rewrite wp_bind. eapply run_mono; [apply (while_some_ok tokens all_shaped); [done|by apply all_shaped_one|]|].
  - intros l s1 Hr Hg Hp. facts Hr. facts Hg. vc; finish_shape.
  - after_run. vc; finish_shape. apply shaped_elements; done.
Qed.
#[local] Hint Resolve parseChoices_ok : vhdl.
Lemma parseElement_ok s : ready s -> 2 * left_over s <= limit -> run (parseElement tokens parse) s (parsed 1 Shaped s).
Proof. intros Hs Hl. facts Hs. unfold parseElement. vc; finish_shape. Qed.
#[local] Hint Resolve parseElement_ok : vhdl.
(** Loops that collect elements. *)
Ltac collect := eapply run_mono; [apply (while_some_ok tokens all_shaped); [numbers|by apply all_shaped_one|loop_body; vc; finish_shape]|after_run].
Lemma parseAggregate_ok e s : ready s -> Shaped e -> 2 * left_over s <= limit -> run (parseAggregate tokens parse e) s (parsed 0 Shaped s).
Proof.
  intros Hs He Hl. facts Hs. unfold parseAggregate. rewrite wp_bind. collect. vc; finish_shape. by apply shaped_elements.
Qed.
#[local] Hint Resolve parseAggregate_ok : vhdl.
Lemma parseParenthesized_ok s : ready s -> 2 * left_over s <= limit -> run (parseParenthesized tokens parse) s (parsed 1 Shaped s).
Proof. intros Hs Hl. facts Hs. unfold parseParenthesized. vc; finish_shape. Qed.
Lemma parseCall_ok e i s : ready s -> Shaped e -> Shaped i -> 2 * left_over s <= limit -> run (parseCall tokens parse e i) s (parsed 1 Shaped s).
Proof.
  intros Hs He Hi Hl. facts Hs. unfold parseCall. rewrite wp_bind. collect. vc; finish_shape. apply shaped_elements; [done| |done]. by intros ? [= <-].
Qed.
#[local] Hint Resolve parseParenthesized_ok parseCall_ok parseUnary_ok acceptUnary_ok : vhdl.
Lemma parseSuffix_ok e s : ready s -> not_end tokens s -> Shaped e -> 2 * left_over s <= limit -> run (parseSuffix tokens parse e) s (parsed 1 Shaped s).
Proof. intros Hs Hn He Hl. facts Hs. unfold parseSuffix. vc; finish_shape. Qed.
#[local] Hint Resolve parseSuffix_ok : vhdl.
Lemma parseNameExpression_ok s : ready s -> 2 * left_over s <= limit + 2 -> run (parseNameExpression tokens parse) s (parsed 1 Shaped s).
Proof.
  intros Hs Hl. facts Hs. unfold parseNameExpression. vc_loop. vc_loop; tidy. vc_loop; tidy; [|finish_run].
  eapply run_mono; [apply (while_some_ok tokens Shaped); [numbers|by apply shaped_leaf|]|after_run; finish_run].
  loop_body. unfold either. vc; finish_shape.
Qed.
Lemma parseBitString_ok s : ready s -> not_end tokens s -> run (parseBitString tokens) s (parsed 1 Shaped s).
Proof. intros Hs Hn. facts Hs. unfold parseBitString. vc; finish_shape. Qed.
Lemma parseLiteral_ok s : ready s -> run (parseLiteral tokens) s (parsed 1 Shaped s).
Proof.
  intros Hs. facts Hs. unfold parseLiteral. do 2 vc_loop. destruct (literal_kind (kind r)) as [k|] eqn:Ek; [|runs].
  assert (not_end tokens s) by (eapply not_end_of; [done|]; unfold is_end; by destruct (kind r)). vc; finish_shape. apply shaped_leaf. by destruct (kind r), k.
Qed.
#[local] Hint Resolve parseNameExpression_ok parseBitString_ok parseLiteral_ok parseExtendedBitString_ok : vhdl.
Lemma startsExtendedBitString_ok s : index_ s < length tokens -> run (startsExtendedBitString tokens) s (looks tokens s).
Proof.
  intros Hs. unfold startsExtendedBitString. do 2 vc_loop. vc. split; [done|]. intros Hb. eapply not_end_of; [done|]. revert Hb.
  unfold is_end, is_integer, bitStringBase, is_word. by destruct (kind r).
Qed.
#[local] Hint Resolve startsExtendedBitString_ok : vhdl.
Lemma parsePrimary__ok s : ready s -> 2 * left_over s - 2 <= limit -> run (parsePrimary_ tokens parse) s (parsed 1 Shaped s).
Proof. intros Hs Hl. facts Hs. unfold parsePrimary_, both. vc; finish_shape. Qed.
End again.

Lemma parse_expression_ok fuel r s : valid_request r -> ready s -> need r s <= fuel -> run (parse_expression tokens fuel r) s (parsed 1 Shaped s).
Proof.
  revert r s. induction fuel as [|fuel IH]; intros r s Hv Hs Hf.
  { exfalso. facts Hs. destruct r; unfold need, left_over in Hf; numbers. }
  destruct r as [p|]; cbn [parse_expression need] in *.
  - apply (parseExpression__ok _ fuel); [exact IH|done|done|lia].
  - apply (parsePrimary__ok _ fuel); [exact IH|done|lia].
Qed.
Lemma parseExpression_ok s : ready s -> run (parseExpression tokens 0) s (parsed 1 Shaped s).
Proof. intros Hs. apply parse_expression_ok; [done|done|]. unfold need, depth. numbers. Qed.
Lemma parseIndex_ok s : ready s -> run (parseIndex tokens) s (parsed 1 Shaped s).
Proof. intros Hs. eapply parseIndex__ok; [intros r s1; apply parse_expression_ok|done|]. unfold depth. numbers. Qed.
#[local] Hint Resolve parseExpression_ok parseIndex_ok : vhdl.

Lemma parse_conditional_ok fuel b s : ready s -> left_over s < fuel -> run (parse_conditional tokens fuel b) s (parsed 1 (conditional_ok b) s).
Proof.
  revert s. induction fuel as [|fuel IH]; intros s Hs Hf; [lia|]. facts Hs. cbn [parse_conditional]. destruct b; vc; unfold conditional_ok in *; finish_shape.
Qed.
Lemma parseConditional_ok b s : ready s -> run (parseConditional tokens b) s (parsed 1 (conditional_ok b) s).
Proof. intros Hs. apply parse_conditional_ok; [done|]. apply rounds_enough. apply Hs. Qed.
Lemma parseDiscreteRange_ok s : ready s -> run (parseDiscreteRange tokens) s (parsed 1 any s).
Proof. intros Hs. facts Hs. unfold parseDiscreteRange. runs. Qed.
End expressions.
#[export] Hint Resolve parseExpression_ok parseIndex_ok parseConditional_ok parseDiscreteRange_ok : vhdl.

(** * Declarations, entities and assignments *)

Section declarations.
Context (tokens : list Token) (synthesis_ : bool) (Hend : ends_with_file tokens).
#[local] Notation ready := (ready tokens).
#[local] Notation parsed := (parsed tokens).
#[local] Notation grows := (grows tokens).

Ltac body f := let Hs := fresh in intros Hs; facts Hs; unfold f; unfold either, both, notM; runs.

(** Clauses and units can be first. *)
Lemma parseLibraryClause_ok s : index_ s < length tokens -> not_end tokens s ->
  run (parseLibraryClause tokens) s (fun _ s' => grows s s' /\ index_ s < index_ s').
Proof. intros Hs Hn. unfold parseLibraryClause. runs. Qed.
Lemma parseSelectedName_ok s : ready s -> run (parseSelectedName tokens) s (parsed 1 any s).
Proof. body @parseSelectedName. Qed.
#[local] Hint Resolve parseLibraryClause_ok parseSelectedName_ok : vhdl.
Lemma parseUseClauses_ok sp s : ready s -> run (parseUseClauses tokens sp) s (fun _ s' => grows s s').
Proof.
  intros Hs. unfold parseUseClauses.
  apply (run_iterate tokens _ (fun _ s1 => ready s1 /\ grows s s1)); [by intros _ s1 [[_ ?] _]| |split; [done|apply grows_refl; apply Hs]|apply rounds_enough; apply Hs].
  intros l s1 [Hr Hg]. facts Hr. facts Hg. runs.
Qed.
#[local] Hint Resolve parseUseClauses_ok : vhdl.
Lemma parseUseClause_ok s : index_ s < length tokens -> not_end tokens s -> run (parseUseClause tokens) s (fun _ s' => grows s s' /\ index_ s < index_ s').
Proof. intros Hs Hn. unfold parseUseClause. runs. Qed.

Lemma parenthesized_constraint_ok s : ready s -> run (parenthesized_constraint tokens) s (parsed 0 any s).
Proof. body @parenthesized_constraint. Qed.
Lemma range_constraint_ok s : ready s -> run (range_constraint tokens) s (parsed 0 any s).
Proof. body @range_constraint. Qed.
#[local] Hint Resolve parenthesized_constraint_ok range_constraint_ok : vhdl.
Lemma type_constraint_ok s : ready s -> run (type_constraint tokens) s (parsed 0 any s).
Proof. body @type_constraint. Qed.
Lemma default_value_ok s : ready s -> run (default_value tokens) s (parsed 0 any s).
Proof. body @default_value. Qed.
Lemma parameter_mode_ok b s : ready s -> run (parameter_mode tokens b) s (fun _ s' => grows s s').
Proof. body @parameter_mode. Qed.
Lemma port_mode_ok s : ready s -> run (port_mode tokens) s (fun _ s' => grows s s').
Proof. body @port_mode. Qed.
#[local] Hint Resolve type_constraint_ok default_value_ok parameter_mode_ok port_mode_ok : vhdl.
Lemma parseGenericDeclaration_ok b s : ready s -> run (parseGenericDeclaration tokens b) s (parsed 1 any s).
Proof. body @parseGenericDeclaration. Qed.
Lemma parsePortDeclaration_ok s : ready s -> run (parsePortDeclaration tokens) s (parsed 1 any s).
Proof. body @parsePortDeclaration. Qed.
#[local] Hint Resolve parseGenericDeclaration_ok parsePortDeclaration_ok : vhdl.

Lemma parseObjectDeclaration_ok b s : ready s -> run (parseObjectDeclaration tokens b) s (parsed 1 any s).
Proof. body @parseObjectDeclaration. Qed.
#[local] Hint Resolve parseObjectDeclaration_ok : vhdl.
Lemma parseConstantDeclaration_ok s : ready s -> run (parseConstantDeclaration tokens) s (parsed 1 any s).
Proof. body @parseConstantDeclaration. Qed.
Lemma parseSubtypeDeclaration_ok s : ready s -> run (parseSubtypeDeclaration tokens) s (parsed 1 any s).
Proof. body @parseSubtypeDeclaration. Qed.
Lemma parseEnumerationTypeDeclaration_ok s : ready s -> run (parseEnumerationTypeDeclaration tokens) s (parsed 1 any s).
Proof. body @parseEnumerationTypeDeclaration. Qed.
#[local] Hint Resolve parseConstantDeclaration_ok parseSubtypeDeclaration_ok parseEnumerationTypeDeclaration_ok : vhdl.

Lemma closing_mismatch_ok key m s : index_ s < length tokens ->
  run (closing_mismatch tokens key m) s (fun b s' => grows s s' /\ (b = true -> complains s s')).
Proof. intros Hs. unfold closing_mismatch. apply run_name_there; [done..| |]; [intros n s' Hg Hl; facts Hg|]; runs. Qed.
Lemma check_closing_ok key m s : ready s -> run (check_closing tokens key m) s (fun _ s' => grows s s').
Proof. body @check_closing. Qed.
#[local] Hint Resolve closing_mismatch_ok check_closing_ok : vhdl.
Lemma parseRecordTypeDeclaration_ok s : ready s -> run (parseRecordTypeDeclaration tokens) s (parsed 1 any s).
Proof. body @parseRecordTypeDeclaration. Qed.
Lemma array_index_ok s : ready s -> run (array_index tokens) s (parsed 0 any s).
Proof. body @array_index. Qed.
#[local] Hint Resolve parseRecordTypeDeclaration_ok array_index_ok : vhdl.
Lemma parseArrayTypeDeclaration_ok s : ready s -> run (parseArrayTypeDeclaration tokens) s (parsed 1 any s).
Proof. body @parseArrayTypeDeclaration. Qed.
#[local] Hint Resolve parseArrayTypeDeclaration_ok : vhdl.
Lemma parseTypeDeclaration_ok s : ready s -> run (parseTypeDeclaration tokens) s (parsed 1 any s).
Proof. body @parseTypeDeclaration. Qed.
Lemma file_mode_ok n sp s : ready s -> run (file_mode tokens n sp) s (fun _ s' => grows s s').
Proof. body @file_mode. Qed.
#[local] Hint Resolve parseTypeDeclaration_ok file_mode_ok : vhdl.
Lemma parseFileDeclaration_ok s : ready s -> run (parseFileDeclaration tokens) s (parsed 1 any s).
Proof. body @parseFileDeclaration. Qed.
Lemma parseAlias_ok s : ready s -> run (parseAlias tokens) s (parsed 1 any s).
Proof. body @parseAlias. Qed.

Section interfaces.
#[local] Remove Hints symbol_ok : vhdl.
#[local] Hint Resolve symbol_at_ok : vhdl.
(** When no declaration is read, the parser is not on a closing parenthesis. *)
Ltac interface := vc; try solve [finish_run];
  lazymatch goal with
  | H1 : symbol_at _ _ (index_ ?s1) = false, H2 : symbol_at _ _ (index_ ?s2) = true |- _ =>
      assert (index_ s1 <> index_ s2) by (let K := fresh in intros K; rewrite K in H1; congruence); finish_run
  end.
Lemma parseGenerics_ok s : ready s -> run (parseGenerics tokens) s (parsed 1 any s).
Proof. intros Hs. facts Hs. unfold parseGenerics, both, notM. interface. Qed.
Lemma parsePorts_ok s : ready s -> run (parsePorts tokens) s (parsed 1 any s).
Proof. intros Hs. facts Hs. unfold parsePorts, both, notM. interface. Qed.
End interfaces.
#[local] Hint Resolve parseGenerics_ok parsePorts_ok : vhdl.
Lemma parseEntity_ok b s : index_ s < length tokens -> not_end tokens s -> run (parseEntity tokens b) s (parsed 1 any s).
Proof. intros Hs Hn. unfold parseEntity. runs. Qed.

Lemma startsIgnoredDiagnostic_ok s : index_ s < length tokens -> run (startsIgnoredDiagnostic tokens synthesis_) s (fun _ s' => s' = s).
Proof. intros Hs. unfold startsIgnoredDiagnostic, either. runs. Qed.
Lemma skipLabel_ok s : ready s -> run (skipLabel tokens) s (fun _ s' => grows s s').
Proof. body @skipLabel. Qed.
#[local] Hint Resolve skipLabel_ok : vhdl.
Lemma parseIgnoredDiagnostic_ok s : ready s -> run (parseIgnoredDiagnostic tokens) s (parsed 1 any s).
Proof. body @parseIgnoredDiagnostic. Qed.
Lemma attribute_type_ok s : ready s -> run (attribute_type tokens) s (parsed 1 any s).
Proof. body @attribute_type. Qed.
Lemma attribute_specification_ok n sp s : ready s -> run (attribute_specification tokens n sp) s (parsed 1 any s).
Proof. body @attribute_specification. Qed.
#[local] Hint Resolve attribute_type_ok attribute_specification_ok : vhdl.
Lemma parseSynthesisAttribute_ok s : ready s -> run (parseSynthesisAttribute tokens synthesis_) s (parsed 1 any s).
Proof. body @parseSynthesisAttribute. Qed.

Lemma parsePortSelection_ok s : ready s -> run (parsePortSelection tokens) s (parsed 0 any s).
Proof. body @parsePortSelection. Qed.
Lemma parseChoiceList_ok s : ready s -> run (parseChoiceList tokens) s (parsed 1 any s).
Proof. body @parseChoiceList. Qed.
#[local] Hint Resolve parsePortSelection_ok parseChoiceList_ok : vhdl.
Lemma parseAlternatives_ok s : ready s -> run (parseAlternatives tokens) s (parsed 1 any s).
Proof. body @parseAlternatives. Qed.
#[local] Hint Resolve parseAlternatives_ok : vhdl.
(** Without a selector there is a value. *)
Definition has_value (selected omitted : bool) (a : Assignment) : Prop :=
  match as_selector a with
  | Some _ => selected = true
  | None => match as_value a with Some v => conditional_ok omitted v | None => False end
  end.
Lemma parseAssignment_ok b1 b2 b3 s : ready s -> run (parseAssignment tokens b1 b2 b3) s (parsed 1 (has_value b2 b3) s).
Proof. body @parseAssignment. Qed.
End declarations.
#[export] Hint Resolve parseLibraryClause_ok parseUseClause_ok type_constraint_ok parseGenericDeclaration_ok parseObjectDeclaration_ok parseConstantDeclaration_ok
  parseSubtypeDeclaration_ok parseTypeDeclaration_ok closing_mismatch_ok check_closing_ok parseFileDeclaration_ok parseAlias_ok parseEntity_ok startsIgnoredDiagnostic_ok
  parseIgnoredDiagnostic_ok parseSynthesisAttribute_ok parsePortSelection_ok parseChoiceList_ok parseAssignment_ok : vhdl.
