(* ===== verification/VhdlStatementSteps.v ===== *)
(** Statements, subprograms and processes of the VHDL parser: every run returns,
    with something after taking tokens or with an error. *)
From S2P Require Import Prelude Store VhdlLexer VhdlSyntax VhdlParser VhdlDeclarations VhdlStatements VhdlParserSteps VhdlExpressionSteps.
Local Open Scope nat_scope.

(** * Results of pure functions *)

Lemma run_outcome {A} (o : outcome A) a s (Q : A -> ParserState -> Prop) : o = Ret a -> Q a s -> run (of_outcome o) s Q.
Proof. by intros ->. Qed.
Lemma shaped_inv els k t c sp l r d : Shaped (mkExpression els k t c sp l r d) ->
  arity_ok k (match els with [] => false | _ => true end) (is_present l) (is_present r) (is_present d) = true /\ Forall Shaped els /\
  (forall e, l = Some e -> Shaped e) /\ (forall e, r = Some e -> Shaped e) /\ (forall e, d = Some e -> Shaped e).
Proof.
  unfold Shaped. cbn. intros [[[[Ha Hels]%andb_true_iff Hl]%andb_true_iff Hr]%andb_true_iff Hd]%andb_true_iff. split; [done|].
  split; [by apply Forall_forall; intros e He; apply (proj1 (forallb_forall _ _) Hels), list_elem_of_In|].
  split; [by intros e ->|]. split; by intros e ->.
Qed.
(** A deep copy is the same tree. *)
Lemma cloneExpression_same e : cloneExpression e = e.
Proof.
  induction e as [els k t c sp l r d Hels Hl Hr Hd] using Expression_ind'. cbn. f_equal.
  - clear - Hels. induction Hels as [|e els He _ IH]; [done|]. cbn. by rewrite He, IH.
  - destruct l as [e|]; [by rewrite (Hl e eq_refl)|done].
  - destruct r as [e|]; [by rewrite (Hr e eq_refl)|done].
  - destruct d as [e|]; [by rewrite (Hd e eq_refl)|done].
Qed.
Lemma conditionalAssignment_returns a e : Shaped e -> exists st, conditionalAssignment a e = Ret st.
Proof.
  induction e as [els k t c sp l r d Hels Hl Hr Hd] using Expression_ind'. intros (Ha & _ & Sl & Sr & _)%shaped_inv. cbn [conditionalAssignment].
  unfold is_kind. cbn [e_kind e_left e_right]. destruct (bool_decide (k = EConditional)) eqn:Ek; [|by eexists]. apply bool_decide_eq_true_1 in Ek as ->.
  cbn in Ha. destruct l as [l|]; [|by rewrite andb_false_r in Ha]. destruct (Hl l eq_refl (Sl l eq_refl)) as [st1 ->]. cbn.
  destruct r as [r|]; [|by eexists]. destruct (Hr r eq_refl (Sr r eq_refl)) as [st2 ->]. by eexists.
Qed.
Lemma conditionalAssignment_omitting a e : Omitting e -> exists st, conditionalAssignment a e = Ret st.
Proof.
  induction 1 as [e He|t c sp l d Hl _|t c sp l r d Hl _ [st2 IH] _]; [by apply conditionalAssignment_returns| |];
    destruct (conditionalAssignment_returns a l Hl) as [st1 E1]; cbn; rewrite E1; cbn; [|rewrite IH; cbn]; by eexists.
Qed.

Section statements.
Context (tokens : list Token) (synthesis_ : bool) (Hend : ends_with_file tokens).
#[local] Notation ready := (ready tokens).
#[local] Notation parsed := (parsed tokens).
#[local] Notation grows := (grows tokens).
#[local] Notation left_over := (left_over tokens).

Ltac body f := let Hs := fresh in intros Hs; facts Hs; unfold f; unfold either, both, notM; cbn [first_case]; runs.

Lemma rewind_ok s s1 : ready s -> grows s s1 -> run (rewind (index_ s) (length (diagnostics_ s))) s1 (fun _ s' => grows s s' /\ index_ s' = index_ s).
Proof.
  intros Hs ([H1 H2] & Ha & Hy & [d Hd]). unfold rewind. rewrite wp_modify. unfold VhdlParserSteps.grows. cbn. facts Hs. split; [|done]. split; [lia|]. split; [done|]. split; [done|].
  unfold resize. rewrite Hd, take_app_length. apply prefix_app_r. done.
Qed.
#[local] Hint Extern 1 (VhdlParserSteps.grows _ _ _) => grow : vhdl.
#[local] Hint Resolve rewind_ok : vhdl.

Lemma parseLoopLabel_ok s : ready s -> run (parseLoopLabel tokens) s (parsed 0 any s).
Proof. body @parseLoopLabel. Qed.
Lemma label_mismatch_ok l m s : index_ s < length tokens -> run (label_mismatch tokens l m) s (fun b s' => grows s s' /\ (b = true -> complains s s')).
Proof. intros Hs. unfold label_mismatch. apply run_name_there; [done..| |]; [intros n s' Hg Hl; facts Hg|]; runs. Qed.
#[local] Hint Resolve parseLoopLabel_ok label_mismatch_ok : vhdl.
Lemma loopEnd_ok l s : ready s -> run (loopEnd tokens l) s (parsed 1 any s).
Proof. body @loopEnd. Qed.
#[local] Hint Resolve loopEnd_ok : vhdl.

Section again.
Context (again : sequential) (fuel : nat).
Context (Hstatements : forall b s, ready s -> left_over s < fuel -> run (parse_statements again b) s (parsed 0 any s)).
Context (Hif : forall b s, ready s -> left_over s < fuel -> run (parse_if again b) s (parsed 1 any s)).

Lemma parseWait_ok sp s : ready s -> run (parseWait tokens sp) s (parsed 1 any s).
Proof. body @parseWait. Qed.
Lemma parseExit_ok b sp s : ready s -> run (parseExit tokens b sp) s (parsed 1 any s).
Proof. body @parseExit. Qed.
Lemma parseNull_ok s : ready s -> run (parseNull tokens) s (parsed 1 any s).
Proof. body @parseNull. Qed.
Lemma parseCase_ok b l s : ready s -> left_over s < fuel -> run (parseCase tokens again b l) s (parsed 1 any s).
Proof. intros Hs Hf. facts Hs. unfold parseCase. runs. Qed.
Lemma parseIfStatement__ok b s : ready s -> left_over s < S fuel -> run (parseIfStatement_ tokens again b) s (parsed 1 any s).
Proof. intros Hs Hf. facts Hs. unfold parseIfStatement_. runs. Qed.
Lemma parseWhile_ok b l s : ready s -> left_over s < fuel -> run (parseWhile tokens again b l) s (parsed 1 any s).
Proof. intros Hs Hf. facts Hs. unfold parseWhile. runs. Qed.
Lemma parseFor_ok b l s : ready s -> left_over s < fuel -> run (parseFor tokens again b l) s (parsed 1 any s).
Proof. intros Hs Hf. facts Hs. unfold parseFor. runs. Qed.
Lemma parseReturn_ok s : ready s -> run (parseReturn tokens) s (parsed 1 any s).
Proof. body @parseReturn. Qed.
Lemma parse_simple_assignment_ok s : ready s -> run (parse_simple_assignment tokens) s (parsed 1 any s).
Proof.
  intros Hs. facts Hs. unfold parse_simple_assignment. do 2 vc_loop; tidy. vc_loop; tidy; [|finish_run].
  match goal with H : has_value _ _ _ |- _ => unfold has_value in H end. destruct (as_selector a); [done|]. destruct (as_value a) as [v|]; [|done].
  destruct (omits_else v); [|runs]. destruct (conditionalAssignment_omitting a v) as [st Est]; [done|]. rewrite Est, wp_bind. apply (run_outcome _ st); [done|].
  runs.
Qed.
#[local] Hint Resolve parseWait_ok parseExit_ok parseNull_ok parseCase_ok parseIfStatement__ok parseWhile_ok parseFor_ok parseReturn_ok parse_simple_assignment_ok : vhdl.
Lemma parseSimpleStatement_ok s : ready s -> run (parseSimpleStatement tokens) s (parsed 1 any s).
Proof. body @parseSimpleStatement. Qed.
#[local] Hint Resolve parseSimpleStatement_ok : vhdl.
Lemma parseStatement_ok b s : ready s -> left_over s < S fuel -> run (parseStatement tokens synthesis_ again b) s (parsed 1 any s).
Proof. intros Hs Hf. facts Hs. unfold parseStatement. cbn [first_case]. runs. Qed.
#[local] Hint Resolve parseStatement_ok : vhdl.
Lemma parseStatements__ok b s : ready s -> left_over s < S fuel -> run (parseStatements_ tokens synthesis_ again b) s (parsed 0 any s).
Proof. intros Hs Hf. facts Hs. unfold parseStatements_, both, notM. runs. Qed.
End again.

Lemma sequential__ok fuel :
  (forall b s, ready s -> left_over s < fuel -> run (parse_statements (sequential_ tokens synthesis_ fuel) b) s (parsed 0 any s)) /\
  (forall b s, ready s -> left_over s < fuel -> run (parse_if (sequential_ tokens synthesis_ fuel) b) s (parsed 1 any s)).
Proof.
  induction fuel as [|fuel [IH1 IH2]]; [by split; intros; lia|]. split; intros b s Hs Hf; cbn [sequential_ parse_statements parse_if].
  - by apply (parseStatements__ok _ fuel).
  - by apply (parseIfStatement__ok _ fuel).
Qed.
Lemma parseStatements_ok b s : ready s -> run (parseStatements tokens synthesis_ b) s (parsed 0 any s).
Proof. intros Hs. apply sequential__ok; [done|]. apply rounds_enough. apply Hs. Qed.
#[local] Hint Resolve parseStatements_ok : vhdl.

(** * Subprograms *)

Lemma function_declarations_ok f s : ready s -> run (function_declarations tokens f) s (parsed 0 any s).
Proof. body @function_declarations. Qed.
#[local] Hint Resolve function_declarations_ok : vhdl.
Lemma function_body_ok f s : ready s -> run (function_body tokens synthesis_ f) s (parsed 0 any s).
Proof. body @function_body. Qed.
Lemma parseParameters_ok b s : ready s -> run (parseParameters tokens b) s (parsed 0 any s).
Proof. body @parseParameters. Qed.
#[local] Hint Resolve function_body_ok parseParameters_ok : vhdl.
Lemma parseFunction_ok s : ready s -> run (parseFunction tokens synthesis_) s (parsed 1 any s).
Proof. body @parseFunction. Qed.
Lemma startsFunction_ok s : index_ s < length tokens -> run (startsFunction tokens) s (looks tokens s).
Proof. apply words_ok; done. Qed.
#[local] Hint Resolve parseFunction_ok startsFunction_ok : vhdl.

(** * Clocks *)

Lemma clock_edge_ok s : ready s -> run (clock_edge tokens) s (parsed 1 any s).
Proof. body @clock_edge. Qed.
Lemma parseLevel_ok m s : ready s -> run (parseLevel tokens m) s (parsed 0 any s).
Proof. body @parseLevel. Qed.
#[local] Hint Resolve clock_edge_ok parseLevel_ok : vhdl.
Lemma clock_operand_ok s : ready s -> run (clock_operand tokens) s (parsed 1 any s).
Proof. body @clock_operand. Qed.
#[local] Hint Resolve clock_operand_ok : vhdl.
Lemma parse_clock_predicate_ok fuel b s : ready s -> left_over s < fuel -> run (parse_clock_predicate tokens fuel b) s (parsed 1 any s).
Proof.
  revert b s. induction fuel as [|fuel IH]; intros b s Hs Hf; [lia|]. facts Hs. cbn [parse_clock_predicate]. runs.
Qed.
Lemma parseClockPredicate_ok b s : ready s -> run (parseClockPredicate tokens b) s (parsed 1 any s).
Proof. intros Hs. apply parse_clock_predicate_ok; [done|]. apply rounds_enough. apply Hs. Qed.
#[local] Hint Resolve parseClockPredicate_ok : vhdl.
(** The names that a process is sensitive to, and whether it is combinational,
    are left alone. *)
Definition combinational_from (p p' : ClockedProcess) : Prop := pr_combinational p' = pr_combinational p.
Definition same_sensitivity (p p' : ClockedProcess) : Prop := pr_sensitivityList p' = pr_sensitivityList p /\ combinational_from p p'.
#[local] Instance same_sensitivity_preorder : PreOrder same_sensitivity.
Proof. split; [done|]. unfold same_sensitivity, combinational_from. intros p1 p2 p3 [E1 F1] [E2 F2]. split; congruence. Qed.
Lemma parseClockGuard_ok p s : ready s ->
  run (parseClockGuard tokens p) s (fun r s' => expects tokens s r.2 s' /\ same_sensitivity p r.1).
Proof. intros Hs. facts Hs. unfold parseClockGuard. runs. Qed.
Lemma parseProcessEnd_ok l s : ready s -> run (parseProcessEnd tokens l) s (expects tokens s).
Proof. body @parseProcessEnd. Qed.
#[local] Hint Resolve parseClockGuard_ok parseProcessEnd_ok : vhdl.

(** * Processes *)

(** Goes through a body up to a loop. *)
Ltac before_loops := repeat (lazymatch goal with |- wp (while_some _ _ _ _) _ _ _ => fail | |- _ => vc_loop; tidy end).

Lemma parseProcessDeclarations_ok p s : ready s -> run (parseProcessDeclarations tokens synthesis_ p) s (parsed 0 (same_sensitivity p) s).
Proof.
  intros Hs. facts Hs. unfold parseProcessDeclarations. apply (while_some_ok tokens (same_sensitivity p)); [done|done|]. loop_body.
  unfold both, notM. cbn [first_case]. vc; finish_run; try (etransitivity; [|eassumption]; done).
  all: match goal with |- same_sensitivity _ (process_type ?t _) => destruct t end; etransitivity; try eassumption; done.
Qed.
Definition sensitive (p : ClockedProcess) : Prop := pr_sensitivityList p <> [].
Lemma parseSensitivity_ok p s : ready s -> run (parseSensitivity tokens p) s (parsed 1 (fun p' => sensitive p' /\ combinational_from p p') s).
Proof.
  intros Hs. facts Hs. unfold parseSensitivity.
  apply (do_while_some_ok tokens (combinational_from p)); [by intros ? []|done|done|]. loop_body. vc; finish_run; unfold sensitive; cbn; by destruct (pr_sensitivityList _).
Qed.
#[local] Hint Resolve parseProcessDeclarations_ok parseSensitivity_ok : vhdl.
Lemma parseLevelTest_ok m s : ready s -> run (parseLevelTest tokens m) s (parsed 1 any s).
Proof. body @parseLevelTest. Qed.
(** Sequences of assignments with values, and processes that are made of them. *)
Definition all_valued (l : list Assignment) : Prop := Forall (has_value false false) l.
Definition plain_or_sensitive (p : ClockedProcess) : Prop := pr_combinational p = true \/ sensitive p \/ all_valued (pr_assignments p) /\ all_valued (pr_resetAssignments p).
Lemma parseAssignments_ok l s : ready s -> run (parseAssignments tokens l) s (parsed 1 all_valued s).
Proof.
  intros Hs. facts Hs. unfold parseAssignments. apply (do_while_some_ok tokens all_valued all_valued); [done|done|constructor|]. loop_body. unfold both, notM.
  vc; finish_run; apply Forall_app; split; [done|by constructor|done|by constructor].
Qed.
#[local] Hint Resolve parseLevelTest_ok parseAssignments_ok : vhdl.
Lemma simple_branches_ok c l s : ready s -> all_valued l -> run (simple_branches tokens c l) s (parsed 0 (fun r => all_valued r.1.2 /\ all_valued r.2) s).
Proof. intros Hs Hl. facts Hs. assert (all_valued []) by constructor. unfold simple_branches. runs. Qed.
Lemma end_if_ok s : ready s -> run (end_if tokens) s (parsed 1 any s).
Proof. body @end_if. Qed.
#[local] Hint Resolve simple_branches_ok end_if_ok : vhdl.
Lemma parseSimpleClockedProcess_ok l s : ready s ->
  run (parseSimpleClockedProcess tokens l) s (fun r s' => grows s s' /\ match r with Some p => index_ s < index_ s' /\ plain_or_sensitive p | None => True end).
Proof.
  intros Hs. facts Hs. unfold parseSimpleClockedProcess. vc; finish_run. all: by right; right.
Qed.
#[local] Hint Resolve parseSimpleClockedProcess_ok : vhdl.

Lemma reset_of_ok e s : ready s -> Shaped e -> is_kind EBinary e = true -> run (reset_of e) s (parsed 0 any s).
Proof.
  intros Hs He Hk. facts Hs. unfold reset_of. destruct e as [els k t c sp l r d]. apply shaped_inv in He as (Ha & _ & _ & _ & _).
  apply bool_decide_eq_true_1 in Hk. cbn in Hk. subst k. cbn [e_left e_right]. destruct l as [l|], r as [r|]; cbn in Ha; rewrite ?andb_false_r in Ha; try done.
  destruct (is_kind ECharacterLiteral l); runs.
Qed.
#[local] Hint Resolve reset_of_ok : vhdl.
Lemma parseAsynchronousReset_ok p s : ready s -> run (parseAsynchronousReset tokens synthesis_ p) s (parsed 1 (same_sensitivity p) s).
Proof.
  intros Hs. facts Hs. unfold parseAsynchronousReset. do 2 vc_loop. destruct r as [e|]; tidy; [|runs].
  destruct (is_kind EBinary e && bool_decide (e_text e = chars "=")) eqn:Ek; [apply andb_true_iff in Ek as [Ek _]|runs].
  vc; finish_run.
Qed.
#[local] Hint Resolve parseAsynchronousReset_ok : vhdl.
Lemma same_sensitive p p' : same_sensitivity p p' -> sensitive p -> sensitive p'.
Proof. unfold same_sensitivity, sensitive. intros [-> _]. done. Qed.
Lemma enabled_same p : same_sensitivity p (enabled_statements p).
Proof. unfold enabled_statements. by destruct (pr_clockEnable p). Qed.
Lemma parseEdgeBody_ok p s : ready s -> sensitive p -> run (parseEdgeBody tokens synthesis_ p) s (parsed 1 sensitive s).
Proof.
  intros Hs Hp. facts Hs. unfold parseEdgeBody. vc; try finish_run.
  all: try (eapply same_sensitive; [apply enabled_same|]). all: unfold sensitive, same_sensitivity, combinational_from in *; cbn in *; destruct_and?; congruence.
Qed.
#[local] Hint Resolve parseEdgeBody_ok same_sensitive : vhdl.
Lemma parseEdgeProcess_ok l s : ready s -> run (parseEdgeProcess tokens synthesis_ l) s (parsed 1 plain_or_sensitive s).
Proof.
  intros Hs. facts Hs. unfold parseEdgeProcess, both, notM. before_loops; try finish_run.
  eapply run_mono; [apply (while_some_ok tokens sensitive); [numbers|done|loop_body; vc; finish_run]|after_run].
  vc; finish_run. by right; left.
Qed.
#[local] Hint Resolve parseEdgeProcess_ok : vhdl.
Lemma edge_ahead_returns l : Forall (fun i => i < length tokens) l -> exists b, edge_ahead tokens l = Ret b.
Proof.
  induction 1 as [|i l Hi _ IH]; [by eexists|]. cbn [edge_ahead]. unfold token_at.
  destruct (lookup_lt_is_Some_2 tokens i Hi) as [t ->]. destruct (lookup_lt_is_Some_2 tokens (i - 1)) as [t' ->]; [lia|]. cbn.
  destruct (_ && _); [by eexists|]. destruct (_ || _); [by eexists|exact IH].
Qed.
Lemma process_sensitivity_ok p s : ready s -> run (process_sensitivity tokens p) s (parsed 0 (combinational_from p) s).
Proof. body @process_sensitivity. Qed.
Lemma process_body_ok l s : ready s -> run (process_body tokens synthesis_ l) s (parsed 1 any s).
Proof. body @process_body. Qed.
#[local] Hint Resolve process_sensitivity_ok process_body_ok : vhdl.
Lemma parseClockedProcess_ok l s : ready s -> not_end tokens s -> run (parseClockedProcess tokens synthesis_ l) s (parsed 1 plain_or_sensitive s).
Proof.
  intros Hs Hn. facts Hs. unfold parseClockedProcess. vc_loop. vc_loop. rewrite wp_bind.
  destruct (edge_ahead_returns (seq (S (index_ s)) (length tokens - S (index_ s)))) as [b Eb].
  { apply Forall_forall. intros i Hi%elem_of_seq. lia. }
  apply (run_outcome _ b); [done|]. runs. all: left; unfold same_sensitivity, combinational_from in *; cbn in *; destruct_and?; congruence.
Qed.
End statements.
#[export] Hint Resolve parseFunction_ok startsFunction_ok parseClockedProcess_ok : vhdl.
