(* ===== verification/VhdlUnitSteps.v ===== *)
(** Instantiations, generate statements and design units of the VHDL parser:
    every run returns, with something after taking tokens or with an error. *)
From S2P Require Import Prelude Store VhdlLexer VhdlSyntax VhdlParser VhdlDeclarations VhdlStatements VhdlUnits VhdlParserSteps VhdlExpressionSteps VhdlStatementSteps.
Local Open Scope nat_scope.

Section units.
Context (tokens : list Token) (synthesis_ : bool) (Hend : ends_with_file tokens).
#[local] Notation ready := (ready tokens).
#[local] Notation parsed := (parsed tokens).
#[local] Notation grows := (grows tokens).
#[local] Notation left_over := (left_over tokens).

Ltac body f := let Hs := fresh in intros Hs; facts Hs; unfold f; unfold either, both, notM; cbn [first_case]; runs.

(** * Instantiations *)

(** Goes through a body up to a loop. *)
Ltac before_loop := repeat (lazymatch goal with |- wp (do_while_some _ _ _ _) _ _ _ => fail | |- _ => vc_loop; tidy end).

Lemma port_prefix_returns e : Shaped e -> exists p, port_prefix e = Ret p.
Proof.
  induction e as [els k t c sp l r d Hels Hl Hr Hd] using Expression_ind'. intros (Ha & _ & Sl & _ & _)%shaped_inv. cbn [port_prefix].
  unfold is_kind. cbn [e_kind e_left]. destruct (bool_decide (k = ESelected) || bool_decide (k = EIndexed)) eqn:Ek; [|by eexists].
  destruct l as [l|]; [|by apply orb_true_iff in Ek as [->%bool_decide_eq_true_1| ->%bool_decide_eq_true_1]; cbn in Ha; rewrite ?andb_false_r in Ha].
  destruct (Hl l eq_refl (Sl l eq_refl)) as [[p b] ->]. by eexists.
Qed.
Lemma startsNamedPortAssociation_ok s : index_ s < length tokens -> run (startsNamedPortAssociation tokens) s (looks tokens s).
Proof. intros Hs. unfold startsNamedPortAssociation, both. vc; finish_run; eauto. Qed.
#[local] Hint Resolve startsNamedPortAssociation_ok : vhdl.
Lemma parseFormal_ok s : ready s -> run (parseFormal tokens) s (parsed 0 any s).
Proof. body @parseFormal. Qed.
Lemma parseActual_ok f s : ready s -> run (parseActual tokens f) s (parsed 1 any s).
Proof.
  intros Hs. facts Hs. unfold parseActual. do 2 vc_loop. vc_loop; tidy; [runs|]. do 4 vc_loop. destruct r as [e|]; tidy; [|runs].
  destruct (port_prefix_returns e) as [p Ep]; [done|]. rewrite Ep, wp_bind. apply (run_outcome _ p); [done|]. runs.
Qed.
#[local] Hint Resolve parseFormal_ok parseActual_ok : vhdl.
Lemma parsePortMap_ok s : ready s -> run (parsePortMap tokens) s (parsed 0 any s).
Proof. body @parsePortMap. Qed.
(** The actuals of generics are there. *)
Definition has_actual (g : GenericAssociation) : Prop := ga_actual g <> None.
Definition has_actuals (i : EntityInstantiation) : Prop := Forall has_actual (ei_generics i).
Lemma parseGenericAssociation_ok s : ready s -> run (parseGenericAssociation tokens) s (parsed 1 has_actual s).
Proof. body @parseGenericAssociation. Qed.
#[local] Hint Resolve parsePortMap_ok parseGenericAssociation_ok : vhdl.
Lemma parseGenericMap_ok s : ready s -> run (parseGenericMap tokens) s (parsed 0 (Forall has_actual) s).
Proof.
  intros Hs. facts Hs. unfold parseGenericMap. before_loop; try (finish_run; constructor).
  eapply run_mono; [apply (do_while_some_ok tokens (Forall has_actual) (Forall has_actual)); [done|numbers|constructor|loop_body; vc; finish_run]|after_run].
  all: try (apply Forall_app; split; [done|by constructor]). vc; finish_run.
Qed.
#[local] Hint Resolve parseGenericMap_ok : vhdl.
Lemma parseEntityInstantiation_ok s : ready s -> run (parseEntityInstantiation tokens) s (parsed 1 has_actuals s).
Proof. body @parseEntityInstantiation. Qed.
#[local] Hint Resolve parseEntityInstantiation_ok : vhdl.

(** * Generate statements *)

Lemma startsGenerate_ok s : index_ s < length tokens -> run (startsGenerate tokens) s (looks tokens s).
Proof. intros Hs. unfold startsGenerate, either, both. vc; finish_run; eauto. Qed.
Lemma reject_declarations_ok m l s : ready s -> run (reject_declarations tokens m l) s (parsed 0 any s).
Proof. intros Hs. facts Hs. induction l as [|d l IH]; cbn [reject_declarations]; runs. Qed.
Lemma parseGenerateDeclarations_ok g s : ready s -> run (parseGenerateDeclarations tokens synthesis_ g) s (parsed 0 any s).
Proof. body @parseGenerateDeclarations. Qed.
Lemma parseProcessLabel_ok s : ready s -> run (parseProcessLabel tokens) s (fun _ s' => grows s s').
Proof. body @parseProcessLabel. Qed.
#[local] Hint Resolve startsGenerate_ok reject_declarations_ok parseGenerateDeclarations_ok parseProcessLabel_ok : vhdl.

Section again.
Context (parseGenerate : parser (option GenerateStatement)) (fuel : nat).
Context (Hgenerate : forall s, ready s -> left_over s < fuel -> run parseGenerate s (parsed 1 any s)).

Lemma parseConcurrent_ok g s : ready s -> left_over s < fuel -> run (parseConcurrent tokens synthesis_ parseGenerate g) s (parsed 1 any s).
Proof. intros Hs Hf. facts Hs. unfold parseConcurrent. cbn [first_case]. runs. Qed.
#[local] Hint Resolve parseConcurrent_ok : vhdl.
Lemma parseGenerateBody_ok g s : ready s -> left_over s < fuel -> run (parseGenerateBody tokens synthesis_ parseGenerate g) s (parsed 0 any s).
Proof. intros Hs Hf. facts Hs. unfold parseGenerateBody, both, notM. runs. Qed.
#[local] Hint Resolve parseGenerateBody_ok : vhdl.
Lemma parseBranch_ok b s : ready s -> left_over s <= fuel -> (b = true -> left_over s < fuel) -> (b = false -> not_end tokens s) ->
  run (parseBranch tokens synthesis_ parseGenerate b) s (parsed 1 any s).
Proof. intros Hs Hf _ Hn. facts Hs. unfold parseBranch. runs. Qed.
Lemma parseBranches_ok g s : ready s -> left_over s <= fuel -> run (parseBranches tokens synthesis_ parseGenerate g) s (parsed 0 any s).
Proof.
  intros Hs Hf. facts Hs. unfold parseBranches.
  apply (run_iterate tokens _ (fun _ s1 => ready s1 /\ grows s s1)); [by intros _ s1 [[_ ?] _]| |split; [done|apply grows_refl; numbers]|apply rounds_enough; numbers].
  intros g1 s1 [Hr Hg]. facts Hr. facts Hg. do 2 vc_loop. vc_loop; tidy; [runs|]. do 2 vc_loop. rewrite wp_bind.
  eapply run_mono; [apply parseBranch_ok; [numbers|destruct r; tidy; numbers|destruct r; tidy; intros; try done; numbers|destruct r; tidy; [done|auto]]|after_run].
  destruct r; tidy; runs.
Qed.
#[local] Hint Resolve parseBranches_ok : vhdl.
Lemma generate_scheme_ok g s : ready s -> run (generate_scheme tokens g) s (parsed 1 any s).
Proof. body @generate_scheme. Qed.
Lemma generate_label_ok s : ready s -> run (generate_label tokens) s (fun _ s' => grows s s').
Proof.
  intros Hs. facts Hs. unfold generate_label. apply run_label_there; [done|numbers| |]; [intros n s' Hg Hl; facts Hg|]; runs.
Qed.
#[local] Hint Resolve generate_scheme_ok generate_label_ok : vhdl.
Lemma parseGenerate__ok s : ready s -> left_over s < S fuel -> run (parseGenerate_ tokens synthesis_ parseGenerate) s (parsed 1 any s).
Proof. intros Hs Hf. facts Hs. unfold parseGenerate_. runs. Qed.
End again.
Lemma parse_generate_ok fuel s : ready s -> left_over s < fuel -> run (parse_generate tokens synthesis_ fuel) s (parsed 1 any s).
Proof. revert s. induction fuel as [|fuel IH]; intros s Hs Hf; [lia|]. cbn [parse_generate]. by apply (parseGenerate__ok _ fuel). Qed.
Lemma parseGenerate_ok s : ready s -> run (parseGenerate tokens synthesis_) s (parsed 1 any s).
Proof. intros Hs. apply parse_generate_ok; [done|]. apply rounds_enough. apply Hs. Qed.
#[local] Hint Resolve parseGenerate_ok : vhdl.

(** * Architectures *)

(** An architecture whose assignments, processes and instances have what their
    forms require. *)
Record whole_body (a : ArchitectureBody) : Prop := {
  wb_assignments : Forall (has_value true false) (ab_assignments a);
  wb_processes : Forall plain_or_sensitive (ab_processes a);
  wb_instances : Forall has_actuals (ab_instantiations a) }.
Lemma whole_body_new n e sp c : whole_body (mkArchitecture n e [] [] [] [] [] sp c [] [] [] [] [] [] [] []).
Proof. by constructor; constructor. Qed.
#[local] Hint Resolve whole_body_new : vhdl.
Lemma Forall_push {A} (P : A -> Prop) x l : Forall P l -> P x -> Forall P (push x l).
Proof. intros Hl Hx. unfold push. apply Forall_app. split; [done|by constructor]. Qed.
Ltac whole := match goal with H : whole_body ?a |- whole_body _ => destruct H; destruct a; constructor; cbn in *; first [done|by apply Forall_push|idtac] end.
#[local] Hint Extern 2 (whole_body _) => whole : vhdl.

Lemma parseArchitectureDeclarations_ok a s : ready s -> whole_body a -> run (parseArchitectureDeclarations tokens synthesis_ a) s (parsed 0 whole_body s).
Proof.
  intros Hs Ha. facts Hs. unfold parseArchitectureDeclarations. apply (while_some_ok tokens whole_body); [done|done|]. loop_body.
  cbn [first_case]. vc; finish_run; try whole.
  all: match goal with t : type_declaration |- _ => by destruct t end.
Qed.
Lemma or_synchronize_ok {A} (Q : A -> Prop) a (f : A -> ArchitectureBody) m s : ready s -> whole_body a -> (forall x, Q x -> whole_body (f x)) -> run m s (parsed 1 Q s) ->
  run (or_synchronize tokens a f m) s (fun r s' => grows s s' /\ match r with Some a' => whole_body a' | None => False end).
Proof. intros Hs Ha Hf Hm. facts Hs. unfold or_synchronize. rewrite wp_bind. eapply run_mono; [exact Hm|]. after_run. runs. all: auto. Qed.
#[local] Hint Resolve parseArchitectureDeclarations_ok : vhdl.
Lemma architecture_statement_ok a s : ready s -> whole_body a ->
  run (architecture_statement tokens synthesis_ a) s
    (fun r s' => grows s s' /\ match r with Some (a', b) => whole_body a' /\ (b = true -> index_ s < index_ s') | None => complains s s' end).
Proof. intros Hs Ha. facts Hs. unfold architecture_statement. cbn [first_case]. vc; try finish_run; try whole.
  all: eapply run_mono; [eapply or_synchronize_ok; [numbers|done| |solve [eauto with vhdl]]|after_run; vc; finish_run]; intros x Hx; whole.
Qed.
#[local] Hint Resolve architecture_statement_ok : vhdl.

(** A turn that takes no token is where it was: what was found then is found again. *)
Section turns.
#[local] Remove Hints word_ok atEnd_ok current_span_ok : vhdl.
#[local] Hint Resolve word_at_ok end_at_ok span_at_ok : vhdl.
Ltac elsewhere :=
  repeat match goal with p : (_ * bool)%type |- _ => destruct p as [? []]; cbn [fst snd] in *; tidy end; try finish_run;
  lazymatch goal with
  | |- context [index_ ?s1 < index_ ?s2] =>
      let K := fresh in
      assert (index_ s1 <> index_ s2) by (intros K; rewrite K in *; rewrite ?Nat.eqb_refl in *; congruence); finish_run
  end.
Lemma parseArchitectureStatements_ok a s : ready s -> whole_body a -> run (parseArchitectureStatements tokens synthesis_ a) s (parsed 0 whole_body s).
Proof.
  intros Hs Ha. facts Hs. unfold parseArchitectureStatements, both, notM. apply (while_some_ok tokens whole_body); [done|done|]. loop_body.
  vc; try solve [finish_run]; elsewhere.
Qed.
End turns.
#[local] Hint Resolve parseArchitectureStatements_ok : vhdl.
Lemma parseArchitecture_ok s : index_ s < length tokens -> not_end tokens s -> run (parseArchitecture tokens synthesis_) s (parsed 1 whole_body s).
Proof.
  intros Hs Hn. unfold parseArchitecture. vc; try finish_run; whole.
Qed.

(** * Packages and files *)

Lemma parsePackageDeclarations_ok p s : ready s -> run (parsePackageDeclarations tokens synthesis_ p) s (parsed 0 any s).
Proof. intros Hs. facts Hs. unfold parsePackageDeclarations, unless_body, both, notM. cbn [first_case]. runs. Qed.
#[local] Hint Resolve parsePackageDeclarations_ok : vhdl.
Lemma parsePackage_ok s : index_ s < length tokens -> not_end tokens s -> run (parsePackage tokens synthesis_) s (parsed 1 any s).
Proof. intros Hs Hn. unfold parsePackage. runs. Qed.
#[local] Hint Resolve parseArchitecture_ok parsePackage_ok : vhdl.

Lemma parseContext_ok s : index_ s < length tokens -> run (parseContext tokens) s (fun _ s' => grows s s').
Proof.
  intros Hs. unfold parseContext.
  apply (run_iterate tokens _ (fun _ s1 => grows s s1)); [by intros _ s1 [[_ ?] _]| |by apply grows_refl|].
  - intros c s1 Hg. facts Hg. runs.
  - unfold left_over, rounds. lia.
Qed.
#[local] Hint Resolve parseContext_ok : vhdl.
(** A unit is added, or there is an error. *)
Definition units (s : ParserState) : nat := length (df_packages (syntax_ s)) + length (df_entities (syntax_ s)) + length (df_architectures (syntax_ s)).
Definition whole (s : ParserState) : Prop := Forall whole_body (df_architectures (syntax_ s)).
Lemma whole_same s s' : syntax_ s' = syntax_ s -> whole s -> whole s'.
Proof. unfold whole. by intros ->. Qed.
Definition turned (s s' : ParserState) : Prop :=
  index_ s <= index_ s' < length tokens /\ allowWait_ s' = allowWait_ s /\ diagnostics_ s `prefix_of` diagnostics_ s' /\
  (units s' = S (units s) /\ index_ s < index_ s' /\ (whole s -> whole s') \/ syntax_ s' = syntax_ s /\ complains s s').
Lemma turned_grows s s' : grows s s' -> complains s s' -> turned s s'.
Proof. intros Hg Hc. facts Hg. unfold turned. split; [lia|]. split; [done|]. split; [done|]. by right. Qed.
Lemma turned_unit s s' f : grows s s' -> index_ s < index_ s' -> units (over_syntax f s') = S (units s') -> (whole s' -> whole (over_syntax f s')) ->
  turned s (over_syntax f s').
Proof.
  intros Hg Hl Hu Hw. facts Hg. unfold turned. cbn [index_ over_syntax allowWait_ diagnostics_]. split; [lia|]. split; [done|]. split; [done|]. left. split_and!; [|done|].
  - rewrite Hu. unfold units. by rewrite Hy.
  - intros Hs. apply Hw. by eapply whole_same.
Qed.
Lemma grows_turned s s1 s2 : grows s s1 -> turned s1 s2 -> turned s s2.
Proof.
  intros Hg (H1 & H2 & H3 & H4). facts Hg. unfold turned. split; [lia|]. split; [congruence|]. split; [by etransitivity|].
  destruct H4 as [(Hu & Hl & Hw)|[Hs Hc]]; [left|right; split; [congruence|unfold complains in *; lia]]. split_and!; [unfold units in *; congruence|lia|].
  intros H. by eapply Hw, whole_same.
Qed.
Lemma turned_grows_after s s1 s2 : turned s s1 -> grows s1 s2 -> turned s s2.
Proof.
  intros (H1 & H2 & H3 & H4) Hg. facts Hg. unfold turned. split; [lia|]. split; [congruence|]. split; [by etransitivity|].
  destruct H4 as [(Hu & Hl & Hw)|[Hs Hc]]; [left|right; split; [congruence|unfold complains in *; lia]]. split_and!; [unfold units in *; congruence|lia|].
  intros H. by eapply whole_same, Hw.
Qed.
Lemma run_unit {A} (P : A -> Prop) (m : parser (option A)) (add : A -> DesignFile -> DesignFile) s : (forall a s, units (over_syntax (add a) s) = S (units s)) ->
  (forall a s, P a -> whole s -> whole (over_syntax (add a) s)) -> run m s (parsed 1 P s) ->
  run (r ← m; match r with Some a => modify (over_syntax (add a)) | None => mret tt end) s (fun _ s' => turned s s').
Proof.
  intros Ha Hw Hm. rewrite wp_bind. eapply run_mono; [exact Hm|]. cbn beta. intros [a|] s' [Hg H].
  - rewrite wp_modify. apply turned_unit; [done|lia|done|]. apply Hw, H.
  - rewrite wp_ret. by apply turned_grows.
Qed.
Lemma parseUnit_ok c s : index_ s < length tokens -> run (parseUnit tokens synthesis_ c) s (fun _ s' => turned s s').
Proof.
  intros Hs. unfold parseUnit. cbn [first_case].
  do 2 vc_loop; tidy. vc_loop; tidy.
  { apply (run_unit any _ (fun e => over_df_entities (push (over_ed_context (fun _ => c) e)))); [intros a [? ? [] ? ?]; unfold units; cbn; rewrite length_app; cbn; lia|by intros a [? ? [] ? ?]|].
    eapply run_mono; [apply parseEntity_ok; auto|done]. }
  do 2 vc_loop; tidy. vc_loop; tidy.
  { apply (run_unit whole_body _ (fun a => over_df_architectures (push (over_ab_context (fun _ => c) a))));
      [intros a [? ? [] ? ?]; unfold units; cbn; rewrite length_app; cbn; lia|intros a [? ? [] ? ?] Ha Hw; unfold whole in *; cbn in *; apply Forall_push; [done|whole]|].
    eapply run_mono; [apply parseArchitecture_ok; auto|done]. }
  do 2 vc_loop; tidy. vc_loop; tidy.
  { apply (run_unit any _ (fun p => over_df_packages (push (over_pk_context (fun _ => c) p)))); [intros a [? ? [] ? ?]; unfold units; cbn; rewrite length_app; cbn; lia|by intros a [? ? [] ? ?]|].
    eapply run_mono; [apply parsePackage_ok; auto|done]. }
  vc. apply turned_grows; finish_run.
Qed.

(** A turn of the parser that is not at the end of the file. *)
Lemma run_turn_ok s : index_ s < length tokens -> not_end tokens s ->
  run (run_turn tokens synthesis_) s (fun r s' => r = None /\ turned s s' /\ index_ s < index_ s').
Proof.
  intros Hs Hn. unfold run_turn. rewrite wp_bind. eapply run_mono; [by apply end_at_ok|]. cbn beta. intros b s' (-> & _ & ->).
  assert (He : end_at tokens (index_ s) = false) by (destruct Hn as (t & Ht & He); unfold end_at; by rewrite Ht). rewrite He.
  rewrite wp_bind. eapply run_mono; [by apply span_at_ok|]. cbn beta. intros sp s' [-> ->].
  rewrite wp_bind. eapply run_mono; [by apply parseContext_ok|]. cbn beta. intros c s1 Hg1. assert (H1 : index_ s1 < length tokens) by apply Hg1.
  rewrite wp_bind. eapply run_mono; [by apply parseUnit_ok|]. cbn beta. intros _ s2 Ht. assert (H2 : index_ s2 < length tokens) by apply Ht.
  pose proof (grows_turned _ _ _ Hg1 Ht) as Hst. unfold both, notM. rewrite !wp_bind. eapply run_mono; [by apply end_at_ok|]. cbn beta. intros b s' (-> & Hne & ->). rewrite wp_ret.
  destruct (end_at tokens (index_ s2)) eqn:E2; cbn [negb].
  { rewrite !wp_ret, wp_bind, wp_ret, wp_ret. split_and!; [done|done|]. assert (index_ s2 <> index_ s) by congruence. destruct Hst as [? _]. lia. }
  rewrite wp_bind. eapply run_mono; [by apply span_at_ok|]. cbn beta. intros sp s' [-> ->]. rewrite wp_ret. cbn beta. rewrite wp_bind.
  destruct (_ =? _) eqn:Eo.
  - rewrite wp_bind. eapply run_mono; [apply advance_ok; auto|]. cbn beta. intros t s3 [Hg Hl]. rewrite !wp_ret. split_and!; [done|by eapply turned_grows_after|].
    destruct Hst as [? _]. lia.
  - rewrite !wp_ret. split_and!; [done|done|]. assert (index_ s2 <> index_ s) by (intros K; rewrite K, Nat.eqb_refl in Eo; done). destruct Hst as [? _]. lia.
Qed.
End units.
