(* ===== verification/VhdlGrammar.v ===== *)
(** The expressions of VHDL as the parser reads them: a grammar with precedences
    and the tree of each phrase; then that the parser reads the phrases, by exact
    runs on tokens that are known, phrase by phrase. *)
From S2P Require Import Prelude Store VhdlLexer VhdlSyntax VhdlParser VhdlParserSteps VhdlExpressionSteps.
Local Open Scope nat_scope.

(** * Phrases *)

(** Phrases with the tokens they are made of: names with fields, attributes,
    indices and slices, literals, parentheses, unary and binary operators. *)
Inductive phrase :=
| PName (t : Token) | PSelected (e : phrase) (dot field : Token) | PAttribute (e : phrase) (tick name : Token)
| PIndexed (e : phrase) (opening : Token) (i : phrase) (closing : Token)
| PSlice (e : phrase) (opening : Token) (i : phrase) (direction : Token) (j : phrase) (closing : Token)
| PLiteral (t : Token) | PParen (opening : Token) (e : phrase) (closing : Token) | PUnary (op : Token) (e : phrase) | PBinary (op : Token) (l r : phrase).
Fixpoint flatten (c : phrase) : list Token :=
  match c with
  | PName t | PLiteral t => [t]
  | PSelected e dot field => flatten e ++ [dot; field]
  | PAttribute e tick name => flatten e ++ [tick; name]
  | PIndexed e o i cl => flatten e ++ o :: flatten i ++ [cl]
  | PSlice e o i d j cl => flatten e ++ o :: flatten i ++ d :: flatten j ++ [cl]
  | PParen o e cl => o :: flatten e ++ [cl]
  | PUnary op e => op :: flatten e
  | PBinary op l r => flatten l ++ op :: flatten r
  end.
Definition is_sign_token (op : Token) : bool := has_text ["+"; "-"]%string op.
(** The precedence an operand on the right is read with: only [**] takes another
    one of its own. *)
Definition right_level (op : Token) : Z := (precedence_of op + (if has_text ["**"]%string op then 0 else 1))%Z.
(** The precedence of the outermost operator, and the least one that a phrase
    goes on with when an operator follows. *)
Definition binds (c : phrase) : Z := match c with PBinary op _ _ => precedence_of op | _ => 7 end.
Fixpoint greed (c : phrase) : Z :=
  match c with
  | PUnary op e => if is_sign_token op then Z.min 5 (greed e) else greed e
  | PBinary op _ r => Z.min (right_level op) (greed r)
  | _ => 7
  end.

Definition unary_words : list string := ["not"; "abs"; "and"; "or"; "nand"; "nor"; "xor"; "xnor"]%string.
Definition is_unary (t : Token) : bool := one_symbol ["??"; "+"; "-"]%string t || one_of unary_words t.
Definition is_name (t : Token) : bool := is_name_token t && negb (one_of unary_words t).
Definition is_suffix (t : Token) : bool := one_symbol ["."; "("; "'"]%string t.
Definition name_like (c : phrase) : bool := match c with PName _ | PSelected _ _ _ | PAttribute _ _ _ | PIndexed _ _ _ _ | PSlice _ _ _ _ _ _ => true | _ => false end.
Definition is_binary (c : phrase) : bool := match c with PBinary _ _ _ => true | _ => false end.
Definition is_direction (t : Token) : bool := one_of ["to"; "downto"]%string t.
(** An index that begins with [others] would be an aggregate. *)
Definition no_others (c : phrase) : bool := match flatten c with t :: _ => negb (is_word "others" t) | [] => true end.
Fixpoint grammatical (c : phrase) : bool :=
  match c with
  | PName t => is_name t
  | PSelected e dot field => name_like e && grammatical e && is_symbol "." dot && is_name_token field
  | PAttribute e tick name => name_like e && grammatical e && is_symbol "'" tick && is_name_token name
  | PIndexed e o i cl => name_like e && grammatical e && is_symbol "(" o && grammatical i && is_symbol ")" cl
  | PSlice e o i d j cl => name_like e && grammatical e && is_symbol "(" o && grammatical i && is_direction d && grammatical j && is_symbol ")" cl
  | PLiteral t => match literal_kind (kind t) with Some _ => true | None => false end
  | PParen o e cl => is_symbol "(" o && grammatical e && no_others e && is_symbol ")" cl
  | PUnary op e => is_unary op && grammatical e && (if is_sign_token op then (5 <=? binds e)%Z else negb (is_binary e))
  | PBinary op l r =>
      (0 <=? precedence_of op)%Z && grammatical l && grammatical r && (precedence_of op <? greed l)%Z && (right_level op <=? binds r)%Z
  end.

(** * Trees *)

Fixpoint bare (e : Expression) : Expression :=
  mkExpression (map bare (elements e)) (e_kind e) (e_text e) (e_canonical e) default_span
    (match e_left e with Some x => Some (bare x) | None => None end)
    (match e_right e with Some x => Some (bare x) | None => None end)
    (match e_condition e with Some x => Some (bare x) | None => None end).
Definition twig (k : expression_kind) (text canonical : list ascii) (left right : option Expression) : Expression :=
  mkExpression [] k text canonical default_span left right None.
Fixpoint tree (c : phrase) : Expression :=
  match c with
  | PName t => twig EName (text t) (canonical t) None None
  | PSelected e _ field => twig ESelected (text field) (canonical field) (Some (tree e)) None
  | PAttribute e _ name => twig EAttribute (text name) (canonical name) (Some (tree e)) None
  | PIndexed e _ i _ => twig EIndexed [] [] (Some (tree e)) (Some (tree i))
  | PSlice e _ i d j _ => twig EIndexed [] [] (Some (tree e)) (Some (twig ERange (canonical d) [] (Some (tree i)) (Some (tree j))))
  | PLiteral t => twig (default EName (literal_kind (kind t))) (text t) [] None None
  | PParen _ e _ => tree e
  | PUnary op e => twig EUnary (operator_text op) [] (Some (tree e)) None
  | PBinary op l r => twig EBinary (operator_text op) [] (Some (tree l)) (Some (tree r))
  end.

(** What ends an expression: no operator, no suffix and no part of a bit string. *)
Definition is_plain (t : Token) : bool := negb (is_suffix t) && negb (is_string t) && negb (bitStringBase t).
Definition ends_expression (t : Token) : bool := (precedence_of t <? 0)%Z && is_plain t.

(** * The parser reads the phrases *)

(** * Facts on tokens *)

Lemma is_symbol_inv v t : is_symbol v t = true -> kind t = Symbol /\ text t = chars v.
Proof. unfold is_symbol. destruct (kind t); try done. by intros H%bool_decide_eq_true_1. Qed.
Lemma is_word_inv v t : is_word v t = true -> kind t = Identifier /\ canonical t = chars v.
Proof. unfold is_word. destruct (kind t); try done. by intros H%bool_decide_eq_true_1. Qed.
Lemma one_symbol_inv l t : one_symbol l t = true -> kind t = Symbol /\ text t ∈ chars <$> l.
Proof. intros (v & Hv & [Hk Ht]%is_symbol_inv)%existsb_exists. split; [done|]. rewrite Ht. apply list_elem_of_fmap_2. by apply list_elem_of_In. Qed.
Lemma one_of_inv l t : one_of l t = true -> kind t = Identifier /\ canonical t ∈ chars <$> l.
Proof. intros (v & Hv & [Hk Ht]%is_word_inv)%existsb_exists. split; [done|]. rewrite Ht. apply list_elem_of_fmap_2. by apply list_elem_of_In. Qed.
Lemma symbol_other k v t : kind t = k -> k <> Symbol -> is_symbol v t = false.
Proof. unfold is_symbol. by destruct (kind t); intros <-. Qed.
Lemma word_other k v t : kind t = k -> k <> Identifier -> is_word v t = false.
Proof. unfold is_word. by destruct (kind t); intros <-. Qed.
Lemma one_symbol_other k l t : kind t = k -> k <> Symbol -> one_symbol l t = false.
Proof. intros Hk Hn. unfold one_symbol. induction l as [|v l IH]; [done|]. cbn. by rewrite (symbol_other k), IH. Qed.
Lemma one_of_other k l t : kind t = k -> k <> Identifier -> one_of l t = false.
Proof. intros Hk Hn. unfold one_of. induction l as [|v l IH]; [done|]. cbn. by rewrite (word_other k), IH. Qed.
Lemma symbol_texts l t : kind t = Symbol -> one_symbol l t = has_text l t.
Proof.
  intros Hk. apply eq_true_iff_eq. split.
  - intros [_ H]%one_symbol_inv. by apply bool_decide_eq_true_2.
  - intros (v & E & H)%bool_decide_eq_true_1%list_elem_of_fmap. apply existsb_exists. exists v. split; [by apply list_elem_of_In|].
    unfold is_symbol. rewrite Hk. by apply bool_decide_eq_true_2.
Qed.
Lemma operator_spec op : (0 <= precedence_of op)%Z -> op_precedence op = precedence_of op /\ is_plain op = true /\ is_end op = false /\ (precedence_of op <= 6)%Z.
Proof.
  intros H. assert (Hk : kind op = Symbol \/ kind op = Identifier).
  { unfold precedence_of in H. destruct (kind op) eqn:Ek; auto; exfalso; revert H; rewrite !(one_of_other (kind op)), !(one_symbol_other (kind op)), (symbol_other (kind op)); rewrite ?Ek; try done; lia. }
  destruct Hk as [Hk|Hk].
  - unfold precedence_of, op_precedence in *. rewrite !(one_of_other Symbol), !symbol_texts in * by done. cbn [orb] in *. rewrite orb_false_r in *.
    assert (E : is_symbol "**" op = has_text ["**"]%string op) by (rewrite <- symbol_texts by done; unfold one_symbol; cbn; by rewrite orb_false_r). rewrite E in *.
    split; [done|]. split; [|split; [unfold is_end; by rewrite Hk|repeat case_match; lia]]. unfold is_plain, is_suffix, is_string, bitStringBase. rewrite symbol_texts, Hk by done. cbn [negb andb].
    rewrite !andb_true_r. apply negb_true_iff. destruct (has_text ["."; "("; "'"]%string op) eqn:Ex; [|done]. exfalso. apply bool_decide_eq_true_1 in Ex.
    cbn [fmap list_fmap] in Ex. unfold has_text in H. assert (text op = chars "." \/ text op = chars "(" \/ text op = chars "'") as Hx by set_solver.
    destruct Hx as [Hx|[Hx|Hx]]; rewrite Hx in H; vm_compute in H; by apply H.
  - unfold precedence_of, op_precedence in *. rewrite !(one_symbol_other Identifier), (symbol_other Identifier) in * by done. cbn [orb] in *.
    split; [repeat case_match; done|]. split; [|split; [unfold is_end; by rewrite Hk|repeat case_match; lia]]. unfold is_plain, is_suffix, is_string. rewrite (one_symbol_other Identifier), Hk by done. cbn [negb andb].
    destruct (bitStringBase op) eqn:Eb; [|done]. exfalso. unfold bitStringBase in Eb. rewrite Hk in Eb. apply bool_decide_eq_true_1 in Eb.
    unfold one_of, is_word in H. cbn [existsb] in H. rewrite Hk in H. cbn [fmap list_fmap] in Eb.
    repeat (apply elem_of_cons in Eb as [Eb|Eb]; [rewrite Eb in H; vm_compute in H; by apply H|]). by apply not_elem_of_nil in Eb.
Qed.
Lemma symbol_not v w t : is_symbol v t = true -> bool_decide (chars v = chars w) = false -> is_symbol w t = false.
Proof. intros [Hk Ht]%is_symbol_inv E. unfold is_symbol. by rewrite Hk, Ht. Qed.
Lemma symbol_no_word v w t : is_symbol v t = true -> is_word w t = false.
Proof. intros [Hk _]%is_symbol_inv. by apply (word_other Symbol). Qed.
Lemma suffix_plain t : is_suffix t = true -> is_string t = false /\ bitStringBase t = false /\ is_end t = false.
Proof. intros [Hk _]%one_symbol_inv. unfold is_string, bitStringBase, is_end. by rewrite Hk. Qed.
Lemma ends_symbol v t : is_symbol v t = true -> (v = ")" \/ v = ",")%string -> ends_expression t = true.
Proof.
  intros [Hk Ht]%is_symbol_inv Hv. unfold ends_expression, is_plain, precedence_of, is_suffix, is_string, bitStringBase.
  rewrite !(one_of_other Symbol), !symbol_texts by done. unfold is_symbol, has_text. rewrite Hk, Ht. destruct Hv as [E|E]; rewrite E; by vm_compute.
Qed.
Lemma ends_direction t : is_direction t = true -> ends_expression t = true /\ is_end t = false.
Proof.
  intros [Hk Ht]%one_of_inv. unfold is_end. rewrite Hk. split; [|done].
  unfold ends_expression, is_plain, precedence_of, is_suffix, is_string, bitStringBase, one_of, is_word. rewrite !(one_symbol_other Identifier), (symbol_other Identifier) by done.
  cbn [existsb]. rewrite Hk. cbn [fmap list_fmap] in Ht. repeat (apply elem_of_cons in Ht as [Ht|Ht]; [rewrite Ht; by vm_compute|]). by apply not_elem_of_nil in Ht.
Qed.
Lemma ends_inv t : ends_expression t = true -> (precedence_of t < 0)%Z /\ is_plain t = true.
Proof. unfold ends_expression. intros [H1 H2]%andb_true_iff. split; [lia|done]. Qed.
Lemma plain_inv t : is_plain t = true -> is_suffix t = false /\ is_string t = false /\ bitStringBase t = false.
Proof. unfold is_plain. intros [[H1 H2]%andb_true_iff H3]%andb_true_iff. by rewrite <- !negb_true_iff. Qed.

(** * Facts on phrases *)

Ltac grammar H := cbn [grammatical] in H; repeat match type of H with _ && _ = true => apply andb_true_iff in H as [H ?] end.
Lemma right_level_nonneg op : (0 <= precedence_of op)%Z -> (precedence_of op <= right_level op <= precedence_of op + 1)%Z.
Proof. unfold right_level. destruct (has_text _ _); lia. Qed.
Lemma greed_bounds c : grammatical c = true -> (0 <= greed c <= 7)%Z /\ (greed c <= binds c + 1)%Z /\ (0 <= binds c <= 7)%Z.
Proof.
  induction c as [t|e IH|e IH|e IH|e IH|t|o e IH|op e IH|op l IHl r IHr]; cbn [greed binds]; intros H; try lia.
  - grammar H. destruct IH as (A1 & A2 & A3); [done|]. destruct (is_sign_token op); lia.
  - grammar H. destruct IHr as (A1 & A2 & A3); [done|]. destruct IHl as (A4 & A5 & A6); [done|]. assert (Hp : (0 <= precedence_of op)%Z) by lia.
    destruct (operator_spec op Hp) as (_ & _ & _ & ?). pose proof (right_level_nonneg op Hp). lia.
Qed.
Lemma tree_kind c : grammatical c = true -> e_kind (tree c) <> EAssociation.
Proof. induction c; cbn [tree twig e_kind]; try done; intros H; grammar H; auto. by destruct (literal_kind (kind t)) as [[]|] eqn:E; destruct (kind t). Qed.
Lemma bare_kind e : e_kind (bare e) = e_kind e.
Proof. by destruct e. Qed.
Lemma no_association e c : grammatical c = true -> bare e = tree c -> is_kind EAssociation e = false.
Proof. intros H%tree_kind E. unfold is_kind. rewrite <- bare_kind, E. by apply bool_decide_eq_false_2. Qed.
Lemma bare_span sp e : bare (set_e_span sp e) = bare e.
Proof. by destruct e. Qed.
Lemma flatten_nonempty c : exists t l, flatten c = t :: l.
Proof.
  induction c as [t|e [u [l E]]|e [u [l E]]|e [u [l E]]|e [u [l E]]|t|o e IH|op e IH|op a [u [l E]] r IHr]; cbn [flatten]; try (eexists _, _; reflexivity); rewrite E; eexists _, _; reflexivity.
Qed.
(** A name begins with its identifier, and goes on with a suffix. *)
Lemma name_first c : name_like c = true -> grammatical c = true -> exists t l, flatten c = t :: l /\ is_name t = true /\ match l with [] => True | u :: _ => is_suffix u = true end.
Proof.
  induction c as [t|e IH dot field|e IH tick name|e IH o i _ cl|e IH o i _ d j _ cl|t|o e IH|op e IH|op l IHl r IHr]; cbn [name_like flatten]; intros Hn H; try done;
    grammar H; [by exists t, []|..]; destruct IH as (t & l & E & Ht & Hl); try done; rewrite E; cbn [app]; eexists _, _; (split; [reflexivity|]); (split; [done|]);
    destruct l; cbn [app]; try done; unfold is_suffix, one_symbol; cbn [existsb];
    repeat match goal with H : is_symbol _ ?x = true |- context [is_symbol _ ?x] => rewrite H end; by rewrite ?orb_true_r.
Qed.

(** * Runs on known tokens *)

Section runs.
Context (tokens : list Token) (s0 : ParserState).

(** The parser before the tokens [l], the last ones. *)
Definition at_ (l : list Token) : ParserState := set_index (length tokens - length l) s0.
#[local] Notation ends l := (l `suffix_of` tokens).

Lemma suffix_lookup t l : ends (t :: l) -> tokens !! index_ (at_ (t :: l)) = Some t.
Proof.
  intros [k E]. cbn [at_ index_ set_index]. rewrite E, length_app. replace (length k + length (t :: l) - length (t :: l)) with (length k) by lia.
  by rewrite list_lookup_middle.
Qed.
Lemma at_next t l : ends (t :: l) -> set_index (S (index_ (at_ (t :: l)))) (at_ (t :: l)) = at_ l.
Proof. intros H%suffix_length. unfold at_, set_index. cbn in *. f_equal. lia. Qed.
Lemma at_start l : drop (index_ s0) tokens = l -> index_ s0 <= length tokens -> s0 = at_ l.
Proof. intros <- H. unfold at_, set_index. rewrite length_drop. destruct s0. cbn in *. f_equal. lia. Qed.
Lemma at_look t u l : ends (t :: u :: l) -> tokens !! S (index_ (at_ (t :: u :: l))) = Some u.
Proof. intros H. pose proof (suffix_lookup _ _ (suffix_cons_l _ _ _ H)) as E. rewrite <- E. f_equal. apply suffix_length in H. cbn in *. lia. Qed.

Section steps.
Context (t : Token) (l : list Token) (H : ends (t :: l)).
#[local] Notation post A := (A -> ParserState -> Prop).

Lemma run_current {A} (Q : post A) (k : Token -> parser A) : run (k t) (at_ (t :: l)) Q -> run (x ← current tokens; k x) (at_ (t :: l)) Q.
Proof. intros Hk. rewrite wp_bind. apply (wp_deref _ _ _ _ t); [by apply suffix_lookup|done]. Qed.
Lemma run_advance {A} (Q : post A) (k : Token -> parser A) : is_end t = false -> run (k t) (at_ l) Q -> run (x ← advance tokens; k x) (at_ (t :: l)) Q.
Proof.
  intros He Hk. rewrite wp_bind. unfold advance. rewrite wp_bind. apply (wp_deref _ _ _ _ t); [by apply suffix_lookup|].
  by rewrite He, wp_bind, wp_modify, wp_ret, at_next.
Qed.
Lemma run_test {A B} (Q : post A) (p : Token -> B) (k : B -> parser A) : run (k (p t)) (at_ (t :: l)) Q -> run (b ← (x ← current tokens; mret (p x)); k b) (at_ (t :: l)) Q.
Proof. intros Hk. rewrite !wp_bind. apply (wp_deref _ _ _ _ t); [by apply suffix_lookup|]. by rewrite wp_ret. Qed.
Lemma run_look1 {A} (Q : post A) u l' (k : Token -> parser A) : l = u :: l' -> run (k u) (at_ (t :: l)) Q -> run (x ← look tokens 1; k x) (at_ (t :: l)) Q.
Proof.
  intros -> Hk. rewrite wp_bind. unfold look. apply (wp_deref _ _ _ _ u); [|done]. pose proof (at_look _ _ _ H) as E.
  rewrite Nat.add_1_r. pose proof (lookup_lt_Some _ _ _ E) as Hl. apply Nat.ltb_lt in Hl. by rewrite Hl.
Qed.
Lemma run_look_any {A} (Q : post A) d (k : Token -> parser A) : (forall u, run (k u) (at_ (t :: l)) Q) -> run (x ← look tokens d; k x) (at_ (t :: l)) Q.
Proof.
  intros Hk. rewrite wp_bind. unfold look. pose proof (lookup_lt_Some _ _ _ (suffix_lookup _ _ H)) as Hl.
  set (i := if index_ (at_ (t :: l)) + d <? length tokens then index_ (at_ (t :: l)) + d else length tokens - 1). assert (Hi : i < length tokens) by (unfold i; destruct (Nat.ltb_spec (index_ (at_ (t :: l)) + d) (length tokens)); lia).
  destruct (lookup_lt_is_Some_2 tokens i Hi) as [u Hu]. by apply (wp_deref _ _ _ _ u).
Qed.
Lemma run_previous {A} (Q : post A) (k : Token -> parser A) : run (k t) (at_ l) Q -> run (x ← previous tokens; k x) (at_ l) Q.
Proof.
  intros Hk. rewrite wp_bind. unfold previous. apply (wp_deref _ _ _ _ t); [|done]. rewrite <- (at_next _ _ H). apply (suffix_lookup _ _ H).
Qed.
Lemma run_accept {A} (Q : post A) (p : Token -> bool) (k : bool -> parser A) : (forall t, p t = true -> is_end t = false) ->
  run (k (p t)) (at_ (if p t then l else t :: l)) Q ->
  run (b ← (b ← (x ← current tokens; mret (p x)); if negb b then mret false else advance tokens ;; mret true); k b) (at_ (t :: l)) Q.
Proof.
  intros Hp Hk. rewrite !wp_bind. apply (wp_deref _ _ _ _ t); [by apply suffix_lookup|]. rewrite wp_ret. destruct (p t) eqn:E; cbn [negb]; [|done].
  apply run_advance; [by apply Hp|done].
Qed.
Lemma run_symbol {A} (Q : post A) v (k : bool -> parser A) : run (k (is_symbol v t)) (at_ (t :: l)) Q -> run (b ← symbol tokens v; k b) (at_ (t :: l)) Q.
Proof. apply run_test. Qed.
Lemma run_words {A} (Q : post A) w (k : bool -> parser A) : run (k (one_of w t)) (at_ (t :: l)) Q -> run (b ← words tokens w; k b) (at_ (t :: l)) Q.
Proof. apply run_test. Qed.
Lemma run_isName {A} (Q : post A) (k : bool -> parser A) : run (k (is_name_token t)) (at_ (t :: l)) Q -> run (b ← isNameToken tokens; k b) (at_ (t :: l)) Q.
Proof. apply run_test. Qed.
Lemma run_acceptSymbol {A} (Q : post A) v (k : bool -> parser A) : run (k (is_symbol v t)) (at_ (if is_symbol v t then l else t :: l)) Q -> run (b ← acceptSymbol tokens v; k b) (at_ (t :: l)) Q.
Proof. apply run_accept. apply is_symbol_end. Qed.
Lemma run_acceptWord {A} (Q : post A) v (k : bool -> parser A) : run (k (is_word v t)) (at_ (if is_word v t then l else t :: l)) Q -> run (b ← acceptWord tokens v; k b) (at_ (t :: l)) Q.
Proof. apply run_accept. apply is_word_end. Qed.
Lemma run_expectSymbol {A} (Q : post A) v (k : bool -> parser A) : is_symbol v t = true -> run (k true) (at_ l) Q -> run (b ← expectSymbol tokens v; k b) (at_ (t :: l)) Q.
Proof. intros Hv Hk. rewrite wp_bind. unfold expectSymbol. apply run_acceptSymbol. by rewrite Hv, wp_ret. Qed.
Lemma run_parseName {A} (Q : post A) (k : option Name -> parser A) : is_name_token t = true -> run (k (Some (mkName (text t) (canonical t) (span t)))) (at_ l) Q ->
  run (n ← parseName tokens; k n) (at_ (t :: l)) Q.
Proof.
  intros Hn Hk. rewrite wp_bind. unfold parseName. apply run_current. rewrite Hn. cbn [negb]. apply run_advance; [by apply is_name_end|by rewrite wp_ret].
Qed.
Lemma run_previous_span {A} (Q : post A) (k : SourceSpan -> parser A) : run (k (span t)) (at_ l) Q -> run (x ← previous_span tokens; k x) (at_ l) Q.
Proof. intros Hk. rewrite wp_bind. unfold previous_span. apply run_previous. by rewrite wp_ret. Qed.
End steps.

Lemma run_acceptUnary {A} (Q : A -> ParserState -> Prop) t l (k : bool -> parser A) : ends (t :: l) ->
  run (k (is_unary t)) (at_ (if is_unary t then l else t :: l)) Q -> run (b ← acceptUnary tokens; k b) (at_ (t :: l)) Q.
Proof.
  intros H Hk. unfold is_unary, one_symbol, one_of, unary_words in Hk. cbn [existsb] in Hk. rewrite wp_bind. unfold acceptUnary. cbn [foldr]. unfold either.
  repeat (first [apply run_acceptSymbol|apply run_acceptWord]; [done|];
    lazymatch goal with |- context [if ?b then mret true else _] => destruct b; cbn [orb] in Hk; [by rewrite wp_ret|] end). by rewrite wp_ret.
Qed.

Lemma run_suffix {A} (Q : A -> ParserState -> Prop) t l (k : bool -> parser A) : ends (t :: l) ->
  run (k (is_suffix t)) (at_ (t :: l)) Q -> run (b ← either (symbol tokens ".") (either (symbol tokens "(") (symbol tokens "'")); k b) (at_ (t :: l)) Q.
Proof.
  intros H Hk. unfold is_suffix, one_symbol in Hk. cbn [existsb] in Hk. rewrite wp_bind. unfold either.
  repeat (apply run_symbol; [done|]; destruct (is_symbol _ t); cbn [orb] in Hk; [by rewrite wp_ret|]).
  rewrite orb_false_r in Hk. unfold symbol. rewrite wp_bind. apply (wp_deref _ _ _ _ t); [by apply suffix_lookup|]. by rewrite wp_ret.
Qed.
Lemma iterate_S {L R} f (body : L -> parser (L + R)) l s (Q : R -> ParserState -> Prop) :
  run (body l) s (fun r s' => match r with inl l => run (iterate f body l) s' Q | inr r => Q r s' end) -> run (iterate (S f) body l) s Q.
Proof. intros H. cbn [iterate]. rewrite wp_bind. eapply run_mono; [exact H|]. cbn beta. intros [l'|r] s' H'; [done|by rewrite wp_ret]. Qed.
Lemma rounds_after l : ends l -> length l < rounds tokens.
Proof. intros H%suffix_length. unfold rounds. lia. Qed.

(** The bodies of the two loops. *)
Definition operators (parse : request -> parser (option Expression)) (p : Z) (lhs : Expression) : parser (Expression + option Expression) :=
  q ← precedence tokens;
  if (p <=? q)%Z then
    op ← advance tokens;
    rhs ← parse (Exp (op_precedence op + (if has_text ["**"]%string op then 0 else 1)));
    match rhs with
    | None => mret (inr None)
    | Some rhs => mret (inl (make_node EBinary (operator_text op) (join (e_span lhs) (e_span rhs)) (Some lhs) (Some rhs)))
    end
  else mret (inr (Some lhs)).
Definition suffixes (parse : request -> parser (option Expression)) (e : Expression) : parser (Expression + option Expression) :=
  b ← either (symbol tokens ".") (either (symbol tokens "(") (symbol tokens "'"));
  if b : bool then r ← parseSuffix tokens parse e; mret (match r with Some e => inl e | None => inr None end) else mret (inr (Some e)).
Lemma run_operators parse p e t l Q : ends (t :: l) -> (p <= precedence_of t)%Z -> is_end t = false ->
  run (parse (Exp (op_precedence t + (if has_text ["**"]%string t then 0 else 1)))) (at_ l) (fun r s' => match r with
    | Some rhs => Q (inl (make_node EBinary (operator_text t) (join (e_span e) (e_span rhs)) (Some e) (Some rhs))) s' | None => False end) ->
  run (operators parse p e) (at_ (t :: l)) Q.
Proof.
  intros H Hp He Hr. unfold operators, precedence. apply run_test; [done|]. apply Z.leb_le in Hp. rewrite Hp. apply run_advance; [done..|]. rewrite wp_bind.
  eapply run_mono; [exact Hr|]. cbn beta. intros [rhs|] s' H'; [by rewrite wp_ret|done].
Qed.
Lemma run_operators_stop parse p e t l f Q : ends (t :: l) -> (precedence_of t < p)%Z -> 0 < f -> Q (Some e) (at_ (t :: l)) -> run (iterate f (operators parse p) e) (at_ (t :: l)) Q.
Proof.
  intros H Hp Hf HQ. destruct f as [|f]; [lia|]. apply iterate_S. unfold operators, precedence. apply run_test; [done|]. apply Z.leb_gt in Hp. by rewrite Hp, wp_ret.
Qed.
Lemma run_suffixes_stop parse e t l f Q : ends (t :: l) -> is_suffix t = false -> 0 < f -> Q (Some e) (at_ (t :: l)) -> run (iterate f (suffixes parse) e) (at_ (t :: l)) Q.
Proof. intros H Ht Hf HQ. destruct f as [|f]; [lia|]. apply iterate_S. unfold suffixes. apply run_suffix; [done|]. by rewrite Ht, wp_ret. Qed.
Lemma run_suffixes parse e t l f Q : ends (t :: l) -> is_suffix t = true ->
  run (parseSuffix tokens parse e) (at_ (t :: l)) (fun r s' => match r with Some e => run (iterate f (suffixes parse) e) s' Q | None => False end) ->
  run (iterate (S f) (suffixes parse) e) (at_ (t :: l)) Q.
Proof.
  intros H Ht Hr. apply iterate_S. unfold suffixes at 1. apply run_suffix; [done|]. rewrite Ht, wp_bind. eapply run_mono; [exact Hr|]. cbn beta.
  intros [e'|] s' H'; [by rewrite wp_ret|done].
Qed.

(** * Runs on phrases *)

(** The phrase is read where the next token does not go on with it; for the last
    operand and the last suffix, what follows goes on from there. *)
Definition follows (c : phrase) (t : Token) : Prop := is_plain t = true /\ (precedence_of t < greed c)%Z.
Definition primary_ok (c : phrase) : Prop := forall fuel t l Q, ends (flatten c ++ t :: l) -> follows c t -> 2 * length (flatten c ++ t :: l) - 1 <= fuel ->
  (forall e, bare e = tree c -> Q (Some e) (at_ (t :: l))) -> run (parse_expression tokens fuel Primary) (at_ (flatten c ++ t :: l)) Q.
Definition expression_ok (c : phrase) : Prop := forall fuel p t l Q, ends (flatten c ++ t :: l) -> follows c t -> (p <= binds c)%Z -> 2 * length (flatten c ++ t :: l) - 1 <= fuel ->
  (forall e f, bare e = tree c -> length (t :: l) < f -> run (iterate f (operators (parse_expression tokens fuel) p) e) (at_ (t :: l)) Q) ->
  run (parseExpression_ tokens (parse_expression tokens fuel) p) (at_ (flatten c ++ t :: l)) Q.
Definition name_ok (c : phrase) : Prop := forall fuel l Q, ends (flatten c ++ l) -> 2 * length (flatten c ++ l) - 2 <= fuel ->
  (forall e f, bare e = tree c -> length l < f -> run (iterate f (suffixes (parse_expression tokens fuel)) e) (at_ l) Q) ->
  run (parseNameExpression tokens (parse_expression tokens fuel)) (at_ (flatten c ++ l)) Q.

Lemma expression_read c fuel p t l Q : expression_ok c -> ends (flatten c ++ t :: l) -> follows c t -> (precedence_of t < p <= binds c)%Z -> 2 * length (flatten c ++ t :: l) <= fuel ->
  (forall e, bare e = tree c -> Q (Some e) (at_ (t :: l))) -> run (parse_expression tokens fuel (Exp p)) (at_ (flatten c ++ t :: l)) Q.
Proof.
  intros Hc H Hf [Hp1 Hp2] Hl HQ. rewrite length_app in Hl. cbn in Hl. destruct fuel as [|fuel]; [lia|]. cbn [parse_expression].
  apply Hc; [done..|rewrite length_app; cbn; lia|]. intros e f He Hf'. apply run_operators_stop; [by eapply suffix_app_l|done|lia|auto].
Qed.
Lemma primary_expression c : is_binary c = false -> primary_ok c -> expression_ok c.
Proof.
  intros Hb Hc fuel p t l Q H Hf _ Hl HQ. unfold parseExpression_. rewrite wp_bind. apply Hc; [done..|]. intros e He.
  change (run (iterate (rounds tokens) (operators (parse_expression tokens fuel) p) e) (at_ (t :: l)) Q). apply HQ; [done|]. apply rounds_after. by eapply suffix_app_l.
Qed.
Lemma binary_expression op a b : grammatical (PBinary op a b) = true -> expression_ok a -> expression_ok b -> expression_ok (PBinary op a b).
Proof.
  intros H Ha Hb fuel p t l Q Hs [Hp Hg] Hlev Hl HQ. grammar H. cbn [flatten greed binds tree] in *. rewrite <- app_assoc in *. cbn [app] in *.
  assert (H0' : (0 <= precedence_of op)%Z) by lia. destruct (operator_spec op H0') as (Eop & Hplain & Hend & _).
  assert (Hs' : ends (op :: flatten b ++ t :: l)) by (by eapply suffix_app_l).
  apply Ha; [done|split; [done|lia]| |done|]; [destruct (greed_bounds a) as (_ & ? & _); [done|lia]|].
  intros e f He Hf. destruct f as [|f]; [lia|]. apply iterate_S. apply run_operators; [done..|lia|done|]. rewrite Eop. change (precedence_of op + _)%Z with (right_level op).
  apply expression_read; [done|by eapply suffix_cons_l|split; [done|lia]|lia|rewrite length_app in Hl; cbn in Hl; destruct (flatten_nonempty a) as (x & l' & E); rewrite E in Hl; cbn in Hl; lia|].
  intros e' He'. apply HQ; [cbn; by rewrite He, He'|]. cbn in *. rewrite length_app in Hf. cbn in Hf. lia.
Qed.

(** The beginning of a primary. *)
Lemma run_not_extended {A} (Q : A -> ParserState -> Prop) t u l (k : bool -> parser A) : ends (t :: u :: l) -> is_string u = false -> bitStringBase u = false ->
  run (k false) (at_ (t :: u :: l)) Q -> run (b ← startsExtendedBitString tokens; k b) (at_ (t :: u :: l)) Q.
Proof.
  intros H H1 H2 Hk. rewrite wp_bind. unfold startsExtendedBitString. apply run_current; [done|]. apply (run_look1 _ _ H _ u l); [done|].
  apply run_look_any; [done|]. intros v. by rewrite wp_ret, H1, H2, !andb_false_r, andb_false_l.
Qed.
Lemma run_never_extended {A} (Q : A -> ParserState -> Prop) t l (k : bool -> parser A) : ends (t :: l) -> is_integer t = false -> bitStringBase t = false ->
  run (k false) (at_ (t :: l)) Q -> run (b ← startsExtendedBitString tokens; k b) (at_ (t :: l)) Q.
Proof.
  intros H H1 H2 Hk. rewrite wp_bind. unfold startsExtendedBitString. apply run_current; [done|]. apply run_look_any; [done|]. intros u.
  apply run_look_any; [done|]. intros v. rewrite wp_ret, H1, H2, !andb_false_l. cbn [orb].
  assert (E : is_word "d" t = false).
  { destruct (is_word "d" t) eqn:E; [|done]. apply is_word_inv in E as [Hk' Hc]. exfalso. revert H2. unfold bitStringBase. rewrite Hk', Hc. by vm_compute. }
  by rewrite E.
Qed.
Lemma run_no_bits {A} (Q : A -> ParserState -> Prop) t u l (k : bool -> parser A) : ends (t :: u :: l) -> is_string u = false ->
  run (k false) (at_ (t :: u :: l)) Q -> run (b ← both (words tokens ["x"; "b"; "o"]%string) (x ← look tokens 1; mret (is_string x)); k b) (at_ (t :: u :: l)) Q.
Proof.
  intros H H1 Hk. rewrite wp_bind. unfold both. apply run_words; [done|]. destruct (one_of _ t); [|by rewrite wp_ret].
  apply (run_look1 _ _ H _ u l); [done|]. by rewrite wp_ret, H1.
Qed.
Lemma name_facts t : is_name t = true -> is_name_token t = true /\ is_unary t = false /\ is_symbol "(" t = false.
Proof.
  unfold is_name, is_unary. intros [Hn Hu%negb_true_iff]%andb_true_iff. split; [done|]. rewrite Hu, orb_false_r.
  unfold is_name_token in Hn. split; [by apply (one_symbol_other (kind t)); destruct (kind t)|by apply (symbol_other (kind t)); destruct (kind t)].
Qed.
Lemma primary_name parse t u l Q : ends (t :: u :: l) -> is_name t = true -> is_string u = false -> bitStringBase u = false ->
  run (parseNameExpression tokens parse) (at_ (t :: u :: l)) Q -> run (parsePrimary_ tokens parse) (at_ (t :: u :: l)) Q.
Proof.
  intros H Hn H1 H2 Hr. destruct (name_facts t Hn) as (Hn' & Hu & Hp). unfold parsePrimary_. apply run_not_extended; [done..|].
  apply run_acceptUnary; [done|]. rewrite Hu. apply run_acceptSymbol; [done|]. rewrite Hp. apply run_no_bits; [done..|]. apply run_isName; [done|]. by rewrite Hn'.
Qed.
Lemma literal_ok t : grammatical (PLiteral t) = true -> primary_ok (PLiteral t).
Proof.
  intros Hg fuel u l Q H [(_ & H1 & H2)%plain_inv _] Hf HQ. cbn [flatten app grammatical tree] in *. destruct (literal_kind (kind t)) as [k|] eqn:Ek; [|done].
  destruct fuel as [|fuel]; [cbn in Hf; lia|]. cbn [parse_expression]. unfold parsePrimary_. apply run_not_extended; [done..|].
  assert (Hk : kind t <> Symbol /\ kind t <> Identifier /\ is_name_token t = false /\ is_end t = false) by (unfold is_name_token, is_end; by destruct (kind t)).
  destruct Hk as (K1 & K2 & K3 & K4). apply run_acceptUnary; [done|].
  assert (Hu : is_unary t = false) by (unfold is_unary; by rewrite (one_symbol_other (kind t)), (one_of_other (kind t))).
  rewrite Hu. apply run_acceptSymbol; [done|]. rewrite (symbol_other (kind t)) by done. apply run_no_bits; [done..|]. apply run_isName; [done|]. rewrite K3.
  unfold parseLiteral. apply run_current; [done|]. rewrite Ek. apply run_advance; [done..|]. rewrite wp_ret. by apply HQ.
Qed.
Lemma name_primary c : name_like c = true -> grammatical c = true -> name_ok c -> primary_ok c.
Proof.
  intros Hn Hg Hc fuel t l Q H [Hp _] Hf HQ. destruct (plain_inv _ Hp) as (Hs & H1 & H2). destruct fuel as [|fuel]; [rewrite length_app in Hf; cbn in Hf; lia|].
  cbn [parse_expression]. assert (Hr : run (parseNameExpression tokens (parse_expression tokens fuel)) (at_ (flatten c ++ t :: l)) Q).
  { apply Hc; [done|lia|]. intros e f He Hf'. apply run_suffixes_stop; [by eapply suffix_app_l|done|cbn in Hf'; lia|by apply HQ]. }
  destruct (name_first c Hn Hg) as (t0 & r & E & Ht0 & Hr0). rewrite E in *. cbn [app] in *. destruct r as [|u r]; cbn [app] in *.
  - by apply primary_name.
  - apply suffix_plain in Hr0 as (U1 & U2 & _). by apply primary_name.
Qed.

(** Indices and ranges. *)
Lemma ends_follow c t : grammatical c = true -> ends_expression t = true -> follows c t /\ (precedence_of t < 0 <= binds c)%Z.
Proof. intros Hg [Hp Hpl]%ends_inv. destruct (greed_bounds c Hg) as (? & _ & ?). split; [split; [done|]|]; lia. Qed.
Lemma index_read c fuel t l Q : grammatical c = true -> expression_ok c -> ends (flatten c ++ t :: l) -> is_symbol ")" t = true -> 2 * length (flatten c ++ t :: l) <= fuel ->
  (forall e, bare e = tree c -> Q (Some e) (at_ (t :: l))) -> run (parseIndex_ tokens (parse_expression tokens fuel)) (at_ (flatten c ++ t :: l)) Q.
Proof.
  intros Hg Hc H Ht Hf HQ. destruct (ends_follow c t Hg) as [? ?]; [apply (ends_symbol _ _ Ht); auto|]. unfold parseIndex_. rewrite wp_bind. apply expression_read; [done..|].
  intros e He. apply run_words; [by eapply suffix_app_l|]. destruct (is_symbol_inv _ _ Ht) as [Hk _]. rewrite (one_of_other Symbol), wp_ret by done. by apply HQ.
Qed.
Lemma range_read a b fuel d t l Q : grammatical a = true -> grammatical b = true -> expression_ok a -> expression_ok b -> is_direction d = true -> is_symbol ")" t = true ->
  ends (flatten a ++ d :: flatten b ++ t :: l) -> 2 * length (flatten a ++ d :: flatten b ++ t :: l) <= fuel ->
  (forall e, bare e = twig ERange (canonical d) [] (Some (tree a)) (Some (tree b)) -> Q (Some e) (at_ (t :: l))) ->
  run (parseIndex_ tokens (parse_expression tokens fuel)) (at_ (flatten a ++ d :: flatten b ++ t :: l)) Q.
Proof.
  intros Ga Gb Ha Hb Hd Ht H Hf HQ. destruct (ends_direction d Hd) as [Hde Hdn]. destruct (ends_follow a d Ga Hde) as [? ?].
  destruct (ends_follow b t Gb) as [? ?]; [apply (ends_symbol _ _ Ht); auto|]. unfold parseIndex_. rewrite wp_bind. apply expression_read; [done..|].
  intros e He. assert (H' : ends (d :: flatten b ++ t :: l)) by (by eapply suffix_app_l). apply run_words; [done|]. unfold is_direction in Hd. rewrite Hd.
  apply run_advance; [done..|]. rewrite wp_bind. apply expression_read; [done|by eapply suffix_cons_l|done..|rewrite length_app in Hf; cbn in Hf; lia|].
  intros e' He'. rewrite wp_ret. apply HQ. cbn. by rewrite He, He'.
Qed.
(** What follows an index that is the only one. *)
Lemma alone_ok parse callee i t l Q : ends (t :: l) -> is_symbol ")" t = true -> is_kind EAssociation i = false ->
  (forall sp, Q (Some (make_node EIndexed [] sp (Some callee) (Some i))) (at_ l)) ->
  run (index ←? associate tokens parse i; b ← symbol tokens ",";
    if b || is_kind EAssociation index then parseCall tokens parse callee index
    else demand expectSymbol tokens ")"; stop ← previous_span tokens; mret (Some (make_node EIndexed [] (join (e_span callee) stop) (Some callee) (Some index)))) (at_ (t :: l)) Q.
Proof.
  intros H Ht Hi HQ. unfold associate. rewrite wp_bind. apply run_acceptSymbol; [done|]. rewrite (symbol_not ")" "=>") by done. cbn [negb]. rewrite wp_ret.
  apply run_symbol; [done|]. rewrite (symbol_not ")" ",") by done. rewrite Hi. cbn [orb]. apply run_expectSymbol; [done..|]. eapply run_previous_span; [done|]. by rewrite wp_ret.
Qed.

(** Names. *)
Lemma name_name t : is_name t = true -> name_ok (PName t).
Proof.
  intros Hn fuel l Q H Hf HQ. cbn [flatten app tree] in *. destruct (name_facts t Hn) as (Hn' & _ & _). unfold parseNameExpression.
  apply run_parseName; [done..|]. apply HQ; [done|]. apply rounds_after. by eapply suffix_cons_l.
Qed.
(** A suffix on a name that is read. *)
Lemma suffix_name e fuel t l Q : name_ok e -> ends (flatten e ++ t :: l) -> is_suffix t = true -> 2 * length (flatten e ++ t :: l) - 2 <= fuel ->
  (forall e' f, bare e' = tree e -> length l < f -> run (parseSuffix tokens (parse_expression tokens fuel) e') (at_ (t :: l)) (fun r s' => match r with
    | Some e => run (iterate f (suffixes (parse_expression tokens fuel)) e) s' Q | None => False end)) ->
  run (parseNameExpression tokens (parse_expression tokens fuel)) (at_ (flatten e ++ t :: l)) Q.
Proof.
  intros He H Ht Hf HQ. apply He; [done..|]. intros e' f He' Hf'. destruct f as [|f]; [lia|]. apply run_suffixes; [by eapply suffix_app_l|done|].
  apply HQ; [done|cbn in Hf'; lia].
Qed.
Lemma is_suffix_of v t : is_symbol v t = true -> (v = "." \/ v = "(" \/ v = "'")%string -> is_suffix t = true.
Proof. intros H [->|[->| ->]]; unfold is_suffix, one_symbol; cbn [existsb]; rewrite H; by rewrite ?orb_true_r. Qed.
Lemma selected_name e dot field : grammatical (PSelected e dot field) = true -> name_ok e -> name_ok (PSelected e dot field).
Proof.
  intros Hg He fuel l Q H Hf HQ. grammar Hg. cbn [flatten tree] in *. rewrite <- app_assoc in *. cbn [app] in *.
  apply suffix_name; [done..|by apply (is_suffix_of "."); auto|done|]. intros e' f He' Hf'. assert (Hs : ends (dot :: field :: l)) by (by eapply suffix_app_l).
  unfold parseSuffix. apply run_acceptSymbol; [done|]. rewrite (symbol_not "." "'") by done. apply run_acceptSymbol; [done|].
  match goal with H : is_symbol "." dot = true |- _ => rewrite H end. apply run_parseName; [by eapply suffix_cons_l|done|]. rewrite wp_ret.
  apply HQ; [cbn; by rewrite He'|cbn in Hf'; lia].
Qed.
Lemma attribute_name e tick name : grammatical (PAttribute e tick name) = true -> name_ok e -> name_ok (PAttribute e tick name).
Proof.
  intros Hg He fuel l Q H Hf HQ. grammar Hg. cbn [flatten tree] in *. rewrite <- app_assoc in *. cbn [app] in *.
  apply suffix_name; [done..|by apply (is_suffix_of "'"); auto|done|]. intros e' f He' Hf'. assert (Hs : ends (tick :: name :: l)) by (by eapply suffix_app_l).
  unfold parseSuffix. apply run_acceptSymbol; [done|]. match goal with H : is_symbol "'" tick = true |- _ => rewrite H end.
  apply run_parseName; [by eapply suffix_cons_l|done|]. rewrite wp_ret. apply HQ; [cbn; by rewrite He'|cbn in Hf'; lia].
Qed.
(** An index in parentheses after a name, once it can be read. *)
Lemma index_name e o cl fuel (i : list Token) (x : Expression) l Q : name_ok e -> is_symbol "(" o = true -> is_symbol ")" cl = true -> e_kind x <> EAssociation ->
  ends (flatten e ++ o :: i ++ cl :: l) -> 2 * length (flatten e ++ o :: i ++ cl :: l) - 2 <= fuel ->
  (forall Q', (forall x', bare x' = x -> Q' (Some x') (at_ (cl :: l))) -> run (parseIndex_ tokens (parse_expression tokens fuel)) (at_ (i ++ cl :: l)) Q') ->
  (forall e' f, bare e' = twig EIndexed [] [] (Some (tree e)) (Some x) -> length l < f -> run (iterate f (suffixes (parse_expression tokens fuel)) e') (at_ l) Q) ->
  run (parseNameExpression tokens (parse_expression tokens fuel)) (at_ (flatten e ++ o :: i ++ cl :: l)) Q.
Proof.
  intros He Ho Hcl Hx H Hf Hi HQ. apply suffix_name; [done..|by apply (is_suffix_of "("); auto|done|]. intros e' f He' Hf'.
  assert (Hs : ends (o :: i ++ cl :: l)) by (by eapply suffix_app_l). unfold parseSuffix.
  apply run_acceptSymbol; [done|]. rewrite (symbol_not "(" "'") by done. apply run_acceptSymbol; [done|]. rewrite (symbol_not "(" ".") by done.
  apply run_advance; [done|by eapply is_symbol_end|]. rewrite wp_bind. apply Hi. intros x' Hx'. apply alone_ok; [by eapply suffix_app_l, suffix_cons_l|done| |].
  - unfold is_kind. rewrite <- bare_kind, Hx'. by apply bool_decide_eq_false_2.
  - intros sp. apply HQ; [cbn; by rewrite He', Hx'|]. rewrite length_app in Hf'. cbn in Hf'. lia.
Qed.
Lemma indexed_name e o i cl : grammatical (PIndexed e o i cl) = true -> name_ok e -> expression_ok i -> name_ok (PIndexed e o i cl).
Proof.
  intros Hg He Hi fuel l Q H Hf HQ. grammar Hg. cbn [flatten tree] in *. rewrite <- app_assoc in *. cbn [app] in *. rewrite <- app_assoc in *. cbn [app] in *.
  assert (Hs : ends (flatten i ++ cl :: l)) by (eapply suffix_cons_l; by eapply suffix_app_l). destruct (flatten_nonempty e) as (x & y & E).
  apply (index_name _ _ _ _ _ (tree i)); [done..|by apply tree_kind|done|done| |done]. intros Q' HQ'. apply index_read; [done..| |done].
  rewrite E in Hf. rewrite length_app in Hf. cbn in Hf. lia.
Qed.
Lemma slice_name e o i d j cl : grammatical (PSlice e o i d j cl) = true -> name_ok e -> expression_ok i -> expression_ok j -> name_ok (PSlice e o i d j cl).
Proof.
  intros Hg He Hi Hj fuel l Q H Hf HQ. grammar Hg. cbn [flatten tree] in *.
  assert (El : forall r, (flatten e ++ o :: flatten i ++ d :: flatten j ++ [cl]) ++ r = flatten e ++ o :: (flatten i ++ d :: flatten j) ++ cl :: r).
  { intros r. by do 3 (rewrite <- ?app_assoc; cbn [app]). }
  rewrite El in *. assert (Hs : ends ((flatten i ++ d :: flatten j) ++ cl :: l)) by (eapply suffix_cons_l; by eapply suffix_app_l).
  destruct (flatten_nonempty e) as (x & y & E).
  apply (index_name _ _ _ _ _ (twig ERange (canonical d) [] (Some (tree i)) (Some (tree j)))); [done..| |done]. intros Q' HQ'.
  rewrite <- app_assoc in *. cbn [app] in *. apply range_read; [done..| |done]. rewrite E in Hf. rewrite length_app in Hf. cbn in Hf. lia.
Qed.

(** Parentheses and unary operators. *)
Lemma paren_ok o c cl : grammatical (PParen o c cl) = true -> expression_ok c -> primary_ok (PParen o c cl).
Proof.
  intros Hg Hc fuel t l Q H Hfo Hf HQ. grammar Hg. cbn [flatten tree] in *. cbn [app] in *. rewrite <- app_assoc in *. cbn [app] in *.
  destruct fuel as [|fuel]; [cbn in Hf; lia|]. cbn [parse_expression]. unfold parsePrimary_. destruct (is_symbol_inv _ _ Hg) as [Hk Ht].
  apply run_never_extended; [done|unfold is_integer; by rewrite Hk|unfold bitStringBase; by rewrite Hk|]. apply run_acceptUnary; [done|].
  assert (Hu : is_unary o = false) by (unfold is_unary; rewrite (one_of_other Symbol), symbol_texts, orb_false_r by done; unfold has_text; by rewrite Ht).
  rewrite Hu. apply run_acceptSymbol; [done|]. rewrite Hg. assert (Hs : ends (flatten c ++ cl :: t :: l)) by (by eapply suffix_cons_l).
  unfold parseParenthesized. eapply run_previous_span; [done|].
  assert (Hother : forall (m : bool -> parser (option Expression)), run (m false) (at_ (flatten c ++ cl :: t :: l)) Q ->
    run (b ← acceptWord tokens "others"; m b) (at_ (flatten c ++ cl :: t :: l)) Q).
  { intros m Hm. destruct (flatten_nonempty c) as (x & y & E). match goal with H : no_others c = true |- _ => unfold no_others in H; rewrite E in H; apply negb_true_iff in H; rename H into Hx end.
    rewrite E in *. cbn [app] in *. apply run_acceptWord; [done|]. by rewrite Hx. }
  apply Hother. rewrite wp_bind. unfold parseElement. rewrite wp_bind. assert (Hcl : ends (cl :: t :: l)) by (by eapply suffix_app_l).
  apply index_read; [done..|cbn in Hf; lia|]. intros e He. apply run_symbol; [done|]. rewrite (symbol_not ")" "|") by done. rewrite wp_bind, wp_ret.
  unfold associate. apply run_acceptSymbol; [done|]. rewrite (symbol_not ")" "=>") by done. cbn [negb]. rewrite wp_ret.
  apply run_symbol; [done|]. rewrite (symbol_not ")" ",") by done. rewrite (no_association e c) by done. cbn [orb]. rewrite wp_bind, wp_ret.
  apply run_expectSymbol; [done..|]. eapply run_previous_span; [done|]. rewrite wp_ret. apply HQ. by rewrite bare_span.
Qed.
Lemma unary_facts t : is_unary t = true -> is_end t = false /\ is_integer t = false /\ bitStringBase t = false.
Proof.
  unfold is_unary, is_end, is_integer, bitStringBase. intros [[Hk _]%one_symbol_inv|[Hk Ht]%one_of_inv]%orb_true_iff; rewrite Hk; [done|]. split_and!; [done..|].
  unfold unary_words in Ht. cbn [fmap list_fmap] in Ht. repeat (apply elem_of_cons in Ht as [Ht|Ht]; [rewrite Ht; by vm_compute|]). by apply not_elem_of_nil in Ht.
Qed.
Lemma unary_ok op c : grammatical (PUnary op c) = true -> (is_binary c = false -> primary_ok c) -> expression_ok c -> primary_ok (PUnary op c).
Proof.
  intros Hg Hprim Hexp fuel t l Q H [Hp Hgr] Hf HQ. grammar Hg. cbn [flatten greed tree app] in *. destruct fuel as [|fuel]; [cbn in Hf; lia|].
  cbn [parse_expression]. unfold parsePrimary_. destruct (unary_facts op Hg) as (U1 & U2 & U3). apply run_never_extended; [done..|].
  apply run_acceptUnary; [done|]. rewrite Hg. unfold parseUnary. eapply run_previous; [done|]. change (has_text ["+"; "-"]%string op) with (is_sign_token op).
  assert (Hs : ends (flatten c ++ t :: l)) by (by eapply suffix_cons_l). cbn [length] in Hf. rewrite wp_bind. destruct (is_sign_token op).
  - apply expression_read; [done..|split; [done|lia]|lia|lia|]. intros e He. rewrite wp_ret. apply HQ. cbn. by rewrite He.
  - match goal with H : negb (is_binary c) = true |- _ => apply negb_true_iff in H; specialize (Hprim H) end.
    apply Hprim; [done|by split|lia|]. intros e He. rewrite wp_ret. apply HQ. cbn. by rewrite He.
Qed.

Lemma phrase_ok c : grammatical c = true -> (is_binary c = false -> primary_ok c) /\ expression_ok c /\ (name_like c = true -> name_ok c).
Proof.
  assert (Hsimple : forall c, is_binary c = false -> name_like c = false -> primary_ok c -> (is_binary c = false -> primary_ok c) /\ expression_ok c /\ (name_like c = true -> name_ok c)).
  { intros c' Hb Hn Hc. split; [done|]. split; [by apply primary_expression|by rewrite Hn]. }
  assert (Hname : forall c, is_binary c = false -> name_like c = true -> grammatical c = true -> name_ok c -> (is_binary c = false -> primary_ok c) /\ expression_ok c /\ (name_like c = true -> name_ok c)).
  { intros c' Hb Hn Hg Hc. pose proof (name_primary c' Hn Hg Hc). split; [done|]. split; [by apply primary_expression|done]. }
  induction c as [t|e IH dot field|e IH tick name|e IH o i IHi cl|e IH o i IHi d j IHj cl|t|o e IH cl|op e IH|op a IHa b IHb]; intros Hg; pose proof Hg as Hg'; grammar Hg'.
  - apply Hname; [done..|]. by apply name_name.
  - apply Hname; [done..|]. apply selected_name; [done|]. by apply IH.
  - apply Hname; [done..|]. apply attribute_name; [done|]. by apply IH.
  - apply Hname; [done..|]. apply indexed_name; [done|by apply IH|by apply IHi].
  - apply Hname; [done..|]. apply slice_name; [done|by apply IH|by apply IHi|by apply IHj].
  - apply Hsimple; [done..|]. by apply literal_ok.
  - apply Hsimple; [done..|]. apply paren_ok; [done|by apply IH].
  - apply Hsimple; [done..|]. apply unary_ok; [done|by apply IH|by apply IH].
  - split; [done|]. split; [|done]. apply binary_expression; [done|by apply IHa|by apply IHb].
Qed.
End runs.

(** Where a phrase is ahead and what follows ends it, its tree is what
    [parseExpression] gives, and the parser is after its tokens with the same
    diagnostics. *)
Lemma parseExpression_reads tokens s c t l : grammatical c = true -> drop (index_ s) tokens = flatten c ++ t :: l -> index_ s <= length tokens -> ends_expression t = true ->
  exists e, parseExpression tokens 0 s = (Ret (Some e), set_index (index_ s + length (flatten c)) s) /\ bare e = tree c.
Proof.
  intros Hg Hd Hi Ht. pose proof (f_equal length Hd) as Hlen. rewrite length_drop, length_app in Hlen. cbn in Hlen.
  assert (Hs : (flatten c ++ t :: l) `suffix_of` tokens) by (rewrite <- Hd; apply suffix_drop).
  destruct (ends_follow c t Hg Ht) as [Hf Hp].
  assert (Hrun : run (parseExpression tokens 0) (at_ tokens s (flatten c ++ t :: l)) (fun r s' => s' = at_ tokens s (t :: l) /\ exists e, r = Some e /\ bare e = tree c)).
  { apply expression_read; [by apply phrase_ok|done..| |by eauto]. pose proof (suffix_length _ _ Hs). unfold depth. lia. }
  rewrite <- (at_start tokens s _ Hd Hi) in Hrun. unfold wp in Hrun. destruct (parseExpression tokens 0 s) as [[r|?|] s'] eqn:E; [|done|done].
  destruct Hrun as (-> & e & -> & He). exists e. split; [|done]. f_equal. unfold at_, set_index. f_equal. cbn. lia.
Qed.
