(* ===== verification/VhdlProductions.v ===== *)
(** The expressions of VHDL as the productions of the language say, each class
    of operators at its level; nothing here is taken from the parser's table of
    precedences. The phrases of these productions are phrases of [VhdlGrammar],
    which the parser reads with their trees. *)
From S2P Require Import Prelude Store VhdlLexer VhdlPieces VhdlSyntax VhdlParser VhdlGrammar.
Local Open Scope nat_scope.

(** * Words and operators *)

Definition reserved : list string :=
  ["abs"; "access"; "after"; "alias"; "all"; "and"; "architecture"; "array"; "assert"; "assume"; "assume_guarantee"; "attribute"; "begin"; "block"; "body";
   "buffer"; "bus"; "case"; "component"; "configuration"; "constant"; "context"; "cover"; "default"; "disconnect"; "downto"; "else"; "elsif"; "end"; "entity";
   "exit"; "fairness"; "file"; "for"; "force"; "function"; "generate"; "generic"; "group"; "guarded"; "if"; "impure"; "in"; "inertial"; "inout"; "is";
   "label"; "library"; "linkage"; "literal"; "loop"; "map"; "mod"; "nand"; "new"; "next"; "nor"; "not"; "null"; "of"; "on"; "open"; "or"; "others"; "out";
   "package"; "parameter"; "port"; "postponed"; "procedure"; "process"; "property"; "protected"; "pure"; "range"; "record"; "register"; "reject"; "release";
   "rem"; "report"; "restrict"; "restrict_guarantee"; "return"; "rol"; "ror"; "select"; "sequence"; "severity"; "signal"; "shared"; "sla"; "sll"; "sra";
   "srl"; "strong"; "subtype"; "then"; "to"; "transport"; "type"; "unaffected"; "units"; "until"; "use"; "variable"; "vmode"; "vprop"; "vunit"; "wait";
   "when"; "while"; "with"; "xnor"; "xor"]%string.
Definition identifier (t : Token) : bool := match kind t with Identifier => negb (one_of reserved t) | ExtendedIdentifier => true | _ => false end.
Definition literal (t : Token) : bool := match kind t with IntegerLiteral | RealLiteral | CharacterLiteral | StringLiteral => true | _ => false end.
(** A reserved word, written in any case: the canonical text is the text in
    lower case, as the scanner makes it. *)
Definition keyword (l : list string) (t : Token) : bool := one_of l t && bool_decide (canonical t = map toLower (text t)).

Definition relational (t : Token) : bool := one_symbol ["="; "/="; "<"; "<="; ">"; ">="]%string t.
Definition adding (t : Token) : bool := one_symbol ["+"; "-"; "&"]%string t.
Definition sign (t : Token) : bool := one_symbol ["+"; "-"]%string t.
Definition multiplying (t : Token) : bool := one_symbol ["*"; "/"]%string t || keyword ["mod"; "rem"]%string t.
Definition power (t : Token) : bool := one_symbol ["**"]%string t.
(** The logical operators that a chain repeats, and those it does not. *)
Definition chained : list string := ["and"; "or"; "xor"; "xnor"]%string.
Definition unchained : list string := ["nand"; "nor"]%string.
Definition prefix (t : Token) : bool := keyword (["abs"; "not"]%string ++ chained ++ unchained) t.
Definition infix_words : list string := chained ++ unchained ++ ["mod"; "rem"]%string.
Definition infix_symbols : list string := ["="; "/="; "<"; "<="; ">"; ">="; "+"; "-"; "&"; "*"; "/"; "**"]%string.
(** What can follow an expression: no operator, no suffix and no string. *)
Definition stops (t : Token) : bool := negb (one_of infix_words t || one_symbol infix_symbols t) && is_plain t.

(** * Productions *)

Inductive category := CName | CPrimary | CFactor | CTerm | CSimpleExpression | CRelation | CChain (operator : string) | CExpression.
(** In the order of the language's grammar, names without calls of several
    arguments: a name is an identifier with suffixes; a factor has one [**] or
    one prefix; a simple expression may begin with a sign; a relation compares
    once; a chain repeats one logical operator, and [nand] and [nor] stand alone. *)
Inductive derives : category -> phrase -> Prop :=
| name_identifier t : identifier t = true -> derives CName (PName t)
| name_selected e dot field : derives CName e -> is_symbol "." dot = true -> identifier field || is_word "all" field = true -> derives CName (PSelected e dot field)
| name_attribute e tick name : derives CName e -> is_symbol "'" tick = true -> identifier name || one_of ["range"; "subtype"]%string name = true -> derives CName (PAttribute e tick name)
| name_indexed e o i cl : derives CName e -> is_symbol "(" o = true -> derives CExpression i -> is_symbol ")" cl = true -> derives CName (PIndexed e o i cl)
| name_slice e o i d j cl : derives CName e -> is_symbol "(" o = true -> derives CSimpleExpression i -> one_of ["to"; "downto"]%string d = true -> derives CSimpleExpression j ->
    is_symbol ")" cl = true -> derives CName (PSlice e o i d j cl)
| primary_of_name e : derives CName e -> derives CPrimary e
| primary_literal t : literal t = true -> derives CPrimary (PLiteral t)
| primary_parentheses o e cl : is_symbol "(" o = true -> derives CExpression e -> is_symbol ")" cl = true -> derives CPrimary (PParen o e cl)
| factor_primary e : derives CPrimary e -> derives CFactor e
| factor_power op l r : derives CPrimary l -> power op = true -> derives CPrimary r -> derives CFactor (PBinary op l r)
| factor_prefix op e : prefix op = true -> derives CPrimary e -> derives CFactor (PUnary op e)
| term_factor e : derives CFactor e -> derives CTerm e
| term_multiplying op l r : derives CTerm l -> multiplying op = true -> derives CFactor r -> derives CTerm (PBinary op l r)
| simple_term e : derives CTerm e -> derives CSimpleExpression e
| simple_sign op e : sign op = true -> derives CTerm e -> derives CSimpleExpression (PUnary op e)
| simple_adding op l r : derives CSimpleExpression l -> adding op = true -> derives CTerm r -> derives CSimpleExpression (PBinary op l r)
| relation_simple e : derives CSimpleExpression e -> derives CRelation e
| relation_relational op l r : derives CSimpleExpression l -> relational op = true -> derives CSimpleExpression r -> derives CRelation (PBinary op l r)
| chain_relation w e : derives CRelation e -> derives (CChain w) e
| chain_operator w op l r : w ∈ chained -> derives (CChain w) l -> keyword [w] op = true -> derives CRelation r -> derives (CChain w) (PBinary op l r)
| expression_chain w e : derives (CChain w) e -> derives CExpression e
| expression_unchained op l r : derives CRelation l -> keyword unchained op = true -> derives CRelation r -> derives CExpression (PBinary op l r)
| expression_condition op e : is_symbol "??" op = true -> derives CPrimary e -> derives CExpression (PUnary op e).

(** * The operators in the parser's table *)

Definition precedence_in (p : Z) (t : Token) : Prop := precedence_of t = p /\ right_level t = (p + (if (p =? 6)%Z then 0 else 1))%Z.
Lemma symbol_precedence l p t : one_symbol l t = true ->
  forallb (fun v => (precedence_of (mkToken Symbol (chars v) [] default_span) =? p)%Z && Bool.eqb (p =? 6)%Z (bool_decide (v = "**"%string))) l = true -> precedence_in p t.
Proof.
  intros (v & Hv & [Hk Ht]%is_symbol_inv)%existsb_exists Hl. rewrite forallb_forall in Hl. specialize (Hl v Hv). apply andb_true_iff in Hl as [Hp%Z.eqb_eq H6%Bool.eqb_prop].
  assert (E : precedence_of t = p).
  { rewrite <- Hp. unfold precedence_of. rewrite !(one_of_other Symbol), !symbol_texts by done. unfold is_symbol. cbn [kind text]. rewrite Hk. unfold has_text. cbn [text]. by rewrite Ht. }
  split; [done|]. unfold right_level. rewrite E, H6. unfold has_text. rewrite Ht. cbn [fmap list_fmap].
  rewrite (bool_decide_ext (chars v ∈ [chars "**"]) (v = "**"%string)); [done|]. rewrite list_elem_of_singleton. split; [|by intros ->].
  intros E'. unfold chars in E'. apply (f_equal String.string_of_list_ascii) in E'; by rewrite !String.string_of_list_ascii_of_string in E'.
Qed.
Lemma keyword_inv l t : keyword l t = true -> kind t = Identifier /\ exists v, In v l /\ canonical t = chars v /\ map toLower (text t) = chars v.
Proof. intros [(v & Hv & [Hk Hc]%is_word_inv)%existsb_exists Ht%bool_decide_eq_true_1]%andb_true_iff. split; [done|]. exists v. by rewrite <- Ht. Qed.
Lemma keyword_text l symbols t : keyword l t = true -> forallb (fun w => negb (existsb (fun v => bool_decide (chars v = map toLower (chars w))) l)) symbols = true -> has_text symbols t = false.
Proof.
  intros (_ & v & Hv & _ & Ht)%keyword_inv Hs. apply bool_decide_eq_false_2. intros (w & E & Hw)%list_elem_of_fmap. rewrite forallb_forall in Hs.
  apply list_elem_of_In in Hw. specialize (Hs w Hw). apply negb_true_iff in Hs. enough (existsb (fun v => bool_decide (chars v = map toLower (chars w))) l = true) by congruence.
  apply existsb_exists. exists v. split; [done|]. apply bool_decide_eq_true_2. by rewrite <- E.
Qed.
Lemma word_precedence l p t : keyword l t = true ->
  forallb (fun v => (precedence_of (mkToken Identifier [] (chars v) default_span) =? p)%Z) l && negb (existsb (fun v => bool_decide (chars v = chars "**")) l) && negb (p =? 6)%Z = true ->
  precedence_in p t.
Proof.
  intros Hk [[Hp H1]%andb_true_iff H6%negb_true_iff]%andb_true_iff. assert (Hn : has_text ["**"]%string t = false) by (apply (keyword_text l); [done|cbn; by rewrite andb_true_r]).
  destruct (keyword_inv _ _ Hk) as (Hi & v & Hv & Hc & _). rewrite forallb_forall in Hp. specialize (Hp v Hv). apply Z.eqb_eq in Hp.
  assert (E : precedence_of t = p).
  { rewrite <- Hp. unfold precedence_of. rewrite !(one_symbol_other Identifier), !(symbol_other Identifier) by done. unfold one_of, is_word. cbn [kind canonical]. by rewrite Hi, Hc. }
  split; [done|]. unfold right_level. by rewrite E, Hn, H6.
Qed.
Lemma relational_precedence t : relational t = true -> precedence_in 3 t.
Proof. intros H. by apply (symbol_precedence _ _ _ H). Qed.
Lemma adding_precedence t : adding t = true -> precedence_in 4 t.
Proof. intros H. by apply (symbol_precedence _ _ _ H). Qed.
Lemma multiplying_precedence t : multiplying t = true -> precedence_in 5 t.
Proof. intros [H|H]%orb_true_iff; [by apply (symbol_precedence _ _ _ H)|by apply (word_precedence _ _ _ H)]. Qed.
Lemma power_precedence t : power t = true -> precedence_in 6 t.
Proof. intros H. by apply (symbol_precedence _ _ _ H). Qed.
Definition chain_level (w : string) : Z := if bool_decide (w = "and"%string) then 2 else 1.
Lemma chain_precedence w t : w ∈ chained -> keyword [w] t = true -> precedence_in (chain_level w) t.
Proof. intros Hw H. apply (word_precedence _ _ _ H). unfold chained in Hw. repeat (apply elem_of_cons in Hw as [->|Hw]; [by vm_compute|]). by apply not_elem_of_nil in Hw. Qed.
Lemma unchained_precedence t : keyword unchained t = true -> precedence_in 2 t \/ precedence_in 1 t.
Proof.
  intros [(v & [<-|[<-|[]]] & Hw)%existsb_exists Ht]%andb_true_iff; [left; apply (word_precedence ["nand"%string])|right; apply (word_precedence ["nor"%string])];
    try (by vm_compute); unfold keyword, one_of; cbn [existsb]; by rewrite Hw, Ht.
Qed.
Lemma sign_unary t : sign t = true -> is_unary t = true /\ is_sign_token t = true.
Proof.
  intros H. pose proof (one_symbol_inv _ _ H) as [Hk _]. unfold sign in H. split.
  - unfold is_unary. apply orb_true_iff. left. unfold one_symbol in *. cbn [existsb] in *. by rewrite H, orb_true_r.
  - unfold is_sign_token. by rewrite <- symbol_texts.
Qed.
Lemma prefix_unary t : prefix t = true -> is_unary t = true /\ is_sign_token t = false.
Proof.
  intros H. split; [|by apply (keyword_text _ _ _ H)]. apply andb_true_iff in H as [(v & Hv & Hw)%existsb_exists _]. unfold is_unary. apply orb_true_iff. right.
  apply existsb_exists. exists v. split; [|done]. cbn in Hv |- *. tauto.
Qed.
Lemma condition_unary t : is_symbol "??" t = true -> is_unary t = true /\ is_sign_token t = false.
Proof. intros H. unfold is_unary, one_symbol. cbn [existsb]. rewrite H. split; [done|]. apply is_symbol_inv in H as [_ Ht]. unfold is_sign_token, has_text. by rewrite Ht. Qed.

(** * Phrases of the productions *)

Lemma not_reserved w t : identifier t = true -> In w reserved -> is_word w t = false.
Proof.
  unfold identifier. intros H Hw. destruct (kind t) eqn:Hk; try done; [|by apply (word_other ExtendedIdentifier)]. destruct (is_word w t) eqn:E; [|done].
  apply negb_true_iff in H. rewrite <- H. symmetry. apply existsb_exists. by exists w.
Qed.
Lemma identifier_name t : identifier t = true -> is_name t = true.
Proof.
  intros H. unfold is_name. apply andb_true_iff. split; [unfold identifier in H; unfold is_name_token; by destruct (kind t)|]. apply negb_true_iff.
  destruct (one_of unary_words t) eqn:E; [|done]. apply existsb_exists in E as (v & Hv & E). rewrite <- E. apply not_reserved; [done|].
  assert (Hl : forallb (fun v => existsb (String.eqb v) reserved) unary_words = true) by done. rewrite forallb_forall in Hl.
  by apply Hl, existsb_exists in Hv as (u & Hu & ->%String.eqb_eq).
Qed.
Lemma keyword_other l w t : keyword l t = true -> existsb (fun v => bool_decide (chars v = chars w)) l = false -> is_word w t = false.
Proof.
  intros (_ & v & Hv & Hc & _)%keyword_inv Hl. destruct (is_word w t) eqn:E; [|done]. apply is_word_inv in E as [_ E]. rewrite <- Hl. symmetry.
  apply existsb_exists. exists v. split; [done|]. apply bool_decide_eq_true_2. congruence.
Qed.
(** No phrase begins with [others]. *)
Lemma derives_first k c : derives k c -> exists t l, flatten c = t :: l /\ is_word "others" t = false.
Proof.
  assert (Happ : forall c r, (exists t l, flatten c = t :: l /\ is_word "others" t = false) -> exists t l, flatten c ++ r = t :: l /\ is_word "others" t = false).
  { intros c' r (t & l & -> & Ht). by exists t, (l ++ r). }
  assert (Hkey : forall l op, keyword l op = true -> existsb (fun v => bool_decide (chars v = chars "others")) l = false -> is_word "others" op = false) by (intros; by eapply keyword_other).
  induction 1 as [t Ht| | | | | |t Ht|o e cl Ho| | |op e Hop| | | |op e Hop| | | | | | | |op e Hop]; cbn [flatten]; try done; try (by apply Happ);
    (eexists _, _; split; [reflexivity|]).
  - apply not_reserved; [done|]. cbn. tauto.
  - unfold literal in Ht. by destruct (kind t) eqn:E; try done; apply (word_other (kind t)); rewrite E.
  - by apply (symbol_no_word "(").
  - by apply (Hkey _ _ Hop).
  - apply (word_other Symbol); [|done]. by apply one_symbol_inv in Hop as [? _].
  - by apply (symbol_no_word "??").
Qed.

(** The least level of the outermost operator in a phrase of a category, and
    the least one that it goes on with. *)
Definition least (k : category) : Z :=
  match k with CName | CPrimary => 7 | CFactor => 6 | CTerm => 5 | CSimpleExpression => 4 | CRelation => 3 | CChain w => chain_level w | CExpression => 1 end.
Definition least_next (k : category) : Z :=
  match k with CName | CPrimary => 7 | CFactor => 6 | CTerm => 6 | CSimpleExpression => 5 | CRelation => 4 | CChain w => chain_level w + 1 | CExpression => 2 end.
Definition closed_phrase (k : category) (c : phrase) : Prop := match k with CName => name_like c = true | CPrimary => is_binary c = false | _ => True end.
Definition fits (k : category) (c : phrase) : Prop := grammatical c = true /\ (least k <= binds c)%Z /\ (least_next k <= greed c)%Z /\ closed_phrase k c.
Lemma chain_level_bounds w : (1 <= chain_level w <= 2)%Z.
Proof. unfold chain_level. case_match; lia. Qed.
Ltac is_true := repeat match goal with H : ?b = true |- context [?b] => rewrite H end.
Lemma binary_fits p op l r : precedence_in p op -> (0 <= p)%Z -> grammatical l = true -> grammatical r = true -> (p < greed l)%Z -> (p + (if p =? 6 then 0 else 1) <= binds r)%Z ->
  grammatical (PBinary op l r) = true /\ binds (PBinary op l r) = p /\ (Z.min (p + (if p =? 6 then 0 else 1)) (greed r) = greed (PBinary op l r))%Z.
Proof. intros [E1 E2] Hp Hl Hr H1 H2. cbn [grammatical binds greed]. rewrite E1, E2, Hl, Hr. split; [|done]. repeat (apply andb_true_iff; split); lia || done. Qed.
Lemma unary_fits op e : is_unary op = true -> is_sign_token op = false -> grammatical e = true -> is_binary e = false -> grammatical (PUnary op e) = true /\ greed (PUnary op e) = greed e.
Proof. intros H1 H2 H3 H4. cbn [grammatical greed]. by rewrite H1, H2, H3, H4. Qed.
Lemma name_not_binary c : name_like c = true -> is_binary c = false.
Proof. by destruct c. Qed.
(** An operator on operands of two categories, and a unary operator. *)
Lemma binary_fits_in p op l r a b : precedence_in p op -> (0 <= p)%Z -> (p < least_next a)%Z -> (p + (if p =? 6 then 0 else 1) <= least b)%Z -> (p + (if p =? 6 then 0 else 1) <= least_next b)%Z ->
  fits a l -> fits b r -> grammatical (PBinary op l r) = true /\ (p <= binds (PBinary op l r))%Z /\ (p + (if p =? 6 then 0 else 1) <= greed (PBinary op l r))%Z.
Proof.
  intros Ho Hp Ha Hb Hb' (Gl & _ & Nl & _) (Gr & Br & Nr & _). destruct (binary_fits p op l r Ho Hp Gl Gr) as (G & B & N); [lia..|]. split; [done|]. lia.
Qed.
Lemma derives_fits k c : derives k c -> fits k c.
Proof.
  induction 1 as [t Ht|e dot field He IH Hd Hf|e tick name He IH Hd Hf|e o i cl He IH Ho Hi IHi Hcl|e o i d j cl He IH Ho Hi IHi Hd Hj IHj Hcl
    |e He IH|t Ht|o e cl Ho He IH Hcl|e He IH|op l r Hl IHl Ho Hr IHr|op e Ho He IH|e He IH|op l r Hl IHl Ho Hr IHr|e He IH|op e Ho He IH|op l r Hl IHl Ho Hr IHr
    |e He IH|op l r Hl IHl Ho Hr IHr|w e He IH|w op l r Hw Hl IHl Ho Hr IHr|w e He IH|op l r Hl IHl Ho Hr IHr|op e Ho He IH];
    try destruct IH as (G & B & N & C); unfold fits; cbn [least least_next closed_phrase] in *.
  - split; [by apply identifier_name|]. cbn. split_and!; done || lia.
  - split_and!; [|cbn; lia..|done]. cbn [grammatical]. rewrite C, G, Hd. unfold identifier, is_word in Hf. unfold is_name_token. by destruct (kind field).
  - split_and!; [|cbn; lia..|done]. cbn [grammatical]. rewrite C, G, Hd. unfold identifier, one_of, is_word in Hf. unfold is_name_token. cbn [existsb] in Hf. by destruct (kind name).
  - destruct IHi as (Gi & _). split_and!; [|cbn; lia..|done]. cbn [grammatical]. by rewrite C, G, Ho, Gi, Hcl.
  - destruct IHi as (Gi & _), IHj as (Gj & _). split_and!; [|cbn; lia..|done]. cbn [grammatical]. unfold is_direction. by rewrite C, G, Ho, Gi, Hd, Gj, Hcl.
  - split_and!; [done|lia..|]. by apply name_not_binary.
  - split_and!; [|cbn; lia..|done]. cbn. unfold literal in Ht. by destruct (kind t).
  - split_and!; [|cbn; lia..|done]. cbn [grammatical]. rewrite Ho, G, Hcl. unfold no_others. destruct (derives_first _ _ He) as (t & l & -> & Ht). by rewrite Ht.
  - split_and!; done || lia.
  - destruct (binary_fits_in 6 op l r CPrimary CPrimary (power_precedence op Ho)) as (? & ? & ?); try done; split_and!; done || lia.
  - destruct (prefix_unary op Ho) as [U S]. destruct (unary_fits op e U S G C) as [? ?]. split_and!; [done|cbn; lia|lia|done].
  - split_and!; done || lia.
  - destruct (binary_fits_in 5 op l r CTerm CFactor (multiplying_precedence op Ho)) as (? & ? & ?); try done; split_and!; done || lia.
  - split_and!; done || lia.
  - destruct (sign_unary op Ho) as [U S]. cbn [least] in B. split_and!; [|cbn; lia|cbn; rewrite S; lia|done]. cbn [grammatical]. rewrite U, G, S. by apply Z.leb_le.
  - destruct (binary_fits_in 4 op l r CSimpleExpression CTerm (adding_precedence op Ho)) as (? & ? & ?); try done; split_and!; done || lia.
  - split_and!; done || lia.
  - destruct (binary_fits_in 3 op l r CSimpleExpression CSimpleExpression (relational_precedence op Ho)) as (? & ? & ?); try done; split_and!; done || lia.
  - pose proof (chain_level_bounds w). split_and!; done || lia.
  - pose proof (chain_level_bounds w). assert (E6 : (chain_level w =? 6)%Z = false) by lia.
    destruct (binary_fits_in (chain_level w) op l r (CChain w) CRelation (chain_precedence w op Hw Ho)) as (? & ? & ?); try done; rewrite ?E6 in *; cbn [least least_next]; try lia;
    split_and!; done || lia.
  - pose proof (chain_level_bounds w). split_and!; done || lia.
  - destruct (unchained_precedence op Ho) as [Hp|Hp];
      [destruct (binary_fits_in 2 op l r CRelation CRelation Hp) as (? & ? & ?)|destruct (binary_fits_in 1 op l r CRelation CRelation Hp) as (? & ? & ?)]; try done; cbn -[greed binds grammatical] in *; split_and!; done || lia.
  - destruct (condition_unary op Ho) as [U S]. destruct (unary_fits op e U S G C) as [? ?]. split_and!; [done|cbn; lia|lia|done].
Qed.

(** * What follows *)

Lemma stops_ends t : stops t = true -> ends_expression t = true.
Proof.
  unfold stops, ends_expression. intros [[Hw Hs]%negb_true_iff%orb_false_iff ->]%andb_true_iff. rewrite andb_true_r. apply Z.ltb_lt. unfold precedence_of.
  assert (E1 : forall l, forallb (fun v => existsb (String.eqb v) infix_words) l = true -> one_of l t = false).
  { intros l Hl. destruct (one_of l t) eqn:E; [|done]. apply existsb_exists in E as (v & Hv & E). rewrite forallb_forall in Hl.
    apply Hl, existsb_exists in Hv as (u & Hu & ->%String.eqb_eq). rewrite <- Hw. symmetry. apply existsb_exists. by exists u. }
  assert (E2 : forall l, forallb (fun v => existsb (String.eqb v) infix_symbols) l = true -> one_symbol l t = false).
  { intros l Hl. destruct (one_symbol l t) eqn:E; [|done]. apply existsb_exists in E as (v & Hv & E). rewrite forallb_forall in Hl.
    apply Hl, existsb_exists in Hv as (u & Hu & ->%String.eqb_eq). rewrite <- Hs. symmetry. apply existsb_exists. by exists u. }
  assert (E3 : is_symbol "**" t = false) by (pose proof (E2 ["**"%string] eq_refl) as E; cbn in E; by rewrite orb_false_r in E).
  by rewrite !E1, !E2, E3.
Qed.

(** * What the productions leave out *)

Lemma binary_level k op l r : derives k (PBinary op l r) -> (least k <= precedence_of op)%Z.
Proof. by intros (_ & H & _)%derives_fits. Qed.
Lemma keyword_precedence w p t : keyword [w] t = true -> precedence_in p (mkToken Identifier (chars w) (chars w) default_span) -> precedence_of t = p.
Proof.
  intros (Hk & v & [<-|[]] & Hc & _)%keyword_inv [<- _]. unfold precedence_of. rewrite !(one_symbol_other Identifier), !(symbol_other Identifier) by done.
  unfold one_of, is_word. cbn [kind canonical]. by rewrite Hk, Hc.
Qed.
Lemma keyword_unique v w t : keyword [v] t = true -> keyword [w] t = true -> chars v = chars w.
Proof. intros (_ & a & [<-|[]] & Ha & _)%keyword_inv (_ & b & [<-|[]] & Hb & _)%keyword_inv. congruence. Qed.
(** [a and b or c] needs parentheses. *)
Lemma logical_not_mixed o1 o2 a b c : keyword ["or"%string] o1 = true -> keyword ["and"%string] o2 = true -> ~ derives CExpression (PBinary o1 (PBinary o2 a b) c).
Proof.
  intros H1 H2 H. assert (P1 : precedence_of o1 = 1%Z) by (by apply (keyword_precedence _ _ _ H1)). assert (P2 : precedence_of o2 = 2%Z) by (by apply (keyword_precedence _ _ _ H2)).
  inversion H as [| | | | | | | | | | | | | | | | | | | |w e He|op l r Hl Ho Hr|]; subst; last first.
  { destruct (keyword_inv _ _ Ho) as (_ & v & [<-|[<-|[]]] & Hv & _), (keyword_inv _ _ H1) as (_ & u & [<-|[]] & Hu & _); rewrite Hu in Hv; by vm_compute in Hv. }
  inversion He as [| | | | | | | | | | | | | | | | | |? ? Hr|? ? ? ? Hw Hl Ho Hr|? ? ?| |]; subst; [apply binary_level in Hr; cbn in Hr; lia|].
  inversion Hl as [| | | | | | | | | | | | | | | | | |? ? Hr'|? ? ? ? ? ? Ho' ?|? ? ?| |]; subst; [apply binary_level in Hr'; cbn in Hr'; lia|].
  pose proof (keyword_unique _ _ _ Ho H1) as E1. pose proof (keyword_unique _ _ _ Ho' H2) as E2. rewrite E1 in E2. by vm_compute in E2.
Qed.
(** The operands of [**] are primaries, and those of a comparison have none. *)
Lemma power_operands k op l r : derives k (PBinary op l r) -> power op = true -> derives CPrimary l /\ derives CPrimary r.
Proof.
  intros H Hp. pose proof (proj1 (power_precedence _ Hp)) as E. remember (PBinary op l r) as c eqn:Ec. induction H; try done; try (by apply IHderives); injection Ec as -> -> ->; [done|exfalso..].
  - match goal with H : multiplying _ = true |- _ => apply multiplying_precedence in H as [H _] end. lia.
  - match goal with H : adding _ = true |- _ => apply adding_precedence in H as [H _] end. lia.
  - match goal with H : relational _ = true |- _ => apply relational_precedence in H as [H _] end. lia.
  - match goal with H : keyword [_] _ = true |- _ => apply chain_precedence in H as [H _]; [|done] end. pose proof (chain_level_bounds w). lia.
  - match goal with H : keyword unchained _ = true |- _ => apply unchained_precedence in H as [[H _]|[H _]] end; lia.
Qed.
Lemma powers_not_chained k o1 o2 a b c : power o1 = true -> ~ derives k (PBinary o1 a (PBinary o2 b c)).
Proof. intros H1 H. destruct (power_operands _ _ _ _ H H1) as [_ (_ & _ & _ & Hb)%derives_fits]. done. Qed.
Lemma comparison_operands k op l r : derives k (PBinary op l r) -> relational op = true -> derives CSimpleExpression l /\ derives CSimpleExpression r.
Proof.
  intros H Hp. pose proof (proj1 (relational_precedence _ Hp)) as E. remember (PBinary op l r) as c eqn:Ec. induction H; try done; try (by apply IHderives); injection Ec as -> -> ->; [exfalso..|done|exfalso|exfalso].
  - match goal with H : power _ = true |- _ => apply power_precedence in H as [H _] end. lia.
  - match goal with H : multiplying _ = true |- _ => apply multiplying_precedence in H as [H _] end. lia.
  - match goal with H : adding _ = true |- _ => apply adding_precedence in H as [H _] end. lia.
  - match goal with H : keyword [_] _ = true |- _ => apply chain_precedence in H as [H _]; [|done] end. pose proof (chain_level_bounds w). lia.
  - match goal with H : keyword unchained _ = true |- _ => apply unchained_precedence in H as [[H _]|[H _]] end; lia.
Qed.
Lemma comparisons_not_chained k o1 o2 a b c : relational o1 = true -> relational o2 = true -> ~ derives k (PBinary o1 (PBinary o2 a b) c).
Proof.
  intros H1 H2 H. destruct (comparison_operands _ _ _ _ H H1) as [Hl%binary_level _]. pose proof (proj1 (relational_precedence _ H2)). cbn in Hl. lia.
Qed.
