(* ===== verification/VhdlParserProperties.v ===== *)
(** Correctness of the VHDL parser: it returns on every source, every design
    unit is in the result or complained of, and expressions are well formed. *)
From S2P Require Import Prelude Store VhdlLexer VhdlPieces VhdlProperties VhdlSyntax VhdlParser VhdlUnits VhdlParserSteps VhdlExpressionSteps VhdlUnitSteps VhdlGrammar VhdlProductions.
Local Open Scope nat_scope.

(** * Files *)

Definition complaints (l : list LexDiagnostic) : list ParseDiagnostic := (fun d => mkParseDiagnostic (message d) (d_span d)) <$> l.
Definition units_of (d : DesignFile) : nat := length (df_packages d) + length (df_entities d) + length (df_architectures d).

Lemma scanned_ends source synthesis : ends_with_file (tokens (scanned source synthesis)).
Proof. unfold scanned, finish. eexists _, _. split; [reflexivity|done]. Qed.

(** Only the last token is the end of the file. *)
Definition ends (l : list Token) : nat := length (List.filter is_end l).
Lemma ends_app l l' : ends (l ++ l') = ends l + ends l'.
Proof. unfold ends. by rewrite List.filter_app, length_app. Qed.
Lemma sublist_ends l l' : sublist l l' -> ends l <= ends l'.
Proof. unfold ends. induction 1; cbn [List.filter]; [done| |]; destruct (is_end x); cbn [length]; lia. Qed.
Lemma laid_ends before r l : laid_out before r l -> ends l = 1.
Proof. unfold ends. induction 1 as [|before gap t r l _ Hk _ _ _ _ IH]; [done|]. cbn [List.filter]. unfold is_end. by destruct (kind t). Qed.
Lemma scanned_one_end source synthesis : ends (tokens (scanned source synthesis)) <= 1.
Proof.
  assert (Hlaid : ends (tokens (scanned source false)) = 1) by (rewrite scanned_plain; exact (laid_ends _ _ _ (tokens_laid [] source))).
  destruct synthesis; [|lia]. rewrite <- Hlaid. by apply sublist_ends, absorbed_sublist.
Qed.
Lemma end_first l t : ends_with_file (t :: l) -> ends (t :: l) <= 1 -> is_end t = true -> l = [].
Proof.
  intros (l' & e & E & He) H1 Ht. destruct l' as [|x l']; cbn in E; [by injection E|]. injection E as -> ->. change (ends ([x] ++ l' ++ [e]) <= 1) in H1.
  rewrite !ends_app in H1. unfold ends in H1. cbn in H1. rewrite Ht, He in H1. cbn in H1. lia.
Qed.

Section file.
Context (ts : list Token) (synthesis_ : bool) (Hend : ends_with_file ts).

(** What is known after some turns: more units or more errors, unless there was
    no turn. *)
Definition turns_left (s s' : ParserState) : Prop :=
  diagnostics_ s `prefix_of` diagnostics_ s' /\ units s <= units s' /\ (s' = s \/ units s + length (diagnostics_ s) < units s' + length (diagnostics_ s')) /\
  (whole s -> whole s').
Lemma turned_turns_left s s1 s2 : turned ts s s1 -> turns_left s1 s2 -> turns_left s s2.
Proof.
  intros (_ & _ & Hp & Ht) (Hp' & Hu & Hs & Hw). pose proof (prefix_length _ _ Hp) as L1. pose proof (prefix_length _ _ Hp') as L2.
  assert (Hlt : units s + length (diagnostics_ s) < units s1 + length (diagnostics_ s1) /\ units s <= units s1).
  { destruct Ht as [[E _]|[E C]]; [lia|]. unfold complains in C. unfold units. rewrite E. lia. }
  split; [by etransitivity|]. split; [lia|]. split; [right; destruct Hs as [->|]; lia|].
  intros H. apply Hw. destruct Ht as [(_ & _ & H1)|[E _]]; [by apply H1|by eapply whole_same].
Qed.
Lemma run_turns fuel s : index_ s < length ts -> length ts - index_ s < fuel ->
  run (loop fuel (run_turn ts synthesis_)) s (fun _ s' => end_at ts (index_ s') = true /\ turns_left s s').
Proof.
  revert s. induction fuel as [|fuel IH]; intros s Hs Hf; [lia|]. cbn [loop]. rewrite wp_bind.
  destruct (end_at ts (index_ s)) eqn:Ee.
  - unfold run_turn. rewrite wp_bind. eapply run_mono; [by apply end_at_ok|]. cbn beta. intros b s' (-> & _ & ->). rewrite Ee, !wp_ret.
    split; [done|]. split; [reflexivity|]. split; [lia|]. split; [by left|done].
  - assert (Hn : not_end ts s).
    { unfold end_at in Ee. destruct (lookup_lt_is_Some_2 ts (index_ s) Hs) as [t Ht]. rewrite Ht in Ee. by exists t. }
    eapply run_mono; [by apply run_turn_ok|]. cbn beta. intros r s' (-> & Ht & Hl).
    assert (H' : index_ s' < length ts) by apply Ht.
    eapply run_mono; [apply IH; [done|lia]|]. cbn beta. intros _ s2 [He H2]. split; [done|by eapply turned_turns_left].
Qed.
End file.

(** The run of the parser on a source. *)
Lemma parser_parse_run source synthesis : let lx := scanned source synthesis in
  exists s, parser_parse source synthesis = Ret (mkParseResult (syntax_ s) (diagnostics_ s) (warnings_ s)) /\
    end_at (tokens lx) (index_ s) = true /\ turns_left (start_parser (diagnostics lx)) s.
Proof.
  intros lx. unfold parser_parse. rewrite scan_pieces. cbn [mbind outcome_bind]. pose proof (scanned_ends source synthesis) as Hend. fold lx in Hend |- *.
  assert (Hpos : 0 < length (tokens lx)) by (destruct Hend as (l & t & -> & _); rewrite length_app; cbn; lia).
  pose proof (run_turns (tokens lx) synthesis Hend (rounds (tokens lx)) (start_parser (diagnostics lx))) as H.
  assert (Hrun : run (parser_run (tokens lx) synthesis) (start_parser (diagnostics lx)) (fun r s' =>
    r = mkParseResult (syntax_ s') (diagnostics_ s') (warnings_ s') /\ end_at (tokens lx) (index_ s') = true /\ turns_left (start_parser (diagnostics lx)) s')).
  { unfold parser_run. rewrite wp_bind. eapply run_mono; [apply H; [exact Hpos|unfold rounds; cbn; lia]|]. cbn beta. intros _ s' Hs. rewrite wp_bind, wp_gets, wp_ret. by split. }
  unfold wp in Hrun. destruct (parser_run _ _ _) as [[r|e|] s']; [|done|done]. destruct Hrun as (-> & Hs). by exists s'.
Qed.
(** The bodies of architectures in the result are whole. *)
Lemma parser_parse_whole source synthesis r : parser_parse source synthesis = Ret r -> Forall whole_body (df_architectures (pr_syntax r)).
Proof.
  destruct (parser_parse_run source synthesis) as (s & E & _ & _ & _ & _ & Hw). rewrite E. intros [= <-]. apply Hw. constructor.
Qed.

(** C36. The parser returns on every source, with or without the directives of
    synthesis tools, and reports what the scanner complained of first. When
    there are no errors the source has no token but its end, or the result has
    a design unit. *)
Theorem parser_parse_returns source synthesis : exists r, parser_parse source synthesis = Ret r /\
  complaints (diagnostics (scanned source synthesis)) `prefix_of` pr_diagnostics r /\
  (pr_diagnostics r = [] -> (exists t, tokens (scanned source synthesis) = [t]) \/ 1 <= units_of (pr_syntax r)).
Proof.
  destruct (parser_parse_run source synthesis) as (s & E & He & Hp & Hu & Ht & _). eexists. split; [exact E|]. split; [exact Hp|]. cbn [pr_diagnostics pr_syntax].
  intros Hd. destruct Ht as [->|Ht].
  - left. cbn [index_ start_parser] in He. unfold end_at in He. destruct (tokens (scanned source synthesis)) as [|t l] eqn:El; [done|]. exists t. f_equal.
    apply (end_first l t); [rewrite <- El; apply scanned_ends| |done]. rewrite <- El. apply scanned_one_end.
  - right. rewrite Hd in Ht. unfold units in Ht. unfold units_of. cbn in Ht. cbn. lia.
Qed.

(** A turn of the parser before the end of the file takes a token, and adds
    exactly one design unit or else complains and leaves the units alone;
    diagnostics are never taken back. *)
Theorem turn_adds_unit_or_error source synthesis s t : tokens (scanned source synthesis) !! index_ s = Some t -> is_end t = false ->
  exists s', run_turn (tokens (scanned source synthesis)) synthesis s = (Ret None, s') /\ index_ s < index_ s' < length (tokens (scanned source synthesis)) /\
    diagnostics_ s `prefix_of` diagnostics_ s' /\
    (units s' = S (units s) \/ syntax_ s' = syntax_ s /\ length (diagnostics_ s) < length (diagnostics_ s')).
Proof.
  intros Ht He. pose proof (run_turn_ok _ synthesis (scanned_ends source synthesis) s (lookup_lt_Some _ _ _ Ht)) as H.
  assert (Hn : not_end (tokens (scanned source synthesis)) s) by (by exists t). specialize (H Hn). unfold wp in H.
  destruct (run_turn _ _ s) as [[r|?|] s'] eqn:E; [|done|done]. destruct H as (-> & (Hi & _ & Hp & Ht') & Hl). exists s'. split; [done|]. split; [lia|].
  split; [done|]. unfold complains in Ht'. tauto.
Qed.

(** * Expressions *)

(** Wherever it starts after the first token, [parseExpression] takes a token
    and returns an expression all of whose nodes have the children of their
    kind, or it returns nothing and complains; no read is out of range and no
    null pointer is followed, whatever the tokens are. *)
Theorem parseExpression_shaped ts s : ends_with_file ts -> 0 < index_ s < length ts ->
  exists r s', parseExpression ts 0 s = (Ret r, s') /\ index_ s <= index_ s' < length ts /\ syntax_ s' = syntax_ s /\
    match r with
    | Some e => index_ s < index_ s' /\ shaped e = true
    | None => diagnostics_ s `prefix_of` diagnostics_ s' /\ length (diagnostics_ s) < length (diagnostics_ s')
    end.
Proof.
  intros Hend Hs. pose proof (parseExpression_ok ts Hend s Hs) as H. unfold wp in H. destruct (parseExpression ts 0 s) as [[r|?|] s']; [|done|done].
  destruct H as [(Hi & _ & Hy & Hp) H]. exists r, s'. split; [done|]. split; [done|]. split; [done|]. destruct r as [e|]; [|done].
  destruct H as [Hl He]. split; [lia|done].
Qed.

(** C37. Where an expression of the language is ahead, by the productions of
    [VhdlProductions], and what follows is no operator, no suffix and no string,
    [parseExpression] reads it whole, leaves everything but its place alone, and
    gives its tree. The productions have the operators of the frontend, level by
    level and without the parser's precedences: chains of one logical operator,
    at most one comparison, sums with a sign at the front, products, and one
    [**] or one prefix on primaries; mixed logical operators and chained [**]
    need parentheses ([logical_not_mixed], [powers_not_chained]). Aggregates and
    calls of several arguments are not among these phrases, and nothing is said
    of what the parser accepts beyond them ([mixed_logical_operators]). *)
Theorem parseExpression_follows_grammar ts s c t l : derives CExpression c -> drop (index_ s) ts = flatten c ++ t :: l -> index_ s <= length ts ->
  stops t = true ->
  exists e, parseExpression ts 0 s = (Ret (Some e), set_index (index_ s + length (flatten c)) s) /\ bare e = tree c.
Proof. intros [Hg _]%derives_fits Hd Hi Ht%stops_ends. exact (parseExpression_reads ts s c t l Hg Hd Hi Ht). Qed.

(** * Witnesses *)

Definition sample : list ascii := chars "use w.all; entity e is end; -a(3 downto 0) + not b'length * (c.d ** 2 mod e) <= f and g;".
Definition sample_tokens : list Token := Eval vm_compute in tokens (scanned sample false).
Definition at_token (n : nat) : ParserState := mkParser n false (mkFileTree [] [] []) [] [].
Lemma turn_adds_unit_or_error_witness : exists s', run_turn (tokens (scanned sample false)) false (at_token 0) = (Ret None, s') /\
  0 < index_ s' < length (tokens (scanned sample false)) /\ [] `prefix_of` diagnostics_ s' /\
  (units s' = 1 \/ syntax_ s' = mkFileTree [] [] [] /\ 0 < length (diagnostics_ s')).
Proof. apply (turn_adds_unit_or_error sample false (at_token 0) (default (mkToken Invalid [] [] default_span) (head sample_tokens))); vm_compute; reflexivity. Defined.

Definition tok (n : nat) : Token := default (mkToken Invalid [] [] default_span) (sample_tokens !! n).
(** [-a(3 downto 0) + not b'length * (c.d ** 2 mod e) <= f and g]. *)
Definition sample_phrase : phrase :=
  PBinary (tok 34)
    (PBinary (tok 32)
      (PBinary (tok 17)
        (PUnary (tok 10) (PSlice (PName (tok 11)) (tok 12) (PLiteral (tok 13)) (tok 14) (PLiteral (tok 15)) (tok 16)))
        (PBinary (tok 22)
          (PUnary (tok 18) (PAttribute (PName (tok 19)) (tok 20) (tok 21)))
          (PParen (tok 23)
            (PBinary (tok 29) (PBinary (tok 27) (PSelected (PName (tok 24)) (tok 25) (tok 26)) (PLiteral (tok 28))) (PName (tok 30))) (tok 31))))
      (PName (tok 33)))
    (PName (tok 35)).
Lemma sample_ends : ends_with_file sample_tokens.
Proof. exists (take 37 sample_tokens), (tok 37). by split. Qed.
Lemma parseExpression_shaped_witness : 0 < index_ (at_token 10) < length sample_tokens /\
  exists r s', parseExpression sample_tokens 0 (at_token 10) = (Ret r, s') /\ index_ (at_token 10) <= index_ s' < length sample_tokens /\ syntax_ s' = syntax_ (at_token 10) /\
    match r with
    | Some e => index_ (at_token 10) < index_ s' /\ shaped e = true
    | None => diagnostics_ (at_token 10) `prefix_of` diagnostics_ s' /\ length (diagnostics_ (at_token 10)) < length (diagnostics_ s')
    end.
Proof. split; [cbn; lia|]. apply (parseExpression_shaped sample_tokens (at_token 10) sample_ends). cbn. lia. Defined.
Ltac derive := first [apply name_identifier; by vm_compute|apply primary_literal; by vm_compute|apply primary_of_name; derive|apply factor_primary; derive|apply term_factor; derive
  |apply simple_term; derive|apply relation_simple; derive|apply (expression_chain "and"), chain_relation; derive].
Lemma sample_derived : derives CExpression sample_phrase.
Proof.
  apply (expression_chain "and"), chain_operator; [by apply list_elem_of_here|apply chain_relation|by vm_compute|derive].
  apply relation_relational; [|by vm_compute|derive]. apply simple_adding; [|by vm_compute|].
  - apply simple_sign; [by vm_compute|]. apply term_factor, factor_primary, primary_of_name. apply name_slice; first [by vm_compute|derive].
  - apply term_multiplying; [apply term_factor, factor_prefix; [by vm_compute|]|by vm_compute|apply factor_primary, primary_parentheses; [by vm_compute| |by vm_compute]].
    + apply primary_of_name, name_attribute; first [by vm_compute|derive].
    + apply (expression_chain "and"), chain_relation, relation_simple, simple_term, term_multiplying; [apply term_factor, factor_power|by vm_compute|derive];
        [apply primary_of_name, name_selected|by vm_compute|derive]; first [by vm_compute|derive].
Qed.
Lemma parseExpression_follows_grammar_witness : derives CExpression sample_phrase /\ stops (tok 36) = true /\
  exists e, parseExpression sample_tokens 0 (at_token 10) = (Ret (Some e), at_token 36) /\ bare e = tree sample_phrase.
Proof.
  split; [exact sample_derived|]. split; [vm_compute; reflexivity|].
  apply (parseExpression_follows_grammar sample_tokens (at_token 10) sample_phrase (tok 36) [tok 37]); [exact sample_derived|vm_compute; reflexivity|cbn; lia|vm_compute; reflexivity].
Defined.

(** * Runs that show less than the documents say *)

Definition errors (source : string) : option (list string) :=
  match parser_parse (chars source) false with Ret r => Some (pd_message <$> pr_diagnostics r) | _ => None end.
(** A character literal in the parentheses of a qualified expression. *)
Lemma qualified_expression_scanned : shown "bit'('1')" false = Some (
  [(Identifier, "bit"); (CharacterLiteral, "'('"); (IntegerLiteral, "1"); (Symbol, "'"); (Symbol, ")"); (EndOfFile, EmptyString)]%string, []).
Proof. vm_compute. reflexivity. Qed.
(** A name in parentheses is refused where an operator in parentheses is not. *)
Lemma parenthesized_actual :
  errors "entity e is end; architecture r of e is begin u : entity work.c port map ((a)); end;" = Some ["expected an identifier"%string] /\
  errors "entity e is end; architecture r of e is begin u : entity work.c port map ((not a)); end;" = Some [].
Proof. vm_compute. by split. Qed.
(** Different logical operators, and two [**], without parentheses. *)
Lemma mixed_logical_operators :
  errors "entity e is end; architecture r of e is begin x <= a and b or c; end;" = Some [] /\
  errors "entity e is end; architecture r of e is begin x <= a ** b ** c; end;" = Some [].
Proof. vm_compute. by split. Qed.
