(* ===== verification/VhdlTypes.v ===== *)
(** The types of the VHDL analyzer (vhdl/src/Analyzer.cpp,
    vhdl/include/vhdl/Analyzer.h): visibility of packages, static integer
    expressions at 64 bits, ranges, widths and compatibility.

    A pointer to a node of the syntax tree is its [site], the way to it from the
    design file. A failed run is [Undef]; an operation on [std::int64_t] whose
    result does not fit is. *)
From stdpp Require Export pretty.
From S2P Require Import Prelude Store VhdlLexer VhdlSyntax VhdlParser.
Local Open Scope Z_scope.

(** * Data *)

Definition site : Type := list nat.

Inductive ScalarType := TUnknown | TBit | TBitVector | TStdLogic | TStdLogicVector | TUnsigned | TSigned | TBoolean | TInteger | TNatural | TReal | TString.
#[export] Instance ScalarType_eq_dec : EqDecision ScalarType.
Proof. solve_decision. Defined.
Definition is_type (a b : ScalarType) : bool := bool_decide (a = b).

Record CheckedType := mkChecked { c_kind : ScalarType; c_range : option DiscreteRange }.
Definition scalar (k : ScalarType) : CheckedType := mkChecked k None.
Definition unknown : CheckedType := scalar TUnknown.
Notation Declarations := (gmap (list ascii) CheckedType).
Notation GenericValues := (gmap (list ascii) Z).
Record Visibility := mkVisibility { stdLogic1164 : bool; numericStd : bool }.
Definition nothing_visible : Visibility := mkVisibility false false.

Record AnalysisDiagnostic := mkAnalysisDiagnostic { ad_message : string; ad_span : SourceSpan }.
Record AnalysisResult := mkAnalysis {
  a_diagnostics : list AnalysisDiagnostic; expressionTypes : gmap site ScalarType; expressionRanges : gmap site DiscreteRange;
  resolvedTypeRanges : gmap site DiscreteRange; genericValues : gmap site GenericValues; specializedTypeRanges : gmap site (gmap site DiscreteRange) }.
Definition no_analysis : AnalysisResult := mkAnalysis [] ∅ ∅ ∅ ∅ ∅.
Definition add_diagnostic (d : AnalysisDiagnostic) (r : AnalysisResult) : AnalysisResult :=
  mkAnalysis (a_diagnostics r ++ [d]) (expressionTypes r) (expressionRanges r) (resolvedTypeRanges r) (genericValues r) (specializedTypeRanges r).
Definition set_expressionType (at_ : site) (k : ScalarType) (r : AnalysisResult) : AnalysisResult :=
  mkAnalysis (a_diagnostics r) (<[at_:=k]> (expressionTypes r)) (expressionRanges r) (resolvedTypeRanges r) (genericValues r) (specializedTypeRanges r).
Definition set_expressionRange (at_ : site) (d : DiscreteRange) (r : AnalysisResult) : AnalysisResult :=
  mkAnalysis (a_diagnostics r) (expressionTypes r) (<[at_:=d]> (expressionRanges r)) (resolvedTypeRanges r) (genericValues r) (specializedTypeRanges r).
Definition set_typeRange (at_ : site) (d : DiscreteRange) (r : AnalysisResult) : AnalysisResult :=
  mkAnalysis (a_diagnostics r) (expressionTypes r) (expressionRanges r) (<[at_:=d]> (resolvedTypeRanges r)) (genericValues r) (specializedTypeRanges r).
Definition set_genericValues (at_ : site) (v : GenericValues) (r : AnalysisResult) : AnalysisResult :=
  mkAnalysis (a_diagnostics r) (expressionTypes r) (expressionRanges r) (resolvedTypeRanges r) (<[at_:=v]> (genericValues r)) (specializedTypeRanges r).
(** [specializedTypeRanges[instantiation][type] = range]. *)
Definition set_specializedRange (instantiation type : site) (d : DiscreteRange) (r : AnalysisResult) : AnalysisResult :=
  mkAnalysis (a_diagnostics r) (expressionTypes r) (expressionRanges r) (resolvedTypeRanges r) (genericValues r)
    (<[instantiation:=<[type:=d]> (default ∅ (specializedTypeRanges r !! instantiation))]> (specializedTypeRanges r)).

Definition has_diagnostics (r : AnalysisResult) : bool := match a_diagnostics r with [] => false | _ => true end.
Definition getType (r : AnalysisResult) (expression : site) : ScalarType := default TUnknown (expressionTypes r !! expression).
Definition getRange (r : AnalysisResult) (expression : site) : option DiscreteRange := expressionRanges r !! expression.
Definition getTypeRange (r : AnalysisResult) (type : site) : option DiscreteRange := resolvedTypeRanges r !! type.
Definition getGenericValue (r : AnalysisResult) (instantiation : site) (name : list ascii) : option Z :=
  values ← genericValues r !! instantiation; (values : gmap (list ascii) Z) !! (toLower <$> name).
Definition getSpecializedRange (r : AnalysisResult) (instantiation type : site) : option DiscreteRange :=
  ranges ← specializedTypeRanges r !! instantiation; (ranges : gmap site DiscreteRange) !! type.

(** * Programs of the analyzer *)

Notation analysis := (prog AnalysisResult).
Definition complain (m : string) (sp : SourceSpan) : analysis unit := modify (add_diagnostic (mkAnalysisDiagnostic m sp)).
Definition complain_if (b : bool) (m : string) (sp : SourceSpan) : analysis unit := if b then complain m sp else mret tt.
(** What a defined computation gives. *)
Definition lift {A} (o : outcome A) : analysis A := fun r => (o, r).
(** [*pointer]. *)
Definition pointed {A} (o : option A) : analysis A := match o with Some a => mret a | None => undef end.
Definition str (l : list ascii) : string := String.string_of_list_ascii l.
Definition key_is (n : Name) (s : string) : bool := bool_decide (nameKey n = chars s).
Definition canonical_is (n : Name) (s : string) : bool := bool_decide (n_canonical n = chars s).
Definition text_is (e : Expression) (s : string) : bool := bool_decide (e_text e = chars s).
Definition expressionName (e : Expression) : list ascii := match e_canonical e with [] => e_text e | c => c end.

(** * Packages in view *)

Definition library_names (context : ContextClause) : list (list ascii) :=
  [chars "std"; chars "work"] ++ mjoin ((fun clause => nameKey <$> li_names clause) <$> cx_libraries context).

Definition analyzeUse (libraries : list (list ascii)) (visibility : Visibility) (clause : UseClause) : analysis Visibility :=
  match us_selectedName clause with
  | [library; package; suffix] =>
      if negb (key_is suffix "all") then complain "only whole-package use clauses are supported" (us_span clause) ;; mret visibility
      else if negb (bool_decide (nameKey library ∈ libraries)) then
        complain ("use clause names library '" +:+ str (spelling library) +:+ "' without a matching library clause") (n_span library) ;; mret visibility
      else if negb (key_is library "ieee") then
        complain "package imports are currently supported only from library 'ieee'" (n_span library) ;; mret visibility
      else if key_is package "std_logic_1164" then mret (mkVisibility true (numericStd visibility))
      else if key_is package "numeric_std" then mret (mkVisibility (stdLogic1164 visibility) true)
      else if key_is package "math_real" then mret visibility
      else complain ("unsupported IEEE package '" +:+ str (spelling package) +:+ "'") (n_span package) ;; mret visibility
  | _ => complain "only whole-package use clauses are supported" (us_span clause) ;; mret visibility
  end.

(** [for (x: l) state = body(state, x)]. *)
Fixpoint fold_each {S A B} (body : B -> A -> prog S B) (b : B) (l : list A) : prog S B :=
  match l with
  | [] => mret b
  | x :: l => body b x ≫= fun b => fold_each body b l
  end.

Definition analyzeContext (context : ContextClause) : analysis Visibility :=
  fold_each (analyzeUse (library_names context)) nothing_visible (cx_uses context).

(** * Static integers *)

Definition int64_max : Z := 2 ^ 63 - 1.
Definition int64_min : Z := - 2 ^ 63.
Definition fits64 (z : Z) : bool := (int64_min <=? z) && (z <=? int64_max).
Definition int64 (z : Z) : outcome Z := if fits64 z then Ret z else Undef.


(** [a && b] where [b] is evaluated when [a] holds only. *)
Definition and_then (a : bool) (b : outcome bool) : outcome bool := if a then b else Ret false.
Definition or_else (a : outcome bool) (b : outcome bool) : outcome bool := x ← a; if x : bool then Ret true else b.
(** [if (overflow) return std::nullopt; return value]. *)
Definition unless (overflow : outcome bool) (value : outcome Z) : outcome (option Z) :=
  x ← overflow; if x : bool then Ret None else Some <$> value.

(** Division and remainder on [std::int64_t]. *)
Definition div64 (a b : Z) : outcome Z := if b =? 0 then Undef else int64 (Z.quot a b).
Definition rem64 (a b : Z) : outcome Z := if (b =? 0) || ((a =? int64_min) && (b =? -1)) then Undef else Ret (Z.rem a b).

(** [std::from_chars] that succeeds and takes the whole text. *)
Definition integer_of (digits : list ascii) : option Z :=
  match digits with
  | c :: rest =>
      if Ascii.eqb c "-" then n ← from_chars (2 ^ 63) rest; Some (- n) else from_chars int64_max digits
  | [] => None
  end.

Definition add_overflows (left right : Z) : outcome bool :=
  or_else (and_then (0 <? right) (b ← int64 (int64_max - right); Ret (b <? left)))
    (and_then (right <? 0) (b ← int64 (int64_min - right); Ret (left <? b))).
Definition sub_overflows (left right : Z) : outcome bool :=
  or_else (and_then (0 <? right) (b ← int64 (int64_min + right); Ret (left <? b)))
    (and_then (right <? 0) (b ← int64 (int64_max + right); Ret (b <? left))).
Definition mul_overflows (left right : Z) : outcome bool :=
  if 0 <? left then
    or_else (and_then (0 <? right) (b ← div64 int64_max right; Ret (b <? left)))
      (and_then (right <? 0) (b ← div64 int64_min left; Ret (right <? b)))
  else if left <? 0 then
    or_else (and_then (0 <? right) (b ← div64 int64_min right; Ret (left <? b)))
      (and_then (right <? 0) (b ← div64 int64_max right; Ret (left <? b)))
  else Ret false.
Definition mod64 (left right : Z) : outcome Z :=
  remainder ← rem64 left right;
  if negb (remainder =? 0) && negb (Bool.eqb (remainder <? 0) (right <? 0)) then int64 (remainder + right) else Ret remainder.

Definition evaluateBinary (op : list ascii) (left right : Z) : outcome (option Z) :=
  let op_is s := bool_decide (op = chars s) in
  if op_is "+" then unless (add_overflows left right) (int64 (left + right))
  else if op_is "-" then unless (sub_overflows left right) (int64 (left - right))
  else if op_is "*" then unless (mul_overflows left right) (int64 (left * right))
  else if (op_is "/" || op_is "mod" || op_is "rem") && (right =? 0) then Ret None
  else if (left =? int64_min) && (right =? -1) && op_is "/" then Ret None
  else if (left =? int64_min) && (right =? -1) && (op_is "rem" || op_is "mod") then Ret (Some 0)
  else if op_is "/" then Some <$> div64 left right
  else if op_is "rem" then Some <$> rem64 left right
  else if op_is "mod" then Some <$> mod64 left right
  else Ret None.

Fixpoint evaluateInteger (expression : Expression) (values : GenericValues) : outcome (option Z) :=
  match e_kind expression with
  | EName => Ret (values !! expressionName expression)
  | EIntegerLiteral =>
      if existsb (Ascii.eqb "#") (e_text expression) then Ret None else Ret (integer_of (without_underscores (e_text expression)))
  | EUnary =>
      match e_left expression with
      | None => Ret None
      | Some l =>
          operand ← evaluateInteger l values;
          match operand with
          | None => Ret None
          | Some operand =>
              if text_is expression "+" then Ret (Some operand)
              else if text_is expression "-" && negb (operand =? int64_min) then Some <$> int64 (- operand)
              else Ret None
          end
      end
  | EBinary =>
      match e_left expression, e_right expression with
      | Some l, Some r =>
          left ← evaluateInteger l values;
          right ← evaluateInteger r values;
          match left, right with
          | Some a, Some b => evaluateBinary (e_text expression) a b
          | _, _ => Ret None
          end
      | _, _ => Ret None
      end
  | _ => Ret None
  end.

(** * Ranges and types *)

Definition resolveRange (range : DiscreteRange) (values : GenericValues) : outcome (option DiscreteRange) :=
  match r_attribute range with
  | Some _ => Ret None
  | None =>
      match r_leftExpression range, r_rightExpression range with
      | Some l, Some r =>
          left ← evaluateInteger l values;
          right ← evaluateInteger r values;
          match left, right with
          | Some a, Some b =>
              Ret (Some (mkRange a b (r_ascending range) (r_span range) (r_leftExpression range) (r_rightExpression range) (r_attribute range) (r_subtype range)))
          | _, _ => Ret None
          end
      | _, _ => Ret (Some range)
      end
  end.

Definition declarationType (type : TypeMark) (visibility : Visibility) (values : GenericValues) : outcome CheckedType :=
  range ← match t_constraint type with Some c => resolveRange c values | None => Ret None end;
  let named s := canonical_is (t_name type) s in
  let constrained := match t_constraint type with Some _ => true | None => false end in
  Ret (if named "bit_vector" && constrained then mkChecked TBitVector range
  else if stdLogic1164 visibility && named "std_logic_vector" && constrained then mkChecked TStdLogicVector range
  else if numericStd visibility && named "unsigned" && constrained then mkChecked TUnsigned range
  else if numericStd visibility && named "signed" && constrained then mkChecked TSigned range
  else if constrained then unknown
  else if named "bit" then scalar TBit
  else if stdLogic1164 visibility && named "std_logic" then scalar TStdLogic
  else if named "boolean" then scalar TBoolean
  else if named "integer" then scalar TInteger
  else if named "natural" then scalar TNatural
  else if named "positive" then scalar TNatural
  else if named "real" then scalar TReal
  else if named "string" then scalar TString
  else unknown).

(** Widths are [std::uint64_t]s. *)
Definition word (z : Z) : Z := z mod 2 ^ 64.
Definition rangeWidth (range : DiscreteRange) : Z :=
  let left := r_left range in let right := r_right range in
  if (r_ascending range && (right <? left)) || (negb (r_ascending range) && (left <? right)) then 0
  else word ((if right <? left then word left - word right else word right - word left) + 1).

Definition isNumber (k : ScalarType) : bool := is_type k TInteger || is_type k TNatural.
Definition isVector (k : ScalarType) : bool := is_type k TBitVector || is_type k TStdLogicVector || is_type k TUnsigned || is_type k TSigned.
Definition compatible (left right : CheckedType) : bool :=
  if is_type (c_kind left) TUnknown || is_type (c_kind right) TUnknown then false
  else if isNumber (c_kind left) && isNumber (c_kind right) then true
  else if negb (is_type (c_kind left) (c_kind right)) then false
  else if negb (isVector (c_kind left)) then true
  else match c_range left, c_range right with
  | Some l, Some r => rangeWidth l =? rangeWidth r
  | None, None => true
  | _, _ => false
  end.

Definition isLogical (op : list ascii) : bool := bool_decide (op ∈ chars <$> ["and"; "nand"; "or"; "nor"; "xor"; "xnor"]%string).
Definition typeName (type : ScalarType) : string :=
  match type with
  | TBit => "bit" | TBitVector => "bit_vector" | TStdLogic => "std_logic" | TStdLogicVector => "std_logic_vector" | TUnsigned => "unsigned"
  | TSigned => "signed" | TBoolean => "boolean" | TInteger => "integer" | TNatural => "natural" | TReal => "real" | TString => "string"
  | TUnknown => "unknown"
  end.
Definition isLogicalType (k : ScalarType) : bool :=
  match k with TBit | TBitVector | TStdLogic | TStdLogicVector | TBoolean => true | _ => false end.
Definition isNumericVectorType (k : ScalarType) : bool := match k with TUnsigned | TSigned => true | _ => false end.

Definition maxWidth : Z := int64_max + 1.
Definition canonicalRange (width : Z) (sp : SourceSpan) : option DiscreteRange :=
  if (width =? 0) || (maxWidth <? width) then None else Some (mkRange (width - 1) 0 false sp None None None None).

Definition isStdLogicLiteral (literal : list ascii) : bool :=
  match literal with
  | [a; c; b] => Ascii.eqb a "'" && Ascii.eqb b "'" && is_one_of ["U"; "X"; "0"; "1"; "Z"; "W"; "L"; "H"; "-"]%char c
  | _ => false
  end.
