(* ===== verification/VhdlTypeProofs.v ===== *)
(** Static integers, widths and types of the VHDL analyzer: no evaluation
    overflows, and each gives the value the operators have on integers. *)
From S2P Require Import Prelude Store VhdlLexer VhdlSyntax VhdlParser VhdlTypes.
Local Open Scope Z_scope.

(** * The meaning of static expressions *)

(** What an operator of VHDL gives on integers. *)
Definition operator_value (op : list ascii) (a b : Z) : option Z :=
  let op_is s := bool_decide (op = chars s) in
  if op_is "+" then Some (a + b)
  else if op_is "-" then Some (a - b)
  else if op_is "*" then Some (a * b)
  else if op_is "/" then (if b =? 0 then None else Some (Z.quot a b))
  else if op_is "rem" then (if b =? 0 then None else Some (Z.rem a b))
  else if op_is "mod" then (if b =? 0 then None else Some (a mod b))
  else None.

(** The value of an expression when every value on the way has 64 bits. *)
Inductive denotes (values : GenericValues) : Expression -> Z -> Prop :=
| denotes_name e z : e_kind e = EName -> values !! expressionName e = Some z -> denotes values e z
| denotes_literal e z : e_kind e = EIntegerLiteral -> "#"%char ∉ e_text e -> integer_of (without_underscores (e_text e)) = Some z -> denotes values e z
| denotes_plus e l z : e_kind e = EUnary -> e_text e = chars "+" -> e_left e = Some l -> denotes values l z -> denotes values e z
| denotes_minus e l z : e_kind e = EUnary -> e_text e = chars "-" -> e_left e = Some l -> denotes values l z -> fits64 (- z) = true -> denotes values e (- z)
| denotes_binary e l r a b c : e_kind e = EBinary -> e_left e = Some l -> e_right e = Some r -> denotes values l a -> denotes values r b ->
    operator_value (e_text e) a b = Some c -> fits64 c = true -> denotes values e c.

Definition all_fit (values : GenericValues) : Prop := forall k z, values !! k = Some z -> fits64 z = true.

(** * Arithmetic at 64 bits *)

Lemma fits64_iff z : fits64 z = true <-> int64_min <= z <= int64_max.
Proof. unfold fits64. lia. Qed.
Lemma int64_fits z : fits64 z = true -> int64 z = Ret z.
Proof. unfold int64. by intros ->. Qed.

Ltac fits := rewrite ?fits64_iff in *; unfold int64_min, int64_max in *.

Lemma add_overflows_spec a b : fits64 a = true -> fits64 b = true -> add_overflows a b = Ret (negb (fits64 (a + b))).
Proof.
  intros Ha Hb. unfold add_overflows, and_then, or_else. destruct (Z.ltb_spec 0 b), (Z.ltb_spec b 0); try lia.
  - rewrite int64_fits by (fits; lia). cbn. destruct (Z.ltb_spec (int64_max - b) a); f_equal; symmetry; [apply negb_true_iff|apply negb_false_iff];
      unfold fits64 in *; fits; lia.
  - rewrite int64_fits by (fits; lia). cbn. f_equal. unfold fits64 in *; fits; lia.
  - cbn. f_equal. assert (b = 0) as -> by lia. by rewrite Z.add_0_r, Ha.
Qed.
Lemma sub_overflows_spec a b : fits64 a = true -> fits64 b = true -> sub_overflows a b = Ret (negb (fits64 (a - b))).
Proof.
  intros Ha Hb. unfold sub_overflows, and_then, or_else. destruct (Z.ltb_spec 0 b), (Z.ltb_spec b 0); try lia.
  - rewrite int64_fits by (fits; lia). cbn. destruct (Z.ltb_spec a (int64_min + b)); f_equal; symmetry; [apply negb_true_iff|apply negb_false_iff];
      unfold fits64 in *; fits; lia.
  - rewrite int64_fits by (fits; lia). cbn. f_equal. unfold fits64 in *; fits; lia.
  - cbn. f_equal. assert (b = 0) as -> by lia. by rewrite Z.sub_0_r, Ha.
Qed.

(** A quotient of bounded numbers, and how it compares. *)
Lemma quot_lt n d x : 0 <= n -> 0 < d -> (Z.quot n d <? x) = (n <? x * d).
Proof. intros Hn Hd. rewrite Z.quot_div_nonneg by lia. pose proof (Z.div_mod n d) as D. pose proof (Z.mod_pos_bound n d). destruct (Z.ltb_spec (n / d) x), (Z.ltb_spec n (x * d)); nia. Qed.
Lemma quot_bound n d : 0 <= n -> 0 < d -> 0 <= Z.quot n d <= n.
Proof. intros Hn Hd. rewrite Z.quot_div_nonneg by lia. split; [by apply Z.div_pos; lia|]. apply Z.div_le_upper_bound; nia. Qed.
Lemma div64_pos n d : 0 <= n <= int64_max -> 0 < d -> div64 n d = Ret (Z.quot n d).
Proof. intros Hn Hd. unfold div64. rewrite (proj2 (Z.eqb_neq d 0)) by lia. pose proof (quot_bound n d). apply int64_fits. fits. lia. Qed.
Lemma div64_neg n d : int64_min <= n <= 0 -> 0 < d -> div64 n d = Ret (- Z.quot (- n) d).
Proof.
  intros Hn Hd. unfold div64. rewrite (proj2 (Z.eqb_neq d 0)) by lia. replace (- Z.quot (- n) d) with (Z.quot n d) by (rewrite Z.quot_opp_l by lia; lia).
  apply int64_fits. pose proof (quot_bound (- n) d). rewrite <- (Z.opp_involutive n), Z.quot_opp_l by lia. fits. lia.
Qed.

Lemma div64_neg_divisor n d : 0 <= n <= int64_max -> d < 0 -> div64 n d = Ret (- Z.quot n (- d)).
Proof.
  intros Hn Hd. unfold div64. rewrite (proj2 (Z.eqb_neq d 0)) by lia. replace (- Z.quot n (- d)) with (Z.quot n d) by (rewrite Z.quot_opp_r by lia; lia).
  apply int64_fits. pose proof (quot_bound n (- d)) as B. rewrite Z.quot_opp_r in B by lia. fits. lia.
Qed.

(** The four cases of a product, by the signs of its factors. *)
Lemma mul_overflows_spec a b : fits64 a = true -> fits64 b = true -> mul_overflows a b = Ret (negb (fits64 (a * b))).
Proof.
  intros Ha Hb. unfold mul_overflows, and_then, or_else.
  assert (Hq : forall n d x, 0 <= n -> 0 < d -> (x <? - Z.quot n d) = (n <? - x * d)) by (intros n d x Hn Hd; rewrite <- quot_lt by lia; lia).
  destruct (Z.ltb_spec 0 a), (Z.ltb_spec 0 b), (Z.ltb_spec b 0), (Z.ltb_spec a 0); try lia; cbn;
    first [rewrite div64_pos by (fits; lia); cbn; rewrite quot_lt by (fits; lia)
          |rewrite div64_neg by (fits; lia); cbn; rewrite Hq by (fits; lia)
          |rewrite div64_neg_divisor by (fits; lia); cbn; rewrite Hq by (fits; lia)
          |f_equal; unfold fits64; fits; nia];
    match goal with |- context [?x <? ?y] => destruct (x <? y) eqn:E end; f_equal; unfold fits64; fits; nia.
Qed.

(** The remainder, adjusted to the sign of the divisor, is the modulus. *)
Lemma mod_of_rem a b : b <> 0 ->
  (if negb (Z.rem a b =? 0) && negb (Bool.eqb (Z.rem a b <? 0) (b <? 0)) then Z.rem a b + b else Z.rem a b) = a mod b.
Proof.
  intros Hb. pose proof (Z.quot_rem' a b) as E. pose proof (Z.rem_bound_abs a b Hb) as B. revert E B. generalize (Z.rem a b) (Z.quot a b). intros r q E B.
  destruct (Z.eqb_spec r 0), (Z.ltb_spec r 0), (Z.ltb_spec b 0); cbn; try lia;
    first [apply Z.mod_unique with q; lia|apply Z.mod_unique with (q - 1); lia].
Qed.
Lemma rem64_spec a b : b <> 0 -> (a =? int64_min) && (b =? -1) = false -> rem64 a b = Ret (Z.rem a b).
Proof. intros Hb H. unfold rem64. by rewrite H, (proj2 (Z.eqb_neq b 0) Hb). Qed.
Lemma rem_fits a b : b <> 0 -> fits64 b = true -> fits64 (Z.rem a b) = true.
Proof. intros Hb Hf. pose proof (Z.rem_bound_abs a b Hb). fits. lia. Qed.
Lemma mod_fits a b : b <> 0 -> fits64 b = true -> fits64 (a mod b) = true.
Proof. intros Hb Hf. pose proof (Z.mod_pos_bound a b). pose proof (Z.mod_neg_bound a b). fits. lia. Qed.
Lemma quot_fits a b : b <> 0 -> fits64 a = true -> (a =? int64_min) && (b =? -1) = false -> fits64 (Z.quot a b) = true.
Proof.
  intros Hb Ha H. destruct (Z.eq_dec b (-1)) as [->|Hn].
  - change (-1) with (- (1)). rewrite Z.quot_opp_r, Z.quot_1_r by lia. fits. lia.
  - assert (Hq : Z.abs (Z.quot a b) <= Z.abs a).
    { rewrite <- Z.quot_abs by done. pose proof (quot_bound (Z.abs a) (Z.abs b)). lia. }
    destruct (Z.eq_dec b 1) as [->|H1]; [by rewrite Z.quot_1_r|].
    assert (Hs : a <> int64_min -> fits64 (Z.quot a b) = true) by (intros Hm; fits; lia).
    destruct (Z.eq_dec a int64_min) as [->|]; [|by apply Hs].
    pose proof (Z.quot_rem' int64_min b) as E. pose proof (Z.rem_bound_abs int64_min b Hb) as B. fits. nia.
Qed.
Lemma mod64_spec a b : b <> 0 -> fits64 b = true -> (a =? int64_min) && (b =? -1) = false -> mod64 a b = Ret (a mod b).
Proof.
  intros Hb Hf H. unfold mod64. rewrite rem64_spec by done. cbn [mbind outcome_bind]. rewrite <- (mod_of_rem a b) by done. pose proof (mod_fits a b Hb Hf) as M.
  rewrite <- mod_of_rem in M by done. match goal with |- (if ?c then _ else _) = _ => destruct c end; [|done]. by apply int64_fits.
Qed.

(** The value of an operator, if it has 64 bits. *)
Definition if_fits (o : option Z) : option Z := c ← o; if fits64 c then Some c else None.
Lemma unless_spec z : unless (Ret (negb (fits64 z))) (int64 z) = Ret (if_fits (Some z)).
Proof. unfold unless, if_fits, int64. cbn. by destruct (fits64 z). Qed.

Lemma evaluateBinary_spec op a b : fits64 a = true -> fits64 b = true -> evaluateBinary op a b = Ret (if_fits (operator_value op a b)).
Proof.
  intros Ha Hb. unfold evaluateBinary, operator_value.
  rewrite add_overflows_spec, sub_overflows_spec, mul_overflows_spec, !unless_spec by done.
  destruct (decide (op = chars "+")) as [->|N1]; [done|]. destruct (decide (op = chars "-")) as [->|N2]; [done|].
  destruct (decide (op = chars "*")) as [->|N3]; [done|].
  rewrite !(bool_decide_eq_false_2 (op = chars "+")), !(bool_decide_eq_false_2 (op = chars "-")), !(bool_decide_eq_false_2 (op = chars "*")) by done.
  destruct (Z.eqb_spec b 0) as [->|Hz]; cbn.
  - rewrite andb_true_r, !andb_false_r. repeat case_bool_decide; subst; done.
  - rewrite andb_false_r. destruct ((a =? int64_min) && (b =? -1)) eqn:Em.
    + destruct (proj1 (andb_true_iff _ _) Em) as [->%Z.eqb_eq ->%Z.eqb_eq]. repeat case_bool_decide; subst; try done.
    + rewrite !andb_false_l. unfold div64. rewrite (proj2 (Z.eqb_neq b 0)) by done. rewrite rem64_spec, mod64_spec by done.
      repeat case_bool_decide; subst; try done; cbn; unfold if_fits; cbn.
      * pose proof (quot_fits a b Hz Ha Em) as Hq. by rewrite int64_fits, Hq.
      * by rewrite rem_fits.
      * by rewrite mod_fits.
Qed.

(** * Evaluation *)

Lemma digits_nonneg l v : forallb isDigit l = true -> 0 <= v -> 0 <= foldl (fun v c => 10 * v + digit_value c) v l.
Proof.
  revert v. induction l as [|x l IH]; intros v Hx Hp; [exact Hp|]. cbn [forallb] in Hx. apply andb_true_iff in Hx as [Hx Hl]. cbn [foldl]. apply IH; [done|].
  unfold isDigit, VhdlLexer.between in Hx. change (N_of_ascii "0"%char) with 48%N in Hx. apply andb_true_iff in Hx as [Hx%N.leb_le _]. unfold digit_value. lia.
Qed.
Lemma from_chars_bound limit l n : from_chars limit l = Some n -> 0 <= n <= limit.
Proof.
  unfold from_chars. destruct l as [|d l]; [done|]. destruct (forallb isDigit (d :: l)) eqn:Ed; [|done]. pose proof (digits_nonneg (d :: l) 0 Ed (Z.le_refl 0)) as H0.
  revert H0. generalize (foldl (fun v c => 10 * v + digit_value c) 0 (d :: l)). intros v H0. destruct (Z.leb_spec v limit); [|done]. intros [= <-]. lia.
Qed.
Lemma integer_of_fits l z : integer_of l = Some z -> fits64 z = true.
Proof.
  unfold integer_of. destruct l as [|c l]; [done|]. destruct (Ascii.eqb c "-").
  - destruct (from_chars (2 ^ 63) l) as [n|] eqn:En; [|done]. intros [= <-]. apply from_chars_bound in En. fits. lia.
  - intros Hz%from_chars_bound. fits. lia.
Qed.

Lemma denotes_fits values e z : all_fit values -> denotes values e z -> fits64 z = true.
Proof. intros Hv. induction 1; eauto using integer_of_fits. Qed.

(** The result an evaluation must have: the value of the expression or none. *)
Definition evaluates (values : GenericValues) (e : Expression) (o : option Z) : Prop :=
  evaluateInteger e values = Ret o /\ forall z, o = Some z <-> denotes values e z.

Lemma evaluates_none values e : evaluateInteger e values = Ret None -> (forall z, ~ denotes values e z) -> evaluates values e None.
Proof. intros H Hn. split; [done|]. intros z. split; [done|]. intros D. by destruct (Hn z). Qed.

Lemma denotes_inv values e z : denotes values e z ->
  match e_kind e with
  | EName => values !! expressionName e = Some z
  | EIntegerLiteral => "#"%char ∉ e_text e /\ integer_of (without_underscores (e_text e)) = Some z
  | EUnary => exists l a, e_left e = Some l /\ denotes values l a /\ (e_text e = chars "+" /\ z = a \/ e_text e = chars "-" /\ z = - a /\ fits64 (- a) = true)
  | EBinary => exists l r a b, e_left e = Some l /\ e_right e = Some r /\ denotes values l a /\ denotes values r b /\
      operator_value (e_text e) a b = Some z /\ fits64 z = true
  | _ => False
  end.
Proof. intros D. destruct D as [? ? E|? ? E|? ? ? E|? ? ? E|? ? ? ? ? ? E]; rewrite E; eauto 15. Qed.

Lemma evaluate_unary values e : e_kind e = EUnary -> (forall l, e_left e = Some l -> exists o, evaluates values l o) -> all_fit values ->
  exists o, evaluates values e o.
Proof.
  intros Hk Hl Hv. pose proof (denotes_inv values e) as Hi. rewrite Hk in Hi. destruct (e_left e) as [l|] eqn:El.
  2: { exists None. apply evaluates_none; [destruct e; cbn in *; by subst|naive_solver]. }
  destruct (Hl l eq_refl) as (o & Eo & Ho).
  assert (E : evaluateInteger e values = match o with None => Ret None | Some z => if text_is e "+" then Ret (Some z)
    else if text_is e "-" && negb (z =? int64_min) then Some <$> int64 (- z) else Ret None end).
  { destruct e; cbn in *. subst. cbn in *. by rewrite Eo. }
  destruct o as [a|]; [|exists None; apply evaluates_none; naive_solver].
  pose proof (proj1 (Ho a) eq_refl) as Da. pose proof (denotes_fits _ _ _ Hv Da) as Fa.
  assert (Hdet : forall b, denotes values l b -> b = a) by (intros b Db; apply Ho in Db; congruence).
  unfold text_is in E. destruct (decide (e_text e = chars "+")) as [Ep|Np].
  - rewrite bool_decide_eq_true_2 in E by done. exists (Some a). split; [done|]. intros z. split.
    + intros [= <-]. by eapply denotes_plus.
    + intros D. destruct (Hi _ D) as (l' & b & [= <-] & Db & [[_ ->]|[Hm _]]); [f_equal; symmetry; auto|by rewrite Ep in Hm].
  - rewrite bool_decide_eq_false_2 in E by done. destruct (decide (e_text e = chars "-")) as [Em|Nm].
    2: { rewrite bool_decide_eq_false_2 in E by done. exists None. apply evaluates_none; naive_solver. }
    rewrite bool_decide_eq_true_2 in E by done. cbn in E. destruct (Z.eqb_spec a int64_min) as [->|Hn]; cbn in E.
    + exists None. apply evaluates_none; [done|]. intros z D. destruct (Hi _ D) as (l' & b & [= <-] & Db & [[Hp _]|(_ & _ & F)]); [done|].
      rewrite (Hdet _ Db) in F. by vm_compute in F.
    + assert (Fm : fits64 (- a) = true) by (fits; lia). rewrite int64_fits in E by done. exists (Some (- a)). split; [done|]. intros z. split.
      * intros [= <-]. by eapply denotes_minus.
      * intros D. destruct (Hi _ D) as (l' & b & [= <-] & Db & [[Hp _]|(_ & -> & _)]); [done|]. rewrite (Hdet _ Db). done.
Qed.

Lemma evaluate_binary values e : e_kind e = EBinary -> (forall l, e_left e = Some l -> exists o, evaluates values l o) ->
  (forall r, e_right e = Some r -> exists o, evaluates values r o) -> all_fit values -> exists o, evaluates values e o.
Proof.
  intros Hk Hl Hr Hv. pose proof (denotes_inv values e) as Hi. rewrite Hk in Hi. destruct (e_left e) as [l|] eqn:El.
  2: { exists None. apply evaluates_none; [destruct e; cbn in *; by subst|naive_solver]. }
  destruct (e_right e) as [r|] eqn:Er.
  2: { exists None. apply evaluates_none; [destruct e; cbn in *; by subst|naive_solver]. }
  destruct (Hl l eq_refl) as (ol & Eol & Hol). destruct (Hr r eq_refl) as (or & Eor & Hor).
  assert (E : evaluateInteger e values = match ol, or with Some a, Some b => evaluateBinary (e_text e) a b | _, _ => Ret None end).
  { destruct e; cbn in *. subst. cbn in *. by rewrite Eol, Eor. }
  destruct ol as [a|]; [|exists None; apply evaluates_none; naive_solver].
  destruct or as [b|]; [|exists None; apply evaluates_none; naive_solver].
  pose proof (proj1 (Hol a) eq_refl) as Da. pose proof (proj1 (Hor b) eq_refl) as Db.
  rewrite evaluateBinary_spec in E by (by eapply denotes_fits).
  exists (if_fits (operator_value (e_text e) a b)). split; [done|]. intros z. unfold if_fits. split.
  - intros (c & Hc & Hf)%bind_Some. destruct (fits64 c) eqn:Fc; [|done]. injection Hf as <-. by eapply denotes_binary.
  - intros D. destruct (Hi _ D) as (l' & r' & a' & b' & [= <-] & [= <-] & Da' & Db' & Ho & F). apply Hol in Da'. apply Hor in Db'. simplify_eq.
    rewrite Ho. cbn. by rewrite F.
Qed.

Lemma evaluate_spec values e : all_fit values -> exists o, evaluates values e o.
Proof.
  intros Hv. induction e as [els k text canonical sp l r c Hels Hl Hr Hc] using Expression_ind'.
  set (e := mkExpression els k text canonical sp l r c). pose proof (denotes_inv values e) as Hi. destruct k.
  3-5, 8-17: (exists None; apply evaluates_none; [done|exact Hi]).
  - exists (values !! expressionName e). split; [done|]. intros z. split; [by apply denotes_name|]. apply Hi.
  - assert (E : evaluateInteger e values = if existsb (Ascii.eqb "#") text then Ret None else Ret (integer_of (without_underscores text))) by done.
    assert (Hh : existsb (Ascii.eqb "#") text = true <-> "#"%char ∈ text).
    { rewrite existsb_exists. split; [intros (x & Hx & ->%Ascii.eqb_eq); by apply list_elem_of_In|].
      intros Hx. exists "#"%char. split; [by apply list_elem_of_In|apply Ascii.eqb_refl]. }
    destruct (existsb (Ascii.eqb "#") text).
    + exists None. apply evaluates_none; [done|]. intros z D. destruct (Hi z D) as [Hn _]. by apply Hn, Hh.
    + exists (integer_of (without_underscores text)). split; [done|]. intros z. split; [|apply Hi].
      intros Hz. apply denotes_literal; [done| |done]. intros Hx. by apply Hh in Hx.
  - by apply evaluate_unary.
  - by apply evaluate_binary.
Qed.

(** * Widths *)

(** How many values a range has. *)
Definition range_length (range : DiscreteRange) : Z :=
  if r_ascending range then Z.max 0 (r_right range - r_left range + 1) else Z.max 0 (r_left range - r_right range + 1).
Definition range_fits (range : DiscreteRange) : Prop := fits64 (r_left range) = true /\ fits64 (r_right range) = true.

Lemma word_sub a b : word (word a - word b + 1) = word (a - b + 1).
Proof. unfold word. by rewrite Zplus_mod, <- Zminus_mod, <- Zplus_mod. Qed.
Lemma rangeWidth_word range : rangeWidth range = word (range_length range).
Proof.
  unfold rangeWidth, range_length. destruct (r_ascending range), (Z.ltb_spec (r_right range) (r_left range)), (Z.ltb_spec (r_left range) (r_right range));
    cbn; try lia; rewrite ?word_sub; first [rewrite Z.max_l by lia; done|rewrite Z.max_r by lia; f_equal; lia].
Qed.
(** The width is the length, but for the range of all 64-bit integers. *)
Lemma rangeWidth_length range : range_fits range -> range_length range <> 2 ^ 64 -> rangeWidth range = range_length range.
Proof.
  intros [Hl Hr] Hn. rewrite rangeWidth_word. unfold word. apply Z.mod_small. revert Hn. unfold range_length. fits. destruct (r_ascending range); lia.
Qed.
Lemma canonicalRange_width w sp r : 0 <= w -> canonicalRange w sp = Some r -> rangeWidth r = w /\ range_fits r /\ 0 < w <= 2 ^ 63.
Proof.
  intros Hw. unfold canonicalRange. destruct (Z.eqb_spec w 0), (Z.ltb_spec maxWidth w); try done. intros [= <-]. unfold maxWidth in *. fits.
  assert (F : range_fits (mkRange (w - 1) 0 false sp None None None None)) by (split; cbn; fits; lia).
  split; [|split; [done|lia]]. rewrite rangeWidth_length; [unfold range_length; cbn; lia|done|unfold range_length; cbn; lia].
Qed.
Lemma rangeWidth_bound range : 0 <= rangeWidth range < 2 ^ 64.
Proof. rewrite rangeWidth_word. unfold word. by apply Z.mod_pos_bound. Qed.
