(* ===== verification/VhdlChecker.v ===== *)
(** The type checking of expressions by the VHDL analyzer, [checkExpression] of
    vhdl/src/Analyzer.cpp. The cases of an expression are definitions of their
    own, which take the checks of its operands as functions of the type that is
    expected of them. *)
From S2P Require Import Prelude Store VhdlLexer VhdlSyntax VhdlTypes.
Local Open Scope Z_scope.

Section expression.
(** The node under check. *)
Context (expression : Expression) (at_ : site) (visibility : Visibility).
#[local] Notation sp := (e_span expression).
#[local] Notation op := (str (e_text expression)).

Definition record (type : CheckedType) : analysis CheckedType :=
  modify (set_expressionType at_ (c_kind type)) ;;
  match c_range type with Some range => modify (set_expressionRange at_ range) | None => mret tt end ;;
  mret type.
(** [result.diagnostics.push_back({m, expression.span}); return record({});] *)
Definition refuse (m : string) : analysis CheckedType := complain m sp ;; record unknown.
Definition range_or_refuse (k : ScalarType) (width : Z) (m : string) : analysis CheckedType :=
  match canonicalRange width sp with
  | Some range => record (mkChecked k (Some range))
  | None => refuse m
  end.

Definition checkName (declarations : Declarations) : analysis CheckedType :=
  match declarations !! expressionName expression with
  | None => refuse ("no declaration for name '" +:+ op +:+ "'")
  | Some found =>
      complain_if (is_type (c_kind found) TUnknown) ("unsupported type for name '" +:+ op +:+ "'") sp ;;
      record found
  end.

Definition checkCharacter (expected : CheckedType) : analysis CheckedType :=
  if is_type (c_kind expected) TBit && (text_is expression "'0'" || text_is expression "'1'") then record (scalar TBit)
  else if is_type (c_kind expected) TStdLogic && isStdLogicLiteral (e_text expression) then record (scalar TStdLogic)
  else if is_type (c_kind expected) TUnknown then record unknown
  else refuse "character literal requires a supported scalar bit context".

(** [!operand.range || rangeWidth( *operand.range) == 0], and the width otherwise. *)
Definition null_operand (t : CheckedType) : bool :=
  match c_range t with Some range => rangeWidth range =? 0 | None => true end.
Definition operand_width (t : CheckedType) : Z := match c_range t with Some range => rangeWidth range | None => 0 end.

Definition checkUnary (expected : CheckedType) (left : CheckedType -> analysis CheckedType) : analysis CheckedType :=
  operand ← left expected;
  if text_is expression "not" && isLogicalType (c_kind operand) then record operand
  else if text_is expression "not" && isNumericVectorType (c_kind operand) then
    if negb (numericStd visibility) then refuse "unary 'not' for numeric vectors requires ieee.numeric_std.all"
    else if null_operand operand then refuse "unary 'not' requires a non-null numeric vector operand"
    else range_or_refuse (c_kind operand) (operand_width operand) "unary 'not' result width exceeds the supported range"
  else if (text_is expression "-" || text_is expression "abs") && is_type (c_kind operand) TSigned then
    if negb (numericStd visibility) then refuse ("unary '" +:+ op +:+ "' for signed vectors requires ieee.numeric_std.all")
    else if null_operand operand then refuse ("unary '" +:+ op +:+ "' requires a non-null signed vector operand")
    else range_or_refuse TSigned (operand_width operand) ("unary '" +:+ op +:+ "' result width exceeds the supported range")
  else if is_type (c_kind operand) TUnknown then record unknown
  else refuse ("operator '" +:+ op +:+ "' is not supported for type '" +:+ typeName (c_kind operand) +:+ "'").

Section binary.
(** The operands: their checks, nodes and places. *)
Context (left right : CheckedType -> analysis CheckedType) (leftExpression rightExpression : Expression).

Definition either_unknown (l r : CheckedType) : bool := is_type (c_kind l) TUnknown || is_type (c_kind r) TUnknown.
Definition either_vector (l r : CheckedType) : bool := isNumericVectorType (c_kind l) || isNumericVectorType (c_kind r).

Definition checkLogical (expected : CheckedType) : analysis CheckedType :=
  let operandExpected := if isLogicalType (c_kind expected) then expected else unknown in
  l ← left operandExpected;
  r ← right (if is_type (c_kind l) TUnknown then operandExpected else l);
  if isLogicalType (c_kind l) && compatible l r then record l
  else if either_vector l r then
    if negb (numericStd visibility) then refuse ("logical operator '" +:+ op +:+ "' for numeric vectors requires ieee.numeric_std.all")
    else match is_type (c_kind l) (c_kind r), c_range l, c_range r with
    | true, Some lr, Some rr =>
        let leftWidth := rangeWidth lr in let rightWidth := rangeWidth rr in
        if (leftWidth =? 0) || (rightWidth =? 0) then refuse ("logical operator '" +:+ op +:+ "' requires non-null numeric vector operands")
        else if negb (leftWidth =? rightWidth) then refuse ("logical operator '" +:+ op +:+ "' requires equally sized numeric vector operands")
        else range_or_refuse (c_kind l) leftWidth ("logical operator '" +:+ op +:+ "' result width exceeds the supported range")
    | _, _, _ =>
        if either_unknown l r then record unknown
        else refuse ("logical operator '" +:+ op +:+ "' requires matching numeric vector operands")
    end
  else if either_unknown l r then record unknown
  else refuse ("logical operator '" +:+ op +:+ "' requires matching logical operands").

(** The operand that is a vector and the other one, when just one is. *)
Definition vector_and_scalar (l r : CheckedType) : option (CheckedType * CheckedType * Expression * site) :=
  match isNumericVectorType (c_kind l), isNumericVectorType (c_kind r) with
  | true, false => Some (l, r, rightExpression, 1%nat :: at_)
  | false, true => Some (r, l, leftExpression, 0%nat :: at_)
  | _, _ => None
  end.
Definition validScalar (vector scalar : CheckedType) (scalarExpression : Expression) : bool :=
  let naturalScalar := is_type (c_kind scalar) TNatural || (is_type (c_kind scalar) TInteger && is_kind EIntegerLiteral scalarExpression) in
  let integerScalar := is_type (c_kind scalar) TInteger || is_type (c_kind scalar) TNatural in
  if is_type (c_kind vector) TUnsigned then naturalScalar else integerScalar.
(** [result.expressionTypes[&scalarExpression] = ScalarType::Natural], for literals beside unsigned vectors. *)
Definition markNatural (vector : CheckedType) (scalarExpression : Expression) (scalarAt : site) : analysis unit :=
  if is_type (c_kind vector) TUnsigned && is_kind EIntegerLiteral scalarExpression then modify (set_expressionType scalarAt TNatural) else mret tt.

Definition mismatch (l r : CheckedType) : analysis CheckedType :=
  if either_unknown l r then record unknown
  else refuse ("operator '" +:+ op +:+ "' requires matching numeric vectors or a compatible scalar operand").

(** A vector and a scalar that may be combined; [k] gives the result from the vector. *)
Definition withScalar (l r : CheckedType) (k : CheckedType -> Z -> analysis unit -> analysis CheckedType) : analysis CheckedType :=
  match vector_and_scalar l r with
  | Some (vector, scalar, scalarExpression, scalarAt) =>
      match validScalar vector scalar scalarExpression, c_range vector with
      | true, Some range =>
          if rangeWidth range =? 0 then refuse ("operator '" +:+ op +:+ "' requires a non-null numeric vector operand")
          else k vector (rangeWidth range) (markNatural vector scalarExpression scalarAt)
      | _, _ => mismatch l r
      end
  | None => mismatch l r
  end.
(** Two vectors of one kind. *)
Definition sameVectors (l r : CheckedType) : option (Z * Z) :=
  match isNumericVectorType (c_kind l) && is_type (c_kind l) (c_kind r), c_range l, c_range r with
  | true, Some lr, Some rr => Some (rangeWidth lr, rangeWidth rr)
  | _, _, _ => None
  end.

(** What [=], [/=] and the relations do with operands of which one is a vector. *)
Definition compareVectors (l r : CheckedType) : analysis CheckedType :=
  if negb (numericStd visibility) then refuse ("operator '" +:+ op +:+ "' for numeric vectors requires ieee.numeric_std.all")
  else match sameVectors l r with
  | Some (leftWidth, rightWidth) =>
      if (leftWidth =? 0) || (rightWidth =? 0) then refuse ("operator '" +:+ op +:+ "' requires non-null numeric vector operands")
      else record (scalar TBoolean)
  | None => withScalar l r (fun _ _ mark => mark ;; record (scalar TBoolean))
  end.

Definition checkEquality : analysis CheckedType :=
  let leftCharacter := is_kind ECharacterLiteral leftExpression in
  let rightCharacter := is_kind ECharacterLiteral rightExpression in
  if leftCharacter && rightCharacter then
    complain "equality between character literals needs a declared scalar context" sp ;;
    left unknown ;; right unknown ;; record unknown
  else
    '(l, r) ← (if leftCharacter then r ← right unknown; l ← left r; mret (l, r) else l ← left unknown; r ← right l; mret (l, r));
    if either_vector l r then compareVectors l r
    else if compatible l r then record (scalar TBoolean)
    else if either_unknown l r then record unknown
    else refuse "equality operator requires matching supported scalar operands".

Definition checkRelation : analysis CheckedType :=
  l ← left unknown;
  r ← right (if isNumericVectorType (c_kind l) then l else unknown);
  if negb (either_vector l r) then
    if either_unknown l r then record unknown
    else refuse ("relational operator '" +:+ op +:+ "' is currently supported only for numeric vectors")
  else compareVectors l r.

Definition checkAdditive : analysis CheckedType :=
  l ← left unknown;
  r ← right unknown;
  if either_vector l r && negb (numericStd visibility) then refuse ("operator '" +:+ op +:+ "' for numeric vectors requires ieee.numeric_std.all")
  else match sameVectors l r with
  | Some (leftWidth, rightWidth) =>
      if (leftWidth =? 0) || (rightWidth =? 0) then refuse ("operator '" +:+ op +:+ "' requires non-null numeric vector operands")
      else range_or_refuse (c_kind l) (Z.max leftWidth rightWidth) ("operator '" +:+ op +:+ "' result width exceeds the supported range")
  | None => withScalar l r (fun vector width mark =>
      match canonicalRange width sp with
      | None => refuse ("operator '" +:+ op +:+ "' result width exceeds the supported range")
      | Some range => mark ;; record (mkChecked (c_kind vector) (Some range))
      end)
  end.

(** The operands of the multiplying operators. *)
Definition multiplyingOperands (expected : CheckedType) : analysis (CheckedType * CheckedType) :=
  let operandExpected := if isNumericVectorType (c_kind expected) then expected else unknown in
  l ← left operandExpected;
  r ← right (if is_type (c_kind l) TUnknown then operandExpected else l);
  mret (l, r).
Definition noNumericOperand (l r : CheckedType) : analysis CheckedType :=
  if either_unknown l r then record unknown
  else refuse ("binary operator '" +:+ op +:+ "' is not supported by scalar type analysis").

Definition checkProduct (expected : CheckedType) : analysis CheckedType :=
  '(l, r) ← multiplyingOperands expected;
  if negb (either_vector l r) then noNumericOperand l r
  else if negb (numericStd visibility) then refuse "operator '*' for numeric vectors requires ieee.numeric_std.all"
  else match sameVectors l r with
  | Some (leftWidth, rightWidth) =>
      if (leftWidth =? 0) || (rightWidth =? 0) then refuse "operator '*' requires non-null numeric vector operands"
      else if (maxWidth <? rightWidth) || (word (maxWidth - rightWidth) <? leftWidth) then refuse "operator '*' result width exceeds the supported range"
      else range ← pointed (canonicalRange (word (leftWidth + rightWidth)) sp); record (mkChecked (c_kind l) (Some range))
  | None => withScalar l r (fun vector vectorWidth mark =>
      if Z.quot maxWidth 2 <? vectorWidth then refuse "operator '*' result width exceeds the supported range"
      else mark ;; range ← pointed (canonicalRange (word (vectorWidth * 2)) sp); record (mkChecked (c_kind vector) (Some range)))
  end.

Definition checkDivision (expected : CheckedType) : analysis CheckedType :=
  '(l, r) ← multiplyingOperands expected;
  if negb (either_vector l r) then noNumericOperand l r
  else if negb (numericStd visibility) then refuse ("operator '" +:+ op +:+ "' for numeric vectors requires ieee.numeric_std.all")
  else match sameVectors l r with
  | Some (leftWidth, rightWidth) =>
      if (leftWidth =? 0) || (rightWidth =? 0) then refuse ("operator '" +:+ op +:+ "' requires non-null numeric vector operands")
      else range_or_refuse (c_kind l) (if text_is expression "/" then leftWidth else rightWidth) ("operator '" +:+ op +:+ "' result width exceeds the supported range")
  | None => withScalar l r (fun vector width mark =>
      match canonicalRange width sp with
      | None => refuse ("operator '" +:+ op +:+ "' result width exceeds the supported range")
      | Some range => mark ;; record (mkChecked (c_kind vector) (Some range))
      end)
  end.

Definition checkOtherBinary : analysis CheckedType :=
  left unknown ;; right unknown ;;
  refuse ("binary operator '" +:+ op +:+ "' is not supported by scalar type analysis").

Definition checkBinary (expected : CheckedType) : analysis CheckedType :=
  if isLogical (e_text expression) then checkLogical expected
  else if text_is expression "=" || text_is expression "/=" then checkEquality
  else if text_is expression "<" || text_is expression "<=" || text_is expression ">" || text_is expression ">=" then checkRelation
  else if text_is expression "+" || text_is expression "-" then checkAdditive
  else if text_is expression "*" then checkProduct expected
  else if text_is expression "/" || text_is expression "rem" || text_is expression "mod" then checkDivision expected
  else checkOtherBinary.
End binary.

Definition checkConditional (expected : CheckedType) (condition left right : CheckedType -> analysis CheckedType) : analysis CheckedType :=
  c ← condition (scalar TBoolean);
  whenTrue ← left expected;
  whenFalse ← right expected;
  if is_type (c_kind c) TBoolean && compatible whenTrue whenFalse then
    record (if negb (is_type (c_kind expected) TUnknown) && compatible expected whenTrue then expected else whenTrue)
  else if is_type (c_kind c) TUnknown || either_unknown whenTrue whenFalse then record unknown
  else refuse "conditional expression requires a boolean condition and matching branches".
End expression.

Fixpoint checkExpression (expression : Expression) (declarations : Declarations) (visibility : Visibility) (at_ : site) (expected : CheckedType)
    : analysis CheckedType :=
  let child (tag : nat) (o : option Expression) (expected : CheckedType) : analysis CheckedType :=
    match o with Some e => checkExpression e declarations visibility (tag :: at_) expected | None => undef end in
  match e_kind expression with
  | EName => checkName expression at_ declarations
  | EAttribute | ESelected | EAssociation | ECall | EIndexed | EOthers | EAggregate | ERange | EBitStringLiteral =>
      refuse expression at_ "indexed expressions and aggregates require RTL elaboration"
  | EIntegerLiteral => record at_ (scalar (if is_type (c_kind expected) TNatural then TNatural else TInteger))
  | ERealLiteral => record at_ (scalar TReal)
  | EStringLiteral => record at_ (scalar TString)
  | ECharacterLiteral => checkCharacter expression at_ expected
  | EUnary => checkUnary expression at_ visibility expected (child 0%nat (e_left expression))
  | EBinary =>
      match e_left expression, e_right expression with
      | Some l, Some r => checkBinary expression at_ visibility (child 0%nat (e_left expression)) (child 1%nat (e_right expression)) l r expected
      | _, _ => undef
      end
  | EConditional => checkConditional expression at_ expected (child 2%nat (e_condition expression)) (child 0%nat (e_left expression)) (child 1%nat (e_right expression))
  end.
