(* ===== verification/VhdlCheckerProofs.v ===== *)
(** The type checker of VHDL expressions: it returns on complete expressions, and
    an expression it does not complain of has the type it gives, or none when a
    character literal stands where no type is expected of it. *)
From S2P Require Import Prelude Store VhdlLexer VhdlSyntax VhdlTypes VhdlTypeProofs VhdlChecker.
Local Open Scope Z_scope.

(** * Programs that check *)

(** [m] returns with [I], and with [Q] unless it complains. *)
Definition checks {A} (m : analysis A) (I Q : A -> Prop) : Prop :=
  forall s, wp m s (fun a s' => I a /\ exists l, a_diagnostics s' = a_diagnostics s ++ l /\ (l = [] -> Q a)) (fun _ _ => False).
Definition any {A} (_ : A) : Prop := True.

Lemma checks_mono {A} (m : analysis A) (I Q I' Q' : A -> Prop) : checks m I Q -> (forall a, I a -> I' a) -> (forall a, I a -> Q a -> Q' a) -> checks m I' Q'.
Proof. intros H HI HQ s. eapply wp_mono; [exact (H s)| |done]. intros a s' (Ha & l & E & Hl). split; [auto|]. exists l. auto. Qed.
Lemma checks_ret {A} (a : A) (I Q : A -> Prop) : I a -> Q a -> checks (mret a) I Q.
Proof. intros HI HQ s. split; [done|]. exists []. by rewrite app_nil_r. Qed.
Lemma checks_bind {A B} (m : analysis A) (f : A -> analysis B) (I Q : A -> Prop) (I' Q' : B -> Prop) :
  checks m I Q -> (forall a, I a -> checks (f a) I' (fun b => Q a -> Q' b)) -> checks (m ≫= f) I' Q'.
Proof.
  intros Hm Hf s. rewrite wp_bind. eapply wp_mono; [exact (Hm s)| |done]. intros a s1 (Ha & l & E & Hl).
  eapply wp_mono; [exact (Hf a Ha s1)| |done]. intros b s2 (Hb & l' & E' & Hl'). split; [done|]. exists (l ++ l'). rewrite E', E, app_assoc. split; [done|].
  intros [-> ->]%app_nil. auto.
Qed.
Lemma checks_modify (f : AnalysisResult -> AnalysisResult) (Q : () -> Prop) : (forall s, a_diagnostics (f s) = a_diagnostics s) -> Q () -> checks (modify f) any Q.
Proof. intros H HQ s. split; [done|]. exists []. by rewrite app_nil_r. Qed.
Lemma checks_complain m sp (Q : () -> Prop) : checks (complain m sp) any Q.
Proof. intros s. split; [done|]. by exists [mkAnalysisDiagnostic m sp]. Qed.
Lemma checks_complain_if b m sp : checks (complain_if b m sp) any (fun _ => b = false).
Proof. destruct b; [apply checks_complain|by apply checks_ret]. Qed.
Lemma checks_lift {A} (o : outcome A) a (I Q : A -> Prop) : o = Ret a -> I a -> Q a -> checks (lift o) I Q.
Proof. intros -> HI HQ s. split; [done|]. exists []. by rewrite app_nil_r. Qed.
Lemma checks_pointed {A} (o : option A) a (I Q : A -> Prop) : o = Some a -> I a -> Q a -> checks (pointed o) I Q.
Proof. intros ->. apply checks_ret. Qed.
(** A program whose complaint makes the rest irrelevant. *)
Lemma checks_after {A B} (m : analysis A) (f : A -> analysis B) (I' Q' : B -> Prop) (I : A -> Prop) :
  checks m I (fun _ => False) -> (forall a, I a -> checks (f a) I' any) -> checks (m ≫= f) I' Q'.
Proof. intros Hm Hf. eapply checks_bind; [exact Hm|]. intros a Ha. eapply checks_mono; [by apply Hf|done|done]. Qed.

(** * Loops *)

(** The states that a loop goes through. *)
Inductive chain {A B} (R : B -> A -> B -> Prop) : B -> list A -> B -> Prop :=
| chain_nil b : chain R b [] b
| chain_cons b x b1 l b' : R b x b1 -> chain R b1 l b' -> chain R b (x :: l) b'.

Lemma checks_fold_each {A B} (body : B -> A -> analysis B) (I : B -> Prop) (P : A -> Prop) (R : B -> A -> B -> Prop) l : forall b,
  I b -> Forall P l -> (forall b x, I b -> P x -> checks (body b x) I (R b x)) -> checks (fold_each body b l) I (chain R b l).
Proof.
  induction l as [|x l IH]; intros b Hb Hl Hs; cbn [fold_each]; [apply checks_ret; [done|constructor]|].
  apply Forall_cons in Hl as [Hx Hl]. eapply checks_bind; [by apply Hs|]. intros b1 Hb1.
  eapply checks_mono; [by apply IH|done|]. intros b' _ Hc Hr. by econstructor.
Qed.
Lemma checks_for_each {A} (body : A -> analysis ()) (P Q : A -> Prop) l :
  Forall P l -> (forall x, P x -> checks (body x) any (fun _ => Q x)) -> checks (for_each body l) any (fun _ => Forall Q l).
Proof.
  induction 1 as [|x l Hx Hl IH]; intros Hs; cbn [for_each]; [by apply checks_ret|].
  eapply checks_bind; [by apply Hs|]. intros u _. eapply checks_mono; [by apply IH|done|]. intros u' _ HF Hq. by constructor.
Qed.

(** * Types of expressions *)

(** What matters of a type: its kind, and its width when it has a range. *)
Record Shape := mkShape { s_kind : ScalarType; s_width : option Z }.
Definition shape (t : CheckedType) : Shape := mkShape (c_kind t) (rangeWidth <$> c_range t).

Definition number (k : ScalarType) : Prop := k = TInteger \/ k = TNatural.
(** Types whose values may be assigned to each other. *)
Definition matching (a b : Shape) : Prop :=
  s_kind a <> TUnknown /\ s_kind b <> TUnknown /\
  (number (s_kind a) /\ number (s_kind b) \/ s_kind a = s_kind b /\ (isVector (s_kind a) = true -> s_width a = s_width b)).
(** A scalar beside a vector: any integer with signed vectors, no negative one with unsigned vectors. *)
Definition scalar_beside (k : ScalarType) (s : ScalarType) : Prop := k = TUnsigned /\ s = TNatural \/ k = TSigned /\ number s.

Definition width_ok (w : Z) : Prop := 0 < w <= 2 ^ 63.
Definition relation_op (op : list ascii) : Prop := op ∈ chars <$> ["<"; "<="; ">"; ">="]%string.
Definition equality_op (op : list ascii) : Prop := op ∈ chars <$> ["="; "/="]%string.
(** The width of the result of an operator on two vectors. *)
Definition vectors_width (op : list ascii) (l r : Z) : option Z :=
  let op_is s := bool_decide (op = chars s) in
  if isLogical op then (if l =? r then Some l else None)
  else if op_is "+" || op_is "-" then Some (Z.max l r)
  else if op_is "*" then Some (l + r)
  else if op_is "/" then Some l
  else if op_is "rem" || op_is "mod" then Some r
  else None.
(** The width of the result of an operator on a vector and a scalar. *)
Definition scalar_width (op : list ascii) (w : Z) : option Z :=
  let op_is s := bool_decide (op = chars s) in
  if op_is "+" || op_is "-" || op_is "/" || op_is "rem" || op_is "mod" then Some w
  else if op_is "*" then Some (2 * w)
  else None.

Section typing.
Context (declarations : Declarations) (visibility : Visibility).

Inductive typed : Expression -> Shape -> Prop :=
| typed_name e t : e_kind e = EName -> declarations !! expressionName e = Some t -> c_kind t <> TUnknown -> typed e (shape t)
| typed_integer e k : e_kind e = EIntegerLiteral -> number k -> typed e (mkShape k None)
| typed_real e : e_kind e = ERealLiteral -> typed e (mkShape TReal None)
| typed_string e : e_kind e = EStringLiteral -> typed e (mkShape TString None)
| typed_bit e : e_kind e = ECharacterLiteral -> e_text e ∈ chars <$> ["'0'"; "'1'"]%string -> typed e (mkShape TBit None)
| typed_std_logic e : e_kind e = ECharacterLiteral -> isStdLogicLiteral (e_text e) = true -> typed e (mkShape TStdLogic None)
| typed_not e l t : e_kind e = EUnary -> e_text e = chars "not" -> e_left e = Some l -> typed l t -> isLogicalType (s_kind t) = true -> typed e t
| typed_unary_vector e l k w : e_kind e = EUnary -> e_text e ∈ chars <$> ["not"; "-"; "abs"]%string -> e_left e = Some l -> typed l (mkShape k (Some w)) ->
    numericStd visibility = true -> isNumericVectorType k = true -> (k = TUnsigned -> e_text e = chars "not") -> width_ok w -> typed e (mkShape k (Some w))
| typed_logical e l r t u : e_kind e = EBinary -> isLogical (e_text e) = true -> e_left e = Some l -> e_right e = Some r -> typed l t -> typed r u ->
    isLogicalType (s_kind t) = true -> matching t u -> typed e t
| typed_vectors e l r k wl wr w : e_kind e = EBinary -> e_left e = Some l -> e_right e = Some r -> typed l (mkShape k (Some wl)) -> typed r (mkShape k (Some wr)) ->
    numericStd visibility = true -> isNumericVectorType k = true -> 0 < wl -> 0 < wr -> vectors_width (e_text e) wl wr = Some w -> width_ok w -> typed e (mkShape k (Some w))
| typed_vector_left e l r k s x wl w : e_kind e = EBinary -> e_left e = Some l -> e_right e = Some r -> typed l (mkShape k (Some wl)) -> typed r (mkShape s x) ->
    numericStd visibility = true -> scalar_beside k s -> 0 < wl -> scalar_width (e_text e) wl = Some w -> width_ok w -> typed e (mkShape k (Some w))
| typed_vector_right e l r k s x wr w : e_kind e = EBinary -> e_left e = Some l -> e_right e = Some r -> typed l (mkShape s x) -> typed r (mkShape k (Some wr)) ->
    numericStd visibility = true -> scalar_beside k s -> 0 < wr -> scalar_width (e_text e) wr = Some w -> width_ok w -> typed e (mkShape k (Some w))
| typed_equality e l r t u : e_kind e = EBinary -> equality_op (e_text e) -> e_left e = Some l -> e_right e = Some r -> typed l t -> typed r u ->
    isNumericVectorType (s_kind t) = false -> matching t u -> typed e (mkShape TBoolean None)
| typed_comparison e l r k wl wr : e_kind e = EBinary -> equality_op (e_text e) \/ relation_op (e_text e) -> e_left e = Some l -> e_right e = Some r ->
    typed l (mkShape k (Some wl)) -> typed r (mkShape k (Some wr)) -> numericStd visibility = true -> isNumericVectorType k = true -> 0 < wl -> 0 < wr ->
    typed e (mkShape TBoolean None)
| typed_comparison_left e l r k s x wl : e_kind e = EBinary -> equality_op (e_text e) \/ relation_op (e_text e) -> e_left e = Some l -> e_right e = Some r ->
    typed l (mkShape k (Some wl)) -> typed r (mkShape s x) -> numericStd visibility = true -> scalar_beside k s -> 0 < wl -> typed e (mkShape TBoolean None)
| typed_comparison_right e l r k s x wr : e_kind e = EBinary -> equality_op (e_text e) \/ relation_op (e_text e) -> e_left e = Some l -> e_right e = Some r ->
    typed l (mkShape s x) -> typed r (mkShape k (Some wr)) -> numericStd visibility = true -> scalar_beside k s -> 0 < wr -> typed e (mkShape TBoolean None)
| typed_conditional e c l r w t u v : e_kind e = EConditional -> e_condition e = Some c -> e_left e = Some l -> e_right e = Some r ->
    typed c (mkShape TBoolean w) -> typed l t -> typed r u -> matching t u -> v = t \/ matching v t -> typed e v.

(** ** Character literals without a type *)

Definition product_op (op : list ascii) : Prop := op ∈ chars <$> ["*"; "/"; "rem"; "mod"]%string.
(** The type that is expected of the left operand of an operator, when [x] is of
    its result, and that of the right operand, when the left one has the type [k].
    [TUnknown] is no type; sums, and comparisons but for vectors, expect none. *)
Definition left_context (op : list ascii) (x : ScalarType) : ScalarType :=
  if isLogical op then (if isLogicalType x then x else TUnknown)
  else if bool_decide (product_op op) then (if isNumericVectorType x then x else TUnknown)
  else TUnknown.
Definition right_context (op : list ascii) (k : ScalarType) : ScalarType :=
  if isLogical op || bool_decide (product_op op) || bool_decide (equality_op op) then k
  else if bool_decide (relation_op op) && isNumericVectorType k then k
  else TUnknown.
(** An operand of the expression is a character literal of which no type is
    expected, when [x] is expected of the expression. Of the operands of an
    equality, one that is a character literal is looked at after the other. *)
Inductive unresolved : ScalarType -> Expression -> Prop :=
| unresolved_character e : e_kind e = ECharacterLiteral -> unresolved TUnknown e
| unresolved_unary x e l : e_kind e = EUnary -> e_left e = Some l -> unresolved x l -> unresolved x e
| unresolved_left x e l r : e_kind e = EBinary -> e_left e = Some l -> e_right e = Some r -> ~ (equality_op (e_text e) /\ e_kind l = ECharacterLiteral) ->
    unresolved (left_context (e_text e) x) l -> unresolved x e
| unresolved_right x e l r t : e_kind e = EBinary -> e_left e = Some l -> e_right e = Some r -> typed l t ->
    unresolved (right_context (e_text e) (s_kind t)) r -> unresolved x e
| unresolved_beside x e l r : e_kind e = EBinary -> e_left e = Some l -> e_right e = Some r -> equality_op (e_text e) -> e_kind l = ECharacterLiteral ->
    unresolved TUnknown r -> unresolved x e
| unresolved_condition x e c l r : e_kind e = EConditional -> e_condition e = Some c -> e_left e = Some l -> e_right e = Some r -> unresolved TBoolean c -> unresolved x e
| unresolved_branch x e c l r b : e_kind e = EConditional -> e_condition e = Some c -> e_left e = Some l -> e_right e = Some r -> b = l \/ b = r -> unresolved x b ->
    unresolved x e.
End typing.

(** An expression of which every operand that its kind needs is there. *)
Definition complete_child (complete : Expression -> bool) (o : option Expression) : bool := match o with Some e => complete e | None => false end.
Fixpoint complete (e : Expression) : bool :=
  match e_kind e with
  | EUnary => match e_left e with Some l => complete l | None => false end
  | EBinary => match e_left e, e_right e with Some l, Some r => complete l && complete r | _, _ => false end
  | EConditional => match e_condition e, e_left e, e_right e with Some c, Some l, Some r => complete c && complete l && complete r | _, _, _ => false end
  | _ => true
  end.
(** Whether a character literal, whose type comes from its context, is an operand. *)
Fixpoint has_character (e : Expression) : bool :=
  match e_kind e with
  | ECharacterLiteral => true
  | EUnary => match e_left e with Some l => has_character l | None => false end
  | EBinary => match e_left e, e_right e with Some l, Some r => has_character l || has_character r | _, _ => false end
  | EConditional => match e_condition e, e_left e, e_right e with Some c, Some l, Some r => has_character c || has_character l || has_character r | _, _, _ => false end
  | _ => false
  end.

Lemma is_type_true a b : is_type a b = true <-> a = b.
Proof. apply bool_decide_eq_true. Qed.
Lemma is_type_false a b : is_type a b = false <-> a <> b.
Proof. apply bool_decide_eq_false. Qed.
Lemma isNumber_true k : isNumber k = true <-> number k.
Proof. unfold isNumber, number. by rewrite orb_true_iff, !is_type_true. Qed.

Lemma compatible_matching a b : compatible a b = true <-> matching (shape a) (shape b).
Proof.
  unfold compatible, matching, shape. cbn [s_kind s_width]. destruct (is_type (c_kind a) TUnknown) eqn:Ua; [apply is_type_true in Ua; naive_solver|].
  destruct (is_type (c_kind b) TUnknown) eqn:Ub; [apply is_type_true in Ub; naive_solver|]. apply is_type_false in Ua, Ub. cbn [orb].
  destruct (isNumber (c_kind a) && isNumber (c_kind b)) eqn:En; [rewrite andb_true_iff, !isNumber_true in En; naive_solver|].
  assert (Hn : ~ (number (c_kind a) /\ number (c_kind b))) by (rewrite <- !isNumber_true, <- andb_true_iff; by rewrite En).
  destruct (is_type (c_kind a) (c_kind b)) eqn:Ek; cbn [negb]; [apply is_type_true in Ek|apply is_type_false in Ek; naive_solver].
  destruct (isVector (c_kind a)) eqn:Ev; cbn [negb]; [|naive_solver].
  assert (Hw : (c_kind a <> TUnknown /\ c_kind b <> TUnknown /\ (number (c_kind a) /\ number (c_kind b) \/
      c_kind a = c_kind b /\ (true = true -> rangeWidth <$> c_range a = rangeWidth <$> c_range b))) <-> rangeWidth <$> c_range a = rangeWidth <$> c_range b).
  { split; [intros (_ & _ & [H|[_ H]]); [by destruct Hn|by apply H]|intros H; split; [done|]; split; [done|]; by right]. }
  rewrite Hw. destruct (c_range a) as [ra|], (c_range b) as [rb|]; cbn; [|done|done|done]. rewrite Z.eqb_eq. split; [by intros ->|by intros [=]].
Qed.

(** * The cases of an expression *)

Section cases.
Context (declarations : Declarations) (visibility : Visibility).
#[local] Notation typed := (typed declarations visibility).

#[local] Notation unresolved := (unresolved declarations visibility).

(** What a check that does not complain gives: a type the expression has, or
    none, and then [U]. *)
Definition accepted_or (U : Prop) (e : Expression) (t : CheckedType) : Prop := c_kind t <> TUnknown /\ typed e (shape t) \/ c_kind t = TUnknown /\ U.
(** Without a type where [x] is expected, a character literal has none. *)
Definition accepted (e : Expression) (x t : CheckedType) : Prop := accepted_or (unresolved (c_kind x) e) e t.

Lemma accepted_typed U e t : accepted_or U e t -> c_kind t <> TUnknown -> typed e (shape t).
Proof. unfold accepted_or. naive_solver. Qed.
Lemma accepted_known U e t : typed e (shape t) -> c_kind t <> TUnknown -> accepted_or U e t.
Proof. by left. Qed.
Lemma accepted_unknown (U : Prop) e : U -> accepted_or U e unknown.
Proof. by right. Qed.
Lemma accepted_mono (U V : Prop) e t : (U -> V) -> accepted_or U e t -> accepted_or V e t.
Proof. unfold accepted_or. naive_solver. Qed.

Context (e : Expression) (at_ : site).
#[local] Notation accepts x m := (checks m any (accepted e x)).

Lemma checks_record t (Q : CheckedType -> Prop) : Q t -> checks (record at_ t) any Q.
Proof.
  intros HQ. unfold record. eapply checks_bind; [by apply (checks_modify _ any)|]. intros ? _.
  eapply checks_bind; [instantiate (1 := any); instantiate (1 := any); destruct (c_range t); [by apply checks_modify|by apply checks_ret]|]. intros ? _.
  by apply checks_ret.
Qed.
Lemma checks_refuse m (Q : CheckedType -> Prop) : checks (refuse e at_ m) any Q.
Proof. unfold refuse. eapply checks_after; [apply checks_complain|]. intros ? _. by apply checks_record. Qed.
Lemma checks_range_or_refuse k w m (Q : CheckedType -> Prop) :
  (forall r, canonicalRange w (e_span e) = Some r -> Q (mkChecked k (Some r))) -> checks (range_or_refuse e at_ k w m) any Q.
Proof. intros H. unfold range_or_refuse. destruct (canonicalRange w (e_span e)) as [r|]; [by apply checks_record, H|apply checks_refuse]. Qed.

(** A canonical range has the width it was made for. *)
Lemma canonical_shape k w sp r : 0 <= w -> canonicalRange w sp = Some r -> shape (mkChecked k (Some r)) = mkShape k (Some w) /\ width_ok w.
Proof. intros Hw H. destruct (canonicalRange_width _ _ _ Hw H) as (<- & _ & Hb). by split. Qed.
Lemma canonicalRange_some w sp : width_ok w -> exists r, canonicalRange w sp = Some r.
Proof.
  unfold width_ok, canonicalRange, maxWidth, int64_max. intros H. destruct (Z.eqb_spec w 0); [lia|]. destruct (Z.ltb_spec (2 ^ 63 - 1 + 1) w); [lia|]. by eexists.
Qed.

Lemma checkName_ok x : e_kind e = EName -> accepts x (checkName e at_ declarations).
Proof.
  intros Hk. unfold checkName. destruct (declarations !! expressionName e) as [t|] eqn:Ed; [|apply checks_refuse].
  eapply checks_bind; [apply checks_complain_if|]. intros ? _. apply checks_record. intros Hu. apply is_type_false in Hu.
  apply accepted_known; [by eapply typed_name|done].
Qed.

Lemma checkCharacter_ok expected : e_kind e = ECharacterLiteral -> accepts expected (checkCharacter e at_ expected).
Proof.
  intros Hk. unfold checkCharacter, text_is.
  destruct (is_type (c_kind expected) TBit && _) eqn:E1.
  - apply checks_record, accepted_known; [|done]. apply andb_true_iff in E1 as [_ E1]. apply typed_bit; [done|].
    rewrite orb_true_iff, !bool_decide_eq_true in E1. set_solver.
  - destruct (is_type (c_kind expected) TStdLogic && _) eqn:E2.
    + apply checks_record, accepted_known; [|done]. apply andb_true_iff in E2 as [_ E2]. by apply typed_std_logic.
    + destruct (is_type (c_kind expected) TUnknown) eqn:E3; [|apply checks_refuse]. apply is_type_true in E3. apply checks_record, accepted_unknown. rewrite E3. by constructor.
Qed.

(** The operand of a unary operator that is a vector. *)
Lemma null_operand_width t : null_operand t = false -> shape t = mkShape (c_kind t) (Some (operand_width t)) /\ 0 < operand_width t.
Proof.
  unfold null_operand, operand_width, shape. destruct (c_range t) as [r|]; [|done]. cbn. intros H%Z.eqb_neq. pose proof (rangeWidth_bound r). split; [done|lia].
Qed.

Lemma checkUnary_ok expected l left : e_kind e = EUnary -> e_left e = Some l -> (forall x, checks (left x) any (accepted l x)) ->
  accepts expected (checkUnary e at_ visibility expected left).
Proof.
  intros Hk El Hl. unfold checkUnary, text_is. eapply checks_bind; [apply Hl|]. intros t _.
  destruct (bool_decide (e_text e = chars "not") && isLogicalType (c_kind t)) eqn:E1.
  { apply andb_true_iff in E1 as [Et%bool_decide_eq_true_1 E1]. apply checks_record. intros Ha. assert (Hu : c_kind t <> TUnknown) by (by destruct (c_kind t)).
    apply accepted_known; [|done]. eapply typed_not; eauto using accepted_typed. }
  assert (Hvec : forall k m, e_text e ∈ chars <$> ["not"; "-"; "abs"]%string -> c_kind t = k -> isNumericVectorType k = true -> numericStd visibility = true ->
    (k = TUnsigned -> e_text e = chars "not") -> null_operand t = false -> checks (range_or_refuse e at_ k (operand_width t) m) any (fun b => accepted l expected t -> accepted e expected b)).
  { intros k m Ht Ek Hn Hv Hun H0. apply checks_range_or_refuse. intros r Hr Ha. destruct (null_operand_width t H0) as [Es Hp].
    destruct (canonical_shape k (operand_width t) _ r ltac:(lia) Hr) as [Er Hw]. apply accepted_known; [|by destruct k]. rewrite Er. eapply typed_unary_vector; eauto.
    rewrite <- Ek, <- Es. eapply accepted_typed; [exact Ha|]. rewrite Ek. by destruct k. }
  destruct (bool_decide (e_text e = chars "not") && isNumericVectorType (c_kind t)) eqn:E2.
  { apply andb_true_iff in E2 as [Et%bool_decide_eq_true_1 E2]. destruct (numericStd visibility) eqn:Ev; cbn [negb]; [|apply checks_refuse].
    destruct (null_operand t) eqn:E0; [apply checks_refuse|]. apply Hvec; auto. rewrite Et. set_solver. }
  destruct ((bool_decide (e_text e = chars "-") || _) && is_type (c_kind t) TSigned) eqn:E3.
  { apply andb_true_iff in E3 as [Et Ek%is_type_true]. rewrite orb_true_iff, !bool_decide_eq_true in Et.
    destruct (numericStd visibility) eqn:Ev; cbn [negb]; [|apply checks_refuse]. destruct (null_operand t) eqn:E0; [apply checks_refuse|].
    apply Hvec; auto; [set_solver|done]. }
  destruct (is_type (c_kind t) TUnknown) eqn:E4; [|apply checks_refuse]. apply is_type_true in E4. apply checks_record. intros [[]|[_ Hc]]; [done|].
  apply accepted_unknown. by eapply unresolved_unary.
Qed.

(** ** Binary operators *)

Section binary.
Context (l r : Expression) (left right : CheckedType -> analysis CheckedType) (x : CheckedType).
Context (Hk : e_kind e = EBinary) (El : e_left e = Some l) (Er : e_right e = Some r).
Context (Hleft : forall x, checks (left x) any (accepted l x)) (Hright : forall x, checks (right x) any (accepted r x)).
(** Without a type for an operand, the expression has a character literal without one. *)
#[local] Notation good := (accepted_or (unresolved (c_kind x) e)).

(** Unknown operands make the result unknown, without a complaint. *)
Lemma either_unknown_ok tl tr : good l tl -> good r tr -> either_unknown tl tr = true -> good e unknown.
Proof. unfold either_unknown. rewrite orb_true_iff, !is_type_true. intros Hl Hr Hu. apply accepted_unknown. unfold accepted_or in *. naive_solver. Qed.
Lemma record_unknown_or_refuse tl tr m : checks (if either_unknown tl tr then record at_ unknown else refuse e at_ m) any
  (fun b => good r tr -> good l tl -> good e b).
Proof. destruct (either_unknown tl tr) eqn:Eu; [|apply checks_refuse]. apply checks_record. intros Hr Hl. by eapply either_unknown_ok. Qed.

(** The operands are checked, the right one with what the left one gives. *)
Lemma good_right tl tr xr : good l tl -> accepted r xr tr -> (c_kind tl <> TUnknown -> c_kind xr = right_context (e_text e) (c_kind tl)) -> good r tr.
Proof.
  intros [[Hu Ht]|[_ HU]] Hr Hx; [|by eapply accepted_mono]. eapply accepted_mono; [|exact Hr]. intros H. eapply unresolved_right; eauto. cbn. by rewrite <- Hx.
Qed.
Lemma operands_ok {B} xl (xr : CheckedType -> CheckedType) (k : CheckedType -> CheckedType -> analysis B) (Q : B -> Prop) :
  c_kind xl = left_context (e_text e) (c_kind x) -> ~ (equality_op (e_text e) /\ e_kind l = ECharacterLiteral) ->
  (forall t, c_kind t <> TUnknown -> c_kind (xr t) = right_context (e_text e) (c_kind t)) ->
  (forall tl tr, checks (k tl tr) any (fun b => good r tr -> good l tl -> Q b)) -> checks (tl ← left xl; tr ← right (xr tl); k tl tr) any Q.
Proof.
  intros Hl Hne Hr Hk'. eapply checks_bind; [apply Hleft|]. intros tl _. eapply checks_bind; [apply Hright|]. intros tr _.
  eapply checks_mono; [apply Hk'|done|]. cbn beta. intros b _ H Ar Al. assert (Gl : good l tl) by (eapply accepted_mono; [|exact Al]; rewrite Hl; by eapply unresolved_left).
  apply H; [|done]. eapply good_right; eauto.
Qed.

Lemma sameVectors_some tl tr wl wr : good l tl -> good r tr -> sameVectors tl tr = Some (wl, wr) ->
  typed l (mkShape (c_kind tl) (Some wl)) /\ typed r (mkShape (c_kind tl) (Some wr)) /\ isNumericVectorType (c_kind tl) = true.
Proof.
  unfold sameVectors. intros Hl Hr. destruct (isNumericVectorType (c_kind tl) && is_type (c_kind tl) (c_kind tr)) eqn:E; [|done].
  apply andb_true_iff in E as [Hn Hs%is_type_true]. destruct (c_range tl) as [rl|] eqn:E1; [|done]. destruct (c_range tr) as [rr|] eqn:E2; [|done]. intros [= <- <-].
  assert (Hu : c_kind tl <> TUnknown) by (by destruct (c_kind tl)).
  eapply accepted_typed in Hl; [|done]. eapply accepted_typed in Hr; [|by rewrite <- Hs]. unfold shape in *. rewrite E1 in Hl. rewrite E2, <- Hs in Hr. done.
Qed.
Lemma sameVectors_width tl tr wl wr : sameVectors tl tr = Some (wl, wr) -> 0 <= wl < 2 ^ 64 /\ 0 <= wr < 2 ^ 64.
Proof.
  unfold sameVectors. destruct (_ && _); [|done]. destruct (c_range tl); [|done]. destruct (c_range tr); [|done]. intros [= <- <-]. split; apply rangeWidth_bound.
Qed.

(** A vector and a scalar on its right or on its left. *)
Definition beside (k : ScalarType) (w : Z) : Prop :=
  exists s y, scalar_beside k s /\
    (typed l (mkShape k (Some w)) /\ typed r (mkShape s y) \/ typed l (mkShape s y) /\ typed r (mkShape k (Some w))).

Lemma scalar_typed vec sc E : good E sc -> isNumericVectorType (c_kind vec) = true -> validScalar vec sc E = true ->
  exists s y, scalar_beside (c_kind vec) s /\ typed E (mkShape s y).
Proof.
  intros Ha Hn. unfold validScalar, is_kind. destruct (is_type (c_kind vec) TUnsigned) eqn:Eu.
  - apply is_type_true in Eu. rewrite orb_true_iff, andb_true_iff, !is_type_true, bool_decide_eq_true. intros [Hs|[Hs Hi]].
    + exists TNatural, (s_width (shape sc)). split; [by left|]. eapply accepted_typed in Ha; [|by rewrite Hs]. unfold shape in *. by rewrite Hs in Ha.
    + exists TNatural, None. split; [by left|]. apply typed_integer; [done|by right].
  - apply is_type_false in Eu. assert (c_kind vec = TSigned) as Es by (by destruct (c_kind vec)). intros Hs.
    assert (Hnum : number (c_kind sc)) by (by apply isNumber_true).
    exists (c_kind sc), (s_width (shape sc)). split; [by right|]. eapply accepted_typed; [exact Ha|]. intros Hu. rewrite Hu in Hnum. by destruct Hnum.
Qed.

Lemma withScalar_ok tl tr (k : CheckedType -> Z -> analysis () -> analysis CheckedType) :
  (forall vec w mark, (forall Q : () -> Prop, (forall u, Q u) -> checks mark any Q) -> isNumericVectorType (c_kind vec) = true -> 0 < w < 2 ^ 64 ->
     checks (k vec w mark) any (fun b => beside (c_kind vec) w -> good e b)) ->
  checks (withScalar e at_ l r tl tr k) any (fun b => good r tr -> good l tl -> good e b).
Proof.
  intros Hkk. unfold withScalar. pose proof (record_unknown_or_refuse tl tr) as Hm. specialize (Hm ("operator '" +:+ str (e_text e) +:+ "' requires matching numeric vectors or a compatible scalar operand")).
  fold (mismatch e at_ tl tr) in Hm. destruct (vector_and_scalar at_ l r tl tr) as [[[[vec sc] E] scAt]|] eqn:Ev; [|exact Hm].
  destruct (validScalar vec sc E) eqn:Es; [|exact Hm]. destruct (c_range vec) as [range|] eqn:Ec; [|exact Hm].
  destruct (Z.eqb_spec (rangeWidth range) 0) as [|Hz]; [apply checks_refuse|]. pose proof (rangeWidth_bound range) as Hb.
  assert (Hmark : forall Q : () -> Prop, (forall u, Q u) -> checks (markNatural vec E scAt) any Q).
  { intros Q HQ. unfold markNatural. destruct (_ && _); [by apply checks_modify|by apply checks_ret]. }
  assert (Hvec : isNumericVectorType (c_kind vec) = true).
  { unfold vector_and_scalar in Ev. destruct (isNumericVectorType (c_kind tl)) eqn:N1, (isNumericVectorType (c_kind tr)) eqn:N2; by simplify_eq. }
  eapply checks_mono; [apply (Hkk vec (rangeWidth range) _ Hmark Hvec); lia|done|]. cbn beta. intros b _ Hb' Hr Hl. apply Hb'. clear Hb' Hkk Hm.
  assert (Hv : forall E', good E' vec -> typed E' (mkShape (c_kind vec) (Some (rangeWidth range)))).
  { intros E' Ha. eapply accepted_typed in Ha; [|by destruct (c_kind vec)]. unfold shape in Ha. by rewrite Ec in Ha. }
  unfold vector_and_scalar in Ev. destruct (isNumericVectorType (c_kind tl)), (isNumericVectorType (c_kind tr)); simplify_eq.
  - destruct (scalar_typed _ _ _ Hr Hvec Es) as (s & y & Hs & Ht). exists s, y. split; [done|]. left. auto.
  - destruct (scalar_typed _ _ _ Hl Hvec Es) as (s & y & Hs & Ht). exists s, y. split; [done|]. right. auto.
Qed.

Lemma unresolved_of_character k c : e_kind c = ECharacterLiteral -> unresolved k c -> k = TUnknown.
Proof. intros Hc H. inversion H; congruence. Qed.
Ltac one_operator := repeat match goal with |- _ /\ _ => split end; first [intros []; reflexivity|intros [Heq _]; apply (bool_decide_eq_true_2 (equality_op _)) in Heq; by vm_compute in Heq].
Ltac each_operator H := unfold relation_op, equality_op, product_op in H; cbn [fmap list_fmap] in H;
  repeat (apply elem_of_cons in H as [->|H]; [one_operator|]); by apply not_elem_of_nil in H.
(** What each class of operators expects of its operands. *)
Lemma relation_contexts : relation_op (e_text e) -> (forall k, left_context (e_text e) k = TUnknown) /\
  (forall k, right_context (e_text e) k = if isNumericVectorType k then k else TUnknown) /\ ~ (equality_op (e_text e) /\ e_kind l = ECharacterLiteral).
Proof. intros H. each_operator H. Qed.
Lemma additive_contexts : e_text e = chars "+" \/ e_text e = chars "-" -> (forall k, left_context (e_text e) k = TUnknown) /\
  (forall k, right_context (e_text e) k = TUnknown) /\ ~ (equality_op (e_text e) /\ e_kind l = ECharacterLiteral).
Proof. intros [->| ->]; one_operator. Qed.
Lemma logical_contexts : isLogical (e_text e) = true -> (forall k, left_context (e_text e) k = if isLogicalType k then k else TUnknown) /\
  (forall k, right_context (e_text e) k = k) /\ ~ (equality_op (e_text e) /\ e_kind l = ECharacterLiteral).
Proof.
  intros H. unfold left_context, right_context. rewrite H. split; [done|]. split; [done|]. intros [Heq _].
  unfold equality_op in Heq. cbn [fmap list_fmap] in Heq. repeat (apply elem_of_cons in Heq as [Heq|Heq]; [by rewrite Heq in H; vm_compute in H|]). by apply not_elem_of_nil in Heq.
Qed.
Lemma product_contexts : product_op (e_text e) -> (forall k, left_context (e_text e) k = if isNumericVectorType k then k else TUnknown) /\
  (forall k, right_context (e_text e) k = k) /\ ~ (equality_op (e_text e) /\ e_kind l = ECharacterLiteral).
Proof. intros H. each_operator H. Qed.
Lemma equality_contexts : equality_op (e_text e) -> (forall k, left_context (e_text e) k = TUnknown) /\ (forall k, right_context (e_text e) k = k).
Proof. intros H. each_operator H. Qed.

(** The premises about operators, from the tests of the code. *)
Lemma compareVectors_ok tl tr : equality_op (e_text e) \/ relation_op (e_text e) ->
  checks (compareVectors e at_ visibility l r tl tr) any (fun b => good r tr -> good l tl -> good e b).
Proof.
  intros Hop. unfold compareVectors. destruct (numericStd visibility) eqn:Ev; cbn [negb]; [|apply checks_refuse].
  destruct (sameVectors tl tr) as [[wl wr]|] eqn:Es.
  - destruct (_ || _) eqn:E0; [apply checks_refuse|]. apply orb_false_iff in E0 as [Nl%Z.eqb_neq Nr%Z.eqb_neq]. pose proof (sameVectors_width _ _ _ _ Es) as [Bl Br].
    apply checks_record. intros Hr Hl. destruct (sameVectors_some _ _ _ _ Hl Hr Es) as (Tl & Tr & Hn). apply accepted_known; [|done].
    eapply typed_comparison; eauto; lia.
  - apply withScalar_ok. intros vec w mark Hmark Hn Hw. eapply checks_bind; [apply (Hmark any); done|]. intros ? _. apply checks_record. intros _ (s & y & Hs & [[Tl Tr]|[Tl Tr]]);
      (apply accepted_known; [|done]).
    + eapply typed_comparison_left; eauto; lia.
    + eapply typed_comparison_right; eauto; lia.
Qed.

Lemma checkRelation_ok : relation_op (e_text e) -> accepts x (checkRelation e at_ visibility left right l r).
Proof.
  intros Hop. pose proof (relation_contexts Hop) as (Xl & Xr & Hne). unfold checkRelation. apply operands_ok; [by rewrite Xl|done| |].
  { intros t _. rewrite Xr. by destruct (isNumericVectorType (c_kind t)). }
  intros tl tr. destruct (either_vector tl tr); cbn [negb]; [|apply record_unknown_or_refuse]. apply compareVectors_ok. by right.
Qed.

Lemma checkEquality_ok : equality_op (e_text e) -> accepts x (checkEquality e at_ visibility left right l r).
Proof.
  intros Hop. unfold checkEquality. destruct (is_kind ECharacterLiteral l && is_kind ECharacterLiteral r).
  - eapply checks_after; [apply checks_complain|]. intros ? _. eapply checks_bind; [apply Hleft|]. intros ? _. eapply checks_bind; [apply Hright|]. intros ? _. by apply checks_record.
  - eapply checks_bind with (I := any) (Q := fun p => good l p.1 /\ good r p.2).
    + destruct (equality_contexts Hop) as [Xl Xr]. destruct (is_kind ECharacterLiteral l) eqn:Ec.
      * apply bool_decide_eq_true_1 in Ec. eapply checks_bind; [apply Hright|]. intros tr _. eapply checks_bind; [apply Hleft|]. intros tl _. apply checks_ret; [done|].
        intros Al Ar. cbn [fst snd]. assert (Gr : good r tr) by (eapply accepted_mono; [|exact Ar]; by eapply unresolved_beside). split; [|done].
        eapply accepted_mono; [|exact Al]. intros Hu%(unresolved_of_character _ _ Ec). destruct Gr as [[? _]|[_ H]]; [done|exact H].
      * apply bool_decide_eq_false_1 in Ec. apply (operands_ok unknown id); [by rewrite Xl|tauto|by intros t _; rewrite Xr|]. intros tl tr. by apply checks_ret.
    + intros [tl tr] _. cbn [fst snd]. destruct (either_vector tl tr) eqn:Ev.
      { eapply checks_mono; [apply compareVectors_ok; by left|done|]. cbn. naive_solver. }
      destruct (compatible tl tr) eqn:Ec.
      * apply checks_record. intros [Hl Hr]. apply compatible_matching in Ec. destruct Ec as (Ul & Ur & Hm) eqn:E. apply accepted_known; [|done].
        apply (typed_equality _ _ e l r (shape tl) (shape tr)); try done; [by eapply accepted_typed|by eapply accepted_typed|]. unfold either_vector in Ev. by apply orb_false_iff in Ev as [? _].
      * eapply checks_mono; [apply (record_unknown_or_refuse tl tr)|done|]. cbn. naive_solver.
Qed.

(** The result of an operator on vectors, with a width that fits. *)
Lemma vectors_result k wl wr w range : typed l (mkShape k (Some wl)) -> typed r (mkShape k (Some wr)) -> isNumericVectorType k = true -> numericStd visibility = true ->
  0 < wl -> 0 < wr -> vectors_width (e_text e) wl wr = Some w -> 0 <= w -> canonicalRange w (e_span e) = Some range -> good e (mkChecked k (Some range)).
Proof.
  intros Tl Tr Hn Hv Hl Hr Hop Hw Hc. destruct (canonical_shape k w _ range Hw Hc) as [Es Hok]. apply accepted_known; [|by destruct k]. rewrite Es.
  eapply typed_vectors; eauto.
Qed.
Lemma scalar_result k w w' range : beside k w -> isNumericVectorType k = true -> numericStd visibility = true -> 0 < w -> scalar_width (e_text e) w = Some w' -> 0 <= w' ->
  canonicalRange w' (e_span e) = Some range -> good e (mkChecked k (Some range)).
Proof.
  intros (s & y & Hs & Ht) Hn Hv Hw Hop Hw' Hc. destruct (canonical_shape k w' _ range Hw' Hc) as [Es Hok]. apply accepted_known; [|by destruct k]. rewrite Es.
  destruct Ht as [[Tl Tr]|[Tl Tr]]; [eapply typed_vector_left; eauto|eapply typed_vector_right; eauto].
Qed.

Lemma checkLogical_ok : isLogical (e_text e) = true -> accepts x (checkLogical e at_ visibility left right x).
Proof.
  intros Hop. pose proof (logical_contexts Hop) as (Xl & Xr & Hne). unfold checkLogical.
  apply (operands_ok _ (fun t => if is_type (c_kind t) TUnknown then if isLogicalType (c_kind x) then x else unknown else t)); [rewrite Xl; by destruct (isLogicalType _)|done| |].
  { intros t Ht%is_type_false. by rewrite Ht, Xr. }
  intros tl tr. destruct (isLogicalType (c_kind tl) && compatible tl tr) eqn:E1.
  { apply andb_true_iff in E1 as [Hlog Hm%compatible_matching]. apply checks_record. intros Hr Hl. pose proof Hm as (Ul & Ur & _).
    apply accepted_known; [|done]. eapply typed_logical; eauto using accepted_typed. }
  destruct (either_vector tl tr) eqn:E2; [|apply record_unknown_or_refuse].
  destruct (numericStd visibility) eqn:Ev; cbn [negb]; [|apply checks_refuse].
  assert (Es : forall wl wr, is_type (c_kind tl) (c_kind tr) = true -> (rangeWidth <$> c_range tl) = Some wl -> (rangeWidth <$> c_range tr) = Some wr -> sameVectors tl tr = Some (wl, wr)).
  { intros wl wr Hs. unfold sameVectors. rewrite Hs. apply is_type_true in Hs. unfold either_vector in E2. rewrite <- Hs, orb_diag in E2. rewrite E2. cbn.
    destruct (c_range tl), (c_range tr); cbn; try done. by intros [= <-] [= <-]. }
  destruct (is_type (c_kind tl) (c_kind tr)) eqn:Ek; [|apply record_unknown_or_refuse].
  destruct (c_range tl) as [rl|] eqn:El'; [|apply record_unknown_or_refuse]. destruct (c_range tr) as [rr|] eqn:Er'; [|apply record_unknown_or_refuse].
  specialize (Es _ _ eq_refl eq_refl eq_refl). destruct (_ || _) eqn:E0; [apply checks_refuse|]. apply orb_false_iff in E0 as [Nl%Z.eqb_neq Nr%Z.eqb_neq].
  destruct (sameVectors_width _ _ _ _ Es) as [Bl Br]. destruct (Z.eqb_spec (rangeWidth rl) (rangeWidth rr)) as [Ew|]; cbn [negb]; [|apply checks_refuse].
  apply checks_range_or_refuse. intros range Hc Hr Hl. destruct (sameVectors_some _ _ _ _ Hl Hr Es) as (Tl & Tr & Hn).
  eapply (vectors_result _ _ _ (rangeWidth rl)); eauto; try lia. unfold vectors_width. rewrite Hop, Ew. by rewrite Z.eqb_refl.
Qed.

Lemma checkAdditive_ok : e_text e = chars "+" \/ e_text e = chars "-" -> accepts x (checkAdditive e at_ visibility left right l r).
Proof.
  intros Hop. pose proof (additive_contexts Hop) as (Xl & Xr & Hne). unfold checkAdditive. apply (operands_ok unknown (fun _ => unknown)); [by rewrite Xl|done|by intros t _; rewrite Xr|].
  intros tl tr. destruct (either_vector tl tr && _) eqn:Ev; [apply checks_refuse|].
  destruct (sameVectors tl tr) as [[wl wr]|] eqn:Es.
  - destruct (_ || _) eqn:E0; [apply checks_refuse|]. apply orb_false_iff in E0 as [Nl%Z.eqb_neq Nr%Z.eqb_neq]. destruct (sameVectors_width _ _ _ _ Es) as [Bl Br].
    apply checks_range_or_refuse. intros range Hc Hr Hl. destruct (sameVectors_some _ _ _ _ Hl Hr Es) as (Tl & Tr & Hn).
    assert (Hv : numericStd visibility = true) by (unfold either_vector in Ev; rewrite Hn in Ev; by destruct (numericStd visibility)).
    eapply (vectors_result _ wl wr); eauto; try lia. destruct Hop as [Ho|Ho]; by rewrite Ho.
  - destruct (numericStd visibility) eqn:Hv.
    2: { destruct (either_vector tl tr) eqn:Ee; [done|]. unfold withScalar, vector_and_scalar. apply orb_false_iff in Ee as [-> ->]. apply record_unknown_or_refuse. }
    apply withScalar_ok. intros vec w mark Hmark Hn Hw. destruct (canonicalRange w (e_span e)) as [range|] eqn:Hc; [|apply checks_refuse].
    eapply checks_bind; [apply (Hmark any); done|]. intros ? _. apply checks_record. intros _ Hb. eapply (scalar_result _ w w); eauto; try lia.
    destruct Hop as [Ho|Ho]; by rewrite Ho.
Qed.

Lemma multiplyingOperands_ok : product_op (e_text e) -> checks (multiplyingOperands left right x) any (fun p => good l p.1 /\ good r p.2).
Proof.
  intros Hop. pose proof (product_contexts Hop) as (Xl & Xr & Hne). unfold multiplyingOperands.
  apply (operands_ok _ (fun t => if is_type (c_kind t) TUnknown then if isNumericVectorType (c_kind x) then x else unknown else t)); [rewrite Xl; by destruct (isNumericVectorType _)|done| |].
  { intros t Ht%is_type_false. by rewrite Ht, Xr. }
  intros tl tr. by apply checks_ret.
Qed.

Lemma checkProduct_ok : e_text e = chars "*" -> accepts x (checkProduct e at_ visibility left right l r x).
Proof.
  intros Hop. unfold checkProduct. eapply checks_bind; [apply multiplyingOperands_ok; unfold product_op; set_solver|]. intros [tl tr] _. cbn [fst snd].
  eapply (checks_mono _ any (fun b => good r tr -> good l tl -> good e b)); [|done|cbn; naive_solver].
  destruct (either_vector tl tr) eqn:Ee; cbn [negb]; [|apply record_unknown_or_refuse]. destruct (numericStd visibility) eqn:Hv; cbn [negb]; [|apply checks_refuse].
  destruct (sameVectors tl tr) as [[wl wr]|] eqn:Es.
  - destruct (_ || _) eqn:E0; [apply checks_refuse|]. apply orb_false_iff in E0 as [Nl%Z.eqb_neq Nr%Z.eqb_neq]. destruct (sameVectors_width _ _ _ _ Es) as [Bl Br].
    destruct ((maxWidth <? wr) || _) eqn:Eb; [apply checks_refuse|]. apply orb_false_iff in Eb as [Hb1%Z.ltb_ge Hb2%Z.ltb_ge].
    assert (Ew : word (wl + wr) = wl + wr /\ width_ok (wl + wr)).
    { unfold word, width_ok, maxWidth, int64_max in *. rewrite Z.mod_small in Hb2 by lia. rewrite Z.mod_small by lia. lia. }
    destruct Ew as [-> Hok]. destruct (canonicalRange_some _ (e_span e) Hok) as [range Hc]. rewrite Hc.
    apply (checks_bind _ _ (eq range) any); [by eapply checks_pointed|]. intros ? <-. apply checks_record. intros _ Hr Hl.
    destruct (sameVectors_some _ _ _ _ Hl Hr Es) as (Tl & Tr & Hn). eapply (vectors_result _ wl wr); eauto; try lia. by rewrite Hop.
  - apply withScalar_ok. intros vec w mark Hmark Hn Hw. destruct (Z.ltb_spec (Z.quot maxWidth 2) w) as [|Hb]; [apply checks_refuse|].
    eapply checks_bind; [apply (Hmark any); done|]. intros ? _.
    assert (Ew : word (w * 2) = 2 * w /\ width_ok (2 * w)).
    { change (Z.quot maxWidth 2) with (2 ^ 62) in Hb. unfold word, width_ok. rewrite Z.mod_small by lia. lia. }
    destruct Ew as [-> Hok]. destruct (canonicalRange_some _ (e_span e) Hok) as [range Hc]. rewrite Hc.
    apply (checks_bind _ _ (eq range) any); [by eapply checks_pointed|]. intros ? <-. apply checks_record. intros _ _ Hb'.
    eapply (scalar_result _ w (2 * w)); eauto; try lia. by rewrite Hop.
Qed.

Lemma checkDivision_ok : e_text e = chars "/" \/ e_text e = chars "rem" \/ e_text e = chars "mod" ->
  accepts x (checkDivision e at_ visibility left right l r x).
Proof.
  intros Hop. unfold checkDivision. eapply checks_bind; [apply multiplyingOperands_ok; unfold product_op; set_solver|]. intros [tl tr] _. cbn [fst snd].
  eapply (checks_mono _ any (fun b => good r tr -> good l tl -> good e b)); [|done|cbn; naive_solver].
  destruct (either_vector tl tr) eqn:Ee; cbn [negb]; [|apply record_unknown_or_refuse]. destruct (numericStd visibility) eqn:Hv; cbn [negb]; [|apply checks_refuse].
  destruct (sameVectors tl tr) as [[wl wr]|] eqn:Es.
  - destruct (_ || _) eqn:E0; [apply checks_refuse|]. apply orb_false_iff in E0 as [Nl%Z.eqb_neq Nr%Z.eqb_neq]. destruct (sameVectors_width _ _ _ _ Es) as [Bl Br].
    apply checks_range_or_refuse. intros range Hc Hr Hl. destruct (sameVectors_some _ _ _ _ Hl Hr Es) as (Tl & Tr & Hn).
    eapply (vectors_result _ wl wr); eauto; [lia|lia| |by destruct (text_is e "/"); lia]. unfold text_is. destruct Hop as [Ho|[Ho|Ho]]; by rewrite Ho.
  - apply withScalar_ok. intros vec w mark Hmark Hn Hw. destruct (canonicalRange w (e_span e)) as [range|] eqn:Hc; [|apply checks_refuse].
    eapply checks_bind; [apply (Hmark any); done|]. intros ? _. apply checks_record. intros _ Hb. eapply (scalar_result _ w w); eauto; try lia.
    destruct Hop as [Ho|[Ho|Ho]]; by rewrite Ho.
Qed.

Lemma checkOtherBinary_ok : accepts x (checkOtherBinary e at_ left right).
Proof.
  unfold checkOtherBinary. eapply checks_bind; [apply Hleft|]. intros ? _. eapply checks_bind; [apply Hright|]. intros ? _. apply checks_refuse.
Qed.

Lemma checkBinary_ok : accepts x (checkBinary e at_ visibility left right l r x).
Proof.
  unfold checkBinary, text_is. destruct (isLogical (e_text e)) eqn:E1; [by apply checkLogical_ok|].
  destruct (_ || _) eqn:E2 in |- *; [rewrite orb_true_iff, !bool_decide_eq_true in E2; apply checkEquality_ok; unfold equality_op; set_solver|].
  destruct (_ || _) eqn:E3 in |- *; [rewrite !orb_true_iff, !bool_decide_eq_true in E3; apply checkRelation_ok; unfold relation_op; set_solver|].
  destruct (_ || _) eqn:E4 in |- *; [rewrite orb_true_iff, !bool_decide_eq_true in E4; by apply checkAdditive_ok|].
  destruct (bool_decide _) eqn:E5 in |- *; [apply bool_decide_eq_true in E5; by apply checkProduct_ok|].
  destruct (_ || _) eqn:E6 in |- *; [rewrite !orb_true_iff, !bool_decide_eq_true in E6; apply checkDivision_ok; tauto|].
  apply checkOtherBinary_ok.
Qed.
End binary.

Lemma checkConditional_ok expected c l r condition left right : e_kind e = EConditional -> e_condition e = Some c -> e_left e = Some l -> e_right e = Some r ->
  (forall x, checks (condition x) any (accepted c x)) -> (forall x, checks (left x) any (accepted l x)) -> (forall x, checks (right x) any (accepted r x)) ->
  accepts expected (checkConditional e at_ expected condition left right).
Proof.
  intros Hk Ec El Er Hc Hl Hr. unfold checkConditional. eapply checks_bind; [apply Hc|]. intros tc _. eapply checks_bind; [apply Hl|]. intros tl _.
  eapply checks_bind; [apply Hr|]. intros tr _.
  destruct (is_type (c_kind tc) TBoolean && compatible tl tr) eqn:E1.
  - apply andb_true_iff in E1 as [Eb%is_type_true Em%compatible_matching]. apply checks_record. intros Ar Al Ac. pose proof Em as (Ul & Ur & _).
    eapply accepted_typed in Ac; [|by rewrite Eb]. unfold shape at 1 in Ac. rewrite Eb in Ac.
    apply accepted_known; [|destruct (_ && _) eqn:Ee in |- *; [apply andb_true_iff in Ee as [Ee%negb_true_iff _]; by apply is_type_false in Ee|done]].
    eapply typed_conditional; eauto using accepted_typed. destruct (_ && _) eqn:Ee in |- *; [right|by left].
    apply andb_true_iff in Ee as [_ Ee]. by apply compatible_matching.
  - destruct (is_type (c_kind tc) TUnknown || either_unknown tl tr) eqn:E2; [|apply checks_refuse]. apply checks_record. intros Ar Al Ac.
    unfold either_unknown in E2. rewrite !orb_true_iff, !is_type_true in E2. apply accepted_unknown.
    destruct E2 as [E2|[E2|E2]]; [destruct Ac as [[]|[_ ?]]|destruct Al as [[]|[_ ?]]|destruct Ar as [[]|[_ ?]]]; try done;
      [by eapply unresolved_condition|eapply (unresolved_branch _ _ _ e c l r l); eauto|eapply (unresolved_branch _ _ _ e c l r r); eauto].
Qed.
End cases.

(** * Expressions *)

Lemma checkExpression_ok declarations visibility e : complete e = true -> forall at_ expected,
  checks (checkExpression e declarations visibility at_ expected) any (accepted declarations visibility e expected).
Proof.
  induction e as [els k text canonical sp l r c Hels Hl Hr Hc] using Expression_ind'. intros Hcomp at_ expected.
  destruct k; cbn [checkExpression e_kind e_left e_right e_condition]; try apply checks_refuse.
  - by apply checkName_ok.
  - apply checks_record, accepted_known.
    + cbn [scalar shape c_kind c_range fmap option_fmap option_map]. apply typed_integer; [done|]. unfold number. cbn. destruct (is_type _ _); auto.
    + cbn. by destruct (is_type _ _).
  - apply checks_record, accepted_known; [by apply typed_real|done].
  - apply checks_record, accepted_known; [by apply typed_string|done].
  - by apply checkCharacter_ok.
  - cbn in Hcomp. destruct l as [l|]; [|done]. eapply checkUnary_ok; [done|done|]. intros x. by apply Hl.
  - cbn in Hcomp. destruct l as [l|]; [|done]. destruct r as [r|]; [|done]. apply andb_true_iff in Hcomp as [Cl Cr].
    apply checkBinary_ok; try done; intros x; [by apply Hl|by apply Hr].
  - cbn in Hcomp. destruct c as [c|]; [|done]. destruct l as [l|]; [|done]. destruct r as [r|]; [|done]. rewrite !andb_true_iff in Hcomp. destruct Hcomp as [[Cc Cl] Cr].
    eapply checkConditional_ok; try done; intros x; [by apply Hc|by apply Hl|by apply Hr].
Qed.

(** An expression without a type has a character literal. *)
Lemma unresolved_has_character declarations visibility x e : unresolved declarations visibility x e -> has_character e = true.
Proof.
  induction 1 as [e Hk|x e l Hk El _ IH|x e l r Hk El Er _ _ IH|x e l r t Hk El Er _ _ IH|x e l r Hk El Er _ Hl _ IH|x e c l r Hk Ec El Er _ IH|x e c l r b Hk Ec El Er Hb _ IH];
    destruct e; cbn in *; subst; cbn; rewrite ?IH, ?orb_true_r; try done. destruct Hb as [->| ->]; rewrite IH; by rewrite ?orb_true_r.
Qed.

(** * What is recorded *)

(** The type that is returned is the one recorded at [at_]. *)
Definition records (at_ : site) (m : analysis CheckedType) : Prop := forall s t s', m s = (Ret t, s') -> getType s' at_ = c_kind t.

Section records.
Context (e : Expression) (at_ : site).
Lemma records_record t : records at_ (record at_ t).
Proof. intros s t' s'. unfold record. destruct t as [k [r|]]; cbn; intros [= <- <-]; unfold getType; cbn; by rewrite lookup_insert_eq. Qed.
Lemma records_bind {A} (m : analysis A) f : (forall a, records at_ (f a)) -> records at_ (m ≫= f).
Proof. intros H s t s'. unfold mbind, prog_bind. destruct (m s) as [[a|x|] s1]; [apply H|done|done]. Qed.
Lemma records_undef : records at_ undef.
Proof. by intros s t s'. Qed.
Lemma records_refuse m : records at_ (refuse e at_ m).
Proof. apply records_bind. intros _. apply records_record. Qed.
End records.

(** Goes through a check to the records at its ends. *)
Ltac records_auto :=
  repeat first [apply records_record|apply records_refuse|apply records_undef|apply records_bind; intros ?
    |match goal with |- records _ (match ?x with _ => _ end) => destruct x end].

Lemma withScalar_records e at_ l r tl tr k : (forall v w mark, records at_ (k v w mark)) -> records at_ (withScalar e at_ l r tl tr k).
Proof. intros Hk. unfold withScalar, mismatch. records_auto; apply Hk. Qed.
Lemma compareVectors_records e at_ v l r tl tr : records at_ (compareVectors e at_ v l r tl tr).
Proof. unfold compareVectors. records_auto. apply withScalar_records. intros. records_auto. Qed.
Lemma checkBinary_records e at_ v left right l r x : records at_ (checkBinary e at_ v left right l r x).
Proof.
  unfold checkBinary, checkLogical, checkEquality, checkRelation, checkAdditive, checkProduct, checkDivision, checkOtherBinary, noNumericOperand, range_or_refuse.
  records_auto; first [apply compareVectors_records|apply withScalar_records; intros; records_auto].
Qed.
Lemma checkExpression_records e declarations visibility at_ expected : records at_ (checkExpression e declarations visibility at_ expected).
Proof.
  destruct e as [els k text canonical sp l r c]. destruct k; cbn [checkExpression e_kind e_left e_right e_condition];
    unfold checkName, checkCharacter, checkUnary, checkConditional, range_or_refuse; records_auto; apply checkBinary_records.
Qed.
