(* ===== verification/VhdlAnalyzer.v ===== *)
(** [Analyzer::analyze] of vhdl/src/Analyzer.cpp: the entities of a design file
    with their generics and ports, then the architectures with their signals,
    instantiations, assignments and clocked processes. An entity is known by its
    place in the file; the order in which the map of named actuals is walked is
    a parameter. *)
From S2P Require Import Prelude Store VhdlLexer VhdlSyntax VhdlParser VhdlTypes VhdlChecker.
Local Open Scope nat_scope.

(** * Maps and loops *)

(** [map.emplace(k, v)]: nothing happens to a key that is there. *)
Definition emplace {V} (k : list ascii) (v : V) (m : gmap (list ascii) V) : gmap (list ascii) V :=
  match m !! k with Some _ => m | None => <[k:=v]> m end.
Definition mem {V} (k : list ascii) (m : gmap (list ascii) V) : bool := negb (is_none (m !! k)).
Definition one_of_names (k : list ascii) (s : gset (list ascii)) : bool := bool_decide (k ∈ s).
(** The elements of a vector with their places. *)
Definition numbered {A} (l : list A) : list (nat * A) := imap pair l.
Definition nonempty {A} (l : list A) : bool := match l with [] => false | _ => true end.

(** The places of types, expressions and instantiations. *)
Definition port_type_at (entity port : nat) : site := [port; entity; 0].
Definition signal_type_at (architecture signal : nat) : site := [signal; architecture; 1].
Definition assignment_at (architecture assignment : nat) : site := [assignment; architecture; 2].
Definition process_assignment_at (architecture process assignment : nat) : site := [assignment; process; architecture; 3].
Definition reset_assignment_at (architecture process assignment : nat) : site := [assignment; process; architecture; 4].
Definition instantiation_at (architecture instantiation : nat) : site := [instantiation; architecture; 5].

(** * What needs elaboration *)

Definition instance_needs_elaboration (instance : EntityInstantiation) : bool :=
  existsb id (ei_actualOpen instance) || existsb (fun l => negb (is_none l)) (ei_actualLiterals instance) ||
  existsb nonempty (ei_actualIndices instance) || ei_component instance || existsb (fun f => negb (is_none f)) (ei_formals instance).

Definition check_features (architecture : ArchitectureBody) : analysis unit :=
  complain_if (nonempty (ab_functions architecture)) "architecture functions require RTL elaboration" (ab_span architecture) ;;
  complain_if (nonempty (ab_enumerationTypes architecture)) "enumerated types require RTL elaboration" (ab_span architecture) ;;
  complain_if (nonempty (ab_recordTypes architecture)) "record types require RTL elaboration" (ab_span architecture) ;;
  complain_if (nonempty (ab_constants architecture)) "architecture constants require RTL elaboration" (ab_span architecture) ;;
  complain_if (nonempty (ab_generates architecture)) "generate statements require RTL elaboration" (ab_span architecture) ;;
  for_each (fun instance => complain_if (instance_needs_elaboration instance) "named/component binding requires RTL elaboration" (ei_span instance))
    (ab_instantiations architecture).

(** * Entities *)

Record EntityTable := mkEntityTable { entities : gmap (list ascii) nat; entityVisibility : gmap nat Visibility; entityDefaults : gmap nat GenericValues }.
Definition no_entities : EntityTable := mkEntityTable ∅ ∅ ∅.

(** [(natural && value < 0) || (positive && value <= 0)] *)
Definition outside_subtype (type : TypeMark) (value : Z) : bool :=
  (canonical_is (t_name type) "natural" && (value <? 0)%Z) || (canonical_is (t_name type) "positive" && (value <=? 0)%Z).

Definition declareGeneric (generic : GenericDeclaration) (state : GenericValues * gset (list ascii)) (name : Name) : analysis (GenericValues * gset (list ascii)) :=
  let '(defaults, genericNames) := state in
  let genericName := nameKey name in
  if one_of_names genericName genericNames then
    complain ("duplicate generic declaration '" +:+ str (spelling name) +:+ "'") (n_span name) ;; mret state
  else
    let genericNames := {[genericName]} ∪ genericNames in
    match ge_defaultValue generic with
    | None => mret (defaults, genericNames)
    | Some defaultValue =>
        value ← lift (evaluateInteger defaultValue defaults);
        match value with
        | None =>
            complain ("generic default for '" +:+ str (spelling name) +:+ "' is not a locally static integer expression") (e_span defaultValue) ;;
            mret (defaults, genericNames)
        | Some value =>
            if outside_subtype (ge_type generic) value then
              complain ("generic default for '" +:+ str (spelling name) +:+ "' is outside its subtype") (e_span defaultValue) ;; mret (defaults, genericNames)
            else mret (emplace genericName value defaults, genericNames)
        end
    end.

Definition analyzeGeneric (visibility : Visibility) (state : GenericValues * gset (list ascii)) (generic : GenericDeclaration)
    : analysis (GenericValues * gset (list ascii)) :=
  genericType ← lift (declarationType (ge_type generic) visibility ∅);
  complain_if (negb (is_type (c_kind genericType) TInteger) && negb (is_type (c_kind genericType) TNatural))
    "entity generics currently require integer, natural, or positive type" (n_span (t_name (ge_type generic))) ;;
  fold_each (declareGeneric generic) state (ge_names generic).

(** [if (type.constraint && checked.range) resolvedTypeRanges[&type] = *checked.range] *)
Definition resolve_range (at_ : site) (type : TypeMark) (checked : CheckedType) : analysis unit :=
  match t_constraint type, c_range checked with Some _, Some range => modify (set_typeRange at_ range) | _, _ => mret tt end.
Definition complain_unsupported (type : TypeMark) (checked : CheckedType) : analysis unit :=
  complain_if (is_type (c_kind checked) TUnknown) ("unsupported or invisible type mark '" +:+ str (spelling (t_name type)) +:+ "'") (n_span (t_name type)).

Definition analyzePort (entity : nat) (visibility : Visibility) (defaults : GenericValues) (ports : gset (list ascii)) (port : nat * PortDeclaration)
    : analysis (gset (list ascii)) :=
  portType ← lift (declarationType (po_type port.2) visibility defaults);
  complain_unsupported (po_type port.2) portType ;;
  resolve_range (port_type_at entity port.1) (po_type port.2) portType ;;
  fold_each (fun ports name =>
    complain_if (one_of_names (nameKey name) ports) ("duplicate port declaration '" +:+ str (spelling name) +:+ "'") (n_span name) ;;
    mret ({[nameKey name]} ∪ ports)) ports (po_names port.2).

Definition analyzeEntity (table : EntityTable) (entity : nat * EntityDeclaration) : analysis EntityTable :=
  let '(index, entity) := entity in
  for_each (fun port => complain_if (negb (is_none (po_defaultValue port))) "port defaults require RTL elaboration" (po_span port)) (ed_ports entity) ;;
  visibility ← analyzeContext (ed_context entity);
  let entityName := nameKey (ed_name entity) in
  complain_if (mem entityName (entities table)) ("duplicate entity declaration '" +:+ str (spelling (ed_name entity)) +:+ "'") (n_span (ed_name entity)) ;;
  '(defaults, genericNames) ← fold_each (analyzeGeneric visibility) (∅, ∅) (ed_generics entity);
  fold_each (analyzePort index visibility defaults) genericNames (numbered (ed_ports entity)) ;;
  mret (mkEntityTable (emplace entityName index (entities table)) (<[index:=visibility]> (entityVisibility table)) (<[index:=defaults]> (entityDefaults table))).

(** * Architectures *)

(** [map.at(key)] *)
Definition map_at {V} (m : gmap nat V) (k : nat) : analysis V := match m !! k with Some v => mret v | None => throw "map::at" end.

Section architecture.
Context (syntax : DesignFile) (table : EntityTable).
Context (iteration : gmap (list ascii) GenericAssociation -> list (list ascii * GenericAssociation)).

Definition entity_at (index : nat) : analysis EntityDeclaration := pointed (df_entities syntax !! index).

(** The declarations of an entity, seen by its architectures. *)
Definition entityDeclarations (index : nat) (entity : EntityDeclaration) (visibility : Visibility) (values : GenericValues) : analysis Declarations :=
  declarations ← fold_each (fun declarations generic =>
    type ← lift (declarationType (ge_type generic) visibility ∅);
    mret (foldl (fun declarations name => emplace (nameKey name) type declarations) declarations (ge_names generic))) ∅ (ed_generics entity);
  fold_each (fun declarations (port : nat * PortDeclaration) =>
    type ← lift (declarationType (po_type port.2) visibility values);
    resolve_range (port_type_at index port.1) (po_type port.2) type ;;
    mret (foldl (fun declarations name => emplace (nameKey name) type declarations) declarations (po_names port.2))) declarations (numbered (ed_ports entity)).

Definition analyzeSignal (architecture : nat) (visibility : Visibility) (values : GenericValues) (declarations : Declarations) (signal : nat * ObjectDeclaration)
    : analysis Declarations :=
  complain_if (negb (is_none (ob_initializer signal.2))) "signal initialization requires RTL elaboration" (ob_span signal.2) ;;
  signalType ← lift (declarationType (ob_type signal.2) visibility values);
  complain_unsupported (ob_type signal.2) signalType ;;
  resolve_range (signal_type_at architecture signal.1) (ob_type signal.2) signalType ;;
  fold_each (fun declarations name =>
    complain_if (mem (nameKey name) declarations) ("duplicate signal declaration '" +:+ str (spelling name) +:+ "'") (n_span name) ;;
    mret (emplace (nameKey name) signalType declarations)) declarations (ob_names signal.2).

(** ** Instantiations *)

Record GenericMap := mkGenericMap { namedActuals : gmap (list ascii) GenericAssociation; positionalActuals : list GenericAssociation; sawNamed : bool }.

Definition associateGeneric (g : GenericMap) (association : GenericAssociation) : analysis GenericMap :=
  match ga_formal association with
  | Some formal =>
      complain_if (mem (nameKey formal) (namedActuals g)) ("duplicate generic association for '" +:+ str (spelling formal) +:+ "'") (n_span formal) ;;
      mret (mkGenericMap (emplace (nameKey formal) association (namedActuals g)) (positionalActuals g) true)
  | None =>
      complain_if (sawNamed g) "positional generic association cannot follow a named association" (ga_span association) ;;
      mret (mkGenericMap (namedActuals g) (positionalActuals g ++ [association]) (sawNamed g))
  end.

Record GenericBinding := mkGenericBinding { bound : GenericValues; positionalIndex : nat; formalGenericNames : gset (list ascii) }.

Definition bindGeneric (outer : GenericValues) (g : GenericMap) (generic : GenericDeclaration) (b : GenericBinding) (name : Name) : analysis GenericBinding :=
  let genericName := nameKey name in
  let '(association, index) :=
    match namedActuals g !! genericName with
    | Some named => (Some named, positionalIndex b)
    | None =>
        match positionalActuals g !! positionalIndex b with
        | Some positional => (Some positional, S (positionalIndex b))
        | None => (None, positionalIndex b)
        end
    end in
  let b' := mkGenericBinding (bound b) index ({[genericName]} ∪ formalGenericNames b) in
  '(value, valueSpan) ←
    match association, ge_defaultValue generic with
    | Some association, _ => actual ← pointed (ga_actual association); value ← lift (evaluateInteger actual outer); mret (value, e_span actual)
    | None, Some defaultValue => value ← lift (evaluateInteger defaultValue (bound b)); mret (value, e_span defaultValue)
    | None, None => mret (None, n_span name)
    end;
  match value with
  | None =>
      complain ("generic '" +:+ str (spelling name) +:+ "' requires a locally static integer actual or default") valueSpan ;; mret b'
  | Some value =>
      if outside_subtype (ge_type generic) value then
        complain ("generic actual for '" +:+ str (spelling name) +:+ "' is outside its subtype") valueSpan ;; mret b'
      else mret (mkGenericBinding (emplace genericName value (bound b)) index ({[genericName]} ∪ formalGenericNames b))
  end.

(** The ports of the entity with their types under the values of generics. *)
Definition portFormals (instantiation : site) (index : nat) (visibility : Visibility) (values : GenericValues) (formals : list (Name * CheckedType))
    (port : nat * PortDeclaration) : analysis (list (Name * CheckedType)) :=
  type ← lift (declarationType (po_type port.2) visibility values);
  match t_constraint (po_type port.2), c_range type with
  | Some _, Some range => modify (set_specializedRange instantiation (port_type_at index port.1) range)
  | _, _ => mret tt
  end ;;
  mret (formals ++ ((fun name => (name, type)) <$> po_names port.2)).

Definition checkActual (declarations : Declarations) (pair : (Name * CheckedType) * Name) : analysis unit :=
  let '((formal, type), actual) := pair in
  match declarations !! nameKey actual with
  | None => complain ("no declaration for port-map actual '" +:+ str (spelling actual) +:+ "'") (n_span actual)
  | Some declaration =>
      complain_if (negb (compatible type declaration)) ("port-map type mismatch for formal '" +:+ str (spelling formal) +:+ "'") (n_span actual)
  end.

Definition bindInstance (declarations : Declarations) (outer : GenericValues) (at_ : site) (instantiation : EntityInstantiation) (model : nat) : analysis unit :=
  entity ← entity_at model;
  g ← fold_each associateGeneric (mkGenericMap ∅ [] false) (ei_generics instantiation);
  b ← fold_each (fun b generic => fold_each (bindGeneric outer g generic) b (ge_names generic)) (mkGenericBinding ∅ 0 ∅) (ed_generics entity);
  complain_if (negb (positionalIndex b =? length (positionalActuals g)))
    ("too many positional generic actuals for entity '" +:+ str (spelling (ei_entity instantiation)) +:+ "'") (ei_span instantiation) ;;
  for_each (fun '(name, association) =>
    if one_of_names name (formalGenericNames b) then mret tt
    else formal ← pointed (ga_formal association);
      complain ("no generic named '" +:+ str (spelling formal) +:+ "' on entity '" +:+ str (spelling (ei_entity instantiation)) +:+ "'") (n_span formal))
    (iteration (namedActuals g)) ;;
  modify (set_genericValues at_ (bound b)) ;;
  modelVisibility ← map_at (entityVisibility table) model;
  formals ← fold_each (portFormals at_ model modelVisibility (bound b)) [] (numbered (ed_ports entity));
  if negb (length formals =? length (ei_actuals instantiation)) then
    complain ("port map for entity '" +:+ str (spelling (ei_entity instantiation)) +:+ "' has " +:+ pretty (N.of_nat (length (ei_actuals instantiation))) +:+
      " actuals but " +:+ pretty (N.of_nat (length formals)) +:+ " are required") (ei_span instantiation)
  else for_each (checkActual declarations) (zip formals (ei_actuals instantiation)).

Definition analyzeInstance (architecture : nat) (declarations : Declarations) (outer : GenericValues) (labels : gset (list ascii))
    (instantiation : nat * EntityInstantiation) : analysis (gset (list ascii)) :=
  let '(index, instantiation) := instantiation in
  complain_if (one_of_names (nameKey (ei_label instantiation)) labels)
    ("duplicate instance label '" +:+ str (spelling (ei_label instantiation)) +:+ "'") (n_span (ei_label instantiation)) ;;
  (if negb (key_is (ei_library instantiation) "work") then
    complain "only direct entity instantiation from library 'work' is supported" (n_span (ei_library instantiation))
  else match entities table !! nameKey (ei_entity instantiation) with
  | None =>
      complain ("no entity declaration for instantiated entity '" +:+ str (spelling (ei_entity instantiation)) +:+ "'") (n_span (ei_entity instantiation))
  | Some model => bindInstance declarations outer (instantiation_at architecture index) instantiation model
  end) ;;
  mret ({[nameKey (ei_label instantiation)]} ∪ labels).

(** ** Assignments *)

(** The value against the target. *)
Definition complain_mismatch (target value : CheckedType) (sp : SourceSpan) : analysis unit :=
  complain_if (negb (is_type (c_kind target) TUnknown) && negb (is_type (c_kind value) TUnknown) && negb (compatible target value))
    ("assignment type mismatch: target is '" +:+ typeName (c_kind target) +:+ "' but value is '" +:+ typeName (c_kind value) +:+ "'") sp.

Definition checkAssignment (declarations : Declarations) (visibility : Visibility) (at_ : site) (assignment : Assignment) : analysis unit :=
  if negb (is_none (as_selector assignment)) then complain "selected assignments require RTL elaboration" (as_span assignment)
  else if nonempty (as_indices assignment) then complain "indexed assignments require RTL elaboration" (as_span assignment)
  else match declarations !! nameKey (as_target assignment) with
  | None =>
      complain ("no declaration for assignment target '" +:+ str (spelling (as_target assignment)) +:+ "'") (n_span (as_target assignment)) ;;
      expression ← pointed (as_value assignment);
      ignore (checkExpression expression declarations visibility at_ unknown)
  | Some target =>
      expression ← pointed (as_value assignment);
      value ← checkExpression expression declarations visibility at_ target;
      complain_mismatch target value (as_span assignment)
  end.

(** ** Processes *)

Definition is_variable (k : AssignmentKind) : bool := match k with VariableAssignment => true | SignalAssignment => false end.

Definition declareVariables (visibility : Visibility) (declarations : Declarations) (state : Declarations * gset (list ascii)) (declaration : ObjectDeclaration)
    : analysis (Declarations * gset (list ascii)) :=
  variableType ← lift (declarationType (ob_type declaration) visibility ∅);
  complain_unsupported (ob_type declaration) variableType ;;
  fold_each (fun '(localDeclarations, variables) name =>
    let variable := nameKey name in
    complain_if (one_of_names variable variables) ("duplicate variable declaration '" +:+ str (spelling name) +:+ "'") (n_span name) ;;
    complain_if (mem variable localDeclarations && mem variable declarations)
      ("variable shadowing is not supported: '" +:+ str (spelling name) +:+ "'") (n_span name) ;;
    mret (emplace variable variableType localDeclarations, {[variable]} ∪ variables)) state (ob_names declaration).

(** A clock, enable or reset must be a scalar of a logic type. *)
Definition checkControl (declarations : Declarations) (what : string) (name : Name) : analysis unit :=
  match declarations !! nameKey name with
  | None => complain ("no declaration for " +:+ what +:+ " name '" +:+ str (spelling name) +:+ "'") (n_span name)
  | Some found =>
      complain_if (negb (is_type (c_kind found) TBit) && negb (is_type (c_kind found) TStdLogic))
        (what +:+ " name must have scalar logic type: '" +:+ str (spelling name) +:+ "'") (n_span name)
  end.
Definition checkOptionalControl (declarations : Declarations) (what : string) (name : option Name) : analysis unit :=
  match name with Some name => checkControl declarations what name | None => mret tt end.

Definition checkProcessAssignment (localDeclarations : Declarations) (variables : gset (list ascii)) (visibility : Visibility) (at_ : site)
    (assignment : Assignment) : analysis unit :=
  if nonempty (as_indices assignment) then complain "indexed assignments require RTL elaboration" (as_span assignment)
  else
    let target := nameKey (as_target assignment) in
    match localDeclarations !! target with
    | None => complain ("no declaration for assignment target '" +:+ str (spelling (as_target assignment)) +:+ "'") (n_span (as_target assignment))
    | Some _ =>
        complain_if (negb (Bool.eqb (is_variable (as_kind assignment)) (one_of_names target variables)))
          ("assignment operator does not match object class for '" +:+ str (spelling (as_target assignment)) +:+ "'") (n_span (as_target assignment))
    end ;;
    let expected := default unknown (localDeclarations !! target) in
    expression ← pointed (as_value assignment);
    value ← checkExpression expression localDeclarations visibility at_ expected;
    complain_mismatch expected value (as_span assignment).

Definition analyzeProcess (architecture : nat) (visibility : Visibility) (declarations : Declarations) (process : nat * ClockedProcess) : analysis unit :=
  let '(index, process) := process in
  if pr_combinational process || nonempty (pr_sensitivityList process) then complain "structured processes require RTL elaboration" (pr_span process)
  else
    '(localDeclarations, variables) ← fold_each (declareVariables visibility declarations) (declarations, ∅) (pr_variables process);
    for_each (checkControl declarations "clock") [pr_sensitivity process; pr_eventSignal process; pr_levelSignal process] ;;
    checkOptionalControl declarations "enable" (pr_enableSignal process) ;;
    checkOptionalControl declarations "reset" (pr_resetSignal process) ;;
    for_each (fun '(i, assignment) => checkProcessAssignment localDeclarations variables visibility (process_assignment_at architecture index i) assignment)
      (numbered (pr_assignments process)) ;;
    for_each (fun '(i, assignment) => checkProcessAssignment localDeclarations variables visibility (reset_assignment_at architecture index i) assignment)
      (numbered (pr_resetAssignments process)).

(** ** The body of an architecture *)

Definition analyzeBody (index : nat) (architecture : ArchitectureBody) (visibility : Visibility) (entity : nat) : analysis unit :=
  declaration ← entity_at entity;
  values ← map_at (entityDefaults table) entity;
  portVisibility ← map_at (entityVisibility table) entity;
  declarations ← entityDeclarations entity declaration portVisibility values;
  declarations ← fold_each (analyzeSignal index visibility values) declarations (numbered (ab_signals architecture));
  fold_each (analyzeInstance index declarations values) ∅ (numbered (ab_instantiations architecture)) ;;
  for_each (fun '(i, assignment) => checkAssignment declarations visibility (assignment_at index i) assignment) (numbered (ab_assignments architecture)) ;;
  for_each (analyzeProcess index visibility declarations) (numbered (ab_processes architecture)).

Definition analyzeArchitecture (architectures : gset (list ascii)) (architecture : nat * ArchitectureBody) : analysis (gset (list ascii)) :=
  let '(index, architecture) := architecture in
  visibility ← analyzeContext (ab_context architecture);
  complain_if (nonempty (ab_components architecture)) "local components require RTL elaboration" (ab_span architecture) ;;
  let entityName := nameKey (ab_entity architecture) in
  match entities table !! entityName with
  | None => complain ("no entity declaration for '" +:+ str (spelling (ab_entity architecture)) +:+ "'") (n_span (ab_entity architecture)) ;; mret architectures
  | Some entity =>
      let architectureKey := entityName ++ [NUL] ++ nameKey (ab_name architecture) in
      complain_if (one_of_names architectureKey architectures)
        ("duplicate architecture '" +:+ str (spelling (ab_name architecture)) +:+ "' for entity '" +:+ str (spelling (ab_entity architecture)) +:+ "'")
        (n_span (ab_name architecture)) ;;
      analyzeBody index architecture visibility entity ;;
      mret ({[architectureKey]} ∪ architectures)
  end.
End architecture.

Section analyze.
Context (iteration : gmap (list ascii) GenericAssociation -> list (list ascii * GenericAssociation)) (syntax : DesignFile).

Definition analyze_run : analysis unit :=
  for_each (fun package => complain "packages require RTL elaboration" (n_span (pk_name package))) (df_packages syntax) ;;
  for_each check_features (df_architectures syntax) ;;
  table ← fold_each analyzeEntity no_entities (numbered (df_entities syntax));
  ignore (fold_each (analyzeArchitecture syntax table iteration) ∅ (numbered (df_architectures syntax))).

Definition analyze : outcome AnalysisResult :=
  match analyze_run no_analysis with
  | (Ret _, result) => Ret result
  | (Throw reason, _) => Throw reason
  | (Undef, _) => Undef
  end.
End analyze.
