(* ===== verification/VhdlSchedule.v ===== *)
(** [Analyzer::schedule] of vhdl/src/Analyzer.cpp: the writes of one activation of
    a clocked process.

    Statements run in order, variables change at once, signals at the end. The
    schedule gives for each signal and each variable kept between activations
    the name whose value before the activation it takes.

    The schedule of a clocked process refines its statements: an activation by
    the writes of the schedule has the effect of running the assignments in
    order, over any sequence of activations and inputs. *)
From S2P Require Import Prelude Store VhdlLexer VhdlSyntax VhdlTypes VhdlAnalyzer.
Local Open Scope nat_scope.

(** * The schedule *)

Record ScheduledWrite := mkWrite { sw_target : list ascii; sw_source : list ascii; sw_span : SourceSpan; sw_kind : AssignmentKind }.
Record ScheduleResult := mkSchedule { writes : list ScheduledWrite; retainedVariables : list (list ascii); s_diagnostics : list AnalysisDiagnostic }.
Definition schedule_has_errors (r : ScheduleResult) : bool := nonempty (s_diagnostics r).

Record SchedulerState := mkScheduler { values : gmap (list ascii) (list ascii); retained : gset (list ascii); result : ScheduleResult }.
Definition over_result (f : ScheduleResult -> ScheduleResult) (s : SchedulerState) : SchedulerState := mkScheduler (values s) (retained s) (f (result s)).
Definition add_write (w : ScheduledWrite) (r : ScheduleResult) : ScheduleResult := mkSchedule (writes r ++ [w]) (retainedVariables r) (s_diagnostics r).
Definition add_retained (v : list ascii) (r : ScheduleResult) : ScheduleResult := mkSchedule (writes r) (retainedVariables r ++ [v]) (s_diagnostics r).
Definition report (m : string) (sp : SourceSpan) (r : ScheduleResult) : ScheduleResult :=
  mkSchedule (writes r) (retainedVariables r) (s_diagnostics r ++ [mkAnalysisDiagnostic m sp]).

(** The names that a process declares as variables, in order. *)
Definition variable_names (process : ClockedProcess) : list Name := mjoin (ob_names <$> pr_variables process).
Definition process_variables (process : ClockedProcess) : gset (list ascii) := list_to_set (nameKey <$> variable_names process).

(** What a name stands for: the value that a variable was given, or the name,
    which is retained when it is a variable. *)
Definition resolveSource (variables : gset (list ascii)) (source : list ascii) (s : SchedulerState) : list ascii * SchedulerState :=
  if one_of_names source variables then
    match values s !! source with
    | Some value => (value, s)
    | None => (source, mkScheduler (values s) ({[source]} ∪ retained s) (result s))
    end
  else (source, s).

(** One assignment; [inr] leaves the function. *)
Definition scheduleAssignment (variables : gset (list ascii)) (s : SchedulerState) (assignment : Assignment) : outcome (SchedulerState + ScheduleResult) :=
  if nonempty (as_indices assignment) then
    Ret (inr (mkSchedule [] (retainedVariables (result s)) (s_diagnostics (report "indexed assignments require RTL elaboration" (as_span assignment) (result s)))))
  else match as_value assignment with
  | None => Undef
  | Some expression =>
      if negb (is_kind EName expression) then Ret (inl (over_result (report "scheduled data values must be scalar names" (e_span expression)) s))
      else
        let '(source, s) := resolveSource variables (expressionName expression) s in
        let target := nameKey (as_target assignment) in
        Ret (inl (match as_kind assignment with
          | VariableAssignment => mkScheduler (<[target:=source]> (values s)) (retained s) (result s)
          | SignalAssignment => over_result (add_write (mkWrite target source (as_span assignment) SignalAssignment)) s
          end))
  end.

Fixpoint scheduleAssignments (variables : gset (list ascii)) (s : SchedulerState) (assignments : list Assignment) : outcome (SchedulerState + ScheduleResult) :=
  match assignments with
  | [] => Ret (inl s)
  | assignment :: rest =>
      next ← scheduleAssignment variables s assignment;
      match next with inl s => scheduleAssignments variables s rest | inr r => Ret (inr r) end
  end.

Definition retainVariable (s : SchedulerState) (r : ScheduleResult) (name : Name) : ScheduleResult :=
  let variable := nameKey name in
  if negb (one_of_names variable (retained s)) then r
  else
    let r := add_retained variable r in
    match values s !! variable with
    | None => report ("retained variable must be assigned on every activation: '" +:+ str (spelling name) +:+ "'") (n_span name) r
    | Some value =>
        if one_of_names value (retained s) then
          report ("retained variable next value must resolve to a non-retained scalar name: '" +:+ str (spelling name) +:+ "'") (n_span name) r
        else add_write (mkWrite variable value (n_span name) VariableAssignment) r
    end.

Definition schedule (process : ClockedProcess) : outcome ScheduleResult :=
  let empty := mkSchedule [] [] [] in
  if pr_combinational process || nonempty (pr_sensitivityList process) then Ret (report "structured processes require RTL elaboration" (pr_span process) empty)
  else
    scheduled ← scheduleAssignments (process_variables process) (mkScheduler ∅ ∅ empty) (pr_assignments process);
    match scheduled with
    | inr r => Ret r
    | inl s =>
        let r := foldl (retainVariable s) (result s) (variable_names process) in
        Ret (if schedule_has_errors r then mkSchedule [] [] (s_diagnostics r) else r)
    end.

(** * The schedule refines the statements *)

(** * What statements do *)

Section semantics.
Context {V : Type}.

(** The values of signals and variables by name. *)
Definition Env : Type := list ascii -> V.
Record Activation := mkActivation { locals : Env; pending : list (list ascii * V) }.

(** [env] with a new value for one name. *)
Definition assign (n : list ascii) (v : V) (env : Env) : Env := fun m => if bool_decide (m = n) then v else env m.
(** Updates in order, the last one of a name counts. *)
Definition apply_updates (l : list (list ascii * V)) (env : Env) : Env := foldl (fun env u => assign u.1 u.2 env) env l.

(** Variables are read as they are now, signals as they were. *)
Definition value_of (variables : gset (list ascii)) (env : Env) (st : Activation) (n : list ascii) : V :=
  if one_of_names n variables then locals st n else env n.
Definition execute (variables : gset (list ascii)) (env : Env) (st : Activation) (a : Assignment) : Activation :=
  match as_value a with
  | None => st
  | Some e =>
      let v := value_of variables env st (expressionName e) in
      match as_kind a with
      | VariableAssignment => mkActivation (assign (nameKey (as_target a)) v (locals st)) (pending st)
      | SignalAssignment => mkActivation (locals st) (pending st ++ [(nameKey (as_target a), v)])
      end
  end.
(** One activation: variables keep their last values, signals get theirs at the end. *)
Definition activate (process : ClockedProcess) (env : Env) : Env :=
  let variables := process_variables process in
  let st := foldl (execute variables env) (mkActivation env []) (pr_assignments process) in
  fun n => if one_of_names n variables then locals st n else apply_updates (pending st) env n.

(** The writes of a schedule, all read before any is done. *)
Definition updates (env : Env) (l : list ScheduledWrite) : list (list ascii * V) := (fun w => (sw_target w, env (sw_source w))) <$> l.
Definition perform (l : list ScheduledWrite) (env : Env) : Env := apply_updates (updates env l) env.

(** Activations with new inputs before each. *)
Definition drive (inputs : gmap (list ascii) V) (env : Env) : Env := fun n => default (env n) (inputs !! n).
Definition run_activations (step : Env -> Env) (env : Env) (inputs : list (gmap (list ascii) V)) : Env := foldl (fun env i => step (drive i env)) env inputs.

Lemma apply_updates_app l l' env : apply_updates (l ++ l') env = apply_updates l' (apply_updates l env).
Proof. unfold apply_updates. by rewrite foldl_app. Qed.
Lemma apply_updates_other l env n : (forall v, (n, v) ∉ l) -> apply_updates l env n = env n.
Proof.
  revert env. induction l as [|[m v] l IH]; intros env H; [done|]. cbn. change (apply_updates l (assign m v env) n = env n). rewrite IH.
  - unfold assign. rewrite bool_decide_eq_false_2; [done|]. intros ->. by apply (H v), list_elem_of_here.
  - intros v' Hv. by apply (H v'), list_elem_of_further.
Qed.
Lemma apply_updates_agree l env env' n : env n = env' n -> apply_updates l env n = apply_updates l env' n.
Proof.
  revert env env'. induction l as [|[m v] l IH]; intros env env' H; [done|]. cbn. apply IH. unfold assign. by case_bool_decide.
Qed.
Lemma apply_updates_same l env n x : (exists v, (n, v) ∈ l) -> (forall v, (n, v) ∈ l -> v = x) -> apply_updates l env n = x.
Proof.
  revert env. induction l as [|[m v] l IH]; intros env [u Hu] H; [by apply elem_of_nil in Hu|]. cbn. change (apply_updates l (assign m v env) n = x).
  destruct (existsb (fun u => bool_decide (u.1 = n)) l) eqn:Ee.
  - apply existsb_exists in Ee as ([m' v'] & Hin & Hm%bool_decide_eq_true_1). cbn in Hm. subst m'. apply IH; [exists v'; by apply list_elem_of_In|].
    intros v'' Hv''. apply H. by apply list_elem_of_further.
  - assert (Hn : forall v', (n, v') ∉ l).
    { intros v' Hv'. apply not_true_iff_false in Ee. apply Ee, existsb_exists. exists (n, v'). split; [by apply list_elem_of_In|by apply bool_decide_eq_true_2]. }
    rewrite apply_updates_other by done. apply elem_of_cons in Hu as [[= <- <-]|Hu]; [|by destruct (Hn u)].
    unfold assign. rewrite bool_decide_eq_true_2 by done. apply H, list_elem_of_here.
Qed.

(** * The loop over the assignments *)

Section process.
Context (variables : gset (list ascii)) (env : Env).

(** What an assignment must be to be scheduled. *)
Definition schedulable (a : Assignment) : Prop :=
  as_indices a = [] /\ exists e, as_value a = Some e /\ e_kind e = EName.
(** The operator of an assignment matches the class of its target. *)
Definition class_matches (a : Assignment) : Prop := is_variable (as_kind a) = one_of_names (nameKey (as_target a)) variables.

(** A source is no variable, or one that is retained. *)
Definition source_ok (s : SchedulerState) (n : list ascii) : Prop := n ∈ variables -> n ∈ retained s.
Definition local_now (s : SchedulerState) (n : list ascii) : V := env (default n (values s !! n)).

Record loop_inv (s : SchedulerState) (st : Activation) : Prop := {
  li_locals : forall n, n ∈ variables -> locals st n = local_now s n;
  li_pending : pending st = updates env (writes (result s));
  li_values : forall n src, values s !! n = Some src -> source_ok s src;
  li_retained : retained s ⊆ variables;
  li_writes : forall w, w ∈ writes (result s) -> sw_target w ∉ variables /\ source_ok s (sw_source w);
  li_names : retainedVariables (result s) = [] }.

Lemma resolveSource_ok s st src src' s' : loop_inv s st -> resolveSource variables src s = (src', s') ->
  loop_inv s' st /\ source_ok s' src' /\ value_of variables env st src = env src'.
Proof.
  intros Hi. unfold resolveSource, value_of. destruct (one_of_names src variables) eqn:Ev.
  - apply bool_decide_eq_true_1 in Ev. rewrite (li_locals _ _ Hi src Ev). unfold local_now. destruct (values s !! src) as [x|] eqn:Ex; intros [= <- <-].
    + split; [done|]. split; [by eapply li_values|done].
    + split; [|split; [intros _; cbn; set_solver|done]]. destruct Hi as [H1 H2 H3 H4 H5 H6]. unfold source_ok in *. constructor; cbn; try done; unfold source_ok; cbn.
      * intros n y Hy Hv. specialize (H3 n y Hy Hv). set_solver.
      * set_solver.
      * intros w Hw. destruct (H5 w Hw) as [Ht Hs]. split; [done|]. intros Hv. specialize (Hs Hv). set_solver.
  - apply bool_decide_eq_false_1 in Ev. intros [= <- <-]. split; [done|]. split; [by intros H|done].
Qed.

Definition final_diagnostics (next : SchedulerState + ScheduleResult) : list AnalysisDiagnostic :=
  match next with inl s => s_diagnostics (result s) | inr r => s_diagnostics r end.

Lemma resolveSource_result src s src' s' : resolveSource variables src s = (src', s') -> result s' = result s /\ values s' = values s.
Proof. unfold resolveSource. intros H. repeat case_match; by simplify_eq. Qed.

Lemma scheduleAssignment_grows s a next : scheduleAssignment variables s a = Ret next -> s_diagnostics (result s) `prefix_of` final_diagnostics next.
Proof.
  unfold scheduleAssignment. destruct (nonempty (as_indices a)); [intros [= <-]; by apply prefix_app_r|]. destruct (as_value a) as [e|]; [|done].
  destruct (negb (is_kind EName e)); [intros [= <-]; by apply prefix_app_r|].
  destruct (resolveSource variables (expressionName e) s) as [src s'] eqn:Er. apply resolveSource_result in Er as [Er _].
  destruct (as_kind a); intros [= <-]; cbn; by rewrite Er.
Qed.
Lemma scheduleAssignments_grow l : forall s next, scheduleAssignments variables s l = Ret next -> s_diagnostics (result s) `prefix_of` final_diagnostics next.
Proof.
  induction l as [|a l IH]; intros s next; cbn [scheduleAssignments]; [by intros [= <-]|].
  intros (s1 & E1 & E2)%bind_Ret. apply scheduleAssignment_grows in E1. destruct s1 as [s1|r1]; [|by injection E2 as <-].
  etransitivity; [exact E1|by apply IH].
Qed.

(** Whether a value reads, or the target sets, a name. *)
Definition reads (n : list ascii) (a : Assignment) : Prop := exists e, as_value a = Some e /\ expressionName e = n.
Definition sets (n : list ascii) (a : Assignment) : Prop := as_kind a = VariableAssignment /\ nameKey (as_target a) = n.
(** A variable that is read before the assignments set it. *)
Definition read_first (l : list Assignment) (n : list ascii) : Prop :=
  n ∈ variables /\ exists before a after, l = before ++ a :: after /\ reads n a /\ Forall (fun b => ~ sets n b) before.
Lemma read_first_cons a l n : read_first (a :: l) n <-> n ∈ variables /\ (reads n a \/ ~ sets n a /\ read_first l n).
Proof.
  split.
  - intros (Hn & before & b & after & E & Hr & Hb). split; [done|]. destruct before as [|c before]; injection E as -> ->; [by left|]. right.
    apply Forall_cons in Hb as [Hc Hb]. split; [done|]. split; [done|]. by exists before, b, after.
  - intros [Hn [Hr|(Hs & _ & before & b & after & -> & Hr & Hb)]]; (split; [done|]); [by exists [], a, l|].
    exists (a :: before), b, after. split; [done|]. split; [done|]. by constructor.
Qed.

Lemma scheduleAssignment_ok s st a next : loop_inv s st -> class_matches a -> scheduleAssignment variables s a = Ret next -> final_diagnostics next = [] ->
  exists s', next = inl s' /\ schedulable a /\ loop_inv s' (execute variables env st a) /\
    (forall n, n ∈ retained s' <-> n ∈ retained s \/ n ∈ variables /\ values s !! n = None /\ reads n a) /\
    (forall n, values s' !! n = None <-> values s !! n = None /\ ~ sets n a).
Proof.
  intros Hi Hc. unfold scheduleAssignment, schedulable, execute. destruct (as_indices a) as [|i l]; cbn [nonempty].
  2: { intros [= <-] Hd. by apply app_nil in Hd as [_ Hd]. }
  destruct (as_value a) as [e|] eqn:Ev; [|done]. unfold is_kind. destruct (decide (e_kind e = EName)) as [Ek|Ek].
  2: { rewrite bool_decide_eq_false_2 by done. intros [= <-] Hd. by apply app_nil in Hd as [_ Hd]. }
  rewrite bool_decide_eq_true_2 by done. cbn [negb]. destruct (resolveSource variables (expressionName e) s) as [src s'] eqn:Er.
  destruct (resolveSource_ok _ _ _ _ _ Hi Er) as (Hi' & Hs & ->). destruct (resolveSource_result _ _ _ _ Er) as [Hd Hv].
  assert (Hr : forall n, n ∈ retained s' <-> n ∈ retained s \/ n ∈ variables /\ values s !! n = None /\ reads n a).
  { intros n. unfold reads. rewrite Ev. unfold resolveSource, one_of_names in Er. case_bool_decide as Hin; [destruct (values s !! expressionName e) eqn:Ex|];
      injection Er as <- <-; cbn; [|set_unfold|]; naive_solver. }
  unfold class_matches in Hc. destruct (as_kind a) eqn:Ekind; intros [= <-] Hdiag; eexists; (split; [reflexivity|]); (split; [by eauto|]); cbn in Hc; symmetry in Hc;
    [apply bool_decide_eq_false_1 in Hc|apply bool_decide_eq_true_1 in Hc]; destruct Hi' as [H1 H2 H3 H4 H5 H6]; (split; [|split; [exact Hr|]]).
  - rewrite Hd in H2, H5, H6. constructor; cbn; rewrite ?Hd; try done.
    + rewrite H2. unfold updates. rewrite fmap_app. done.
    + intros w [Hw|Hw]%elem_of_app; [by apply H5|]. apply list_elem_of_singleton in Hw as ->. cbn. done.
  - intros n. cbn. rewrite Hv. unfold sets. rewrite Ekind. naive_solver.
  - rewrite Hd in H2, H5, H6. constructor; cbn; rewrite ?Hd; try done.
    + intros n Hn. unfold assign, local_now. cbn. destruct (decide (n = nameKey (as_target a))) as [->|Hne].
      * by rewrite bool_decide_eq_true_2, lookup_insert_eq.
      * rewrite bool_decide_eq_false_2, lookup_insert_ne by done. by apply H1.
    + intros n y Hy. apply lookup_insert_Some in Hy as [[-> ->]|[_ Hy]]; [done|by eapply H3].
  - intros n. cbn. rewrite Hv, lookup_insert_None. unfold sets. rewrite Ekind. naive_solver.
Qed.

Lemma scheduleAssignments_ok l : forall s st next, loop_inv s st -> Forall class_matches l -> scheduleAssignments variables s l = Ret next ->
  final_diagnostics next = [] ->
  exists s', next = inl s' /\ Forall schedulable l /\ loop_inv s' (foldl (execute variables env) st l) /\
    forall n, n ∈ retained s' <-> n ∈ retained s \/ values s !! n = None /\ read_first l n.
Proof.
  induction l as [|a l IH]; intros s st next Hi Hc; cbn [scheduleAssignments].
  - intros [= <-] Hd. exists s. split; [done|]. split; [done|]. split; [done|]. intros n. unfold read_first. split; [by left|].
    intros [|(_ & _ & [|b before] & a & after & [=] & _)]; done.
  - apply Forall_cons in Hc as [Ha Hl]. intros (s1 & E1 & E2)%bind_Ret Hd.
    assert (Hd1 : final_diagnostics s1 = []).
    { destruct s1 as [s1|r1]; [|by injection E2 as <-]. apply scheduleAssignments_grow in E2. rewrite Hd in E2. by apply prefix_nil_inv in E2. }
    destruct (scheduleAssignment_ok _ _ _ _ Hi Ha E1 Hd1) as (s1' & -> & Hs & Hi1 & Hr1 & Hv1).
    destruct (IH s1' _ next Hi1 Hl E2 Hd) as (s' & -> & Hf & Hi' & Hr'). exists s'. split; [done|]. split; [by constructor|]. split; [done|].
    intros n. rewrite Hr', Hr1, Hv1, read_first_cons. unfold read_first. naive_solver.
Qed.

(** ** The retained variables *)

Definition retained_write (s : SchedulerState) (name : Name) : list ScheduledWrite :=
  if one_of_names (nameKey name) (retained s) then
    match values s !! nameKey name with Some value => [mkWrite (nameKey name) value (n_span name) VariableAssignment] | None => [] end
  else [].

Lemma retainVariable_grows s r name : s_diagnostics r `prefix_of` s_diagnostics (retainVariable s r name).
Proof. unfold retainVariable. repeat case_match; cbn; first [done|by apply prefix_app_r]. Qed.
Lemma retainVariables_grow s names : forall r, s_diagnostics r `prefix_of` s_diagnostics (foldl (retainVariable s) r names).
Proof. induction names as [|n l IH]; intros r; cbn; [done|]. etransitivity; [apply (retainVariable_grows s r n)|apply IH]. Qed.

Lemma retainVariable_ok s r name : s_diagnostics (retainVariable s r name) = [] ->
  writes (retainVariable s r name) = writes r ++ retained_write s name /\
  (forall n, n ∈ retainedVariables (retainVariable s r name) <-> n ∈ retainedVariables r \/ n = nameKey name /\ n ∈ retained s) /\
  (nameKey name ∈ retained s -> exists value, values s !! nameKey name = Some value /\ value ∉ retained s).
Proof.
  unfold retainVariable, retained_write, one_of_names. case_bool_decide as Hin; cbn [negb].
  2: { intros _. rewrite app_nil_r. naive_solver. }
  destruct (values s !! nameKey name) as [value|]; [|by intros [_ ?]%app_nil].
  case_bool_decide as Hret; cbn; [by intros [_ ?]%app_nil|]. intros _. split; [done|]. split; [intros n; set_solver|]. by eauto.
Qed.
Lemma retainVariables_ok s names : forall r, s_diagnostics (foldl (retainVariable s) r names) = [] ->
  writes (foldl (retainVariable s) r names) = writes r ++ mjoin (retained_write s <$> names) /\
  (forall n, n ∈ retainedVariables (foldl (retainVariable s) r names) <-> n ∈ retainedVariables r \/ n ∈ nameKey <$> names /\ n ∈ retained s) /\
  forall name, name ∈ names -> nameKey name ∈ retained s -> exists value, values s !! nameKey name = Some value /\ value ∉ retained s.
Proof.
  induction names as [|name names IH]; intros r; cbn [foldl].
  - intros _. split; [by rewrite app_nil_r|]. split; [set_solver|]. by intros name Hn%elem_of_nil.
  - intros Hd. destruct (IH _ Hd) as (Hw & Hr & Hv). pose proof (retainVariables_grow s names (retainVariable s r name)) as Hp. rewrite Hd in Hp.
    apply prefix_nil_inv in Hp. destruct (retainVariable_ok _ _ _ Hp) as (Hw1 & Hr1 & Hv1). split; [by rewrite Hw, Hw1, <- app_assoc|].
    split; [intros n; rewrite Hr, Hr1; set_solver|]. intros name' [->|Hn]%elem_of_cons; auto.
Qed.
End process.

(** * An activation *)

Lemma loop_inv_start variables env : loop_inv variables env (mkScheduler ∅ ∅ (mkSchedule [] [] [])) (mkActivation env []).
Proof. constructor; cbn; try done; set_solver. Qed.

(** What a schedule without diagnostics comes from. *)
Lemma schedule_inv process r env : schedule process = Ret r -> s_diagnostics r = [] -> Forall (class_matches (process_variables process)) (pr_assignments process) ->
  exists s, loop_inv (process_variables process) env s (foldl (execute (process_variables process) env) (mkActivation env []) (pr_assignments process)) /\
    Forall schedulable (pr_assignments process) /\ (forall n, n ∈ retained s <-> read_first (process_variables process) (pr_assignments process) n) /\
    writes r = writes (result s) ++ mjoin (retained_write s <$> variable_names process) /\ (forall n, n ∈ retainedVariables r <-> n ∈ retained s) /\
    forall n, n ∈ retained s -> exists value, values s !! n = Some value /\ value ∉ retained s.
Proof.
  unfold schedule. destruct (_ || _); [by intros [= <-]|]. intros (next & E & En)%bind_Ret Hd Hc.
  assert (Hn : final_diagnostics next = [] /\ exists s, next = inl s /\ r = foldl (retainVariable s) (result s) (variable_names process)).
  { destruct next as [s|r'].
    - pose proof (retainVariables_grow s (variable_names process) (result s)) as Hg. unfold schedule_has_errors in En. revert En.
      destruct (s_diagnostics (foldl (retainVariable s) (result s) (variable_names process))) as [|d l] eqn:Ed; intros [= <-]; [|done].
      apply prefix_nil_inv in Hg. by eauto.
    - injection En as <-. destruct (scheduleAssignments_ok _ env _ _ _ _ (loop_inv_start _ env) Hc E Hd) as (s & [=] & _). }
  destruct Hn as (Hf & s & -> & ->). destruct (scheduleAssignments_ok _ env _ _ _ _ (loop_inv_start _ env) Hc E Hf) as (s' & [= <-] & Hs & Hi & Hr).
  destruct (retainVariables_ok _ _ _ Hd) as (Hw & Hrv & Hv). exists s. split; [exact Hi|]. split; [done|].
  assert (Hin : forall n, n ∈ retained s -> n ∈ nameKey <$> variable_names process).
  { intros n Hn. apply (li_retained _ _ _ _ Hi) in Hn. unfold process_variables in Hn. by apply elem_of_list_to_set in Hn. }
  split; [intros n; rewrite Hr; set_solver|]. split; [done|]. split.
  - intros n. rewrite Hrv, (li_names _ _ _ _ Hi). specialize (Hin n). set_solver.
  - intros n Hn. destruct (proj1 (list_elem_of_fmap _ _ _) (Hin n Hn)) as (name & -> & Hname). by apply Hv.
Qed.

(** Whatever the process, its schedule or the complaints about it are defined. *)
Definition valued (a : Assignment) : Prop := as_value a <> None.
Lemma scheduleAssignments_return variables l : Forall valued l -> forall s, exists next, scheduleAssignments variables s l = Ret next.
Proof.
  induction 1 as [|a l Ha Hl IH]; intros s; cbn [scheduleAssignments]; [by eauto|]. unfold valued in Ha.
  assert (Hone : exists next, scheduleAssignment variables s a = Ret next).
  { unfold scheduleAssignment. destruct (nonempty (as_indices a)); [by eauto|]. destruct (as_value a) as [e|]; [|done].
    destruct (negb (is_kind EName e)); [by eauto|]. destruct (resolveSource _ _ _). by eauto. }
  destruct Hone as [[s'|r] ->]; cbn [mbind outcome_bind]; [apply IH|by eauto].
Qed.
Lemma schedule_returns process : Forall valued (pr_assignments process) -> exists r, schedule process = Ret r.
Proof.
  intros H. unfold schedule. destruct (_ || _); [by eauto|].
  destruct (scheduleAssignments_return (process_variables process) _ H (mkScheduler ∅ ∅ (mkSchedule [] [] []))) as [[s|r] ->]; cbn [mbind outcome_bind]; by eauto.
Qed.

(** Everything but the variables that are not kept. *)
Definition agree (process : ClockedProcess) (r : ScheduleResult) (env env' : Env) : Prop :=
  forall n, (n ∈ process_variables process -> n ∈ retainedVariables r) -> env n = env' n.

Lemma activation_refined process r env env' : schedule process = Ret r -> s_diagnostics r = [] ->
  Forall (class_matches (process_variables process)) (pr_assignments process) -> agree process r env env' ->
  agree process r (activate process env) (perform (writes r) env').
Proof.
  intros Es Hd Hc Ha. destruct (schedule_inv process r env Es Hd Hc) as (s & [Hl Hp Hv Hret Hw _] & _ & _ & Ew & Er & Hval).
  assert (Hsrc : forall src, source_ok (process_variables process) s src -> env' src = env src) by (intros src Hok; symmetry; apply Ha; rewrite Er; exact Hok).
  assert (Hvar : forall w, w ∈ mjoin (retained_write s <$> variable_names process) -> sw_target w ∈ retained s /\ values s !! sw_target w = Some (sw_source w)).
  { intros w (l & Hin & (name & -> & Hname)%list_elem_of_fmap)%list_elem_of_join. unfold retained_write, one_of_names in Hin. case_bool_decide; [|by apply elem_of_nil in Hin].
    destruct (values s !! nameKey name) eqn:Ev; [|by apply elem_of_nil in Hin]. by apply list_elem_of_singleton in Hin as ->. }
  intros n Hn. unfold activate, perform. rewrite Ew. unfold updates at 1. rewrite fmap_app, apply_updates_app. unfold one_of_names. case_bool_decide as Hin.
  - specialize (Hn Hin). rewrite Er in Hn. destruct (Hval n Hn) as (value & Evalue & Hnv). rewrite (Hl n Hin). unfold local_now. rewrite Evalue. cbn [default].
    symmetry. apply apply_updates_same.
    + exists (env' value). apply list_elem_of_fmap.
      pose proof (Hret n Hn) as Hpv. unfold process_variables in Hpv. apply elem_of_list_to_set, list_elem_of_fmap in Hpv as (name & -> & Hname).
      exists (mkWrite (nameKey name) value (n_span name) VariableAssignment). split; [done|]. apply list_elem_of_join. exists (retained_write s name).
      split; [|by apply list_elem_of_fmap_2]. unfold retained_write, one_of_names. rewrite bool_decide_eq_true_2, Evalue by done. by apply list_elem_of_singleton.
    + intros v (w & [= -> ->] & Hwin)%list_elem_of_fmap. destruct (Hvar w Hwin) as [_ E]. rewrite E in Evalue. injection Evalue as <-. apply Hsrc. by eapply Hv.
  - rewrite Hp. rewrite (apply_updates_other (_ <$> mjoin _)).
    2: { intros v (w & [= -> ->] & Hwin)%list_elem_of_fmap. destruct (Hvar w Hwin) as [Ht _]. by apply Hin, Hret. }
    assert (Hu : updates env (writes (result s)) = updates env' (writes (result s))).
    { apply list_fmap_ext. intros i w Hi. f_equal. symmetry. apply Hsrc. eapply Hw. by eapply list_elem_of_lookup_2. }
    rewrite Hu. unfold updates. apply apply_updates_agree. by apply Ha.
Qed.

Lemma run_refined process r inputs : schedule process = Ret r -> s_diagnostics r = [] ->
  Forall (class_matches (process_variables process)) (pr_assignments process) -> forall env env', agree process r env env' ->
  agree process r (run_activations (activate process) env inputs) (run_activations (perform (writes r)) env' inputs).
Proof.
  intros Es Hd Hc. induction inputs as [|i inputs IH]; intros env env' Ha; [done|]. cbn. apply IH, activation_refined; try done.
  intros n Hn. unfold drive. by rewrite (Ha n Hn).
Qed.
End semantics.
