(* ===== verification/VhdlDesigns.v ===== *)
(** The designs that the VHDL analyzer accepts: what a design file is when the
    analysis has no complaint, in terms of names, types and values. *)
From S2P Require Import Prelude Store VhdlLexer VhdlSyntax VhdlParser VhdlTypes VhdlTypeProofs VhdlChecker VhdlCheckerProofs VhdlAnalyzer VhdlSchedule.
Local Open Scope nat_scope.

(** * Files on which the analysis is defined *)

(** The operands that the analyzer reads are there. *)
Definition value_complete (a : Assignment) : bool := match as_value a with Some e => complete e | None => false end.
Definition concurrent_complete (a : Assignment) : bool := negb (is_none (as_selector a)) || nonempty (as_indices a) || value_complete a.
Definition sequential_complete (a : Assignment) : bool := nonempty (as_indices a) || value_complete a.
Definition structured (p : ClockedProcess) : bool := pr_combinational p || nonempty (pr_sensitivityList p).
Definition process_complete (p : ClockedProcess) : bool :=
  structured p || forallb sequential_complete (pr_assignments p) && forallb sequential_complete (pr_resetAssignments p).
Definition instance_complete (i : EntityInstantiation) : bool := forallb (fun a => negb (is_none (ga_actual a))) (ei_generics i).
Definition architecture_complete (a : ArchitectureBody) : bool :=
  forallb concurrent_complete (ab_assignments a) && forallb process_complete (ab_processes a) && forallb instance_complete (ab_instantiations a).
Definition file_complete (d : DesignFile) : bool := forallb architecture_complete (df_architectures d).

(** * Contexts *)

(** The name of a package of library ieee that a clause makes visible. *)
Definition ieee_package (clause : UseClause) : option (list ascii) :=
  match us_selectedName clause with
  | [library; package; suffix] => if key_is library "ieee" && key_is suffix "all" then Some (nameKey package) else None
  | _ => None
  end.
Definition imports (context : ContextClause) (package : string) : bool := existsb (fun clause => bool_decide (ieee_package clause = Some (chars package))) (cx_uses context).
Definition visible (context : ContextClause) : Visibility := mkVisibility (imports context "std_logic_1164") (imports context "numeric_std").
(** Every use clause names a known package of ieee, and the library is declared. *)
Definition context_ok (context : ContextClause) : Prop :=
  Forall (fun clause => exists p, ieee_package clause = Some p /\ p ∈ chars <$> ["std_logic_1164"; "numeric_std"; "math_real"]%string /\
    chars "ieee" ∈ library_names context) (cx_uses context).

(** * Entities *)

(** The type a declaration gives; always defined when the values have 64 bits. *)
Definition type_of (type : TypeMark) (visibility : Visibility) (values : GenericValues) : CheckedType :=
  match declarationType type visibility values with Ret t => t | _ => unknown end.
(** Two kinds of declaration: the names and the type mark. *)
Definition scope_of (names : list Name) (t : CheckedType) : list (list ascii * CheckedType) := (fun n => (nameKey n, t)) <$> names.

Definition generic_names (e : EntityDeclaration) : list (list ascii) := mjoin ((fun g => nameKey <$> ge_names g) <$> ed_generics e).
Definition port_names (e : EntityDeclaration) : list (list ascii) := mjoin ((fun p => nameKey <$> po_names p) <$> ed_ports e).
(** The names of generics with their declarations. *)
Definition generics_of (e : EntityDeclaration) : list (GenericDeclaration * Name) := mjoin ((fun g => pair g <$> ge_names g) <$> ed_generics e).

(** The values of the defaults, each evaluated with those before it. *)
Inductive default_values : list (GenericDeclaration * Name) -> GenericValues -> Prop :=
| defaults_nil : default_values [] ∅
| defaults_none l g n values : default_values l values -> ge_defaultValue g = None -> default_values (l ++ [(g, n)]) values
| defaults_some l g n values d z : default_values l values -> ge_defaultValue g = Some d -> denotes values d z -> outside_subtype (ge_type g) z = false ->
    default_values (l ++ [(g, n)]) (<[nameKey n:=z]> values).

Record entity_ok (e : EntityDeclaration) (values : GenericValues) : Prop := {
  eo_context : context_ok (ed_context e);
  eo_no_defaults : Forall (fun p => po_defaultValue p = None) (ed_ports e);
  eo_generics : Forall (fun g => number (c_kind (type_of (ge_type g) (visible (ed_context e)) ∅))) (ed_generics e);
  eo_values : default_values (generics_of e) values;
  eo_ports : Forall (fun p => c_kind (type_of (po_type p) (visible (ed_context e)) values) <> TUnknown) (ed_ports e);
  eo_names : NoDup (generic_names e ++ port_names e) }.

(** The declarations of an entity, and of the signals of an architecture. *)
Definition entity_scope (e : EntityDeclaration) (values : GenericValues) : list (list ascii * CheckedType) :=
  mjoin ((fun g => scope_of (ge_names g) (type_of (ge_type g) (visible (ed_context e)) ∅)) <$> ed_generics e) ++
  mjoin ((fun p => scope_of (po_names p) (type_of (po_type p) (visible (ed_context e)) values)) <$> ed_ports e).
Definition signal_scope (a : ArchitectureBody) (values : GenericValues) : list (list ascii * CheckedType) :=
  mjoin ((fun s => scope_of (ob_names s) (type_of (ob_type s) (visible (ab_context a)) values)) <$> ab_signals a).
Definition variable_scope (p : ClockedProcess) (visibility : Visibility) : list (list ascii * CheckedType) :=
  mjoin ((fun d => scope_of (ob_names d) (type_of (ob_type d) visibility ∅)) <$> pr_variables p).

(** * Statements *)

Definition declared_as (scope : list (list ascii * CheckedType)) (n : Name) (t : CheckedType) : Prop := (nameKey n, t) ∈ scope.
(** The value of an assignment has a type that matches, unless one of its
    operands is a character literal to which neither the target nor the operand
    beside it gives a type, as in a sum or on the left of [<] ([unresolved]): then
    the analyzer finds no type for the value, and does not complain. *)
Definition value_ok (scope : list (list ascii * CheckedType)) (visibility : Visibility) (t : CheckedType) (e : Expression) : Prop :=
  (exists u, typed (list_to_map scope) visibility e u /\ matching (shape t) u) \/ unresolved (list_to_map scope) visibility (c_kind t) e.

Definition concurrent_ok (scope : list (list ascii * CheckedType)) (visibility : Visibility) (a : Assignment) : Prop :=
  as_selector a = None /\ as_indices a = [] /\
  exists t e, declared_as scope (as_target a) t /\ as_value a = Some e /\ value_ok scope visibility t e.
Definition sequential_ok (scope : list (list ascii * CheckedType)) (variables : gset (list ascii)) (visibility : Visibility) (a : Assignment) : Prop :=
  as_indices a = [] /\ class_matches variables a /\
  exists t e, declared_as scope (as_target a) t /\ as_value a = Some e /\ value_ok scope visibility t e.

(** A clock, an enable or a reset. *)
Definition control_ok (scope : list (list ascii * CheckedType)) (n : Name) : Prop :=
  exists t, declared_as scope n t /\ (c_kind t = TBit \/ c_kind t = TStdLogic).
Definition all_ok {A} (P : A -> Prop) (o : option A) : Prop := match o with Some a => P a | None => True end.

Record process_ok (scope : list (list ascii * CheckedType)) (visibility : Visibility) (p : ClockedProcess) : Prop := {
  po_plain : structured p = false;
  po_variables : Forall (fun d => c_kind (type_of (ob_type d) visibility ∅) <> TUnknown) (pr_variables p);
  po_scope : NoDup (scope.*1 ++ (variable_scope p visibility).*1);
  po_clock : Forall (control_ok scope) [pr_sensitivity p; pr_eventSignal p; pr_levelSignal p];
  po_enable : all_ok (control_ok scope) (pr_enableSignal p);
  po_reset : all_ok (control_ok scope) (pr_resetSignal p);
  po_assignments : Forall (sequential_ok (scope ++ variable_scope p visibility) (process_variables p) visibility) (pr_assignments p);
  po_resets : Forall (sequential_ok (scope ++ variable_scope p visibility) (process_variables p) visibility) (pr_resetAssignments p) }.

(** * Instances *)

(** Where the value of a generic comes from: an actual, with the generics of the
    architecture, or the default, with the values given before. *)
Definition generic_source (outer : GenericValues) (i : EntityInstantiation) (values : GenericValues) (g : GenericDeclaration) (z : Z) : Prop :=
  (exists a actual, a ∈ ei_generics i /\ ga_actual a = Some actual /\ denotes outer actual z) \/
  (exists d before, ge_defaultValue g = Some d /\ before ⊆ values /\ denotes before d z).

Record instance_ok (syntax : DesignFile) (scope : list (list ascii * CheckedType)) (outer : GenericValues) (i : EntityInstantiation) : Prop := {
  io_library : nameKey (ei_library i) = chars "work";
  io_bound : exists model values, model ∈ df_entities syntax /\ nameKey (ed_name model) = nameKey (ei_entity i) /\
    Forall (fun gn => exists z, values !! nameKey gn.2 = Some z /\ outside_subtype (ge_type gn.1) z = false /\ generic_source outer i values gn.1 z) (generics_of model) /\
    (forall a formal, a ∈ ei_generics i -> ga_formal a = Some formal -> nameKey formal ∈ generic_names model) /\
    Forall2 (fun formal actual => exists t, declared_as scope actual t /\ matching (shape formal.2) (shape t))
      (mjoin ((fun p => scope_of (po_names p) (type_of (po_type p) (visible (ed_context model)) values)) <$> ed_ports model)) (ei_actuals i) }.

(** * Architectures and files *)

Record features_ok (a : ArchitectureBody) : Prop := {
  fo_functions : ab_functions a = [];
  fo_enumerations : ab_enumerationTypes a = [];
  fo_records : ab_recordTypes a = [];
  fo_constants : ab_constants a = [];
  fo_generates : ab_generates a = [];
  fo_components : ab_components a = [];
  fo_instances : Forall (fun i => instance_needs_elaboration i = false) (ab_instantiations a);
  fo_signals : Forall (fun s => ob_initializer s = None) (ab_signals a) }.

Record architecture_ok (syntax : DesignFile) (a : ArchitectureBody) : Prop := {
  ao_features : features_ok a;
  ao_context : context_ok (ab_context a);
  ao_body : exists e values, e ∈ df_entities syntax /\ nameKey (ed_name e) = nameKey (ab_entity a) /\ entity_ok e values /\
    let scope := entity_scope e values ++ signal_scope a values in
    NoDup scope.*1 /\ Forall (fun t => c_kind t <> TUnknown) scope.*2 /\
    NoDup ((fun i => nameKey (ei_label i)) <$> ab_instantiations a) /\
    Forall (instance_ok syntax scope values) (ab_instantiations a) /\
    Forall (concurrent_ok scope (visible (ab_context a))) (ab_assignments a) /\
    Forall (process_ok scope (visible (ab_context a))) (ab_processes a) }.

Record file_ok (d : DesignFile) : Prop := {
  do_packages : df_packages d = [];
  do_entities : Forall (fun e => exists values, entity_ok e values) (df_entities d);
  do_entity_names : NoDup ((fun e => nameKey (ed_name e)) <$> df_entities d);
  do_architectures : Forall (architecture_ok d) (df_architectures d);
  do_architecture_names : NoDup ((fun a => nameKey (ab_entity a) ++ [NUL] ++ nameKey (ab_name a)) <$> df_architectures d) }.
