(* ===== verification/VhdlAnalyzerProofs.v ===== *)
(** [Analyzer::analyze] step by step: it is defined on complete files, and a part
    it does not complain of is as [VhdlDesigns] says; then the whole of it. *)
From S2P Require Import Prelude Store VhdlLexer VhdlSyntax VhdlParser VhdlTypes VhdlTypeProofs VhdlChecker VhdlCheckerProofs VhdlAnalyzer VhdlSchedule VhdlDesigns.
Local Open Scope nat_scope.

(** * Lists and chains *)

Lemma Forall_zip_pairs {A B} (P : A * B -> Prop) (l : list A) : forall k, length l = length k -> Forall P (zip l k) -> Forall2 (fun x y => P (x, y)) l k.
Proof. induction l as [|x l IH]; intros [|y k] Hlen; cbn; [constructor|done|done|]. injection Hlen as Hlen. intros [Hx Hl]%Forall_cons. by constructor; auto. Qed.

Lemma forallb_Forall_true {A} (p : A -> bool) l : forallb p l = true <-> Forall (fun x => p x = true) l.
Proof. rewrite forallb_forall, Forall_forall. by setoid_rewrite list_elem_of_In. Qed.

Lemma chain_mono {A B} (R R' : B -> A -> B -> Prop) b l b' : (forall b x b', R b x b' -> R' b x b') -> chain R b l b' -> chain R' b l b'.
Proof. intros H. induction 1; econstructor; eauto. Qed.
Lemma chain_through {A B} (R : B -> A -> B -> Prop) b l1 b1 l2 b2 : chain R b l1 b1 -> chain R b1 l2 b2 -> chain R b (l1 ++ l2) b2.
Proof. induction 1; [done|]. intros H2. econstructor; eauto. Qed.
Lemma mjoin_cons {A} (x : list A) (l : list (list A)) : mjoin (x :: l) = x ++ mjoin l.
Proof. done. Qed.
Lemma chain_join {A B C} (R : B -> A -> B -> Prop) (f : C -> list A) b l b' : chain (fun b x b' => chain R b (f x) b') b l b' -> chain R b (mjoin (f <$> l)) b'.
Proof. induction 1; [constructor|]. cbn. by eapply chain_through. Qed.
Lemma chain_fmap {A B C} (R : B -> A -> B -> Prop) (f : C -> A) b l b' : chain (fun b x b' => R b (f x) b') b l b' -> chain R b (f <$> l) b'.
Proof. induction 1; [constructor|]. by econstructor. Qed.
Lemma chain_Forall {A B} (R : B -> A -> B -> Prop) (P : A -> Prop) b l b' : (forall b x b', R b x b' -> P x) -> chain R b l b' -> Forall P l.
Proof. intros H. induction 1; constructor; eauto. Qed.
(** A relation between states that composes. *)
Lemma chain_trans {A B} (R : B -> A -> B -> Prop) (S : B -> B -> Prop) b l b' : (forall b, S b b) -> (forall b x b1 b2, R b x b1 -> S b1 b2 -> S b b2) ->
  chain R b l b' -> S b b'.
Proof. intros H0 H1. induction 1; eauto. Qed.
Lemma numbered_from_snd {A} (l : list A) (f : nat -> nat) : (imap (fun i x => (f i, x)) l).*2 = l.
Proof. revert f. induction l as [|x l IH]; intros f; cbn; [done|]. f_equal. apply (IH (fun i => f (S i))). Qed.
Lemma numbered_snd {A} (l : list A) : (numbered l).*2 = l.
Proof. apply (numbered_from_snd l (fun i => i)). Qed.
Lemma Forall_numbered {A} (P : A -> Prop) (l : list A) : Forall P l <-> Forall (fun p : nat * A => P p.2) (numbered l).
Proof. rewrite <- (numbered_snd l) at 1. by rewrite Forall_fmap. Qed.
Lemma chain_numbered {A B} (R : B -> A -> B -> Prop) b (l : list A) b' : chain (fun b (p : nat * A) b' => R b p.2 b') b (numbered l) b' -> chain R b l b'.
Proof. intros H. rewrite <- (numbered_snd l). by apply chain_fmap. Qed.

(** ** Names that must be new *)

Definition fresh (S : gset (list ascii)) (k : list ascii) (S' : gset (list ascii)) : Prop := k ∉ S /\ S' = {[k]} ∪ S.
Lemma fresh_chain S l S' : chain fresh S l S' -> NoDup l /\ (forall k, k ∈ l -> k ∉ S) /\ S' = list_to_set l ∪ S.
Proof.
  induction 1 as [S|S k S1 l S' [Hk ->] _ (Hn & Hd & ->)]; [split; [constructor|]; split; [set_solver|]; set_solver|].
  split; [constructor; [|done]; intros Hin; specialize (Hd k Hin); set_solver|]. split; [|set_solver].
  intros k' [->|Hin]%elem_of_cons; [done|]. specialize (Hd k' Hin). set_solver.
Qed.

(** ** Declarations *)

Definition declare (m : gmap (list ascii) CheckedType) (d : list ascii * CheckedType) (m' : gmap (list ascii) CheckedType) : Prop := m !! d.1 = None /\ m' = <[d.1:=d.2]> m.
Lemma emplace_new {V} (k : list ascii) (v : V) (m : gmap (list ascii) V) : m !! k = None -> emplace k v m = <[k:=v]> m.
Proof. unfold emplace. by intros ->. Qed.
Lemma mem_false {V} (k : list ascii) (m : gmap (list ascii) V) : mem k m = false <-> m !! k = None.
Proof. unfold mem. destruct (m !! k); naive_solver. Qed.

Lemma scope_fst names t : (scope_of names t).*1 = nameKey <$> names.
Proof. unfold scope_of. rewrite <- list_fmap_compose. done. Qed.
Lemma scopes_fst {A} (f : A -> list Name) (g : A -> CheckedType) l : (mjoin ((fun x => scope_of (f x) (g x)) <$> l)).*1 = mjoin ((fun x => nameKey <$> f x) <$> l).
Proof. induction l as [|x l IH]; [done|]. by rewrite !fmap_cons, !mjoin_cons, fmap_app, scope_fst, IH. Qed.
Lemma emplace_scope t names m : foldl (fun m n => emplace (nameKey n) t m) m names = foldl (fun m d => emplace d.1 d.2 m) m (scope_of names t).
Proof. unfold scope_of. by rewrite foldl_fmap. Qed.
(** Distinct new names are all declared. *)
Lemma emplace_all l : forall m : gmap (list ascii) CheckedType, NoDup l.*1 -> (forall k, k ∈ l.*1 -> m !! k = None) ->
  foldl (fun m d => emplace d.1 d.2 m) m l = list_to_map l ∪ m.
Proof.
  induction l as [|[k t] l IH]; intros m Hn Hm; [symmetry; apply (map_empty_union m)|]. cbn [foldl fst snd]. rewrite list_to_map_cons. cbn in Hn. apply NoDup_cons in Hn as [Hk Hn].
  rewrite emplace_new by (apply Hm; cbn; set_solver). rewrite IH; [|done|].
  - rewrite <- insert_union_r by (by apply not_elem_of_list_to_map_1). by rewrite insert_union_l.
  - intros k' Hk'. rewrite lookup_insert_ne by set_solver. apply Hm. cbn. set_solver.
Qed.
Lemma declare_chain m l m' : chain declare m l m' -> NoDup l.*1 /\ (forall k, k ∈ l.*1 -> m !! k = None) /\ m' = list_to_map l ∪ m.
Proof.
  induction 1 as [m|m [k t] m1 l m' [Hk ->] _ (Hn & Hd & ->)]; [split; [constructor|]; split; [set_solver|symmetry; apply (map_empty_union m)]|].
  rewrite list_to_map_cons. cbn in *.
  assert (Hnin : k ∉ l.*1) by (intros Hin; specialize (Hd k Hin); by rewrite lookup_insert_eq in Hd).
  split; [by constructor|]. split.
  - intros k' [->|Hin]%elem_of_cons; [done|]. specialize (Hd k' Hin). by apply lookup_insert_None in Hd as [Hd _].
  - rewrite <- insert_union_r by (by apply not_elem_of_list_to_map_1). by rewrite insert_union_l.
Qed.

(** * Types and contexts *)

Lemma resolveRange_defined range values : all_fit values -> exists o, resolveRange range values = Ret o.
Proof.
  intros Hv. unfold resolveRange. destruct (r_attribute range); [by eexists|]. destruct (r_leftExpression range) as [l|]; [|by eexists].
  destruct (r_rightExpression range) as [r|]; [|by eexists]. destruct (evaluate_spec values l Hv) as (a & -> & _), (evaluate_spec values r Hv) as (b & -> & _).
  cbn. destruct a, b; by eexists.
Qed.
Lemma declarationType_defined type visibility values : all_fit values -> declarationType type visibility values = Ret (type_of type visibility values).
Proof.
  intros Hv. unfold type_of, declarationType. destruct (t_constraint type) as [c|]; [|done]. by destruct (resolveRange_defined c values Hv) as [o ->].
Qed.
Lemma checks_type type visibility values (Q : CheckedType -> Prop) : all_fit values -> Q (type_of type visibility values) ->
  checks (lift (declarationType type visibility values)) (eq (type_of type visibility values)) Q.
Proof. intros Hv HQ. eapply checks_lift; [by apply declarationType_defined|done|done]. Qed.
Lemma all_fit_empty : all_fit ∅.
Proof. intros k z. by rewrite lookup_empty. Qed.
Lemma all_fit_insert k z values : fits64 z = true -> all_fit values -> all_fit (<[k:=z]> values).
Proof. intros Hz Hv k' z' [[_ <-]|[_ H]]%lookup_insert_Some; [done|by eapply Hv]. Qed.
Lemma all_fit_emplace k z values : fits64 z = true -> all_fit values -> all_fit (emplace k z values).
Proof. intros Hz Hv. unfold emplace. destruct (values !! k); [done|by apply all_fit_insert]. Qed.
#[local] Hint Resolve all_fit_empty all_fit_insert all_fit_emplace : core.

(** Evaluating a static expression, and what its value is. *)
Lemma checks_evaluate e values : all_fit values ->
  checks (lift (evaluateInteger e values)) (fun o => forall z, o = Some z -> fits64 z = true /\ denotes values e z) any.
Proof.
  intros Hv. destruct (evaluate_spec values e Hv) as (o & E & Ho). eapply checks_lift; [exact E| |done].
  intros z Hz. apply Ho in Hz. split; [by eapply denotes_fits|done].
Qed.

Definition import_step (clause : UseClause) (v : Visibility) : Visibility :=
  mkVisibility (stdLogic1164 v || bool_decide (ieee_package clause = Some (chars "std_logic_1164")))
    (numericStd v || bool_decide (ieee_package clause = Some (chars "numeric_std"))).

Lemma analyzeUse_ok libraries v clause :
  checks (analyzeUse libraries v clause) any (fun v' => v' = import_step clause v /\
    exists p, ieee_package clause = Some p /\ p ∈ chars <$> ["std_logic_1164"; "numeric_std"; "math_real"]%string /\ chars "ieee" ∈ libraries).
Proof.
  assert (Hc : forall m sp (Q : Visibility -> Prop), checks (complain m sp ;; mret v) any Q).
  { intros m sp Q. eapply checks_after; [apply checks_complain|]. intros ? _. by apply checks_ret. }
  unfold analyzeUse, import_step, ieee_package. destruct (us_selectedName clause) as [|lib [|pkg [|sfx [|x rest]]]]; try apply Hc.
  unfold key_is. destruct (decide (nameKey sfx = chars "all")) as [Es|Es]; [|rewrite (bool_decide_eq_false_2 _ Es); apply Hc].
  rewrite (bool_decide_eq_true_2 _ Es). cbn [negb]. destruct (decide (nameKey lib ∈ libraries)) as [El|El]; [|rewrite (bool_decide_eq_false_2 _ El); apply Hc].
  rewrite (bool_decide_eq_true_2 _ El). cbn [negb]. destruct (decide (nameKey lib = chars "ieee")) as [Ei|Ei]; [|rewrite (bool_decide_eq_false_2 _ Ei); apply Hc].
  rewrite (bool_decide_eq_true_2 _ Ei), Ei in *. cbn [negb andb].
  assert (Hp : forall p v', nameKey pkg = p -> p ∈ chars <$> ["std_logic_1164"; "numeric_std"; "math_real"]%string ->
    v' = mkVisibility (stdLogic1164 v || bool_decide (Some p = Some (chars "std_logic_1164"))) (numericStd v || bool_decide (Some p = Some (chars "numeric_std"))) ->
    checks (mret v' : analysis Visibility) any (fun v' => v' = mkVisibility (stdLogic1164 v || bool_decide (Some (nameKey pkg) = Some (chars "std_logic_1164")))
      (numericStd v || bool_decide (Some (nameKey pkg) = Some (chars "numeric_std"))) /\
      exists p, Some (nameKey pkg) = Some p /\ p ∈ chars <$> ["std_logic_1164"; "numeric_std"; "math_real"]%string /\ chars "ieee" ∈ libraries)).
  { intros p v' -> Hin ->. apply checks_ret; [done|]. split; [done|]. by exists p. }
  destruct (bool_decide (nameKey pkg = chars "std_logic_1164")) eqn:E1;
    [apply bool_decide_eq_true_1 in E1; eapply Hp; [exact E1|set_solver|]; by destruct v as [[] []]|].
  destruct (bool_decide (nameKey pkg = chars "numeric_std")) eqn:E2;
    [apply bool_decide_eq_true_1 in E2; eapply Hp; [exact E2|set_solver|]; by destruct v as [[] []]|].
  destruct (bool_decide (nameKey pkg = chars "math_real")) eqn:E3;
    [apply bool_decide_eq_true_1 in E3; eapply Hp; [exact E3|set_solver|]; by destruct v as [[] []]|]. apply Hc.
Qed.

Lemma analyzeContext_ok context : checks (analyzeContext context) any (fun v => v = visible context /\ context_ok context).
Proof.
  unfold analyzeContext, context_ok. eapply checks_mono; [eapply (checks_fold_each _ any any); [done|by apply Forall_true|intros v c _ _; apply analyzeUse_ok]|done|].
  cbn beta. intros v' _ Hch. split.
  - unfold visible, imports. set (v := nothing_visible) in Hch. assert (Hv : forall v l v', chain (fun b x b' => b' = import_step x b /\
        exists p, ieee_package x = Some p /\ p ∈ chars <$> ["std_logic_1164"; "numeric_std"; "math_real"]%string /\ chars "ieee" ∈ library_names context) v l v' ->
      v' = mkVisibility (stdLogic1164 v || existsb (fun c => bool_decide (ieee_package c = Some (chars "std_logic_1164"))) l)
        (numericStd v || existsb (fun c => bool_decide (ieee_package c = Some (chars "numeric_std"))) l)).
    { clear. induction 1 as [b|b x b1 l b' [-> _] _ ->]; cbn [existsb]; [destruct b as [[] []]; reflexivity|]. unfold import_step. cbn. by rewrite !orb_assoc. }
    by rewrite (Hv _ _ _ Hch).
  - eapply chain_Forall; [|exact Hch]. intros b x b' [_ H]. exact H.
Qed.

(** * Entities *)

Definition values_inv (st : GenericValues * gset (list ascii)) : Prop := all_fit st.1 /\ dom st.1 ⊆ st.2.
Definition default_step (g : GenericDeclaration) (st : GenericValues * gset (list ascii)) (n : Name) (st' : GenericValues * gset (list ascii)) : Prop :=
  fresh st.2 (nameKey n) st'.2 /\
  (ge_defaultValue g = None /\ st'.1 = st.1 \/
   exists d z, ge_defaultValue g = Some d /\ denotes st.1 d z /\ outside_subtype (ge_type g) z = false /\ st'.1 = emplace (nameKey n) z st.1).

(** After a complaint nothing but the invariant is left to show. *)
Lemma checks_complain_ret {A} m sp (a : A) (I Q : A -> Prop) : I a -> checks (complain m sp ;; mret a) I Q.
Proof. intros HI. eapply checks_after; [apply checks_complain|]. intros ? _. by apply checks_ret. Qed.

Lemma declareGeneric_ok g st n : values_inv st -> checks (declareGeneric g st n) values_inv (default_step g st n).
Proof.
  destruct st as [values names]. intros [Hf Hd]. cbn in Hd. unfold declareGeneric, one_of_names. case_bool_decide as Hn; [by apply checks_complain_ret|].
  assert (Hi : values_inv (values, {[nameKey n]} ∪ names)) by (split; cbn; [done|set_solver]).
  destruct (ge_defaultValue g) as [d|] eqn:Eg.
  - eapply checks_bind; [by apply checks_evaluate|]. intros [z|] Hz; [|by apply checks_complain_ret]. destruct (Hz z eq_refl) as [Fz Dz].
    destruct (outside_subtype (ge_type g) z) eqn:Eo; [by apply checks_complain_ret|]. apply checks_ret.
    + split; cbn; [by apply all_fit_emplace|]. unfold emplace. destruct (values !! nameKey n); [set_solver|]. rewrite dom_insert_L. set_solver.
    + intros _. split; [by split|]. right. by exists d, z.
  - apply checks_ret; [done|]. split; [by split|]. by left.
Qed.

Lemma analyzeGeneric_ok visibility st g : values_inv st -> checks (analyzeGeneric visibility st g) values_inv (fun st' =>
  number (c_kind (type_of (ge_type g) visibility ∅)) /\ chain (default_step g) st (ge_names g) st').
Proof.
  intros Hi. unfold analyzeGeneric. eapply checks_bind; [by apply (checks_type _ _ _ any)|]. intros ? <-.
  eapply checks_bind; [apply checks_complain_if|]. intros ? _.
  eapply checks_mono; [eapply (checks_fold_each _ values_inv any); [done|by apply Forall_true|intros; by apply declareGeneric_ok]|done|].
  cbn beta. intros st' _ Hc Hk _. split; [|done]. apply isNumber_true. unfold isNumber. by destruct (is_type _ TInteger), (is_type _ TNatural).
Qed.

Lemma default_chain l : forall l0 st st', default_values l0 st.1 -> dom st.1 ⊆ st.2 ->
  chain (fun st (gn : GenericDeclaration * Name) st' => default_step gn.1 st gn.2 st') st l st' ->
  default_values (l0 ++ l) st'.1 /\ chain fresh st.2 (nameKey <$> l.*2) st'.2.
Proof.
  induction l as [|[g n] l IH]; intros l0 st st' Hd Hdom Hc; inversion Hc; subst; [rewrite app_nil_r; split; [done|constructor]|].
  match goal with H : default_step _ _ _ _ |- _ => destruct H as [Hf Hstep] end. cbn [fst snd] in *. pose proof Hf as [Hn Hs].
  assert (Hnone : st.1 !! nameKey n = None) by (apply not_elem_of_dom; set_solver).
  destruct (IH (l0 ++ [(g, n)]) b1 st') as [IH1 IH2]; [| |done|].
  - destruct Hstep as [[Hg ->]|(d & z & Hg & Hz & Ho & ->)]; [by apply defaults_none|]. rewrite emplace_new by done. by eapply defaults_some.
  - rewrite Hs. destruct Hstep as [[Hg ->]|(d & z & Hg & Hz & Ho & ->)]; [set_solver|]. rewrite emplace_new, dom_insert_L by done. set_solver.
  - rewrite <- app_assoc in IH1. split; [exact IH1|]. cbn. econstructor; [exact Hf|exact IH2].
Qed.

Lemma resolve_range_ok at_ type t : checks (resolve_range at_ type t) any any.
Proof. unfold resolve_range. destruct (t_constraint type), (c_range t); first [by apply checks_modify|by apply checks_ret]. Qed.

Lemma analyzePort_ok entity visibility values ports port : all_fit values ->
  checks (analyzePort entity visibility values ports port) any (fun ports' =>
    c_kind (type_of (po_type port.2) visibility values) <> TUnknown /\ chain fresh ports (nameKey <$> po_names port.2) ports').
Proof.
  intros Hv. unfold analyzePort. eapply checks_bind; [by apply (checks_type _ _ _ any)|]. intros ? <-.
  eapply checks_bind; [apply checks_complain_if|]. intros ? _. eapply checks_bind; [apply resolve_range_ok|]. intros ? _.
  eapply checks_mono; [eapply (checks_fold_each _ any any (fun S n S' => fresh S (nameKey n) S')); [done|by apply Forall_true|]|done|].
  - intros S n _ _. eapply checks_bind; [apply checks_complain_if|]. intros ? _. apply checks_ret; [done|]. intros Hn%bool_decide_eq_false_1. by split.
  - cbn beta. intros S' _ Hc _ Hk _. split; [by apply is_type_false|]. by apply chain_fmap.
Qed.

Section entities.
Context (syntax : DesignFile).

Record table_inv (t : EntityTable) : Prop := {
  ti_entities : forall n i, entities t !! n = Some i -> is_Some (df_entities syntax !! i) /\ is_Some (entityVisibility t !! i) /\ is_Some (entityDefaults t !! i);
  ti_defaults : forall i v, entityDefaults t !! i = Some v -> all_fit v }.

(** An entity that is added. *)
Definition entity_step (t : EntityTable) (p : nat * EntityDeclaration) (t' : EntityTable) : Prop :=
  exists values, entity_ok p.2 values /\ entities t !! nameKey (ed_name p.2) = None /\
    t' = mkEntityTable (<[nameKey (ed_name p.2):=p.1]> (entities t)) (<[p.1:=visible (ed_context p.2)]> (entityVisibility t)) (<[p.1:=values]> (entityDefaults t)).

Lemma generics_of_names e : nameKey <$> (generics_of e).*2 = generic_names e.
Proof.
  unfold generics_of, generic_names. induction (ed_generics e) as [|g l IH]; [done|]. rewrite !fmap_cons, !mjoin_cons, !fmap_app, IH. f_equal.
  rewrite <- !list_fmap_compose. done.
Qed.

Lemma analyzeEntity_ok t i e : table_inv t -> df_entities syntax !! i = Some e -> checks (analyzeEntity t (i, e)) table_inv (entity_step t (i, e)).
Proof.
  intros [Ht1 Ht2] Hi. unfold analyzeEntity.
  eapply checks_bind; [apply (checks_for_each _ any (fun p => po_defaultValue p = None)); [by apply Forall_true|]|].
  { intros p _. eapply checks_mono; [apply checks_complain_if|done|]. intros ? _ Hp%negb_false_iff. by apply is_none_true. }
  intros ? _. eapply checks_bind; [apply analyzeContext_ok|]. intros visibility _. eapply checks_bind; [apply checks_complain_if|]. intros ? _.
  eapply checks_bind; [eapply (checks_fold_each _ values_inv any); [split; cbn; [done|set_solver]|by apply Forall_true|intros; by apply analyzeGeneric_ok]|].
  intros [values names] [Hf Hdom]. cbn [fst snd] in Hf, Hdom.
  eapply checks_bind; [eapply (checks_fold_each _ any any); [done|by apply Forall_true|intros; by apply analyzePort_ok]|]. intros ports _. apply checks_ret.
  - constructor; cbn.
    + intros n j. unfold emplace. destruct (entities t !! nameKey (ed_name e)) as [j'|] eqn:Ee.
      * intros Hn. destruct (Ht1 n j Hn) as (H1 & H2 & H3). split; [done|]. rewrite !lookup_insert_is_Some'. by split; right.
      * intros [[_ <-]|[_ Hn]]%lookup_insert_Some; [rewrite Hi, !lookup_insert_eq; by eauto|].
        destruct (Ht1 n j Hn) as (H1 & H2 & H3). split; [done|]. rewrite !lookup_insert_is_Some'. by split; right.
    + intros j v [[_ <-]|[_ Hj]]%lookup_insert_Some; [done|by eapply Ht2].
  - intros Hports Hgen Hdup [-> Hcontext] Hnodef. apply mem_false in Hdup. exists values. split; [|split; [done|by rewrite emplace_new]].
    assert (Hd : default_values (generics_of e) values /\ chain fresh ∅ (generic_names e) names).
    { destruct (default_chain (generics_of e) [] (∅, ∅) (values, names)) as [Hd Hc]; [constructor|set_solver| |by rewrite generics_of_names in Hc].
      unfold generics_of. apply chain_join. eapply chain_mono; [|exact Hgen]. cbn beta. intros b g b' [_ Hc]. by apply chain_fmap. }
    destruct Hd as [Hd Hnames].
    assert (Hp : chain fresh names (port_names e) ports).
    { unfold port_names. apply chain_join, chain_numbered. eapply chain_mono; [|exact Hports]. intros b p b' [_ Hc]. exact Hc. }
    constructor; cbn; try done.
    + eapply chain_Forall; [|exact Hgen]. intros b g b' [Hk _]. exact Hk.
    + apply Forall_numbered. eapply chain_Forall; [|exact Hports]. intros b p b' [Hk _]. exact Hk.
    + destruct (fresh_chain _ _ _ (chain_through _ _ _ _ _ _ Hnames Hp)) as [Hnd _]. exact Hnd.
Qed.

(** The table holds the entities so far, by name and with their facts. *)
Definition entity_key (p : nat * EntityDeclaration) : list ascii := nameKey (ed_name p.2).
Record table_of (l : list (nat * EntityDeclaration)) (t : EntityTable) : Prop := {
  to_names : NoDup (entity_key <$> l);
  to_dom : forall n i, entities t !! n = Some i -> n ∈ entity_key <$> l;
  to_all : forall p, p ∈ l -> exists values, entity_ok p.2 values /\ entities t !! entity_key p = Some p.1 /\
    entityVisibility t !! p.1 = Some (visible (ed_context p.2)) /\ entityDefaults t !! p.1 = Some values;
  to_entries : forall n i, entities t !! n = Some i -> exists p, p ∈ l /\ p.1 = i /\ entity_key p = n }.

Lemma entity_step_table l t p t' : NoDup (p.1 :: l.*1) -> table_of l t -> entity_step t p t' -> table_of (l ++ [p]) t'.
Proof.
  intros [Hp Hl]%NoDup_cons [H1 H2 H3 H4] (values & Hok & Hnew & ->). fold (entity_key p) in *.
  assert (Hk : entity_key p ∉ entity_key <$> l).
  { intros (q & Eq & Hq)%list_elem_of_fmap. destruct (H3 q Hq) as (_ & _ & E & _). rewrite <- Eq, Hnew in E. done. }
  constructor; cbn.
  - rewrite fmap_app. apply NoDup_app. split; [done|]. split; [cbn; set_solver|cbn; apply NoDup_singleton].
  - intros n i. rewrite fmap_app. intros [[<- _]|[_ Hn]]%lookup_insert_Some; [cbn; set_solver|]. apply H2 in Hn. set_solver.
  - intros q [Hq|Hq]%elem_of_app; [|apply list_elem_of_singleton in Hq as ->].
    + destruct (H3 q Hq) as (v & Hv & E1 & E2 & E3). exists v. assert (Hne : p.1 <> q.1) by (intros E; apply Hp; rewrite E; by apply list_elem_of_fmap_2).
      rewrite !lookup_insert_ne; [done|done|done|]. intros E. apply Hk. rewrite E. by apply list_elem_of_fmap_2.
    + exists values. by rewrite !lookup_insert_eq.
  - intros n i [[<- <-]|[_ Hn]]%lookup_insert_Some; [exists p; set_solver|]. destruct (H4 n i Hn) as (q & Hq & E1 & E2). exists q. set_solver.
Qed.
Lemma entity_chain l : forall before t t', NoDup (before ++ l).*1 -> table_of before t -> chain entity_step t l t' -> table_of (before ++ l) t'.
Proof.
  induction l as [|p l IH]; intros before t t' Hn Ht Hc; inversion Hc; subst; [by rewrite app_nil_r|].
  change (p :: l) with ([p] ++ l) in *. rewrite app_assoc in *. eapply IH; [done| |done]. eapply entity_step_table; [|exact Ht|done].
  rewrite !fmap_app in Hn. apply NoDup_app in Hn as (Hn & _ & _). by rewrite Permutation_app_comm in Hn.
Qed.
Lemma NoDup_numbered {A} (l : list A) : NoDup (numbered l).*1.
Proof.
  assert (E : (numbered l).*1 = seq 0 (length l)).
  { unfold numbered. apply list_eq. intros i. rewrite list_lookup_fmap, list_lookup_imap.
    destruct (l !! i) as [x|] eqn:Ei; cbn; [rewrite lookup_seq_lt; [done|by eapply lookup_lt_Some]|].
    symmetry. apply lookup_ge_None. rewrite length_seq. by apply lookup_ge_None. }
  rewrite E. apply NoDup_seq.
Qed.
Lemma elem_of_numbered {A} (l : list A) i x : (i, x) ∈ numbered l <-> l !! i = Some x.
Proof.
  unfold numbered. rewrite list_elem_of_lookup. split.
  - intros [j Hj]. rewrite list_lookup_imap in Hj. destruct (l !! j) as [y|] eqn:Ej; [|done]. cbn in Hj. by injection Hj as -> ->.
  - intros Hi. exists i. rewrite list_lookup_imap, Hi. done.
Qed.

Lemma no_entities_inv : table_inv no_entities.
Proof. constructor; cbn; intros *; by rewrite lookup_empty. Qed.
Lemma entities_ok : checks (fold_each analyzeEntity no_entities (numbered (df_entities syntax))) table_inv (table_of (numbered (df_entities syntax))).
Proof.
  eapply checks_mono; [eapply (checks_fold_each _ table_inv (fun p => df_entities syntax !! p.1 = Some p.2) entity_step); [apply no_entities_inv| |]|done|].
  - apply Forall_forall. intros [i e] H. by apply elem_of_numbered in H.
  - intros t [i e] Ht Hi. by apply analyzeEntity_ok.
  - cbn beta. intros t _ Hc. apply (entity_chain _ [] no_entities); [apply NoDup_numbered| |done].
    constructor; cbn; [constructor| | |]; intros *; rewrite ?lookup_empty; set_solver.
Qed.
End entities.

(** * Assignments and processes *)

(** What the check of a value against its target shows. *)
Definition value_checked (m : Declarations) (visibility : Visibility) (t : CheckedType) (e : Expression) : Prop :=
  exists u, accepted m visibility e t u /\ (c_kind t <> TUnknown -> c_kind u <> TUnknown -> compatible t u = true).

Lemma complain_mismatch_ok t u sp : checks (complain_mismatch t u sp) any (fun _ => c_kind t <> TUnknown -> c_kind u <> TUnknown -> compatible t u = true).
Proof.
  unfold complain_mismatch. eapply checks_mono; [apply checks_complain_if|done|]. intros ? _ H Ht Hu.
  rewrite (proj2 (is_type_false _ _) Ht), (proj2 (is_type_false _ _) Hu) in H. cbn in H. by apply negb_false_iff in H.
Qed.
Lemma check_value_ok m visibility at_ t e sp : complete e = true ->
  checks (value ← checkExpression e m visibility at_ t; complain_mismatch t value sp) any (fun _ => value_checked m visibility t e).
Proof.
  intros He. eapply checks_bind; [by apply checkExpression_ok|]. intros u _. eapply checks_mono; [apply complain_mismatch_ok|done|]. intros ? _ H Ha. by exists u.
Qed.
Lemma value_complete_some a : value_complete a = true -> exists e, as_value a = Some e /\ complete e = true.
Proof. unfold value_complete. destruct (as_value a); [by eauto|done]. Qed.

Lemma checkAssignment_ok m visibility at_ a : concurrent_complete a = true ->
  checks (checkAssignment m visibility at_ a) any (fun _ => as_selector a = None /\ as_indices a = [] /\
    exists t e, m !! nameKey (as_target a) = Some t /\ as_value a = Some e /\ value_checked m visibility t e).
Proof.
  unfold concurrent_complete, checkAssignment. destruct (as_selector a) as [s|]; cbn [is_none negb orb]; [intros _; apply checks_complain|].
  destruct (as_indices a) as [|i l]; cbn [nonempty orb]; [|intros _; apply checks_complain]. intros (e & Ee & Ce)%value_complete_some. rewrite Ee.
  destruct (m !! nameKey (as_target a)) as [t|] eqn:Et.
  - apply (checks_bind _ _ (eq e) any); [by eapply checks_pointed|]. intros ? <-. eapply checks_mono; [by apply check_value_ok|done|].
    intros ? _ H _. split; [done|]. split; [done|]. by exists t, e.
  - eapply checks_after; [apply checks_complain|]. intros ? _. apply (checks_bind _ _ (eq e) any); [by eapply checks_pointed|]. intros ? <-.
    unfold ignore. eapply checks_bind; [by apply checkExpression_ok|]. intros u _. by apply checks_ret.
Qed.

Lemma checkProcessAssignment_ok m variables visibility at_ a : sequential_complete a = true ->
  checks (checkProcessAssignment m variables visibility at_ a) any (fun _ => as_indices a = [] /\ class_matches variables a /\
    exists t e, m !! nameKey (as_target a) = Some t /\ as_value a = Some e /\ value_checked m visibility t e).
Proof.
  unfold sequential_complete, checkProcessAssignment. destruct (as_indices a) as [|i l]; cbn [nonempty orb]; [|intros _; apply checks_complain].
  intros (e & Ee & Ce)%value_complete_some. rewrite Ee.
  eapply (checks_bind _ _ any (fun _ => class_matches variables a /\ exists t, m !! nameKey (as_target a) = Some t)).
  - destruct (m !! nameKey (as_target a)) as [t|]; [|apply checks_complain]. eapply checks_mono; [apply checks_complain_if|done|].
    intros ? _ H%negb_false_iff. split; [by apply Bool.eqb_prop in H|by eexists].
  - intros ? _. apply (checks_bind _ _ (eq e) any); [by eapply checks_pointed|]. intros ? <-. eapply checks_mono; [by apply check_value_ok|done|].
    intros ? _ H _ [Hc [t Ht]]. rewrite Ht in H. split; [done|]. split; [done|]. by exists t, e.
Qed.

Lemma checkControl_ok m what n : checks (checkControl m what n) any (fun _ => exists t, m !! nameKey n = Some t /\ (c_kind t = TBit \/ c_kind t = TStdLogic)).
Proof.
  unfold checkControl. destruct (m !! nameKey n) as [t|]; [|apply checks_complain]. eapply checks_mono; [apply checks_complain_if|done|].
  intros ? _ H. exists t. split; [done|]. destruct (is_type (c_kind t) TBit) eqn:E1; [left; by apply is_type_true|]. right. apply is_type_true. by destruct (is_type _ TStdLogic).
Qed.
Lemma checkOptionalControl_ok m what n :
  checks (checkOptionalControl m what n) any (fun _ => all_ok (fun n => exists t, m !! nameKey n = Some t /\ (c_kind t = TBit \/ c_kind t = TStdLogic)) n).
Proof. destruct n as [n|]; [apply checkControl_ok|by apply checks_ret]. Qed.

(** Variables are new, and shadow nothing. *)
Definition variable_step (declarations : Declarations) (t : CheckedType) (st : Declarations * gset (list ascii)) (n : Name) (st' : Declarations * gset (list ascii)) : Prop :=
  fresh st.2 (nameKey n) st'.2 /\ st'.1 = emplace (nameKey n) t st.1 /\ (st.1 !! nameKey n = None \/ declarations !! nameKey n = None).
Lemma declareVariables_ok visibility declarations st d :
  checks (declareVariables visibility declarations st d) any (fun st' => c_kind (type_of (ob_type d) visibility ∅) <> TUnknown /\
    chain (variable_step declarations (type_of (ob_type d) visibility ∅)) st (ob_names d) st').
Proof.
  unfold declareVariables. eapply checks_bind; [apply (checks_type _ _ _ any); [apply all_fit_empty|done]|]. intros ? <-. eapply checks_bind; [apply checks_complain_if|]. intros ? _.
  eapply checks_mono; [eapply (checks_fold_each _ any any (variable_step declarations (type_of (ob_type d) visibility ∅))); [done|by apply Forall_true|]|done|].
  - intros [m S] n _ _. eapply checks_bind; [apply checks_complain_if|]. intros ? _. eapply checks_bind; [apply checks_complain_if|]. intros ? _. apply checks_ret; [done|].
    intros H2 H1%bool_decide_eq_false_1. split; [by split|]. split; [done|]. cbn. apply andb_false_iff in H2. rewrite !mem_false in H2. exact H2.
  - cbn beta. intros st' _ Hc Hk _. split; [by apply is_type_false|done].
Qed.

(** All the variables of a process, over the declarations of the architecture. *)
Lemma variables_chain (m : Declarations) l st' : forall st, (forall k, k ∈ dom st.1 <-> k ∈ dom m \/ k ∈ st.2) ->
  chain (fun st (d : list ascii * CheckedType) st' => fresh st.2 d.1 st'.2 /\ st'.1 = emplace d.1 d.2 st.1 /\ (st.1 !! d.1 = None \/ m !! d.1 = None)) st l st' ->
  NoDup l.*1 /\ (forall k, k ∈ l.*1 -> st.1 !! k = None) /\ st'.1 = list_to_map l ∪ st.1 /\ st'.2 = list_to_set l.*1 ∪ st.2.
Proof.
  intros st Hdom Hc. assert (H : chain fresh st.2 l.*1 st'.2 /\ chain declare st.1 l st'.1).
  { revert Hdom. induction Hc as [st|st [k t] st1 l st' (Hf & He & Hn) _ IH]; [split; constructor|]. cbn [fst snd] in *. intros Hdom. pose proof Hf as [Hk Hs].
    assert (Hnone : st.1 !! k = None).
    { destruct Hn as [|Hn]; [done|]. apply not_elem_of_dom. rewrite Hdom. intros [Hin|]; [|done]. by apply not_elem_of_dom in Hn. }
    destruct IH as [IH1 IH2].
    - intros k'. rewrite He, emplace_new, dom_insert by done. rewrite Hs. specialize (Hdom k'). set_solver.
    - split; [by econstructor|]. econstructor; [|done]. split; [done|]. by rewrite He, emplace_new. }
  destruct H as [H1 H2]. apply fresh_chain in H1 as (Hn & _ & ->). apply declare_chain in H2 as (_ & Hd & ->). done.
Qed.

Lemma variable_scope_names p visibility : (variable_scope p visibility).*1 = nameKey <$> variable_names p.
Proof.
  unfold variable_scope, variable_names. rewrite scopes_fst. induction (pr_variables p) as [|d l IH]; [done|]. by rewrite !fmap_cons, !mjoin_cons, fmap_app, IH.
Qed.
Lemma process_variables_scope p visibility : process_variables p = list_to_set (variable_scope p visibility).*1.
Proof. unfold process_variables. by rewrite (variable_scope_names p visibility). Qed.

(** What the analysis of a process shows, over the declarations [m]. *)
Definition sequential_checked (m : Declarations) (variables : gset (list ascii)) (visibility : Visibility) (a : Assignment) : Prop :=
  as_indices a = [] /\ class_matches variables a /\ exists t e, m !! nameKey (as_target a) = Some t /\ as_value a = Some e /\ value_checked m visibility t e.
Definition control_checked (m : Declarations) (n : Name) : Prop := exists t, m !! nameKey n = Some t /\ (c_kind t = TBit \/ c_kind t = TStdLogic).
Record process_checked (m : Declarations) (visibility : Visibility) (p : ClockedProcess) : Prop := {
  pc_plain : structured p = false;
  pc_variables : Forall (fun d => c_kind (type_of (ob_type d) visibility ∅) <> TUnknown) (pr_variables p);
  pc_names : NoDup (variable_scope p visibility).*1;
  pc_new : forall k, k ∈ (variable_scope p visibility).*1 -> m !! k = None;
  pc_clock : Forall (control_checked m) [pr_sensitivity p; pr_eventSignal p; pr_levelSignal p];
  pc_enable : all_ok (control_checked m) (pr_enableSignal p);
  pc_reset : all_ok (control_checked m) (pr_resetSignal p);
  pc_assignments : Forall (sequential_checked (list_to_map (variable_scope p visibility) ∪ m) (process_variables p) visibility) (pr_assignments p);
  pc_resets : Forall (sequential_checked (list_to_map (variable_scope p visibility) ∪ m) (process_variables p) visibility) (pr_resetAssignments p) }.

Lemma checks_assignments m variables visibility (at_ : nat -> site) l : forallb sequential_complete l = true ->
  checks (for_each (fun '(i, assignment) => checkProcessAssignment m variables visibility (at_ i) assignment) (numbered l)) any
    (fun _ => Forall (sequential_checked m variables visibility) l).
Proof.
  intros Hl. eapply checks_mono; [apply (checks_for_each _ (fun p : nat * Assignment => sequential_complete p.2 = true) (fun p => sequential_checked m variables visibility p.2))|done|].
  - apply (Forall_numbered (fun a => sequential_complete a = true)). by apply forallb_Forall_true.
  - intros [i a] Ha. by apply checkProcessAssignment_ok.
  - intros ? _ H. by apply (Forall_numbered (sequential_checked m variables visibility)).
Qed.

Lemma analyzeProcess_ok architecture visibility m p : process_complete p.2 = true ->
  checks (analyzeProcess architecture visibility m p) any (fun _ => process_checked m visibility p.2).
Proof.
  destruct p as [index p]. unfold process_complete, analyzeProcess. cbn [snd]. fold (structured p). destruct (structured p) eqn:Es; [intros _; apply checks_complain|].
  cbn [orb]. intros [Ca Cr]%andb_true_iff.
  eapply checks_bind; [eapply (checks_fold_each _ any any); [done|by apply Forall_true|intros; by apply declareVariables_ok]|]. intros [locals variables] _.
  eapply checks_bind; [apply (checks_for_each _ any (control_checked m)); [by apply Forall_true|intros; apply checkControl_ok]|]. intros ? _.
  eapply checks_bind; [apply checkOptionalControl_ok|]. intros ? _. eapply checks_bind; [apply checkOptionalControl_ok|]. intros ? _.
  eapply checks_bind; [by apply checks_assignments|]. intros ? _. eapply checks_mono; [by apply checks_assignments|done|]. cbn beta.
  intros ? _ Hres Has Hreset Hen Hck Hvars.
  assert (Hv : Forall (fun d => c_kind (type_of (ob_type d) visibility ∅) <> TUnknown) (pr_variables p)) by (eapply chain_Forall; [|exact Hvars]; by intros b x b' [? _]).
  destruct (variables_chain m (variable_scope p visibility) (locals, variables) (m, ∅)) as (Hn & Hnew & Hloc & Hset); [cbn; set_solver| |].
  { unfold variable_scope. apply chain_join. eapply chain_mono; [|exact Hvars]. cbn beta. intros b d b' [_ Hc]. unfold scope_of. apply chain_fmap. exact Hc. }
  cbn [fst snd] in Hnew, Hloc, Hset. rewrite union_empty_r_L in Hset. rewrite <- process_variables_scope in Hset. subst locals variables.
  by constructor.
Qed.

(** * Instances *)

Lemma checks_map_at {V} (m : gmap nat V) k v : m !! k = Some v -> checks (map_at m k) (eq v) any.
Proof. unfold map_at. intros ->. by apply checks_ret. Qed.

Section instances.
Context (syntax : DesignFile) (table : EntityTable) (Htable : table_inv syntax table).
Context (iteration : gmap (list ascii) GenericAssociation -> list (list ascii * GenericAssociation)).
Context (Hiter : forall m, iteration m ≡ₚ map_to_list m).

Section instance.
Context (i : EntityInstantiation) (outer : GenericValues) (Hi : instance_complete i = true) (Houter : all_fit outer).

Record map_inv (g : GenericMap) : Prop := {
  mi_named : forall n a, namedActuals g !! n = Some a -> a ∈ ei_generics i /\ exists f, ga_formal a = Some f /\ nameKey f = n;
  mi_positional : forall a, a ∈ positionalActuals g -> a ∈ ei_generics i }.
Definition associate_step (g : GenericMap) (a : GenericAssociation) (g' : GenericMap) : Prop :=
  (forall f, ga_formal a = Some f -> is_Some (namedActuals g' !! nameKey f)) /\ dom (namedActuals g) ⊆ dom (namedActuals g').

Lemma associateGeneric_ok g a : map_inv g -> a ∈ ei_generics i -> checks (associateGeneric g a) map_inv (associate_step g a).
Proof.
  intros [Hn Hp] Ha. unfold associateGeneric, associate_step. destruct (ga_formal a) as [f|] eqn:Ef; (eapply checks_bind; [apply checks_complain_if|]); intros ? _.
  - apply checks_ret.
    + constructor; cbn; [|done]. intros n b. unfold emplace. destruct (namedActuals g !! nameKey f); [apply Hn|].
      intros [[<- <-]|[_ Hb]]%lookup_insert_Some; [by eauto|by apply Hn].
    + intros Hm%mem_false. cbn. rewrite emplace_new by done. split; [intros f' [= <-]; by rewrite lookup_insert_eq|]. rewrite dom_insert. set_solver.
  - apply checks_ret; [|done]. constructor; cbn; [done|]. intros b [Hb|Hb]%elem_of_app; [by apply Hp|]. by apply list_elem_of_singleton in Hb as ->.
Qed.
Lemma associated_formals l g g' : chain associate_step g l g' -> (forall a f, a ∈ l -> ga_formal a = Some f -> is_Some (namedActuals g' !! nameKey f)).
Proof.
  induction 1 as [g|g a g1 l g' [Hf Hd] Hc IH]; [by intros a f Ha%elem_of_nil|]. intros b f [->|Hb]%elem_of_cons Ef; [|by eapply IH].
  apply elem_of_dom. assert (Hsub : dom (namedActuals g1) ⊆ dom (namedActuals g')).
  { eapply (chain_trans associate_step (fun g g' => dom (namedActuals g) ⊆ dom (namedActuals g'))); [done| |exact Hc]. intros x y x1 x2 [_ H1] H2. set_solver. }
  apply Hsub, elem_of_dom, Hf, Ef.
Qed.

Definition value_step (b : GenericBinding) (gn : GenericDeclaration * Name) (b' : GenericBinding) : Prop :=
  formalGenericNames b' = {[nameKey gn.2]} ∪ formalGenericNames b /\
  exists z, outside_subtype (ge_type gn.1) z = false /\ bound b' = emplace (nameKey gn.2) z (bound b) /\
    ((exists a actual, a ∈ ei_generics i /\ ga_actual a = Some actual /\ denotes outer actual z) \/
     exists d, ge_defaultValue gn.1 = Some d /\ denotes (bound b) d z).

Lemma actual_there a : a ∈ ei_generics i -> exists actual, ga_actual a = Some actual.
Proof.
  intros Ha. unfold instance_complete in Hi. rewrite forallb_forall in Hi. specialize (Hi a (proj1 (list_elem_of_In _ _) Ha)).
  destruct (ga_actual a); [by eexists|done].
Qed.

Lemma bindGeneric_ok g gd b n : map_inv g -> all_fit (bound b) ->
  checks (bindGeneric outer g gd b n) (fun b' => all_fit (bound b')) (value_step b (gd, n)).
Proof.
  intros [Hn Hp] Hb. unfold bindGeneric.
  set (choice := match namedActuals g !! nameKey n with Some named => (Some named, positionalIndex b) | None => _ end).
  assert (Hc : forall a j, choice = (Some a, j) -> a ∈ ei_generics i).
  { intros a j. subst choice. destruct (namedActuals g !! nameKey n) as [x|] eqn:Ex; [intros [= <- _]; by apply (Hn _ _ Ex)|].
    destruct (positionalActuals g !! positionalIndex b) as [y|] eqn:Ey; [|done]. intros [= <- _]. apply Hp. by eapply list_elem_of_lookup_2. }
  destruct choice as [association j] eqn:Ec. clear Ec. eapply (checks_bind _ _ (fun p => forall z, p.1 = Some z -> fits64 z = true /\
    ((exists a actual, a ∈ ei_generics i /\ ga_actual a = Some actual /\ denotes outer actual z) \/ exists d, ge_defaultValue gd = Some d /\ denotes (bound b) d z)) any).
  - destruct association as [a|].
    + destruct (actual_there a (Hc a j eq_refl)) as [actual Ea]. apply (checks_bind _ _ (eq actual) any); [by eapply checks_pointed|]. intros ? <-.
      eapply checks_bind; [by apply checks_evaluate|]. intros o Ho. apply checks_ret; [|done]. intros z Hz. destruct (Ho z Hz) as [Fz Dz]. split; [done|]. left.
      exists a, actual. split; [by eapply Hc|done].
    + destruct (ge_defaultValue gd) as [d|]; [|by apply checks_ret]. eapply checks_bind; [by apply checks_evaluate|]. intros o Ho. apply checks_ret; [|done].
      intros z Hz. destruct (Ho z Hz) as [Fz Dz]. split; [done|]. right. by exists d.
  - intros [o sp] Ho. cbn [fst] in Ho. destruct o as [z|]; [|by apply checks_complain_ret]. destruct (Ho z eq_refl) as [Fz Hs].
    destruct (outside_subtype (ge_type gd) z) eqn:Eo; [by apply checks_complain_ret|]. apply checks_ret; [by apply all_fit_emplace|]. intros _. split; [done|]. by exists z.
Qed.

(** The values of all generics, when their names differ. *)
Lemma bound_values l : forall b b', NoDup (nameKey <$> l.*2) -> (forall k, k ∈ nameKey <$> l.*2 -> bound b !! k = None) -> chain value_step b l b' ->
  bound b ⊆ bound b' /\ formalGenericNames b' = list_to_set (nameKey <$> l.*2) ∪ formalGenericNames b /\
  Forall (fun gn => exists z, bound b' !! nameKey gn.2 = Some z /\ outside_subtype (ge_type gn.1) z = false /\ generic_source outer i (bound b') gn.1 z) l.
Proof.
  induction l as [|[g n] l IH]; intros b b' Hn Hnew Hc; inversion Hc; subst; [split; [done|]; split; [set_solver|constructor]|].
  match goal with H : value_step _ _ _ |- _ => destruct H as (Hf & z & Hz & Hb & Hs) end. cbn [fst snd] in *. rewrite !fmap_cons in Hn, Hnew. cbn [snd] in Hn, Hnew.
  apply NoDup_cons in Hn as [Hnk Hn]. assert (Hnone : bound b !! nameKey n = None) by (apply Hnew; set_solver). rewrite emplace_new in Hb by done.
  destruct (IH b1 b' Hn) as (Hsub & Hformal & Hall); [|done|].
  - intros k Hk. rewrite Hb, lookup_insert_ne by set_solver. apply Hnew. set_solver.
  - assert (Hsub0 : bound b ⊆ bound b1) by (rewrite Hb; by apply insert_subseteq).
    split; [by etransitivity|]. split; [rewrite Hformal, Hf, !fmap_cons; set_solver|]. constructor; [|done]. exists z.
    split; [eapply lookup_weaken; [|exact Hsub]; by rewrite Hb, lookup_insert_eq|]. split; [done|].
    destruct Hs as [Hs|(d & Hd & Hz')]; [by left|]. right. exists d, (bound b). split; [done|]. split; [by etransitivity|done].
Qed.

Lemma portFormals_ok at_ index visibility values formals port : all_fit values ->
  checks (portFormals at_ index visibility values formals port) any
    (eq (formals ++ ((fun n => (n, type_of (po_type port.2) visibility values)) <$> po_names port.2))).
Proof.
  intros Hv. unfold portFormals. eapply checks_bind; [by apply (checks_type _ _ _ any)|]. intros ? <-.
  eapply (checks_bind _ _ any any); [repeat case_match; first [by apply checks_modify|by apply checks_ret]|]. intros ? _.
  by apply checks_ret.
Qed.
Lemma formals_chain visibility values l : forall formals formals',
  chain (fun formals (p : PortDeclaration) formals' => formals ++ ((fun n => (n, type_of (po_type p) visibility values)) <$> po_names p) = formals') formals l formals' ->
  formals' = formals ++ mjoin ((fun p => (fun n => (n, type_of (po_type p) visibility values)) <$> po_names p) <$> l).
Proof.
  induction l as [|p l IH]; intros f f' Hc; inversion Hc; subst; [by rewrite app_nil_r|].
  match goal with H : chain _ _ _ _ |- _ => apply IH in H as -> end. by rewrite fmap_cons, mjoin_cons, <- app_assoc.
Qed.

Definition actual_checked (m : Declarations) (p : (Name * CheckedType) * Name) : Prop := exists t, m !! nameKey p.2 = Some t /\ compatible p.1.2 t = true.
Lemma checkActual_ok m p : checks (checkActual m p) any (fun _ => actual_checked m p).
Proof.
  destruct p as [[formal type] actual]. unfold checkActual, actual_checked. cbn [fst snd]. destruct (m !! nameKey actual) as [t|]; [|apply checks_complain].
  eapply checks_mono; [apply checks_complain_if|done|]. intros ? _ H%negb_false_iff. by exists t.
Qed.

(** What the binding of an instance to the entity [model] shows. *)
Definition instance_bound (m : Declarations) (model : EntityDeclaration) (visibility : Visibility) : Prop :=
  exists values, (NoDup (generic_names model) ->
    Forall (fun gn => exists z, values !! nameKey gn.2 = Some z /\ outside_subtype (ge_type gn.1) z = false /\ generic_source outer i values gn.1 z) (generics_of model) /\
    forall a formal, a ∈ ei_generics i -> ga_formal a = Some formal -> nameKey formal ∈ generic_names model) /\
  Forall2 (fun formal actual => actual_checked m (formal, actual))
    (mjoin ((fun p => (fun n => (n, type_of (po_type p) visibility values)) <$> po_names p) <$> ed_ports model)) (ei_actuals i).

Lemma bindInstance_ok m at_ j model visibility : df_entities syntax !! j = Some model -> entityVisibility table !! j = Some visibility ->
  checks (bindInstance syntax table iteration m outer at_ i j) any (fun _ => instance_bound m model visibility).
Proof.
  intros Hj Hvis. unfold bindInstance, entity_at. apply (checks_bind _ _ (eq model) any); [by eapply checks_pointed|]. intros ? <-.
  eapply checks_bind; [eapply (checks_fold_each _ map_inv (fun a => a ∈ ei_generics i) associate_step); [| |by intros; apply associateGeneric_ok]|].
  { constructor; cbn; [by intros n a; rewrite lookup_empty|set_solver]. }
  { by apply Forall_forall. }
  intros g Hg. eapply checks_bind; [eapply (checks_fold_each _ (fun b => all_fit (bound b)) any (fun b gd b' => chain value_step b (pair gd <$> ge_names gd) b')); [done|by apply Forall_true|]|].
  { intros b gd Hb _. eapply checks_mono; [eapply (checks_fold_each _ (fun b => all_fit (bound b)) any (fun b n b' => value_step b (gd, n) b')); [done|by apply Forall_true|]|done|].
    - intros b' n Hb' _. by apply bindGeneric_ok.
    - intros b' _ Hc. by apply chain_fmap. }
  intros b Hb. eapply checks_bind; [apply checks_complain_if|]. intros ? _.
  eapply checks_bind; [apply (checks_for_each _ (fun p => namedActuals g !! p.1 = Some p.2) (fun p => p.1 ∈ formalGenericNames b))|].
  { apply Forall_forall. intros [n x] Hin. rewrite Hiter in Hin. by apply elem_of_map_to_list in Hin. }
  { intros [n x] Hn. cbn in Hn |- *. unfold one_of_names. case_bool_decide; [by apply checks_ret|]. destruct (mi_named _ Hg _ _ Hn) as (_ & f & Ef & _). rewrite Ef.
    apply (checks_bind _ _ (eq f) any); [by eapply checks_pointed|]. intros ? <-. apply checks_complain. }
  intros ? _. eapply checks_bind; [by apply (checks_modify _ any)|]. intros ? _. eapply checks_bind; [by apply checks_map_at|]. intros ? <-.
  eapply checks_bind; [eapply (checks_fold_each _ any any); [done|by apply Forall_true|intros; by apply portFormals_ok]|]. intros formals _.
  eapply (checks_mono _ any (fun _ => length formals = length (ei_actuals i) /\ Forall (actual_checked m) (zip formals (ei_actuals i)))); [|done|].
  - destruct (Nat.eqb_spec (length formals) (length (ei_actuals i))) as [El|]; cbn [negb]; [|apply checks_complain].
    eapply checks_mono; [apply (checks_for_each _ any (actual_checked m)); [by apply Forall_true|intros; apply checkActual_ok]|done|]. by intros.
  - cbn beta. intros ? _ [Hlen Hacts] Hports _ _ Hnamed _ Hbind Hassoc. exists (bound b). split.
    + intros Hnd. rewrite <- generics_of_names in Hnd. assert (Hch : chain value_step (mkGenericBinding ∅ 0 ∅) (generics_of model) b) by by apply chain_join.
      destruct (bound_values _ _ _ Hnd (fun k _ => lookup_empty k) Hch) as (_ & Hf & Hall). split; [done|].
      intros x f Hx Ef. destruct (associated_formals _ _ _ Hassoc x f Hx Ef) as [x' Hx']. rewrite Forall_forall in Hnamed.
      specialize (Hnamed (nameKey f, x')). cbn in Hnamed. rewrite Hiter, elem_of_map_to_list, Hf, generics_of_names in Hnamed. set_solver.
    + assert (Hfs : formals = mjoin ((fun p => (fun n => (n, type_of (po_type p) visibility (bound b))) <$> po_names p) <$> ed_ports model)).
      { apply (formals_chain _ _ _ []). by apply chain_numbered. }
      rewrite <- Hfs. by apply Forall_zip_pairs.
Qed.

(** An instance of the architecture. *)
Definition instance_checked (m : Declarations) : Prop :=
  nameKey (ei_library i) = chars "work" /\ exists j model visibility, entities table !! nameKey (ei_entity i) = Some j /\
    df_entities syntax !! j = Some model /\ entityVisibility table !! j = Some visibility /\ instance_bound m model visibility.
End instance.

Lemma analyzeInstance_ok architecture m outer labels index i : instance_complete i = true -> all_fit outer ->
  checks (analyzeInstance syntax table iteration architecture m outer labels (index, i)) any
    (fun labels' => fresh labels (nameKey (ei_label i)) labels' /\ instance_checked i outer m).
Proof.
  intros Hi Ho. unfold analyzeInstance, instance_checked. eapply checks_bind; [apply checks_complain_if|]. intros ? _.
  eapply (checks_bind _ _ any (fun _ => instance_checked i outer m)).
  - unfold key_is. case_bool_decide as Hw; cbn [negb]; [|apply checks_complain]. destruct (entities table !! nameKey (ei_entity i)) as [j|] eqn:Ej; [|apply checks_complain].
    destruct (ti_entities _ _ Htable _ _ Ej) as ([model Hm] & [visibility Hv] & _). eapply checks_mono; [by apply bindInstance_ok|done|].
    intros ? _ H. split; [done|]. by exists j, model, visibility.
  - intros ? _. apply checks_ret; [done|]. intros Hc Hl%bool_decide_eq_false_1. split; [by split|done].
Qed.
End instances.

(** * The whole analysis *)

(** * Architectures *)

Lemma emplace_chain {A} (f : A -> list Name) (ty : A -> CheckedType) l : forall m m' : Declarations,
  chain (fun m x m' => foldl (fun m n => emplace (nameKey n) (ty x) m) m (f x) = m') m l m' ->
  m' = foldl (fun m d => emplace d.1 d.2 m) m (mjoin ((fun x => scope_of (f x) (ty x)) <$> l)).
Proof.
  induction l as [|x l IH]; intros m m' Hc; inversion Hc; subst; [done|]. match goal with H : chain _ _ _ _ |- _ => apply IH in H as -> end.
  by rewrite fmap_cons, mjoin_cons, foldl_app, emplace_scope.
Qed.

(** The scope of an entity whose context makes [visibility] visible. *)
Definition entity_scope_in (e : EntityDeclaration) (visibility : Visibility) (values : GenericValues) : list (list ascii * CheckedType) :=
  mjoin ((fun g => scope_of (ge_names g) (type_of (ge_type g) visibility ∅)) <$> ed_generics e) ++
  mjoin ((fun p => scope_of (po_names p) (type_of (po_type p) visibility values)) <$> ed_ports e).
Definition signal_scope_in (a : ArchitectureBody) (visibility : Visibility) (values : GenericValues) : list (list ascii * CheckedType) :=
  mjoin ((fun s => scope_of (ob_names s) (type_of (ob_type s) visibility values)) <$> ab_signals a).

Lemma entityDeclarations_ok j e visibility values : all_fit values ->
  checks (entityDeclarations j e visibility values) any (fun m => m = foldl (fun m d => emplace d.1 d.2 m) ∅ (entity_scope_in e visibility values)).
Proof.
  intros Hv. unfold entityDeclarations.
  eapply checks_bind; [eapply (checks_fold_each _ any any (fun m g m' => foldl (fun m n => emplace (nameKey n) (type_of (ge_type g) visibility ∅) m) m (ge_names g) = m'));
    [done|by apply Forall_true|]|].
  { intros m g _ _. eapply checks_bind; [apply (checks_type _ _ _ any); [apply all_fit_empty|done]|]. intros ? <-. by apply checks_ret. }
  intros m _. eapply checks_mono; [eapply (checks_fold_each _ any any (fun m p m' => foldl (fun m n => emplace (nameKey n) (type_of (po_type p.2) visibility values) m) m (po_names p.2) = m'));
    [done|by apply Forall_true|]|done|].
  { intros m' p _ _. eapply checks_bind; [by apply (checks_type _ _ _ any)|]. intros ? <-. eapply checks_bind; [apply resolve_range_ok|]. intros ? _. by apply checks_ret. }
  cbn beta. intros m' _ Hports Hgen. apply (chain_numbered (fun m p m' => foldl (fun m n => emplace (nameKey n) (type_of (po_type p) visibility values) m) m (po_names p) = m')) in Hports.
  apply (emplace_chain po_names (fun p => type_of (po_type p) visibility values)) in Hports as ->.
  apply (emplace_chain ge_names (fun g => type_of (ge_type g) visibility ∅)) in Hgen as ->. unfold entity_scope_in. by rewrite foldl_app.
Qed.

Definition signal_step (visibility : Visibility) (values : GenericValues) (m : Declarations) (s : ObjectDeclaration) (m' : Declarations) : Prop :=
  ob_initializer s = None /\ c_kind (type_of (ob_type s) visibility values) <> TUnknown /\
  chain declare m (scope_of (ob_names s) (type_of (ob_type s) visibility values)) m'.
Lemma analyzeSignal_ok architecture visibility values m s : all_fit values ->
  checks (analyzeSignal architecture visibility values m s) any (signal_step visibility values m s.2).
Proof.
  intros Hv. unfold analyzeSignal. eapply checks_bind; [apply checks_complain_if|]. intros ? _. eapply checks_bind; [by apply (checks_type _ _ _ any)|]. intros ? <-.
  eapply checks_bind; [apply checks_complain_if|]. intros ? _. eapply checks_bind; [apply resolve_range_ok|]. intros ? _.
  eapply checks_mono; [eapply (checks_fold_each _ any any (fun m n m' => declare m (nameKey n, type_of (ob_type s.2) visibility values) m')); [done|by apply Forall_true|]|done|].
  - intros m' n _ _. eapply checks_bind; [apply checks_complain_if|]. intros ? _. apply checks_ret; [done|]. intros Hm%mem_false. split; [done|]. by apply emplace_new.
  - cbn beta. intros m' _ Hc _ Hk _ Hi%negb_false_iff. split; [by apply is_none_true|]. split; [by apply is_type_false|]. unfold scope_of. by apply chain_fmap.
Qed.

Definition concurrent_checked (m : Declarations) (visibility : Visibility) (a : Assignment) : Prop :=
  as_selector a = None /\ as_indices a = [] /\ exists t e, m !! nameKey (as_target a) = Some t /\ as_value a = Some e /\ value_checked m visibility t e.

Section runs.
Context (syntax : DesignFile) (iteration : gmap (list ascii) GenericAssociation -> list (list ascii * GenericAssociation)).
Context (Hiter : forall m, iteration m ≡ₚ map_to_list m).

Section architecture.
Context (table : EntityTable) (Htable : table_inv syntax table).

Definition body_checked (a : ArchitectureBody) (visibility : Visibility) (j : nat) : Prop :=
  exists e values entity_visibility, df_entities syntax !! j = Some e /\ entityDefaults table !! j = Some values /\ entityVisibility table !! j = Some entity_visibility /\
  exists m, chain (signal_step visibility values) (foldl (fun m d => emplace d.1 d.2 m) ∅ (entity_scope_in e entity_visibility values)) (ab_signals a) m /\
    NoDup ((fun i => nameKey (ei_label i)) <$> ab_instantiations a) /\
    Forall (fun i => instance_checked syntax table i values m) (ab_instantiations a) /\
    Forall (concurrent_checked m visibility) (ab_assignments a) /\
    Forall (process_checked m visibility) (ab_processes a).

Lemma analyzeBody_ok index a visibility j : architecture_complete a = true -> (exists n, entities table !! n = Some j) ->
  checks (analyzeBody syntax table iteration index a visibility j) any (fun _ => body_checked a visibility j).
Proof.
  intros Ha [n Hn]. unfold architecture_complete in Ha. rewrite !andb_true_iff, !forallb_Forall_true in Ha. destruct Ha as [[Hassign Hproc] Hinst].
  destruct (ti_entities _ _ Htable _ _ Hn) as ([e He] & [ev Hev] & [values Hvalues]). pose proof (ti_defaults _ _ Htable _ _ Hvalues) as Hfit.
  unfold analyzeBody, entity_at. apply (checks_bind _ _ (eq e) any); [by eapply checks_pointed|]. intros ? <-.
  eapply checks_bind; [by apply checks_map_at|]. intros ? <-. eapply checks_bind; [by apply checks_map_at|]. intros ? <-.
  eapply checks_bind; [by apply entityDeclarations_ok|]. intros m0 _.
  eapply checks_bind; [eapply (checks_fold_each _ any any); [done|by apply Forall_true|intros; by apply analyzeSignal_ok]|]. intros m _.
  eapply checks_bind; [eapply (checks_fold_each _ any (fun p => instance_complete p.2 = true)
    (fun S p S' => fresh S (nameKey (ei_label p.2)) S' /\ instance_checked syntax table p.2 values m)); [done|by apply (Forall_numbered (fun i => instance_complete i = true))|]|].
  { intros S [k i] _ Hi. by apply analyzeInstance_ok. }
  intros labels _. eapply checks_bind; [apply (checks_for_each _ (fun p => concurrent_complete p.2 = true) (fun p => concurrent_checked m visibility p.2))|].
  { by apply (Forall_numbered (fun x => concurrent_complete x = true)). }
  { intros [k x] Hx. by apply checkAssignment_ok. }
  intros ? _. eapply checks_mono; [apply (checks_for_each _ (fun p => process_complete p.2 = true) (fun p => process_checked m visibility p.2))|done|].
  { by apply (Forall_numbered (fun x => process_complete x = true)). }
  { intros p Hp. by apply analyzeProcess_ok. }
  cbn beta. intros ? _ Hps Has Hlabels Hsig -> _ _ _. exists e, values, ev. split; [done|]. split; [done|]. split; [done|]. exists m.
  split; [by apply chain_numbered in Hsig|].
  apply (chain_numbered (fun S i S' => fresh S (nameKey (ei_label i)) S' /\ instance_checked syntax table i values m)) in Hlabels. split; [|split; [|split]].
  - assert (Hf : chain fresh ∅ ((fun i => nameKey (ei_label i)) <$> ab_instantiations a) labels).
    { apply chain_fmap. eapply chain_mono; [|exact Hlabels]. by intros b x b' [? _]. }
    by apply fresh_chain in Hf as [? _].
  - eapply chain_Forall; [|exact Hlabels]. by intros b x b' [_ ?].
  - by apply (Forall_numbered (concurrent_checked m visibility)).
  - by apply (Forall_numbered (process_checked m visibility)).
Qed.

(** What is checked of an architecture but its entity. *)
Definition architecture_checked (a : ArchitectureBody) : Prop :=
  context_ok (ab_context a) /\ ab_components a = [] /\
  exists j, entities table !! nameKey (ab_entity a) = Some j /\ body_checked a (visible (ab_context a)) j.
Definition architecture_name (a : ArchitectureBody) : list ascii := nameKey (ab_entity a) ++ [NUL] ++ nameKey (ab_name a).

Lemma analyzeArchitecture_ok names index a : architecture_complete a = true ->
  checks (analyzeArchitecture syntax table iteration names (index, a)) any (fun names' => fresh names (architecture_name a) names' /\ architecture_checked a).
Proof.
  intros Ha. unfold analyzeArchitecture, architecture_checked. eapply checks_bind; [apply analyzeContext_ok|]. intros visibility _.
  eapply checks_bind; [apply checks_complain_if|]. intros ? _. destruct (entities table !! nameKey (ab_entity a)) as [j|] eqn:Ej; [|by apply checks_complain_ret].
  eapply checks_bind; [apply checks_complain_if|]. intros ? _. eapply checks_bind; [apply analyzeBody_ok; [done|by eexists]|]. intros ? _. apply checks_ret; [done|].
  intros Hb Hn%bool_decide_eq_false_1 Hc [-> Hctx]. split; [by split|]. split; [done|]. split; [by destruct (ab_components a)|]. by exists j.
Qed.
End architecture.

Lemma check_features_ok a : checks (check_features a) any (fun _ => ab_functions a = [] /\ ab_enumerationTypes a = [] /\ ab_recordTypes a = [] /\ ab_constants a = [] /\
  ab_generates a = [] /\ Forall (fun i => instance_needs_elaboration i = false) (ab_instantiations a)).
Proof.
  assert (Hn : forall A (l : list A), nonempty l = false -> l = []) by (intros A l; by destruct l).
  unfold check_features. do 5 (eapply checks_bind; [apply checks_complain_if|]; intros ? _).
  eapply checks_mono; [apply (checks_for_each _ any (fun i => instance_needs_elaboration i = false)); [by apply Forall_true|intros; apply checks_complain_if]|done|].
  cbn beta. intros ? _ Hi H5 H4 H3 H2 H1. repeat (split; [by apply Hn|]). exact Hi.
Qed.

Definition file_checked : Prop :=
  df_packages syntax = [] /\
  Forall (fun a => ab_functions a = [] /\ ab_enumerationTypes a = [] /\ ab_recordTypes a = [] /\ ab_constants a = [] /\ ab_generates a = [] /\
    Forall (fun i => instance_needs_elaboration i = false) (ab_instantiations a)) (df_architectures syntax) /\
  exists table, table_of (numbered (df_entities syntax)) table /\ NoDup (architecture_name <$> df_architectures syntax) /\
    Forall (architecture_checked table) (df_architectures syntax).

Lemma analyze_run_ok : file_complete syntax = true -> checks (analyze_run iteration syntax) any (fun _ => file_checked).
Proof.
  intros Hf. unfold file_complete in Hf. apply forallb_Forall_true in Hf. unfold analyze_run.
  eapply checks_bind; [apply (checks_for_each _ any (fun _ => False)); [by apply Forall_true|intros; apply checks_complain]|]. intros ? _.
  eapply checks_bind; [apply (checks_for_each _ any); [by apply Forall_true|intros; by apply check_features_ok]|]. intros ? _.
  eapply checks_bind; [apply entities_ok|]. intros table Htable. unfold ignore.
  eapply checks_bind; [eapply (checks_fold_each _ any (fun p => architecture_complete p.2 = true)
    (fun S p S' => fresh S (architecture_name p.2) S' /\ architecture_checked table p.2)); [done|by apply (Forall_numbered (fun a => architecture_complete a = true))|]|].
  { intros S [k x] _ Hx. by apply analyzeArchitecture_ok. }
  intros names _. apply checks_ret; [done|]. intros Hc Ht Hfeat Hp.
  apply (chain_numbered (fun S a S' => fresh S (architecture_name a) S' /\ architecture_checked table a)) in Hc.
  split; [destruct (df_packages syntax) as [|p l]; [done|by apply Forall_cons in Hp as [? _]]|]. split; [done|]. exists table. split; [done|]. split.
  - assert (Hn : chain fresh ∅ (architecture_name <$> df_architectures syntax) names).
    { apply chain_fmap. eapply chain_mono; [|exact Hc]. by intros b x b' [? _]. }
    by apply fresh_chain in Hn as [? _].
  - eapply chain_Forall; [|exact Hc]. by intros b x b' [_ ?].
Qed.
End runs.

(** * Scopes *)

Lemma list_to_map_disjoint_app {V} (l k : list (list ascii * V)) : NoDup (l ++ k).*1 ->
  (list_to_map k ∪ list_to_map l : gmap (list ascii) V) = list_to_map (l ++ k).
Proof.
  intros H. rewrite <- list_to_map_app. apply list_to_map_proper; [|by rewrite Permutation_app_comm].
  rewrite fmap_app in *. by rewrite Permutation_app_comm.
Qed.
Lemma scopes_snd {A} (P : CheckedType -> Prop) (f : A -> list Name) (g : A -> CheckedType) l : Forall (fun x => P (g x)) l ->
  Forall P (mjoin ((fun x => scope_of (f x) (g x)) <$> l)).*2.
Proof.
  induction 1 as [|x l Hx _ IH]; [constructor|]. rewrite fmap_cons, mjoin_cons, fmap_app. apply Forall_app. split; [|done].
  unfold scope_of. apply Forall_forall. intros t ([k t'] & -> & (n & [= -> ->] & _)%list_elem_of_fmap)%list_elem_of_fmap. done.
Qed.
Lemma number_known k : number k -> k <> TUnknown.
Proof. by intros [->| ->]. Qed.

Section scope.
Context (scope : list (list ascii * CheckedType)) (Hn : NoDup scope.*1) (Hknown : Forall (fun t => c_kind t <> TUnknown) scope.*2).
#[local] Notation m := (list_to_map scope : gmap (list ascii) CheckedType).

Lemma declared_lookup n t : m !! nameKey n = Some t <-> declared_as scope n t.
Proof. unfold declared_as. by rewrite elem_of_list_to_map. Qed.
Lemma declared_known n t : declared_as scope n t -> c_kind t <> TUnknown.
Proof. intros H. rewrite Forall_forall in Hknown. apply Hknown, list_elem_of_fmap. by exists (nameKey n, t). Qed.
Lemma value_checked_ok visibility t e : c_kind t <> TUnknown -> value_checked m visibility t e -> value_ok scope visibility t e.
Proof.
  intros Ht (u & [[Hu Htyped]|[_ Hc]] & Hm); [left|by right]. exists (shape u). split; [done|]. by apply compatible_matching, Hm.
Qed.
Lemma value_declared n visibility a : (exists t e, m !! nameKey n = Some t /\ as_value a = Some e /\ value_checked m visibility t e) ->
  exists t e, declared_as scope n t /\ as_value a = Some e /\ value_ok scope visibility t e.
Proof.
  intros (t & e & Ht & He & Hv). apply declared_lookup in Ht. exists t, e. split; [done|]. split; [done|]. apply value_checked_ok; [by eapply declared_known|done].
Qed.
Lemma concurrent_checked_ok visibility a : concurrent_checked m visibility a -> concurrent_ok scope visibility a.
Proof. intros (Hs & Hi & Hv). split; [done|]. split; [done|]. by apply value_declared. Qed.
Lemma sequential_checked_ok variables visibility a : sequential_checked m variables visibility a -> sequential_ok scope variables visibility a.
Proof. intros (Hs & Hi & Hv). split; [done|]. split; [done|]. by apply value_declared. Qed.
Lemma control_checked_ok n : control_checked m n -> control_ok scope n.
Proof. intros (t & Ht & Hk). exists t. by apply declared_lookup in Ht. Qed.
Lemma actual_checked_ok formal actual : actual_checked m (formal, actual) -> exists t, declared_as scope actual t /\ matching (shape formal.2) (shape t).
Proof. intros (t & Ht & Hc). exists t. split; [by apply declared_lookup|by apply compatible_matching]. Qed.
Lemma all_ok_mono {A} (P Q : A -> Prop) o : (forall a, P a -> Q a) -> all_ok P o -> all_ok Q o.
Proof. destruct o; cbn; auto. Qed.
End scope.

Lemma process_checked_ok scope visibility p : NoDup scope.*1 -> Forall (fun t => c_kind t <> TUnknown) scope.*2 ->
  process_checked (list_to_map scope) visibility p -> process_ok scope visibility p.
Proof.
  intros Hn Hk [H1 H2 H3 H4 H5 H6 H7 H8 H9]. assert (Hall : NoDup (scope ++ variable_scope p visibility).*1).
  { rewrite fmap_app. apply NoDup_app. split; [done|]. split; [|done]. intros k Hk1 Hk2. apply H4 in Hk2. by apply not_elem_of_list_to_map in Hk2. }
  rewrite list_to_map_disjoint_app in H8, H9 by done.
  assert (Hk2 : Forall (fun t => c_kind t <> TUnknown) (scope ++ variable_scope p visibility).*2).
  { rewrite fmap_app. apply Forall_app. split; [done|]. by apply (scopes_snd (fun t => c_kind t <> TUnknown)). }
  constructor; [done|done|by rewrite <- fmap_app| | | | |].
  - eapply Forall_impl; [exact H5|]. intros n. by apply control_checked_ok.
  - eapply all_ok_mono; [|exact H6]. intros n. by apply control_checked_ok.
  - eapply all_ok_mono; [|exact H7]. intros n. by apply control_checked_ok.
  - eapply Forall_impl; [exact H8|]. intros a. by apply sequential_checked_ok.
  - eapply Forall_impl; [exact H9|]. intros a. by apply sequential_checked_ok.
Qed.

(** * Files *)

Section file.
Context (syntax : DesignFile) (table : EntityTable) (Htable : table_of (numbered (df_entities syntax)) table).

Lemma table_entity n j e : entities table !! n = Some j -> df_entities syntax !! j = Some e ->
  nameKey (ed_name e) = n /\ e ∈ df_entities syntax /\ entityVisibility table !! j = Some (visible (ed_context e)) /\
  exists values, entityDefaults table !! j = Some values /\ entity_ok e values.
Proof.
  intros Hn Hj. destruct (to_entries _ _ Htable n j Hn) as ([j' e'] & Hin & <- & Hk). cbn in Hj. pose proof Hin as Hin'. apply elem_of_numbered in Hin'.
  assert (e' = e) as -> by congruence. destruct (to_all _ _ Htable _ Hin) as (values & Hok & _ & Hv & Hd).
  split; [done|]. split; [by eapply list_elem_of_lookup_2|]. split; [done|]. by exists values.
Qed.

Lemma scope_formals {A} (names : A -> list Name) (ty : A -> CheckedType) l :
  mjoin ((fun p => scope_of (names p) (ty p)) <$> l) = (fun x => (nameKey x.1, x.2)) <$> mjoin ((fun p => (fun n => (n, ty p)) <$> names p) <$> l).
Proof.
  induction l as [|p l IH]; [done|]. rewrite !fmap_cons, !mjoin_cons, fmap_app, IH. f_equal. unfold scope_of. by rewrite <- list_fmap_compose.
Qed.

Lemma instance_checked_ok scope outer i : NoDup scope.*1 -> instance_checked syntax table i outer (list_to_map scope) -> instance_ok syntax scope outer i.
Proof.
  intros Hnd (Hw & j & model & visibility & Hj & Hm & Hv & values & Hg & Hp). destruct (table_entity _ _ _ Hj Hm) as (Hname & Hin & Hvis & v & _ & Hok).
  rewrite Hvis in Hv. injection Hv as <-. split; [done|]. exists model, values. split; [done|]. split; [done|].
  destruct Hg as [Hg1 Hg2]; [by pose proof (eo_names _ _ Hok) as [? _]%NoDup_app|]. split; [done|]. split; [done|].
  rewrite scope_formals. apply Forall2_fmap_l. eapply Forall2_impl; [exact Hp|]. intros n a Ha. by apply (actual_checked_ok scope Hnd n a) in Ha.
Qed.

Lemma architecture_checked_ok a : architecture_checked syntax table a ->
  ab_functions a = [] /\ ab_enumerationTypes a = [] /\ ab_recordTypes a = [] /\ ab_constants a = [] /\ ab_generates a = [] /\
    Forall (fun i => instance_needs_elaboration i = false) (ab_instantiations a) -> architecture_ok syntax a.
Proof.
  intros (Hctx & Hcomp & j & Hj & e & values & ev & He & Hd & Hv & m & Hsig & Hlabels & Hinst & Hassign & Hproc) (F1 & F2 & F3 & F4 & F5 & F6).
  destruct (table_entity _ _ _ Hj He) as (Hname & Hin & Hvis & values' & Hd' & Hok). assert (values' = values) as -> by congruence. assert (ev = visible (ed_context e)) as -> by congruence.
  assert (Hes : (entity_scope e values).*1 = generic_names e ++ port_names e) by (unfold entity_scope; by rewrite fmap_app, !scopes_fst).
  pose proof (eo_names _ _ Hok) as Hnd. rewrite <- Hes in Hnd.
  assert (Hm0 : foldl (fun m d => emplace d.1 d.2 m) ∅ (entity_scope e values) = (list_to_map (entity_scope e values) : gmap (list ascii) CheckedType)).
  { rewrite emplace_all by done. by apply map_union_empty. }
  fold (entity_scope e values) in Hsig. unfold entity_scope_in in Hsig. fold (entity_scope e values) in Hsig. rewrite Hm0 in Hsig.
  assert (Hsc : chain declare (list_to_map (entity_scope e values)) (signal_scope a values) m).
  { unfold signal_scope. apply chain_join. eapply chain_mono; [|exact Hsig]. by intros b s b' (_ & _ & Hc). }
  apply declare_chain in Hsc as (Hns & Hnew & ->).
  assert (Hall : NoDup (entity_scope e values ++ signal_scope a values).*1).
  { rewrite fmap_app. apply NoDup_app. split; [done|]. split; [|done]. intros k Hk1 Hk2. apply Hnew in Hk2. by apply not_elem_of_list_to_map in Hk2. }
  rewrite list_to_map_disjoint_app in Hinst, Hassign, Hproc by done.
  assert (Hknown : Forall (fun t => c_kind t <> TUnknown) (entity_scope e values ++ signal_scope a values).*2).
  { unfold entity_scope, signal_scope. rewrite !fmap_app. rewrite !Forall_app. split; [split|].
    - apply (scopes_snd (fun t => c_kind t <> TUnknown)). eapply Forall_impl; [apply (eo_generics _ _ Hok)|]. intros g. apply number_known.
    - apply (scopes_snd (fun t => c_kind t <> TUnknown)). apply (eo_ports _ _ Hok).
    - apply (scopes_snd (fun t => c_kind t <> TUnknown)). eapply chain_Forall; [|exact Hsig]. by intros b s b' (_ & Hk & _). }
  constructor; [constructor; try done|done|].
  - eapply chain_Forall; [|exact Hsig]. by intros b s b' (Hi & _).
  - exists e, values. split; [done|]. split; [done|]. split; [done|]. cbn zeta. split; [done|]. split; [done|]. split; [done|].
    split; [|split].
    + eapply Forall_impl; [exact Hinst|]. intros i. by apply instance_checked_ok.
    + eapply Forall_impl; [exact Hassign|]. intros x. by apply concurrent_checked_ok.
    + eapply Forall_impl; [exact Hproc|]. intros p. by apply process_checked_ok.
Qed.
End file.

Lemma file_checked_ok syntax : file_checked syntax -> file_ok syntax.
Proof.
  intros (Hp & Hf & table & Ht & Hn & Ha). constructor; [done| | | |exact Hn].
  - apply Forall_forall. intros e (j & Hj)%list_elem_of_lookup. apply elem_of_numbered in Hj. destruct (to_all _ _ Ht _ Hj) as (values & Hok & _). by exists values.
  - pose proof (to_names _ _ Ht) as H. rewrite <- (numbered_snd (df_entities syntax)), <- list_fmap_compose. exact H.
  - rewrite Forall_forall in Hf, Ha |- *. intros a Hin. by eapply architecture_checked_ok; [exact Ht|apply Ha|apply Hf].
Qed.
