(* ===== verification/VhdlAnalyzerProperties.v ===== *)
(** Correctness of the VHDL analyzer: static integers, types of expressions, what
    an accepted file is, and what the schedule of a process does. *)
From S2P Require Import Prelude Store VhdlLexer VhdlSyntax VhdlParser VhdlUnits VhdlExpressionSteps VhdlStatementSteps VhdlUnitSteps VhdlParserProperties VhdlTypes VhdlTypeProofs VhdlChecker VhdlCheckerProofs VhdlAnalyzer VhdlSchedule VhdlDesigns VhdlAnalyzerProofs.
Local Open Scope nat_scope.

(** C35. A static expression is evaluated without an overflow of 64-bit integers:
    there is a value exactly when the expression has one on the integers all of
    whose intermediate values have 64 bits, and it is that value. Division
    truncates, [rem] has the sign of the dividend and [mod] that of the divisor. *)
Theorem static_integers values e : all_fit values ->
  exists o, evaluateInteger e values = Ret o /\ (forall z, o = Some z <-> denotes values e z) /\ (forall z, o = Some z -> fits64 z = true).
Proof.
  intros Hv. destruct (evaluate_spec values e Hv) as (o & E & Ho). exists o. split; [done|]. split; [done|].
  intros z Hz. apply Ho in Hz. by eapply denotes_fits.
Qed.

(** C34. On an expression of which no operand is missing, [checkExpression] returns
    and follows no null pointer or missing range; the type it returns is the one
    it records. When it adds no diagnostic, the expression has that type by the
    rules of the operators, with widths up to 2^63, or the type is unknown and
    a character literal is an operand. *)
Theorem checkExpression_sound declarations visibility e at_ expected s : complete e = true ->
  exists t s' new, checkExpression e declarations visibility at_ expected s = (Ret t, s') /\ a_diagnostics s' = a_diagnostics s ++ new /\ getType s' at_ = c_kind t /\
    (new = [] -> c_kind t <> TUnknown /\ typed declarations visibility e (shape t) \/ c_kind t = TUnknown /\ has_character e = true).
Proof.
  intros He. pose proof (checkExpression_ok declarations visibility e He at_ expected s) as H. pose proof (checkExpression_records e declarations visibility at_ expected s) as Hr.
  unfold wp in H. destruct (checkExpression e declarations visibility at_ expected s) as [[t|x|] s'] eqn:E; [|done|done].
  destruct H as (_ & new & Hn & Ha). exists t, s', new. split; [done|]. split; [done|]. split; [by apply Hr|].
  intros Hq. destruct (Ha Hq) as [?|[? H%unresolved_has_character]]; [by left|by right].
Qed.

(** The analysis of a complete file, and what it says of the file. *)
Lemma analyze_run_returns iteration syntax : (forall m, iteration m ≡ₚ map_to_list m) -> file_complete syntax = true ->
  exists r, analyze iteration syntax = Ret r /\ (a_diagnostics r = [] -> file_ok syntax).
Proof.
  intros Hi Hf. pose proof (analyze_run_ok syntax iteration Hi Hf no_analysis) as H. unfold wp in H. unfold analyze.
  destruct (analyze_run iteration syntax no_analysis) as [[u|x|] r]; [|done|done]. destruct H as (_ & l & E & Hl). exists r. split; [done|].
  intros Hd. apply file_checked_ok, Hl. rewrite Hd in E. by destruct l.
Qed.
Lemma file_accepted iteration syntax r : (forall m, iteration m ≡ₚ map_to_list m) -> file_complete syntax = true -> analyze iteration syntax = Ret r ->
  a_diagnostics r = [] -> file_ok syntax.
Proof. intros Hi Hf E Hd. destruct (analyze_run_returns iteration syntax Hi Hf) as (r' & E' & H). rewrite E in E'. injection E' as ->. by apply H. Qed.

(** Parsed files are complete. *)
Lemma shaped_complete e : Shaped e -> complete e = true.
Proof.
  induction e as [els k t c sp l r d _ Hl Hr Hd] using Expression_ind'. intros (Ha & _ & Sl & Sr & Sd)%shaped_inv. cbn [complete e_kind e_left e_right e_condition].
  destruct k; try done; cbn in Ha; destruct l as [l|]; cbn in Ha; rewrite ?andb_false_r in Ha; try done; rewrite (Hl l eq_refl (Sl l eq_refl)); try done;
    destruct r as [r|]; cbn in Ha; rewrite ?andb_false_r in Ha; try done; rewrite (Hr r eq_refl (Sr r eq_refl)); try done;
    destruct d as [d|]; cbn in Ha; rewrite ?andb_false_r in Ha; try done; by rewrite (Hd d eq_refl (Sd d eq_refl)).
Qed.
Lemma valued_complete selected a : has_value selected false a -> as_selector a = None -> value_complete a = true.
Proof. unfold has_value, value_complete. intros H Es. rewrite Es in H. destruct (as_value a) as [v|]; [by apply shaped_complete|done]. Qed.
Lemma whole_complete a : whole_body a -> architecture_complete a = true.
Proof.
  intros [Ha Hp Hi]. unfold architecture_complete. rewrite !andb_true_iff. rewrite !forallb_Forall_true. split_and!.
  - eapply Forall_impl; [exact Ha|]. intros x Hx. unfold concurrent_complete. destruct (as_selector x) eqn:Es; [done|]. cbn. rewrite (valued_complete true x Hx Es). by rewrite orb_true_r.
  - eapply Forall_impl; [exact Hp|]. intros p [Hc|[Hs|[H1 H2]]]; unfold process_complete, structured.
    + by rewrite Hc.
    + unfold sensitive in Hs. destruct (pr_sensitivityList p); [done|]. by rewrite orb_true_r.
    + assert (Hl : forall l, all_valued l -> forallb sequential_complete l = true).
      { intros l Hl. apply forallb_Forall_true. eapply Forall_impl; [exact Hl|]. intros x Hx. unfold sequential_complete.
        assert (Es : as_selector x = None) by (unfold has_value in Hx; by destruct (as_selector x)). rewrite (valued_complete false x Hx Es). by rewrite orb_true_r. }
      rewrite (Hl _ H1), (Hl _ H2). by rewrite orb_true_r.
  - eapply Forall_impl; [exact Hi|]. intros i H. unfold instance_complete. apply forallb_Forall_true. eapply Forall_impl; [exact H|].
    intros g Hg. unfold has_actual in Hg. by destruct (ga_actual g).
Qed.
Lemma parsed_complete source synthesis r : parser_parse source synthesis = Ret r -> file_complete (pr_syntax r) = true.
Proof.
  intros Hw%parser_parse_whole. unfold file_complete. apply forallb_Forall_true. eapply Forall_impl; [exact Hw|]. apply whole_complete.
Qed.

(** C31. Every source is parsed, with or without the directives of synthesis
    tools, and then analyzed: both return, whatever the order in which the
    analysis walks the map of named actuals. When the analysis has no complaint
    the file is well formed: names are distinct, contexts name known packages,
    generics, ports and signals have known types, architectures and instances
    have their entities, port maps match position by position, generics are
    bound to static values of their subtypes, and every assignment has a declared
    target of its class and a value that [value_ok] describes: of a type that
    matches the target's, or else [unresolved], with an operand that is a
    character literal to which its place gives no type (an operand of a sum, of
    [<] but on the right of a vector, of a logical or multiplying operator on the
    left when its result is not expected to have such a type, or beside an
    operand that has no type). The second case is what
    [character_beside_vector] runs into, and no type is shown then; the literal
    of a condition [d = '1'] is none of these ([conditional_resolved]). *)
Theorem sources_analyzed iteration source synthesis : (forall m, iteration m ≡ₚ map_to_list m) ->
  exists file result, parser_parse source synthesis = Ret file /\ analyze iteration (pr_syntax file) = Ret result /\
    (a_diagnostics result = [] -> file_ok (pr_syntax file)).
Proof.
  intros Hi. destruct (parser_parse_run source synthesis) as (s & E & _). pose proof (parsed_complete _ _ _ E) as Hc.
  destruct (analyze_run_returns iteration _ Hi Hc) as (r & Er & Hr). by eexists _, r.
Qed.

(** C32. The processes of a source that the analysis accepts can be scheduled: the
    schedule of each is defined, and what it accepts of them it schedules with
    the effect of their statements, over any activations and inputs. *)
Theorem accepted_process_refines {V} iteration source synthesis file result a p (env : list ascii -> V) inputs : (forall m, iteration m ≡ₚ map_to_list m) ->
  parser_parse source synthesis = Ret file -> analyze iteration (pr_syntax file) = Ret result -> a_diagnostics result = [] ->
  a ∈ df_architectures (pr_syntax file) -> p ∈ ab_processes a ->
  exists r, schedule p = Ret r /\
    (s_diagnostics r = [] -> agree p r (run_activations (activate p) env inputs) (run_activations (perform (writes r)) env inputs)).
Proof.
  intros Hi Hp%parsed_complete Ha Hd Hin Hpr. pose proof (file_accepted iteration _ result Hi Hp Ha Hd) as Hok.
  pose proof (do_architectures _ Hok) as Har. rewrite Forall_forall in Har. destruct (ao_body _ _ (Har a Hin)) as (e & values & _ & _ & _ & _ & _ & _ & _ & _ & Hps).
  rewrite Forall_forall in Hps. pose proof (po_assignments _ _ _ (Hps p Hpr)) as Has.
  destruct (schedule_returns p) as [r Hs].
  - eapply Forall_impl; [exact Has|]. intros b (_ & _ & t & v & _ & Hv & _). unfold valued. by rewrite Hv.
  - exists r. split; [exact Hs|]. intros Hr. apply run_refined; [done|done| |by intros n _]. eapply Forall_impl; [exact Has|]. by intros b (_ & Hb & _).
Qed.

(** C33. When [schedule] has no complaint about a process whose assignments have
    the operator of their target, doing its writes is the same as running the
    assignments in order, variables at once and signals at the end, for any
    number of activations with any inputs before each: signals and retained
    variables always agree. The retained variables are those that an activation
    reads before it sets them. *)
Theorem schedule_refines {V} process r (env env' : list ascii -> V) inputs : schedule process = Ret r -> s_diagnostics r = [] ->
  Forall (class_matches (process_variables process)) (pr_assignments process) -> agree process r env env' ->
  agree process r (run_activations (activate process) env inputs) (run_activations (perform (writes r)) env' inputs) /\
  forall n, n ∈ retainedVariables r <-> read_first (process_variables process) (pr_assignments process) n.
Proof.
  intros Es Hd Hc Ha. split.
  - by apply run_refined.
  - destruct (schedule_inv process r env Es Hd Hc) as (s & _ & _ & Hr & _ & Hrv & _). intros n. by rewrite Hrv, Hr.
Qed.

(** * Witnesses *)

Definition source_lines (l : list string) : list ascii := mjoin ((fun s => chars s ++ [newline]) <$> l).
Definition imports_all : string := "library ieee; use ieee.std_logic_1164.all; use ieee.numeric_std.all;".
Definition parse_source (source : list ascii) : ParseResult := match parser_parse source false with Ret r => r | _ => mkParseResult (mkFileTree [] [] []) [] [] end.
Definition parse_lines (l : list string) : DesignFile := pr_syntax (parse_source (source_lines l)).
(** An entity with a generic, a clocked process that delays [d] by two edges, and
    an instance of it. *)
Definition delay_source : list ascii := source_lines [imports_all;
  "entity e is generic (n : natural := 7); port (clk, d : in std_logic; a, b : in unsigned(n downto 0); y : out unsigned(n downto 0); lt : out boolean; q : out std_logic); end entity;";
  imports_all; "architecture r of e is signal s : unsigned(n downto 0); begin";
  "s <= a + b; y <= s when d = '1' else a and b; lt <= a < b + 1;";
  "process (clk) variable v : std_logic; begin if clk'event and clk = '1' then q <= v; v := d; end if; end process; end architecture;"; imports_all;
  "entity top is port (clk, d : in std_logic; a, b : in unsigned(3 downto 0); y : out unsigned(3 downto 0); lt : out boolean; q : out std_logic); end entity;";
  imports_all; "architecture r of top is begin u : entity work.e generic map (n => 3) port map (clk, d, a, b, y, lt, q); end architecture;"]%string.
Definition delay_parse : ParseResult := Eval vm_compute in parse_source delay_source.
Definition delay_file : DesignFile := Eval vm_compute in pr_syntax delay_parse.
Definition no_architecture : ArchitectureBody := mkArchitecture no_name no_name [] [] [] [] [] default_span (mkContext [] []) [] [] [] [] [] [] [] [].
Definition delay_architecture : ArchitectureBody := Eval vm_compute in default no_architecture (head (df_architectures delay_file)).
Definition delay_process : ClockedProcess := Eval vm_compute in default no_process (head (ab_processes delay_architecture)).
Definition delay_schedule : ScheduleResult := Eval vm_compute in match schedule delay_process with Ret r => r | _ => mkSchedule [] [] [] end.
Definition delay_analysis : AnalysisResult := Eval vm_compute in match analyze map_to_list delay_file with Ret r => r | _ => no_analysis end.
(** The generic [n] at the bounds of 64 bits, and [n + 1]. *)
Definition at_bound : GenericValues := {[chars "n" := int64_max]}.
Definition value_in (source : string) : Expression :=
  default (leaf EName [] [] default_span) (
    a ← head (df_architectures (parse_lines ["architecture r of e is begin x <= "%string; source; "; end;"%string])); b ← head (ab_assignments a); as_value b).
Definition one_too_many : Expression := Eval vm_compute in value_in "n + 1".

Lemma static_integers_witness : all_fit at_bound /\
  exists o, evaluateInteger one_too_many at_bound = Ret o /\ (forall z, o = Some z <-> denotes at_bound one_too_many z) /\ (forall z, o = Some z -> fits64 z = true).
Proof.
  assert (H : all_fit at_bound) by (intros n z; unfold at_bound; intros [_ <-]%lookup_singleton_Some; vm_compute; reflexivity).
  split; [exact H|]. apply (static_integers at_bound one_too_many H).
Defined.

Definition delay_scope : list (list ascii * CheckedType) :=
  let four := Some (mkRange 3 0 false default_span None None None None) in
  [(chars "d", scalar TStdLogic); (chars "a", mkChecked TUnsigned four); (chars "b", mkChecked TUnsigned four)].
Definition numeric_visible : Visibility := mkVisibility true true.
Definition conditional_sum : Expression := Eval vm_compute in value_in "a + b when d = '1' else a and not b".
Lemma checkExpression_sound_witness : complete conditional_sum = true /\
  exists t s' new, checkExpression conditional_sum (list_to_map delay_scope) numeric_visible [] unknown no_analysis = (Ret t, s') /\
    a_diagnostics s' = a_diagnostics no_analysis ++ new /\ getType s' [] = c_kind t /\
    (new = [] -> c_kind t <> TUnknown /\ typed (list_to_map delay_scope) numeric_visible conditional_sum (shape t) \/ c_kind t = TUnknown /\ has_character conditional_sum = true).
Proof. split; [vm_compute; reflexivity|]. apply (checkExpression_sound (list_to_map delay_scope) numeric_visible conditional_sum [] unknown no_analysis). vm_compute. reflexivity. Defined.

(** Every literal of [a + b when d = '1' else a and not b] has a type. *)
Lemma conditional_resolved x : ~ unresolved (list_to_map delay_scope) numeric_visible x conditional_sum.
Proof.
  assert (Hno : forall y e, has_character e = false -> ~ unresolved (list_to_map delay_scope) numeric_visible y e) by (intros y e He H%unresolved_has_character; congruence).
  intros H. inversion H as [? E|? ? ? E|? ? ? ? E|? ? ? ? ? E|? ? ? ? E|? ? c l r _ Ec _ _ Hc|? ? c l r b _ _ El Er Hb Hu]; try done; subst.
  - injection Ec as <-. inversion Hc as [? E|? ? ? E|? ? l' r' _ El' _ _ Hu|? ? l' r' t _ El' Er' Ht Hu|? ? l' r' _ El' _ _ Ek _|? ? ? ? ? E|? ? ? ? ? ? E]; try done; subst.
    + injection El' as <-. revert Hu. by apply Hno.
    + injection El' as <-. injection Er' as <-. apply unresolved_of_character in Hu; [|done]. inversion Ht; try done. subst. by cbn in Hu.
    + injection El' as <-. done.
  - injection El as <-. injection Er as <-. revert Hu. destruct Hb as [->| ->]; by apply Hno.
Qed.

Lemma sources_analyzed_witness : exists file result, parser_parse delay_source false = Ret file /\ analyze map_to_list (pr_syntax file) = Ret result /\
  (a_diagnostics result = [] -> file_ok (pr_syntax file)).
Proof. apply (sources_analyzed map_to_list delay_source false). reflexivity. Defined.
(** And the analysis has no complaint about this source. *)
Lemma delay_file_accepted : match analyze map_to_list delay_file with Ret r => a_diagnostics r | _ => [mkAnalysisDiagnostic "undefined" default_span] end = [].
Proof. vm_compute. reflexivity. Qed.

Lemma delay_classes : Forall (class_matches (process_variables delay_process)) (pr_assignments delay_process).
Proof. repeat constructor; vm_compute; reflexivity. Qed.
Lemma schedule_refines_witness : schedule delay_process = Ret delay_schedule /\ s_diagnostics delay_schedule = [] /\
  agree delay_process delay_schedule (run_activations (activate delay_process) (fun _ => 0%Z) [{[chars "d" := 1%Z]}; {[chars "d" := 2%Z]}])
    (run_activations (perform (writes delay_schedule)) (fun _ => 0%Z) [{[chars "d" := 1%Z]}; {[chars "d" := 2%Z]}]) /\
  forall n, n ∈ retainedVariables delay_schedule <-> read_first (process_variables delay_process) (pr_assignments delay_process) n.
Proof.
  split; [vm_compute; reflexivity|]. split; [reflexivity|].
  apply (schedule_refines delay_process delay_schedule (fun _ => 0%Z)); [vm_compute; reflexivity|reflexivity|apply delay_classes|by intros n _].
Defined.

Lemma accepted_process_refines_witness : parser_parse delay_source false = Ret delay_parse /\ delay_architecture ∈ df_architectures delay_file /\ delay_process ∈ ab_processes delay_architecture /\
  exists r, schedule delay_process = Ret r /\
    (s_diagnostics r = [] -> agree delay_process r (run_activations (activate delay_process) (fun _ => 0%Z) [{[chars "d" := 1%Z]}; {[chars "d" := 2%Z]}])
      (run_activations (perform (writes r)) (fun _ => 0%Z) [{[chars "d" := 1%Z]}; {[chars "d" := 2%Z]}])).
Proof.
  assert (Ha : delay_architecture ∈ df_architectures delay_file) by apply list_elem_of_here.
  assert (Hp : delay_process ∈ ab_processes delay_architecture) by apply list_elem_of_here.
  split; [vm_compute; reflexivity|]. split; [exact Ha|]. split; [exact Hp|].
  apply (accepted_process_refines map_to_list delay_source false delay_parse delay_analysis delay_architecture delay_process); [reflexivity|vm_compute; reflexivity|vm_compute; reflexivity|vm_compute; reflexivity|exact Ha|exact Hp].
Defined.

(** * Runs that show less than the documents say *)

Definition complaints_of (l : list string) : option (list string) :=
  match parser_parse (source_lines l) false with
  | Ret r => match pr_diagnostics r, analyze map_to_list (pr_syntax r) with [], Ret r => Some (ad_message <$> a_diagnostics r) | _, _ => None end
  | _ => None
  end.
(** A character literal beside a numeric vector: the comparison is complained of
    on the right, not on the left, and the sum passes for an integer. *)
Lemma character_beside_vector :
  complaints_of [imports_all; "entity e is port (a : in unsigned(3 downto 0); y : out boolean; z : out integer); end entity;"; imports_all;
    "architecture r of e is begin z <= a + '1'; y <= '1' < a; end architecture;"]%string = Some [] /\
  complaints_of [imports_all; "entity e is port (a : in unsigned(3 downto 0); y : out boolean); end entity;"; imports_all;
    "architecture r of e is begin y <= a < '1'; end architecture;"]%string <> Some [].
Proof. split; [vm_compute; reflexivity|vm_compute; discriminate]. Qed.
(** Type marks of variables do not see the generics that ports see. *)
Lemma variable_of_generic_width :
  complaints_of [imports_all; "entity e is generic (n : natural := 3); port (clk : in std_logic; a : in unsigned(n downto 0); y : out unsigned(n downto 0)); end entity;"; imports_all;
    "architecture r of e is begin process (clk) variable v : unsigned(n downto 0); begin if clk'event and clk = '1' then y <= v; v := a; end if; end process; end architecture;"]%string =
  Some ["assignment type mismatch: target is 'unsigned' but value is 'unsigned'"; "assignment type mismatch: target is 'unsigned' but value is 'unsigned'"]%string.
Proof. vm_compute. reflexivity. Qed.
